(* ===== verification/_CoqProject ===== *)
-Q . S2P
Prelude.v
Rlp.v
RlpDecode.v
RlpInput.v
TrieCodec.v
Trie.v
TrieTree.v
TrieMap.v
TrieStore.v
TrieDecode.v
TrieCommit.v
TrieDisk.v
TrieSpec.v
TrieTheorems.v
TrieProof.v
StateData.v
StateToy.v
StateDB.v
StateObs.v
StateRevert.v
StateClient.v
StateFlush.v
StateShares.v
StateLedger.v
Receipts.v
VmWord.v
VmCode.v
VmPrecompiled.v
Vm.v
VmToy.v
VmGas.v
VmInduction.v
VmEffects.v
VmRefund.v
ChainConfig.v
TxTypes.v
Sha3.v
Abi.v
Blocks.v
BitArray.v
TmTypes.v
ValidatorSet.v
VoteSet.v
HeightVotes.v
PartSet.v
Epoch.v
PendingOps.v
SideChains.v
Delegation.v
EpochSwitch.v
Transaction.v
ChainAbi.v
ConsensusState.v
ConsensusSafety.v
ConsensusTheorems.v
Tx3.v
CrossChain.v
