(* ===== verification/Prelude.v ===== *)
(** * A verification development for ligo-chain

    ligo-chain is a proof-of-stake blockchain node in Go: a fork of
    go-ethereum whose blocks are agreed on by a Tendermint consensus engine
    with aggregated BLS signatures, and whose validators are elected per epoch
    by delegated stakes.  The development models the consensus engine, the
    epochs, the tries, the state database, the virtual machine, transactions
    and blocks with their signatures, hashes and processing, the delegation
    contract, side chains and the withdrawals between them, the rewards, the hash
    function, and the encodings all this is stored and called in, and proves what
    these parts promise.  Paths below are relative to src/; the repository holds
    copies of some packages at its top level: the ones under chain/ are the ones
    modelled, and accounts/abi, which the contract of the chain uses.

    ** The parts and the files that model them

    - utilities/rlp (the encoding of everything that is stored or hashed):
      Rlp.v has the encoder with its buffer and deferred list headers, the
      streaming decoder and the raw splitter; RlpDecode.v and RlpInput.v prove
      that the encoder follows the encoding rules, that decoding inverts it,
      that accepted inputs are canonical and that decoding terminates.
    - chain/trie (the Merkle-Patricia tries that hold the state): TrieCodec.v
      has the encodings of keys, Trie.v nodes with reading, inserting and
      deleting, TrieStore.v the encoding of nodes, the database in memory and on
      disk, hashing, committing and opening.  TrieTree.v has the trees that
      nodes stand for and shows that contents determine them, TrieMap.v that
      the operations change one key, TrieDecode.v that decoding inverts
      encoding, TrieCommit.v and TrieDisk.v that what is committed can be
      loaded, TrieSpec.v the trie of a map as it is specified apart from any
      history; TrieTheorems.v puts them together.  TrieProof.v has Merkle proofs
      (proof.go) and the lists that carry them (chain/core/types/key_value.go).
    - chain/core/state (accounts, journal, snapshots, delegated shares,
      rewards, address sets, flush and commit): StateData.v has accounts and
      state objects, StateDB.v the database with its journal and every
      operation that changes it, in the state-and-panic monad [SM].  StateObs.v
      defines what can be observed of a state and the equivalence of states,
      StateRevert.v and StateClient.v prove that reverting restores every
      observation, StateFlush.v what Finalise leaves in the trie, StateShares.v
      that totals are sums of shares, and StateLedger.v reads the amounts of
      all accounts as one ledger to which each operation posts entries.
      StateToy.v is a concrete trie for the examples.
    - chain/core/vm (the virtual machine): VmWord.v has the arithmetic of
      256-bit words, VmCode.v the analysis of code, the memory and its cost,
      VmPrecompiled.v the built-in contracts, Vm.v the instructions, their
      tables, the loop and the calls.  VmGas.v proves that gas bounds every
      run; VmInduction.v is one induction over the machine against an interface
      ([machine_property]), which VmEffects.v instantiates for what a run may
      change and VmRefund.v for the refund counter; VmToy.v has contracts for
      the examples.
    - chain/core and params (transactions and blocks): ChainConfig.v has the
      configuration of a chain and its comparison with a stored one, Receipts.v
      receipts and bloom filters, Transaction.v the gas of a message, its run,
      the functions of the chain contract and the processing of a block
      (state_transition.go, ligo_state_processor.go, state_processor.go).
      TxTypes.v has transactions, their encoding, hashes and signers (chain/core/
      types/transaction.go, transaction_signing.go, utilities/crypto); Blocks.v
      headers, blocks, the roots of lists and the checks of a block (block.go,
      derive_sha.go, tendermint.go, block_validator.go).
    - utilities/crypto/sha3: Sha3.v has the unrolled permutation, the sponge and
      its hashes, and the permutation and the sponge as they are specified.
    - accounts/abi and ligoabi (calls of contracts): Abi.v has types, packing and
      unpacking, ChainAbi.v methods, selectors and the methods of the chain
      contract.
    - chain/consensus/tendermint/types (the data of consensus): BitArray.v is
      the interface of the bit arrays, TmTypes.v has votes, proposals and block
      identifiers, ValidatorSet.v validator sets and the quorum threshold,
      VoteSet.v the votes of a round, PartSet.v the parts of a block.
    - chain/consensus/tendermint/consensus: HeightVotes.v has the vote sets
      and signature aggregates of a height, ConsensusState.v the state machine
      with all its handlers, ConsensusSafety.v its invariants (a weakest
      precondition calculus over the handlers), ConsensusTheorems.v the
      guarantees over whole runs.
    - chain/consensus/tendermint/epoch: Epoch.v has epochs, their store, votes
      and the change of validators; PendingOps.v the operations that wait for a
      block to be final (chain/core/types/pending_ops.go and the vote
      operations of chain/ligochain/cross_chain.go); Delegation.v the callbacks
      of the delegation contract (internal/ligoapi/api.go); SideChains.v the
      database of side chains and their launch (chain/core/chains_info.go,
      cross_chain.go); Tx3.v the proofs of withdrawals from a side chain and
      their store (chain/core/rawdb/tx3_local_database_util.go) and CrossChain.v
      the checks that accept them (cross_chain.go); EpochSwitch.v block rewards and the end of an epoch
      (engine.go, epoch.go).

    The state machine of consensus commits blocks.  The transactions of a block
    run on the state database, by the virtual machine or, when they go to the
    chain contract, by a callback; Finalize of the engine then closes the
    block, with rewards and, at the end of an epoch, the election.  The
    operations that the callbacks leave change the votes of the next epoch
    when the block is final.

    ** How the code is rendered

    An [outcome] is a result or a panic; [result] carries a Go error; nil is
    [None].  A uint64 or int is a [Z] wrapped by [u64] and [i64]; a big.Int is
    a [Z].  Bytes are lists of [Z].  A Go map is a finite map, and where Go
    ranges over it in any order and the order can matter the order is a
    parameter.  A pointer to a live account is its address in the database, so
    that aliasing is explicit.  Code that is not in the repository enters as a
    class with its laws: the bit array, cryptography, codecs, Merkle trees and
    sorting.  So do, for the parts that only use them, tries, hashing and ABI
    unpacking, which other files model.  Each class has a concrete instance, on
    which the examples and witnesses run; for Keccak-256 one of them is the hash
    of Sha3.v.

    ** What the theorems show

    - Consensus: a committed block is backed by a verified quorum, two commits
      of a height share a signer, precommits and locks rest on prevote
      aggregates, prevotes respect the lock, rounds move forward; vote sets
      keep their invariant and report a majority exactly when there is one;
      block parts are reassembled exactly; proposers rotate, or are drawn by
      weight.
    - Epochs: the next epoch follows without a gap, its validator set has
      unique members and a bounded number of seats, and stored epochs and
      votes are read back.
    - Tries: over any history, restarts included, a trie is a map whose root
      hash is specified by its contents alone; equal roots mean equal contents;
      nodes survive their encoding.  Proofs that a trie makes verify, and those
      stored by hash are sound; those that are received are not.
    - State: reverting restores every getter; flushed accounts are read back;
      totals are sums of shares.
    - Machine: its arithmetic is arithmetic modulo 2^256, jumps land on
      instructions only, memory costs its quadratic price, gas bounds every
      run, and calls that fail or are static change nothing.
    - Blocks: the gas of all transactions adds up to what is taken from the
      limit of the block, and the fees to that gas at their prices; the price
      of data is exact; a changed configuration rewinds as far as needed.  The
      sender recovered from a signed transaction is the one that signed it, on
      its chain alone; hashes bind transactions and blocks, but for the extra
      data of a header; transactions and blocks are read back as written.
    - Withdrawals: one made on a side chain can be proved, stored, taken on the
      main chain and deleted; the checks of the proofs do not tie them to
      what the validators signed, and accept forged ones.
    - Hashing and calls: the unrolled permutation is Keccak-f[1600], hashing in
      pieces is hashing the whole; packed arguments are unpacked again, and no
      data make unpacking panic for the methods of the chain contract, but for
      those without arguments.
    - Money: no sequence of delegation transactions creates or loses coins;
      taking back moves exactly the amounts it should; the end of a block adds
      its fee and reward, and side chains that are not launched are refunded.
    - Encoding: equivalence with the rules, round trip, canonicity and
      termination.
    - Failures: inputs on which the code panics, loops, or forgets what was
      stored are theorems too; the statements say which.

    ** Bounds and fuel

    Recursion that is not structural takes fuel: the RLP decoder gets the
    length of the input plus the depth of the type, which
    [RlpInput.rlp_terminates] shows to be enough; the search for an epoch gets
    the epoch number plus one, since epochs are numbered down to 0; weighing
    validators gets their number, since each round passes or removes one.  The
    loop of the virtual machine gets one unit more than there is gas, which
    [VmGas.gas_bounds_runs] shows to be enough; the search for the hash of an
    ancestor gets the number of the block, since each header leads to a lower
    one.  The operations of a trie get two units for each nibble of the key and
    three more, decoding a node gets its length, and writing a trie to disk the
    number of nodes in memory: [TrieTheorems.trie_refines_map] shows that they
    never run out.  The loop of VerifyProof has no bound of its own: the height
    of the trie is enough for proofs that are stored by hash, and
    [TrieProof.received_proofs_prove_nothing] has one that needs more than any.
    The checks of withdrawals hand their fuel to it.  The loops of the sponge get
    one unit more than there are bytes to write or read, since each round moves
    at least one: [Sha3.hash_streaming] shows that they end.

    ** What is not modelled

    Networking, RPC servers, the gossip routines of the reactor, goroutines and
    channels around the handlers (a handler runs alone, and the order of
    messages and timeouts is arbitrary), the transaction pool, the downloader,
    wallets, the command line, and curves and ciphers, those behind the built-in
    contracts included.  Of the virtual machine, tracing, the pool of integers, the cache of jump
    destinations and the abort flag are left out, which do not change results.
    Of the tries, reference counts and the list of nodes to flush (Dereference,
    Cap), the cache of clean nodes, which answers what the disk does, iterators
    and the sync scheduler are left out.  Of the calls of contracts, reading the
    JSON form of an interface and copying values into structures are left out.
    Of side chains, their genesis and starting them are. *)
From Stdlib Require Export ZArith Lia.
From stdpp Require Export base option gmap strings numbers tactics.
From stdpp Require Export list.

(** ** Notations and basic data

    A Go [byte] is a [Z] in [0, 256); a byte slice (and a Go string used as a
    map key) is a list of such numbers. *)
Abbreviation bytes := (list Z).

Declare Scope go_scope.
Delimit Scope go_scope with go.

(** The bytes of a string. *)
Fixpoint str_bytes (s : string) : bytes :=
  match s with
  | EmptyString => []
  | String c s' => Z.of_nat (Ascii.nat_of_ascii c) :: str_bytes s'
  end.

(** ** Machine integers: a Go [uint64] or [int] (64 bit) is a [Z] kept in its
    range by the conversions below, which wrap around the way Go does. *)
Definition u64 (z : Z) : Z := z `mod` 2 ^ 64.
Definition i64 (z : Z) : Z := (z + 2 ^ 63) `mod` 2 ^ 64 - 2 ^ 63.

(** The values of the Go type [uint64]. *)
Definition is_uint64 (z : Z) : Prop := (0 <= z < 2 ^ 64)%Z.

(** ** Hashes and addresses have 32 bytes. *)
Definition HashLength : nat := 32.
Definition zeroHash : bytes := replicate HashLength 0%Z.

(** common.BytesToHash and Hash.SetBytes on a zero hash: the last 32 bytes,
    padded on the left. *)
Definition BytesToHash (b : bytes) : bytes :=
  let b := drop (length b - HashLength) b in
  replicate (HashLength - length b) 0%Z ++ b.

Lemma BytesToHash_id b : length b = HashLength -> BytesToHash b = b.
Proof. intros H. unfold BytesToHash. rewrite H, Nat.sub_diag, drop_0, H, Nat.sub_diag. done. Qed.

(** ** Panics: the result of code that returns or panics. *)
Inductive outcome (A : Type) : Type :=
  | Ret (a : A)
  | Panic (msg : string).
Arguments Ret {A} a.
Arguments Panic {A} msg.

#[export] Instance outcome_ret : MRet outcome := @Ret.
#[export] Instance outcome_bind : MBind outcome := fun A B f m =>
  match m with Ret a => f a | Panic s => Panic s end.

Lemma outcome_bind_Ret {A B} (a : A) (f : A -> outcome B) : (x ← Ret a; f x) = f a.
Proof. done. Qed.

(** ** Errors: Go's [(value, error)] results. *)
Inductive result (E A : Type) : Type :=
  | Ok (a : A)
  | Err (e : E).
Arguments Ok {E A} a.
Arguments Err {E A} e.

#[export] Instance result_ret E : MRet (result E) := @Ok E.
#[export] Instance result_bind E : MBind (result E) := fun A B f m =>
  match m with Ok a => f a | Err e => Err e end.

Lemma result_bind_Ok {E A B} (a : A) (f : A -> result E B) : (x ← Ok a; f x) = f a.
Proof. done. Qed.

Definition is_some {A} (o : option A) : bool :=
  match o with Some _ => true | None => false end.

(** [bytes.Compare] *)
Fixpoint bytes_Compare (a b : bytes) : Z :=
  match a, b with
  | [], [] => 0%Z
  | [], _ :: _ => (-1)%Z
  | _ :: _, [] => 1%Z
  | x :: a', y :: b' => if (x <? y)%Z then (-1)%Z else if (y <? x)%Z then 1%Z else bytes_Compare a' b'
  end.

(** Indexing a slice panics out of range. *)
Definition slice_get {A} (l : list A) (i : Z) : outcome A :=
  if bool_decide (0 <= i)%Z then
    match l !! Z.to_nat i with
    | Some a => Ret a
    | None => Panic "index out of range"
    end
  else Panic "index out of range".

Definition slice_set {A} (l : list A) (i : Z) (a : A) : outcome (list A) :=
  if bool_decide (0 <= i < Z.of_nat (length l))%Z
  then Ret (<[Z.to_nat i := a]> l)
  else Panic "index out of range".

(** ** Automation *)
Create HintDb go.

(** Reduce a [bind] of a known result, everywhere. *)
Ltac go_bind := unfold mbind, mret, outcome_bind, outcome_ret, result_bind, result_ret in *; cbn [mbind mret] in *.

(** Split the first [match] or [if] of the goal, remembering the equation. *)
Ltac case_goal :=
  match goal with
  | |- context [match ?x with _ => _ end] => destruct x eqn:?
  end.

(** ** Machine integers *)
Lemma u64_range z : (0 <= u64 z < 2 ^ 64)%Z.
Proof. unfold u64. apply Z.mod_pos_bound. lia. Qed.

Lemma i64_range z : (- 2 ^ 63 <= i64 z < 2 ^ 63)%Z.
Proof. unfold i64. pose proof (Z.mod_pos_bound (z + 2 ^ 63) (2 ^ 64)). lia. Qed.

Lemma u64_id z : (0 <= z < 2 ^ 64)%Z -> u64 z = z.
Proof. intros. unfold u64. by apply Z.mod_small. Qed.

Lemma i64_id z : (- 2 ^ 63 <= z < 2 ^ 63)%Z -> i64 z = z.
Proof. intros. unfold i64. rewrite Z.mod_small; lia. Qed.

Lemma i64_u64 z : i64 (u64 z) = i64 z.
Proof.
  unfold i64, u64. rewrite <- (Z.add_mod_idemp_l z) by lia. done.
Qed.

#[export] Hint Resolve u64_range i64_range : go.

(** ** Slices *)
(** big.Int.BitLen: the bits of the absolute value. *)
Definition BitLen (z : Z) : Z := (if z =? 0 then 0 else Z.log2 (Z.abs z) + 1)%Z.

Lemma BitLen_bounds a : (0 < a)%Z -> (0 < BitLen a /\ 2 ^ (BitLen a - 1) <= a < 2 ^ BitLen a)%Z.
Proof.
  intros Ha. unfold BitLen. destruct (Z.eqb_spec a 0); [lia|]. rewrite Z.abs_eq by lia.
  pose proof (Z.log2_nonneg a). pose proof (Z.log2_spec a Ha). rewrite Z.add_simpl_r, <- Z.add_1_r in *. lia.
Qed.

Lemma BitLen_lt a : (0 <= a)%Z -> (a < 2 ^ BitLen a)%Z.
Proof.
  intros Ha. destruct (Z.eq_dec a 0%Z) as [->|]; [done|]. apply BitLen_bounds. lia.
Qed.

Lemma BitLen_le a n : (0 <= n)%Z -> (0 <= a)%Z -> (BitLen a <= n <-> a < 2 ^ n)%Z.
Proof.
  intros Hn Ha. destruct (Z.eq_dec a 0%Z) as [->|]; [pose proof (Z.pow_pos_nonneg 2 n); cbn; lia|].
  pose proof (BitLen_bounds a ltac:(lia)) as (H0 & H1 & H2). split; intros H.
  - pose proof (Z.pow_le_mono_r 2 (BitLen a) n). lia.
  - destruct (Z.le_gt_cases (BitLen a) n) as [|Hc]; [done|]. pose proof (Z.pow_le_mono_r 2 n (BitLen a - 1)). lia.
Qed.

Lemma slice_get_Ret {A} (l : list A) i a :
  slice_get l i = Ret a <-> (0 <= i)%Z /\ l !! Z.to_nat i = Some a.
Proof.
  unfold slice_get. case_bool_decide; [|split; [done|lia]].
  destruct (l !! Z.to_nat i); split; intros; destruct_and?; simplify_eq; done.
Qed.

Lemma slice_get_lookup {A} (l : list A) i x : l !! i = Some x -> slice_get l (Z.of_nat i) = Ret x.
Proof.
  intros H. unfold slice_get. rewrite bool_decide_true by lia. rewrite Nat2Z.id, H. done.
Qed.

Lemma slice_get_lt {A} (l : list A) i :
  (0 <= i < Z.of_nat (length l))%Z -> exists a, slice_get l i = Ret a /\ l !! Z.to_nat i = Some a.
Proof.
  intros Hi. destruct (lookup_lt_is_Some_2 l (Z.to_nat i)) as [a Ha]; [lia|].
  exists a. split; [|done]. apply slice_get_Ret. split; [lia|done].
Qed.

Lemma slice_get_out {A} (l : list A) i :
  (i < 0 \/ Z.of_nat (length l) <= i)%Z -> slice_get l i = Panic "index out of range".
Proof.
  intros Hi. unfold slice_get. case_bool_decide; [|done].
  rewrite lookup_ge_None_2; [done|lia].
Qed.

Lemma slice_set_Ret {A} (l : list A) i a l' :
  slice_set l i a = Ret l' <->
  (0 <= i < Z.of_nat (length l))%Z /\ l' = <[Z.to_nat i := a]> l.
Proof.
  unfold slice_set. case_bool_decide as H; split.
  - by intros [= <-].
  - by intros [_ ->].
  - done.
  - by intros [? _].
Qed.

Lemma slice_set_lt {A} (l : list A) i a :
  (0 <= i < Z.of_nat (length l))%Z -> slice_set l i a = Ret (<[Z.to_nat i := a]> l).
Proof. intros. by apply slice_set_Ret. Qed.

Lemma is_some_Some {A} (o : option A) : is_some o = true <-> is_Some o.
Proof. destruct o; split; [eauto|done|done|by intros [? ?]]. Qed.

(** ** Weighted sums

    [wsum ws bs] adds the weights at the positions marked in [bs]; it is the
    voting power of a set of validator indices. *)
Fixpoint wsum (ws : list Z) (bs : list bool) : Z :=
  match ws, bs with
  | w :: ws', b :: bs' => (if b then w else 0) + wsum ws' bs'
  | _, _ => 0
  end%Z.

Fixpoint zsum (ws : list Z) : Z :=
  match ws with [] => 0 | w :: ws' => w + zsum ws' end%Z.

Lemma wsum_replicate_false ws n : wsum ws (replicate n false) = 0%Z.
Proof. revert n. induction ws; intros [|n]; simpl; [done..|]. rewrite IHws. done. Qed.

Lemma wsum_insert_true ws bs i w :
  ws !! i = Some w -> bs !! i = Some false ->
  wsum ws (<[i := true]> bs) = (wsum ws bs + w)%Z.
Proof.
  revert bs i. induction ws as [|x ws IH]; intros bs i Hw Hb; [done|].
  destruct bs as [|b bs]; [done|]. destruct i as [|i]; simplify_eq/=.
  - lia.
  - rewrite (IH bs i); [lia|done|done].
Qed.

Lemma wsum_nonneg ws bs : Forall (fun w => 0 <= w)%Z ws -> (0 <= wsum ws bs)%Z.
Proof.
  intros Hws. revert bs. induction Hws as [|w ws Hw Hws IH]; intros bs; simpl; [lia|].
  destruct bs as [|b bs]; [lia|]. specialize (IH bs). destruct b; lia.
Qed.

Lemma zsum_nonneg ws : Forall (fun w => 0 <= w)%Z ws -> (0 <= zsum ws)%Z.
Proof. induction 1; simpl; lia. Qed.

Lemma wsum_le_zsum ws bs : Forall (fun w => 0 <= w)%Z ws -> (wsum ws bs <= zsum ws)%Z.
Proof.
  intros Hws. revert bs. induction Hws as [|w ws Hw Hws IH]; intros bs; simpl; [lia|].
  pose proof (zsum_nonneg ws Hws). destruct bs as [|b bs]; [lia|].
  specialize (IH bs). destruct b; lia.
Qed.

(** Inclusion-exclusion for two sets of positions: this is what makes two
    quorums intersect. *)
Lemma wsum_overlap ws bs1 bs2 :
  Forall (fun w => 0 <= w)%Z ws ->
  length bs1 = length ws -> length bs2 = length ws ->
  (wsum ws bs1 + wsum ws bs2 <= zsum ws + wsum ws (zip_with andb bs1 bs2))%Z.
Proof.
  intros Hws. revert bs1 bs2. induction Hws as [|w ws Hw Hws IH]; intros bs1 bs2 H1 H2; simpl; [lia|].
  destruct bs1 as [|b1 bs1], bs2 as [|b2 bs2]; simplify_eq/=.
  specialize (IH bs1 bs2 H1 H2). destruct b1, b2; simpl; lia.
Qed.

Lemma wsum_pos_exists ws bs :
  (0 < wsum ws bs)%Z -> exists i w, ws !! i = Some w /\ bs !! i = Some true /\ (0 < w)%Z.
Proof.
  revert bs. induction ws as [|w ws IH]; intros bs Hp; simpl in Hp; [lia|].
  destruct bs as [|b bs]; [lia|].
  destruct (decide (0 < w /\ b = true))%Z as [[? ->]|Hn]; [by exists 0, w|].
  destruct (IH bs) as (i & w' & ? & ? & ?).
  - destruct b; [|lia]. destruct (decide (0 < w)%Z); [naive_solver|lia].
  - by exists (S i), w'.
Qed.

(** [tabulate f n] is [f 0 .. f (n-1)]. *)
Definition tabulate {A} (f : nat -> A) (n : nat) : list A := f <$> seq 0 n.

Lemma length_tabulate {A} (f : nat -> A) n : length (tabulate f n) = n.
Proof. unfold tabulate. by rewrite length_fmap, length_seq. Qed.

Lemma lookup_tabulate {A} (f : nat -> A) n i : i < n -> tabulate f n !! i = Some (f i).
Proof. intros. unfold tabulate. rewrite list_lookup_fmap, lookup_seq_lt by done. done. Qed.

Lemma tabulate_ext {A} (f : nat -> A) (l : list A) n :
  length l = n -> (forall i a, l !! i = Some a -> f i = a) -> tabulate f n = l.
Proof.
  intros Hn Hf. apply list_eq_same_length with n; [done|by rewrite length_tabulate|].
  intros i x y Hi Hx Hy. rewrite lookup_tabulate in Hx by done. simplify_eq. by apply Hf.
Qed.

Lemma forallb_Forall {A} (f : A -> bool) l : forallb f l = true <-> Forall (fun x => f x = true) l.
Proof. rewrite forallb_forall, List.Forall_forall. done. Qed.
