(* ===== verification/Rlp.v ===== *)
(** * Recursive length prefix encoding

    The package utilities/rlp, in which blocks, transactions, accounts and
    trie nodes are stored and hashed: the encoder buffer with its deferred list
    headers (encode.go), the streaming decoder (decode.go) and the raw splitter
    (raw.go).

    The Go code derives an encoder and a decoder from a type by reflection.
    Here [rtype] is the universe of the types that makeWriter and makeDecoder
    accept, [denote] gives the values of such a type, and [write] and [dec] are
    the functions makeWriter and makeDecoder select for it.  Types with their
    own EncodeRLP/DecodeRLP methods are not part of the universe.  A stream
    reads from a bytes.Reader, whose unread part is a list of bytes. *)
From S2P Require Import Prelude.
Local Open Scope Z_scope.

(** ** Bytes and big-endian integers *)

Definition byte (z : Z) : Z := z `mod` 256.

Definition is_byte (z : Z) : Prop := 0 <= z < 256.
Abbreviation is_bytes := (Forall is_byte).

(** The low [n] bytes of [i], most significant first. *)
Fixpoint be (n : nat) (i : Z) : bytes :=
  match n with
  | O => []
  | S m => byte (Z.shiftr i (8 * Z.of_nat m)) :: be m i
  end.

(** The big-endian value of a byte slice (binary.BigEndian, big.Int.SetBytes
    and the shifts of readSize). *)
Definition be_uint (b : bytes) : Z := foldl (fun s x => Z.lor (Z.shiftl s 8) x) 0 b.

(** big.Int.Bytes: no leading zero bytes. *)
Definition big_Bytes (i : Z) : bytes :=
  if i =? 0 then [] else be (Z.to_nat (Z.log2 i / 8 + 1)) i.

(** [b[0] < n], for a non-empty slice. *)
Definition head_lt (b : bytes) (n : Z) : bool :=
  match b with x :: _ => x <? n | [] => false end.

Create HintDb rlp.

(** ** Errors *)
Inductive rlp_error :=
  | EOL | EOF | ErrUnexpectedEOF
  | ErrExpectedString | ErrExpectedList | ErrCanonInt | ErrCanonSize
  | ErrElemTooLarge | ErrValueTooLarge | ErrMoreThanOneValue
  | errNotInList | errNotAtEOL | errUintOverflow
  | ErrNegative             (* "rlp: cannot encode negative *big.Int" *)
  | ErrInvalidBool          (* "rlp: invalid boolean value" *)
  | decodeError (msg : string)
  | OutOfFuel.              (* the bound of the model, never a result of the code *)

#[export] Instance rlp_error_eq_dec : EqDecision rlp_error.
Proof. solve_decision. Defined.

(** ** encode.go: headers *)

(** The bytes putint writes at the beginning of its buffer. *)
Definition putint (i : Z) : bytes :=
  if i <? 2 ^ 8 then be 1 i
  else if i <? 2 ^ 16 then be 2 i
  else if i <? 2 ^ 24 then be 3 i
  else if i <? 2 ^ 32 then be 4 i
  else if i <? 2 ^ 40 then be 5 i
  else if i <? 2 ^ 48 then be 6 i
  else if i <? 2 ^ 56 then be 7 i
  else be 8 i.

(** [intsize] shifts until nothing is left; a uint64 has eight bytes. *)
Fixpoint intsize_loop (fuel : nat) (size i : Z) : Z :=
  let i' := Z.shiftr i 8 in
  if i' =? 0 then size else
  match fuel with
  | O => size
  | S n => intsize_loop n (size + 1) i'
  end.
Definition intsize (i : Z) : Z := intsize_loop 8 1 i.

Definition headsize (size : Z) : Z := if size <? 56 then 1 else 1 + intsize size.

(** The bytes puthead writes at the beginning of its buffer. *)
Definition puthead (smalltag largetag size : Z) : bytes :=
  if size <? 56 then [byte (smalltag + byte size)]
  else let b := putint size in byte (largetag + byte (Z.of_nat (length b))) :: b.

(** ** encode.go: the encoder buffer

    A list header is identified by its position in [eb_lheads], where the Go
    code holds a pointer to it. *)
Record listhead := { lh_offset : Z; lh_size : Z }.
Record encbuf := { eb_str : bytes; eb_lheads : list listhead; eb_lhsize : Z }.

Definition encbuf_new : encbuf := {| eb_str := []; eb_lheads := []; eb_lhsize := 0 |}.

Definition listhead_encode (head : listhead) : bytes := puthead 0xC0 0xF7 (u64 (lh_size head)).

Definition encbuf_append (w : encbuf) (b : bytes) : encbuf :=
  {| eb_str := eb_str w ++ b; eb_lheads := eb_lheads w; eb_lhsize := eb_lhsize w |}.

Definition encodeStringHeader (w : encbuf) (size : Z) : encbuf :=
  if size <? 56 then encbuf_append w [byte (0x80 + byte size)]
  else
    let b := putint (u64 size) in
    encbuf_append w (byte (0xB7 + byte (Z.of_nat (length b))) :: b).

Definition encodeString (w : encbuf) (b : bytes) : encbuf :=
  match b with
  | [x] => if x <=? 0x7F then encbuf_append w [x]
           else encbuf_append (encodeStringHeader w 1) b
  | _ => encbuf_append (encodeStringHeader w (Z.of_nat (length b))) b
  end.

Definition encbuf_size (w : encbuf) : Z := Z.of_nat (length (eb_str w)) + eb_lhsize w.

Definition encbuf_list (w : encbuf) : nat * encbuf :=
  (length (eb_lheads w),
   {| eb_str := eb_str w;
      eb_lheads := eb_lheads w ++
        [{| lh_offset := Z.of_nat (length (eb_str w)); lh_size := eb_lhsize w |}];
      eb_lhsize := eb_lhsize w |}).

Definition listEnd (w : encbuf) (lh : nat) : encbuf :=
  match eb_lheads w !! lh with
  | None => w
  | Some h =>
    let size := encbuf_size w - lh_offset h - lh_size h in
    {| eb_str := eb_str w;
       eb_lheads := <[lh := {| lh_offset := lh_offset h; lh_size := size |}]> (eb_lheads w);
       eb_lhsize := if size <? 56 then eb_lhsize w + 1
                    else eb_lhsize w + (1 + intsize (u64 size)) |}
  end.

(** Go's [copy(out[pos:], src)]: the copied bytes stop at the end of [out]. *)
Definition copy_at (out : bytes) (pos : nat) (src : bytes) : bytes * nat :=
  let n := Nat.min (length out - pos) (length src) in
  (take pos out ++ take n src ++ drop (pos + n) out, n).

(** Writing [b] at [out[pos:]] by index, which panics past the end. *)
Definition put_at (out : bytes) (pos : nat) (b : bytes) : outcome bytes :=
  if bool_decide (pos + length b <= length out)%nat
  then Ret (take pos out ++ b ++ drop (pos + length b) out)
  else Panic "index out of range".

Definition slice_range (b : bytes) (i j : Z) : outcome bytes :=
  if bool_decide (0 <= i <= j /\ j <= Z.of_nat (length b))
  then Ret (take (Z.to_nat (j - i)) (drop (Z.to_nat i) b))
  else Panic "slice bounds out of range".

(** The loop of toBytes over the list headers, with its variables [out],
    [strpos] and [pos]. *)
Fixpoint toBytes_heads (str : bytes) (heads : list listhead) (out : bytes) (strpos pos : nat) :
    outcome (bytes * nat * nat) :=
  match heads with
  | [] => Ret (out, strpos, pos)
  | head :: heads' =>
    src ← slice_range str (Z.of_nat strpos) (lh_offset head);
    let '(out, n) := copy_at out pos src in
    let pos := (pos + n)%nat in
    let strpos := (strpos + n)%nat in
    let enc := listhead_encode head in
    out ← put_at out pos enc;
    toBytes_heads str heads' out strpos (pos + length enc)
  end.

Definition toBytes (w : encbuf) : outcome bytes :=
  let out := replicate (Z.to_nat (encbuf_size w)) 0 in
  x ← toBytes_heads (eb_str w) (eb_lheads w) out 0 0;
  let '(out, strpos, pos) := x in
  Ret (fst (copy_at out pos (drop strpos (eb_str w)))).

(** ** typecache.go: types and tags *)

Record tags := { nilOK : bool; tail : bool }.
Definition no_tags : tags := {| nilOK := false; tail := false |}.

Inductive rtype :=
  | TRaw                             (* rlp.RawValue *)
  | TIface                           (* interface{} *)
  | TBigPtr                          (* *big.Int *)
  | TBig                             (* big.Int *)
  | TUint (bits : Z)
  | TBool
  | TString
  | TBytes                           (* []byte *)
  | TByteArray (len : nat)           (* [len]byte *)
  | TSlice (elem : rtype)
  | TArray (len : nat) (elem : rtype)
  | TStruct (fs : fields)
  | TPtr (elem : rtype)
with fields :=
  | FNil
  | FCons (ts : tags) (t : rtype) (fs : fields).

(** The values of an interface{}: nil, []byte or []interface{}. *)
Inductive ival := INil | IBytes (b : bytes) | ISlice (l : list ival).

Fixpoint denote (t : rtype) : Type :=
  match t with
  | TRaw | TString | TBytes | TByteArray _ => bytes
  | TIface => ival
  | TBigPtr => option Z
  | TBig | TUint _ => Z
  | TBool => bool
  | TSlice e | TArray _ e => list (denote e)
  | TStruct fs => denotes fs
  | TPtr e => option (denote e)
  end
with denotes (fs : fields) : Type :=
  match fs with
  | FNil => unit
  | FCons _ t fs => denote t * denotes fs
  end.

(** reflect.Zero *)
Fixpoint zero (t : rtype) : denote t :=
  match t return denote t with
  | TRaw | TString | TBytes => []
  | TByteArray n => replicate n 0
  | TIface => INil
  | TBigPtr => None
  | TBig | TUint _ => 0
  | TBool => false
  | TSlice _ => []
  | TArray n e => replicate n (zero e)
  | TStruct fs => zeros fs
  | TPtr _ => None
  end
with zeros (fs : fields) : denotes fs :=
  match fs return denotes fs with
  | FNil => tt
  | FCons _ t fs => (zero t, zeros fs)
  end.

Definition is_slice (t : rtype) : bool :=
  match t with TSlice _ | TBytes | TRaw => true | _ => false end.

(** parseStructTag: "tail" only on the last field, which is a slice. *)
Fixpoint structFields_ok (fs : fields) : bool :=
  match fs with
  | FNil => true
  | FCons ts t fs =>
    (if tail ts then (match fs with FNil => true | _ => false end) && is_slice t else true)
    && structFields_ok fs
  end.

(** The types the Go compiler and parseStructTag allow. *)
Fixpoint valid_type (t : rtype) : bool :=
  match t with
  | TUint bits => existsb (Z.eqb bits) [8; 16; 32; 64]
  | TSlice e | TArray _ e | TPtr e => valid_type e
  | TStruct fs => structFields_ok fs && valid_fields fs
  | _ => true
  end
with valid_fields (fs : fields) : bool :=
  match fs with
  | FNil => true
  | FCons _ t fs => valid_type t && valid_fields fs
  end.

(** ** encode.go: writers *)

Abbreviation writer A := (A -> encbuf -> result rlp_error encbuf).

Definition writeUint (i : Z) (w : encbuf) : encbuf :=
  if i =? 0 then encbuf_append w [0x80]
  else if i <? 128 then encbuf_append w [byte i]
  else
    let b := putint i in
    encbuf_append w (byte (0x80 + byte (Z.of_nat (length b))) :: b).

Definition writeBool (b : bool) (w : encbuf) : encbuf :=
  if b then encbuf_append w [0x01] else encbuf_append w [0x80].

Definition writeBigInt (i : Z) (w : encbuf) : result rlp_error encbuf :=
  if i <? 0 then Err ErrNegative
  else if i =? 0 then Ok (encbuf_append w [0x80])
  else Ok (encodeString w (big_Bytes i)).

Definition writeBigIntPtr (ptr : option Z) (w : encbuf) : result rlp_error encbuf :=
  match ptr with
  | None => Ok (encbuf_append w [0x80])
  | Some i => writeBigInt i w
  end.

Definition writeString (s : bytes) (w : encbuf) : encbuf :=
  match s with
  | [x] => if x <=? 0x7f then encbuf_append w [x]
           else encbuf_append (encodeStringHeader w 1) s
  | _ => encbuf_append (encodeStringHeader w (Z.of_nat (length s))) s
  end.

(** The elements of a slice or array. *)
Fixpoint write_elems {A} (elem : writer A) (l : list A) (w : encbuf) : result rlp_error encbuf :=
  match l with
  | [] => Ok w
  | x :: l' => w ← elem x w; write_elems elem l' w
  end.

(** The writer of makeSliceWriter for tags [ts]. *)
Definition sliceWriter {A} (elem : writer A) (ts : tags) : writer (list A) := fun l w =>
  if tail ts then write_elems elem l w
  else
    let '(lh, w) := encbuf_list w in
    w ← write_elems elem l w;
    Ok (listEnd w lh).

(** writeInterface on the values nil, []byte and []interface{}. *)
Fixpoint writeInterface (v : ival) (w : encbuf) : result rlp_error encbuf :=
  match v with
  | INil => Ok (encbuf_append w [0xC0])
  | IBytes b => Ok (encodeString w b)
  | ISlice l => sliceWriter writeInterface no_tags l w
  end.

(** The writer that makeWriter selects for a type and its tags: makeStructWriter
    and makePtrWriter are its last two cases. *)
Fixpoint write (t : rtype) (ts : tags) : writer (denote t) :=
  match t return writer (denote t) with
  | TRaw => fun v w => Ok (encbuf_append w v)
  | TIface => writeInterface
  | TBigPtr => writeBigIntPtr
  | TBig => writeBigInt
  | TUint _ => fun v w => Ok (writeUint v w)
  | TBool => fun v w => Ok (writeBool v w)
  | TString => fun v w => Ok (writeString v w)
  | TBytes => fun v w => Ok (encodeString w v)
  | TByteArray _ => fun v w => Ok (encodeString w v)
  | TSlice e => sliceWriter (write e no_tags) ts
  | TArray _ e => sliceWriter (write e no_tags) ts
  | TStruct fs => fun v w =>
    let '(lh, w) := encbuf_list w in
    w ← write_fields fs v w;
    Ok (listEnd w lh)
  | TPtr e => fun v w =>
    match v with
    | Some x => write e no_tags x w
    | None =>
      match e with
      | TByteArray _ => Ok (encbuf_append w [0x80])
      | TStruct _ | TArray _ _ => let '(lh, w) := encbuf_list w in Ok (listEnd w lh)
      | _ => write e no_tags (zero e) w
      end
    end
  end
with write_fields (fs : fields) : writer (denotes fs) :=
  match fs return writer (denotes fs) with
  | FNil => fun _ w => Ok w
  | FCons ts t fs => fun v w =>
    w ← write t ts (fst v) w;
    write_fields fs (snd v) w
  end.

(** EncodeToBytes, for a type whose struct tags are well formed. *)
Definition EncodeToBytes (t : rtype) (v : denote t) : outcome (result rlp_error bytes) :=
  match write t no_tags v encbuf_new with
  | Err e => Ret (Err e)
  | Ok eb => b ← toBytes eb; Ret (Ok b)
  end.

(** ** decode.go: the stream *)
Inductive Kind := KByte | KString | KList.
#[export] Instance Kind_eq_dec : EqDecision Kind.
Proof. solve_decision. Defined.

Record listpos := { lp_pos : Z; lp_size : Z }.

(** [s_r] is the unread input; [s_kind] is [None] for -1; the innermost list is
    the head of [s_stack]. *)
Record Stream := {
  s_r : bytes;
  s_remaining : Z;
  s_limited : bool;
  s_kind : option Kind;
  s_size : Z;
  s_byteval : Z;
  s_kinderr : option rlp_error;
  s_stack : list listpos }.

Definition set_r (s : Stream) (r : bytes) : Stream :=
  {| s_r := r; s_remaining := s_remaining s; s_limited := s_limited s; s_kind := s_kind s;
     s_size := s_size s; s_byteval := s_byteval s; s_kinderr := s_kinderr s; s_stack := s_stack s |}.
Definition set_remaining (s : Stream) (n : Z) : Stream :=
  {| s_r := s_r s; s_remaining := n; s_limited := s_limited s; s_kind := s_kind s;
     s_size := s_size s; s_byteval := s_byteval s; s_kinderr := s_kinderr s; s_stack := s_stack s |}.
Definition set_kind (s : Stream) (k : option Kind) : Stream :=
  {| s_r := s_r s; s_remaining := s_remaining s; s_limited := s_limited s; s_kind := k;
     s_size := s_size s; s_byteval := s_byteval s; s_kinderr := s_kinderr s; s_stack := s_stack s |}.
Definition set_size (s : Stream) (n : Z) : Stream :=
  {| s_r := s_r s; s_remaining := s_remaining s; s_limited := s_limited s; s_kind := s_kind s;
     s_size := n; s_byteval := s_byteval s; s_kinderr := s_kinderr s; s_stack := s_stack s |}.
Definition set_byteval (s : Stream) (b : Z) : Stream :=
  {| s_r := s_r s; s_remaining := s_remaining s; s_limited := s_limited s; s_kind := s_kind s;
     s_size := s_size s; s_byteval := b; s_kinderr := s_kinderr s; s_stack := s_stack s |}.
Definition set_kinderr (s : Stream) (e : option rlp_error) : Stream :=
  {| s_r := s_r s; s_remaining := s_remaining s; s_limited := s_limited s; s_kind := s_kind s;
     s_size := s_size s; s_byteval := s_byteval s; s_kinderr := e; s_stack := s_stack s |}.
Definition set_stack (s : Stream) (st : list listpos) : Stream :=
  {| s_r := s_r s; s_remaining := s_remaining s; s_limited := s_limited s; s_kind := s_kind s;
     s_size := s_size s; s_byteval := s_byteval s; s_kinderr := s_kinderr s; s_stack := st |}.

(** A method of the stream: it changes the stream and may fail. *)
Definition D (A : Type) : Type := Stream -> Stream * result rlp_error A.
#[export] Instance D_ret : MRet D := fun A a s => (s, Ok a).
#[export] Instance D_bind : MBind D := fun A B f m s =>
  match m s with
  | (s, Ok a) => f a s
  | (s, Err e) => (s, Err e)
  end.
Definition fail {A} (e : rlp_error) : D A := fun s => (s, Err e).
Definition upd (f : Stream -> Stream) : D unit := fun s => (f s, Ok tt).
Definition get {A} (f : Stream -> A) : D A := fun s => (s, Ok (f s)).

(** [s.kind = -1] *)
Definition rearm : D unit := upd (fun s => set_kind s None).

(** [m] with its error replaced. *)
Definition map_err {A} (f : rlp_error -> rlp_error) (m : D A) : D A := fun s =>
  match m s with
  | (s, Ok a) => (s, Ok a)
  | (s, Err e) => (s, Err (f e))
  end.

(** Reset, on a bytes.Reader. *)
Definition Stream_Reset (r : bytes) (inputLimit : Z) : Stream :=
  {| s_r := r;
     s_remaining := if 0 <? inputLimit then inputLimit else Z.of_nat (length r);
     s_limited := true; s_kind := None; s_size := 0; s_byteval := 0; s_kinderr := None;
     s_stack := [] |}.

Definition willRead (n : Z) : D unit := fun s =>
  let s := set_kind s None in
  match s_stack s with
  | tos :: st =>
    if u64 (lp_size tos - lp_pos tos) <? n then (s, Err ErrElemTooLarge)
    else
      let s := set_stack s ({| lp_pos := u64 (lp_pos tos + n); lp_size := lp_size tos |} :: st) in
      if s_limited s then
        if s_remaining s <? n then (s, Err ErrValueTooLarge)
        else (set_remaining s (s_remaining s - n), Ok tt)
      else (s, Ok tt)
  | [] =>
    if s_limited s then
      if s_remaining s <? n then (s, Err ErrValueTooLarge)
      else (set_remaining s (s_remaining s - n), Ok tt)
    else (s, Ok tt)
  end.

(** ReadByte of the underlying reader. *)
Definition reader_ReadByte : D Z := fun s =>
  match s_r s with
  | b :: r => (set_r s r, Ok b)
  | [] => (s, Err ErrUnexpectedEOF)
  end.

(** Read of the underlying reader until a buffer of [n] bytes is full; a short
    input is consumed. *)
Definition reader_ReadFull (n : Z) : D bytes := fun s =>
  if bool_decide (n <= Z.of_nat (length (s_r s)))
  then (set_r s (drop (Z.to_nat n) (s_r s)), Ok (take (Z.to_nat n) (s_r s)))
  else (set_r s [], Err ErrUnexpectedEOF).

Definition readByte : D Z := willRead 1;; reader_ReadByte.

Definition readFull (n : Z) : D bytes := willRead n;; reader_ReadFull n.

Definition readUint (size : Z) : D Z :=
  if size =? 0 then rearm;; mret 0
  else if size =? 1 then readByte
  else
    b ← readFull size;
    if bool_decide (head b = Some 0) then fail ErrCanonSize
    else mret (be_uint b).

(** readKind, with the error that goes with the kind and size it returns: a
    size in long form is stored together with its error. *)
Definition readLongSize (k : Kind) (n : Z) : D (Kind * Z * option rlp_error) := fun s =>
  match readUint n s with
  | (s, Ok size) =>
    (s, Ok (k, size, if size <? 56 then Some ErrCanonSize else None))
  | (s, Err e) => (s, Ok (k, 0, Some e))
  end.

Definition Stream_readKind : D (Kind * Z * option rlp_error) := fun s =>
  match readByte s with
  | (s, Err e) =>
    (s, Ok (KByte, 0,
            Some (if bool_decide (s_stack s = []) then
                    match e with
                    | ErrUnexpectedEOF | ErrValueTooLarge => EOF
                    | e => e
                    end
                  else e)))
  | (s, Ok b) =>
    let s := set_byteval s 0 in
    if b <? 0x80 then (set_byteval s b, Ok (KByte, 0, None))
    else if b <? 0xB8 then (s, Ok (KString, b - 0x80, None))
    else if b <? 0xC0 then readLongSize KString (b - 0xB7) s
    else if b <? 0xF8 then (s, Ok (KList, b - 0xC0, None))
    else readLongSize KList (b - 0xF7) s
  end.

(** Whether the input position is at the end of the innermost list. *)
Definition at_EOL (s : Stream) : bool :=
  match s_stack s with
  | tos :: _ => lp_pos tos =? lp_size tos
  | [] => false
  end.

(** The check of a value's size against the input or the enclosing list. *)
Definition size_error (s : Stream) (size : Z) : option rlp_error :=
  match s_stack s with
  | [] => if s_limited s && (s_remaining s <? size) then Some ErrValueTooLarge else None
  | tos :: _ => if u64 (lp_size tos - lp_pos tos) <? size then Some ErrElemTooLarge else None
  end.

(** Kind: the cached kind, or the next one, with the sticky error. *)
Definition Stream_Kind : D (Kind * Z) := fun s =>
  match s_kind s with
  | Some k =>
    (s, match s_kinderr s with None => Ok (k, s_size s) | Some e => Err e end)
  | None =>
    let s := set_kinderr s None in
    if at_EOL s then (s, Err EOL)
    else
      match Stream_readKind s with
      | (s, Err e) => (s, Err e)
      | (s, Ok (k, size, err)) =>
        let kinderr := match err with Some e => Some e | None => size_error s size end in
        let s := set_kinderr (set_size (set_kind s (Some k)) size) kinderr in
        (s, match kinderr with None => Ok (k, size) | Some e => Err e end)
      end
  end.

(** Bytes *)
Definition Stream_Bytes : D bytes :=
  ks ← Stream_Kind;
  match ks with
  | (KByte, _) => rearm;; b ← get s_byteval; mret [b]
  | (KString, size) =>
    b ← readFull size;
    if (size =? 1) && head_lt b 128 then fail ErrCanonSize
    else mret b
  | (KList, _) => fail ErrExpectedString
  end.

(** Raw *)
Definition Stream_Raw : D bytes :=
  ks ← Stream_Kind;
  match ks with
  | (KByte, _) => rearm;; b ← get s_byteval; mret [b]
  | (KString, size) => b ← readFull size; mret (puthead 0x80 0xB7 size ++ b)
  | (KList, size) => b ← readFull size; mret (puthead 0xC0 0xF7 size ++ b)
  end.

(** uint *)
Definition Stream_uint (maxbits : Z) : D Z :=
  ks ← Stream_Kind;
  match ks with
  | (KByte, _) =>
    b ← get s_byteval;
    if b =? 0 then fail ErrCanonInt else rearm;; mret b
  | (KString, size) =>
    if maxbits `div` 8 <? size then fail errUintOverflow
    else
      v ← map_err (fun e => match e with ErrCanonSize => ErrCanonInt | e => e end) (readUint size);
      if (0 <? size) && (v <? 128) then fail ErrCanonSize else mret v
  | (KList, _) => fail ErrExpectedString
  end.

(** Bool *)
Definition Stream_Bool : D bool :=
  num ← Stream_uint 8;
  if num =? 0 then mret false else if num =? 1 then mret true else fail ErrInvalidBool.

(** List *)
Definition Stream_List : D Z :=
  ks ← Stream_Kind;
  match ks with
  | (KList, size) =>
    upd (fun s => set_size (set_kind (set_stack s
           ({| lp_pos := 0; lp_size := size |} :: s_stack s)) None) 0);;
    mret size
  | _ => fail ErrExpectedList
  end.

(** ListEnd *)
Definition Stream_ListEnd : D unit := fun s =>
  match s_stack s with
  | [] => (s, Err errNotInList)
  | tos :: st =>
    if lp_pos tos =? lp_size tos then
      let st := match st with
                | [] => []
                | t :: st => {| lp_pos := u64 (lp_pos t + lp_size tos); lp_size := lp_size t |} :: st
                end in
      (set_size (set_kind (set_stack s st) None) 0, Ok tt)
    else (s, Err errNotAtEOL)
  end.

(** ** decode.go: decoders

    The type and the path that a decodeError carries for its message are left
    out. *)
Definition wrapStreamError (err : rlp_error) : rlp_error :=
  match err with
  | ErrCanonInt => decodeError "non-canonical integer (leading zero bytes)"
  | ErrCanonSize => decodeError "non-canonical size information"
  | ErrExpectedList => decodeError "expected input list"
  | ErrExpectedString => decodeError "expected input string or byte"
  | errUintOverflow => decodeError "input string too long"
  | errNotAtEOL => decodeError "input list has too many elements"
  | err => err
  end.

Definition wrap {A} (m : D A) : D A := map_err wrapStreamError m.

Definition decodeBigInt : D Z :=
  b ← wrap Stream_Bytes;
  if bool_decide (head b = Some 0) then fail (wrapStreamError ErrCanonInt)
  else mret (be_uint b).

(** decodeByteArray; the error of Uint is dropped, as the code does. *)
Definition decodeByteArray (vlen : nat) : D bytes :=
  ks ← Stream_Kind;
  match ks with
  | (KByte, _) =>
    if (vlen =? 0)%nat then fail (decodeError "input string too long")
    else if (1 <? vlen)%nat then fail (decodeError "input string too short")
    else fun s => match Stream_uint 64 s with
                  | (s, Ok bv) => (s, Ok [bv])
                  | (s, Err _) => (s, Ok [0])
                  end
  | (KString, size) =>
    if Z.of_nat vlen <? size then fail (decodeError "input string too long")
    else if size <? Z.of_nat vlen then fail (decodeError "input string too short")
    else
      b ← readFull (Z.of_nat vlen);
      if (size =? 1) && head_lt b 128
      then fail (wrapStreamError ErrCanonSize)
      else mret b
  | (KList, _) => fail (wrapStreamError ErrExpectedString)
  end.

(** The loop of decodeSliceElems, which ends at the end of the list. *)
Fixpoint decodeSliceElems {A} (fuel : nat) (elemdec : D A) : D (list A) := fun s =>
  match fuel with
  | O => (s, Err OutOfFuel)
  | S n =>
    match elemdec s with
    | (s, Err EOL) => (s, Ok [])
    | (s, Err e) => (s, Err e)
    | (s, Ok x) => (l ← decodeSliceElems n elemdec; mret (x :: l)) s
    end
  end.

Definition decodeListSlice {A} (fuel : nat) (elemdec : D A) : D (list A) :=
  size ← wrap Stream_List;
  if size =? 0 then Stream_ListEnd;; mret []
  else l ← decodeSliceElems fuel elemdec; Stream_ListEnd;; mret l.

(** The loop of decodeListArray over [vlen] elements. *)
Fixpoint decodeArrayElems {A} (vlen : nat) (elemdec : D A) : D (list A) := fun s =>
  match vlen with
  | O => (s, Ok [])
  | S n =>
    match elemdec s with
    | (s, Err EOL) => (s, Err (decodeError "input list has too few elements"))
    | (s, Err e) => (s, Err e)
    | (s, Ok x) => (l ← decodeArrayElems n elemdec; mret (x :: l)) s
    end
  end.

Definition decodeListArray {A} (vlen : nat) (elemdec : D A) : D (list A) :=
  _ ← wrap Stream_List;
  l ← decodeArrayElems vlen elemdec;
  wrap Stream_ListEnd;;
  mret l.

Fixpoint decodeInterface (fuel : nat) : D ival := fun s =>
  match fuel with
  | O => (s, Err OutOfFuel)
  | S n =>
    (ks ← Stream_Kind;
     match ks with
     | (KList, _) => l ← decodeListSlice fuel (decodeInterface n); mret (ISlice l)
     | _ => b ← Stream_Bytes; mret (IBytes b)
     end) s
  end.

(** The decoder of makeOptionalPtrDecoder. *)
Definition optionalPtr {A} (dec : D A) : D (option A) := fun s =>
  match Stream_Kind s with
  | (s, Err e) => (set_kind s None, Err e)
  | (s, Ok (k, size)) =>
    if (size =? 0) && negb (bool_decide (k = KByte)) then (set_kind s None, Ok None)
    else (x ← dec; mret (Some x)) s
  end.

(** The decoder that makeDecoder selects for a type and its tags; [fuel] bounds
    the number of elements of a list and the nesting of interface{} values. *)
Fixpoint dec (fuel : nat) (t : rtype) (ts : tags) : D (denote t) :=
  match t return D (denote t) with
  | TRaw => Stream_Raw
  | TIface => decodeInterface fuel
  | TBigPtr => i ← decodeBigInt; mret (Some i)
  | TBig => decodeBigInt
  | TUint bits => wrap (Stream_uint bits)
  | TBool => wrap Stream_Bool
  | TString => wrap Stream_Bytes
  | TBytes => wrap Stream_Bytes
  | TByteArray n => decodeByteArray n
  | TSlice e =>
    if tail ts then decodeSliceElems fuel (dec fuel e no_tags)
    else decodeListSlice fuel (dec fuel e no_tags)
  | TArray n e => decodeListArray n (dec fuel e no_tags)
  | TStruct fs =>
    _ ← wrap Stream_List;
    v ← dec_fields fuel fs;
    wrap Stream_ListEnd;;
    mret v
  | TPtr e =>
    if nilOK ts then optionalPtr (dec fuel e no_tags)
    else x ← dec fuel e no_tags; mret (Some x)
  end
with dec_fields (fuel : nat) (fs : fields) : D (denotes fs) :=
  match fs return D (denotes fs) with
  | FNil => mret tt
  | FCons ts t fs =>
    x ← map_err (fun e => match e with EOL => decodeError "too few elements" | e => e end)
                (dec fuel t ts);
    xs ← dec_fields fuel fs;
    mret (x, xs)
  end.

(** DecodeBytes: exactly one value and no trailing data. *)
Definition DecodeBytes (t : rtype) (b : bytes) : result rlp_error (denote t) :=
  match dec (S (length b)) t no_tags (Stream_Reset b (Z.of_nat (length b))) with
  | (s, Ok v) => if bool_decide (s_r s = []) then Ok v else Err ErrMoreThanOneValue
  | (s, Err e) => Err e
  end.

(** ** raw.go *)

(** readSize; [slen] is between 1 and 8. *)
Definition readSize (b : bytes) (slen : Z) : result rlp_error Z :=
  if Z.of_nat (length b) <? slen then Err ErrUnexpectedEOF
  else
    let s := be_uint (take (Z.to_nat slen) b) in
    if (s <? 56) || bool_decide (head b = Some 0) then Err ErrCanonSize else Ok s.

(** readKind: kind, tag size and content size. *)
Definition raw_readKind (buf : bytes) : result rlp_error (Kind * Z * Z) :=
  match buf with
  | [] => Err ErrUnexpectedEOF
  | b :: buf' =>
    x ← (if b <? 0x80 then Ok (KByte, 0, 1)
         else if b <? 0xB8 then
           let contentsize := b - 0x80 in
           if (contentsize =? 1) && head_lt buf' 128 then Err ErrCanonSize
           else Ok (KString, 1, contentsize)
         else if b <? 0xC0 then
           contentsize ← readSize buf' (b - 0xB7);
           Ok (KString, b - 0xB7 + 1, contentsize)
         else if b <? 0xF8 then Ok (KList, 1, b - 0xC0)
         else
           contentsize ← readSize buf' (b - 0xF7);
           Ok (KList, b - 0xF7 + 1, contentsize));
    let '(k, tagsize, contentsize) := x in
    if u64 (Z.of_nat (length buf) - tagsize) <? contentsize then Err ErrValueTooLarge
    else Ok (k, tagsize, contentsize)
  end.

(** Split: the content of the first value and the bytes after it. *)
Definition Split (b : bytes) : result rlp_error (Kind * bytes * bytes) :=
  x ← raw_readKind b;
  let '(k, ts, cs) := x in
  Ok (k, take (Z.to_nat cs) (drop (Z.to_nat ts) b), drop (Z.to_nat (ts + cs)) b).

Definition SplitString (b : bytes) : result rlp_error (bytes * bytes) :=
  x ← Split b;
  let '(k, content, rest) := x in
  if bool_decide (k = KList) then Err ErrExpectedString else Ok (content, rest).

Definition SplitList (b : bytes) : result rlp_error (bytes * bytes) :=
  x ← Split b;
  let '(k, content, rest) := x in
  if bool_decide (k = KList) then Ok (content, rest) else Err ErrExpectedList.

(** CountValues; every value takes at least one byte. *)
Fixpoint CountValues_loop (fuel : nat) (b : bytes) (i : Z) : result rlp_error Z :=
  match b with
  | [] => Ok i
  | _ =>
    match fuel with
    | O => Err OutOfFuel
    | S n =>
      x ← raw_readKind b;
      let '(_, tagsize, size) := x in
      CountValues_loop n (drop (Z.to_nat (tagsize + size)) b) (i + 1)
    end
  end.
Definition CountValues (b : bytes) : result rlp_error Z := CountValues_loop (length b) b 0.

Definition ListSize (contentSize : Z) : Z := u64 (headsize contentSize + contentSize).

(** ** Reference encoding

    The encoding rules, written as a recursive function on values: a string or
    a list is its header followed by its content. *)
Definition rstr (b : bytes) : bytes :=
  match b with
  | [x] => if x <=? 0x7F then [x] else puthead 0x80 0xB7 1 ++ b
  | _ => puthead 0x80 0xB7 (Z.of_nat (length b)) ++ b
  end.

Definition rlist (payload : bytes) : bytes :=
  puthead 0xC0 0xF7 (Z.of_nat (length payload)) ++ payload.

Definition rint (i : Z) : bytes := rstr (big_Bytes i).

Fixpoint renc_iface (v : ival) : bytes :=
  match v with
  | INil => rlist []
  | IBytes b => rstr b
  | ISlice l => rlist (concat (map renc_iface l))
  end.

Fixpoint renc (t : rtype) (ts : tags) : denote t -> bytes :=
  match t return denote t -> bytes with
  | TRaw => fun v => v
  | TIface => renc_iface
  | TBigPtr => fun v => match v with Some i => rint i | None => rint 0 end
  | TBig | TUint _ => rint
  | TBool => fun v => rint (if v then 1 else 0)
  | TString | TBytes | TByteArray _ => rstr
  | TSlice e | TArray _ e => fun v =>
    let payload := concat (map (renc e no_tags) v) in
    if tail ts then payload else rlist payload
  | TStruct fs => fun v => rlist (renc_fields fs v)
  | TPtr e => fun v =>
    match v with
    | Some x => renc e no_tags x
    | None =>
      match e with
      | TByteArray _ => rstr []
      | TStruct _ | TArray _ _ => rlist []
      | _ => renc e no_tags (zero e)
      end
    end
  end
with renc_fields (fs : fields) : denotes fs -> bytes :=
  match fs return denotes fs -> bytes with
  | FNil => fun _ => []
  | FCons ts t fs => fun v => renc t ts (fst v) ++ renc_fields fs (snd v)
  end.

(** The values of a Go type: bytes are bytes, unsigned integers fit their
    width, arrays have their length. *)
Fixpoint ival_wt (v : ival) : Prop :=
  match v with
  | INil => True
  | IBytes b => is_bytes b
  | ISlice l => foldr (fun x P => ival_wt x /\ P) True l
  end.

Fixpoint wt (t : rtype) : denote t -> Prop :=
  match t return denote t -> Prop with
  | TRaw | TString | TBytes => is_bytes
  | TByteArray n => fun v => is_bytes v /\ length v = n
  | TIface => ival_wt
  | TBigPtr | TBig | TBool => fun _ => True
  | TUint bits => fun v => 0 <= v < 2 ^ bits
  | TSlice e => Forall (wt e)
  | TArray n e => fun v => Forall (wt e) v /\ length v = n
  | TStruct fs => wts fs
  | TPtr e => fun v => match v with Some x => wt e x | None => True end
  end
with wts (fs : fields) : denotes fs -> Prop :=
  match fs return denotes fs -> Prop with
  | FNil => fun _ => True
  | FCons _ t fs => fun v => wt t (fst v) /\ wts fs (snd v)
  end.

(** No negative big.Int. *)
Fixpoint encodable (t : rtype) : denote t -> bool :=
  match t return denote t -> bool with
  | TBigPtr => fun v => match v with Some i => 0 <=? i | None => true end
  | TBig => fun v => 0 <=? v
  | TSlice e | TArray _ e => forallb (encodable e)
  | TStruct fs => encodables fs
  | TPtr e => fun v => match v with Some x => encodable e x | None => true end
  | _ => fun _ => true
  end
with encodables (fs : fields) : denotes fs -> bool :=
  match fs return denotes fs -> bool with
  | FNil => fun _ => true
  | FCons _ t fs => fun v => encodable t (fst v) && encodables fs (snd v)
  end.

(** ** Big-endian integers *)

Lemma byte_range z : is_byte (byte z).
Proof. unfold is_byte, byte. apply Z.mod_pos_bound. lia. Qed.

Lemma byte_id z : 0 <= z < 256 -> byte z = z.
Proof. intros. unfold byte. by apply Z.mod_small. Qed.

Lemma length_be n i : length (be n i) = n.
Proof. induction n; simpl; congruence. Qed.

Lemma be_bytes n i : is_bytes (be n i).
Proof. induction n; simpl; constructor; [apply byte_range|done]. Qed.

Lemma be_snoc n i : be (S n) i = be n (Z.shiftr i 8) ++ [byte i].
Proof.
  induction n as [|n IH]; [done|].
  change (be (S (S n)) i) with (byte (Z.shiftr i (8 * Z.of_nat (S n))) :: be (S n) i).
  rewrite IH. simpl. rewrite Z.shiftr_shiftr by lia. repeat f_equal. lia.
Qed.

Lemma lor_shiftl s x : is_byte x -> Z.lor (Z.shiftl s 8) x = s * 256 + x.
Proof.
  intros [Hx1 Hx2].
  assert (Z.land (Z.shiftl s 8) x = 0) as H0.
  { apply Z.bits_inj'. intros n Hn. rewrite Z.land_spec, Z.bits_0.
    destruct (decide (n < 8)); [by rewrite Z.shiftl_spec_low|].
    pose proof (Z.pow_le_mono_r 2 8 n).
    assert (Z.testbit x n = false) as ->; [|apply andb_false_r].
    apply Z.testbit_false; [done|]. rewrite Z.div_small by lia. done. }
  rewrite <- Z.lxor_lor, <- Z.add_nocarry_lxor by done.
  rewrite Z.shiftl_mul_pow2 by lia. done.
Qed.

Lemma be_uint_snoc b x : is_byte x -> be_uint (b ++ [x]) = be_uint b * 256 + x.
Proof. intros. unfold be_uint. rewrite foldl_app. by apply lor_shiftl. Qed.

Lemma length_last {A} (l : list A) x : length (l ++ [x]) = S (length l).
Proof. rewrite length_app. simpl. lia. Qed.

Lemma pow256 n : 2 ^ (8 * Z.of_nat (S n)) = 2 ^ (8 * Z.of_nat n) * 256.
Proof. change 256 with (2 ^ 8). rewrite <- Z.pow_add_r by lia. f_equal. lia. Qed.

Lemma be_uint_be n i : be_uint (be n i) = i `mod` 2 ^ (8 * Z.of_nat n).
Proof.
  revert i. induction n as [|n IH]; intros i; [by rewrite Z.mod_1_r|].
  rewrite be_snoc, be_uint_snoc, IH, pow256 by apply byte_range.
  rewrite Z.shiftr_div_pow2 by lia. unfold byte. change (2 ^ 8) with 256.
  rewrite (Z.mul_comm (2 ^ _) 256), Z.rem_mul_r; lia.
Qed.

Lemma be_uint_bound b : is_bytes b -> 0 <= be_uint b < 2 ^ (8 * Z.of_nat (length b)).
Proof.
  induction b as [|x b IH] using rev_ind; [done|]. intros [Hb Hx]%Forall_app.
  rewrite Forall_singleton in Hx. rewrite be_uint_snoc, length_last, pow256 by done.
  unfold is_byte in Hx. specialize (IH Hb). lia.
Qed.

Lemma be_be_uint b : is_bytes b -> be (length b) (be_uint b) = b.
Proof.
  induction b as [|x b IH] using rev_ind; [done|]. intros [Hb Hx]%Forall_app.
  rewrite Forall_singleton in Hx.
  rewrite be_uint_snoc, length_last, be_snoc by done.
  rewrite Z.shiftr_div_pow2 by lia. change (2 ^ 8) with 256. unfold is_byte in Hx.
  rewrite Z.div_add_l, Z.div_small, Z.add_0_r, IH by (done || lia).
  f_equal. f_equal. unfold byte. rewrite Z.add_comm, Z_mod_plus_full. by apply Z.mod_small.
Qed.

Lemma be_uint_zeros n b : be_uint (replicate n 0 ++ b) = be_uint b.
Proof. induction n as [|n IH]; [done|]. exact IH. Qed.

(** [n] bytes are what [i] takes: its representation has no leading zero. *)
Definition takes (n : nat) (i : Z) : Prop :=
  2 ^ (8 * (Z.of_nat n - 1)) <= i < 2 ^ (8 * Z.of_nat n) /\ (1 <= n)%nat.

Lemma be_uint_takes n i : takes n i -> be_uint (be n i) = i.
Proof.
  intros [[H1 H2] _]. rewrite be_uint_be, Z.mod_small; [done|].
  split; [|done]. pose proof (Z.pow_nonneg 2 (8 * (Z.of_nat n - 1))). lia.
Qed.

Lemma be_takes_head n i : takes n i -> exists x l, be n i = x :: l /\ 0 < x < 256.
Proof.
  intros [[H1 H2] Hn]. destruct n as [|n]; [lia|]. simpl. eexists _, _. split; [done|].
  replace (8 * (Z.of_nat (S n) - 1)) with (8 * Z.of_nat n) in H1 by lia.
  rewrite Z.shiftr_div_pow2 by lia. rewrite pow256 in H2.
  pose proof (Z.pow_pos_nonneg 2 (8 * Z.of_nat n)).
  assert (1 <= i / 2 ^ (8 * Z.of_nat n) < 256).
  { split; [apply Z.div_le_lower_bound; lia|apply Z.div_lt_upper_bound; lia]. }
  rewrite byte_id; lia.
Qed.

Lemma takes_inj n m i : takes n i -> takes m i -> n = m.
Proof.
  assert (forall n m i, takes n i -> takes m i -> (n <= m)%nat) as Hle.
  { clear. intros n m i [[H1 _] Hn] [[_ H2] Hm].
    destruct (decide (n <= m)%nat); [done|].
    pose proof (Z.pow_le_mono_r 2 (8 * Z.of_nat m) (8 * (Z.of_nat n - 1))). lia. }
  intros. apply Nat.le_antisymm; eauto.
Qed.

(** A string without leading zero is the representation of its value. *)
Lemma takes_be_uint b x l :
  is_bytes b -> b = x :: l -> x <> 0 -> takes (length b) (be_uint b).
Proof.
  intros Hb -> Hx. pose proof (be_uint_bound _ Hb) as [H1 H2]. split; [|simpl; lia].
  split; [|done]. apply Forall_cons in Hb as [Hx' Hl]. simpl length.
  replace (8 * (Z.of_nat (S (length l)) - 1)) with (8 * Z.of_nat (length l)) by lia.
  unfold is_byte in Hx'. clear H1 H2.
  induction l as [|y l IH] using rev_ind; [change (1 <= Z.lor 0 x); rewrite Z.lor_0_l; lia|].
  apply Forall_app in Hl as [Hl Hy]. rewrite Forall_singleton in Hy. specialize (IH Hl).
  rewrite length_last, pow256, app_comm_cons, be_uint_snoc by done.
  unfold is_byte in Hy. lia.
Qed.

Lemma putint_takes i : 1 <= i < 2 ^ 64 ->
  exists n, putint i = be n i /\ takes n i /\ (n <= 8)%nat.
Proof.
  intros Hi. unfold putint, takes.
  repeat match goal with |- context [?a <? ?b] => destruct (Z.ltb_spec a b) end;
    eexists; (split; [reflexivity|]); simpl; lia.
Qed.

Lemma big_Bytes_takes i : 1 <= i -> exists n, big_Bytes i = be n i /\ takes n i.
Proof.
  intros Hi. unfold big_Bytes, takes. destruct (Z.eqb_spec i 0); [lia|].
  eexists. split; [reflexivity|].
  pose proof (Z.log2_spec i) as [H1 H2]; [lia|]. pose proof (Z.log2_nonneg i).
  pose proof (Z.div_mod (Z.log2 i) 8) as Hd. pose proof (Z.mod_pos_bound (Z.log2 i) 8).
  set (q := Z.log2 i `div` 8) in *.
  assert (0 <= q) by (apply Z.div_pos; lia).
  rewrite Z2Nat.id by lia. split; [|lia].
  pose proof (Z.pow_le_mono_r 2 (8 * (q + 1 - 1)) (Z.log2 i)).
  pose proof (Z.pow_le_mono_r 2 (Z.succ (Z.log2 i)) (8 * (q + 1))). lia.
Qed.

Lemma intsize_loop_takes fuel n i k :
  takes n i -> (n <= S fuel)%nat -> intsize_loop fuel k i = k + Z.of_nat n - 1.
Proof.
  revert n i k. induction fuel as [|fuel IH]; intros n i k Ht Hn.
  - destruct Ht as [_ Ht]. simpl. case_match; lia.
  - simpl. rewrite Z.shiftr_div_pow2 by lia. change (2 ^ 8) with 256.
    destruct Ht as [[H1 H2] H3]. destruct n as [|[|n]]; [lia|..].
    + rewrite Z.div_small by (simpl in *; lia). simpl. lia.
    + rewrite pow256 in H2.
      replace (8 * (Z.of_nat (S (S n)) - 1)) with (8 * Z.of_nat (S n)) in H1 by lia.
      rewrite pow256 in H1.
      assert (2 ^ (8 * Z.of_nat n) <= i / 256 < 2 ^ (8 * Z.of_nat (S n))) as Hq.
      { split; [apply Z.div_le_lower_bound; lia|apply Z.div_lt_upper_bound; lia]. }
      pose proof (Z.pow_pos_nonneg 2 (8 * Z.of_nat n)).
      destruct (Z.eqb_spec (i / 256) 0); [lia|].
      rewrite (IH (S n)); [lia| |lia]. split; [|lia].
      replace (8 * (Z.of_nat (S n) - 1)) with (8 * Z.of_nat n) by lia. done.
Qed.

Lemma intsize_putint i : 1 <= i < 2 ^ 64 -> intsize i = Z.of_nat (length (putint i)).
Proof.
  intros Hi. destruct (putint_takes i Hi) as (n & -> & Ht & Hn).
  unfold intsize. rewrite (intsize_loop_takes 8 n), length_be by (done || lia). lia.
Qed.

(** ** The encoder buffer produces the reference encoding

    [weave pos str hs] inserts the headers [hs] into the string data [str],
    which starts at offset [pos]. *)
Fixpoint weave (pos : Z) (str : bytes) (hs : list listhead) : bytes :=
  match hs with
  | [] => str
  | h :: hs' =>
    let n := Z.to_nat (lh_offset h - pos) in
    take n str ++ listhead_encode h ++ weave (lh_offset h) (drop n str) hs'
  end.

(** The headers are in order, between the offsets [lo] and [hi]. *)
Fixpoint heads_in (lo hi : Z) (hs : list listhead) : Prop :=
  match hs with
  | [] => lo <= hi
  | h :: hs' => lo <= lh_offset h /\ heads_in (lh_offset h) hi hs'
  end.

Definition hsum (hs : list listhead) : Z :=
  foldr (fun h n => Z.of_nat (length (listhead_encode h)) + n) 0 hs.

Lemma heads_in_le lo hi hs : heads_in lo hi hs -> lo <= hi.
Proof. revert lo. induction hs as [|h hs IH]; simpl; [done|]. intros lo [? ?%IH]. lia. Qed.

Lemma heads_in_app lo mid hi hs1 hs2 :
  heads_in lo mid hs1 -> heads_in mid hi hs2 -> heads_in lo hi (hs1 ++ hs2).
Proof.
  revert lo. induction hs1 as [|h hs1 IH]; simpl; intros lo H1 H2.
  - destruct hs2; simpl in *; [lia|]. destruct H2. split; [lia|done].
  - destruct H1. eauto.
Qed.

Lemma hsum_app hs1 hs2 : hsum (hs1 ++ hs2) = hsum hs1 + hsum hs2.
Proof. unfold hsum. induction hs1; simpl; [done|]. lia. Qed.

Lemma length_weave pos str hs :
  heads_in pos (pos + Z.of_nat (length str)) hs ->
  Z.of_nat (length (weave pos str hs)) = Z.of_nat (length str) + hsum hs.
Proof.
  revert pos str. induction hs as [|h hs IH]; intros pos str Hin; simpl; [lia|].
  destruct Hin as [Hp Hin]. pose proof (heads_in_le _ _ _ Hin).
  rewrite !length_app, length_take, !Nat2Z.inj_add, IH.
  - rewrite length_drop. unfold hsum. simpl. lia.
  - rewrite length_drop. replace (lh_offset h + _) with (pos + Z.of_nat (length str)) by lia. done.
Qed.

Lemma weave_app pos s1 s2 hs1 hs2 :
  heads_in pos (pos + Z.of_nat (length s1)) hs1 ->
  heads_in (pos + Z.of_nat (length s1)) (pos + Z.of_nat (length s1) + Z.of_nat (length s2)) hs2 ->
  weave pos (s1 ++ s2) (hs1 ++ hs2) =
  weave pos s1 hs1 ++ weave (pos + Z.of_nat (length s1)) s2 hs2.
Proof.
  revert pos s1. induction hs1 as [|h hs1 IH]; intros pos s1 H1 H2; simpl in *.
  - destruct hs2 as [|h hs2]; simpl; [done|]. destruct H2 as [H2 _].
    rewrite take_app_ge, drop_app_ge, <- app_assoc by lia.
    replace (Z.to_nat (lh_offset h - (pos + Z.of_nat (length s1))))
      with (Z.to_nat (lh_offset h - pos) - length s1)%nat by lia. done.
  - destruct H1 as [Hp Hin]. pose proof (heads_in_le _ _ _ Hin).
    rewrite take_app_le, drop_app_le by lia. rewrite <- !app_assoc. do 2 f_equal.
    assert (lh_offset h + Z.of_nat (length (drop (Z.to_nat (lh_offset h - pos)) s1))
            = pos + Z.of_nat (length s1)) as E by (rewrite length_drop; lia).
    rewrite IH; rewrite E; done.
Qed.

(** Going from [w] to [w'] appends the encoding [out]. *)
Definition writes (w w' : encbuf) (out : bytes) : Prop :=
  exists s hs,
    eb_str w' = eb_str w ++ s /\ eb_lheads w' = eb_lheads w ++ hs /\
    heads_in (Z.of_nat (length (eb_str w))) (Z.of_nat (length (eb_str w'))) hs /\
    eb_lhsize w' = eb_lhsize w + hsum hs /\
    weave (Z.of_nat (length (eb_str w))) s hs = out.

Lemma writes_refl w : writes w w [].
Proof. exists [], []. rewrite !app_nil_r. repeat split; simpl; lia. Qed.

Lemma writes_trans w1 w2 w3 o1 o2 :
  writes w1 w2 o1 -> writes w2 w3 o2 -> writes w1 w3 (o1 ++ o2).
Proof.
  intros (s1 & hs1 & S1 & L1 & I1 & Z1 & W1) (s2 & hs2 & S2 & L2 & I2 & Z2 & W2).
  exists (s1 ++ s2), (hs1 ++ hs2).
  rewrite S2, S1, L2, L1, !app_assoc, hsum_app. split_and!; [done..| |lia|].
  - rewrite S2, S1 in I2. rewrite S1 in I1. by eapply heads_in_app.
  - rewrite S2, S1, !length_app, !Nat2Z.inj_add in I2. rewrite S1, length_app, Nat2Z.inj_add in I1.
    rewrite weave_app, W1 by done. f_equal. rewrite <- W2, S1, length_app, Nat2Z.inj_add. done.
Qed.

Lemma writes_append w b : writes w (encbuf_append w b) b.
Proof.
  exists b, []. simpl. rewrite app_nil_r, length_app. repeat split; simpl; lia.
Qed.

Lemma writes_size w w' out :
  writes w w' out -> encbuf_size w' = encbuf_size w + Z.of_nat (length out).
Proof.
  intros (s & hs & S1 & _ & I1 & Z1 & <-). unfold encbuf_size.
  rewrite S1, length_app, Nat2Z.inj_add in I1.
  rewrite length_weave, S1, Z1, length_app by done. lia.
Qed.

Lemma length_puthead st lt size : 0 <= size < 2 ^ 64 ->
  Z.of_nat (length (puthead st lt size)) = headsize size.
Proof.
  intros Hs. unfold puthead, headsize. destruct (Z.ltb_spec size 56); [done|].
  simpl. rewrite intsize_putint by lia. lia.
Qed.

(** A list header, opened before and closed after its content. *)
Lemma writes_list w lh w1 w2 payload :
  encbuf_list w = (lh, w1) -> writes w1 w2 payload ->
  Z.of_nat (length payload) < 2 ^ 64 ->
  writes w (listEnd w2 lh) (rlist payload).
Proof.
  intros [= <- <-] Hw Hlen. pose proof (writes_size _ _ _ Hw) as Hsz.
  destruct Hw as (s & hs & S1 & L1 & I1 & Z1 & W1). unfold listEnd.
  rewrite L1. simpl in *. rewrite <- app_assoc in *. simpl in *.
  rewrite list_lookup_middle by done. simpl.
  set (size := encbuf_size w2 - _ - _).
  assert (size = Z.of_nat (length payload)) as Esz.
  { unfold size. rewrite Hsz. unfold encbuf_size. simpl. lia. }
  set (h := {| lh_offset := _; lh_size := size |}).
  assert (Z.of_nat (length (listhead_encode h)) = headsize size) as Eh.
  { unfold listhead_encode. simpl. rewrite u64_id, length_puthead; lia. }
  exists s, (h :: hs). unfold rlist. simpl.
  rewrite insert_app_r_alt, Nat.sub_diag by lia. simpl. split_and!; [done|done|lia|done| |].
  - rewrite Z1. unfold headsize in Eh. rewrite u64_id by lia.
    unfold hsum at 2. simpl. fold (hsum hs). rewrite Eh. case_match; lia.
  - rewrite Z.sub_diag, take_0, drop_0. simpl. rewrite W1. f_equal.
    unfold listhead_encode. simpl. rewrite Esz, u64_id by lia. done.
Qed.

#[local] Arguments copy_at : simpl never.
#[local] Arguments put_at : simpl never.
#[local] Arguments slice_range : simpl never.
#[local] Arguments listhead_encode : simpl never.

(** toBytes puts every header in its place, without leaving the buffer. *)
Lemma copy_at_fits out pos done k src :
  out = done ++ replicate k 0 -> length done = pos -> (length src <= k)%nat ->
  copy_at out pos src = (done ++ src ++ replicate (k - length src) 0, length src).
Proof.
  intros -> <- Hk. unfold copy_at. rewrite length_app, length_replicate.
  replace (Nat.min _ _) with (length src) by lia.
  rewrite take_app_length, drop_app_ge, take_ge by lia.
  rewrite drop_replicate. do 4 f_equal. lia.
Qed.

Lemma put_at_fits out pos done k b :
  out = done ++ replicate k 0 -> length done = pos -> (length b <= k)%nat ->
  put_at out pos b = Ret ((done ++ b) ++ replicate (k - length b) 0).
Proof.
  intros -> <- Hk. unfold put_at. rewrite length_app, length_replicate, bool_decide_true by lia.
  rewrite take_app_length, drop_app_ge, drop_replicate, <- app_assoc by lia.
  do 4 f_equal. lia.
Qed.

Lemma slice_range_ok str i j : 0 <= i <= j -> j <= Z.of_nat (length str) ->
  slice_range str i j = Ret (take (Z.to_nat (j - i)) (drop (Z.to_nat i) str)).
Proof. intros. unfold slice_range. by rewrite bool_decide_true. Qed.

Lemma toBytes_heads_spec str hs done strpos pos k out :
  heads_in (Z.of_nat strpos) (Z.of_nat (length str)) hs ->
  out = done ++ replicate k 0 -> length done = pos ->
  Z.of_nat (length (weave (Z.of_nat strpos) (drop strpos str) hs)) = Z.of_nat k ->
  exists out' strpos' pos',
    toBytes_heads str hs out strpos pos = Ret (out', strpos', pos') /\
    fst (copy_at out' pos' (drop strpos' str)) =
      done ++ weave (Z.of_nat strpos) (drop strpos str) hs.
Proof.
  revert done strpos pos k out.
  induction hs as [|h hs IH]; intros done strpos pos k out Hin Hout Hpos Hk;
    cbn [toBytes_heads weave].
  - eexists _, _, _. split; [done|]. simpl in Hk.
    rewrite (copy_at_fits _ _ done k) by (done || lia). cbn [fst].
    replace (k - _)%nat with 0%nat by lia. by rewrite app_nil_r.
  - destruct Hin as [Hp Hin]. pose proof (heads_in_le _ _ _ Hin) as Hle.
    rewrite slice_range_ok, Nat2Z.id by lia. rewrite outcome_bind_Ret.
    set (src := take _ _). simpl in Hk. fold src in Hk.
    rewrite drop_drop, !length_app in Hk.
    rewrite (copy_at_fits _ _ done k) by (done || lia). cbv beta iota.
    rewrite (put_at_fits _ _ (done ++ src) (k - length src));
      [|by rewrite app_assoc|by rewrite length_app, Hpos|lia].
    rewrite outcome_bind_Ret.
    assert (length src = Z.to_nat (lh_offset h - Z.of_nat strpos)) as Es.
    { unfold src. rewrite length_take, length_drop. lia. }
    assert (Z.of_nat (strpos + length src) = lh_offset h) as Eo by lia.
    edestruct (IH ((done ++ src) ++ listhead_encode h) (strpos + length src)%nat)
      as (o & sp & p & E1 & E2); [by rewrite Eo|reflexivity| |..].
    3: { eexists _, _, _. split; [exact E1|]. rewrite E2, Eo, drop_drop, Es, <- !app_assoc. done. }
    + rewrite !length_app. lia.
    + rewrite Eo, Es. lia.
Qed.

Lemma toBytes_writes w out : writes encbuf_new w out -> toBytes w = Ret out.
Proof.
  intros Hw. pose proof (writes_size _ _ _ Hw) as Hsz.
  destruct Hw as (s & hs & S1 & L1 & I1 & Z1 & W1). simpl in *. subst s hs.
  unfold toBytes. rewrite Hsz. unfold encbuf_size. simpl length. rewrite Z.add_0_l, Nat2Z.id.
  destruct (toBytes_heads_spec (eb_str w) (eb_lheads w) [] 0 0 (length out)
    (replicate (length out) 0)) as (o & sp & p & E1 & E2); [done|done|done|by rewrite drop_0, W1|].
  rewrite E1, outcome_bind_Ret. cbv beta iota. rewrite E2, drop_0, W1. done.
Qed.

(** The writers of scalars. *)
Lemma encodeStringHeader_eq w size : 0 <= size < 2 ^ 64 ->
  encodeStringHeader w size = encbuf_append w (puthead 0x80 0xB7 size).
Proof.
  intros. unfold encodeStringHeader, puthead. rewrite u64_id by done. by case_match.
Qed.

Lemma encbuf_append_app w a b :
  encbuf_append (encbuf_append w a) b = encbuf_append w (a ++ b).
Proof. unfold encbuf_append. simpl. by rewrite app_assoc. Qed.

Lemma encodeString_eq w b : Z.of_nat (length b) < 2 ^ 64 ->
  encodeString w b = encbuf_append w (rstr b).
Proof.
  intros. unfold encodeString, rstr. destruct b as [|x [|y b]].
  - by rewrite encodeStringHeader_eq, encbuf_append_app.
  - case_match; [done|]. by rewrite encodeStringHeader_eq, encbuf_append_app.
  - by rewrite encodeStringHeader_eq, encbuf_append_app.
Qed.

Lemma writeString_eq s w : writeString s w = encodeString w s.
Proof. done. Qed.

(** The string encoding of a number that takes [n] bytes. *)
Lemma big_Bytes_be n i : takes n i -> big_Bytes i = be n i.
Proof.
  intros Ht. destruct (big_Bytes_takes i) as (m & -> & Hm).
  - destruct Ht as [[H _] Hn]. pose proof (Z.pow_pos_nonneg 2 (8 * (Z.of_nat n - 1))). lia.
  - by rewrite (takes_inj n m i).
Qed.

Lemma writeUint_eq i w : 0 <= i < 2 ^ 64 -> writeUint i w = encbuf_append w (rint i).
Proof.
  intros Hi. unfold writeUint, rint. destruct (Z.eqb_spec i 0) as [->|Hn]; [done|].
  destruct (putint_takes i) as (n & E & Ht & Hn8); [lia|].
  rewrite (big_Bytes_be n i) by done. destruct (Z.ltb_spec i 128).
  - assert (takes 1 i) as Ht1 by (unfold takes; simpl; lia).
    rewrite (takes_inj n 1 i) by done. simpl. rewrite Z.shiftr_0_r, byte_id by lia.
    rewrite (proj2 (Z.leb_le i 127)) by lia. done.
  - rewrite E. f_equal. unfold rstr. destruct (be_takes_head n i Ht) as (x & l & Eb & Hx).
    pose proof (length_be n i) as Hl. rewrite Eb in Hl |- *. destruct l as [|y l].
    + assert (i = x) as ->.
      { rewrite <- (be_uint_takes n i Ht), Eb. unfold be_uint. cbn [foldl].
        rewrite lor_shiftl by (unfold is_byte; lia). lia. }
      rewrite (proj2 (Z.leb_gt x 127)) by lia. done.
    + unfold puthead. rewrite (proj2 (Z.ltb_lt _ 56)) by lia. done.
Qed.

Lemma writeBool_eq b w : writeBool b w = encbuf_append w (rint (if b then 1 else 0)).
Proof. by destruct b. Qed.

(** Induction over values of interface{} and over types. *)
Fixpoint ival_induction (P : ival -> Prop) (Hnil : P INil) (Hb : forall b, P (IBytes b))
    (Hl : forall l, Forall P l -> P (ISlice l)) (v : ival) : P v :=
  match v with
  | INil => Hnil
  | IBytes b => Hb b
  | ISlice l => Hl l ((fix go (l : list ival) : Forall P l :=
      match l with
      | [] => @List.Forall_nil ival P
      | x :: l' => @List.Forall_cons ival P x l' (ival_induction P Hnil Hb Hl x) (go l')
      end) l)
  end.

Scheme rtype_induction := Induction for rtype Sort Prop
  with fields_induction := Induction for fields Sort Prop.
Combined Scheme rtype_fields_ind from rtype_induction, fields_induction.

Definition small (b : bytes) : Prop := Z.of_nat (length b) < 2 ^ 64.

Lemma small_app_l a b : small (a ++ b) -> small a.
Proof. unfold small. rewrite length_app. lia. Qed.
Lemma small_app_r a b : small (a ++ b) -> small b.
Proof. unfold small. rewrite length_app. lia. Qed.
Lemma small_rlist b : small (rlist b) -> small b.
Proof. apply small_app_r. Qed.
Lemma small_rstr b : small (rstr b) -> small b.
Proof.
  unfold rstr. destruct b as [|x [|y b]]; [done| |apply small_app_r].
  case_match; [done|apply small_app_r].
Qed.
#[export] Hint Resolve small_app_l small_app_r small_rlist small_rstr : rlp.

(** A writer that appends the encoding [enc] of its argument. *)
Definition writes_as {A} (elem : writer A) (enc : A -> bytes) (x : A) : Prop :=
  forall w, small (enc x) -> exists w', elem x w = Ok w' /\ writes w w' (enc x).

Lemma write_elems_as {A} (elem : writer A) enc l :
  Forall (writes_as elem enc) l ->
  writes_as (write_elems elem) (fun l => concat (map enc l)) l.
Proof.
  induction 1 as [|x l Hx Hl IH]; intros w Hs; simpl in *.
  - exists w. split; [done|apply writes_refl].
  - destruct (Hx w) as (w1 & -> & H1); [eauto with rlp|]. rewrite result_bind_Ok.
    destruct (IH w1) as (w2 & -> & H2); [eauto with rlp|].
    exists w2. split; [done|]. by eapply writes_trans.
Qed.

(** Content between a list header and its end. *)
Lemma write_list_as {A} (body : writer A) enc v :
  writes_as body enc v ->
  writes_as (fun v w => let '(lh, w) := encbuf_list w in
                        w ← body v w; Ok (listEnd w lh))
            (fun v => rlist (enc v)) v.
Proof.
  intros Hb w Hs. destruct (encbuf_list w) as [lh w1] eqn:E.
  destruct (Hb w1) as (w2 & -> & H2); [eauto with rlp|]. rewrite result_bind_Ok.
  eexists. split; [done|]. eapply writes_list; [done..|]. by apply small_rlist.
Qed.

Lemma sliceWriter_as {A} (elem : writer A) enc ts l :
  Forall (writes_as elem enc) l ->
  writes_as (sliceWriter elem ts)
    (fun l => if tail ts then concat (map enc l) else rlist (concat (map enc l))) l.
Proof.
  intros Hl w Hs. unfold sliceWriter. destruct (tail ts).
  - by apply write_elems_as.
  - exact (write_list_as _ _ l (write_elems_as elem enc l Hl) w Hs).
Qed.

Lemma append_as {A} (f : A -> encbuf -> encbuf) enc x :
  (forall w, small (enc x) -> f x w = encbuf_append w (enc x)) ->
  writes_as (fun v w => Ok (f v w)) enc x.
Proof.
  intros Hf w Hs. eexists. split; [done|]. rewrite Hf by done. apply writes_append.
Qed.

Lemma writeInterface_as v : writes_as writeInterface renc_iface v.
Proof.
  induction v as [|b|l IH] using ival_induction; intros w Hs.
  - eexists. split; [done|]. apply writes_append.
  - simpl in *. eexists. split; [done|]. rewrite encodeString_eq by (by apply small_rstr).
    apply writes_append.
  - by apply (sliceWriter_as writeInterface renc_iface no_tags).
Qed.

Lemma writeBigInt_as i : 0 <= i -> writes_as writeBigInt rint i.
Proof.
  intros Hi w Hs. unfold writeBigInt. rewrite (proj2 (Z.ltb_ge i 0)) by done.
  destruct (Z.eqb_spec i 0) as [->|]; (eexists; split; [done|]).
  - apply writes_append.
  - rewrite encodeString_eq by (by apply small_rstr). apply writes_append.
Qed.

Lemma zero_encodable t : encodable t (zero t) = true.
Proof.
  apply (rtype_induction (fun t => encodable t (zero t) = true)
           (fun fs => encodables fs (zeros fs) = true)); simpl; try done.
  - intros n e IH. induction n; simpl; [done|]. by rewrite IH.
  - intros _ t' -> fs ->. done.
Qed.

Lemma valid_bits t bits : valid_type t = true -> t = TUint bits -> 8 <= bits <= 64 /\ bits `mod` 8 = 0.
Proof.
  intros Hv ->. simpl in Hv. rewrite !orb_true_iff, !Z.eqb_eq in Hv.
  destruct Hv as [->|[->|[->|[->|[=]]]]]; done.
Qed.

Lemma zero_wt t : valid_type t = true -> wt t (zero t).
Proof.
  apply (rtype_induction (fun t => valid_type t = true -> wt t (zero t))
           (fun fs => valid_fields fs = true -> wts fs (zeros fs))); simpl; try done.
  - intros bits Hb. apply (valid_bits (TUint bits) bits) in Hb; [|done]. lia.
  - intros n _. rewrite length_replicate. split; [|done].
    apply Forall_replicate. by unfold is_byte.
  - intros n e IH He. rewrite length_replicate. split; [|done]. by apply Forall_replicate, IH.
  - intros fs IH [_ H]%andb_true_iff. by apply IH.
  - intros _ t' IHt fs IHfs [? ?]%andb_true_iff. auto.
Qed.

(** Every writer appends the reference encoding of its value... *)
Lemma write_as :
  (forall t, valid_type t = true -> forall ts v, wt t v -> encodable t v = true ->
     writes_as (write t ts) (renc t ts) v) /\
  (forall fs, valid_fields fs = true -> forall v, wts fs v -> encodables fs v = true ->
     writes_as (write_fields fs) (renc_fields fs) v).
Proof.
  apply rtype_fields_ind.
  - intros _ ts v _ _. by apply append_as.
  - intros _ ts v _ _. apply writeInterface_as.
  - intros _ ts [i|] _ He; simpl in *.
    + intros w Hs. apply (writeBigInt_as i); [lia|done].
    + by apply (append_as (fun _ w => encbuf_append w [0x80])).
  - intros _ ts i _ He. apply writeBigInt_as. simpl in He. lia.
  - intros bits Hb ts v Hv _. apply append_as. intros w _. apply writeUint_eq.
    apply (valid_bits (TUint bits) bits) in Hb as [Hb _]; [|done]. simpl in Hv.
    pose proof (Z.pow_le_mono_r 2 bits 64). lia.
  - intros _ ts v _ _. apply append_as. intros w _. apply writeBool_eq.
  - intros _ ts v _ _. apply append_as. intros w Hs. by apply encodeString_eq, small_rstr.
  - intros _ ts v _ _. apply append_as. intros w Hs. by apply encodeString_eq, small_rstr.
  - intros n _ ts v _ _. apply append_as. intros w Hs. by apply encodeString_eq, small_rstr.
  - intros e IH Ht ts v Hv He. apply (sliceWriter_as (write e no_tags) (renc e no_tags) ts).
    apply forallb_Forall in He. eapply Forall_impl; [apply Forall_and; split; [exact Hv|exact He]|].
    intros x [? ?]. by apply IH.
  - intros n e IH Ht ts v [Hv _] He. apply (sliceWriter_as (write e no_tags) (renc e no_tags) ts).
    apply forallb_Forall in He. eapply Forall_impl; [apply Forall_and; split; [exact Hv|exact He]|].
    intros x [? ?]. by apply IH.
  - intros fs IH [_ Ht]%andb_true_iff ts v Hv He w Hs.
    exact (write_list_as _ _ v (IH Ht v Hv He) w Hs).
  - intros e IH Ht ts [x|] Hv He w Hs; [by apply (IH Ht no_tags x)|].
    pose proof (IH Ht no_tags (zero e) (zero_wt e Ht) (zero_encodable e) w) as Hz.
    destruct e; try exact (Hz Hs).
    + exact (append_as (fun _ w => encbuf_append w [0x80]) (fun _ => rstr []) tt (fun _ _ => eq_refl) w Hs).
    + exact (write_list_as (fun _ w => Ok w) (fun _ => []) tt
               (fun w _ => ex_intro _ w (conj eq_refl (writes_refl w))) w Hs).
    + exact (write_list_as (fun _ w => Ok w) (fun _ => []) tt
               (fun w _ => ex_intro _ w (conj eq_refl (writes_refl w))) w Hs).
  - intros _ v _ _ w _. exists w. split; [done|]. apply writes_refl.
  - intros ts t IHt fs IHfs [Ht Hfs]%andb_true_iff [x xs] [Hx Hxs] [Ex Exs]%andb_true_iff w Hs.
    simpl in *. destruct (IHt Ht ts x Hx Ex w) as (w1 & -> & H1); [eauto with rlp|].
    rewrite result_bind_Ok.
    destruct (IHfs Hfs xs Hxs Exs w1) as (w2 & -> & H2); [eauto with rlp|].
    exists w2. split; [done|]. by eapply writes_trans.
Qed.

(** ... or reports a negative number. *)
Definition reports {A} (ok : A -> bool) (elem : writer A) : Prop := forall x w,
  if ok x then exists w', elem x w = Ok w' else elem x w = Err ErrNegative.

Lemma write_elems_reports {A} ok (elem : writer A) :
  reports ok elem -> reports (forallb ok) (write_elems elem).
Proof.
  intros Hx l. induction l as [|x l IH]; intros w; simpl; [by eexists|].
  specialize (Hx x w). destruct (ok x); [|by rewrite Hx].
  destruct Hx as [w' ->]. apply IH.
Qed.

Lemma write_list_reports {A} ok (body : writer A) :
  reports ok body ->
  reports ok (fun v w => let '(lh, w) := encbuf_list w in w ← body v w; Ok (listEnd w lh)).
Proof.
  intros Hb v w. destruct (encbuf_list w) as [lh w1]. specialize (Hb v w1).
  destruct (ok v); [|by rewrite Hb]. destruct Hb as [w' ->]. by eexists.
Qed.

Lemma sliceWriter_reports {A} ok (elem : writer A) ts :
  reports ok elem -> reports (forallb ok) (sliceWriter elem ts).
Proof.
  intros Hx. unfold sliceWriter. intros l w. destruct (tail ts).
  - by apply write_elems_reports.
  - by apply (write_list_reports _ (write_elems elem)), write_elems_reports.
Qed.

Lemma writeInterface_reports v w : exists w', writeInterface v w = Ok w'.
Proof.
  revert w. induction v as [|b|l IH] using ival_induction; intros w; [by eexists..|].
  simpl. unfold sliceWriter. simpl.
  assert (forall w, exists w', write_elems writeInterface l w = Ok w') as H.
  { induction IH as [|x l Hx Hl IHl]; intros w1; simpl; [by eexists|].
    destruct (Hx w1) as [w2 ->]. apply IHl. }
  match goal with |- context [write_elems _ _ ?w] => destruct (H w) as [w' ->] end. by eexists.
Qed.

Lemma write_reports :
  (forall t ts, reports (encodable t) (write t ts)) /\
  (forall fs, reports (encodables fs) (write_fields fs)).
Proof.
  assert (forall i w, if 0 <=? i then exists w', writeBigInt i w = Ok w'
                      else writeBigInt i w = Err ErrNegative) as Hbig.
  { intros i w. unfold writeBigInt. destruct (Z.leb_spec 0 i), (Z.ltb_spec i 0); try lia; [|done].
    destruct (i =? 0); by eexists. }
  apply rtype_fields_ind; try (intros; intros v w; by eexists).
  - intros ts v w. apply writeInterface_reports.
  - intros ts [i|] w; [apply Hbig|by eexists].
  - intros ts i w. apply Hbig.
  - intros e IH ts. by apply sliceWriter_reports.
  - intros n e IH ts. by apply sliceWriter_reports.
  - intros fs IH ts. by apply write_list_reports.
  - intros e IH ts [x|] w; [apply IH|].
    pose proof (IH no_tags (zero e) w) as Hz. rewrite zero_encodable in Hz.
    destruct e; try exact Hz; by eexists.
  - intros ts t IHt fs IHfs [x xs] w. simpl. specialize (IHt ts x w).
    destruct (encodable t x); [|by rewrite IHt]. destruct IHt as [w' ->]. apply IHfs.
Qed.

(** The encoder buffer against the encoding rules: for every value of a valid
    type whose encoding fits a uint64 length, EncodeToBytes does not panic, and
    returns the reference encoding, or an error when the value holds a negative
    big.Int. *)
Lemma EncodeToBytes_spec t (v : denote t) :
  valid_type t = true -> wt t v -> small (renc t no_tags v) ->
  EncodeToBytes t v = Ret (if encodable t v then Ok (renc t no_tags v) else Err ErrNegative).
Proof.
  intros Ht Hv Hs. unfold EncodeToBytes. destruct (encodable t v) eqn:E.
  - destruct (proj1 write_as t Ht no_tags v Hv E encbuf_new Hs) as (w & -> & Hw).
    by rewrite (toBytes_writes w _ Hw).
  - pose proof (proj1 write_reports t no_tags v encbuf_new) as H. rewrite E in H. by rewrite H.
Qed.
