(* ===== verification/RlpDecode.v ===== *)
(** * Theorems about the RLP decoder

    What the decoder of Rlp.v (utilities/rlp/decode.go, raw.go) does with an
    input: decoding an encoding gives the value back, an accepted input is the
    encoding of what was decoded, decoding terminates, and Split agrees with
    the encoding rules. *)
From S2P Require Import Prelude Rlp.
Local Open Scope Z_scope.

(** ** Moving a stream forward *)

(** The position in the innermost list, [n] bytes further. *)
Definition adv_stack (n : Z) (st : list listpos) : list listpos :=
  match st with
  | [] => []
  | tos :: st => {| lp_pos := lp_pos tos + n; lp_size := lp_size tos |} :: st
  end.

(** There are [n] bytes to read, in the input and in the innermost list. *)
Definition fits (s : Stream) (n : Z) : Prop :=
  0 <= n <= Z.of_nat (length (s_r s)) /\
  (s_limited s = true -> n <= s_remaining s) /\
  match s_stack s with
  | [] => True
  | tos :: _ => 0 <= lp_pos tos /\ lp_pos tos + n <= lp_size tos /\ lp_size tos < 2 ^ 64
  end.

(** [s'] is [s] after [n] bytes were read, without a cached kind. *)
Definition adv (n : Z) (s s' : Stream) : Prop :=
  s_r s' = drop (Z.to_nat n) (s_r s) /\
  s_limited s' = s_limited s /\
  (s_limited s = true -> s_remaining s' = s_remaining s - n) /\
  s_kind s' = None /\
  s_stack s' = adv_stack n (s_stack s).

Lemma adv_stack_0 st : adv_stack 0 st = st.
Proof. destruct st as [|[p n] st]; simpl; [done|]. by rewrite Z.add_0_r. Qed.

Lemma adv_stack_add n m st : adv_stack m (adv_stack n st) = adv_stack (n + m) st.
Proof. destruct st; simpl; [done|]. do 2 f_equal. lia. Qed.

Lemma adv_trans n m s1 s2 s3 : 0 <= n -> 0 <= m ->
  adv n s1 s2 -> adv m s2 s3 -> adv (n + m) s1 s3.
Proof.
  intros Hn Hm (R1 & L1 & M1 & _ & S1) (R2 & L2 & M2 & K2 & S2). unfold adv.
  rewrite R2, R1, L2, S2, S1, adv_stack_add, drop_drop, Z2Nat.inj_add by done.
  split_and!; try done. intros HL. rewrite M2, M1 by congruence. lia.
Qed.

Lemma adv_fits n m s s' : 0 <= n -> 0 <= m -> adv n s s' -> fits s (n + m) -> fits s' m.
Proof.
  intros Hn Hm (R & L & M & _ & S) ([? ?] & Hr & Hst). unfold fits.
  rewrite R, S, L, length_drop. split_and!; [lia|lia|..].
  - intros HL. rewrite M by done. specialize (Hr HL). lia.
  - destruct (s_stack s); simpl in *; [done|]. lia.
Qed.

Lemma fits_le s n m : 0 <= m <= n -> fits s n -> fits s m.
Proof.
  intros Hm ([? ?] & Hr & Hst). split_and!; [lia|lia|intros HL; specialize (Hr HL); lia|].
  destruct (s_stack s); [done|]. lia.
Qed.

Lemma drop_app_n {A} (a b : list A) n : n = Z.of_nat (length a) -> drop (Z.to_nat n) (a ++ b) = b.
Proof. intros ->. by rewrite Nat2Z.id, drop_app_length. Qed.

Lemma take_app_n {A} (a b : list A) n : n = Z.of_nat (length a) -> take (Z.to_nat n) (a ++ b) = a.
Proof. intros ->. by rewrite Nat2Z.id, take_app_length. Qed.

(** ** Reading bytes that are there *)
Lemma willRead_fits s n : fits s n ->
  exists s', willRead n s = (s', Ok tt) /\
    s_r s' = s_r s /\ s_limited s' = s_limited s /\
    (s_limited s = true -> s_remaining s' = s_remaining s - n) /\
    s_kind s' = None /\ s_stack s' = adv_stack n (s_stack s) /\
    s_kinderr s' = s_kinderr s /\ s_byteval s' = s_byteval s.
Proof.
  intros (Hn & Hr & Hst). unfold willRead. simpl.
  destruct (s_stack s) as [|tos st] eqn:Es; simpl.
  - destruct (s_limited s) eqn:EL.
    + rewrite (proj2 (Z.ltb_ge _ _)) by auto. eexists; split; [done|]. simpl. by rewrite Es.
    + eexists; split; [done|]. simpl. by rewrite Es.
  - rewrite (u64_id (lp_size tos - lp_pos tos)), (proj2 (Z.ltb_ge _ _)) by lia.
    rewrite u64_id by lia. destruct (s_limited s) eqn:EL; simpl.
    + rewrite (proj2 (Z.ltb_ge _ _)) by auto. by eexists.
    + by eexists.
Qed.

Lemma readFull_fits s n : fits s n ->
  exists s', readFull n s = (s', Ok (take (Z.to_nat n) (s_r s))) /\ adv n s s'.
Proof.
  intros Hf. destruct (willRead_fits s n Hf) as (s1 & E1 & R1 & L1 & M1 & K1 & S1 & _).
  unfold readFull, mbind, D_bind. rewrite E1. unfold reader_ReadFull.
  destruct Hf as [Hn _]. rewrite R1, bool_decide_true by lia.
  eexists. split; [done|]. unfold adv. simpl. by rewrite L1.
Qed.

Lemma readByte_fits s b r : s_r s = b :: r -> fits s 1 ->
  exists s', readByte s = (s', Ok b) /\ adv 1 s s'.
Proof.
  intros Hr Hf. destruct (willRead_fits s 1 Hf) as (s1 & E1 & R1 & L1 & M1 & K1 & S1 & _).
  unfold readByte, mbind, D_bind. rewrite E1. unfold reader_ReadByte. rewrite R1, Hr.
  eexists. split; [done|]. unfold adv. simpl. rewrite Hr, L1. done.
Qed.

(** A number that takes [m] bytes, at the front of the input. *)
Lemma readUint_takes s m i rest :
  s_r s = be m i ++ rest -> takes m i -> fits s (Z.of_nat m) ->
  exists s', readUint (Z.of_nat m) s = (s', Ok i) /\ adv (Z.of_nat m) s s'.
Proof.
  intros Hr Ht Hf. unfold readUint. pose proof Ht as [_ Hm].
  rewrite (proj2 (Z.eqb_neq _ 0)) by lia. destruct (Z.eqb_spec (Z.of_nat m) 1) as [E|_].
  - assert (m = 1%nat) as -> by lia. destruct (readByte_fits s (byte i) rest) as (s' & -> & Ha).
    + rewrite Hr. simpl. by rewrite Z.shiftr_0_r.
    + done.
    + exists s'. split; [|done]. do 2 f_equal. apply byte_id. destruct Ht as [Ht _]. simpl in Ht. lia.
  - destruct (readFull_fits s (Z.of_nat m) Hf) as (s' & E' & Ha).
    unfold mbind, D_bind. rewrite E', Hr, take_app_n by (by rewrite length_be).
    destruct (be_takes_head m i Ht) as (x & l & Eb & Hx). rewrite Eb. simpl.
    rewrite bool_decide_false by (intros [= ->]; lia).
    exists s'. split; [|done]. rewrite <- Eb. unfold mret, D_ret. by rewrite be_uint_takes.
Qed.

(** ** Reading a header *)
Definition head_of (k : Kind) (n : Z) : bytes :=
  match k with
  | KByte => []
  | KString => puthead 0x80 0xB7 n
  | KList => puthead 0xC0 0xF7 n
  end.

(** [s'] is [s] after a header of [h] bytes, which announced [k] and [n]. *)
Definition kinded (h : Z) (k : Kind) (n : Z) (s s' : Stream) : Prop :=
  adv h s (set_kind s' None) /\ s_kind s' = Some k /\ s_size s' = n /\ s_kinderr s' = None.

Lemma readFull_set_kind n s k : readFull n (set_kind s k) = readFull n s.
Proof. done. Qed.

Lemma set_kind_None s : s_kind s = None -> set_kind s None = s.
Proof. destruct s. simpl. by intros ->. Qed.

Lemma adv_fields n s s1 s2 :
  s_r s1 = s_r s2 -> s_limited s1 = s_limited s2 -> s_remaining s1 = s_remaining s2 ->
  s_kind s1 = s_kind s2 -> s_stack s1 = s_stack s2 -> adv n s s1 -> adv n s s2.
Proof. unfold adv. by intros -> -> -> -> ->. Qed.

Lemma length_head_of k n : k <> KByte -> 0 <= n < 2 ^ 64 ->
  1 <= Z.of_nat (length (head_of k n)) <= 9.
Proof.
  intros Hk Hn. destruct k; [done|simpl; rewrite length_puthead by done..];
    unfold headsize; (case_match; [lia|]);
    (destruct (putint_takes n) as (m & E & _ & Hm); [lia|]);
    rewrite intsize_putint, E, length_be by lia; lia.
Qed.

(** Kind on a stream that is not at the end of a list, given what readKind
    finds. *)
Lemma Kind_of_readKind s s1 k n h :
  s_kind s = None -> 1 <= h -> fits s (h + n) -> 0 <= n ->
  Stream_readKind (set_kinderr s None) = (s1, Ok (k, n, None)) ->
  adv h s (set_kind s1 None) ->
  exists s', Stream_Kind s = (s', Ok (k, n)) /\ kinded h k n s s' /\ s_byteval s' = s_byteval s1.
Proof.
  intros Hk Hh Hf Hn Hrk Ha. unfold Stream_Kind. rewrite Hk.
  pose proof (adv_fits h n _ _ ltac:(lia) Hn Ha Hf) as (_ & Hrem & Hst').
  destruct Hf as (_ & _ & Hst).
  assert (at_EOL (set_kinderr s None) = false) as ->.
  { unfold at_EOL. simpl. destruct (s_stack s) as [|tos st]; [done|]. apply Z.eqb_neq. lia. }
  rewrite Hrk.
  assert (size_error s1 n = None) as ->.
  { unfold size_error. simpl in *. destruct (s_stack s1) as [|tos st]; simpl in *.
    - destruct (s_limited s1); simpl; [|done]. by rewrite (proj2 (Z.ltb_ge _ _)) by auto.
    - by rewrite u64_id, (proj2 (Z.ltb_ge _ _)) by lia. }
  eexists. split; [done|]. split; [|done]. split; [|done].
  by eapply adv_fields; last exact Ha.
Qed.

Lemma Kind_byte s x rest :
  s_kind s = None -> s_r s = x :: rest -> 0 <= x < 128 -> fits s 1 ->
  exists s', Stream_Kind s = (s', Ok (KByte, 0)) /\ kinded 1 KByte 0 s s' /\ s_byteval s' = x.
Proof.
  intros Hk Hr Hx Hf. destruct (readByte_fits (set_kinderr s None) x rest) as (s1 & E & Ha); [done..|].
  destruct (Kind_of_readKind s (set_byteval (set_byteval s1 0) x) KByte 0 1) as (s' & H1 & H2 & H3);
    [done|lia|done|lia| | |by eauto].
  - unfold Stream_readKind. rewrite E. simpl. by rewrite (proj2 (Z.ltb_lt x 128)) by lia.
  - eapply adv_fields; last exact Ha; simpl; try done. by destruct Ha as (_ & _ & _ & -> & _).
Qed.

Lemma readKind_head s k n rest :
  k <> KByte -> s_r s = head_of k n ++ rest -> 0 <= n < 2 ^ 64 ->
  fits s (Z.of_nat (length (head_of k n))) ->
  exists s1, Stream_readKind s = (s1, Ok (k, n, None)) /\
    adv (Z.of_nat (length (head_of k n))) s s1.
Proof.
  intros Hk Hr Hn Hf.
  assert (exists st lt, head_of k n = puthead st lt n /\
            ((k = KString /\ st = 0x80 /\ lt = 0xB7) \/ (k = KList /\ st = 0xC0 /\ lt = 0xF7)))
    as (st & lt & Eh & Htag).
  { destruct k; [done|by eexists _, _; eauto..]. }
  rewrite Eh in *. unfold puthead in *. destruct (Z.ltb_spec n 56) as [Hlt|Hge].
  - destruct (readByte_fits s _ rest Hr) as (s1 & E & Ha); [done|].
    unfold Stream_readKind. rewrite E. exists (set_byteval s1 0).
    destruct Htag as [(-> & -> & ->)|(-> & -> & ->)];
      rewrite (byte_id n), byte_id by lia;
      repeat (rewrite (proj2 (Z.ltb_ge _ _)) by lia);
      rewrite (proj2 (Z.ltb_lt _ _)) by lia;
      (split; [do 4 f_equal; lia|]); by eapply adv_fields; last exact Ha.
  - destruct (putint_takes n) as (m & Ep & Ht & Hm); [lia|]. rewrite Ep in *.
    rewrite length_be in *. pose proof Ht as [_ Hm1].
    destruct (readByte_fits s _ _ Hr) as (s1 & E & Ha).
    { eapply fits_le; [|exact Hf]. simpl. lia. }
    destruct (readUint_takes (set_byteval s1 0) m n rest) as (s2 & E2 & Ha2); [|done| |].
    { simpl. destruct Ha as [-> _]. by rewrite Hr. }
    { eapply (adv_fits 1); [lia|lia|exact Ha|]. simpl in Hf. rewrite length_be in Hf.
      eapply fits_le; [|exact Hf]. lia. }
    exists s2. unfold Stream_readKind. rewrite E. unfold readLongSize.
    assert (0 <= byte (Z.of_nat m) <= 8) by (rewrite byte_id; lia).
    split; [|simpl length; rewrite length_be, Nat2Z.inj_succ, <- Z.add_1_l; eapply adv_trans; [lia|lia|exact Ha|]; exact Ha2].
    destruct Htag as [(-> & -> & ->)|(-> & -> & ->)];
      rewrite (byte_id (Z.of_nat m)), byte_id by lia;
      repeat (rewrite (proj2 (Z.ltb_ge _ _)) by lia);
      try (rewrite (proj2 (Z.ltb_lt _ _)) by lia);
      replace (_ + Z.of_nat m - _) with (Z.of_nat m) by lia;
      rewrite E2, (proj2 (Z.ltb_ge n 56)) by lia; done.
Qed.

Lemma Kind_head s k n rest :
  s_kind s = None -> k <> KByte -> s_r s = head_of k n ++ rest -> 0 <= n < 2 ^ 64 ->
  fits s (Z.of_nat (length (head_of k n)) + n) ->
  exists s', Stream_Kind s = (s', Ok (k, n)) /\ kinded (Z.of_nat (length (head_of k n))) k n s s'.
Proof.
  intros Hk Hkb Hr Hn Hf. pose proof (length_head_of k n Hkb Hn).
  destruct (readKind_head (set_kinderr s None) k n rest) as (s1 & E & Ha); [done..| |].
  { eapply fits_le; [|exact Hf]. lia. }
  destruct (Kind_of_readKind s s1 k n (Z.of_nat (length (head_of k n)))) as (s' & H1 & H2 & _);
    [done|lia|done|lia|done| |by eauto].
  eapply adv_fields; last exact Ha; try done. simpl. by destruct Ha as (_ & _ & _ & -> & _).
Qed.

(** The content after a header. *)
Lemma kinded_readFull h k n s s' content rest :
  kinded h k n s s' -> 0 <= h -> drop (Z.to_nat h) (s_r s) = content ++ rest ->
  n = Z.of_nat (length content) -> fits s (h + n) ->
  exists s2, readFull n s' = (s2, Ok content) /\ adv (h + n) s s2.
Proof.
  intros (Ha & _) Hh Hd Hn Hf.
  destruct (readFull_fits (set_kind s' None) n) as (s2 & E & Ha2).
  { eapply adv_fits; [exact Hh|lia|exact Ha|done]. }
  exists s2. rewrite readFull_set_kind in E. rewrite E. split.
  - do 2 f_equal. destruct Ha as [-> _]. rewrite Hd. by apply take_app_n.
  - eapply adv_trans; [done|lia|exact Ha|exact Ha2].
Qed.

(** ** Reading an encoded value

    [m] reads the encoding [enc] and returns [v], whatever follows, on every
    input shorter than [N]. *)
Definition reads {A} (N : nat) (m : D A) (enc : bytes) (v : A) : Prop := forall s rest,
  (length (s_r s) < N)%nat -> s_kind s = None -> s_r s = enc ++ rest -> fits s (Z.of_nat (length enc)) ->
  exists s', m s = (s', Ok v) /\ adv (Z.of_nat (length enc)) s s'.

Lemma reads_bind {A B} N (m : D A) (f : A -> B) enc v :
  reads N m enc v -> reads N (x ← m; mret (f x)) enc (f v).
Proof.
  intros Hm s rest HN Hk Hr Hf. destruct (Hm s rest HN Hk Hr Hf) as (s' & E & Ha).
  exists s'. split; [|done]. unfold mbind, D_bind. by rewrite E.
Qed.

Lemma reads_map_err {A} N g (m : D A) enc v : reads N m enc v -> reads N (map_err g m) enc v.
Proof.
  intros Hm s rest HN Hk Hr Hf. destruct (Hm s rest HN Hk Hr Hf) as (s' & E & Ha).
  exists s'. split; [|done]. unfold map_err. by rewrite E.
Qed.

Lemma D_bind_Ok {A B} (m : D A) (f : A -> D B) s s' a :
  m s = (s', Ok a) -> (x ← m; f x) s = f a s'.
Proof. intros E. unfold mbind, D_bind. by rewrite E. Qed.

Lemma D_bind_Err {A B} (m : D A) (f : A -> D B) s s' e :
  m s = (s', Err e) -> (x ← m; f x) s = (s', Err e).
Proof. intros E. unfold mbind, D_bind. by rewrite E. Qed.

(** A single byte, or a header and a content that is not a single small byte. *)
Lemma rstr_cases b : is_bytes b ->
  (exists x, b = [x] /\ 0 <= x < 128 /\ rstr b = [x]) \/
  (rstr b = head_of KString (Z.of_nat (length b)) ++ b /\ forall x, b = [x] -> 128 <= x).
Proof.
  intros Hb. unfold rstr. destruct b as [|x [|y b]]; [by right; split| |by right; split].
  apply Forall_cons in Hb as [[? ?] _].
  destruct (Z.leb_spec x 127); [left; exists x; repeat split; lia|].
  right. split; [done|]. intros ? [= <-]. lia.
Qed.

Lemma kinded_rearm k h n s s' : kinded h k n s s' -> adv h s (set_kind s' None).
Proof. by intros [? _]. Qed.

Lemma reads_Bytes N b : is_bytes b -> small b -> reads N Stream_Bytes (rstr b) b.
Proof.
  intros Hb Hs s rest _ Hk Hr Hf. unfold small in Hs.
  destruct (rstr_cases b Hb) as [(x & -> & Hx & E)|[E Hnb]]; rewrite E in *.
  - destruct (Kind_byte s x rest) as (s1 & E1 & Hk1 & Hb1); [done..|].
    exists (set_kind s1 None). split; [|by eapply kinded_rearm].
    unfold Stream_Bytes. rewrite (D_bind_Ok _ _ _ _ _ E1). simpl.
    rewrite <- Hb1. done.
  - rewrite <- app_assoc in Hr. rewrite length_app, Nat2Z.inj_add in *.
    destruct (Kind_head s KString (Z.of_nat (length b)) (b ++ rest)) as (s1 & E1 & Hk1);
      [done|done|done|lia|done|].
    destruct (kinded_readFull _ _ _ _ _ b rest Hk1) as (s2 & E2 & Ha); [lia| |done|done|].
    { rewrite Hr. by apply drop_app_n. }
    exists s2. split; [|done]. unfold Stream_Bytes. rewrite (D_bind_Ok _ _ _ _ _ E1).
    rewrite (D_bind_Ok _ _ _ _ _ E2).
    destruct (Z.eqb_spec (Z.of_nat (length b)) 1); [|done]. destruct b as [|x [|]]; [done| |simpl in *; lia].
    simpl. specialize (Hnb x eq_refl). by rewrite (proj2 (Z.ltb_ge x 128)).
Qed.

(** A byte string without leading zero is the one of its value. *)
Lemma big_Bytes_bytes i : is_bytes (big_Bytes i).
Proof. unfold big_Bytes. case_match; [done|apply be_bytes]. Qed.

Lemma big_Bytes_uint i : 0 <= i -> be_uint (big_Bytes i) = i /\ head (big_Bytes i) <> Some 0.
Proof.
  intros Hi. destruct (Z.eq_dec i 0) as [->|Hnz]; [done|].
  destruct (big_Bytes_takes i) as (n & -> & Ht); [lia|]. split; [by apply be_uint_takes|].
  destruct (be_takes_head n i Ht) as (x & l & -> & Hx). simpl. intros [= ->]. lia.
Qed.

Lemma reads_BigInt N i : 0 <= i -> small (rint i) -> reads N decodeBigInt (rint i) i.
Proof.
  intros Hi Hs s rest HN Hk Hr Hf. unfold rint in *. unfold decodeBigInt.
  destruct (reads_map_err N wrapStreamError Stream_Bytes _ _
    (reads_Bytes N (big_Bytes i) (big_Bytes_bytes i) (small_rstr _ Hs)) s rest HN Hk Hr Hf)
    as (s' & E & Ha).
  exists s'. split; [|done]. unfold wrap. rewrite (D_bind_Ok _ _ _ _ _ E).
  destruct (big_Bytes_uint i Hi) as [Eu Hh]. rewrite bool_decide_false by done.
  unfold mret, D_ret. by rewrite Eu.
Qed.

(** An integer of at most [bits] bits. *)
Lemma reads_uint N bits i :
  8 <= bits <= 64 -> bits `mod` 8 = 0 -> 0 <= i < 2 ^ bits ->
  reads N (Stream_uint bits) (rint i) i.
Proof.
  intros Hb Hb8 Hi s rest _ Hk Hr Hf. unfold Stream_uint, rint in *.
  destruct (Z.eq_dec i 0) as [->|Hnz].
  { (* zero is the empty string *)
    destruct (Kind_head s KString 0 rest) as (s1 & E1 & Hk1); [done..|].
    rewrite (D_bind_Ok _ _ _ _ _ E1). simpl.
    rewrite (proj2 (Z.ltb_ge _ _)) by (apply Z.div_pos; lia).
    exists (set_kind s1 None). split; [done|]. by eapply kinded_rearm. }
  destruct (big_Bytes_takes i) as (n & E & Ht); [lia|]. rewrite E in *.
  destruct (be_takes_head n i Ht) as (x & l & Eb & Hx).
  assert (Z.of_nat n <= bits `div` 8) as Hnb.
  { destruct Ht as [[H1 _] Hn]. apply Z.nlt_ge. intros Hlt.
    pose proof (Z.div_mod bits 8). assert (bits <= 8 * (Z.of_nat n - 1)) as Hle by lia.
    pose proof (Z.pow_le_mono_r 2 bits _ ltac:(lia) Hle). lia. }
  assert (bits `div` 8 <= 8) by (apply Z.div_le_upper_bound; lia).
  destruct (rstr_cases (be n i) (be_bytes n i)) as [(y & Ey & Hy & Er)|[Er Hnb1]]; rewrite Er in *.
  - destruct (Kind_byte s y rest) as (s1 & E1 & Hk1 & Hb1); [done..|].
    rewrite (D_bind_Ok _ _ _ _ _ E1). simpl. unfold mbind, D_bind, get. rewrite Hb1.
    assert (y = i) as ->.
    { rewrite <- (be_uint_takes n i Ht), Ey. unfold be_uint. cbn [foldl].
      rewrite lor_shiftl by (unfold is_byte; lia). lia. }
    rewrite (proj2 (Z.eqb_neq i 0)) by done.
    exists (set_kind s1 None). split; [done|]. by eapply kinded_rearm.
  - rewrite <- app_assoc in Hr. rewrite length_app, Nat2Z.inj_add, length_be in *.
    destruct (Kind_head s KString (Z.of_nat n) (be n i ++ rest)) as (s1 & E1 & Hk1);
      [done|done|done|lia|done|].
    rewrite (D_bind_Ok _ _ _ _ _ E1). simpl. rewrite (proj2 (Z.ltb_ge _ _)) by done.
    destruct (readUint_takes (set_kind s1 None) n i rest) as (s2 & E2 & Ha2); [| done| |].
    { destruct Hk1 as ((-> & _) & _). rewrite Hr. by apply drop_app_n. }
    { eapply adv_fits; [|lia|apply Hk1|done]. lia. }
    assert (readUint (Z.of_nat n) s1 = (s2, Ok i)) as E2'.
    { rewrite <- E2. unfold readUint. destruct (_ =? 0); [done|]. by destruct (_ =? 1). }
    rewrite (D_bind_Ok _ _ _ s2 i) by (unfold map_err; by rewrite E2').
    exists s2. split.
    + rewrite (proj2 (Z.ltb_lt 0 _)) by (destruct Ht; lia). simpl.
      rewrite (proj2 (Z.ltb_ge i 128)); [done|].
      destruct (Z.le_gt_cases 128 i); [done|].
      assert (takes 1 i) as Ht1 by (unfold takes; simpl; lia).
      rewrite (takes_inj n 1 i) in Eb, Hnb1 by done. simpl in Hnb1.
      specialize (Hnb1 _ eq_refl). rewrite Z.shiftr_0_r, byte_id in Hnb1 by lia. done.
    + eapply adv_trans; [lia|lia|apply Hk1|done].
Qed.

Lemma reads_Bool N (b : bool) : reads N Stream_Bool (rint (if b then 1 else 0)) b.
Proof.
  intros s rest HN Hk Hr Hf.
  destruct (reads_uint N 8 (if b then 1 else 0) ltac:(lia) eq_refl ltac:(destruct b; lia)
    s rest HN Hk Hr Hf) as (s' & E & Ha).
  exists s'. split; [|done]. unfold Stream_Bool. rewrite (D_bind_Ok _ _ _ _ _ E). by destruct b.
Qed.

(** A byte array; the array of the single byte 0 is not read correctly. *)
Lemma reads_ByteArray N b : is_bytes b -> small b -> b <> [0] ->
  reads N (decodeByteArray (length b)) (rstr b) b.
Proof.
  intros Hb Hs H0 s rest _ Hk Hr Hf. unfold small in Hs. unfold decodeByteArray.
  destruct (rstr_cases b Hb) as [(x & -> & Hx & E)|[E Hnb]]; rewrite E in *.
  - destruct (Kind_byte s x rest) as (s1 & E1 & Hk1 & Hb1); [done..|].
    exists (set_kind s1 None). split; [|by eapply kinded_rearm].
    rewrite (D_bind_Ok _ _ _ _ _ E1). simpl. destruct Hk1 as (_ & Hk1 & Hsz & He).
    assert (Stream_Kind s1 = (s1, Ok (KByte, 0))) as E2.
    { unfold Stream_Kind. by rewrite Hk1, He, Hsz. }
    unfold Stream_uint. rewrite (D_bind_Ok _ _ _ _ _ E2). unfold mbind, D_bind, get. simpl.
    rewrite Hb1, (proj2 (Z.eqb_neq x 0)) by (intros ->; done). done.
  - rewrite <- app_assoc in Hr. rewrite length_app, Nat2Z.inj_add in *.
    destruct (Kind_head s KString (Z.of_nat (length b)) (b ++ rest)) as (s1 & E1 & Hk1);
      [done|done|done|lia|done|].
    destruct (kinded_readFull _ _ _ _ _ b rest Hk1) as (s2 & E2 & Ha); [lia| |done|done|].
    { rewrite Hr. by apply drop_app_n. }
    exists s2. split; [|done]. rewrite (D_bind_Ok _ _ _ _ _ E1), !Z.ltb_irrefl.
    rewrite (D_bind_Ok _ _ _ _ _ E2).
    destruct (Z.eqb_spec (Z.of_nat (length b)) 1); [|done]. destruct b as [|x [|]]; [done| |simpl in *; lia].
    simpl. specialize (Hnb x eq_refl). by rewrite (proj2 (Z.ltb_ge x 128)).
Qed.

(** A raw value: a string or a list, whose content is not looked at. *)
Lemma reads_Raw N k b : small b -> k <> KByte ->
  reads N Stream_Raw (head_of k (Z.of_nat (length b)) ++ b) (head_of k (Z.of_nat (length b)) ++ b).
Proof.
  intros Hs Hk0 s rest _ Hk Hr Hf. unfold small in Hs.
  rewrite <- app_assoc in Hr. rewrite length_app, Nat2Z.inj_add in *.
  destruct (Kind_head s k (Z.of_nat (length b)) (b ++ rest)) as (s1 & E1 & Hk1);
    [done|done|done|lia|done|].
  destruct (kinded_readFull _ _ _ _ _ b rest Hk1) as (s2 & E2 & Ha); [lia| |done|done|].
  { rewrite Hr. by apply drop_app_n. }
  exists s2. split; [|done]. unfold Stream_Raw. rewrite (D_bind_Ok _ _ _ _ _ E1).
  destruct k; [done|by rewrite (D_bind_Ok _ _ _ _ _ E2)..].
Qed.

Lemma reads_Raw_str N b : is_bytes b -> small b -> reads N Stream_Raw (rstr b) (rstr b).
Proof.
  intros Hb Hs. destruct (rstr_cases b Hb) as [(x & -> & Hx & E)|[E Hnb]]; rewrite E.
  - intros s rest _ Hk Hr Hf. destruct (Kind_byte s x rest) as (s1 & E1 & Hk1 & Hb1); [done..|].
    exists (set_kind s1 None). split; [|by eapply kinded_rearm].
    unfold Stream_Raw. rewrite (D_bind_Ok _ _ _ _ _ E1). simpl. by rewrite <- Hb1.
  - by apply (reads_Raw N KString).
Qed.

(** ** Lists *)

(** The same, when the encoding ends where the innermost list ends. *)
Definition reads_exact {A} (N : nat) (m : D A) (enc : bytes) (v : A) : Prop := forall s rest tos st,
  (length (s_r s) < N)%nat -> s_kind s = None -> s_r s = enc ++ rest ->
  fits s (Z.of_nat (length enc)) ->
  s_stack s = tos :: st -> lp_pos tos + Z.of_nat (length enc) = lp_size tos ->
  exists s', m s = (s', Ok v) /\ adv (Z.of_nat (length enc)) s s'.

Lemma reads_reads_exact {A} N (m : D A) enc v : reads N m enc v -> reads_exact N m enc v.
Proof. intros Hm s rest tos st HN Hk Hr Hf _ _. by eapply Hm. Qed.

(** [m] reports the end of the list without reading. *)
Definition eol {A} (m : D A) : Prop := forall s,
  s_kind s = None -> at_EOL s = true -> m s = (set_kinderr s None, Err EOL).

Lemma eol_Kind : eol Stream_Kind.
Proof.
  intros s Hk He. unfold Stream_Kind. rewrite Hk. unfold at_EOL in *. simpl. by rewrite He.
Qed.

Lemma eol_bind {A B} (m : D A) (f : A -> D B) : eol m -> eol (x ← m; f x).
Proof. intros Hm s Hk He. by rewrite (D_bind_Err _ _ _ _ _ (Hm s Hk He)). Qed.

Lemma eol_wrap {A} (m : D A) : eol m -> eol (wrap m).
Proof. intros Hm s Hk He. unfold wrap, map_err. by rewrite (Hm s Hk He). Qed.

(** The state after List on a list with a header of [h] bytes and [n] bytes of
    content. *)
Definition opened (h n : Z) (s s1 : Stream) : Prop :=
  exists s0, adv h s s0 /\ s_r s1 = s_r s0 /\ s_limited s1 = s_limited s0 /\
    s_remaining s1 = s_remaining s0 /\ s_kind s1 = None /\
    s_stack s1 = {| lp_pos := 0; lp_size := n |} :: s_stack s0.

Lemma List_opens s p rest : s_kind s = None -> s_r s = rlist p ++ rest -> small p ->
  fits s (Z.of_nat (length (rlist p))) ->
  exists s1, Stream_List s = (s1, Ok (Z.of_nat (length p))) /\
    opened (Z.of_nat (length (head_of KList (Z.of_nat (length p))))) (Z.of_nat (length p)) s s1.
Proof.
  intros Hk Hr Hs Hf. unfold rlist in *. rewrite <- app_assoc in Hr. unfold small in Hs.
  rewrite length_app, Nat2Z.inj_add in Hf.
  destruct (Kind_head s KList (Z.of_nat (length p)) (p ++ rest)) as (s1 & E1 & Hk1);
    [done|done|done|lia|done|].
  unfold Stream_List. rewrite (D_bind_Ok _ _ _ _ _ E1). eexists. split; [done|].
  exists (set_kind s1 None). by split; [eapply kinded_rearm|].
Qed.

Lemma opened_fits h n s s1 : 0 <= h -> 0 <= n < 2 ^ 64 ->
  opened h n s s1 -> fits s (h + n) -> fits s1 n.
Proof.
  intros Hh Hn (s0 & Ha & R & L & M & K & S) Hf.
  pose proof (adv_fits h n s s0 Hh ltac:(lia) Ha Hf) as (H1 & H2 & _).
  unfold fits. rewrite R, L, M, S. simpl. split_and!; try done; lia.
Qed.

Lemma ListEnd_closes h n s s1 s2 : 0 <= h -> 0 <= n ->
  opened h n s s1 -> adv n s1 s2 -> fits s (h + n) ->
  exists s3, Stream_ListEnd s2 = (s3, Ok tt) /\ adv (h + n) s s3.
Proof.
  intros Hh Hn (s0 & (R0 & L0 & M0 & K0 & S0) & R & L & M & K & S) (R2 & L2 & M2 & K2 & S2) (_ & _ & Hst).
  unfold Stream_ListEnd. rewrite S2, S. simpl. rewrite Z.eqb_refl. eexists. split; [done|].
  unfold adv. simpl. rewrite R2, R, R0, L2, L, L0, S0, drop_drop, Z2Nat.inj_add by done.
  split_and!; try done.
  - intros HL. rewrite M2, M, M0 by congruence. lia.
  - destruct (s_stack s) as [|tos st]; simpl in *; [done|]. rewrite u64_id by lia.
    do 2 f_equal. lia.
Qed.

(** A list whose content is read by [m]. *)
Lemma reads_list {A} N M (open : D Z) (close : D unit) (m : D A) p v :
  (open = Stream_List \/ open = wrap Stream_List) ->
  (close = Stream_ListEnd \/ close = wrap Stream_ListEnd) ->
  small p -> reads_exact M m p v -> (N <= S M)%nat ->
  reads N (_ ← open; x ← m; close;; mret x) (rlist p) v.
Proof.
  intros Ho Hc Hs Hm HNM s rest HN Hk Hr Hf. unfold small in Hs.
  destruct (List_opens s p rest Hk Hr Hs Hf) as (s1 & E1 & Hop).
  unfold rlist in Hf |- *. rewrite length_app, Nat2Z.inj_add in Hf |- *.
  pose proof (opened_fits _ _ _ _ (Nat2Z.is_nonneg _) (conj (Nat2Z.is_nonneg _) Hs) Hop Hf) as Hf1.
  pose proof Hop as (s0 & (R0 & _) & R & _ & _ & K & S).
  unfold rlist in Hr. rewrite <- app_assoc in Hr.
  destruct (Hm s1 rest {| lp_pos := 0; lp_size := Z.of_nat (length p) |} (s_stack s0))
    as (s2 & E2 & Ha2); try done.
  { rewrite R, R0, length_drop.
    pose proof (length_head_of KList (Z.of_nat (length p)) ltac:(done) ltac:(lia)).
    destruct Hf as [Hf _]. cbn [head_of] in *. lia. }
  { rewrite R, R0, Hr. by apply drop_app_n. }
  destruct (ListEnd_closes _ _ _ _ _ (Nat2Z.is_nonneg _) (Nat2Z.is_nonneg _) Hop Ha2 Hf) as (s3 & E3 & Ha3).
  exists s3. split; [|done].
  rewrite (D_bind_Ok open _ s s1 (Z.of_nat (length p)))
    by (destruct Ho as [->| ->]; unfold wrap, map_err; by rewrite E1).
  rewrite (D_bind_Ok _ _ _ _ _ E2).
  rewrite (D_bind_Ok close _ s2 s3 tt)
    by (destruct Hc as [->| ->]; unfold wrap, map_err; by rewrite E3).
  done.
Qed.

Lemma reads_exact_mono {A} N M (m : D A) enc v : (M <= N)%nat -> reads_exact N m enc v -> reads_exact M m enc v.
Proof. intros HMN Hm s rest tos st HN. apply Hm. lia. Qed.

Lemma reads_exact_bind {A B} N (m : D A) (f : A -> B) enc v :
  reads_exact N m enc v -> reads_exact N (x ← m; mret (f x)) enc (f v).
Proof.
  intros Hm s rest tos st HN Hk Hr Hf Hst Hsz.
  destruct (Hm s rest tos st HN Hk Hr Hf Hst Hsz) as (s' & E & Ha).
  exists s'. by rewrite (D_bind_Ok _ _ _ _ _ E).
Qed.

Lemma adv_refl s : s_kind s = None -> adv 0 s s.
Proof. intros Hk. unfold adv. rewrite adv_stack_0. split_and!; try done. intros _. lia. Qed.

Lemma adv_length n s s' : adv n s s' -> (length (s_r s') <= length (s_r s))%nat.
Proof. intros (-> & _). rewrite length_drop. lia. Qed.

(** Reading one encoding and then another one. *)
Lemma reads_exact_app {A B} N (m : D A) (k : A -> D B) enc1 enc2 v1 v2 :
  reads N m enc1 v1 -> reads_exact N (k v1) enc2 v2 ->
  reads_exact N (x ← m; k x) (enc1 ++ enc2) v2.
Proof.
  intros H1 H2 s rest tos st HN Hk Hr Hf Hst Hsz.
  rewrite <- app_assoc in Hr. rewrite length_app, Nat2Z.inj_add in *.
  destruct (H1 s (enc2 ++ rest) HN Hk Hr) as (s1 & E1 & Ha1); [eapply fits_le; [|exact Hf]; lia|].
  pose proof (adv_fits _ (Z.of_nat (length enc2)) _ _ (Nat2Z.is_nonneg _) (Nat2Z.is_nonneg _) Ha1 Hf) as Hf1.
  pose proof (adv_length _ _ _ Ha1). pose proof Ha1 as (R1 & _ & _ & K1 & S1).
  rewrite Hst in S1. simpl in S1.
  destruct (H2 s1 rest {| lp_pos := lp_pos tos + Z.of_nat (length enc1); lp_size := lp_size tos |} st
    ltac:(lia) K1) as (s2 & E2 & Ha2); [|done|exact S1|simpl; lia|].
  { rewrite R1, Hr. by apply drop_app_n. }
  exists s2. rewrite (D_bind_Ok _ _ _ _ _ E1). split; [done|].
  eapply adv_trans; [lia|lia|done..].
Qed.

Lemma decodeSliceElems_cons {A} fuel (elemdec : D A) s s1 x :
  elemdec s = (s1, Ok x) ->
  decodeSliceElems (S fuel) elemdec s = (l ← decodeSliceElems fuel elemdec; mret (x :: l)) s1.
Proof. intros E. simpl. by rewrite E. Qed.

Lemma reads_elems {A} N fuel (elemdec : D A) enc l :
  Forall (fun x => reads N elemdec (enc x) x) l -> eol elemdec -> (length l < fuel)%nat ->
  reads_exact N (decodeSliceElems fuel elemdec) (concat (map enc l)) l.
Proof.
  intros Hl He. revert fuel. induction Hl as [|x l Hx Hl IH]; intros [|fuel] Hfuel; try (simpl in *; lia).
  - intros s rest tos st HN Hk Hr Hf Hst Hsz. simpl. rewrite (He s Hk).
    + eexists. split; [done|]. by apply (adv_refl (set_kinderr s None)).
    + unfold at_EOL. rewrite Hst. simpl in Hsz. apply Z.eqb_eq. lia.
  - intros s rest tos st HN Hk Hr Hf Hst Hsz. simpl concat in *.
    assert (reads_exact N (x ← elemdec; l ← decodeSliceElems fuel elemdec; mret (x :: l))
      (enc x ++ concat (map enc l)) (x :: l)) as Hcons.
    { apply (reads_exact_app N elemdec _ _ _ x); [done|]. apply reads_exact_bind, IH. simpl in *; lia. }
    destruct (Hcons s rest tos st HN Hk Hr Hf Hst Hsz) as (s' & E & Ha).
    exists s'. split; [|done]. rewrite <- E.
    rewrite <- app_assoc in Hr. rewrite length_app, Nat2Z.inj_add in Hf.
    destruct (Hx s (concat (map enc l) ++ rest) HN Hk Hr) as (s1 & E1 & _);
      [eapply fits_le; [|exact Hf]; lia|].
    rewrite (decodeSliceElems_cons _ _ _ _ _ E1). by rewrite (D_bind_Ok _ _ _ _ _ E1).
Qed.

Lemma length_concat_ge {A} (enc : A -> bytes) l :
  Forall (fun x => enc x <> []) l -> (length l <= length (concat (map enc l)))%nat.
Proof.
  induction 1 as [|x l Hx Hl IH]; simpl; [lia|]. rewrite length_app.
  destruct (enc x); [done|]. simpl. lia.
Qed.

Lemma decodeListSlice_list {A} fuel (elemdec : D A) s s1 n :
  Stream_List s = (s1, Ok n) -> n <> 0 ->
  decodeListSlice fuel elemdec s =
  (_ ← Stream_List; l ← decodeSliceElems fuel elemdec; Stream_ListEnd;; mret l) s.
Proof.
  intros E Hn. unfold decodeListSlice.
  rewrite (D_bind_Ok (wrap Stream_List) _ s s1 n) by (unfold wrap, map_err; by rewrite E).
  rewrite (D_bind_Ok _ _ _ _ _ E), (proj2 (Z.eqb_neq n 0)) by done. done.
Qed.

Lemma reads_ListSlice {A} N M fuel (elemdec : D A) enc l :
  Forall (fun x => reads M elemdec (enc x) x /\ enc x <> []) l -> eol elemdec ->
  (N <= S M)%nat -> (N <= S fuel)%nat -> small (concat (map enc l)) ->
  reads N (decodeListSlice fuel elemdec) (rlist (concat (map enc l))) l.
Proof.
  intros [Hl Hne]%Forall_and He HNM HNf Hs s rest HN Hk Hr Hf.
  pose proof (length_concat_ge enc l Hne) as Hlen.
  destruct (List_opens s _ rest Hk Hr Hs Hf) as (s1 & E1 & Hop).
  destruct (decide (Z.of_nat (length (concat (map enc l))) = 0)) as [E0|E0].
  - destruct l as [|x l]; [|destruct (concat _); simpl in *; lia]. simpl in *.
    unfold decodeListSlice.
    rewrite (D_bind_Ok (wrap Stream_List) _ s s1 0) by (unfold wrap, map_err; by rewrite E1).
    simpl. pose proof Hop as (s0 & _ & _ & _ & _ & K1 & _).
    destruct (ListEnd_closes 1 0 s s1 s1) as (s3 & E3 & Ha3); [done|done|done|by apply adv_refl|done|].
    exists s3. by rewrite (D_bind_Ok _ _ _ _ _ E3).
  - rewrite (decodeListSlice_list _ _ _ _ _ E1 E0).
    assert (length (s_r s) >= S (length (concat (map enc l))))%nat as Hge.
    { rewrite Hr, length_app. unfold rlist. rewrite length_app.
      pose proof (length_head_of KList _ ltac:(done) (conj (Nat2Z.is_nonneg _) Hs)) as Hh.
      cbn [head_of] in Hh. lia. }
    refine (reads_list N M Stream_List Stream_ListEnd (decodeSliceElems fuel elemdec)
      (concat (map enc l)) l _ _ Hs _ HNM s rest HN Hk Hr Hf); [by left|by left|].
    apply reads_elems; [done|done|lia].
Qed.

Lemma decodeArrayElems_cons {A} n (elemdec : D A) s s1 x :
  elemdec s = (s1, Ok x) ->
  decodeArrayElems (S n) elemdec s = (x ← elemdec; l ← decodeArrayElems n elemdec; mret (x :: l)) s.
Proof. intros E. rewrite (D_bind_Ok _ _ _ _ _ E). simpl. by rewrite E. Qed.

Lemma reads_array_elems {A} N (elemdec : D A) enc l :
  Forall (fun x => reads N elemdec (enc x) x) l ->
  reads_exact N (decodeArrayElems (length l) elemdec) (concat (map enc l)) l.
Proof.
  induction 1 as [|x l Hx Hl IH]; intros s rest tos st HN Hk Hr Hf Hst Hsz.
  - exists s. split; [done|]. by apply adv_refl.
  - simpl concat in *. pose proof Hr as Hr'. rewrite <- app_assoc in Hr'.
    destruct (Hx s _ HN Hk Hr') as (s1 & E1 & _).
    { eapply fits_le; [|exact Hf]. rewrite length_app. lia. }
    simpl length. rewrite (decodeArrayElems_cons _ _ _ _ _ E1).
    eapply (reads_exact_app N elemdec); [exact Hx| |done..]. apply reads_exact_bind, IH.
Qed.

(** ** interface{} values *)
Lemma Kind_cached s s1 kn : Stream_Kind s = (s1, Ok kn) -> Stream_Kind s1 = (s1, Ok kn).
Proof.
  unfold Stream_Kind at 1. destruct (s_kind s) as [k|] eqn:Ek.
  - destruct (s_kinderr s) eqn:Ee; [done|]. intros [= <- <-]. unfold Stream_Kind. by rewrite Ek, Ee.
  - destruct (at_EOL _); [done|]. destruct (Stream_readKind _) as [s2 [[[k n] err]|e]]; [|done].
    simpl. destruct err; [done|]. destruct (size_error s2 n); [done|]. intros [= <- <-]. done.
Qed.

(** What starts with Kind does the same after Kind. *)
Definition peeks {A} (m : D A) : Prop := forall s s1 kn,
  Stream_Kind s = (s1, Ok kn) -> m s1 = m s.

Lemma peeks_Kind_self : peeks Stream_Kind.
Proof. intros s s1 kn E. by rewrite E, (Kind_cached _ _ _ E). Qed.

Lemma peeks_Kind {A} (f : Kind * Z -> D A) : peeks (ks ← Stream_Kind; f ks).
Proof.
  intros s s1 kn E. by rewrite (D_bind_Ok _ _ _ _ _ E), (D_bind_Ok _ _ _ _ _ (Kind_cached _ _ _ E)).
Qed.

Lemma peeks_bind {A B} (m : D A) (f : A -> D B) : peeks m -> peeks (x ← m; f x).
Proof. intros Hm s s1 kn E. unfold mbind, D_bind. by rewrite (Hm s s1 kn E). Qed.

Lemma peeks_map_err {A} g (m : D A) : peeks m -> peeks (map_err g m).
Proof. intros Hm s s1 kn E. unfold map_err. by rewrite (Hm s s1 kn E). Qed.

Lemma peeks_Bytes : peeks Stream_Bytes.
Proof. apply peeks_Kind. Qed.
Lemma peeks_List : peeks Stream_List.
Proof. apply peeks_Kind. Qed.
Lemma peeks_Raw : peeks Stream_Raw.
Proof. apply peeks_Kind. Qed.
Lemma peeks_uint bits : peeks (Stream_uint bits).
Proof. apply peeks_Kind. Qed.
Lemma peeks_ListSlice {A} fuel (elemdec : D A) : peeks (decodeListSlice fuel elemdec).
Proof. apply peeks_bind, peeks_map_err, peeks_List. Qed.

(** Kind on the encoding of a string and of a list. *)
Lemma Kind_rstr s b rest : is_bytes b -> small b ->
  s_kind s = None -> s_r s = rstr b ++ rest -> fits s (Z.of_nat (length (rstr b))) ->
  exists s1 k n, Stream_Kind s = (s1, Ok (k, n)) /\ k <> KList /\ (k = KString -> n = Z.of_nat (length b)) /\
    kinded (Z.of_nat (length (rstr b)) - n) k n s s1.
Proof.
  intros Hb Hs Hk Hr Hf. unfold small in Hs.
  destruct (rstr_cases b Hb) as [(x & -> & Hx & E)|[E Hnb]]; rewrite E in *.
  - destruct (Kind_byte s x rest) as (s1 & E1 & Hk1 & Hb1); [done..|].
    by eexists _, _, _.
  - rewrite <- app_assoc in Hr. rewrite length_app, Nat2Z.inj_add in *.
    destruct (Kind_head s KString (Z.of_nat (length b)) (b ++ rest)) as (s1 & E1 & Hk1);
      [done|done|done|lia|done|].
    eexists _, _, _. split_and!; [exact E1|done|done|].
    by rewrite Z.add_simpl_r.
Qed.

Lemma Kind_rlist s p rest : small p ->
  s_kind s = None -> s_r s = rlist p ++ rest -> fits s (Z.of_nat (length (rlist p))) ->
  exists s1, Stream_Kind s = (s1, Ok (KList, Z.of_nat (length p))) /\
    kinded (Z.of_nat (length (rlist p)) - Z.of_nat (length p)) KList (Z.of_nat (length p)) s s1.
Proof.
  intros Hs Hk Hr Hf. unfold rlist, small in *. rewrite <- app_assoc in Hr.
  rewrite length_app, Nat2Z.inj_add in *.
  destruct (Kind_head s KList (Z.of_nat (length p)) (p ++ rest)) as (s1 & E1 & Hk1);
    [done|done|done|lia|done|].
  exists s1. split; [exact E1|]. by rewrite Z.add_simpl_r.
Qed.

Fixpoint ival_rt (v : ival) : Prop :=
  match v with
  | INil => False
  | IBytes b => is_bytes b
  | ISlice l => foldr (fun x P => ival_rt x /\ P) True l
  end.

Lemma foldr_and_Forall {A} (P : A -> Prop) l : foldr (fun x Q => P x /\ Q) True l <-> Forall P l.
Proof.
  induction l as [|x l IH]; simpl; [by split|]. rewrite IH. split.
  - intros [? ?]. by constructor.
  - intros [? ?]%Forall_cons. done.
Qed.

Lemma rlist_nonnil p : rlist p <> [].
Proof. unfold rlist, puthead. by case_match. Qed.
Lemma rstr_nonnil b : rstr b <> [].
Proof.
  assert (forall n, puthead 0x80 0xB7 n ++ b <> []) as H by (intros n; unfold puthead; by case_match).
  unfold rstr. destruct b as [|x [|y b]]; [done| |apply H]. case_match; [done|apply H].
Qed.
Lemma renc_iface_nonnil v : renc_iface v <> [].
Proof. destruct v; [done|apply rstr_nonnil|apply rlist_nonnil]. Qed.

Lemma eol_interface fuel : (0 < fuel)%nat -> eol (decodeInterface fuel).
Proof.
  intros Hf. destruct fuel as [|fuel]; [lia|]. intros s Hk He. simpl.
  by rewrite (D_bind_Err _ _ _ _ _ (eol_Kind s Hk He)).
Qed.

Lemma small_concat_elem {A} (enc : A -> bytes) l :
  small (concat (map enc l)) -> Forall (fun x => small (enc x)) l.
Proof.
  induction l as [|x l IH]; intros Hs; constructor; simpl in *.
  - by eapply small_app_l.
  - by eapply IH, small_app_r.
Qed.

Lemma reads_interface v : ival_rt v -> small (renc_iface v) ->
  forall fuel, reads fuel (decodeInterface fuel) (renc_iface v) v.
Proof.
  induction v as [|b|l IH] using ival_induction; intros Hv Hs fuel s rest HN Hk Hr Hf;
    (destruct fuel as [|fuel]; [lia|]); cbn [decodeInterface]; [done|..]; simpl in Hv, Hr, Hf, Hs.
  - destruct (Kind_rstr s b rest) as (s1 & k & n & E1 & Hk1 & _); [done|by apply small_rstr|done..|].
    destruct (reads_Bytes (S fuel) b Hv (small_rstr _ Hs) s rest HN Hk Hr Hf) as (s2 & E2 & Ha).
    exists s2. split; [|done]. rewrite (D_bind_Ok _ _ _ _ _ E1).
    rewrite <- (peeks_Bytes _ _ _ E1) in E2. destruct k; [by rewrite (D_bind_Ok _ _ _ _ _ E2)..|done].
  - destruct (Kind_rlist s _ rest (small_rlist _ Hs) Hk Hr Hf) as (s1 & E1 & _).
    apply foldr_and_Forall in Hv. pose proof (small_concat_elem _ _ (small_rlist _ Hs)) as Hse.
    assert (Forall (fun x => reads fuel (decodeInterface fuel) (renc_iface x) x /\ renc_iface x <> []) l) as Hl.
    { apply Forall_forall. intros x Hx. rewrite Forall_forall in IH, Hv, Hse.
      split; [by apply IH; auto|apply renc_iface_nonnil]. }
    assert (0 < fuel)%nat as Hf0.
    { pose proof (rlist_nonnil (concat (map renc_iface l))). rewrite Hr, length_app in HN.
      destruct (rlist _); [done|]. simpl in HN. lia. }
    destruct (reads_ListSlice (S fuel) fuel (S fuel) (decodeInterface fuel) renc_iface l Hl
      (eol_interface fuel Hf0) ltac:(lia) ltac:(lia) (small_rlist _ Hs) s rest HN Hk Hr Hf)
      as (s2 & E2 & Ha).
    exists s2. split; [|done]. rewrite (D_bind_Ok _ _ _ _ _ E1). cbv beta iota.
    rewrite <- (peeks_ListSlice _ _ _ _ _ E1) in E2. by rewrite (D_bind_Ok _ _ _ _ _ E2).
Qed.

(** ** Encodings are bytes *)
Lemma puthead_bytes st lt n : is_bytes (puthead st lt n).
Proof.
  unfold puthead. case_match; [apply Forall_singleton, byte_range|]. apply Forall_cons. split; [apply byte_range|].
  unfold putint. repeat case_match; apply be_bytes.
Qed.

Lemma rstr_bytes b : is_bytes b -> is_bytes (rstr b).
Proof.
  intros Hb. unfold rstr. destruct b as [|x [|y b]]; try (apply Forall_app; split; [apply puthead_bytes|done]).
  case_match; [done|]. apply Forall_app. split; [apply puthead_bytes|done].
Qed.

Lemma rlist_bytes b : is_bytes b -> is_bytes (rlist b).
Proof. intros Hb. apply Forall_app. split; [apply puthead_bytes|done]. Qed.

Lemma rint_bytes i : is_bytes (rint i).
Proof. apply rstr_bytes, big_Bytes_bytes. Qed.

Lemma concat_bytes {A} (f : A -> bytes) l : Forall (fun x => is_bytes (f x)) l -> is_bytes (concat (map f l)).
Proof. intros H. apply Forall_concat, Forall_fmap, H. Qed.

Lemma renc_iface_bytes v : ival_wt v -> is_bytes (renc_iface v).
Proof.
  induction v as [|b|l IH] using ival_induction; intros Hv; cbn [renc_iface]; [by apply rlist_bytes, Forall_nil_2|by apply rstr_bytes|].
  apply rlist_bytes, concat_bytes. cbn [ival_wt] in Hv. apply foldr_and_Forall in Hv. rewrite Forall_forall in *. auto.
Qed.

Lemma renc_bytes : (forall t, valid_type t = true -> forall ts v, wt t v -> is_bytes (renc t ts v))
  /\ (forall fs, valid_fields fs = true -> forall v, wts fs v -> is_bytes (renc_fields fs v)).
Proof.
  assert (forall e l ts, (forall ts v, wt e v -> is_bytes (renc e ts v)) -> Forall (wt e) l ->
    is_bytes (if tail ts then concat (map (renc e no_tags) l) else rlist (concat (map (renc e no_tags) l)))) as Hl.
  { intros e l ts IH Hw. assert (is_bytes (concat (map (renc e no_tags) l))) by (apply concat_bytes; eapply Forall_impl; [exact Hw|auto]).
    case_match; [done|by apply rlist_bytes]. }
  apply rtype_fields_ind; cbn -[Z.pow rlist rstr rint].
  - done.
  - intros _ ts v. apply renc_iface_bytes.
  - intros _ ts [i|] _; apply rint_bytes.
  - intros _ ts i _. apply rint_bytes.
  - intros bits _ ts i _. apply rint_bytes.
  - intros _ ts b _. apply rint_bytes.
  - intros _ ts b. apply rstr_bytes.
  - intros _ ts b. apply rstr_bytes.
  - intros n _ ts b [Hb _]. by apply rstr_bytes.
  - intros e IH Ht ts l Hw. by apply Hl; [apply IH|].
  - intros n e IH Ht ts l [Hw _]. by apply Hl; [apply IH|].
  - intros fs IH [_ Ht]%andb_true_iff ts v Hw. by apply rlist_bytes, IH.
  - intros e IH Ht ts [x|] Hw; [by apply IH|]. pose proof (IH Ht no_tags _ (zero_wt e Ht)) as Hz.
    destruct e; try exact Hz; first [apply rstr_bytes, Forall_nil_2|apply rlist_bytes, Forall_nil_2]; done.
  - intros _ [] _. apply Forall_nil_2.
  - intros ts t IHt fs IHfs [Ht Hfs]%andb_true_iff [x xs] [Hx Hxs]. apply Forall_app. split; [by apply IHt|by apply IHfs].
Qed.

(** ** The round trip *)

(** Types whose nil pointer is encoded as an empty value. *)
Fixpoint nil_empty (e : rtype) : bool :=
  match e with
  | TRaw => false
  | TPtr e => nil_empty e
  | _ => true
  end.

(** The values that decoding can tell apart: a raw value is one RLP value,
    pointers are not nil (with the tag "nil": a pointer is nil rather than a
    pointer to an empty value), interfaces are not nil, and a [1]byte is not
    [0]. *)
Fixpoint rt (t : rtype) (ts : tags) : denote t -> Prop :=
  match t return denote t -> Prop with
  | TRaw => fun v => exists b, is_bytes b /\ (v = rstr b \/ v = rlist b)
  | TIface => ival_rt
  | TBigPtr => fun v => v <> None
  | TByteArray _ => fun v => v <> [0]
  | TSlice e | TArray _ e => Forall (rt e no_tags)
  | TStruct fs => rts fs
  | TPtr e => fun v =>
    match v with
    | Some x => rt e no_tags x /\
                (nilOK ts = true -> renc e no_tags x <> rstr [] /\ renc e no_tags x <> rlist [])
    | None => nilOK ts = true /\ nil_empty e = true
    end
  | _ => fun _ => True
  end
with rts (fs : fields) : denotes fs -> Prop :=
  match fs return denotes fs -> Prop with
  | FNil => fun _ => True
  | FCons ts t fs => fun v => rt t ts (fst v) /\ rts fs (snd v)
  end.

Lemma renc_nonnil t v : rt t no_tags v -> renc t no_tags v <> [].
Proof.
  revert v. induction t as [| | | | | | | | |e|n e|fs|e IH]; intros v Hv;
    try apply rlist_nonnil; try apply rstr_nonnil.
  - destruct Hv as (b & _ & [->| ->]); [apply rstr_nonnil|apply rlist_nonnil].
  - apply renc_iface_nonnil.
  - simpl in *. destruct v; [apply rstr_nonnil|done].
  - destruct v as [x|]; [apply IH, Hv|by destruct Hv].
Qed.

(** Every value is encoded as a string or as a list. *)
Lemma renc_string_or_list t v : wt t v -> rt t no_tags v ->
  (exists b, is_bytes b /\ renc t no_tags v = rstr b) \/ (exists b, renc t no_tags v = rlist b).
Proof.
  revert v. induction t as [| | | | | | | | |e|n e|fs|e IH]; intros v Hw Hv; simpl in *;
    try (by right; eexists);
    try (by left; eexists; split; [|reflexivity]; try apply big_Bytes_bytes; naive_solver).
  - destruct Hv as (b & Hb & [->| ->]); [left|right]; eauto.
  - destruct v; [done|left; by eexists|right; by eexists].
  - destruct v; [|done]. left. eexists; split; [|reflexivity]. apply big_Bytes_bytes.
  - destruct v as [x|]; [|by destruct Hv]. apply IH; [done|apply Hv].
Qed.

Lemma renc_nil_empty e ts : nil_empty e = true ->
  renc (TPtr e) ts None = rstr [] \/ renc (TPtr e) ts None = rlist [].
Proof.
  revert ts. induction e as [| | | | | | | | |e|n e|fs|e IH]; intros ts He; simpl in *;
    try done; try (by left); try (by right). by apply (IH no_tags).
Qed.

(** Every decoder of an element starts with Kind. *)
Lemma dec_eol fuel t : (0 < fuel)%nat -> eol (dec fuel t no_tags).
Proof.
  intros Hf. induction t as [| | | | | | | | |e|n e|fs|e IH]; simpl;
    repeat first [apply eol_bind | apply eol_wrap | apply eol_Kind];
    try (by apply eol_interface); by apply IH.
Qed.

Lemma dec_peeks fuel t : (0 < fuel)%nat -> peeks (dec fuel t no_tags).
Proof.
  intros Hf. induction t as [| | | | | | | | |e|n e|fs|e IH]; simpl;
    repeat first [apply peeks_bind | apply peeks_map_err]; try apply peeks_Kind_self; [|apply IH].
  destruct fuel as [|fuel]; [lia|]. apply peeks_Kind.
Qed.

(** A pointer with the tag "nil". *)
Lemma reads_optionalPtr_Some {A} N (m : D A) enc v :
  reads N m enc v -> peeks m ->
  ((exists b, is_bytes b /\ enc = rstr b) \/ (exists b, enc = rlist b)) -> small enc ->
  enc <> rstr [] -> enc <> rlist [] ->
  reads N (optionalPtr m) enc (Some v).
Proof.
  intros Hm Hp Hform Hs Hn1 Hn2 s rest HN Hk Hr Hf.
  destruct (Hm s rest HN Hk Hr Hf) as (s' & E & Ha). exists s'. split; [|done].
  assert (exists s1 k n, Stream_Kind s = (s1, Ok (k, n)) /\
            (n =? 0) && negb (bool_decide (k = KByte)) = false) as (s1 & k & n & E1 & Hkn).
  { destruct Hform as [(b & Hb & ->)|(b & ->)].
    - destruct (Kind_rstr s b rest Hb (small_rstr _ Hs) Hk Hr Hf) as (s1 & k & n & E1 & Hk1 & Hsz & _).
      eexists _, _, _. split; [exact E1|]. destruct k; [apply andb_false_r| |done].
      rewrite Hsz by done. destruct b; [done|]. done.
    - destruct (Kind_rlist s b rest (small_rlist _ Hs) Hk Hr Hf) as (s1 & E1 & _).
      eexists _, _, _. split; [exact E1|]. by destruct b. }
  unfold optionalPtr. rewrite E1, Hkn, (D_bind_Ok m _ s1 s' v); [done|].
  by rewrite (Hp _ _ _ E1).
Qed.

Lemma reads_optionalPtr_None {A} N (m : D A) enc : enc = rstr [] \/ enc = rlist [] ->
  reads N (optionalPtr m) enc None.
Proof.
  intros He s rest HN Hk Hr Hf.
  assert (exists s1 k, Stream_Kind s = (s1, Ok (k, 0)) /\ k <> KByte /\
            kinded (Z.of_nat (length enc)) k 0 s s1) as (s1 & k & E1 & Hk1 & Hkd).
  { destruct He as [->| ->].
    - destruct (Kind_head s KString 0 rest) as (s1 & E1 & Hk1); [done..|]. by eexists _, _.
    - destruct (Kind_head s KList 0 rest) as (s1 & E1 & Hk1); [done..|]. by eexists _, _. }
  exists (set_kind s1 None). split; [|by eapply kinded_rearm].
  unfold optionalPtr. by rewrite E1, bool_decide_false.
Qed.

Lemma small_le a b : (length a <= length b)%nat -> small b -> small a.
Proof. unfold small. lia. Qed.

(** A slice with the tag "tail" is read up to the end of the list that
    contains it; everything else wherever it stands. *)
Definition dec_ok (t : rtype) (ts : tags) (v : denote t) : Prop := forall fuel,
  if tail ts then is_slice t = true -> reads_exact fuel (dec fuel t ts) (renc t ts v) v
  else reads fuel (dec fuel t ts) (renc t ts v) v.

Lemma dec_ok_reads t ts v :
  (forall fuel, reads fuel (dec fuel t ts) (renc t ts v) v) -> dec_ok t ts v.
Proof. intros H fuel. destruct (tail ts); [|done]. intros _. by apply reads_reads_exact. Qed.

Lemma dec_elems_read e l :
  Forall (fun x => dec_ok e no_tags x) l ->
  forall fuel, Forall (fun x => reads fuel (dec fuel e no_tags) (renc e no_tags x) x) l.
Proof. intros Hl fuel. eapply Forall_impl; [exact Hl|]. intros x Hx. apply Hx. Qed.

Lemma dec_slice_ok e ts l :
  Forall (fun x => dec_ok e no_tags x) l -> Forall (rt e no_tags) l ->
  small (renc (TSlice e) ts l) -> dec_ok (TSlice e) ts l.
Proof.
  intros Hl Hv Hs fuel. pose proof (dec_elems_read e l Hl fuel) as Hr.
  assert (Forall (fun x => renc e no_tags x <> []) l) as Hne.
  { eapply Forall_impl; [exact Hv|]. intros x. apply renc_nonnil. }
  simpl in *. destruct (tail ts).
  - intros _ s rest tos st HN Hk Hsr. revert HN Hk Hsr. intros HN Hk Hsr.
    refine (reads_elems fuel fuel _ _ l Hr (dec_eol fuel e _) _ s rest tos st HN Hk Hsr); [lia|].
    pose proof (length_concat_ge _ _ Hne). rewrite Hsr, length_app in HN. lia.
  - intros s rest HN.
    refine (reads_ListSlice fuel fuel fuel _ _ l _ (dec_eol fuel e _) _ _ (small_rlist _ Hs) s rest HN);
      [|lia..]. by apply Forall_and.
Qed.

Lemma dec_array_ok n e ts l :
  Forall (fun x => dec_ok e no_tags x) l -> length l = n ->
  small (renc (TArray n e) ts l) -> dec_ok (TArray n e) ts l.
Proof.
  intros Hl Hn Hs fuel. pose proof (dec_elems_read e l Hl fuel) as Hr.
  simpl in *. destruct (tail ts); [done|]. subst n.
  apply (reads_list fuel fuel (wrap Stream_List) (wrap Stream_ListEnd)
    (decodeArrayElems (length l) (dec fuel e no_tags)));
    [by right|by right|by apply small_rlist|by apply reads_array_elems|lia].
Qed.

Lemma dec_ptr_ok e ts v :
  (forall x, v = Some x -> dec_ok e no_tags x) -> wt (TPtr e) v -> rt (TPtr e) ts v ->
  small (renc (TPtr e) ts v) -> dec_ok (TPtr e) ts v.
Proof.
  intros Hx Hw Hv Hs. apply dec_ok_reads. intros fuel s rest HN.
  destruct v as [x|]; simpl in Hw, Hv; cbn [dec].
  - destruct Hv as [Hv Hn]. pose proof (Hx x eq_refl fuel) as Hr. simpl in Hr.
    destruct (nilOK ts).
    + destruct Hn as [Hn1 Hn2]; [done|].
      by apply (reads_optionalPtr_Some fuel _ (renc e no_tags x));
        [|apply dec_peeks; lia|by apply renc_string_or_list|..].
    + by apply (reads_bind fuel _ Some).
  - destruct Hv as [-> Hn]. revert s rest HN. apply reads_optionalPtr_None.
    by apply (renc_nil_empty e ts).
Qed.

(** A first field with the tag "tail" is the last one. *)
Lemma dec_field_ok ts t fs x xs :
  (tail ts = true -> fs = FNil /\ is_slice t = true) -> dec_ok t ts x ->
  (forall fuel, reads_exact fuel (dec_fields fuel fs) (renc_fields fs xs) xs) ->
  forall fuel, reads_exact fuel (dec_fields fuel (FCons ts t fs)) (renc_fields (FCons ts t fs) (x, xs)) (x, xs).
Proof.
  intros Htl Hx Hxs fuel. specialize (Hx fuel). cbn [dec_fields renc_fields fst snd].
  destruct (tail ts) eqn:E.
  - destruct (Htl eq_refl) as [-> Hsl]. specialize (Hx Hsl). destruct xs. simpl. rewrite app_nil_r.
    intros s rest tos st HN Hk Hr Hf Hst Hsz.
    destruct (Hx s rest tos st HN Hk Hr Hf Hst Hsz) as (s' & E' & Ha). exists s'. split; [|done].
    by rewrite (D_bind_Ok (map_err _ _) _ s s' x) by (unfold map_err; by rewrite E').
  - apply (reads_exact_app fuel _ (fun x => xs ← dec_fields fuel fs; mret (x, xs)) _ _ x).
    + by apply reads_map_err.
    + by apply reads_exact_bind.
Qed.

Lemma dec_reads :
  (forall t, valid_type t = true -> forall ts v,
     wt t v -> encodable t v = true -> rt t ts v -> small (renc t ts v) -> dec_ok t ts v) /\
  (forall fs, valid_fields fs = true -> structFields_ok fs = true -> forall v,
     wts fs v -> encodables fs v = true -> rts fs v -> small (renc_fields fs v) ->
     forall fuel, reads_exact fuel (dec_fields fuel fs) (renc_fields fs v) v).
Proof.
  assert (forall e ts l, valid_type e = true ->
    (forall ts v, wt e v -> encodable e v = true -> rt e ts v -> small (renc e ts v) -> dec_ok e ts v) ->
    Forall (wt e) l -> forallb (encodable e) l = true -> Forall (rt e no_tags) l ->
    small (renc (TSlice e) ts l) -> Forall (fun x => dec_ok e no_tags x) l) as Helems.
  { intros e ts l Ht IH Hw He Hv Hs. apply forallb_Forall in He.
    assert (Forall (fun x => small (renc e no_tags x)) l) as Hse.
    { apply small_concat_elem. simpl in Hs. destruct (tail ts); [done|by apply small_rlist]. }
    apply Forall_forall. intros x Hx. rewrite Forall_forall in Hw, He, Hv, Hse. auto. }
  apply rtype_fields_ind.
  - intros _ ts v _ _ (b & Hb & [->| ->]) Hs; apply dec_ok_reads; intros fuel; simpl in *.
    + apply reads_Raw_str; [done|by apply small_rstr].
    + apply (reads_Raw fuel KList); [by apply small_rlist|done].
  - intros _ ts v _ _ Hv Hs. apply dec_ok_reads. by apply reads_interface.
  - intros _ ts [i|] _ He Hv Hs; [|done]. apply dec_ok_reads. intros fuel. simpl in *.
    apply (reads_bind _ _ Some), reads_BigInt; [lia|done].
  - intros _ ts i _ He Hv Hs. apply dec_ok_reads. intros fuel. simpl in *. apply reads_BigInt; [lia|done].
  - intros bits Ht ts i Hi _ _ _. apply dec_ok_reads. intros fuel.
    apply (valid_bits (TUint bits) bits) in Ht as [? ?]; [|done]. by apply reads_map_err, reads_uint.
  - intros _ ts b _ _ _ _. apply dec_ok_reads. intros fuel. apply reads_map_err, reads_Bool.
  - intros _ ts b Hb _ _ Hs. apply dec_ok_reads. intros fuel. by apply reads_map_err, reads_Bytes, small_rstr.
  - intros _ ts b Hb _ _ Hs. apply dec_ok_reads. intros fuel. by apply reads_map_err, reads_Bytes, small_rstr.
  - intros n _ ts b [Hb Hn] _ Hv Hs. apply dec_ok_reads. intros fuel. simpl in *. subst n.
    apply reads_ByteArray; [done|by apply small_rstr|done].
  - intros e IH Ht ts l Hw He Hv Hs. by apply dec_slice_ok; [eapply Helems; eauto|..].
  - intros n e IH Ht ts l [Hw Hn] He Hv Hs. by apply dec_array_ok; [eapply Helems; eauto|..].
  - intros fs IH [Hok Ht]%andb_true_iff ts v Hw He Hv Hs. apply dec_ok_reads. intros fuel. simpl in *.
    apply (reads_list fuel fuel (wrap Stream_List) (wrap Stream_ListEnd) (dec_fields fuel fs));
      [by right|by right|by apply small_rlist| |lia].
    apply IH; try done. by apply small_rlist.
  - intros e IH Ht ts v Hw He Hv Hs. apply dec_ptr_ok; [|done..]. intros x ->.
    apply IH; [done|done|done|apply Hv|done].
  - intros _ _ [] _ _ _ _ fuel s rest tos st HN Hk _ _ _ _. exists s. split; [done|]. by apply adv_refl.
  - intros ts t IHt fs IHfs [Ht Hfs]%andb_true_iff [Hok Hoks]%andb_true_iff [x xs] [Hwx Hwxs]
      [Hex Hexs]%andb_true_iff [Hvx Hvxs] Hs. cbn [renc_fields fst snd] in *.
    apply dec_field_ok.
    + intros Htl. rewrite Htl in Hok. apply andb_true_iff in Hok as [Hnil Hsl]. by destruct fs.
    + eauto with rlp.
    + eauto with rlp.
Qed.

Lemma DecodeBytes_renc t v :
  valid_type t = true -> wt t v -> encodable t v = true -> rt t no_tags v ->
  small (renc t no_tags v) -> DecodeBytes t (renc t no_tags v) = Ok v.
Proof.
  intros Ht Hw He Hv Hs. set (b := renc t no_tags v). unfold DecodeBytes.
  pose proof (proj1 dec_reads t Ht no_tags v Hw He Hv Hs (S (length b))) as Hr. simpl in Hr.
  destruct (Hr (Stream_Reset b (Z.of_nat (length b))) []) as (s' & -> & Ha).
  - simpl. lia.
  - done.
  - simpl. by rewrite app_nil_r.
  - fold b. unfold fits. simpl. split_and!; [lia|lia| |done]. case_match; lia.
  - destruct Ha as (-> & _). simpl. fold b. rewrite Nat2Z.id, drop_all. done.
Qed.
