(* ===== verification/RlpInput.v ===== *)
(** * The RLP decoder on arbitrary inputs

    What utilities/rlp/decode.go does with bytes that need not be an encoding:
    every input is decoded or rejected in finitely many steps, and what is
    accepted is the canonical encoding of the value returned. *)
From S2P Require Import Prelude Rlp RlpDecode.
Local Open Scope Z_scope.

(** ** Arbitrary inputs

    The positions of the open lists are within their sizes, and every list
    fits into the rest of the list around it and into the input. *)
Fixpoint stack_in (rem extra : Z) (st : list listpos) : Prop :=
  match st with
  | [] => 0 <= rem
  | tos :: st' =>
    0 <= lp_pos tos /\ lp_pos tos + extra <= lp_size tos /\ lp_size tos < 2 ^ 64 /\
    lp_size tos - (lp_pos tos + extra) <= rem /\
    stack_in (rem - (lp_size tos - (lp_pos tos + extra))) (lp_size tos) st'
  end.

Definition good (s : Stream) : Prop :=
  s_limited s = true /\ s_remaining s = Z.of_nat (length (s_r s)) /\ is_bytes (s_r s) /\
  Z.of_nat (length (s_r s)) < 2 ^ 64 /\ stack_in (s_remaining s) 0 (s_stack s).

Lemma stack_in_adv rem extra st : 0 <= extra -> stack_in rem extra st -> stack_in rem 0 (adv_stack extra st).
Proof.
  intros He. destruct st as [|tos st]; simpl; [done|]. intros (? & ? & ? & ? & Hin).
  rewrite Z.add_0_r. split_and!; try lia. done.
Qed.

(** The bytes that can be read without an error. *)
Lemma good_fits s n : good s -> 0 <= n <= Z.of_nat (length (s_r s)) ->
  match s_stack s with [] => True | tos :: _ => n <= lp_size tos - lp_pos tos end -> fits s n.
Proof.
  intros (L & M & B & Hlt & S) Hn Hst. unfold fits. rewrite M. split_and!; [lia|lia|lia|].
  destruct (s_stack s) as [|tos st]; [done|]. simpl in S. lia.
Qed.

Lemma adv_good n s s' : good s -> fits s n -> adv n s s' -> good s'.
Proof.
  intros (L & M & B & Hlt & S) (Hn & _ & Hst) (R' & L' & M' & K' & S'). unfold good.
  rewrite R', L', S', M', M, length_drop by done. split_and!; [done|lia|by apply Forall_drop|lia|].
  rewrite M in S. destruct (s_stack s) as [|tos st]; simpl in *; [lia|].
  destruct S as (? & ? & ? & ? & Hin). split_and!; [lia..|].
  replace (_ - _ - _) with (Z.of_nat (length (s_r s)) - (lp_size tos - (lp_pos tos + 0))) by lia. done.
Qed.

(** Errors other than the end of a list and the bound of the model. *)
Definition benign (e : rlp_error) : bool :=
  match e with EOL | OutOfFuel => false | _ => true end.

Definition fails {A} (m : D A) (s : Stream) : Prop :=
  exists s' e, m s = (s', Err e) /\ benign e = true.

Lemma fails_bind {A B} (m : D A) (f : A -> D B) s : fails m s -> fails (x ← m; f x) s.
Proof. intros (s' & e & E & He). exists s', e. by rewrite (D_bind_Err _ _ _ _ _ E). Qed.

Lemma willRead_good s n : good s -> 0 <= n -> fits s n \/ fails (willRead n) s.
Proof.
  intros (L & M & B & Hlt & S) Hn. unfold fits, fails, willRead. simpl.
  destruct (s_stack s) as [|tos st].
  - rewrite L. destruct (Z.ltb_spec (s_remaining s) n).
    + right. eexists _, _. by split.
    + left. split_and!; [lia|lia|done|done].
  - simpl in S. rewrite u64_id by lia. destruct (Z.ltb_spec (lp_size tos - lp_pos tos) n).
    + right. eexists _, _. by split.
    + left. split_and!; lia.
Qed.

Lemma readFull_good s n : good s -> 0 <= n -> fits s n \/ fails (readFull n) s.
Proof.
  intros Hg Hn. destruct (willRead_good s n Hg Hn) as [|Hf]; [by left|right]. by apply fails_bind.
Qed.

Lemma readByte_good s : good s ->
  (exists s' b, readByte s = (s', Ok b) /\ fits s 1 /\ adv 1 s s' /\ is_byte b /\ s_r s = b :: s_r s')
  \/ fails readByte s.
Proof.
  intros Hg. destruct (willRead_good s 1 Hg) as [Hf|Hf]; [lia| |right; by apply fails_bind].
  left. destruct (s_r s) as [|b r] eqn:Er.
  { destruct Hf as [Hf _]. rewrite Er in Hf. simpl in Hf. lia. }
  destruct (readByte_fits s b r Er Hf) as (s' & E & Ha). exists s', b. split_and!; try done.
  - destruct Hg as (_ & _ & B & _). rewrite Er in B. by apply Forall_cons in B as [? _].
  - destruct Ha as (-> & _). by rewrite Er.
Qed.

Lemma adv_take n s s' : 0 <= n -> fits s n -> adv n s s' ->
  s_r s = take (Z.to_nat n) (s_r s) ++ s_r s' /\ Z.of_nat (length (take (Z.to_nat n) (s_r s))) = n.
Proof.
  intros Hn [Hf _] (-> & _). rewrite take_drop, length_take. split; [done|lia].
Qed.

Lemma readUint_good s n : good s -> 1 <= n <= 8 ->
  (exists s' b, readUint n s = (s', Ok (be_uint b)) /\ fits s n /\ adv n s s' /\ is_bytes b /\
     s_r s = b ++ s_r s' /\ Z.of_nat (length b) = n /\ (n <> 1 -> head b <> Some 0))
  \/ fails (readUint n) s.
Proof.
  intros Hg Hn. unfold readUint. rewrite (proj2 (Z.eqb_neq n 0)) by lia.
  destruct (Z.eqb_spec n 1) as [->|Hn1].
  - destruct (readByte_good s Hg) as [(s' & b & E & Hf & Ha & Hb & Hr)|Hf]; [left|by right].
    exists s', [b]. split_and!; try done; try (by constructor).
  - destruct (readFull_good s n Hg) as [Hf|Hf]; [lia| |right; by apply fails_bind].
    destruct (readFull_fits s n Hf) as (s' & E & Ha).
    destruct (adv_take n s s' ltac:(lia) Hf Ha) as [Hr Hl].
    case_eq (bool_decide (head (take (Z.to_nat n) (s_r s)) = Some 0)); intros Hh.
    + right. eexists _, _. rewrite (D_bind_Ok _ _ _ _ _ E), Hh. by split.
    + left. exists s', (take (Z.to_nat n) (s_r s)). rewrite (D_bind_Ok _ _ _ _ _ E), Hh.
      apply bool_decide_eq_false in Hh. split_and!; try done.
      apply Forall_take. apply Hg.
Qed.

(** The header that readKind accepts is the canonical one. *)
Lemma long_head st lt b : is_bytes b -> 56 <= be_uint b -> (1 <= length b <= 8)%nat ->
  (Z.of_nat (length b) <> 1 -> head b <> Some 0) ->
  puthead st lt (be_uint b) = byte (lt + byte (Z.of_nat (length b))) :: b.
Proof.
  intros Hb Hge Hl Hh. unfold puthead. rewrite (proj2 (Z.ltb_ge _ _)) by lia.
  assert (takes (length b) (be_uint b)) as Ht.
  { destruct b as [|x b]; [simpl in Hl; lia|]. destruct (decide (x = 0)) as [->|Hx].
    - destruct b as [|y b]; [by vm_compute in Hge|]. by destruct Hh; [simpl; lia|].
    - by eapply takes_be_uint. }
  pose proof (be_uint_bound b Hb) as Hbd.
  pose proof (Z.pow_le_mono_r 2 (8 * Z.of_nat (length b)) 64).
  destruct (putint_takes (be_uint b)) as (n & -> & Hn & _); [lia|].
  rewrite (takes_inj n (length b) (be_uint b)), be_be_uint by done. done.
Qed.

(** What a header can be. *)
Definition header (k : Kind) (n : Z) (s1 : Stream) (hdr : bytes) : Prop :=
  0 <= n < 2 ^ 64 /\ hdr <> [] /\
  match k with
  | KByte => n = 0 /\ hdr = [s_byteval s1] /\ 0 <= s_byteval s1 < 128
  | _ => hdr = head_of k n
  end.

Lemma readLongSize_good s k lt st n :
  good s -> 1 <= n <= 8 -> k <> KByte -> 0 <= lt <= 247 ->
  (forall i, 0 <= i -> head_of k i = puthead st lt i) ->
  (exists s1 m e, readLongSize k n s = (s1, Ok (k, m, Some e)) /\ benign e = true) \/
  (exists s1 m b, readLongSize k n s = (s1, Ok (k, m, None)) /\ s_r s = b ++ s_r s1 /\
     Z.of_nat (length b) = n /\ fits s n /\ adv n s s1 /\
     0 <= m < 2 ^ 64 /\ head_of k m = (lt + n) :: b).
Proof.
  intros Hg Hn Hk Hlt Hh. unfold readLongSize.
  destruct (readUint_good s n Hg Hn) as [(s' & b & E & Hf & Ha & Hb & Hr & Hl & Hz)|(s' & e & E & He)];
    rewrite E; [|left; by eexists _, _, _].
  destruct (Z.ltb_spec (be_uint b) 56); [left; by eexists _, _, _|right].
  exists s', (be_uint b), b. pose proof (be_uint_bound b Hb).
  pose proof (Z.pow_le_mono_r 2 (8 * Z.of_nat (length b)) 64).
  split_and!; try done; try lia.
  rewrite Hh by lia. rewrite long_head; [|done|lia|lia|rewrite Hl; done].
  rewrite (byte_id (Z.of_nat (length b))), byte_id by lia. by rewrite Hl.
Qed.

Lemma adv_None n s s1 : adv n s s1 -> adv n s (set_kind s1 None).
Proof. intros Ha. rewrite set_kind_None; [done|]. apply Ha. Qed.

Lemma fits_trans n m s s' : 0 <= n -> adv n s s' -> fits s n -> fits s' m -> fits s (n + m).
Proof.
  intros Hn (R & L & M & _ & S) (H1 & H2 & H3) (H4 & H5 & H6).
  rewrite R, length_drop in H4. rewrite L in H5. rewrite S in H6. split_and!; [lia|lia|..].
  - intros HL. specialize (H5 HL). rewrite M in H5 by done. lia.
  - destruct (s_stack s); simpl in *; [done|]. lia.
Qed.

(** readKind found an error, or a header. *)
Definition kind_result (s : Stream) (r : Stream * result rlp_error (Kind * Z * option rlp_error)) : Prop :=
  (exists s1 k n e, r = (s1, Ok (k, n, Some e)) /\ benign e = true) \/
  (exists s1 k n hdr, r = (s1, Ok (k, n, None)) /\ s_r s = hdr ++ s_r s1 /\
     fits s (Z.of_nat (length hdr)) /\ adv (Z.of_nat (length hdr)) s (set_kind s1 None) /\
     header k n s1 hdr).

Lemma kind_result_short s s1 b k n :
  adv 1 s s1 -> fits s 1 -> s_r s = b :: s_r s1 -> header k n s1 [b] ->
  kind_result s (s1, Ok (k, n, None)).
Proof.
  intros Ha Hf Hr Hh. right. exists s1, k, n, [b]. split_and!; try done. by apply adv_None.
Qed.

Lemma kind_result_long s s1 b k st lt :
  good s1 -> adv 1 s s1 -> fits s 1 -> s_r s = b :: s_r s1 ->
  k <> KByte -> 0 <= lt <= 247 -> lt < b <= lt + 8 ->
  (forall i, 0 <= i -> head_of k i = puthead st lt i) ->
  kind_result s (readLongSize k (b - lt) s1).
Proof.
  intros Hg Ha Hf Hr Hk Hlt Hb Hh.
  destruct (readLongSize_good s1 k lt st (b - lt) Hg ltac:(lia) Hk Hlt Hh) as
      [(s3 & m & e & E3 & He)|(s3 & m & l & E3 & Hr3 & Hl & Hf3 & Ha3 & Hm & Hhd)]; rewrite E3.
  - left. by eexists _, _, _, _.
  - right. exists s3, k, m, (b :: l).
    assert (Z.of_nat (length (b :: l)) = 1 + (b - lt)) as Hlen by (simpl length; lia).
    rewrite Hlen. split_and!; [done|by rewrite Hr, Hr3| | |].
    + by eapply fits_trans.
    + apply adv_None. eapply adv_trans; [lia|lia|done..].
    + split_and!; [lia|lia|done|]. rewrite Hhd. destruct k; [done|f_equal; lia..].
Qed.

Lemma readKind_good s : good s -> kind_result s (Stream_readKind s).
Proof.
  intros Hg. unfold Stream_readKind.
  destruct (readByte_good s Hg) as [(s1 & b & E & Hf & Ha & Hb & Hr)|(s1 & e & E & He)]; rewrite E; last first.
  { left. eexists _, _, _, _. split; [done|]. case_bool_decide; [|done]. by destruct e. }
  unfold is_byte in Hb. set (s2 := set_byteval s1 0).
  assert (adv 1 s s2) as Ha2 by exact Ha. assert (good s2) as Hg2 by exact (adv_good _ _ _ Hg Hf Ha).
  assert (s_r s = b :: s_r s2) as Hr2 by exact Hr.
  assert (forall k st lt, b - st < 56 -> 0 <= st <= b -> k <> KByte ->
    head_of k (b - st) = puthead st lt (b - st) -> header k (b - st) s2 [b]) as Hshort.
  { intros k st lt H1 H2 H3 H4. split_and!; [lia|lia|done|].
    unfold puthead in H4. rewrite (proj2 (Z.ltb_lt _ _)), (byte_id (b - st)), byte_id in H4 by lia.
    destruct k; [done|rewrite H4; f_equal; lia..]. }
  destruct (Z.ltb_spec b 0x80).
  { apply (kind_result_short s (set_byteval s2 b) b); try done. unfold header. simpl. split_and!; try done; lia. }
  destruct (Z.ltb_spec b 0xB8).
  { apply (kind_result_short s s2 b); try done. apply (Hshort KString 0x80 0xB7); [lia|lia|done|done]. }
  destruct (Z.ltb_spec b 0xC0).
  { apply (kind_result_long s s2 b KString 0x80); try done; lia. }
  destruct (Z.ltb_spec b 0xF8).
  { apply (kind_result_short s s2 b); try done. apply (Hshort KList 0xC0 0xF7); [lia|lia|done|done]. }
  apply (kind_result_long s s2 b KList 0xC0); try done; lia.
Qed.

(** Kind: the end of the list, an error, or a header and room for the content. *)
Lemma size_error_good s n : good s -> 0 <= n < 2 ^ 64 ->
  match size_error s n with None => fits s n | Some e => benign e = true end.
Proof.
  intros (L & M & B & Hlt & S) Hn. unfold size_error, fits. rewrite L, M in *. simpl.
  destruct (s_stack s) as [|tos st].
  - destruct (Z.ltb_spec (Z.of_nat (length (s_r s))) n); [done|]. split_and!; [lia|lia|lia|done].
  - simpl in S. rewrite u64_id by lia.
    destruct (Z.ltb_spec (lp_size tos - lp_pos tos) n); [done|]. split_and!; lia.
Qed.

Definition announces (s s1 : Stream) (k : Kind) (n : Z) (hdr : bytes) : Prop :=
  Stream_Kind s = (s1, Ok (k, n)) /\ s_r s = hdr ++ s_r s1 /\ header k n s1 hdr /\
  kinded (Z.of_nat (length hdr)) k n s s1 /\ fits s (Z.of_nat (length hdr)) /\
  good (set_kind s1 None) /\ fits (set_kind s1 None) n.

Lemma Kind_good s : good s -> s_kind s = None ->
  Stream_Kind s = (set_kinderr s None, Err EOL) \/ fails Stream_Kind s \/
  exists s1 k n hdr, announces s s1 k n hdr.
Proof.
  intros Hg Hk. unfold announces, fails, Stream_Kind. rewrite Hk.
  destruct (at_EOL (set_kinderr s None)); [by left|right].
  destruct (readKind_good (set_kinderr s None) Hg) as
    [(s1 & k & n & e & -> & He)|(s1 & k & n & hdr & -> & Hr & Hf & Ha & Hh)]; [left; by eexists _, _|].
  pose proof (adv_good _ _ _ Hg Hf Ha) as Hg1. pose proof Hh as [Hn _].
  pose proof (size_error_good (set_kind s1 None) n Hg1 Hn) as Hsz.
  change (size_error (set_kind s1 None) n) with (size_error s1 n) in Hsz.
  destruct (size_error s1 n) as [e|]; [left; by eexists _, _|right].
  eexists _, k, n, hdr. split_and!; done.
Qed.

(** ** Decoders on arbitrary inputs

    On every input shorter than [N], [m] reports the end of the list, fails, or
    reads bytes [enc] and returns a value [v] with [f v enc]. *)
Definition decodes_in {A} (m : D A) (f : A -> bytes -> Prop) (s : Stream) : Prop :=
  fails m s \/ exists s' v enc, m s = (s', Ok v) /\ s_r s = enc ++ s_r s' /\
    fits s (Z.of_nat (length enc)) /\ adv (Z.of_nat (length enc)) s s' /\ f v enc.

Definition decodes {A} (N : nat) (m : D A) (f : A -> bytes -> Prop) : Prop := forall s,
  good s -> s_kind s = None -> (length (s_r s) < N)%nat ->
  (Stream_Kind s = (set_kinderr s None, Err EOL) /\ m s = (set_kinderr s None, Err EOL)) \/
  decodes_in m f s.

Lemma decodes_Kind {A} N (g : Kind * Z -> D A) f :
  (forall s s1 k n hdr, announces s s1 k n hdr -> (length (s_r s) < N)%nat ->
     fails (g (k, n)) s1 \/ exists s' v enc, g (k, n) s1 = (s', Ok v) /\ s_r s = enc ++ s_r s' /\
       fits s (Z.of_nat (length enc)) /\ adv (Z.of_nat (length enc)) s s' /\ f v enc) ->
  decodes N (ks ← Stream_Kind; g ks) f.
Proof.
  intros Hg s Hs Hk HN. destruct (Kind_good s Hs Hk) as [E|[Hf|(s1 & k & n & hdr & Ha)]].
  - left. split; [done|]. by apply D_bind_Err.
  - right; left. by apply fails_bind.
  - right. pose proof Ha as [E _]. destruct (Hg s s1 k n hdr Ha HN) as [(s' & e & E' & He)|(s' & v & enc & E' & H)].
    + left. exists s', e. by rewrite (D_bind_Ok _ _ _ _ _ E).
    + right. exists s', v, enc. by rewrite (D_bind_Ok _ _ _ _ _ E).
Qed.

(** What an error is turned into stays an error. *)
Definition keeps_benign (g : rlp_error -> rlp_error) : Prop := forall e,
  benign e = true -> benign (g e) = true.

Lemma fails_map_err {A} g (m : D A) s : keeps_benign g -> fails m s -> fails (map_err g m) s.
Proof. intros Hg (s' & e & E & He). exists s', (g e). unfold map_err. rewrite E. auto. Qed.

Lemma map_err_Ok {A} g (m : D A) s s' v : m s = (s', Ok v) -> map_err g m s = (s', Ok v).
Proof. intros E. unfold map_err. by rewrite E. Qed.

Lemma decodes_in_map_err {A} g (m : D A) f s :
  keeps_benign g -> decodes_in m f s -> decodes_in (map_err g m) f s.
Proof.
  intros Hg [Hf|(s' & v & enc & E & H)]; [left; by apply fails_map_err|right].
  exists s', v, enc. by rewrite (map_err_Ok _ _ _ _ _ E).
Qed.

Lemma decodes_wrap {A} N (m : D A) f : decodes N m f -> decodes N (wrap m) f.
Proof.
  intros Hm s Hs Hk HN. destruct (Hm s Hs Hk HN) as [[EK E]|H].
  - left. split; [done|]. unfold wrap, map_err. by rewrite E.
  - right. apply decodes_in_map_err; [|done]. by intros [].
Qed.

Lemma decodes_bind {A B} N (m : D A) (k : A -> D B) f1 f2 :
  decodes N m f1 ->
  (forall v enc, f1 v enc -> (exists w, k v = mret w /\ f2 w enc) \/ exists e, k v = fail e /\ benign e = true) ->
  decodes N (x ← m; k x) f2.
Proof.
  intros Hm Hk2 s Hs Hk HN. destruct (Hm s Hs Hk HN) as [[EK E]|[Hf|(s' & v & enc & E & H1 & H2 & H3 & H4)]].
  - left. split; [done|]. by apply D_bind_Err.
  - right; left. by apply fails_bind.
  - right. destruct (Hk2 v enc H4) as [(w & Ew & Hw)|(e & Ee & He)].
    + right. exists s', w, enc. rewrite (D_bind_Ok _ _ _ _ _ E), Ew. done.
    + left. exists s', e. rewrite (D_bind_Ok _ _ _ _ _ E), Ee. done.
Qed.

Lemma decodes_in_impl {A} (m : D A) (f g : A -> bytes -> Prop) s :
  (forall v enc, f v enc -> g v enc) -> decodes_in m f s -> decodes_in m g s.
Proof.
  intros Hfg [Hf|(s' & v & enc & E & H1 & H2 & H3 & H4)]; [by left|right].
  exists s', v, enc. split_and!; auto.
Qed.

Lemma decodes_impl {A} N (m : D A) (f g : A -> bytes -> Prop) :
  (forall v enc, f v enc -> g v enc) -> decodes N m f -> decodes N m g.
Proof.
  intros Hfg Hm s Hs Hk HN. destruct (Hm s Hs Hk HN) as [H|H]; [by left|right].
  by eapply decodes_in_impl.
Qed.

(** The content of a value that is not a single byte. *)
Lemma announces_content s s1 k n hdr : announces s s1 k n hdr ->
  exists s2 b, readFull n s1 = (s2, Ok b) /\ s_r s = (hdr ++ b) ++ s_r s2 /\
    Z.of_nat (length b) = n /\ is_bytes b /\ fits s (Z.of_nat (length (hdr ++ b))) /\
    adv (Z.of_nat (length (hdr ++ b))) s s2.
Proof.
  intros (E & Hr & (Hn & _) & (Ha & _) & Hf & Hg1 & Hf1).
  destruct (readFull_fits (set_kind s1 None) n Hf1) as (s2 & E2 & Ha2).
  rewrite readFull_set_kind in E2.
  destruct (adv_take n _ s2 ltac:(lia) Hf1 Ha2) as [Hr2 Hl]. simpl in Hr2, Hl.
  set (b := take (Z.to_nat n) (s_r s1)) in *. exists s2, b.
  rewrite length_app, Nat2Z.inj_add, Hl. split_and!; try done.
  - by rewrite Hr, Hr2, app_assoc.
  - apply Forall_take. apply Hg1.
  - eapply fits_trans; [lia|exact Ha|done|done].
  - eapply adv_trans; [lia|lia|exact Ha|exact Ha2].
Qed.

Lemma rstr_head b : (forall x, b = [x] -> 128 <= x) ->
  rstr b = head_of KString (Z.of_nat (length b)) ++ b.
Proof.
  intros Hx. unfold rstr. destruct b as [|x [|y b]]; [done| |done].
  specialize (Hx x eq_refl). by rewrite (proj2 (Z.leb_gt x 127)) by lia.
Qed.

Lemma rstr_small x : x < 128 -> rstr [x] = [x].
Proof. intros. unfold rstr. by rewrite (proj2 (Z.leb_le x 127)) by lia. Qed.

Lemma head_lt_single b : Z.of_nat (length b) <> 1 \/ head_lt b 128 = false ->
  forall x, b = [x] -> 128 <= x.
Proof. intros [H|H] x ->; simpl in *; lia. Qed.

(** A value of a single byte. *)
Lemma announces_byte s s1 n hdr : announces s s1 KByte n hdr ->
  n = 0 /\ hdr = [s_byteval s1] /\ 0 <= s_byteval s1 < 128 /\
  s_r s = [s_byteval s1] ++ s_r (set_kind s1 None) /\ fits s 1 /\ adv 1 s (set_kind s1 None).
Proof.
  intros (E & Hr & (_ & _ & -> & -> & Hb) & (Ha & _) & Hf & _). simpl. split_and!; try done; lia.
Qed.

Definition as_string (v : bytes) (enc : bytes) : Prop := is_bytes v /\ enc = rstr v.

Lemma decodes_Bytes N : decodes N Stream_Bytes as_string.
Proof.
  apply decodes_Kind. intros s s1 k n hdr Ha _. destruct k.
  - destruct (announces_byte _ _ _ _ Ha) as (-> & -> & Hb & Hr & Hf & Had).
    right. exists (set_kind s1 None), [s_byteval s1], [s_byteval s1]. split_and!; try done.
    split; [|by rewrite rstr_small by lia]. constructor; [|done]. split; lia.
  - destruct (announces_content _ _ _ _ _ Ha) as (s2 & b & E2 & Hr & Hl & Hb & Hf & Had).
    pose proof Ha as (_ & _ & (_ & _ & ->) & _). cbv iota beta.
    destruct ((n =? 1) && head_lt b 128) eqn:Ec.
    + left. eexists _, _. rewrite (D_bind_Ok _ _ _ _ _ E2), Ec. by split.
    + right. exists s2, b, (head_of KString n ++ b). rewrite (D_bind_Ok _ _ _ _ _ E2), Ec.
      split_and!; try done. split; [done|]. rewrite rstr_head, Hl; [done|]. apply head_lt_single.
      apply andb_false_iff in Ec as [?|?]; [left; lia|by right].
  - left. by eexists _, _.
Qed.

Lemma decodes_BigInt N : decodes N decodeBigInt (fun i enc => 0 <= i /\ enc = rint i).
Proof.
  apply (decodes_bind N _ _ as_string); [apply decodes_wrap, decodes_Bytes|].
  intros b enc [Hb ->]. case_bool_decide as Hh; [right; by eexists|left].
  eexists. split; [done|]. split; [by apply be_uint_bound|]. unfold rint. f_equal.
  destruct b as [|x b]; [done|]. symmetry. rewrite (big_Bytes_be (length (x :: b))).
  - by apply be_be_uint.
  - apply (takes_be_uint _ x b); [done|done|]. intros ->. done.
Qed.

Lemma takes_pos n i : takes n i -> 1 <= i.
Proof. intros [[H _] Hn]. pose proof (Z.pow_pos_nonneg 2 (8 * (Z.of_nat n - 1))). lia. Qed.

(** A string of at most eight bytes, read as an integer. *)
Lemma readUint_content s s1 n : announces s s1 KString n (head_of KString n) -> 1 <= n <= 8 ->
  (exists s' b, readUint n s1 = (s', Ok (be_uint b)) /\ is_bytes b /\ Z.of_nat (length b) = n /\
     (n <> 1 -> head b <> Some 0) /\ s_r s = (head_of KString n ++ b) ++ s_r s' /\
     fits s (Z.of_nat (length (head_of KString n ++ b))) /\
     adv (Z.of_nat (length (head_of KString n ++ b))) s s')
  \/ fails (readUint n) s1.
Proof.
  intros (E & Hr & (Hn & _) & (Ha & _) & Hf & Hg1 & Hf1) Hn8.
  assert (readUint n s1 = readUint n (set_kind s1 None)) as Erd.
  { unfold readUint. destruct (n =? 0); [done|]. by destruct (n =? 1). }
  unfold fails. rewrite Erd.
  destruct (readUint_good (set_kind s1 None) n Hg1 Hn8) as [(s2 & b & E2 & _ & Ha2 & Hb & Hr2 & Hl & Hh)|Hfl];
    [left|by right].
  exists s2, b. rewrite length_app, Nat2Z.inj_add, Hl. split_and!; try done.
  - rewrite Hr. simpl in Hr2. by rewrite Hr2, app_assoc.
  - eapply fits_trans; [lia|exact Ha|done|done].
  - eapply adv_trans; [lia|lia|exact Ha|exact Ha2].
Qed.

Lemma decodes_uint N bits : 8 <= bits <= 64 -> bits `mod` 8 = 0 ->
  decodes N (Stream_uint bits) (fun i enc => 0 <= i < 2 ^ bits /\ enc = rint i).
Proof.
  intros Hbits Hb8. pose proof (Z.pow_le_mono_r 2 8 bits).
  apply decodes_Kind. intros s s1 k n hdr Ha _. destruct k.
  - destruct (announces_byte _ _ _ _ Ha) as (-> & -> & Hb & Hr & Hf & Had).
    pose proof (D_bind_Ok (get s_byteval) (fun b => if b =? 0 then fail ErrCanonInt else rearm;; mret b)
      s1 s1 (s_byteval s1) eq_refl) as Eg. cbv iota beta.
    destruct (Z.eqb_spec (s_byteval s1) 0) as [E0|E0].
    + left. eexists _, _. rewrite Eg, E0. by split.
    + right. exists (set_kind s1 None), (s_byteval s1), [s_byteval s1].
      rewrite Eg, (proj2 (Z.eqb_neq _ _)) by done.
      split_and!; try done; [lia|lia|].
      unfold rint. rewrite (big_Bytes_be 1) by (unfold takes; simpl; lia).
      cbn [be]. change (8 * Z.of_nat 0) with 0. rewrite Z.shiftr_0_r, byte_id, rstr_small by lia. done.
  - pose proof Ha as (_ & _ & (Hn & _ & ->) & _). cbv iota beta.
    destruct (Z.ltb_spec (bits `div` 8) n); [left; by eexists _, _|].
    assert (bits `div` 8 <= 8) by (apply Z.div_le_upper_bound; lia).
    destruct (Z.eq_dec n 0) as [->|Hn0].
    + pose proof Ha as (_ & Hr & _ & (Had & _) & Hf & _). right.
      exists (set_kind s1 None), 0, (head_of KString 0). split_and!; try done; lia.
    + destruct (readUint_content s s1 n Ha) as
        [(s2 & b & E2 & Hb & Hl & Hh & Hr & Hf & Had)|(s2 & e & E2 & He)]; [lia|..]; last first.
      { left. eexists _, _. rewrite (D_bind_Err (map_err _ _) _ _ s2 (match e with ErrCanonSize => ErrCanonInt | e => e end))
          by (unfold map_err; by rewrite E2). split; [done|by destruct e]. }
      assert (map_err (fun e => match e with ErrCanonSize => ErrCanonInt | e => e end) (readUint n) s1
              = (s2, Ok (be_uint b))) as E3 by (unfold map_err; by rewrite E2).
      destruct ((0 <? n) && (be_uint b <? 128)) eqn:Ec.
      { left. eexists _, _. rewrite (D_bind_Ok _ _ _ _ _ E3), Ec. by split. }
      rewrite (proj2 (Z.ltb_lt 0 n)) in Ec by lia. simpl in Ec. apply Z.ltb_ge in Ec.
      right. exists s2, (be_uint b), (head_of KString n ++ b). rewrite (D_bind_Ok _ _ _ _ _ E3).
      rewrite (proj2 (Z.ltb_ge _ 128)), andb_false_r by done.
      assert (takes (length b) (be_uint b)) as Ht.
      { destruct b as [|x b]; [by vm_compute in Ec|]. apply (takes_be_uint _ x b); [done|done|].
        intros ->. destruct b as [|y b]; [by vm_compute in Ec|]. destruct Hh; [simpl in Hl; lia|done]. }
      split_and!; try done.
      * by apply be_uint_bound.
      * pose proof (be_uint_bound b Hb).
        pose proof (Z.pow_le_mono_r 2 (8 * Z.of_nat (length b)) bits). pose proof (Z.div_mod bits 8). lia.
      * unfold rint. rewrite (big_Bytes_be (length b)), be_be_uint by done.
        rewrite rstr_head, Hl; [done|]. intros x ->. unfold be_uint in Ec. cbn [foldl] in Ec.
        rewrite lor_shiftl in Ec by (by apply Forall_cons in Hb as [? _]). lia.
  - left. by eexists _, _.
Qed.

Lemma decodes_Bool N :
  decodes N Stream_Bool (fun (b : bool) enc => enc = rint (if b then 1 else 0)).
Proof.
  apply (decodes_bind N _ _ (fun i enc => 0 <= i < 2 ^ 8 /\ enc = rint i)); [by apply decodes_uint|].
  intros i enc [_ ->]. destruct (Z.eqb_spec i 0) as [->|]; [left; by eexists|].
  destruct (Z.eqb_spec i 1) as [->|]; [left; by eexists|right; by eexists].
Qed.

Lemma decodes_ByteArray N n : n <> 1%nat ->
  decodes N (decodeByteArray n) (fun b enc => is_bytes b /\ length b = n /\ enc = rstr b).
Proof.
  intros Hn1. apply decodes_Kind. intros s s1 k m hdr Ha _. destruct k.
  - left. destruct n as [|[|n]]; [|done|]; by eexists _, _.
  - destruct (announces_content _ _ _ _ _ Ha) as (s2 & b & E2 & Hr & Hl & Hb & Hf & Had).
    pose proof Ha as (_ & _ & (_ & _ & ->) & _). cbv iota beta.
    destruct (Z.ltb_spec (Z.of_nat n) m); [left; by eexists _, _|].
    destruct (Z.ltb_spec m (Z.of_nat n)); [left; by eexists _, _|].
    assert (m = Z.of_nat n) as -> by lia. right. exists s2, b, (head_of KString (Z.of_nat n) ++ b).
    rewrite (D_bind_Ok _ _ _ _ _ E2), (proj2 (Z.eqb_neq _ _)) by lia. simpl.
    split_and!; try done; [lia|]. rewrite rstr_head, Hl; [done|].
    apply head_lt_single. left. lia.
  - left. by eexists _, _.
Qed.

Lemma decodes_Raw N : decodes N Stream_Raw (fun v enc => is_bytes v /\ enc <> [] /\ enc = v).
Proof.
  assert (forall k n, k <> KByte -> 0 <= n < 2 ^ 64 -> is_bytes (head_of k n)) as Hhb.
  { intros k n Hk Hn. destruct k; [done|..]; simpl; unfold puthead;
      (case_match; constructor; [apply byte_range|done|apply byte_range|]);
      (destruct (putint_takes n) as (m & -> & _); [lia|apply be_bytes]). }
  apply decodes_Kind. intros s s1 k n hdr Ha _.
  destruct (announces_content _ _ _ _ _ Ha) as (s2 & b & E2 & Hr & Hl & Hb & Hf & Had).
  pose proof Ha as (_ & _ & (Hn & Hne & Hh) & _). destruct k.
  - destruct (announces_byte _ _ _ _ Ha) as (-> & -> & Hbv & Hr' & Hf' & Had').
    right. exists (set_kind s1 None), [s_byteval s1], [s_byteval s1]. split_and!; try done.
    constructor; [split; lia|done].
  - subst hdr. right. exists s2, (head_of KString n ++ b), (head_of KString n ++ b).
    rewrite (D_bind_Ok _ _ _ _ _ E2). split_and!; try done.
    + apply Forall_app. auto.
    + by destruct (head_of KString n).
  - subst hdr. right. exists s2, (head_of KList n ++ b), (head_of KList n ++ b).
    rewrite (D_bind_Ok _ _ _ _ _ E2). split_and!; try done.
    + apply Forall_app. auto.
    + by destruct (head_of KList n).
Qed.

(** ** Lists *)
Lemma push_good s1 n : good (set_kind s1 None) -> fits (set_kind s1 None) n -> 0 <= n < 2 ^ 64 ->
  good (set_size (set_kind (set_stack s1 ({| lp_pos := 0; lp_size := n |} :: s_stack s1)) None) 0).
Proof.
  intros (L & M & B & Hlt & S) (H1 & _ & H3) Hn. simpl in *. unfold good. simpl.
  split_and!; try done; try lia.
  destruct (s_stack s1) as [|tos st]; simpl in *; [lia|].
  destruct S as (? & ? & ? & ? & Hin). split_and!; try lia.
  replace (_ - _ - _) with (s_remaining s1 - (lp_size tos - (lp_pos tos + 0))) by lia. done.
Qed.

(** List: the end of the enclosing list, an error, or the content of a list. *)
Lemma List_good s : good s -> s_kind s = None ->
  (Stream_Kind s = (set_kinderr s None, Err EOL) /\ Stream_List s = (set_kinderr s None, Err EOL)) \/
  fails Stream_List s \/
  exists s1 n hdr, Stream_List s = (s1, Ok n) /\ s_r s = hdr ++ s_r s1 /\ 0 <= n < 2 ^ 64 /\
    hdr = head_of KList n /\ hdr <> [] /\ opened (Z.of_nat (length hdr)) n s s1 /\ good s1 /\
    fits s (Z.of_nat (length hdr) + n) /\ s_stack s1 <> [].
Proof.
  intros Hg Hk. destruct (Kind_good s Hg Hk) as [E|[Hf|(s1 & k & n & hdr & Ha)]].
  - left. split; [done|]. by apply D_bind_Err.
  - right; left. by apply fails_bind.
  - right. pose proof Ha as (E & Hr & (Hn & Hne & Hh) & (Had & _) & Hf & Hg1 & Hf1).
    unfold fails, Stream_List. rewrite (D_bind_Ok _ _ _ _ _ E).
    destruct k; [left; by eexists _, _..|right].
    eexists _, n, hdr. split_and!; try done; try lia.
    + exists (set_kind s1 None). done.
    + by apply push_good.
    + by eapply fits_trans; [lia|exact Had|..].
Qed.

Lemma ListEnd_good h n s s1 s2 (enc : bytes) : 0 <= h -> 0 <= n ->
  opened h n s s1 -> good s1 -> fits s1 (Z.of_nat (length enc)) ->
  adv (Z.of_nat (length enc)) s1 s2 -> fits s (h + n) ->
  fails Stream_ListEnd s2 \/
  exists s3, Stream_ListEnd s2 = (s3, Ok tt) /\ Z.of_nat (length enc) = n /\ adv (h + n) s s3 /\
    s_r s3 = s_r s2.
Proof.
  intros Hh Hn Hop Hg1 Hf1 Ha2 Hf.
  destruct (decide (Z.of_nat (length enc) = n)) as [E|E].
  - right. rewrite E in Ha2. destruct (ListEnd_closes h n s s1 s2 Hh Hn Hop Ha2 Hf) as (s3 & E3 & Ha3).
    exists s3. split_and!; try done. unfold Stream_ListEnd in E3.
    destruct (s_stack s2); [done|]. destruct (_ =? _); by simplify_eq.
  - left. destruct Hop as (s0 & _ & _ & _ & _ & _ & S). destruct Ha2 as (_ & _ & _ & _ & S2).
    unfold fails, Stream_ListEnd. rewrite S2, S. simpl. rewrite (proj2 (Z.eqb_neq _ _)) by done.
    eexists _, _. by split.
Qed.

(** A list whose content is read by [m]. *)
Lemma decodes_list {A} N M (open : D Z) (close : D unit) (m : D A) (f g : A -> bytes -> Prop) :
  (open = Stream_List \/ open = wrap Stream_List) ->
  (close = Stream_ListEnd \/ close = wrap Stream_ListEnd) ->
  (N <= S M)%nat ->
  (forall s, good s -> s_kind s = None -> (length (s_r s) < M)%nat -> decodes_in m f s) ->
  (forall v p, f v p -> g v (rlist p)) ->
  decodes N (_ ← open; x ← m; close;; mret x) g.
Proof.
  intros Ho Hc HNM Hm Hfg s Hg Hk HN.
  destruct (List_good s Hg Hk) as [[EK E]|[Hf|(s1 & n & hdr & E & Hr & Hn & Hh & Hne & Hop & Hg1 & Hf & _)]].
  - left. split; [done|]. apply D_bind_Err. destruct Ho as [->| ->]; [done|].
    unfold wrap, map_err. by rewrite E.
  - right; left. apply fails_bind. destruct Ho as [->| ->]; [done|].
    apply fails_map_err; [by intros []|done].
  - right. assert (open s = (s1, Ok n)) as Eo.
    { destruct Ho as [->| ->]; [done|]. by apply map_err_Ok. }
    unfold decodes_in, fails. rewrite (D_bind_Ok _ _ _ _ _ Eo).
    assert (s_kind s1 = None) as Hk1 by (by destruct Hop as (? & _ & _ & _ & _ & ? & _)).
    destruct (Hm s1 Hg1 Hk1) as [Hfl|(s2 & v & p & E2 & Hr2 & Hf2 & Ha2 & Hv)].
    { rewrite Hr, length_app in HN. destruct hdr; [done|]. simpl in HN. lia. }
    { left. by apply fails_bind. }
    rewrite (D_bind_Ok _ _ _ _ _ E2).
    destruct (ListEnd_good _ _ _ _ _ p (Nat2Z.is_nonneg _) (proj1 Hn) Hop Hg1 Hf2 Ha2 Hf)
      as [Hfl|(s3 & E3 & Hlen & Ha3 & Hr3)].
    { left. apply fails_bind. destruct Hc as [->| ->]; [done|]. apply fails_map_err; [by intros []|done]. }
    right. exists s3, v, (rlist p).
    rewrite (D_bind_Ok close _ s2 s3 tt) by (destruct Hc as [->| ->]; [done|by apply map_err_Ok]).
    assert (rlist p = hdr ++ p) as -> by (unfold rlist; by rewrite Hh, Hlen).
    rewrite length_app, Nat2Z.inj_add, Hlen. split_and!; try done.
    + by rewrite Hr, Hr2, Hr3, app_assoc.
    + subst n. rewrite Hh. apply (Hfg v p Hv).
Qed.

(** The elements of a list, each with its encoding. *)
Definition elems {A} (f : A -> bytes -> Prop) (l : list A) (p : bytes) : Prop :=
  exists encs, p = concat encs /\ Forall2 f l encs.

Lemma elems_nil {A} (f : A -> bytes -> Prop) : elems f [] [].
Proof. by exists []. Qed.

Lemma elems_cons {A} (f : A -> bytes -> Prop) x enc l p :
  f x enc -> elems f l p -> elems f (x :: l) (enc ++ p).
Proof. intros Hx (encs & -> & Hl). exists (enc :: encs). split; [done|]. by constructor. Qed.

Lemma elems_impl {A} (f g : A -> bytes -> Prop) l p :
  (forall x e, f x e -> g x e) -> elems f l p -> elems g l p.
Proof. intros Hfg (encs & -> & Hl). exists encs. split; [done|]. by eapply Forall2_impl. Qed.

Lemma elems_concat {A} (enc : A -> bytes) l p :
  elems (fun x e => e = enc x) l p -> p = concat (map enc l).
Proof. intros (encs & -> & Hl). f_equal. induction Hl; simpl; congruence. Qed.

Lemma elems_Forall {A} (P : A -> Prop) l p : elems (fun x _ => P x) l p -> Forall P l.
Proof. intros (encs & _ & Hl). induction Hl; by constructor. Qed.

(** Reading on after a value. *)
Lemma decodes_in_then {A B} (m : D A) (k : A -> D B) (f : A -> bytes -> Prop) g s s1 v enc :
  m s = (s1, Ok v) -> s_r s = enc ++ s_r s1 -> fits s (Z.of_nat (length enc)) ->
  adv (Z.of_nat (length enc)) s s1 -> decodes_in (k v) g s1 ->
  decodes_in (x ← m; k x) (fun w e => exists e2, e = enc ++ e2 /\ g w e2) s.
Proof.
  intros E Hr Hf Ha Hk. unfold decodes_in, fails. rewrite (D_bind_Ok _ _ _ _ _ E).
  destruct Hk as [Hfl|(s2 & w & e2 & E2 & Hr2 & Hf2 & Ha2 & Hw)]; [by left|right].
  exists s2, w, (enc ++ e2). rewrite length_app, Nat2Z.inj_add. split_and!; try done.
  - by rewrite Hr, Hr2, app_assoc.
  - eapply fits_trans; [lia|exact Ha|done|done].
  - eapply adv_trans; [lia|lia|done..].
  - by exists e2.
Qed.

Lemma decodes_in_map {A B} (m : D A) (h : A -> B) (f : A -> bytes -> Prop) s :
  decodes_in m f s ->
  decodes_in (x ← m; mret (h x)) (fun w e => exists x, w = h x /\ f x e) s.
Proof.
  intros [Hfl|(s2 & w & e2 & E2 & Hr2 & Hf2 & Ha2 & Hw)]; [left; by apply fails_bind|right].
  exists s2, (h w), e2. rewrite (D_bind_Ok _ _ _ _ _ E2). split_and!; try done. by exists w.
Qed.

Lemma decodes_elems {A} N fuel (elemdec : D A) (f : A -> bytes -> Prop) s :
  decodes N elemdec f -> (forall v enc, f v enc -> enc <> []) ->
  good s -> s_kind s = None -> (length (s_r s) < N)%nat -> (length (s_r s) < fuel)%nat ->
  decodes_in (decodeSliceElems fuel elemdec) (elems f) s.
Proof.
  intros Hd Hne. revert s. induction fuel as [|fuel IH]; intros s Hg Hk HN Hfuel; [lia|].
  destruct (Hd s Hg Hk HN) as [[_ E]|[(s1 & e & E & He)|(s1 & v & enc & E & Hr & Hf & Ha & Hv)]].
  - right. exists (set_kinderr s None), [], []. simpl. rewrite E. split_and!; try done.
    + eapply fits_le; [|apply (good_fits s 0 Hg)]; [simpl; lia|lia|].
      destruct Hg as (_ & _ & _ & _ & S). destruct (s_stack s); [done|]. simpl in S. lia.
    + by apply (adv_refl (set_kinderr s None)).
    + apply elems_nil.
  - left. exists s1, e. simpl. rewrite E. by destruct e.
  - specialize (Hne v enc Hv).
    assert (length (s_r s1) < length (s_r s))%nat.
    { rewrite Hr, length_app. destruct enc; [done|]. simpl. lia. }
    pose proof (IH s1 (adv_good _ _ _ Hg Hf Ha) ltac:(apply Ha) ltac:(lia) ltac:(lia)) as Hl.
    apply (decodes_in_map _ (cons v)) in Hl.
    pose proof (decodes_in_then elemdec (fun x => l ← decodeSliceElems fuel elemdec; mret (x :: l))
      f _ s s1 v enc E Hr Hf Ha Hl) as H'.
    unfold decodes_in, fails in *. rewrite (decodeSliceElems_cons _ _ _ _ _ E).
    rewrite (D_bind_Ok _ _ _ _ _ E) in H'. destruct H' as [H'|(s2 & w & e & E2 & H1 & H2 & H3 & H4)]; [by left|right].
    exists s2, w, e. split_and!; try done. destruct H4 as (e2 & -> & l & -> & Hle). by apply elems_cons.
Qed.

Lemma decodes_array_elems {A} N n (elemdec : D A) (f : A -> bytes -> Prop) s :
  decodes N elemdec f -> good s -> s_kind s = None -> (length (s_r s) < N)%nat ->
  decodes_in (decodeArrayElems n elemdec) (fun l p => elems f l p /\ length l = n) s.
Proof.
  intros Hd. revert s. induction n as [|n IH]; intros s Hg Hk HN.
  - right. exists s, [], []. split_and!; try done.
    + apply (good_fits s 0 Hg); [lia|].
      destruct Hg as (_ & _ & _ & _ & S). destruct (s_stack s); [done|]. simpl in S. lia.
    + by apply adv_refl.
    + apply elems_nil.
  - destruct (Hd s Hg Hk HN) as [[_ E]|[(s1 & e & E & He)|(s1 & v & enc & E & Hr & Hf & Ha & Hv)]].
    + left. eexists _, _. simpl. rewrite E. by split.
    + left. exists s1, e. simpl. rewrite E. by destruct e.
    + assert (length (s_r s1) <= length (s_r s))%nat by (by eapply adv_length).
      pose proof (IH s1 (adv_good _ _ _ Hg Hf Ha) ltac:(apply Ha) ltac:(lia)) as Hl.
      apply (decodes_in_map _ (cons v)) in Hl.
      pose proof (decodes_in_then elemdec (fun x => l ← decodeArrayElems n elemdec; mret (x :: l))
        f _ s s1 v enc E Hr Hf Ha Hl) as H'.
      unfold decodes_in, fails in *. rewrite (decodeArrayElems_cons _ _ _ _ _ E).
      destruct H' as [H'|(s2 & w & e & E2 & H1 & H2 & H3 & H4)]; [by left|right].
      destruct H4 as (e2 & -> & l & -> & Hle & Hlen).
      exists s2, (v :: l), (enc ++ e2). split_and!; try done; [by apply elems_cons|simpl; lia].
Qed.

Lemma decodes_ListSlice {A} N M fuel (elemdec : D A) (f : A -> bytes -> Prop) :
  decodes M elemdec f -> (forall v enc, f v enc -> enc <> []) ->
  (N <= S M)%nat -> (M <= fuel)%nat ->
  decodes N (decodeListSlice fuel elemdec) (fun l enc => exists p, elems f l p /\ enc = rlist p).
Proof.
  intros Hd Hne HNM HMf s Hg Hk HN.
  pose proof (decodes_list N M Stream_List Stream_ListEnd (decodeSliceElems fuel elemdec) (elems f)
    (fun l enc => exists p, elems f l p /\ enc = rlist p)
    ltac:(by left) ltac:(by left) HNM
    (fun s Hg Hk HN => decodes_elems M fuel elemdec f s Hd Hne Hg Hk HN ltac:(lia))
    (fun l p Hl => ex_intro _ p (conj Hl eq_refl)) s Hg Hk HN) as Hgen.
  destruct (List_good s Hg Hk) as [[EK E]|[Hf|(s1 & n & hdr & E & Hr & Hn & Hh & Hhne & Hop & Hg1 & Hf & _)]].
  - left. split; [done|]. unfold decodeListSlice. apply D_bind_Err. unfold wrap, map_err. by rewrite E.
  - right; left. unfold decodeListSlice. apply fails_bind, fails_map_err; [by intros []|done].
  - destruct (decide (n = 0)) as [->|Hn0].
    + right. unfold decodeListSlice, decodes_in, fails.
      rewrite (D_bind_Ok (wrap Stream_List) _ s s1 0) by (by apply map_err_Ok). simpl.
      assert (s_kind s1 = None) as Hk1 by (by destruct Hop as (? & _ & _ & _ & _ & ? & _)).
      destruct (ListEnd_closes _ _ s s1 s1 (Nat2Z.is_nonneg _) (Z.le_refl 0) Hop (adv_refl s1 Hk1) Hf)
        as (s3 & E3 & Ha3).
      right. exists s3, [], (rlist []). rewrite (D_bind_Ok _ _ _ _ _ E3), Z.add_0_r in *. subst hdr.
      change (rlist []) with (head_of KList 0). split_and!; try done.
      * destruct (adv_take _ _ _ (Nat2Z.is_nonneg _) Hf Ha3) as [Hr3 _].
        rewrite Hr in Hr3 at 2. rewrite take_app_n in Hr3 by done. done.
      * exists []. split; [apply elems_nil|done].
    + unfold decodes_in, fails in *. by rewrite (decodeListSlice_list _ _ _ _ _ E Hn0).
Qed.

(** ** interface{} values *)
Definition as_iface (v : ival) (enc : bytes) : Prop := ival_wt v /\ enc = renc_iface v.

Lemma as_iface_elems l p : elems as_iface l p -> as_iface (ISlice l) (rlist p).
Proof.
  intros Hl. split.
  - apply foldr_and_Forall, (elems_Forall _ l p). eapply elems_impl; [|exact Hl]. by intros ? ? [? _].
  - simpl. f_equal. apply elems_concat. eapply elems_impl; [|exact Hl]. by intros ? ? [_ ?].
Qed.

(** What a value read after Kind gives, when the value itself starts with
    Kind. *)
Lemma decodes_peek {A} N (m : D A) f s s1 kn :
  decodes N m f -> peeks m -> good s -> s_kind s = None -> (length (s_r s) < N)%nat ->
  Stream_Kind s = (s1, Ok kn) ->
  (exists s' e, m s1 = (s', Err e) /\ benign e = true) \/
  exists s' v enc, m s1 = (s', Ok v) /\ s_r s = enc ++ s_r s' /\
    fits s (Z.of_nat (length enc)) /\ adv (Z.of_nat (length enc)) s s' /\ f v enc.
Proof.
  intros Hd Hp Hg Hk HN E. rewrite (Hp _ _ _ E).
  destruct (Hd s Hg Hk HN) as [[EK _]|H]; [|exact H]. rewrite EK in E. done.
Qed.

Lemma decodes_interface fuel : decodes fuel (decodeInterface fuel) as_iface.
Proof.
  induction fuel as [|fuel IH]; intros s Hg Hk HN; [lia|]. cbn [decodeInterface].
  destruct (Kind_good s Hg Hk) as [E|[Hf|(s1 & k & n & hdr & Ha)]].
  - left. split; [done|]. by apply D_bind_Err.
  - right; left. by apply fails_bind.
  - right. pose proof Ha as [E _]. unfold decodes_in, fails. rewrite (D_bind_Ok _ _ _ _ _ E).
    assert (decodes (S fuel) (b ← Stream_Bytes; mret (IBytes b)) as_iface) as Hb.
    { apply (decodes_bind _ _ _ as_string); [apply decodes_Bytes|]. intros b enc [Hb ->].
      left. by eexists. }
    assert (decodes (S fuel) (l ← decodeListSlice (S fuel) (decodeInterface fuel); mret (ISlice l)) as_iface) as Hl.
    { eapply decodes_bind.
      - apply (decodes_ListSlice _ fuel); [exact IH| |lia|lia].
        intros v enc [_ ->]. apply renc_iface_nonnil.
      - intros l enc (p & Hp & ->). left. eexists. split; [done|]. by apply as_iface_elems. }
    pose proof (decodes_peek _ _ _ s s1 _ Hb (peeks_bind _ _ peeks_Bytes) Hg Hk HN E).
    pose proof (decodes_peek _ _ _ s s1 _ Hl (peeks_bind _ _ (peeks_ListSlice _ _)) Hg Hk HN E).
    by destruct k.
Qed.

(** ** Typed values *)

(** Types without [1]byte, whose decoder gets stuck on a zero byte. *)
Fixpoint no_byte1 (t : rtype) : bool :=
  match t with
  | TByteArray n => negb (n =? 1)%nat
  | TSlice e | TArray _ e | TPtr e => no_byte1 e
  | TStruct fs => no_byte1_fields fs
  | _ => true
  end
with no_byte1_fields (fs : fields) : bool :=
  match fs with
  | FNil => true
  | FCons _ t fs => no_byte1 t && no_byte1_fields fs
  end.

(** Types with one encoding per value: no pointer with the tag "nil", which
    accepts the empty string and the empty list. *)
Fixpoint canonical (t : rtype) (ts : tags) : bool :=
  match t with
  | TSlice e | TArray _ e => canonical e no_tags
  | TPtr e => negb (nilOK ts) && canonical e no_tags
  | TStruct fs => canonical_fields fs
  | _ => true
  end
with canonical_fields (fs : fields) : bool :=
  match fs with
  | FNil => true
  | FCons ts t fs => canonical t ts && canonical_fields fs
  end.

(** The decoded value is a value of the type, and the bytes are its encoding. *)
Definition as_type (t : rtype) (ts : tags) (v : denote t) (enc : bytes) : Prop :=
  wt t v /\ encodable t v = true /\ (canonical t ts = true -> enc = renc t ts v).

Definition as_fields (fs : fields) (v : denotes fs) (enc : bytes) : Prop :=
  wts fs v /\ encodables fs v = true /\ (canonical_fields fs = true -> enc = renc_fields fs v).

Definition as_elem (e : rtype) (v : denote e) (enc : bytes) : Prop :=
  as_type e no_tags v enc /\ enc <> [].

Lemma as_elems e l p : elems (as_elem e) l p ->
  Forall (wt e) l /\ forallb (encodable e) l = true /\
  (canonical e no_tags = true -> p = concat (map (renc e no_tags) l)).
Proof.
  intros Hl. split_and!.
  - apply (elems_Forall _ l p). eapply elems_impl; [|exact Hl]. by intros ? ? [[? _] _].
  - apply forallb_Forall, (elems_Forall _ l p). eapply elems_impl; [|exact Hl]. by intros ? ? [(_ & ? & _) _].
  - intros Hc. apply elems_concat. eapply elems_impl; [|exact Hl]. intros ? ? [(_ & _ & H) _]. auto.
Qed.

Definition dec_good (t : rtype) (ts : tags) : Prop := forall fuel,
  if tail ts && match t with TSlice _ => true | _ => false end
  then forall s, good s -> s_kind s = None -> (length (s_r s) < fuel)%nat ->
       decodes_in (dec fuel t ts) (as_type t ts) s
  else decodes fuel (dec fuel t ts) (fun v enc => as_type t ts v enc /\ enc <> []).

Lemma dec_good_scalar t ts f :
  match t with TSlice _ => false | _ => true end = true ->
  (forall fuel, decodes fuel (dec fuel t ts) f) ->
  (forall v enc, f v enc -> as_type t ts v enc /\ enc <> []) -> dec_good t ts.
Proof.
  intros Ht Hd Hf fuel.
  assert (tail ts && match t with TSlice _ => true | _ => false end = false) as ->.
  { destruct t; try apply andb_false_r. done. }
  eapply decodes_impl; [|apply Hd]. done.
Qed.

Lemma dec_good_slice e ts : dec_good e no_tags -> dec_good (TSlice e) ts.
Proof.
  intros IH fuel. specialize (IH fuel). simpl in IH. rewrite andb_true_r. cbn [dec].
  destruct (tail ts) eqn:Et.
  - intros s Hg Hk HN.
    eapply decodes_in_impl; [|apply (decodes_elems fuel fuel (dec fuel e no_tags) (as_elem e) s); [exact IH|by intros ? ? [_ ?]|done..]].
    intros l p Hl. destruct (as_elems e l p Hl) as (H1 & H2 & H3).
    split_and!; [done|done|]. simpl. rewrite Et. done.
  - eapply decodes_impl; [|apply (decodes_ListSlice fuel fuel fuel _ (as_elem e)); [exact IH|by intros ? ? [_ ?]|lia|lia]].
    intros l enc (p & Hl & ->). destruct (as_elems e l p Hl) as (H1 & H2 & H3).
    split; [|apply rlist_nonnil]. split_and!; [done|done|]. simpl. rewrite Et. intros Hc. by rewrite H3.
Qed.

Lemma dec_good_array n e ts : tail ts = false -> dec_good e no_tags -> dec_good (TArray n e) ts.
Proof.
  intros Et IH fuel. specialize (IH fuel). simpl in IH. rewrite Et. cbn [andb dec].
  apply (decodes_list fuel fuel (wrap Stream_List) (wrap Stream_ListEnd) (decodeArrayElems n (dec fuel e no_tags))
    (fun l p => elems (as_elem e) l p /\ length l = n)); [by right|by right|lia|..].
  - intros s Hg Hk HN. by apply (decodes_array_elems fuel).
  - intros l p [Hl Hn]. destruct (as_elems e l p Hl) as (H1 & H2 & H3).
    split; [|apply rlist_nonnil]. split_and!; [done|done|]. simpl. rewrite Et. intros Hc. by rewrite H3.
Qed.

Lemma dec_good_optional fuel e ts :
  nilOK ts = true -> decodes fuel (dec fuel e no_tags) (as_elem e) ->
  decodes fuel (optionalPtr (dec fuel e no_tags)) (fun v enc => as_type (TPtr e) ts v enc /\ enc <> []).
Proof.
  intros Hn IH s Hg Hk HN. unfold decodes_in, fails, optionalPtr.
  assert (forall v enc, wt (TPtr e) v -> encodable (TPtr e) v = true -> as_type (TPtr e) ts v enc) as Has.
  { intros v enc Hw He. split_and!; [done|done|]. simpl. by rewrite Hn. }
  destruct (Kind_good s Hg Hk) as [E|[(s1 & err & E & He)|(s1 & k & n & hdr & Ha)]].
  - left. rewrite E. split; [done|]. by rewrite (set_kind_None (set_kinderr s None)).
  - right; left. rewrite E. by eexists _, _.
  - right. pose proof Ha as (E & Hr & (Hn2 & Hne & _) & (Had & _) & Hf & _). rewrite E.
    destruct ((n =? 0) && negb (bool_decide (k = KByte))).
    + right. exists (set_kind s1 None), None, hdr. split_and!; try done. by apply Has.
    + destruct (decodes_peek fuel (dec fuel e no_tags) (as_elem e) s s1 (k, n) IH) as
        [(s' & err & E' & He)|(s' & v & enc & E' & H1 & H2 & H3 & [(Hw & Hec & _) Hne'])]; try done.
      { apply dec_peeks. lia. }
      { left. exists s', err. by rewrite (D_bind_Err _ _ _ _ _ E'). }
      right. exists s', (Some v), enc. rewrite (D_bind_Ok _ _ _ _ _ E').
      split_and!; try done. by apply Has.
Qed.

Lemma dec_good_ptr e ts : dec_good e no_tags -> dec_good (TPtr e) ts.
Proof.
  intros IH fuel. specialize (IH fuel). simpl in IH. rewrite andb_false_r. cbn [dec].
  destruct (nilOK ts) eqn:En; [by apply dec_good_optional|].
  eapply decodes_bind; [exact IH|]. intros v enc [(Hw & He & Hc) Hne]. left. eexists. split; [done|].
  split; [|done]. split_and!; [done|done|]. simpl. by rewrite En.
Qed.

(** A field: the end of the list is an error. *)
Lemma dec_good_field fuel t ts s : dec_good t ts ->
  good s -> s_kind s = None -> (length (s_r s) < fuel)%nat ->
  decodes_in (map_err (fun e => match e with EOL => decodeError "too few elements" | e => e end)
                      (dec fuel t ts)) (as_type t ts) s.
Proof.
  intros IH Hg Hk HN. specialize (IH fuel). destruct (tail ts && _).
  - apply decodes_in_map_err; [by intros []|]. by apply IH.
  - destruct (IH s Hg Hk HN) as [[_ E]|H].
    + left. eexists _, _. unfold map_err. rewrite E. by split.
    + apply decodes_in_map_err; [by intros []|]. eapply decodes_in_impl; [|exact H]. by intros ? ? [? _].
Qed.

Lemma dec_good_fields_cons ts t fs :
  dec_good t ts ->
  (forall fuel s, good s -> s_kind s = None -> (length (s_r s) < fuel)%nat ->
     decodes_in (dec_fields fuel fs) (as_fields fs) s) ->
  forall fuel s, good s -> s_kind s = None -> (length (s_r s) < fuel)%nat ->
    decodes_in (dec_fields fuel (FCons ts t fs)) (as_fields (FCons ts t fs)) s.
Proof.
  intros Ht Hfs fuel s Hg Hk HN. cbn [dec_fields].
  destruct (dec_good_field fuel t ts s Ht Hg Hk HN) as [Hf|(s1 & x & enc & E & Hr & Hf & Ha & Hx)].
  { left. by apply fails_bind. }
  pose proof (adv_length _ _ _ Ha).
  pose proof (Hfs fuel s1 (adv_good _ _ _ Hg Hf Ha) ltac:(apply Ha) ltac:(lia)) as Hl.
  apply (decodes_in_map _ (pair x)) in Hl.
  eapply decodes_in_impl; [|by eapply (decodes_in_then _ _ (as_type t ts) _ s s1 x enc E Hr Hf Ha Hl)].
  intros v e (e2 & -> & xs & -> & (Hw2 & He2 & Hc2)). destruct Hx as (Hw1 & He1 & Hc1).
  split_and!; [done|simpl; by rewrite He1, He2|]. simpl. intros [? ?]%andb_true_iff.
  by rewrite Hc1, Hc2.
Qed.

Lemma dec_all_good :
  (forall t, valid_type t = true -> no_byte1 t = true -> forall ts,
     tail ts = false \/ is_slice t = true -> dec_good t ts) /\
  (forall fs, valid_fields fs = true -> structFields_ok fs = true -> no_byte1_fields fs = true ->
     forall fuel s, good s -> s_kind s = None -> (length (s_r s) < fuel)%nat ->
     decodes_in (dec_fields fuel fs) (as_fields fs) s).
Proof.
  apply rtype_fields_ind.
  - intros _ _ ts _. apply (dec_good_scalar TRaw ts (fun v enc => is_bytes v /\ enc <> [] /\ enc = v)); [done| |].
    + intros fuel. apply decodes_Raw.
    + by intros v enc (? & ? & ->).
  - intros _ _ ts _. apply (dec_good_scalar TIface ts as_iface); [done|apply decodes_interface|].
    intros v enc [? ->]. split; [done|apply renc_iface_nonnil].
  - intros _ _ ts _. apply (dec_good_scalar TBigPtr ts (fun v enc => exists i, v = Some i /\ 0 <= i /\ enc = rint i)); [done| |].
    + intros fuel. eapply decodes_bind; [apply decodes_BigInt|]. intros i enc [? ->]. left. eauto 10.
    + intros v enc (i & -> & Hi & ->). split; [|apply rstr_nonnil]. split_and!; [done|simpl; lia|done].
  - intros _ _ ts _. apply (dec_good_scalar TBig ts (fun i enc => 0 <= i /\ enc = rint i)); [done|intros; apply decodes_BigInt|].
    intros i enc [Hi ->]. split; [|apply rstr_nonnil]. split_and!; [done|simpl; lia|done].
  - intros bits Hb _ ts _. apply (valid_bits (TUint bits) bits) in Hb as [? ?]; [|done].
    apply (dec_good_scalar (TUint bits) ts (fun i enc => 0 <= i < 2 ^ bits /\ enc = rint i)); [done| |].
    + intros fuel. by apply decodes_wrap, decodes_uint.
    + intros i enc [Hi ->]. split; [|apply rstr_nonnil]. by split_and!.
  - intros _ _ ts _. apply (dec_good_scalar TBool ts (fun (b : bool) enc => enc = rint (if b then 1 else 0))); [done| |].
    + intros fuel. apply decodes_wrap, decodes_Bool.
    + intros b enc ->. split; [done|apply rstr_nonnil].
  - intros _ _ ts _. apply (dec_good_scalar TString ts as_string); [done|intros; apply decodes_wrap, decodes_Bytes|].
    intros b enc [? ->]. split; [done|apply rstr_nonnil].
  - intros _ _ ts _. apply (dec_good_scalar TBytes ts as_string); [done|intros; apply decodes_wrap, decodes_Bytes|].
    intros b enc [? ->]. split; [done|apply rstr_nonnil].
  - intros n _ Hn ts _. simpl in Hn.
    apply (dec_good_scalar (TByteArray n) ts (fun b enc => is_bytes b /\ length b = n /\ enc = rstr b)); [done| |].
    + intros fuel. apply decodes_ByteArray. intros ->. done.
    + intros b enc (? & ? & ->). split; [done|apply rstr_nonnil].
  - intros e IH Ht Hb ts _. apply dec_good_slice, IH; auto.
  - intros n e IH Ht Hb ts [Htl|]; [|done]. apply dec_good_array; [done|]. apply IH; auto.
  - intros fs IH [Hok Ht]%andb_true_iff Hb ts _ fuel. rewrite andb_false_r. cbn [dec].
    apply (decodes_list fuel fuel (wrap Stream_List) (wrap Stream_ListEnd) (dec_fields fuel fs) (as_fields fs));
      [by right|by right|lia|by apply IH|].
    intros v p (Hw & He & Hc). split; [|apply rlist_nonnil]. split_and!; [done|done|].
    simpl. intros H. by rewrite Hc.
  - intros e IH Ht Hb ts _. apply dec_good_ptr, IH; auto.
  - intros _ _ _ fuel s Hg Hk HN. right. exists s, tt, []. split_and!; try done.
    + apply (good_fits s 0 Hg); [lia|].
      destruct Hg as (_ & _ & _ & _ & S). destruct (s_stack s); [done|]. simpl in S. lia.
    + by apply adv_refl.
  - intros ts t IHt fs IHfs [Ht Hfs]%andb_true_iff [Hok Hoks]%andb_true_iff [Hb Hbs]%andb_true_iff.
    apply dec_good_fields_cons; [|by apply IHfs]. apply IHt; [done|done|].
    destruct (tail ts); [right|by left]. by apply andb_true_iff in Hok as [_ ?].
Qed.

Lemma Reset_good b : is_bytes b -> small b -> good (Stream_Reset b (Z.of_nat (length b))).
Proof.
  intros Hb Hs. unfold good, Stream_Reset. simpl. unfold small in Hs.
  split_and!; try done; case_match; lia.
Qed.

(** Decoding any input: an error, or the value whose encoding the input is. *)
Lemma DecodeBytes_cases t b :
  valid_type t = true -> no_byte1 t = true -> is_bytes b -> small b ->
  (exists e, DecodeBytes t b = Err e /\ e <> OutOfFuel) \/
  (exists v, DecodeBytes t b = Ok v /\ as_type t no_tags v b).
Proof.
  intros Ht Hn Hb Hs. unfold DecodeBytes.
  pose proof (proj1 dec_all_good t Ht Hn no_tags (or_introl eq_refl) (S (length b))) as Hd. simpl in Hd.
  destruct (Hd (Stream_Reset b (Z.of_nat (length b)))) as
    [[_ E]|[(s' & e & E & He)|(s' & v & enc & E & Hr & _ & _ & Hv & _)]];
    [by apply Reset_good|done|simpl; lia|..]; rewrite E.
  - left. by eexists.
  - left. exists e. split; [done|]. by intros ->.
  - simpl in Hr. case_bool_decide as Hnil; [right|left; by eexists].
    exists v. rewrite Hnil, app_nil_r in Hr. by subst enc.
Qed.

(** ** raw.go on encodings *)
Lemma raw_readKind_head k n rest : k <> KByte -> 0 <= n < 2 ^ 63 ->
  (k = KString -> n = 1 -> head_lt rest 128 = false) -> n <= Z.of_nat (length rest) ->
  Z.of_nat (length rest) < 2 ^ 63 ->
  raw_readKind (head_of k n ++ rest) = Ok (k, Z.of_nat (length (head_of k n)), n).
Proof.
  intros Hk Hn H1 Hle Hlt.
  pose proof (length_head_of k n Hk ltac:(lia)) as Hlen.
  assert (forall ts, ts = Z.of_nat (length (head_of k n)) ->
    (if u64 (Z.of_nat (length (head_of k n ++ rest)) - ts) <? n then Err ErrValueTooLarge else Ok (k, ts, n))
    = Ok (k, Z.of_nat (length (head_of k n)), n)) as Hfin.
  { intros ts ->. rewrite length_app, Nat2Z.inj_add, Z.add_simpl_l, u64_id by lia.
    by rewrite (proj2 (Z.ltb_ge _ _)). }
  assert (exists st lt, head_of k n = puthead st lt n /\
            ((k = KString /\ st = 0x80 /\ lt = 0xB7) \/ (k = KList /\ st = 0xC0 /\ lt = 0xF7)))
    as (st & lt & Eh & Htag) by (destruct k; [done|by eexists _, _; eauto..]).
  rewrite Eh in *. unfold puthead in *. destruct (Z.ltb_spec n 56).
  - simpl. simpl in Hfin. assert (0 <= st <= 192) by (destruct Htag as [(_ & -> & _)|(_ & -> & _)]; lia).
    rewrite (byte_id n), byte_id in * by lia.
    destruct Htag as [(-> & -> & ->)|(-> & -> & ->)];
      repeat (rewrite (proj2 (Z.ltb_ge _ _)) by lia); rewrite (proj2 (Z.ltb_lt _ _)) by lia;
      replace (_ + n - _) with n by lia.
    + assert ((n =? 1) && head_lt rest 128 = false) as ->; [|by apply Hfin].
      destruct (Z.eqb_spec n 1); [by rewrite H1|done].
    + by apply Hfin.
  - destruct (putint_takes n) as (m & Ep & Ht & Hm); [lia|]. rewrite Ep in *. pose proof Ht as [_ Hm1].
    rewrite length_be in *.
    assert (readSize (be m n ++ rest) (Z.of_nat m) = Ok n) as Hrs.
    { unfold readSize. rewrite length_app, length_be, (proj2 (Z.ltb_ge _ _)) by lia.
      rewrite take_app_n, be_uint_takes by (done || by rewrite length_be).
      rewrite (proj2 (Z.ltb_ge n 56)) by lia. simpl.
      destruct (be_takes_head m n Ht) as (x & l & -> & Hx). simpl.
      by rewrite bool_decide_false by (intros [= ->]; lia). }
    assert (0 <= lt <= 247) by (destruct Htag as [(_ & _ & ->)|(_ & _ & ->)]; lia).
    rewrite (byte_id (Z.of_nat m)), byte_id in * by lia. rewrite <- app_comm_cons in *. unfold raw_readKind.
    destruct Htag as [(-> & -> & ->)|(-> & -> & ->)];
      repeat (rewrite (proj2 (Z.ltb_ge _ _)) by lia); try (rewrite (proj2 (Z.ltb_lt _ _)) by lia);
      rewrite Z.add_simpl_l, Hrs, !result_bind_Ok; apply Hfin; simpl length; rewrite length_be; lia.
Qed.

Lemma Split_head k b rest : k <> KByte -> Z.of_nat (length (b ++ rest)) < 2 ^ 63 ->
  (k = KString -> forall x, b = [x] -> 128 <= x) ->
  Split (head_of k (Z.of_nat (length b)) ++ b ++ rest) = Ok (k, b, rest).
Proof.
  intros Hk Hlt H1. rewrite length_app in Hlt. unfold Split.
  rewrite raw_readKind_head; [|done|lia| |rewrite length_app; lia..].
  - rewrite result_bind_Ok, drop_app_n, take_app_n by done.
    rewrite Z2Nat.inj_add, <- drop_drop, !drop_app_n by (done || lia). done.
  - intros -> Hb. destruct b as [|x [|y b]]; simpl in Hb; [lia| |lia]. simpl.
    specialize (H1 eq_refl x eq_refl). by rewrite (proj2 (Z.ltb_ge x 128)).
Qed.

(** Split undoes the encoding of a string and of a list. *)
Lemma Split_rstr b rest : is_bytes b -> Z.of_nat (length (b ++ rest)) < 2 ^ 63 ->
  exists k, Split (rstr b ++ rest) = Ok (k, b, rest) /\ k <> KList.
Proof.
  intros Hb Hlt. destruct (rstr_cases b Hb) as [(x & -> & Hx & ->)|[-> Hnb]].
  - exists KByte. split; [|done]. unfold Split, raw_readKind. simpl in *.
    rewrite (proj2 (Z.ltb_lt x 128)) by lia. cbn -[drop take u64].
    rewrite (proj2 (Z.ltb_ge _ _)) by (rewrite u64_id; lia). done.
  - exists KString. split; [|done]. rewrite <- app_assoc. by apply Split_head.
Qed.

Lemma Split_rlist p rest : Z.of_nat (length (p ++ rest)) < 2 ^ 63 ->
  Split (rlist p ++ rest) = Ok (KList, p, rest).
Proof. intros Hlt. unfold rlist. rewrite <- app_assoc. by apply (Split_head KList). Qed.

(** ** The properties of the codec *)

(** the encoder against the encoding rules.  The encoder of encode.go
    writes string data and list headers into separate buffers, fills in a
    header's size when its list ends, and merges the two at the end.  For every
    value of every type, this merging stays within its output buffer and gives
    exactly the recursive encoding: header and content of each string and list;
    the only error is a negative big.Int. *)
Theorem rlp_encodes_by_rules t (v : denote t) :
  valid_type t = true -> wt t v -> small (renc t no_tags v) ->
  EncodeToBytes t v = Ret (if encodable t v then Ok (renc t no_tags v) else Err ErrNegative).
Proof. apply EncodeToBytes_spec. Qed.



(** decoding terminates.  On every input the loops over list elements and
    the recursion into nested interface{} values end within as many steps as
    the input has bytes, for every type without [1]byte. *)
Theorem rlp_terminates t b :
  valid_type t = true -> no_byte1 t = true -> is_bytes b -> small b ->
  DecodeBytes t b <> Err OutOfFuel.
Proof.
  intros Ht Hn Hb Hs. by destruct (DecodeBytes_cases t b Ht Hn Hb Hs) as [(e & -> & He)|(v & -> & _)];
    [intros [= ->]|].
Qed.

(** A slice of [1]byte whose list holds a zero byte is decoded for ever:
    decodeByteArray drops the error of Uint, which has left the stream at the
    same value, so the loop finds the same element again and again, whatever
    the number of steps. *)
Theorem rlp_byte1_loops fuel :
  snd (dec fuel (TSlice (TByteArray 1)) no_tags (Stream_Reset [0xC1; 0x00] 2)) = Err OutOfFuel.
Proof.
  assert (forall fuel s, s_kind s = Some KByte -> s_size s = 0 -> s_kinderr s = None -> s_byteval s = 0 ->
    snd (decodeSliceElems fuel (decodeByteArray 1) s) = Err OutOfFuel) as Hloop.
  { clear. induction fuel as [|fuel IH]; intros s Hk Hsz Hke Hbv; [done|].
    assert (Stream_Kind s = (s, Ok (KByte, 0))) as EK.
    { unfold Stream_Kind. by rewrite Hk, Hke, Hsz. }
    assert (decodeByteArray 1 s = (s, Ok [0])) as E.
    { unfold decodeByteArray, Stream_uint. rewrite (D_bind_Ok _ _ _ _ _ EK). simpl.
      rewrite (D_bind_Ok _ _ _ _ _ EK). unfold mbind, D_bind, get. by rewrite Hbv. }
    rewrite (decodeSliceElems_cons _ _ _ _ _ E). specialize (IH s Hk Hsz Hke Hbv). unfold mbind, D_bind.
    destruct (decodeSliceElems fuel _ s) as [s' [l|e]]; simpl in *; congruence. }
  assert (exists s1 s2, wrap Stream_List (Stream_Reset [0xC1; 0x00] 2) = (s1, Ok 1) /\
    decodeByteArray 1 s1 = (s2, Ok [0]) /\ s_kind s2 = Some KByte /\ s_size s2 = 0 /\
    s_kinderr s2 = None /\ s_byteval s2 = 0) as (s1 & s2 & E1 & E2 & H1 & H2 & H3 & H4).
  { eexists _, _. split; [vm_compute; reflexivity|]. split; [vm_compute; reflexivity|]. done. }
  cbn [dec tail no_tags]. unfold decodeListSlice. rewrite (D_bind_Ok _ _ _ _ _ E1). cbn [Z.eqb].
  destruct fuel as [|fuel]; [done|]. specialize (Hloop fuel s2 H1 H2 H3 H4).
  unfold mbind at 1, D_bind at 1. rewrite (decodeSliceElems_cons _ _ _ _ _ E2). unfold mbind, D_bind.
  destruct (decodeSliceElems fuel _ s2) as [s' [l|e]]; simpl in *; congruence.
Qed.

(** *** Witnesses *)
Module RlpExamples.

(** A struct with most kinds of fields: a nonce, a balance, a list of strings,
    an address, an optional pointer, any value, and the rest. *)
Definition ex_type : rtype :=
  TStruct (FCons no_tags (TUint 64) (FCons no_tags TBigPtr (FCons no_tags (TSlice TBytes)
    (FCons no_tags (TByteArray 3) (FCons {| nilOK := true; tail := false |} (TPtr (TByteArray 2))
    (FCons no_tags TIface (FCons {| nilOK := false; tail := true |} (TSlice TBool) FNil))))))).
Definition ex_value : denote ex_type :=
  (1000, (Some 12345678901234567890, ([[1]; []; [200]; replicate 60 7], ([1; 2; 3], (None,
   (ISlice [IBytes [5]; ISlice []], ([true; false], tt))))))).

Lemma ex_wt : wt ex_type ex_value.
Proof. repeat (split || constructor); done. Qed.
Lemma ex_rt : rt ex_type no_tags ex_value.
Proof. repeat (split || constructor); done. Qed.
Lemma ex_small : small (renc ex_type no_tags ex_value).
Proof. by vm_compute. Qed.

Lemma rlp_encodes_by_rules_witness :
  EncodeToBytes ex_type ex_value = Ret (Ok (renc ex_type no_tags ex_value)).
Proof. exact (rlp_encodes_by_rules ex_type ex_value eq_refl ex_wt ex_small). Defined.


(** A transaction-like pair: the input and the value it is decoded to. *)
Definition ex_pair : rtype := TStruct (FCons no_tags (TUint 64) (FCons no_tags TBytes FNil)).


Lemma rlp_terminates_witness :
  DecodeBytes (TSlice TIface) [0xC4; 0xC2; 0xC0; 5; 0] <> Err OutOfFuel.
Proof.
  apply (rlp_terminates (TSlice TIface) [0xC4; 0xC2; 0xC0; 5; 0]); try reflexivity.
  repeat (split || constructor); done.
Defined.
End RlpExamples.
