(* ===== verification/TrieCodec.v ===== *)
(** * Keys of the trie

    The three forms of a key (chain/trie/encoding.go): its bytes, its nibbles
    with a terminator (HEX), and the nibbles packed into bytes behind a flag
    (COMPACT), the form in which keys are stored.  Packing and unpacking are
    inverse on the keys of a trie. *)
From S2P Require Import Prelude Rlp.
Local Open Scope Z_scope.

(** The nibble that ends a key. *)
Definition terminator : Z := 16.

Definition hasTerm (s : bytes) : bool := bool_decide (last s = Some terminator).

(** Two nibbles per byte; both callers pass an even number of them. *)
Fixpoint decodeNibbles (nibbles : bytes) : bytes :=
  match nibbles with
  | hi :: lo :: rest => Z.lor (byte (Z.shiftl hi 4)) lo :: decodeNibbles rest
  | _ => []
  end.

Definition hexToCompact (hex : bytes) : bytes :=
  let term := if hasTerm hex then 1 else 0 in
  let hex := if hasTerm hex then removelast hex else hex in
  let flag := Z.shiftl term 5 in
  match hex with
  | x :: rest =>
    if Nat.odd (length hex) then Z.lor (Z.lor flag (Z.shiftl 1 4)) x :: decodeNibbles rest
    else flag :: decodeNibbles hex
  | [] => [flag]
  end.

Fixpoint keybytesToHex (str : bytes) : bytes :=
  match str with
  | [] => [terminator]
  | b :: str => b / 16 :: b mod 16 :: keybytesToHex str
  end.

Definition compactToHex (compact : bytes) : bytes :=
  match compact with
  | [] => []
  | _ =>
    let base := keybytesToHex compact in
    let flag := nth 0 base 0 in
    let base := if flag <? 2 then removelast base else base in
    drop (Z.to_nat (2 - Z.land flag 1)) base
  end.

Definition hexToKeybytes (hex : bytes) : outcome bytes :=
  let hex := if hasTerm hex then removelast hex else hex in
  if Nat.odd (length hex) then Panic "can't convert hex key of odd length" else Ret (decodeNibbles hex).

Fixpoint prefixLen (a b : bytes) : nat :=
  match a, b with
  | x :: a, y :: b => if x =? y then S (prefixLen a b) else O
  | _, _ => O
  end.

(** ** Keys *)
Definition is_nibble (x : Z) : Prop := 0 <= x < 16.
Abbreviation nibbles := (Forall is_nibble).

(** The keys of short nodes: nibbles, with a terminator above a value. *)
Definition hex_key (k : bytes) : Prop := exists p, nibbles p /\ (k = p \/ k = p ++ [terminator]).

Lemma hasTerm_term p : hasTerm (p ++ [terminator]) = true.
Proof. unfold hasTerm. rewrite last_snoc. apply bool_decide_true. done. Qed.

Lemma hasTerm_nibbles p : nibbles p -> hasTerm p = false.
Proof.
  intros H. unfold hasTerm. apply bool_decide_false. intros E. apply last_Some_elem_of in E.
  rewrite Forall_forall in H. specialize (H _ E). unfold is_nibble, terminator in H. lia.
Qed.

Lemma lor_nibble a x : is_nibble x -> Z.lor (Z.shiftl a 4) x = a * 16 + x.
Proof.
  intros Hx. unfold is_nibble in Hx. rewrite Z.shiftl_mul_pow2 by lia. change (2 ^ 4) with 16.
  assert (Z.land (a * 16) x = 0) as Hl; [|rewrite <- (Z.add_lor_land (a * 16) x), Hl; lia].
  apply Z.bits_inj'. intros i Hi. rewrite Z.land_spec, Z.bits_0. change 16 with (2 ^ 4).
  destruct (Z.ltb_spec i 4); [rewrite Z.mul_pow2_bits_low by lia; done|].
  destruct (Z.eq_dec x 0) as [->|Hx0]; [rewrite Z.bits_0; apply andb_false_r|].
  rewrite (Z.bits_above_log2 x i); [apply andb_false_r|lia|]. apply Z.log2_lt_pow2; [lia|].
  pose proof (Z.pow_le_mono_r 2 4 i). lia.
Qed.

Lemma pack_nibbles hi lo : is_nibble hi -> is_nibble lo -> Z.lor (byte (Z.shiftl hi 4)) lo = hi * 16 + lo.
Proof.
  intros Hh Hl. rewrite <- lor_nibble by done. f_equal. apply byte_id. unfold is_nibble in *.
  rewrite Z.shiftl_mul_pow2 by lia. lia.
Qed.

Lemma decodeNibbles_bytes p : nibbles p -> is_bytes (decodeNibbles p).
Proof.
  revert p. fix IH 1. intros [|x [|y p]] H; cbn; [done|done|]. inversion H as [|?? Hx H']; subst. inversion H' as [|?? Hy Hp]; subst.
  constructor; [|apply IH; done]. rewrite pack_nibbles by done. unfold is_byte, is_nibble in *. lia.
Qed.

(** Without the terminator. *)
Fixpoint unpack (str : bytes) : bytes :=
  match str with
  | [] => []
  | b :: str => b / 16 :: b mod 16 :: unpack str
  end.

Lemma keybytes_unpack str : keybytesToHex str = unpack str ++ [terminator].
Proof. induction str as [|b str IH]; [done|]. cbn. rewrite IH. done. Qed.

Lemma unpack_nibbles str : is_bytes str -> nibbles (unpack str).
Proof.
  induction 1 as [|b str Hb _ IH]; cbn; [done|]. unfold is_byte in Hb. repeat constructor; [..|done].
  - apply Z.div_pos; lia.
  - apply Z.div_lt_upper_bound; lia.
  - apply Z.mod_pos_bound; lia.
  - apply Z.mod_pos_bound; lia.
Qed.

Lemma length_unpack str : length (unpack str) = (2 * length str)%nat.
Proof. induction str as [|b str IH]; [done|]. cbn. rewrite IH. lia. Qed.

(** The nibbles of packed nibbles, and the other way round. *)
Lemma unpack_pack p : nibbles p -> Nat.even (length p) = true -> unpack (decodeNibbles p) = p.
Proof.
  revert p. fix IH 1. intros [|x [|y p]] H He; [done|done|].
  inversion H as [|?? Hx H']; subst. inversion H' as [|?? Hy Hp]; subst.
  cbn [decodeNibbles unpack]. rewrite pack_nibbles by done. unfold is_nibble in *.
  replace ((x * 16 + y) / 16) with x by (apply Z.div_unique with y; lia).
  replace ((x * 16 + y) mod 16) with y by (apply Z.mod_unique with x; lia).
  rewrite IH by done. done.
Qed.

Lemma pack_unpack str : is_bytes str -> decodeNibbles (unpack str) = str.
Proof.
  induction 1 as [|b str Hb Hs IH]; [done|]. cbn [unpack decodeNibbles]. pose proof (unpack_nibbles [b]) as H.
  cbn in H. assert (nibbles [b / 16; b mod 16]) as Hn by (apply H; repeat constructor; apply Hb).
  inversion Hn as [|?? H1 Hn']; subst. inversion Hn' as [|?? H2 _]; subst.
  rewrite pack_nibbles, IH by done. f_equal. pose proof (Z.div_mod b 16). lia.
Qed.

(** ** The forms of a key *)
Lemma removelast_snoc {A} (l : list A) x : removelast (l ++ [x]) = l.
Proof. apply removelast_last. Qed.

(** The flag byte: whether there is a terminator, and the odd nibble. *)
Lemma flag_odd (t : bool) x : is_nibble x ->
  Z.lor (Z.lor (Z.shiftl (if t then 1 else 0) 5) (Z.shiftl 1 4)) x = (if t then 3 else 1) * 16 + x.
Proof.
  intros Hx. rewrite <- lor_nibble by done. destruct t; done.
Qed.

Lemma compact_parts (t : bool) p : nibbles p ->
  hexToCompact (p ++ if t then [terminator] else []) =
    if Nat.odd (length p) then ((if t then 3 else 1) * 16 + hd 0 p) :: decodeNibbles (tl p)
    else ((if t then 2 else 0) * 16) :: decodeNibbles p.
Proof.
  intros Hp. unfold hexToCompact.
  assert (hasTerm (p ++ if t then [terminator] else []) = t) as ->.
  { destruct t; [apply hasTerm_term|]. rewrite app_nil_r. apply hasTerm_nibbles. done. }
  assert ((if t then removelast (p ++ if t then [terminator] else []) else p ++ if t then [terminator] else []) = p) as ->.
  { destruct t; [apply removelast_snoc|apply app_nil_r]. }
  destruct p as [|x p]; [destruct t; done|]. inversion Hp; subst. destruct (Nat.odd _); [|destruct t; done].
  rewrite flag_odd by done. done.
Qed.

Lemma odd_tl {A} (p : list A) : Nat.odd (length p) = true -> exists x q, p = x :: q /\ Nat.even (length q) = true.
Proof.
  destruct p as [|x q]; [done|]. intros H. exists x, q. split; [done|]. cbn [length] in H.
  rewrite Nat.odd_succ in H. done.
Qed.

Lemma compact_flag h x : 0 <= h < 16 -> is_nibble x -> (h * 16 + x) / 16 = h /\ (h * 16 + x) mod 16 = x.
Proof.
  intros Hh Hx. unfold is_nibble in Hx. split; [symmetry; apply Z.div_unique with x; lia|].
  symmetry. apply Z.mod_unique with h; lia.
Qed.

Lemma compact_roundtrip (t : bool) p : nibbles p ->
  compactToHex (hexToCompact (p ++ if t then [terminator] else [])) = p ++ if t then [terminator] else [].
Proof.
  intros Hp. rewrite compact_parts by done. destruct (Nat.odd (length p)) eqn:Ho.
  - destruct (odd_tl _ Ho) as (x & q & -> & Hq). inversion Hp as [|?? Hx Hp']; subst. cbn [hd tl].
    unfold compactToHex. cbn [keybytesToHex nth].
    destruct (compact_flag (if t then 3 else 1) x) as [-> ->]; [destruct t; lia|done|].
    rewrite keybytes_unpack, unpack_pack by done.
    destruct t; cbn -[removelast terminator app]; [done|].
    rewrite !app_comm_cons, removelast_snoc. cbn. rewrite app_nil_r. done.
  - unfold compactToHex. cbn [keybytesToHex nth]. rewrite <- (Z.add_0_r (_ * 16)).
    destruct (compact_flag (if t then 2 else 0) 0) as [-> ->]; [destruct t; lia|unfold is_nibble; lia|].
    rewrite keybytes_unpack, unpack_pack; [|done|rewrite <- Nat.negb_odd, Ho; done].
    destruct t; cbn -[removelast terminator app]; [done|].
    rewrite !app_comm_cons, removelast_snoc. cbn. rewrite app_nil_r. done.
Qed.

Lemma hexToCompact_bytes (t : bool) p : nibbles p -> is_bytes (hexToCompact (p ++ if t then [terminator] else [])).
Proof.
  intros Hp. rewrite compact_parts by done. destruct (Nat.odd (length p)) eqn:Ho.
  - destruct (odd_tl _ Ho) as (x & q & -> & Hq). inversion Hp as [|?? Hx Hp']; subst. cbn [hd tl].
    constructor; [|apply decodeNibbles_bytes; done]. unfold is_byte, is_nibble in *. destruct t; lia.
  - constructor; [unfold is_byte; destruct t; lia|apply decodeNibbles_bytes; done].
Qed.

Lemma length_decodeNibbles p : (length (decodeNibbles p) <= length p)%nat.
Proof. revert p. fix IH 1. intros [|x [|y p]]; cbn; [lia|lia|]. specialize (IH p). lia. Qed.

Lemma length_hexToCompact (t : bool) p : nibbles p ->
  (0 < length (hexToCompact (p ++ if t then [terminator] else [])) <= S (length p))%nat.
Proof.
  intros Hp. rewrite compact_parts by done. destruct (Nat.odd (length p)) eqn:Ho; cbn [length].
  - pose proof (length_decodeNibbles (tl p)). destruct p; cbn in *; lia.
  - pose proof (length_decodeNibbles p). lia.
Qed.

Lemma keybytes_roundtrip str : is_bytes str -> hexToKeybytes (keybytesToHex str) = Ret str.
Proof.
  intros H. unfold hexToKeybytes. rewrite keybytes_unpack, hasTerm_term, removelast_snoc, length_unpack, Nat.odd_mul. cbn.
  rewrite pack_unpack by done. done.
Qed.

Lemma keybytes_inj a b : is_bytes a -> is_bytes b -> keybytesToHex a = keybytesToHex b -> a = b.
Proof.
  intros Ha Hb E. pose proof (keybytes_roundtrip a Ha) as H. rewrite E, keybytes_roundtrip in H by done. congruence.
Qed.

(** ** Common prefixes *)
Lemma prefixLen_spec a b :
  take (prefixLen a b) a = take (prefixLen a b) b
  /\ (prefixLen a b <= length a)%nat /\ (prefixLen a b <= length b)%nat
  /\ forall x y, a !! prefixLen a b = Some x -> b !! prefixLen a b = Some y -> x <> y.
Proof.
  revert b. induction a as [|x a IH]; intros [|y b]; cbn; [split_and!; done || lia..|].
  destruct (Z.eqb_spec x y) as [->|Hne]; cbn; [|split_and!; [done|lia|lia|congruence]].
  destruct (IH b) as (H1 & H2 & H3 & H4). split_and!; [congruence|lia|lia|done].
Qed.

Lemma prefix_cases a b :
  (prefixLen a b = length b /\ a = b ++ drop (length b) a)
  \/ (prefixLen a b = length a /\ exists y b', b = a ++ y :: b')
  \/ exists p x a' y b', a = p ++ x :: a' /\ b = p ++ y :: b' /\ x <> y /\ prefixLen a b = length p.
Proof.
  revert b. induction a as [|x a IH]; intros [|y b]; cbn [prefixLen]; [by left|right; left; split; [done|by exists y, b]|by left|].
  destruct (Z.eqb_spec x y) as [->|Hne].
  - destruct (IH b) as [[H1 H2]|[(H1 & z & b' & ->)|(p & x' & a' & y' & b' & -> & -> & Hxy & Hp)]].
    + left. cbn. rewrite H1, <- H2. done.
    + right. left. cbn. rewrite H1. split; [done|]. by exists z, b'.
    + right. right. exists (y :: p), x', a', y', b'. cbn. rewrite Hp. done.
  - right. right. exists [], x, a, y, b. done.
Qed.
