(* ===== verification/Trie.v ===== *)
(** * Tries

    The Merkle-Patricia trie of chain/trie/trie.go: nodes with their cached
    hashes (node.go), reading, inserting and deleting, with nodes loaded from
    the database when only their hash is in memory.

    A key is passed on as what is left of it; the path that the code hands down
    for its error messages is left out.  The recursion is not structural, since
    a hash is replaced by a node from the database: its fuel is [trie_fuel]
    (TrieMap.v shows that it is enough). *)
From S2P Require Import Prelude Rlp TrieCodec.
Local Open Scope Z_scope.

(** Keccak-256, of golang.org/x/crypto/sha3. *)
Class KeccakLib := { keccak : bytes -> bytes }.
Class KeccakLaws (K : KeccakLib) : Prop := {
  keccak_length : forall b, length (keccak b) = HashLength;
  keccak_bytes : forall b, is_bytes (keccak b) }.

(** ** Nodes (node.go) *)
Record nodeFlag := { fl_hash : option bytes; fl_dirty : bool }.

Inductive node :=
  | nilNode
  | shortNode (key : bytes) (val : node) (flags : nodeFlag)
  | fullNode (children : list node) (flags : nodeFlag)
  | hashNode (hash : bytes)
  | valueNode (value : bytes).

Definition newFlag : nodeFlag := {| fl_hash := None; fl_dirty := true |}.

(** ** Results: a panic, an error or a value *)
Definition TM (A : Type) : Type := outcome (result string A).
#[export] Instance TM_ret : MRet TM := fun A a => Ret (Ok a).
#[export] Instance TM_bind : MBind TM := fun A B f m =>
  match m with
  | Ret (Ok a) => f a
  | Ret (Err e) => Ret (Err e)
  | Panic s => Panic s
  end.
Lemma TM_bind_Ok {A B} (m : TM A) (f : A -> TM B) a : m = Ret (Ok a) -> (x ← m; f x) = f a.
Proof. intros ->. done. Qed.

Lemma TM_ret_bind {A B} (a : A) (f : A -> TM B) : mbind (M := TM) f (Ret (Ok a)) = f a.
Proof. done. Qed.

Definition liftT {A} (m : outcome A) : TM A := x ← m; Ret (Ok x).
Definition raise {A} (e : string) : TM A := Ret (Err e).

(** The node with a hash, as the database has it. *)
Definition Resolver : Type := bytes -> outcome (option node).

Definition MissingNodeError : string := "missing trie node".
Definition invalid_node {A} : TM A := Panic "invalid node".
Definition no_fuel {A} : TM A := Panic "model: out of fuel".

Section Operations.
Context (D : Resolver).

Definition Trie_resolveHash (h : bytes) : TM node :=
  n ← liftT (D (BytesToHash h));
  match n with
  | Some n => mret n
  | None => raise MissingNodeError
  end.

Definition Trie_resolve (n : node) : TM node :=
  match n with
  | hashNode h => Trie_resolveHash h
  | _ => mret n
  end.

(** ** Reading: the value, the node with what was loaded, whether it changed *)
Fixpoint Trie_tryGet (fuel : nat) (n : node) (key : bytes) : TM (bytes * node * bool) :=
  match fuel with
  | O => no_fuel
  | S fuel =>
    match n with
    | nilNode => mret ([], nilNode, false)
    | valueNode v => mret (v, n, false)
    | shortNode k val fl =>
      if (length key <? length k)%nat || negb (bool_decide (k = take (length k) key)) then mret ([], n, false)
      else
        r ← Trie_tryGet fuel val (drop (length k) key);
        let '(v, newnode, didResolve) := r in
        mret (v, if (didResolve : bool) then shortNode k newnode fl else n, didResolve)
    | fullNode children fl =>
      i ← liftT (slice_get key 0);
      child ← liftT (slice_get children i);
      r ← Trie_tryGet fuel child (drop 1 key);
      let '(v, newnode, didResolve) := r in
      mret (v, if (didResolve : bool) then fullNode (<[Z.to_nat i := newnode]> children) fl else n, didResolve)
    | hashNode h =>
      side ← Trie_resolveHash h;
      r ← Trie_tryGet fuel side key;
      let '(v, newnode, _) := r in
      mret (v, newnode, true)
    end
  end.

(** ** Inserting: whether the trie changed, and the new node *)
Fixpoint Trie_insert (fuel : nat) (n : node) (key : bytes) (value : node) : TM (bool * node) :=
  match fuel with
  | O => no_fuel
  | S fuel =>
    match key with
    | [] =>
      match n, value with
      | valueNode v, valueNode w => mret (negb (bool_decide (v = w)), value)
      | valueNode v, _ => Panic "interface conversion"
      | _, _ => mret (true, value)
      end
    | k0 :: krest =>
      match n with
      | shortNode nkey nval fl =>
        let matchlen := prefixLen key nkey in
        if (matchlen =? length nkey)%nat then
          r ← Trie_insert fuel nval (drop matchlen key) value;
          let '(dirty, nn) := r in
          if negb dirty then mret (false, n) else mret (true, shortNode nkey nn newFlag)
        else
          i ← liftT (slice_get nkey (Z.of_nat matchlen));
          r ← Trie_insert fuel nilNode (drop (S matchlen) nkey) nval;
          children ← liftT (slice_set (replicate 17 nilNode) i (snd r));
          j ← liftT (slice_get key (Z.of_nat matchlen));
          r ← Trie_insert fuel nilNode (drop (S matchlen) key) value;
          children ← liftT (slice_set children j (snd r));
          let branch := fullNode children newFlag in
          mret (true, if (matchlen =? 0)%nat then branch else shortNode (take matchlen key) branch newFlag)
      | fullNode children fl =>
        child ← liftT (slice_get children k0);
        r ← Trie_insert fuel child krest value;
        let '(dirty, nn) := r in
        if negb dirty then mret (false, n)
        else
          children ← liftT (slice_set children k0 nn);
          mret (true, fullNode children newFlag)
      | nilNode => mret (true, shortNode key value newFlag)
      | hashNode h =>
        rn ← Trie_resolveHash h;
        r ← Trie_insert fuel rn key value;
        let '(dirty, nn) := r in
        mret (if negb dirty then (false, rn) else (true, nn))
      | valueNode v => invalid_node
      end
    end
  end.

(** ** Deleting *)
Definition is_nil (n : node) : bool := match n with nilNode => true | _ => false end.

(** The position of the only child, -1 without children, -2 with several. *)
Fixpoint only_child (i : Z) (pos : Z) (children : list node) : Z :=
  match children with
  | [] => pos
  | cld :: children =>
    if is_nil cld then only_child (i + 1) pos children
    else if pos =? -1 then only_child (i + 1) i children
    else -2
  end.

(** A full node with one child left becomes a short node. *)
Definition collapse (children : list node) : TM node :=
  let pos := only_child 0 (-1) children in
  if 0 <=? pos then
    child ← liftT (slice_get children pos);
    if negb (pos =? 16) then
      cnode ← Trie_resolve child;
      match cnode with
      | shortNode k val _ => mret (shortNode (pos :: k) val newFlag)
      | _ => mret (shortNode [pos] child newFlag)
      end
    else mret (shortNode [pos] child newFlag)
  else mret (fullNode children newFlag).

Fixpoint Trie_delete (fuel : nat) (n : node) (key : bytes) : TM (bool * node) :=
  match fuel with
  | O => no_fuel
  | S fuel =>
    match n with
    | shortNode nkey nval fl =>
      let matchlen := prefixLen key nkey in
      if (matchlen <? length nkey)%nat then mret (false, n)
      else if (matchlen =? length key)%nat then mret (true, nilNode)
      else
        r ← Trie_delete fuel nval (drop (length nkey) key);
        let '(dirty, side) := r in
        if negb dirty then mret (false, n)
        else
          mret (true, match side with
                      | shortNode skey sval _ => shortNode (nkey ++ skey) sval newFlag
                      | _ => shortNode nkey side newFlag
                      end)
    | fullNode children fl =>
      i ← liftT (slice_get key 0);
      child ← liftT (slice_get children i);
      r ← Trie_delete fuel child (drop 1 key);
      let '(dirty, nn) := r in
      if negb dirty then mret (false, n)
      else
        children ← liftT (slice_set children i nn);
        n ← collapse children;
        mret (true, n)
    | valueNode v => mret (true, nilNode)
    | nilNode => mret (false, nilNode)
    | hashNode h =>
      rn ← Trie_resolveHash h;
      r ← Trie_delete fuel rn key;
      let '(dirty, nn) := r in
      mret (if negb dirty then (false, rn) else (true, nn))
    end
  end.

(** ** The trie: its root *)
Definition trie_fuel (key : bytes) : nat := 2 * length key + 3.

(** The value, and the root with what was loaded. *)
Definition Trie_TryGet (root : node) (key : bytes) : TM (bytes * node) :=
  let key := keybytesToHex key in
  r ← Trie_tryGet (trie_fuel key) root key;
  let '(value, newroot, didResolve) := r in
  mret (value, if (didResolve : bool) then newroot else root).

Definition Trie_TryDelete (root : node) (key : bytes) : TM node :=
  let k := keybytesToHex key in
  r ← Trie_delete (trie_fuel k) root k;
  mret (snd r).

Definition Trie_TryUpdate (root : node) (key value : bytes) : TM node :=
  let k := keybytesToHex key in
  match value with
  | [] => Trie_TryDelete root key
  | _ => r ← Trie_insert (trie_fuel k) root k (valueNode value); mret (snd r)
  end.

End Operations.
