(* ===== verification/TrieTree.v ===== *)
(** * What a trie stands for

    The tree of a trie: its nodes without caches, with everything loaded.  A
    well-formed tree is canonical: it is determined by what is read from it, so
    that the root hash, computed from the tree, depends on the contents alone
    and not on the order in which they were written. *)
From S2P Require Import Prelude Rlp TrieCodec Trie.
Local Open Scope Z_scope.

Inductive tree :=
  | TNil
  | TVal (value : bytes)
  | TShort (key : bytes) (t : tree)
  | TFull (children : list tree).

(** Reading; nothing is the empty value. *)
Fixpoint tget (t : tree) (key : bytes) : bytes :=
  match t with
  | TNil => []
  | TVal v => v
  | TShort k t => if bool_decide (k = take (length k) key) then tget t (drop (length k) key) else []
  | TFull children =>
    match key with
    | [] => []
    | i :: rest =>
      (fix child (ts : list tree) (n : nat) : bytes :=
         match ts, n with
         | [], _ => []
         | t :: _, O => tget t rest
         | _ :: ts, S n => child ts n
         end) children (Z.to_nat i)
    end
  end.

#[export] Instance tnil_dec (t : tree) : Decision (t = TNil).
Proof. destruct t; [left; done|right; done..]. Defined.

Fixpoint tree_induction (P : tree -> Prop) (Hn : P TNil) (Hv : forall v, P (TVal v))
    (Hs : forall k t, P t -> P (TShort k t)) (Hf : forall ts, Forall P ts -> P (TFull ts)) (t : tree) : P t :=
  match t with
  | TNil => Hn
  | TVal v => Hv v
  | TShort k t => Hs k t (tree_induction P Hn Hv Hs Hf t)
  | TFull ts =>
    Hf ts ((fix all (ts : list tree) : Forall P ts :=
              match ts with
              | [] => Forall_nil_2 P
              | t :: ts => Forall_cons_2 P t ts (tree_induction P Hn Hv Hs Hf t) (all ts)
              end) ts)
  end.

(** Whole keys end with the terminator. *)
Definition term_key (k : bytes) : Prop := exists p, nibbles p /\ k = p ++ [terminator].

(** Nodes other than values and nil: the key of a leaf ends with the terminator,
    other short nodes have a full node below; a full node has at least two
    children, and its last one is the value of the key that ends there. *)
Inductive wfN : tree -> Prop :=
  | wf_leaf p v : nibbles p -> v <> [] -> wfN (TShort (p ++ [terminator]) (TVal v))
  | wf_ext p ts : nibbles p -> p <> [] -> wfN (TFull ts) -> wfN (TShort p (TFull ts))
  | wf_full ts : length ts = 17%nat ->
      (forall i t, ts !! i = Some t -> t <> TNil -> (i < 16)%nat -> wfN t) ->
      (forall t, ts !! 16%nat = Some t -> t = TNil \/ exists v, t = TVal v /\ v <> []) ->
      (exists i j t u, i <> j /\ ts !! i = Some t /\ ts !! j = Some u /\ t <> TNil /\ u <> TNil) ->
      wfN (TFull ts).

Definition wf (t : tree) : Prop := t = TNil \/ wfN t.

Lemma tget_full ts i rest :
  tget (TFull ts) (i :: rest) = match ts !! Z.to_nat i with Some t => tget t rest | None => [] end.
Proof. cbn. generalize (Z.to_nat i) as n. induction ts as [|t ts IH]; intros [|n]; cbn; [done..|]. apply IH. Qed.

Lemma tget_short_app k t rest : tget (TShort k t) (k ++ rest) = tget t rest.
Proof. cbn. rewrite take_app_length, drop_app_length, bool_decide_true by done. done. Qed.

Lemma tget_short_self k t : tget (TShort k t) k = tget t [].
Proof. pose proof (tget_short_app k t []) as H. rewrite app_nil_r in H. done. Qed.

Lemma tget_short_inv k t key : tget (TShort k t) key <> [] -> exists rest, key = k ++ rest /\ tget t rest <> [].
Proof.
  cbn. case_bool_decide as E; [|done]. intros H. exists (drop (length k) key). split; [|done].
  rewrite E at 1. rewrite take_drop. done.
Qed.

(** ** Keys *)
Lemma term_key_nil : ~ term_key [].
Proof. intros (p & _ & E). destruct p; discriminate E. Qed.

Lemma term_key_cons x k : term_key (x :: k) -> (is_nibble x /\ term_key k) \/ (x = terminator /\ k = []).
Proof.
  intros ([|y p] & Hp & E); cbn in E; injection E as -> ->; [right; done|left].
  inversion Hp; subst. split; [done|]. exists p. done.
Qed.

Lemma term_key_nibble x k : is_nibble x -> term_key k -> term_key (x :: k).
Proof. intros Hx (p & Hp & ->). exists (x :: p). split; [constructor; done|done]. Qed.

Lemma term_key_app p k : nibbles p -> term_key k -> term_key (p ++ k).
Proof. intros Hp (q & Hq & ->). exists (p ++ q). split; [apply Forall_app; done|apply app_assoc]. Qed.

Lemma term_key_app_inv p k : nibbles p -> term_key (p ++ k) -> term_key k.
Proof.
  induction p as [|x p IH]; intros Hp H; [done|]. inversion Hp as [|?? Hx Hp']; subst. cbn in H.
  destruct (term_key_cons _ _ H) as [[_ Hk]|[-> E]]; [by apply IH|]. unfold is_nibble, terminator in Hx. lia.
Qed.

Lemma term_single : term_key [terminator].
Proof. exists []. done. Qed.

(** No whole key is the beginning of another. *)
Lemma term_prefix p k : nibbles p -> term_key ((p ++ [terminator]) ++ k) -> k = [].
Proof.
  induction p as [|x p IH]; intros Hp H; cbn in H.
  - destruct (term_key_cons _ _ H) as [[Hx _]|[_ E]]; [unfold is_nibble, terminator in Hx; lia|done].
  - inversion Hp as [|?? Hx Hp']; subst. destruct (term_key_cons _ _ H) as [[_ Hk]|[-> _]]; [by apply IH|].
    unfold is_nibble, terminator in Hx. lia.
Qed.

(** ** A well-formed tree holds something *)
Lemma wf_index ts i t : wfN (TFull ts) -> ts !! i = Some t -> t <> TNil ->
  (forall t, wfN t -> exists k, term_key k /\ tget t k <> []) ->
  exists k, term_key (Z.of_nat i :: k) /\ tget (TFull ts) (Z.of_nat i :: k) <> [].
Proof.
  intros W Hi Hn IH. inversion W as [| |? Hl Hc Hv _]; subst. apply lookup_lt_Some in Hi as Hlt. rewrite Hl in Hlt.
  destruct (decide (i = 16%nat)) as [->|Hne].
  - destruct (Hv t Hi) as [->|(v & -> & Hv')]; [done|]. exists []. split; [apply term_single|]. rewrite tget_full.
    rewrite Nat2Z.id, Hi. done.
  - destruct (IH t) as (k & Hk & Hg); [eapply Hc; [done|done|lia]|]. exists k.
    split; [apply term_key_nibble; [unfold is_nibble; lia|done]|]. rewrite tget_full, Nat2Z.id, Hi. done.
Qed.

Lemma wf_inhabited t : wfN t -> exists k, term_key k /\ tget t k <> [].
Proof.
  induction t as [|v|k0 t IH|ts IH] using tree_induction; intros W; inversion W as [p v' Hp Hv|p ts' Hp Hne W'|? Hl Hc Hv H2]; subst.
  - exists (p ++ [terminator]). split; [exists p; done|]. rewrite tget_short_self. done.
  - destruct (IH W') as (l & Hk & Hg). exists (k0 ++ l). split; [apply term_key_app; done|]. rewrite tget_short_app. done.
  - destruct H2 as (i & j & t & u & Hij & Hi & Hj & Ht & Hu). apply lookup_lt_Some in Hi as Hlt. rewrite Hl in Hlt.
    destruct (decide (i = 16%nat)) as [->|Hne].
    + destruct (Hv t Hi) as [->|(v & -> & Hv')]; [done|]. exists [terminator]. split; [apply term_single|].
      rewrite tget_full. change (Z.to_nat terminator) with 16%nat. rewrite Hi. done.
    + rewrite Forall_lookup in IH. destruct (IH i t Hi) as (k & Hk & Hg); [eapply Hc; [done|done|lia]|].
      exists (Z.of_nat i :: k). split; [apply term_key_nibble; [unfold is_nibble; lia|done]|].
      rewrite tget_full, Nat2Z.id, Hi. done.
Qed.

(** The keys of a full node do not all begin alike. *)
Lemma full_diverges ts : wfN (TFull ts) -> exists x y k l,
  x <> y /\ term_key (x :: k) /\ term_key (y :: l) /\ tget (TFull ts) (x :: k) <> [] /\ tget (TFull ts) (y :: l) <> [].
Proof.
  intros W. inversion W as [| |? Hl Hc Hv H2]; subst. destruct H2 as (i & j & t & u & Hij & Hi & Hj & Ht & Hu).
  destruct (wf_index _ i t W Hi Ht wf_inhabited) as (k & Hk & Hg).
  destruct (wf_index _ j u W Hj Hu wf_inhabited) as (l & Hk' & Hg').
  exists (Z.of_nat i), (Z.of_nat j), k, l. split_and!; [lia|done..].
Qed.

(** ** A tree is determined by what is read from it *)
Lemma short_keys k t key : tget (TShort k t) key <> [] -> take (length k) key = k.
Proof. intros H. destruct (tget_short_inv _ _ _ H) as (rest & -> & _). apply take_app_length. Qed.

Definition same (t u : tree) : Prop := forall k, term_key k -> tget t k = tget u k.

Lemma same_sym t u : same t u -> same u t.
Proof. intros H k Hk. symmetry. by apply H. Qed.

(** A short node above another tree cannot hold the keys of a full node. *)
Lemma short_full k t ts : k <> [] -> wfN (TFull ts) -> ~ same (TShort k t) (TFull ts).
Proof.
  intros Hk W H. destruct (full_diverges ts W) as (x & y & a & b & Hxy & Ha & Hb & Ga & Gb).
  rewrite <- H in Ga, Gb by done. apply short_keys in Ga, Gb. destruct k as [|z k]; [done|]. cbn in Ga, Gb. congruence.
Qed.

Lemma wfN_short_key k t : wfN (TShort k t) -> k <> [].
Proof. inversion 1; subst; [|done]. intros E. by apply app_nil in E as [_ E]. Qed.

Lemma same_tail p t u : nibbles p -> same (TShort p t) (TShort p u) -> same t u.
Proof. intros Hp H k Hk. specialize (H (p ++ k) (term_key_app _ _ Hp Hk)). rewrite !tget_short_app in H. done. Qed.

(** The key of a short node above a full node is the longest common beginning. *)
Lemma ext_prefix p ts k u : nibbles p -> wfN (TFull ts) -> wfN (TShort k u) -> same (TShort p (TFull ts)) (TShort k u) ->
  exists rest, p = k ++ rest.
Proof.
  intros Hp W Wk H. destruct (full_diverges ts W) as (x & y & a & b & Hxy & Ha & Hb & Ga & Gb).
  assert (take (length k) (p ++ x :: a) = k) as H1.
  { apply (short_keys k u). rewrite <- H by (apply term_key_app; done). rewrite tget_short_app. done. }
  assert (take (length k) (p ++ y :: b) = k) as H2.
  { apply (short_keys k u). rewrite <- H by (apply term_key_app; done). rewrite tget_short_app. done. }
  destruct (decide (length k <= length p)%nat) as [Hle|Hgt].
  - rewrite take_app_le in H1 by done. exists (drop (length k) p). rewrite <- H1 at 1. rewrite take_drop. done.
  - exfalso. rewrite take_app_ge in H1, H2 by lia. destruct (length k - length p)%nat as [|n] eqn:E; [lia|].
    cbn in H1, H2. rewrite <- H2 in H1. apply app_inv_head in H1. congruence.
Qed.

Lemma leaf_single p v k t : nibbles p -> v <> [] -> wfN t -> same (TShort (p ++ [terminator]) (TVal v)) t ->
  term_key k -> tget t k <> [] -> k = p ++ [terminator].
Proof.
  intros Hp Hv W H Hk Hg. rewrite <- H in Hg by done. destruct (tget_short_inv _ _ _ Hg) as (rest & -> & _).
  rewrite (term_prefix p rest); [apply app_nil_r|done|done].
Qed.

Lemma leaf_ext p v q ts : nibbles p -> v <> [] -> nibbles q -> wfN (TFull ts) ->
  ~ same (TShort (p ++ [terminator]) (TVal v)) (TShort q (TFull ts)).
Proof.
  intros Hp Hv Hq W H. destruct (full_diverges ts W) as (x & y & a & b & Hxy & Ha & Hb & Ga & Gb).
  assert (forall k, term_key k -> tget (TFull ts) k <> [] -> q ++ k = p ++ [terminator]) as Hs.
  { intros k Hk Hg. assert (tget (TShort q (TFull ts)) (q ++ k) <> []) as G by (rewrite tget_short_app; done).
    rewrite <- H in G by (apply term_key_app; done). destruct (tget_short_inv _ _ _ G) as (rest & E & _).
    assert (term_key ((p ++ [terminator]) ++ rest)) as Ht by (rewrite <- E; apply term_key_app; done).
    rewrite (term_prefix p rest Hp Ht), app_nil_r in E. done. }
  pose proof (Hs _ Ha Ga) as E1. rewrite <- (Hs _ Hb Gb) in E1. apply app_inv_head in E1. congruence.
Qed.

Lemma same_child ts us i t u : length ts = 17%nat -> ts !! i = Some t -> us !! i = Some u -> (i < 16)%nat ->
  same (TFull ts) (TFull us) -> same t u.
Proof.
  intros Hl Ht Hu Hi H k Hk. specialize (H (Z.of_nat i :: k)). rewrite !tget_full, Nat2Z.id, Ht, Hu in H.
  apply H, term_key_nibble; [unfold is_nibble; lia|done].
Qed.

Lemma same_nil t : wfN t -> ~ same TNil t.
Proof. intros W H. destruct (wf_inhabited t W) as (k & Hk & Hg). rewrite <- H in Hg by done. done. Qed.

Lemma tree_canonical t u : wfN t -> wfN u -> same t u -> t = u.
Proof.
  revert u. induction t as [|v0|k t IH|ts IH] using tree_induction; intros u W Wu H;
    inversion W as [p v Hp Hv|p ts' Hp Hne W'|? Hl Hc Hv H2]; subst;
    inversion Wu as [q w Hq Hw|q us Hq Hqe Wu'|us Hl' Hc' Hv' H2']; subst.
  - assert (p ++ [terminator] = q ++ [terminator]) as E.
    { eapply (leaf_single q w); [done|done|exact W|by apply same_sym|exists p; done|rewrite tget_short_self; done]. }
    specialize (H (q ++ [terminator])). rewrite E, !tget_short_self in H. rewrite E. cbn in H. rewrite H; [done|exists q; done].
  - by apply leaf_ext in H.
  - by apply short_full in H; [|intros E; apply app_nil in E as [_ E]|].
  - apply same_sym in H. by apply leaf_ext in H.
  - destruct (ext_prefix k ts' q (TFull us) Hp W' Wu H) as (r1 & E1).
    destruct (ext_prefix q us k (TFull ts') Hq Wu' W (same_sym _ _ H)) as (r2 & E2).
    assert (k = q) as <-.
    { apply (f_equal length) in E1 as L1. apply (f_equal length) in E2 as L2. rewrite length_app in L1, L2.
      destruct r1; [|cbn in *; lia]. rewrite app_nil_r in E1. done. }
    rewrite (IH (TFull us)); [done|done|done|]. by apply (same_tail k).
  - by apply short_full in H.
  - apply same_sym in H. by apply short_full in H; [|intros E; apply app_nil in E as [_ E]|].
  - apply same_sym in H. by apply short_full in H.
  - f_equal. apply list_eq. intros i. destruct (decide (i < 17)%nat) as [Hi|Hi].
    + destruct (lookup_lt_is_Some_2 ts i) as [t Ht]; [lia|]. destruct (lookup_lt_is_Some_2 us i) as [u Hu]; [lia|].
      rewrite Ht, Hu. f_equal. destruct (decide (i = 16%nat)) as [->|Hne].
      * specialize (H [terminator] term_single). rewrite !tget_full in H. change (Z.to_nat terminator) with 16%nat in H.
        rewrite Ht, Hu in H. destruct (Hv t Ht) as [->|(a & -> & ?)], (Hv' u Hu) as [->|(b & -> & ?)]; cbn in H; congruence.
      * assert (same t u) as Hs by (eapply same_child; [exact Hl|done|done|lia|done]).
        rewrite Forall_lookup in IH.
        destruct (decide (t = TNil)) as [->|Htn], (decide (u = TNil)) as [->|Hun]; [done|..].
        -- apply same_nil in Hs; [done|]. eapply Hc'; [done|done|lia].
        -- apply same_sym, same_nil in Hs; [done|]. eapply Hc; [done|done|lia].
        -- apply (IH i t Ht); [|(eapply Hc + eapply Hc'); [done|done|lia]|done]. eapply Hc; [done|done|lia].
    + rewrite !lookup_ge_None_2 by lia. done.
Qed.

(** ** Where a key leads

    A whole key is read in a well-formed tree, and what is left of it in a part
    of that tree: nothing is left where the value is. *)
Definition value_slot (t : tree) : Prop := t = TNil \/ exists v, t = TVal v /\ v <> [].

Inductive slot : tree -> bytes -> Prop :=
  | slot_end t : value_slot t -> slot t []
  | slot_more t key : term_key key -> wf t -> slot t key.

Lemma wfN_not_nil t : wfN t -> t <> TNil.
Proof. by intros W ->; inversion W. Qed.

Lemma slot_short k t rest : slot (TShort k t) (k ++ rest) -> slot t rest /\ k <> [].
Proof.
  intros H. assert (wfN (TShort k t) /\ term_key (k ++ rest)) as [W Hk].
  { inversion H as [? [?|(v & ? & ?)]|? ? Hk [?|W]]; subst; try done. }
  split; [|by eapply wfN_short_key]. inversion W as [p v Hp Hv|p ts Hp Hne W'|]; subst.
  - rewrite (term_prefix p rest) by done. constructor. right. eauto.
  - apply slot_more; [by eapply term_key_app_inv|by right].
Qed.

Lemma slot_full ts key : slot (TFull ts) key -> exists i rest t,
  key = i :: rest /\ 0 <= i < 17 /\ ts !! Z.to_nat i = Some t /\ slot t rest /\ length ts = 17%nat.
Proof.
  intros H. assert (wfN (TFull ts) /\ term_key key) as [W Hk].
  { inversion H as [? [?|(v & ? & ?)]|? ? Hk [?|W]]; subst; try done. }
  inversion W as [| |? Hl Hc Hv H2]; subst. destruct key as [|i rest]; [by apply term_key_nil in Hk|]. exists i, rest.
  destruct (term_key_cons _ _ Hk) as [[Hi Hr]|[-> ->]].
  - unfold is_nibble in Hi. destruct (lookup_lt_is_Some_2 ts (Z.to_nat i)) as [t Ht]; [lia|]. exists t.
    split_and!; [done|lia|lia|done| |done]. apply slot_more; [done|].
    destruct (decide (t = TNil)); [by left|right]. eapply Hc; [done|done|lia].
  - destruct (lookup_lt_is_Some_2 ts 16%nat) as [t Ht]; [lia|]. exists t. unfold terminator.
    split_and!; [done|lia|lia|done| |done]. constructor. apply Hv. done.
Qed.

(** ** Parts of short nodes *)
Definition tlone (r : bytes) (t : tree) : tree := match r with [] => t | _ => TShort r t end.

(** What may be the child of a full node at a position. *)
Definition child_ok (i : Z) (c : tree) : Prop := (is_nibble i /\ wfN c) \/ (i = terminator /\ exists v, c = TVal v /\ v <> []).

Lemma child_ok_range i c : child_ok i c -> 0 <= i < 17 /\ c <> TNil.
Proof.
  intros [[Hi W]|[-> (v & -> & Hv)]]; [|done]. split; [unfold is_nibble in Hi; lia|by apply wfN_not_nil].
Qed.

Lemma tget_tlone r t k : tget (tlone r t) k = tget (TShort r t) k.
Proof. destruct r; [|done]. cbn. rewrite take_0, drop_0, bool_decide_true by done. done. Qed.

Lemma tget_short_common p r t k : tget (TShort (p ++ r) t) (p ++ k) = tget (TShort r t) k.
Proof.
  cbn. rewrite length_app, <- drop_drop, drop_app_length.
  assert (take (length p + length r) (p ++ k) = p ++ take (length r) k) as -> by (rewrite take_app_add; done).
  assert (bool_decide (p ++ r = p ++ take (length r) k) = bool_decide (r = take (length r) k)) as ->; [|done].
  apply bool_decide_ext. split; [apply app_inv_head|congruence].
Qed.

Lemma tget_short_cons i r t x k : tget (TShort (i :: r) t) (x :: k) = if i =? x then tget (tlone r t) k else [].
Proof.
  destruct (Z.eqb_spec i x) as [->|Hne]; [rewrite tget_tlone; apply (tget_short_common [x])|].
  cbn. rewrite bool_decide_false by congruence. done.
Qed.

Lemma short_parts p i r t : wfN (TShort (p ++ i :: r) t) -> nibbles p /\ child_ok i (tlone r t).
Proof.
  inversion 1 as [q v Hq Hv E|q ts Hq Hne W E|]; subst.
  - assert (term_key (p ++ i :: r)) as Hk by (exists q; done). clear H.
    assert (nibbles p /\ term_key (i :: r)) as [Hp Hk'].
    { clear E Hq. induction p as [|x p IH]; [done|]. cbn in Hk. destruct (term_key_cons _ _ Hk) as [[Hx Hk']|[_ E]].
      - destruct (IH Hk'). split; [constructor; done|done].
      - by apply app_nil in E as [_ E]. }
    split; [done|]. destruct (term_key_cons _ _ Hk') as [[Hi (r' & Hr & ->)]|[-> ->]].
    + left. split; [done|]. unfold tlone. destruct (r' ++ [terminator]) eqn:E'; [by apply app_nil in E' as [_ E']|].
      rewrite <- E'. by constructor.
    + right. eauto.
  - apply Forall_app in Hq as [Hp Hq]. inversion Hq as [|?? Hi Hr]; subst. split; [done|]. left. split; [done|].
    destruct r as [|y r]; [done|]. by constructor.
Qed.

Lemma leaf_get key k v : term_key key -> term_key k -> tget (TShort key (TVal v)) k = if decide (k = key) then v else [].
Proof.
  intros (p & Hp & ->) Hk. destruct (decide _) as [->|Hne]; [apply tget_short_self|].
  cbn. case_bool_decide as E; [|done]. exfalso. apply Hne.
  assert (k = (p ++ [terminator]) ++ drop (length (p ++ [terminator])) k) as Ek by (rewrite E at 1; rewrite take_drop; done).
  rewrite Ek in Hk. apply term_prefix in Hk; [|done]. rewrite Hk, app_nil_r in Ek. done.
Qed.

(** A full node with two children, as inserting makes it. *)
Definition two (i j : Z) (c d : tree) : list tree := <[Z.to_nat j := d]> (<[Z.to_nat i := c]> (replicate 17 TNil)).

Lemma two_lookup i j c d n : 0 <= i < 17 -> 0 <= j < 17 -> i <> j -> (n < 17)%nat ->
  two i j c d !! n = Some (if decide (n = Z.to_nat j) then d else if decide (n = Z.to_nat i) then c else TNil).
Proof.
  intros Hi Hj Hij Hn. unfold two. destruct (decide (n = Z.to_nat j)) as [->|Hnj].
  - rewrite list_lookup_insert_eq by (rewrite length_insert, length_replicate; lia). done.
  - rewrite list_lookup_insert_ne by done. destruct (decide (n = Z.to_nat i)) as [->|Hni].
    + rewrite list_lookup_insert_eq by (rewrite length_replicate; lia). done.
    + rewrite list_lookup_insert_ne by done. apply lookup_replicate. done.
Qed.

Lemma two_wf i j c d : child_ok i c -> child_ok j d -> i <> j -> wfN (TFull (two i j c d)).
Proof.
  intros Hc Hd Hij. destruct (child_ok_range _ _ Hc) as [Hi Hc0]. destruct (child_ok_range _ _ Hd) as [Hj Hd0].
  assert (length (two i j c d) = 17%nat) as Hl by (unfold two; rewrite !length_insert, length_replicate; done).
  constructor; [done|..].
  - intros n t Hn Ht Hlt. rewrite two_lookup in Hn by lia. injection Hn as <-.
    destruct (decide (n = Z.to_nat j)); [|destruct (decide (n = Z.to_nat i)); [|done]].
    + destruct Hd as [[_ W]|[-> _]]; [done|]. unfold terminator in *. lia.
    + destruct Hc as [[_ W]|[-> _]]; [done|]. unfold terminator in *. lia.
  - intros t Hn. rewrite two_lookup in Hn by lia. injection Hn as <-.
    destruct (decide (16%nat = Z.to_nat j)); [|destruct (decide (16%nat = Z.to_nat i)); [|by left]].
    + destruct Hd as [[Hn _]|[_ Hv]]; [unfold is_nibble in Hn; lia|by right].
    + destruct Hc as [[Hn _]|[_ Hv]]; [unfold is_nibble in Hn; lia|by right].
  - exists (Z.to_nat i), (Z.to_nat j), c, d. rewrite !two_lookup by lia.
    rewrite (decide_True (P := Z.to_nat j = _)), (decide_False (P := Z.to_nat i = Z.to_nat j)), decide_True by lia. split_and!; [lia|done..].
Qed.

Lemma tget_two i j c d x k : 0 <= i < 17 -> 0 <= j < 17 -> i <> j -> 0 <= x < 17 ->
  tget (TFull (two i j c d)) (x :: k) = if j =? x then tget d k else if i =? x then tget c k else [].
Proof.
  intros Hi Hj Hij Hx. rewrite tget_full, two_lookup by lia.
  destruct (Z.eqb_spec j x), (decide (Z.to_nat x = Z.to_nat j)); try lia; [done|].
  destruct (Z.eqb_spec i x), (decide (Z.to_nat x = Z.to_nat i)); try lia; done.
Qed.

(** ** Changing a tree *)
Lemma short_off k t key : take (length k) key <> k -> tget (TShort k t) key = [].
Proof. intros H. cbn. rewrite bool_decide_false by congruence. done. Qed.

Lemma term_head k : term_key k -> exists x rest, k = x :: rest /\ 0 <= x < 17.
Proof.
  destruct k as [|x k]; intros H; [by apply term_key_nil in H|]. exists x, k. split; [done|].
  destruct (term_key_cons _ _ H) as [[Hx _]|[-> _]]; [unfold is_nibble in Hx; lia|done].
Qed.

(** A new key that leaves a short node inside its key. *)
Lemma split_tree p i r t j q v : wfN (TShort (p ++ i :: r) t) -> term_key (p ++ j :: q) -> v <> [] -> i <> j ->
  wfN (tlone p (TFull (two i j (tlone r t) (tlone q (TVal v)))))
  /\ forall k, term_key k -> tget (tlone p (TFull (two i j (tlone r t) (tlone q (TVal v))))) k
       = if decide (k = p ++ j :: q) then v else tget (TShort (p ++ i :: r) t) k.
Proof.
  intros W Hk Hv Hij. destruct (short_parts _ _ _ _ W) as [Hp Hc].
  assert (wfN (TShort (p ++ j :: q) (TVal v))) as W' by (destruct Hk as (z & Hz & ->); by constructor).
  destruct (short_parts _ _ _ _ W') as [_ Hd]. pose proof (two_wf i j _ _ Hc Hd Hij) as Wf.
  apply child_ok_range in Hc as [Hi _], Hd as [Hj _]. split.
  { destruct p as [|y p]; [done|]. by constructor. }
  intros k Hkt. rewrite tget_tlone. destruct (decide (take (length p) k = p)) as [E|Hne].
  - assert (k = p ++ drop (length p) k) as Ek by (rewrite <- E at 1; rewrite take_drop; done).
    generalize dependent (drop (length p) k). intros k2 Ek. subst k. clear E. apply term_key_app_inv in Hkt, Hk; [|done..].
    rewrite tget_short_app, tget_short_common. destruct (term_head k2 Hkt) as (x & k3 & -> & Hx).
    rewrite tget_two by lia.
    assert (forall d : Decision (p ++ x :: k3 = p ++ j :: q), (if d then v else tget (TShort (i :: r) t) (x :: k3))
      = if decide (x :: k3 = j :: q) then v else tget (TShort (i :: r) t) (x :: k3)) as ->.
    { intros [E'|E']; destruct (decide (x :: k3 = j :: q)) as [E''|E'']; try done; [by apply app_inv_head in E'|by rewrite E'' in E']. }
    destruct (Z.eqb_spec j x) as [->|Hjx].
    + pose proof (leaf_get _ _ v Hk Hkt) as Hl. rewrite tget_short_cons, Z.eqb_refl in Hl. rewrite Hl.
      destruct (decide _); [done|]. rewrite tget_short_cons. destruct (Z.eqb_spec i x); [lia|done].
    + rewrite decide_False by congruence. rewrite tget_short_cons. done.
  - rewrite short_off by done. rewrite decide_False by (intros ->; apply Hne, take_app_length).
    rewrite short_off; [done|]. intros E. apply Hne. apply (f_equal (take (length p))) in E.
    rewrite take_take, take_app_length, Nat.min_l in E by (rewrite length_app; lia). done.
Qed.

Lemma slot_child i rest t : term_key (i :: rest) -> slot t rest -> t <> TNil -> child_ok i t.
Proof.
  intros Hk Hs Ht. destruct (term_key_cons _ _ Hk) as [[Hi Hr]|[-> ->]].
  - left. split; [done|]. inversion Hs as [? _ E|? ? _ [?|?]]; subst; [by apply term_key_nil in Hr|done|done].
  - right. inversion Hs as [? [?|Hv]|? ? Hr]; subst; [done|eauto|by apply term_key_nil in Hr].
Qed.

(** Another child at one position. *)
Lemma tget_full_insert ts i t x k : length ts = 17%nat -> 0 <= i < 17 -> 0 <= x < 17 ->
  tget (TFull (<[Z.to_nat i := t]> ts)) (x :: k) = if x =? i then tget t k else tget (TFull ts) (x :: k).
Proof.
  intros Hl Hi Hx. rewrite !tget_full. destruct (Z.eqb_spec x i) as [->|Hne].
  - rewrite list_lookup_insert_eq by lia. done.
  - rewrite list_lookup_insert_ne by lia. done.
Qed.

Lemma full_insert ts i t : wfN (TFull ts) -> child_ok i t -> wfN (TFull (<[Z.to_nat i := t]> ts)).
Proof.
  intros W Hc. inversion W as [| |? Hl H16 Hv H2]; subst. destruct (child_ok_range _ _ Hc) as [Hi Ht].
  constructor; [rewrite length_insert; done|..].
  - intros n u Hn Hu Hlt. destruct (decide (n = Z.to_nat i)) as [->|Hne].
    + rewrite list_lookup_insert_eq in Hn by lia. injection Hn as <-. destruct Hc as [[_ ?]|[-> _]]; [done|]. unfold terminator in Hlt. lia.
    + rewrite list_lookup_insert_ne in Hn by done. by apply (H16 n).
  - intros u Hn. destruct (decide (16%nat = Z.to_nat i)) as [E|Hne].
    + rewrite E, list_lookup_insert_eq in Hn by lia. injection Hn as <-. destruct Hc as [[Hni _]|[_ ?]]; [unfold is_nibble in Hni; lia|by right].
    + rewrite list_lookup_insert_ne in Hn by done. by apply Hv.
  - destruct H2 as (a & b & ta & tb & Hab & Ha & Hb & Hta & Htb).
    assert (forall n u, ts !! n = Some u -> u <> TNil -> exists u', <[Z.to_nat i := t]> ts !! n = Some u' /\ u' <> TNil) as Hkeep.
    { intros n u Hn Hu. destruct (decide (n = Z.to_nat i)) as [->|Hne].
      - exists t. rewrite list_lookup_insert_eq by lia. done.
      - exists u. rewrite list_lookup_insert_ne by done. done. }
    destruct (Hkeep _ _ Ha Hta) as (ua & Hua & Hna), (Hkeep _ _ Hb Htb) as (ub & Hub & Hnb). exists a, b, ua, ub. done.
Qed.

(** What is left of two whole keys at the same place. *)
Definition kin (key k : bytes) : Prop := (key = [] /\ k = []) \/ (term_key key /\ term_key k).

(** A tree that holds [v] under [key] and is otherwise the same. *)
Definition gets (key v : bytes) (t t' : tree) : Prop := forall k, kin key k -> tget t' k = if decide (k = key) then v else tget t k.
Definition put (key v : bytes) (t t' : tree) : Prop := slot t' key /\ gets key v t t'.

Lemma kin_app p key k : nibbles p -> kin (p ++ key) k -> term_key key -> take (length p) k = p ->
  exists k', k = p ++ k' /\ kin key k'.
Proof.
  intros Hp Hk Ht E. exists (drop (length p) k).
  assert (k = p ++ drop (length p) k) as Ek by (rewrite <- E at 1; rewrite take_drop; done). split; [done|].
  right. split; [done|]. destruct Hk as [[E' _]|[_ H]]; [apply app_nil in E' as [_ ->]; by apply term_key_nil in Ht|].
  rewrite Ek in H. by eapply term_key_app_inv.
Qed.

Lemma gets_full ts i rest v t t' : length ts = 17%nat -> term_key (i :: rest) -> ts !! Z.to_nat i = Some t -> gets rest v t t' ->
  gets (i :: rest) v (TFull ts) (TFull (<[Z.to_nat i := t']> ts)).
Proof.
  intros Hl Hk Hi Hg. destruct (term_head _ Hk) as (? & ? & [= <- <-] & Hr).
  intros k [[? _]|[_ Hkt]]; [done|]. destruct (term_head _ Hkt) as (x & k' & -> & Hx).
  rewrite tget_full_insert by done. destruct (Z.eqb_spec x i) as [->|Hne]; [|rewrite decide_False by congruence; done].
  rewrite Hg, tget_full, Hi.
  - destruct (decide (k' = rest)) as [->|Hne]; [rewrite decide_True by done; done|rewrite decide_False by congruence; done].
  - destruct (term_key_cons _ _ Hk) as [[Hni Hr']|[-> ->]], (term_key_cons _ _ Hkt) as [[Hni' Hk']|[E ->]]; subst;
      try (unfold is_nibble, terminator in *; lia); [by right|by left].
Qed.

Lemma put_full ts i rest v t t' : wfN (TFull ts) -> term_key (i :: rest) -> ts !! Z.to_nat i = Some t -> t' <> TNil ->
  put rest v t t' -> put (i :: rest) v (TFull ts) (TFull (<[Z.to_nat i := t']> ts)).
Proof.
  intros W Hk Hi Ht' [Hsl Hg]. inversion W as [| |? Hl _ _ _]; subst.
  split; [apply slot_more; [done|right; apply full_insert; [done|by eapply slot_child]]|]. by eapply gets_full.
Qed.

Lemma gets_short k rest v t t' : wfN (TShort k t) -> term_key (k ++ rest) -> gets rest v t t' ->
  gets (k ++ rest) v (TShort k t) (TShort k t').
Proof.
  intros W Hk Hg key [[E _]|[_ Hkt]]; [rewrite E in Hk; by apply term_key_nil in Hk|].
  destruct (decide (take (length k) key = k)) as [E|Hne].
  - assert (key = k ++ drop (length k) key) as Ek by (rewrite <- E at 1; rewrite take_drop; done).
    generalize dependent (drop (length k) key). intros k' ->. clear E. rewrite !tget_short_app, Hg.
    + destruct (decide (k' = rest)) as [->|Hne]; [rewrite decide_True by done; done|].
      rewrite decide_False; [done|]. intros E. by apply app_inv_head in E.
    + inversion W as [p w Hp Hw|p ts Hp Hne Wf|]; subst.
      * rewrite (term_prefix p rest), (term_prefix p k') by done. by left.
      * right. split; by eapply term_key_app_inv.
  - rewrite !short_off by done. rewrite decide_False; [done|]. intros ->. apply Hne, take_app_length.
Qed.

(** ** Joining nodes when something is deleted *)
Lemma tget_join a b t k : tget (TShort (a ++ b) t) k = tget (TShort a (TShort b t)) k.
Proof.
  destruct (decide (take (length a) k = a)) as [E|Hne].
  - assert (k = a ++ drop (length a) k) as -> by (rewrite <- E at 1; rewrite take_drop; done).
    rewrite tget_short_common, tget_short_app. done.
  - rewrite !short_off; [done|done|]. intros E. apply Hne. apply (f_equal (take (length a))) in E.
    rewrite take_take, take_app_length, Nat.min_l in E by (rewrite length_app; lia). done.
Qed.

Lemma wf_join a b t : nibbles a -> wfN (TShort b t) -> wfN (TShort (a ++ b) t).
Proof.
  intros Ha W. inversion W as [p w Hp Hw|p ts Hp Hne Wf|]; subst.
  - rewrite app_assoc. constructor; [by apply Forall_app|done].
  - constructor; [by apply Forall_app| |done]. intros E. by apply app_nil in E as [_ E].
Qed.

Definition kids (ts : list tree) : Prop :=
  length ts = 17%nat /\ forall i t, ts !! i = Some t -> t <> TNil -> child_ok (Z.of_nat i) t.

Lemma wf_kids ts : wfN (TFull ts) -> kids ts.
Proof.
  inversion 1 as [| |? Hl Hc Hv _]; subst. split; [done|]. intros i t Hi Ht. apply lookup_lt_Some in Hi as Hlt.
  destruct (decide (i = 16%nat)) as [->|Hne].
  - right. destruct (Hv t Hi) as [->|?]; done.
  - left. split; [unfold is_nibble; lia|]. eapply Hc; [done|done|lia].
Qed.

Lemma kids_wf ts i j t u : kids ts -> i <> j -> ts !! i = Some t -> ts !! j = Some u -> t <> TNil -> u <> TNil -> wfN (TFull ts).
Proof.
  intros [Hl Hc] Hij Hi Hj Ht Hu. constructor; [done|..].
  - intros n w Hn Hw Hlt. destruct (Hc n w Hn Hw) as [[_ ?]|[E _]]; [done|]. unfold terminator in E. lia.
  - intros w Hw. destruct (decide (w = TNil)) as [|Hn]; [by left|right].
    destruct (Hc _ w Hw Hn) as [[Hni _]|[_ ?]]; [unfold is_nibble in Hni; lia|done].
  - exists i, j, t, u. done.
Qed.

Lemma kids_insert ts i t : kids ts -> 0 <= i < 17 -> (t <> TNil -> child_ok i t) -> kids (<[Z.to_nat i := t]> ts).
Proof.
  intros [Hl Hc] Hi Ht. split; [rewrite length_insert; done|]. intros n u Hn Hu.
  destruct (decide (n = Z.to_nat i)) as [->|Hne].
  - rewrite list_lookup_insert_eq in Hn by lia. injection Hn as <-. rewrite Z2Nat.id by lia. auto.
  - rewrite list_lookup_insert_ne in Hn by done. by apply Hc.
Qed.

(** A full node with one child reads like a short one. *)
Lemma tget_single ts p c k : kids ts -> ts !! p = Some c -> (forall q u, ts !! q = Some u -> q <> p -> u = TNil) -> term_key k ->
  tget (TFull ts) k = tget (TShort [Z.of_nat p] c) k.
Proof.
  intros [Hl _] Hp Hu Hk. destruct (term_head _ Hk) as (x & rest & -> & Hx). rewrite tget_full, tget_short_cons. cbn [tlone].
  destruct (Z.eqb_spec (Z.of_nat p) x) as [<-|Hne]; [rewrite Nat2Z.id, Hp; done|].
  destruct (ts !! Z.to_nat x) as [u|] eqn:E; [|done]. rewrite (Hu _ _ E); [done|lia].
Qed.

(** ** The encoding of a tree

    A short or full node is a list of the references of its parts; inside
    another node it stands for itself when its encoding has less than 32 bytes,
    and is replaced by the hash of the encoding otherwise. *)
Section Encoding.
Context {K : KeccakLib}.

Definition close (v : ival) : ival :=
  let e := renc_iface v in if (length e <? 32)%nat then v else IBytes (keccak e).

Fixpoint tref (t : tree) : ival :=
  match t with
  | TNil => IBytes []
  | TVal v => IBytes v
  | TShort k t => close (ISlice [IBytes (hexToCompact k); tref t])
  | TFull ts => close (ISlice (map tref ts))
  end.

Definition titem (t : tree) : ival :=
  match t with
  | TNil => IBytes []
  | TVal v => IBytes v
  | TShort k t => ISlice [IBytes (hexToCompact k); tref t]
  | TFull ts => ISlice (map tref ts)
  end.

Definition tenc (t : tree) : bytes := renc_iface (titem t).

(** Short and full nodes. *)
Definition solid_tree (t : tree) : bool := match t with TShort _ _ | TFull _ => true | _ => false end.

Lemma tref_solid t : solid_tree t = true -> tref t = close (titem t).
Proof. destruct t; done. Qed.

End Encoding.
