(* ===== verification/TrieMap.v ===== *)
(** * The trie is a map

    How the nodes of Trie.v stand for a tree of TrieTree.v: hashes are hashes of
    what the database has for them, and cached hashes are those of the tree
    below.  On nodes that stand for a well-formed tree, reading gives what the
    tree holds, and inserting and deleting change the value of one key and keep
    the tree well-formed; the fuel of the operations is enough. *)
From S2P Require Import Prelude Rlp TrieCodec Trie TrieTree.
Local Open Scope Z_scope.

Section Represents.
Context {K : KeccakLib} (D : Resolver).

(** ** Trees in the database *)
Definition big (t : tree) : bool := negb (length (tenc t) <? 32)%nat.

(** How a tree is referred to in a node that was loaded, and its top node. *)
Definition loaded : nodeFlag := {| fl_hash := None; fl_dirty := false |}.

Fixpoint refn (t : tree) : node :=
  match t with
  | TNil => nilNode
  | TVal v => valueNode v
  | TShort k u => if big t then hashNode (keccak (tenc t)) else shortNode k (refn u) loaded
  | TFull ts => if big t then hashNode (keccak (tenc t)) else fullNode (map refn ts) loaded
  end.

Definition top (fl : nodeFlag) (t : tree) : node :=
  match t with
  | TNil => nilNode
  | TVal v => valueNode v
  | TShort k u => shortNode k (refn u) fl
  | TFull ts => fullNode (map refn ts) fl
  end.

Lemma refn_solid t : solid_tree t = true -> refn t = if big t then hashNode (keccak (tenc t)) else top loaded t.
Proof. destruct t; done. Qed.

(** The trees that a tree refers to by their hashes. *)
Fixpoint refs (t : tree) : list tree :=
  match t with
  | TNil | TVal _ => []
  | TShort k u => if big t then [t] else refs u
  | TFull ts => if big t then [t] else concat (map refs ts)
  end.

Definition below (t : tree) : list tree :=
  match t with
  | TNil | TVal _ => []
  | TShort k u => refs u
  | TFull ts => concat (map refs ts)
  end.

Lemma refs_solid t : solid_tree t = true -> refs t = if big t then [t] else below t.
Proof. destruct t; done. Qed.

Definition from_db (t : tree) : node := top {| fl_hash := Some (keccak (tenc t)); fl_dirty := false |} t.

(** A tree that can be loaded as a whole. *)
Inductive stored : tree -> Prop :=
  | stored_intro t : solid_tree t = true -> D (keccak (tenc t)) = Ret (Some (from_db t)) ->
      (forall u, u ∈ below t -> stored u) -> stored t.

(** ** Nodes that stand for a tree

    The hash of a tree is that of its encoding; only the root may be hashed when
    it is small.  What is marked as clean, other than small nodes in the one
    above them, is in the database. *)
Definition hash_ok (root : bool) (h : bytes) (t : tree) : Prop := h = keccak (tenc t) /\ (root = false -> big t = true).

Definition flag_ok (root : bool) (fl : nodeFlag) (t : tree) : Prop :=
  (forall h, fl_hash fl = Some h -> hash_ok root h t) /\ (fl_dirty fl = false -> root || big t = true -> stored t).

Definition solid (n : node) : bool := match n with shortNode _ _ _ | fullNode _ _ => true | _ => false end.

Inductive repr : bool -> node -> tree -> Prop :=
  | repr_nil b : repr b nilNode TNil
  | repr_value b v : repr b (valueNode v) (TVal v)
  | repr_short b k n t fl : repr false n t -> flag_ok b fl (TShort k t) -> repr b (shortNode k n fl) (TShort k t)
  | repr_full b ns ts fl : Forall2 (repr false) ns ts -> flag_ok b fl (TFull ts) -> repr b (fullNode ns fl) (TFull ts)
  | repr_hash b h t : hash_ok b h t -> stored t -> repr b (hashNode h) t.

Lemma flag_loaded t : big t = false -> flag_ok false loaded t.
Proof. intros E. split; [done|]. intros _. by rewrite E. Qed.

Lemma repr_refn t : (forall u, u ∈ refs t -> stored u) -> repr false (refn t) t.
Proof.
  induction t as [|v|k t IH|ts IH] using tree_induction; intros H; [constructor|constructor|..]; rewrite refn_solid by done;
    rewrite refs_solid in H by done; destruct (big _) eqn:E;
    try (constructor; [split; [done|intros _; exact E]|apply H, list_elem_of_singleton; done]); (constructor; [|by apply flag_loaded]).
  - by apply IH.
  - cbn [below] in H. clear E. induction IH as [|t ts Ht Hts IH']; cbn; constructor.
    + apply Ht. intros u Hu. apply H. cbn. apply elem_of_app. by left.
    + apply IH'. intros u Hu. apply H. cbn. apply elem_of_app. by right.
Qed.

Lemma stored_top b t : stored t -> (b = false -> big t = true) -> repr b (from_db t) t.
Proof.
  intros Hst Hb. assert (flag_ok b {| fl_hash := Some (keccak (tenc t)); fl_dirty := false |} t) as Hf.
  { split; [|done]. intros h [= <-]. done. }
  inversion Hst as [? Hs Hd Hsub]; subst. destruct t as [|v|k t|ts]; try done; constructor; try done.
  - apply repr_refn. done.
  - cbn [below] in Hsub. clear - Hsub. induction ts as [|t ts IH]; cbn; constructor.
    + apply repr_refn. intros u Hu. apply Hsub. cbn. apply elem_of_app. by left.
    + apply IH. intros u Hu. apply Hsub. cbn. apply elem_of_app. by right.
Qed.

Context {KL : KeccakLaws K}.

(** Induction: a hash counts as the node that is loaded for it. *)
Section Induction.
Variable P : bool -> node -> tree -> Prop.
Hypothesis Pnil : forall b, P b nilNode TNil.
Hypothesis Pvalue : forall b v, P b (valueNode v) (TVal v).
Hypothesis Pshort : forall b k n t fl, repr false n t -> P false n t -> flag_ok b fl (TShort k t) ->
  P b (shortNode k n fl) (TShort k t).
Hypothesis Pfull : forall b ns ts fl, Forall2 (repr false) ns ts -> Forall2 (P false) ns ts -> flag_ok b fl (TFull ts) ->
  P b (fullNode ns fl) (TFull ts).
Hypothesis Phash : forall b h n t, D (BytesToHash h) = Ret (Some n) -> solid n = true -> repr b n t -> P b n t ->
  hash_ok b h t -> P b (hashNode h) t.

Lemma repr_by_hash b h t : hash_ok b h t -> stored t -> (forall n, solid n = true -> repr b n t -> P b n t) -> P b (hashNode h) t.
Proof.
  intros [-> Hb] Hst HP. pose proof (stored_top b t Hst Hb) as Hr. inversion Hst as [? Hs Hd _]; subst.
  assert (solid (from_db t) = true) as Hsol by (destruct t; done).
  eapply Phash; [|exact Hsol|exact Hr|by apply HP|done]. rewrite BytesToHash_id by apply keccak_length. done.
Qed.

Lemma repr_induction b n t : repr b n t -> P b n t.
Proof.
  revert b n. induction t as [|v|k t IH|ts IH] using tree_induction; intros b n H.
  - inversion H as [| | | |? h ? ? Hst]; subst; [done|]. by inversion Hst.
  - inversion H as [| | | |? h ? ? Hst]; subst; [done|]. by inversion Hst.
  - assert (forall n, solid n = true -> repr b n (TShort k t) -> P b n (TShort k t)) as HP.
    { intros m Hm Hr. inversion Hr as [| |? ? ? ? ? Hn Hf| |]; subst; [|done]. apply Pshort; [done|by apply IH|done]. }
    inversion H as [| |? ? ? ? ? Hn Hf| |? h ? Hh Hst]; subst; [by apply HP|by eapply repr_by_hash].
  - assert (forall n, solid n = true -> repr b n (TFull ts) -> P b n (TFull ts)) as HP.
    { intros m Hm Hr. inversion Hr as [| | |? ns ? ? Hn Hf|]; subst; [|done]. apply Pfull; [done| |done].
      clear - Hn IH. revert ns Hn. induction IH as [|t ts Ht Hts IH']; intros ns Hn; inversion Hn; subst; constructor; eauto. }
    inversion H as [| | |? ns ? ? Hn Hf|? h ? Hh Hst]; subst; [by apply HP|by eapply repr_by_hash].
Qed.
End Induction.

Lemma flag_new b t : flag_ok b newFlag t.
Proof. done. Qed.

Lemma repr_shape b n t : repr b n t -> match n, t with
  | nilNode, TNil | valueNode _, TVal _ | shortNode _ _ _, TShort _ _ | fullNode _ _, TFull _ => True
  | hashNode _, (TShort _ _ | TFull _) => True
  | _, _ => False
  end.
Proof. induction 1 as [| | | |b h n t Hd Hs H IH Hh] using repr_induction; try done. destruct n; try done; destruct t; done. Qed.

Lemma repr_nil_inv b n : repr b n TNil -> n = nilNode.
Proof. intros H. apply repr_shape in H. destruct n; done. Qed.

Lemma repr_resolve b n t : repr b n t -> exists n', Trie_resolve D n = Ret (Ok n') /\ repr b n' t /\ (solid_tree t = true -> solid n' = true).
Proof.
  destruct 1 as [| | | |b h t [-> Hb] Hst]; try (eexists; split; [reflexivity|]; split; [by constructor|done]).
  exists (from_db t). unfold Trie_resolve, Trie_resolveHash. rewrite BytesToHash_id by apply keccak_length.
  pose proof (stored_top b t Hst Hb). inversion Hst as [? Hs Hd _]; subst. rewrite Hd. split_and!; [done|done|]. destruct t; done.
Qed.

(** ** Reading *)
Lemma prefix_test (k key : bytes) :
  (length key <? length k)%nat || negb (bool_decide (k = take (length k) key)) = negb (bool_decide (k = take (length k) key)).
Proof.
  destruct (Nat.ltb_spec (length key) (length k)) as [Hlt|]; [|done]. rewrite bool_decide_false; [done|].
  intros E. apply (f_equal length) in E. rewrite length_take in E. lia.
Qed.

(** The fuel that a node needs: two units for each nibble of the key. *)
Definition need (n : node) (key : bytes) : nat :=
  (2 * length key + match n with hashNode _ => 2 | _ => 1 end)%nat.

Lemma need_drop n (k key : bytes) : k <> [] -> (length k <= length key)%nat -> (need n (drop (length k) key) <= 2 * length key)%nat.
Proof. intros Hk Hl. unfold need. rewrite length_drop. destruct k; [done|]. cbn [length] in *. destruct n; lia. Qed.

Lemma need_solid n (key : bytes) : solid n = true -> need n key = (2 * length key + 1)%nat.
Proof. destruct n; done. Qed.

Lemma resolveHash_ok h n : D (BytesToHash h) = Ret (Some n) -> Trie_resolveHash D h = Ret (Ok n).
Proof. intros E. unfold Trie_resolveHash. rewrite E. done. Qed.

Lemma child_at {A} (l : list A) i x : l !! Z.to_nat i = Some x -> 0 <= i -> slice_get l i = Ret x.
Proof. intros H Hi. unfold slice_get. rewrite bool_decide_true, H by done. done. Qed.

Lemma repr_children ns ts i t : Forall2 (repr false) ns ts -> ts !! i = Some t ->
  exists n, ns !! i = Some n /\ repr false n t.
Proof. intros H Ht. destruct (Forall2_lookup_r _ _ _ _ _ H Ht) as (n & Hn & Hr). eauto. Qed.

Lemma repr_insert_child ns ts i n t : Forall2 (repr false) ns ts -> repr false n t ->
  Forall2 (repr false) (<[i := n]> ns) (<[i := t]> ts).
Proof. intros. by apply Forall2_insert. Qed.

Lemma tryGet_ok b n t : repr b n t -> forall key fuel, slot t key -> (need n key <= fuel)%nat ->
  exists n' did, Trie_tryGet D fuel n key = Ret (Ok (tget t key, n', did)) /\ repr b n' t.
Proof.
  induction 1 as [b|b v|b k n t fl Hr IH Hf|b ns ts fl Hr IH Hf|b h n t Hd Hs Hr IH Hh] using repr_induction;
    intros key fuel Hsl Hfu; destruct fuel as [|fuel]; try (unfold need in Hfu; lia); cbn [Trie_tryGet].
  - exists nilNode, false. split; [done|constructor].
  - exists (valueNode v), false. split; [done|constructor].
  - rewrite prefix_test. cbn [tget]. case_bool_decide as E; cbn [negb].
    + assert (key = k ++ drop (length k) key) as Ek by (rewrite E at 1; rewrite take_drop; done).
      rewrite Ek in Hsl. apply slot_short in Hsl as [Hsl Hk].
      assert (length k <= length key)%nat as Hl by (rewrite Ek, length_app; lia).
      destruct (IH (drop (length k) key) fuel Hsl) as (n' & did & E' & Hr').
      { pose proof (need_drop n k key Hk Hl). unfold need in Hfu. lia. }
      rewrite (TM_bind_Ok _ _ _ E'). eexists _, did. split; [reflexivity|]. destruct did; by constructor.
    + exists (shortNode k n fl), false. split; [done|by constructor].
  - apply slot_full in Hsl as (i & rest & t & -> & Hi & Ht & Hsl & _).
    destruct (Forall2_lookup_r _ _ _ _ _ IH Ht) as (n & Hn & IHn).
    destruct (IHn rest fuel Hsl) as (n' & did & E' & Hr').
    { unfold need in *. cbn [length] in Hfu. destruct n; lia. }
    rewrite (child_at (i :: rest) 0 i) by done. cbn [liftT mbind outcome_bind TM_bind]. rewrite (child_at ns i n) by (done || lia).
    cbn [liftT mbind outcome_bind TM_bind drop]. rewrite (TM_bind_Ok _ _ _ E'), tget_full, Ht.
    eexists _, did. split; [reflexivity|]. destruct did; [|by constructor]. constructor; [|done].
    rewrite <- (list_insert_id ts (Z.to_nat i) t Ht). by apply repr_insert_child.
  - rewrite (resolveHash_ok _ _ Hd). destruct (IH key fuel Hsl) as (n' & did & E' & Hr').
    { rewrite need_solid by done. unfold need in Hfu. lia. }
    rewrite TM_bind_Ok with (a := n) by done. rewrite (TM_bind_Ok _ _ _ E'). eexists _, true. split; [reflexivity|done].
Qed.
(** ** Inserting *)
Definition lone (key : bytes) (n : node) : node := match key with [] => n | _ => shortNode key n newFlag end.

Lemma insert_nil fuel key value : Trie_insert D (S fuel) nilNode key value = Ret (Ok (true, lone key value)).
Proof. destruct key; done. Qed.

Lemma repr_lone key n t : repr false n t -> repr false (lone key n) (tlone key t).
Proof. intros H. destruct key; [done|]. constructor; [done|apply flag_new]. Qed.

Lemma repr_two i j c d t u : repr false c t -> repr false d u ->
  Forall2 (repr false) (<[Z.to_nat j := d]> (<[Z.to_nat i := c]> (replicate 17 nilNode))) (two i j t u).
Proof.
  intros Hc Hd. apply repr_insert_child; [|done]. apply repr_insert_child; [|done]. apply Forall2_replicate. constructor.
Qed.

Lemma lift_get {A B} (l : list A) i x (f : A -> TM B) : l !! Z.to_nat i = Some x -> 0 <= i -> (y ← liftT (slice_get l i); f y) = f x.
Proof. intros H Hi. rewrite (child_at l i x H Hi). done. Qed.

Lemma lift_set {A B} (l : list A) i x (f : list A -> TM B) : 0 <= i < Z.of_nat (length l) ->
  (y ← liftT (slice_set l i x); f y) = f (<[Z.to_nat i := x]> l).
Proof. intros H. unfold slice_set. rewrite bool_decide_true by done. done. Qed.

Lemma slot_wf t key : slot t key -> solid_tree t = true -> wfN t /\ term_key key.
Proof. intros H Hs. inversion H as [? [->|(v & -> & _)]|? ? Hk [->|W]]; subst; done. Qed.

(** The effect of inserting on what the node stands for; full nodes stay full,
    values stay values. *)
Definition inserts (b : bool) (t : tree) (key v : bytes) (r : TM (bool * node)) : Prop :=
  exists dirty n' t', r = Ret (Ok (dirty, n')) /\ repr b n' t' /\ t' <> TNil /\ put key v t t'
    /\ (dirty = false -> t' = t) /\ (forall ts, t = TFull ts -> exists ts', t' = TFull ts') /\ (forall w, t = TVal w -> t' = TVal v).

Lemma put_lone key v : slot TNil key -> v <> [] -> put key v TNil (tlone key (TVal v)).
Proof.
  intros Hs Hv. inversion Hs as [? _ E|? ? Hk _]; subst.
  - split; [constructor; right; eauto|]. intros k [[_ ->]|[Hk _]]; [done|by apply term_key_nil in Hk].
  - split.
    + apply slot_more; [done|]. right. destruct Hk as (p & Hp & ->). unfold tlone.
      destruct (p ++ [terminator]) eqn:E; [by apply app_nil in E as [_ E]|]. rewrite <- E. by constructor.
    + intros k [[-> _]|[_ Hkt]]; [by apply term_key_nil in Hk|]. rewrite tget_tlone, leaf_get by done. done.
Qed.

Lemma inserts_nil b key v : slot TNil key -> v <> [] -> inserts b TNil key v (Ret (Ok (true, lone key (valueNode v)))).
Proof.
  intros Hs Hv. exists true, (lone key (valueNode v)), (tlone key (TVal v)). split_and!; [done|..|done|done|done].
  - destruct key; constructor; [constructor|apply flag_new].
  - destruct key; done.
  - by apply put_lone.
Qed.

Lemma inserts_value b w v : v <> [] ->
  inserts b (TVal w) [] v (Ret (Ok (negb (bool_decide (w = v)), valueNode v))).
Proof.
  intros Hv. exists (negb (bool_decide (w = v))), (valueNode v), (TVal v). split_and!; [done|constructor|done|..|done|done].
  - split; [constructor; right; eauto|]. intros k [[_ ->]|[Hk _]]; [done|by apply term_key_nil in Hk].
  - case_bool_decide; [|done]. intros _. congruence.
Qed.

(** A node with one part changed. *)
Lemma put_short_new k rest v t t' : wfN (TShort k t) -> slot (TShort k t) (k ++ rest) -> t' <> TNil -> put rest v t t' ->
  (forall ts, t = TFull ts -> exists ts', t' = TFull ts') -> (forall w, t = TVal w -> t' = TVal v) -> v <> [] ->
  put (k ++ rest) v (TShort k t) (TShort k t').
Proof.
  intros W Hs Ht' Hp Hf Hv Hv0. destruct (slot_wf _ _ Hs eq_refl) as [_ Hk].
  split; [|by apply gets_short; [..|apply Hp]]. apply slot_more; [done|]. right. clear Hs.
  inversion W as [p w Hp' Hw|p ts Hp' Hne Wf|]; subst.
  - rewrite (Hv w eq_refl). by constructor.
  - destruct (Hf ts eq_refl) as (ts' & ->). constructor; [done|done|]. destruct Hp as [Hs' _].
    apply (slot_wf _ _ Hs'). done.
Qed.

Lemma insert_short fuel nk nv fl key value : key <> [] ->
  Trie_insert D (S fuel) (shortNode nk nv fl) key value =
    let matchlen := prefixLen key nk in
    if (matchlen =? length nk)%nat then
      r ← Trie_insert D fuel nv (drop matchlen key) value;
      let '(dirty, nn) := r in
      if negb dirty then mret (false, shortNode nk nv fl) else mret (true, shortNode nk nn newFlag)
    else
      i ← liftT (slice_get nk (Z.of_nat matchlen));
      r ← Trie_insert D fuel nilNode (drop (S matchlen) nk) nv;
      children ← liftT (slice_set (replicate 17 nilNode) i (snd r));
      j ← liftT (slice_get key (Z.of_nat matchlen));
      r ← Trie_insert D fuel nilNode (drop (S matchlen) key) value;
      children ← liftT (slice_set children j (snd r));
      let branch := fullNode children newFlag in
      mret (true, if (matchlen =? 0)%nat then branch else shortNode (take matchlen key) branch newFlag).
Proof. intros H. destruct key; [done|]. reflexivity. Qed.

Lemma lookup_mid {A} (p : list A) x q : (p ++ x :: q) !! Z.to_nat (Z.of_nat (length p)) = Some x.
Proof. rewrite Nat2Z.id. apply list_lookup_middle. done. Qed.

Lemma drop_mid {A} (p : list A) x q : drop (S (length p)) (p ++ x :: q) = q.
Proof. rewrite cons_middle, app_assoc. apply drop_app_length'. rewrite length_app. cbn. lia. Qed.

Lemma insert_diverges fuel b p i r j q n t fl v : repr false n t -> wfN (TShort (p ++ i :: r) t) -> term_key (p ++ j :: q) ->
  v <> [] -> i <> j -> prefixLen (p ++ j :: q) (p ++ i :: r) = length p ->
  inserts b (TShort (p ++ i :: r) t) (p ++ j :: q) v
    (Trie_insert D (S (S fuel)) (shortNode (p ++ i :: r) n fl) (p ++ j :: q) (valueNode v)).
Proof.
  intros Hr W Hk Hv Hij Hm. destruct (short_parts _ _ _ _ W) as [Hp Hc]. apply child_ok_range in Hc as [Hi _].
  destruct (term_head _ (term_key_app_inv _ _ Hp Hk)) as (? & ? & [= <- <-] & Hj).
  rewrite insert_short by (by destruct p). cbn zeta. rewrite Hm.
  destruct (Nat.eqb_spec (length p) (length (p ++ i :: r))) as [E|_]; [rewrite length_app in E; cbn in E; lia|].
  rewrite (lift_get _ _ i) by (apply lookup_mid || lia). rewrite !drop_mid, !insert_nil, TM_ret_bind. cbn [snd].
  rewrite lift_set by (rewrite length_replicate; lia). rewrite (lift_get _ _ j) by (apply lookup_mid || lia).
  rewrite TM_ret_bind. cbn [snd].
  rewrite lift_set by (rewrite length_insert, length_replicate; lia). rewrite take_app_length.
  pose proof (split_tree p i r t j q v W Hk Hv Hij) as [W' Hg].
  pose proof (repr_two i j _ _ _ _ (repr_lone r n t Hr) (repr_lone q _ _ (repr_value false v))) as Ht.
  eexists true, _, _. split_and!; [reflexivity|..]; [| |split; [apply slot_more; [done|right; exact W']|]| done|done|done].
  - destruct p; cbn [length Nat.eqb tlone]; constructor; [done|apply flag_new|constructor; [done|apply flag_new]|apply flag_new].
  - destruct p; done.
  - intros k [[E _]|[_ Hkt]]; [rewrite E in Hk; by apply term_key_nil in Hk|]. by apply Hg.
Qed.

Lemma insert_ok b n t : repr b n t -> forall key v fuel, slot t key -> v <> [] -> (need n key <= fuel)%nat ->
  inserts b t key v (Trie_insert D fuel n key (valueNode v)).
Proof.
  induction 1 as [b|b w|b k n t fl Hr IH Hf|b ns ts fl Hr IH Hf|b h n t Hd Hs Hr IH Hh] using repr_induction;
    intros key v fuel Hsl Hv Hfu; (destruct fuel as [|fuel]; [unfold need in Hfu; lia|]).
  - rewrite insert_nil. by apply inserts_nil.
  - assert (key = []) as -> by (inversion Hsl as [|? ? _ [?|W]]; subst; [done|done|inversion W]). by apply inserts_value.
  - destruct (slot_wf _ _ Hsl eq_refl) as [W Hk].
    destruct (prefix_cases key k) as [[Hm E]|[(_ & y & b' & E)|(p & x & q & y & r & -> & -> & Hxy & Hm)]].
    + rewrite E in Hsl. pose proof (slot_short _ _ _ Hsl) as [Hsl' Hk0].
      assert (length k <= length key)%nat as Hl by (rewrite E, length_app; lia).
      destruct (IH (drop (length k) key) v fuel Hsl' Hv) as (dirty & n' & t' & E' & Hr' & Hn & Hp & Hd & Hfl & Hvl).
      { pose proof (need_drop n k key Hk0 Hl). unfold need in Hfu. lia. }
      rewrite insert_short by (intros ->; by apply term_key_nil in Hk). cbn zeta. rewrite Hm, Nat.eqb_refl, (TM_bind_Ok _ _ _ E').
      pose proof (put_short_new k _ v t t' W Hsl Hn Hp Hfl Hvl Hv) as Hp'. rewrite <- E in Hp'.
      destruct dirty; cbn [negb].
      * eexists true, _, (TShort k t'). split_and!; [reflexivity|constructor; [done|apply flag_new]|done|done|done|done|done].
      * specialize (Hd eq_refl). subst t'. eexists false, _, (TShort k t). split_and!; [reflexivity|by constructor|done|done|done|done|done].
    + exfalso. rewrite E in W. apply short_parts in W as [Hn _]. destruct Hk as (p & Hp & ->).
      apply Forall_app in Hn as [_ Hn]. inversion Hn as [|?? Ht]. unfold is_nibble, terminator in Ht. lia.
    + destruct fuel as [|fuel]; [unfold need in Hfu; rewrite length_app in Hfu; cbn in Hfu; lia|].
      by apply insert_diverges.
  - destruct (slot_wf _ _ Hsl eq_refl) as [W Hk].
    pose proof (slot_full _ _ Hsl) as (i & rest & t & -> & Hi & Ht & Hsl' & Hl).
    destruct (Forall2_lookup_r _ _ _ _ _ IH Ht) as (n & Hn & IHn). apply Forall2_length in Hr as Hlen.
    destruct (IHn rest v fuel Hsl' Hv) as (dirty & n' & t' & E' & Hr' & Hn' & Hp & Hd & _ & _).
    { unfold need in *. cbn [length] in Hfu. destruct n; lia. }
    cbn [Trie_insert]. rewrite (lift_get ns i n) by (done || lia). rewrite (TM_bind_Ok _ _ _ E').
    pose proof (put_full ts i rest v t t' W Hk Ht Hn' Hp) as Hp'. destruct dirty; cbn [negb].
    + rewrite lift_set by lia. eexists true, _, (TFull (<[Z.to_nat i := t']> ts)). split_and!; [reflexivity| |done|exact Hp'|done|eauto|done].
      constructor; [by apply repr_insert_child|apply flag_new].
    + specialize (Hd eq_refl). subst t'. rewrite list_insert_id in Hp' by done.
      eexists false, _, (TFull ts). split_and!; [reflexivity|by constructor|done|done|done|eauto|done].
  - pose proof Hsl as Hsl0. assert (key <> []) as Hk.
    { intros ->. apply repr_shape in Hr. destruct n; try done; destruct t; try done;
        (inversion Hsl as [? [?|(? & ? & _)]|? ? Hk]; subst; [done|done|by apply term_key_nil in Hk]). }
    destruct (IH key v fuel Hsl Hv) as (dirty & n' & t' & E' & Hr' & Hn & Hp & Hd' & Hfl & Hvl).
    { rewrite need_solid by done. unfold need in Hfu. lia. }
    destruct key as [|k0 krest]; [done|]. cbn [Trie_insert]. rewrite (TM_bind_Ok _ _ _ (resolveHash_ok _ _ Hd)), (TM_bind_Ok _ _ _ E').
    destruct dirty; cbn [negb].
    + eexists true, n', t'. done.
    + specialize (Hd' eq_refl). subst t'. eexists false, n, t. done.
Qed.

(** ** Deleting *)
Lemma only_child_spec ns : forall i pos, 0 <= i -> pos = -1 \/ 0 <= pos < i -> let r := only_child i pos ns in
  (r = -1 /\ pos = -1 /\ forall k c, ns !! k = Some c -> is_nil c = true)
  \/ (0 <= r /\ pos = r /\ forall k c, ns !! k = Some c -> is_nil c = true)
  \/ (pos = -1 /\ exists k c, r = i + Z.of_nat k /\ ns !! k = Some c /\ is_nil c = false
       /\ forall k' c', ns !! k' = Some c' -> k' <> k -> is_nil c' = true)
  \/ (r = -2 /\ exists k c, ns !! k = Some c /\ is_nil c = false
       /\ (pos = -1 -> exists k' c', k' <> k /\ ns !! k' = Some c' /\ is_nil c' = false)).
Proof.
  induction ns as [|c ns IH]; intros i pos Hi Hp; cbn.
  - destruct Hp as [->|Hp]; [left; done|right; left]. split; [lia|done].
  - destruct (is_nil c) eqn:Ec; [|destruct (Z.eqb_spec pos (-1)) as [->|Hne]].
    + destruct (IH (i + 1) pos ltac:(lia) ltac:(lia)) as [(H1 & H2 & H3)|[(H1 & H2 & H3)|[(H1 & k & d & H2 & H3 & H4 & H5)|(H1 & k & d & H3 & H4 & H5)]]].
      * left. split_and!; [done|done|]. intros [|k] d Hd; [by injection Hd as <-|by apply (H3 k)].
      * right. left. split_and!; [done|done|]. intros [|k] d Hd; [by injection Hd as <-|by apply (H3 k)].
      * right. right. left. split; [done|]. exists (S k), d. split_and!; [lia|done|done|].
        intros [|k'] d' Hd Hk; [by injection Hd as <-|]. apply (H5 k'); [done|congruence].
      * right. right. right. split; [done|]. exists (S k), d. split_and!; [done|done|]. intros Hp'.
        destruct (H5 Hp') as (k' & c' & Hk & Hc & Hn). exists (S k'), c'. split_and!; [congruence|done|done].
    + destruct (IH (i + 1) i ltac:(lia) ltac:(lia)) as [(_ & H2 & _)|[(H1 & H2 & H3)|[(H1 & _)|(H1 & k & d & H3 & H4 & _)]]]; [lia| |lia|].
      * right. right. left. split; [done|]. exists 0%nat, c. split_and!; [lia|done|done|].
        intros [|k'] d' Hd Hk; [done|by apply (H3 k')].
      * right. right. right. split; [done|]. exists 0%nat, c. split_and!; [done|done|]. intros _. by exists (S k), d.
    + right. right. right. split; [done|]. exists 0%nat, c. split_and!; [done|done|done].
Qed.

Lemma repr_is_nil b n t : repr b n t -> is_nil n = true <-> t = TNil.
Proof. intros H. apply repr_shape in H. destruct n, t; done. Qed.

(** Collapsing keeps what is read. *)
Lemma collapse_ok ns ts b i c : Forall2 (repr false) ns ts -> kids ts -> ts !! i = Some c -> c <> TNil ->
  exists n t, collapse D ns = Ret (Ok n) /\ repr b n t /\ wfN t /\ solid n = true
    /\ forall k, term_key k -> tget t k = tget (TFull ts) k.
Proof.
  intros Hr Hk Hi Hc. pose proof Hk as [Hl Hok].
  assert (forall j m u, ns !! j = Some m -> ts !! j = Some u -> is_nil m = true <-> u = TNil) as Hnil.
  { intros j m u Hm Hu. eapply repr_is_nil, (Forall2_lookup_lr _ _ _ _ _ _ Hr Hm Hu). }
  destruct (Forall2_lookup_r _ _ _ _ _ Hr Hi) as (m & Hm & _).
  unfold collapse. destruct (only_child_spec ns 0 (-1) ltac:(lia) ltac:(by left)) as [(_ & _ & H)|[(H1 & H2 & _)|[(_ & p & d & -> & Hd & Hn & Hu)|(-> & k & d & Hd & Hn & H2)]]].
  - exfalso. apply Hc, (Hnil i m c Hm Hi), (H i m Hm).
  - lia.
  - destruct (Forall2_lookup_l _ _ _ _ _ Hr Hd) as (u & Hu' & Hru).
    assert (u <> TNil) as Hnu by (intros E; apply (Hnil p d u Hd Hu') in E; congruence).
    assert (forall q w, ts !! q = Some w -> q <> p -> w = TNil) as Hall.
    { intros q w Hq Hne. destruct (Forall2_lookup_r _ _ _ _ _ Hr Hq) as (x & Hx & _). apply (Hnil q x w Hx Hq), (Hu q x); done. }
    pose proof (fun k => tget_single ts p u k Hk Hu' Hall) as Hg.
    rewrite Z.add_0_l. destruct (Z.leb_spec 0 (Z.of_nat p)); [|lia]. rewrite (lift_get ns _ d) by (rewrite ?Nat2Z.id; done || lia).
    destruct (Hok p u Hu' Hnu) as [[Hp W]|[Hp (v & -> & Hv)]].
    + destruct (Z.eqb_spec (Z.of_nat p) 16); [unfold is_nibble in Hp; lia|]. cbn [negb].
      destruct (repr_resolve _ _ _ Hru) as (d' & Ed & Hrd & Hs). rewrite (TM_bind_Ok _ _ _ Ed).
      assert (solid d' = true) as Hsd by (apply Hs; inversion W; done).
      destruct d' as [|k val fl|cs fl|h|v]; try done.
      * inversion Hrd as [| |? ? ? u' ? Hval Hfl| |]; subst.
        eexists _, (TShort ([Z.of_nat p] ++ k) u'). split_and!; [reflexivity|constructor; [done|apply flag_new]| |done|].
        -- apply wf_join; [by constructor|done].
        -- intros k' Hk'. rewrite tget_join, Hg by done. done.
      * inversion Hrd as [| | |? ? us ? Hval Hfl|]; subst.
        eexists _, (TShort [Z.of_nat p] (TFull us)). split_and!; [reflexivity|constructor; [done|apply flag_new]| |done|].
        -- constructor; [by constructor|done|done].
        -- intros k' Hk'. rewrite Hg by done. done.
    + rewrite Hp in *. change (terminator =? 16) with true. cbn [negb]. eexists _, (TShort [terminator] (TVal v)).
      split_and!; [reflexivity|constructor; [done|apply flag_new]|apply (wf_leaf [] v); done|done|].
      intros k' Hk'. rewrite Hg by done. done.
  - change (0 <=? -2) with false. cbn iota. destruct (H2 eq_refl) as (k' & d' & Hne & Hd' & Hn').
    destruct (Forall2_lookup_l _ _ _ _ _ Hr Hd) as (u & Hu & _), (Forall2_lookup_l _ _ _ _ _ Hr Hd') as (u' & Hu' & _).
    eexists _, (TFull ts). split_and!; [reflexivity|constructor; [done|apply flag_new]| |done|done].
    eapply (kids_wf ts k k'); [done|done|done|done| |].
    + intros E. apply (Hnil _ _ _ Hd Hu) in E. congruence.
    + intros E. apply (Hnil _ _ _ Hd' Hu') in E. congruence.
Qed.

(** The effect of deleting; a full node leaves something. *)
Definition deletes (b : bool) (t : tree) (key : bytes) (r : TM (bool * node)) : Prop :=
  exists dirty n' t', r = Ret (Ok (dirty, n')) /\ repr b n' t' /\ put key [] t t'
    /\ (dirty = false -> t' = t) /\ (forall ts, t = TFull ts -> t' <> TNil /\ (dirty = true -> solid n' = true)).

Lemma put_absent key t : slot t key -> tget t key = [] -> put key [] t t.
Proof. intros Hs Hg. split; [done|]. intros k _. destruct (decide _) as [->|]; done. Qed.

Lemma deletes_absent b n t key : repr b n t -> slot t key -> tget t key = [] -> deletes b t key (Ret (Ok (false, n))).
Proof.
  intros Hr Hs Hg. exists false, n, t. split_and!; [done|done|by apply put_absent|done|]. intros ts ->. done.
Qed.

Lemma delete_leaf b p v : nibbles p -> v <> [] -> deletes b (TShort (p ++ [terminator]) (TVal v)) (p ++ [terminator]) (Ret (Ok (true, nilNode))).
Proof.
  intros Hp Hv. assert (term_key (p ++ [terminator])) as Hk by (exists p; done).
  exists true, nilNode, TNil. split_and!; [done|constructor| |done|done].
  split; [apply slot_more; [done|by left]|]. intros k [[E _]|[_ Hkt]]; [by apply app_nil in E as [_ E]|].
  rewrite leaf_get by done. destruct (decide _); done.
Qed.

(** A short node above a full node from which something was deleted. *)
Lemma delete_below b k ts rest n' t' : wfN (TShort k (TFull ts)) -> term_key (k ++ rest) -> repr false n' t' ->
  put rest [] (TFull ts) t' -> t' <> TNil -> solid n' = true ->
  deletes b (TShort k (TFull ts)) (k ++ rest)
    (Ret (Ok (true, match n' with shortNode skey sval _ => shortNode (k ++ skey) sval newFlag | _ => shortNode k n' newFlag end))).
Proof.
  intros W Hk Hr [Hs Hg] Hn Hsol. pose proof (gets_short k rest [] _ _ W Hk Hg) as Hg'.
  inversion W as [p v Hp Hv|p us Hp Hne Wf|]; subst. assert (wfN t') as W'.
  { apply repr_shape in Hr. eapply slot_wf; [done|]. destruct n', t'; done. }
  destruct n' as [|skey sval sfl|cs sfl|h|v]; try done.
  - inversion Hr as [| |? ? ? u ? Hval Hfl| |]; subst. exists true, (shortNode (k ++ skey) sval newFlag), (TShort (k ++ skey) u).
    split_and!; [done|constructor; [done|apply flag_new]| |done|done].
    split; [apply slot_more; [done|right; by apply wf_join]|]. intros key Hkey. rewrite tget_join. by apply Hg'.
  - inversion Hr as [| | |? ? us' ? Hval Hfl|]; subst. exists true, (shortNode k (fullNode cs sfl) newFlag), (TShort k (TFull us')).
    split_and!; [done|constructor; [done|apply flag_new]| |done|done].
    split; [apply slot_more; [done|right; by constructor]|done].
Qed.

Lemma delete_ok b n t : repr b n t -> forall key fuel, slot t key -> (need n key <= fuel)%nat ->
  deletes b t key (Trie_delete D fuel n key).
Proof.
  induction 1 as [b|b w|b k n t fl Hr IH Hf|b ns ts fl Hr IH Hf|b h n t Hd Hs Hr IH Hh] using repr_induction;
    intros key fuel Hsl Hfu; (destruct fuel as [|fuel]; [unfold need in Hfu; lia|]); cbn [Trie_delete].
  - apply deletes_absent; [constructor|done|done].
  - assert (key = []) as -> by (inversion Hsl as [|? ? _ [?|W]]; subst; [done|done|inversion W]).
    exists true, nilNode, TNil. split_and!; [done|constructor| |done|done].
    split; [constructor; by left|]. intros k [[_ ->]|[Hk _]]; [done|by apply term_key_nil in Hk].
  - destruct (slot_wf _ _ Hsl eq_refl) as [W Hk].
    destruct (prefix_cases key k) as [[Hm E]|[(_ & y & b' & E)|(p & x & q & y & r & -> & -> & Hxy & Hm)]].
    + rewrite E in Hsl. pose proof (slot_short _ _ _ Hsl) as [Hsl' Hk0]. rewrite Hm, Nat.ltb_irrefl.
      set (rest := drop (length k) key) in *. clearbody rest. subst key.
      inversion W as [p v Hp Hv|p ts Hp Hne Wf|]; subst.
      * rewrite (term_prefix p rest) in * by done. rewrite app_nil_r, Nat.eqb_refl. by apply delete_leaf.
      * assert (term_key rest) as Hrest by (by eapply term_key_app_inv).
        destruct (Nat.eqb_spec (length k) (length (k ++ rest))) as [E|_].
        { destruct rest; [by apply term_key_nil in Hrest|]. rewrite length_app in E. cbn in E. lia. }
        destruct (IH rest fuel Hsl') as (dirty & n' & t' & E' & Hr' & Hp' & Hd & Hfull).
        { pose proof (need_drop n k (k ++ rest) Hk0 ltac:(rewrite length_app; lia)) as Hnd. rewrite drop_app_length in Hnd.
          unfold need in Hfu. lia. }
        rewrite (TM_bind_Ok _ _ _ E'). destruct (Hfull ts eq_refl) as [Hn Hsol].
        destruct dirty; cbn [negb]; [by apply (delete_below b k ts rest n' t'); auto|].
        specialize (Hd eq_refl). subst t'. apply deletes_absent; [by constructor|done|]. rewrite tget_short_app.
        destruct Hp' as [_ Hg]. rewrite Hg by (by right). rewrite decide_True by done. done.
    + exfalso. rewrite E in W. apply short_parts in W as [Hn _]. destruct Hk as (p & Hp & ->).
      apply Forall_app in Hn as [_ Hn]. inversion Hn as [|?? Ht]. unfold is_nibble, terminator in Ht. lia.
    + rewrite Hm. destruct (Nat.ltb_spec (length p) (length (p ++ y :: r))); [|rewrite length_app in *; cbn in *; lia].
      apply deletes_absent; [by constructor|done|]. rewrite tget_short_common, tget_short_cons.
      destruct (Z.eqb_spec y x); [congruence|done].
  - destruct (slot_wf _ _ Hsl eq_refl) as [W Hk].
    pose proof (slot_full _ _ Hsl) as (i & rest & t & -> & Hi & Ht & Hsl' & Hl).
    destruct (Forall2_lookup_r _ _ _ _ _ IH Ht) as (n & Hn & IHn). apply Forall2_length in Hr as Hlen.
    destruct (IHn rest fuel Hsl') as (dirty & n' & t' & E' & Hr' & [Hs' Hg] & Hd & _).
    { unfold need in *. cbn [length] in Hfu. destruct n; lia. }
    rewrite (lift_get (i :: rest) 0 i) by done. rewrite (lift_get ns i n) by (done || lia). cbn [drop]. rewrite (TM_bind_Ok _ _ _ E').
    pose proof (gets_full ts i rest [] t t' Hl Hk Ht Hg) as Hg'. destruct dirty; cbn [negb].
    + rewrite lift_set by lia.
      assert (kids (<[Z.to_nat i := t']> ts)) as Hkids.
      { apply kids_insert; [by apply wf_kids|done|]. intros Hn'. by eapply slot_child. }
      assert (exists j c, <[Z.to_nat i := t']> ts !! j = Some c /\ c <> TNil) as (j & c & Hj & Hc).
      { inversion W as [| |? _ _ _ (a & a' & u & u' & Haa & Ha & Ha' & Hu & Hu')]; subst.
        destruct (decide (a = Z.to_nat i)) as [->|Hne].
        - exists a', u'. rewrite list_lookup_insert_ne by done. done.
        - exists a, u. rewrite list_lookup_insert_ne by done. done. }
      destruct (collapse_ok _ _ b j c (repr_insert_child _ _ _ _ _ Hr Hr') Hkids Hj Hc) as (m & u & Em & Hm & Wu & Hsol & Hgu).
      rewrite (TM_bind_Ok _ _ _ Em). exists true, m, u. split_and!; [done|done| |done|].
      * split; [apply slot_more; [done|by right]|]. intros k Hkin. rewrite <- (Hg' k Hkin). apply Hgu.
        destruct Hkin as [[? _]|[_ ?]]; done.
      * intros us [= <-]. split; [by apply wfN_not_nil|done].
    + specialize (Hd eq_refl). subst t'. apply deletes_absent; [by constructor|done|].
      rewrite tget_full, Ht. rewrite Hg; [rewrite decide_True by done; done|].
      destruct (term_key_cons _ _ Hk) as [[_ Hr'']|[_ ->]]; [by right|by left].
  - destruct (IH key fuel Hsl) as (dirty & n' & t' & E' & Hr' & Hp & Hd' & Hfull).
    { rewrite need_solid by done. unfold need in Hfu. lia. }
    rewrite (TM_bind_Ok _ _ _ (resolveHash_ok _ _ Hd)), (TM_bind_Ok _ _ _ E'). destruct dirty; cbn [negb].
    + exists true, n', t'. done.
    + specialize (Hd' eq_refl). subst t'. exists false, n, t. split_and!; [done|done|done|done|]. intros ts E. by split; [apply (Hfull ts)|].
Qed.
End Represents.
