(* ===== verification/TrieStore.v ===== *)
(** * Nodes in the database

    How trie nodes are encoded and decoded (chain/trie/node.go), kept in memory
    and on disk (database.go), hashed and committed (hasher.go, and New, Hash and
    Commit of trie.go).

    Of the database, the nodes in memory, the references that clients add between
    them, the preimages and the disk are modelled; the disk is a finite map.  The
    counters and the list that garbage collection and its flushing (Dereference,
    Cap) use are left out, and so is the cache of clean nodes, which answers what
    the disk does. *)
From S2P Require Import Prelude Rlp TrieCodec Trie.
Local Open Scope Z_scope.

(** ** node.go: decoding *)
Definition hashLen : nat := 32.

(** The content of [r], or the text of an error. *)
Definition or_error {A} (r : result rlp_error A) : result string A :=
  match r with Ok a => Ok a | Err _ => Err "decode error"%string end.

(** decodeRef; [decodeNode] is that function on an embedded node. *)
Definition decodeRef (decodeNode : bytes -> result string node) (buf : bytes) : result string (node * bytes) :=
  x ← or_error (Split buf);
  let '(kind, val, rest) := x in
  if bool_decide (kind = KList) then
    if (hashLen <? length buf - length rest)%nat then Err "oversized embedded node"%string
    else n ← decodeNode buf; Ok (n, rest)
  else if bool_decide (kind = KString) && bool_decide (val = []) then Ok (nilNode, rest)
  else if bool_decide (kind = KString) && (length val =? 32)%nat then Ok (hashNode val, rest)
  else Err "invalid RLP string size"%string.

Definition decodeShort (decodeNode : bytes -> result string node) (hash : option bytes) (elems : bytes) : result string node :=
  x ← or_error (SplitString elems);
  let '(kbuf, rest) := x in
  let flag := {| fl_hash := hash; fl_dirty := false |} in
  let key := compactToHex kbuf in
  if hasTerm key then
    x ← or_error (SplitString rest);
    Ok (shortNode key (valueNode (fst x)) flag)
  else
    r ← decodeRef decodeNode rest;
    Ok (shortNode key (fst r) flag).

(** The first [n] children of a full node and the bytes after them. *)
Fixpoint decodeChildren (decodeNode : bytes -> result string node) (n : nat) (elems : bytes) : result string (list node * bytes) :=
  match n with
  | O => Ok ([], elems)
  | S n =>
    r ← decodeRef decodeNode elems;
    let '(cld, rest) := r in
    rs ← decodeChildren decodeNode n rest;
    Ok (cld :: fst rs, snd rs)
  end.

Definition decodeFull (decodeNode : bytes -> result string node) (hash : option bytes) (elems : bytes) : result string node :=
  r ← decodeChildren decodeNode 16 elems;
  let '(children, elems) := r in
  x ← or_error (SplitString elems);
  let val := fst x in
  Ok (fullNode (children ++ [match val with [] => nilNode | _ => valueNode val end]) {| fl_hash := hash; fl_dirty := false |}).

(** decodeNode; embedded nodes are shorter than the node around them. *)
Fixpoint decodeNode_fuel (fuel : nat) (hash : option bytes) (buf : bytes) : result string node :=
  match fuel with
  | O => Err "model: out of fuel"%string
  | S fuel =>
    match buf with
    | [] => Err "unexpected EOF"%string
    | _ =>
      x ← or_error (SplitList buf);
      let elems := fst x in
      let c := match CountValues elems with Ok c => c | Err _ => 0 end in
      if c =? 2 then decodeShort (decodeNode_fuel fuel None) hash elems
      else if c =? 17 then decodeFull (decodeNode_fuel fuel None) hash elems
      else Err "invalid number of list elements"%string
    end
  end.

Definition decodeNode (hash : option bytes) (buf : bytes) : result string node := decodeNode_fuel (S (length buf)) hash buf.

Definition mustDecodeNode (hash : bytes) (buf : bytes) : outcome node :=
  match decodeNode (Some hash) buf with
  | Ok n => Ret n
  | Err e => Panic e
  end.

(** ** Encoding: what rlp.Encode writes for a node *)
Fixpoint node_ival (n : node) : ival :=
  match n with
  | nilNode => INil
  | shortNode k val _ => ISlice [IBytes k; node_ival val]
  | fullNode children _ => ISlice (map (fun side => match side with nilNode => IBytes [] | _ => node_ival side end) children)
  | hashNode h => IBytes h
  | valueNode v => IBytes v
  end.

Definition encode (v : ival) : outcome bytes :=
  r ← EncodeToBytes TIface v;
  match r with
  | Ok b => Ret b
  | Err _ => Panic "encode error"
  end.

(** ** database.go: nodes without their flags; [rawNil] is no node *)
Inductive raw :=
  | rawNil
  | rawNode (blob : bytes)
  | rawShortNode (key : bytes) (val : raw)
  | rawFullNode (children : list raw)
  | rawHash (h : bytes)
  | rawValue (v : bytes).

Fixpoint raw_ival (r : raw) : ival :=
  match r with
  | rawNil | rawNode _ => INil
  | rawShortNode k val => ISlice [IBytes k; raw_ival val]
  | rawFullNode children => ISlice (map (fun side => match side with rawNil => IBytes [] | _ => raw_ival side end) children)
  | rawHash h => IBytes h
  | rawValue v => IBytes v
  end.

Fixpoint simplifyNode (n : node) : raw :=
  match n with
  | nilNode => rawNil
  | shortNode k val _ => rawShortNode k (simplifyNode val)
  | fullNode children _ => rawFullNode (map simplifyNode children)
  | hashNode h => rawHash h
  | valueNode v => rawValue v
  end.

(** expandNode, where nil children stay nil; it panics on anything else. *)
Fixpoint expandNode (hash : option bytes) (r : raw) : outcome node :=
  match r with
  | rawShortNode k val =>
    v ← expandNode None val;
    Ret (shortNode (compactToHex k) v {| fl_hash := hash; fl_dirty := false |})
  | rawFullNode children =>
    cs ← (fix all (rs : list raw) : outcome (list node) :=
            match rs with
            | [] => Ret []
            | r :: rs =>
              c ← match r with rawNil => Ret nilNode | _ => expandNode None r end;
              cs ← all rs;
              Ret (c :: cs)
            end) children;
    Ret (fullNode cs {| fl_hash := hash; fl_dirty := false |})
  | rawHash h => Ret (hashNode h)
  | rawValue v => Ret (valueNode v)
  | rawNil | rawNode _ => Panic "unknown node type"
  end.

(** The hashes in a node. *)
Fixpoint gatherChildren (r : raw) : list bytes :=
  match r with
  | rawShortNode _ val => gatherChildren val
  | rawFullNode children => concat (take 16 (map gatherChildren children))
  | rawHash h => [BytesToHash h]
  | rawNil | rawNode _ | rawValue _ => []
  end.

(** ** The database *)
Record cachedNode := { cn_node : raw; cn_sideren : gmap bytes Z }.

Record Database := {
  db_dirties : gmap bytes cachedNode;
  db_disk : gmap bytes bytes;
  db_preimages : gmap bytes bytes }.

Definition set_dirties (db : Database) (v : gmap bytes cachedNode) : Database :=
  {| db_dirties := v; db_disk := db_disk db; db_preimages := db_preimages db |}.
Definition set_disk (db : Database) (v : gmap bytes bytes) : Database :=
  {| db_dirties := db_dirties db; db_disk := v; db_preimages := db_preimages db |}.
Definition set_preimages (db : Database) (v : gmap bytes bytes) : Database :=
  {| db_dirties := db_dirties db; db_disk := db_disk db; db_preimages := v |}.

(** The entry of the zero hash holds the references from outside. *)
Definition NewDatabase (disk : gmap bytes bytes) : Database :=
  {| db_dirties := {[ zeroHash := {| cn_node := rawNil; cn_sideren := ∅ |} ]}; db_disk := disk; db_preimages := ∅ |}.

Definition cachedNode_rlp (n : cachedNode) : outcome bytes :=
  match cn_node n with
  | rawNode blob => Ret blob
  | r => encode (raw_ival r)
  end.

Definition cachedNode_obj (n : cachedNode) (hash : bytes) : outcome node :=
  match cn_node n with
  | rawNode blob => mustDecodeNode hash blob
  | r => expandNode (Some hash) r
  end.

Definition cachedNode_sides (n : cachedNode) : list bytes :=
  elements (dom (cn_sideren n)) ++ gatherChildren (cn_node n).

Definition db_insert (db : Database) (hash : bytes) (n : raw) : Database :=
  match db_dirties db !! hash with
  | Some _ => db
  | None => set_dirties db (<[hash := {| cn_node := n; cn_sideren := ∅ |}]> (db_dirties db))
  end.

Definition Database_InsertBlob (db : Database) (hash blob : bytes) : Database := db_insert db hash (rawNode blob).

Definition insertPreimage (db : Database) (hash preimage : bytes) : Database :=
  match db_preimages db !! hash with
  | Some _ => db
  | None => set_preimages db (<[hash := preimage]> (db_preimages db))
  end.

(** Database.node *)
Definition db_node (db : Database) : Resolver := fun hash =>
  match db_dirties db !! hash with
  | Some dirty => n ← cachedNode_obj dirty hash; Ret (Some n)
  | None =>
    match db_disk db !! hash with
    | None => Ret None
    | Some enc => n ← mustDecodeNode hash enc; Ret (Some n)
    end
  end.

(** Database.Node: the encoding of a node, or a contract code. *)
Definition Database_Node (db : Database) (hash : bytes) : TM bytes :=
  if bool_decide (hash = zeroHash) then raise "not found"
  else
    match db_dirties db !! hash with
    | Some dirty => liftT (cachedNode_rlp dirty)
    | None =>
      match db_disk db !! hash with
      | Some enc => mret enc
      | None => raise "not found"
      end
    end.

Definition secureKeyPrefix : bytes := [115; 101; 99; 117; 114; 101; 45; 107; 101; 121; 45].
Definition secureKey (key : bytes) : bytes := secureKeyPrefix ++ key.

Definition db_preimage (db : Database) (hash : bytes) : result string bytes :=
  match db_preimages db !! hash with
  | Some preimage => Ok preimage
  | None =>
    match db_disk db !! secureKey hash with
    | Some preimage => Ok preimage
    | None => Err "not found"%string
    end
  end.

(** A reference from outside a trie: the root in use, or the storage and the
    code of an account. *)
Definition reference (db : Database) (side parent : bytes) : outcome Database :=
  match db_dirties db !! side with
  | None => Ret db
  | Some _ =>
    match db_dirties db !! parent with
    | None => Panic "nil pointer dereference"
    | Some p =>
      match cn_sideren p !! side with
      | Some n =>
        if bool_decide (parent <> zeroHash) then Ret db
        else Ret (set_dirties db (<[parent := {| cn_node := cn_node p; cn_sideren := <[side := (n + 1) mod 2 ^ 16]> (cn_sideren p) |}]> (db_dirties db)))
      | None => Ret (set_dirties db (<[parent := {| cn_node := cn_node p; cn_sideren := <[side := 1]> (cn_sideren p) |}]> (db_dirties db)))
      end
    end
  end.

(** ** Writing to disk: the nodes to write, those below a node before it *)
Fixpoint db_commit (fuel : nat) (db : Database) (batch : list (bytes * bytes)) (hash : bytes) : outcome (list (bytes * bytes)) :=
  match fuel with
  | O => Panic "model: out of fuel"
  | S fuel =>
    match db_dirties db !! hash with
    | None => Ret batch
    | Some n =>
      batch ← foldl (fun acc side => batch ← acc; db_commit fuel db batch side) (Ret batch) (cachedNode_sides n);
      blob ← cachedNode_rlp n;
      Ret (batch ++ [(hash, blob)])
    end
  end.

(** What is in the batch goes to disk and leaves the memory; the order of the
    writes in between does not matter to readers.  Below a node in memory there
    are fewer nodes than the memory has, since references form no cycle. *)
Definition write_preimages (db : Database) : gmap bytes bytes :=
  foldl (fun m '(h, p) => <[secureKey h := p]> m) (db_disk db) (map_to_list (db_preimages db)).

Definition Database_Commit (db : Database) (node : bytes) : outcome Database :=
  batch ← db_commit (S (size (db_dirties db))) db [] node;
  Ret {| db_dirties := foldl (fun m '(h, _) => delete h m) (db_dirties db) batch;
         db_disk := foldl (fun m '(h, blob) => <[h := blob]> m) (write_preimages db) batch;
         db_preimages := ∅ |}.

(** ** hasher.go *)
Section Hasher.
Context {K : KeccakLib}.

Definition cache (n : node) : option bytes * bool :=
  match n with
  | shortNode _ _ fl | fullNode _ fl => (fl_hash fl, fl_dirty fl)
  | _ => (None, true)
  end.

Definition hasher_store (n : node) (db : option Database) (force : bool) : outcome (node * option Database) :=
  match n with
  | nilNode | hashNode _ => Ret (n, db)
  | _ =>
    tmp ← encode (node_ival n);
    if (length tmp <? 32)%nat && negb force then Ret (n, db)
    else
      let hash := match fst (cache n) with Some h => h | None => keccak tmp end in
      Ret (hashNode hash, match db with
                          | Some db => Some (db_insert db (BytesToHash hash) (simplifyNode n))
                          | None => None
                          end)
  end.

(** The hash of what was stored and, with a database, that it is clean. *)
Definition set_cache (n : node) (hash : option bytes) (clean : bool) : node :=
  match n with
  | shortNode k val fl => shortNode k val {| fl_hash := hash; fl_dirty := fl_dirty fl && negb clean |}
  | fullNode cs fl => fullNode cs {| fl_hash := hash; fl_dirty := fl_dirty fl && negb clean |}
  | _ => n
  end.

Definition as_hash (n : node) : option bytes := match n with hashNode h => Some h | _ => None end.

(** The loop over the children of a full node; [hash] hashes one of them, and
    the last child, a value, stays as it is. *)
Definition hash_all (hash : node -> option Database -> outcome (node * node * option Database)) :=
  fix all (i : nat) (ns : list node) (db : option Database) : outcome (list node * list node * option Database) :=
    match ns with
    | [] => Ret ([], [], db)
    | c :: ns =>
      r ← (if is_nil c || negb (i <? 16)%nat then Ret (c, c, db) else hash c db);
      let '(h, c', db) := r in
      rs ← all (S i) ns db;
      let '(hs, cs, db) := rs in
      Ret (h :: hs, c' :: cs, db)
    end.

(** The node with its parts hashed, and what is cached of it. *)
Definition hashChildren (hash : node -> option Database -> outcome (node * node * option Database)) (n : node) (db : option Database) :
    outcome (node * node * option Database) :=
  match n with
  | shortNode k val fl =>
    match val with
    | valueNode _ => Ret (shortNode (hexToCompact k) val fl, n, db)
    | _ =>
      r ← hash val db;
      let '(hval, cval, db) := r in
      Ret (shortNode (hexToCompact k) hval fl, shortNode k cval fl, db)
    end
  | fullNode children fl =>
    r ← hash_all hash 0 children db;
    let '(hs, cs, db) := r in
    Ret (fullNode hs fl, fullNode cs fl, db)
  | _ => Ret (n, n, db)
  end.

Fixpoint hasher_hash (n : node) (db : option Database) (force : bool) {struct n} : outcome (node * node * option Database) :=
  match cache n, db with
  | (Some h, _), None => Ret (hashNode h, n, db)
  | (Some h, false), Some _ => Ret (hashNode h, hashNode h, db)
  | _, _ =>
    r ← hashChildren (fun c db => hasher_hash c db false) n db;
    let '(collapsed, cached, db) := r in
    s ← hasher_store collapsed db force;
    let '(hashed, db) := s in
    Ret (hashed, set_cache cached (as_hash hashed) (is_some db), db)
  end.

(** ** trie.go: opening, hashing and committing a trie *)
Definition emptyRoot : bytes := BytesToHash [
  0x56; 0xe8; 0x1f; 0x17; 0x1b; 0xcc; 0x55; 0xa6; 0xff; 0x83; 0x45; 0xe6; 0x92; 0xc0; 0xf8; 0x6e;
  0x5b; 0x48; 0xe0; 0x1b; 0x99; 0x6c; 0xad; 0xc0; 0x01; 0x62; 0x2f; 0xb5; 0xe3; 0x63; 0xb4; 0x21].

Definition Trie_New (root : bytes) (db : Database) : TM node :=
  if bool_decide (root <> zeroHash) && bool_decide (root <> emptyRoot) then Trie_resolveHash (db_node db) root
  else mret nilNode.

Definition hashRoot (root : node) (db : option Database) : outcome (node * node * option Database) :=
  match root with
  | nilNode => Ret (hashNode emptyRoot, nilNode, db)
  | _ => hasher_hash root db true
  end.

(** The type assertion on the hash. *)
Definition hash_of (n : node) : outcome bytes :=
  match n with
  | hashNode h => Ret (BytesToHash h)
  | _ => Panic "interface conversion"
  end.

Definition Trie_Hash (root : node) : outcome (bytes * node) :=
  r ← hashRoot root None;
  let '(hash, cached, _) := r in
  h ← hash_of hash;
  Ret (h, cached).

Definition Trie_Commit (root : node) (db : Database) : outcome (bytes * node * Database) :=
  r ← hashRoot root (Some db);
  let '(hash, cached, db') := r in
  h ← hash_of hash;
  Ret (h, cached, default db db').

End Hasher.
