(* ===== verification/TrieDecode.v ===== *)
(** * Decoding undoes encoding

    A node that is read back, from its encoding on disk or from its form in
    memory, is the top of the tree that was stored. *)
From S2P Require Import Prelude Rlp RlpDecode RlpInput TrieCodec Trie TrieTree TrieMap TrieStore.
Local Open Scope Z_scope.

(** ** raw.go on encoded values *)
Lemma length_rstr b : (length b <= length (rstr b))%nat.
Proof.
  unfold rstr. destruct b as [|x [|y b]]; [cbn; lia| |rewrite length_app; lia]. destruct (x <=? 127); [done|rewrite length_app; lia].
Qed.

Lemma length_rlist p : (length p < length (rlist p))%nat.
Proof. unfold rlist, puthead. rewrite length_app. destruct (_ <? 56); cbn [length]; lia. Qed.

Definition split_as (v : ival) (k : Kind) (c : bytes) : Prop :=
  match v with
  | INil => False
  | IBytes b => c = b /\ k <> KList /\ (length b <> 1%nat -> k = KString)
  | ISlice l => k = KList /\ c = concat (map renc_iface l)
  end.

Lemma Split_iface v rest : ival_rt v -> Z.of_nat (length (renc_iface v ++ rest)) < 2 ^ 63 ->
  exists k c, Split (renc_iface v ++ rest) = Ok (k, c, rest) /\ split_as v k c.
Proof.
  destruct v as [|b|l]; intros Hv Hl; [done|..]; cbn [renc_iface] in *; rewrite length_app in Hl.
  - pose proof (length_rstr b). destruct (Split_rstr b rest Hv) as (k & Ek & Hk); [rewrite length_app; lia|].
    exists k, b. split; [done|]. split_and!; [done|done|]. intros H1.
    destruct (rstr_cases b Hv) as [(x & -> & _)|[E Hx]]; [done|]. rewrite E, <- app_assoc, Split_head in Ek; [congruence|done| |done].
    rewrite length_app. lia.
  - pose proof (length_rlist (concat (map renc_iface l))). exists KList, (concat (map renc_iface l)).
    rewrite Split_rlist by (rewrite length_app; lia). done.
Qed.

Lemma Split_kind b k c rest : Split b = Ok (k, c, rest) ->
  exists ts cs, raw_readKind b = Ok (k, ts, cs) /\ drop (Z.to_nat (ts + cs)) b = rest.
Proof.
  unfold Split. destruct (raw_readKind b) as [[[k' ts] cs]|e] eqn:E; [|done]. rewrite result_bind_Ok. intros [= -> <- <-].
  exists ts, cs. done.
Qed.

Lemma CountValues_items vs : forall fuel i, Forall ival_rt vs -> Z.of_nat (length (concat (map renc_iface vs))) < 2 ^ 63 ->
  (length (concat (map renc_iface vs)) <= fuel)%nat ->
  CountValues_loop fuel (concat (map renc_iface vs)) i = Ok (i + Z.of_nat (length vs)).
Proof.
  induction vs as [|v vs IH]; intros fuel i Hv Hl Hf; cbn [map concat length] in *; [destruct fuel; cbn; f_equal; lia|].
  inversion Hv as [|?? Hv1 Hvs]; subst. pose proof (renc_iface_nonnil v) as Hn.
  destruct (Split_iface v (concat (map renc_iface vs)) Hv1 Hl) as (k & c & Es & _).
  destruct (Split_kind _ _ _ _ Es) as (ts & cs & Ek & Ed). rewrite length_app in Hl, Hf.
  destruct (renc_iface v ++ concat (map renc_iface vs)) as [|x l] eqn:E; [by apply app_nil in E as [E _]|].
  destruct fuel as [|fuel]; [destruct (renc_iface v); [done|cbn in Hf; lia]|]. cbn [CountValues_loop].
  rewrite Ek, result_bind_Ok, Ed, IH; [f_equal; lia|done|lia|]. destruct (renc_iface v); [done|cbn in Hf; lia].
Qed.

Section Decode.
Context {K : KeccakLib} {KL : KeccakLaws K}.

(** ** Sizes *)
Fixpoint sized (t : tree) : Prop :=
  match t with
  | TNil => True
  | TVal v => is_bytes v /\ Z.of_nat (length v) < 2 ^ 32
  | TShort k u => Z.of_nat (length k) < 2 ^ 32 /\ sized u
  | TFull ts => foldr (fun t P => sized t /\ P) True ts
  end.

Lemma sized_full ts : sized (TFull ts) <-> Forall sized ts.
Proof. apply foldr_and_Forall. Qed.

(** The keys of well-formed nodes are packed and unpacked without loss. *)
Lemma wf_compact k t : wfN (TShort k t) -> compactToHex (hexToCompact k) = k /\ is_bytes (hexToCompact k)
  /\ (length (hexToCompact k) <= S (length k))%nat /\ hasTerm k = match t with TVal _ => true | _ => false end.
Proof.
  intros W. assert (exists p (b : bool), nibbles p /\ k = p ++ (if b then [terminator] else [])
    /\ b = match t with TVal _ => true | _ => false end) as (p & b & Hp & -> & Hb).
  { inversion W as [p v Hp Hv|p ts Hp Hne W'|]; subst; [exists p, true; done|exists k, false; rewrite app_nil_r; done]. }
  rewrite <- Hb. split_and!.
  - by apply compact_roundtrip.
  - by apply hexToCompact_bytes.
  - pose proof (length_hexToCompact b p Hp). rewrite length_app. lia.
  - destruct b; [apply hasTerm_term|rewrite app_nil_r; by apply hasTerm_nibbles].
Qed.

(** The children of a well-formed full node. *)
Lemma wf_children ts : wfN (TFull ts) -> exists cs l, ts = cs ++ [l] /\ length cs = 16%nat /\ Forall wf cs /\ value_slot l.
Proof.
  inversion 1 as [| |? Hl Hc Hv _]; subst. destruct (List.exists_last (l := ts)) as (cs & l & ->); [by destruct ts|].
  assert (length cs = 16%nat) as Hcs by (rewrite length_app in Hl; cbn in Hl; lia).
  exists cs, l. split_and!; [done|done| |].
  - apply Forall_lookup. intros i t Hi. apply lookup_lt_Some in Hi as Hlt. destruct (decide (t = TNil)) as [|Hn]; [by left|right].
    eapply (Hc i); [rewrite lookup_app_l by lia; done|done|lia].
  - apply Hv. rewrite lookup_app_r by lia. rewrite Hcs. done.
Qed.

(** Induction on the parts of well-formed trees. *)
Definition part (t : tree) : Prop := wf t \/ value_slot t.

Lemma part_wf t : wfN t -> part t.
Proof. intros W. left. by right. Qed.

Lemma part_solid t : part t -> solid_tree t = true -> wfN t.
Proof. intros [[->|W]|[->|(v & -> & _)]] Hs; done. Qed.

Lemma short_part k u : wfN (TShort k u) -> part u /\ u <> TNil.
Proof. inversion 1 as [p v Hp Hv|p ts Hp Hne Wf|]; subst; (split; [|done]); [right; right; eauto|by apply part_wf]. Qed.

Lemma full_parts ts : wfN (TFull ts) -> Forall part ts.
Proof.
  intros W. destruct (wf_children _ W) as (cs & l & -> & _ & Hcs & Hl). apply Forall_app. split.
  - eapply Forall_impl; [exact Hcs|]. by left.
  - constructor; [by right|constructor].
Qed.

Section PartInduction.
Variable P : tree -> Prop.
Hypothesis Pnil : P TNil.
Hypothesis Pval : forall v, P (TVal v).
Hypothesis Pshort : forall k u, wfN (TShort k u) -> u <> TNil -> part u -> P u -> P (TShort k u).
Hypothesis Pfull : forall ts, wfN (TFull ts) -> Forall part ts -> Forall P ts -> P (TFull ts).

Lemma part_induction t : part t -> P t.
Proof.
  induction t as [|v|k t IH|ts IH] using tree_induction; intros W; [done|done|..]; apply part_solid in W; try done.
  - destruct (short_part _ _ W). auto.
  - pose proof (full_parts _ W) as Hp. apply Pfull; [done|done|]. rewrite Forall_forall in *. auto.
Qed.
End PartInduction.

(** ** The items of a tree are byte strings and lists *)
Lemma close_rt v : ival_rt v -> ival_rt (close v).
Proof. intros H. unfold close. destruct (_ <? _)%nat; [done|]. apply keccak_bytes. Qed.

Definition items (t : tree) : list ival :=
  match t with
  | TShort k u => [IBytes (hexToCompact k); tref u]
  | TFull ts => map tref ts
  | _ => []
  end.

Lemma titem_items t : solid_tree t = true -> titem t = ISlice (items t).
Proof. destruct t; done. Qed.

Lemma rt_slice l : ival_rt (ISlice l) <-> Forall ival_rt l.
Proof. apply foldr_and_Forall. Qed.

Lemma tref_rt t : part t -> sized t -> ival_rt (tref t).
Proof.
  induction 1 as [|v|k u W Hu _ IH|ts W _ IH] using part_induction; intros Hs; [constructor|apply Hs|..]; cbn [tref];
    apply close_rt, rt_slice.
  - destruct Hs as [_ Hs]. destruct (wf_compact _ _ W) as (_ & Hb & _). repeat constructor; auto.
  - rewrite sized_full in Hs. apply Forall_map. rewrite Forall_forall in *. intros t Ht. apply IH; auto.
Qed.

Lemma items_rt t : wfN t -> sized t -> Forall ival_rt (items t).
Proof.
  intros W Hs. destruct t as [|v|k t|ts]; [constructor|constructor|..]; cbn [items].
  - destruct (wf_compact _ _ W) as (_ & Hb & _), Hs as [_ Hs], (short_part _ _ W). repeat constructor; [done|]. by apply tref_rt.
  - rewrite sized_full in Hs. apply full_parts in W. apply Forall_map. rewrite Forall_forall in *. intros t Ht. apply tref_rt; auto.
Qed.

(** ** Decoding *)
Lemma or_error_Ok {A} (a : A) : or_error (Ok a) = Ok a.
Proof. done. Qed.

Lemma tref_small t : solid_tree t = true -> big t = false -> tref t = titem t.
Proof. intros Hs Hb. rewrite tref_solid by done. unfold close. unfold big, tenc in Hb. apply negb_false_iff in Hb. rewrite Hb. done. Qed.

Lemma tref_big t : solid_tree t = true -> big t = true -> tref t = IBytes (keccak (tenc t)).
Proof. intros Hs Hb. rewrite tref_solid by done. unfold close. unfold big, tenc in Hb. apply negb_true_iff in Hb. rewrite Hb. done. Qed.

Lemma decodeRef_tref dec u rest : wf u -> sized u -> Z.of_nat (length (renc_iface (tref u) ++ rest)) < 2 ^ 63 ->
  (wfN u -> big u = false -> dec (tenc u ++ rest) = Ok (top loaded u)) ->
  decodeRef dec (renc_iface (tref u) ++ rest) = Ok (refn u, rest).
Proof.
  intros W Hs Hl Hdec. destruct (Split_iface (tref u) rest) as (k & c & E & Hk); [apply tref_rt; [by left|done]|done|].
  unfold decodeRef. rewrite E. cbn [or_error]. rewrite result_bind_Ok. destruct W as [->|W].
  - destruct Hk as (-> & Hk & Hk'). rewrite Hk' by done. done.
  - assert (solid_tree u = true) as Hsol by (inversion W; done). rewrite refn_solid by done. destruct (big u) eqn:Eb.
    + rewrite tref_big in Hk by done. destruct Hk as (-> & Hk & Hk').
      pose proof (keccak_length (tenc u)) as Hlen. unfold HashLength in Hlen. rewrite Hk' by (rewrite Hlen; done).
      rewrite Hlen. rewrite (bool_decide_false (KString = KList)), (bool_decide_true (KString = KString)) by done. cbn [andb].
      rewrite bool_decide_false by (intros E0; rewrite E0 in Hlen; done). done.
    + rewrite tref_small in * by done. rewrite titem_items in Hk by done. destruct Hk as [-> ->].
      rewrite bool_decide_true by done. change (renc_iface (titem u)) with (tenc u).
      unfold big in Eb. apply negb_false_iff, Nat.ltb_lt in Eb.
      rewrite (proj2 (Nat.ltb_ge _ _)) by (rewrite length_app; unfold hashLen; lia). rewrite Hdec by done. done.
Qed.

Lemma decodeChildren_trefs dec us rest : Forall wf us -> Forall sized us ->
  Z.of_nat (length (concat (map renc_iface (map tref us)) ++ rest)) < 2 ^ 63 ->
  (forall u r, u ∈ us -> (length r <= length (concat (map renc_iface (map tref us)) ++ rest))%nat ->
    (length (tenc u ++ r) <= length (concat (map renc_iface (map tref us)) ++ rest))%nat -> wfN u -> big u = false ->
    dec (tenc u ++ r) = Ok (top loaded u)) ->
  decodeChildren dec (length us) (concat (map renc_iface (map tref us)) ++ rest) = Ok (map refn us, rest).
Proof.
  induction us as [|u us IH]; intros W Hs Hl Hdec; [done|]. inversion W; inversion Hs; subst.
  cbn [map concat length decodeChildren] in *. rewrite <- app_assoc in *.
  rewrite decodeRef_tref; [|done|done|done|].
  - rewrite result_bind_Ok, IH; [done|done|done|rewrite length_app in Hl; lia|].
    intros v r Hv Hr1 Hr2. apply Hdec; [by right|rewrite !length_app in *; lia|rewrite !length_app in *; lia].
  - intros Wu Hb. apply Hdec; [by left|rewrite !length_app; lia| |done|done].
    rewrite tref_small; [done|by inversion Wu|done].
Qed.

Lemma SplitString_bytes b rest : is_bytes b -> Z.of_nat (length (rstr b ++ rest)) < 2 ^ 63 -> SplitString (rstr b ++ rest) = Ok (b, rest).
Proof.
  intros Hb Hl. destruct (Split_iface (IBytes b) rest Hb Hl) as (k & c & E & -> & Hk & _). unfold SplitString.
  cbn [renc_iface] in E. rewrite E, result_bind_Ok, bool_decide_false by done. done.
Qed.

Lemma tenc_rlist t : wfN t -> tenc t = rlist (concat (map renc_iface (items t))).
Proof. intros W. unfold tenc. rewrite titem_items by (inversion W; done). done. Qed.

Lemma decodeShort_ok dec h k u : wfN (TShort k u) -> sized (TShort k u) ->
  Z.of_nat (length (concat (map renc_iface (items (TShort k u))))) < 2 ^ 63 ->
  (forall r, (length (tenc u ++ r) <= length (concat (map renc_iface (items (TShort k u)))))%nat -> wfN u -> big u = false ->
    dec (tenc u ++ r) = Ok (top loaded u)) ->
  decodeShort dec h (concat (map renc_iface (items (TShort k u)))) = Ok (top {| fl_hash := h; fl_dirty := false |} (TShort k u)).
Proof.
  intros W [_ Hs] Hl Hdec. cbn [items map concat] in *. destruct (wf_compact _ _ W) as (Hc & Hb & _ & Ht).
  unfold decodeShort. change (renc_iface (IBytes (hexToCompact k))) with (rstr (hexToCompact k)) in *.
  rewrite SplitString_bytes by done. cbn [or_error]. rewrite result_bind_Ok, Hc, Ht.
  rewrite !length_app in Hl, Hdec. inversion W as [p v Hp Hv|p ts Hp Hne Wf|]; subst.
  - destruct Hs as [Hvb _]. cbn [tref renc_iface] in *. rewrite SplitString_bytes by (done || rewrite length_app; lia). done.
  - rewrite decodeRef_tref; [done|by right|done|rewrite length_app; lia|]. intros _ Hb'. apply Hdec; [|done|done].
    rewrite tref_small by done. fold (tenc (TFull ts)). rewrite !length_app. lia.
Qed.

Lemma decodeFull_ok dec h ts : wfN (TFull ts) -> sized (TFull ts) ->
  Z.of_nat (length (concat (map renc_iface (items (TFull ts))))) < 2 ^ 63 ->
  (forall u r, u ∈ ts -> (length (tenc u ++ r) <= length (concat (map renc_iface (items (TFull ts)))))%nat -> wfN u -> big u = false ->
    dec (tenc u ++ r) = Ok (top loaded u)) ->
  decodeFull dec h (concat (map renc_iface (items (TFull ts)))) = Ok (top {| fl_hash := h; fl_dirty := false |} (TFull ts)).
Proof.
  intros W Hs Hl Hdec. rewrite sized_full in Hs. destruct (wf_children _ W) as (cs & l & -> & Hcs & Hwf & Hv).
  apply Forall_app in Hs as [Hs Hsl]. inversion Hsl as [|?? Hsl' _]; subst. cbn [items] in *.
  rewrite !map_app, concat_app in *. unfold decodeFull. rewrite <- Hcs.
  rewrite (decodeChildren_trefs dec cs); [|done|done|done|intros u r Hu _ Hr; apply Hdec; [apply elem_of_app; by left|done]].
  rewrite result_bind_Ok. cbn [map concat]. destruct Hv as [->|(v & -> & Hv)]; cbn [tref renc_iface].
  - rewrite SplitString_bytes; [|apply Forall_nil_2|by vm_compute]. cbn [or_error]. rewrite result_bind_Ok. cbn. rewrite map_app. done.
  - destruct Hsl' as [Hvb Hvl]. rewrite SplitString_bytes; [|done|].
    + cbn [or_error]. rewrite result_bind_Ok. cbn [top fst]. rewrite map_app. cbn [map refn]. destruct v; done.
    + rewrite length_app in Hl. cbn [map concat tref renc_iface] in Hl. lia.
Qed.

Lemma CountValues_ok t : wfN t -> sized t -> Z.of_nat (length (concat (map renc_iface (items t)))) < 2 ^ 63 ->
  CountValues (concat (map renc_iface (items t))) = Ok (Z.of_nat (length (items t))).
Proof. intros W Hs Hl. unfold CountValues. rewrite CountValues_items; [done|by apply items_rt|done|done]. Qed.

Lemma decode_ok t : wfN t -> sized t -> forall fuel h rest, Z.of_nat (length (tenc t ++ rest)) < 2 ^ 63 ->
  (length (tenc t ++ rest) < fuel)%nat ->
  decodeNode_fuel fuel h (tenc t ++ rest) = Ok (top {| fl_hash := h; fl_dirty := false |} t).
Proof.
  induction t as [|v|k t IH|ts IH] using tree_induction; intros W Hs fuel h rest Hl Hf; [inversion W|inversion W|..];
    rewrite tenc_rlist in * by done; pose proof (length_rlist (concat (map renc_iface (items (TShort k t))))) as Hlr
    || pose proof (length_rlist (concat (map renc_iface (items (TFull ts))))) as Hlr;
    rewrite length_app in Hl, Hf; (destruct fuel as [|fuel]; [lia|]); cbn [decodeNode_fuel];
    destruct (rlist _ ++ rest) as [|x l] eqn:E; try (by apply app_nil in E as [E _]; by apply rlist_nonnil in E); rewrite <- E;
    unfold SplitList; rewrite Split_rlist by (rewrite length_app; lia); rewrite result_bind_Ok, bool_decide_true by done;
    cbn [or_error]; rewrite result_bind_Ok; cbn [fst]; rewrite CountValues_ok by (done || lia); cbn iota.
  - change (Z.of_nat (length (items (TShort k t))) =? 2) with true. cbn iota. apply decodeShort_ok; [done|done|lia|].
    intros r Hr Wt _. destruct Hs as [_ Hs]. apply IH; [done|done|lia|lia].
  - assert (Z.of_nat (length (items (TFull ts))) = 17) as -> by (cbn [items]; rewrite length_map; inversion W; subst; lia).
    cbn iota. change (17 =? 2) with false. change (17 =? 17) with true. cbn iota. apply decodeFull_ok; [done|done|lia|].
    intros u r Hu Hr Wu _. rewrite Forall_forall in IH. apply IH; [done|done| |lia|lia].
    rewrite sized_full, Forall_forall in Hs. by apply Hs.
Qed.

(** ** Encoding *)
Lemma puthead_le a b n : (length (puthead a b n) <= 9)%nat.
Proof. unfold puthead. destruct (_ <? 56); cbn [length]; [lia|]. unfold putint. repeat case_match; rewrite length_be; lia. Qed.

Lemma rstr_le b : (length (rstr b) <= 9 + length b)%nat.
Proof.
  unfold rstr. pose proof (puthead_le 0x80 0xB7 (Z.of_nat (length b))).
  destruct b as [|x [|y b]]; [rewrite length_app; lia| |rewrite length_app; lia]. destruct (x <=? 127); [cbn; lia|].
  pose proof (puthead_le 0x80 0xB7 1). rewrite length_app. cbn [length] in *. lia.
Qed.

Lemma rlist_le p : (length (rlist p) <= 9 + length p)%nat.
Proof. unfold rlist. rewrite length_app. pose proof (puthead_le 0xC0 0xF7 (Z.of_nat (length p))). lia. Qed.

Lemma tref_le t : sized t -> Z.of_nat (length (renc_iface (tref t))) <= 2 ^ 32 + 9.
Proof.
  intros Hs. destruct (solid_tree t) eqn:Hsol.
  - rewrite tref_solid by done. unfold close. destruct (Nat.ltb_spec (length (renc_iface (titem t))) 32) as [Hlt|]; [lia|].
    cbn [renc_iface]. pose proof (rstr_le (keccak (renc_iface (titem t)))) as Hle. rewrite keccak_length in Hle.
    unfold HashLength in Hle. lia.
  - destruct t as [|v| |]; [by vm_compute| |done|done]. destruct Hs as [_ Hs]. cbn [tref renc_iface]. pose proof (rstr_le v). lia.
Qed.

Lemma concat_le (l : list bytes) m : Forall (fun b => Z.of_nat (length b) <= m) l -> Z.of_nat (length (concat l)) <= Z.of_nat (length l) * m.
Proof. induction 1; cbn [concat length]; [lia|]. rewrite length_app. lia. Qed.

Lemma tenc_size t : wfN t -> sized t -> Z.of_nat (length (tenc t)) < 2 ^ 40.
Proof.
  intros W Hs. rewrite tenc_rlist by done. pose proof (rlist_le (concat (map renc_iface (items t)))).
  assert (Forall (fun b => Z.of_nat (length b) <= 2 ^ 32 + 11) (map renc_iface (items t))) as Hf.
  { destruct t as [|v|k t|ts]; [constructor|constructor|..]; cbn [items].
    - destruct Hs as [Hk Hs]. repeat constructor; [|pose proof (tref_le t Hs); lia]. cbn [renc_iface].
      destruct (wf_compact _ _ W) as (_ & _ & Hc & _). pose proof (rstr_le (hexToCompact k)). lia.
    - rewrite sized_full in Hs. rewrite !Forall_map. eapply Forall_impl; [exact Hs|]. intros t Ht. cbn. pose proof (tref_le t Ht). lia. }
  apply concat_le in Hf. rewrite length_map in Hf. assert (length (items t) <= 17)%nat; [|lia].
  destruct t as [|v|k t|ts]; cbn; try lia. rewrite length_map. inversion W; subst. lia.
Qed.

Lemma ival_rt_wt v : ival_rt v -> ival_wt v.
Proof.
  induction v as [|b|l IH] using ival_induction; [done|done|]. cbn. rewrite !foldr_and_Forall. intros H.
  rewrite Forall_forall in *. auto.
Qed.

Lemma titem_wt t : wfN t -> sized t -> ival_wt (titem t).
Proof. intros W Hs. apply ival_rt_wt. rewrite titem_items by (inversion W; done). cbn. apply foldr_and_Forall. by apply items_rt. Qed.

Lemma tenc_bytes t : wfN t -> sized t -> is_bytes (tenc t).
Proof. intros W Hs. by apply renc_iface_bytes, titem_wt. Qed.

Lemma EncodeToBytes_ok t : wfN t -> sized t -> EncodeToBytes TIface (titem t) = Ret (Ok (tenc t)).
Proof.
  intros W Hs. rewrite (EncodeToBytes_spec TIface); [done|done| |].
  - by apply titem_wt.
  - unfold small. change (renc TIface no_tags (titem t)) with (tenc t). pose proof (tenc_size t W Hs). lia.
Qed.

Lemma encode_ok t : wfN t -> sized t -> encode (titem t) = Ret (tenc t).
Proof. intros W Hs. unfold encode. by rewrite EncodeToBytes_ok. Qed.

Lemma decodeNode_ok h t : wfN t -> sized t -> decodeNode h (tenc t) = Ok (top {| fl_hash := h; fl_dirty := false |} t).
Proof.
  intros W Hs. unfold decodeNode. pose proof (decode_ok t W Hs (S (length (tenc t))) h []) as H. rewrite app_nil_r in H.
  pose proof (tenc_size t W Hs). apply H; lia.
Qed.

End Decode.

(** ** Nodes without their flags *)
Section Raw.
Context {K : KeccakLib}.

Fixpoint rref (t : tree) : raw :=
  match t with
  | TNil => rawNil
  | TVal v => rawValue v
  | TShort k u => if big t then rawHash (keccak (tenc t)) else rawShortNode (hexToCompact k) (rref u)
  | TFull ts => if big t then rawHash (keccak (tenc t)) else rawFullNode (map rref ts)
  end.

Definition rtop (t : tree) : raw :=
  match t with
  | TNil => rawNil
  | TVal v => rawValue v
  | TShort k u => rawShortNode (hexToCompact k) (rref u)
  | TFull ts => rawFullNode (map rref ts)
  end.

Lemma rref_solid t : solid_tree t = true -> rref t = if big t then rawHash (keccak (tenc t)) else rtop t.
Proof. destruct t; done. Qed.

Definition side_ival (r : raw) : ival := match r with rawNil => IBytes [] | _ => raw_ival r end.

Lemma rref_nil t : part t -> t <> TNil -> side_ival (rref t) = raw_ival (rref t).
Proof. destruct t; [done|done|..]; intros _ _; cbn [rref]; by destruct (big _). Qed.

Lemma side_ref t : part t -> side_ival (rref t) = tref t.
Proof.
  assert (forall u, solid_tree u = true -> raw_ival (rtop u) = titem u -> side_ival (rref u) = tref u) as Hstep.
  { intros u Hs E. rewrite rref_solid, tref_solid by done. unfold close, big, tenc.
    destruct (length (renc_iface (titem u)) <? 32)%nat; [|done]. cbn [negb]. rewrite <- E. destruct u; done. }
  induction 1 as [|v|k u W Hu Hp IH|ts W Hp IH] using part_induction; [done|done|..]; apply Hstep; try done; cbn [rtop raw_ival titem].
  - by rewrite <- IH, rref_nil.
  - f_equal. rewrite map_map. apply map_ext_Forall. done.
Qed.

Lemma raw_ival_top t : wfN t -> raw_ival (rtop t) = titem t.
Proof.
  intros W. destruct t as [|v|k u|ts]; [inversion W|inversion W|..]; cbn [rtop raw_ival titem].
  - destruct (short_part _ _ W). by rewrite <- rref_nil, side_ref.
  - f_equal. rewrite map_map. apply map_ext_Forall. eapply Forall_impl; [exact (full_parts _ W)|]. apply side_ref.
Qed.

(** A node in memory expands to what its encoding decodes to. *)
Lemma expand_full h ts : Forall (fun t => t <> TNil -> expandNode None (rref t) = Ret (refn t)) ts ->
  expandNode h (rawFullNode (map rref ts)) = Ret (fullNode (map refn ts) {| fl_hash := h; fl_dirty := false |}).
Proof.
  intros H. cbn [expandNode].
  match goal with |- (_ ← ?all (map rref ts); _) = _ => assert (all (map rref ts) = Ret (map refn ts)) as -> end; [|done].
  induction H as [|t ts Ht _ IH]; [done|]. cbn [map]. rewrite IH. destruct (decide (t = TNil)) as [->|Hn]; [done|].
  specialize (Ht Hn). assert (rref t <> rawNil) by (destruct t; [done|done|..]; cbn [rref]; by destruct (big _)).
  destruct (rref t); [done|..]; rewrite Ht; done.
Qed.

Lemma expand_top h t : wfN t -> Forall (fun t => t <> TNil -> expandNode None (rref t) = Ret (refn t)) match t with TShort _ u => [u] | TFull ts => ts | _ => [] end ->
  expandNode h (rtop t) = Ret (top {| fl_hash := h; fl_dirty := false |} t).
Proof.
  intros W H. destruct t as [|v|k u|ts]; [inversion W|inversion W|..]; cbn [rtop].
  - destruct (short_part _ _ W) as [_ Hn], (wf_compact _ _ W) as (Hc & _). inversion H as [|?? Hu _]; subst.
    cbn [expandNode]. rewrite Hu, Hc by done. done.
  - by apply expand_full.
Qed.

Lemma expand_ref t : part t -> t <> TNil -> expandNode None (rref t) = Ret (refn t).
Proof.
  assert (forall u, wfN u -> expandNode None (rtop u) = Ret (top loaded u) -> expandNode None (rref u) = Ret (refn u)) as Hstep.
  { intros u W E. rewrite rref_solid, refn_solid by (inversion W; done). destruct (big u); done. }
  induction 1 as [|v|k u W Hu Hp IH|ts W Hp IH] using part_induction; intros Hn; [done|done|..]; apply Hstep; try done;
    apply expand_top; try done. by constructor.
Qed.

Lemma expandNode_ok h t : wfN t -> expandNode h (rtop t) = Ret (top {| fl_hash := h; fl_dirty := false |} t).
Proof.
  intros W. apply expand_top; [done|]. assert (Forall part match t with TShort _ u => [u] | TFull ts => ts | _ => [] end) as Hp.
  { destruct t as [|v|k u|ts]; [constructor|constructor|..]; [|by apply full_parts]. destruct (short_part _ _ W). by constructor. }
  eapply Forall_impl; [exact Hp|]. apply expand_ref.
Qed.

End Raw.
