(* ===== verification/TrieCommit.v ===== *)
(** * Hashing, committing and reopening a trie

    The database maps hashes to encodings that have them.  Among the encodings in
    use, a set [X], no two have the same hash: this is what the code relies on
    when it looks up nodes by their hash. *)
From S2P Require Import Prelude Rlp RlpDecode RlpInput TrieCodec Trie TrieTree TrieMap TrieStore TrieDecode.
Local Open Scope Z_scope.

(** ** Nodes and what is kept of them in memory *)
Fixpoint node_induction (P : node -> Prop) (Hn : P nilNode) (Hs : forall k n fl, P n -> P (shortNode k n fl))
    (Hf : forall ns fl, Forall P ns -> P (fullNode ns fl)) (Hh : forall h, P (hashNode h)) (Hv : forall v, P (valueNode v))
    (n : node) : P n :=
  match n with
  | nilNode => Hn
  | shortNode k m fl => Hs k m fl (node_induction P Hn Hs Hf Hh Hv m)
  | fullNode ns fl => Hf ns fl ((fix go (l : list node) : Forall P l :=
      match l with
      | [] => List.Forall_nil P
      | m :: l' => @List.Forall_cons node P m l' (node_induction P Hn Hs Hf Hh Hv m) (go l')
      end) ns)
  | hashNode h => Hh h
  | valueNode v => Hv v
  end.

Lemma raw_simplify n : raw_ival (simplifyNode n) = node_ival n.
Proof.
  induction n as [|k n fl IH|ns fl IH|h|v] using node_induction; cbn; [done|by rewrite IH| |done|done].
  f_equal. rewrite map_map. apply map_ext_Forall. eapply Forall_impl; [exact IH|]. intros n E. destruct n; done.
Qed.

Section Commit.
Context {K : KeccakLib} (X : bytes -> Prop).

(** No collisions in [X]; the zero hash and the empty root are not used. *)
Record collision_free : Prop := {
  cf_inj : forall e e', X e -> X e' -> keccak e = keccak e' -> e = e';
  cf_zero : forall e, X e -> keccak e <> zeroHash;
  cf_empty : forall e, X e -> keccak e <> emptyRoot }.

(** The encodings of the nodes of a tree are in [X]. *)
Fixpoint seen (t : tree) : Prop :=
  match t with
  | TNil | TVal _ => True
  | TShort _ u => X (tenc t) /\ seen u
  | TFull ts => X (tenc t) /\ foldr (fun u P => seen u /\ P) True ts
  end.

Lemma seen_full ts : seen (TFull ts) <-> X (tenc (TFull ts)) /\ Forall seen ts.
Proof. cbn [seen]. by rewrite foldr_and_Forall. Qed.

Lemma seen_solid t : seen t -> solid_tree t = true -> X (tenc t).
Proof. destruct t as [|v|k u|ts]; try done; intros [H _] _; done. Qed.

(** ** What the database has *)
Definition cached (c : cachedNode) (e : bytes) : Prop :=
  cn_node c = rawNode e \/ exists t, cn_node c = rtop t /\ wfN t /\ sized t /\ e = tenc t.

Definition keyed (h e : bytes) : Prop := X e /\ keccak e = h.

Definition db_ok (db : Database) : Prop :=
  (forall h c, db_dirties db !! h = Some c -> h <> zeroHash -> exists e, keyed h e /\ cached c e)
  /\ (forall h e, length h = HashLength -> db_disk db !! h = Some e -> keyed h e).

Definition has (db : Database) (h : bytes) : Prop := is_Some (db_dirties db !! h) \/ is_Some (db_disk db !! h).

Definition extends (D D' : Resolver) : Prop := forall h n, length h = HashLength -> D h = Ret (Some n) -> D' h = Ret (Some n).

Context {KL : KeccakLaws K}.

Lemma stored_extends D D' t : extends D D' -> stored D t -> stored D' t.
Proof. intros HD. induction 1 as [t Hs Hd Hb IH]. constructor; auto using keccak_length. Qed.

Lemma flag_extends D D' b fl t : extends D D' -> flag_ok D b fl t -> flag_ok D' b fl t.
Proof. intros HD [H1 H2]. split; [done|]. intros Hd Hb. eapply stored_extends; eauto. Qed.

Lemma repr_extends D D' b n t : extends D D' -> repr D b n t -> repr D' b n t.
Proof.
  intros HD. revert b n. induction t as [|v|k t IH|ts IH] using tree_induction; intros b n Hr.
  - inversion Hr; subst; constructor; eauto using stored_extends.
  - inversion Hr; subst; constructor; eauto using stored_extends.
  - inversion Hr; subst; constructor; eauto using stored_extends, flag_extends.
  - inversion Hr as [| | |? ns ? ? Hns Hf|]; subst; constructor; eauto using stored_extends, flag_extends.
    clear - IH Hns. revert ns Hns. induction IH as [|t ts Ht _ IH']; intros ns Hns; inversion Hns; subst; constructor; auto.
Qed.

Lemma extends_refl D : extends D D.
Proof. by intros h n. Qed.

Lemma extends_trans D1 D2 D3 : extends D1 D2 -> extends D2 D3 -> extends D1 D3.
Proof. intros H1 H2 h n Hl E. auto. Qed.

Lemma same_enc t u : wfN t -> sized t -> wfN u -> sized u -> tenc t = tenc u -> from_db t = from_db u.
Proof.
  intros Wt St Wu Su E. unfold from_db. rewrite E. pose proof (decodeNode_ok (Some (keccak (tenc u))) t Wt St) as H.
  rewrite E, (decodeNode_ok _ u) in H by done. congruence.
Qed.

Lemma mustDecode_ok t : wfN t -> sized t -> mustDecodeNode (keccak (tenc t)) (tenc t) = Ret (from_db t).
Proof. intros W Hs. unfold mustDecodeNode. by rewrite decodeNode_ok. Qed.

Lemma obj_rtop c t h : cn_node c = rtop t -> wfN t -> cachedNode_obj c h = Ret (top {| fl_hash := Some h; fl_dirty := false |} t).
Proof. intros E W. unfold cachedNode_obj. rewrite <- expandNode_ok, E by done. inversion W; subst; done. Qed.

(** A node is looked up by the hash of its encoding. *)
Lemma node_ok db t : collision_free -> db_ok db -> wfN t -> sized t -> X (tenc t) -> has db (keccak (tenc t)) ->
  db_node db (keccak (tenc t)) = Ret (Some (from_db t)).
Proof.
  intros CF [Hm Hd] W Hs HX Hh. pose proof (cf_zero CF _ HX) as Hz. unfold db_node, has in *.
  destruct (db_dirties db !! _) as [c|] eqn:Ec.
  - destruct (Hm _ c Ec Hz) as (e & [He Hk] & Hc). apply (cf_inj CF) in Hk; [|done|done]. subst e.
    destruct Hc as [E|(u & E & Wu & Hu & Eu)].
    + unfold cachedNode_obj. rewrite E, mustDecode_ok by done. done.
    + rewrite (obj_rtop c u _ E Wu), Eu. change (top _ u) with (from_db u). by rewrite (same_enc u t).
  - destruct Hh as [[? Hh]|[e Hh]]; [done|]. rewrite Hh. destruct (Hd _ e (keccak_length _) Hh) as [He Hk].
    apply (cf_inj CF) in Hk; [|done|done]. subst e. by rewrite mustDecode_ok.
Qed.

Lemma node_has db h n : db_node db h = Ret (Some n) -> has db h.
Proof.
  unfold db_node, has. destruct (db_dirties db !! h); [eauto|]. destruct (db_disk db !! h); [eauto|done].
Qed.

(** A node is added. *)
Lemma insert_db_ok db t : collision_free -> db_ok db -> wfN t -> sized t -> X (tenc t) ->
  let db' := db_insert db (keccak (tenc t)) (rtop t) in
  db_ok db' /\ extends (db_node db) (db_node db') /\ db_node db' (keccak (tenc t)) = Ret (Some (from_db t)).
Proof.
  intros CF Hok W Hs HX db'. assert (db_ok db') as Hok'.
  { destruct Hok as [Hm Hd]. subst db'. unfold db_insert. destruct (db_dirties db !! _) eqn:E; [done|]. split; [|done].
    cbn. intros h c [[<- <-]|[Hne Hc]]%lookup_insert_Some Hz; [|by apply Hm]. exists (tenc t). split; [done|]. right. eauto. }
  assert (has db' (keccak (tenc t))) as Hh.
  { left. subst db'. unfold db_insert. destruct (db_dirties db !! _) eqn:E; [by rewrite E|]. cbn. rewrite lookup_insert_eq. eauto. }
  pose proof (node_ok db' t CF Hok' W Hs HX Hh) as Hn. split_and!; [done| |done].
  intros h n _ E. destruct (decide (h = keccak (tenc t))) as [->|Hne].
  - apply node_has in E as Hh'. rewrite Hn, <- E. symmetry. by apply node_ok.
  - rewrite <- E. subst db'. unfold db_insert. destruct (db_dirties db !! keccak (tenc t)); [done|].
    unfold db_node. cbn. by rewrite lookup_insert_ne.
Qed.

(** ** Hashing *)
Definition after (D : Resolver) (db : option Database) : Resolver := match db with Some d => db_node d | None => D end.
Definition live (db : option Database) : Prop := match db with Some d => collision_free /\ db_ok d | None => True end.

(** What the hasher returns for a tree: its hash, or what stands for it. *)
Definition hashed (b : bool) (hn : node) (t : tree) : Prop :=
  if b then hn = hashNode (keccak (tenc t)) else simplifyNode hn = rref t.

(** With a database, everything that the result refers to is stored. *)
Definition kept (D : Resolver) (db : option Database) (b : bool) (t : tree) : Prop :=
  is_Some db -> forall u, u ∈ (if b then [t] else refs t) -> stored (after D db) u.

(** Nodes are only added to the database. *)
Inductive inserted (db : Database) : Database -> Prop :=
  | inserted_none : inserted db db
  | inserted_node db' t : inserted db db' -> wfN t -> sized t -> seen t -> inserted db (db_insert db' (keccak (tenc t)) (rtop t)).

Definition option_inserted (db db' : option Database) : Prop :=
  match db, db' with Some d, Some d' => inserted d d' | None, None => True | _, _ => False end.

Definition grown (D : Resolver) (db db' : option Database) : Prop :=
  live db' /\ extends (after D db) (after D db') /\ option_inserted db db'.

Lemma inserted_trans d1 d2 d3 : inserted d1 d2 -> inserted d2 d3 -> inserted d1 d3.
Proof. intros H. induction 1; [done|by apply inserted_node]. Qed.

Lemma inserted_is_Some db db' : option_inserted db db' -> is_Some db' -> is_Some db.
Proof. destruct db, db'; try done; eauto. Qed.

Lemma grown_refl D db : live db -> grown D db db.
Proof. intros H. split_and!; [done|apply extends_refl|]. destruct db; [constructor|done]. Qed.

Lemma grown_trans D db1 db2 db3 : grown D db1 db2 -> grown D db2 db3 -> grown D db1 db3.
Proof.
  intros (_ & H1 & H1') (H2 & H2' & H2''). split_and!; [done|by eapply extends_trans|].
  destruct db1, db2, db3; try done. by eapply inserted_trans.
Qed.

Lemma hashed_hash b h t : solid_tree t = true -> hash_ok b h t -> hashed b (hashNode h) t.
Proof. intros Hs [-> Hb]. unfold hashed. destruct b; [done|]. cbn. by rewrite rref_solid, Hb. Qed.

Lemma store_solid n db b : solid n = true -> hasher_store n db b =
  (tmp ← encode (node_ival n);
   if (length tmp <? 32)%nat && negb b then Ret (n, db)
   else
     let hash := match fst (cache n) with Some h => h | None => keccak tmp end in
     Ret (hashNode hash, match db with Some db => Some (db_insert db (BytesToHash hash) (simplifyNode n)) | None => None end)).
Proof. destruct n; done. Qed.

Lemma hasher_store_ok D db b n fl t : live db -> solid n = true -> cache n = (fl_hash fl, fl_dirty fl) ->
  flag_ok (after D db) b fl t -> simplifyNode n = rtop t -> wfN t -> sized t -> seen t ->
  (is_Some db -> forall u, u ∈ below t -> stored (after D db) u) ->
  exists hn db', hasher_store n db b = Ret (hn, db') /\ grown D db db' /\ hashed b hn t /\ kept D db' b t
    /\ flag_ok (after D db') b {| fl_hash := as_hash hn; fl_dirty := fl_dirty fl && negb (is_some db') |} t.
Proof.
  intros Hl Hs Hc [Hf Hcl] E W Hz HX Hbel. assert (solid_tree t = true) as Hsol by (inversion W; done).
  assert (hasher_store n db b = if (length (tenc t) <? 32)%nat && negb b then Ret (n, db) else
    Ret (hashNode (keccak (tenc t)), match db with Some d => Some (db_insert d (keccak (tenc t)) (rtop t)) | None => None end)) as ->.
  { rewrite store_solid, <- raw_simplify, E, raw_ival_top, encode_ok, Hc by done. cbn [fst mbind outcome_bind].
    assert (match fl_hash fl with Some h => h | None => keccak (tenc t) end = keccak (tenc t)) as ->.
    { destruct (fl_hash fl) as [h|]; [|done]. by destruct (Hf h eq_refl) as [-> _]. }
    rewrite BytesToHash_id by apply keccak_length. done. }
  destruct (_ && _) eqn:Eb.
  - apply andb_true_iff in Eb as [Eb ->%negb_true_iff]. assert (big t = false) as Hbig by (unfold big; by rewrite Eb).
    exists n, db. split_and!; [done|by apply grown_refl| | |].
    + unfold hashed. by rewrite E, rref_solid, Hbig.
    + unfold kept. by rewrite refs_solid, Hbig.
    + split; [destruct n; done|]. intros _. by rewrite Hbig.
  - assert (b = false -> big t = true) as Hb by (intros ->; unfold big; rewrite andb_true_r in Eb; by rewrite Eb).
    eexists _, _. split; [reflexivity|]. destruct db as [d|].
    + destruct Hl as [CF Hl], (insert_db_ok d t CF Hl W Hz (seen_solid t HX Hsol)) as (Hok & Hext & Hn).
      assert (stored (db_node (db_insert d (keccak (tenc t)) (rtop t))) t) as Hst.
      { constructor; [done|done|]. intros u Hu. eapply stored_extends; [exact Hext|]. by apply Hbel. }
      split_and!; [split_and!; [done|done|by apply inserted_node; [constructor|..]]|by apply hashed_hash| |].
      * intros _ u Hu. assert (u = t) as ->; [|done]. destruct b; [by apply list_elem_of_singleton|].
        rewrite refs_solid, Hb in Hu by done. by apply list_elem_of_singleton.
      * split; [|done]. intros h [= <-]. done.
    + split_and!; [by apply grown_refl|by apply hashed_hash|by intros [? ?]|]. split; [by intros h [= <-]|]. cbn. by rewrite andb_true_r.
Qed.

(** ** The hasher *)
Definition hashes (D : Resolver) (db : option Database) (b : bool) (t : tree) (r : outcome (node * node * option Database)) : Prop :=
  exists hn c db', r = Ret (hn, c, db') /\ grown D db db' /\ hashed b hn t /\ kept D db' b t /\ repr (after D db') b c t.

Lemma finish_ok D db b n c fl t : live db -> solid n = true -> cache n = (fl_hash fl, fl_dirty fl) ->
  flag_ok (after D db) b fl t -> simplifyNode n = rtop t -> wfN t -> sized t -> seen t ->
  (is_Some db -> forall u, u ∈ below t -> stored (after D db) u) ->
  (forall D' h cl, extends (after D db) D' -> flag_ok D' b {| fl_hash := h; fl_dirty := fl_dirty fl && negb cl |} t ->
    repr D' b (set_cache c h cl) t) ->
  hashes D db b t (s ← hasher_store n db b; let '(hn, db) := s in Ret (hn, set_cache c (as_hash hn) (is_some db), db)).
Proof.
  intros Hl Hs Hc Hf E W Hz HX Hbel Hr. destruct (hasher_store_ok D db b n fl t) as (hn & db' & -> & Hg & Hh & Hk & Hf'); [done..|].
  eexists hn, _, db'. split; [reflexivity|]. split_and!; [done|done|done|]. apply Hr; [|done]. apply Hg.
Qed.

Lemma hashes_hash D db b h t : live db -> repr (after D db) b (hashNode h) t -> hashes D db b t (hasher_hash (hashNode h) db b).
Proof.
  intros Hl Hr. exists (hashNode h), (hashNode h), db. split; [by destruct db|]. inversion Hr as [| | | |? ? ? Hh Hst]; subst.
  assert (solid_tree t = true) as Hs by (by inversion Hst). split_and!; [by apply grown_refl|by apply hashed_hash| |done].
  intros _ u Hu. assert (u = t) as ->; [|done]. destruct b; [by apply list_elem_of_singleton|].
  rewrite refs_solid in Hu by done. destruct Hh as [_ Hb]. rewrite Hb in Hu by done. by apply list_elem_of_singleton.
Qed.

(** A hash that is cached is returned. *)
Definition early (fl : nodeFlag) (db : option Database) : bool := is_some (fl_hash fl) && negb (is_some db && fl_dirty fl).

Lemma hashes_early D db b n fl t : live db -> solid n = true -> cache n = (fl_hash fl, fl_dirty fl) ->
  flag_ok (after D db) b fl t -> repr (after D db) b n t -> early fl db = true -> hashes D db b t (hasher_hash n db b).
Proof.
  intros Hl Hs Hc [Hf Hd] Hr He. destruct fl as [[h|] d]; [|done]. cbn in *. specialize (Hf h eq_refl). pose proof Hf as [-> Hb].
  assert (solid_tree t = true) as Hsol by (apply repr_shape in Hr; destruct n, t; done). destruct db as [db|].
  - destruct d; [done|]. assert (stored (db_node db) t) as Hst.
    { apply Hd; [done|]. destruct b; [done|]. by apply Hb. }
    apply (repr_hash (db_node db) b _ t Hf) in Hst. destruct (hashes_hash D (Some db) b _ t Hl Hst) as (hn & c & db' & E & H).
    exists hn, c, db'. split; [|done]. destruct n as [|k m fl|ns fl| |]; try done; destruct fl as [fh fd]; cbn in Hc; injection Hc as -> ->; exact E.
  - exists (hashNode (keccak (tenc t))), n, None. split_and!; [|by apply grown_refl|by apply hashed_hash|by intros [? ?]|done].
    destruct n as [|k m fl|ns fl| |]; try done; destruct fl as [fh fd]; cbn in Hc; injection Hc as -> ->; by destruct d.
Qed.

(** The node with its parts hashed, before it is stored itself. *)
Definition hash_part (c : node) (db : option Database) : outcome (node * node * option Database) := hasher_hash c db false.

Definition collapses (D : Resolver) (db : option Database) (b : bool) (fl : nodeFlag) (t : tree) (r : outcome (node * node * option Database)) : Prop :=
  exists n c db', r = Ret (n, c, db') /\ grown D db db' /\ solid n = true /\ cache n = (fl_hash fl, fl_dirty fl) /\ simplifyNode n = rtop t
    /\ (is_Some db' -> forall u, u ∈ below t -> stored (after D db') u)
    /\ (forall D' h cl, extends (after D db') D' -> flag_ok D' b {| fl_hash := h; fl_dirty := fl_dirty fl && negb cl |} t ->
          repr D' b (set_cache c h cl) t).

Lemma hash_late n fl db b : solid n = true -> cache n = (fl_hash fl, fl_dirty fl) -> early fl db = false -> hasher_hash n db b =
  (r ← hashChildren hash_part n db; let '(n, c, db) := r in
   s ← hasher_store n db b; let '(hn, db) := s in Ret (hn, set_cache c (as_hash hn) (is_some db), db)).
Proof.
  intros Hs Hc He. destruct n as [|k m fl'|ns fl'| |]; try done; destruct fl as [[h|] [|]], fl' as [fh fd], db as [db|]; try done;
    cbn in Hc; by injection Hc as -> ->.
Qed.

Lemma hashes_grown D db db1 b t r : grown D db db1 -> hashes D db1 b t r -> hashes D db b t r.
Proof. intros Hg (hn & c & db' & -> & Hg' & ? & ? & ?). exists hn, c, db'. split_and!; [done|by eapply grown_trans|done..]. Qed.

Lemma kept_grown D db db' b t : grown D db db' -> kept D db b t -> kept D db' b t.
Proof. intros (_ & He & Hs) H Hd u Hu. eapply stored_extends; [exact He|]. apply H; [by eapply inserted_is_Some|done]. Qed.

(** A child that stays as it is. *)
Lemma hashes_same D db n t : live db -> value_slot t -> repr (after D db) false n t -> hashes D db false t (Ret (n, n, db)).
Proof.
  intros Hl Ht Hr. exists n, n, db. pose proof (repr_shape _ _ _ _ Hr) as Hsh.
  split_and!; [done|by apply grown_refl|..|done]; destruct Ht as [->|(v & -> & _)].
  - destruct n; done.
  - destruct n; try done; by inversion Hr.
  - intros _ u Hu. by apply not_elem_of_nil in Hu.
  - intros _ u Hu. by apply not_elem_of_nil in Hu.
Qed.

Lemma hash_all_cons hash i c ns db : hash_all hash i (c :: ns) db =
  (r ← (if is_nil c || negb (i <? 16)%nat then Ret (c, c, db) else hash c db); let '(h, c', db) := r in
   rs ← hash_all hash (S i) ns db; let '(hs, cs, db) := rs in
   Ret (h :: hs, c' :: cs, db)).
Proof. done. Qed.

Lemma hash_all_ok D ts : Forall (fun t => wfN t -> forall n db, live db -> repr (after D db) false n t ->
    hashes D db false t (hasher_hash n db false)) ts ->
  forall ns i db, live db -> Forall2 (repr (after D db) false) ns ts ->
  (forall j t, ts !! j = Some t -> if (i + j <? 16)%nat then wf t else value_slot t) ->
  exists hs cs db', hash_all (fun c db => hasher_hash c db false) i ns db = Ret (hs, cs, db') /\ grown D db db'
    /\ map simplifyNode hs = map rref ts /\ Forall2 (repr (after D db') false) cs ts
    /\ (is_Some db' -> forall u, u ∈ concat (map refs ts) -> stored (after D db') u).
Proof.
  induction 1 as [|t ts Ht _ IH]; intros ns i db Hl Hr Hw.
  - inversion Hr; subst. exists [], [], db. split_and!; [done|by apply grown_refl|done|constructor|]. intros _ u Hu. by apply not_elem_of_nil in Hu.
  - inversion Hr as [|n ? ns' ? Hn Hns]; subst. pose proof (Hw 0%nat t eq_refl) as Hw0. rewrite Nat.add_0_r in Hw0.
    assert (hashes D db false t (if is_nil n || negb (i <? 16)%nat then Ret (n, n, db) else hasher_hash n db false))
      as (h & c & db1 & Eh & Hg & Hh & Hk & Hc).
    { destruct (is_nil n) eqn:En; [apply hashes_same; [done|left; by apply (repr_is_nil _ _ _ _ Hn)|done]|].
      destruct (i <? 16)%nat; [|by apply hashes_same]. cbn [orb negb]. destruct Hw0 as [->|W]; [|by apply Ht].
      pose proof (repr_nil_inv _ _ _ Hn) as ->. done. }
    rewrite hash_all_cons, Eh. cbn [mbind outcome_bind]. pose proof Hg as (Hl1 & He1 & _).
    destruct (IH ns' (S i) db1 Hl1) as (hs & cs & db2 & E & Hg2 & Hs & Hcs & Hst).
    { eapply Forall2_impl; [exact Hns|]. intros. by eapply repr_extends. }
    { intros j u Hj. specialize (Hw (S j) u Hj). by rewrite <- Nat.add_succ_comm in Hw. }
    rewrite E. cbn [mbind outcome_bind]. pose proof Hg2 as (_ & He2 & _).
    eexists _, _, db2. split_and!; [reflexivity|by eapply grown_trans|cbn; by rewrite Hh, Hs| |].
    + constructor; [by eapply repr_extends|done].
    + intros Hd u [Hu|Hu]%elem_of_app; [|by apply Hst]. by apply (kept_grown _ _ _ _ _ Hg2 Hk).
Qed.

Lemma hashes_late D db b n fl t : solid n = true -> cache n = (fl_hash fl, fl_dirty fl) -> early fl db = false ->
  flag_ok (after D db) b fl t -> wfN t -> sized t -> seen t -> collapses D db b fl t (hashChildren hash_part n db) ->
  hashes D db b t (hasher_hash n db b).
Proof.
  intros Hs Hc He Hf W Hz HX (col & c & db' & E & Hg & Hsol & Hcc & Hsim & Hst & Hr). rewrite (hash_late n fl), E by done.
  cbn [mbind outcome_bind]. pose proof Hg as (Hl' & Hext & _). eapply hashes_grown; [exact Hg|].
  apply finish_ok with (fl := fl); [done|done|done|by eapply flag_extends|done..].
Qed.

Lemma collapses_leaf D db b k v fl : live db -> collapses D db b fl (TShort k (TVal v)) (hashChildren hash_part (shortNode k (valueNode v) fl) db).
Proof.
  intros Hl. eexists _, _, db. split_and!; [reflexivity|by apply grown_refl|done|done|done|by intros _ u ?%not_elem_of_nil|].
  intros D' h cl Hext Hf'. constructor; [constructor|done].
Qed.

Lemma collapses_ext D db b k m u fl : (forall v, m <> valueNode v) -> hashes D db false u (hasher_hash m db false) ->
  collapses D db b fl (TShort k u) (hashChildren hash_part (shortNode k m fl) db).
Proof.
  intros Hm (hn & c & db' & E & Hg & Hh & Hk & Hc). exists (shortNode (hexToCompact k) hn fl), (shortNode k c fl), db'.
  split_and!; [|done|done|done|cbn; unfold hashed in Hh; by rewrite Hh|done|].
  - cbn [hashChildren]. unfold hash_part. rewrite E. by destruct m as [| | | |v]; try destruct (Hm v).
  - intros D' h cl Hext' Hf'. constructor; [by eapply repr_extends|done].
Qed.

Lemma collapses_full D db b ns ts fl : live db -> wfN (TFull ts) -> Forall2 (repr (after D db) false) ns ts ->
  Forall (fun t => wfN t -> forall n db, live db -> repr (after D db) false n t -> hashes D db false t (hasher_hash n db false)) ts ->
  collapses D db b fl (TFull ts) (hashChildren hash_part (fullNode ns fl) db).
Proof.
  intros Hl W Hns IH. destruct (hash_all_ok D ts IH ns 0 db Hl Hns) as (hs & cs & db' & E & Hg & Hh & Hcs & Hst).
  { intros j t Hj. destruct (wf_children _ W) as (us & l & -> & Hus & Hwf & Hv). cbn [Nat.add].
    destruct (Nat.ltb_spec j 16) as [Hlt|Hge].
    - rewrite lookup_app_l in Hj by lia. rewrite Forall_lookup in Hwf. by eapply Hwf.
    - rewrite lookup_app_r in Hj by lia. apply list_lookup_singleton_Some in Hj as [_ <-]. done. }
  exists (fullNode hs fl), (fullNode cs fl), db'. split_and!; [|done|done|done|cbn; by rewrite Hh|done|].
  - cbn [hashChildren]. unfold hash_part. by rewrite E.
  - intros D' h cl Hext' Hf'. constructor; [|done]. eapply Forall2_impl; [exact Hcs|]. intros. by eapply repr_extends.
Qed.

(** The hasher returns the hash of the tree, and what it caches and stores is
    right; so are nodes whose parts are hashed. *)
Definition hash_correct (D : Resolver) (t : tree) : Prop := sized t -> seen t -> wfN t -> forall b n db, live db -> repr (after D db) b n t ->
  hashes D db b t (hasher_hash n db b).

Definition flags (n : node) : nodeFlag := match n with shortNode _ _ fl | fullNode _ fl => fl | _ => newFlag end.

Lemma collapses_ok D t b n db : wfN t -> sized t -> seen t ->
  Forall (hash_correct D) match t with TShort _ u => [u] | TFull ts => ts | _ => [] end ->
  live db -> repr (after D db) b n t -> solid n = true ->
  collapses D db b (flags n) t (hashChildren hash_part n db) /\ flag_ok (after D db) b (flags n) t.
Proof.
  intros W Hs Hseen IH Hl Hr Hsol. inversion Hr as [| |? k m u fl Hm Hf|? ns ts fl Hns Hf|]; subst; try done; (split; [|done]).
  - pose proof Hs as [_ Hs']; pose proof Hseen as [_ Hseen']. inversion IH as [|?? IH' _]; subst.
    inversion W as [p v Hp' Hv|p ts Hp' Hne Wf|]; subst.
    + assert (m = valueNode v) as -> by (inversion Hm as [| | | |? ? ? _ Hst]; subst; [done|inversion Hst; done]). by apply collapses_leaf.
    + apply collapses_ext; [intros v ->; inversion Hm|]. by apply IH'.
  - pose proof Hseen as [_ Hseen']%seen_full. pose proof Hs as Hs'%sized_full. apply collapses_full; [done|done|done|].
    rewrite Forall_forall in *. intros t Ht Wt m db' Hl' Hm. apply IH; auto.
Qed.

Lemma hasher_ok D t : part t -> hash_correct D t.
Proof.
  assert (forall x, Forall (hash_correct D) match x with TShort _ u => [u] | TFull ts => ts | _ => [] end -> hash_correct D x) as Hstep.
  { intros x IH Hs Hseen W b n db Hl Hr. destruct (solid n) eqn:Hsol.
    - destruct (collapses_ok D x b n db) as [Hc Hf]; [done..|].
      assert (cache n = (fl_hash (flags n), fl_dirty (flags n))) as Hcn by (by destruct n).
      destruct (early (flags n) db) eqn:He; [by eapply hashes_early|by eapply hashes_late].
    - pose proof (repr_shape _ _ _ _ Hr). destruct n; try done; [inversion W; subst; done|by apply hashes_hash|inversion W; subst; done]. }
  induction 1 as [|v|k u W Hu Hp IH|ts W Hp IH] using part_induction; apply Hstep; try done. by constructor.
Qed.

(** ** The root of a trie *)
Definition root_hash (t : tree) : bytes := match t with TNil => emptyRoot | _ => keccak (tenc t) end.

Lemma hashRoot_ok D db n t : live db -> wf t -> sized t -> seen t -> repr (after D db) true n t ->
  exists c db', hashRoot n db = Ret (hashNode (root_hash t), c, db') /\ grown D db db' /\ repr (after D db') true c t
    /\ (is_Some db' -> t = TNil \/ stored (after D db') t).
Proof.
  intros Hl [->|W] Hs Hseen Hr.
  - pose proof (repr_nil_inv _ _ _ Hr) as ->. exists nilNode, db. split_and!; [done|by apply grown_refl|done|by left].
  - destruct (hasher_ok D t (part_wf t W) Hs Hseen W true n db Hl Hr) as (hn & c & db' & E & Hg & Hh & Hk & Hc). cbn in Hh. subst hn.
    exists c, db'. split_and!; [|done|done|].
    + unfold hashRoot. replace (root_hash t) with (keccak (tenc t)) by (inversion W; done). pose proof (repr_shape _ _ _ _ Hr).
      destruct n; [inversion W; subst; done|done..].
    + intros Hd. right. apply Hk; [done|]. by apply list_elem_of_singleton.
Qed.

Lemma root_hash_length t : BytesToHash (root_hash t) = root_hash t.
Proof. apply BytesToHash_id. destruct t; [done|apply keccak_length..]. Qed.

Lemma Commit_ok n t db : collision_free -> db_ok db -> wf t -> sized t -> seen t -> repr (db_node db) true n t ->
  exists n' db', Trie_Commit n db = Ret (root_hash t, n', db') /\ db_ok db' /\ extends (db_node db) (db_node db') /\ inserted db db'
    /\ repr (db_node db') true n' t /\ (t = TNil \/ stored (db_node db') t).
Proof.
  intros CF Hok W Hs Hseen Hr. destruct (hashRoot_ok (db_node db) (Some db) n t) as (c & db' & E & (Hl & He & Hi) & Hc & Hst); [done..|].
  destruct db' as [db'|]; [|done]. exists c, db'. unfold Trie_Commit. rewrite E. cbn [mbind outcome_bind hash_of].
  rewrite root_hash_length. split_and!; [done|apply Hl|done|done|done|]. apply Hst. eauto.
Qed.

Lemma New_ok t db : collision_free -> wf t -> seen t -> t = TNil \/ stored (db_node db) t ->
  exists n, Trie_New (root_hash t) db = Ret (Ok n) /\ repr (db_node db) true n t.
Proof.
  intros CF W Hseen Hst. unfold Trie_New. destruct (decide (t = TNil)) as [->|Hn].
  - exists nilNode. split; [|constructor]. by rewrite (bool_decide_false (root_hash TNil <> emptyRoot)), andb_false_r by auto.
  - destruct Hst as [->|Hst]; [done|]. inversion Hst as [? Hs Hd _]; subst. assert (root_hash t = keccak (tenc t)) as -> by (by destruct t).
    pose proof (seen_solid t Hseen Hs) as HX. rewrite !bool_decide_true by (by apply cf_zero || by apply cf_empty). cbn [andb].
    exists (from_db t). split; [apply resolveHash_ok; by rewrite BytesToHash_id by apply keccak_length|by apply stored_top].
Qed.

End Commit.

Lemma seen_impl {K : KeccakLib} (X Y : bytes -> Prop) t : (forall e, X e -> Y e) -> seen X t -> seen Y t.
Proof.
  intros H. induction t as [|v|k t IH|ts IH] using tree_induction; [done|done|intros []; split; auto|].
  rewrite !seen_full, !Forall_forall in *. intros [HX Ht]. split; auto.
Qed.

(** Hashing needs nothing of the database. *)
Lemma seen_all {K : KeccakLib} t : seen (fun _ => True) t.
Proof. induction t as [|v|k t IH|ts IH] using tree_induction; [done|done|done|]. by apply seen_full. Qed.

Lemma Hash_ok {K : KeccakLib} {KL : KeccakLaws K} D n t : wf t -> sized t -> repr D true n t ->
  exists n', Trie_Hash n = Ret (root_hash t, n') /\ repr D true n' t.
Proof.
  intros W Hs Hr. destruct (hashRoot_ok (fun _ => True) D None n t) as (c & db' & E & (_ & _ & Hi) & Hc & _); [done|done|done|apply seen_all|done|].
  destruct db'; [done|]. exists c. unfold Trie_Hash. rewrite E. cbn [mbind outcome_bind hash_of]. by rewrite root_hash_length.
Qed.
