(* ===== verification/TrieDisk.v ===== *)
(** * Tries on disk

    Trees in use are determined by their encodings, and so by their hashes.  What
    Database.Commit (chain/trie/database.go) writes for a root is all that can be
    reached from it, so that the trie can be opened again from the disk alone. *)
From S2P Require Import Prelude Rlp RlpDecode RlpInput TrieCodec Trie TrieTree TrieMap TrieStore TrieDecode TrieCommit.
Local Open Scope Z_scope.

Section Disk.
Context {K : KeccakLib} {KL : KeccakLaws K} (X : bytes -> Prop) (CF : collision_free X).

(** ** Encodings determine trees *)
Definition good (t : tree) : Prop := part t /\ sized t /\ seen X t.

Lemma good_short k u : good (TShort k u) -> good u.
Proof. intros (Hp & [_ Hs] & [_ Hse]). apply part_solid in Hp; [|done]. by destruct (short_part _ _ Hp). Qed.

Lemma good_full ts : good (TFull ts) -> Forall good ts.
Proof.
  intros (Hp & Hs%sized_full & [_ Hse]%seen_full). apply part_solid, full_parts in Hp; [|done].
  rewrite Forall_forall in *. intros t Ht. split_and!; auto.
Qed.

Lemma good_wf t : good t -> solid_tree t = true -> wfN t.
Proof. intros [Hp _] Hs. by apply part_solid. Qed.

Lemma refn_hash t h : refn t = hashNode h -> solid_tree t = true /\ big t = true /\ h = keccak (tenc t).
Proof.
  intros E. assert (solid_tree t = true) as Hs by (by destruct t). rewrite refn_solid in E by done. destruct (big t) eqn:Eb.
  - by injection E as <-.
  - destruct t; discriminate E.
Qed.

Lemma refn_top t u : solid_tree t = true -> big t = false -> refn u = top loaded t -> solid_tree u = true /\ top loaded u = top loaded t.
Proof.
  intros Hs Hb E. assert (solid_tree u = true) as Hu by (destruct u, t; done). split; [done|].
  rewrite refn_solid in E by done. destruct (big u); [destruct t; done|done].
Qed.

Definition injective_at (t : tree) : Prop := forall u, good t -> good u -> refn t = refn u -> t = u.

Lemma top_inj fl t u : solid_tree t = true -> good t -> good u ->
  Forall injective_at match t with TShort _ t' => [t'] | TFull ts => ts | _ => [] end -> top fl t = top fl u -> t = u.
Proof.
  intros Hs Gt Gu IH E. destruct t as [|v|k t|ts], u as [|w|k' u|us]; try done; injection E.
  - intros E' <-. inversion IH as [|?? IH' _]; subst. f_equal. apply IH'; [by eapply good_short..|done].
  - intros E'. f_equal. apply good_full in Gt, Gu. clear E Hs. revert us Gu E'.
    induction IH as [|t ts Ht _ IH']; intros [|u us] Gu E; try done. cbn in E. injection E as E1 E2.
    inversion Gt; inversion Gu; subst. f_equal; [by apply Ht|by apply IH'].
Qed.

Lemma enc_top t u : good t -> good u -> solid_tree t = true -> solid_tree u = true -> keccak (tenc t) = keccak (tenc u) -> from_db t = from_db u.
Proof.
  intros Gt Gu St Su E. pose proof (good_wf _ Gt St). pose proof (good_wf _ Gu Su). destruct Gt as (_ & ? & ?), Gu as (_ & ? & ?).
  apply same_enc; [done..|]. apply (cf_inj X CF); [by apply seen_solid..|done].
Qed.

Lemma refn_inj t : part t -> injective_at t.
Proof.
  assert (forall x, solid_tree x = true -> Forall injective_at match x with TShort _ t' => [t'] | TFull ts => ts | _ => [] end ->
    injective_at x) as Hstep.
  { intros x Hs IH u Gt Gu E. rewrite refn_solid in E by done. destruct (big x) eqn:Eb; symmetry in E.
    - apply refn_hash in E as (Hu & _ & E). pose proof (enc_top x u Gt Gu Hs Hu E) as E'. unfold from_db in E'. rewrite E in E'.
      by eapply top_inj.
    - apply refn_top in E as [Hu E]; [|done|done]. by eapply top_inj. }
  induction 1 as [|v|k t W Hn Hp IH|ts W Hp IH] using part_induction; [..|apply Hstep; [done|by constructor]|by apply Hstep].
  - intros u _ Gu E. destruct u as [| |k u|us]; try done; cbn [refn] in E; by destruct (big _).
  - intros u _ Gu E. destruct u as [|w|k u|us]; try done; cbn [refn] in E; [congruence|by destruct (big _)..].
Qed.

(** The hash of a tree determines the tree. *)
Lemma hash_inj t u : good t -> good u -> solid_tree t = true -> solid_tree u = true -> keccak (tenc t) = keccak (tenc u) -> t = u.
Proof.
  intros Gt Gu St Su E. pose proof (enc_top t u Gt Gu St Su E) as E'. unfold from_db in E'. rewrite E in E'.
  eapply top_inj; [done..| |exact E']. destruct t as [|v|k t|ts]; [done|done|..].
  - constructor; [|done]. apply refn_inj, (good_short k t Gt).
  - apply good_full in Gt. eapply Forall_impl; [exact Gt|]. intros t [Hp _]. by apply refn_inj.
Qed.

Lemma root_solid t : wfN t -> root_hash t = keccak (tenc t) /\ solid_tree t = true.
Proof. by inversion 1. Qed.

(** The root hash determines the tree. *)
Lemma root_inj t u : wf t -> wf u -> sized t -> sized u -> seen X t -> seen X u -> root_hash t = root_hash u -> t = u.
Proof.
  intros Wt Wu St Su Xt Xu E. assert (forall v, wfN v -> seen X v -> root_hash v <> emptyRoot) as He.
  { intros v W Hs. destruct (root_solid v W) as [-> Hv]. by apply (cf_empty X CF), seen_solid. }
  destruct Wt as [->|Wt], Wu as [->|Wu]; [done|by destruct (He u)|by destruct (He t)|].
  destruct (root_solid t Wt) as [Et Ht], (root_solid u Wu) as [Eu Hu]. rewrite Et, Eu in E.
  by apply hash_inj; [split_and!; [apply part_wf|..]..| | |].
Qed.

(** ** What can be reached from a tree *)
Fixpoint height (t : tree) : nat :=
  match t with
  | TNil | TVal _ => 0
  | TShort _ u => S (height u)
  | TFull ts => S (foldr (fun u n => Nat.max (height u) n) 0%nat ts)
  end.

Lemma height_full ts t : t ∈ ts -> (height t < height (TFull ts))%nat.
Proof. cbn [height]. induction 1; cbn; lia. Qed.

Lemma below_full ts u : u ∈ below (TFull ts) -> exists t, t ∈ ts /\ u ∈ refs t.
Proof.
  cbn [below]. intros (l & Hl & Hu)%list_elem_of_In%in_concat. apply in_map_iff in Hl as (t & <- & Ht).
  exists t. by rewrite !list_elem_of_In.
Qed.

Definition node_tree (t : tree) : Prop := good t /\ solid_tree t = true.

Lemma refs_good t : good t -> forall u, u ∈ refs t -> node_tree u /\ (height u <= height t)%nat.
Proof.
  assert (forall x, solid_tree x = true -> good x -> (forall u, u ∈ below x -> node_tree u /\ (height u < height x)%nat) ->
    forall u, u ∈ refs x -> node_tree u /\ (height u <= height x)%nat) as Hstep.
  { intros x Hs Gx H u Hu. rewrite refs_solid in Hu by done. destruct (big x).
    - apply list_elem_of_singleton in Hu as ->. done.
    - destruct (H u Hu). split; [done|lia]. }
  induction t as [|v|k t IH|ts IH] using tree_induction; intros Gt; [by intros u ?%not_elem_of_nil..| |]; apply Hstep; try done.
  - intros u Hu. destruct (IH (good_short k t Gt) u Hu). split; [done|]. cbn. lia.
  - intros u Hu. apply below_full in Hu as (t & Ht & Hu). apply good_full in Gt. rewrite Forall_forall in *. destruct (IH t Ht (Gt t Ht) u Hu) as [? Hh].
    split; [done|]. pose proof (height_full ts t Ht). lia.
Qed.

Lemma below_good t : node_tree t -> forall u, u ∈ below t -> node_tree u /\ (height u < height t)%nat.
Proof.
  intros [Gt Hs] u Hu. destruct t as [|v|k t|ts]; [done|done|..].
  - destruct (refs_good t (good_short k t Gt) u Hu). split; [done|]. cbn. lia.
  - apply below_full in Hu as (t & Ht & Hu). apply good_full in Gt. rewrite Forall_forall in Gt. destruct (refs_good t (Gt t Ht) u Hu) as [? Hh].
    split; [done|]. pose proof (height_full ts t Ht). lia.
Qed.

(** The hashes in a node are those of the trees it refers to. *)
Definition hash_tree (t : tree) : bytes := keccak (tenc t).

Lemma gather_full ts : wfN (TFull ts) -> Forall (fun t => gatherChildren (rref t) = map hash_tree (refs t)) ts ->
  gatherChildren (rtop (TFull ts)) = map hash_tree (below (TFull ts)).
Proof.
  intros W H. destruct (wf_children _ W) as (cs & l & -> & Hl & _ & Hv). apply Forall_app in H as [H _].
  cbn [rtop gatherChildren below]. rewrite !map_app. cbn [map]. rewrite take_app_length' by (by rewrite !length_map).
  rewrite concat_app. assert (concat [refs l] = []) as -> by (by destruct Hv as [->|(v & -> & _)]). rewrite app_nil_r.
  clear - H. induction H as [|t ts Ht _ IH]; [done|]. cbn. rewrite map_app. f_equal; [done|]. apply IH.
Qed.

Lemma gather_top t : wfN t -> Forall (fun t => gatherChildren (rref t) = map hash_tree (refs t)) match t with TShort _ u => [u] | TFull ts => ts | _ => [] end ->
  gatherChildren (rtop t) = map hash_tree (below t).
Proof. intros W H. destruct t as [|v|k u|ts]; [done|done| |by apply gather_full]. by inversion H. Qed.

Lemma gather_ref t : part t -> gatherChildren (rref t) = map hash_tree (refs t).
Proof.
  induction 1 as [|v|k u W Hu Hp IH|ts W Hp IH] using part_induction; [done|done|..];
    rewrite rref_solid, refs_solid by done; destruct (big _); 
    try (cbn [gatherChildren map]; by rewrite BytesToHash_id by apply keccak_length); apply gather_top; try done. by constructor.
Qed.

Lemma gatherChildren_ok t : wfN t -> gatherChildren (rtop t) = map hash_tree (below t).
Proof.
  intros W. apply gather_top; [done|]. destruct t as [|v|k u|ts]; [done|done|..].
  - constructor; [|done]. by apply gather_ref, (short_part k).
  - eapply Forall_impl; [exact (full_parts _ W)|]. apply gather_ref.
Qed.

(** ** The database of a trie *)
Definition closed (disk : gmap bytes bytes) : Prop :=
  forall t, node_tree t -> is_Some (disk !! hash_tree t) -> forall u, u ∈ below t -> is_Some (disk !! hash_tree u).

(** The nodes in memory are those of trees; with a node, the disk has all that is
    below it. *)
Record db_inv (db : Database) : Prop := {
  inv_dirties : forall h c, db_dirties db !! h = Some c -> h <> zeroHash ->
    cn_sideren c = ∅ /\ exists t, node_tree t /\ h = hash_tree t /\ cn_node c = rtop t;
  inv_disk : forall h e, length h = HashLength -> db_disk db !! h = Some e -> keyed X h e;
  inv_closed : closed (db_disk db);
  inv_preimages : forall h p, db_preimages db !! h = Some p -> length h = HashLength }.

Lemma node_tree_X t : node_tree t -> wfN t /\ sized t /\ seen X t /\ X (tenc t).
Proof. intros [G Hs]. pose proof (good_wf t G Hs). destruct G as (_ & ? & ?). split_and!; [done..|by apply seen_solid]. Qed.

Lemma hash_tree_zero t : node_tree t -> hash_tree t <> zeroHash.
Proof. intros (_ & _ & _ & HX)%node_tree_X. by apply (cf_zero X CF). Qed.

Lemma inv_ok db : db_inv db -> db_ok X db.
Proof.
  intros [Hm Hd _ _]. split; [|done]. intros h c Hc Hz. destruct (Hm h c Hc Hz) as (_ & t & Ht & -> & E).
  apply node_tree_X in Ht as (W & Hs & _ & HX). exists (tenc t). split; [done|]. right. exists t. done.
Qed.

Lemma inserted_inv db db' : db_inv db -> inserted X db db' -> db_inv db'.
Proof.
  intros Hdb. induction 1 as [|db' t _ IH W Hs Hse]; [done|]. unfold db_insert. destruct (db_dirties db' !! _) eqn:E; [done|].
  destruct IH as [Hm Hd Hc Hp]. constructor; [|done|done|done]. cbn. intros h c [[<- <-]|[Hne Hl]]%lookup_insert_Some Hz; [|by apply Hm].
  split; [done|]. exists t. split; [|done]. split; [split_and!; [by apply part_wf|done|done]|by inversion W].
Qed.

Lemma stored_has db t : node_tree t -> stored (db_node db) t -> has db (hash_tree t).
Proof. intros _ Hst. inversion Hst as [? _ Hd _]; subst. by eapply node_has. Qed.

(** With the disk alone, a tree whose node is there can be loaded. *)
Lemma closed_stored disk t : (forall h e, length h = HashLength -> disk !! h = Some e -> keyed X h e) -> closed disk ->
  node_tree t -> is_Some (disk !! hash_tree t) -> stored (db_node (NewDatabase disk)) t.
Proof.
  intros Hd Hc. assert (db_ok X (NewDatabase disk)) as Hok.
  { split; [|done]. cbn. intros h c [<- _]%lookup_singleton_Some Hz. done. }
  remember (height t) as n eqn:En. revert t En. induction (lt_wf n) as [n _ IH]. intros t -> Ht Hs.
  pose proof (node_tree_X t Ht) as (W & Hz & Hse & HX). constructor; [apply Ht| |].
  - apply (node_ok X); [done..|]. right. done.
  - intros u Hu. destruct (below_good t Ht u Hu) as [Hnu Hlt]. eapply IH; [exact Hlt|done|done|]. by apply (Hc t Ht).
Qed.

(** ** Database.Commit *)
Definition written (db : Database) (l : list (bytes * bytes)) (h : bytes) : Prop := db_dirties db !! h = None \/ h ∈ l.*1.

Definition writes (db : Database) (l : list (bytes * bytes)) : Prop := forall h e, (h, e) ∈ l ->
  exists t, node_tree t /\ stored (db_node db) t /\ is_Some (db_dirties db !! h) /\ h = hash_tree t /\ e = tenc t
    /\ forall u, u ∈ below t -> written db l (hash_tree u).

Lemma written_app db l l' h : written db l h -> written db (l ++ l') h.
Proof. intros [?|?]; [by left|right]. rewrite fmap_app. apply elem_of_app. by left. Qed.

Lemma written_app_r db l l' h : written db l' h -> written db (l ++ l') h.
Proof. intros [?|?]; [by left|right]. rewrite fmap_app. apply elem_of_app. by right. Qed.

Lemma writes_app db l l' : writes db l -> writes db l' -> writes db (l ++ l').
Proof.
  intros H H' h e [Hl|Hl]%elem_of_app; [destruct (H h e Hl) as (t & ? & ? & ? & ? & ? & Hb)|destruct (H' h e Hl) as (t & ? & ? & ? & ? & ? & Hb)];
    exists t; split_and!; try done; intros u Hu; [by apply written_app, Hb|by apply written_app_r, Hb].
Qed.

Definition commits (db : Database) (t : tree) (batch : list (bytes * bytes)) (r : outcome (list (bytes * bytes))) : Prop :=
  exists l, r = Ret (batch ++ l) /\ writes db l /\ written db l (hash_tree t).

Lemma commit_below db fuel ts : Forall (fun t => forall batch, commits db t batch (db_commit fuel db batch (hash_tree t))) ts ->
  forall batch, exists l, foldl (fun acc side => batch ← acc; db_commit fuel db batch side) (Ret batch) (map hash_tree ts) = Ret (batch ++ l)
    /\ writes db l /\ Forall (fun t => written db l (hash_tree t)) ts.
Proof.
  induction 1 as [|t ts Ht _ IH]; intros batch; cbn [map foldl].
  - exists []. rewrite app_nil_r. split_and!; [done|by intros ? ? ?%not_elem_of_nil|constructor].
  - destruct (Ht batch) as (l & E & Hl & Hw). cbn [mbind outcome_bind]. rewrite E. destruct (IH (batch ++ l)) as (l' & E' & Hl' & Hw').
    exists (l ++ l'). rewrite app_assoc. split_and!; [done|by apply writes_app|]. constructor; [by apply written_app|].
    eapply Forall_impl; [exact Hw'|]. intros u. apply written_app_r.
Qed.

Lemma dirty_tree db t c : db_inv db -> node_tree t -> db_dirties db !! hash_tree t = Some c -> cn_sideren c = ∅ /\ cn_node c = rtop t.
Proof.
  intros Hdb Ht Hc. destruct (inv_dirties db Hdb _ c Hc) as (Hs & u & Hu & E & En); [by apply hash_tree_zero|].
  split; [done|]. rewrite En. f_equal. symmetry. destruct Ht, Hu. by apply hash_inj.
Qed.

Lemma db_commit_ok db : db_inv db -> forall fuel t (V : gset bytes) batch, node_tree t -> stored (db_node db) t ->
  (forall v, v ∈ V -> exists t', node_tree t' /\ v = hash_tree t' /\ (height t < height t')%nat) ->
  (size (dom (db_dirties db) ∖ V) < fuel)%nat -> commits db t batch (db_commit fuel db batch (hash_tree t)).
Proof.
  intros Hdb. induction fuel as [|fuel IH]; intros t V batch Ht Hst HV Hf; [lia|]. cbn [db_commit].
  destruct (db_dirties db !! hash_tree t) as [c|] eqn:Ec.
  2: { exists []. rewrite app_nil_r. split_and!; [done|by intros ? ? ?%not_elem_of_nil|by left]. }
  destruct (dirty_tree db t c Hdb Ht Ec) as [Hs En]. pose proof (node_tree_X t Ht) as (W & Hz & _ & _).
  unfold cachedNode_sides. rewrite Hs, En, gatherChildren_ok, dom_empty_L, elements_empty by done. cbn [app].
  assert (hash_tree t ∉ V) as HtV.
  { intros (t' & Ht' & E & Hlt)%HV. assert (t = t') as <-; [destruct Ht, Ht'; by apply hash_inj|lia]. }
  destruct (commit_below db fuel (below t)) with (batch := batch) as (l & -> & Hl & Hw).
  { apply Forall_forall. intros u Hu batch'. destruct (below_good t Ht u Hu) as [Hnu Hlt]. apply (IH u (V ∪ {[hash_tree t]})); [done|..].
    - inversion Hst as [? _ _ Hb]; subst. by apply Hb.
    - intros v [Hv| ->%elem_of_singleton]%elem_of_union; [destruct (HV v Hv) as (t' & ? & ? & ?); exists t'; split_and!; [done..|lia]|by exists t].
    - apply Nat.succ_le_mono in Hf. eapply Nat.lt_le_trans; [|exact Hf]. apply subset_size. apply elem_of_dom_2 in Ec. set_solver. }
  cbn [mbind outcome_bind]. assert (cachedNode_rlp c = Ret (tenc t)) as ->.
  { unfold cachedNode_rlp. rewrite En, <- encode_ok, <- raw_ival_top by done. by inversion W. }
  cbn [mbind outcome_bind]. exists (l ++ [(hash_tree t, tenc t)]). rewrite app_assoc.
  assert (written db (l ++ [(hash_tree t, tenc t)]) (hash_tree t)) as Hwt.
  { right. rewrite fmap_app. apply elem_of_app. right. by left. }
  split_and!; [done| |done]. intros h e [Hhe|[= -> ->]%list_elem_of_singleton]%elem_of_app.
  - destruct (Hl h e Hhe) as (u & ? & ? & ? & ? & ? & Hb). exists u. split_and!; [done..|]. intros w Hw'. by apply written_app, Hb.
  - exists t. split_and!; [done..|by rewrite Ec|done|done|]. intros u Hu. rewrite Forall_forall in Hw. by apply written_app, Hw.
Qed.

(** What is deleted from the memory and put on disk. *)
Lemma foldl_delete {A} (l : list (bytes * bytes)) (m : gmap bytes A) h :
  foldl (fun m '(h, _) => delete h m) m l !! h = if bool_decide (h ∈ l.*1) then None else m !! h.
Proof.
  revert m. induction l as [|[h' e] l IH]; intros m; cbn [foldl]; [done|]. rewrite IH. cbn [fmap list_fmap fst].
  destruct (decide (h = h')) as [->|Hne].
  - rewrite lookup_delete_eq, (bool_decide_true (h' ∈ h' :: _)) by (by left). by case_bool_decide.
  - rewrite lookup_delete_ne by done. by rewrite (bool_decide_ext (h ∈ h' :: l.*1) (h ∈ l.*1)) by (rewrite elem_of_cons; tauto).
Qed.

Lemma foldl_put (f : bytes -> bytes) (l : list (bytes * bytes)) (m : gmap bytes bytes) h :
  (exists k e, (k, e) ∈ l /\ f k = h /\ foldl (fun m '(h, e) => <[f h := e]> m) m l !! h = Some e)
  \/ (h ∉ f <$> l.*1) /\ foldl (fun m '(h, e) => <[f h := e]> m) m l !! h = m !! h.
Proof.
  revert m. induction l as [|[k e] l IH]; intros m; cbn [foldl]; [right; split; [apply not_elem_of_nil|done]|].
  destruct (IH (<[f k := e]> m)) as [(k' & e' & Hl & Hk & E)|[Hn E]]; [left; exists k', e'; split_and!; [by right|done|done]|].
  destruct (decide (f k = h)) as [Hk|Hne].
  - left. exists k, e. split_and!; [by left|done|]. rewrite E, <- Hk. apply lookup_insert_eq.
  - right. split; [|by rewrite E, lookup_insert_ne]. cbn. by intros [->|?]%elem_of_cons.
Qed.

Lemma write_preimages_ok db h : db_inv db -> length h = HashLength -> write_preimages db !! h = db_disk db !! h.
Proof.
  intros Hdb Hl. unfold write_preimages. destruct (foldl_put secureKey (map_to_list (db_preimages db)) (db_disk db) h) as [(k & e & Hk & <- & _)|[_ E]]; [|done].
  apply elem_of_map_to_list, (inv_preimages db Hdb) in Hk. unfold secureKey, HashLength in *. rewrite length_app, Hk in Hl. done.
Qed.

Section Flush.
Variables (db : Database) (l : list (bytes * bytes)).
Hypothesis (Hdb : db_inv db) (Hl : writes db l).

Definition flushed : Database :=
  {| db_dirties := foldl (fun m '(h, _) => delete h m) (db_dirties db) l;
     db_disk := foldl (fun m '(h, blob) => <[h := blob]> m) (write_preimages db) l;
     db_preimages := ∅ |}.

Lemma flushed_disk h : length h = HashLength ->
  (exists t, node_tree t /\ (h, tenc t) ∈ l /\ h = hash_tree t /\ db_disk flushed !! h = Some (tenc t))
  \/ h ∉ l.*1 /\ db_disk flushed !! h = db_disk db !! h.
Proof.
  intros Hh. destruct (foldl_put id l (write_preimages db) h) as [(k & e & Hk & <- & E)|[Hn E]].
  - left. destruct (Hl k e Hk) as (t & Ht & _ & _ & E1 & -> & _). exists t. done.
  - right. rewrite list_fmap_id in Hn. split; [done|]. rewrite <- (write_preimages_ok db h Hdb Hh). exact E.
Qed.

Lemma flushed_has t : written db l (hash_tree t) -> has db (hash_tree t) -> is_Some (db_disk flushed !! hash_tree t).
Proof.
  intros Hw Hh. destruct (flushed_disk (hash_tree t)) as [(u & _ & _ & _ & ->)|[Hn ->]]; [apply keccak_length|eauto|].
  destruct Hw as [Hw|Hw]; [|done]. destruct Hh as [Hh|Hh]; [|done]. rewrite Hw in Hh. by destruct Hh.
Qed.

Lemma flushed_inv : db_inv flushed.
Proof.
  constructor.
  - cbn. intros h c. rewrite foldl_delete. case_bool_decide; [done|]. by apply inv_dirties.
  - intros h e Hh. destruct (flushed_disk h Hh) as [(t & Ht & _ & -> & ->)|[_ ->]]; [|by apply inv_disk].
    intros [= <-]. split; [by apply node_tree_X|done].
  - intros t Ht Hs u Hu. destruct (flushed_disk (hash_tree t)) as [(t' & Ht' & Hin & E & _)|[_ E]]; [apply keccak_length|..].
    + assert (t = t') as <- by (destruct Ht, Ht'; by apply hash_inj). destruct (Hl _ _ Hin) as (t' & Ht'' & Hst & _ & E' & _ & Hb).
      assert (t = t') as <- by (destruct Ht, Ht''; by apply hash_inj). apply flushed_has; [by apply Hb|].
      apply stored_has; [by apply (below_good t)|]. inversion Hst; subst. auto.
    + rewrite E in Hs. destruct (inv_closed db Hdb t Ht Hs u Hu) as [e He].
      destruct (flushed_disk (hash_tree u)) as [(? & _ & _ & _ & ->)|[_ ->]]; [apply keccak_length|eauto|eauto].
  - cbn. intros h p E. by apply lookup_empty_Some in E.
Qed.

Lemma flushed_extends : extends (db_node db) (db_node flushed).
Proof.
  intros h n Hh E. pose proof (inv_ok db Hdb) as Hok. pose proof (inv_ok flushed flushed_inv) as Hok'.
  destruct (flushed_disk h Hh) as [(t & Ht & _ & -> & Ed)|[Hn Ed]].
  - pose proof (node_tree_X t Ht) as (W & Hs & _ & HX). rewrite <- E. apply node_has in E as Hhas.
    unfold hash_tree in *. rewrite (node_ok X db t CF), (node_ok X flushed t CF); try done. right. eauto.
  - rewrite <- E. unfold db_node. rewrite Ed. cbn. rewrite foldl_delete, bool_decide_false by done. done.
Qed.
End Flush.

Lemma Database_Commit_ok db t : db_inv db -> node_tree t -> stored (db_node db) t ->
  exists db', Database_Commit db (hash_tree t) = Ret db' /\ db_inv db' /\ extends (db_node db) (db_node db')
    /\ stored (db_node (NewDatabase (db_disk db'))) t.
Proof.
  intros Hdb Ht Hst. destruct (db_commit_ok db Hdb (S (size (db_dirties db))) t ∅ []) as (l & E & Hl & Hw); [done|done|set_solver| |].
  { rewrite difference_empty_L, size_dom. lia. }
  exists (flushed db l). unfold Database_Commit. rewrite E. split_and!; [done|by apply flushed_inv|by apply flushed_extends|].
  destruct (flushed_inv db l Hdb Hl) as [_ Hd Hc _]. apply closed_stored; [done|done|done|].
  apply flushed_has; [done|done|done|by apply stored_has].
Qed.

(** Also for the empty trie, whose root is no node. *)
Lemma Commit_empty db : db_inv db -> exists db', Database_Commit db emptyRoot = Ret db' /\ db_inv db'.
Proof.
  intros Hdb. exists (flushed db []). split; [|apply flushed_inv; [done|by intros ? ? ?%not_elem_of_nil]].
  unfold Database_Commit. cbn [db_commit]. destruct (db_dirties db !! emptyRoot) as [c|] eqn:E; [|done]. exfalso.
  destruct (inv_dirties db Hdb _ c E) as (_ & t & Ht & Eh & _); [done|]. symmetry in Eh. revert Eh. apply (cf_empty X CF). by apply node_tree_X.
Qed.

Lemma restart_inv db : db_inv db -> db_inv (NewDatabase (db_disk db)).
Proof.
  intros [_ Hd Hc _]. constructor; [|done|done|].
  - cbn. intros h c [<- _]%lookup_singleton_Some Hz. done.
  - cbn. intros h p E. by apply lookup_empty_Some in E.
Qed.

Lemma Restart_ok db t : db_inv db -> good t -> t = TNil \/ stored (db_node db) t -> exists db', Database_Commit db (root_hash t) = Ret db'
  /\ db_inv (NewDatabase (db_disk db')) /\ (t = TNil \/ stored (db_node (NewDatabase (db_disk db'))) t).
Proof.
  intros Hdb Gt [->|Hst].
  - destruct (Commit_empty db Hdb) as (db' & E & Hdb'). exists db'. split_and!; [done|by apply restart_inv|by left].
  - assert (solid_tree t = true) as Hs by (by inversion Hst). replace (root_hash t) with (hash_tree t) by (by destruct t).
    destruct (Database_Commit_ok db t Hdb) as (db' & E & Hdb' & _ & Hst'); [done|done|]. exists db'.
    split_and!; [done|by apply restart_inv|by right].
Qed.

End Disk.
