(* ===== verification/TrieSpec.v ===== *)
(** * What the trie of a map is

    The Merkle-Patricia trie of a set of keys and values, as it is specified apart
    from any history: one key is a leaf, keys with a common prefix are below an
    extension, and other keys branch on their first nibble.  It is the only
    well-formed tree with these contents. *)
From S2P Require Import Prelude Rlp TrieCodec Trie TrieTree.
Local Open Scope Z_scope.

Definition entries : Type := list (bytes * bytes).

(** The longest common prefix of [k] and the keys [ks]. *)
Fixpoint cprefix (k : bytes) (ks : list bytes) : bytes :=
  match k with
  | [] => []
  | x :: k => if forallb (fun l => bool_decide (head l = Some x)) ks then x :: cprefix k (map (drop 1) ks) else []
  end.

(** The entries that start with [i], without it. *)
Definition child (i : Z) (l : entries) : entries :=
  omap (fun '(k, v) => match k with x :: r => if x =? i then Some (r, v) else None | [] => None end) l.

Definition strip (n : nat) (l : entries) : entries := map (fun '(k, v) => (drop n k, v)) l.

Fixpoint build (fuel : nat) (l : entries) : tree :=
  match fuel with
  | O => TNil
  | S fuel =>
    match l with
    | [] => TNil
    | [(k, v)] => tlone k (TVal v)
    | (k, _) :: rest =>
      let p := cprefix k (map fst rest) in
      tlone p (TFull (map (fun i => build fuel (child (Z.of_nat i) (strip (length p) l))) (seq 0 17)))
    end
  end.

(** ** Common prefixes *)
Lemma cprefix_spec k : forall ks, exists r, k = cprefix k ks ++ r /\ (forall l, l ∈ ks -> exists r', l = cprefix k ks ++ r')
  /\ (r = [] \/ exists r', cprefix k ks ++ r' ∈ ks /\ head r' <> head r).
Proof.
  induction k as [|x k IH]; intros ks; cbn [cprefix].
  - exists []. split_and!; [done| |by left]. intros l Hl. by exists l.
  - destruct (forallb _ ks) eqn:E.
    + destruct (IH (map (drop 1) ks)) as (r & Ek & Hks & Hr). rewrite forallb_forall in E.
      assert (forall l, l ∈ ks -> l = x :: drop 1 l) as Hx.
      { intros l Hl. apply list_elem_of_In, E in Hl. apply bool_decide_eq_true in Hl. destruct l; [done|]. by injection Hl as ->. }
      exists r. cbn [app]. split_and!; [by rewrite <- Ek| |].
      * intros l Hl. destruct (Hks (drop 1 l)) as (r' & El); [apply list_elem_of_fmap; by exists l|]. exists r'. rewrite (Hx l Hl), El. done.
      * destruct Hr as [->|(r' & Hr' & Hne)]; [by left|right]. exists r'. split; [|done].
        apply list_elem_of_fmap in Hr' as (l & El & Hl). rewrite El, <- (Hx l Hl). done.
    + exists (x :: k). split_and!; [done|intros l Hl; by exists l|]. right.
      assert (exists l, l ∈ ks /\ head l <> Some x) as (l & Hl & Hn); [|by exists l].
      clear IH. induction ks as [|l ks IH]; [done|]. cbn in E. case_bool_decide as Hh; [|exists l; split; [by left|done]].
      destruct (IH E) as (l' & ? & ?). exists l'. split; [by right|done].
Qed.

(** ** Parts of the entries *)
Lemma elem_of_child i l r v : (r, v) ∈ child i l <-> (i :: r, v) ∈ l.
Proof.
  unfold child. rewrite list_elem_of_omap. split.
  - intros ([k w] & Hl & E). destruct k as [|x k]; [done|]. destruct (Z.eqb_spec x i) as [->|]; [|done]. by injection E as -> ->.
  - intros Hl. exists (i :: r, v). split; [done|]. by rewrite Z.eqb_refl.
Qed.

Lemma elem_of_strip p l r v : (forall k w, (k, w) ∈ l -> exists r, k = p ++ r) -> (r, v) ∈ strip (length p) l <-> (p ++ r, v) ∈ l.
Proof.
  intros Hp. unfold strip. rewrite list_elem_of_fmap. split.
  - intros ([k w] & [= -> ->] & Hl). destruct (Hp k w Hl) as (r & ->). by rewrite drop_app_length.
  - intros Hl. exists (p ++ r, v). by rewrite drop_app_length.
Qed.

Lemma fst_elem (l : entries) k : k ∈ l.*1 <-> exists v, (k, v) ∈ l.
Proof. rewrite list_elem_of_fmap. split; [intros ([? v] & -> & ?); by exists v|intros (v & ?); by exists (k, v)]. Qed.

Lemma NoDup_child i l : NoDup l.*1 -> NoDup (child i l).*1.
Proof.
  induction l as [|[k v] l IH]; cbn; [done|]. intros [Hk Hl]%NoDup_cons. destruct k as [|x k]; [by apply IH|].
  destruct (Z.eqb_spec x i) as [->|]; [|by apply IH]. cbn. constructor; [|by apply IH].
  rewrite fst_elem. intros (w & Hw%elem_of_child). apply Hk, fst_elem. by exists w.
Qed.

Lemma NoDup_strip p l : (forall k w, (k, w) ∈ l -> exists r, k = p ++ r) -> NoDup l.*1 -> NoDup (strip (length p) l).*1.
Proof.
  intros Hp Hl. assert ((strip (length p) l).*1 = drop (length p) <$> l.*1) as ->.
  { unfold strip. rewrite <- !list_fmap_compose. apply list_fmap_ext. by intros ? [k v] _. }
  apply NoDup_fmap_2_strong; [|done]. intros k k' (v & Hk)%fst_elem (v' & Hk')%fst_elem E.
  destruct (Hp k v Hk) as (r & ->), (Hp k' v' Hk') as (r' & ->). rewrite !drop_app_length in E. congruence.
Qed.

(** ** The tree has the entries *)
Definition proper (l : entries) : Prop := NoDup l.*1 /\ forall k v, (k, v) ∈ l -> term_key k /\ v <> [].

Definition contents (t : tree) (l : entries) : Prop :=
  (forall k v, (k, v) ∈ l -> tget t k = v) /\ (forall k, term_key k -> k ∉ l.*1 -> tget t k = []).

Lemma child_proper i l : proper l -> is_nibble i -> proper (child i l).
Proof.
  intros [Hn Hl] Hi. split; [by apply NoDup_child|]. intros k v Hk%elem_of_child. destruct (Hl _ _ Hk) as [Ht Hv]. split; [|done].
  apply term_key_cons in Ht as [[_ Ht]|[-> _]]; [done|]. unfold is_nibble, terminator in Hi. lia.
Qed.

Lemma child_end l : proper l -> child terminator l = [] \/ exists v, child terminator l = [([], v)] /\ v <> [].
Proof.
  intros [Hn Hl]. assert (forall k v, (k, v) ∈ child terminator l -> k = [] /\ v <> []) as Hc.
  { intros k v Hk%elem_of_child. destruct (Hl _ _ Hk) as [Ht Hv]. split; [|done].
    apply term_key_cons in Ht as [[Ht _]|[_ ->]]; [|done]. unfold is_nibble, terminator in Ht. lia. }
  apply (NoDup_child terminator) in Hn. destruct (child terminator l) as [|[k v] [|[k' v'] l']]; [by left|right..].
  - destruct (Hc k v) as [-> Hv]; [by left|]. by exists v.
  - exfalso. destruct (Hc k v) as [-> _]; [by left|]. destruct (Hc k' v') as [-> _]; [by right; left|].
    apply NoDup_cons in Hn as [Hn _]. apply Hn. by left.
Qed.

Section Branch.
Variable f : entries -> tree.
Variable l : entries.
Hypothesis Hl : proper l.
Hypothesis f_nil : f [] = TNil.
Hypothesis f_end : forall v, f [([], v)] = TVal v.
Hypothesis f_more : forall l, l <> [] -> f l <> TNil.
Hypothesis f_ok : forall i, is_nibble i -> wf (f (child i l)) /\ contents (f (child i l)) (child i l).

Definition children : list tree := map (fun i => f (child (Z.of_nat i) l)) (seq 0 17).

Lemma children_lookup n : (n < 17)%nat -> children !! n = Some (f (child (Z.of_nat n) l)).
Proof. intros Hn. unfold children. etransitivity; [apply list_lookup_fmap|]. by rewrite lookup_seq_lt. Qed.

Lemma branch_wf x y r s v w : (x :: r, v) ∈ l -> (y :: s, w) ∈ l -> x <> y -> wfN (TFull children).
Proof.
  intros Hx Hy Hxy. assert (forall x r v, (x :: r, v) ∈ l -> 0 <= x < 17) as Hb.
  { intros z q u Hz. destruct Hl as [_ Hp]. destruct (Hp _ _ Hz) as [(z' & q' & [= <- <-] & ?)%term_head _]. done. }
  assert (forall x r v, (x :: r, v) ∈ l -> children !! Z.to_nat x = Some (f (child x l)) /\ f (child x l) <> TNil) as Hc.
  { intros z q u Hz. pose proof (Hb z q u Hz). rewrite children_lookup, Z2Nat.id by lia. split; [done|]. apply f_more.
    apply elem_of_child in Hz. intros E. rewrite E in Hz. by apply not_elem_of_nil in Hz. }
  constructor.
  - unfold children. by rewrite length_map, length_seq.
  - intros i t Hi Ht Hlt. rewrite children_lookup in Hi by lia. injection Hi as <-.
    destruct (f_ok (Z.of_nat i)) as [[E|W] _]; [unfold is_nibble; lia|done|done].
  - intros t Ht. rewrite children_lookup in Ht by lia. injection Ht as <-. change (Z.of_nat 16) with terminator.
    destruct (child_end l Hl) as [->|(u & -> & Hu)]; [left; done|right; eauto].
  - destruct (Hc x r v Hx), (Hc y s w Hy). exists (Z.to_nat x), (Z.to_nat y), (f (child x l)), (f (child y l)).
    split_and!; [|done..]. pose proof (Hb x r v Hx). pose proof (Hb y s w Hy). lia.
Qed.

Lemma branch_contents : contents (TFull children) l.
Proof.
  assert (forall x r, term_key (x :: r) -> tget (TFull children) (x :: r) = tget (f (child x l)) r) as Hg.
  { intros x r (z & q & [= <- <-] & Hx)%term_head. rewrite tget_full, children_lookup, Z2Nat.id by lia. done. }
  assert ((forall v, ([], v) ∈ child terminator l -> tget (f (child terminator l)) [] = v)
    /\ ([] ∉ (child terminator l).*1 -> tget (f (child terminator l)) [] = [])) as [Hend Hend'].
  { destruct (child_end l Hl) as [->|(u & -> & Hu)]; [rewrite f_nil|rewrite f_end].
    - split; [by intros v ?%not_elem_of_nil|done].
    - split; [by intros v [= ->]%list_elem_of_singleton|]. intros Hn. destruct Hn. by left. }
  split.
  - intros k v Hk. pose proof (proj2 Hl _ _ Hk) as [Ht _]. destruct (term_head k Ht) as (x & r & -> & _). rewrite Hg by done.
    apply elem_of_child in Hk. apply term_key_cons in Ht as [[Hx Ht]|[-> ->]]; [by apply (f_ok x Hx)|by apply Hend].
  - intros k Ht Hk. destruct (term_head k Ht) as (x & r & -> & _). rewrite Hg by done.
    assert (r ∉ (child x l).*1) as Hr by (rewrite fst_elem in *; intros (v & Hv%elem_of_child); eauto).
    apply term_key_cons in Ht as [[Hx Ht]|[-> ->]]; [by apply (f_ok x Hx)|by apply Hend'].
Qed.
End Branch.

Lemma term_split p r : term_key (p ++ r) -> r <> [] -> nibbles p /\ term_key r.
Proof.
  intros (q & Hq & E) Hr. destruct (List.exists_last Hr) as (r0 & z & ->). rewrite app_assoc in E. apply app_inj_tail in E as [<- ->].
  apply Forall_app in Hq as [Hp Hr0]. split; [done|]. by exists r0.
Qed.

Lemma build_more fuel l : l <> [] -> build (S fuel) l <> TNil.
Proof. destruct l as [|[k v] [|[k' v'] l]]; intros Hl; cbn [build]; [done|by destruct k|]. by destruct (cprefix _ _). Qed.

(** The common prefix of two or more entries, and what follows it. *)
Lemma cprefix_proper k v k' v' rest : let l := (k, v) :: (k', v') :: rest in let p := cprefix k (map fst ((k', v') :: rest)) in proper l ->
  nibbles p /\ (forall k w, (k, w) ∈ l -> exists r, k = p ++ r) /\ proper (strip (length p) l)
  /\ exists x y r s v w, (x :: r, v) ∈ strip (length p) l /\ (y :: s, w) ∈ strip (length p) l /\ x <> y.
Proof.
  intros l p [Hn Hl]. destruct (cprefix_spec k (map fst ((k', v') :: rest))) as (r & Ek & Hks & Hr). fold p in Ek, Hks, Hr.
  assert (forall k w, (k, w) ∈ l -> exists r, k = p ++ r) as Hp.
  { intros k0 w [[= -> ->]|Hk]%elem_of_cons; [by exists r|]. apply Hks. apply (proj2 (fst_elem ((k', v') :: rest) k0)). by exists w. }
  destruct (Hl k v) as [Hk _]; [by left|].
  assert (r <> []) as Hr0.
  { intros ->. rewrite app_nil_r in Ek. destruct (Hks k') as (r' & Ek'); [by left|]. destruct (Hl k' v') as [Hk' _]; [by right; left|].
    rewrite <- Ek in Ek'. destruct Hk as (q & Hq & E). rewrite Ek', E in Hk'. apply term_prefix in Hk' as ->; [|done].
    rewrite app_nil_r in Ek'. apply NoDup_cons in Hn as [Hn _]. apply Hn. rewrite Ek'. by left. }
  rewrite Ek in Hk. destruct (term_split p r Hk Hr0) as [Hnp Hrt].
  assert (proper (strip (length p) l)) as Hs.
  { split; [by apply NoDup_strip|]. intros k0 w Hk0. apply elem_of_strip in Hk0; [|done]. destruct (Hl _ _ Hk0) as [Hk1 Hw].
    split; [by eapply term_key_app_inv|done]. }
  split_and!; [done|done|done|]. destruct Hr as [->|(s & Hin & Hne)]; [done|].
  destruct (proj1 (fst_elem ((k', v') :: rest) (p ++ s)) Hin) as (w & Hw).
  assert ((r, v) ∈ strip (length p) l) as H1 by (apply elem_of_strip; [done|]; rewrite <- Ek; by left).
  assert ((s, w) ∈ strip (length p) l) as H2 by (apply elem_of_strip; [done|]; by right).
  destruct (term_head r Hrt) as (x & r' & -> & _), (term_head s) as (y & s' & -> & _); [by apply (proj2 Hs s w)|].
  exists x, y, r', s', v, w. split_and!; [done|done|]. cbn in Hne. congruence.
Qed.

Lemma extend_contents p t l : nibbles p -> (forall k w, (k, w) ∈ l -> exists r, k = p ++ r) -> contents t (strip (length p) l) ->
  contents (tlone p t) l.
Proof.
  intros Hnp Hp [H1 H2]. split.
  - intros k v Hk. destruct (Hp k v Hk) as (r & ->). rewrite tget_tlone, tget_short_app. apply H1. by apply elem_of_strip.
  - intros k Ht Hk. rewrite tget_tlone. destruct (decide (tget (TShort p t) k = [])) as [|Hne]; [done|].
    destruct (tget_short_inv _ _ _ Hne) as (r & -> & Hr). destruct Hr. apply H2; [by eapply term_key_app_inv|].
    rewrite fst_elem. intros (v & Hv). apply elem_of_strip in Hv; [|done]. apply Hk, fst_elem. by exists v.
Qed.

Lemma build_ok fuel : forall l, proper l -> (forall k v, (k, v) ∈ l -> (length k < fuel)%nat) ->
  wf (build fuel l) /\ contents (build fuel l) l.
Proof.
  induction fuel as [|fuel IH]; intros l Hl Hf.
  - destruct l as [|[k v] l]; [|specialize (Hf k v ltac:(by left)); lia]. split; [by left|]. split; [by intros k v ?%not_elem_of_nil|done].
  - destruct l as [|[k v] [|[k' v'] rest]].
    + split; [by left|]. split; [by intros k v ?%not_elem_of_nil|done].
    + destruct (proj2 Hl k v) as [Ht Hv]; [by left|]. cbn [build]. split.
      * right. destruct Ht as (p & Hp & ->). unfold tlone. destruct (p ++ [terminator]) eqn:E; [by destruct p|]. rewrite <- E. by constructor.
      * split; [intros k0 v0 [= -> ->]%list_elem_of_singleton; by rewrite tget_tlone, tget_short_self|].
        intros k0 Ht0 Hk0. rewrite tget_tlone, leaf_get, decide_False; [done| |done|done]. intros ->. apply Hk0. by left.
    + destruct (cprefix_proper k v k' v' rest Hl) as (Hnp & Hp & Hs & x & y & r & s & a & b & Hx & Hy & Hxy). cbn [build].
      set (l := (k, v) :: (k', v') :: rest) in *. set (p := cprefix k (map fst ((k', v') :: rest))) in *.
      assert (forall i r v, (i :: r, v) ∈ strip (length p) l -> (length r < fuel)%nat) as Hlen.
      { intros i q w Hq. apply elem_of_strip in Hq; [|done]. apply Hf in Hq. rewrite length_app in Hq. cbn in Hq. lia. }
      assert (exists f, fuel = S f) as (f & Ef) by (destruct fuel; [specialize (Hlen x r a Hx); lia|eauto]).
      assert (forall i, is_nibble i -> wf (build fuel (child i (strip (length p) l)))
        /\ contents (build fuel (child i (strip (length p) l))) (child i (strip (length p) l))) as Hok.
      { intros i Hi. apply IH; [by apply child_proper|]. intros q w Hq%elem_of_child. by eapply Hlen. }
      split.
      * right. assert (wfN (TFull (children (build fuel) (strip (length p) l)))) as W.
        { eapply branch_wf; [done|by subst fuel|by subst fuel|subst fuel; apply build_more|exact Hok|exact Hx|exact Hy|exact Hxy]. }
        unfold tlone. destruct p; [exact W|]. by constructor.
      * apply extend_contents; [done|done|]. apply branch_contents; [done|by subst fuel|by subst fuel|done].
Qed.

(** ** The trie of a map *)
Definition hexes (m : gmap bytes bytes) : entries := map (fun '(k, v) => (keybytesToHex k, v)) (map_to_list m).

Definition tree_of (m : gmap bytes bytes) : tree :=
  build (S (foldr Nat.max 0%nat (map (fun '(k, _) => length k) (hexes m)))) (hexes m).

(** Keys and values are byte strings, and no value is empty. *)
Definition map_ok (m : gmap bytes bytes) : Prop := forall k v, m !! k = Some v ->
  is_bytes k /\ Z.of_nat (length k) < 2 ^ 30 /\ is_bytes v /\ Z.of_nat (length v) < 2 ^ 32 /\ v <> [].

Definition holds (t : tree) (m : gmap bytes bytes) : Prop := wf t /\ contents t (hexes m).

Lemma hex_term k : is_bytes k -> term_key (keybytesToHex k).
Proof. intros Hk. rewrite keybytes_unpack. exists (unpack k). split; [by apply unpack_nibbles|done]. Qed.

Lemma elem_of_hexes m k v : (k, v) ∈ hexes m <-> exists x, k = keybytesToHex x /\ m !! x = Some v.
Proof.
  unfold hexes. rewrite list_elem_of_fmap. split.
  - intros ([x w] & [= -> ->] & Hx%elem_of_map_to_list). by exists x.
  - intros (x & -> & Hx). exists (x, v). split; [done|]. by apply elem_of_map_to_list.
Qed.

Lemma hexes_proper m : map_ok m -> proper (hexes m).
Proof.
  intros Hm. split.
  - assert ((hexes m).*1 = keybytesToHex <$> (map_to_list m).*1) as ->.
    { unfold hexes. rewrite <- !list_fmap_compose. apply list_fmap_ext. by intros ? [k v] _. }
    apply NoDup_fmap_2_strong; [|apply NoDup_fst_map_to_list]. intros x y Hx Hy. apply fst_elem in Hx as (v & Hx), Hy as (w & Hy).
    apply elem_of_map_to_list, Hm in Hx as [Hx _], Hy as [Hy _]. by apply keybytes_inj.
  - intros k v (x & -> & Hx)%elem_of_hexes. destruct (Hm x v Hx) as (Hb & _ & _ & _ & Hv). split; [by apply hex_term|done].
Qed.

Lemma tree_of_holds m : map_ok m -> holds (tree_of m) m.
Proof.
  intros Hm. apply build_ok; [by apply hexes_proper|]. intros k v Hk. apply le_n_S. induction (hexes m) as [|[k' v'] l IH]; [by apply not_elem_of_nil in Hk|].
  cbn. apply elem_of_cons in Hk as [[= -> ->]|Hk]; [lia|]. specialize (IH Hk). lia.
Qed.

Lemma contents_same t u l : contents t l -> contents u l -> same t u.
Proof.
  intros [H1 H2] [H3 H4] k Hk. destruct (decide (k ∈ l.*1)) as [Hin|Hn]; [|by rewrite H2, H4].
  apply fst_elem in Hin as (v & Hin). by rewrite (H1 k v), (H3 k v).
Qed.

(** No other tree holds the same map. *)
Lemma holds_unique t m : map_ok m -> holds t m -> t = tree_of m.
Proof.
  intros Hm [Ht Hc]. destruct (tree_of_holds m Hm) as [Hu Hc']. pose proof (contents_same _ _ _ Hc Hc') as Hs.
  destruct Ht as [->|Ht], Hu as [E|Hu].
  - done.
  - by apply same_nil in Hs.
  - rewrite E in *. by apply same_sym, same_nil in Hs.
  - by apply tree_canonical.
Qed.

Lemma holds_get t m k : map_ok m -> holds t m -> is_bytes k -> tget t (keybytesToHex k) = default [] (m !! k).
Proof.
  intros Hm [_ [H1 H2]] Hk. destruct (m !! k) as [v|] eqn:E.
  - apply H1, elem_of_hexes. by exists k.
  - apply H2; [by apply hex_term|]. rewrite fst_elem. intros (v & (x & Ex & Hx)%elem_of_hexes).
    apply keybytes_inj in Ex; [|done|by apply (Hm x v)]. congruence.
Qed.

(** ** Changing one key *)
Definition map_put (k v : bytes) (m : gmap bytes bytes) : gmap bytes bytes :=
  match v with [] => delete k m | _ => <[k := v]> m end.

Lemma map_put_lookup k v m x : map_put k v m !! x = if decide (x = k) then match v with [] => None | _ => Some v end else m !! x.
Proof.
  unfold map_put. destruct v; case_decide; subst; rewrite ?lookup_delete_eq, ?lookup_insert_eq, ?lookup_delete_ne, ?lookup_insert_ne by done; done.
Qed.

Lemma map_put_ok k v m : map_ok m -> is_bytes k -> Z.of_nat (length k) < 2 ^ 30 -> is_bytes v -> Z.of_nat (length v) < 2 ^ 32 ->
  map_ok (map_put k v m).
Proof.
  intros Hm Hk Hkl Hv Hvl x w. rewrite map_put_lookup. case_decide; [subst|by apply Hm].
  intros E. assert (v = w /\ w <> []) as [-> Hw] by (destruct v; [done|by injection E as <-]). done.
Qed.

Lemma holds_put k v t t' m : map_ok m -> holds t m -> is_bytes k -> put (keybytesToHex k) v t t' -> holds t' (map_put k v m).
Proof.
  intros Hm [_ [H1 H2]] Hk [Hs Hg]. pose proof (hex_term k Hk) as Ht. split.
  { inversion Hs as [? _ Et E|]; [|done]. rewrite <- ?E in Ht. by apply term_key_nil in Ht. }
  assert (forall x, term_key x -> tget t' x = if decide (x = keybytesToHex k) then v else tget t x) as Hg'.
  { intros x Hx. apply Hg. by right. }
  assert (forall x w, m !! x = Some w -> keybytesToHex x = keybytesToHex k -> x = k) as Hinj.
  { intros x w Hx E. apply keybytes_inj in E; [done|by apply (Hm x w)|done]. }
  split.
  - intros x w (y & -> & Hy)%elem_of_hexes. rewrite map_put_lookup in Hy. case_decide as E.
    + subst y. rewrite Hg', decide_True by done. destruct v; [done|congruence].
    + rewrite Hg' by (by apply hex_term, (Hm y w)). rewrite decide_False by eauto. apply H1, elem_of_hexes. by exists y.
  - intros x Hx Hn. rewrite Hg' by done. rewrite fst_elem in Hn. case_decide as E.
    + subst x. destruct v as [|a v]; [done|]. destruct Hn. exists (a :: v). apply elem_of_hexes. exists k.
      by rewrite map_put_lookup, decide_True.
    + apply H2; [done|]. rewrite fst_elem. intros (w & (y & -> & Hy)%elem_of_hexes). apply Hn. exists w. apply elem_of_hexes. exists y.
      rewrite map_put_lookup, decide_False by congruence. done.
Qed.
