(* ===== verification/TrieTheorems.v ===== *)
(** * Tries implement maps

    A history of a trie: reads, updates and deletions, the root hash, commits,
    opening the trie again from its root, and a restart, after which only the
    disk is left.  It answers as a map does, and its root hash is that of the
    tree that TrieSpec.v builds from the map, so it depends on the contents
    alone; two maps with the same root are equal. *)
From S2P Require Import Prelude Rlp RlpDecode RlpInput TrieCodec Trie TrieTree TrieMap TrieStore TrieDecode TrieCommit TrieDisk TrieSpec.
Local Open Scope Z_scope.

(** ** Histories *)
Inductive trie_op :=
  | OpGet (k : bytes)
  | OpUpdate (k v : bytes)
  | OpDelete (k : bytes)
  | OpHash
  | OpCommit
  | OpReopen
  | OpRestart.

Record trie_state := { ts_root : node; ts_db : Database }.

Section Histories.
Context {K : KeccakLib}.

(** What an operation returns, and the state after it. *)
Definition exec_op (o : trie_op) (s : trie_state) : TM (bytes * trie_state) :=
  let D := db_node (ts_db s) in
  match o with
  | OpGet k =>
    r ← Trie_TryGet D (ts_root s) k;
    mret (fst r, {| ts_root := snd r; ts_db := ts_db s |})
  | OpUpdate k v =>
    root ← Trie_TryUpdate D (ts_root s) k v;
    mret ([], {| ts_root := root; ts_db := ts_db s |})
  | OpDelete k =>
    root ← Trie_TryDelete D (ts_root s) k;
    mret ([], {| ts_root := root; ts_db := ts_db s |})
  | OpHash =>
    r ← liftT (Trie_Hash (ts_root s));
    mret (fst r, {| ts_root := snd r; ts_db := ts_db s |})
  | OpCommit =>
    r ← liftT (Trie_Commit (ts_root s) (ts_db s));
    let '(h, root, db) := r in
    mret (h, {| ts_root := root; ts_db := db |})
  | OpReopen =>
    r ← liftT (Trie_Commit (ts_root s) (ts_db s));
    let '(h, _, db) := r in
    root ← Trie_New h db;
    mret (h, {| ts_root := root; ts_db := db |})
  | OpRestart =>
    r ← liftT (Trie_Commit (ts_root s) (ts_db s));
    let '(h, _, db) := r in
    db ← liftT (Database_Commit db h);
    let db := NewDatabase (db_disk db) in
    root ← Trie_New h db;
    mret (h, {| ts_root := root; ts_db := db |})
  end.

Fixpoint exec_ops (os : list trie_op) (s : trie_state) : TM (list bytes * trie_state) :=
  match os with
  | [] => mret ([], s)
  | o :: os =>
    r ← exec_op o s;
    rs ← exec_ops os (snd r);
    mret (fst r :: fst rs, snd rs)
  end.

Definition new_trie : trie_state := {| ts_root := nilNode; ts_db := NewDatabase ∅ |}.

(** ** The same on maps *)
Definition root_of (m : gmap bytes bytes) : bytes := root_hash (tree_of m).

Definition map_op (o : trie_op) (m : gmap bytes bytes) : bytes * gmap bytes bytes :=
  match o with
  | OpGet k => (default [] (m !! k), m)
  | OpUpdate k v => ([], map_put k v m)
  | OpDelete k => ([], delete k m)
  | OpHash | OpCommit | OpReopen | OpRestart => (root_of m, m)
  end.

Fixpoint map_ops (os : list trie_op) (m : gmap bytes bytes) : list bytes :=
  match os with
  | [] => []
  | o :: os => fst (map_op o m) :: map_ops os (snd (map_op o m))
  end.

(** The maps of a history, and the encodings of the nodes of their tries. *)
Fixpoint maps (os : list trie_op) (m : gmap bytes bytes) : list (gmap bytes bytes) :=
  m :: match os with [] => [] | o :: os => maps os (snd (map_op o m)) end.

Definition final (os : list trie_op) (m : gmap bytes bytes) : gmap bytes bytes := foldl (fun m o => snd (map_op o m)) m os.

Fixpoint encodings (t : tree) : list bytes :=
  match t with
  | TNil | TVal _ => []
  | TShort _ u => tenc t :: encodings u
  | TFull ts => tenc t :: concat (map encodings ts)
  end.

Definition in_play (ms : list (gmap bytes bytes)) (e : bytes) : Prop := e ∈ concat (map (fun m => encodings (tree_of m)) ms).

(** Keys and values are byte strings of less than 1 GiB. *)
Definition op_ok (o : trie_op) : Prop :=
  match o with
  | OpGet k | OpDelete k => is_bytes k /\ Z.of_nat (length k) < 2 ^ 30
  | OpUpdate k v => is_bytes k /\ Z.of_nat (length k) < 2 ^ 30 /\ is_bytes v /\ Z.of_nat (length v) < 2 ^ 30
  | OpHash | OpCommit | OpReopen | OpRestart => True
  end.

#[export] Instance op_ok_dec o : Decision (op_ok o).
Proof. destruct o; unfold op_ok, is_byte; apply _. Defined.

(** ** The trees of maps *)
Lemma seen_encodings X t : (forall e, e ∈ encodings t -> X e) -> seen X t.
Proof.
  induction t as [|v|k t IH|ts IH] using tree_induction; intros H; [done|done|..]; cbn [encodings] in H.
  - split; [apply H; by left|]. apply IH. intros e He. apply H. by right.
  - apply seen_full. split; [apply H; by left|]. rewrite Forall_forall in *. intros t Ht. apply IH; [done|]. intros e He. apply H. right.
    apply list_elem_of_In, in_concat. exists (encodings t). rewrite <- !list_elem_of_In. split; [|done]. apply list_elem_of_fmap. by exists t.
Qed.

Lemma play_seen ms m : m ∈ ms -> seen (in_play ms) (tree_of m).
Proof.
  intros Hm. apply seen_encodings. intros e He. unfold in_play. apply list_elem_of_In, in_concat. exists (encodings (tree_of m)).
  rewrite <- !list_elem_of_In. split; [|done]. apply list_elem_of_fmap. by exists m.
Qed.

Lemma short_slot k u q : wfN (TShort k u) -> slot u q -> tget u q <> [] -> term_key (k ++ q).
Proof.
  intros W Hs Hq. inversion W as [p v Hp Hv|p ts Hp Hne Wf|]; subst.
  - assert (q = []) as -> by (inversion Hs as [|? ? _ [?|W']]; subst; [done|done|inversion W']). rewrite app_nil_r. by exists p.
  - destruct (slot_wf _ _ Hs eq_refl) as [_ Hk]. by apply term_key_app.
Qed.

Lemma full_slot ts i t q : wfN (TFull ts) -> ts !! i = Some t -> slot t q -> tget t q <> [] -> term_key (Z.of_nat i :: q).
Proof.
  intros W Hi Hs Hq. inversion W as [| |? Hl Hc Hv _]; subst. apply lookup_lt_Some in Hi as Hlt. rewrite Hl in Hlt.
  assert (t <> TNil) as Hn by (by intros ->). destruct (decide (i = 16%nat)) as [->|Hne].
  - destruct (Hv t Hi) as [->|(v & -> & _)]; [done|].
    assert (q = []) as -> by (inversion Hs as [|? ? _ [?|W']]; subst; [done|done|inversion W']). apply term_single.
  - assert (wfN t) as Wt by (eapply Hc; [done|done|lia]). apply term_key_nibble; [unfold is_nibble; lia|].
    by apply (slot_wf t q Hs); inversion Wt.
Qed.

Definition bounded (t : tree) : Prop := forall k, slot t k -> tget t k <> [] ->
  Z.of_nat (length k) < 2 ^ 32 /\ is_bytes (tget t k) /\ Z.of_nat (length (tget t k)) < 2 ^ 32.

(** Some key of a part leads to a value. *)
Lemma part_inhabited t : part t -> t <> TNil -> exists k, slot t k /\ tget t k <> [].
Proof.
  intros [[->|W]|[->|(v & -> & Hv)]] Hn; [done| |done|].
  - destruct (wf_inhabited t W) as (k & Ht & Hk). exists k. split; [|done]. apply slot_more; [done|by right].
  - exists []. split; [|done]. constructor. right. eauto.
Qed.

Lemma bounded_sized t : part t -> bounded t -> sized t.
Proof.
  induction 1 as [|v|k u W Hu Hp IH|ts W Hp IH] using part_induction; intros Hb; [done|..].
  - destruct (decide (v = [])) as [->|Hv]; [split; [apply Forall_nil_2|done]|].
    destruct (Hb []) as (_ & ? & ?); [constructor; right; eauto|done|done].
  - assert (forall q, slot u q -> tget u q <> [] -> Z.of_nat (length (k ++ q)) < 2 ^ 32 /\ is_bytes (tget u q) /\ Z.of_nat (length (tget u q)) < 2 ^ 32) as Hq.
    { intros q Hs Hg. rewrite <- (tget_short_app k) in *. apply Hb; [|done]. apply slot_more; [|by right].
      rewrite tget_short_app in Hg. by eapply short_slot. }
    split.
    + destruct (part_inhabited u Hp Hu) as (r & Hr & Hg). destruct (Hq r Hr Hg) as [Hl _]. rewrite length_app in Hl. lia.
    + apply IH. intros q Hs Hg. destruct (Hq q Hs Hg) as [Hl H]. rewrite length_app in Hl. split; [lia|done].
  - apply sized_full. rewrite Forall_lookup in *. intros i t Ht. apply (IH i t Ht). intros q Hs Hq.
    assert (tget (TFull ts) (Z.of_nat i :: q) = tget t q) as E by (by rewrite tget_full, Nat2Z.id, Ht).
    destruct (Hb (Z.of_nat i :: q)) as (Hl & H); [|by rewrite E|].
    + apply slot_more; [by eapply full_slot|by right].
    + rewrite E in H. cbn in Hl. split; [lia|done].
Qed.

Lemma length_hex k : length (keybytesToHex k) = S (2 * length k).
Proof. rewrite keybytes_unpack, length_app, length_unpack. cbn. lia. Qed.

Lemma holds_sized t m : map_ok m -> holds t m -> sized t.
Proof.
  intros Hm [W [H1 H2]]. apply bounded_sized; [by left|]. intros k Hs Hg. destruct (decide (k ∈ (hexes m).*1)) as [(v & Hv)%fst_elem|Hn].
  - rewrite (H1 k v Hv) in *. apply elem_of_hexes in Hv as (x & -> & Hx). destruct (Hm x v Hx) as (_ & Hl & Hb & Hl' & _).
    rewrite length_hex. split_and!; [lia|done|done].
  - destruct W as [->|W]; [done|]. destruct Hg. apply H2; [|done]. by apply (slot_wf t k Hs); inversion W.
Qed.

(** ** One operation *)
Context {KL : KeccakLaws K}.

Lemma need_fuel n key : (need n key <= trie_fuel key)%nat.
Proof. unfold need, trie_fuel. destruct n; lia. Qed.

Lemma hex_slot t m k : holds t m -> is_bytes k -> slot t (keybytesToHex k).
Proof. intros [W _] Hk. apply slot_more; [by apply hex_term|done]. Qed.

Lemma TryGet_ok D n m k : map_ok m -> repr D true n (tree_of m) -> is_bytes k ->
  exists n', Trie_TryGet D n k = Ret (Ok (default [] (m !! k), n')) /\ repr D true n' (tree_of m).
Proof.
  intros Hm Hr Hk. pose proof (tree_of_holds m Hm) as Hh.
  destruct (tryGet_ok D true n _ Hr (keybytesToHex k) _ (hex_slot _ _ _ Hh Hk) (need_fuel _ _)) as (n' & did & E & Hr').
  unfold Trie_TryGet. rewrite (TM_bind_Ok _ _ _ E), (holds_get _ m) by done. eexists. split; [reflexivity|]. by destruct did.
Qed.

Lemma put_tree m k v t' : map_ok m -> is_bytes k -> Z.of_nat (length k) < 2 ^ 30 -> is_bytes v -> Z.of_nat (length v) < 2 ^ 30 ->
  put (keybytesToHex k) v (tree_of m) t' -> t' = tree_of (map_put k v m).
Proof.
  intros Hm Hk Hl Hv Hvl Hp. apply holds_unique; [apply map_put_ok; try done; lia|]. by eapply holds_put; [done|apply tree_of_holds|..].
Qed.

Lemma TryDelete_ok D n m k : map_ok m -> repr D true n (tree_of m) -> is_bytes k -> Z.of_nat (length k) < 2 ^ 30 ->
  exists n', Trie_TryDelete D n k = Ret (Ok n') /\ repr D true n' (tree_of (map_put k [] m)).
Proof.
  intros Hm Hr Hk Hl. pose proof (tree_of_holds m Hm) as Hh.
  destruct (delete_ok D true n _ Hr (keybytesToHex k) _ (hex_slot _ _ _ Hh Hk) (need_fuel _ _)) as (dirty & n' & t' & E & Hr' & Hp & _).
  unfold Trie_TryDelete. rewrite (TM_bind_Ok _ _ _ E). exists n'. split; [done|]. rewrite <- (put_tree m k [] t'); done.
Qed.

Lemma TryUpdate_ok D n m k v : map_ok m -> repr D true n (tree_of m) -> op_ok (OpUpdate k v) ->
  exists n', Trie_TryUpdate D n k v = Ret (Ok n') /\ repr D true n' (tree_of (map_put k v m)).
Proof.
  intros Hm Hr (Hk & Hl & Hv & Hvl). destruct (decide (v = [])) as [->|Hne]; [by apply TryDelete_ok|].
  pose proof (tree_of_holds m Hm) as Hh.
  destruct (insert_ok D true n _ Hr (keybytesToHex k) v _ (hex_slot _ _ _ Hh Hk) Hne (need_fuel _ _)) as (dirty & n' & t' & E & Hr' & _ & Hp & _).
  unfold Trie_TryUpdate. destruct v as [|x v]; [done|]. rewrite (TM_bind_Ok _ _ _ E). exists n'. split; [done|]. by rewrite <- (put_tree m k (x :: v) t').
Qed.

(** The state of a trie stands for a map. *)
Record sim (X : bytes -> Prop) (s : trie_state) (m : gmap bytes bytes) : Prop := {
  sim_map : map_ok m;
  sim_seen : seen X (tree_of m);
  sim_db : db_inv X (ts_db s);
  sim_root : repr (db_node (ts_db s)) true (ts_root s) (tree_of m) }.

Lemma map_op_ok o m : op_ok o -> map_ok m -> map_ok (snd (map_op o m)).
Proof.
  intros Ho Hm. destruct o as [k|k v|k| | | |]; try done; cbn in *.
  - destruct Ho as (? & ? & ? & ?). apply map_put_ok; try done. lia.
  - destruct Ho. apply (map_put_ok k []); done.
Qed.

Lemma sim_commit X s m : collision_free X -> sim X s m -> exists n db, Trie_Commit (ts_root s) (ts_db s) = Ret (root_of m, n, db)
  /\ db_inv X db /\ repr (db_node db) true n (tree_of m) /\ (tree_of m = TNil \/ stored (db_node db) (tree_of m)).
Proof.
  intros CF [Hm Hse Hdb Hr]. pose proof (tree_of_holds m Hm) as Hh.
  destruct (Commit_ok X (ts_root s) (tree_of m) (ts_db s)) as (n & db & E & _ & _ & Hi & Hn & Hst);
    [done|by apply inv_ok|apply Hh|by eapply holds_sized|done|done|].
  exists n, db. split_and!; [done|by eapply inserted_inv|done|done].
Qed.

Lemma liftT_bind {A B} (m : outcome A) a (f : A -> TM B) : m = Ret a -> (x ← liftT m; f x) = f a.
Proof. by intros ->. Qed.

Lemma exec_op_ok X o s m : collision_free X -> op_ok o -> sim X s m -> seen X (tree_of (snd (map_op o m))) ->
  exists s', exec_op o s = Ret (Ok (fst (map_op o m), s')) /\ sim X s' (snd (map_op o m)).
Proof.
  intros CF Ho Hs Hse. pose proof Hs as [Hm Hse' Hdb Hr]. pose proof (map_op_ok o m Ho Hm) as Hm'. pose proof (tree_of_holds m Hm) as Hh.
  destruct o as [k|k v|k| | | |]; cbn [exec_op map_op fst snd] in *.
  - destruct (TryGet_ok (db_node (ts_db s)) _ m k Hm Hr (proj1 Ho)) as (n & E & Hn). rewrite (TM_bind_Ok _ _ _ E). eexists. split; [reflexivity|done].
  - destruct (TryUpdate_ok (db_node (ts_db s)) _ m k v Hm Hr Ho) as (n & E & Hn). rewrite (TM_bind_Ok _ _ _ E). eexists. split; [reflexivity|done].
  - destruct (TryDelete_ok (db_node (ts_db s)) _ m k Hm Hr (proj1 Ho) (proj2 Ho)) as (n & E & Hn). rewrite (TM_bind_Ok _ _ _ E).
    eexists. split; [reflexivity|done].
  - destruct (Hash_ok (db_node (ts_db s)) (ts_root s) (tree_of m)) as (n & E & Hn); [apply Hh|by eapply holds_sized|done|].
    rewrite (liftT_bind _ _ _ E). eexists. split; [reflexivity|done].
  - destruct (sim_commit X s m CF Hs) as (n & db & E & Hdb' & Hn & _). rewrite (liftT_bind _ _ _ E). eexists. split; [reflexivity|done].
  - destruct (sim_commit X s m CF Hs) as (n & db & E & Hdb' & _ & Hst). rewrite (liftT_bind _ _ _ E).
    destruct (New_ok X (tree_of m) db) as (n' & E' & Hn'); [done|apply Hh|done|done|].
    rewrite (TM_bind_Ok _ _ _ E'). eexists. split; [reflexivity|done].
  - destruct (sim_commit X s m CF Hs) as (n & db & E & Hdb' & _ & Hst). rewrite (liftT_bind _ _ _ E).
    destruct (Restart_ok X CF db (tree_of m)) as (db' & E2 & Hdb2 & Hst2); [done| |done|].
    { split_and!; [left; apply Hh|by eapply holds_sized|done]. }
    rewrite (liftT_bind _ _ _ E2).
    destruct (New_ok X (tree_of m) (NewDatabase (db_disk db'))) as (n' & E' & Hn'); [done|apply Hh|done|done|].
    rewrite (TM_bind_Ok _ _ _ E'). eexists. split; [reflexivity|done].
Qed.

Lemma exec_ops_ok X os : collision_free X -> forall s m, Forall op_ok os -> (forall m', m' ∈ maps os m -> seen X (tree_of m')) -> sim X s m ->
  exists s', exec_ops os s = Ret (Ok (map_ops os m, s')) /\ sim X s' (final os m).
Proof.
  intros CF. induction os as [|o os IH]; intros s m Ho Hse Hs; [by exists s|]. inversion Ho as [|?? Ho1 Ho2]; subst. cbn [maps] in Hse.
  destruct (exec_op_ok X o s m CF Ho1 Hs) as (s1 & E1 & Hs1).
  { apply Hse. right. destruct os; by left. }
  destruct (IH s1 (snd (map_op o m)) Ho2) as (s' & E' & Hs'); [intros m' Hm'; apply Hse; by right|done|].
  exists s'. split; [|done]. cbn [exec_ops map_ops]. rewrite (TM_bind_Ok _ _ _ E1). cbn [snd]. by rewrite (TM_bind_Ok _ _ _ E').
Qed.

Lemma new_sim X : sim X new_trie ∅.
Proof.
  constructor; [by intros k v ?%lookup_empty_Some|done| |constructor]. constructor; cbn.
  - intros h c [<- _]%lookup_singleton_Some Hz. done.
  - intros h e _ E. by apply lookup_empty_Some in E.
  - intros t _ [e E]. by apply lookup_empty_Some in E.
  - intros h p E. by apply lookup_empty_Some in E.
Qed.

Lemma maps_final os m : final os m ∈ maps os m.
Proof. revert m. induction os as [|o os IH]; intros m; cbn [maps]; [by left|]. right. apply IH. Qed.

Lemma tree_of_inj m1 m2 : map_ok m1 -> map_ok m2 -> tree_of m1 = tree_of m2 -> m1 = m2.
Proof.
  assert (forall m m' k v, map_ok m -> map_ok m' -> tree_of m = tree_of m' -> m !! k = Some v -> m' !! k = Some v) as Hsub.
  { intros m m' k v Hm Hm' Em Hk. pose proof (Hm k v Hk) as (Hb & _ & _ & _ & Hv).
    pose proof (holds_get _ m k Hm (tree_of_holds m Hm) Hb) as G. rewrite Em, (holds_get _ m') in G by (done || by apply tree_of_holds).
    rewrite Hk in G. destruct (m' !! k); cbn in G; congruence. }
  intros H1 H2 E. apply map_eq. intros k. apply option_eq. intros v. split; eapply Hsub; done.
Qed.

Lemma sim_hash X s m : sim X s m -> exists n, Trie_Hash (ts_root s) = Ret (root_of m, n).
Proof.
  intros [Hm _ _ Hr]. pose proof (tree_of_holds m Hm) as Hh.
  destruct (Hash_ok (db_node (ts_db s)) (ts_root s) (tree_of m)) as (n & E & _); [apply Hh|by eapply holds_sized|done|]. by exists n.
Qed.

(** ** The theorems *)

(** C4: a trie is a map with a root hash.  Over any history of reads, updates
    (with the empty value: deletions), deletions, hashing, commits, opening the
    trie again at its root and restarts that leave only the disk, no operation
    fails or panics, reads return the last value written, and the root hash is
    that of the tree specified for the contents, whatever the history was: as
    long as no two encodings of nodes that occur have the same Keccak hash. *)
Theorem trie_refines_map os : Forall op_ok os -> collision_free (in_play (maps os ∅)) ->
  exists s, exec_ops os new_trie = Ret (Ok (map_ops os ∅, s)).
Proof.
  intros Ho CF. destruct (exec_ops_ok _ os CF new_trie ∅ Ho (play_seen _)) as (s & E & _); [apply new_sim|]. by exists s.
Qed.

(** C23: the root hash commits to the contents.  Two tries with the same root
    hash, whatever their histories, hold the same map and read alike, as long as
    no two encodings of nodes that occur have the same Keccak hash. *)
Theorem root_hash_binds os1 os2 o1 o2 s1 s2 h n1 n2 : Forall op_ok os1 -> Forall op_ok os2 ->
  collision_free (in_play (maps os1 ∅ ++ maps os2 ∅)) ->
  exec_ops os1 new_trie = Ret (Ok (o1, s1)) -> exec_ops os2 new_trie = Ret (Ok (o2, s2)) ->
  Trie_Hash (ts_root s1) = Ret (h, n1) -> Trie_Hash (ts_root s2) = Ret (h, n2) ->
  final os1 ∅ = final os2 ∅ /\ forall k, op_ok (OpGet k) -> exists v r1 r2,
    Trie_TryGet (db_node (ts_db s1)) (ts_root s1) k = Ret (Ok (v, r1)) /\ Trie_TryGet (db_node (ts_db s2)) (ts_root s2) k = Ret (Ok (v, r2)).
Proof.
  intros Ho1 Ho2 CF E1 E2 Eh1 Eh2. set (X := in_play (maps os1 ∅ ++ maps os2 ∅)) in *.
  assert (forall m, m ∈ maps os1 ∅ ++ maps os2 ∅ -> seen X (tree_of m)) as HX by apply play_seen. setoid_rewrite elem_of_app in HX.
  destruct (exec_ops_ok X os1 CF new_trie ∅ Ho1) as (s1' & E1' & S1); [auto|apply new_sim|]. rewrite E1 in E1'. injection E1' as -> <-.
  destruct (exec_ops_ok X os2 CF new_trie ∅ Ho2) as (s2' & E2' & S2); [auto|apply new_sim|]. rewrite E2 in E2'. injection E2' as -> <-.
  assert (root_of (final os1 ∅) = root_of (final os2 ∅)) as E.
  { destruct (sim_hash X s1 _ S1) as (m1 & H1), (sim_hash X s2 _ S2) as (m2 & H2). congruence. }
  pose proof S1 as [M1 X1 _ R1]. pose proof S2 as [M2 X2 _ R2]. assert (final os1 ∅ = final os2 ∅) as Em.
  { apply tree_of_inj; [done|done|]. apply (root_inj X CF); try done; (by apply tree_of_holds) || (by eapply holds_sized, tree_of_holds). }
  split; [done|]. intros k [Hk _]. rewrite <- Em in *.
  destruct (TryGet_ok (db_node (ts_db s1)) _ _ k M1 R1 Hk) as (r1 & G1 & _), (TryGet_ok (db_node (ts_db s2)) _ _ k M1 R2 Hk) as (r2 & G2 & _).
  eauto.
Qed.

(** nodes survive encoding.  The node of a well-formed trie that the hasher
    puts into the database is encoded without error, and both ways of getting it
    back, decoding the bytes from disk and expanding the form in memory, give the
    same node: its key in full, embedded nodes in place and hashes for the
    others. *)
Theorem node_roundtrip t h : wfN t -> sized t -> exists buf n, cachedNode_rlp {| cn_node := rtop t; cn_sideren := ∅ |} = Ret buf
  /\ decodeNode (Some h) buf = Ok n /\ cachedNode_obj {| cn_node := rtop t; cn_sideren := ∅ |} h = Ret n
  /\ n = top {| fl_hash := Some h; fl_dirty := false |} t.
Proof.
  intros W Hs. exists (tenc t), (top {| fl_hash := Some h; fl_dirty := false |} t). split_and!; [|by apply decodeNode_ok|by apply obj_rtop|done].
  rewrite <- encode_ok, <- raw_ival_top by done. by inversion W.
Qed.
End Histories.

(** ** Histories with a small hash function *)
Definition toy_keccak (b : bytes) : bytes := be 32 (foldl (fun a x => (a * 257 + x + 1) mod 2305843009213693951) 7 b).

#[export] Instance toyKeccak : KeccakLib := {| keccak := toy_keccak |}.
#[export] Instance toyKeccakLaws : KeccakLaws toyKeccak.
Proof. split; intros b; [apply length_be|apply be_bytes]. Qed.

Definition cf_check (l : list bytes) : bool :=
  let hs := map (fun e => (e, keccak e)) l in
  forallb (fun '(e, h) => negb (bool_decide (h = zeroHash)) && negb (bool_decide (h = emptyRoot))
    && forallb (fun '(e', h') => negb (bool_decide (h = h')) || bool_decide (e = e')) hs) hs.

Lemma cf_check_ok l : cf_check l = true -> collision_free (fun e => e ∈ l).
Proof.
  unfold cf_check. rewrite forallb_forall. intros H.
  assert (forall e, e ∈ l -> In (e, keccak e) (map (fun e => (e, keccak e)) l)) as Hin.
  { intros e He. apply in_map_iff. exists e. by rewrite <- list_elem_of_In. }
  assert (forall e, e ∈ l -> keccak e <> zeroHash /\ keccak e <> emptyRoot /\ forall e', e' ∈ l -> keccak e = keccak e' -> e = e') as H'.
  { intros e He. specialize (H _ (Hin e He)). cbn beta iota in H. rewrite !andb_true_iff, !negb_true_iff, !bool_decide_eq_false, forallb_forall in H.
    destruct H as [[H1 H2] H3]. split_and!; [done|done|]. intros e' He' E. specialize (H3 _ (Hin e' He')). cbn beta iota in H3.
    apply orb_true_iff in H3 as [H3|H3]; [|by apply bool_decide_eq_true in H3]. apply negb_true_iff, bool_decide_eq_false in H3. done. }
  constructor; [intros e e' He He' E|intros e He|intros e He]; by apply (H' e He).
Qed.

Definition word (x : Z) (n : nat) : bytes := replicate n x.

(** Keys with common prefixes, one of them a prefix of another; long and short
    values. *)
Definition sample_ops : list trie_op :=
  [OpUpdate [18; 52] (word 1 40); OpUpdate [18; 53] (word 2 3); OpUpdate [18] (word 3 33); OpHash;
   OpUpdate [171; 205] (word 4 5); OpCommit; OpGet [18; 53]; OpDelete [18; 52]; OpReopen; OpUpdate [171; 206] (word 5 60);
   OpGet [18]; OpRestart; OpDelete [18]; OpGet [171; 206]; OpGet [18]; OpDelete [171; 205]; OpHash; OpRestart; OpGet [18; 53]].

Definition other_ops : list trie_op := [OpUpdate [171; 206] (word 5 60); OpUpdate [18; 53] (word 9 9); OpCommit; OpUpdate [18; 53] (word 2 3)].

Lemma sample_ok : Forall op_ok sample_ops.
Proof. by apply (bool_decide_unpack _); vm_compute. Qed.

Lemma other_ok : Forall op_ok other_ops.
Proof. by apply (bool_decide_unpack _); vm_compute. Qed.

Lemma sample_free : collision_free (in_play (maps sample_ops ∅)).
Proof. apply cf_check_ok. by vm_compute. Qed.

Lemma both_free : collision_free (in_play (maps sample_ops ∅ ++ maps other_ops ∅)).
Proof. apply cf_check_ok. by vm_compute. Qed.

(** The root hashes and what is read. *)
Definition ok_outputs (r : TM (list bytes * trie_state)) : option (list bytes) := match r with Ret (Ok (os, _)) => Some os | _ => None end.

Lemma trie_refines_map_witness : ok_outputs (exec_ops sample_ops new_trie) = Some (map_ops sample_ops ∅)
  /\ exists s, exec_ops sample_ops new_trie = Ret (Ok (map_ops sample_ops ∅, s)).
Proof. split; [by vm_compute|]. apply (trie_refines_map sample_ops); [apply sample_ok|apply sample_free]. Defined.

Lemma root_hash_binds_witness : final sample_ops ∅ = final other_ops ∅ /\ exists s1 s2 v r1 r2,
  exec_ops sample_ops new_trie = Ret (Ok (map_ops sample_ops ∅, s1)) /\ exec_ops other_ops new_trie = Ret (Ok (map_ops other_ops ∅, s2))
  /\ Trie_TryGet (db_node (ts_db s1)) (ts_root s1) [18; 53] = Ret (Ok (v, r1))
  /\ Trie_TryGet (db_node (ts_db s2)) (ts_root s2) [18; 53] = Ret (Ok (v, r2)).
Proof.
  pose proof (play_seen (maps sample_ops ∅ ++ maps other_ops ∅)) as HX. setoid_rewrite elem_of_app in HX.
  destruct (exec_ops_ok _ sample_ops both_free new_trie ∅ sample_ok) as (s1 & E1 & S1); [auto|apply new_sim|].
  destruct (exec_ops_ok _ other_ops both_free new_trie ∅ other_ok) as (s2 & E2 & S2); [auto|apply new_sim|].
  destruct (sim_hash _ _ _ S1) as (n1 & H1), (sim_hash _ _ _ S2) as (n2 & H2).
  replace (root_of (final other_ops ∅)) with (root_of (final sample_ops ∅)) in H2 by (by vm_compute).
  destruct (root_hash_binds sample_ops other_ops _ _ s1 s2 _ n1 n2 sample_ok other_ok both_free E1 E2 H1 H2) as [Ef Hg].
  split; [exact Ef|]. destruct (Hg [18; 53]) as (v & r1 & r2 & G1 & G2); [by apply (bool_decide_unpack _); vm_compute|].
  exists s1, s2, v, r1, r2. split_and!; [exact E1|exact E2|exact G1|exact G2].
Defined.

(** An extension above a branch with a large and a small leaf. *)
Definition sample_leaf (x : Z) (n : nat) : tree := TShort ([1; 2] ++ [terminator]) (TVal (word x n)).
Definition sample_tree : tree := TShort [7; 8] (TFull (two 3 4 (sample_leaf 9 40) (sample_leaf 5 2))).

Lemma sample_tree_wf : wfN sample_tree.
Proof.
  assert (forall x n, (0 < n)%nat -> wfN (sample_leaf x n)) as Hl.
  { intros x n Hn. apply wf_leaf; [by repeat constructor|]. by destruct n; [lia|]. }
  apply wf_ext; [by repeat constructor|done|]. apply two_wf; [left|left|done]; (split; [done|]); apply Hl; lia.
Qed.

Lemma sample_tree_sized : sized sample_tree.
Proof.
  split; [done|]. apply sized_full. repeat constructor; apply (bool_decide_unpack _); by vm_compute.
Qed.

Lemma node_roundtrip_witness : exists buf n, cachedNode_rlp {| cn_node := rtop sample_tree; cn_sideren := ∅ |} = Ret buf
  /\ decodeNode (Some (word 1 32)) buf = Ok n /\ cachedNode_obj {| cn_node := rtop sample_tree; cn_sideren := ∅ |} (word 1 32) = Ret n
  /\ n = top {| fl_hash := Some (word 1 32); fl_dirty := false |} sample_tree.
Proof. apply (node_roundtrip sample_tree (word 1 32)); [apply sample_tree_wf|apply sample_tree_sized]. Defined.
