(* ===== verification/TrieProof.v ===== *)
(** * Merkle proofs

    Proofs that a key has a value in a trie (chain/trie/proof.go), in the list of
    keys and values that carries them between chains (BSKeyValueSet of
    chain/core/types/key_value.go).

    A proof that Prove makes verifies.  When the entries of a proof are stored
    under their hashes, what VerifyProof returns is what the trie holds.  But
    VerifyProof does not check this, and nobody does for a list that was received:
    any value can be proved for any key and any root, and a list can be made on
    which VerifyProof never returns. *)
From S2P Require Import Prelude Rlp RlpDecode RlpInput TrieCodec Trie TrieTree TrieMap TrieStore TrieDecode TrieCommit TrieDisk TrieSpec TrieTheorems.
Local Open Scope Z_scope.

(** ** key_value.go *)
Record BSKeyValueSet := { KVArray : list (bytes * bytes) }.

Definition MakeBSKeyValueSet : BSKeyValueSet := {| KVArray := [] |}.

Fixpoint kv_put (kvs : list (bytes * bytes)) (key value : bytes) : list (bytes * bytes) :=
  match kvs with
  | [] => [(key, value)]
  | (k, v) :: kvs => if bool_decide (k = key) then (k, value) :: kvs else (k, v) :: kv_put kvs key value
  end.

Definition BSKeyValueSet_Put (kv : BSKeyValueSet) (key value : bytes) : BSKeyValueSet := {| KVArray := kv_put (KVArray kv) key value |}.

Fixpoint kv_get (kvs : list (bytes * bytes)) (key : bytes) : option bytes :=
  match kvs with
  | [] => None
  | (k, v) :: kvs => if bool_decide (k = key) then Some v else kv_get kvs key
  end.

Definition BSKeyValueSet_Get (kv : BSKeyValueSet) (key : bytes) : option bytes := kv_get (KVArray kv) key.

Section Proofs.
Context {K : KeccakLib}.

(** ** Prove: the nodes on the way to a key *)
Fixpoint prove_path (D : Resolver) (fuel : nat) (tn : node) (key : bytes) : TM (list node) :=
  match fuel with
  | O => no_fuel
  | S fuel =>
    match key with
    | [] => mret []
    | _ =>
      match tn with
      | nilNode => mret []
      | shortNode k val _ =>
        if (length key <? length k)%nat || negb (bool_decide (k = take (length k) key)) then mret [tn]
        else
          nodes ← prove_path D fuel val (drop (length k) key);
          mret (tn :: nodes)
      | fullNode children _ =>
        i ← liftT (slice_get key 0);
        child ← liftT (slice_get children i);
        nodes ← prove_path D fuel child (drop 1 key);
        mret (tn :: nodes)
      | hashNode h =>
        n ← Trie_resolveHash D h;
        prove_path D fuel n key
      | valueNode _ => invalid_node
      end
    end
  end.

(** The encodings of the nodes that have a hash, and of the first one; the first
    [fromLevel] of them are left out. *)
Fixpoint prove_nodes (i : nat) (nodes : list node) (fromLevel : nat) (proofDb : BSKeyValueSet) : outcome BSKeyValueSet :=
  match nodes with
  | [] => Ret proofDb
  | n :: nodes =>
    r ← hashChildren (fun c db => hasher_hash c db false) n None;
    let '(n, _, _) := r in
    s ← hasher_store n None false;
    let '(hn, _) := s in
    if is_some (as_hash hn) || (i =? 0)%nat then
      match fromLevel with
      | S fromLevel => prove_nodes (S i) nodes fromLevel proofDb
      | O =>
        e ← EncodeToBytes TIface (node_ival n);
        let enc := match e with Ok enc => enc | Err _ => [] end in
        let hash := match as_hash hn with Some h => h | None => keccak enc end in
        prove_nodes (S i) nodes 0 (BSKeyValueSet_Put proofDb hash enc)
      end
    else prove_nodes (S i) nodes fromLevel proofDb
  end.

Definition Trie_Prove (D : Resolver) (root : node) (key : bytes) (fromLevel : nat) (proofDb : BSKeyValueSet) : TM BSKeyValueSet :=
  let key := keybytesToHex key in
  nodes ← prove_path D (trie_fuel key) root key;
  liftT (prove_nodes 0 nodes fromLevel proofDb).

(** ** VerifyProof *)
Fixpoint node_get (tn : node) (key : bytes) : outcome (bytes * node) :=
  match tn with
  | shortNode k val _ =>
    if (length key <? length k)%nat || negb (bool_decide (k = take (length k) key)) then Ret ([], nilNode)
    else node_get val (drop (length k) key)
  | fullNode children _ =>
    match key with
    | [] => Panic "index out of range"
    | i :: rest =>
      (fix pick (cs : list node) (n : nat) : outcome (bytes * node) :=
         match cs, n with
         | [], _ => Panic "index out of range"
         | c :: _, O => node_get c rest
         | _ :: cs, S n => pick cs n
         end) children (Z.to_nat i)
    end
  | hashNode h => Ret (key, tn)
  | nilNode => Ret (key, nilNode)
  | valueNode v => Ret ([], tn)
  end.

(** The loop; [None] when it has not ended. *)
Fixpoint verify_loop (fuel : nat) (i : Z) (wantHash key : bytes) (proofDb : BSKeyValueSet) : option (outcome (result string (bytes * Z))) :=
  match fuel with
  | O => None
  | S fuel =>
    match BSKeyValueSet_Get proofDb wantHash with
    | None => Some (Ret (Err "proof node missing"%string))
    | Some buf =>
      match decodeNode (Some wantHash) buf with
      | Err _ => Some (Ret (Err "bad proof node"%string))
      | Ok n =>
        match node_get n key with
        | Panic s => Some (Panic s)
        | Ret (keyrest, cld) =>
          match cld with
          | nilNode => Some (Ret (Ok ([], i)))
          | hashNode h => verify_loop fuel (i + 1) (take HashLength h ++ drop (length h) wantHash) keyrest proofDb
          | valueNode v => Some (Ret (Ok (v, i + 1)))
          | _ => verify_loop fuel (i + 1) wantHash key proofDb
          end
        end
      end
    end
  end.

Definition VerifyProof (fuel : nat) (rootHash key : bytes) (proofDb : BSKeyValueSet) : option (outcome (result string (bytes * Z))) :=
  verify_loop fuel 0 rootHash (keybytesToHex key) proofDb.

(** ** Walking down a tree *)
Fixpoint walk (t : tree) (key : bytes) : list tree :=
  match t with
  | TNil | TVal _ => []
  | TShort k u => t :: if bool_decide (k = take (length k) key) then walk u (drop (length k) key) else []
  | TFull ts =>
    t :: match key with
         | [] => []
         | i :: rest =>
           (fix pick (us : list tree) (n : nat) : list tree :=
              match us, n with
              | [], _ => []
              | u :: _, O => walk u rest
              | _ :: us, S n => pick us n
              end) ts (Z.to_nat i)
         end
  end.

Lemma walk_full ts i rest t : ts !! Z.to_nat i = Some t -> walk (TFull ts) (i :: rest) = TFull ts :: walk t rest.
Proof.
  intros H. cbn [walk]. f_equal. revert H. generalize (Z.to_nat i). induction ts as [|u ts IH]; intros [|n] H; try done.
  - by injection H as ->.
  - by apply IH.
Qed.

Lemma walk_short k u rest : walk (TShort k u) (k ++ rest) = TShort k u :: walk u rest.
Proof. cbn [walk]. rewrite take_app_length, bool_decide_true, drop_app_length by done. done. Qed.

Lemma node_get_full cs fl i rest c : cs !! Z.to_nat i = Some c -> node_get (fullNode cs fl) (i :: rest) = node_get c rest.
Proof.
  cbn [node_get]. generalize (Z.to_nat i). induction cs as [|d cs IH]; intros [|n] H; try done.
  - by injection H as ->.
  - by apply IH.
Qed.

(** What get finds in a node: nothing, the value, or the hash of a tree further
    down the walk. *)
Definition found (us : list tree) (t : tree) (key : bytes) (r : outcome (bytes * node)) : Prop :=
  exists rest c, r = Ret (rest, c) /\ ((c = nilNode /\ tget t key = []) \/ (c = valueNode (tget t key) /\ tget t key <> [])
    \/ exists u, c = hashNode (hash_tree u) /\ u ∈ us /\ slot u rest /\ tget u rest = tget t key
         /\ (forall w, w ∈ walk u rest -> w ∈ walk t key)).

Lemma found_nil us t key rest : tget t key = [] -> found us t key (Ret (rest, nilNode)).
Proof. intros H. exists rest, nilNode. split; [done|by left]. Qed.

Lemma found_up us us' t t' key key' r : found us t key r -> tget t' key' = tget t key -> (forall u, u ∈ us -> u ∈ us') ->
  (forall w, w ∈ walk t key -> w ∈ walk t' key') -> found us' t' key' r.
Proof.
  intros (rest & c & -> & H) E Hu Hw. exists rest, c. split; [done|]. rewrite E.
  destruct H as [?|[?|(u & ? & ? & ? & ? & ?)]]; [by left|by right; left|right; right]. exists u. split_and!; auto.
Qed.

Definition found_ref (t : tree) : Prop := forall key, slot t key -> found (refs t) t key (node_get (refn t) key).

Lemma found_top fl t key : wfN t -> Forall found_ref match t with TShort _ u => [u] | TFull ts => ts | _ => [] end -> slot t key ->
  found (below t) t key (node_get (top fl t) key).
Proof.
  intros W IH Hs. destruct t as [|v|k u|ts]; [inversion W|inversion W|..]; cbn [top].
  - cbn [node_get]. rewrite prefix_test. case_bool_decide as E; cbn [negb].
    + assert (key = k ++ drop (length k) key) as Ek by (rewrite E at 1; rewrite take_drop; done).
      inversion IH as [|?? IH' _]; subst. set (rest := drop (length k) key) in *. clearbody rest. subst key.
      apply slot_short in Hs as [Hs _]. eapply found_up; [by apply IH'|by rewrite tget_short_app|done|].
      intros w Hw. rewrite walk_short. by right.
    + apply found_nil. cbn [tget]. by rewrite bool_decide_false.
  - apply slot_full in Hs as (i & rest & t & -> & Hi & Ht & Hs & _).
    rewrite (node_get_full _ _ _ _ (refn t)) by (etransitivity; [apply list_lookup_fmap|]; by rewrite Ht).
    rewrite Forall_lookup in IH. eapply found_up; [by apply (IH _ _ Ht)|by rewrite tget_full, Ht| |].
    + intros u Hu. cbn [below]. apply list_elem_of_In, in_concat. exists (refs t). rewrite <- !list_elem_of_In. split; [|done].
      apply list_elem_of_fmap. exists t. split; [done|]. by eapply list_elem_of_lookup_2.
    + intros w Hw. rewrite (walk_full _ _ _ t) by done. by right.
Qed.

Lemma found_refn t : part t -> found_ref t.
Proof.
  assert (forall x, wfN x -> Forall found_ref match x with TShort _ u => [u] | TFull ts => ts | _ => [] end -> found_ref x) as Hstep.
  { intros x W IH key Hs. assert (solid_tree x = true) as Hsol by (by inversion W). rewrite refn_solid, refs_solid by done.
    destruct (big x); [|by apply found_top]. exists key, (hashNode (hash_tree x)). split; [done|]. right. right. exists x.
    split_and!; [done|by apply list_elem_of_singleton|done|done|done]. }
  induction 1 as [|v|k u W Hu Hp IH|ts W Hp IH] using part_induction; [..|apply Hstep; [done|by constructor]|by apply Hstep].
  - intros key _. by apply found_nil.
  - intros key Hs. inversion Hs as [? Hv|? ? _ [?|W]]; subst; [|done|inversion W]. destruct Hv as [?|(w & E & Hw)]; [done|]. injection E as <-.
    exists [], (valueNode v). split; [done|]. by right; left.
Qed.

Lemma node_get_ok fl t key : wfN t -> slot t key -> found (below t) t key (node_get (top fl t) key).
Proof.
  intros W Hs. apply found_top; [done| |done]. destruct t as [|v|k u|ts]; [done|done|..].
  - constructor; [|done]. by apply found_refn, (short_part k).
  - eapply Forall_impl; [exact (full_parts _ W)|]. apply found_refn.
Qed.

(** ** Verifying *)
Context {KL : KeccakLaws K}.

Lemma refs_big t u : part t -> u ∈ refs t -> big u = true.
Proof.
  intros Hp. revert u. induction Hp as [|v|k t W Hn Hp IH|ts W Hp IH] using part_induction; intros u Hu;
    [by apply not_elem_of_nil in Hu..| |]; rewrite refs_solid in Hu by done; destruct (big _) eqn:E;
    try (apply list_elem_of_singleton in Hu as ->; done).
  - by apply IH.
  - apply below_full in Hu as (t & Ht & Hu). rewrite Forall_forall in IH. by apply (IH t).
Qed.

Lemma below_big t u : wfN t -> u ∈ below t -> big u = true.
Proof.
  intros W Hu. destruct t as [|v|k t|ts]; [inversion W|inversion W|..].
  - apply (refs_big t); [by apply (short_part k)|done].
  - apply below_full in Hu as (t & Ht & Hu). apply (refs_big t); [|done]. pose proof (full_parts _ W) as H. rewrite Forall_forall in H. by apply H.
Qed.

Lemma copy_hash (h w : bytes) : length h = HashLength -> length w = HashLength -> take HashLength h ++ drop (length h) w = h.
Proof. intros Hh Hw. rewrite <- Hh at 1. rewrite firstn_all, Hh, <- Hw, drop_all, app_nil_r. done. Qed.

(** One round of the loop, on the encoding of a tree. *)
Lemma verify_round X fuel i t key kv : node_tree X t -> slot t key -> BSKeyValueSet_Get kv (hash_tree t) = Some (tenc t) ->
  (exists c, verify_loop (S fuel) i (hash_tree t) key kv = Some (Ret (Ok (tget t key, c))))
  \/ exists u rest, verify_loop (S fuel) i (hash_tree t) key kv = verify_loop fuel (i + 1) (hash_tree u) rest kv
       /\ u ∈ below t /\ slot u rest /\ tget u rest = tget t key /\ forall w, w ∈ walk u rest -> w ∈ walk t key.
Proof.
  intros Ht Hs Hg. pose proof (node_tree_X X t Ht) as (W & Hz & _ & _). cbn [verify_loop]. rewrite Hg, decodeNode_ok by done.
  destruct (node_get_ok {| fl_hash := Some (hash_tree t); fl_dirty := false |} t key W Hs) as (rest & c & -> & [[-> E]|[[-> E]|(u & -> & H)]]).
  - left. exists i. by rewrite E.
  - left. by exists (i + 1).
  - right. exists u, rest. split; [|done]. by rewrite copy_hash by apply keccak_length.
Qed.

Lemma verify_served X t : node_tree X t -> forall fuel i key kv, slot t key -> (height t < fuel)%nat ->
  (forall w, w ∈ walk t key -> w = t \/ big w = true -> BSKeyValueSet_Get kv (hash_tree w) = Some (tenc w)) ->
  exists c, verify_loop fuel i (hash_tree t) key kv = Some (Ret (Ok (tget t key, c))).
Proof.
  remember (height t) as n eqn:En. revert t En. induction (lt_wf n) as [n _ IH]. intros t -> Ht fuel i key kv Hs Hf Hkv.
  destruct fuel as [|fuel]; [lia|]. pose proof Ht as [_ Hsol].
  assert (t ∈ walk t key) as Hin by (destruct t; try done; by left).
  destruct (verify_round X fuel i t key kv) as [H|(u & rest & E & Hu & Hsu & Hg & Hw)]; [done|done|by apply Hkv; [|left]|done|].
  rewrite E, <- Hg. destruct (below_good X t Ht u Hu) as [Hnu Hlt].
  apply (IH (height u)); [done|done|done|done|lia|]. intros w Hwu [->|Hb]; apply Hkv; auto. right.
  eapply below_big; [by apply (node_tree_X X t)|done].
Qed.

(** The entries are stored under their hashes. *)
Definition addressed (X : bytes -> Prop) (kv : BSKeyValueSet) : Prop := forall h e, BSKeyValueSet_Get kv h = Some e -> keccak e = h /\ X e.

Lemma verify_addressed X t : collision_free X -> node_tree X t -> forall fuel i key kv, addressed X kv -> slot t key -> (height t < fuel)%nat ->
  verify_loop fuel i (hash_tree t) key kv = Some (Ret (Err "proof node missing"%string))
  \/ exists c, verify_loop fuel i (hash_tree t) key kv = Some (Ret (Ok (tget t key, c))).
Proof.
  intros CF. remember (height t) as n eqn:En. revert t En. induction (lt_wf n) as [n _ IH]. intros t -> Ht fuel i key kv Hkv Hs Hf.
  destruct fuel as [|fuel]; [lia|]. destruct (BSKeyValueSet_Get kv (hash_tree t)) as [e|] eqn:Eg.
  2: { left. cbn [verify_loop]. by rewrite Eg. }
  destruct (Hkv _ _ Eg) as [Ek Xe]. apply (cf_inj X CF) in Ek; [|done|by apply node_tree_X]. subst e.
  destruct (verify_round X fuel i t key kv) as [H|(u & rest & E & Hu & Hsu & Hg & Hw)]; [done..|by right|].
  rewrite E, <- Hg. destruct (below_good X t Ht u Hu) as [Hnu Hlt]. apply (IH (height u)); [done|done|done|done|done|lia].
Qed.

(** ** Making proofs *)
Definition stands (D : Resolver) (n : node) (t : tree) : Prop := solid n = true /\ exists b, repr D b n t.

Lemma prove_path_ok D b n t : repr D b n t -> forall key fuel, slot t key -> (need n key <= fuel)%nat ->
  exists ns, prove_path D fuel n key = Ret (Ok ns) /\ Forall2 (stands D) ns (walk t key).
Proof.
  revert b n t. apply (repr_induction D (fun _ n t => forall key fuel, slot t key -> (need n key <= fuel)%nat ->
      exists ns, prove_path D fuel n key = Ret (Ok ns) /\ Forall2 (stands D) ns (walk t key)));
    [intros b|intros b v|intros b k n t fl Hr IH Hf|intros b ns ts fl Hr IH Hf|intros b h n t Hd Hs Hr IH Hh];
    intros key fuel Hsl Hfu; (destruct fuel as [|fuel]; [unfold need in Hfu; lia|]); cbn [prove_path].
  - exists []. split; [by destruct key|constructor].
  - assert (key = []) as -> by (inversion Hsl as [|? ? _ [?|W]]; subst; [done|done|inversion W]). exists []. split; [done|constructor].
  - assert (stands D (shortNode k n fl) (TShort k t)) as Hst by (split; [done|]; exists b; by constructor).
    destruct key as [|x q]; [by apply slot_wf in Hsl as [_ ?%term_key_nil]|]. set (key := x :: q) in *. clearbody key.
    rewrite prefix_test. case_bool_decide as E; cbn [negb].
    + assert (key = k ++ drop (length k) key) as Ek by (rewrite E at 1; rewrite take_drop; done).
      assert (length k <= length key)%nat as Hl by (rewrite Ek, length_app; lia).
      rewrite Ek in Hsl. pose proof (slot_short _ _ _ Hsl) as [Hsl' Hk].
      destruct (IH (drop (length k) key) fuel Hsl') as (ms & E' & Hms); [pose proof (need_drop n k key Hk Hl); unfold need in Hfu; lia|].
      rewrite (TM_bind_Ok _ _ _ E'). eexists. split; [reflexivity|]. rewrite Ek, walk_short. by constructor.
    + exists [shortNode k n fl]. split; [done|]. cbn [walk]. rewrite bool_decide_false by done. by constructor.
  - assert (stands D (fullNode ns fl) (TFull ts)) as Hst by (split; [done|]; exists b; by constructor).
    apply slot_full in Hsl as (i & rest & t & -> & Hi & Ht & Hsl & _).
    destruct (Forall2_lookup_r _ _ _ _ _ IH Ht) as (n & Hn & IHn).
    destruct (IHn rest fuel Hsl) as (ms & E' & Hms); [unfold need in *; cbn [length] in Hfu; destruct n; lia|].
    rewrite (lift_get (i :: rest) 0 i) by done. rewrite (lift_get ns i n) by (done || lia). cbn [drop]. rewrite (TM_bind_Ok _ _ _ E').
    eexists. split; [reflexivity|]. rewrite (walk_full _ _ _ t) by done. by constructor.
  - destruct (IH key fuel Hsl) as (ms & E' & Hms); [rewrite need_solid by done; unfold need in Hfu; lia|].
    exists ms. split; [|done]. rewrite (TM_bind_Ok _ _ _ (resolveHash_ok _ _ _ Hd)), E'.
    destruct key; [|done]. destruct fuel; [unfold need in Hfu; cbn in Hfu; lia|]. cbn in E'. injection E' as <-. done.
Qed.

(** The entries that a walk leaves in a proof. *)
Fixpoint walk_entries (first : bool) (us : list tree) : list (bytes * bytes) :=
  match us with
  | [] => []
  | u :: us => (if big u || first then [(hash_tree u, tenc u)] else []) ++ walk_entries false us
  end.

Definition put_all (kv : BSKeyValueSet) (l : list (bytes * bytes)) : BSKeyValueSet := foldl (fun kv '(h, e) => BSKeyValueSet_Put kv h e) kv l.

Lemma prove_node D n u : stands D n u -> wfN u -> sized u -> exists col c hn,
  hashChildren hash_part n None = Ret (col, c, None) /\ hasher_store col None false = Ret (hn, None)
  /\ EncodeToBytes TIface (node_ival col) = Ret (Ok (tenc u)) /\ as_hash hn = if big u then Some (hash_tree u) else None.
Proof.
  intros [Hsol (b & Hr)] W Hs. set (X := fun _ : bytes => True).
  assert (Forall (hash_correct X D) match u with TShort _ u => [u] | TFull ts => ts | _ => [] end) as IH.
  { destruct u as [|v|k u|ts]; [done|done|..]; [constructor; [|done]; by apply hasher_ok, (short_part k)|].
    eapply Forall_impl; [exact (full_parts _ W)|]. intros t Ht. by apply hasher_ok. }
  destruct (collapses_ok X D u b n None W Hs (seen_all u) IH I Hr Hsol) as [(col & c & db' & E & (_ & _ & Hi) & Hcs & Hc & Hsim & _ & _) Hf].
  destruct db' as [db'|]; [done|]. exists col, c. rewrite store_solid, <- raw_simplify, Hsim, raw_ival_top, encode_ok by done.
  cbn [mbind outcome_bind]. rewrite andb_true_r. rewrite Hc. cbn [fst]. unfold big. destruct (_ <? 32)%nat eqn:El; cbn [negb].
  - exists col. split_and!; [done|done|by apply EncodeToBytes_ok|by destruct col].
  - eexists. split_and!; [done|reflexivity|by apply EncodeToBytes_ok|]. cbn [as_hash]. destruct Hf as [Hf _].
    destruct (fl_hash (flags n)) as [h|]; [|done]. by destruct (Hf h eq_refl) as [-> _].
Qed.

Lemma prove_nodes_ok D ns us : Forall2 (stands D) ns us -> Forall (fun u => wfN u /\ sized u) us -> forall i kv,
  prove_nodes i ns 0 kv = Ret (put_all kv (walk_entries (i =? 0)%nat us)).
Proof.
  induction 1 as [|n u ns us Hn _ IH]; intros Hus i kv; [done|]. inversion Hus as [|?? [W Hs] Hus']; subst.
  destruct (prove_node D n u Hn W Hs) as (col & c & hn & E1 & E2 & E3 & E4). unfold hash_part in E1.
  cbn [prove_nodes]. rewrite E1. cbn [mbind outcome_bind]. rewrite E2. cbn [mbind outcome_bind]. rewrite E3, E4. cbn [mbind outcome_bind walk_entries].
  destruct (big u); cbn [is_some orb]; [by rewrite IH|]. destruct (i =? 0)%nat; cbn [app]; by rewrite IH.
Qed.

(** ** The entries of a proof *)
Lemma kv_get_put l h e k : kv_get (kv_put l h e) k = if decide (h = k) then Some e else kv_get l k.
Proof.
  induction l as [|[h' e'] l IH]; cbn [kv_put kv_get]; [by destruct (decide (h = k)); case_bool_decide|].
  destruct (decide (h' = h)) as [->|Hne].
  - rewrite bool_decide_true by done. cbn [kv_get]. by destruct (decide (h = k)); case_bool_decide.
  - rewrite (bool_decide_false (h' = h)) by done. cbn [kv_get]. rewrite IH. case_bool_decide; [|done]. subst h'.
    by destruct (decide (h = k)).
Qed.

Lemma kv_get_elem l h e : kv_get l h = Some e -> (h, e) ∈ l.
Proof. induction l as [|[k v] l IH]; cbn [kv_get]; [done|]. case_bool_decide as E; [intros [= <-]; subst k; by left|]. right. by apply IH. Qed.

Lemma get_put_all l : forall kv h e, BSKeyValueSet_Get (put_all kv l) h = Some e -> (h, e) ∈ l \/ BSKeyValueSet_Get kv h = Some e.
Proof.
  induction l as [|[h' e'] l IH]; intros kv h e E; [by right|]. destruct (IH _ _ _ E) as [?|E']; [left; by right|].
  unfold BSKeyValueSet_Get in E'. cbn in E'. rewrite kv_get_put in E'. destruct (decide (h' = h)) as [->|]; [|by right].
  injection E' as ->. left. by left.
Qed.

Lemma put_all_get l : forall kv h, (exists e, (h, e) ∈ l) \/ is_Some (BSKeyValueSet_Get kv h) -> is_Some (BSKeyValueSet_Get (put_all kv l) h).
Proof.
  induction l as [|[h' e'] l IH]; intros kv h H; [by destruct H as [(e & ?%not_elem_of_nil)|?]|]. apply IH. unfold BSKeyValueSet_Get. cbn.
  rewrite kv_get_put. destruct (decide (h' = h)) as [->|Hne]; [right; eauto|].
  destruct H as [(e & [[= -> ->]|He]%elem_of_cons)|?]; [done|left; eauto|by right].
Qed.

Lemma elem_walk_entries us : forall first h e, (h, e) ∈ walk_entries first us -> exists u, u ∈ us /\ h = hash_tree u /\ e = tenc u.
Proof.
  induction us as [|u us IH]; intros first h e; cbn [walk_entries]; [by intros ?%not_elem_of_nil|].
  intros [He|He]%elem_of_app; [|destruct (IH _ _ _ He) as (w & ? & ?); exists w; split; [by right|done]].
  destruct (_ || _); [|by apply not_elem_of_nil in He]. apply list_elem_of_singleton in He as [= -> ->]. exists u. split; [by left|done].
Qed.

Lemma walk_entries_in us : forall first u, u ∈ us -> big u = true \/ (first = true /\ head us = Some u) -> (hash_tree u, tenc u) ∈ walk_entries first us.
Proof.
  induction us as [|w us IH]; intros first u Hu Hb; [by apply not_elem_of_nil in Hu|]. cbn [walk_entries]. apply elem_of_app.
  assert (big w || first = true -> w = u -> (hash_tree u, tenc u) ∈ (if big w || first then [(hash_tree w, tenc w)] else [])) as Hhere.
  { intros -> ->. by left. }
  apply elem_of_cons in Hu as [->|Hu]; destruct Hb as [Hb|[-> Hh]].
  - left. apply Hhere; [by rewrite Hb|done].
  - left. apply Hhere; [by rewrite orb_true_r|done].
  - right. apply IH; [done|by left].
  - left. injection Hh as ->. apply Hhere; [by rewrite orb_true_r|done].
Qed.

Lemma walk_good X t key : good X t -> forall u, u ∈ walk t key -> node_tree X u.
Proof.
  revert key. induction t as [|v|k t IH|ts IH] using tree_induction; intros key G u Hu; [by apply not_elem_of_nil in Hu..| |].
  - cbn [walk] in Hu. apply elem_of_cons in Hu as [->|Hu]; [done|]. case_bool_decide; [|by apply not_elem_of_nil in Hu].
    eapply IH; [by eapply good_short|done].
  - destruct key as [|i rest]; [apply list_elem_of_singleton in Hu as ->; done|]. destruct (ts !! Z.to_nat i) as [t|] eqn:Et.
    + rewrite (walk_full _ _ _ t) in Hu by done. apply elem_of_cons in Hu as [->|Hu]; [done|]. apply good_full in G.
      rewrite Forall_lookup in *. by eapply IH; [|apply (G _ _ Et)|].
    + cbn [walk] in Hu. apply elem_of_cons in Hu as [->|Hu]; [done|]. exfalso. revert Et Hu. generalize (Z.to_nat i). clear.
      induction ts as [|t ts IH]; intros [|n] E Hu; try done; try (by apply not_elem_of_nil in Hu). by apply (IH n).
Qed.

(** The proof that Prove makes for a walk. *)
Lemma served X t key : collision_free X -> node_tree X t -> forall w, w ∈ walk t key -> w = t \/ big w = true ->
  BSKeyValueSet_Get (put_all MakeBSKeyValueSet (walk_entries true (walk t key))) (hash_tree w) = Some (tenc w).
Proof.
  intros CF [Gt Hsol] w Hw Hb. assert ((hash_tree w, tenc w) ∈ walk_entries true (walk t key)) as Hin.
  { apply walk_entries_in; [done|]. destruct Hb as [->|]; [right; split; [done|]; by destruct t|by left]. }
  destruct (put_all_get (walk_entries true (walk t key)) MakeBSKeyValueSet (hash_tree w)) as [e Ee]; [left; eauto|]. rewrite Ee. f_equal.
  apply get_put_all in Ee as [Ee|Ee]; [|done]. apply elem_walk_entries in Ee as (u & Hu & Eh & ->).
  symmetry. apply (cf_inj X CF); [by eapply node_tree_X, walk_good..|done].
Qed.

Lemma tree_of_empty m : map_ok m -> tree_of m = TNil -> m = ∅.
Proof. intros Hm E. apply tree_of_inj; [done|by intros k v ?%lookup_empty_Some|done]. Qed.

Lemma map_tree X m : map_ok m -> seen X (tree_of m) -> m <> ∅ -> node_tree X (tree_of m) /\ root_of m = hash_tree (tree_of m).
Proof.
  intros Hm Hse Hne. pose proof (tree_of_holds m Hm) as Hh. destruct (proj1 Hh) as [E|W]; [by apply tree_of_empty in E|].
  destruct (root_solid _ W) as [E Hsol]. split; [|done]. split; [|done]. split_and!; [by apply part_wf|by eapply holds_sized|done].
Qed.

(** Entries are byte strings. *)
Definition kv_bytes (kv : BSKeyValueSet) : Prop := Forall (fun '(h, e) => is_bytes h /\ is_bytes e) (KVArray kv).

Lemma put_bytes kv h e : kv_bytes kv -> is_bytes h -> is_bytes e -> kv_bytes (BSKeyValueSet_Put kv h e).
Proof.
  unfold kv_bytes. cbn [BSKeyValueSet_Put KVArray]. intros H Hh He. induction H as [|[k v] l Hkv Hl IH]; cbn [kv_put]; [by repeat constructor|].
  case_bool_decide; constructor; try done. by destruct Hkv.
Qed.

Lemma put_all_bytes l : forall kv, kv_bytes kv -> Forall (fun '(h, e) => is_bytes h /\ is_bytes e) l -> kv_bytes (put_all kv l).
Proof. induction l as [|[h e] l IH]; intros kv Hk Hl; [done|]. apply Forall_cons in Hl as [[Hh He] Hl']. apply IH; [by apply put_bytes|done]. Qed.

(** A proof of the trie with contents [m], whatever resolves its nodes. *)
Lemma Prove_repr X D n m k : collision_free X -> map_ok m -> seen X (tree_of m) -> repr D true n (tree_of m) -> is_bytes k -> m <> ∅ ->
  exists kv, Trie_Prove D n k 0 MakeBSKeyValueSet = Ret (Ok kv) /\ kv_bytes kv
    /\ forall fuel, (height (tree_of m) < fuel)%nat -> exists c, VerifyProof fuel (root_of m) k kv = Some (Ret (Ok (default [] (m !! k), c))).
Proof.
  intros CF Hm Hse Hr Hk Hne. destruct (map_tree X m Hm Hse Hne) as [Ht ->]. pose proof (tree_of_holds m Hm) as Hh.
  pose proof (hex_slot _ _ _ Hh Hk) as Hsl.
  destruct (prove_path_ok _ _ _ _ Hr (keybytesToHex k) _ Hsl (need_fuel _ _)) as (ns & E & Hns).
  assert (forall u, u ∈ walk (tree_of m) (keybytesToHex k) -> wfN u /\ sized u) as Hwalk.
  { intros u Hu. destruct (node_tree_X X u) as (? & ? & _); [|done]. by eapply walk_good; [apply Ht|]. }
  exists (put_all MakeBSKeyValueSet (walk_entries true (walk (tree_of m) (keybytesToHex k)))). split_and!.
  - unfold Trie_Prove. rewrite (TM_bind_Ok _ _ _ E), (prove_nodes_ok _ ns _ Hns); [done|]. by apply Forall_forall.
  - apply put_all_bytes; [apply Forall_nil_2|]. apply Forall_forall. intros [h e] (u & Hu & -> & ->)%elem_walk_entries.
    destruct (Hwalk u Hu). split; [apply keccak_bytes|by apply tenc_bytes].
  - intros fuel Hf. rewrite <- (holds_get _ m k Hm Hh Hk). apply (verify_served X); [done..|]. by eapply served.
Qed.

Lemma Prove_ok X s m k : collision_free X -> sim X s m -> is_bytes k -> m <> ∅ ->
  exists kv, Trie_Prove (db_node (ts_db s)) (ts_root s) k 0 MakeBSKeyValueSet = Ret (Ok kv)
    /\ forall fuel, (height (tree_of m) < fuel)%nat -> exists c, VerifyProof fuel (root_of m) k kv = Some (Ret (Ok (default [] (m !! k), c))).
Proof. intros CF [Hm Hse _ Hr] Hk Hne. destruct (Prove_repr X _ _ m k CF Hm Hse Hr Hk Hne) as (kv & E & _ & Hv). by exists kv. Qed.

(** C25: proofs are complete.  For every key of a trie that is not empty, after
    any history, Prove makes a proof without error, and VerifyProof, given the
    root hash of the trie and this proof, ends and returns the value that the
    trie holds, or nothing when it holds none. *)
Theorem proofs_verify os o s h n k : Forall op_ok os -> collision_free (in_play (maps os ∅)) -> exec_ops os new_trie = Ret (Ok (o, s)) ->
  Trie_Hash (ts_root s) = Ret (h, n) -> is_bytes k -> final os ∅ <> ∅ ->
  exists kv, Trie_Prove (db_node (ts_db s)) (ts_root s) k 0 MakeBSKeyValueSet = Ret (Ok kv)
    /\ forall fuel, (height (tree_of (final os ∅)) < fuel)%nat -> exists c, VerifyProof fuel h k kv = Some (Ret (Ok (default [] (final os ∅ !! k), c))).
Proof.
  intros Ho CF E Eh Hk Hne. destruct (exec_ops_ok _ os CF new_trie ∅ Ho (play_seen _)) as (s' & E' & S); [apply new_sim|].
  rewrite E in E'. injection E' as -> <-. destruct (sim_hash _ _ _ S) as (n' & Eh'). rewrite Eh in Eh'. injection Eh' as -> _.
  by eapply Prove_ok.
Qed.

(** C24: proofs are sound when they are stored by hash.  If every entry of a proof
    is stored under its own hash, VerifyProof ends, and whatever it returns for
    the root hash of a trie is what the trie holds: it never returns anything
    else than the value of the key or an error, as long as no two encodings of
    the trie or in the proof have the same Keccak hash. *)
Theorem addressed_proofs_sound os o s h n k kv fuel : Forall op_ok os -> exec_ops os new_trie = Ret (Ok (o, s)) ->
  Trie_Hash (ts_root s) = Ret (h, n) -> is_bytes k ->
  collision_free (fun e => in_play (maps os ∅) e \/ e ∈ (KVArray kv).*2) -> (forall h e, (h, e) ∈ KVArray kv -> keccak e = h) ->
  (height (tree_of (final os ∅)) < fuel)%nat ->
  VerifyProof fuel h k kv = Some (Ret (Err "proof node missing"%string))
  \/ exists c, VerifyProof fuel h k kv = Some (Ret (Ok (default [] (final os ∅ !! k), c))).
Proof.
  intros Ho E Eh Hk CF Had Hf. set (X := fun e => in_play (maps os ∅) e \/ e ∈ (KVArray kv).*2) in *.
  destruct (exec_ops_ok X os CF new_trie ∅ Ho) as (s' & E' & S); [|apply new_sim|].
  { intros m Hm. eapply seen_impl; [|by apply play_seen]. by left. }
  rewrite E in E'. injection E' as -> <-. destruct (sim_hash _ _ _ S) as (n' & Eh'). rewrite Eh in Eh'. injection Eh' as -> _.
  assert (addressed X kv) as Hkv.
  { intros h' e He. apply kv_get_elem in He. split; [by apply Had|]. right. apply list_elem_of_fmap. by exists (h', e). }
  pose proof S as [Hm _ _ _]. pose proof (tree_of_holds _ Hm) as Hh. destruct (decide (final os ∅ = ∅)) as [Em|Hne].
  - left. rewrite Em. unfold VerifyProof. destruct fuel; [lia|]. cbn [verify_loop]. destruct (BSKeyValueSet_Get kv _) as [e|] eqn:Eg; [|done].
    destruct (Hkv _ _ Eg) as [Ee Xe]. by apply (cf_empty X CF) in Ee.
  - destruct (map_tree X _ Hm (sim_seen _ _ _ S) Hne) as [Ht ->]. unfold VerifyProof. rewrite <- (holds_get _ _ k Hm Hh Hk).
    apply (verify_addressed X); try done. by eapply hex_slot.
Qed.

(** ** Proofs that were received *)
Lemma leaf_decodes h k v : is_bytes k -> Z.of_nat (length k) < 2 ^ 30 -> is_bytes v -> Z.of_nat (length v) < 2 ^ 32 -> v <> [] ->
  decodeNode (Some h) (tenc (TShort (keybytesToHex k) (TVal v))) = Ok (shortNode (keybytesToHex k) (valueNode v) {| fl_hash := Some h; fl_dirty := false |}).
Proof.
  intros Hk Hkl Hv Hvl Hne. apply decodeNode_ok.
  - rewrite keybytes_unpack. apply wf_leaf; [by apply unpack_nibbles|done].
  - split; [rewrite length_hex; lia|done].
Qed.

(** An extension without a key that refers to itself. *)
Definition loop_node (h : bytes) : bytes := rlist (rstr [0] ++ rstr h).

Lemma loop_decodes h : is_bytes h -> length h = HashLength ->
  decodeNode (Some h) (loop_node h) = Ok (shortNode [] (hashNode h) {| fl_hash := Some h; fl_dirty := false |}).
Proof.
  intros Hb Hl. set (vs := [IBytes [0]; IBytes h]).
  assert (loop_node h = rlist (concat (map renc_iface vs))) as E by (unfold loop_node; cbn [vs map concat renc_iface]; by rewrite app_nil_r).
  assert (Forall ival_rt vs) as Hvs by (repeat constructor; done || (unfold is_byte; lia)).
  assert (length (concat (map renc_iface vs)) <= 60)%nat as Hlen.
  { cbn [vs map concat renc_iface]. rewrite !length_app. pose proof (rstr_le h). rewrite Hl in *. change (length (rstr [0])) with 1%nat.
    unfold HashLength in *. cbn [length]. lia. }
  pose proof (rlist_le (concat (map renc_iface vs))) as Hle. pose proof (length_rlist (concat (map renc_iface vs))) as Hlt.
  unfold decodeNode. rewrite E. cbn [decodeNode_fuel]. destruct (rlist _) as [|x l] eqn:Er; [by apply rlist_nonnil in Er|]. rewrite <- Er in *. clear Er x l.
  unfold SplitList. rewrite <- (app_nil_r (rlist _)), Split_rlist by (rewrite length_app; cbn [length]; lia).
  rewrite result_bind_Ok, bool_decide_true by done. cbn [or_error]. rewrite result_bind_Ok. cbn [fst]. unfold CountValues.
  rewrite CountValues_items by (done || lia). change (0 + Z.of_nat (length vs) =? 2) with true. cbn iota.
  unfold decodeShort. cbn [vs map concat renc_iface]. rewrite SplitString_bytes; [|by repeat constructor|cbn [vs map concat renc_iface] in Hlen; lia].
  cbn [or_error]. rewrite result_bind_Ok. change (compactToHex [0]) with (@nil Z). change (hasTerm []) with false. cbn iota.
  destruct (Split_iface (IBytes h) [] Hb) as (kd & c & Es & -> & _ & Hkd).
  { rewrite length_app. cbn [renc_iface length]. pose proof (rstr_le h). rewrite Hl in *. unfold HashLength in *. lia. }
  unfold decodeRef. cbn [renc_iface] in Es. rewrite Es. cbn [or_error]. rewrite result_bind_Ok, Hkd by (rewrite Hl; done).
  rewrite (bool_decide_false (KString = KList)), (bool_decide_true (KString = KString)) by done. cbn [andb].
  rewrite (bool_decide_false (h = [])) by (by intros ->). rewrite Hl. done.
Qed.

Lemma one_entry h e : BSKeyValueSet_Get {| KVArray := [(h, e)] |} h = Some e.
Proof. unfold BSKeyValueSet_Get. cbn. by rewrite bool_decide_true. Qed.

(** C40: a proof that was received proves nothing.  VerifyProof does not check
    that the entries it looks up have the hashes under which they are stored: for
    every root hash, key and value there is a list of entries with which it
    returns this value for this key, and one with which it never returns. *)
Theorem received_proofs_prove_nothing h k v : is_bytes h -> length h = HashLength -> is_bytes k -> Z.of_nat (length k) < 2 ^ 30 ->
  is_bytes v -> Z.of_nat (length v) < 2 ^ 32 -> v <> [] ->
  (exists kv, forall fuel, VerifyProof (S fuel) h k kv = Some (Ret (Ok (v, 1)))) /\ (exists kv, forall fuel, VerifyProof fuel h k kv = None).
Proof.
  intros Hh Hl Hk Hkl Hv Hvl Hne. split.
  - exists {| KVArray := [(h, tenc (TShort (keybytesToHex k) (TVal v)))] |}. intros fuel. unfold VerifyProof. cbn [verify_loop].
    rewrite one_entry, leaf_decodes by done. cbn [node_get]. rewrite prefix_test, firstn_all, bool_decide_true by done. done.
  - exists {| KVArray := [(h, loop_node h)] |}. intros fuel. unfold VerifyProof. generalize 0 (keybytesToHex k).
    induction fuel as [|fuel IH]; intros i key; [done|]. cbn [verify_loop]. rewrite one_entry, loop_decodes by done. cbn [node_get].
    rewrite prefix_test, bool_decide_true by done. cbn [negb drop length]. rewrite copy_hash, drop_0 by done. apply IH.
Qed.

End Proofs.

(** ** Examples *)
Lemma collision_free_sub {K : KeccakLib} (X Y : bytes -> Prop) : (forall e, X e -> Y e) -> collision_free Y -> collision_free X.
Proof. intros H [H1 H2 H3]. constructor; eauto. Qed.

Lemma sample_state : exists s n, exec_ops sample_ops new_trie = Ret (Ok (map_ops sample_ops ∅, s))
  /\ Trie_Hash (ts_root s) = Ret (root_of (final sample_ops ∅), n).
Proof.
  destruct (exec_ops_ok _ sample_ops sample_free new_trie ∅ sample_ok (play_seen _)) as (s & E & S); [apply new_sim|].
  destruct (sim_hash _ _ _ S) as (n & H). exists s, n. split; [exact E|exact H].
Qed.

Lemma proofs_verify_witness : exists s kv c, exec_ops sample_ops new_trie = Ret (Ok (map_ops sample_ops ∅, s))
  /\ Trie_Prove (db_node (ts_db s)) (ts_root s) [18; 53] 0 MakeBSKeyValueSet = Ret (Ok kv)
  /\ VerifyProof 10 (root_of (final sample_ops ∅)) [18; 53] kv = Some (Ret (Ok ([2; 2; 2], c))).
Proof.
  destruct sample_state as (s & n & E & H).
  destruct (proofs_verify sample_ops _ s _ n [18; 53] sample_ok sample_free E H) as (kv & Ep & Hv);
    [by apply (bool_decide_unpack _); vm_compute|by intros F; apply (f_equal size) in F; vm_compute in F|].
  destruct (Hv 10%nat) as (c & Ev); [apply Nat.ltb_lt; by vm_compute|]. exists s, kv, c. split_and!; [exact E|exact Ep|]. rewrite Ev. by vm_compute.
Defined.

(** The root of the sample and another entry. *)
Definition kv_by_hash (es : list bytes) : BSKeyValueSet := {| KVArray := map (fun e => (keccak e, e)) es |}.

Lemma kv_by_hash_ok es h e : (h, e) ∈ KVArray (kv_by_hash es) -> keccak e = h.
Proof. intros (x & E & _)%list_elem_of_fmap. by injection E as -> ->. Qed.

Definition sample_kv : BSKeyValueSet := kv_by_hash [tenc (tree_of (final sample_ops ∅)); [1; 2; 3]].

Lemma sample_kv_free : collision_free (fun e => in_play (maps sample_ops ∅) e \/ e ∈ (KVArray sample_kv).*2).
Proof.
  apply (collision_free_sub _ (fun e => e ∈ concat (map (fun m => encodings (tree_of m)) (maps sample_ops ∅)) ++ (KVArray sample_kv).*2)).
  - intros e He. by apply elem_of_app.
  - apply cf_check_ok. by vm_compute.
Qed.

Lemma addressed_proofs_sound_witness :
  (VerifyProof 10 (root_of (final sample_ops ∅)) [18; 53] sample_kv = Some (Ret (Err "proof node missing"%string))
  \/ exists c, VerifyProof 10 (root_of (final sample_ops ∅)) [18; 53] sample_kv = Some (Ret (Ok (default [] (final sample_ops ∅ !! [18; 53]), c)))).
Proof.
  destruct sample_state as (s & n & E & H). apply (addressed_proofs_sound sample_ops _ s _ n [18; 53] sample_kv 10 sample_ok E H).
  - by apply (bool_decide_unpack _); vm_compute.
  - apply sample_kv_free.
  - apply kv_by_hash_ok.
  - apply Nat.ltb_lt. by vm_compute.
Defined.

Lemma received_proofs_prove_nothing_witness : exists kv1 kv2,
  VerifyProof 7 (word 1 32) [5] kv1 = Some (Ret (Ok ([6], 1))) /\ VerifyProof 100 (word 1 32) [5] kv2 = None.
Proof.
  destruct (received_proofs_prove_nothing (word 1 32) [5] [6]) as [(kv1 & H1) (kv2 & H2)];
    try done; try (by apply (bool_decide_unpack _); vm_compute).
  exists kv1, kv2. split; [exact (H1 6%nat)|exact (H2 100%nat)].
Defined.
