(* ===== verification/StateData.v ===== *)
(** * Accounts and state objects

    The data of chain/core/state: accounts as they are stored (state_object.go),
    the state objects that cache them with their storage, cross-chain
    transaction, delegation and reward tries, and what an object does by itself:
    reading through its caches, flushing them into its tries, encoding itself.

    The tries and the database below them are the interfaces Trie and Database
    of database.go.  They are the class [TrieLib]; Keccak256 is a parameter, too.
    A 32-byte hash or address is a list of bytes.  A big.Int is never changed in
    place by this package, so it is a number; a nil big.Int is [None] where the
    code can tell it from zero. *)
From S2P Require Import Prelude Rlp.
Local Open Scope Z_scope.

(** bytes.TrimLeft(b, "\x00") *)
Fixpoint TrimLeft (b : bytes) : bytes :=
  match b with
  | x :: b' => if x =? 0 then TrimLeft b' else b
  | [] => []
  end.

(** ** Tries and their database (database.go)

    Reading a trie fails when a node is missing from the database; an absent
    key gives an empty value.  [trie_leaves] are the keys and values a
    NodeIterator visits, the keys being those GetKey recovers. *)
Class TrieLib := {
  trie : Type;
  DB : Type;
  TryGet : trie -> bytes -> result string bytes;
  TryUpdate : trie -> bytes -> bytes -> result string trie;
  TryDelete : trie -> bytes -> result string trie;
  trie_Hash : trie -> bytes;
  trie_Commit : trie -> DB -> result string (trie * DB * bytes);
  trie_leaves : trie -> list (bytes * bytes);
  NewSecure : DB -> bytes -> result string trie;
  ContractCode : DB -> bytes -> result string bytes;
  InsertBlob : DB -> bytes -> bytes -> DB;
  Keccak256 : bytes -> bytes;
  EmptyRootHash : bytes }.

(** What the code relies on: hashes have their length; the zero root opens an
    empty trie; a trie is a map from keys to values; a committed trie can be
    opened again, and committing keeps what could be opened before. *)
Class TrieLaws (L : TrieLib) : Prop := {
  Keccak256_length : forall b, length (Keccak256 b) = HashLength;
  NewSecure_zero : forall db, exists t, NewSecure db zeroHash = Ok t /\ forall k, TryGet t k = Ok [];
  TryGet_update : forall t t' k v k', TryUpdate t k v = Ok t' ->
    TryGet t' k' = if bool_decide (k = k') then Ok v else TryGet t k';
  TryGet_delete : forall t t' k k', TryDelete t k = Ok t' ->
    TryGet t' k' = if bool_decide (k = k') then Ok [] else TryGet t k';
  Commit_opens : forall t db t' db' root, trie_Commit t db = Ok (t', db', root) ->
    exists t2, NewSecure db' root = Ok t2 /\ forall k, TryGet t2 k = TryGet t k;
  Commit_keeps : forall t db t' db' root r t0, trie_Commit t db = Ok (t', db', root) ->
    NewSecure db r = Ok t0 -> exists t1, NewSecure db' r = Ok t1 /\ forall k, TryGet t1 k = TryGet t0 k }.

(** The result of rlp.EncodeToBytes when the error is ignored. *)
Definition EncodeIgnore (t : rtype) (v : denote t) : outcome bytes :=
  r ← EncodeToBytes t v;
  Ret match r with Ok b => b | Err _ => [] end.

(** rlp.DecodeBytes into a new big.Int: it stays zero when its encoding is
    refused and keeps its value when other bytes follow. *)
Definition DecodeBig (enc : bytes) : Z * option string :=
  match dec (S (length enc)) TBig no_tags (Stream_Reset enc (Z.of_nat (length enc))) with
  | (s, Ok v) =>
    (v, if bool_decide (s_r s = []) then None else Some "rlp: more than one value"%string)
  | (_, Err _) => (0, Some "rlp"%string)
  end.

(** Setting one field of a record. *)
Ltac with_field eta x proj v :=
  let t := eval unfold eta in (eta x) in
  match t with context C [proj x] => let t' := context C [v] in exact t' end.

(** ** Accounts (state_object.go, state_object1.go) *)

Record sideChainDepositBalance := { sc_ChainId : bytes; sc_DepositBalance : Z }.

Record Account := {
  acc_Nonce : Z;
  acc_Balance : Z;
  acc_DepositBalance : Z;
  acc_SideChainDepositBalance : list sideChainDepositBalance;
  acc_ChainBalance : Z;
  acc_Root : bytes;
  acc_TX1Root : bytes;
  acc_TX3Root : bytes;
  acc_CodeHash : bytes;
  acc_DelegateBalance : Z;
  acc_ProxiedBalance : Z;
  acc_DepositProxiedBalance : Z;
  acc_PendingRefundBalance : Z;
  acc_ProxiedRoot : bytes;
  acc_Candidate : bool;
  acc_Commission : Z;
  acc_BlockTime : Z;
  acc_BannedTime : Z;
  acc_IsBanned : bool;
  acc_Pubkey : bytes;
  acc_RewardBalance : Z;
  acc_AvailableRewardBalance : Z;
  acc_RewardRoot : bytes }.

Definition eta_Account (x : Account) : Account :=
  {| acc_Nonce := acc_Nonce x; acc_Balance := acc_Balance x; acc_DepositBalance :=
     acc_DepositBalance x; acc_SideChainDepositBalance := acc_SideChainDepositBalance x;
     acc_ChainBalance := acc_ChainBalance x; acc_Root := acc_Root x; acc_TX1Root := acc_TX1Root x;
     acc_TX3Root := acc_TX3Root x; acc_CodeHash := acc_CodeHash x; acc_DelegateBalance :=
     acc_DelegateBalance x; acc_ProxiedBalance := acc_ProxiedBalance x; acc_DepositProxiedBalance
     := acc_DepositProxiedBalance x; acc_PendingRefundBalance := acc_PendingRefundBalance x;
     acc_ProxiedRoot := acc_ProxiedRoot x; acc_Candidate := acc_Candidate x; acc_Commission :=
     acc_Commission x; acc_BlockTime := acc_BlockTime x; acc_BannedTime := acc_BannedTime x;
     acc_IsBanned := acc_IsBanned x; acc_Pubkey := acc_Pubkey x; acc_RewardBalance :=
     acc_RewardBalance x; acc_AvailableRewardBalance := acc_AvailableRewardBalance x;
     acc_RewardRoot := acc_RewardRoot x |}.
Definition set_acc_Nonce (x : Account) (v : Z) : Account :=
  ltac:(with_field eta_Account x acc_Nonce v).
Definition set_acc_Balance (x : Account) (v : Z) : Account :=
  ltac:(with_field eta_Account x acc_Balance v).
Definition set_acc_DepositBalance (x : Account) (v : Z) : Account :=
  ltac:(with_field eta_Account x acc_DepositBalance v).
Definition set_acc_SideChainDepositBalance (x : Account) (v : list sideChainDepositBalance) : Account :=
  ltac:(with_field eta_Account x acc_SideChainDepositBalance v).
Definition set_acc_ChainBalance (x : Account) (v : Z) : Account :=
  ltac:(with_field eta_Account x acc_ChainBalance v).
Definition set_acc_Root (x : Account) (v : bytes) : Account :=
  ltac:(with_field eta_Account x acc_Root v).
Definition set_acc_TX1Root (x : Account) (v : bytes) : Account :=
  ltac:(with_field eta_Account x acc_TX1Root v).
Definition set_acc_TX3Root (x : Account) (v : bytes) : Account :=
  ltac:(with_field eta_Account x acc_TX3Root v).
Definition set_acc_CodeHash (x : Account) (v : bytes) : Account :=
  ltac:(with_field eta_Account x acc_CodeHash v).
Definition set_acc_DelegateBalance (x : Account) (v : Z) : Account :=
  ltac:(with_field eta_Account x acc_DelegateBalance v).
Definition set_acc_ProxiedBalance (x : Account) (v : Z) : Account :=
  ltac:(with_field eta_Account x acc_ProxiedBalance v).
Definition set_acc_DepositProxiedBalance (x : Account) (v : Z) : Account :=
  ltac:(with_field eta_Account x acc_DepositProxiedBalance v).
Definition set_acc_PendingRefundBalance (x : Account) (v : Z) : Account :=
  ltac:(with_field eta_Account x acc_PendingRefundBalance v).
Definition set_acc_ProxiedRoot (x : Account) (v : bytes) : Account :=
  ltac:(with_field eta_Account x acc_ProxiedRoot v).
Definition set_acc_Candidate (x : Account) (v : bool) : Account :=
  ltac:(with_field eta_Account x acc_Candidate v).
Definition set_acc_Commission (x : Account) (v : Z) : Account :=
  ltac:(with_field eta_Account x acc_Commission v).
Definition set_acc_BlockTime (x : Account) (v : Z) : Account :=
  ltac:(with_field eta_Account x acc_BlockTime v).
Definition set_acc_BannedTime (x : Account) (v : Z) : Account :=
  ltac:(with_field eta_Account x acc_BannedTime v).
Definition set_acc_IsBanned (x : Account) (v : bool) : Account :=
  ltac:(with_field eta_Account x acc_IsBanned v).
Definition set_acc_Pubkey (x : Account) (v : bytes) : Account :=
  ltac:(with_field eta_Account x acc_Pubkey v).
Definition set_acc_RewardBalance (x : Account) (v : Z) : Account :=
  ltac:(with_field eta_Account x acc_RewardBalance v).
Definition set_acc_AvailableRewardBalance (x : Account) (v : Z) : Account :=
  ltac:(with_field eta_Account x acc_AvailableRewardBalance v).
Definition set_acc_RewardRoot (x : Account) (v : bytes) : Account :=
  ltac:(with_field eta_Account x acc_RewardRoot v).

(** The RLP form of an account: the fields of the struct in order. *)
Fixpoint struct_of (ts : list rtype) : fields :=
  match ts with [] => FNil | t :: ts => FCons no_tags t (struct_of ts) end.

Definition THash : rtype := TByteArray HashLength.
Definition TSideChain : rtype := TStruct (struct_of [TString; TBigPtr]).
Definition TAccount : rtype := TStruct (struct_of
  [TUint 64; TBigPtr; TBigPtr; TSlice (TPtr TSideChain); TBigPtr; THash; THash; THash; TBytes;
   TBigPtr; TBigPtr; TBigPtr; TBigPtr; THash; TBool; TUint 8; TBigPtr; TBigPtr; TBool; TString;
   TBigPtr; TBigPtr; THash]).

Definition side_raw (b : sideChainDepositBalance) : denote (TPtr TSideChain) :=
  Some (sc_ChainId b, (Some (sc_DepositBalance b), tt)).

(** A nil pointer in the list cannot be used; decoding never produces one. *)
Definition side_of (r : denote (TPtr TSideChain)) : sideChainDepositBalance :=
  match r with
  | Some (c, (v, _)) => {| sc_ChainId := c; sc_DepositBalance := default 0 v |}
  | None => {| sc_ChainId := []; sc_DepositBalance := 0 |}
  end.

Definition Account_raw (a : Account) : denote TAccount :=
  (acc_Nonce a, (Some (acc_Balance a), (Some (acc_DepositBalance a),
  (side_raw <$> acc_SideChainDepositBalance a, (Some (acc_ChainBalance a),
  (acc_Root a, (acc_TX1Root a, (acc_TX3Root a, (acc_CodeHash a,
  (Some (acc_DelegateBalance a), (Some (acc_ProxiedBalance a),
  (Some (acc_DepositProxiedBalance a), (Some (acc_PendingRefundBalance a), (acc_ProxiedRoot a,
  (acc_Candidate a, (acc_Commission a, (Some (acc_BlockTime a), (Some (acc_BannedTime a),
  (acc_IsBanned a, (acc_Pubkey a, (Some (acc_RewardBalance a), (Some (acc_AvailableRewardBalance a),
  (acc_RewardRoot a, tt))))))))))))))))))))))).

(** The account in a new object (newObject): nil numbers become zero. *)
Definition Account_of (r : denote TAccount) : Account :=
  let '(nonce, (bal, (dep, (side, (chain, (root, (tx1, (tx3, (code, (dele, (prox, (deprox, (pend,
        (proot, (cand, (comm, (bt, (bant, (ban, (pk, (rew, (avail, (rroot, _))))))))))))))))))))))) := r in
  {| acc_Nonce := nonce; acc_Balance := default 0 bal; acc_DepositBalance := default 0 dep;
     acc_SideChainDepositBalance := side_of <$> side; acc_ChainBalance := default 0 chain;
     acc_Root := root; acc_TX1Root := tx1; acc_TX3Root := tx3; acc_CodeHash := code;
     acc_DelegateBalance := default 0 dele; acc_ProxiedBalance := default 0 prox;
     acc_DepositProxiedBalance := default 0 deprox; acc_PendingRefundBalance := default 0 pend;
     acc_ProxiedRoot := proot; acc_Candidate := cand; acc_Commission := comm;
     acc_BlockTime := default 0 bt; acc_BannedTime := default 0 bant; acc_IsBanned := ban;
     acc_Pubkey := pk; acc_RewardBalance := default 0 rew;
     acc_AvailableRewardBalance := default 0 avail; acc_RewardRoot := rroot |}.

(** ** Delegated balances (state_object_delegate.go, state_object_reward.go)

    The maps hold pointers, which may be nil. *)
Record accountProxiedBalance := {
  apb_ProxiedBalance : Z;
  apb_DepositProxiedBalance : Z;
  apb_PendingRefundBalance : Z }.

#[export] Instance accountProxiedBalance_eq_dec : EqDecision accountProxiedBalance.
Proof. solve_decision. Defined.

Definition NewAccountProxiedBalance : accountProxiedBalance :=
  {| apb_ProxiedBalance := 0; apb_DepositProxiedBalance := 0; apb_PendingRefundBalance := 0 |}.

Abbreviation Proxied := (gmap bytes (option accountProxiedBalance)).
Abbreviation Reward := (gmap bytes (option Z)).

Definition TProxied : rtype := TStruct (struct_of [TBigPtr; TBigPtr; TBigPtr]).
Definition apb_raw (a : accountProxiedBalance) : denote TProxied :=
  (Some (apb_ProxiedBalance a), (Some (apb_DepositProxiedBalance a), (Some (apb_PendingRefundBalance a), tt))).
Definition apb_of (r : denote TProxied) : accountProxiedBalance :=
  let '(p, (d, (q, _))) := r in
  {| apb_ProxiedBalance := default 0 p; apb_DepositProxiedBalance := default 0 d;
     apb_PendingRefundBalance := default 0 q |}.

(** [a.Equal(b)]: the receiver is read only when [b] is not nil. *)
Definition apb_Equal (a b : option accountProxiedBalance) : outcome bool :=
  match b with
  | None => Ret false
  | Some b =>
    match a with
    | None => Panic "nil pointer dereference"
    | Some a => Ret (bool_decide (a = b))
    end
  end.

Definition apb_IsEmpty (a : option accountProxiedBalance) : outcome bool :=
  match a with
  | None => Panic "nil pointer dereference"
  | Some a => Ret ((apb_ProxiedBalance a =? 0) && (apb_DepositProxiedBalance a =? 0)
                   && (apb_PendingRefundBalance a =? 0))
  end.

(** The copies of both maps dereference every value. *)
Definition no_nil {A} (m : gmap bytes (option A)) : bool :=
  forallb (fun kv => is_some (snd kv)) (map_to_list m).
Definition Proxied_Copy (p : Proxied) : outcome Proxied :=
  if no_nil p then Ret p else Panic "nil pointer dereference".
Definition Reward_Copy (p : Reward) : outcome Reward :=
  if no_nil p then Ret p else Panic "nil pointer dereference".

Section Objects.
Context `{L : TrieLib}.

Definition emptyCodeHash : bytes := Keccak256 [].

(** ** State objects (state_object.go)

    [so_onDirty] tells whether the callback that marks the object dirty is
    still there. *)
Record stateObject := {
  so_address : bytes;
  so_addrHash : bytes;
  so_data : Account;
  so_dbErr : option string;
  so_trie : option trie;
  so_code : option bytes;
  so_originStorage : gmap bytes bytes;
  so_dirtyStorage : gmap bytes bytes;
  so_tx1Trie : option trie;
  so_tx3Trie : option trie;
  so_dirtyTX1 : gset bytes;
  so_dirtyTX3 : gset bytes;
  so_proxiedTrie : option trie;
  so_originProxied : Proxied;
  so_dirtyProxied : Proxied;
  so_rewardTrie : option trie;
  so_originReward : Reward;
  so_dirtyReward : Reward;
  so_dirtyCode : bool;
  so_suicided : bool;
  so_touched : bool;
  so_deleted : bool;
  so_onDirty : bool }.

Definition eta_stateObject (x : stateObject) : stateObject :=
  {| so_address := so_address x; so_addrHash := so_addrHash x; so_data := so_data x; so_dbErr :=
     so_dbErr x; so_trie := so_trie x; so_code := so_code x; so_originStorage := so_originStorage
     x; so_dirtyStorage := so_dirtyStorage x; so_tx1Trie := so_tx1Trie x; so_tx3Trie := so_tx3Trie
     x; so_dirtyTX1 := so_dirtyTX1 x; so_dirtyTX3 := so_dirtyTX3 x; so_proxiedTrie :=
     so_proxiedTrie x; so_originProxied := so_originProxied x; so_dirtyProxied := so_dirtyProxied
     x; so_rewardTrie := so_rewardTrie x; so_originReward := so_originReward x; so_dirtyReward :=
     so_dirtyReward x; so_dirtyCode := so_dirtyCode x; so_suicided := so_suicided x; so_touched :=
     so_touched x; so_deleted := so_deleted x; so_onDirty := so_onDirty x |}.
Definition set_so_data (x : stateObject) (v : Account) : stateObject :=
  ltac:(with_field eta_stateObject x so_data v).
Definition set_so_dbErr (x : stateObject) (v : option string) : stateObject :=
  ltac:(with_field eta_stateObject x so_dbErr v).
Definition set_so_trie (x : stateObject) (v : option trie) : stateObject :=
  ltac:(with_field eta_stateObject x so_trie v).
Definition set_so_code (x : stateObject) (v : option bytes) : stateObject :=
  ltac:(with_field eta_stateObject x so_code v).
Definition set_so_originStorage (x : stateObject) (v : gmap bytes bytes) : stateObject :=
  ltac:(with_field eta_stateObject x so_originStorage v).
Definition set_so_dirtyStorage (x : stateObject) (v : gmap bytes bytes) : stateObject :=
  ltac:(with_field eta_stateObject x so_dirtyStorage v).
Definition set_so_tx1Trie (x : stateObject) (v : option trie) : stateObject :=
  ltac:(with_field eta_stateObject x so_tx1Trie v).
Definition set_so_tx3Trie (x : stateObject) (v : option trie) : stateObject :=
  ltac:(with_field eta_stateObject x so_tx3Trie v).
Definition set_so_dirtyTX1 (x : stateObject) (v : gset bytes) : stateObject :=
  ltac:(with_field eta_stateObject x so_dirtyTX1 v).
Definition set_so_dirtyTX3 (x : stateObject) (v : gset bytes) : stateObject :=
  ltac:(with_field eta_stateObject x so_dirtyTX3 v).
Definition set_so_proxiedTrie (x : stateObject) (v : option trie) : stateObject :=
  ltac:(with_field eta_stateObject x so_proxiedTrie v).
Definition set_so_originProxied (x : stateObject) (v : Proxied) : stateObject :=
  ltac:(with_field eta_stateObject x so_originProxied v).
Definition set_so_dirtyProxied (x : stateObject) (v : Proxied) : stateObject :=
  ltac:(with_field eta_stateObject x so_dirtyProxied v).
Definition set_so_rewardTrie (x : stateObject) (v : option trie) : stateObject :=
  ltac:(with_field eta_stateObject x so_rewardTrie v).
Definition set_so_originReward (x : stateObject) (v : Reward) : stateObject :=
  ltac:(with_field eta_stateObject x so_originReward v).
Definition set_so_dirtyReward (x : stateObject) (v : Reward) : stateObject :=
  ltac:(with_field eta_stateObject x so_dirtyReward v).
Definition set_so_dirtyCode (x : stateObject) (v : bool) : stateObject :=
  ltac:(with_field eta_stateObject x so_dirtyCode v).
Definition set_so_suicided (x : stateObject) (v : bool) : stateObject :=
  ltac:(with_field eta_stateObject x so_suicided v).
Definition set_so_touched (x : stateObject) (v : bool) : stateObject :=
  ltac:(with_field eta_stateObject x so_touched v).
Definition set_so_deleted (x : stateObject) (v : bool) : stateObject :=
  ltac:(with_field eta_stateObject x so_deleted v).
Definition set_so_onDirty (x : stateObject) (v : bool) : stateObject :=
  ltac:(with_field eta_stateObject x so_onDirty v).

(** newObject; an account without a code hash gets the one of empty code. *)
Definition newObject (address : bytes) (data : Account) (nilCodeHash onDirty : bool) : stateObject :=
  {| so_address := address; so_addrHash := Keccak256 address;
     so_data := if nilCodeHash then set_acc_CodeHash data emptyCodeHash else data;
     so_dbErr := None; so_trie := None; so_code := None;
     so_originStorage := ∅; so_dirtyStorage := ∅; so_tx1Trie := None; so_tx3Trie := None;
     so_dirtyTX1 := ∅; so_dirtyTX3 := ∅; so_proxiedTrie := None; so_originProxied := ∅;
     so_dirtyProxied := ∅; so_rewardTrie := None; so_originReward := ∅; so_dirtyReward := ∅;
     so_dirtyCode := false; so_suicided := false; so_touched := false; so_deleted := false;
     so_onDirty := onDirty |}.

(** Account{} *)
Definition Account_zero : Account :=
  {| acc_Nonce := 0; acc_Balance := 0; acc_DepositBalance := 0; acc_SideChainDepositBalance := [];
     acc_ChainBalance := 0; acc_Root := zeroHash; acc_TX1Root := zeroHash; acc_TX3Root := zeroHash;
     acc_CodeHash := []; acc_DelegateBalance := 0; acc_ProxiedBalance := 0;
     acc_DepositProxiedBalance := 0; acc_PendingRefundBalance := 0; acc_ProxiedRoot := zeroHash;
     acc_Candidate := false; acc_Commission := 0; acc_BlockTime := 0; acc_BannedTime := 0;
     acc_IsBanned := false; acc_Pubkey := []; acc_RewardBalance := 0; acc_AvailableRewardBalance := 0;
     acc_RewardRoot := zeroHash |}.

(** setError remembers the first error. *)
Definition so_setError (o : stateObject) (err : option string) : stateObject :=
  match so_dbErr o with
  | None => set_so_dbErr o err
  | Some _ => o
  end.

(** EIP-161 emptiness, extended to the deposits and delegations; the pending
    reward is not looked at. *)
Definition so_empty (o : stateObject) : bool :=
  let d := so_data o in
  (acc_Nonce d =? 0) && (acc_Balance d =? 0) && bool_decide (acc_CodeHash d = emptyCodeHash)
  && (acc_DepositBalance d =? 0) && bool_decide (acc_SideChainDepositBalance d = [] :> list _)
  && (acc_ChainBalance d =? 0) && (acc_DelegateBalance d =? 0) && (acc_ProxiedBalance d =? 0)
  && (acc_DepositProxiedBalance d =? 0) && (acc_PendingRefundBalance d =? 0)
  && (acc_AvailableRewardBalance d =? 0).

(** ** The tries of an object: opened on first use; a trie that cannot be opened
    is replaced by an empty one and the error is remembered. *)
Definition openTrie (msg : string) (db : DB) (cached : option trie) (root : bytes) :
    outcome (trie * option string) :=
  match cached with
  | Some t => Ret (t, None)
  | None =>
    match NewSecure db root with
    | Ok t => Ret (t, None)
    | Err e =>
      match NewSecure db zeroHash with
      | Ok t => Ret (t, Some (msg ++ e)%string)
      | Err _ => Panic "nil pointer dereference"
      end
    end
  end.

Definition getTrie (db : DB) (c : stateObject) : outcome (stateObject * trie) :=
  x ← openTrie "can't create storage trie: " db (so_trie c) (acc_Root (so_data c));
  Ret (so_setError (set_so_trie c (Some (fst x))) (snd x), fst x).

Definition getTX1Trie (db : DB) (c : stateObject) : outcome (stateObject * trie) :=
  x ← openTrie "can't create TX1 trie: " db (so_tx1Trie c) (acc_TX1Root (so_data c));
  Ret (so_setError (set_so_tx1Trie c (Some (fst x))) (snd x), fst x).

Definition getTX3Trie (db : DB) (c : stateObject) : outcome (stateObject * trie) :=
  x ← openTrie "can't create TX3 trie: " db (so_tx3Trie c) (acc_TX3Root (so_data c));
  Ret (so_setError (set_so_tx3Trie c (Some (fst x))) (snd x), fst x).

Definition getProxiedTrie (db : DB) (c : stateObject) : outcome (stateObject * trie) :=
  x ← openTrie "can't create proxied trie: " db (so_proxiedTrie c) (acc_ProxiedRoot (so_data c));
  Ret (so_setError (set_so_proxiedTrie c (Some (fst x))) (snd x), fst x).

Definition getRewardTrie (db : DB) (c : stateObject) : outcome (stateObject * trie) :=
  x ← openTrie "can't create reward trie: " db (so_rewardTrie c) (acc_RewardRoot (so_data c));
  Ret (so_setError (set_so_rewardTrie c (Some (fst x))) (snd x), fst x).

(** ** Storage *)
Definition GetCommittedState (db : DB) (o : stateObject) (key : bytes) : outcome (stateObject * bytes) :=
  match so_originStorage o !! key with
  | Some value => Ret (o, value)
  | None =>
    x ← getTrie db o;
    let '(o, t) := x in
    match TryGet t key with
    | Err e => Ret (so_setError o (Some e), zeroHash)
    | Ok enc =>
      let '(o, value) :=
        match enc with
        | [] => (o, zeroHash)
        | _ =>
          match Split enc with
          | Ok (_, content, _) => (o, BytesToHash content)
          | Err _ => (so_setError o (Some "rlp"%string), BytesToHash [])
          end
        end in
      Ret (set_so_originStorage o (<[key := value]> (so_originStorage o)), value)
    end
  end.

Definition so_GetState (db : DB) (o : stateObject) (key : bytes) : outcome (stateObject * bytes) :=
  match so_dirtyStorage o !! key with
  | Some value => Ret (o, value)
  | None => GetCommittedState db o key
  end.

(** ** Cross-chain transactions: HasTX1 and HasTX3 differ in the trie only *)
Definition tx_in_trie (t : trie) (txHash : bytes) : bool * option string :=
  match TryGet t txHash with
  | Err _ => (false, None)
  | Ok [] => (false, None)
  | Ok enc =>
    match Split enc with
    | Err _ => (false, Some "rlp"%string)
    | Ok (_, content, _) =>
      if bool_decide (content = txHash) then (true, None)
      else (false, Some "content mismatch the tx hash"%string)
    end
  end.

Definition so_HasTX1 (db : DB) (o : stateObject) (txHash : bytes) : outcome (stateObject * bool) :=
  if bool_decide (txHash ∈ so_dirtyTX1 o) then Ret (o, true)
  else
    x ← getTX1Trie db o;
    let '(o, t) := x in
    let '(r, err) := tx_in_trie t txHash in
    Ret (so_setError o err, r).

Definition so_HasTX3 (db : DB) (o : stateObject) (txHash : bytes) : outcome (stateObject * bool) :=
  if bool_decide (txHash ∈ so_dirtyTX3 o) then Ret (o, true)
  else
    x ← getTX3Trie db o;
    let '(o, t) := x in
    let '(r, err) := tx_in_trie t txHash in
    Ret (so_setError o err, r).

(** ** Delegated balances of a user.  Only [updateProxiedTrie] writes the trie;
    a stored value that is not its encoding would leave nil numbers in the
    struct, which the model does not represent: it stops there. *)
Definition GetAccountProxiedBalance (db : DB) (o : stateObject) (key : bytes) :
    outcome (stateObject * option accountProxiedBalance) :=
  match so_dirtyProxied o !! key with
  | Some value => Ret (o, value)
  | None =>
    match so_originProxied o !! key with
    | Some value => Ret (o, value)
    | None =>
      x ← getProxiedTrie db o;
      let '(o, t) := x in
      match TryGet t key with
      | Err e => Ret (so_setError o (Some e), None)
      | Ok enc =>
        value ← match enc with
                | [] => Ret None
                | _ => match DecodeBytes TProxied enc with
                       | Ok r => Ret (Some (apb_of r))
                       | Err _ => Panic "undecodable value"
                       end
                end;
        Ret (set_so_originProxied o (<[key := value]> (so_originProxied o)), value)
      end
    end
  end.

Definition GetDelegateRewardBalance (db : DB) (o : stateObject) (key : bytes) :
    outcome (stateObject * option Z) :=
  match so_dirtyReward o !! key with
  | Some value => Ret (o, value)
  | None =>
    match so_originReward o !! key with
    | Some value => Ret (o, value)
    | None =>
      k ← EncodeIgnore THash key;
      x ← getRewardTrie db o;
      let '(o, t) := x in
      match TryGet t k with
      | Err e => Ret (so_setError o (Some e), None)
      | Ok enc =>
        let '(o, value) :=
          match enc with
          | [] => (o, None)
          | _ => let '(v, err) := DecodeBig enc in (so_setError o err, Some v)
          end in
        Ret (set_so_originReward o (<[key := value]> (so_originReward o)), value)
      end
    end
  end.

(** ** Code *)
Definition so_Code (db : DB) (o : stateObject) : stateObject * option bytes :=
  match so_code o with
  | Some c => (o, Some c)
  | None =>
    if bool_decide (acc_CodeHash (so_data o) = emptyCodeHash) then (o, None)
    else
      match ContractCode db (BytesToHash (acc_CodeHash (so_data o))) with
      | Ok c => (set_so_code o (Some c), Some c)
      | Err e => (set_so_code (so_setError o (Some "can't load code"%string)) None, None)
      end
  end.

(** ** Side-chain deposits (state_object1.go) *)
Definition so_SideChainDepositBalance (o : stateObject) (chainId : bytes) : Z :=
  match list_find (fun b => sc_ChainId b = chainId) (acc_SideChainDepositBalance (so_data o)) with
  | Some (_, b) => sc_DepositBalance b
  | None => 0
  end.

(** The index of a chain's entry, which is appended when it is not there. *)
Definition side_index (l : list sideChainDepositBalance) (chainId : bytes) :
    list sideChainDepositBalance * nat :=
  match list_find (fun b => sc_ChainId b = chainId) l with
  | Some (i, _) => (l, i)
  | None => (l ++ [{| sc_ChainId := chainId; sc_DepositBalance := 0 |}], length l)
  end.

(** ** Flushing the caches into the tries *)

(** One step of a flush: the object's error is the first one. *)
Definition flush_result (o : stateObject) (t : trie) (r : result string trie) : stateObject * trie :=
  match r with
  | Ok t' => (o, t')
  | Err e => (so_setError o (Some e), t)
  end.

Definition updateTrie_step (x : stateObject * trie) (kv : bytes * bytes) : outcome (stateObject * trie) :=
  let '(o, t) := x in
  let '(key, value) := kv in
  let o := set_so_dirtyStorage o (delete key (so_dirtyStorage o)) in
  if bool_decide (value = default zeroHash (so_originStorage o !! key)) then Ret (o, t)
  else
    let o := set_so_originStorage o (<[key := value]> (so_originStorage o)) in
    if bool_decide (value = zeroHash) then Ret (flush_result o t (TryDelete t key))
    else
      v ← EncodeIgnore TBytes (TrimLeft value);
      Ret (flush_result o t (TryUpdate t key v)).

(** A loop over a map, with a body that may panic. *)
Fixpoint foldM {A B} (f : B -> A -> outcome B) (l : list A) (b : B) : outcome B :=
  match l with
  | [] => Ret b
  | a :: l' => b ← f b a; foldM f l' b
  end.

Definition updateTrie (db : DB) (o : stateObject) : outcome (stateObject * trie) :=
  x ← getTrie db o;
  x ← foldM updateTrie_step (map_to_list (so_dirtyStorage (fst x))) x;
  Ret (set_so_trie (fst x) (Some (snd x)), snd x).

Definition updateTX1_step (x : stateObject * trie) (tx : bytes) : outcome (stateObject * trie) :=
  let '(o, t) := x in
  let o := set_so_dirtyTX1 o (so_dirtyTX1 o ∖ {[tx]}) in
  v ← EncodeIgnore TBytes (TrimLeft tx);
  Ret (flush_result o t (TryUpdate t tx v)).

Definition updateTX1Trie (db : DB) (o : stateObject) : outcome (stateObject * trie) :=
  x ← getTX1Trie db o;
  x ← foldM updateTX1_step (elements (so_dirtyTX1 (fst x))) x;
  Ret (set_so_tx1Trie (fst x) (Some (snd x)), snd x).

Definition updateTX3_step (x : stateObject * trie) (tx : bytes) : outcome (stateObject * trie) :=
  let '(o, t) := x in
  let o := set_so_dirtyTX3 o (so_dirtyTX3 o ∖ {[tx]}) in
  v ← EncodeIgnore TBytes (TrimLeft tx);
  Ret (flush_result o t (TryUpdate t tx v)).

Definition updateTX3Trie (db : DB) (o : stateObject) : outcome (stateObject * trie) :=
  x ← getTX3Trie db o;
  x ← foldM updateTX3_step (elements (so_dirtyTX3 (fst x))) x;
  Ret (set_so_tx3Trie (fst x) (Some (snd x)), snd x).

Definition updateProxied_step (x : stateObject * trie) (kv : bytes * option accountProxiedBalance) :
    outcome (stateObject * trie) :=
  let '(o, t) := x in
  let '(key, value) := kv in
  let o := set_so_dirtyProxied o (delete key (so_dirtyProxied o)) in
  eq ← apb_Equal value (mjoin (so_originProxied o !! key));
  if (eq : bool) then Ret (o, t)
  else
    let o := set_so_originProxied o (<[key := value]> (so_originProxied o)) in
    emp ← apb_IsEmpty value;
    if (emp : bool) then Ret (flush_result o t (TryDelete t key))
    else
      v ← match value with Some a => EncodeIgnore TProxied (apb_raw a) | None => Ret [] end;
      Ret (flush_result o t (TryUpdate t key v)).

Definition updateProxiedTrie (db : DB) (o : stateObject) : outcome (stateObject * trie) :=
  x ← getProxiedTrie db o;
  x ← foldM updateProxied_step (map_to_list (so_dirtyProxied (fst x))) x;
  Ret (set_so_proxiedTrie (fst x) (Some (snd x)), snd x).

(** [value.Cmp] and [value.Sign] dereference the number. *)
Definition updateReward_step (x : stateObject * trie) (kv : bytes * option Z) : outcome (stateObject * trie) :=
  let '(o, t) := x in
  let '(key, value) := kv in
  let o := set_so_dirtyReward o (delete key (so_dirtyReward o)) in
  same ← match mjoin (so_originReward o !! key) with
         | None => Ret false
         | Some orig =>
           match value with
           | None => Panic "nil pointer dereference"
           | Some v => Ret (v =? orig)
           end
         end;
  if (same : bool) then Ret (o, t)
  else
    let o := set_so_originReward o (<[key := value]> (so_originReward o)) in
    k ← EncodeIgnore THash key;
    match value with
    | None => Panic "nil pointer dereference"
    | Some v =>
      if v =? 0 then Ret (flush_result o t (TryDelete t k))
      else
        e ← EncodeIgnore TBigPtr (Some v);
        Ret (flush_result o t (TryUpdate t k e))
    end.

Definition updateRewardTrie (db : DB) (o : stateObject) : outcome (stateObject * trie) :=
  x ← getRewardTrie db o;
  x ← foldM updateReward_step (map_to_list (so_dirtyReward (fst x))) x;
  Ret (set_so_rewardTrie (fst x) (Some (snd x)), snd x).

Definition updateRoot (db : DB) (o : stateObject) : outcome stateObject :=
  x ← updateTrie db o;
  Ret (set_so_data (fst x) (set_acc_Root (so_data (fst x)) (trie_Hash (snd x)))).
Definition updateTX1Root (db : DB) (o : stateObject) : outcome stateObject :=
  x ← updateTX1Trie db o;
  Ret (set_so_data (fst x) (set_acc_TX1Root (so_data (fst x)) (trie_Hash (snd x)))).
Definition updateTX3Root (db : DB) (o : stateObject) : outcome stateObject :=
  x ← updateTX3Trie db o;
  Ret (set_so_data (fst x) (set_acc_TX3Root (so_data (fst x)) (trie_Hash (snd x)))).
Definition updateProxiedRoot (db : DB) (o : stateObject) : outcome stateObject :=
  x ← updateProxiedTrie db o;
  Ret (set_so_data (fst x) (set_acc_ProxiedRoot (so_data (fst x)) (trie_Hash (snd x)))).
Definition updateRewardRoot (db : DB) (o : stateObject) : outcome stateObject :=
  x ← updateRewardTrie db o;
  Ret (set_so_data (fst x) (set_acc_RewardRoot (so_data (fst x)) (trie_Hash (snd x)))).

(** The copy of an object, with a new callback; [touched] is not copied. *)
Definition deepCopy (o : stateObject) (onDirty : bool) : outcome stateObject :=
  dp ← Proxied_Copy (so_dirtyProxied o);
  op ← Proxied_Copy (so_originProxied o);
  dr ← Reward_Copy (so_dirtyReward o);
  or ← Reward_Copy (so_originReward o);
  Ret {| so_address := so_address o; so_addrHash := Keccak256 (so_address o); so_data := so_data o;
         so_dbErr := None; so_trie := so_trie o; so_code := so_code o;
         so_originStorage := so_originStorage o; so_dirtyStorage := so_dirtyStorage o;
         so_tx1Trie := so_tx1Trie o; so_tx3Trie := so_tx3Trie o; so_dirtyTX1 := so_dirtyTX1 o;
         so_dirtyTX3 := so_dirtyTX3 o; so_proxiedTrie := so_proxiedTrie o; so_originProxied := op;
         so_dirtyProxied := dp; so_rewardTrie := so_rewardTrie o; so_originReward := or;
         so_dirtyReward := dr; so_dirtyCode := so_dirtyCode o; so_suicided := so_suicided o;
         so_touched := false; so_deleted := so_deleted o; so_onDirty := onDirty |}.

End Objects.
