(* ===== verification/StateToy.v ===== *)
(** * Concrete tries for the examples

    An instance of the tries and the database of chain/core/state: a trie is a
    finite map, its hash a checksum of its entries, and the database maps the
    committed roots to their tries.  A commit whose root is taken by another
    trie fails. *)
From S2P Require Import Prelude Rlp StateData.
Local Open Scope Z_scope.

Fixpoint digits256 (n : nat) (z : Z) : bytes :=
  match n with
  | O => []
  | S n => digits256 n (z / 256) ++ [z mod 256]
  end.

Definition checksum (b : bytes) : Z := foldl (fun h x => (h * 65599 + x + 1) mod 2 ^ 256) 5381 b.
Definition toy_hash (b : bytes) : bytes := digits256 HashLength (checksum b).

Definition toy_root (t : gmap bytes bytes) : bytes :=
  toy_hash (concat (fmap (fun kv => fst kv ++ 256 :: snd kv ++ [257]) (map_to_list t))).

Record toyDB := { toy_tries : gmap bytes (gmap bytes bytes); toy_code : gmap bytes bytes }.

Definition toy_get (t : gmap bytes bytes) (k : bytes) : result string bytes := Ok (default [] (t !! k)).

Definition toy_open (db : toyDB) (root : bytes) : result string (gmap bytes bytes) :=
  if bool_decide (root = zeroHash) then Ok ∅
  else match toy_tries db !! root with
       | Some t => Ok t
       | None => Err "missing trie node"%string
       end.

Definition toy_commit (t : gmap bytes bytes) (db : toyDB) : result string (gmap bytes bytes * toyDB * bytes) :=
  let root := toy_root t in
  if bool_decide (root = zeroHash) then Err "collision"%string
  else
    match toy_tries db !! root with
    | Some t' => if bool_decide (t' = t) then Ok (t, db, root) else Err "collision"%string
    | None => Ok (t, {| toy_tries := <[root := t]> (toy_tries db); toy_code := toy_code db |}, root)
    end.

#[export] Instance toyLib : TrieLib := {
  trie := gmap bytes bytes;
  DB := toyDB;
  TryGet := toy_get;
  TryUpdate t k v := Ok (<[k := v]> t);
  TryDelete t k := Ok (delete k t);
  trie_Hash := toy_root;
  trie_Commit := toy_commit;
  trie_leaves t := map_to_list t;
  NewSecure := toy_open;
  ContractCode db h := match toy_code db !! h with Some c => Ok c | None => Err "not found"%string end;
  InsertBlob db h c := {| toy_tries := toy_tries db; toy_code := <[h := c]> (toy_code db) |};
  Keccak256 := toy_hash;
  EmptyRootHash := toy_root ∅ }.

Lemma length_digits256 n z : length (digits256 n z) = n.
Proof. revert z. induction n as [|n IH]; intros z; [done|]. cbn. rewrite length_app, IH. cbn. lia. Qed.

#[export] Instance toyLaws : TrieLaws toyLib.
Proof.
  split.
  - intros b. apply length_digits256.
  - intros db. exists ∅. split; [done|]. intros k. cbn. unfold toy_get. rewrite lookup_empty. done.
  - intros t t' k v k' [= <-]. cbn. unfold toy_get. rewrite lookup_insert.
    case_decide; case_bool_decide; done.
  - intros t t' k k' [= <-]. cbn. unfold toy_get. rewrite lookup_delete.
    case_decide; case_bool_decide; done.
  - intros t db t' db' root. cbn. unfold toy_commit, toy_open. case_bool_decide as Hz; [done|].
    destruct (toy_tries db !! toy_root t) as [t0|] eqn:E.
    + case_bool_decide; [|done]. intros [= <- <- <-]. rewrite bool_decide_false, E by done. subst. eauto.
    + intros [= <- <- <-]. rewrite bool_decide_false by done. cbn. rewrite lookup_insert_eq. eauto.
  - intros t db t' db' root r t0. cbn. unfold toy_commit, toy_open. case_bool_decide as Hz; [done|].
    destruct (toy_tries db !! toy_root t) as [t1|] eqn:E.
    + case_bool_decide; [|done]. intros [= <- <- <-]. eauto.
    + intros [= <- <- <-] H. exists t0. split; [|done].
      destruct (decide (r = zeroHash)) as [->|Hr]; [exact H|]. rewrite bool_decide_false in * by done.
      cbn [toy_tries]. rewrite lookup_insert_ne; [done|]. intros Hk. rewrite Hk in E. rewrite E in H. done.
Qed.

Definition toy_empty : toyDB := {| toy_tries := ∅; toy_code := ∅ |}.
