(* ===== verification/StateDB.v ===== *)
(** * The state database

    chain/core/state/statedb.go with its companions statedb1.go,
    statedb_delegate.go, statedb_reward.go, statedb_candidate.go and
    statedb_forbidden.go, and journal.go: the cache of live accounts, the journal
    that undoes changes, snapshots, the address sets kept in the account trie,
    and the flush into the tries.

    A pointer to a live object is its address: the object is the one
    [s_stateObjects] holds.  The numbers of an account are handled alike by the
    source, one method per number; [zfield] names the number, and each method
    of the source is an instance of the common definition. *)
From S2P Require Import Prelude Rlp StateData.
Local Open Scope Z_scope.

(** types.Log *)
Record Log := {
  log_Address : bytes;
  log_Topics : list bytes;
  log_Data : bytes;
  log_BlockNumber : Z;
  log_TxHash : bytes;
  log_TxIndex : Z;
  log_BlockHash : bytes;
  log_Index : Z;
  log_Removed : bool }.

Record revision := { rev_id : Z; rev_journalIndex : nat }.

(** A set of addresses; [None] is the nil map. *)
Definition AddressSet : Type := option (gset bytes).

(** The numbers of an account. *)
Inductive zfield :=
  | FBalance | FDepositBalance | FChainBalance | FDelegateBalance | FProxiedBalance
  | FDepositProxiedBalance | FPendingRefundBalance | FRewardBalance | FAvailableRewardBalance
  | FBlockTime | FBannedTime | FNonce | FCommission.

Definition zget (f : zfield) (a : Account) : Z :=
  match f with
  | FBalance => acc_Balance a | FDepositBalance => acc_DepositBalance a
  | FChainBalance => acc_ChainBalance a | FDelegateBalance => acc_DelegateBalance a
  | FProxiedBalance => acc_ProxiedBalance a | FDepositProxiedBalance => acc_DepositProxiedBalance a
  | FPendingRefundBalance => acc_PendingRefundBalance a | FRewardBalance => acc_RewardBalance a
  | FAvailableRewardBalance => acc_AvailableRewardBalance a | FBlockTime => acc_BlockTime a
  | FBannedTime => acc_BannedTime a | FNonce => acc_Nonce a | FCommission => acc_Commission a
  end.

Definition zset (f : zfield) (a : Account) (v : Z) : Account :=
  match f with
  | FBalance => set_acc_Balance a v | FDepositBalance => set_acc_DepositBalance a v
  | FChainBalance => set_acc_ChainBalance a v | FDelegateBalance => set_acc_DelegateBalance a v
  | FProxiedBalance => set_acc_ProxiedBalance a v
  | FDepositProxiedBalance => set_acc_DepositProxiedBalance a v
  | FPendingRefundBalance => set_acc_PendingRefundBalance a v
  | FRewardBalance => set_acc_RewardBalance a v
  | FAvailableRewardBalance => set_acc_AvailableRewardBalance a v
  | FBlockTime => set_acc_BlockTime a v | FBannedTime => set_acc_BannedTime a v
  | FNonce => set_acc_Nonce a v | FCommission => set_acc_Commission a v
  end.

Section StateDB.
Context {L : TrieLib}.

(** ** The journal (journal.go) *)
Inductive journalEntry :=
  | createObjectChange (account : bytes)
  | resetObjectChange (prev : stateObject)
  | suicideChange (account : bytes) (prev : bool) (prevbalance : Z)
  | balanceChange (account : bytes) (prev : Z)
  | depositBalanceChange (account : bytes) (prev : Z)
  | sideChainDepositBalanceChange (account : bytes) (chainId : bytes) (prev : Z)
  | chainBalanceChange (account : bytes) (prev : Z)
  | delegateBalanceChange (account : bytes) (prev : Z)
  | proxiedBalanceChange (account : bytes) (prev : Z)
  | depositProxiedBalanceChange (account : bytes) (prev : Z)
  | pendingRefundBalanceChange (account : bytes) (prev : Z)
  | rewardBalanceChange (account : bytes) (prev : Z)
  | availableRewardBalanceChange (account : bytes) (prev : Z)
  | nonceChange (account : bytes) (prev : Z)
  | storageChange (account : bytes) (key prevalue : bytes)
  | addTX1Change (account : bytes) (txHash : bytes)
  | addTX3Change (account : bytes) (txHash : bytes)
  | accountProxiedBalanceChange (account : bytes) (key : bytes) (prevalue : option accountProxiedBalance)
  | delegateRewardBalanceChange (account : bytes) (key : bytes) (prevalue : option Z)
  | candidateChange (account : bytes) (prev : bool)
  | pubkeyChange (account : bytes) (prev : bytes)
  | commissionChange (account : bytes) (prev : Z)
  | bannedChange (account : bytes) (prev : bool)
  | blockTimeChange (account : bytes) (prev : Z)
  | bannedTimeChange (account : bytes) (prev : Z)
  | codeChange (account : bytes) (prevcode : option bytes) (prevhash : bytes)
  | refundChange (prev : Z)
  | addLogChange (txhash : bytes)
  | addPreimageChange (hash : bytes)
  | touchChange (account : bytes) (prev prevDirty : bool).

(** The entry that records a change of one of the numbers. *)
Definition zchange (f : zfield) (account : bytes) (prev : Z) : journalEntry :=
  match f with
  | FBalance => balanceChange account prev
  | FDepositBalance => depositBalanceChange account prev
  | FChainBalance => chainBalanceChange account prev
  | FDelegateBalance => delegateBalanceChange account prev
  | FProxiedBalance => proxiedBalanceChange account prev
  | FDepositProxiedBalance => depositProxiedBalanceChange account prev
  | FPendingRefundBalance => pendingRefundBalanceChange account prev
  | FRewardBalance => rewardBalanceChange account prev
  | FAvailableRewardBalance => availableRewardBalanceChange account prev
  | FBlockTime => blockTimeChange account prev
  | FBannedTime => bannedTimeChange account prev
  | FNonce => nonceChange account prev
  | FCommission => commissionChange account prev
  end.

Record StateDB := {
  s_db : DB;
  s_trie : trie;
  s_stateObjects : gmap bytes stateObject;
  s_stateObjectsDirty : gset bytes;
  s_delegateRefundSet : AddressSet;
  s_delegateRefundSetDirty : bool;
  s_rewardSet : AddressSet;
  s_rewardSetDirty : bool;
  s_candidateSet : AddressSet;
  s_candidateSetDirty : bool;
  s_bannedSet : AddressSet;
  s_bannedSetDirty : bool;
  s_sideChainRewardPerBlock : option Z;
  s_sideChainRewardPerBlockDirty : bool;
  s_dbErr : option string;
  s_refund : Z;
  s_thash : bytes;
  s_bhash : bytes;
  s_txIndex : Z;
  s_logs : gmap bytes (list Log);
  s_logSize : Z;
  s_preimages : gmap bytes bytes;
  s_journal : list journalEntry;
  s_validRevisions : list revision;
  s_nextRevisionId : Z }.

Definition eta_StateDB (x : StateDB) : StateDB :=
  {| s_db := s_db x; s_trie := s_trie x; s_stateObjects := s_stateObjects x; s_stateObjectsDirty
     := s_stateObjectsDirty x; s_delegateRefundSet := s_delegateRefundSet x;
     s_delegateRefundSetDirty := s_delegateRefundSetDirty x; s_rewardSet := s_rewardSet x;
     s_rewardSetDirty := s_rewardSetDirty x; s_candidateSet := s_candidateSet x;
     s_candidateSetDirty := s_candidateSetDirty x; s_bannedSet := s_bannedSet x; s_bannedSetDirty
     := s_bannedSetDirty x; s_sideChainRewardPerBlock := s_sideChainRewardPerBlock x;
     s_sideChainRewardPerBlockDirty := s_sideChainRewardPerBlockDirty x; s_dbErr := s_dbErr x;
     s_refund := s_refund x; s_thash := s_thash x; s_bhash := s_bhash x; s_txIndex := s_txIndex x;
     s_logs := s_logs x; s_logSize := s_logSize x; s_preimages := s_preimages x; s_journal :=
     s_journal x; s_validRevisions := s_validRevisions x; s_nextRevisionId := s_nextRevisionId x
     |}.
Definition set_s_db (x : StateDB) (v : DB) : StateDB :=
  ltac:(with_field eta_StateDB x s_db v).
Definition set_s_trie (x : StateDB) (v : trie) : StateDB :=
  ltac:(with_field eta_StateDB x s_trie v).
Definition set_s_stateObjects (x : StateDB) (v : gmap bytes stateObject) : StateDB :=
  ltac:(with_field eta_StateDB x s_stateObjects v).
Definition set_s_stateObjectsDirty (x : StateDB) (v : gset bytes) : StateDB :=
  ltac:(with_field eta_StateDB x s_stateObjectsDirty v).
Definition set_s_delegateRefundSet (x : StateDB) (v : AddressSet) : StateDB :=
  ltac:(with_field eta_StateDB x s_delegateRefundSet v).
Definition set_s_delegateRefundSetDirty (x : StateDB) (v : bool) : StateDB :=
  ltac:(with_field eta_StateDB x s_delegateRefundSetDirty v).
Definition set_s_rewardSet (x : StateDB) (v : AddressSet) : StateDB :=
  ltac:(with_field eta_StateDB x s_rewardSet v).
Definition set_s_rewardSetDirty (x : StateDB) (v : bool) : StateDB :=
  ltac:(with_field eta_StateDB x s_rewardSetDirty v).
Definition set_s_candidateSet (x : StateDB) (v : AddressSet) : StateDB :=
  ltac:(with_field eta_StateDB x s_candidateSet v).
Definition set_s_candidateSetDirty (x : StateDB) (v : bool) : StateDB :=
  ltac:(with_field eta_StateDB x s_candidateSetDirty v).
Definition set_s_bannedSet (x : StateDB) (v : AddressSet) : StateDB :=
  ltac:(with_field eta_StateDB x s_bannedSet v).
Definition set_s_bannedSetDirty (x : StateDB) (v : bool) : StateDB :=
  ltac:(with_field eta_StateDB x s_bannedSetDirty v).
Definition set_s_sideChainRewardPerBlock (x : StateDB) (v : option Z) : StateDB :=
  ltac:(with_field eta_StateDB x s_sideChainRewardPerBlock v).
Definition set_s_sideChainRewardPerBlockDirty (x : StateDB) (v : bool) : StateDB :=
  ltac:(with_field eta_StateDB x s_sideChainRewardPerBlockDirty v).
Definition set_s_dbErr (x : StateDB) (v : option string) : StateDB :=
  ltac:(with_field eta_StateDB x s_dbErr v).
Definition set_s_refund (x : StateDB) (v : Z) : StateDB :=
  ltac:(with_field eta_StateDB x s_refund v).
Definition set_s_thash (x : StateDB) (v : bytes) : StateDB :=
  ltac:(with_field eta_StateDB x s_thash v).
Definition set_s_bhash (x : StateDB) (v : bytes) : StateDB :=
  ltac:(with_field eta_StateDB x s_bhash v).
Definition set_s_txIndex (x : StateDB) (v : Z) : StateDB :=
  ltac:(with_field eta_StateDB x s_txIndex v).
Definition set_s_logs (x : StateDB) (v : gmap bytes (list Log)) : StateDB :=
  ltac:(with_field eta_StateDB x s_logs v).
Definition set_s_logSize (x : StateDB) (v : Z) : StateDB :=
  ltac:(with_field eta_StateDB x s_logSize v).
Definition set_s_preimages (x : StateDB) (v : gmap bytes bytes) : StateDB :=
  ltac:(with_field eta_StateDB x s_preimages v).
Definition set_s_journal (x : StateDB) (v : list journalEntry) : StateDB :=
  ltac:(with_field eta_StateDB x s_journal v).
Definition set_s_validRevisions (x : StateDB) (v : list revision) : StateDB :=
  ltac:(with_field eta_StateDB x s_validRevisions v).
Definition set_s_nextRevisionId (x : StateDB) (v : Z) : StateDB :=
  ltac:(with_field eta_StateDB x s_nextRevisionId v).

(** ** Code that reads and changes the database *)
Definition SM (A : Type) : Type := StateDB -> outcome (StateDB * A).

#[export] Instance SM_ret : MRet SM := fun A a s => Ret (s, a).
#[export] Instance SM_bind : MBind SM := fun A B f m s =>
  match m s with Ret (s', a) => f a s' | Panic e => Panic e end.

Definition getS : SM StateDB := fun s => Ret (s, s).
Definition modifyS (f : StateDB -> StateDB) : SM unit := fun s => Ret (f s, tt).
Definition panicS {A} (msg : string) : SM A := fun _ => Panic msg.
Definition liftS {A} (m : outcome A) : SM A := fun s =>
  match m with Ret a => Ret (s, a) | Panic e => Panic e end.

Fixpoint forS {A} (f : A -> SM unit) (l : list A) : SM unit :=
  match l with
  | [] => mret tt
  | a :: l' => f a ;; forS f l'
  end.

(** A loop whose closure changes variables of the caller: they are the
    accumulator. *)
Fixpoint foldS {A B} (f : B -> A -> SM B) (b : B) (l : list A) : SM B :=
  match l with
  | [] => mret b
  | a :: l' => b' ← f b a; foldS f b' l'
  end.

Definition record (e : journalEntry) : SM unit :=
  modifyS (fun s => set_s_journal s (s_journal s ++ [e])).

Definition s_setError (err : option string) (s : StateDB) : StateDB :=
  match s_dbErr s with
  | None => set_s_dbErr s err
  | Some _ => s
  end.

(** The object behind a pointer. *)
Definition deref (addr : bytes) : SM stateObject :=
  s ← getS;
  match s_stateObjects s !! addr with
  | Some o => mret o
  | None => panicS "nil pointer dereference"
  end.

Definition putObject (addr : bytes) (o : stateObject) : SM unit :=
  modifyS (fun s => set_s_stateObjects s (<[addr := o]> (s_stateObjects s))).

Definition setStateObject (o : stateObject) : SM unit := putObject (so_address o) o.

(** A method of an object that reads through its caches. *)
Definition through {A} (addr : bytes) (f : DB -> stateObject -> outcome (stateObject * A)) : SM A :=
  s ← getS;
  o ← deref addr;
  x ← liftS (f (s_db s) o);
  putObject addr (fst x) ;;
  mret (snd x).

(** A change of an object, followed by the callback of the object. *)
Definition MarkStateObjectDirty (addr : bytes) : SM unit :=
  modifyS (fun s => set_s_stateObjectsDirty s ({[addr]} ∪ s_stateObjectsDirty s)).

Definition callOnDirty (addr : bytes) : SM unit :=
  o ← deref addr;
  if so_onDirty o then
    MarkStateObjectDirty addr ;;
    putObject addr (set_so_onDirty o false)
  else mret tt.

Definition changeObject (addr : bytes) (f : stateObject -> stateObject) : SM unit :=
  o ← deref addr;
  putObject addr (f o) ;;
  callOnDirty addr.

(** ** Finding and creating objects *)

(** The account the trie holds. *)
Definition loadAccount (t : trie) (addr : bytes) : option Account :=
  match TryGet t addr with
  | Err _ | Ok [] => None
  | Ok enc =>
    match DecodeBytes TAccount enc with
    | Ok r => Some (Account_of r)
    | Err _ => None
    end
  end.

(** getStateObject: whether there is a live object at the address.  Only a
    failing read of the trie is remembered. *)
Definition getStateObject (addr : bytes) : SM bool :=
  s ← getS;
  match s_stateObjects s !! addr with
  | Some obj => mret (negb (so_deleted obj))
  | None =>
    modifyS (fun s => match TryGet (s_trie s) addr with Err e => s_setError (Some e) s | Ok _ => s end) ;;
    match loadAccount (s_trie s) addr with
    | None => mret false
    | Some data =>
      setStateObject (newObject addr data false true) ;;
      mret true
    end
  end.

(** createObject returns the previous object, when there is one. *)
Definition createObject (addr : bytes) : SM (option stateObject) :=
  found ← getStateObject addr;
  prev ← (if (found : bool) then o ← deref addr; mret (Some o) else mret None);
  MarkStateObjectDirty addr ;;
  record (match prev with None => createObjectChange addr | Some o => resetObjectChange o end) ;;
  setStateObject (set_so_onDirty (newObject addr Account_zero true true) false) ;;
  mret prev.

Definition GetOrNewStateObject (addr : bytes) : SM unit :=
  found ← getStateObject addr;
  if (found : bool) then mret tt else createObject addr ;; mret tt.

(** A getter of the database: the default when there is no object. *)
Definition query {A} (addr : bytes) (dflt : A) (f : SM A) : SM A :=
  found ← getStateObject addr;
  if (found : bool) then f else mret dflt.

(** ** Methods of the objects (state_object.go, state_object1.go,
    state_object_delegate.go, state_object_reward.go) *)
Definition so_touch (addr : bytes) : SM unit :=
  o ← deref addr;
  record (touchChange addr (so_touched o) (negb (so_onDirty o))) ;;
  callOnDirty addr ;;
  o ← deref addr;
  putObject addr (set_so_touched o true).

(** setX, SetX, AddX and SubX for a number X of the account. *)
Definition so_setZ (f : zfield) (addr : bytes) (v : Z) : SM unit :=
  changeObject addr (fun o => set_so_data o (zset f (so_data o) v)).

Definition so_SetZ (f : zfield) (addr : bytes) (v : Z) : SM unit :=
  o ← deref addr;
  record (zchange f addr (zget f (so_data o))) ;;
  so_setZ f addr v.

Definition so_AddZ (f : zfield) (addr : bytes) (amount : Z) : SM unit :=
  o ← deref addr;
  if amount =? 0 then (if so_empty o then so_touch addr else mret tt)
  else so_SetZ f addr (zget f (so_data o) + amount).

Definition so_SubZ (f : zfield) (addr : bytes) (amount : Z) : SM unit :=
  o ← deref addr;
  if amount =? 0 then mret tt
  else so_SetZ f addr (zget f (so_data o) - amount).

Definition so_AddBalance (addr : bytes) (amount : Z) : SM unit := so_AddZ FBalance addr amount.
Definition so_SubBalance (addr : bytes) (amount : Z) : SM unit := so_SubZ FBalance addr amount.
Definition so_SetBalance (addr : bytes) (amount : Z) : SM unit := so_SetZ FBalance addr amount.
Definition so_AddDepositBalance (addr : bytes) (amount : Z) : SM unit := so_AddZ FDepositBalance addr amount.
Definition so_SubDepositBalance (addr : bytes) (amount : Z) : SM unit := so_SubZ FDepositBalance addr amount.
Definition so_SetDepositBalance (addr : bytes) (amount : Z) : SM unit := so_SetZ FDepositBalance addr amount.
Definition so_AddChainBalance (addr : bytes) (amount : Z) : SM unit := so_AddZ FChainBalance addr amount.
Definition so_SubChainBalance (addr : bytes) (amount : Z) : SM unit := so_SubZ FChainBalance addr amount.
Definition so_SetChainBalance (addr : bytes) (amount : Z) : SM unit := so_SetZ FChainBalance addr amount.
Definition so_AddDelegateBalance (addr : bytes) (amount : Z) : SM unit := so_AddZ FDelegateBalance addr amount.
Definition so_SubDelegateBalance (addr : bytes) (amount : Z) : SM unit := so_SubZ FDelegateBalance addr amount.
Definition so_SetDelegateBalance (addr : bytes) (amount : Z) : SM unit := so_SetZ FDelegateBalance addr amount.
Definition so_AddProxiedBalance (addr : bytes) (amount : Z) : SM unit := so_AddZ FProxiedBalance addr amount.
Definition so_SubProxiedBalance (addr : bytes) (amount : Z) : SM unit := so_SubZ FProxiedBalance addr amount.
Definition so_SetProxiedBalance (addr : bytes) (amount : Z) : SM unit := so_SetZ FProxiedBalance addr amount.
Definition so_AddDepositProxiedBalance (addr : bytes) (amount : Z) : SM unit := so_AddZ FDepositProxiedBalance addr amount.
Definition so_SubDepositProxiedBalance (addr : bytes) (amount : Z) : SM unit := so_SubZ FDepositProxiedBalance addr amount.
Definition so_SetDepositProxiedBalance (addr : bytes) (amount : Z) : SM unit := so_SetZ FDepositProxiedBalance addr amount.
Definition so_AddPendingRefundBalance (addr : bytes) (amount : Z) : SM unit := so_AddZ FPendingRefundBalance addr amount.
Definition so_SubPendingRefundBalance (addr : bytes) (amount : Z) : SM unit := so_SubZ FPendingRefundBalance addr amount.
Definition so_SetPendingRefundBalance (addr : bytes) (amount : Z) : SM unit := so_SetZ FPendingRefundBalance addr amount.
Definition so_AddRewardBalance (addr : bytes) (amount : Z) : SM unit := so_AddZ FRewardBalance addr amount.
Definition so_SubRewardBalance (addr : bytes) (amount : Z) : SM unit := so_SubZ FRewardBalance addr amount.
Definition so_SetRewardBalance (addr : bytes) (amount : Z) : SM unit := so_SetZ FRewardBalance addr amount.
Definition so_AddAvailableRewardBalance (addr : bytes) (amount : Z) : SM unit := so_AddZ FAvailableRewardBalance addr amount.
Definition so_SubAvailableRewardBalance (addr : bytes) (amount : Z) : SM unit := so_SubZ FAvailableRewardBalance addr amount.
Definition so_SetAvailableRewardBalance (addr : bytes) (amount : Z) : SM unit := so_SetZ FAvailableRewardBalance addr amount.
Definition so_SetBlockTime (addr : bytes) (v : Z) : SM unit := so_SetZ FBlockTime addr v.
Definition so_SetBannedTime (addr : bytes) (v : Z) : SM unit := so_SetZ FBannedTime addr v.
Definition so_SetNonce (addr : bytes) (v : Z) : SM unit := so_SetZ FNonce addr v.
Definition so_SetCommission (addr : bytes) (v : Z) : SM unit := so_SetZ FCommission addr v.

Definition so_setSideChainDepositBalance (addr : bytes) (index : nat) (amount : Z) : SM unit :=
  changeObject addr (fun o =>
    let l := acc_SideChainDepositBalance (so_data o) in
    set_so_data o (set_acc_SideChainDepositBalance (so_data o)
      (alter (fun b => {| sc_ChainId := sc_ChainId b; sc_DepositBalance := amount |}) index l))).

(** The entry of the chain, appended when it is missing. *)
Definition so_sideChainIndex (addr chainId : bytes) : SM nat :=
  o ← deref addr;
  let '(l, index) := side_index (acc_SideChainDepositBalance (so_data o)) chainId in
  putObject addr (set_so_data o (set_acc_SideChainDepositBalance (so_data o) l)) ;;
  mret index.

Definition so_SetSideChainDepositBalance (addr chainId : bytes) (amount : Z) : SM unit :=
  index ← so_sideChainIndex addr chainId;
  o ← deref addr;
  b ← liftS (slice_get (acc_SideChainDepositBalance (so_data o)) (Z.of_nat index));
  record (sideChainDepositBalanceChange addr chainId (sc_DepositBalance b)) ;;
  so_setSideChainDepositBalance addr index amount.

Definition so_AddSideChainDepositBalance (addr chainId : bytes) (amount : Z) : SM unit :=
  o ← deref addr;
  if amount =? 0 then (if so_empty o then so_touch addr else mret tt)
  else so_SetSideChainDepositBalance addr chainId (so_SideChainDepositBalance o chainId + amount).

Definition so_SubSideChainDepositBalance (addr chainId : bytes) (amount : Z) : SM unit :=
  o ← deref addr;
  if amount =? 0 then mret tt
  else so_SetSideChainDepositBalance addr chainId (so_SideChainDepositBalance o chainId - amount).

Definition so_setState (addr key value : bytes) : SM unit :=
  changeObject addr (fun o => set_so_dirtyStorage o (<[key := value]> (so_dirtyStorage o))).

Definition so_SetState (addr key value : bytes) : SM unit :=
  prevalue ← through addr (fun db o => so_GetState db o key);
  record (storageChange addr key prevalue) ;;
  so_setState addr key value.

(** The transaction sets change without the callback. *)
Definition so_addTX1 (addr txHash : bytes) : SM unit :=
  o ← deref addr;
  putObject addr (set_so_dirtyTX1 o ({[txHash]} ∪ so_dirtyTX1 o)).
Definition so_removeTX1 (addr txHash : bytes) : SM unit :=
  o ← deref addr;
  putObject addr (set_so_dirtyTX1 o (so_dirtyTX1 o ∖ {[txHash]})).
Definition so_AddTX1 (addr txHash : bytes) : SM unit :=
  record (addTX1Change addr txHash) ;;
  so_addTX1 addr txHash.

Definition so_addTX3 (addr txHash : bytes) : SM unit :=
  o ← deref addr;
  putObject addr (set_so_dirtyTX3 o ({[txHash]} ∪ so_dirtyTX3 o)).
Definition so_removeTX3 (addr txHash : bytes) : SM unit :=
  o ← deref addr;
  putObject addr (set_so_dirtyTX3 o (so_dirtyTX3 o ∖ {[txHash]})).
Definition so_AddTX3 (addr txHash : bytes) : SM unit :=
  record (addTX3Change addr txHash) ;;
  so_addTX3 addr txHash.

Definition so_setAccountProxiedBalance (addr key : bytes) (v : option accountProxiedBalance) : SM unit :=
  changeObject addr (fun o => set_so_dirtyProxied o (<[key := v]> (so_dirtyProxied o))).

Definition so_SetAccountProxiedBalance (addr key : bytes) (v : option accountProxiedBalance) : SM unit :=
  prevalue ← through addr (fun db o => GetAccountProxiedBalance db o key);
  record (accountProxiedBalanceChange addr key prevalue) ;;
  so_setAccountProxiedBalance addr key v.

Definition so_setDelegateRewardBalance (addr key : bytes) (v : option Z) : SM unit :=
  changeObject addr (fun o => set_so_dirtyReward o (<[key := v]> (so_dirtyReward o))).

Definition so_SetDelegateRewardBalance (addr key : bytes) (v : option Z) : SM unit :=
  prevalue ← through addr (fun db o => GetDelegateRewardBalance db o key);
  record (delegateRewardBalanceChange addr key prevalue) ;;
  so_setDelegateRewardBalance addr key v.

Definition so_setCandidate (addr : bytes) (v : bool) : SM unit :=
  changeObject addr (fun o => set_so_data o (set_acc_Candidate (so_data o) v)).
Definition so_SetCandidate (addr : bytes) (v : bool) : SM unit :=
  o ← deref addr;
  record (candidateChange addr (acc_Candidate (so_data o))) ;;
  so_setCandidate addr v.

Definition so_setPubkey (addr : bytes) (v : bytes) : SM unit :=
  changeObject addr (fun o => set_so_data o (set_acc_Pubkey (so_data o) v)).
Definition so_SetPubkey (addr : bytes) (v : bytes) : SM unit :=
  o ← deref addr;
  record (pubkeyChange addr (acc_Pubkey (so_data o))) ;;
  so_setPubkey addr v.

Definition so_setBanned (addr : bytes) (v : bool) : SM unit :=
  changeObject addr (fun o => set_so_data o (set_acc_IsBanned (so_data o) v)).
Definition so_SetBanned (addr : bytes) (v : bool) : SM unit :=
  o ← deref addr;
  record (bannedChange addr (acc_IsBanned (so_data o))) ;;
  so_setBanned addr v.

Definition so_setCode (addr codeHash : bytes) (code : option bytes) : SM unit :=
  changeObject addr (fun o =>
    set_so_dirtyCode (set_so_data (set_so_code o code) (set_acc_CodeHash (so_data o) codeHash)) true).

Definition so_SetCode (addr codeHash : bytes) (code : option bytes) : SM unit :=
  prevcode ← through addr (fun db o => Ret (so_Code db o));
  o ← deref addr;
  record (codeChange addr prevcode (acc_CodeHash (so_data o))) ;;
  so_setCode addr codeHash code.

Definition so_markSuicided (addr : bytes) : SM unit :=
  changeObject addr (fun o => set_so_suicided o true).

(** ** Undoing a change *)
Definition ripemd : bytes := BytesToHash [3].

(** The object of an entry; there is none behind a nil pointer. *)
Definition undoOn (account : bytes) (k : SM unit) : SM unit :=
  found ← getStateObject account;
  if (found : bool) then k else panicS "nil pointer dereference".

Definition undo (ch : journalEntry) : SM unit :=
  match ch with
  | createObjectChange a =>
    modifyS (fun s => set_s_stateObjectsDirty (set_s_stateObjects s (delete a (s_stateObjects s)))
                        (s_stateObjectsDirty s ∖ {[a]}))
  | resetObjectChange prev => setStateObject prev
  | suicideChange a prev prevbalance =>
    found ← getStateObject a;
    if (found : bool) then
      o ← deref a;
      putObject a (set_so_suicided o prev) ;;
      so_setZ FBalance a prevbalance
    else mret tt
  | touchChange a prev prevDirty =>
    if negb prev && negb (bool_decide (a = ripemd)) then
      undoOn a (
        o ← deref a;
        putObject a (set_so_touched o prev) ;;
        if prevDirty then mret tt
        else modifyS (fun s => set_s_stateObjectsDirty s (s_stateObjectsDirty s ∖ {[a]})))
    else mret tt
  | balanceChange a prev => undoOn a (so_setZ FBalance a prev)
  | depositBalanceChange a prev => undoOn a (so_setZ FDepositBalance a prev)
  | sideChainDepositBalanceChange a chainId prev =>
    undoOn a (
      index ← so_sideChainIndex a chainId;
      so_setSideChainDepositBalance a index prev)
  | chainBalanceChange a prev => undoOn a (so_setZ FChainBalance a prev)
  | delegateBalanceChange a prev => undoOn a (so_setZ FDelegateBalance a prev)
  | proxiedBalanceChange a prev => undoOn a (so_setZ FProxiedBalance a prev)
  | depositProxiedBalanceChange a prev => undoOn a (so_setZ FDepositProxiedBalance a prev)
  | pendingRefundBalanceChange a prev => undoOn a (so_setZ FPendingRefundBalance a prev)
  | rewardBalanceChange a prev => undoOn a (so_setZ FRewardBalance a prev)
  | availableRewardBalanceChange a prev => undoOn a (so_setZ FAvailableRewardBalance a prev)
  | nonceChange a prev => undoOn a (so_setZ FNonce a prev)
  | codeChange a prevcode prevhash => undoOn a (so_setCode a (BytesToHash prevhash) prevcode)
  | storageChange a key prevalue => undoOn a (so_setState a key prevalue)
  | addTX1Change a txHash => undoOn a (so_removeTX1 a txHash)
  | addTX3Change a txHash => undoOn a (so_removeTX3 a txHash)
  | accountProxiedBalanceChange a key prevalue => undoOn a (so_setAccountProxiedBalance a key prevalue)
  | delegateRewardBalanceChange a key prevalue => undoOn a (so_setDelegateRewardBalance a key prevalue)
  | candidateChange a prev => undoOn a (so_setCandidate a prev)
  | pubkeyChange a prev => undoOn a (so_setPubkey a prev)
  | commissionChange a prev => undoOn a (so_setZ FCommission a prev)
  | bannedChange a prev => undoOn a (so_setBanned a prev)
  | blockTimeChange a prev => undoOn a (so_setZ FBlockTime a prev)
  | bannedTimeChange a prev => undoOn a (so_setZ FBannedTime a prev)
  | refundChange prev => modifyS (fun s => set_s_refund s prev)
  | addLogChange txhash =>
    s ← getS;
    let logs := default [] (s_logs s !! txhash) in
    match logs with
    | [] => panicS "slice bounds out of range"
    | [_] => modifyS (fun s => set_s_logSize (set_s_logs s (delete txhash (s_logs s))) (u64 (s_logSize s - 1)))
    | _ => modifyS (fun s => set_s_logSize (set_s_logs s (<[txhash := take (length logs - 1) logs]> (s_logs s)))
                               (u64 (s_logSize s - 1)))
    end
  | addPreimageChange hash => modifyS (fun s => set_s_preimages s (delete hash (s_preimages s)))
  end.

(** ** Getters of the database *)
Definition Exist (addr : bytes) : SM bool := getStateObject addr.

Definition Empty (addr : bytes) : SM bool :=
  query addr true (o ← deref addr; mret (so_empty o)).

Definition getZ (f : zfield) (addr : bytes) : SM Z :=
  query addr 0 (o ← deref addr; mret (zget f (so_data o))).

Definition GetBalance (addr : bytes) : SM Z := getZ FBalance addr.
Definition GetNonce (addr : bytes) : SM Z := getZ FNonce addr.
Definition GetDepositBalance (addr : bytes) : SM Z := getZ FDepositBalance addr.
Definition GetChainBalance (addr : bytes) : SM Z := getZ FChainBalance addr.
Definition GetDelegateBalance (addr : bytes) : SM Z := getZ FDelegateBalance addr.
Definition GetTotalProxiedBalance (addr : bytes) : SM Z := getZ FProxiedBalance addr.
Definition GetTotalDepositProxiedBalance (addr : bytes) : SM Z := getZ FDepositProxiedBalance addr.
Definition GetTotalPendingRefundBalance (addr : bytes) : SM Z := getZ FPendingRefundBalance addr.
Definition GetTotalRewardBalance (addr : bytes) : SM Z := getZ FRewardBalance addr.
Definition GetTotalAvailableRewardBalance (addr : bytes) : SM Z := getZ FAvailableRewardBalance addr.
Definition GetCommission (addr : bytes) : SM Z := getZ FCommission addr.

Definition GetSideChainDepositBalance (chainId addr : bytes) : SM Z :=
  query addr 0 (o ← deref addr; mret (so_SideChainDepositBalance o chainId)).

Definition GetCode (addr : bytes) : SM (option bytes) :=
  query addr None (through addr (fun db o => Ret (so_Code db o))).

Definition GetCodeHash (addr : bytes) : SM bytes :=
  query addr zeroHash (o ← deref addr; mret (BytesToHash (acc_CodeHash (so_data o)))).

Definition GetState (addr key : bytes) : SM bytes :=
  query addr zeroHash (through addr (fun db o => so_GetState db o key)).

Definition StateDB_GetCommittedState (addr key : bytes) : SM bytes :=
  query addr zeroHash (through addr (fun db o => GetCommittedState db o key)).

Definition HasTX1 (addr txHash : bytes) : SM bool :=
  query addr false (through addr (fun db o => so_HasTX1 db o txHash)).

Definition HasTX3 (addr txHash : bytes) : SM bool :=
  query addr false (through addr (fun db o => so_HasTX3 db o txHash)).

Definition HasSuicided (addr : bytes) : SM bool :=
  query addr false (o ← deref addr; mret (so_suicided o)).

Definition apb_field (p : accountProxiedBalance -> Z) (v : option accountProxiedBalance) : Z :=
  match v with None => 0 | Some a => p a end.

Definition GetProxiedBalanceByUser (addr user : bytes) : SM Z :=
  query addr 0 (v ← through addr (fun db o => GetAccountProxiedBalance db o user);
                mret (apb_field apb_ProxiedBalance v)).
Definition GetDepositProxiedBalanceByUser (addr user : bytes) : SM Z :=
  query addr 0 (v ← through addr (fun db o => GetAccountProxiedBalance db o user);
                mret (apb_field apb_DepositProxiedBalance v)).
Definition GetPendingRefundBalanceByUser (addr user : bytes) : SM Z :=
  query addr 0 (v ← through addr (fun db o => GetAccountProxiedBalance db o user);
                mret (apb_field apb_PendingRefundBalance v)).

(** The number of entries of the proxied trie, not of the cache. *)
Definition GetProxiedAddressNumber (addr : bytes) : SM Z :=
  query addr 0 (t ← through addr getProxiedTrie; mret (Z.of_nat (length (trie_leaves t)))).

Definition GetRewardBalanceByDelegateAddress (addr deleAddress : bytes) : SM Z :=
  query addr 0 (v ← through addr (fun db o => GetDelegateRewardBalance db o deleAddress);
                mret (default 0 v)).

Definition IsCandidate (addr : bytes) : SM bool :=
  query addr false (o ← deref addr; mret (acc_Candidate (so_data o))).

Definition IsCleanAddress (addr : bytes) : SM bool :=
  query addr true (o ← deref addr;
    mret (negb (acc_Candidate (so_data o)) && bool_decide (acc_ProxiedRoot (so_data o) = EmptyRootHash))).

Definition GetPubkey (addr : bytes) : SM bytes :=
  query addr [] (o ← deref addr; mret (acc_Pubkey (so_data o))).

(** These getters create the object. *)
Definition GetBanned (addr : bytes) : SM bool :=
  GetOrNewStateObject addr ;; o ← deref addr; mret (acc_IsBanned (so_data o)).
Definition GetBannedTime (addr : bytes) : SM Z :=
  GetOrNewStateObject addr ;; o ← deref addr; mret (acc_BannedTime (so_data o)).
Definition GetMinedBlocks (addr : bytes) : SM Z :=
  GetOrNewStateObject addr ;; o ← deref addr; mret (acc_BlockTime (so_data o)).

(** ** Setters of the database *)
Definition AddBalance (addr : bytes) (amount : Z) : SM unit :=
  GetOrNewStateObject addr ;; so_AddBalance addr amount.
Definition SubBalance (addr : bytes) (amount : Z) : SM unit :=
  GetOrNewStateObject addr ;; so_SubBalance addr amount.
Definition SetBalance (addr : bytes) (amount : Z) : SM unit :=
  GetOrNewStateObject addr ;; so_SetBalance addr amount.
Definition AddDepositBalance (addr : bytes) (amount : Z) : SM unit :=
  GetOrNewStateObject addr ;; so_AddDepositBalance addr amount.
Definition SubDepositBalance (addr : bytes) (amount : Z) : SM unit :=
  GetOrNewStateObject addr ;; so_SubDepositBalance addr amount.
Definition SetDepositBalance (addr : bytes) (amount : Z) : SM unit :=
  GetOrNewStateObject addr ;; so_SetDepositBalance addr amount.
Definition AddChainBalance (addr : bytes) (amount : Z) : SM unit :=
  GetOrNewStateObject addr ;; so_AddChainBalance addr amount.
Definition SubChainBalance (addr : bytes) (amount : Z) : SM unit :=
  GetOrNewStateObject addr ;; so_SubChainBalance addr amount.
Definition SetChainBalance (addr : bytes) (amount : Z) : SM unit :=
  GetOrNewStateObject addr ;; so_SetChainBalance addr amount.
Definition AddDelegateBalance (addr : bytes) (amount : Z) : SM unit :=
  GetOrNewStateObject addr ;; so_AddDelegateBalance addr amount.
Definition SubDelegateBalance (addr : bytes) (amount : Z) : SM unit :=
  GetOrNewStateObject addr ;; so_SubDelegateBalance addr amount.
Definition AddRewardBalance (addr : bytes) (amount : Z) : SM unit :=
  GetOrNewStateObject addr ;; so_AddRewardBalance addr amount.
Definition SubRewardBalance (addr : bytes) (amount : Z) : SM unit :=
  GetOrNewStateObject addr ;; so_SubRewardBalance addr amount.
Definition AddSideChainDepositBalance (addr chainId : bytes) (amount : Z) : SM unit :=
  GetOrNewStateObject addr ;; so_AddSideChainDepositBalance addr chainId amount.
Definition SubSideChainDepositBalance (addr chainId : bytes) (amount : Z) : SM unit :=
  GetOrNewStateObject addr ;; so_SubSideChainDepositBalance addr chainId amount.
Definition SetSideChainDepositBalance (addr chainId : bytes) (amount : Z) : SM unit :=
  GetOrNewStateObject addr ;; so_SetSideChainDepositBalance addr chainId amount.

(** The available reward changes only for an account that exists. *)
Definition AddAvailableRewardBalance (addr : bytes) (amount : Z) : SM unit :=
  query addr tt (so_AddAvailableRewardBalance addr amount).
Definition SubAvailableRewardBalance (addr : bytes) (amount : Z) : SM unit :=
  query addr tt (so_SubAvailableRewardBalance addr amount).

Definition SetNonce (addr : bytes) (nonce : Z) : SM unit :=
  GetOrNewStateObject addr ;; so_SetNonce addr nonce.
Definition SetCode (addr : bytes) (code : option bytes) : SM unit :=
  GetOrNewStateObject addr ;; so_SetCode addr (Keccak256 (default [] code)) code.
Definition SetState (addr key value : bytes) : SM unit :=
  GetOrNewStateObject addr ;; so_SetState addr key value.
Definition AddTX1 (addr txHash : bytes) : SM unit :=
  GetOrNewStateObject addr ;; so_AddTX1 addr txHash.
Definition AddTX3 (addr txHash : bytes) : SM unit :=
  GetOrNewStateObject addr ;; so_AddTX3 addr txHash.
Definition SetCommission (addr : bytes) (commission : Z) : SM unit :=
  GetOrNewStateObject addr ;; so_SetCommission addr commission.
Definition ClearCommission (addr : bytes) : SM unit :=
  GetOrNewStateObject addr ;; so_SetCommission addr 0.
Definition SetBanned (addr : bytes) (banned : bool) : SM unit :=
  GetOrNewStateObject addr ;; so_SetBanned addr banned.
Definition SetBannedTime (addr : bytes) (t : Z) : SM unit :=
  GetOrNewStateObject addr ;; so_SetBannedTime addr t.
Definition SetMinedBlocks (addr : bytes) (blocks : Z) : SM unit :=
  GetOrNewStateObject addr ;; so_SetBlockTime addr blocks.

Definition ApplyForCandidate (addr pubkey : bytes) (commission : Z) : SM unit :=
  GetOrNewStateObject addr ;;
  so_SetCandidate addr true ;;
  so_SetCommission addr commission ;;
  so_SetPubkey addr pubkey.

Definition CancelCandidate (addr : bytes) (allRefund : bool) : SM unit :=
  GetOrNewStateObject addr ;;
  so_SetCandidate addr false ;;
  so_SetPubkey addr [] ;;
  if allRefund then so_SetCommission addr 0 else mret tt.

(** The share of a user is copied, changed and stored, then the total. *)
Definition changeShare (addr user : bytes) (f : accountProxiedBalance -> accountProxiedBalance) : SM unit :=
  apb ← through addr (fun db o => GetAccountProxiedBalance db o user);
  so_SetAccountProxiedBalance addr user (Some (f (default NewAccountProxiedBalance apb))).

Definition apb_addProxied (amount : Z) (a : accountProxiedBalance) : accountProxiedBalance :=
  {| apb_ProxiedBalance := apb_ProxiedBalance a + amount;
     apb_DepositProxiedBalance := apb_DepositProxiedBalance a;
     apb_PendingRefundBalance := apb_PendingRefundBalance a |}.
Definition apb_addDeposit (amount : Z) (a : accountProxiedBalance) : accountProxiedBalance :=
  {| apb_ProxiedBalance := apb_ProxiedBalance a;
     apb_DepositProxiedBalance := apb_DepositProxiedBalance a + amount;
     apb_PendingRefundBalance := apb_PendingRefundBalance a |}.
Definition apb_addPending (amount : Z) (a : accountProxiedBalance) : accountProxiedBalance :=
  {| apb_ProxiedBalance := apb_ProxiedBalance a;
     apb_DepositProxiedBalance := apb_DepositProxiedBalance a;
     apb_PendingRefundBalance := apb_PendingRefundBalance a + amount |}.

Definition AddProxiedBalanceByUser (addr user : bytes) (amount : Z) : SM unit :=
  GetOrNewStateObject addr ;;
  changeShare addr user (apb_addProxied amount) ;;
  so_AddProxiedBalance addr amount.
Definition SubProxiedBalanceByUser (addr user : bytes) (amount : Z) : SM unit :=
  GetOrNewStateObject addr ;;
  changeShare addr user (apb_addProxied (- amount)) ;;
  so_SubProxiedBalance addr amount.
Definition AddDepositProxiedBalanceByUser (addr user : bytes) (amount : Z) : SM unit :=
  GetOrNewStateObject addr ;;
  changeShare addr user (apb_addDeposit amount) ;;
  so_AddDepositProxiedBalance addr amount.
Definition SubDepositProxiedBalanceByUser (addr user : bytes) (amount : Z) : SM unit :=
  GetOrNewStateObject addr ;;
  changeShare addr user (apb_addDeposit (- amount)) ;;
  so_SubDepositProxiedBalance addr amount.
Definition AddPendingRefundBalanceByUser (addr user : bytes) (amount : Z) : SM unit :=
  GetOrNewStateObject addr ;;
  changeShare addr user (apb_addPending amount) ;;
  so_AddPendingRefundBalance addr amount.
Definition SubPendingRefundBalanceByUser (addr user : bytes) (amount : Z) : SM unit :=
  GetOrNewStateObject addr ;;
  changeShare addr user (apb_addPending (- amount)) ;;
  so_SubPendingRefundBalance addr amount.

Definition AddRewardBalanceByDelegateAddress (addr deleAddress : bytes) (amount : Z) : SM unit :=
  GetOrNewStateObject addr ;;
  v ← through addr (fun db o => GetDelegateRewardBalance db o deleAddress);
  so_SetDelegateRewardBalance addr deleAddress
    (Some match v with None => amount | Some r => r + amount end) ;;
  so_AddRewardBalance addr amount.

Definition SubRewardBalanceByDelegateAddress (addr deleAddress : bytes) (amount : Z) : SM unit :=
  GetOrNewStateObject addr ;;
  v ← through addr (fun db o => GetDelegateRewardBalance db o deleAddress);
  match v with
  | None => panicS "you can't subtract the amount from nil balance, check the code, this should not happen"
  | Some r =>
    so_SetDelegateRewardBalance addr deleAddress (Some (r - amount)) ;;
    so_SubRewardBalance addr amount
  end.

Definition Suicide (addr : bytes) : SM bool :=
  found ← getStateObject addr;
  if (found : bool) then
    o ← deref addr;
    record (suicideChange addr (so_suicided o) (acc_Balance (so_data o))) ;;
    so_markSuicided addr ;;
    o ← deref addr;
    putObject addr (set_so_data o (set_acc_Balance (so_data o) 0)) ;;
    mret true
  else mret false.

(** An account that exists keeps its balance. *)
Definition CreateAccount (addr : bytes) : SM unit :=
  prev ← createObject addr;
  match prev with
  | None => mret tt
  | Some o => so_setZ FBalance addr (acc_Balance (so_data o))
  end.

(** Logs, preimages and refunds *)
Definition AddLog (log : Log) : SM unit :=
  s ← getS;
  record (addLogChange (s_thash s)) ;;
  let log := {| log_Address := log_Address log; log_Topics := log_Topics log; log_Data := log_Data log;
                log_BlockNumber := log_BlockNumber log; log_TxHash := s_thash s;
                log_TxIndex := u64 (s_txIndex s); log_BlockHash := s_bhash s;
                log_Index := s_logSize s; log_Removed := log_Removed log |} in
  modifyS (fun s =>
    set_s_logSize (set_s_logs s (<[s_thash s := default [] (s_logs s !! s_thash s) ++ [log]]> (s_logs s)))
      (u64 (s_logSize s + 1))).

Definition AddPreimage (hash preimage : bytes) : SM unit :=
  s ← getS;
  match s_preimages s !! hash with
  | Some _ => mret tt
  | None =>
    record (addPreimageChange hash) ;;
    modifyS (fun s => set_s_preimages s (<[hash := preimage]> (s_preimages s)))
  end.

Definition AddRefund (gas : Z) : SM unit :=
  s ← getS;
  record (refundChange (s_refund s)) ;;
  modifyS (fun s => set_s_refund s (u64 (s_refund s + gas))).

Definition SubRefund (gas : Z) : SM unit :=
  s ← getS;
  record (refundChange (s_refund s)) ;;
  if gas >? s_refund s then panicS "Refund counter below zero"
  else modifyS (fun s => set_s_refund s (s_refund s - gas)).

Definition GetRefund : SM Z := s ← getS; mret (s_refund s).
Definition GetLogs (hash : bytes) : SM (list Log) := s ← getS; mret (default [] (s_logs s !! hash)).

Definition Prepare (thash bhash : bytes) (ti : Z) : SM unit :=
  modifyS (fun s => set_s_txIndex (set_s_bhash (set_s_thash s thash) bhash) ti).

(** ** Snapshots *)
Definition Snapshot : SM Z :=
  s ← getS;
  let id := s_nextRevisionId s in
  modifyS (fun s => set_s_validRevisions (set_s_nextRevisionId s (id + 1))
    (s_validRevisions s ++ [{| rev_id := id; rev_journalIndex := length (s_journal s) |}])) ;;
  mret id.

(** sort.Search: the bounds [i] and [j] close in on the first index at which
    [f] holds. *)
Fixpoint Search_loop (fuel : nat) (f : nat -> bool) (i j : nat) : nat :=
  match fuel with
  | O => i
  | S fuel =>
    if (i <? j)%nat then
      let h := ((i + j) / 2)%nat in
      if f h then Search_loop fuel f i h else Search_loop fuel f (S h) j
    else i
  end.
Definition Search (n : nat) (f : nat -> bool) : nat := Search_loop (S n) f 0 n.

(** The entries of the journal from the last one down to the snapshot. *)
Fixpoint undo_all (l : list journalEntry) : SM unit :=
  match l with
  | [] => mret tt
  | e :: l => undo e ;; undo_all l
  end.

Definition RevertToSnapshot (revid : Z) : SM unit :=
  s ← getS;
  let revs := s_validRevisions s in
  let idx := Search (length revs) (fun i =>
    match revs !! i with Some r => revid <=? rev_id r | None => false end) in
  match revs !! idx with
  | Some r =>
    if rev_id r =? revid then
      undo_all (reverse (drop (rev_journalIndex r) (s_journal s))) ;;
      modifyS (fun s => set_s_validRevisions
        (set_s_journal s (take (rev_journalIndex r) (s_journal s))) (take idx revs))
    else panicS "revision id cannot be reverted"
  | None => panicS "revision id cannot be reverted"
  end.

(** ** Address sets in the account trie (statedb_delegate.go,
    statedb_reward.go, statedb_candidate.go, statedb_forbidden.go)

    The four sets are handled alike, but for the clearing of the refund set. *)
Inductive setName := DelegateRefundSet | RewardSet | CandidateSet | BannedSet.

Definition setKey (n : setName) : bytes :=
  str_bytes match n with
            | DelegateRefundSet => "DelegateRefundSet"
            | RewardSet => "RewardSet"
            | CandidateSet => "CandidateSet"
            | BannedSet => "BannedSet"
            end.

Definition sget (n : setName) (s : StateDB) : AddressSet :=
  match n with
  | DelegateRefundSet => s_delegateRefundSet s
  | RewardSet => s_rewardSet s
  | CandidateSet => s_candidateSet s
  | BannedSet => s_bannedSet s
  end.
Definition sset (n : setName) (v : AddressSet) (s : StateDB) : StateDB :=
  match n with
  | DelegateRefundSet => set_s_delegateRefundSet s v
  | RewardSet => set_s_rewardSet s v
  | CandidateSet => set_s_candidateSet s v
  | BannedSet => set_s_bannedSet s v
  end.
Definition sdirty (n : setName) (s : StateDB) : bool :=
  match n with
  | DelegateRefundSet => s_delegateRefundSetDirty s
  | RewardSet => s_rewardSetDirty s
  | CandidateSet => s_candidateSetDirty s
  | BannedSet => s_bannedSetDirty s
  end.
Definition set_sdirty (n : setName) (v : bool) (s : StateDB) : StateDB :=
  match n with
  | DelegateRefundSet => set_s_delegateRefundSetDirty s v
  | RewardSet => set_s_rewardSetDirty s v
  | CandidateSet => set_s_candidateSetDirty s v
  | BannedSet => set_s_bannedSetDirty s v
  end.

(** EncodeRLP: the list of the members, from the largest to the smallest. *)
Fixpoint insert_desc (a : bytes) (l : list bytes) : list bytes :=
  match l with
  | [] => [a]
  | x :: l' => if bytes_Compare x a =? 1 then x :: insert_desc a l' else a :: l
  end.
Definition sort_desc (l : list bytes) : list bytes := foldr insert_desc [] l.

Definition members (v : AddressSet) : gset bytes := default ∅ v.

Definition EncodeSet (v : AddressSet) : outcome (result rlp_error bytes) :=
  EncodeToBytes (TSlice THash) (sort_desc (elements (members v))).

(** rlp.DecodeBytes with DecodeRLP: the set stays nil when the list is refused
    and is kept when other bytes follow. *)
Definition DecodeSet (enc : bytes) : AddressSet * option string :=
  match dec (S (length enc)) (TSlice THash) no_tags (Stream_Reset enc (Z.of_nat (length enc))) with
  | (s, Ok l) =>
    (Some (list_to_set l), if bool_decide (s_r s = []) then None else Some "rlp: more than one value"%string)
  | (_, Err _) => (None, Some "rlp"%string)
  end.

(** An empty set is looked up in the trie, whether it was loaded or not. *)
Definition getSet (n : setName) : SM AddressSet :=
  s ← getS;
  if negb (bool_decide (members (sget n s) = ∅)) then mret (sget n s)
  else
    match TryGet (s_trie s) (setKey n) with
    | Err e => modifyS (s_setError (Some e)) ;; mret None
    | Ok [] => mret None
    | Ok enc =>
      let '(value, err) := DecodeSet enc in
      modifyS (fun s => sset n value (s_setError err s)) ;;
      mret value
    end.

Definition markInSet (n : setName) (addr : bytes) : SM unit :=
  value ← getSet n;
  if bool_decide (addr ∈ members value) then mret tt
  else
    s ← getS;
    match sget n s with
    | None => panicS "assignment to entry in nil map"
    | Some m => modifyS (fun s => set_sdirty n true (sset n (Some ({[addr]} ∪ m)) s))
    end.

Definition clearInSet (n : setName) (addr : bytes) : SM unit :=
  modifyS (fun s => set_sdirty n true
    (sset n ((fun m => m ∖ {[addr]}) <$> sget n s) s)).

(** Writing into the account trie; the first error is remembered. *)
Definition updateTrieAt (key data : bytes) : SM unit :=
  modifyS (fun s =>
    match TryUpdate (s_trie s) key data with
    | Ok t => set_s_trie s t
    | Err e => s_setError (Some e) s
    end).
Definition deleteTrieAt (key : bytes) : SM unit :=
  modifyS (fun s =>
    match TryDelete (s_trie s) key with
    | Ok t => set_s_trie s t
    | Err e => s_setError (Some e) s
    end).

Definition commitSet (n : setName) : SM unit :=
  s ← getS;
  data ← liftS (EncodeSet (sget n s));
  match data with
  | Err _ => panicS "can't encode set"
  | Ok data => updateTrieAt (setKey n) data
  end.

Definition MarkAddressCandidate (addr : bytes) : SM unit := markInSet CandidateSet addr.
Definition ClearCandidateSetByAddress (addr : bytes) : SM unit := clearInSet CandidateSet addr.
Definition GetCandidateSet : SM AddressSet := getSet CandidateSet.
Definition commitCandidateSet : SM unit := commitSet CandidateSet.
Definition MarkAddressBanned (addr : bytes) : SM unit := markInSet BannedSet addr.
Definition ClearBannedSetByAddress (addr : bytes) : SM unit := clearInSet BannedSet addr.
Definition GetBannedSet : SM AddressSet := getSet BannedSet.
Definition commitBannedSet : SM unit := commitSet BannedSet.
Definition MarkAddressReward (addr : bytes) : SM unit := markInSet RewardSet addr.
Definition ClearRewardSetByAddress (addr : bytes) : SM unit := clearInSet RewardSet addr.
Definition GetRewardSet : SM AddressSet := getSet RewardSet.
Definition commitRewardSet : SM unit := commitSet RewardSet.
Definition MarkDelegateAddressRefund (addr : bytes) : SM unit := markInSet DelegateRefundSet addr.
Definition GetDelegateAddressRefundSet : SM AddressSet := getSet DelegateRefundSet.
Definition commitDelegateRefundSet : SM unit := commitSet DelegateRefundSet.
Definition ClearDelegateRefundSet : SM unit :=
  deleteTrieAt (setKey DelegateRefundSet) ;;
  modifyS (fun s => set_s_delegateRefundSetDirty (set_s_delegateRefundSet s (Some ∅)) false).

(** The reward per block of a side chain *)
Definition sideChainRewardPerBlockKey : bytes := str_bytes "RewardPerBlock".
Definition SetSideChainRewardPerBlock (v : option Z) : SM unit :=
  modifyS (fun s => set_s_sideChainRewardPerBlockDirty (set_s_sideChainRewardPerBlock s v) true).
Definition GetSideChainRewardPerBlock : SM (option Z) :=
  s ← getS;
  match s_sideChainRewardPerBlock s with
  | Some v => mret (Some v)
  | None =>
    match TryGet (s_trie s) sideChainRewardPerBlockKey with
    | Err e => modifyS (s_setError (Some e)) ;; mret None
    | Ok [] => mret (Some 0)
    | Ok enc =>
      let '(v, err) := DecodeBig enc in
      modifyS (fun s => set_s_sideChainRewardPerBlock (s_setError err s) (Some v)) ;;
      mret (Some v)
    end
  end.
Definition commitSideChainRewardPerBlock : SM unit :=
  s ← getS;
  data ← liftS (EncodeToBytes TBigPtr (s_sideChainRewardPerBlock s));
  match data with
  | Err _ => panicS "can't encode side chain reward per block"
  | Ok data => updateTrieAt sideChainRewardPerBlockKey data
  end.

(** ** Flushing the objects *)
Definition updateStateObject (o : stateObject) : SM unit :=
  data ← liftS (EncodeToBytes TAccount (Account_raw (so_data o)));
  match data with
  | Err _ => panicS "can't encode object"
  | Ok data => updateTrieAt (so_address o) data
  end.

Definition deleteStateObject (addr : bytes) : SM unit :=
  o ← deref addr;
  putObject addr (set_so_deleted o true) ;;
  deleteTrieAt (so_address o).

Definition clearJournalAndRefund : SM unit :=
  modifyS (fun s => set_s_refund (set_s_validRevisions (set_s_journal s []) []) 0).

(** A method that updates the object it is called on. *)
Definition updateObject (addr : bytes) (f : DB -> stateObject -> outcome stateObject) : SM unit :=
  through addr (fun db o => o ← f db o; Ret (o, tt)).

Definition finaliseObject (deleteEmptyObjects : bool) (addr : bytes) : SM unit :=
  o ← deref addr;
  if so_suicided o || (deleteEmptyObjects && so_empty o) then deleteStateObject addr
  else
    updateObject addr updateRoot ;;
    updateObject addr updateTX1Root ;;
    updateObject addr updateTX3Root ;;
    updateObject addr updateProxiedRoot ;;
    updateObject addr updateRewardRoot ;;
    o ← deref addr;
    updateStateObject o.

Definition whenS (b : bool) (m : SM unit) : SM unit := if b then m else mret tt.

Definition Finalise (deleteEmptyObjects : bool) : SM unit :=
  s ← getS;
  forS (finaliseObject deleteEmptyObjects) (elements (s_stateObjectsDirty s)) ;;
  s ← getS;
  whenS (s_delegateRefundSetDirty s) commitDelegateRefundSet ;;
  whenS (s_rewardSetDirty s) commitRewardSet ;;
  whenS (s_candidateSetDirty s) commitCandidateSet ;;
  whenS (s_bannedSetDirty s) commitBannedSet ;;
  whenS (s_sideChainRewardPerBlockDirty s) commitSideChainRewardPerBlock ;;
  clearJournalAndRefund.

Definition IntermediateRoot (deleteEmptyObjects : bool) : SM bytes :=
  Finalise deleteEmptyObjects ;;
  s ← getS;
  mret (trie_Hash (s_trie s)).

Definition DeleteSuicides : SM unit :=
  clearJournalAndRefund ;;
  s ← getS;
  forS (fun addr =>
    o ← deref addr;
    whenS (so_suicided o) (putObject addr (set_so_deleted o true)) ;;
    modifyS (fun s => set_s_stateObjectsDirty s (s_stateObjectsDirty s ∖ {[addr]})))
    (elements (s_stateObjectsDirty s)).

(** ** Commit: the tries of an object, one after the other.  Each is flushed
    and written to the database unless the object met an error. *)
Definition commitWith (upd : DB -> stateObject -> outcome (stateObject * trie))
    (store : stateObject -> trie -> bytes -> stateObject) (addr : bytes) : SM (option string) :=
  t ← through addr upd;
  o ← deref addr;
  match so_dbErr o with
  | Some e => mret (Some e)
  | None =>
    s ← getS;
    match trie_Commit t (s_db s) with
    | Err e => mret (Some e)
    | Ok (t', db', root) =>
      modifyS (fun s => set_s_db s db') ;;
      putObject addr (store o t' root) ;;
      mret None
    end
  end.

Definition CommitTrie : bytes -> SM (option string) :=
  commitWith updateTrie (fun o t r => set_so_data (set_so_trie o (Some t)) (set_acc_Root (so_data o) r)).
Definition CommitTX1Trie : bytes -> SM (option string) :=
  commitWith updateTX1Trie
    (fun o t r => set_so_data (set_so_tx1Trie o (Some t)) (set_acc_TX1Root (so_data o) r)).
Definition CommitTX3Trie : bytes -> SM (option string) :=
  commitWith updateTX3Trie
    (fun o t r => set_so_data (set_so_tx3Trie o (Some t)) (set_acc_TX3Root (so_data o) r)).
Definition CommitProxiedTrie : bytes -> SM (option string) :=
  commitWith updateProxiedTrie
    (fun o t r => set_so_data (set_so_proxiedTrie o (Some t)) (set_acc_ProxiedRoot (so_data o) r)).
Definition CommitRewardTrie : bytes -> SM (option string) :=
  commitWith updateRewardTrie
    (fun o t r => set_so_data (set_so_rewardTrie o (Some t)) (set_acc_RewardRoot (so_data o) r)).

(** Steps that stop at the first error. *)
Definition andThen (m k : SM (option string)) : SM (option string) :=
  r ← m;
  match r with Some e => mret (Some e) | None => k end.
Definition noError (m : SM unit) : SM (option string) := m ;; mret None.
Fixpoint forE {A} (f : A -> SM (option string)) (l : list A) : SM (option string) :=
  match l with
  | [] => mret None
  | a :: l' => andThen (f a) (forE f l')
  end.

Definition commitCode (addr : bytes) : SM unit :=
  o ← deref addr;
  match so_code o with
  | Some code =>
    whenS (so_dirtyCode o) (
      modifyS (fun s => set_s_db s (InsertBlob (s_db s) (BytesToHash (acc_CodeHash (so_data o))) code)) ;;
      putObject addr (set_so_dirtyCode o false))
  | None => mret tt
  end.

Definition commitObject (deleteEmptyObjects : bool) (addr : bytes) : SM (option string) :=
  s ← getS;
  o ← deref addr;
  let isDirty := bool_decide (addr ∈ s_stateObjectsDirty s) in
  andThen
    (if so_suicided o || (isDirty && deleteEmptyObjects && so_empty o) then noError (deleteStateObject addr)
     else if isDirty then
       commitCode addr ;;
       andThen (CommitTrie addr) (andThen (CommitTX1Trie addr) (andThen (CommitTX3Trie addr)
         (andThen (CommitProxiedTrie addr) (andThen (CommitRewardTrie addr)
           (noError (o ← deref addr; updateStateObject o))))))
     else mret None)
    (noError (modifyS (fun s => set_s_stateObjectsDirty s (s_stateObjectsDirty s ∖ {[addr]})))).

Definition commitDirtySet (n : setName) : SM unit :=
  s ← getS;
  whenS (sdirty n s) (commitSet n ;; modifyS (set_sdirty n false)).

(** The references the trie database counts for its garbage collection are not
    modelled. *)
Definition commitBody (deleteEmptyObjects : bool) : SM (result string bytes) :=
  s ← getS;
  err ← forE (commitObject deleteEmptyObjects) (fst <$> map_to_list (s_stateObjects s));
  match err with
  | Some e => mret (Err e)
  | None =>
    commitDirtySet DelegateRefundSet ;;
    commitDirtySet RewardSet ;;
    commitDirtySet CandidateSet ;;
    commitDirtySet BannedSet ;;
    s ← getS;
    whenS (s_sideChainRewardPerBlockDirty s)
      (commitSideChainRewardPerBlock ;; modifyS (fun s => set_s_sideChainRewardPerBlockDirty s false)) ;;
    s ← getS;
    match trie_Commit (s_trie s) (s_db s) with
    | Err e => mret (Err e)
    | Ok (t, db, root) => modifyS (fun s => set_s_db (set_s_trie s t) db) ;; mret (Ok root)
    end
  end.

Definition Commit (deleteEmptyObjects : bool) : SM (result string bytes) :=
  r ← commitBody deleteEmptyObjects;
  clearJournalAndRefund ;;
  mret r.

(** ** Opening, resetting, copying *)
Definition freshState (db : DB) (tr : trie) : StateDB :=
     {| s_db := db; s_trie := tr; s_stateObjects := ∅; s_stateObjectsDirty := ∅;
        s_delegateRefundSet := Some ∅; s_delegateRefundSetDirty := false;
        s_rewardSet := Some ∅; s_rewardSetDirty := false;
        s_candidateSet := Some ∅; s_candidateSetDirty := false;
        s_bannedSet := Some ∅; s_bannedSetDirty := false;
        s_sideChainRewardPerBlock := None; s_sideChainRewardPerBlockDirty := false;
        s_dbErr := None; s_refund := 0; s_thash := zeroHash; s_bhash := zeroHash; s_txIndex := 0;
        s_logs := ∅; s_logSize := 0; s_preimages := ∅; s_journal := []; s_validRevisions := [];
        s_nextRevisionId := 0 |}.

Definition New (root : bytes) (db : DB) : result string StateDB :=
  tr ← NewSecure db root;
  Ok (freshState db tr).

(** The dirty flags of the sets, the error and the revision counter stay. *)
Definition Reset (root : bytes) : SM (option string) :=
  s ← getS;
  match NewSecure (s_db s) root with
  | Err e => mret (Some e)
  | Ok tr =>
    modifyS (fun s =>
      {| s_db := s_db s; s_trie := tr; s_stateObjects := ∅; s_stateObjectsDirty := ∅;
         s_delegateRefundSet := Some ∅; s_delegateRefundSetDirty := s_delegateRefundSetDirty s;
         s_rewardSet := Some ∅; s_rewardSetDirty := s_rewardSetDirty s;
         s_candidateSet := Some ∅; s_candidateSetDirty := s_candidateSetDirty s;
         s_bannedSet := Some ∅; s_bannedSetDirty := s_bannedSetDirty s;
         s_sideChainRewardPerBlock := None;
         s_sideChainRewardPerBlockDirty := s_sideChainRewardPerBlockDirty s;
         s_dbErr := s_dbErr s; s_refund := s_refund s; s_thash := zeroHash; s_bhash := zeroHash;
         s_txIndex := 0; s_logs := ∅; s_logSize := 0; s_preimages := ∅; s_journal := s_journal s;
         s_validRevisions := s_validRevisions s; s_nextRevisionId := s_nextRevisionId s |}) ;;
    clearJournalAndRefund ;;
    mret None
  end.

Fixpoint copyObjects (s : StateDB) (addrs : list bytes) : outcome (gmap bytes stateObject) :=
  match addrs with
  | [] => Ret ∅
  | a :: addrs =>
    match s_stateObjects s !! a with
    | None => Panic "nil pointer dereference"
    | Some o => c ← deepCopy o true; m ← copyObjects s addrs; Ret (<[a := c]> m)
    end
  end.

(** The copy holds the dirty objects only. *)
Definition Copy (s : StateDB) : outcome StateDB :=
  objs ← copyObjects s (elements (s_stateObjectsDirty s));
  Ret {| s_db := s_db s; s_trie := s_trie s; s_stateObjects := objs;
         s_stateObjectsDirty := s_stateObjectsDirty s;
         s_delegateRefundSet := Some (members (s_delegateRefundSet s));
         s_delegateRefundSetDirty := s_delegateRefundSetDirty s;
         s_rewardSet := Some (members (s_rewardSet s)); s_rewardSetDirty := s_rewardSetDirty s;
         s_candidateSet := Some (members (s_candidateSet s));
         s_candidateSetDirty := s_candidateSetDirty s;
         s_bannedSet := Some (members (s_bannedSet s)); s_bannedSetDirty := s_bannedSetDirty s;
         s_sideChainRewardPerBlock := s_sideChainRewardPerBlock s;
         s_sideChainRewardPerBlockDirty := s_sideChainRewardPerBlockDirty s;
         s_dbErr := None; s_refund := s_refund s; s_thash := zeroHash; s_bhash := zeroHash;
         s_txIndex := 0; s_logs := s_logs s; s_logSize := s_logSize s; s_preimages := s_preimages s;
         s_journal := []; s_validRevisions := []; s_nextRevisionId := 0 |}.

(** ** Iterating over the tries of an account *)

(** A dirty entry replaces the stored one; the callback's answer is ignored.
    The variables the callback changes are threaded. *)
Definition ForEachProxied {A} (addr : bytes) (cb : A -> bytes -> Z -> Z -> Z -> SM A) (acc : A) : SM A :=
  query addr acc (
    t ← through addr getProxiedTrie;
    foldS (fun acc (kv : bytes * bytes) =>
      let key := BytesToHash (fst kv) in
      o ← deref addr;
      match so_dirtyProxied o !! key with
      | Some (Some v) => cb acc key (apb_ProxiedBalance v) (apb_DepositProxiedBalance v) (apb_PendingRefundBalance v)
      | Some None => panicS "nil pointer dereference"
      | None =>
        match DecodeBytes TProxied (snd kv) with
        | Err _ => panicS "undecodable value"
        | Ok r => let v := apb_of r in
                  cb acc key (apb_ProxiedBalance v) (apb_DepositProxiedBalance v) (apb_PendingRefundBalance v)
        end
      end) acc (trie_leaves t)).

(** The keys of the reward trie are encoded addresses; an error leaves zeros. *)
Definition ForEachReward (addr : bytes) (cb : bytes -> option Z -> SM unit) : SM unit :=
  query addr tt (
    t ← through addr getRewardTrie;
    forS (fun kv : bytes * bytes =>
      let key := match DecodeBytes THash (fst kv) with Ok k => k | Err _ => zeroHash end in
      o ← deref addr;
      match so_dirtyReward o !! key with
      | Some v => cb key v
      | None => cb key (Some (fst (DecodeBig (snd kv))))
      end) (trie_leaves t)).

(** The map it fills is nil: the first key it meets panics. *)
Definition GetDelegateRewardAddress (addr : bytes) : SM (gset bytes) :=
  query addr ∅ (
    t ← through addr getRewardTrie;
    o ← deref addr;
    if negb (bool_decide (trie_leaves t = [])) || negb (bool_decide (so_dirtyReward o = ∅))
       || negb (bool_decide (so_originReward o = ∅))
    then panicS "assignment to entry in nil map"
    else mret ∅).

Definition forEachTX (t : trie) (cb : bytes -> SM bool) : SM unit :=
  (fix go (l : list (bytes * bytes)) : SM unit :=
     match l with
     | [] => mret tt
     | kv :: l => b ← cb (BytesToHash (fst kv)); if (b : bool) then go l else mret tt
     end) (trie_leaves t).
Definition ForEachTX1 (addr : bytes) (cb : bytes -> SM bool) : SM unit :=
  query addr tt (t ← through addr getTX1Trie; forEachTX t cb).
Definition ForEachTX3 (addr : bytes) (cb : bytes -> SM bool) : SM unit :=
  query addr tt (t ← through addr getTX3Trie; forEachTX t cb).

End StateDB.

(** ** Code that changes the state and returns a value or an error *)
Abbreviation EM A := (SM (result string A)).

Section Errors.
Context {L : TrieLib}.

Definition ok_ {A} (x : A) : EM A := mret (Ok x).
Definition fail_ {A} (e : string) : EM A := mret (Err e).
Definition try_ {A B} (m : EM A) (k : A -> EM B) : EM B :=
  r ← m; match r with Ok x => k x | Err e => fail_ e end.
Definition check (b : bool) (e : string) {B} (k : EM B) : EM B := if b then fail_ e else k.

End Errors.

Notation "x <~ m ; k" := (try_ m (fun x => k)) (at level 20, m at level 100, k at level 200, right associativity).
