(* ===== verification/StateObs.v ===== *)
(** * What can be observed of the state database

    The values the getters of a state object and of the database return, as
    functions of the state without its caches, and the equivalence of states
    that agree on all of them.  Reading changes the caches only, so it keeps the
    equivalence class. *)
From S2P Require Import Prelude Rlp StateData StateDB.
Local Open Scope Z_scope.

Lemma length_BytesToHash b : length (BytesToHash b) = HashLength.
Proof.
  unfold BytesToHash. rewrite length_app, length_replicate, length_drop. unfold HashLength. lia.
Qed.

(** The deposit of a side chain in a list of deposits. *)
Definition side_lookup (l : list sideChainDepositBalance) (c : bytes) : Z :=
  match list_find (fun b => sc_ChainId b = c) l with
  | Some (_, b) => sc_DepositBalance b
  | None => 0
  end.

Definition side_set (v : Z) (b : sideChainDepositBalance) : sideChainDepositBalance :=
  {| sc_ChainId := sc_ChainId b; sc_DepositBalance := v |}.

Lemma side_lookup_cons b l c :
  side_lookup (b :: l) c = if bool_decide (sc_ChainId b = c) then sc_DepositBalance b else side_lookup l c.
Proof.
  unfold side_lookup. simpl. case_decide; case_bool_decide; try done.
  destruct (list_find _ l) as [[i x]|]; done.
Qed.

Lemma side_index_cons b l c :
  side_index (b :: l) c =
  if bool_decide (sc_ChainId b = c) then (b :: l, O)
  else (b :: fst (side_index l c), S (snd (side_index l c))).
Proof.
  unfold side_index. simpl. case_decide; case_bool_decide; try done.
  destruct (list_find _ l) as [[i x]|]; done.
Qed.

(** Finding the entry of a chain changes no deposit; setting it changes one. *)
Lemma side_index_lookup l c c' : side_lookup (fst (side_index l c)) c' = side_lookup l c'.
Proof.
  induction l as [|b l IH].
  - unfold side_lookup. simpl. case_decide; done.
  - rewrite side_index_cons. case_bool_decide; [done|]. cbn [fst].
    rewrite !side_lookup_cons, IH. done.
Qed.

Lemma side_index_set l c v c' :
  side_lookup (alter (side_set v) (snd (side_index l c)) (fst (side_index l c))) c' =
  if bool_decide (c = c') then v else side_lookup l c'.
Proof.
  induction l as [|b l IH].
  - unfold side_lookup. simpl. case_decide; case_bool_decide; done.
  - rewrite side_index_cons. destruct (bool_decide (sc_ChainId b = c)) eqn:E; cbn [fst snd alter list_alter].
    + apply bool_decide_eq_true in E. rewrite !side_lookup_cons. simpl. rewrite E.
      repeat case_bool_decide; congruence.
    + apply bool_decide_eq_false in E. change (list_alter ?f ?i ?k) with (alter f i k).
      rewrite !side_lookup_cons, IH. repeat case_bool_decide; congruence.
Qed.

Lemma side_index_get l c :
  exists b, fst (side_index l c) !! snd (side_index l c) = Some b /\ sc_DepositBalance b = side_lookup l c.
Proof.
  induction l as [|b l IH].
  - eexists. split; [reflexivity|done].
  - rewrite side_index_cons, side_lookup_cons. case_bool_decide; [exists b; done|]. exact IH.
Qed.

Section Obs.
Context {L : TrieLib}.

(** ** Observations of an object *)
Inductive oquery :=
  | QData | QSide (chainId : bytes) | QCode | QStorage (key : bytes) | QCommitted (key : bytes)
  | QProxied (user : bytes) | QReward (user : bytes) | QTX1 (txHash : bytes) | QTX3 (txHash : bytes)
  | QStoredTX1 (txHash : bytes) | QStoredTX3 (txHash : bytes) | QSuicided.

#[export] Instance oquery_eq_dec : EqDecision oquery.
Proof. solve_decision. Defined.

(** [None] is a panic. *)
Inductive ovalue :=
  | VData (a : Account) | VZ (z : Z) | VCode (c : option bytes) | VBytes (b : option bytes)
  | VProxied (v : option (option accountProxiedBalance)) | VReward (v : option (option Z))
  | VBool (b : option bool).

Definition open_pure (db : DB) (cached : option trie) (root : bytes) : option trie :=
  match cached with
  | Some t => Some t
  | None =>
    match NewSecure db root with
    | Ok t => Some t
    | Err _ => match NewSecure db zeroHash with Ok t => Some t | Err _ => None end
    end
  end.

Definition stored_value (t : trie) (key : bytes) : bytes :=
  match TryGet t key with
  | Err _ | Ok [] => zeroHash
  | Ok enc => match Split enc with Ok (_, content, _) => BytesToHash content | Err _ => BytesToHash [] end
  end.

Definition committed_of (db : DB) (o : stateObject) (key : bytes) : option bytes :=
  match so_originStorage o !! key with
  | Some v => Some v
  | None => t ← open_pure db (so_trie o) (acc_Root (so_data o)); Some (stored_value t key)
  end.

Definition storage_of (db : DB) (o : stateObject) (key : bytes) : option bytes :=
  match so_dirtyStorage o !! key with
  | Some v => Some v
  | None => committed_of db o key
  end.

Definition stored_proxied (t : trie) (key : bytes) : option (option accountProxiedBalance) :=
  match TryGet t key with
  | Err _ | Ok [] => Some None
  | Ok enc => match DecodeBytes TProxied enc with Ok r => Some (Some (apb_of r)) | Err _ => None end
  end.

Definition proxied_of (db : DB) (o : stateObject) (key : bytes) : option (option accountProxiedBalance) :=
  match so_dirtyProxied o !! key with
  | Some v => Some v
  | None =>
    match so_originProxied o !! key with
    | Some v => Some v
    | None => t ← open_pure db (so_proxiedTrie o) (acc_ProxiedRoot (so_data o)); stored_proxied t key
    end
  end.

Definition stored_reward (t : trie) (key : bytes) : option Z :=
  match TryGet t key with
  | Err _ | Ok [] => None
  | Ok enc => Some (fst (DecodeBig enc))
  end.

Definition reward_of (db : DB) (o : stateObject) (key : bytes) : option (option Z) :=
  match so_dirtyReward o !! key with
  | Some v => Some v
  | None =>
    match so_originReward o !! key with
    | Some v => Some v
    | None =>
      match EncodeIgnore THash key with
      | Ret k => t ← open_pure db (so_rewardTrie o) (acc_RewardRoot (so_data o)); Some (stored_reward t k)
      | Panic _ => None
      end
    end
  end.

Definition stored_tx1 (db : DB) (o : stateObject) (h : bytes) : option bool :=
  t ← open_pure db (so_tx1Trie o) (acc_TX1Root (so_data o)); Some (fst (tx_in_trie t h)).
Definition tx1_of (db : DB) (o : stateObject) (h : bytes) : option bool :=
  if bool_decide (h ∈ so_dirtyTX1 o) then Some true else stored_tx1 db o h.

Definition stored_tx3 (db : DB) (o : stateObject) (h : bytes) : option bool :=
  t ← open_pure db (so_tx3Trie o) (acc_TX3Root (so_data o)); Some (fst (tx_in_trie t h)).
Definition tx3_of (db : DB) (o : stateObject) (h : bytes) : option bool :=
  if bool_decide (h ∈ so_dirtyTX3 o) then Some true else stored_tx3 db o h.

Definition code_of (db : DB) (o : stateObject) : option bytes :=
  match so_code o with
  | Some c => Some c
  | None =>
    if bool_decide (acc_CodeHash (so_data o) = emptyCodeHash) then None
    else match ContractCode db (BytesToHash (acc_CodeHash (so_data o))) with Ok c => Some c | Err _ => None end
  end.

(** The account without the list of side-chain deposits, which is observed
    through its lookups. *)
Definition erase (a : Account) : Account := set_acc_SideChainDepositBalance a [].

Definition obs (db : DB) (o : stateObject) (q : oquery) : ovalue :=
  match q with
  | QData => VData (erase (so_data o))
  | QSide c => VZ (side_lookup (acc_SideChainDepositBalance (so_data o)) c)
  | QCode => VCode (code_of db o)
  | QStorage k => VBytes (storage_of db o k)
  | QCommitted k => VBytes (committed_of db o k)
  | QProxied u => VProxied (proxied_of db o u)
  | QReward u => VReward (reward_of db o u)
  | QTX1 h => VBool (tx1_of db o h)
  | QTX3 h => VBool (tx3_of db o h)
  | QStoredTX1 h => VBool (stored_tx1 db o h)
  | QStoredTX3 h => VBool (stored_tx3 db o h)
  | QSuicided => VBool (Some (so_suicided o))
  end.

Definition obj_eqv (db : DB) (o o' : stateObject) : Prop := forall q, obs db o q = obs db o' q.

#[export] Instance obj_eqv_equiv db : Equivalence (obj_eqv db).
Proof.
  split.
  - intros o q. done.
  - intros o o' H q. done.
  - intros o1 o2 o3 H1 H2 q. rewrite H1. done.
Qed.

(** An object that differs from another by its caches only. *)
Definition cached (db : DB) (o o' : stateObject) : Prop :=
  obj_eqv db o' o /\ so_address o' = so_address o /\ so_deleted o' = so_deleted o
  /\ so_data o' = so_data o.

Lemma cached_refl db o : cached db o o.
Proof. unfold cached. split_and!; done. Qed.

Lemma cached_trans db o1 o2 o3 : cached db o1 o2 -> cached db o2 o3 -> cached db o1 o3.
Proof.
  intros (E1 & ? & ? & ?) (E2 & ? & ? & ?). split; [|split_and!; congruence].
  intros q. rewrite E2. apply E1.
Qed.

Lemma cached_setError db o e : cached db o (so_setError o e).
Proof. unfold so_setError. destruct (so_dbErr o) eqn:E; unfold cached; split_and!; try done; intros []; done. Qed.

(** ** Reading an object changes its caches only and returns the observation *)

Lemma openTrie_pure msg db c root :
  match openTrie msg db c root with
  | Ret (t, _) => open_pure db c root = Some t
  | Panic _ => open_pure db c root = None
  end.
Proof.
  unfold openTrie, open_pure. destruct c; [done|]. destruct (NewSecure db root); [done|].
  destruct (NewSecure db zeroHash); done.
Qed.

(** The common shape of the five trie getters. *)
Ltac open_trie :=
  match goal with |- context [openTrie ?m ?db ?c ?r] =>
    let H := fresh "Hopen" in
    pose proof (openTrie_pure m db c r) as H; destruct (openTrie m db c r) as [[? ?]|]
  end.

Definition reads_trie (db : DB) (get : DB -> stateObject -> outcome (stateObject * trie))
    (pure : stateObject -> option trie) : Prop :=
  forall o, match get db o with
            | Ret (o', t) => pure o = Some t /\ cached db o o'
            | Panic _ => pure o = None
            end.

Ltac solve_cached :=
  unfold cached; split_and!; try done; intros []; try done;
  cbn; unfold storage_of, committed_of, proxied_of, reward_of, tx1_of, tx3_of, stored_tx1, stored_tx3; cbn;
  repeat match goal with H : open_pure _ _ _ = Some _ |- _ => rewrite H; clear H end; done.

Lemma getTrie_reads db : reads_trie db getTrie (fun o => open_pure db (so_trie o) (acc_Root (so_data o))).
Proof.
  intros o. unfold getTrie. open_trie; [|done]. cbn. split; [done|].
  eapply cached_trans, cached_setError. solve_cached.
Qed.
Lemma getTX1Trie_reads db :
  reads_trie db getTX1Trie (fun o => open_pure db (so_tx1Trie o) (acc_TX1Root (so_data o))).
Proof.
  intros o. unfold getTX1Trie. open_trie; [|done]. cbn. split; [done|].
  eapply cached_trans, cached_setError. solve_cached.
Qed.
Lemma getTX3Trie_reads db :
  reads_trie db getTX3Trie (fun o => open_pure db (so_tx3Trie o) (acc_TX3Root (so_data o))).
Proof.
  intros o. unfold getTX3Trie. open_trie; [|done]. cbn. split; [done|].
  eapply cached_trans, cached_setError. solve_cached.
Qed.
Lemma getProxiedTrie_reads db :
  reads_trie db getProxiedTrie (fun o => open_pure db (so_proxiedTrie o) (acc_ProxiedRoot (so_data o))).
Proof.
  intros o. unfold getProxiedTrie. open_trie; [|done]. cbn. split; [done|].
  eapply cached_trans, cached_setError. solve_cached.
Qed.
Lemma getRewardTrie_reads db :
  reads_trie db getRewardTrie (fun o => open_pure db (so_rewardTrie o) (acc_RewardRoot (so_data o))).
Proof.
  intros o. unfold getRewardTrie. open_trie; [|done]. cbn. split; [done|].
  eapply cached_trans, cached_setError. solve_cached.
Qed.

(** [f] returns the observation [pure] and changes the caches only. *)
Definition reads_value {A} (db : DB) (f : DB -> stateObject -> outcome (stateObject * A))
    (pure : stateObject -> option A) : Prop :=
  forall o, match f db o with
            | Ret (o', v) => pure o = Some v /\ cached db o o'
            | Panic _ => pure o = None
            end.

(** Caching what would be read again. *)
Lemma cached_originStorage db o k v :
  committed_of db o k = Some v ->
  cached db o (set_so_originStorage o (<[k := v]> (so_originStorage o))).
Proof.
  intros Hv. unfold cached. split_and!; try done. intros []; try done; cbn.
  all: unfold storage_of; cbn; try destruct (so_dirtyStorage o !! key); try done.
  all: f_equal; unfold committed_of at 1; cbn; rewrite lookup_insert; case_decide; [congruence|done].
Qed.

Lemma cached_originProxied db o k v :
  proxied_of db o k = Some v -> so_dirtyProxied o !! k = None ->
  cached db o (set_so_originProxied o (<[k := v]> (so_originProxied o))).
Proof.
  intros Hv Hd. unfold cached. split_and!; try done. intros []; try done; cbn. f_equal.
  unfold proxied_of at 1. cbn. rewrite lookup_insert. case_decide; [|done]. subst. rewrite Hd. done.
Qed.

Lemma cached_originReward db o k v :
  reward_of db o k = Some v -> so_dirtyReward o !! k = None ->
  cached db o (set_so_originReward o (<[k := v]> (so_originReward o))).
Proof.
  intros Hv Hd. unfold cached. split_and!; try done. intros []; try done; cbn. f_equal.
  unfold reward_of at 1. cbn. rewrite lookup_insert. case_decide; [|done]. subst. rewrite Hd. done.
Qed.

(** What an observation says of an object with other caches. *)
Lemma cached_committed db o o' k : cached db o o' -> committed_of db o' k = committed_of db o k.
Proof. intros [H _]. specialize (H (QCommitted k)). by simplify_eq/=. Qed.
Lemma cached_proxied db o o' k : cached db o o' -> proxied_of db o' k = proxied_of db o k.
Proof. intros [H _]. specialize (H (QProxied k)). by simplify_eq/=. Qed.
Lemma cached_reward db o o' k : cached db o o' -> reward_of db o' k = reward_of db o k.
Proof. intros [H _]. specialize (H (QReward k)). by simplify_eq/=. Qed.

Lemma GetCommittedState_reads db k :
  reads_value db (fun db o => GetCommittedState db o k) (fun o => committed_of db o k).
Proof.
  intros o. unfold GetCommittedState.
  destruct (so_originStorage o !! k) as [v|] eqn:Ho.
  { split; [unfold committed_of; rewrite Ho; done|apply cached_refl]. }
  pose proof (getTrie_reads db o) as Ht. destruct (getTrie db o) as [[o1 t]|]; cbn.
  2: { unfold committed_of. rewrite Ho, Ht. done. }
  destruct Ht as [Ht Hc].
  assert (committed_of db o k = Some (stored_value t k)) as Hv.
  { unfold committed_of. rewrite Ho, Ht. done. }
  unfold stored_value in Hv. destruct (TryGet t k) as [[|b enc]|e].
  3: { split; [done|]. eapply cached_trans, cached_setError. done. }
  - split; [done|]. eapply cached_trans; [done|]. apply cached_originStorage.
    rewrite (cached_committed _ _ _ _ Hc). done.
  - destruct (Split (b :: enc)) as [[[kd content] rest]|e]; (split; [done|]).
    + eapply cached_trans; [done|]. apply cached_originStorage. rewrite (cached_committed _ _ _ _ Hc). done.
    + eapply cached_trans; [done|]. eapply cached_trans; [apply (cached_setError _ _ (Some "rlp"%string))|].
      apply cached_originStorage. rewrite (cached_committed _ _ _ _ (cached_setError _ _ _)),
        (cached_committed _ _ _ _ Hc). done.
Qed.

Lemma so_GetState_reads db k :
  reads_value db (fun db o => so_GetState db o k) (fun o => storage_of db o k).
Proof.
  intros o. unfold so_GetState, storage_of. destruct (so_dirtyStorage o !! k) as [v|].
  - split; [done|apply cached_refl].
  - apply GetCommittedState_reads.
Qed.

(** Opening a trie leaves the delegated balances in the caches as they are. *)
Lemma getProxiedTrie_dirty db o o' t :
  getProxiedTrie db o = Ret (o', t) -> so_dirtyProxied o' = so_dirtyProxied o.
Proof.
  unfold getProxiedTrie. destruct (openTrie _ _ _ _) as [[t' e]|]; [|done]. cbn. intros [= <- _].
  unfold so_setError. cbn. destruct (so_dbErr o); done.
Qed.
Lemma getRewardTrie_dirty db o o' t :
  getRewardTrie db o = Ret (o', t) -> so_dirtyReward o' = so_dirtyReward o.
Proof.
  unfold getRewardTrie. destruct (openTrie _ _ _ _) as [[t' e]|]; [|done]. cbn. intros [= <- _].
  unfold so_setError. cbn. destruct (so_dbErr o); done.
Qed.
Lemma setError_dirtyReward o e : so_dirtyReward (so_setError o e) = so_dirtyReward o.
Proof. unfold so_setError. destruct (so_dbErr o); done. Qed.

Lemma GetAccountProxiedBalance_reads db k :
  reads_value db (fun db o => GetAccountProxiedBalance db o k) (fun o => proxied_of db o k).
Proof.
  intros o. unfold GetAccountProxiedBalance.
  destruct (so_dirtyProxied o !! k) as [v|] eqn:Hd.
  { split; [unfold proxied_of; rewrite Hd; done|apply cached_refl]. }
  destruct (so_originProxied o !! k) as [v|] eqn:Ho.
  { split; [unfold proxied_of; rewrite Hd, Ho; done|apply cached_refl]. }
  pose proof (getProxiedTrie_reads db o) as Ht. destruct (getProxiedTrie db o) as [[o1 t]|] eqn:Eg; cbn.
  2: { unfold proxied_of. rewrite Hd, Ho, Ht. done. }
  destruct Ht as [Ht Hc]. apply getProxiedTrie_dirty in Eg.
  assert (proxied_of db o k = stored_proxied t k) as Hv.
  { unfold proxied_of. rewrite Hd, Ho, Ht. done. }
  assert (forall v, stored_proxied t k = Some v -> proxied_of db o k = Some v /\
    cached db o (set_so_originProxied o1 (<[k := v]> (so_originProxied o1)))) as Hins.
  { intros v Hs. split; [congruence|]. eapply cached_trans; [done|]. apply cached_originProxied; [|congruence].
    rewrite (cached_proxied _ _ _ _ Hc). congruence. }
  unfold stored_proxied in *. destruct (TryGet t k) as [[|b enc]|e]; cbn.
  3: { split; [done|]. eapply cached_trans, cached_setError. done. }
  - apply Hins. done.
  - destruct (DecodeBytes TProxied (b :: enc)); [apply Hins; done|done].
Qed.

Lemma GetDelegateRewardBalance_reads db k :
  reads_value db (fun db o => GetDelegateRewardBalance db o k) (fun o => reward_of db o k).
Proof.
  intros o. unfold GetDelegateRewardBalance.
  destruct (so_dirtyReward o !! k) as [v|] eqn:Hd.
  { split; [unfold reward_of; rewrite Hd; done|apply cached_refl]. }
  destruct (so_originReward o !! k) as [v|] eqn:Ho.
  { split; [unfold reward_of; rewrite Hd, Ho; done|apply cached_refl]. }
  destruct (EncodeIgnore THash k) as [ek|] eqn:Ek; cbn.
  2: { unfold reward_of. rewrite Hd, Ho, Ek. done. }
  pose proof (getRewardTrie_reads db o) as Ht. destruct (getRewardTrie db o) as [[o1 t]|] eqn:Eg; cbn.
  2: { unfold reward_of. rewrite Hd, Ho, Ek, Ht. done. }
  destruct Ht as [Ht Hc]. apply getRewardTrie_dirty in Eg.
  assert (reward_of db o k = Some (stored_reward t ek)) as Hv.
  { unfold reward_of. rewrite Hd, Ho, Ek, Ht. done. }
  assert (forall o2, cached db o1 o2 -> so_dirtyReward o2 = so_dirtyReward o1 ->
    cached db o (set_so_originReward o2 (<[k := stored_reward t ek]> (so_originReward o2)))) as Hins.
  { intros o2 H2 Hd2. eapply cached_trans; [done|]. eapply cached_trans; [done|].
    apply cached_originReward; [|congruence].
    rewrite (cached_reward _ _ _ _ H2), (cached_reward _ _ _ _ Hc). done. }
  unfold stored_reward in *. destruct (TryGet t ek) as [[|b enc]|e]; cbn.
  3: { split; [done|]. eapply cached_trans, cached_setError. done. }
  - split; [done|]. apply Hins; [apply cached_refl|done].
  - destruct (DecodeBig (b :: enc)) as [v err]. split; [done|].
    apply Hins; [apply cached_setError|apply setError_dirtyReward].
Qed.

Lemma so_HasTX1_reads db h : reads_value db (fun db o => so_HasTX1 db o h) (fun o => tx1_of db o h).
Proof.
  intros o. unfold so_HasTX1, tx1_of, stored_tx1. case_bool_decide; [split; [done|apply cached_refl]|].
  pose proof (getTX1Trie_reads db o) as Ht. destruct (getTX1Trie db o) as [[o1 t]|]; cbn.
  2: { rewrite Ht. done. }
  destruct Ht as [-> Hc]. cbn. destruct (tx_in_trie t h) as [r err]. split; [done|].
  eapply cached_trans, cached_setError. done.
Qed.
Lemma so_HasTX3_reads db h : reads_value db (fun db o => so_HasTX3 db o h) (fun o => tx3_of db o h).
Proof.
  intros o. unfold so_HasTX3, tx3_of, stored_tx3. case_bool_decide; [split; [done|apply cached_refl]|].
  pose proof (getTX3Trie_reads db o) as Ht. destruct (getTX3Trie db o) as [[o1 t]|]; cbn.
  2: { rewrite Ht. done. }
  destruct Ht as [-> Hc]. cbn. destruct (tx_in_trie t h) as [r err]. split; [done|].
  eapply cached_trans, cached_setError. done.
Qed.

Lemma cached_noCode db o : so_code o = None -> cached db o (set_so_code o None).
Proof.
  intros Ec. unfold cached. split_and!; try done. intros []; try done. cbn [obs]. f_equal.
  unfold code_of. rewrite Ec. done.
Qed.

Lemma so_Code_reads db : reads_value db (fun db o => Ret (so_Code db o)) (fun o => Some (code_of db o)).
Proof.
  intros o. unfold so_Code, code_of. destruct (so_code o) as [c|] eqn:Ec; [split; [done|apply cached_refl]|].
  destruct (bool_decide (acc_CodeHash (so_data o) = emptyCodeHash)) eqn:Eb; [split; [done|apply cached_refl]|].
  destruct (ContractCode db _) as [c|e] eqn:Eh; (split; [done|]).
  - unfold cached. split_and!; try done. intros []; try done. cbn [obs]. f_equal.
    unfold code_of. rewrite Ec, Eb, Eh. done.
  - eapply cached_trans; [apply (cached_setError _ _ (Some "can't load code"%string))|].
    apply cached_noCode. unfold so_setError. destruct (so_dbErr o); done.
Qed.

(** ** Observations of the database *)

(** The object getStateObject finds. *)
Definition view (s : StateDB) (a : bytes) : option stateObject :=
  match s_stateObjects s !! a with
  | Some o => if so_deleted o then None else Some o
  | None => (fun d => newObject a d false true) <$> loadAccount (s_trie s) a
  end.

Definition sobs (s : StateDB) (a : bytes) (q : oquery) : option ovalue :=
  (fun o => obs (s_db s) o q) <$> view s a.

(** States that agree on the accounts and on what the journal also covers. *)
Definition eqv (s t : StateDB) : Prop :=
  s_db s = s_db t /\ s_trie s = s_trie t /\ s_refund s = s_refund t /\ s_logs s = s_logs t
  /\ s_logSize s = s_logSize t /\ s_preimages s = s_preimages t
  /\ forall a q, sobs s a q = sobs t a q.

#[export] Instance eqv_equiv : Equivalence eqv.
Proof.
  split.
  - intros s. unfold eqv. split_and!; done.
  - intros s t (? & ? & ? & ? & ? & ? & H). unfold eqv. split_and!; congruence.
  - intros s t u (? & ? & ? & ? & ? & ? & E1) (? & ? & ? & ? & ? & ? & E2).
    unfold eqv. split_and!; congruence.
Qed.

End Obs.
