(* ===== verification/StateRevert.v ===== *)
(** * Reverting to a snapshot

    Any client of the state database (chain/core/state) that goes through its
    interface, with nested snapshots of its own, can be undone: after
    RevertToSnapshot every getter answers what it answered when the snapshot was
    taken.  The proof follows the journal: an operation that succeeds appends
    entries, and undoing these from any equivalent state leads back. *)
From S2P Require Import Prelude Rlp StateData StateDB StateObs.
Local Open Scope Z_scope.

Section Revert.
Context {L : TrieLib}.

(** ** Well-formed states *)
Definition owf (a : bytes) (o : stateObject) : Prop :=
  so_address o = a /\ length (acc_CodeHash (so_data o)) = HashLength.

(** Revisions are numbered in increasing order, below the next number. *)
Definition revs_wf (revs : list revision) (next : Z) : Prop :=
  (forall i j ri rj, (i < j)%nat -> revs !! i = Some ri -> revs !! j = Some rj -> rev_id ri < rev_id rj)
  /\ Forall (fun r => rev_id r < next) revs.

(** A deleted object has left the trie; a stored account has a code hash. *)
Definition swf (s : StateDB) : Prop :=
  (forall a o, s_stateObjects s !! a = Some o ->
     owf a o /\ (so_deleted o = true -> loadAccount (s_trie s) a = None))
  /\ (forall a d, loadAccount (s_trie s) a = Some d -> length (acc_CodeHash d) = HashLength)
  /\ (forall h, s_logs s !! h <> Some [])
  /\ is_uint64 (s_logSize s)
  /\ revs_wf (s_validRevisions s) (s_nextRevisionId s).

(** What no undo changes. *)
Definition frame (s s' : StateDB) : Prop :=
  s_journal s' = s_journal s /\ s_validRevisions s' = s_validRevisions s
  /\ s_nextRevisionId s' = s_nextRevisionId s.

(** The parts other than the objects. *)
Definition same_rest (s s' : StateDB) : Prop :=
  s_db s' = s_db s /\ s_trie s' = s_trie s /\ s_refund s' = s_refund s /\ s_logs s' = s_logs s
  /\ s_logSize s' = s_logSize s /\ s_preimages s' = s_preimages s
  /\ s_validRevisions s' = s_validRevisions s /\ s_nextRevisionId s' = s_nextRevisionId s.

Definition calm (s s' : StateDB) : Prop := swf s' /\ eqv s' s /\ frame s s'.

Definition live (s : StateDB) (a : bytes) (o : stateObject) : Prop :=
  s_stateObjects s !! a = Some o /\ so_deleted o = false.

Lemma calm_refl s : swf s -> calm s s.
Proof. intros H. split_and!; done. Qed.

Lemma calm_trans s1 s2 s3 : calm s1 s2 -> calm s2 s3 -> calm s1 s3.
Proof.
  intros (_ & E1 & F1 & F2 & F3) (W & E2 & G1 & G2 & G3). split_and!; [done| |unfold frame; split_and!; congruence].
  etransitivity; done.
Qed.

Lemma live_view s a o : live s a o -> view s a = Some o.
Proof. intros [H1 H2]. unfold view. rewrite H1, H2. done. Qed.

(** ** Replacing an object *)
Definition upd (a : bytes) (o : stateObject) (s s' : StateDB) : Prop :=
  s_stateObjects s' = <[a := o]> (s_stateObjects s) /\ same_rest s s'.

Lemma upd_live a o s s' : upd a o s s' -> so_deleted o = false -> live s' a o.
Proof. intros [H _] Hd. split; [|done]. rewrite H. apply lookup_insert_eq. Qed.

Lemma upd_trans a o1 o2 s1 s2 s3 : upd a o1 s1 s2 -> upd a o2 s2 s3 -> upd a o2 s1 s3.
Proof.
  intros [H1 R1] [H2 R2]. split; [rewrite H2, H1; apply insert_insert_eq|].
  unfold same_rest in *. destruct_and!. split_and!; congruence.
Qed.

Lemma upd_swf a o s s' : upd a o s s' -> swf s -> owf a o -> so_deleted o = false -> swf s'.
Proof.
  intros [Ho (E1 & E2 & E3 & E4 & E5 & E6 & E7 & E8)] (W1 & W2 & W3 & W4 & W5) Hw Hd.
  unfold swf. rewrite E2, E4, E5, E7, E8, Ho. split_and!; try done.
  intros b o'. rewrite lookup_insert. case_decide; [intros [= <-]; subst; split; [done|congruence]|apply W1].
Qed.

Lemma upd_sobs a o s s' b q : upd a o s s' -> so_deleted o = false ->
  sobs s' b q = if bool_decide (a = b) then Some (obs (s_db s) o q) else sobs s b q.
Proof.
  intros [Ho (E1 & E2 & _)] Hd. unfold sobs, view. rewrite E1, E2, Ho, lookup_insert.
  case_decide; case_bool_decide; try done. rewrite Hd. done.
Qed.

(** Replacing an object by an equivalent one, in a state or in an equivalent
    one. *)
Lemma upd_eqv a o s s' t : upd a o s s' -> so_deleted o = false -> s_db t = s_db s ->
  s_trie t = s_trie s -> s_refund t = s_refund s -> s_logs t = s_logs s -> s_logSize t = s_logSize s ->
  s_preimages t = s_preimages s -> (forall b q, b <> a -> sobs s b q = sobs t b q) ->
  (forall q, Some (obs (s_db s) o q) = sobs t a q) -> eqv s' t.
Proof.
  intros U Hd Hdb Ht Hr Hl Hls Hp Hb Ha. pose proof U as [_ (E1 & E2 & E3 & E4 & E5 & E6 & E7 & E8)].
  unfold eqv. split_and!; try congruence. intros b q. rewrite (upd_sobs _ _ _ _ _ _ U Hd).
  case_bool_decide; [subst; apply Ha|apply Hb; congruence].
Qed.

Definition similar (db : DB) (o o' : stateObject) : Prop :=
  obj_eqv db o' o /\ so_address o' = so_address o /\ so_deleted o' = so_deleted o.

Lemma cached_similar db o o' : cached db o o' -> similar db o o'.
Proof. intros (? & ? & ? & _). split_and!; done. Qed.

Lemma VData_inj d d' : VData d = VData d' -> d = d'.
Proof. congruence. Qed.

Lemma obj_eqv_CodeHash db o o' :
  obj_eqv db o o' -> acc_CodeHash (so_data o) = acc_CodeHash (so_data o').
Proof. intros H. apply (f_equal acc_CodeHash (VData_inj _ _ (H QData))). Qed.

Lemma owf_similar db a o o' : similar db o o' -> owf a o -> owf a o'.
Proof. intros (He & H1 & _) [? ?]. split; [congruence|]. rewrite (obj_eqv_CodeHash _ _ _ He). done. Qed.

Lemma owf_cached db a o o' : cached db o o' -> owf a o -> owf a o'.
Proof. intros H. apply (owf_similar db), cached_similar. done. Qed.

Lemma upd_calm a o o' s s' : swf s -> live s a o -> similar (s_db s) o o' -> upd a o' s s' ->
  s_journal s' = s_journal s -> calm s s'.
Proof.
  intros W Hl Hc U Hj. pose proof Hl as [Ho Hd]. pose proof Hc as (E & _ & Hd').
  destruct (proj1 W a o Ho) as [Hw _].
  assert (so_deleted o' = false) by congruence.
  split_and!.
  - eapply upd_swf; [done|done|eapply owf_similar; done|done].
  - eapply upd_eqv; try done. intros q. unfold sobs. rewrite (live_view _ _ _ Hl). cbn. rewrite E. done.
  - destruct U as [_ U]. unfold same_rest in U. destruct_and!. unfold frame. split_and!; done.
Qed.

(** ** The operations that only read *)
Lemma setError_calm e s : swf s -> calm s (s_setError e s).
Proof. intros W. unfold s_setError. destruct (s_dbErr s); [apply calm_refl; done|]. split_and!; done. Qed.

Lemma newObject_owf s a d : swf s -> loadAccount (s_trie s) a = Some d -> owf a (newObject a d false true).
Proof. intros (_ & W & _) H. split; [done|]. apply (W a d H). Qed.

Lemma load_calm s a d : swf s -> s_stateObjects s !! a = None -> loadAccount (s_trie s) a = Some d ->
  calm s (set_s_stateObjects s (<[a := newObject a d false true]> (s_stateObjects s))).
Proof.
  intros W Hn Hd.
  assert (upd a (newObject a d false true) s
    (set_s_stateObjects s (<[a := newObject a d false true]> (s_stateObjects s)))) as U.
  { unfold upd, same_rest. split_and!; done. }
  split_and!; try done.
  - eapply upd_swf; try done. eapply newObject_owf; done.
  - eapply upd_eqv; try done. intros q. unfold sobs, view. rewrite Hn, Hd. done.
Qed.

Lemma setError_proj e s :
  s_stateObjects (s_setError e s) = s_stateObjects s /\ s_trie (s_setError e s) = s_trie s.
Proof. unfold s_setError. destruct (s_dbErr s); done. Qed.

Lemma getStateObject_spec s a : swf s ->
  exists s1, getStateObject a s = Ret (s1, is_some (view s a)) /\ calm s s1
    /\ forall o, view s a = Some o -> live s1 a o.
Proof.
  intros W. unfold getStateObject, view.
  destruct (s_stateObjects s !! a) as [o|] eqn:Ho.
  { exists s. unfold mbind, SM_bind, getS, mret, SM_ret. rewrite Ho. split; [destruct (so_deleted o); done|]. split; [apply calm_refl; done|].
    intros o'. destruct (so_deleted o) eqn:Hd; [done|]. intros [= <-]. done. }
  set (s0 := match TryGet (s_trie s) a with Err e => s_setError (Some e) s | Ok _ => s end).
  assert (calm s s0 /\ s_stateObjects s0 !! a = None /\ s_trie s0 = s_trie s) as (C0 & Ho0 & Ht0).
  { subst s0. destruct (TryGet (s_trie s) a); [split; [apply calm_refl; done|done]|].
    destruct (setError_proj (Some e) s) as [-> ->]. split; [apply setError_calm; done|done]. }
  unfold mbind, SM_bind, getS, modifyS, mret, SM_ret. rewrite Ho. fold s0.
  destruct (loadAccount (s_trie s) a) as [d|] eqn:Hd; cbn.
  - eexists. split; [reflexivity|]. split.
    + eapply calm_trans; [done|]. apply load_calm; [apply C0|done|]. rewrite Ht0. done.
    + intros o [= <-]. split; [cbn; apply lookup_insert_eq|done].
  - exists s0. split; [done|]. split; [done|]. done.
Qed.

(** ** Steps that can be undone *)

(** The entries [js] undo what led from [s] to [s']. *)
Definition undoes (js : list journalEntry) (s s' : StateDB) : Prop :=
  forall t, swf t -> eqv t s' ->
  exists t', undo_all (reverse js) t = Ret (t', tt) /\ swf t' /\ eqv t' s /\ frame t t'.

Definition step (s s' : StateDB) : Prop :=
  swf s' /\ s_db s' = s_db s /\ s_trie s' = s_trie s /\ s_nextRevisionId s <= s_nextRevisionId s'
  /\ (exists rs, s_validRevisions s' = s_validRevisions s ++ rs
                 /\ Forall (fun r => s_nextRevisionId s <= rev_id r) rs)
  /\ exists js, s_journal s' = s_journal s ++ js /\ undoes js s s'.

Lemma SM_bind_Ret {A B} (m : SM A) (f : A -> SM B) s s' a :
  m s = Ret (s', a) -> (x ← m; f x) s = f a s'.
Proof. intros H. unfold mbind, SM_bind. rewrite H. done. Qed.

Lemma SM_bind_inv {A B} (m : SM A) (f : A -> SM B) s s' b :
  (x ← m; f x) s = Ret (s', b) -> exists s1 a, m s = Ret (s1, a) /\ f a s1 = Ret (s', b).
Proof. unfold mbind, SM_bind. destruct (m s) as [[s1 a]|] eqn:E; [eauto|done]. Qed.

Lemma undo_all_app l1 l2 s s1 :
  undo_all l1 s = Ret (s1, tt) -> undo_all (l1 ++ l2) s = undo_all l2 s1.
Proof.
  revert s. induction l1 as [|e l1 IH]; intros s; cbn [app undo_all]; [intros [= <-]; done|].
  intros H. apply SM_bind_inv in H as (s2 & [] & H1 & H2).
  rewrite (SM_bind_Ret _ _ _ _ _ H1). apply IH. done.
Qed.

Lemma frame_trans s1 s2 s3 : frame s1 s2 -> frame s2 s3 -> frame s1 s3.
Proof. intros (? & ? & ?) (? & ? & ?). split_and!; congruence. Qed.

Lemma calm_step s s' : calm s s' -> step s s'.
Proof.
  intros (W & E & F1 & F2 & F3). pose proof E as (? & ? & _). split_and!; try done; [lia| |].
  - exists []. rewrite app_nil_r. done.
  - exists []. rewrite app_nil_r. split; [done|]. intros t Wt Et. exists t. split_and!; try done.
    etransitivity; done.
Qed.

Lemma step_trans s1 s2 s3 : step s1 s2 -> step s2 s3 -> step s1 s3.
Proof.
  intros (W1 & D1 & T1 & N1 & (r1 & R1 & G1) & j1 & J1 & U1) (W2 & D2 & T2 & N2 & (r2 & R2 & G2) & j2 & J2 & U2).
  split_and!; try congruence; [lia| |].
  - exists (r1 ++ r2). rewrite R2, R1, app_assoc. split; [done|]. apply Forall_app. split; [done|].
    eapply Forall_impl; [exact G2|]. cbn. lia.
  - exists (j1 ++ j2). rewrite J2, J1, app_assoc. split; [done|]. intros t Wt Et.
    destruct (U2 t Wt Et) as (t2 & H2 & Wt2 & Et2 & F2).
    destruct (U1 t2 Wt2 Et2) as (t1 & H1 & Wt1 & Et1 & F1).
    exists t1. rewrite reverse_app, (undo_all_app _ _ _ _ H2). split_and!; try done.
    eapply frame_trans; done.
Qed.

(** ** Operations, as steps

    [ok_at db a o m]: run where [o] is the live object at [a], the operation [m]
    is a step and leaves an object there. *)
Definition ok {A} (m : SM A) : Prop :=
  forall s s' x, swf s -> m s = Ret (s', x) -> step s s'.

Definition ok_at {A} (db : DB) (a : bytes) (o : stateObject) (m : SM A) : Prop :=
  forall s s' x, swf s -> s_db s = db -> live s a o -> m s = Ret (s', x) ->
  step s s' /\ exists o', live s' a o'.

Definition ok_on {A} (a : bytes) (m : SM A) : Prop := forall db o, ok_at db a o m.

Lemma step_refl s : swf s -> step s s.
Proof. intros W. apply calm_step, calm_refl. done. Qed.

Lemma ok_ret {A} (x : A) : ok (mret x).
Proof. intros s s' y W [= <- _]. apply step_refl. done. Qed.

Lemma ok_bind {A B} (m : SM A) (f : A -> SM B) : ok m -> (forall x, ok (f x)) -> ok (x ← m; f x).
Proof.
  intros Hm Hf s s' x W H. apply SM_bind_inv in H as (s1 & a & H1 & H2).
  pose proof (Hm _ _ _ W H1) as S1. eapply step_trans; [done|]. eapply Hf; [|done]. apply S1.
Qed.

Lemma ok_at_ret {A} db a o (x : A) : ok_at db a o (mret x).
Proof. intros s s' y W _ Hl [= <- _]. split; [apply step_refl; done|eauto]. Qed.

Lemma ok_at_bind {A B} db a o (m : SM A) (f : A -> SM B) :
  ok_at db a o m -> (forall x, ok_on a (f x)) -> ok_at db a o (x ← m; f x).
Proof.
  intros Hm Hf s s' x W Hdb Hl H. apply SM_bind_inv in H as (s1 & y & H1 & H2).
  destruct (Hm _ _ _ W Hdb Hl H1) as [S1 (o1 & Hl1)].
  destruct (Hf y db o1 s1 s' x) as [S2 Hl2]; try done; [apply S1|destruct S1; destruct_and!; congruence|].
  split; [|done]. eapply step_trans; done.
Qed.

Lemma ok_at_deref {A} db a o (f : stateObject -> SM A) :
  ok_at db a o (f o) -> ok_at db a o (x ← deref a; f x).
Proof.
  intros Hf s s' x W Hdb Hl H. eapply Hf; try done. unfold deref, mbind, SM_bind, getS in H.
  destruct Hl as [Ho _]. rewrite Ho in H. done.
Qed.

(** Reading through the caches of the object. *)
Lemma through_spec {A} (f : DB -> stateObject -> outcome (stateObject * A)) pure a o s :
  (forall db, reads_value db f (pure db)) -> swf s -> live s a o ->
  match pure (s_db s) o with
  | Some v => exists s1 o1, through a f s = Ret (s1, v) /\ calm s s1 /\ live s1 a o1 /\ cached (s_db s) o o1
              /\ s_db s1 = s_db s
  | None => exists e, through a f s = Panic e
  end.
Proof.
  intros Hf W Hl. pose proof Hl as [Ho Hd]. specialize (Hf (s_db s) o).
  unfold through, deref, mbind, SM_bind, getS, liftS, putObject, modifyS, mret, SM_ret. rewrite Ho.
  destruct (f (s_db s) o) as [[o1 v]|e]; [|rewrite Hf; eauto].
  destruct Hf as [-> Hc]. eexists _, o1. split; [reflexivity|].
  assert (upd a o1 s (set_s_stateObjects s (<[a := o1]> (s_stateObjects s)))) as U.
  { unfold upd, same_rest. split_and!; done. }
  split_and!; try done.
  - apply (upd_calm a o o1); try done. apply cached_similar. done.
  - eapply upd_live; [done|]. destruct Hc as (_ & _ & -> & _). done.
Qed.

Lemma ok_at_through {A B} db a o (f : DB -> stateObject -> outcome (stateObject * A)) pure (k : A -> SM B) :
  (forall db, reads_value db f (pure db)) ->
  (forall v o1, pure db o = Some v -> cached db o o1 -> ok_at db a o1 (k v)) ->
  ok_at db a o (x ← through a f; k x).
Proof.
  intros Hf Hk s s' x W Hdb Hl H. pose proof (through_spec f pure a o s Hf W Hl) as Hs. rewrite Hdb in Hs.
  destruct (pure db o) as [v|] eqn:Ev.
  - destruct Hs as (s1 & o1 & H1 & C1 & Hl1 & Hc & Hdb1).
    rewrite (SM_bind_Ret _ _ _ _ _ H1) in H. destruct (Hk v o1 eq_refl Hc s1 s' x) as [S2 Hl2]; try done.
    + apply C1.
    + split; [|done]. eapply step_trans; [apply calm_step|]; done.
  - destruct Hs as (e & He). unfold mbind, SM_bind in H. rewrite He in H. done.
Qed.

(** ** Journaled changes of an object *)

(** An object after its callback. *)
Definition settle (o : stateObject) : stateObject := if so_onDirty o then set_so_onDirty o false else o.

Lemma settle_cached db o : cached db o (settle o).
Proof.
  unfold settle. destruct (so_onDirty o); [|apply cached_refl]. unfold cached. split_and!; try done; intros []; done.
Qed.

Lemma putObject_upd s a o : exists s', putObject a o s = Ret (s', tt) /\ upd a o s s' /\ s_journal s' = s_journal s.
Proof. eexists. split; [reflexivity|]. unfold upd, same_rest. split_and!; done. Qed.

Lemma deref_live {A} s a o (f : stateObject -> SM A) :
  s_stateObjects s !! a = Some o -> (x ← deref a; f x) s = f o s.
Proof. intros H. unfold deref, mbind, SM_bind, getS. rewrite H. done. Qed.

Lemma changeObject_upd s a o f : s_stateObjects s !! a = Some o ->
  exists s', changeObject a f s = Ret (s', tt) /\ upd a (settle (f o)) s s' /\ s_journal s' = s_journal s.
Proof.
  intros Ho. unfold changeObject. rewrite (deref_live _ _ _ _ Ho).
  destruct (putObject_upd s a (f o)) as (s1 & H1 & U1 & J1). rewrite (SM_bind_Ret _ _ _ _ _ H1).
  assert (s_stateObjects s1 !! a = Some (f o)) as Ho1 by (rewrite (proj1 U1); apply lookup_insert_eq).
  unfold callOnDirty. rewrite (deref_live _ _ _ _ Ho1). unfold settle. destruct (so_onDirty (f o)).
  - eexists. split; [reflexivity|]. cbn [s_journal]. split; [|exact J1].
    eapply upd_trans; [exact U1|]. unfold upd, same_rest. split_and!; done.
  - exists s1. done.
Qed.

(** What is asked of an entry [e], recorded while [o] became [o'], for [body] to
    undo it. *)
Definition restores (db : DB) (a : bytes) (o o' : stateObject) (body : SM unit) : Prop :=
  forall t o1, live t a o1 -> s_db t = db -> obj_eqv db o1 o' -> owf a o1 ->
  exists t' o2, body t = Ret (t', tt) /\ upd a o2 t t' /\ s_journal t' = s_journal t
    /\ obj_eqv db o2 o /\ so_deleted o2 = false /\ owf a o2.

Lemma view_of_sobs t a (v : oquery -> ovalue) :
  (forall q, sobs t a q = Some (v q)) -> exists o1, view t a = Some o1 /\ forall q, obs (s_db t) o1 q = v q.
Proof.
  intros H. unfold sobs in H. destruct (view t a) as [o1|]; [|specialize (H QData); done].
  exists o1. split; [done|]. intros q. specialize (H q). by simplify_eq/=.
Qed.

Lemma upd_sobs_live a o s s' q : upd a o s s' -> so_deleted o = false -> sobs s' a q = Some (obs (s_db s) o q).
Proof. intros U Hd. rewrite (upd_sobs _ _ _ _ _ _ U Hd), bool_decide_true by done. done. Qed.

Lemma step_entry s s' a o o' e body alt :
  swf s -> live s a o -> owf a o' -> so_deleted o' = false -> upd a o' s s' ->
  s_journal s' = s_journal s ++ [e] ->
  undo e = (found ← getStateObject a; if (found : bool) then body else alt) ->
  restores (s_db s) a o o' body -> step s s'.
Proof.
  intros W Hl Hw Hd U J Hu Hr.
  assert (swf s') as W' by (eapply upd_swf; done).
  pose proof U as [_ (E1 & E2 & E3 & E4 & E5 & E6 & E7 & E8)].
  split_and!; try done; [lia|exists []; rewrite app_nil_r; done|].
  exists [e]. split; [done|]. intros t Wt (D1 & D2 & D3 & D4 & D5 & D6 & Es).
  destruct (view_of_sobs t a (obs (s_db s) o')) as (o1 & Hv & Hobs).
  { intros q. rewrite Es. eapply upd_sobs_live; done. }
  destruct (getStateObject_spec t a Wt) as (t1 & G & C1 & Hlive). rewrite Hv in G.
  specialize (Hlive o1 Hv). destruct C1 as (W1 & (F1 & F2 & F3 & F4 & F5 & F6 & Fs) & Fr).
  destruct (Hr t1 o1) as (t' & o2 & Hb & U2 & J2 & Eo & Hd2 & Hw2); try done; [congruence| | |].
  { intros q. rewrite <- Hobs. congruence. }
  { apply (proj1 W1 a o1). apply Hlive. }
  exists t'. split_and!.
  - cbn [undo_all reverse]. change (reverse [e]) with [e]. cbn [undo_all]. rewrite Hu.
    unfold mbind, SM_bind. rewrite G. cbn [is_some]. rewrite Hb. done.
  - eapply upd_swf; done.
  - eapply upd_eqv; [done|done|congruence..| |].
    + intros b q Hne. rewrite Fs, Es, (upd_sobs _ _ _ _ _ _ U Hd), bool_decide_false by congruence. done.
    + intros q. rewrite F1, D1, E1, Eo. unfold sobs. rewrite (live_view _ _ _ Hl). done.
  - destruct U2 as [_ U2]. unfold same_rest, frame in *. destruct_and!. split_and!; congruence.
Qed.

(** An entry recorded by a change that the callback follows. *)
Lemma ok_at_change db a o e f body alt :
  undo e = (found ← getStateObject a; if (found : bool) then body else alt) ->
  so_deleted (f o) = so_deleted o -> (owf a o -> owf a (f o)) ->
  (owf a o -> restores db a o (f o) body) ->
  ok_at db a o (record e ;; changeObject a f).
Proof.
  intros Hu Hdel Hw Hr s s' x W Hdb Hl H. pose proof Hl as [Ho Hd].
  destruct (changeObject_upd (set_s_journal s (s_journal s ++ [e])) a o f Ho) as (s1 & H1 & U1 & J1).
  unfold record, modifyS, mbind, SM_bind in H. rewrite H1 in H. injection H as <- _.
  pose proof (settle_cached db (f o)) as Hc. pose proof Hc as (Eo & _ & Hd' & _).
  assert (upd a (settle (f o)) s s1) as U. { destruct U1 as [U1 U2]. split; [exact U1|exact U2]. }
  assert (so_deleted (settle (f o)) = false) as Hds by congruence.
  split; [|exists (settle (f o)); eapply upd_live; done].
  apply (step_entry s s1 a o (settle (f o)) e body alt); try done.
  - eapply owf_cached; [done|]. apply Hw, (proj1 W a o Ho).
  - rewrite Hdb. intros t o1 Hlt Hdt Ht Hwt. eapply Hr; try done; [apply (proj1 W a o Ho)|etransitivity; done].
Qed.

(** Undoing by a change of the object. *)
Lemma restores_change db a o o' g :
  (forall o1, obj_eqv db o1 o' -> obj_eqv db (g o1) o) -> (forall o1, so_deleted (g o1) = so_deleted o1) ->
  (forall o1, owf a o1 -> owf a (g o1)) -> restores db a o o' (changeObject a g).
Proof.
  intros Hg Hd Hw t o1 [Hl1 Hl2] Hdb He Hwf.
  destruct (changeObject_upd t a o1 g Hl1) as (t' & H & U & J).
  pose proof (settle_cached db (g o1)) as Hc. pose proof Hc as (Eo & _ & Hd' & _).
  exists t', (settle (g o1)). split_and!; try done.
  - etransitivity; [exact Eo|]. apply Hg. done.
  - rewrite Hd', Hd. done.
  - eapply owf_cached; [done|]. apply Hw. done.
Qed.

(** ** The fields of an account, as lenses *)
Record dlens {V} (dset : Account -> V -> Account) (dget : Account -> V) : Prop := {
  dl_set_set : forall d v w, dset (dset d v) w = dset d w;
  dl_set_get : forall d, dset d (dget d) = d;
  dl_erase : forall d v, erase (dset d v) = dset (erase d) v;
  dl_erase_get : forall d, dget (erase d) = dget d;
  dl_frame : forall d v,
    acc_SideChainDepositBalance (dset d v) = acc_SideChainDepositBalance d
    /\ acc_CodeHash (dset d v) = acc_CodeHash d /\ acc_Root (dset d v) = acc_Root d
    /\ acc_TX1Root (dset d v) = acc_TX1Root d /\ acc_TX3Root (dset d v) = acc_TX3Root d
    /\ acc_ProxiedRoot (dset d v) = acc_ProxiedRoot d /\ acc_RewardRoot (dset d v) = acc_RewardRoot d }.

Lemma zset_lens f : dlens (zset f) (zget f).
Proof. split; intros; destruct d, f; try done; split_and!; done. Qed.
Lemma candidate_lens : dlens set_acc_Candidate acc_Candidate.
Proof. split; intros; destruct d; try done; split_and!; done. Qed.
Lemma pubkey_lens : dlens set_acc_Pubkey acc_Pubkey.
Proof. split; intros; destruct d; try done; split_and!; done. Qed.
Lemma banned_lens : dlens set_acc_IsBanned acc_IsBanned.
Proof. split; intros; destruct d; try done; split_and!; done. Qed.

Definition over_data (f : Account -> Account) (o : stateObject) : stateObject := set_so_data o (f (so_data o)).

Lemma lens_obs {V} (dset : Account -> V -> Account) dget db o v q :
  dlens dset dget -> q <> QData -> obs db (over_data (fun d => dset d v) o) q = obs db o q.
Proof.
  intros Hl Hq. destruct (dl_frame _ _ Hl (so_data o) v) as (F1 & F2 & F3 & F4 & F5 & F6 & F7).
  unfold over_data. destruct q; try done; cbn [obs]; f_equal.
  - cbn. rewrite F1. done.
  - unfold code_of. cbn [so_code so_data set_so_data]. rewrite F2. done.
  - unfold storage_of, committed_of. cbn [so_data set_so_data so_dirtyStorage so_originStorage so_trie].
    rewrite F3. done.
  - unfold committed_of. cbn [so_data set_so_data so_originStorage so_trie]. rewrite F3. done.
  - unfold proxied_of. cbn [so_data set_so_data so_dirtyProxied so_originProxied so_proxiedTrie].
    rewrite F6. done.
  - unfold reward_of. cbn [so_data set_so_data so_dirtyReward so_originReward so_rewardTrie].
    rewrite F7. done.
  - unfold tx1_of, stored_tx1. cbn [so_data set_so_data so_dirtyTX1 so_tx1Trie]. rewrite F4. done.
  - unfold tx3_of, stored_tx3. cbn [so_data set_so_data so_dirtyTX3 so_tx3Trie]. rewrite F5. done.
  - unfold stored_tx1. cbn [so_data set_so_data so_tx1Trie]. rewrite F4. done.
  - unfold stored_tx3. cbn [so_data set_so_data so_tx3Trie]. rewrite F5. done.
Qed.

Lemma lens_back {V} (dset : Account -> V -> Account) dget db o v o1 :
  dlens dset dget -> obj_eqv db o1 (over_data (fun d => dset d v) o) ->
  obj_eqv db (over_data (fun d => dset d (dget (so_data o))) o1) o.
Proof.
  intros Hl He q. destruct (decide (q = QData)) as [->|Hq].
  - pose proof (VData_inj _ _ (He QData)) as H. cbn [obs]. f_equal. unfold over_data in *.
    cbn [so_data set_so_data] in *.
    rewrite (dl_erase _ _ Hl), H, (dl_erase _ _ Hl), (dl_set_set _ _ Hl), <- (dl_erase_get _ _ Hl).
    apply (dl_set_get _ _ Hl).
  - rewrite (lens_obs _ _ _ _ _ _ Hl Hq), He. eapply lens_obs; done.
Qed.

Lemma lens_owf {V} (dset : Account -> V -> Account) dget a o v :
  dlens dset dget -> owf a o -> owf a (over_data (fun d => dset d v) o).
Proof.
  intros Hl [H1 H2]. split; [done|]. destruct (dl_frame _ _ Hl (so_data o) v) as (_ & F & _).
  cbn. rewrite F. done.
Qed.

Lemma ok_at_lens {V} (dset : Account -> V -> Account) dget db a o v e :
  dlens dset dget ->
  undo e = undoOn a (changeObject a (over_data (fun d => dset d (dget (so_data o))))) ->
  ok_at db a o (record e ;; changeObject a (over_data (fun d => dset d v))).
Proof.
  intros Hl Hu. eapply ok_at_change; [exact Hu|done|apply (lens_owf _ _ _ _ _ Hl)|].
  intros _. apply restores_change; [|done|].
  - intros o1. apply (lens_back _ _ _ _ _ _ Hl).
  - intros o1. apply (lens_owf _ _ _ _ _ Hl).
Qed.

Lemma so_SetZ_ok f a v : ok_on a (so_SetZ f a v).
Proof.
  intros db o. apply ok_at_deref. apply (ok_at_lens _ _ _ _ _ _ _ (zset_lens f)). destruct f; done.
Qed.
Lemma so_SetCandidate_ok a v : ok_on a (so_SetCandidate a v).
Proof. intros db o. apply ok_at_deref. apply (ok_at_lens _ _ _ _ _ _ _ candidate_lens). done. Qed.
Lemma so_SetPubkey_ok a v : ok_on a (so_SetPubkey a v).
Proof. intros db o. apply ok_at_deref. apply (ok_at_lens _ _ _ _ _ _ _ pubkey_lens). done. Qed.
Lemma so_SetBanned_ok a v : ok_on a (so_SetBanned a v).
Proof. intros db o. apply ok_at_deref. apply (ok_at_lens _ _ _ _ _ _ _ banned_lens). done. Qed.

(** ** Storage, shares and rewards: a write shadows one key *)
Definition write_storage (k v : bytes) (o : stateObject) : stateObject :=
  set_so_dirtyStorage o (<[k := v]> (so_dirtyStorage o)).

Lemma write_storage_obs db o k v q : obs db (write_storage k v o) q =
  if bool_decide (q = QStorage k) then VBytes (Some v) else obs db o q.
Proof.
  destruct q; try done. cbn [obs]. unfold storage_of at 1. cbn [so_dirtyStorage write_storage set_so_dirtyStorage].
  rewrite lookup_insert. repeat case_decide; repeat case_bool_decide; first [done | congruence].
Qed.

Lemma so_SetState_ok a k v : ok_on a (so_SetState a k v).
Proof.
  intros db o. eapply (ok_at_through _ _ _ _ (fun db o => storage_of db o k)); [intros; apply so_GetState_reads|].
  intros p o0 Hp Hc. pose proof Hc as [Hobs _]. specialize (Hobs (QStorage k)). cbn [obs] in Hobs. rewrite Hp in Hobs.
  apply (ok_at_change db a o0 _ (write_storage k v) (changeObject a (write_storage k p))
    (panicS "nil pointer dereference")); [done|done|done|].
  intros _. apply restores_change; [|done|done]. intros o1 He q. rewrite write_storage_obs.
  case_bool_decide as Hq; [subst; symmetry; exact Hobs|]. rewrite He, write_storage_obs, bool_decide_false by done. done.
Qed.

Definition write_share (k : bytes) (v : option accountProxiedBalance) (o : stateObject) : stateObject :=
  set_so_dirtyProxied o (<[k := v]> (so_dirtyProxied o)).

Lemma write_share_obs db o k v q : obs db (write_share k v o) q =
  if bool_decide (q = QProxied k) then VProxied (Some v) else obs db o q.
Proof.
  destruct q; try done. cbn [obs]. unfold proxied_of at 1. cbn [so_dirtyProxied write_share set_so_dirtyProxied].
  rewrite lookup_insert. repeat case_decide; repeat case_bool_decide; first [done | congruence].
Qed.

Lemma so_SetAccountProxiedBalance_ok a k v : ok_on a (so_SetAccountProxiedBalance a k v).
Proof.
  intros db o. eapply (ok_at_through _ _ _ _ (fun db o => proxied_of db o k));
    [intros; apply GetAccountProxiedBalance_reads|].
  intros p o0 Hp Hc. pose proof Hc as [Hobs _]. specialize (Hobs (QProxied k)). cbn [obs] in Hobs. rewrite Hp in Hobs.
  apply (ok_at_change db a o0 _ (write_share k v) (changeObject a (write_share k p))
    (panicS "nil pointer dereference")); [done|done|done|].
  intros _. apply restores_change; [|done|done]. intros o1 He q. rewrite write_share_obs.
  case_bool_decide as Hq; [subst; symmetry; exact Hobs|]. rewrite He, write_share_obs, bool_decide_false by done. done.
Qed.

Definition write_reward (k : bytes) (v : option Z) (o : stateObject) : stateObject :=
  set_so_dirtyReward o (<[k := v]> (so_dirtyReward o)).

Lemma write_reward_obs db o k v q : obs db (write_reward k v o) q =
  if bool_decide (q = QReward k) then VReward (Some v) else obs db o q.
Proof.
  destruct q; try done. cbn [obs]. unfold reward_of at 1. cbn [so_dirtyReward write_reward set_so_dirtyReward].
  rewrite lookup_insert. repeat case_decide; repeat case_bool_decide; first [done | congruence].
Qed.

Lemma so_SetDelegateRewardBalance_ok a k v : ok_on a (so_SetDelegateRewardBalance a k v).
Proof.
  intros db o. eapply (ok_at_through _ _ _ _ (fun db o => reward_of db o k));
    [intros; apply GetDelegateRewardBalance_reads|].
  intros p o0 Hp Hc. pose proof Hc as [Hobs _]. specialize (Hobs (QReward k)). cbn [obs] in Hobs. rewrite Hp in Hobs.
  apply (ok_at_change db a o0 _ (write_reward k v) (changeObject a (write_reward k p))
    (panicS "nil pointer dereference")); [done|done|done|].
  intros _. apply restores_change; [|done|done]. intros o1 He q. rewrite write_reward_obs.
  case_bool_decide as Hq; [subst; symmetry; exact Hobs|]. rewrite He, write_reward_obs, bool_decide_false by done. done.
Qed.

(** ** Code *)
Definition write_code (h : bytes) (c : option bytes) (o : stateObject) : stateObject :=
  set_so_dirtyCode (set_so_data (set_so_code o c) (set_acc_CodeHash (so_data o) h)) true.

Lemma erase_CodeHash d h : erase (set_acc_CodeHash d h) = set_acc_CodeHash (erase d) h.
Proof. done. Qed.

Lemma write_code_back db o h c o1 : obj_eqv db o1 (write_code h c o) ->
  obj_eqv db (write_code (acc_CodeHash (so_data o)) (code_of db o) o1) o.
Proof.
  intros He q. destruct (decide (q = QData)) as [->|Hd]; [|destruct (decide (q = QCode)) as [->|Hc]].
  - pose proof (VData_inj _ _ (He QData)) as H. cbn [obs write_code so_data set_so_data set_so_dirtyCode] in *.
    f_equal. rewrite erase_CodeHash, H. destruct (so_data o). done.
  - cbn [obs]. f_equal. unfold code_of. cbn [write_code so_code so_data set_so_data set_so_code set_so_dirtyCode acc_CodeHash set_acc_CodeHash].
    destruct (so_code o) as [c'|]; [done|].
    destruct (bool_decide (acc_CodeHash (so_data o) = emptyCodeHash)); [done|].
    destruct (ContractCode db _); done.
  - transitivity (obs db o1 q); [destruct q; done|]. rewrite He. destruct q; done.
Qed.

Lemma so_SetCode_ok a h c : length h = HashLength -> ok_on a (so_SetCode a h c).
Proof.
  intros Hh db o. eapply (ok_at_through _ _ _ _ (fun db o => Some (code_of db o)));
    [intros; apply so_Code_reads|].
  intros p o0 [= Hp] [Hobs _]. pose proof (Hobs QCode) as Hcode. cbn [obs] in Hcode.
  apply ok_at_deref.
  apply (ok_at_change db a o0 _ (write_code h c)
    (changeObject a (write_code (BytesToHash (acc_CodeHash (so_data o0))) p))
    (panicS "nil pointer dereference")); [done|done| |].
  { intros [H1 H2]. split; done. }
  intros Hw. rewrite BytesToHash_id by apply Hw. apply restores_change; [|done|].
  - intros o1 He. replace p with (code_of db o0) by congruence. eapply write_code_back. done.
  - intros o1 [H1 H2]. split; [done|]. apply Hw.
Qed.

(** ** Side-chain deposits *)
Definition side_list (o : stateObject) : list sideChainDepositBalance :=
  acc_SideChainDepositBalance (so_data o).

Definition write_side (c : bytes) (v : Z) (o : stateObject) : stateObject :=
  over_data (fun d => set_acc_SideChainDepositBalance d
    (alter (side_set v) (snd (side_index (side_list o) c)) (fst (side_index (side_list o) c)))) o.

Lemma write_side_obs db c v o q : obs db (write_side c v o) q =
  if bool_decide (q = QSide c) then VZ v else obs db o q.
Proof.
  destruct q; try done. cbn [obs]. unfold write_side, over_data. cbn [so_data set_so_data acc_SideChainDepositBalance
    set_acc_SideChainDepositBalance]. rewrite side_index_set.
  repeat case_bool_decide; first [done | congruence].
Qed.

(** The object once the entry of the chain is in its list. *)
Definition with_side (c : bytes) (o : stateObject) : stateObject :=
  over_data (fun d => set_acc_SideChainDepositBalance d (fst (side_index (side_list o) c))) o.

Lemma so_sideChainIndex_upd s a o c : s_stateObjects s !! a = Some o ->
  exists s1, so_sideChainIndex a c s = Ret (s1, snd (side_index (side_list o) c))
    /\ upd a (with_side c o) s s1 /\ s_journal s1 = s_journal s.
Proof.
  intros Ho. destruct (putObject_upd s a (with_side c o)) as (s1 & H1 & U1 & J1). exists s1.
  split; [|done]. unfold so_sideChainIndex. rewrite (deref_live _ _ _ _ Ho). unfold with_side, over_data, side_list in *.
  destruct (side_index (acc_SideChainDepositBalance (so_data o)) c) as [l i]. cbn [fst snd] in *.
  rewrite (SM_bind_Ret _ _ _ _ _ H1). done.
Qed.

Lemma so_setSide_upd s a o c v : s_stateObjects s !! a = Some (with_side c o) ->
  exists s', so_setSideChainDepositBalance a (snd (side_index (side_list o) c)) v s = Ret (s', tt)
    /\ upd a (settle (write_side c v o)) s s' /\ s_journal s' = s_journal s.
Proof.
  intros Ho. exact (changeObject_upd s a (with_side c o) (fun o1 =>
    let l := acc_SideChainDepositBalance (so_data o1) in
    set_so_data o1 (set_acc_SideChainDepositBalance (so_data o1)
      (alter (side_set v) (snd (side_index (side_list o) c)) l))) Ho).
Qed.

Lemma so_SetSide_upd s a o c v : s_stateObjects s !! a = Some o ->
  exists s', so_SetSideChainDepositBalance a c v s = Ret (s', tt) /\ upd a (settle (write_side c v o)) s s'
    /\ s_journal s' = s_journal s ++ [sideChainDepositBalanceChange a c (side_lookup (side_list o) c)].
Proof.
  intros Ho. destruct (so_sideChainIndex_upd s a o c Ho) as (s1 & H1 & U1 & J1).
  assert (s_stateObjects s1 !! a = Some (with_side c o)) as Ho1 by (rewrite (proj1 U1); apply lookup_insert_eq).
  destruct (side_index_get (side_list o) c) as (b & Hb1 & Hb2).
  set (e := sideChainDepositBalanceChange a c (side_lookup (side_list o) c)).
  destruct (so_setSide_upd (set_s_journal s1 (s_journal s1 ++ [e])) a o c v Ho1) as (s' & H2 & U2 & J2).
  exists s'. split_and!.
  - unfold so_SetSideChainDepositBalance. rewrite (SM_bind_Ret _ _ _ _ _ H1), (deref_live _ _ _ _ Ho1).
    change (acc_SideChainDepositBalance (so_data (with_side c o))) with (fst (side_index (side_list o) c)).
    unfold mbind at 1, SM_bind at 1, liftS. rewrite (slice_get_lookup _ _ _ Hb1), Hb2. exact H2.
  - destruct U2 as [U2 R2]. eapply upd_trans; [exact U1|]. split; [exact U2|exact R2].
  - rewrite J2. cbn. rewrite J1. done.
Qed.

Lemma side_restores db a o c v :
  restores db a o (write_side c v o)
    (i ← so_sideChainIndex a c; so_setSideChainDepositBalance a i (side_lookup (side_list o) c)).
Proof.
  intros t o1 [Ho Hd] Hdb He Hw. destruct (so_sideChainIndex_upd t a o1 c Ho) as (t1 & H1 & U1 & J1).
  assert (s_stateObjects t1 !! a = Some (with_side c o1)) as Ho1 by (rewrite (proj1 U1); apply lookup_insert_eq).
  destruct (so_setSide_upd t1 a o1 c (side_lookup (side_list o) c) Ho1) as (t' & H2 & U2 & J2).
  set (o2 := write_side c (side_lookup (side_list o) c) o1) in *.
  pose proof (settle_cached db o2) as Hc. pose proof Hc as (Eo & _ & Hd' & _).
  exists t', (settle o2). split_and!.
  - rewrite (SM_bind_Ret _ _ _ _ _ H1). done.
  - eapply upd_trans; done.
  - congruence.
  - etransitivity; [exact Eo|]. intros q. unfold o2. rewrite write_side_obs.
    case_bool_decide as Hq; [subst; done|]. rewrite He, write_side_obs, bool_decide_false by done. done.
  - rewrite Hd'. done.
  - eapply owf_cached; [done|exact Hw].
Qed.

Lemma so_SetSide_ok a c v : ok_on a (so_SetSideChainDepositBalance a c v).
Proof.
  intros db o s s' x W Hdb Hl H. pose proof Hl as [Ho Hd].
  destruct (so_SetSide_upd s a o c v Ho) as (s1 & H1 & U1 & J1). rewrite H1 in H. injection H as <- _.
  pose proof (settle_cached db (write_side c v o)) as Hc. pose proof Hc as (Eo & _ & Hd' & _).
  assert (so_deleted (settle (write_side c v o)) = false) as Hds by (rewrite Hd'; done).
  split; [|eexists; eapply upd_live; done].
  eapply (step_entry s s1 a o _ _ _ (panicS "nil pointer dereference")); [done|done| |done|done|done|reflexivity|].
  - eapply owf_cached; [done|]. exact (proj1 (proj1 W a o Ho)).
  - rewrite Hdb. intros t o1 Hlt Hdt Ht. eapply side_restores; try done. etransitivity; done.
Qed.

(** ** Cross-chain transactions that are not marked yet *)
Lemma tx1_back db o h o1 : h ∉ so_dirtyTX1 o ->
  obj_eqv db o1 (set_so_dirtyTX1 o ({[h]} ∪ so_dirtyTX1 o)) ->
  obj_eqv db (set_so_dirtyTX1 o1 (so_dirtyTX1 o1 ∖ {[h]})) o.
Proof.
  intros Hh He q.
  assert (forall q', match q' with QTX1 _ => False | _ => True end -> obs db o1 q' = obs db o q') as Hq.
  { intros q' Hq'. rewrite He. destruct q'; done. }
  destruct q; try (rewrite <- Hq by done; done). cbn [obs]. f_equal.
  pose proof (Hq (QStoredTX1 txHash) I) as Hs. pose proof (He (QTX1 txHash)) as Ht. cbn [obs] in Hs, Ht.
  injection Hs as Hs. injection Ht as Ht. unfold tx1_of in *. cbn [so_dirtyTX1 set_so_dirtyTX1] in *.
  change (stored_tx1 db (set_so_dirtyTX1 ?x _) ?k) with (stored_tx1 db x k) in *.
  destruct (decide (txHash = h)) as [->|Hne].
  - rewrite !bool_decide_false by set_solver. done.
  - rewrite (bool_decide_ext (txHash ∈ so_dirtyTX1 o1 ∖ {[h]}) (txHash ∈ so_dirtyTX1 o1)) by set_solver.
    rewrite Ht, (bool_decide_ext (txHash ∈ {[h]} ∪ so_dirtyTX1 o) (txHash ∈ so_dirtyTX1 o)) by set_solver. done.
Qed.

Lemma tx3_back db o h o1 : h ∉ so_dirtyTX3 o ->
  obj_eqv db o1 (set_so_dirtyTX3 o ({[h]} ∪ so_dirtyTX3 o)) ->
  obj_eqv db (set_so_dirtyTX3 o1 (so_dirtyTX3 o1 ∖ {[h]})) o.
Proof.
  intros Hh He q.
  assert (forall q', match q' with QTX3 _ => False | _ => True end -> obs db o1 q' = obs db o q') as Hq.
  { intros q' Hq'. rewrite He. destruct q'; done. }
  destruct q; try (rewrite <- Hq by done; done). cbn [obs]. f_equal.
  pose proof (Hq (QStoredTX3 txHash) I) as Hs. pose proof (He (QTX3 txHash)) as Ht. cbn [obs] in Hs, Ht.
  injection Hs as Hs. injection Ht as Ht. unfold tx3_of in *. cbn [so_dirtyTX3 set_so_dirtyTX3] in *.
  change (stored_tx3 db (set_so_dirtyTX3 ?x _) ?k) with (stored_tx3 db x k) in *.
  destruct (decide (txHash = h)) as [->|Hne].
  - rewrite !bool_decide_false by set_solver. done.
  - rewrite (bool_decide_ext (txHash ∈ so_dirtyTX3 o1 ∖ {[h]}) (txHash ∈ so_dirtyTX3 o1)) by set_solver.
    rewrite Ht, (bool_decide_ext (txHash ∈ {[h]} ∪ so_dirtyTX3 o) (txHash ∈ so_dirtyTX3 o)) by set_solver. done.
Qed.

(** A change without the callback. *)
Lemma ok_at_put db a o e f g :
  undo e = undoOn a (x ← deref a; putObject a (g x)) ->
  (forall o1, so_address (f o1) = so_address o1 /\ so_deleted (f o1) = so_deleted o1 /\ so_data (f o1) = so_data o1) ->
  (forall o1, so_address (g o1) = so_address o1 /\ so_deleted (g o1) = so_deleted o1 /\ so_data (g o1) = so_data o1) ->
  (forall o1, obj_eqv db o1 (f o) -> obj_eqv db (g o1) o) ->
  ok_at db a o (record e ;; x ← deref a; putObject a (f x)).
Proof.
  intros Hu Hf Hg Hr s s' x W Hdb Hl H. pose proof Hl as [Ho Hd]. destruct (Hf o) as (F1 & F2 & F3).
  destruct (putObject_upd (set_s_journal s (s_journal s ++ [e])) a (f o)) as (s1 & H1 & [U1 R1] & J1).
  unfold record, modifyS in H. unfold mbind at 1, SM_bind at 1 in H.
  rewrite (deref_live (set_s_journal s (s_journal s ++ [e])) a o _ Ho), H1 in H. injection H as <- _.
  assert (upd a (f o) s s1) as U by (split; [exact U1|exact R1]).
  destruct (proj1 (proj1 W a o Ho)) as [Hw1 Hw2].
  split; [|exists (f o); eapply upd_live; [done|congruence]].
  eapply (step_entry s s1 a o (f o) e _ _ W Hl); [split; congruence|congruence|done|exact J1|exact Hu|].
  intros t o1 [Hlt Hdt] Ht He [Hwt1 Hwt2]. destruct (Hg o1) as (G1 & G2 & G3).
  destruct (putObject_upd t a (g o1)) as (t' & H2 & U2 & J2). exists t', (g o1).
  rewrite (deref_live _ _ _ _ Hlt). rewrite Hdb in *. split_and!; try done; [apply Hr; done|congruence|].
  split; congruence.
Qed.

Lemma so_AddTX1_ok db a o h : h ∉ so_dirtyTX1 o -> ok_at db a o (so_AddTX1 a h).
Proof.
  intros Hh. apply (ok_at_put db a o _ (fun o => set_so_dirtyTX1 o ({[h]} ∪ so_dirtyTX1 o))
    (fun o => set_so_dirtyTX1 o (so_dirtyTX1 o ∖ {[h]}))); try done. intros o1. apply tx1_back. done.
Qed.
Lemma so_AddTX3_ok db a o h : h ∉ so_dirtyTX3 o -> ok_at db a o (so_AddTX3 a h).
Proof.
  intros Hh. apply (ok_at_put db a o _ (fun o => set_so_dirtyTX3 o ({[h]} ∪ so_dirtyTX3 o))
    (fun o => set_so_dirtyTX3 o (so_dirtyTX3 o ∖ {[h]}))); try done. intros o1. apply tx3_back. done.
Qed.

(** ** Touching *)

(** A change nobody can observe, whose undo nobody can observe. *)
Lemma step_silent s s' a o o' e :
  swf s -> live s a o -> similar (s_db s) o o' -> upd a o' s s' -> s_journal s' = s_journal s ++ [e] ->
  (forall t, swf t -> is_Some (view t a) -> exists t', undo e t = Ret (t', tt) /\ calm t t') -> step s s'.
Proof.
  intros W Hl Hs U J Hu.
  destruct (upd_calm a o o' s (set_s_journal s' (s_journal s)) W Hl Hs) as (W' & E & _); [exact U|done|].
  assert (swf s') as W'' by exact W'. pose proof U as [_ (E1 & E2 & _ & _ & _ & _ & E7 & E8)].
  split_and!; try done; [lia|exists []; rewrite app_nil_r; done|]. exists [e]. split; [done|].
  intros t Wt Et. assert (eqv t s) as Ets by (etransitivity; [exact Et|exact E]).
  destruct (Hu t Wt) as (t' & H & Wt' & Et' & F).
  { destruct Ets as (_ & _ & _ & _ & _ & _ & Es). specialize (Es a QData). unfold sobs in Es.
    rewrite (live_view _ _ _ Hl) in Es. destruct (view t a); [eauto|done]. }
  exists t'. split_and!; try apply F; try done.
  - change (reverse [e]) with [e]. cbn [undo_all]. rewrite (SM_bind_Ret _ _ _ _ _ H). done.
  - etransitivity; done.
Qed.

Lemma touched_similar db o b : similar db o (set_so_touched o b).
Proof. split_and!; try done; intros []; done. Qed.

Lemma similar_trans db o1 o2 o3 : similar db o1 o2 -> similar db o2 o3 -> similar db o1 o3.
Proof. intros (? & ? & ?) (? & ? & ?). split_and!; congruence. Qed.

Lemma callOnDirty_upd s a o : s_stateObjects s !! a = Some o ->
  exists s', callOnDirty a s = Ret (s', tt) /\ upd a (settle o) s s' /\ s_journal s' = s_journal s.
Proof.
  intros Ho. unfold callOnDirty, settle. rewrite (deref_live _ _ _ _ Ho). destruct (so_onDirty o).
  - eexists. split; [reflexivity|]. unfold upd, same_rest. split_and!; done.
  - exists s. split; [done|]. split; [|done]. split; [rewrite insert_id; done|]. unfold same_rest. split_and!; done.
Qed.

Lemma touch_undo t a prev prevDirty : swf t -> is_Some (view t a) ->
  exists t', undo (touchChange a prev prevDirty) t = Ret (t', tt) /\ calm t t'.
Proof.
  intros W [o Hv]. cbn [undo]. destruct (negb prev && negb (bool_decide (a = ripemd))).
  2: { exists t. split; [done|]. apply calm_refl. done. }
  destruct (getStateObject_spec t a W) as (t1 & G & C1 & Hlive). rewrite Hv in G. specialize (Hlive o Hv).
  unfold undoOn. rewrite (SM_bind_Ret _ _ _ _ _ G). cbn [is_some]. rewrite (deref_live _ _ _ _ (proj1 Hlive)).
  destruct (putObject_upd t1 a (set_so_touched o prev)) as (t2 & H2 & U2 & J2).
  rewrite (SM_bind_Ret _ _ _ _ _ H2).
  pose proof (upd_calm a o _ t1 t2 (proj1 C1) Hlive (touched_similar _ o prev) U2 J2) as C2.
  destruct prevDirty.
  - exists t2. split; [done|]. eapply calm_trans; done.
  - eexists. split; [reflexivity|]. eapply calm_trans; [done|]. exact C2.
Qed.

Lemma so_touch_ok a : ok_on a (so_touch a).
Proof.
  intros db o. apply ok_at_deref. intros s s' x W Hdb Hl H. pose proof Hl as [Ho Hd].
  set (e := touchChange a (so_touched o) (negb (so_onDirty o))) in *.
  destruct (callOnDirty_upd (set_s_journal s (s_journal s ++ [e])) a o Ho) as (s1 & H1 & [U1 R1] & J1).
  assert (s_stateObjects s1 !! a = Some (settle o)) as Ho1 by (rewrite U1; apply lookup_insert_eq).
  destruct (putObject_upd s1 a (set_so_touched (settle o) true)) as (s2 & H2 & U2 & J2).
  unfold record, modifyS in H. unfold mbind at 1, SM_bind at 1 in H.
  rewrite (SM_bind_Ret _ _ _ _ _ H1), (deref_live _ _ _ _ Ho1), H2 in H. injection H as <- _.
  assert (upd a (set_so_touched (settle o) true) s s2) as U.
  { eapply upd_trans; [|exact U2]. split; [exact U1|exact R1]. }
  assert (similar (s_db s) o (set_so_touched (settle o) true)) as Hs.
  { eapply similar_trans; [apply cached_similar, settle_cached|apply touched_similar]. }
  split; [|eexists; eapply upd_live; [done|destruct Hs as (_ & _ & ->); done]].
  eapply (step_silent s s2 a o _ e); try done; [rewrite J2, J1; done|].
  intros t Wt Hv. apply touch_undo; done.
Qed.

Lemma so_AddZ_ok f a v : ok_on a (so_AddZ f a v).
Proof.
  intros db o. apply ok_at_deref. destruct (v =? 0); [|apply so_SetZ_ok].
  destruct (so_empty o); [apply so_touch_ok|apply ok_at_ret].
Qed.
Lemma so_SubZ_ok f a v : ok_on a (so_SubZ f a v).
Proof. intros db o. apply ok_at_deref. destruct (v =? 0); [apply ok_at_ret|apply so_SetZ_ok]. Qed.
Lemma so_AddSide_ok a c v : ok_on a (so_AddSideChainDepositBalance a c v).
Proof.
  intros db o. apply ok_at_deref. destruct (v =? 0); [|apply so_SetSide_ok].
  destruct (so_empty o); [apply so_touch_ok|apply ok_at_ret].
Qed.
Lemma so_SubSide_ok a c v : ok_on a (so_SubSideChainDepositBalance a c v).
Proof. intros db o. apply ok_at_deref. destruct (v =? 0); [apply ok_at_ret|apply so_SetSide_ok]. Qed.

(** ** Creating accounts *)
Lemma view_None_load s a : swf s -> view s a = None -> loadAccount (s_trie s) a = None.
Proof.
  intros (W & _). unfold view. destruct (s_stateObjects s !! a) as [o|] eqn:Ho.
  - destruct (so_deleted o) eqn:Hd; [|done]. intros _. apply (W a o Ho). done.
  - destruct (loadAccount (s_trie s) a); done.
Qed.

Lemma delete_swf s s' a : swf s -> s_stateObjects s' = delete a (s_stateObjects s) -> same_rest s s' -> swf s'.
Proof.
  intros (W1 & W2 & W3 & W4 & W5) Ho (E1 & E2 & E3 & E4 & E5 & E6 & E7 & E8).
  unfold swf. rewrite E2, E4, E5, E7, E8, Ho. split_and!; try done.
  intros b o'. rewrite lookup_delete. case_decide; [done|apply W1].
Qed.

Lemma step_created s s' a n : swf s -> view s a = None -> owf a n -> so_deleted n = false -> upd a n s s' ->
  s_journal s' = s_journal s ++ [createObjectChange a] -> step s s'.
Proof.
  intros W Hv Hw Hd U J. assert (swf s') as W' by (eapply upd_swf; done).
  pose proof U as [_ (E1 & E2 & E3 & E4 & E5 & E6 & E7 & E8)].
  split_and!; try done; [lia|exists []; rewrite app_nil_r; done|]. exists [createObjectChange a]. split; [done|].
  intros t Wt (D1 & D2 & D3 & D4 & D5 & D6 & Es). eexists. split; [reflexivity|]. split_and!; try done.
  - eapply (delete_swf t _ a Wt); [reflexivity|]. unfold same_rest. split_and!; done.
  - unfold eqv. cbn. split_and!; try congruence. intros b q. unfold sobs, view. cbn. rewrite lookup_delete.
    case_decide as Hab.
    + subst b. fold (view s a). rewrite Hv, D2, E2, (view_None_load s a W Hv). done.
    + fold (view t b). fold (view s b). fold (sobs t b q). fold (sobs s b q).
      rewrite Es, (upd_sobs _ _ _ _ _ _ U Hd), bool_decide_false by done. done.
Qed.

Lemma step_reset s s' a n o : swf s -> live s a o -> owf a n -> so_deleted n = false -> upd a n s s' ->
  s_journal s' = s_journal s ++ [resetObjectChange o] -> step s s'.
Proof.
  intros W Hl Hw Hd U J. assert (swf s') as W' by (eapply upd_swf; done).
  destruct (proj1 (proj1 W a o (proj1 Hl))) as [Ha Hch].
  pose proof U as [_ (E1 & E2 & E3 & E4 & E5 & E6 & E7 & E8)].
  split_and!; try done; [lia|exists []; rewrite app_nil_r; done|]. exists [resetObjectChange o]. split; [done|].
  intros t Wt (D1 & D2 & D3 & D4 & D5 & D6 & Es).
  destruct (putObject_upd t a o) as (t' & H & U' & J'). exists t'. split_and!.
  - change (reverse [resetObjectChange o]) with [resetObjectChange o]. cbn [undo_all undo].
    unfold setStateObject. rewrite Ha, (SM_bind_Ret _ _ _ _ _ H). done.
  - eapply upd_swf; [done|done|split; done|apply Hl].
  - eapply upd_eqv; [done|apply Hl|congruence..| |].
    + intros b q Hne. rewrite Es, (upd_sobs _ _ _ _ _ _ U Hd), bool_decide_false by congruence. done.
    + intros q. unfold sobs. rewrite (live_view _ _ _ Hl), D1, E1. done.
  - destruct U' as [_ U']. unfold same_rest, frame in *. destruct_and!. split_and!; congruence.
Qed.

Context {LL : TrieLaws L}.

(** The object createObject puts in place. *)
Definition fresh_object (a : bytes) : stateObject := set_so_onDirty (newObject a Account_zero true true) false.

Lemma fresh_owf a : owf a (fresh_object a).
Proof. split; [done|]. apply Keccak256_length. Qed.

Lemma createObject_upd s a : swf s ->
  exists s0 s1 e, createObject a s = Ret (s1, view s a) /\ calm s s0 /\ upd a (fresh_object a) s0 s1
    /\ s_journal s1 = s_journal s0 ++ [e]
    /\ match view s a with
       | None => view s0 a = None /\ e = createObjectChange a
       | Some o => live s0 a o /\ e = resetObjectChange o
       end.
Proof.
  intros W. destruct (getStateObject_spec s a W) as (s0 & G & C0 & Hlive).
  unfold createObject. rewrite (SM_bind_Ret _ _ _ _ _ G).
  assert (forall e (p : option stateObject), exists s1, (MarkStateObjectDirty a ;; record e ;;
    setStateObject (fresh_object a) ;; mret p) s0 = Ret (s1, p)
    /\ upd a (fresh_object a) s0 s1 /\ s_journal s1 = s_journal s0 ++ [e]) as Hrun.
  { intros e p. eexists. split; [reflexivity|]. unfold upd, same_rest. split_and!; done. }
  destruct (view s a) as [o|] eqn:Hv; cbn [is_some].
  - specialize (Hlive o eq_refl). destruct (Hrun (resetObjectChange o) (Some o)) as (s1 & H1 & U1 & J1).
    exists s0, s1, (resetObjectChange o). split; [|done].
    unfold mbind at 1, SM_bind at 1. rewrite (deref_live _ _ _ _ (proj1 Hlive)). exact H1.
  - destruct (Hrun (createObjectChange a) None) as (s1 & H1 & U1 & J1).
    exists s0, s1, (createObjectChange a). split_and!; try done; try apply C0.
    destruct C0 as (_ & (_ & _ & _ & _ & _ & _ & Es) & _). specialize (Es a QData). unfold sobs in Es.
    rewrite Hv in Es. destruct (view s0 a); done.
Qed.

(** A new object in place of what [view] shows. *)
Lemma created_step s s0 s1 a n e : swf s -> calm s s0 -> upd a n s0 s1 -> owf a n -> so_deleted n = false ->
  s_journal s1 = s_journal s0 ++ [e] ->
  match view s a with
  | None => view s0 a = None /\ e = createObjectChange a
  | Some o => live s0 a o /\ e = resetObjectChange o
  end -> step s s1.
Proof.
  intros W C U Hw Hd J Hv. eapply step_trans; [apply calm_step; exact C|]. destruct C as (W0 & _).
  destruct (view s a) as [o|]; destruct Hv as [Hv ->].
  - eapply step_reset; done.
  - eapply step_created; done.
Qed.

Lemma GetOrNew_spec s a : swf s ->
  exists s1 o, GetOrNewStateObject a s = Ret (s1, tt) /\ step s s1 /\ live s1 a o
    /\ o = default (fresh_object a) (view s a).
Proof.
  intros W. destruct (getStateObject_spec s a W) as (s0 & G & C0 & Hlive).
  unfold GetOrNewStateObject. rewrite (SM_bind_Ret _ _ _ _ _ G).
  destruct (view s a) as [o|]; cbn [is_some].
  - exists s0, o. split_and!; [done|apply calm_step; done|apply Hlive; done..|done].
  - destruct (createObject_upd s0 a (proj1 C0)) as (s1 & s2 & e & H & C1 & U & J & He).
    exists s2, (fresh_object a). rewrite (SM_bind_Ret _ _ _ _ _ H). split_and!; [done| |eapply upd_live; done..|done].
    eapply step_trans; [apply calm_step; done|]. eapply created_step; try done; [apply C0|apply fresh_owf].
Qed.

Lemma CreateAccount_ok a : ok (CreateAccount a).
Proof.
  intros s s' x W H. destruct (createObject_upd s a W) as (s0 & s1 & e & Hc & C & U & J & He).
  unfold CreateAccount in H. rewrite (SM_bind_Ret _ _ _ _ _ Hc) in H.
  destruct (view s a) as [o|] eqn:Hv.
  - assert (s_stateObjects s1 !! a = Some (fresh_object a)) as Ho1 by (rewrite (proj1 U); apply lookup_insert_eq).
    destruct (changeObject_upd s1 a _ (over_data (fun d => zset FBalance d (acc_Balance (so_data o)))) Ho1)
      as (s2 & H2 & U2 & J2).
    change (changeObject a _ s1) with (so_setZ FBalance a (acc_Balance (so_data o)) s1) in H2.
    rewrite H2 in H. injection H as <- _.
    eapply (created_step s s0 s2 a _ e W C); [eapply upd_trans; done| |done|congruence|rewrite Hv; done].
    split; [done|]. apply Keccak256_length.
  - injection H as <- _. eapply (created_step s s0 s1 a); try done; [apply fresh_owf|rewrite Hv; done].
Qed.

(** ** Suicide *)
Lemma suicided_back db o o1 :
  obj_eqv db o1 (over_data (fun d => zset FBalance d 0) (set_so_suicided o true)) ->
  obj_eqv db (over_data (fun d => zset FBalance d (acc_Balance (so_data o)))
    (set_so_suicided o1 (so_suicided o))) o.
Proof.
  intros He. apply (lens_back _ _ _ o 0 _ (zset_lens FBalance)). intros q.
  destruct (decide (q = QSuicided)) as [->|Hq]; [done|].
  transitivity (obs db o1 q); [destruct q; done|]. rewrite He. destruct q; done.
Qed.

Lemma suicide_restores db a o :
  restores db a o (over_data (fun d => zset FBalance d 0) (settle (set_so_suicided o true)))
    (x ← deref a; putObject a (set_so_suicided x (so_suicided o)) ;;
     so_setZ FBalance a (acc_Balance (so_data o))).
Proof.
  intros t o1 [Ho Hd] Hdb He Hw. rewrite (deref_live _ _ _ _ Ho).
  set (o2 := set_so_suicided o1 (so_suicided o)).
  destruct (putObject_upd t a o2) as (t1 & H1 & U1 & J1). rewrite (SM_bind_Ret _ _ _ _ _ H1).
  assert (s_stateObjects t1 !! a = Some o2) as Ho1 by (rewrite (proj1 U1); apply lookup_insert_eq).
  set (g := over_data (fun d => zset FBalance d (acc_Balance (so_data o)))).
  destruct (changeObject_upd t1 a o2 g Ho1) as (t' & H2 & U2 & J2).
  pose proof (settle_cached db (g o2)) as Hc. pose proof Hc as (Eo & _ & Hd' & _).
  exists t', (settle (g o2)). split_and!; [exact H2|eapply upd_trans; done|congruence| |rewrite Hd'; done|].
  - etransitivity; [exact Eo|]. apply suicided_back. etransitivity; [exact He|].
    unfold settle. destruct (so_onDirty _); [|done]. intros []; done.
  - eapply owf_cached; [done|]. apply (lens_owf _ _ _ _ _ (zset_lens FBalance)). exact Hw.
Qed.

Lemma Suicide_ok a : ok (Suicide a).
Proof.
  intros s s' x W H. destruct (getStateObject_spec s a W) as (s0 & G & C0 & Hlive).
  unfold Suicide in H. rewrite (SM_bind_Ret _ _ _ _ _ G) in H.
  destruct (view s a) as [o|]; cbn [is_some] in H; [|injection H as <- _; apply calm_step; done].
  specialize (Hlive o eq_refl). pose proof Hlive as [Ho Hd]. rewrite (deref_live _ _ _ _ Ho) in H.
  set (e := suicideChange a (so_suicided o) (acc_Balance (so_data o))) in *.
  destruct (changeObject_upd (set_s_journal s0 (s_journal s0 ++ [e])) a o (fun o => set_so_suicided o true) Ho)
    as (s1 & H1 & [U1 R1] & J1).
  unfold record, modifyS in H. unfold mbind at 1, SM_bind at 1 in H.
  change (so_markSuicided a) with (changeObject a (fun o => set_so_suicided o true)) in H.
  rewrite (SM_bind_Ret _ _ _ _ _ H1) in H. set (o1 := settle (set_so_suicided o true)) in *.
  assert (s_stateObjects s1 !! a = Some o1) as Ho1 by (rewrite U1; apply lookup_insert_eq).
  set (o2 := over_data (fun d => zset FBalance d 0) o1).
  destruct (putObject_upd s1 a o2) as (s2 & H2 & U2 & J2).
  rewrite (deref_live _ _ _ _ Ho1) in H.
  change (set_so_data o1 _) with o2 in H. rewrite (SM_bind_Ret _ _ _ _ _ H2) in H. injection H as <- _.
  eapply step_trans; [apply calm_step; exact C0|].
  pose proof (proj1 (proj1 (proj1 C0) a o Ho)) as Hw.
  assert (so_deleted o1 = false) as Hd1 by (unfold o1, settle; destruct (so_onDirty _); done).
  eapply (step_entry s0 s2 a o o2 e (x ← deref a; putObject a (set_so_suicided x (so_suicided o)) ;;
      so_setZ FBalance a (acc_Balance (so_data o))) (mret tt)).
  - apply C0.
  - done.
  - apply (lens_owf _ _ _ _ _ (zset_lens FBalance)). eapply owf_cached; [apply settle_cached with (db := s_db s0)|]. exact Hw.
  - exact Hd1.
  - eapply upd_trans; [|exact U2]. split; [exact U1|exact R1].
  - rewrite J2, J1. done.
  - done.
  - apply suicide_restores.
Qed.

(** ** Refunds, logs and preimages *)

(** A step that leaves the objects alone. *)
Lemma step_other s s' e :
  swf s' -> s_stateObjects s' = s_stateObjects s -> s_db s' = s_db s -> s_trie s' = s_trie s ->
  s_validRevisions s' = s_validRevisions s -> s_nextRevisionId s' = s_nextRevisionId s ->
  s_journal s' = s_journal s ++ [e] ->
  (forall t, swf t -> eqv t s' -> exists t', undo e t = Ret (t', tt) /\ swf t' /\ frame t t'
     /\ s_stateObjects t' = s_stateObjects t /\ s_db t' = s_db t /\ s_trie t' = s_trie t
     /\ s_refund t' = s_refund s /\ s_logs t' = s_logs s /\ s_logSize t' = s_logSize s
     /\ s_preimages t' = s_preimages s) -> step s s'.
Proof.
  intros W' Ho Hdb Ht Hr Hn J Hu. split_and!; try done; [lia|exists []; rewrite app_nil_r; done|].
  exists [e]. split; [done|]. intros t Wt Et.
  destruct (Hu t Wt Et) as (t' & H & Wt' & F & G1 & G2 & G3 & G4 & G5 & G6 & G7).
  destruct Et as (D1 & D2 & _ & _ & _ & _ & Es).
  exists t'. split_and!; try done; try apply F.
  - change (reverse [e]) with [e]. cbn [undo_all]. rewrite (SM_bind_Ret _ _ _ _ _ H). done.
  - unfold eqv. split_and!; try congruence. intros b q.
    transitivity (sobs t b q); [unfold sobs, view; rewrite G1, G2, G3; done|]. rewrite Es.
    unfold sobs, view. rewrite Ho, Hdb, Ht. done.
Qed.

Lemma AddRefund_ok g : ok (AddRefund g).
Proof.
  intros s s' x W H. injection H as <- _. eapply (step_other s _ (refundChange (s_refund s))); try done.
  intros t Wt (D1 & D2 & D3 & D4 & D5 & D6 & _). eexists. split; [reflexivity|]. split_and!; done.
Qed.
Lemma SubRefund_ok g : ok (SubRefund g).
Proof.
  intros s s' x W H. unfold SubRefund, mbind, SM_bind, getS, record, modifyS in H. destruct (g >? s_refund s); [done|].
  injection H as <- _. eapply (step_other s _ (refundChange (s_refund s))); try done.
  intros t Wt (D1 & D2 & D3 & D4 & D5 & D6 & _). eexists. split; [reflexivity|]. split_and!; done.
Qed.
Lemma AddPreimage_ok h v : ok (AddPreimage h v).
Proof.
  intros s s' x W H. unfold AddPreimage, mbind, SM_bind, getS, record, modifyS in H.
  destruct (s_preimages s !! h) eqn:Eh; injection H as <- _; [apply step_refl; done|].
  eapply (step_other s _ (addPreimageChange h)); try done.
  intros t Wt (D1 & D2 & D3 & D4 & D5 & D6 & _). eexists. split; [reflexivity|]. split_and!; try done.
  cbn in *. rewrite D6. apply delete_insert_id. done.
Qed.

Lemma u64_pred_succ n : is_uint64 n -> u64 (u64 (n + 1) - 1) = n.
Proof. unfold is_uint64, u64. intros Hn. rewrite Zminus_mod_idemp_l. replace (n + 1 - 1) with n by lia. apply Z.mod_small. lia. Qed.

Lemma addLog_undo (t : StateDB) (h : bytes) (l0 : list Log) (log : Log) (m : gmap bytes (list Log)) (n : Z) :
  m !! h <> Some [] -> l0 = default [] (m !! h) ->
  s_logs t = <[h := l0 ++ [log]]> m -> s_logSize t = u64 (n + 1) -> is_uint64 n ->
  exists t', undo (addLogChange h) t = Ret (t', tt) /\ s_logs t' = m /\ s_logSize t' = n
    /\ t' = set_s_logSize (set_s_logs t m) n.
Proof.
  intros Hm -> Hl Hs Hn. cbn [undo]. unfold mbind, SM_bind, getS.
  rewrite Hl, lookup_insert_eq. cbn [default from_option id].
  destruct (m !! h) as [[|x l]|] eqn:Em; [done| |]; cbn [default from_option id].
  - destruct l as [|y l]; cbn [app].
    + eexists. split; [reflexivity|]. rewrite Hs, Hl, insert_insert_eq, u64_pred_succ by done.
      cbn [take length Nat.sub]. rewrite insert_id by done. done.
    + eexists. split; [reflexivity|]. rewrite Hs, Hl, insert_insert_eq, u64_pred_succ by done.
      assert (take (length (x :: y :: l ++ [log]) - 1) (x :: y :: l ++ [log]) = x :: y :: l) as ->.
      { change (x :: y :: l ++ [log]) with ((x :: y :: l) ++ [log]).
        rewrite length_app, take_app_length'; [done|]. cbn. lia. }
      rewrite insert_id by done. done.
  - eexists. split; [reflexivity|]. rewrite Hs, Hl, u64_pred_succ, delete_insert_id by done. done.
Qed.

Lemma AddLog_ok log : ok (AddLog log).
Proof.
  intros s s' x W H. pose proof W as (W1 & W2 & W3 & W4 & W5). injection H as <- _.
  eapply (step_other s _ (addLogChange (s_thash s))); try done.
  - unfold swf. cbn. split_and!; try done; [|apply u64_range]. intros h. rewrite lookup_insert.
    case_decide; [|apply W3]. destruct (default [] _); done.
  - intros t Wt (D1 & D2 & D3 & D4 & D5 & D6 & _). cbn in D4, D5.
    destruct (addLog_undo t (s_thash s) _ _ _ _ (W3 _) eq_refl D4 D5 W4) as (t' & H & Hl & Hs & ->).
    eexists. split; [exact H|]. destruct Wt as (T1 & T2 & T3 & T4 & T5). split_and!; done.
Qed.

(** ** The operations of the database *)
Lemma ok_new {A} a (m : SM A) : ok_on a m -> ok (GetOrNewStateObject a ;; m).
Proof.
  intros Hm s s' x W H. destruct (GetOrNew_spec s a W) as (s1 & o & H1 & S1 & Hl & _).
  rewrite (SM_bind_Ret _ _ _ _ _ H1) in H. eapply step_trans; [exact S1|].
  eapply Hm; [apply S1|reflexivity|exact Hl|exact H].
Qed.

Lemma ok_query {A} a (d : A) m : ok_on a m -> ok (query a d m).
Proof.
  intros Hm s s' x W H. destruct (getStateObject_spec s a W) as (s1 & G & C & Hlive).
  unfold query in H. rewrite (SM_bind_Ret _ _ _ _ _ G) in H. eapply step_trans; [apply calm_step; exact C|].
  destruct (view s a) as [o|]; cbn [is_some] in H.
  - eapply Hm; [apply C|reflexivity|apply Hlive; done|exact H].
  - injection H as <- _. apply step_refl, C.
Qed.

Lemma changeShare_ok a u f : ok_on a (changeShare a u f).
Proof.
  intros db o. eapply (ok_at_through _ _ _ _ (fun db o => proxied_of db o u));
    [intros; apply GetAccountProxiedBalance_reads|]. intros. apply so_SetAccountProxiedBalance_ok.
Qed.

Lemma ok_on_seq {A B} a (m : SM A) (k : SM B) : ok_on a m -> ok_on a k -> ok_on a (m ;; k).
Proof. intros Hm Hk db o. apply ok_at_bind; [apply Hm|]. intros _. exact Hk. Qed.

Lemma addReward_ok a u v :
  ok_on a (r ← through a (fun db o => GetDelegateRewardBalance db o u);
           so_SetDelegateRewardBalance a u (Some match r with None => v | Some r => r + v end) ;;
           so_AddRewardBalance a v).
Proof.
  intros db o. eapply (ok_at_through _ _ _ _ (fun db o => reward_of db o u));
    [intros; apply GetDelegateRewardBalance_reads|].
  intros. apply ok_on_seq; [apply so_SetDelegateRewardBalance_ok|apply so_AddZ_ok].
Qed.

End Revert.
