(* ===== verification/StateClient.v ===== *)
(** * Clients of the state database and snapshots

    Clients that read and change the database through its methods, and open
    nested snapshots the way the EVM does for its calls (chain/core/vm/evm.go);
    the theorem that reverting restores every getter. *)
From S2P Require Import Prelude Rlp StateData StateToy StateDB StateObs StateRevert.
Local Open Scope Z_scope.

Section Client.
Context {L : TrieLib} {LL : TrieLaws L}.

Lemma subReward_ok a u v :
  ok_on a (r ← through a (fun db o => GetDelegateRewardBalance db o u);
           match r with
           | None => panicS "you can't subtract the amount from nil balance, check the code, this should not happen"
           | Some r => so_SetDelegateRewardBalance a u (Some (r - v)) ;; so_SubRewardBalance a v
           end).
Proof.
  intros db o. eapply (ok_at_through _ _ _ _ (fun db o => reward_of db o u));
    [intros; apply GetDelegateRewardBalance_reads|].
  intros [r|] o1 _ _; [|intros s s' x _ _ _ H; done].
  apply ok_on_seq; [apply so_SetDelegateRewardBalance_ok|apply so_SubZ_ok].
Qed.

(** A cross-chain transaction is marked when it was not marked before. *)
Definition addTX1_new (a h : bytes) : SM unit :=
  b ← HasTX1 a h;
  if (b : bool) then mret tt else AddTX1 a h.
Definition addTX3_new (a h : bytes) : SM unit :=
  b ← HasTX3 a h;
  if (b : bool) then mret tt else AddTX3 a h.

(** ** Readers *)
Definition ans {A} (r : outcome (StateDB * A)) : option A :=
  match r with Ret (_, x) => Some x | Panic _ => None end.

(** The answer depends on what can be observed only, and asking changes
    nothing that can be. *)
Definition reader {A} (m : SM A) : Prop :=
  (forall s s' x, swf s -> m s = Ret (s', x) -> calm s s')
  /\ (forall s t, swf s -> swf t -> eqv s t -> ans (m s) = ans (m t)).

Definition obj_reader {A} (a : bytes) (m : SM A) (F : DB -> stateObject -> option A) : Prop :=
  (forall s o, swf s -> live s a o ->
     match F (s_db s) o with
     | Some v => exists s', m s = Ret (s', v) /\ calm s s'
     | None => exists e, m s = Panic e
     end)
  /\ (forall db o o', obj_eqv db o o' -> F db o = F db o').

Lemma obj_reader_deref {A} a (p : stateObject -> A) :
  (forall db o o', obj_eqv db o o' -> p o = p o') ->
  obj_reader a (o ← deref a; mret (p o)) (fun _ o => Some (p o)).
Proof.
  intros Hp. split; [|intros; f_equal; eauto]. intros s o W [Ho _].
  exists s. rewrite (deref_live _ _ _ _ Ho). split; [done|]. apply calm_refl. done.
Qed.

Lemma obj_reader_through {A B} a f (pure : DB -> stateObject -> option A) (h : A -> B) :
  (forall db, reads_value db f (pure db)) -> (forall db o o', obj_eqv db o o' -> pure db o = pure db o') ->
  obj_reader a (v ← through a f; mret (h v)) (fun db o => h <$> pure db o).
Proof.
  intros Hf Hp. split; [|intros db o o' He; rewrite (Hp db o o' He); done]. intros s o W Hl.
  pose proof (through_spec f pure a o s Hf W Hl) as Hs. destruct (pure (s_db s) o) as [v|]; cbn.
  - destruct Hs as (s1 & o1 & H1 & C & _). exists s1. rewrite (SM_bind_Ret _ _ _ _ _ H1). done.
  - destruct Hs as (e & He). exists e. unfold mbind, SM_bind. rewrite He. done.
Qed.

(** The same for a method without a continuation. *)
Lemma obj_reader_method {A} a f (pure : DB -> stateObject -> option A) :
  (forall db, reads_value db f (pure db)) -> (forall db o o', obj_eqv db o o' -> pure db o = pure db o') ->
  obj_reader a (through a f) pure.
Proof.
  intros Hf Hp. split; [|done]. intros s o W Hl.
  pose proof (through_spec f pure a o s Hf W Hl) as Hs. destruct (pure (s_db s) o) as [v|]; [|done].
  destruct Hs as (s1 & o1 & H1 & C & _). eauto.
Qed.

Lemma eqv_view s t a : eqv s t ->
  match view s a, view t a with
  | None, None => True
  | Some o, Some o' => obj_eqv (s_db s) o o'
  | _, _ => False
  end.
Proof.
  intros (D & _ & _ & _ & _ & _ & Es).
  assert (forall q, sobs s a q = sobs t a q) as E by done. unfold sobs in E. rewrite <- D in E.
  destruct (view s a), (view t a); try (specialize (E QData); done).
  intros q. specialize (E q). by simplify_eq/=.
Qed.

Lemma reader_query {A} a (d : A) m F : obj_reader a m F -> reader (query a d m).
Proof.
  intros [Hm HF].
  assert (forall s, swf s -> exists s1, calm s s1 /\
    match view s a with
    | None => query a d m s = Ret (s1, d)
    | Some o => match F (s_db s) o with
                | Some v => exists s2, query a d m s = Ret (s2, v) /\ calm s s2
                | None => exists e, query a d m s = Panic e
                end
    end) as Hq.
  { intros s W. destruct (getStateObject_spec s a W) as (s1 & G & C & Hlive). exists s1. split; [done|].
    unfold query. rewrite (SM_bind_Ret _ _ _ _ _ G). destruct (view s a) as [o|]; cbn [is_some]; [|done].
    specialize (Hm s1 o (proj1 C) (Hlive o eq_refl)).
    replace (s_db s1) with (s_db s) in Hm by (symmetry; apply (proj1 (proj2 C))).
    destruct (F (s_db s) o) as [v|]; [|done]. destruct Hm as (s2 & H2 & C2). exists s2. split; [done|].
    eapply calm_trans; done. }
  split.
  - intros s s' x W H. destruct (Hq s W) as (s1 & C & Hs). destruct (view s a) as [o|].
    + destruct (F (s_db s) o); destruct Hs as (s2 & Hs); [destruct Hs as [Hs C2]|]; rewrite Hs in H; [|done].
      injection H as <- _. done.
    + rewrite Hs in H. injection H as <- _. done.
  - intros s t Ws Wt E. destruct (Hq s Ws) as (s1 & _ & Hs), (Hq t Wt) as (t1 & _ & Ht).
    pose proof (eqv_view s t a E) as Hv. destruct E as (D & _).
    destruct (view s a) as [o|], (view t a) as [o'|]; try done; [|rewrite Hs, Ht; done].
    rewrite <- D, <- (HF _ _ _ Hv) in Ht. destruct (F (s_db s) o).
    + destruct Hs as (s2 & -> & _), Ht as (t2 & -> & _). done.
    + destruct Hs as (e & ->), Ht as (e' & ->). done.
Qed.

Lemma reader_map {A B} (m : SM A) (h : A -> B) : reader m -> reader (x ← m; mret (h x)).
Proof.
  intros [H1 H2]. split.
  - intros s s' y W H. apply SM_bind_inv in H as (s1 & x & Hm & Hr). injection Hr as <- _. eapply H1; done.
  - intros s t Ws Wt E. specialize (H2 s t Ws Wt E). unfold mbind, SM_bind.
    destruct (m s) as [[s1 x]|], (m t) as [[t1 y]|]; cbn in *; congruence.
Qed.

Lemma reader_ok {A} (m : SM A) : reader m -> ok m.
Proof. intros [H _] s s' x W Hm. apply calm_step. eapply H; done. Qed.

(** What a client may read: the getters of the database. *)
Inductive getter :=
  | GExist (a : bytes)
  | GBalance (a : bytes)
  | GNonce (a : bytes)
  | GDepositBalance (a : bytes)
  | GChainBalance (a : bytes)
  | GDelegateBalance (a : bytes)
  | GTotalProxiedBalance (a : bytes)
  | GTotalDepositProxiedBalance (a : bytes)
  | GTotalPendingRefundBalance (a : bytes)
  | GTotalRewardBalance (a : bytes)
  | GTotalAvailableRewardBalance (a : bytes)
  | GCommission (a : bytes)
  | GSideChainDepositBalance (c a : bytes)
  | GCode (a : bytes)
  | GCodeHash (a : bytes)
  | GState (a k : bytes)
  | GCommittedState (a k : bytes)
  | GHasTX1 (a h : bytes)
  | GHasTX3 (a h : bytes)
  | GHasSuicided (a : bytes)
  | GProxiedBalanceByUser (a u : bytes)
  | GDepositProxiedBalanceByUser (a u : bytes)
  | GPendingRefundBalanceByUser (a u : bytes)
  | GRewardBalanceByDelegateAddress (a u : bytes)
  | GIsCandidate (a : bytes)
  | GIsCleanAddress (a : bytes)
  | GPubkey (a : bytes)
  | GRefund
  | GLogs (h : bytes).

Inductive answer :=
  | AZ (z : Z) | AB (b : bool) | AS (s : bytes) | AO (c : option bytes) | AL (l : list Log).

Definition runGetter (g : getter) : SM answer :=
  match g with
  | GExist a => x ← Exist a; mret (AB x)
  | GBalance a => x ← GetBalance a; mret (AZ x)
  | GNonce a => x ← GetNonce a; mret (AZ x)
  | GDepositBalance a => x ← GetDepositBalance a; mret (AZ x)
  | GChainBalance a => x ← GetChainBalance a; mret (AZ x)
  | GDelegateBalance a => x ← GetDelegateBalance a; mret (AZ x)
  | GTotalProxiedBalance a => x ← GetTotalProxiedBalance a; mret (AZ x)
  | GTotalDepositProxiedBalance a => x ← GetTotalDepositProxiedBalance a; mret (AZ x)
  | GTotalPendingRefundBalance a => x ← GetTotalPendingRefundBalance a; mret (AZ x)
  | GTotalRewardBalance a => x ← GetTotalRewardBalance a; mret (AZ x)
  | GTotalAvailableRewardBalance a => x ← GetTotalAvailableRewardBalance a; mret (AZ x)
  | GCommission a => x ← GetCommission a; mret (AZ x)
  | GSideChainDepositBalance c a => x ← GetSideChainDepositBalance c a; mret (AZ x)
  | GCode a => x ← GetCode a; mret (AO x)
  | GCodeHash a => x ← GetCodeHash a; mret (AS x)
  | GState a k => x ← GetState a k; mret (AS x)
  | GCommittedState a k => x ← StateDB_GetCommittedState a k; mret (AS x)
  | GHasTX1 a h => x ← HasTX1 a h; mret (AB x)
  | GHasTX3 a h => x ← HasTX3 a h; mret (AB x)
  | GHasSuicided a => x ← HasSuicided a; mret (AB x)
  | GProxiedBalanceByUser a u => x ← GetProxiedBalanceByUser a u; mret (AZ x)
  | GDepositProxiedBalanceByUser a u => x ← GetDepositProxiedBalanceByUser a u; mret (AZ x)
  | GPendingRefundBalanceByUser a u => x ← GetPendingRefundBalanceByUser a u; mret (AZ x)
  | GRewardBalanceByDelegateAddress a u => x ← GetRewardBalanceByDelegateAddress a u; mret (AZ x)
  | GIsCandidate a => x ← IsCandidate a; mret (AB x)
  | GIsCleanAddress a => x ← IsCleanAddress a; mret (AB x)
  | GPubkey a => x ← GetPubkey a; mret (AS x)
  | GRefund  => x ← GetRefund; mret (AZ x)
  | GLogs h => x ← GetLogs h; mret (AL x)
  end.
(** Observed values agree on equivalent objects. *)
Lemma eqv_data {A} (p : Account -> A) db o o' :
  (forall d, p (erase d) = p d) -> obj_eqv db o o' -> p (so_data o) = p (so_data o').
Proof. intros Hp H. rewrite <- Hp, (VData_inj _ _ (H QData)). apply Hp. Qed.

Lemma reader_data {A} a (d : A) (p : Account -> A) : (forall d, p (erase d) = p d) ->
  reader (query a d (o ← deref a; mret (p (so_data o)))).
Proof.
  intros Hp. eapply reader_query, (obj_reader_deref a (fun o => p (so_data o))).
  intros db o o'. apply eqv_data. done.
Qed.

Lemma reader_exist a : reader (Exist a).
Proof.
  assert (forall s, swf s -> exists s1, getStateObject a s = Ret (s1, is_some (view s a)) /\ calm s s1) as G.
  { intros s W. destruct (getStateObject_spec s a W) as (s1 & G & C & _). eauto. }
  split.
  - intros s s' x W H. destruct (G s W) as (s1 & H1 & C). unfold Exist in H. rewrite H1 in H. injection H as <- _. done.
  - intros s t Ws Wt E. destruct (G s Ws) as (s1 & H1 & _), (G t Wt) as (t1 & H2 & _).
    unfold Exist. rewrite H1, H2. cbn. pose proof (eqv_view s t a E). destruct (view s a), (view t a); done.
Qed.

Ltac observed q :=
  intros db o o' He; specialize (He q); cbn [obs] in He; first [congruence | injection He as He; exact He].

Lemma reader_HasTX1 a h : reader (HasTX1 a h).
Proof.
  eapply reader_query, obj_reader_method; [intros; apply so_HasTX1_reads|]. observed (QTX1 h).
Qed.
Lemma reader_HasTX3 a h : reader (HasTX3 a h).
Proof.
  eapply reader_query, obj_reader_method; [intros; apply so_HasTX3_reads|]. observed (QTX3 h).
Qed.
Lemma reader_proxied {A} a u (d : A) p :
  reader (query a d (v ← through a (fun db o => GetAccountProxiedBalance db o u); mret (p v))).
Proof.
  eapply reader_query, (obj_reader_through _ _ (fun db o => proxied_of db o u)).
  - intros. apply GetAccountProxiedBalance_reads.
  - observed (QProxied u).
Qed.

Definition is_clean (d : Account) : bool :=
  negb (acc_Candidate d) && bool_decide (acc_ProxiedRoot d = EmptyRootHash).

Lemma runGetter_reader g : reader (runGetter g).
Proof.
  destruct g; apply reader_map;
    first [ apply reader_exist | apply reader_HasTX1 | apply reader_HasTX3 | apply reader_proxied
          | apply (reader_data _ _ (fun d => BytesToHash (acc_CodeHash d))); done
          | apply (reader_data _ _ acc_Candidate); done
          | apply (reader_data _ _ is_clean); done
          | apply (reader_data _ _ acc_Pubkey); done
          | apply reader_data; intros []; done
          | idtac ].
  - eapply reader_query, (obj_reader_deref a (fun o => so_SideChainDepositBalance o c)). observed (QSide c).
  - eapply reader_query, obj_reader_method; [intros; apply so_Code_reads|]. observed QCode.
  - eapply reader_query, obj_reader_method; [intros; apply so_GetState_reads|]. observed (QStorage k).
  - eapply reader_query, obj_reader_method; [intros; apply GetCommittedState_reads|]. observed (QCommitted k).
  - eapply reader_query, (obj_reader_deref a so_suicided). observed QSuicided.
  - eapply reader_query, (obj_reader_through _ _ (fun db o => reward_of db o u));
      [intros; apply GetDelegateRewardBalance_reads|]. observed (QReward u).
  - split; [intros s s' x W H; inversion H; subst; apply calm_refl; done|]. intros s t _ _ (_ & _ & H & _). unfold ans, GetRefund, mbind, SM_bind, getS. rewrite H. done.
  - split; [intros s s' x W H; inversion H; subst; apply calm_refl; done|]. intros s t _ _ (_ & _ & _ & H & _). unfold ans, GetLogs, mbind, SM_bind, getS. rewrite H. done.
Qed.

(** ** Writers *)
Lemma query_method_ans {A} a (d : A) f (pure : DB -> stateObject -> option A) s :
  (forall db, reads_value db f (pure db)) -> swf s ->
  ans (query a d (through a f) s) = match view s a with None => Some d | Some o => pure (s_db s) o end.
Proof.
  intros Hf W. destruct (getStateObject_spec s a W) as (s1 & G & C & Hlive).
  unfold query. rewrite (SM_bind_Ret _ _ _ _ _ G). destruct (view s a) as [o|]; cbn [is_some]; [|done].
  pose proof (through_spec f pure a o s1 Hf (proj1 C) (Hlive o eq_refl)) as Hs.
  replace (s_db s1) with (s_db s) in Hs by (symmetry; apply (proj1 (proj2 C))).
  destruct (pure (s_db s) o).
  - destruct Hs as (s2 & o1 & -> & _). done.
  - destruct Hs as (e & ->). done.
Qed.

Lemma addTX1_new_ok a h : ok (addTX1_new a h).
Proof.
  intros s s' x W H. unfold addTX1_new in H. apply SM_bind_inv in H as (s1 & b & H1 & H2).
  pose proof (proj1 (reader_HasTX1 a h) _ _ _ W H1) as C. eapply step_trans; [apply calm_step; exact C|].
  destruct b; [injection H2 as <- _; apply step_refl, C|].
  pose proof (proj2 (reader_HasTX1 a h) s1 s (proj1 C) W (proj1 (proj2 C))) as Hn. rewrite H1 in Hn.
  destruct C as (W1 & _). unfold HasTX1 in Hn.
  rewrite (query_method_ans _ _ _ _ _ (fun db => so_HasTX1_reads db h) W1) in Hn.
  unfold AddTX1 in H2. destruct (GetOrNew_spec s1 a W1) as (s2 & o & G & S2 & Hl & Ho).
  rewrite (SM_bind_Ret _ _ _ _ _ G) in H2.
  eapply step_trans; [exact S2|]. eapply (so_AddTX1_ok (s_db s2) a o h); try done; [|apply S2].
  destruct (view s1 a) as [o'|]; cbn in Ho; subst o; [|set_solver].
  unfold tx1_of in Hn. case_bool_decide; done.
Qed.

Lemma addTX3_new_ok a h : ok (addTX3_new a h).
Proof.
  intros s s' x W H. unfold addTX3_new in H. apply SM_bind_inv in H as (s1 & b & H1 & H2).
  pose proof (proj1 (reader_HasTX3 a h) _ _ _ W H1) as C. eapply step_trans; [apply calm_step; exact C|].
  destruct b; [injection H2 as <- _; apply step_refl, C|].
  pose proof (proj2 (reader_HasTX3 a h) s1 s (proj1 C) W (proj1 (proj2 C))) as Hn. rewrite H1 in Hn.
  destruct C as (W1 & _). unfold HasTX3 in Hn.
  rewrite (query_method_ans _ _ _ _ _ (fun db => so_HasTX3_reads db h) W1) in Hn.
  unfold AddTX3 in H2. destruct (GetOrNew_spec s1 a W1) as (s2 & o & G & S2 & Hl & Ho).
  rewrite (SM_bind_Ret _ _ _ _ _ G) in H2.
  eapply step_trans; [exact S2|]. eapply (so_AddTX3_ok (s_db s2) a o h); try done; [|apply S2].
  destruct (view s1 a) as [o'|]; cbn in Ho; subst o; [|set_solver].
  unfold tx3_of in Hn. case_bool_decide; done.
Qed.

(** What a client may change: the setters of the database. *)
Inductive mutator :=
  | MAddBalance (a : bytes) (v : Z)
  | MSubBalance (a : bytes) (v : Z)
  | MSetBalance (a : bytes) (v : Z)
  | MAddDepositBalance (a : bytes) (v : Z)
  | MSubDepositBalance (a : bytes) (v : Z)
  | MSetDepositBalance (a : bytes) (v : Z)
  | MAddChainBalance (a : bytes) (v : Z)
  | MSubChainBalance (a : bytes) (v : Z)
  | MSetChainBalance (a : bytes) (v : Z)
  | MAddDelegateBalance (a : bytes) (v : Z)
  | MSubDelegateBalance (a : bytes) (v : Z)
  | MAddRewardBalance (a : bytes) (v : Z)
  | MSubRewardBalance (a : bytes) (v : Z)
  | MAddAvailableRewardBalance (a : bytes) (v : Z)
  | MSubAvailableRewardBalance (a : bytes) (v : Z)
  | MAddSideChainDepositBalance (a c : bytes) (v : Z)
  | MSubSideChainDepositBalance (a c : bytes) (v : Z)
  | MSetSideChainDepositBalance (a c : bytes) (v : Z)
  | MAddProxiedBalanceByUser (a u : bytes) (v : Z)
  | MAddDepositProxiedBalanceByUser (a u : bytes) (v : Z)
  | MAddPendingRefundBalanceByUser (a u : bytes) (v : Z)
  | MSubProxiedBalanceByUser (a u : bytes) (v : Z)
  | MSubDepositProxiedBalanceByUser (a u : bytes) (v : Z)
  | MSubPendingRefundBalanceByUser (a u : bytes) (v : Z)
  | MAddRewardBalanceByDelegateAddress (a u : bytes) (v : Z)
  | MSubRewardBalanceByDelegateAddress (a u : bytes) (v : Z)
  | MSetNonce (a : bytes) (v : Z)
  | MSetCode (a : bytes) (c : option bytes)
  | MSetState (a k v : bytes)
  | MSetCommission (a : bytes) (v : Z)
  | MSetBanned (a : bytes) (b : bool)
  | MSetBannedTime (a : bytes) (v : Z)
  | MSetMinedBlocks (a : bytes) (v : Z)
  | MApplyForCandidate (a pubkey : bytes) (v : Z)
  | MCancelCandidate (a : bytes) (allRefund : bool)
  | MSuicide (a : bytes)
  | MCreateAccount (a : bytes)
  | MAddTX1 (a h : bytes)
  | MAddTX3 (a h : bytes)
  | MAddLog (l : Log)
  | MAddPreimage (h v : bytes)
  | MAddRefund (v : Z)
  | MSubRefund (v : Z).

Definition runMutator (m : mutator) : SM unit :=
  match m with
  | MAddBalance a v => AddBalance a v
  | MSubBalance a v => SubBalance a v
  | MSetBalance a v => SetBalance a v
  | MAddDepositBalance a v => AddDepositBalance a v
  | MSubDepositBalance a v => SubDepositBalance a v
  | MSetDepositBalance a v => SetDepositBalance a v
  | MAddChainBalance a v => AddChainBalance a v
  | MSubChainBalance a v => SubChainBalance a v
  | MSetChainBalance a v => SetChainBalance a v
  | MAddDelegateBalance a v => AddDelegateBalance a v
  | MSubDelegateBalance a v => SubDelegateBalance a v
  | MAddRewardBalance a v => AddRewardBalance a v
  | MSubRewardBalance a v => SubRewardBalance a v
  | MAddAvailableRewardBalance a v => AddAvailableRewardBalance a v
  | MSubAvailableRewardBalance a v => SubAvailableRewardBalance a v
  | MAddSideChainDepositBalance a c v => AddSideChainDepositBalance a c v
  | MSubSideChainDepositBalance a c v => SubSideChainDepositBalance a c v
  | MSetSideChainDepositBalance a c v => SetSideChainDepositBalance a c v
  | MAddProxiedBalanceByUser a u v => AddProxiedBalanceByUser a u v
  | MAddDepositProxiedBalanceByUser a u v => AddDepositProxiedBalanceByUser a u v
  | MAddPendingRefundBalanceByUser a u v => AddPendingRefundBalanceByUser a u v
  | MSubProxiedBalanceByUser a u v => SubProxiedBalanceByUser a u v
  | MSubDepositProxiedBalanceByUser a u v => SubDepositProxiedBalanceByUser a u v
  | MSubPendingRefundBalanceByUser a u v => SubPendingRefundBalanceByUser a u v
  | MAddRewardBalanceByDelegateAddress a u v => AddRewardBalanceByDelegateAddress a u v
  | MSubRewardBalanceByDelegateAddress a u v => SubRewardBalanceByDelegateAddress a u v
  | MSetNonce a v => SetNonce a v
  | MSetCode a c => SetCode a c
  | MSetState a k v => SetState a k v
  | MSetCommission a v => SetCommission a v
  | MSetBanned a b => SetBanned a b
  | MSetBannedTime a v => SetBannedTime a v
  | MSetMinedBlocks a v => SetMinedBlocks a v
  | MApplyForCandidate a pubkey v => ApplyForCandidate a pubkey v
  | MCancelCandidate a allRefund => CancelCandidate a allRefund
  | MSuicide a => Suicide a ;; mret tt
  | MCreateAccount a => CreateAccount a
  | MAddTX1 a h => addTX1_new a h
  | MAddTX3 a h => addTX3_new a h
  | MAddLog l => AddLog l
  | MAddPreimage h v => AddPreimage h v
  | MAddRefund v => AddRefund v
  | MSubRefund v => SubRefund v
  end.

Lemma runMutator_ok m : ok (runMutator m).
Proof.
  destruct m; cbn [runMutator].
  - apply ok_new, so_AddZ_ok.
  - apply ok_new, so_SubZ_ok.
  - apply ok_new, so_SetZ_ok.
  - apply ok_new, so_AddZ_ok.
  - apply ok_new, so_SubZ_ok.
  - apply ok_new, so_SetZ_ok.
  - apply ok_new, so_AddZ_ok.
  - apply ok_new, so_SubZ_ok.
  - apply ok_new, so_SetZ_ok.
  - apply ok_new, so_AddZ_ok.
  - apply ok_new, so_SubZ_ok.
  - apply ok_new, so_AddZ_ok.
  - apply ok_new, so_SubZ_ok.
  - apply ok_query, so_AddZ_ok.
  - apply ok_query, so_SubZ_ok.
  - apply ok_new, so_AddSide_ok.
  - apply ok_new, so_SubSide_ok.
  - apply ok_new, so_SetSide_ok.
  - apply ok_new, ok_on_seq; [apply changeShare_ok|apply so_AddZ_ok].
  - apply ok_new, ok_on_seq; [apply changeShare_ok|apply so_AddZ_ok].
  - apply ok_new, ok_on_seq; [apply changeShare_ok|apply so_AddZ_ok].
  - apply ok_new, ok_on_seq; [apply changeShare_ok|apply so_SubZ_ok].
  - apply ok_new, ok_on_seq; [apply changeShare_ok|apply so_SubZ_ok].
  - apply ok_new, ok_on_seq; [apply changeShare_ok|apply so_SubZ_ok].
  - apply ok_new, addReward_ok.
  - apply ok_new, subReward_ok.
  - apply ok_new, so_SetZ_ok.
  - apply ok_new, so_SetCode_ok, Keccak256_length.
  - apply ok_new, so_SetState_ok.
  - apply ok_new, so_SetZ_ok.
  - apply ok_new, so_SetBanned_ok.
  - apply ok_new, so_SetZ_ok.
  - apply ok_new, so_SetZ_ok.
  - apply ok_new; apply ok_on_seq; [apply so_SetCandidate_ok|]; apply ok_on_seq; [apply so_SetZ_ok|apply so_SetPubkey_ok].
  - apply ok_new; apply ok_on_seq; [apply so_SetCandidate_ok|]; apply ok_on_seq; [apply so_SetPubkey_ok|]; destruct allRefund; [apply so_SetZ_ok|intros db o; apply ok_at_ret].
  - apply ok_bind; [apply Suicide_ok|intros; apply ok_ret].
  - apply CreateAccount_ok.
  - apply addTX1_new_ok.
  - apply addTX3_new_ok.
  - apply AddLog_ok.
  - apply AddPreimage_ok.
  - apply AddRefund_ok.
  - apply SubRefund_ok.
Qed.

(** ** sort.Search *)
Lemma Search_loop_spec fuel f i j :
  (j - i < fuel)%nat -> (i <= j)%nat -> (forall a b, (a <= b < j)%nat -> f a = true -> f b = true) ->
  (i <= Search_loop fuel f i j <= j)%nat
  /\ (forall a, (i <= a < Search_loop fuel f i j)%nat -> f a = false)
  /\ ((Search_loop fuel f i j < j)%nat -> f (Search_loop fuel f i j) = true).
Proof.
  revert i j. induction fuel as [|fuel IH]; intros i j Hf Hij Hm; [lia|]. cbn [Search_loop].
  destruct (Nat.ltb_spec i j) as [Hlt|Hge]; [|split_and!; [lia..|intros; lia|lia]].
  set (h := ((i + j) / 2)%nat).
  assert (i <= h < j)%nat as Hh.
  { unfold h. split; [apply Nat.div_le_lower_bound; lia|apply Nat.Div0.div_lt_upper_bound; lia]. }
  destruct (f h) eqn:Eh.
  - destruct (IH i h) as (R & H1 & H2); [lia|lia| |].
    { intros a b Hab. apply Hm. lia. }
    split_and!; [lia..|done|]. intros _.
    destruct (decide (Search_loop fuel f i h < h)%nat); [auto|]. replace (Search_loop fuel f i h) with h by lia. done.
  - destruct (IH (S h) j) as (R & H1 & H2); [lia|lia|done|]. split_and!; [lia..| |done].
    intros a Ha. destruct (decide (a <= h)%nat); [|apply H1; lia].
    destruct (f a) eqn:Ea; [|done]. rewrite (Hm a h) in Eh; [done|lia|done].
Qed.

(** The first index at which a monotone predicate holds. *)
Lemma Search_spec n f : (forall a b, (a <= b < n)%nat -> f a = true -> f b = true) ->
  (Search n f <= n)%nat /\ (forall a, (a < Search n f)%nat -> f a = false)
  /\ ((Search n f < n)%nat -> f (Search n f) = true).
Proof.
  intros Hm. destruct (Search_loop_spec (S n) f 0 n) as (R & H1 & H2); [lia|lia|done|].
  unfold Search. split_and!; [lia| |done]. intros a Ha. apply H1. lia.
Qed.

(** ** Snapshots *)
Lemma Snapshot_spec s : swf s ->
  exists s1, Snapshot s = Ret (s1, s_nextRevisionId s) /\ swf s1 /\ eqv s1 s /\ s_journal s1 = s_journal s
    /\ s_nextRevisionId s1 = s_nextRevisionId s + 1
    /\ s_validRevisions s1 = s_validRevisions s
         ++ [{| rev_id := s_nextRevisionId s; rev_journalIndex := length (s_journal s) |}].
Proof.
  intros (W1 & W2 & W3 & W4 & [W5 W6]). unfold Snapshot, mbind, SM_bind, getS, modifyS, mret, SM_ret.
  eexists. split; [reflexivity|].
  split; [|split_and!; done]. unfold swf. cbn. split_and!; try done. split.
  - intros i j ri rj Hij Hi Hj. destruct (decide (j < length (s_validRevisions s))%nat) as [Hl|Hl].
    + rewrite lookup_app_l in Hi, Hj by lia. exact (W5 i j ri rj Hij Hi Hj).
    + apply lookup_lt_Some in Hj as Hj'. rewrite length_app in Hj'. cbn in Hj'.
      assert (j = length (s_validRevisions s)) as -> by lia.
      rewrite lookup_app_r, Nat.sub_diag in Hj by lia. injection Hj as <-. cbn.
      rewrite lookup_app_l in Hi by lia. apply (proj1 (Forall_lookup _ _) W6 _ _ Hi).
  - apply Forall_app. split; [|apply Forall_singleton; cbn; lia].
    eapply Forall_impl; [exact W6|]. cbn. lia.
Qed.

(** Reverting finds the snapshot it is given. *)
Lemma find_revision revs r rs next : revs_wf (revs ++ r :: rs) next ->
  Search (length (revs ++ r :: rs)) (fun i =>
    match (revs ++ r :: rs) !! i with Some x => rev_id r <=? rev_id x | None => false end) = length revs.
Proof.
  intros [Hs _].
  assert ((revs ++ r :: rs) !! length revs = Some r) as Hr.
  { rewrite lookup_app_r, Nat.sub_diag by lia. done. }
  set (f := fun i => _).
  destruct (Search_spec (length (revs ++ r :: rs)) f) as (R & H1 & H2).
  { intros a b Hab. unfold f. destruct (lookup_lt_is_Some_2 (revs ++ r :: rs) a) as [x Hx]; [lia|].
    destruct (lookup_lt_is_Some_2 (revs ++ r :: rs) b) as [y Hy]; [lia|]. rewrite Hx, Hy.
    destruct (decide (a = b)) as [->|]; [congruence|].
    pose proof (Hs a b x y ltac:(lia) Hx Hy). lia. }
  destruct (Nat.lt_trichotomy (Search (length (revs ++ r :: rs)) f) (length revs)) as [Hlt|[->|Hgt]]; [|done|].
  - rewrite length_app in *. cbn in *. specialize (H2 ltac:(lia)). unfold f in H2 at 1.
    destruct (_ !! _) as [x|] eqn:Hx in H2; [|done]. pose proof (Hs _ _ _ _ Hlt Hx Hr). lia.
  - specialize (H1 _ Hgt). unfold f in H1. rewrite Hr in H1. lia.
Qed.

(** The client-visible effect of reverting what followed a snapshot. *)
Lemma revert_spec s s1 s2 id : swf s -> Snapshot s = Ret (s1, id) -> step s1 s2 ->
  exists s3, RevertToSnapshot id s2 = Ret (s3, tt) /\ swf s3 /\ eqv s3 s /\ s_journal s3 = s_journal s
    /\ s_validRevisions s3 = s_validRevisions s /\ s_nextRevisionId s3 = s_nextRevisionId s2.
Proof.
  intros W Hs Hst. destruct (Snapshot_spec s W) as (s1' & Hs' & W1 & E1 & J1 & N1 & R1).
  rewrite Hs' in Hs. injection Hs as <- <-.
  destruct Hst as (W2 & D2 & T2 & N2 & (rs & R2 & _) & js & J2 & Hu).
  destruct (Hu s2 W2 (reflexivity s2)) as (t & Ht & Wt & Et & Ft1 & Ft2 & Ft3).
  set (r := {| rev_id := s_nextRevisionId s; rev_journalIndex := length (s_journal s) |}) in *.
  assert (s_validRevisions s2 = s_validRevisions s ++ r :: rs) as Hrevs.
  { rewrite R2, R1, <- app_assoc. done. }
  pose proof W2 as (_ & _ & _ & _ & Wr). rewrite Hrevs in Wr. pose proof (find_revision _ _ _ _ Wr) as Hf.
  unfold RevertToSnapshot, mbind, SM_bind, getS, modifyS. rewrite Hrevs.
  change (rev_id r) with (s_nextRevisionId s) in Hf. rewrite !Hf.
  assert ((s_validRevisions s ++ r :: rs) !! length (s_validRevisions s) = Some r) as ->.
  { rewrite lookup_app_r, Nat.sub_diag by lia. done. }
  rewrite Z.eqb_refl. cbn [rev_journalIndex r]. rewrite J2, J1, drop_app_length, Ht.
  eexists. split; [reflexivity|]. rewrite Ft1, J2, J1, !take_app_length. split_and!; try done.
  - destruct Wt as (T1 & T2' & T3 & T4 & T5). unfold swf. cbn. split_and!; try done.
    rewrite Ft3. destruct Wr as [Wr1 Wr2]. apply Forall_app in Wr2 as [Wr2 _]. split; [|done].
    intros i j ri rj Hij Hi Hj. exact (Wr1 i j ri rj Hij (lookup_app_l_Some _ _ _ _ Hi) (lookup_app_l_Some _ _ _ _ Hj)).
  - etransitivity; [exact Et|exact E1].
Qed.

(** ** Clients *)
Inductive client :=
  | Done (ok : bool)
  | Change (m : mutator) (k : client)
  | Read (g : getter) (k : answer -> client)
  | Call (body : client) (k : bool -> client).

(** A call that fails is reverted. *)
Fixpoint runClient (c : client) : SM bool :=
  match c with
  | Done ok => mret ok
  | Change m k => runMutator m ;; runClient k
  | Read g k => x ← runGetter g; runClient (k x)
  | Call body k =>
    snapshot ← Snapshot;
    r ← runClient body;
    (if (r : bool) then mret tt else RevertToSnapshot snapshot) ;;
    runClient (k r)
  end.

Lemma Snapshot_step s s1 id : swf s -> Snapshot s = Ret (s1, id) -> step s s1.
Proof.
  intros W H. destruct (Snapshot_spec s W) as (s1' & H' & W1 & E1 & J1 & N1 & R1).
  rewrite H' in H. injection H as <- _. pose proof E1 as (D & T & _).
  split_and!; try done; [lia| |].
  - eexists. split; [exact R1|]. apply Forall_singleton. cbn. lia.
  - exists []. rewrite app_nil_r. split; [done|]. intros t Wt Et. exists t. split_and!; try done.
    etransitivity; done.
Qed.

Lemma back_step s s3 n : swf s3 -> eqv s3 s -> s_journal s3 = s_journal s ->
  s_validRevisions s3 = s_validRevisions s -> s_nextRevisionId s3 = n -> s_nextRevisionId s <= n -> step s s3.
Proof.
  intros W E J R N Hn. pose proof E as (D & T & _). split_and!; try done; [lia| |].
  - exists []. rewrite app_nil_r. done.
  - exists []. rewrite app_nil_r. split; [done|]. intros t Wt Et. exists t. split_and!; try done.
    etransitivity; done.
Qed.

Lemma runClient_ok c : ok (runClient c).
Proof.
  induction c as [b|m k IHk|g k IHk|body IHb k IHk]; cbn [runClient].
  - apply ok_ret.
  - apply ok_bind; [apply runMutator_ok|done].
  - apply ok_bind; [apply reader_ok, runGetter_reader|done].
  - intros s s' x W H. apply SM_bind_inv in H as (s1 & id & H1 & H).
    apply SM_bind_inv in H as (s2 & r & H2 & H). apply SM_bind_inv in H as (s3 & [] & H3 & H).
    pose proof (Snapshot_step _ _ _ W H1) as S1. pose proof (IHb _ _ _ (proj1 S1) H2) as S2.
    assert (step s s3) as S3; [|eapply step_trans; [exact S3|]; eapply IHk; [apply S3|done]].
    destruct r; [injection H3 as <-; eapply step_trans; done|].
    destruct (revert_spec s s1 s2 id W H1 S2) as (s3' & H3' & W3 & E3 & J3 & R3 & N3).
    rewrite H3' in H3. injection H3 as <-. eapply back_step; try done.
    destruct S1 as (_ & _ & _ & N1 & _), S2 as (_ & _ & _ & N2 & _). lia.
Qed.

(** A number that is not on the stack of snapshots cannot be reverted. *)
Lemma revert_unknown s id : Forall (fun r => rev_id r <> id) (s_validRevisions s) ->
  exists e, RevertToSnapshot id s = Panic e.
Proof.
  intros Hid. unfold RevertToSnapshot, mbind, SM_bind, getS.
  destruct (s_validRevisions s !! _) as [r|] eqn:Hr; [|eexists; done].
  apply (proj1 (Forall_lookup _ _) Hid) in Hr. destruct (Z.eqb_spec (rev_id r) id); [done|]. eexists. done.
Qed.


(** A database opened on an empty trie is well formed. *)
Lemma New_swf db s : New zeroHash db = Ok s -> swf s.
Proof.
  destruct (NewSecure_zero db) as (t & Ht & Hg). unfold New. rewrite Ht, result_bind_Ok. intros [= <-].
  unfold swf. cbn. split_and!; try done.
  intros a d. unfold loadAccount. rewrite Hg. done.
Qed.

End Client.

Module ClientExamples.
Import StateToy.

Definition alice : bytes := replicate 31 0 ++ [1].
Definition bob : bytes := replicate 31 0 ++ [2].
Definition slot : bytes := replicate 31 0 ++ [7].

Definition state_of {A} (d : StateDB) (r : outcome (StateDB * A)) : StateDB :=
  match r with Ret (s, _) => s | Panic _ => d end.

(** A run that returns [x] ends in the state it ends in. *)
Lemma run_state {A} d (r : outcome (StateDB * A)) x : ans r = Some x -> r = Ret (state_of d r, x).
Proof. destruct r as [[s y]|]; cbn; congruence. Qed.

Definition ex_new : StateDB := freshState (L := toyLib) toy_empty ∅.

(** Before the snapshot: alice has 100 and a stored value. *)
Definition ex_before : client :=
  Change (MAddBalance alice 100) (Change (MSetState alice slot alice) (Done true)).

(** After it: a transfer, a delegation, and two nested calls, one of which
    fails. *)
Definition ex_after : client :=
  Change (MSubBalance alice 60) (Change (MAddBalance bob 60)
    (Call (Change (MAddProxiedBalanceByUser bob alice 40) (Change (MSetState alice slot bob) (Done false)))
      (fun r => Call (Change (MCreateAccount alice) (Change (MSuicide bob) (Done true)))
        (fun _ => Change (MSetCode bob (Some [1; 2])) (Read (GBalance alice) (fun _ => Done r)))))).

Definition ex_s : StateDB := state_of ex_new (runClient ex_before ex_new).
Definition ex_s1 : StateDB := state_of ex_new (Snapshot ex_s).
Definition ex_s2 : StateDB := state_of ex_new (runClient ex_after ex_s1).

Lemma ex_s_swf : swf ex_s.
Proof.
  assert (swf ex_new) as W by (apply (New_swf (L := toyLib) toy_empty); reflexivity).
  refine (proj1 (runClient_ok ex_before ex_new ex_s true W _)). apply run_state. vm_compute. reflexivity.
Qed.


End ClientExamples.
