(* ===== verification/StateFlush.v ===== *)
(** * Flushing the state database

    What Finalise (chain/core/state/statedb.go) leaves in the account trie: for
    every dirty account its encoding, from which getStateObject reads the same
    account back, or nothing when it is removed; other accounts stay.  And the
    cases in which the flush loses or breaks something. *)
From S2P Require Import Prelude Rlp RlpDecode RlpInput StateData StateToy StateDB StateObs StateRevert StateClient.
Local Open Scope Z_scope.

Section Flush.
Context {L : TrieLib} {LL : TrieLaws L}.

(** ** Accounts survive their encoding *)

(** The fields are in the ranges of their Go types and the encoding has fewer
    than 2^64 bytes. *)
Definition acc_wf (d : Account) : Prop :=
  wt TAccount (Account_raw d) /\ small (renc TAccount no_tags (Account_raw d)).

Lemma side_of_raw b : side_of (side_raw b) = b.
Proof. destruct b. done. Qed.

Lemma Account_of_raw d : Account_of (Account_raw d) = d.
Proof.
  destruct d. unfold Account_of, Account_raw. cbn. f_equal. rewrite <- list_fmap_compose.
  rewrite <- (list_fmap_id acc_SideChainDepositBalance) at 2. apply list_fmap_ext. intros i b _. apply side_of_raw.
Qed.

Lemma Account_rt d : acc_wf d -> rt TAccount no_tags (Account_raw d).
Proof.
  intros [H _]. cbn in *. destruct_and!. unfold HashLength in *. split_and!; try done.
  2-6: intros E; apply (f_equal length) in E; cbn in E; lia.
  apply Forall_fmap, Forall_forall. intros b _. done.
Qed.

Lemma Account_encodes d data : acc_wf d -> EncodeToBytes TAccount (Account_raw d) = Ret (Ok data) ->
  data <> [] /\ DecodeBytes TAccount data = Ok (Account_raw d).
Proof.
  intros Hd H. pose proof Hd as [Hw Hs]. rewrite EncodeToBytes_spec in H by done.
  destruct (encodable TAccount (Account_raw d)) eqn:He; [|done]. injection H as <-.
  split; [exact (renc_nonnil TAccount _ (Account_rt d Hd))|].
  exact (DecodeBytes_renc TAccount _ eq_refl Hw He (Account_rt d Hd) Hs).
Qed.

(** ** Flushing an object keeps the account, but for the roots *)
Definition same_core (o o' : stateObject) : Prop :=
  so_address o' = so_address o /\ so_suicided o' = so_suicided o /\ so_deleted o' = so_deleted o
  /\ so_data o' = so_data o.

Definition erase_roots (d : Account) : Account :=
  set_acc_Root (set_acc_TX1Root (set_acc_TX3Root (set_acc_ProxiedRoot (set_acc_RewardRoot d
    zeroHash) zeroHash) zeroHash) zeroHash) zeroHash.

(** The account in [o'] is the one in [o] with other roots. *)
Definition flushed (o o' : stateObject) : Prop :=
  so_address o' = so_address o /\ so_suicided o' = so_suicided o /\ so_deleted o' = so_deleted o
  /\ erase_roots (so_data o') = erase_roots (so_data o).

Lemma same_core_refl o : same_core o o.
Proof. split_and!; done. Qed.
Lemma same_core_trans o1 o2 o3 : same_core o1 o2 -> same_core o2 o3 -> same_core o1 o3.
Proof. intros (? & ? & ? & ?) (? & ? & ? & ?). split_and!; congruence. Qed.
Lemma flushed_trans o1 o2 o3 : flushed o1 o2 -> flushed o2 o3 -> flushed o1 o3.
Proof. intros (? & ? & ? & ?) (? & ? & ? & ?). split_and!; congruence. Qed.

Lemma setError_core o e : same_core o (so_setError o e).
Proof. unfold so_setError. destruct (so_dbErr o); split_and!; done. Qed.

Lemma flush_result_core o o1 t r : same_core o o1 -> same_core o (fst (flush_result o1 t r)).
Proof.
  intros H. unfold flush_result. destruct r; [done|]. eapply same_core_trans; [done|]. apply setError_core.
Qed.

Lemma foldM_inv {A B} (P : B -> Prop) (f : B -> A -> outcome B) l b b' :
  (forall x a y, P x -> f x a = Ret y -> P y) -> P b -> foldM f l b = Ret b' -> P b'.
Proof.
  intros Hf. revert b. induction l as [|a l IH]; intros b Hb; cbn; [intros [= <-]; done|].
  destruct (f b a) as [y|] eqn:E; [|done]. rewrite outcome_bind_Ret. apply IH. eapply Hf; done.
Qed.

(** A flush: open the trie, fold over the dirty entries, keep the trie. *)
Lemma flush_core {A} (get : stateObject -> outcome (stateObject * trie))
    (stp : stateObject * trie -> A -> outcome (stateObject * trie)) (entries : stateObject -> list A)
    (put : stateObject -> option trie -> stateObject) o o' t :
  (forall x y, get o = Ret (x, y) -> same_core o x) ->
  (forall x y a x' y', stp (x, y) a = Ret (x', y') -> same_core x x') ->
  (forall x y, same_core x (put x y)) ->
  (x ← get o; x ← foldM stp (entries (fst x)) x; Ret (put (fst x) (Some (snd x)), snd x)) = Ret (o', t) ->
  same_core o o'.
Proof.
  intros Hg Hs Hp H. destruct (get o) as [[o1 t1]|] eqn:Eg; [|done]. rewrite outcome_bind_Ret in H.
  destruct (foldM stp _ _) as [[o2 t2]|] eqn:Ef; [|done]. rewrite outcome_bind_Ret in H. injection H as <- _.
  apply (foldM_inv (fun x => same_core o (fst x))) in Ef; [| |apply (Hg _ _ eq_refl)].
  - eapply same_core_trans; [exact Ef|apply Hp].
  - intros [x y] a [x' y'] Hx Hst. eapply same_core_trans; [exact Hx|]. eapply Hs. exact Hst.
Qed.

Lemma reads_core get pure o x y db : reads_trie db get pure -> get db o = Ret (x, y) -> same_core o x.
Proof.
  intros Hr H. specialize (Hr o). rewrite H in Hr. destruct Hr as [_ (Ho & ? & ? & ?)].
  specialize (Ho QSuicided). split_and!; try done. cbn in Ho. congruence.
Qed.

(** A step that ends in [flush_result]. *)
Ltac by_flush :=
  let E := fresh "E" in
  intros E; injection E as E; apply (f_equal fst) in E; cbn [fst] in E; rewrite <- E;
  apply flush_result_core; split_and!; done.

Lemma updateTrie_core db o o' t : updateTrie db o = Ret (o', t) -> same_core o o'.
Proof.
  apply (flush_core (getTrie db) updateTrie_step (fun o => map_to_list (so_dirtyStorage o)) set_so_trie).
  - intros x y. apply (reads_core _ _ _ _ _ _ (getTrie_reads db)).
  - intros x y [k v] x' y'. unfold updateTrie_step.
    set (x1 := set_so_dirtyStorage x _). set (x2 := set_so_originStorage x1 _).
    repeat case_bool_decide; [intros [= <- <-]; split_and!; done| |].
    + by_flush.
    + destruct (EncodeIgnore TBytes (TrimLeft v)); [|done]. rewrite outcome_bind_Ret. by_flush.
  - intros x y. split_and!; done.
Qed.

Lemma updateTX1Trie_core db o o' t : updateTX1Trie db o = Ret (o', t) -> same_core o o'.
Proof.
  apply (flush_core (getTX1Trie db) updateTX1_step (fun o => elements (so_dirtyTX1 o)) set_so_tx1Trie).
  - intros x y. apply (reads_core _ _ _ _ _ _ (getTX1Trie_reads db)).
  - intros x y h x' y'. unfold updateTX1_step. destruct (EncodeIgnore _ _); [|done]. rewrite outcome_bind_Ret.
    by_flush.
  - intros x y. split_and!; done.
Qed.

Lemma updateTX3Trie_core db o o' t : updateTX3Trie db o = Ret (o', t) -> same_core o o'.
Proof.
  apply (flush_core (getTX3Trie db) updateTX3_step (fun o => elements (so_dirtyTX3 o)) set_so_tx3Trie).
  - intros x y. apply (reads_core _ _ _ _ _ _ (getTX3Trie_reads db)).
  - intros x y h x' y'. unfold updateTX3_step. destruct (EncodeIgnore _ _); [|done]. rewrite outcome_bind_Ret.
    by_flush.
  - intros x y. split_and!; done.
Qed.

Lemma updateProxied_step_core x y kv x' y' : updateProxied_step (x, y) kv = Ret (x', y') -> same_core x x'.
Proof.
  destruct kv as [k v]. unfold updateProxied_step.
  destruct (apb_Equal v _) as [[]|]; [..|done]; rewrite outcome_bind_Ret; [intros [= <- <-]; split_and!; done|].
  destruct (apb_IsEmpty v) as [[]|]; [..|done]; rewrite outcome_bind_Ret.
  - by_flush.
  - destruct (match v with Some a => _ | None => _ end); [|done]. rewrite outcome_bind_Ret.
    by_flush.
Qed.

Lemma updateProxiedTrie_core db o o' t : updateProxiedTrie db o = Ret (o', t) -> same_core o o'.
Proof.
  apply (flush_core (getProxiedTrie db) updateProxied_step (fun o => map_to_list (so_dirtyProxied o))
    set_so_proxiedTrie).
  - intros x y. apply (reads_core _ _ _ _ _ _ (getProxiedTrie_reads db)).
  - intros x y kv x' y'. apply updateProxied_step_core.
  - intros x y. split_and!; done.
Qed.

Lemma updateReward_step_core x y kv x' y' : updateReward_step (x, y) kv = Ret (x', y') -> same_core x x'.
Proof.
  destruct kv as [k v]. unfold updateReward_step.
  destruct (match mjoin _ with Some _ => _ | None => _ end) as [[]|]; [..|done]; rewrite outcome_bind_Ret;
    [intros [= <- <-]; split_and!; done|].
  destruct (EncodeIgnore THash k); [|done]. rewrite outcome_bind_Ret. destruct v as [z|]; [|done].
  destruct (z =? 0).
  - by_flush.
  - destruct (EncodeIgnore TBigPtr _); [|done]. rewrite outcome_bind_Ret.
    by_flush.
Qed.

Lemma updateRewardTrie_core db o o' t : updateRewardTrie db o = Ret (o', t) -> same_core o o'.
Proof.
  apply (flush_core (getRewardTrie db) updateReward_step (fun o => map_to_list (so_dirtyReward o))
    set_so_rewardTrie).
  - intros x y. apply (reads_core _ _ _ _ _ _ (getRewardTrie_reads db)).
  - intros x y kv x' y'. apply updateReward_step_core.
  - intros x y. split_and!; done.
Qed.

(** ** One object *)
Lemma root_flushed (upd : DB -> stateObject -> outcome (stateObject * trie)) setroot db o o' :
  (forall o o' t, upd db o = Ret (o', t) -> same_core o o') ->
  (forall d r, erase_roots (setroot d r) = erase_roots d) ->
  (x ← upd db o; Ret (set_so_data (fst x) (setroot (so_data (fst x)) (trie_Hash (snd x))))) = Ret o' ->
  flushed o o'.
Proof.
  intros Hu Hr H. destruct (upd db o) as [[o1 t]|] eqn:E; [|done]. rewrite outcome_bind_Ret in H.
  injection H as <-. apply Hu in E as (? & ? & ? & Hd). split_and!; try done. cbn. rewrite Hr, Hd. done.
Qed.

Definition flusher (f : DB -> stateObject -> outcome stateObject) : Prop :=
  forall db o o', f db o = Ret o' -> flushed o o'.

Lemma updateRoot_flushes : flusher updateRoot.
Proof. intros db o o'. apply (root_flushed updateTrie); [intros; eapply updateTrie_core; done|done]. Qed.
Lemma updateTX1Root_flushes : flusher updateTX1Root.
Proof. intros db o o'. apply (root_flushed updateTX1Trie); [intros; eapply updateTX1Trie_core; done|done]. Qed.
Lemma updateTX3Root_flushes : flusher updateTX3Root.
Proof. intros db o o'. apply (root_flushed updateTX3Trie); [intros; eapply updateTX3Trie_core; done|done]. Qed.
Lemma updateProxiedRoot_flushes : flusher updateProxiedRoot.
Proof. intros db o o'. apply (root_flushed updateProxiedTrie); [intros; eapply updateProxiedTrie_core; done|done]. Qed.
Lemma updateRewardRoot_flushes : flusher updateRewardRoot.
Proof. intros db o o'. apply (root_flushed updateRewardTrie); [intros; eapply updateRewardTrie_core; done|done]. Qed.

(** The state with another object at [a]. *)
Definition at_object (a : bytes) (o : stateObject) (s : StateDB) : StateDB :=
  set_s_stateObjects s (<[a := o]> (s_stateObjects s)).

Lemma at_object_twice a o1 o2 s : at_object a o2 (at_object a o1 s) = at_object a o2 s.
Proof. unfold at_object. cbn. rewrite insert_insert_eq. done. Qed.

Lemma deref_inv {A} a (f : stateObject -> SM A) s r : (o ← deref a; f o) s = Ret r ->
  exists o, s_stateObjects s !! a = Some o /\ f o s = Ret r.
Proof.
  unfold deref, mbind, SM_bind, getS. destruct (s_stateObjects s !! a) as [o|]; [|done]. intros H. eauto.
Qed.

Lemma updateObject_inv a f s s1 o : s_stateObjects s !! a = Some o -> flusher f ->
  updateObject a f s = Ret (s1, tt) -> exists o', flushed o o' /\ s1 = at_object a o' s.
Proof.
  intros Ho Hf H. unfold updateObject, through in H. unfold getS, mbind at 1, SM_bind at 1 in H.
  rewrite (deref_live _ _ _ _ Ho) in H. unfold mbind, SM_bind, liftS, outcome_bind in H.
  destruct (f (s_db s) o) as [o'|] eqn:E; [|done]. injection H as <-. exists o'. split; [eapply Hf; exact E|done].
Qed.

Lemma at_object_lookup a o s : s_stateObjects (at_object a o s) !! a = Some o.
Proof. apply lookup_insert_eq. Qed.

(** The five flushes. *)
Lemma flush_all_inv a (k : SM unit) s s' o : s_stateObjects s !! a = Some o ->
  (updateObject a updateRoot ;; updateObject a updateTX1Root ;; updateObject a updateTX3Root ;;
   updateObject a updateProxiedRoot ;; updateObject a updateRewardRoot ;; k) s = Ret (s', tt) ->
  exists o', flushed o o' /\ k (at_object a o' s) = Ret (s', tt).
Proof.
  intros Ho H.
  apply SM_bind_inv in H as (s1 & [] & H1 & H). apply (updateObject_inv _ _ _ _ _ Ho updateRoot_flushes) in H1 as (o1 & F1 & ->).
  apply SM_bind_inv in H as (s2 & [] & H2 & H).
  apply (updateObject_inv _ _ _ _ _ (at_object_lookup _ _ _) updateTX1Root_flushes) in H2 as (o2 & F2 & ->).
  apply SM_bind_inv in H as (s3 & [] & H3 & H).
  apply (updateObject_inv _ _ _ _ _ (at_object_lookup _ _ _) updateTX3Root_flushes) in H3 as (o3 & F3 & ->).
  apply SM_bind_inv in H as (s4 & [] & H4 & H).
  apply (updateObject_inv _ _ _ _ _ (at_object_lookup _ _ _) updateProxiedRoot_flushes) in H4 as (o4 & F4 & ->).
  apply SM_bind_inv in H as (s5 & [] & H5 & H).
  apply (updateObject_inv _ _ _ _ _ (at_object_lookup _ _ _) updateRewardRoot_flushes) in H5 as (o5 & F5 & ->).
  rewrite !at_object_twice in H. exists o5. split; [|exact H]. eauto using flushed_trans.
Qed.

(** What a flush does not touch. *)
Definition same_sets (s s' : StateDB) : Prop :=
  s_stateObjectsDirty s' = s_stateObjectsDirty s /\ s_db s' = s_db s.

(** The trie of [s'] is the one of [s] with [v] at [k], unless an error was met. *)
Definition wrote (k v : bytes) (s s' : StateDB) : Prop :=
  s_dbErr s' = None ->
  s_dbErr s = None /\ forall k', TryGet (s_trie s') k' = if bool_decide (k = k') then Ok v else TryGet (s_trie s) k'.

Lemma setError_Some e s : s_dbErr (s_setError (Some e) s) <> None.
Proof. unfold s_setError. destruct (s_dbErr s) eqn:E; [congruence|done]. Qed.

Lemma setError_objects e s : s_stateObjects (s_setError e s) = s_stateObjects s
  /\ s_stateObjectsDirty (s_setError e s) = s_stateObjectsDirty s /\ s_db (s_setError e s) = s_db s.
Proof. unfold s_setError. destruct (s_dbErr s); done. Qed.

Lemma updateTrieAt_spec k v s : exists s', updateTrieAt k v s = Ret (s', tt) /\ wrote k v s s'
  /\ s_stateObjects s' = s_stateObjects s /\ same_sets s s'.
Proof.
  unfold updateTrieAt, modifyS. eexists. split; [reflexivity|]. destruct (TryUpdate (s_trie s) k v) as [t|e] eqn:E.
  - split; [|split_and!; done]. intros H. split; [done|]. intros k'. apply (TryGet_update _ _ _ _ _ E).
  - split; [intros H; by apply setError_Some in H|]. destruct (setError_objects (Some e) s) as (? & ? & ?).
    split_and!; done.
Qed.

Lemma deleteTrieAt_spec k s : exists s', deleteTrieAt k s = Ret (s', tt) /\ wrote k [] s s'
  /\ s_stateObjects s' = s_stateObjects s /\ same_sets s s'.
Proof.
  unfold deleteTrieAt, modifyS. eexists. split; [reflexivity|]. destruct (TryDelete (s_trie s) k) as [t|e] eqn:E.
  - split; [|split_and!; done]. intros H. split; [done|]. intros k'. apply (TryGet_delete _ _ _ _ E).
  - split; [intros H; by apply setError_Some in H|]. destruct (setError_objects (Some e) s) as (? & ? & ?).
    split_and!; done.
Qed.

Definition removed (b : bool) (o : stateObject) : bool := so_suicided o || (b && so_empty o).

Lemma finaliseObject_spec b a s s' o :
  finaliseObject b a s = Ret (s', tt) -> s_stateObjects s !! a = Some o -> so_address o = a ->
  exists o' v, s_stateObjects s' = <[a := o']> (s_stateObjects s) /\ same_sets s s' /\ wrote a v s s' /\
    so_address o' = a /\
    if removed b o then v = [] /\ so_deleted o' = true
    else flushed o o' /\ EncodeToBytes TAccount (Account_raw (so_data o')) = Ret (Ok v).
Proof.
  intros H Ho Ha. unfold finaliseObject in H. rewrite (deref_live _ _ _ _ Ho) in H. fold (removed b o) in H.
  destruct (removed b o) eqn:Er.
  - unfold deleteStateObject in H. rewrite (deref_live _ _ _ _ Ho) in H.
    set (o' := set_so_deleted o true) in *.
    destruct (deleteTrieAt_spec a (at_object a o' s)) as (s1 & H1 & W1 & O1 & S1).
    unfold mbind, SM_bind, putObject, modifyS in H. rewrite Ha in H. fold (at_object a o' s) in H. rewrite H1 in H.
    injection H as <-. exists o', []. split_and!; try done; apply S1.
  - apply (flush_all_inv a _ s s' o Ho) in H as (o' & F & H).
    rewrite (deref_live _ _ _ _ (at_object_lookup _ _ _)) in H. unfold updateStateObject in H.
    unfold mbind, SM_bind, liftS in H. destruct (EncodeToBytes _ _) as [[v|]|] eqn:Ev; try done.
    destruct (updateTrieAt_spec a v (at_object a o' s)) as (s1 & H1 & W1 & O1 & S1).
    pose proof F as (Fa & _). rewrite Fa, Ha, H1 in H. injection H as <-.
    exists o', v. split_and!; try done; try apply S1. congruence.
Qed.

(** ** All of them *)

(** What the trie of [s'] holds of the dirty account [a] of [s]. *)
Definition stored_as (b : bool) (s s' : StateDB) (a : bytes) : Prop :=
  exists o o' v, s_stateObjects s !! a = Some o /\ s_stateObjects s' !! a = Some o'
    /\ TryGet (s_trie s') a = Ok v
    /\ if removed b o then v = [] /\ so_deleted o' = true
       else flushed o o' /\ EncodeToBytes TAccount (Account_raw (so_data o')) = Ret (Ok v).

Definition addresses_ok (s : StateDB) : Prop :=
  forall a o, s_stateObjects s !! a = Some o -> so_address o = a.

Lemma finaliseLoop_spec b l s s' : NoDup l -> addresses_ok s ->
  forS (finaliseObject b) l s = Ret (s', tt) -> s_dbErr s' = None ->
  s_dbErr s = None /\ (forall a, a ∈ l -> stored_as b s s' a)
  /\ (forall a, a ∉ l -> s_stateObjects s' !! a = s_stateObjects s !! a /\ TryGet (s_trie s') a = TryGet (s_trie s) a).
Proof.
  intros Hn. revert s. induction Hn as [|a l Hal Hn IH]; intros s Ha H He; cbn [forS] in H.
  { injection H as <-. split_and!; try done. intros a Hin. by apply not_elem_of_nil in Hin. }
  apply SM_bind_inv in H as (s1 & [] & H1 & H).
  assert (exists o, s_stateObjects s !! a = Some o) as [o Ho].
  { unfold finaliseObject in H1. apply deref_inv in H1 as (o & Ho & _). eauto. }
  destruct (finaliseObject_spec b a s s1 o H1 Ho (Ha _ _ Ho)) as (o' & v & O1 & _ & W1 & Ha' & Hv).
  assert (addresses_ok s1) as Ha1.
  { intros a' x. rewrite O1, lookup_insert. case_decide; [|apply Ha]. intros [= <-]. congruence. }
  destruct (IH s1 Ha1 H He) as (He1 & Hin & Hout). destruct (W1 He1) as [He0 Hg].
  split; [done|]. split.
  - intros x Hx. apply elem_of_cons in Hx as [->|Hx].
    + destruct (Hout a Hal) as [E1 E2]. exists o, o', v. rewrite E1, E2, O1, Hg, lookup_insert_eq, bool_decide_true by done.
      done.
    + destruct (Hin x Hx) as (p & p' & w & P1 & P2 & P3 & P4). exists p, p', w. split_and!; try done.
      rewrite <- P1, O1. symmetry. apply lookup_insert_ne. intros ->. done.
  - intros x Hx. apply not_elem_of_cons in Hx as [Hne Hx]. destruct (Hout x Hx) as [E1 E2].
    rewrite E1, E2, O1, Hg, lookup_insert_ne, bool_decide_false by congruence. done.
Qed.

(** Writes at keys that are not addresses. *)
Definition set_writes (s s' : StateDB) : Prop :=
  s_stateObjects s' = s_stateObjects s /\
  (s_dbErr s' = None -> s_dbErr s = None /\
     forall a, length a = HashLength -> TryGet (s_trie s') a = TryGet (s_trie s) a).

Lemma set_writes_refl s : set_writes s s.
Proof. split; done. Qed.
Lemma set_writes_trans s1 s2 s3 : set_writes s1 s2 -> set_writes s2 s3 -> set_writes s1 s3.
Proof.
  intros [O1 W1] [O2 W2]. split; [congruence|]. intros H3. destruct (W2 H3) as [H2 G2]. destruct (W1 H2) as [H1 G1].
  split; [done|]. intros a Ha. rewrite G2, G1 by done. done.
Qed.

Lemma updateTrieAt_set k v s s' : length k <> HashLength -> updateTrieAt k v s = Ret (s', tt) -> set_writes s s'.
Proof.
  intros Hk H. destruct (updateTrieAt_spec k v s) as (s1 & H1 & W & O & _). rewrite H1 in H. injection H as <-.
  split; [done|]. intros He. destruct (W He) as [He0 Hg]. split; [done|]. intros a Ha.
  rewrite Hg, bool_decide_false by (intros ->; done). done.
Qed.

Definition set_writer (m : SM unit) : Prop := forall s s', m s = Ret (s', tt) -> set_writes s s'.

Lemma commitSet_writer n : set_writer (commitSet n).
Proof.
  intros s s'. unfold commitSet, mbind, SM_bind, getS, liftS. destruct (EncodeSet _) as [[v|]|]; try done.
  apply updateTrieAt_set. destruct n; done.
Qed.
Lemma commitReward_writer : set_writer commitSideChainRewardPerBlock.
Proof.
  intros s s'. unfold commitSideChainRewardPerBlock, mbind, SM_bind, getS, liftS.
  destruct (EncodeToBytes _ _) as [[v|]|]; try done. apply updateTrieAt_set. done.
Qed.
Lemma whenS_writer b m : set_writer m -> set_writer (whenS b m).
Proof. intros Hm s s'. destruct b; [apply Hm|]. intros [= <-]. apply set_writes_refl. Qed.
Lemma seq_writer m1 m2 : set_writer m1 -> set_writer m2 -> set_writer (m1 ;; m2).
Proof.
  intros H1 H2 s s' H. apply SM_bind_inv in H as (s1 & [] & E1 & E2). eapply set_writes_trans; [eapply H1|eapply H2]; done.
Qed.
Lemma clear_writer : set_writer clearJournalAndRefund.
Proof. intros s s' [= <-]. split; done. Qed.

(** The part of Finalise after the objects. *)
Definition finaliseSets : SM unit :=
  s ← getS;
  whenS (s_delegateRefundSetDirty s) commitDelegateRefundSet ;;
  whenS (s_rewardSetDirty s) commitRewardSet ;;
  whenS (s_candidateSetDirty s) commitCandidateSet ;;
  whenS (s_bannedSetDirty s) commitBannedSet ;;
  whenS (s_sideChainRewardPerBlockDirty s) commitSideChainRewardPerBlock ;;
  clearJournalAndRefund.

Lemma finaliseSets_writer : set_writer finaliseSets.
Proof.
  intros s s' H. unfold finaliseSets in H. unfold mbind at 1, SM_bind at 1, getS in H. revert H.
  repeat (apply seq_writer; [apply whenS_writer, commitSet_writer|]).
  apply seq_writer; [apply whenS_writer, commitReward_writer|apply clear_writer].
Qed.

Lemma finaliseSets_clears s s' : finaliseSets s = Ret (s', tt) ->
  s_journal s' = [] /\ s_validRevisions s' = [] /\ s_refund s' = 0.
Proof.
  intros H. unfold finaliseSets in H. unfold mbind at 1, SM_bind at 1, getS in H.
  do 5 (apply SM_bind_inv in H as (? & [] & _ & H)). injection H as <-. done.
Qed.

Lemma loadAccount_stored t a d v : acc_wf d -> EncodeToBytes TAccount (Account_raw d) = Ret (Ok v) ->
  TryGet t a = Ok v -> loadAccount t a = Some d.
Proof.
  intros Hd Hv Hg. destruct (Account_encodes d v Hd Hv) as [Hne Hdec]. unfold loadAccount. rewrite Hg.
  destruct v as [|x v]; [done|]. rewrite Hdec, Account_of_raw. done.
Qed.

(** Finalise, when no trie operation failed, leaves each dirty account in the
    account trie: reading it back gives the account of its object, which is the
    one before the call but for the roots of its tries; a suicided account, or an
    empty one when empty ones are deleted, is gone; the accounts that were not
    dirty are as before.  The journal, the snapshots and the refund are cleared. *)
Theorem Finalise_stores b s s' :
  Finalise b s = Ret (s', tt) -> s_dbErr s' = None -> addresses_ok s ->
  (forall a, a ∈ s_stateObjectsDirty s -> length a = HashLength) ->
  (forall a o, s_stateObjects s' !! a = Some o -> acc_wf (so_data o)) ->
  (s_journal s' = [] /\ s_validRevisions s' = [] /\ s_refund s' = 0) /\
  (forall a, a ∈ s_stateObjectsDirty s ->
     exists o o', s_stateObjects s !! a = Some o /\ s_stateObjects s' !! a = Some o' /\
       if removed b o then loadAccount (s_trie s') a = None /\ view s' a = None
       else flushed o o' /\ loadAccount (s_trie s') a = Some (so_data o')) /\
  (forall a, a ∉ s_stateObjectsDirty s -> length a = HashLength ->
     loadAccount (s_trie s') a = loadAccount (s_trie s) a).
Proof.
  intros H He Ha Hlen Hwf. unfold Finalise in H. unfold mbind at 1, SM_bind at 1, getS at 1 in H.
  apply SM_bind_inv in H as (s1 & [] & H1 & H). change (finaliseSets s1 = Ret (s', tt)) in H.
  destruct (finaliseSets_writer s1 s' H) as [O2 W2]. destruct (W2 He) as [He1 G2].
  destruct (finaliseLoop_spec b _ s s1 (NoDup_elements _) Ha H1 He1) as (He0 & Hin & Hout).
  split; [apply (finaliseSets_clears _ _ H)|]. split.
  - intros a Hd. destruct (Hin a) as (o & o' & v & P1 & P2 & P3 & P4); [by apply elem_of_elements|].
    exists o, o'. rewrite O2. split_and!; try done. rewrite <- G2 in P3 by auto. destruct (removed b o).
    + destruct P4 as [-> Hdel]. unfold loadAccount, view. rewrite P3, O2, P2, Hdel. done.
    + destruct P4 as [F Ev]. split; [done|]. eapply loadAccount_stored; [|done..]. apply (Hwf a). congruence.
  - intros a Hd Hl. destruct (Hout a) as [_ E]; [by rewrite elem_of_elements|].
    unfold loadAccount. rewrite G2, E by done. done.
Qed.

(** ** Marked transactions and leading zeros *)

Lemma TrimLeft_head b : head (TrimLeft b) <> Some 0.
Proof. induction b as [|x b IH]; cbn; [done|]. destruct (Z.eqb_spec x 0); [done|]. cbn. congruence. Qed.
Lemma TrimLeft_id b : head b <> Some 0 -> TrimLeft b = b.
Proof. destruct b as [|x b]; cbn; [done|]. destruct (Z.eqb_spec x 0); [subst; done|done]. Qed.
Lemma TrimLeft_bytes b : is_bytes b -> is_bytes (TrimLeft b).
Proof. induction 1; cbn; [constructor|]. case_match; [done|]. by constructor. Qed.
Lemma TrimLeft_length b : (length (TrimLeft b) <= length b)%nat.
Proof. induction b as [|x b IH]; cbn; [lia|]. case_match; cbn; lia. Qed.

Lemma small_rstr_short b : (length b < 56)%nat -> small (rstr b).
Proof.
  intros Hb. unfold small, rstr, puthead.
  assert ((Z.of_nat (length b) <? 56) = true) as E by lia.
  destruct b as [|x [|y b]]; [done|case_match; done|]. rewrite E. cbn -[Z.of_nat Z.pow] in *. lia.
Qed.

(** A cross-chain transaction that was marked and flushed is found again
    exactly when its hash does not begin with a zero byte: updateTX1Trie stores
    the hash without its leading zeros and HasTX1 compares what is stored with the
    whole hash. *)
Theorem flushed_tx_found t h v :
  is_bytes h -> length h = HashLength ->
  EncodeIgnore TBytes (TrimLeft h) = Ret v -> TryGet t h = Ok v ->
  fst (tx_in_trie t h) = negb (bool_decide (head h = Some 0)).
Proof.
  intros Hb Hl Hv Hg. pose proof (TrimLeft_bytes h Hb) as Hb'. pose proof (TrimLeft_length h) as Hl'.
  assert (small (rstr (TrimLeft h))) as Hs by (apply small_rstr_short; unfold HashLength in *; lia).
  unfold EncodeIgnore in Hv. rewrite EncodeToBytes_spec in Hv by done. cbn [encodable] in Hv.
  rewrite outcome_bind_Ret in Hv. injection Hv as <-.
  unfold tx_in_trie. rewrite Hg. cbn [renc].
  assert (rstr (TrimLeft h) <> []) as Hne by apply rstr_nonnil.
  destruct (Split_rstr (TrimLeft h) []) as (k & HS & _); [done|rewrite app_nil_r; unfold HashLength in *; lia|].
  rewrite app_nil_r in HS. destruct (rstr (TrimLeft h)) as [|x enc]; [done|]. rewrite HS.
  destruct (decide (head h = Some 0)) as [H0|H0].
  - rewrite (bool_decide_true _ H0), bool_decide_false; [done|]. intros E. apply (TrimLeft_head h). congruence.
  - rewrite (bool_decide_false _ H0), (TrimLeft_id h H0), bool_decide_true by done. done.
Qed.

(** ** The address sets *)

(** The set a reader gets: the cache, or the trie when the cache is empty. *)
Definition set_view (n : setName) (s : StateDB) : gset bytes :=
  if bool_decide (members (sget n s) = ∅) then
    match TryGet (s_trie s) (setKey n) with
    | Ok (x :: enc) => members (fst (DecodeSet (x :: enc)))
    | _ => ∅
    end
  else members (sget n s).

Lemma sget_sset n v s : sget n (sset n v s) = v.
Proof. destruct n; done. Qed.
Lemma sget_dirty n n' b s : sget n (set_sdirty n' b s) = sget n s.
Proof. destruct n, n'; done. Qed.
Lemma trie_sset n v s : s_trie (sset n v s) = s_trie s.
Proof. destruct n; done. Qed.
Lemma trie_dirty n b s : s_trie (set_sdirty n b s) = s_trie s.
Proof. destruct n; done. Qed.

(** Taking an address out of one of the sets works while another member is
    left in the cache: a reader sees the rest.  When it was the last one, or the
    set had not been loaded, the reader gets the set in the trie again, with the
    address still in it if it was committed before. *)
Theorem clear_shows n a s :
  exists s', clearInSet n a s = Ret (s', tt) /\
    set_view n s' =
      if bool_decide (members (sget n s) ⊆ {[a]}) then
        match TryGet (s_trie s) (setKey n) with
        | Ok (x :: enc) => members (fst (DecodeSet (x :: enc)))
        | _ => ∅
        end
      else members (sget n s) ∖ {[a]}.
Proof.
  eexists. split; [reflexivity|]. unfold set_view. rewrite sget_dirty, sget_sset, trie_dirty, trie_sset.
  assert (members ((fun m => m ∖ {[a]}) <$> sget n s) = members (sget n s) ∖ {[a]}) as ->.
  { unfold members. destruct (sget n s) as [m|]; [done|]. cbn. apply leibniz_equiv. intros x.
    rewrite elem_of_difference. split; [intros H|intros [H _]]; by apply not_elem_of_empty in H. }
  rewrite (bool_decide_ext (members (sget n s) ∖ {[a]} = ∅) (members (sget n s) ⊆ {[a]})); [done|].
  split; [|apply subseteq_empty_difference_L]. intros H x Hx. destruct (decide (x = a)) as [->|Hne]; [by apply elem_of_singleton|].
  assert (x ∈ members (sget n s) ∖ {[a]}) as Hd by (apply elem_of_difference; by rewrite elem_of_singleton).
  rewrite H in Hd. by apply not_elem_of_empty in Hd.
Qed.

(** The value GetCandidateSet and the like return. *)
Lemma getSet_view n s s' v : getSet n s = Ret (s', v) -> s_dbErr s' = None -> members v = set_view n s.
Proof.
  unfold getSet, set_view, mbind, SM_bind, getS, mret, SM_ret. case_bool_decide as Hm; cbn [negb].
  - destruct (TryGet (s_trie s) (setKey n)) as [[|x enc]|e].
    + intros [= <- <-]. done.
    + destruct (DecodeSet (x :: enc)) as [w err]. intros [= <- <-]. done.
    + intros [= <- <-] He. by apply setError_Some in He.
  - intros [= <- <-]. done.
Qed.

End Flush.

(** ** Examples *)
Module FlushExamples.
Import ClientExamples.

Definition acc_ok (d : Account) : bool :=
  let bytesb := forallb (fun x => (0 <=? x) && (x <? 256)) in
  let hashb b := bytesb b && (length b =? HashLength)%nat in
  (0 <=? acc_Nonce d) && (acc_Nonce d <? 2 ^ 64) && (0 <=? acc_Commission d) && (acc_Commission d <? 2 ^ 8)
  && forallb (fun b => bytesb (sc_ChainId b)) (acc_SideChainDepositBalance d)
  && bytesb (acc_CodeHash d) && bytesb (acc_Pubkey d)
  && hashb (acc_Root d) && hashb (acc_TX1Root d) && hashb (acc_TX3Root d) && hashb (acc_ProxiedRoot d)
  && hashb (acc_RewardRoot d)
  && (Z.of_nat (length (renc TAccount no_tags (Account_raw d))) <? 2 ^ 64).

Lemma bytesb_ok b : forallb (fun x => (0 <=? x) && (x <? 256)) b = true -> is_bytes b.
Proof. rewrite forallb_Forall. intros H. eapply Forall_impl; [exact H|]. intros x Hx. unfold is_byte. cbn in Hx. lia. Qed.

Lemma acc_ok_wf d : acc_ok d = true -> acc_wf d.
Proof.
  unfold acc_ok. cbv zeta. rewrite !andb_true_iff, !Nat.eqb_eq. intros H. destruct_and!.
  split; [|unfold small; lia]. cbn -[Z.pow]. split_and!; try done; try lia; try (apply bytesb_ok; done).
  apply Forall_fmap. eapply Forall_impl; [by apply forallb_Forall|]. intros b Hb. cbn. split_and!; try done.
  apply bytesb_ok. done.
Qed.

(** What can be checked of all objects. *)
Lemma objects_check (f : bytes -> stateObject -> bool) (m : gmap bytes stateObject) a o :
  forallb (fun kv => f (fst kv) (snd kv)) (map_to_list m) = true -> m !! a = Some o -> f a o = true.
Proof.
  rewrite forallb_Forall, Forall_forall. intros H Hm. apply (H (a, o)). apply elem_of_map_to_list. done.
Qed.

Definition ex_fin : StateDB := state_of ex_new (Finalise true ex_s).

(** alice's account is in the trie, with her balance. *)
Lemma Finalise_stores_witness :
  exists d, loadAccount (s_trie ex_fin) alice = Some d /\ acc_Balance d = 100
            /\ acc_Root d <> zeroHash.
Proof.
  destruct (Finalise_stores true ex_s ex_fin) as (_ & Hd & _).
  - apply run_state. vm_compute. reflexivity.
  - vm_compute. reflexivity.
  - intros a o Ho.
    refine (proj1 (bool_decide_eq_true _)
      (objects_check (fun a o => bool_decide (so_address o = a)) (s_stateObjects ex_s) a o _ Ho)).
    vm_compute. reflexivity.
  - intros a Ha. apply elem_of_elements in Ha.
    assert (forallb (fun a => (length a =? HashLength)%nat) (elements (s_stateObjectsDirty ex_s)) = true) as H
      by (vm_compute; reflexivity).
    rewrite forallb_Forall, Forall_forall in H. apply Nat.eqb_eq, H. exact Ha.
  - intros a o Ho. apply acc_ok_wf.
    refine (objects_check (fun _ o => acc_ok (so_data o)) (s_stateObjects ex_fin) a o _ Ho).
    vm_compute. reflexivity.
  - assert (bool_decide (alice ∈ s_stateObjectsDirty ex_s) = true) as Ha by (vm_compute; reflexivity).
    destruct (Hd alice (proj1 (bool_decide_eq_true _) Ha)) as (o & o' & Ho & Ho' & Hr).
    assert (removed true <$> (s_stateObjects ex_s !! alice) = Some false) as Hrem by (vm_compute; reflexivity).
    rewrite Ho in Hrem. cbn in Hrem. injection Hrem as Hrem. rewrite Hrem in Hr. destruct Hr as [_ Hl].
    exists (so_data o'). split; [exact Hl|].
    assert ((fun o => (acc_Balance (so_data o) =? 100) && negb (bool_decide (acc_Root (so_data o) = zeroHash)))
      <$> (s_stateObjects ex_fin !! alice) = Some true) as H by (vm_compute; reflexivity).
    rewrite Ho' in H. cbn -[Z.eqb zeroHash] in H. injection H as H. apply andb_true_iff in H as [H1 H2].
    split; [lia|]. apply negb_true_iff, bool_decide_eq_false in H2. exact H2.
Defined.

(** A hash that begins with a zero byte is lost, another one is found. *)
Definition ex_hash (x : Z) : bytes := x :: replicate 31 9.
Definition ex_marked (x : Z) : gmap bytes bytes :=
  {[ ex_hash x := match EncodeIgnore TBytes (TrimLeft (ex_hash x)) with Ret v => v | Panic _ => [] end ]}.

Lemma flushed_tx_found_witness :
  fst (tx_in_trie (L := StateToy.toyLib) (ex_marked 0) (ex_hash 0)) = false
  /\ fst (tx_in_trie (L := StateToy.toyLib) (ex_marked 3) (ex_hash 3)) = true.
Proof.
  split.
  - refine (flushed_tx_found (L := StateToy.toyLib) (ex_marked 0) (ex_hash 0) _ _ _ eq_refl _);
      [apply bytesb_ok; reflexivity|reflexivity|vm_compute; reflexivity].
  - refine (flushed_tx_found (L := StateToy.toyLib) (ex_marked 3) (ex_hash 3) _ _ _ eq_refl _);
      [apply bytesb_ok; reflexivity|reflexivity|vm_compute; reflexivity].
Defined.

Definition panics {A} (r : outcome A) : bool := match r with Panic _ => true | Ret _ => false end.

(** bob has a balance. *)
Definition ex_bob : StateDB := state_of ex_new (AddBalance bob 5 ex_new).

(** A delegation to bob that is reverted leaves a nil share in the dirty map:
    Finalise panics on it.  Without the delegation it does not. *)
Theorem reverted_share_panics :
  panics ((id ← Snapshot; AddProxiedBalanceByUser bob alice 40 ;; RevertToSnapshot id ;; Finalise true) ex_bob)
    = true
  /\ panics (Finalise true ex_bob) = false.
Proof. split; vm_compute; reflexivity. Qed.

(** Reading the share of a user who has none leaves a nil entry in the cache:
    copying the state panics on it. *)
Theorem read_share_copy_panics :
  panics (Copy (state_of ex_new (GetProxiedBalanceByUser bob alice ex_bob))) = true
  /\ panics (Copy ex_bob) = false.
Proof. split; vm_compute; reflexivity. Qed.

(** Reverting a deposit for a side chain leaves its entry, with a zero: an
    account that was empty is not any more. *)
Definition ex_touched : StateDB := state_of ex_new (AddBalance bob 0 ex_new).
Theorem reverted_deposit_not_empty :
  ans (Empty bob ex_touched) = Some true
  /\ ans ((id ← Snapshot; AddSideChainDepositBalance bob [1] 7 ;; RevertToSnapshot id ;; Empty bob) ex_touched)
     = Some false.
Proof. split; vm_compute; reflexivity. Qed.

(** Two candidates are committed; the database is opened again and one that has
    not been loaded is taken out: the other one is lost with it. *)
Definition ex_two : StateDB :=
  state_of ex_new ((MarkAddressCandidate alice ;; MarkAddressCandidate bob ;; Finalise true) ex_new).
Theorem clear_unloaded_set_erases :
  ans ((v ← GetCandidateSet; mret (elements (members v))) (freshState (s_db ex_two) (s_trie ex_two)))
    = Some [alice; bob]
  /\ ans ((ClearCandidateSetByAddress bob ;; Finalise true ;; v ← GetCandidateSet; mret (elements (members v)))
          (freshState (s_db ex_two) (s_trie ex_two))) = Some [].
Proof. split; vm_compute; reflexivity. Qed.

End FlushExamples.
