(* ===== verification/StateShares.v ===== *)
(** * Delegated balances: totals and shares

    An account holds the total balance delegated to it, the part of it that is
    deposited and the part that waits to be refunded, and its proxied trie the
    share of each user in the three (state_object_delegate.go,
    statedb_delegate.go).  Whatever a client does, each total is the sum of the
    shares. *)
From S2P Require Import Prelude Rlp StateData StateToy StateDB StateObs StateRevert StateClient.
Local Open Scope Z_scope.

(** ** Sums *)
Section Sums.
Context {K : Type} `{EqDecision K}.

Definition sum_of (f : K -> Z) (l : list K) : Z := foldr (fun u z => f u + z) 0 l.

(** [t] is the sum of the shares [f], all but finitely many of which are zero. *)
Definition total_is (t : Z) (f : K -> Z) : Prop :=
  exists l, NoDup l /\ (forall u, u ∉ l -> f u = 0) /\ t = sum_of f l.

Lemma sum_of_cons f u l : sum_of f (u :: l) = f u + sum_of f l.
Proof. done. Qed.

Lemma sum_of_ext f g l : (forall u, u ∈ l -> f u = g u) -> sum_of f l = sum_of g l.
Proof.
  induction l as [|u l IH]; intros H; [done|]. rewrite !sum_of_cons, IH, (H u); [done|apply elem_of_cons; by left|].
  intros x Hx. apply H. apply elem_of_cons; by right.
Qed.

Lemma sum_of_change f g u d l : NoDup l -> u ∈ l -> g u = f u + d -> (forall x, x <> u -> g x = f x) ->
  sum_of g l = sum_of f l + d.
Proof.
  intros Hn Hu Hg Ho. induction Hn as [|x l Hx Hn IH]; [by apply not_elem_of_nil in Hu|]. rewrite !sum_of_cons.
  apply elem_of_cons in Hu as [->|Hu].
  - rewrite Hg, (sum_of_ext g f l); [lia|]. intros y Hy. apply Ho. intros ->. done.
  - rewrite IH by done. rewrite Ho; [lia|]. intros ->. done.
Qed.

Lemma total_is_change t f g u d : total_is t f -> g u = f u + d -> (forall x, x <> u -> g x = f x) ->
  total_is (t + d) g.
Proof.
  intros (l & Hn & Hz & ->) Hg Ho. destruct (decide (u ∈ l)) as [Hu|Hu].
  - exists l. split_and!; [done| |].
    + intros x Hx. rewrite Ho; [by apply Hz|]. intros ->. done.
    + symmetry. eapply sum_of_change; done.
  - exists (u :: l). split_and!.
    + by constructor.
    + intros x Hx. apply not_elem_of_cons in Hx as [H1 H2]. rewrite Ho by done. by apply Hz.
    + rewrite sum_of_cons, Hg, (Hz u Hu), (sum_of_ext g f l); [lia|]. intros y Hy. apply Ho. intros ->. done.
Qed.

Lemma total_is_ext t f g : (forall u, g u = f u) -> total_is t f -> total_is t g.
Proof.
  intros H (l & Hn & Hz & ->). exists l. split_and!; [done| |apply sum_of_ext; auto].
  intros u Hu. rewrite H. auto.
Qed.

Lemma total_is_zero f : (forall u, f u = 0) -> total_is 0 f.
Proof. intros H. exists []. split_and!; [constructor|auto|done]. Qed.

End Sums.

Section Shares.
Context {L : TrieLib} {LL : TrieLaws L}.

(** ** The three totals of an account and the shares in them *)
Inductive part := Proxied_part | Deposit_part | Pending_part.

Definition part_field (p : part) : zfield :=
  match p with
  | Proxied_part => FProxiedBalance
  | Deposit_part => FDepositProxiedBalance
  | Pending_part => FPendingRefundBalance
  end.
Definition part_share (p : part) : accountProxiedBalance -> Z :=
  match p with
  | Proxied_part => apb_ProxiedBalance
  | Deposit_part => apb_DepositProxiedBalance
  | Pending_part => apb_PendingRefundBalance
  end.

Definition otot (p : part) (o : stateObject) : Z := zget (part_field p) (so_data o).
Definition oshare (p : part) (db : DB) (o : stateObject) (u : bytes) : Z :=
  match proxied_of db o u with
  | Some v => apb_field (part_share p) v
  | None => 0
  end.

Definition total (p : part) (s : StateDB) (a : bytes) : Z :=
  match view s a with Some o => otot p o | None => 0 end.
Definition share (p : part) (s : StateDB) (a u : bytes) : Z :=
  match view s a with Some o => oshare p (s_db s) o u | None => 0 end.

Definition shares_ok (s : StateDB) : Prop := forall p a, total_is (total p s a) (share p s a).

Lemma otot_eqv p db o o' : obj_eqv db o o' -> otot p o = otot p o'.
Proof. intros H. apply (eqv_data (zget (part_field p)) db o o'); [destruct p; done|done]. Qed.
Lemma oshare_eqv p db o o' u : obj_eqv db o o' -> oshare p db o u = oshare p db o' u.
Proof.
  intros H. unfold oshare. specialize (H (QProxied u)). cbn [obs] in H.
  assert (proxied_of db o u = proxied_of db o' u) as -> by congruence. done.
Qed.

Lemma shares_ok_eqv s s' : eqv s' s -> shares_ok s -> shares_ok s'.
Proof.
  intros E H p a. pose proof (eqv_view s' s a E) as Hv. destruct E as (D & _). specialize (H p a).
  unfold total, share in *. destruct (view s' a) as [o'|], (view s a) as [o|]; try done.
  rewrite (otot_eqv _ _ _ _ Hv). eapply total_is_ext; [|exact H]. intros u. cbn.
  rewrite (oshare_eqv _ _ _ _ _ Hv), D. done.
Qed.

(** ** Replacing an object *)
Lemma upd_view a o s s' b : upd a o s s' -> so_deleted o = false ->
  view s' b = if bool_decide (a = b) then Some o else view s b.
Proof.
  intros [Ho (E1 & E2 & _)] Hd. unfold view. rewrite E2, Ho, lookup_insert.
  case_decide; case_bool_decide; try done. rewrite Hd. done.
Qed.

Lemma shares_ok_upd a o s s' : upd a o s s' -> so_deleted o = false -> shares_ok s ->
  (forall p, total_is (otot p o) (oshare p (s_db s) o)) -> shares_ok s'.
Proof.
  intros U Hd H Ho p b. pose proof U as [_ (E1 & _)]. unfold total, share. rewrite E1, (upd_view _ _ _ _ _ U Hd).
  case_bool_decide; [apply Ho|apply H].
Qed.

Lemma shares_ok_live s a o p : shares_ok s -> live s a o -> total_is (otot p o) (oshare p (s_db s) o).
Proof. intros H Hl. specialize (H p a). unfold total, share in H. rewrite (live_view _ _ _ Hl) in H. done. Qed.

(** An object with the same totals and shares. *)
Definition same_shares (db : DB) (o o' : stateObject) : Prop :=
  so_deleted o' = so_deleted o
  /\ forall p, otot p o' = otot p o /\ forall u, oshare p db o' u = oshare p db o u.

Lemma same_shares_upd a o o' s s' : upd a o' s s' -> live s a o -> same_shares (s_db s) o o' ->
  shares_ok s -> shares_ok s'.
Proof.
  intros U Hl [Hd Hs] H. eapply shares_ok_upd; [done|rewrite Hd; apply Hl|done|].
  intros p. destruct (Hs p) as [-> Hu]. eapply total_is_ext; [exact Hu|]. eapply shares_ok_live; done.
Qed.

Lemma same_shares_trans db o1 o2 o3 : same_shares db o1 o2 -> same_shares db o2 o3 -> same_shares db o1 o3.
Proof.
  intros [D1 H1] [D2 H2]. split; [congruence|]. intros p. destruct (H1 p) as [A1 B1], (H2 p) as [A2 B2].
  split; [congruence|]. intros u. rewrite B2, B1. done.
Qed.

Lemma same_shares_cached db o o' : cached db o o' -> same_shares db o o'.
Proof.
  intros (He & _ & Hd & _). split; [done|]. intros p. split; [by eapply otot_eqv|]. intros u. by apply oshare_eqv.
Qed.

(** ** Effects of the methods of an object *)
Lemma record_change_upd e f a s o : s_stateObjects s !! a = Some o ->
  exists s', (record e ;; changeObject a f) s = Ret (s', tt) /\ upd a (settle (f o)) s s'.
Proof.
  intros Ho.
  destruct (changeObject_upd (set_s_journal s (s_journal s ++ [e])) a o f Ho) as (s1 & H1 & [U R] & _).
  exists s1. split; [exact H1|]. split; [exact U|exact R].
Qed.

Lemma so_touch_upd a s o : s_stateObjects s !! a = Some o ->
  exists s', so_touch a s = Ret (s', tt) /\ upd a (set_so_touched (settle o) true) s s'.
Proof.
  intros Ho. unfold so_touch. rewrite (deref_live _ _ _ _ Ho).
  set (e := touchChange a (so_touched o) (negb (so_onDirty o))).
  destruct (callOnDirty_upd (set_s_journal s (s_journal s ++ [e])) a o Ho) as (s1 & H1 & [U1 R1] & _).
  assert (s_stateObjects s1 !! a = Some (settle o)) as Ho1 by (rewrite U1; apply lookup_insert_eq).
  destruct (putObject_upd s1 a (set_so_touched (settle o) true)) as (s2 & H2 & U2 & _).
  exists s2. unfold record, modifyS. unfold mbind at 1, SM_bind at 1.
  rewrite (SM_bind_Ret _ _ _ _ _ H1), (deref_live _ _ _ _ Ho1). split; [exact H2|].
  eapply upd_trans; [|exact U2]. split; [exact U1|exact R1].
Qed.

Lemma upd_same a o s : s_stateObjects s !! a = Some o -> upd a o s s.
Proof. intros H. split; [by rewrite insert_id|]. unfold same_rest. split_and!; done. Qed.

(** One number of the account changes by [v], the shares and rewards stay. *)
Definition added (f : zfield) (v : Z) (db : DB) (o o' : stateObject) : Prop :=
  so_deleted o' = so_deleted o /\ zget f (so_data o') = zget f (so_data o) + v
  /\ (forall g, g <> f -> zget g (so_data o') = zget g (so_data o))
  /\ (forall u, proxied_of db o' u = proxied_of db o u)
  /\ (forall u, reward_of db o' u = reward_of db o u)
  /\ forall c, side_lookup (acc_SideChainDepositBalance (so_data o')) c
               = side_lookup (acc_SideChainDepositBalance (so_data o)) c.

Lemma zget_zset f d v : zget f (zset f d v) = v.
Proof. destruct f; done. Qed.
Lemma zget_zset_ne f g d v : g <> f -> zget g (zset f d v) = zget g d.
Proof. destruct f, g; done. Qed.

Lemma cached_added f db o o' : cached db o o' -> added f 0 db o o'.
Proof.
  intros Hc. pose proof Hc as (_ & _ & Hd & Hdata). unfold added. rewrite Hdata. split_and!; try done; [lia| |].
  - intros u. by apply cached_proxied.
  - intros u. by apply cached_reward.
Qed.

Lemma zset_added f v db o : added f v db o (settle (over_data (fun d => zset f d (zget f d + v)) o)).
Proof.
  pose proof (settle_cached db (over_data (fun d => zset f d (zget f d + v)) o)) as Hc.
  pose proof Hc as (_ & _ & Hd & Hdata). unfold added. rewrite Hd, Hdata. cbn [so_data over_data set_so_data].
  pose proof (fun q => lens_obs _ _ db o (zget f (so_data o) + v) q (zset_lens f)) as H. unfold over_data in *.
  split_and!; [done|apply zget_zset|intros g Hg; by apply zget_zset_ne| | |intros c; destruct f; done].
  - intros u. rewrite (cached_proxied _ _ _ _ Hc). specialize (H (QProxied u) ltac:(done)). cbn [obs] in H. congruence.
  - intros u. rewrite (cached_reward _ _ _ _ Hc). specialize (H (QReward u) ltac:(done)). cbn [obs] in H. congruence.
Qed.

Lemma touched_cached db o b : cached db o (set_so_touched o b).
Proof. unfold cached. split_and!; try done; intros []; done. Qed.

Lemma so_AddZ_added f a v s s' o db : s_stateObjects s !! a = Some o -> so_AddZ f a v s = Ret (s', tt) ->
  exists o', upd a o' s s' /\ added f v db o o'.
Proof.
  intros Ho H. unfold so_AddZ in H. rewrite (deref_live _ _ _ _ Ho) in H.
  destruct (Z.eqb_spec v 0) as [->|Hv].
  - destruct (so_empty o); [|injection H as <-; exists o; split; [by apply upd_same|apply cached_added, cached_refl]].
    destruct (so_touch_upd a s o Ho) as (s1 & H1 & U1). rewrite H1 in H. injection H as <-.
    eexists. split; [exact U1|]. apply cached_added. eapply cached_trans; [apply settle_cached|apply touched_cached].
  - unfold so_SetZ in H. rewrite (deref_live _ _ _ _ Ho) in H.
    destruct (record_change_upd (zchange f a (zget f (so_data o)))
      (fun o1 => set_so_data o1 (zset f (so_data o1) (zget f (so_data o) + v))) a s o Ho) as (s1 & H1 & U1).
    change (so_setZ f a _) with (changeObject a (fun o1 => set_so_data o1 (zset f (so_data o1) (zget f (so_data o) + v)))) in H.
    rewrite H1 in H. injection H as <-. eexists. split; [exact U1|]. apply zset_added.
Qed.

Lemma so_SubZ_added f a v s s' o db : s_stateObjects s !! a = Some o -> so_SubZ f a v s = Ret (s', tt) ->
  exists o', upd a o' s s' /\ added f (- v) db o o'.
Proof.
  intros Ho H. unfold so_SubZ in H. rewrite (deref_live _ _ _ _ Ho) in H.
  destruct (Z.eqb_spec v 0) as [->|Hv].
  - injection H as <-. exists o. split; [by apply upd_same|apply cached_added, cached_refl].
  - unfold so_SetZ in H. rewrite (deref_live _ _ _ _ Ho) in H.
    destruct (record_change_upd (zchange f a (zget f (so_data o)))
      (fun o1 => set_so_data o1 (zset f (so_data o1) (zget f (so_data o) - v))) a s o Ho) as (s1 & H1 & U1).
    change (so_setZ f a _) with (changeObject a (fun o1 => set_so_data o1 (zset f (so_data o1) (zget f (so_data o) - v)))) in H.
    rewrite H1 in H. injection H as <-. eexists. split; [exact U1|]. apply zset_added.
Qed.

(** ** Operations that keep the sums *)
Definition keeps {A} (m : SM A) : Prop :=
  forall s s' x, swf s -> shares_ok s -> m s = Ret (s', x) -> shares_ok s'.
Definition keeps_at {A} (a : bytes) (m : SM A) : Prop :=
  forall o s s' x, swf s -> live s a o -> shares_ok s -> m s = Ret (s', x) -> shares_ok s'.

Lemma fresh_shares p db a : total_is (otot p (fresh_object a)) (oshare p db (fresh_object a)).
Proof.
  assert (otot p (fresh_object a) = 0) as -> by (destruct p; done). apply total_is_zero. intros u.
  destruct (NewSecure_zero db) as (t & Ht & Hg). unfold oshare, proxied_of.
  cbn [so_dirtyProxied so_originProxied fresh_object set_so_onDirty newObject]. rewrite !lookup_empty.
  cbn -[zeroHash]. rewrite Ht. cbn. unfold stored_proxied. rewrite Hg. done.
Qed.

Lemma GetOrNew_keeps a : keeps (GetOrNewStateObject a).
Proof.
  intros s s' x W Hs H. destruct (getStateObject_spec s a W) as (s0 & G & C0 & Hlive).
  unfold GetOrNewStateObject in H. rewrite (SM_bind_Ret _ _ _ _ _ G) in H.
  assert (shares_ok s0) as Hs0 by (eapply shares_ok_eqv; [apply C0|done]).
  destruct (view s a); cbn [is_some] in H; [injection H as <- _; done|].
  destruct (createObject_upd s0 a (proj1 C0)) as (s1 & s2 & e & H2 & C1 & U & _).
  rewrite (SM_bind_Ret _ _ _ _ _ H2) in H. injection H as <- _.
  eapply shares_ok_upd; [exact U|done|eapply shares_ok_eqv; [apply C1|done]|]. intros p. apply fresh_shares.
Qed.

Lemma keeps_new {A} a (m : SM A) : keeps_at a m -> keeps (GetOrNewStateObject a ;; m).
Proof.
  intros Hm s s' x W Hs H. destruct (GetOrNew_spec s a W) as (s1 & o & H1 & S1 & Hl & _).
  rewrite (SM_bind_Ret _ _ _ _ _ H1) in H. eapply Hm; [apply S1|exact Hl| |exact H].
  eapply GetOrNew_keeps; done.
Qed.

Lemma keeps_query {A} a (d : A) m : keeps_at a m -> keeps (query a d m).
Proof.
  intros Hm s s' x W Hs H. destruct (getStateObject_spec s a W) as (s1 & G & C & Hlive).
  unfold query in H. rewrite (SM_bind_Ret _ _ _ _ _ G) in H.
  assert (shares_ok s1) as Hs1 by (eapply shares_ok_eqv; [apply C|done]).
  destruct (view s a) as [o|]; cbn [is_some] in H; [|injection H as <- _; done].
  eapply Hm; [apply C|apply Hlive; done|done|exact H].
Qed.

Lemma keeps_reader {A} (m : SM A) : reader m -> keeps m.
Proof. intros [Hr _] s s' x W Hs H. eapply shares_ok_eqv; [apply (Hr _ _ _ W H)|done]. Qed.

Lemma keeps_at_seq {A B} a (m : SM A) (k : SM B) :
  ok_on a m -> keeps_at a m -> keeps_at a k -> keeps_at a (m ;; k).
Proof.
  intros Ho Hm Hk o s s' x W Hl Hs H. apply SM_bind_inv in H as (s1 & y & H1 & H2).
  destruct (Ho (s_db s) o s s1 y W eq_refl Hl H1) as [S1 (o1 & Hl1)].
  eapply Hk; [apply S1|exact Hl1|eapply Hm; done|exact H2].
Qed.

Lemma keeps_at_through {A B} a f (pure : DB -> stateObject -> option A) (k : A -> SM B) :
  (forall db, reads_value db f (pure db)) -> (forall v, keeps_at a (k v)) -> keeps_at a (x ← through a f; k x).
Proof.
  intros Hf Hk o s s' x W Hl Hs H. pose proof (through_spec f pure a o s Hf W Hl) as Ht.
  destruct (pure (s_db s) o) as [v|].
  - destruct Ht as (s1 & o1 & H1 & C1 & Hl1 & _). rewrite (SM_bind_Ret _ _ _ _ _ H1) in H.
    eapply Hk; [apply C1|exact Hl1|eapply shares_ok_eqv; [apply C1|done]|exact H].
  - destruct Ht as (e & He). unfold mbind, SM_bind in H. rewrite He in H. done.
Qed.

Lemma keeps_at_deref {A} a (f : stateObject -> SM A) : (forall o, keeps_at a (f o)) -> keeps_at a (o ← deref a; f o).
Proof.
  intros Hf o s s' x W Hl Hs H. rewrite (deref_live _ _ _ _ (proj1 Hl)) in H. eapply (Hf o); done.
Qed.

Lemma keeps_at_change a e f : (forall db o, same_shares db o (f o)) -> keeps_at a (record e ;; changeObject a f).
Proof.
  intros Hf o s s' x W Hl Hs H. destruct (record_change_upd e f a s o (proj1 Hl)) as (s1 & H1 & U1).
  rewrite H1 in H. injection H as <- _. eapply same_shares_upd; [exact U1|exact Hl| |done].
  eapply same_shares_trans; [apply Hf|]. apply same_shares_cached, settle_cached.
Qed.

Lemma keeps_at_touch a : keeps_at a (so_touch a).
Proof.
  intros o s s' x W Hl Hs H. destruct (so_touch_upd a s o (proj1 Hl)) as (s1 & H1 & U1).
  rewrite H1 in H. injection H as <- _. eapply same_shares_upd; [exact U1|exact Hl| |done].
  apply same_shares_cached. eapply cached_trans; [apply settle_cached|apply touched_cached].
Qed.

Lemma keeps_at_ret {A} a (x : A) : keeps_at a (mret x).
Proof. intros o s s' y W Hl Hs [= <- _]. done. Qed.

(** Changes of the account that are not about delegation. *)
Lemma lens_same_shares {V} (dset : Account -> V -> Account) dget db o v : dlens dset dget ->
  (forall p d, zget (part_field p) (dset d v) = zget (part_field p) d) ->
  same_shares db o (over_data (fun d => dset d v) o).
Proof.
  intros Hl Hp. split; [done|]. intros p. split; [apply Hp|]. intros u. unfold oshare.
  pose proof (lens_obs _ _ db o v (QProxied u) Hl ltac:(done)) as H. cbn [obs] in H.
  assert (proxied_of db (over_data (fun d => dset d v) o) u = proxied_of db o u) as -> by congruence. done.
Qed.

(** The numbers that are not totals of shares. *)
Definition plain (f : zfield) : bool :=
  match f with FProxiedBalance | FDepositProxiedBalance | FPendingRefundBalance => false | _ => true end.

Lemma plain_ne f p : plain f = true -> part_field p <> f.
Proof. destruct f, p; done. Qed.

Lemma keeps_at_SetZ f a v : plain f = true -> keeps_at a (so_SetZ f a v).
Proof.
  intros Hf. apply keeps_at_deref. intros o. apply keeps_at_change. intros db o1.
  apply (lens_same_shares _ _ db o1 v (zset_lens f)). intros p d. apply zget_zset_ne, plain_ne, Hf.
Qed.
Lemma keeps_at_AddZ f a v : plain f = true -> keeps_at a (so_AddZ f a v).
Proof.
  intros Hf. apply keeps_at_deref. intros o. destruct (v =? 0); [|by apply keeps_at_SetZ].
  destruct (so_empty o); [apply keeps_at_touch|apply keeps_at_ret].
Qed.
Lemma keeps_at_SubZ f a v : plain f = true -> keeps_at a (so_SubZ f a v).
Proof.
  intros Hf. apply keeps_at_deref. intros o. destruct (v =? 0); [apply keeps_at_ret|by apply keeps_at_SetZ].
Qed.

Lemma keeps_at_SetCandidate a v : keeps_at a (so_SetCandidate a v).
Proof.
  apply keeps_at_deref. intros o. apply keeps_at_change. intros db o1.
  apply (lens_same_shares _ _ db o1 v candidate_lens). intros [] d; done.
Qed.
Lemma keeps_at_SetPubkey a v : keeps_at a (so_SetPubkey a v).
Proof.
  apply keeps_at_deref. intros o. apply keeps_at_change. intros db o1.
  apply (lens_same_shares _ _ db o1 v pubkey_lens). intros [] d; done.
Qed.
Lemma keeps_at_SetBanned a v : keeps_at a (so_SetBanned a v).
Proof.
  apply keeps_at_deref. intros o. apply keeps_at_change. intros db o1.
  apply (lens_same_shares _ _ db o1 v banned_lens). intros [] d; done.
Qed.
Lemma keeps_at_SetState a k v : keeps_at a (so_SetState a k v).
Proof.
  eapply (keeps_at_through _ _ (fun db o => storage_of db o k)); [intros; apply so_GetState_reads|].
  intros p. apply keeps_at_change. intros db o. split; done.
Qed.
Lemma keeps_at_SetReward a k v : keeps_at a (so_SetDelegateRewardBalance a k v).
Proof.
  eapply (keeps_at_through _ _ (fun db o => reward_of db o k)); [intros; apply GetDelegateRewardBalance_reads|].
  intros p. apply keeps_at_change. intros db o. split; done.
Qed.
Lemma keeps_at_SetCode a h c : keeps_at a (so_SetCode a h c).
Proof.
  eapply (keeps_at_through _ _ (fun db o => Some (code_of db o))); [intros; apply so_Code_reads|].
  intros p. apply keeps_at_deref. intros o. apply keeps_at_change. intros db o1.
  split; [done|]. intros []; done.
Qed.
Lemma keeps_at_SetSide a c v : keeps_at a (so_SetSideChainDepositBalance a c v).
Proof.
  intros o s s' x W Hl Hs H. destruct (so_SetSide_upd s a o c v (proj1 Hl)) as (s1 & H1 & U1 & _).
  rewrite H1 in H. injection H as <- _. eapply same_shares_upd; [exact U1|exact Hl| |done].
  eapply same_shares_trans; [|apply same_shares_cached, settle_cached]. split; [done|]. intros []; done.
Qed.
Lemma keeps_at_AddSide a c v : keeps_at a (so_AddSideChainDepositBalance a c v).
Proof.
  apply keeps_at_deref. intros o. destruct (v =? 0); [|apply keeps_at_SetSide].
  destruct (so_empty o); [apply keeps_at_touch|apply keeps_at_ret].
Qed.
Lemma keeps_at_SubSide a c v : keeps_at a (so_SubSideChainDepositBalance a c v).
Proof. apply keeps_at_deref. intros o. destruct (v =? 0); [apply keeps_at_ret|apply keeps_at_SetSide]. Qed.

Lemma keeps_addReward a u v :
  keeps_at a (r ← through a (fun db o => GetDelegateRewardBalance db o u);
           so_SetDelegateRewardBalance a u (Some match r with None => v | Some r => r + v end) ;;
           so_AddRewardBalance a v).
Proof.
  eapply (keeps_at_through _ _ (fun db o => reward_of db o u)); [intros; apply GetDelegateRewardBalance_reads|].
  intros r. apply keeps_at_seq; [apply so_SetDelegateRewardBalance_ok|apply keeps_at_SetReward|by apply keeps_at_AddZ].
Qed.
Lemma keeps_subReward a u v :
  keeps_at a (r ← through a (fun db o => GetDelegateRewardBalance db o u);
           match r with
           | None => panicS "you can't subtract the amount from nil balance, check the code, this should not happen"
           | Some r => so_SetDelegateRewardBalance a u (Some (r - v)) ;; so_SubRewardBalance a v
           end).
Proof.
  eapply (keeps_at_through _ _ (fun db o => reward_of db o u)); [intros; apply GetDelegateRewardBalance_reads|].
  intros [r|]; [|intros o s s' x _ _ _ H; done].
  apply keeps_at_seq; [apply so_SetDelegateRewardBalance_ok|apply keeps_at_SetReward|by apply keeps_at_SubZ].
Qed.

(** A change of the object alone. *)
Lemma keeps_at_put a e f : (forall db o, same_shares db o (f o)) ->
  keeps_at a (record e ;; o ← deref a; putObject a (f o)).
Proof.
  intros Hf o s s' x W Hl Hs H. unfold record, modifyS in H. unfold mbind at 1, SM_bind at 1 in H.
  rewrite (deref_live (set_s_journal s (s_journal s ++ [e])) a o _ (proj1 Hl)) in H. injection H as <- _.
  eapply (same_shares_upd a o (f o) s); [|exact Hl|apply Hf|done]. unfold upd, same_rest. split_and!; done.
Qed.

Lemma keeps_bind {A B} (m : SM A) (f : A -> SM B) : ok m -> keeps m -> (forall x, keeps (f x)) -> keeps (x ← m; f x).
Proof.
  intros Ho Hm Hf s s' x W Hs H. apply SM_bind_inv in H as (s1 & y & H1 & H2).
  pose proof (Ho _ _ _ W H1) as S1. eapply Hf; [apply S1|eapply Hm; done|exact H2].
Qed.
Lemma keeps_ret {A} (x : A) : keeps (mret x).
Proof. intros s s' y W Hs [= <- _]. done. Qed.

Lemma keeps_addTX1 a h : keeps (addTX1_new a h).
Proof.
  apply keeps_bind; [apply reader_ok, reader_HasTX1|apply keeps_reader, reader_HasTX1|].
  intros []; [apply keeps_ret|]. apply keeps_new, keeps_at_put. intros db o. split; done.
Qed.
Lemma keeps_addTX3 a h : keeps (addTX3_new a h).
Proof.
  apply keeps_bind; [apply reader_ok, reader_HasTX3|apply keeps_reader, reader_HasTX3|].
  intros []; [apply keeps_ret|]. apply keeps_new, keeps_at_put. intros db o. split; done.
Qed.

(** Operations that leave the objects alone. *)
Lemma keeps_other {A} (m : SM A) :
  (forall s s' x, m s = Ret (s', x) ->
     s_stateObjects s' = s_stateObjects s /\ s_db s' = s_db s /\ s_trie s' = s_trie s) -> keeps m.
Proof.
  intros Hm s s' x W Hs H p a. destruct (Hm _ _ _ H) as (E1 & E2 & E3). specialize (Hs p a).
  unfold total, share, view in *. rewrite E1, E2, E3. exact Hs.
Qed.
Lemma AddPreimage_other h v s s' x : AddPreimage h v s = Ret (s', x) ->
  s_stateObjects s' = s_stateObjects s /\ s_db s' = s_db s /\ s_trie s' = s_trie s.
Proof.
  unfold AddPreimage, mbind, SM_bind, getS, record, modifyS. destruct (s_preimages s !! h); intros [= <- _]; done.
Qed.
Lemma SubRefund_other g s s' x : SubRefund g s = Ret (s', x) ->
  s_stateObjects s' = s_stateObjects s /\ s_db s' = s_db s /\ s_trie s' = s_trie s.
Proof.
  unfold SubRefund, mbind, SM_bind, getS, record, modifyS. destruct (g >? s_refund s); [done|]. intros [= <- _]. done.
Qed.

Lemma keeps_CreateAccount a : keeps (CreateAccount a).
Proof.
  intros s s' x W Hs H. destruct (createObject_upd s a W) as (s0 & s1 & e & Hc & C & U & _).
  unfold CreateAccount in H. rewrite (SM_bind_Ret _ _ _ _ _ Hc) in H.
  assert (shares_ok s1) as Hs1.
  { eapply shares_ok_upd; [exact U|done|eapply shares_ok_eqv; [apply C|done]|]. intros p. apply fresh_shares. }
  destruct (view s a) as [o|]; [|injection H as <- _; done].
  assert (live s1 a (fresh_object a)) as Hl1 by (eapply upd_live; done).
  set (f := over_data (fun d => zset FBalance d (acc_Balance (so_data o)))).
  destruct (changeObject_upd s1 a _ f (proj1 Hl1)) as (s2 & H2 & U2 & _).
  change (changeObject a f s1) with (so_setZ FBalance a (acc_Balance (so_data o)) s1) in H2. rewrite H2 in H.
  injection H as <- _. eapply same_shares_upd; [exact U2|exact Hl1| |done].
  eapply same_shares_trans; [|apply same_shares_cached, settle_cached].
  apply (lens_same_shares _ _ _ _ _ (zset_lens FBalance)). intros [] d; done.
Qed.

Lemma keeps_Suicide a : keeps (Suicide a ;; mret tt).
Proof.
  apply keeps_bind; [apply Suicide_ok| |intros; apply keeps_ret].
  intros s s' x W Hs H. destruct (getStateObject_spec s a W) as (s0 & G & C0 & Hlive).
  unfold Suicide in H. rewrite (SM_bind_Ret _ _ _ _ _ G) in H.
  assert (shares_ok s0) as Hs0 by (eapply shares_ok_eqv; [apply C0|done]).
  destruct (view s a) as [o|]; cbn [is_some] in H; [|injection H as <- _; done].
  specialize (Hlive o eq_refl). rewrite (deref_live _ _ _ _ (proj1 Hlive)) in H.
  set (e := suicideChange a (so_suicided o) (acc_Balance (so_data o))) in *.
  destruct (record_change_upd e (fun o => set_so_suicided o true) a s0 o (proj1 Hlive)) as (s1 & H1 & U1).
  set (o1 := settle (set_so_suicided o true)) in *.
  assert (s_stateObjects s1 !! a = Some o1) as Ho1 by (rewrite (proj1 U1); apply lookup_insert_eq).
  assert ((o ← deref a; putObject a (set_so_data o (set_acc_Balance (so_data o) 0)) ;; mret true) s1 = Ret (s', x)) as H'.
  { apply SM_bind_inv in H as (t & [] & Ht & H). apply SM_bind_inv in H as (t2 & [] & Ht2 & H).
    assert ((record e ;; so_markSuicided a) s0 = Ret (t2, tt)) as E by (rewrite (SM_bind_Ret _ _ _ _ _ Ht); exact Ht2).
    change (so_markSuicided a) with (changeObject a (fun o => set_so_suicided o true)) in E. congruence. }
  rewrite (deref_live _ _ _ _ Ho1) in H'. injection H' as <- _.
  eapply (same_shares_upd a o _ s0); [eapply upd_trans; [exact U1|]|exact Hlive| |done].
  - unfold upd, same_rest. split_and!; done.
  - eapply same_shares_trans; [|apply (lens_same_shares _ _ _ o1 0 (zset_lens FBalance)); intros [] d; done].
    eapply same_shares_trans; [|apply same_shares_cached, settle_cached]. split; done.
Qed.

(** ** The operations on shares *)

(** [f] adds [d] to one part of a share. *)
Definition adds (p : part) (d : Z) (f : accountProxiedBalance -> accountProxiedBalance) : Prop :=
  forall x, part_share p (f x) = part_share p x + d
    /\ forall q, q <> p -> part_share q (f x) = part_share q x.

Lemma part_field_inj p q : part_field p = part_field q -> p = q.
Proof. destruct p, q; done. Qed.
#[export] Instance part_eq_dec : EqDecision part.
Proof. solve_decision. Defined.

Lemma write_share_share p db o u v x :
  oshare p db (write_share u (Some v) o) x = if bool_decide (x = u) then part_share p v else oshare p db o x.
Proof.
  pose proof (write_share_obs db o u (Some v) (QProxied x)) as H. cbn [obs] in H. unfold oshare.
  destruct (decide (x = u)) as [->|Hne].
  - rewrite bool_decide_true in H |- * by done. injection H as ->. done.
  - rewrite bool_decide_false in H by congruence. rewrite bool_decide_false by done. injection H as ->. done.
Qed.

Lemma share_changes p d f db o u v o1 :
  adds p d f -> proxied_of db o u = Some v ->
  (forall q, total_is (otot q o) (oshare q db o)) ->
  added (part_field p) d db (write_share u (Some (f (default NewAccountProxiedBalance v))) o) o1 ->
  forall q, total_is (otot q o1) (oshare q db o1).
Proof.
  intros Hf Hv Ho (_ & Ht & Hn & Hp & _) q. specialize (Ho q).
  set (w := f (default NewAccountProxiedBalance v)) in *.
  assert (forall x, oshare q db o1 x = if bool_decide (x = u) then part_share q w else oshare q db o x) as Hs.
  { intros x. rewrite <- write_share_share. unfold oshare. rewrite Hp. done. }
  assert (oshare q db o u = part_share q (default NewAccountProxiedBalance v)) as Hu.
  { unfold oshare. rewrite Hv. destruct v, q; done. }
  destruct (Hf (default NewAccountProxiedBalance v)) as [F1 F2]. fold w in F1, F2.
  destruct (decide (q = p)) as [->|Hne].
  - unfold otot at 1. rewrite Ht. apply (total_is_change _ _ _ u d Ho).
    + rewrite Hs, bool_decide_true, F1, Hu by done. done.
    + intros x Hx. rewrite Hs, bool_decide_false by done. done.
  - unfold otot at 1. rewrite Hn by (intros E; apply part_field_inj in E; done).
    eapply total_is_ext; [|exact Ho]. intros x. rewrite Hs. case_bool_decide; [|done]. subst. rewrite Hu. by apply F2.
Qed.

(** The state [s2] differs from [s] by its caches; from it, the object changes
    its share and its total. *)
Definition share_done (p : part) (d : Z) f (a u : bytes) (s s' : StateDB) : Prop :=
  exists s2 o2 o4 v, calm s s2 /\ live s2 a o2 /\ proxied_of (s_db s2) o2 u = Some v /\ upd a o4 s2 s'
    /\ added (part_field p) d (s_db s2) (write_share u (Some (f (default NewAccountProxiedBalance v))) o2) o4.

Lemma share_op_spec p d f (m : SM unit) a u o s s' :
  (forall s s' o db, s_stateObjects s !! a = Some o -> m s = Ret (s', tt) ->
     exists o', upd a o' s s' /\ added (part_field p) d db o o') ->
  swf s -> live s a o -> (changeShare a u f ;; m) s = Ret (s', tt) -> share_done p d f a u s s'.
Proof.
  intros Hm W Hl H. apply SM_bind_inv in H as (s1 & [] & H1 & H2).
  unfold changeShare in H1.
  pose proof (through_spec _ _ a o s (fun db => GetAccountProxiedBalance_reads db u) W Hl) as Ht.
  destruct (proxied_of (s_db s) o u) as [v|] eqn:Ev.
  2: { destruct Ht as (e & He). unfold mbind, SM_bind in H1. rewrite He in H1. done. }
  destruct Ht as (s0 & o0 & H0 & C0 & Hl0 & Hc0 & D0). rewrite (SM_bind_Ret _ _ _ _ _ H0) in H1.
  set (w := f (default NewAccountProxiedBalance v)) in *. unfold so_SetAccountProxiedBalance in H1.
  pose proof (through_spec _ _ a o0 s0 (fun db => GetAccountProxiedBalance_reads db u) (proj1 C0) Hl0) as Ht.
  rewrite D0, (cached_proxied _ _ _ u Hc0), Ev in Ht.
  destruct Ht as (s2 & o2 & H3 & C2 & Hl2 & Hc2 & D2). rewrite (SM_bind_Ret _ _ _ _ _ H3) in H1.
  destruct (record_change_upd (accountProxiedBalanceChange a u v) (write_share u (Some w)) a s2 o2 (proj1 Hl2))
    as (s3 & H4 & U4).
  change (so_setAccountProxiedBalance a u (Some w)) with (changeObject a (write_share u (Some w))) in H1.
  rewrite H4 in H1. injection H1 as <-.
  set (o3 := settle (write_share u (Some w) o2)) in *.
  assert (s_stateObjects s3 !! a = Some o3) as Ho3 by (rewrite (proj1 U4); apply lookup_insert_eq).
  destruct (Hm s3 s' o3 (s_db s2) Ho3 H2) as (o4 & U5 & A1 & A2 & A3 & A4 & A5 & A6).
  pose proof (settle_cached (s_db s2) (write_share u (Some w) o2)) as Hc3.
  exists s2, o2, o4, v. split_and!; [eapply calm_trans; done|done| |eapply upd_trans; done|].
  - rewrite D2, (cached_proxied _ _ _ u Hc2), (cached_proxied _ _ _ u Hc0). done.
  - pose proof Hc3 as (_ & _ & Q1 & Q2). unfold added. fold w. fold o3 in Q1, Q2. rewrite <- Q2, <- Q1.
    split_and!; try done.
    + intros x. rewrite A4. apply (cached_proxied _ _ _ _ Hc3).
    + intros x. rewrite A5. apply (cached_reward _ _ _ _ Hc3).
Qed.

Lemma share_op p d f (m : SM unit) a u :
  adds p d f ->
  (forall s s' o db, s_stateObjects s !! a = Some o -> m s = Ret (s', tt) ->
     exists o', upd a o' s s' /\ added (part_field p) d db o o') ->
  keeps (GetOrNewStateObject a ;; changeShare a u f ;; m).
Proof.
  intros Hf Hm. apply keeps_new. intros o s s' [] W Hl Hs H.
  destruct (share_op_spec p d f m a u o s s' Hm W Hl H) as (s2 & o2 & o4 & v & C & Hl2 & Hv & U & A).
  assert (shares_ok s2) as Hs2 by (eapply shares_ok_eqv; [apply C|done]).
  eapply (shares_ok_upd a o4 s2); [exact U| |done|].
  - destruct A as (-> & _). apply Hl2.
  - eapply (share_changes p d f (s_db s2) o2 u v o4 Hf Hv); [|exact A]. intros q. by apply (shares_ok_live s2 a).
Qed.

Definition share_fun (p : part) (d : Z) : accountProxiedBalance -> accountProxiedBalance :=
  match p with
  | Proxied_part => apb_addProxied d
  | Deposit_part => apb_addDeposit d
  | Pending_part => apb_addPending d
  end.
Lemma share_fun_adds p d : adds p d (share_fun p d).
Proof. intros x. split; [destruct p; done|]. intros [] Hq; destruct p; done. Qed.

Lemma share_add p a u v : keeps (GetOrNewStateObject a ;; changeShare a u (share_fun p v) ;; so_AddZ (part_field p) a v).
Proof. apply (share_op p v); [apply share_fun_adds|]. intros s s' o db. apply so_AddZ_added. Qed.
Lemma share_sub p a u v :
  keeps (GetOrNewStateObject a ;; changeShare a u (share_fun p (- v)) ;; so_SubZ (part_field p) a v).
Proof. apply (share_op p (- v)); [apply share_fun_adds|]. intros s s' o db. apply so_SubZ_added. Qed.

Lemma runMutator_keeps m : keeps (runMutator m).
Proof.
  destruct m; cbn [runMutator].
  - apply keeps_new, keeps_at_AddZ; done.
  - apply keeps_new, keeps_at_SubZ; done.
  - apply keeps_new, keeps_at_SetZ; done.
  - apply keeps_new, keeps_at_AddZ; done.
  - apply keeps_new, keeps_at_SubZ; done.
  - apply keeps_new, keeps_at_SetZ; done.
  - apply keeps_new, keeps_at_AddZ; done.
  - apply keeps_new, keeps_at_SubZ; done.
  - apply keeps_new, keeps_at_SetZ; done.
  - apply keeps_new, keeps_at_AddZ; done.
  - apply keeps_new, keeps_at_SubZ; done.
  - apply keeps_new, keeps_at_AddZ; done.
  - apply keeps_new, keeps_at_SubZ; done.
  - apply keeps_query, keeps_at_AddZ; done.
  - apply keeps_query, keeps_at_SubZ; done.
  - apply keeps_new, keeps_at_AddSide.
  - apply keeps_new, keeps_at_SubSide.
  - apply keeps_new, keeps_at_SetSide.
  - apply (share_add Proxied_part).
  - apply (share_add Deposit_part).
  - apply (share_add Pending_part).
  - apply (share_sub Proxied_part).
  - apply (share_sub Deposit_part).
  - apply (share_sub Pending_part).
  - apply keeps_new, keeps_addReward.
  - apply keeps_new, keeps_subReward.
  - apply keeps_new, keeps_at_SetZ; done.
  - apply keeps_new, keeps_at_SetCode.
  - apply keeps_new, keeps_at_SetState.
  - apply keeps_new, keeps_at_SetZ; done.
  - apply keeps_new, keeps_at_SetBanned.
  - apply keeps_new, keeps_at_SetZ; done.
  - apply keeps_new, keeps_at_SetZ; done.
  - apply keeps_new, keeps_at_seq; [apply so_SetCandidate_ok|apply keeps_at_SetCandidate|]; apply keeps_at_seq; [apply so_SetZ_ok|by apply keeps_at_SetZ|apply keeps_at_SetPubkey].
  - apply keeps_new, keeps_at_seq; [apply so_SetCandidate_ok|apply keeps_at_SetCandidate|]; apply keeps_at_seq; [apply so_SetPubkey_ok|apply keeps_at_SetPubkey|]; destruct allRefund; [by apply keeps_at_SetZ|apply keeps_at_ret].
  - apply keeps_Suicide.
  - apply keeps_CreateAccount.
  - apply keeps_addTX1.
  - apply keeps_addTX3.
  - apply keeps_other; intros s s' x H; injection H as <- _; done.
  - apply keeps_other, AddPreimage_other.
  - apply keeps_other; intros s s' x H; injection H as <- _; done.
  - apply keeps_other, SubRefund_other.
Qed.

(** ** Clients *)
Lemma Snapshot_keeps : keeps Snapshot.
Proof. apply keeps_other. intros s s' x H. injection H as <- _. done. Qed.

Lemma runClient_keeps c : keeps (runClient c).
Proof.
  induction c as [b|m k IHk|g k IHk|body IHb k IHk]; cbn [runClient].
  - apply keeps_ret.
  - apply keeps_bind; [apply runMutator_ok|apply runMutator_keeps|done].
  - apply keeps_bind; [apply reader_ok, runGetter_reader|apply keeps_reader, runGetter_reader|done].
  - intros s s' x W Hs H. apply SM_bind_inv in H as (s1 & id & H1 & H).
    apply SM_bind_inv in H as (s2 & r & H2 & H). apply SM_bind_inv in H as (s3 & [] & H3 & H).
    pose proof (Snapshot_step _ _ _ W H1) as S1. pose proof (runClient_ok body _ _ _ (proj1 S1) H2) as S2.
    pose proof (IHb _ _ _ (proj1 S1) (Snapshot_keeps _ _ _ W Hs H1) H2) as Hs2.
    assert (swf s3 /\ shares_ok s3) as [W3 Hs3]; [|eapply IHk; done].
    destruct r; [injection H3 as <-; split; [apply S2|done]|].
    destruct (revert_spec s s1 s2 id W H1 S2) as (s3' & H3' & W3 & E3 & _).
    rewrite H3' in H3. injection H3 as <-. split; [done|]. eapply shares_ok_eqv; done.
Qed.

(** the balance delegated to an account, the part of it that is deposited
    and the part that waits to be refunded are the sums of the shares of the
    users, at every account, in every state a client can reach through the
    methods of the database, with calls that fail and are reverted. *)
Theorem totals_are_sums c s s' r :
  swf s -> shares_ok s -> runClient c s = Ret (s', r) -> shares_ok s'.
Proof. intros W Hs H. eapply runClient_keeps; done. Qed.

End Shares.

Module SharesExamples.
Import StateToy ClientExamples.

(** Two users delegate to bob, a third delegation fails and is reverted, and
    one user starts to withdraw. *)
Definition carol : bytes := replicate 31 0 ++ [3].
Definition ex_delegations : client :=
  Change (MAddProxiedBalanceByUser bob alice 50) (Change (MAddProxiedBalanceByUser bob carol 20)
    (Call (Change (MAddProxiedBalanceByUser bob bob 1000) (Done false))
      (fun _ => Change (MAddPendingRefundBalanceByUser bob alice 5) (Done true)))).

Definition ex_shares : StateDB := state_of ex_new (runClient ex_delegations ex_new).

Lemma ex_new_shares : shares_ok ex_new.
Proof.
  intros p a.
  assert (view ex_new a = None) as Hv by (unfold view; cbn; rewrite lookup_empty; done).
  unfold total, share. rewrite Hv. apply total_is_zero. done.
Qed.

Lemma totals_are_sums_witness :
  shares_ok ex_shares /\ total Proxied_part ex_shares bob = 70 /\ share Proxied_part ex_shares bob alice = 50
  /\ share Proxied_part ex_shares bob bob = 0 /\ total Pending_part ex_shares bob = 5.
Proof.
  split; [|vm_compute; repeat split; reflexivity].
  refine (totals_are_sums (L := toyLib) ex_delegations ex_new ex_shares true _ ex_new_shares _).
  - apply (New_swf (L := toyLib) toy_empty). reflexivity.
  - apply run_state. vm_compute. reflexivity.
Defined.

End SharesExamples.
