(* ===== verification/StateLedger.v ===== *)
(** * The ledger of the state database

    The amounts the accounts hold, seen as one table: the balances, the shares
    of the users in what is delegated to an account, and the rewards by
    delegate.  Every operation of the database that changes amounts adds a list
    of entries to the table, so the effect of code that calls many of them
    (transaction callbacks, the end of an epoch, block rewards) is the list of
    the entries of its calls. *)
From S2P Require Import Prelude Rlp StateData StateDB StateObs StateRevert StateClient StateShares.
Local Open Scope Z_scope.

(** ** The lines of the table *)
Inductive coin := CBalance | CDeposit | CDelegate | CReward | CChain.

Definition coin_field (c : coin) : zfield :=
  match c with
  | CBalance => FBalance
  | CDeposit => FDepositBalance
  | CDelegate => FDelegateBalance
  | CReward => FRewardBalance
  | CChain => FChainBalance
  end.

(** A number of the account, a share of a user, a reward by delegate, or the
    deposit for a side chain. *)
Inductive line := Coin (c : coin) | Share (p : part) (u : bytes) | Reward_from (u : bytes) | Side (chain : bytes).

#[export] Instance zfield_eq_dec : EqDecision zfield.
Proof. solve_decision. Defined.
#[export] Instance coin_eq_dec : EqDecision coin.
Proof. solve_decision. Defined.
#[export] Instance line_eq_dec : EqDecision line.
Proof. solve_decision. Defined.

(** A line of an account. *)
Abbreviation item := (bytes * line)%type.
(** An entry adds an amount to a line. *)
Abbreviation entry := (item * Z)%type.

(** What the entries add to a line. *)
Definition posted (ds : list entry) (i : item) : Z :=
  foldr (fun e z => (if bool_decide (fst e = i) then snd e else 0) + z) 0 ds.

Lemma posted_cons j v ds i : posted ((j, v) :: ds) i = (if bool_decide (j = i) then v else 0) + posted ds i.
Proof. done. Qed.
Lemma posted_app ds ds' i : posted (ds ++ ds') i = posted ds i + posted ds' i.
Proof. induction ds as [|[j v] ds IH]; [done|]. rewrite <- app_comm_cons, !posted_cons, IH. lia. Qed.

(** The sum of the entries, each with the weight of its line. *)
Definition weighted (w : item -> Z) (ds : list entry) : Z := foldr (fun e z => w (fst e) * snd e + z) 0 ds.

Lemma weighted_cons w j v ds : weighted w ((j, v) :: ds) = w j * v + weighted w ds.
Proof. done. Qed.
Lemma weighted_app w ds ds' : weighted w (ds ++ ds') = weighted w ds + weighted w ds'.
Proof. induction ds as [|[j v] ds IH]; [done|]. rewrite <- app_comm_cons, !weighted_cons, IH. lia. Qed.

Section Ledger.
Context {L : TrieLib} {LL : TrieLaws L}.

Definition oline (db : DB) (o : stateObject) (q : line) : Z :=
  match q with
  | Coin c => zget (coin_field c) (so_data o)
  | Share p u => oshare p db o u
  | Reward_from u => match reward_of db o u with Some v => default 0 v | None => 0 end
  | Side c => side_lookup (acc_SideChainDepositBalance (so_data o)) c
  end.

Definition ledger (s : StateDB) (i : item) : Z :=
  match view s (fst i) with Some o => oline (s_db s) o (snd i) | None => 0 end.

(** The entries lead from the table of one state to that of another. *)
Definition moved (ds : list entry) (s s' : StateDB) : Prop := forall i, ledger s' i = ledger s i + posted ds i.

Lemma moved_refl s : moved [] s s.
Proof. intros i. cbn. lia. Qed.
Lemma moved_trans ds ds' s1 s2 s3 : moved ds s1 s2 -> moved ds' s2 s3 -> moved (ds ++ ds') s1 s3.
Proof. intros H1 H2 i. rewrite H2, H1, posted_app. lia. Qed.

Lemma oline_eqv db o o' q : obj_eqv db o o' -> oline db o q = oline db o' q.
Proof.
  intros H. destruct q as [c|p u|u|c]; cbn.
  - apply (eqv_data (zget (coin_field c)) db o o'); [destruct c; done|done].
  - by apply oshare_eqv.
  - specialize (H (QReward u)). cbn [obs] in H.
    assert (reward_of db o u = reward_of db o' u) as -> by congruence. done.
  - specialize (H (QSide c)). cbn [obs] in H. congruence.
Qed.

Lemma eqv_moved s s' : eqv s' s -> moved [] s s'.
Proof.
  intros E i. pose proof (eqv_view s' s (fst i) E) as Hv. destruct E as (D & _). unfold ledger. cbn.
  destruct (view s' (fst i)), (view s (fst i)); try done. rewrite (oline_eqv _ _ _ _ Hv), D. lia.
Qed.

Lemma calm_moved s s' : calm s s' -> moved [] s s'.
Proof. intros (_ & E & _). by apply eqv_moved. Qed.

(** What the entries of one account add to a line of it. *)
Definition lposted (ds : list (line * Z)) (q : line) : Z :=
  foldr (fun e z => (if bool_decide (fst e = q) then snd e else 0) + z) 0 ds.
Definition entries_of (a : bytes) (ds : list (line * Z)) : list entry := (fun e => ((a, fst e), snd e)) <$> ds.

Lemma lposted_cons l v ds q : lposted ((l, v) :: ds) q = (if bool_decide (l = q) then v else 0) + lposted ds q.
Proof. done. Qed.
Lemma lposted_app ds ds' q : lposted (ds ++ ds') q = lposted ds q + lposted ds' q.
Proof. induction ds as [|[l v] ds IH]; [done|]. rewrite <- app_comm_cons, !lposted_cons, IH. lia. Qed.

Lemma posted_entries_of a ds b q : posted (entries_of a ds) (b, q) = if bool_decide (a = b) then lposted ds q else 0.
Proof.
  induction ds as [|[l v] ds IH]; [case_bool_decide; done|].
  change (entries_of a ((l, v) :: ds)) with (((a, l), v) :: entries_of a ds).
  rewrite posted_cons, lposted_cons, IH. repeat case_bool_decide; simplify_eq/=; try done; try lia; congruence.
Qed.

(** An object changes by the entries of its lines. *)
Definition omoved (ds : list (line * Z)) (db : DB) (o o' : stateObject) : Prop :=
  so_deleted o' = so_deleted o /\ forall q, oline db o' q = oline db o q + lposted ds q.

Lemma upd_moved a o o' ds s s' :
  live s a o -> upd a o' s s' -> omoved ds (s_db s) o o' -> moved (entries_of a ds) s s'.
Proof.
  intros Hl U [Hd Ho] [b q]. rewrite posted_entries_of. unfold ledger. cbn [fst snd].
  assert (so_deleted o' = false) as Hd' by (rewrite Hd; apply Hl).
  rewrite (upd_view _ _ _ _ _ U Hd'), (proj1 (proj2 U)). case_bool_decide as E; [|lia].
  subst b. rewrite (live_view _ _ _ Hl). apply Ho.
Qed.

Lemma cached_omoved db o o' : cached db o o' -> omoved [] db o o'.
Proof. intros (He & _ & Hd & _). split; [done|]. intros q. cbn. rewrite (oline_eqv db o' o q He). lia. Qed.

Lemma omoved_trans ds ds' db o1 o2 o3 : omoved ds db o1 o2 -> omoved ds' db o2 o3 -> omoved (ds ++ ds') db o1 o3.
Proof.
  intros [D1 H1] [D2 H2]. split; [congruence|]. intros q. rewrite H2, H1, lposted_app. lia.
Qed.

Lemma fresh_omoved db a q : oline db (fresh_object a) q = 0.
Proof.
  destruct (NewSecure_zero db) as (t & Ht & Hg). destruct q as [c|p u|u|c]; cbn [oline]; [| | |done].
  - destruct c; done.
  - unfold oshare, proxied_of. cbn [so_dirtyProxied so_originProxied fresh_object set_so_onDirty newObject].
    rewrite !lookup_empty. cbn -[zeroHash]. rewrite Ht. cbn. unfold stored_proxied. rewrite Hg. done.
  - unfold reward_of. cbn [so_dirtyReward so_originReward fresh_object set_so_onDirty newObject].
    rewrite !lookup_empty. destruct (EncodeIgnore THash u); [|done]. cbn -[zeroHash]. rewrite Ht. cbn.
    unfold stored_reward. rewrite Hg. done.
Qed.

(** ** Effects *)

(** [m] keeps the state well formed and adds entries that satisfy [P] with the
    answer. *)
Definition posts {A} (m : SM A) (P : A -> list entry -> Prop) : Prop :=
  ok m /\ forall s s' x, swf s -> m s = Ret (s', x) -> exists ds, P x ds /\ moved ds s s'.
(** The same for a method of an object that exists. *)
Definition adds_at {A} (a : bytes) (m : SM A) (P : A -> list entry -> Prop) : Prop :=
  forall o s s' x, swf s -> live s a o -> m s = Ret (s', x) -> exists ds, P x ds /\ moved ds s s'.
Definition posts_at {A} (a : bytes) (m : SM A) (P : A -> list entry -> Prop) : Prop := ok_on a m /\ adds_at a m P.

Definition none {A} (_ : A) (ds : list entry) : Prop := ds = [].
Definition just {A} (es : list entry) (_ : A) (ds : list entry) : Prop := ds = es.

Lemma posts_weaken {A} (m : SM A) (P Q : A -> list entry -> Prop) :
  (forall x ds, P x ds -> Q x ds) -> posts m P -> posts m Q.
Proof. intros HPQ [Ho Hm]. split; [done|]. intros s s' x W H. destruct (Hm _ _ _ W H) as (ds & ? & ?). eauto. Qed.

Lemma posts_ret {A} (x : A) (P : A -> list entry -> Prop) : P x [] -> posts (mret x) P.
Proof. intros HP. split; [apply ok_ret|]. intros s s' y W [= <- <-]. exists []. split; [done|apply moved_refl]. Qed.
Lemma posts_at_ret {A} a (x : A) : posts_at a (mret x) none.
Proof.
  split; [intros db o; apply ok_at_ret|]. intros o s s' y W _ [= <- _]. exists []. split; [done|apply moved_refl].
Qed.
Lemma posts_panic {A} e (P : A -> list entry -> Prop) : posts (panicS e) P.
Proof. split; intros s s' x W H; done. Qed.

Lemma posts_bind {A B} (m : SM A) (f : A -> SM B) P Q R :
  posts m P -> (forall x, posts (f x) (Q x)) ->
  (forall x ds y ds', P x ds -> Q x y ds' -> R y (ds ++ ds')) -> posts (x ← m; f x) R.
Proof.
  intros [Om Hm] Hf HR. split; [apply ok_bind; [done|intros; apply Hf]|].
  intros s s' y W H. apply SM_bind_inv in H as (s1 & x & H1 & H2). pose proof (Om _ _ _ W H1) as S1.
  destruct (Hm _ _ _ W H1) as (ds & HP & M1), (proj2 (Hf x) _ _ _ (proj1 S1) H2) as (ds' & HQ & M2).
  exists (ds ++ ds'). split; [eauto|eapply moved_trans; done].
Qed.

(** The two cases the callbacks need: reading first, and one call after
    another. *)
Lemma posts_read {A B} (m : SM A) (f : A -> SM B) Q : posts m none -> (forall x, posts (f x) Q) -> posts (x ← m; f x) Q.
Proof. intros Hm Hf. eapply posts_bind; [exact Hm|exact Hf|]. intros x ds y ds' ->. done. Qed.
Lemma posts_seq {A B} (m : SM A) (k : SM B) es Q :
  posts m (just es) -> posts k Q -> posts (m ;; k) (fun y ds => exists ds', ds = es ++ ds' /\ Q y ds').
Proof. intros Hm Hk. eapply (posts_bind _ _ _ (fun _ => Q)); [exact Hm|done|]. intros x ds y ds' ->. eauto. Qed.

Lemma calm_posts {A} (m : SM A) : (forall s s' x, swf s -> m s = Ret (s', x) -> calm s s') -> posts m none.
Proof.
  intros H. split; [intros s s' x W Hm; eapply calm_step, H; done|].
  intros s s' x W Hm. exists []. split; [done|]. eapply calm_moved, H; done.
Qed.
Lemma reader_posts {A} (m : SM A) : reader m -> posts m none.
Proof. intros [H _]. by apply calm_posts. Qed.

Lemma GetOrNew_moved s s' x a : swf s -> GetOrNewStateObject a s = Ret (s', x) -> moved [] s s'.
Proof.
  intros W H. destruct (getStateObject_spec s a W) as (s0 & G & C0 & Hlive).
  unfold GetOrNewStateObject in H. rewrite (SM_bind_Ret _ _ _ _ _ G) in H.
  destruct (view s a) eqn:Ev; cbn [is_some] in H; [injection H as <- _; by apply calm_moved|].
  destruct (createObject_upd s0 a (proj1 C0)) as (s1 & s2 & e & H2 & C1 & U & _ & Hv).
  rewrite (SM_bind_Ret _ _ _ _ _ H2) in H. injection H as <- _.
  pose proof (eqv_view s0 s a (proj1 (proj2 C0))) as E. rewrite Ev in E.
  destruct (view s0 a) eqn:Ev0; [done|]. destruct Hv as [Hv _].
  intros [b q]. pose proof (calm_moved _ _ (calm_trans _ _ _ C0 C1) (b, q)) as M. rewrite <- M.
  unfold ledger. cbn [fst snd posted foldr]. rewrite (upd_view _ _ _ _ _ U eq_refl), (proj1 (proj2 U)).
  case_bool_decide; [|lia]. subst b. rewrite Hv, fresh_omoved. done.
Qed.

Lemma posts_new {A} a (m : SM A) P : posts_at a m P -> posts (GetOrNewStateObject a ;; m) P.
Proof.
  intros [Om Hm]. split; [by apply ok_new|]. intros s s' x W H.
  destruct (GetOrNew_spec s a W) as (s1 & o & H1 & S1 & Hl & _). rewrite (SM_bind_Ret _ _ _ _ _ H1) in H.
  destruct (Hm o s1 s' x (proj1 S1) Hl H) as (ds & HP & M). exists ds. split; [done|].
  apply (moved_trans [] ds s s1 s'); [|done]. eapply GetOrNew_moved; done.
Qed.

Lemma posts_query {A} a (d : A) m P : posts_at a m P -> P d [] -> posts (query a d m) P.
Proof.
  intros [Om Hm] Hd. split; [by apply ok_query|]. intros s s' x W H.
  destruct (getStateObject_spec s a W) as (s1 & G & C & Hlive).
  unfold query in H. rewrite (SM_bind_Ret _ _ _ _ _ G) in H. pose proof (calm_moved _ _ C) as M1.
  destruct (view s a) as [o|]; cbn [is_some] in H; [|injection H as <- <-; eauto].
  destruct (Hm o s1 s' x (proj1 C) (Hlive o eq_refl) H) as (ds & HP & M). exists ds. split; [done|].
  apply (moved_trans [] ds s s1 s'); done.
Qed.

Lemma posts_at_bind {A B} a (m : SM A) (f : A -> SM B) P Q R :
  posts_at a m P -> (forall x, posts_at a (f x) (Q x)) ->
  (forall x ds y ds', P x ds -> Q x y ds' -> R y (ds ++ ds')) -> posts_at a (x ← m; f x) R.
Proof.
  intros [Om Hm] Hf HR. split; [intros db o; apply ok_at_bind; [apply Om|intros x; apply (Hf x)]|].
  intros o s s' y W Hl H. apply SM_bind_inv in H as (s1 & x & H1 & H2).
  destruct (Om (s_db s) o s s1 x W eq_refl Hl H1) as [S1 (o1 & Hl1)].
  destruct (Hm _ _ _ _ W Hl H1) as (ds & HP & M1), (proj2 (Hf x) _ _ _ _ (proj1 S1) Hl1 H2) as (ds' & HQ & M2).
  exists (ds ++ ds'). split; [eauto|eapply moved_trans; done].
Qed.

Lemma posts_at_seq {A B} a (m : SM A) (k : SM B) es ds :
  posts_at a m (just es) -> posts_at a k (just ds) -> posts_at a (m ;; k) (just (es ++ ds)).
Proof. intros Hm Hk. eapply (posts_at_bind _ _ _ _ (fun _ => just ds)); [exact Hm|done|]. intros x l y l' -> ->. done. Qed.

Lemma adds_at_deref {A} a (f : stateObject -> SM A) P :
  (forall o, adds_at a (f o) P) -> adds_at a (o ← deref a; f o) P.
Proof. intros Hf o s s' x W Hl H. rewrite (deref_live _ _ _ _ (proj1 Hl)) in H. eapply (Hf o); done. Qed.

(** ** The methods of an object *)
Lemma adds_at_change a e f :
  (forall db o, omoved [] db o (f o)) -> adds_at a (record e ;; changeObject a f) (just []).
Proof.
  intros Hf o s s' x W Hl H. exists []. split; [done|].
  destruct (record_change_upd e f a s o (proj1 Hl)) as (s1 & H1 & U1). rewrite H1 in H. injection H as <- _.
  apply (upd_moved a o _ [] s s1 Hl U1). apply (omoved_trans [] [] _ _ (f o)); [apply Hf|].
  apply cached_omoved, settle_cached.
Qed.

(** The line a number of an account is on, if any. *)
Definition field_coin (f : zfield) : option coin :=
  match f with
  | FBalance => Some CBalance
  | FDepositBalance => Some CDeposit
  | FDelegateBalance => Some CDelegate
  | FRewardBalance => Some CReward
  | FChainBalance => Some CChain
  | _ => None
  end.
Definition coin_entry (f : zfield) (v : Z) : list (line * Z) :=
  match field_coin f with Some c => [(Coin c, v)] | None => [] end.

Lemma added_omoved f v db o o' : added f v db o o' -> omoved (coin_entry f v) db o o'.
Proof.
  intros (Hd & Hv & Hn & Hp & Hr & Hs). split; [done|]. intros [c|p u|u|c]; cbn [oline].
  - unfold coin_entry. destruct (field_coin f) as [c'|] eqn:Ef.
    + assert (f = coin_field c') as -> by (destruct f; by simplify_eq/=). rewrite lposted_cons. cbn [lposted foldr].
      case_bool_decide as E; [injection E as ->; rewrite Hv; cbn; lia|].
      rewrite Hn; [cbn; lia|]. intros E'. apply E. destruct c, c'; done.
    + rewrite Hn; [cbn; lia|]. intros <-. destruct c; done.
  - unfold oshare. rewrite Hp. unfold coin_entry.
    destruct (field_coin f); [rewrite lposted_cons, bool_decide_false by done|]; cbn; lia.
  - rewrite Hr. unfold coin_entry.
    destruct (field_coin f); [rewrite lposted_cons, bool_decide_false by done|]; cbn; lia.
  - rewrite Hs. unfold coin_entry.
    destruct (field_coin f); [rewrite lposted_cons, bool_decide_false by done|]; cbn; lia.
Qed.

Lemma posts_at_AddZ f a v : posts_at a (so_AddZ f a v) (just (entries_of a (coin_entry f v))).
Proof.
  split; [apply so_AddZ_ok|]. intros o s s' [] W Hl H. eexists. split; [done|].
  destruct (so_AddZ_added f a v s s' o (s_db s) (proj1 Hl) H) as (o' & U & A).
  eapply upd_moved; [exact Hl|exact U|by apply added_omoved].
Qed.
Lemma posts_at_SubZ f a v : posts_at a (so_SubZ f a v) (just (entries_of a (coin_entry f (- v)))).
Proof.
  split; [apply so_SubZ_ok|]. intros o s s' [] W Hl H. eexists. split; [done|].
  destruct (so_SubZ_added f a v s s' o (s_db s) (proj1 Hl) H) as (o' & U & A).
  eapply upd_moved; [exact Hl|exact U|by apply added_omoved].
Qed.

(** Changes of the account that are not on a line. *)
Lemma lens_omoved {V} (dset : Account -> V -> Account) dget db o v : dlens dset dget ->
  (forall c d, zget (coin_field c) (dset d v) = zget (coin_field c) d) ->
  omoved [] db o (over_data (fun d => dset d v) o).
Proof.
  intros Hl Hc. split; [done|]. pose proof (fun q => lens_obs _ _ db o v q Hl) as H.
  intros [c|p u|u|c]; cbn [oline].
  - cbn. rewrite Hc. lia.
  - unfold oshare. specialize (H (QProxied u) ltac:(done)). cbn [obs] in H.
    assert (proxied_of db (over_data (fun d => dset d v) o) u = proxied_of db o u) as -> by congruence. cbn. lia.
  - specialize (H (QReward u) ltac:(done)). cbn [obs] in H.
    assert (reward_of db (over_data (fun d => dset d v) o) u = reward_of db o u) as -> by congruence. cbn. lia.
  - specialize (H (QSide c) ltac:(done)). cbn [obs] in H.
    assert (side_lookup (acc_SideChainDepositBalance (so_data (over_data (fun d => dset d v) o))) c
      = side_lookup (acc_SideChainDepositBalance (so_data o)) c) as -> by congruence. cbn. lia.
Qed.

Lemma posts_at_SetZ f a v : field_coin f = None -> posts_at a (so_SetZ f a v) (just []).
Proof.
  intros Hf. split; [apply so_SetZ_ok|]. apply adds_at_deref. intros o. apply adds_at_change. intros db o1.
  apply (lens_omoved _ _ db o1 v (zset_lens f)). intros c d. apply zget_zset_ne. destruct f, c; done.
Qed.
Lemma posts_at_SetCandidate a v : posts_at a (so_SetCandidate a v) (just []).
Proof.
  split; [apply so_SetCandidate_ok|]. apply adds_at_deref. intros o. apply adds_at_change. intros db o1.
  apply (lens_omoved _ _ db o1 v candidate_lens). intros [] d; done.
Qed.
Lemma posts_at_SetPubkey a v : posts_at a (so_SetPubkey a v) (just []).
Proof.
  split; [apply so_SetPubkey_ok|]. apply adds_at_deref. intros o. apply adds_at_change. intros db o1.
  apply (lens_omoved _ _ db o1 v pubkey_lens). intros [] d; done.
Qed.
Lemma posts_at_SetBanned a v : posts_at a (so_SetBanned a v) (just []).
Proof.
  split; [apply so_SetBanned_ok|]. apply adds_at_deref. intros o. apply adds_at_change. intros db o1.
  apply (lens_omoved _ _ db o1 v banned_lens). intros [] d; done.
Qed.

(** ** Shares and rewards *)
Lemma share_omoved p d f db o u v o' :
  adds p d f -> proxied_of db o u = Some v ->
  added (part_field p) d db (write_share u (Some (f (default NewAccountProxiedBalance v))) o) o' ->
  omoved [(Share p u, d)] db o o'.
Proof.
  intros Hf Hv (Hd & _ & Hn & Hp & Hr & Hs). split; [exact Hd|].
  set (w := f (default NewAccountProxiedBalance v)) in *.
  destruct (Hf (default NewAccountProxiedBalance v)) as [F1 F2]. fold w in F1, F2.
  intros [c|q x|x|c]; cbn [oline]; rewrite lposted_cons; cbn [lposted foldr].
  - rewrite bool_decide_false by done. rewrite Hn by (destruct c, p; done). cbn. lia.
  - assert (oshare q db o' x = oshare q db (write_share u (Some w) o) x) as -> by (unfold oshare; rewrite Hp; done).
    rewrite write_share_share. destruct (decide (x = u)) as [->|Hx].
    + rewrite (bool_decide_true (u = u)) by done. assert (oshare q db o u = part_share q (default NewAccountProxiedBalance v)) as ->.
      { unfold oshare. rewrite Hv. destruct v, q; done. }
      destruct (decide (q = p)) as [->|Hq]; [rewrite bool_decide_true, F1 by done; lia|].
      rewrite bool_decide_false, F2 by congruence. lia.
    + rewrite !bool_decide_false by congruence. lia.
  - rewrite bool_decide_false, Hr by done.
    change (reward_of db (write_share u (Some w) o) x) with (reward_of db o x). lia.
  - rewrite bool_decide_false, Hs by done. cbn. lia.
Qed.

Lemma posts_share p d f (m : SM unit) a u :
  adds p d f -> ok_on a m ->
  (forall s s' o db, s_stateObjects s !! a = Some o -> m s = Ret (s', tt) ->
     exists o', upd a o' s s' /\ added (part_field p) d db o o') ->
  posts (GetOrNewStateObject a ;; changeShare a u f ;; m) (just [((a, Share p u), d)]).
Proof.
  intros Hf Ho Hm. apply posts_new. split; [apply ok_on_seq; [apply changeShare_ok|done]|].
  intros o s s' [] W Hl H. eexists. split; [done|].
  destruct (share_op_spec p d f m a u o s s' Hm W Hl H) as (s2 & o2 & o4 & v & C & Hl2 & Hv & U & A).
  apply (moved_trans [] _ s s2 s'); [by apply calm_moved|].
  apply (upd_moved a o2 o4 [(Share p u, d)]); [done|done|]. eapply share_omoved; done.
Qed.

Lemma posts_share_add p a u v :
  posts (GetOrNewStateObject a ;; changeShare a u (share_fun p v) ;; so_AddZ (part_field p) a v)
        (just [((a, Share p u), v)]).
Proof. apply posts_share; [apply share_fun_adds|apply so_AddZ_ok|]. intros s s' o db. apply so_AddZ_added. Qed.
Lemma posts_share_sub p a u v :
  posts (GetOrNewStateObject a ;; changeShare a u (share_fun p (- v)) ;; so_SubZ (part_field p) a v)
        (just [((a, Share p u), - v)]).
Proof. apply posts_share; [apply share_fun_adds|apply so_SubZ_ok|]. intros s s' o db. apply so_SubZ_added. Qed.

Lemma setReward_moved a u w r o s s' :
  swf s -> live s a o -> reward_of (s_db s) o u = Some r ->
  so_SetDelegateRewardBalance a u (Some w) s = Ret (s', tt) -> moved [((a, Reward_from u), w - default 0 r)] s s'.
Proof.
  intros W Hl Hr H. unfold so_SetDelegateRewardBalance in H.
  pose proof (through_spec _ _ a o s (fun db => GetDelegateRewardBalance_reads db u) W Hl) as Ht.
  cbv beta in Ht. rewrite Hr in Ht.
  destruct Ht as (s1 & o1 & H1 & C1 & Hl1 & Hc1 & D1). rewrite (SM_bind_Ret _ _ _ _ _ H1) in H.
  destruct (record_change_upd (delegateRewardBalanceChange a u r) (write_reward u (Some w)) a s1 o1 (proj1 Hl1))
    as (s2 & H2 & U2).
  change (so_setDelegateRewardBalance a u (Some w)) with (changeObject a (write_reward u (Some w))) in H.
  rewrite H2 in H. injection H as <-.
  apply (moved_trans [] _ s s1 s2); [by apply calm_moved|].
  apply (upd_moved a o1 _ [(Reward_from u, w - default 0 r)] s1 s2 Hl1 U2).
  apply (omoved_trans [(Reward_from u, w - default 0 r)] [] _ _ (write_reward u (Some w) o1));
    [|apply cached_omoved, settle_cached].
  pose proof (cached_reward _ _ _ u Hc1) as Hr1. rewrite Hr in Hr1. rewrite D1.
  split; [done|]. intros [c|p x|x|c]; cbn [oline]; rewrite lposted_cons; cbn [lposted foldr].
  - rewrite bool_decide_false by done. cbn. lia.
  - rewrite bool_decide_false by done.
    change (oshare p (s_db s) (write_reward u (Some w) o1) x) with (oshare p (s_db s) o1 x). lia.
  - pose proof (write_reward_obs (s_db s) o1 u (Some w) (QReward x)) as H. cbn [obs] in H.
    destruct (decide (x = u)) as [->|Hx].
    + rewrite !bool_decide_true in * by done. injection H as ->. rewrite Hr1. cbn. lia.
    + rewrite !bool_decide_false in * by congruence. injection H as ->. lia.
  - rewrite bool_decide_false by done. cbn. lia.
Qed.

(** The deposit for a side chain. *)
Lemma write_side_omoved db c v o :
  omoved [(Side c, v - side_lookup (acc_SideChainDepositBalance (so_data o)) c)] db o (settle (write_side c v o)).
Proof.
  apply (omoved_trans [_] [] _ _ (write_side c v o)); [|apply cached_omoved, settle_cached].
  split; [done|]. intros [k|p x|x|d]; rewrite lposted_cons; cbn [lposted foldr].
  - rewrite bool_decide_false by done. destruct k; cbn; lia.
  - rewrite bool_decide_false by done. cbn. unfold oshare. pose proof (write_side_obs db c v o (QProxied x)) as H.
    rewrite bool_decide_false in H by done. cbn [obs] in H.
    assert (proxied_of db (write_side c v o) x = proxied_of db o x) as -> by congruence. lia.
  - rewrite bool_decide_false by done. cbn [oline]. pose proof (write_side_obs db c v o (QReward x)) as H.
    rewrite bool_decide_false in H by done. cbn [obs] in H.
    assert (reward_of db (write_side c v o) x = reward_of db o x) as -> by congruence. lia.
  - pose proof (write_side_obs db c v o (QSide d)) as H.
    set (l' := acc_SideChainDepositBalance (so_data (write_side c v o))).
    change (VZ (side_lookup l' d) = if bool_decide (QSide d = QSide c) then VZ v else obs db o (QSide d)) in H.
    change (side_lookup l' d = side_lookup (acc_SideChainDepositBalance (so_data o)) d
      + ((if bool_decide (Side c = Side d) then v - side_lookup (acc_SideChainDepositBalance (so_data o)) c else 0) + 0)).
    destruct (decide (c = d)) as [->|Hne].
    + rewrite !bool_decide_true in * by done. assert (side_lookup l' d = v) as -> by congruence. lia.
    + rewrite !bool_decide_false in * by congruence. cbn [obs] in H.
      assert (side_lookup l' d = side_lookup (acc_SideChainDepositBalance (so_data o)) d) as -> by congruence. lia.
Qed.
Lemma adds_at_SetSide a c f :
  adds_at a (o ← deref a; so_SetSideChainDepositBalance a c (so_SideChainDepositBalance o c + f)) (just [((a, Side c), f)]).
Proof.
  intros o s s' [] W Hl H. eexists. split; [done|]. rewrite (deref_live _ _ _ _ (proj1 Hl)) in H.
  destruct (so_SetSide_upd s a o c (so_SideChainDepositBalance o c + f) (proj1 Hl)) as (s1 & H1 & U & _).
  rewrite H1 in H. injection H as <-. apply (upd_moved a o _ [(Side c, f)] s s1 Hl U).
  pose proof (write_side_omoved (s_db s) c (so_SideChainDepositBalance o c + f) o) as M.
  change (side_lookup (acc_SideChainDepositBalance (so_data o)) c) with (so_SideChainDepositBalance o c) in M.
  replace (so_SideChainDepositBalance o c + f - so_SideChainDepositBalance o c) with f in M by lia. done.
Qed.

(** ** The methods of the database *)
Lemma AddBalance_posts a v : posts (AddBalance a v) (just [((a, Coin CBalance), v)]).
Proof. apply posts_new, (posts_at_AddZ FBalance). Qed.
Lemma SubBalance_posts a v : posts (SubBalance a v) (just [((a, Coin CBalance), - v)]).
Proof. apply posts_new, (posts_at_SubZ FBalance). Qed.
Lemma SubDepositBalance_posts a v : posts (SubDepositBalance a v) (just [((a, Coin CDeposit), - v)]).
Proof. apply posts_new, (posts_at_SubZ FDepositBalance). Qed.
Lemma AddDelegateBalance_posts a v : posts (AddDelegateBalance a v) (just [((a, Coin CDelegate), v)]).
Proof. apply posts_new, (posts_at_AddZ FDelegateBalance). Qed.
Lemma SubDelegateBalance_posts a v : posts (SubDelegateBalance a v) (just [((a, Coin CDelegate), - v)]).
Proof. apply posts_new, (posts_at_SubZ FDelegateBalance). Qed.

Lemma AddChainBalance_posts a v : posts (AddChainBalance a v) (just [((a, Coin CChain), v)]).
Proof. apply posts_new, (posts_at_AddZ FChainBalance). Qed.
Lemma SubChainBalance_posts a v : posts (SubChainBalance a v) (just [((a, Coin CChain), - v)]).
Proof. apply posts_new, (posts_at_SubZ FChainBalance). Qed.
Lemma SubSideChainDeposit_posts a c v : posts (SubSideChainDepositBalance a c v) (just [((a, Side c), - v)]).
Proof.
  apply posts_new. split; [apply so_SubSide_ok|]. intros o s s' [] W Hl H. unfold so_SubSideChainDepositBalance in H.
  destruct (Z.eqb_spec v 0) as [->|_]; [|by apply (adds_at_SetSide a c (- v) o s s' tt W Hl)].
  rewrite (deref_live _ _ _ _ (proj1 Hl)) in H. injection H as <-. eexists. split; [done|].
  intros i. rewrite posted_cons. case_bool_decide; cbn; lia.
Qed.

Lemma AddProxied_posts a u v : posts (AddProxiedBalanceByUser a u v) (just [((a, Share Proxied_part u), v)]).
Proof. apply (posts_share_add Proxied_part). Qed.
Lemma SubProxied_posts a u v : posts (SubProxiedBalanceByUser a u v) (just [((a, Share Proxied_part u), - v)]).
Proof. apply (posts_share_sub Proxied_part). Qed.
Lemma AddDepositProxied_posts a u v :
  posts (AddDepositProxiedBalanceByUser a u v) (just [((a, Share Deposit_part u), v)]).
Proof. apply (posts_share_add Deposit_part). Qed.
Lemma SubDepositProxied_posts a u v :
  posts (SubDepositProxiedBalanceByUser a u v) (just [((a, Share Deposit_part u), - v)]).
Proof. apply (posts_share_sub Deposit_part). Qed.
Lemma AddPendingRefund_posts a u v :
  posts (AddPendingRefundBalanceByUser a u v) (just [((a, Share Pending_part u), v)]).
Proof. apply (posts_share_add Pending_part). Qed.
Lemma SubPendingRefund_posts a u v :
  posts (SubPendingRefundBalanceByUser a u v) (just [((a, Share Pending_part u), - v)]).
Proof. apply (posts_share_sub Pending_part). Qed.

(** What both methods on rewards do. *)
Lemma reward_op_moved a u v w r (m : SM unit) ds o s s' :
  swf s -> live s a o -> reward_of (s_db s) o u = Some r -> w - default 0 r = v -> posts_at a m (just ds) ->
  (so_SetDelegateRewardBalance a u (Some w) ;; m) s = Ret (s', tt) -> moved (((a, Reward_from u), v) :: ds) s s'.
Proof.
  intros W Hl Hr Hw [_ Hm] H. apply SM_bind_inv in H as (s1 & [] & H1 & H2).
  destruct (so_SetDelegateRewardBalance_ok a u (Some w) (s_db s) o s s1 tt W eq_refl Hl H1) as [S1 (o1 & Hl1)].
  destruct (Hm o1 s1 s' tt (proj1 S1) Hl1 H2) as (ds' & -> & M2). subst v.
  apply (moved_trans [((a, Reward_from u), w - default 0 r)] ds s s1 s'); [|done]. eapply setReward_moved; done.
Qed.

Definition reward_entries (a u : bytes) (v : Z) : list entry := [((a, Reward_from u), v); ((a, Coin CReward), v)].

Lemma AddReward_posts a u v : posts (AddRewardBalanceByDelegateAddress a u v) (just (reward_entries a u v)).
Proof.
  apply posts_new. split; [apply addReward_ok|]. intros o s s' [] W Hl H. eexists. split; [done|].
  pose proof (through_spec _ _ a o s (fun db => GetDelegateRewardBalance_reads db u) W Hl) as Ht.
  destruct (reward_of (s_db s) o u) as [r|] eqn:Hr.
  2: { destruct Ht as (e & He). unfold mbind, SM_bind in H. rewrite He in H. done. }
  destruct Ht as (s1 & o1 & H1 & C1 & Hl1 & Hc1 & D1). rewrite (SM_bind_Ret _ _ _ _ _ H1) in H.
  apply (moved_trans [] _ s s1 s'); [by apply calm_moved|].
  eapply (reward_op_moved a u v _ r); [apply C1|exact Hl1| | |apply (posts_at_AddZ FRewardBalance)|exact H].
  - rewrite D1, (cached_reward _ _ _ u Hc1). done.
  - destruct r; cbn; lia.
Qed.

Lemma SubReward_posts a u v : posts (SubRewardBalanceByDelegateAddress a u v) (just (reward_entries a u (- v))).
Proof.
  apply posts_new. split; [apply subReward_ok|]. intros o s s' [] W Hl H. eexists. split; [done|].
  pose proof (through_spec _ _ a o s (fun db => GetDelegateRewardBalance_reads db u) W Hl) as Ht.
  destruct (reward_of (s_db s) o u) as [r|] eqn:Hr.
  2: { destruct Ht as (e & He). unfold mbind, SM_bind in H. rewrite He in H. done. }
  destruct Ht as (s1 & o1 & H1 & C1 & Hl1 & Hc1 & D1). rewrite (SM_bind_Ret _ _ _ _ _ H1) in H.
  apply (moved_trans [] _ s s1 s'); [by apply calm_moved|]. destruct r as [r|]; [|done].
  eapply (reward_op_moved a u (- v) _ (Some r)); [apply C1|exact Hl1| | |apply (posts_at_SubZ FRewardBalance)|exact H].
  - rewrite D1, (cached_reward _ _ _ u Hc1). done.
  - cbn. lia.
Qed.

(** Methods that leave the table alone. *)
Lemma ApplyForCandidate_posts a pk v : posts (ApplyForCandidate a pk v) none.
Proof.
  apply posts_new. apply (posts_at_seq a _ _ [] []); [apply posts_at_SetCandidate|].
  apply (posts_at_seq a _ _ [] []); [by apply posts_at_SetZ|apply posts_at_SetPubkey].
Qed.
Lemma CancelCandidate_posts a b : posts (CancelCandidate a b) none.
Proof.
  apply posts_new. apply (posts_at_seq a _ _ [] []); [apply posts_at_SetCandidate|].
  apply (posts_at_seq a _ _ [] []); [apply posts_at_SetPubkey|].
  destruct b; [by apply posts_at_SetZ|apply posts_at_ret].
Qed.
Lemma SetCommission_posts a v : posts (SetCommission a v) none.
Proof. apply posts_new. by apply posts_at_SetZ. Qed.
Lemma ClearCommission_posts a : posts (ClearCommission a) none.
Proof. apply posts_new. by apply posts_at_SetZ. Qed.
Lemma SetNonce_posts a v : posts (SetNonce a v) none.
Proof. apply posts_new. by apply posts_at_SetZ. Qed.
Lemma SetBanned_posts a b : posts (SetBanned a b) none.
Proof. apply posts_new, posts_at_SetBanned. Qed.

Lemma created_posts {A} a (p : stateObject -> A) :
  posts (GetOrNewStateObject a ;; o ← deref a; mret (p o)) none.
Proof.
  apply posts_new. split; [intros db o; apply ok_at_deref, ok_at_ret|].
  apply adds_at_deref. intros o. apply posts_at_ret.
Qed.
Lemma GetBanned_posts a : posts (GetBanned a) none.
Proof. apply created_posts. Qed.
Lemma GetBannedTime_posts a : posts (GetBannedTime a) none.
Proof. apply created_posts. Qed.

(** *** Getters *)
Lemma getZ_reader f a : reader (getZ f a).
Proof. unfold getZ. apply (reader_data a 0 (zget f)). intros d. destruct f; done. Qed.
Lemma getZ_posts f a : posts (getZ f a) none.
Proof. apply reader_posts, getZ_reader. Qed.
Lemma IsCandidate_posts a : posts (IsCandidate a) none.
Proof. apply reader_posts. unfold IsCandidate. by apply (reader_data a false acc_Candidate). Qed.
Lemma IsCleanAddress_posts a : posts (IsCleanAddress a) none.
Proof. apply reader_posts. unfold IsCleanAddress. by apply (reader_data a true is_clean). Qed.
Lemma GetPubkey_posts a : posts (GetPubkey a) none.
Proof. apply reader_posts. unfold GetPubkey. by apply (reader_data a [] acc_Pubkey). Qed.
Lemma GetProxiedByUser_posts a u : posts (GetProxiedBalanceByUser a u) none.
Proof. apply reader_posts, reader_proxied. Qed.
Lemma GetDepositProxiedByUser_posts a u : posts (GetDepositProxiedBalanceByUser a u) none.
Proof. apply reader_posts, reader_proxied. Qed.
Lemma GetPendingRefundByUser_posts a u : posts (GetPendingRefundBalanceByUser a u) none.
Proof. apply reader_posts, reader_proxied. Qed.
Lemma GetReward_reader a u : reader (GetRewardBalanceByDelegateAddress a u).
Proof.
  unfold GetRewardBalanceByDelegateAddress. eapply reader_query, (obj_reader_through _ _ (fun db o => reward_of db o u)).
  - intros. apply GetDelegateRewardBalance_reads.
  - intros db o o' He. specialize (He (QReward u)). cbn [obs] in He. congruence.
Qed.
Lemma GetReward_posts a u : posts (GetRewardBalanceByDelegateAddress a u) none.
Proof. apply reader_posts, GetReward_reader. Qed.

(** Code that continues with the trie of an object. *)
Lemma posts_at_through {A B} a f (pure : DB -> stateObject -> option A) (k : A -> SM B) P :
  (forall db, reads_value db f (pure db)) -> (forall x, posts (k x) P) ->
  forall o s s' x, swf s -> live s a o -> (v ← through a f; k v) s = Ret (s', x) ->
  step s s' /\ exists ds, P x ds /\ moved ds s s'.
Proof.
  intros Hf Hk o s s' x W Hl H. pose proof (through_spec f pure a o s Hf W Hl) as Ht.
  destruct (pure (s_db s) o) as [v|].
  2: { destruct Ht as (e & He). unfold mbind, SM_bind in H. rewrite He in H. done. }
  destruct Ht as (s1 & o1 & H1 & C1 & _). rewrite (SM_bind_Ret _ _ _ _ _ H1) in H. destruct (Hk v) as [Ok Ek].
  split; [eapply step_trans; [apply calm_step; exact C1|eapply Ok; [apply C1|exact H]]|].
  destruct (Ek s1 s' x (proj1 C1) H) as (ds & HP & M). exists ds. split; [done|].
  apply (moved_trans [] ds s s1 s'); [by apply calm_moved|done].
Qed.

Lemma posts_query_through {A B} a (d : B) f (pure : DB -> stateObject -> option A) (k : A -> SM B) (P : B -> list entry -> Prop) :
  (forall db, reads_value db f (pure db)) -> (forall x, posts (k x) P) -> P d [] ->
  posts (query a d (v ← through a f; k v)) P.
Proof.
  intros Hf Hk Hd. pose proof (posts_at_through a f pure k P Hf Hk) as H.
  assert (forall s s' x, swf s -> query a d (v ← through a f; k v) s = Ret (s', x) ->
    step s s' /\ exists ds, P x ds /\ moved ds s s') as Hq.
  { intros s s' x W Hx. destruct (getStateObject_spec s a W) as (s1 & G & C & Hlive).
    unfold query in Hx. rewrite (SM_bind_Ret _ _ _ _ _ G) in Hx. pose proof (calm_moved _ _ C) as M1.
    destruct (view s a) as [o|]; cbn [is_some] in Hx; [|injection Hx as <- <-; split; [by apply calm_step|eauto]].
    destruct (H o s1 s' x (proj1 C) (Hlive o eq_refl) Hx) as (S & ds & HP & M).
    split; [eapply step_trans; [apply calm_step; exact C|done]|]. exists ds. split; [done|].
    apply (moved_trans [] ds s s1 s'); done. }
  split; intros s s' x W Hx; [eapply Hq; done|]. eapply Hq in Hx; [|done]. apply Hx.
Qed.

Lemma GetProxiedAddressNumber_posts a : posts (GetProxiedAddressNumber a) none.
Proof.
  unfold GetProxiedAddressNumber. eapply posts_query_through; [intros; apply getProxiedTrie_reads|intros; by apply posts_ret|done].
Qed.

(** *** Loops: what the callback maintains holds at the end. *)
Definition grows {A} (I : A -> list entry -> Prop) (acc acc' : A) (ds : list entry) : Prop :=
  forall ds0, I acc ds0 -> I acc' (ds0 ++ ds).

Lemma posts_foldS {A B} (I : B -> list entry -> Prop) (f : B -> A -> SM B) l acc :
  (forall acc x, posts (f acc x) (grows I acc)) -> posts (foldS f acc l) (grows I acc).
Proof.
  intros Hf. revert acc. induction l as [|x l IH]; intros acc; cbn [foldS].
  - apply posts_ret. intros ds0 H0. by rewrite app_nil_r.
  - eapply posts_bind; [apply Hf|intros acc'; apply IH|]. intros acc' ds acc'' ds' H1 H2 ds0 H0.
    rewrite app_assoc. by apply H2, H1.
Qed.

Lemma posts_deref {A} a (f : stateObject -> SM A) P : (forall o, posts (f o) P) -> posts (o ← deref a; f o) P.
Proof.
  intros Hf.
  assert (forall s s' x, (o ← deref a; f o) s = Ret (s', x) -> exists o, f o s = Ret (s', x)) as H.
  { intros s s' x. unfold deref, mbind, SM_bind, getS, panicS, mret, SM_ret. destruct (s_stateObjects s !! a); [eauto|done]. }
  split; intros s s' x W Hx; destruct (H _ _ _ Hx) as (o & Ho); eapply (Hf o); done.
Qed.

Lemma ForEachProxied_posts {A} (I : A -> list entry -> Prop) a (cb : A -> bytes -> Z -> Z -> Z -> SM A) acc :
  (forall acc u x y z, posts (cb acc u x y z) (grows I acc)) -> posts (ForEachProxied a cb acc) (grows I acc).
Proof.
  intros Hcb. unfold ForEachProxied.
  eapply posts_query_through; [intros; apply getProxiedTrie_reads| |intros ds0 H0; by rewrite app_nil_r].
  intros t. apply posts_foldS. intros acc' kv. apply posts_deref. intros o.
  destruct (so_dirtyProxied o !! _) as [[v|]|]; [apply Hcb|apply posts_panic|].
  destruct (DecodeBytes TProxied (snd kv)); [apply Hcb|apply posts_panic].
Qed.

(** *** The sets of addresses *)
Definition same_accounts (s s' : StateDB) : Prop :=
  s_stateObjects s' = s_stateObjects s /\ same_rest s s' /\ s_journal s' = s_journal s.

Lemma same_accounts_calm s s' : swf s -> same_accounts s s' -> calm s s'.
Proof.
  intros W (O & (E1 & E2 & E3 & E4 & E5 & E6 & E7 & E8) & J). split_and!.
  - unfold swf. rewrite O, E2, E4, E5, E7, E8. done.
  - unfold eqv, sobs, view. rewrite O, E1, E2. split_and!; done.
  - done.
Qed.
Lemma same_accounts_trans s1 s2 s3 : same_accounts s1 s2 -> same_accounts s2 s3 -> same_accounts s1 s3.
Proof.
  intros (O1 & R1 & J1) (O2 & R2 & J2). unfold same_accounts, same_rest in *. destruct_and!. split_and!; congruence.
Qed.
Lemma setError_same s e : same_accounts s (s_setError e s).
Proof. unfold s_setError. destruct (s_dbErr s); unfold same_accounts, same_rest; split_and!; done. Qed.
Lemma sset_same n v s : same_accounts s (sset n v s).
Proof. destruct n; unfold same_accounts, same_rest; split_and!; done. Qed.
Lemma set_sdirty_same n v s : same_accounts s (set_sdirty n v s).
Proof. destruct n; unfold same_accounts, same_rest; split_and!; done. Qed.

Lemma getSet_same n s s' v : getSet n s = Ret (s', v) -> same_accounts s s'.
Proof.
  unfold getSet, mbind, SM_bind, getS, modifyS, mret, SM_ret.
  assert (same_accounts s s) as Hs by (unfold same_accounts, same_rest; split_and!; done).
  destruct (negb _); [intros [= <- _]; done|]. destruct (TryGet (s_trie s) (setKey n)) as [[|b enc]|e].
  - intros [= <- _]. done.
  - destruct (DecodeSet (b :: enc)) as [value err]. intros [= <- _].
    eapply same_accounts_trans; [apply setError_same|apply sset_same].
  - intros [= <- _]. apply setError_same.
Qed.
Lemma getSet_posts n : posts (getSet n) none.
Proof. apply calm_posts. intros s s' x W H. apply same_accounts_calm; [done|]. eapply getSet_same; done. Qed.
Lemma markInSet_posts n a : posts (markInSet n a) none.
Proof.
  apply posts_read; [apply getSet_posts|]. intros v. destruct (bool_decide _); [by apply posts_ret|].
  apply calm_posts. intros s s' x W H. apply same_accounts_calm; [done|].
  unfold mbind, SM_bind, getS, modifyS, panicS in H. destruct (sget n s); [|done]. injection H as <- _.
  eapply same_accounts_trans; [apply sset_same|apply set_sdirty_same].
Qed.
Lemma clearInSet_posts n a : posts (clearInSet n a) none.
Proof.
  apply calm_posts. intros s s' x W [= <- _]. apply same_accounts_calm; [done|].
  eapply same_accounts_trans; [apply sset_same|apply set_sdirty_same].
Qed.

Lemma GetSideChainRewardPerBlock_calm s s' x : swf s -> GetSideChainRewardPerBlock s = Ret (s', x) -> calm s s'.
Proof.
  intros W H. apply same_accounts_calm; [done|].
  assert (same_accounts s s) as Hs by (unfold same_accounts, same_rest; split_and!; done).
  unfold GetSideChainRewardPerBlock, mbind, SM_bind, getS, modifyS, mret, SM_ret in H.
  destruct (s_sideChainRewardPerBlock s); [injection H as <- _; done|].
  destruct (TryGet (s_trie s) _) as [[|b enc]|e].
  - injection H as <- _. done.
  - destruct (DecodeBig (b :: enc)). injection H as <- _.
    eapply same_accounts_trans; [apply setError_same|]. unfold same_accounts, same_rest; split_and!; done.
  - injection H as <- _. apply setError_same.
Qed.
Lemma GetSideChainRewardPerBlock_posts : posts GetSideChainRewardPerBlock none.
Proof. apply calm_posts. apply GetSideChainRewardPerBlock_calm. Qed.

Lemma ClearDelegateRefundSet_moved s s' x :
  swf s -> loadAccount (s_trie s) (setKey DelegateRefundSet) = None ->
  ClearDelegateRefundSet s = Ret (s', x) -> swf s' /\ moved [] s s'.
Proof.
  intros W Hn H.
  assert (forall b, loadAccount (s_trie s') b = loadAccount (s_trie s) b) as Hload.
  { unfold ClearDelegateRefundSet, deleteTrieAt, modifyS, mbind, SM_bind in H. injection H as <- _.
    destruct (TryDelete (s_trie s) _) as [t|e] eqn:Et; [|unfold s_setError; destruct (s_dbErr s); done].
    intros b. cbn [s_trie set_s_delegateRefundSetDirty set_s_delegateRefundSet set_s_trie].
    pose proof (TryGet_delete _ _ _ b Et) as Hg. case_bool_decide as E.
    - subst b. rewrite Hn. unfold loadAccount. rewrite Hg. done.
    - unfold loadAccount. rewrite Hg. done. }
  assert (s_stateObjects s' = s_stateObjects s /\ s_db s' = s_db s /\ s_logs s' = s_logs s
    /\ s_logSize s' = s_logSize s /\ s_validRevisions s' = s_validRevisions s
    /\ s_nextRevisionId s' = s_nextRevisionId s) as (O & D & R1 & R2 & R3 & R4).
  { unfold ClearDelegateRefundSet, deleteTrieAt, modifyS, mbind, SM_bind in H. injection H as <- _.
    destruct (TryDelete (s_trie s) _); [done|]. unfold s_setError. destruct (s_dbErr s); done. }
  split.
  - destruct W as (W1 & W2 & W3 & W4 & W5). unfold swf. rewrite O, R1, R2, R3, R4. split_and!; try done.
    + intros a o Ho. rewrite Hload. by apply W1.
    + intros a d Hd. rewrite Hload in Hd. by apply (W2 a).
  - intros i. unfold ledger, view. rewrite O, D, Hload. cbn. lia.
Qed.

End Ledger.

(** The effects of the methods, for proof search. *)
Create HintDb posts.
#[export] Hint Resolve AddChainBalance_posts SubChainBalance_posts SubSideChainDeposit_posts AddBalance_posts SubBalance_posts SubDepositBalance_posts AddDelegateBalance_posts
  SubDelegateBalance_posts AddProxied_posts SubProxied_posts AddDepositProxied_posts SubDepositProxied_posts
  AddPendingRefund_posts SubPendingRefund_posts AddReward_posts SubReward_posts ApplyForCandidate_posts
  CancelCandidate_posts SetCommission_posts ClearCommission_posts SetNonce_posts SetBanned_posts GetBanned_posts
  GetBannedTime_posts getZ_posts IsCandidate_posts IsCleanAddress_posts GetPubkey_posts GetProxiedByUser_posts
  GetDepositProxiedByUser_posts GetPendingRefundByUser_posts GetReward_posts GetProxiedAddressNumber_posts
  getSet_posts markInSet_posts clearInSet_posts GetSideChainRewardPerBlock_posts : posts.

(** ** Totals *)

(** All the coins of an account count. *)
Definition worth (i : item) : Z := match snd i with Coin _ | Side _ => 1 | _ => 0 end.
(** What a user has delegated counts against the shares the user has. *)
Definition staked (u : bytes) (i : item) : Z :=
  match snd i with
  | Coin CDelegate => if bool_decide (fst i = u) then 1 else 0
  | Share Proxied_part v | Share Deposit_part v => if bool_decide (v = u) then - 1 else 0
  | _ => 0
  end.
(** The rewards of an account count against those by delegate. *)
Definition rewarded (a : bytes) (i : item) : Z :=
  match snd i with
  | Coin CReward => if bool_decide (fst i = a) then 1 else 0
  | Reward_from _ => if bool_decide (fst i = a) then - 1 else 0
  | _ => 0
  end.

(** Entries that create [v] coins and keep the books. *)
Definition balanced (v : Z) (ds : list entry) : Prop :=
  weighted worth ds = v /\ (forall u, weighted (staked u) ds = 0) /\ (forall a, weighted (rewarded a) ds = 0).

Lemma balanced_nil : balanced 0 [].
Proof. done. Qed.
Lemma balanced_app v v' ds ds' : balanced v ds -> balanced v' ds' -> balanced (v + v') (ds ++ ds').
Proof.
  intros (H1 & H2 & H3) (K1 & K2 & K3). unfold balanced. rewrite weighted_app.
  split_and!; [lia|intros u; rewrite weighted_app, H2, K2; done|intros a; rewrite weighted_app, H3, K3; done].
Qed.
Lemma balanced_app0 ds ds' : balanced 0 ds -> balanced 0 ds' -> balanced 0 (ds ++ ds').
Proof. apply (balanced_app 0 0). Qed.

(** Entries written out. *)
Ltac balance :=
  unfold balanced, reward_entries; split_and!; intros; repeat (rewrite weighted_cons || rewrite <- app_comm_cons || rewrite app_nil_l);
  cbn [worth staked rewarded fst snd weighted foldr app]; repeat case_bool_decide; simplify_eq; try lia; try congruence.

Section Totals.
Context {L : TrieLib} {LL : TrieLaws L}.

(** The coins of all accounts. *)
Definition supply (s : StateDB) (t : Z) : Prop := total_is t (fun i => worth i * ledger s i).

(** What a user has delegated is the sum of the shares of the user at all
    accounts; the rewards of an account are the sum of those by delegate. *)
Definition stakes_ok (s : StateDB) : Prop := forall u,
  total_is (ledger s (u, Coin CDelegate))
    (fun c => ledger s (c, Share Proxied_part u) + ledger s (c, Share Deposit_part u)).
Definition rewards_ok (s : StateDB) : Prop := forall a,
  total_is (ledger s (a, Coin CReward)) (fun u => ledger s (a, Reward_from u)).

(** Entries change a sum by their weight. *)
Lemma total_is_posts {K} `{EqDecision K} (w : item -> Z) (key : item -> K) (f g : K -> Z) ds t :
  (forall x, g x = f x + foldr (fun e z => (if bool_decide (key (fst e) = x) then w (fst e) * snd e else 0) + z) 0 ds) ->
  total_is t f -> total_is (t + weighted w ds) g.
Proof.
  revert g. induction ds as [|[j v] ds IH]; intros g Hg Ht.
  - rewrite Z.add_0_r. eapply total_is_ext; [|exact Ht]. intros x. rewrite Hg. cbn. lia.
  - set (h := fun x => f x + foldr (fun e z => (if bool_decide (key (fst e) = x) then w (fst e) * snd e else 0) + z) 0 ds).
    specialize (IH h (fun x => eq_refl) Ht). rewrite weighted_cons.
    replace (t + (w j * v + weighted w ds)) with (t + weighted w ds + w j * v) by lia.
    apply (total_is_change _ h g (key j) (w j * v) IH).
    + rewrite Hg. unfold h. cbn. rewrite bool_decide_true by done. lia.
    + intros x Hx. rewrite Hg. unfold h. cbn. rewrite bool_decide_false by congruence. lia.
Qed.

Lemma supply_moved ds s s' t : moved ds s s' -> supply s t -> supply s' (t + weighted worth ds).
Proof.
  intros M. apply (total_is_posts worth id). intros i. rewrite M, Z.mul_add_distr_l. f_equal.
  clear M. induction ds as [|[j v] ds IH]; [cbn; lia|]. rewrite posted_cons, Z.mul_add_distr_l. cbn [foldr fst snd].
  rewrite IH. unfold id. case_bool_decide; [subst|]; lia.
Qed.

Definition share_of (u : bytes) (i : item) : Z :=
  match snd i with Share Proxied_part v | Share Deposit_part v => if bool_decide (v = u) then 1 else 0 | _ => 0 end.

Lemma staked_split u ds : weighted (staked u) ds = posted ds (u, Coin CDelegate) - weighted (share_of u) ds.
Proof.
  induction ds as [|[[b q] v] ds IH]; [done|]. rewrite !weighted_cons, posted_cons, IH.
  destruct q as [[]|[] w|w|c]; unfold staked, share_of; cbn [fst snd]; repeat case_bool_decide; simplify_eq; try congruence; lia.
Qed.

Lemma stakes_moved ds s s' : moved ds s s' -> (forall u, weighted (staked u) ds = 0) -> stakes_ok s -> stakes_ok s'.
Proof.
  intros M Hw H u. specialize (Hw u). rewrite staked_split in Hw. rewrite M.
  replace (posted ds (u, Coin CDelegate)) with (weighted (share_of u) ds) by lia.
  apply (total_is_posts (share_of u) fst (fun c => ledger s (c, Share Proxied_part u) + ledger s (c, Share Deposit_part u)));
    [|apply H].
  intros x. rewrite !M. clear.
  enough (posted ds (x, Share Proxied_part u) + posted ds (x, Share Deposit_part u)
    = foldr (fun e z => (if bool_decide (fst (fst e) = x) then share_of u (fst e) * snd e else 0) + z) 0 ds) by lia.
  induction ds as [|[[b q] v] ds IH]; [done|]. rewrite !posted_cons. cbn [foldr fst snd]. rewrite <- IH.
  destruct q as [[]|[] w|w|c]; unfold share_of; cbn [snd]; repeat case_bool_decide; simplify_eq; try congruence; lia.
Qed.

Definition reward_at (a : bytes) (i : item) : Z :=
  match snd i with Reward_from _ => if bool_decide (fst i = a) then 1 else 0 | _ => 0 end.
(** The delegate a reward comes from. *)
Definition reward_key (i : item) : bytes := match snd i with Reward_from u => u | _ => [] end.

Lemma rewarded_split a ds : weighted (rewarded a) ds = posted ds (a, Coin CReward) - weighted (reward_at a) ds.
Proof.
  induction ds as [|[[b q] v] ds IH]; [done|]. rewrite !weighted_cons, posted_cons, IH.
  destruct q as [[]|[] w|w|c]; unfold rewarded, reward_at; cbn [fst snd]; repeat case_bool_decide; simplify_eq; try congruence; lia.
Qed.

Lemma rewards_moved ds s s' : moved ds s s' -> (forall a, weighted (rewarded a) ds = 0) -> rewards_ok s -> rewards_ok s'.
Proof.
  intros M Hw H a. specialize (Hw a). rewrite rewarded_split in Hw. rewrite M.
  replace (posted ds (a, Coin CReward)) with (weighted (reward_at a) ds) by lia.
  apply (total_is_posts (reward_at a) reward_key (fun u => ledger s (a, Reward_from u))); [|apply H].
  intros x. rewrite !M. clear.
  enough (posted ds (a, Reward_from x)
    = foldr (fun e z => (if bool_decide (reward_key (fst e) = x) then reward_at a (fst e) * snd e else 0) + z) 0 ds) by lia.
  induction ds as [|[[b q] v] ds IH]; [done|]. rewrite !posted_cons. cbn [foldr fst snd]. rewrite <- IH.
  destruct q as [[]|[] w|w|c]; unfold reward_at, reward_key; cbn [fst snd]; repeat case_bool_decide; simplify_eq; try congruence; lia.
Qed.

(** Balanced code keeps the books and changes the supply by what it creates. *)
Record books (s : StateDB) (t : Z) : Prop := {
  books_supply : supply s t;
  books_stakes : stakes_ok s;
  books_rewards : rewards_ok s }.

Lemma balanced_books v ds s s' t : balanced v ds -> moved ds s s' -> books s t -> books s' (t + v).
Proof.
  intros (H1 & H2 & H3) M [B1 B2 B3]. split.
  - rewrite <- H1. by apply (supply_moved ds s).
  - by apply (stakes_moved ds s).
  - by apply (rewards_moved ds s).
Qed.

End Totals.

(** ** Single values *)
Section Values.
Context {L : TrieLib} {LL : TrieLaws L}.

Definition value (s : StateDB) (f : zfield) (a : bytes) : Z :=
  match view s a with Some o => zget f (so_data o) | None => 0 end.

Lemma calm_value s s' f a : calm s s' -> value s' f a = value s f a.
Proof.
  intros (_ & E & _). pose proof (eqv_view s' s a E) as Hv. unfold value.
  destruct (view s' a), (view s a); try done. apply (eqv_data (zget f) (s_db s')); [destruct f; done|done].
Qed.

Lemma getZ_value f a s s' x : swf s -> getZ f a s = Ret (s', x) -> x = value s f a /\ calm s s'.
Proof.
  intros W H. destruct (getStateObject_spec s a W) as (s1 & G & C & Hlive).
  unfold getZ, query in H. rewrite (SM_bind_Ret _ _ _ _ _ G) in H. unfold value.
  destruct (view s a) as [o|]; cbn [is_some] in H; [|injection H as <- <-; done].
  rewrite (deref_live _ _ _ _ (proj1 (Hlive o eq_refl))) in H. injection H as <- <-. done.
Qed.

Lemma GetOrNew_value s s' x a f b : swf s -> GetOrNewStateObject a s = Ret (s', x) -> value s' f b = value s f b.
Proof.
  intros W H. destruct (getStateObject_spec s a W) as (s0 & G & C0 & Hlive).
  unfold GetOrNewStateObject in H. rewrite (SM_bind_Ret _ _ _ _ _ G) in H.
  destruct (view s a) eqn:Ev; cbn [is_some] in H; [injection H as <- _; by apply calm_value|].
  destruct (createObject_upd s0 a (proj1 C0)) as (s1 & s2 & e & H2 & C1 & U & _ & Hv).
  rewrite (SM_bind_Ret _ _ _ _ _ H2) in H. injection H as <- _.
  pose proof (eqv_view s0 s a (proj1 (proj2 C0))) as E. rewrite Ev in E.
  destruct (view s0 a) eqn:Ev0; [done|]. destruct Hv as [Hv _].
  rewrite <- (calm_value s s1 f b (calm_trans _ _ _ C0 C1)). unfold value.
  rewrite (upd_view _ _ _ _ _ U eq_refl). case_bool_decide; [|done]. subst b. rewrite Hv. destruct f; done.
Qed.

(** Adding to one number of an account leaves the others. *)
Lemma added_value (m : bytes -> Z -> SM unit) f v w a s s' :
  (forall s s' o db, s_stateObjects s !! a = Some o -> m a v s = Ret (s', tt) -> exists o', upd a o' s s' /\ added f w db o o') ->
  swf s -> (GetOrNewStateObject a ;; m a v) s = Ret (s', tt) ->
  forall g b, value s' g b = value s g b + if bool_decide ((g, b) = (f, a)) then w else 0.
Proof.
  intros Hm W H g b. destruct (GetOrNew_spec s a W) as (s1 & o & H1 & S1 & Hl & _). rewrite (SM_bind_Ret _ _ _ _ _ H1) in H.
  rewrite <- (GetOrNew_value s s1 _ a g b W H1).
  destruct (Hm s1 s' o (s_db s1) (proj1 Hl) H) as (o' & U & Hd & Hf & Hg & _).
  unfold value. rewrite (upd_view _ _ _ _ _ U) by (rewrite Hd; apply Hl).
  case_bool_decide as E; [subst b|rewrite (bool_decide_false ((g, b) = _)) by congruence; destruct (view s1 b); lia].
  rewrite (live_view _ _ _ Hl). destruct (decide (g = f)) as [->|Hne].
  - rewrite Hf, bool_decide_true by done. done.
  - rewrite Hg, bool_decide_false by congruence. lia.
Qed.

Lemma SubBalance_value a v s s' : swf s -> SubBalance a v s = Ret (s', tt) ->
  forall g b, value s' g b = value s g b + if bool_decide ((g, b) = (FBalance, a)) then - v else 0.
Proof. apply (added_value so_SubBalance). intros. by apply so_SubZ_added. Qed.

(** Code that leaves some of the numbers of all accounts as they are. *)
Definition steady {A} (F : zfield -> bool) (m : SM A) : Prop :=
  ok m /\ forall s s' x, swf s -> m s = Ret (s', x) -> forall g b, F g = true -> value s' g b = value s g b.

Lemma steady_calm {A} F (m : SM A) : (forall s s' x, swf s -> m s = Ret (s', x) -> calm s s') -> steady F m.
Proof.
  intros H. split; [intros s s' x W Hm; eapply calm_step, H; done|]. intros s s' x W Hm g b _. eapply calm_value, H; done.
Qed.
Lemma steady_ret {A} F (x : A) : steady F (mret x).
Proof. apply steady_calm. intros s s' y W [= <- _]. by apply calm_refl. Qed.
Lemma steady_lift {A} F (m : outcome A) : steady F (liftS m).
Proof. apply steady_calm. intros s s' y W H. unfold liftS in H. destruct m; [|done]. injection H as <- _. by apply calm_refl. Qed.
Lemma steady_bind {A B} F (m : SM A) (f : A -> SM B) : steady F m -> (forall x, steady F (f x)) -> steady F (x ← m; f x).
Proof.
  intros [Om Hm] Hf. split; [apply ok_bind; [done|intros; apply Hf]|]. intros s s' y W H g b Hg.
  apply SM_bind_inv in H as (s1 & x & H1 & H2). destruct (Hf x) as [_ Hx].
  rewrite (Hx _ _ _ (proj1 (Om _ _ _ W H1)) H2 g b Hg). by eapply Hm.
Qed.
Lemma steady_forS {A} F (f : A -> SM unit) l : (forall x, steady F (f x)) -> steady F (forS f l).
Proof. intros Hf. induction l as [|x l IH]; cbn [forS]; [apply steady_ret|]. apply steady_bind; [done|intros _; done]. Qed.
Lemma steady_foldS {A B} F (f : B -> A -> SM B) l acc : (forall acc x, steady F (f acc x)) -> steady F (foldS f acc l).
Proof.
  intros Hf. revert acc. induction l as [|x l IH]; intros acc; cbn [foldS]; [apply steady_ret|]. apply steady_bind; [done|intros; apply IH].
Qed.
Lemma steady_added F f w a (m : SM unit) : F f = false -> ok (GetOrNewStateObject a ;; m) ->
  (forall s s' o db, s_stateObjects s !! a = Some o -> m s = Ret (s', tt) -> exists o', upd a o' s s' /\ added f w db o o') ->
  steady F (GetOrNewStateObject a ;; m).
Proof.
  intros Hf Ho Hm. split; [done|]. intros s s' [] W H g b Hg.
  rewrite (added_value (fun _ _ => m) f 0 w a s s' Hm W H g b), bool_decide_false by congruence. lia.
Qed.
Lemma steady_AddZ F f a v : F f = false -> steady F (GetOrNewStateObject a ;; so_AddZ f a v).
Proof. intros Hf. apply (steady_added F f v); [done|apply ok_new, so_AddZ_ok|]. intros. by apply so_AddZ_added. Qed.
Lemma steady_SubZ F f a v : F f = false -> steady F (GetOrNewStateObject a ;; so_SubZ f a v).
Proof. intros Hf. apply (steady_added F f (- v)); [done|apply ok_new, so_SubZ_ok|]. intros. by apply so_SubZ_added. Qed.
Lemma steady_SubSide F a c v : steady F (SubSideChainDepositBalance a c v).
Proof.
  split; [apply ok_new, so_SubSide_ok|]. intros s s' [] W H g b _.
  destruct (GetOrNew_spec s a W) as (s1 & o & H1 & S1 & Hl & _). unfold SubSideChainDepositBalance in H.
  rewrite (SM_bind_Ret _ _ _ _ _ H1) in H. rewrite <- (GetOrNew_value s s1 _ a g b W H1).
  unfold so_SubSideChainDepositBalance in H. rewrite (deref_live _ _ _ _ (proj1 Hl)) in H.
  destruct (v =? 0); [injection H as <-; done|].
  destruct (so_SetSide_upd s1 a o c (so_SideChainDepositBalance o c - v) (proj1 Hl)) as (s2 & H2 & U & _).
  rewrite H2 in H. injection H as <-. pose proof (settle_cached (s_db s1) (write_side c (so_SideChainDepositBalance o c - v) o)) as Hc.
  destruct Hc as (_ & _ & Hd & Hdata). unfold value. rewrite (upd_view _ _ _ _ _ U) by (rewrite Hd; apply Hl).
  case_bool_decide; [|done]. subst b. rewrite (live_view _ _ _ Hl), Hdata. destruct g; done.
Qed.

End Values.

(** ** Code with entries of one kind *)

(** Code whose entries are all of some kind, where entries of the kind can be
    put together. *)
Class Additive (Q : list entry -> Prop) : Prop := {
  additive_nil : Q [];
  additive_app ds ds' : Q ds -> Q ds' -> Q (ds ++ ds') }.
Definition within {L : TrieLib} (Q : list entry -> Prop) {A} (m : SM A) : Prop := posts m (fun _ ds => Q ds).

#[export] Instance nil_additive : Additive (eq []).
Proof. split; [done|]. by intros ? ? <- <-. Qed.
#[export] Instance balanced_additive : Additive (balanced 0).
Proof. split; [apply balanced_nil|apply balanced_app0]. Qed.

Section Within.
Context {L : TrieLib} {LL : TrieLaws L} {Q : list entry -> Prop} {AQ : Additive Q}.

Lemma within_none {A} (m : SM A) : posts m none -> within Q m.
Proof. apply posts_weaken. intros x ds ->. apply additive_nil. Qed.
Lemma within_ret {A} (x : A) : within Q (mret x).
Proof. apply posts_ret, additive_nil. Qed.
Lemma within_panic {A} e : within Q (panicS (A := A) e).
Proof. apply posts_panic. Qed.
Lemma within_bind {A B} (m : SM A) (f : A -> SM B) : within Q m -> (forall x, within Q (f x)) -> within Q (x ← m; f x).
Proof. intros Hm Hf. eapply posts_bind; [exact Hm|exact Hf|]. intros x ds y ds'. apply additive_app. Qed.
Lemma within_try {A B} (m : EM A) (k : A -> EM B) : within Q m -> (forall x, within Q (k x)) -> within Q (try_ m k).
Proof. intros Hm Hk. apply within_bind; [done|]. intros [x|e]; [done|apply within_ret]. Qed.
Lemma within_check b e {B} (k : EM B) : within Q k -> within Q (check b e k).
Proof. intros Hk. unfold check. destruct b; [apply within_ret|done]. Qed.
Lemma within_lift {A} (m : outcome A) : within Q (liftS m).
Proof.
  apply within_none, calm_posts. intros s s' x W H. unfold liftS in H. destruct m; [|done]. injection H as <- _.
  by apply calm_refl.
Qed.
Lemma within_ForEach {A} a (cb : A -> bytes -> Z -> Z -> Z -> SM A) acc :
  (forall acc u x y z, within Q (cb acc u x y z)) -> within Q (ForEachProxied a cb acc).
Proof.
  intros Hcb. eapply posts_weaken; [|apply (ForEachProxied_posts (fun _ ds => Q ds) a cb acc)].
  - intros x ds H. exact (H [] additive_nil).
  - intros acc' u x y z. eapply posts_weaken; [|apply Hcb]. intros acc'' ds H ds0 H0. by apply additive_app.
Qed.
Lemma within_foldS {A B} (f : B -> A -> SM B) l acc : (forall acc x, within Q (f acc x)) -> within Q (foldS f acc l).
Proof.
  intros Hf. eapply posts_weaken; [|apply (posts_foldS (fun _ ds => Q ds))].
  - intros x ds H. exact (H [] additive_nil).
  - intros acc' x. eapply posts_weaken; [|apply Hf]. intros acc'' ds H ds0 H0. by apply additive_app.
Qed.
Lemma within_forS {A} (f : A -> SM unit) l : (forall x, within Q (f x)) -> within Q (forS f l).
Proof. intros Hf. induction l as [|x l IH]; cbn [forS]; [apply within_ret|]. apply within_bind; [done|intros _; done]. Qed.
Lemma within_seq {A B} (m : SM A) (k : SM B) es : posts m (just es) -> within (fun ds => Q (es ++ ds)) k -> within Q (m ;; k).
Proof. intros Hm Hk. eapply posts_weaken; [|apply posts_seq; [exact Hm|exact Hk]]. intros y ds (d & -> & H). done. Qed.

End Within.

(** Code that creates and destroys no coins and keeps the books. *)
Abbreviation even := (within (balanced 0)).

Lemma even_books {L : TrieLib} {LL : TrieLaws L} {A} (m : SM A) s s' x t :
  even m -> swf s -> books s t -> m s = Ret (s', x) -> swf s' /\ books s' t.
Proof.
  intros [Ho Hp] W B H. destruct (Hp _ _ _ W H) as (ds & Hds & M). split; [eapply Ho; done|].
  rewrite <- (Z.add_0_r t). eapply balanced_books; done.
Qed.

(** Reading, testing and branching are done by search. *)
Create HintDb within.
Ltac within_step :=
  match goal with
  | |- within _ (check _ _ _) => apply within_check
  | |- within _ (ok_ _) => apply within_ret
  | |- within _ (fail_ _) => apply within_ret
  | |- within _ (mret _) => apply within_ret
  | |- within _ (panicS _) => apply within_panic
  | |- within _ (liftS _) => apply within_lift
  | |- within _ (try_ _ _) => apply within_try; [|intros ?]
  | |- within _ (if ?b then _ else _) => destruct b
  | |- within _ (match ?x with _ => _ end) => destruct x
  | |- within _ (ForEachProxied _ _ _) => apply within_ForEach; intros
  | |- within _ (forS _ _) => apply within_forS; intros
  | |- within _ (mbind _ _) => apply within_bind; [|intros ?]
  | |- within _ _ => apply within_none; solve [eauto with posts]
  end.
(** Calls whose entries belong together. *)
Ltac within_group := fail.
Ltac within_known := repeat first [solve [auto with within nocore] | within_group | within_step].
