(* ===== verification/Receipts.v ===== *)
(** * Receipts and their Bloom filters

    What a transaction leaves in its block: the receipt (chain/core/types/
    receipt.go) and the Bloom filter of its logs (bloom9.go), by which the logs
    of an address or topic are searched.  A filter of 2048 bits is an array of
    256 bytes; Keccak256 is the one of [TrieLib]. *)
From S2P Require Import Prelude Rlp StateData StateToy StateDB.
Local Open Scope Z_scope.

Definition BloomByteLength : nat := 256.
Abbreviation Bloom := bytes.
Definition Bloom_zero : Bloom := replicate BloomByteLength 0.

Record Receipt := {
  r_PostState : bytes;
  r_Status : Z;
  r_CumulativeGasUsed : Z;
  r_Bloom : Bloom;
  r_Logs : list Log;
  r_TxHash : bytes;
  r_ContractAddress : bytes;
  r_GasUsed : Z;
  r_BlockHash : bytes;
  r_BlockNumber : Z;
  r_TransactionIndex : Z }.

Definition ReceiptStatusFailed : Z := 0.
Definition ReceiptStatusSuccessful : Z := 1.

Definition NewReceipt (root : bytes) (failed : bool) (cumulativeGasUsed : Z) : Receipt :=
  {| r_PostState := root; r_Status := if failed then ReceiptStatusFailed else ReceiptStatusSuccessful;
     r_CumulativeGasUsed := cumulativeGasUsed; r_Bloom := Bloom_zero; r_Logs := []; r_TxHash := zeroHash;
     r_ContractAddress := zeroHash; r_GasUsed := 0; r_BlockHash := zeroHash; r_BlockNumber := 0;
     r_TransactionIndex := 0 |}.

(** ** The filter *)

(** [copy(b[BloomByteLength-len(d):], d)] *)
Definition Bloom_SetBytes (b : Bloom) (d : bytes) : outcome Bloom :=
  if (length b <? length d)%nat then Panic "bloom bytes too big"
  else Ret (take (BloomByteLength - length d) b ++ d).

Definition BytesToBloom (b : bytes) : outcome Bloom := Bloom_SetBytes Bloom_zero b.
Definition Bloom_Big (b : Bloom) : Z := be_uint b.

Section Bloom.
Context {L : TrieLib}.

(** Three numbers of 11 bits from the hash, each of which sets a bit. *)
Definition bloomBit (hash : bytes) (i : nat) : Z :=
  Z.land (nth (i + 1) hash 0 + Z.shiftl (nth i hash 0) 8) 2047.
Definition bloom9 (b : bytes) : Z :=
  let hash := Keccak256 b in
  foldl (fun r i => Z.lor r (Z.shiftl 1 (bloomBit hash i))) 0 [0; 2; 4]%nat.

Definition LogsBloom (logs : list Log) : Z :=
  foldl (fun bin log =>
    foldl (fun bin b => Z.lor bin (bloom9 b)) (Z.lor bin (bloom9 (log_Address log))) (log_Topics log)) 0 logs.

Definition CreateBloom (receipts : list (list Log)) : outcome Bloom :=
  BytesToBloom (big_Bytes (foldl (fun bin logs => Z.lor bin (LogsBloom logs)) 0 receipts)).

Definition BloomLookup (bin : Bloom) (topic : bytes) : bool :=
  let bloom := Bloom_Big bin in
  let cmp := bloom9 topic in
  Z.land bloom cmp =? cmp.

(** A big.Int is turned into bytes without leading zeros. *)
Definition Bloom_Add (b : Bloom) (d : Z) : outcome Bloom :=
  Bloom_SetBytes b (big_Bytes (Z.lor (be_uint b) (bloom9 (big_Bytes d)))).
Definition Bloom_Test (b : Bloom) (test : Z) : bool := BloomLookup b (big_Bytes test).
Definition Bloom_TestBytes (b : Bloom) (test : bytes) : bool := Bloom_Test b (be_uint test).

(** ** Proofs *)

(** [c] has only bits of [b]. *)
Definition bits_in (c b : Z) : Prop := Z.land b c = c.

Lemma bits_in_spec c b : bits_in c b <-> forall n, 0 <= n -> Z.testbit c n = true -> Z.testbit b n = true.
Proof.
  unfold bits_in. split.
  - intros H n Hn Hc. rewrite <- H, Z.land_spec in Hc. by apply andb_true_iff in Hc as [? _].
  - intros H. apply Z.bits_inj'. intros n Hn. rewrite Z.land_spec. destruct (Z.testbit c n) eqn:E; [|apply andb_false_r].
    by rewrite (H n Hn E).
Qed.
Lemma bits_in_refl c : bits_in c c.
Proof. apply Z.land_diag. Qed.
Lemma bits_in_l c a b : bits_in c a -> bits_in c (Z.lor a b).
Proof. rewrite !bits_in_spec. intros H n Hn Hc. by rewrite Z.lor_spec, (H n Hn Hc). Qed.
Lemma bits_in_r c a b : bits_in c b -> bits_in c (Z.lor a b).
Proof. rewrite Z.lor_comm. apply bits_in_l. Qed.

Lemma bits_in_foldl {A} (f : A -> Z) l c b : bits_in c b -> bits_in c (foldl (fun bin x => Z.lor bin (f x)) b l).
Proof. revert b. induction l as [|x l IH]; intros b H; cbn; [done|]. by apply IH, bits_in_l. Qed.
Lemma bits_in_foldl_elem {A} (f : A -> Z) l c b x : x ∈ l -> bits_in c (f x) -> bits_in c (foldl (fun bin x => Z.lor bin (f x)) b l).
Proof.
  intros Hx Hc. revert b. induction l as [|y l IH]; intros b; [by apply not_elem_of_nil in Hx|]. cbn.
  apply elem_of_cons in Hx as [<-|Hx]; [by apply bits_in_foldl, bits_in_r|by apply IH].
Qed.

(** What a log puts into the filter. *)
Definition logKeys (log : Log) : list bytes := log_Address log :: log_Topics log.
Lemma LogsBloom_keys logs : LogsBloom logs = foldl (fun bin log => foldl (fun bin b => Z.lor bin (bloom9 b)) bin (logKeys log)) 0 logs.
Proof. done. Qed.

Lemma bits_in_keys c b logs : bits_in c b ->
  bits_in c (foldl (fun bin log => foldl (fun bin b => Z.lor bin (bloom9 b)) bin (logKeys log)) b logs).
Proof. revert b. induction logs as [|log logs IH]; intros b H; cbn [foldl]; [done|]. by apply IH, bits_in_foldl. Qed.
Lemma LogsBloom_has logs log k : log ∈ logs -> k ∈ logKeys log -> bits_in (bloom9 k) (LogsBloom logs).
Proof.
  rewrite LogsBloom_keys. generalize 0. induction logs as [|y logs IH]; intros b Hl Hk; [by apply not_elem_of_nil in Hl|].
  cbn [foldl]. apply elem_of_cons in Hl as [<-|Hl]; [|by apply IH].
  apply bits_in_keys. eapply bits_in_foldl_elem; [exact Hk|apply bits_in_refl].
Qed.

(** *** The filter fits its array *)
Definition small (z : Z) : Prop := 0 <= z < 2 ^ 2048.
Lemma small_lor a b : small a -> small b -> small (Z.lor a b).
Proof.
  intros [Ha1 Ha2] [Hb1 Hb2]. split; [by apply Z.lor_nonneg|].
  destruct (Z.eq_dec (Z.lor a b) 0) as [->|]; [done|]. apply Z.log2_lt_pow2; [pose proof (proj2 (Z.lor_nonneg a b) (conj Ha1 Hb1)); lia|].
  rewrite Z.log2_lor by done. apply Z.max_lub_lt; [destruct (Z.eq_dec a 0) as [->|]|destruct (Z.eq_dec b 0) as [->|]];
    try done; apply Z.log2_lt_pow2; lia.
Qed.
Lemma small_foldl {A} (f : A -> Z) l b : small b -> (forall x, small (f x)) -> small (foldl (fun bin x => Z.lor bin (f x)) b l).
Proof. intros Hb Hf. revert b Hb. induction l as [|x l IH]; intros b Hb; cbn; [done|]. by apply IH, small_lor. Qed.
Lemma small_bloom9 b : small (bloom9 b).
Proof.
  apply small_foldl; [done|]. intros i. rewrite Z.shiftl_1_l.
  assert (0 <= bloomBit (Keccak256 b) i < 2048) as [H1 H2].
  { unfold bloomBit. change 2047 with (Z.ones 11). rewrite Z.land_ones by done. by apply Z.mod_pos_bound. }
  split; [by apply Z.pow_nonneg|apply Z.pow_lt_mono_r; lia].
Qed.
Lemma small_LogsBloom logs : small (LogsBloom logs).
Proof.
  rewrite LogsBloom_keys. assert (small 0) as H by done. revert H. generalize 0.
  induction logs as [|log logs IH]; intros b Hb; cbn [foldl]; [done|]. apply IH, small_foldl; [done|apply small_bloom9].
Qed.

Lemma big_Bytes_length z : small z -> (length (big_Bytes z) <= BloomByteLength)%nat.
Proof.
  intros [H1 H2]. unfold big_Bytes. destruct (Z.eqb_spec z 0); [cbn; lia|]. rewrite length_be.
  assert (Z.log2 z < 2048) by (apply Z.log2_lt_pow2; lia). pose proof (Z.log2_nonneg z).
  assert (Z.log2 z / 8 < 256) by (apply Z.div_lt_upper_bound; lia). assert (0 <= Z.log2 z / 8) by (apply Z.div_pos; lia).
  unfold BloomByteLength. lia.
Qed.
Lemma be_uint_big_Bytes z : 0 <= z -> be_uint (big_Bytes z) = z.
Proof.
  intros H. unfold big_Bytes. destruct (Z.eqb_spec z 0) as [->|]; [done|]. rewrite be_uint_be. apply Z.mod_small. split; [done|].
  pose proof (Z.log2_nonneg z). assert (0 <= Z.log2 z / 8) by (apply Z.div_pos; lia).
  rewrite Z2Nat.id by lia. destruct (Z.log2_spec z) as [_ Hz]; [lia|]. eapply Z.lt_le_trans; [exact Hz|].
  apply Z.pow_le_mono_r; [lia|]. pose proof (Z.div_mod (Z.log2 z) 8). pose proof (Z.mod_pos_bound (Z.log2 z) 8). lia.
Qed.
Lemma BytesToBloom_value z : small z -> exists b, BytesToBloom (big_Bytes z) = Ret b /\ length b = BloomByteLength /\ Bloom_Big b = z.
Proof.
  intros Hz. pose proof (big_Bytes_length z Hz) as Hl. unfold BytesToBloom, Bloom_SetBytes, Bloom_zero.
  rewrite length_replicate. destruct (Nat.ltb_spec BloomByteLength (length (big_Bytes z))); [lia|].
  eexists. split; [done|]. rewrite take_replicate, Nat.min_l by lia. split.
  - rewrite length_app, length_replicate. lia.
  - unfold Bloom_Big. rewrite be_uint_zeros. apply be_uint_big_Bytes, Hz.
Qed.

(** The Bloom filter of a block has no false negatives.  It is built for any
    logs, and looking up the address of a log, or one of its topics, in the
    filter of any receipts with that log among them succeeds. *)
Theorem bloom_finds_logs receipts :
  exists b, CreateBloom receipts = Ret b /\ length b = BloomByteLength
  /\ forall logs log k, logs ∈ receipts -> log ∈ logs -> k ∈ logKeys log -> BloomLookup b k = true.
Proof.
  destruct (BytesToBloom_value (foldl (fun bin logs => Z.lor bin (LogsBloom logs)) 0 receipts)) as (b & Hb & Hl & Hv).
  { apply small_foldl; [done|apply small_LogsBloom]. }
  exists b. split_and!; [exact Hb|exact Hl|]. intros logs log k H1 H2 H3. unfold BloomLookup. rewrite Hv. apply Z.eqb_eq.
  eapply (bits_in_foldl_elem LogsBloom); [exact H1|]. by eapply LogsBloom_has.
Qed.

End Bloom.

Module ReceiptsExamples.
Import StateToy.

(** TestBytes turns what it looks for into a number and back, which drops
    leading zeros: a topic that starts with a zero byte, as padded addresses
    and small numbers do, is in the filter but not found. *)
Definition ex_topic : bytes := replicate 31 0 ++ [5].
Definition ex_log : Log :=
  {| log_Address := replicate 32 1; log_Topics := [ex_topic]; log_Data := []; log_BlockNumber := 1; log_TxHash := [];
     log_TxIndex := 0; log_BlockHash := []; log_Index := 0; log_Removed := false |}.
Definition bloom_of (r : outcome Bloom) : Bloom := match r with Ret b => b | Panic _ => [] end.

Theorem TestBytes_misses_topic :
  BloomLookup (L := toyLib) (bloom_of (CreateBloom (L := toyLib) [[ex_log]])) ex_topic = true
  /\ Bloom_TestBytes (L := toyLib) (bloom_of (CreateBloom (L := toyLib) [[ex_log]])) ex_topic = false.
Proof. vm_compute. split; reflexivity. Qed.

End ReceiptsExamples.
