(* ===== verification/VmWord.v ===== *)
(** * The words of the virtual machine

    The 256-bit arithmetic of the instructions (chain/core/vm/instructions.go
    over utilities/common/math/big.go), as the code computes it with big
    integers, and that it is arithmetic modulo 2^256. *)
From S2P Require Import Prelude Rlp.
Local Open Scope Z_scope.

Definition tt255 : Z := 2 ^ 255.
Definition tt256 : Z := 2 ^ 256.
Definition tt256m1 : Z := tt256 - 1.

(** ** big.go *)
Definition U256 (x : Z) : Z := Z.land x tt256m1.
Definition S256 (x : Z) : Z := if x <? tt255 then x else x - tt256.

(** big.Int.Div and Mod are Euclidean. *)
Definition big_Div (x y : Z) : Z := Z.sgn y * (x / Z.abs y).
Definition big_Mod (x y : Z) : Z := x mod Z.abs y.

(** big.Int.Bits: the words of the absolute value, the lowest first. *)
Definition wordBits : nat := 64.
Definition wordBytes : nat := 8.

Fixpoint words (n : nat) (x : Z) : list Z :=
  match n with
  | O => []
  | S n => x mod 2 ^ 64 :: words n (x / 2 ^ 64)
  end.

Definition big_Bits (x : Z) : list Z := words (Z.to_nat ((BitLen x + 63) / 64)) (Z.abs x).

(** One word of the exponent: square and multiply, from the lowest bit. *)
Fixpoint exp_word (n : nat) (word result base : Z) : Z * Z :=
  match n with
  | O => (result, base)
  | S n =>
    exp_word n (Z.shiftr word 1) (if Z.land word 1 =? 1 then U256 (result * base) else result) (U256 (base * base))
  end.

Definition big_Exp (base exponent : Z) : Z :=
  fst (foldl (fun '(result, base) word => exp_word wordBits word result base) (1, base) (big_Bits exponent)).

Definition bigEndianByteAt (bigint : Z) (n : nat) : Z :=
  match big_Bits bigint !! (n / wordBytes)%nat with
  | None => 0
  | Some word => byte (Z.shiftr word (8 * Z.of_nat (n mod wordBytes)))
  end.

Definition Byte (bigint : Z) (padlength n : nat) : Z :=
  if (padlength <=? n)%nat then 0 else bigEndianByteAt bigint (padlength - 1 - n).

(** The bytes of the words, the lowest first, are written from the end. *)
Fixpoint word_bytes (n : nat) (d : Z) : list Z :=
  match n with
  | O => []
  | S n => byte d :: word_bytes n (Z.shiftr d 8)
  end.

Fixpoint fill (buf : bytes) (i : nat) (ds : list Z) : bytes :=
  match ds, i with
  | d :: ds, S i => fill (<[i := d]> buf) i ds
  | _, _ => buf
  end.

Definition ReadBits (bigint : Z) (buf : bytes) : bytes :=
  fill buf (length buf) (mjoin (word_bytes wordBytes <$> big_Bits bigint)).

(** ** The instructions on the stack, the top first *)
Abbreviation Stack := (list Z).

Definition stack_empty {A} : outcome A := Panic "index out of range".

Definition unary (f : Z -> Z) (st : Stack) : outcome Stack :=
  match st with x :: st => Ret (f x :: st) | _ => stack_empty end.
Definition binary (f : Z -> Z -> Z) (st : Stack) : outcome Stack :=
  match st with x :: y :: st => Ret (f x y :: st) | _ => stack_empty end.
Definition ternary (f : Z -> Z -> Z -> Z) (st : Stack) : outcome Stack :=
  match st with x :: y :: z :: st => Ret (f x y z :: st) | _ => stack_empty end.
Definition flag (b : bool) : Z := if b then 1 else 0.

Definition opAdd : Stack -> outcome Stack := binary (fun x y => U256 (x + y)).
Definition opSub : Stack -> outcome Stack := binary (fun x y => U256 (x - y)).
Definition opMul : Stack -> outcome Stack := binary (fun x y => U256 (x * y)).
Definition opDiv : Stack -> outcome Stack := binary (fun x y => if y =? 0 then 0 else U256 (big_Div x y)).

Definition opSdiv : Stack -> outcome Stack :=
  binary (fun x y =>
    let x := S256 x in
    let y := S256 y in
    if (Z.sgn y =? 0) || (Z.sgn x =? 0) then 0
    else
      let res := big_Div (Z.abs x) (Z.abs y) in
      U256 (if Z.sgn x =? Z.sgn y then res else - res)).

Definition opMod : Stack -> outcome Stack := binary (fun x y => if y =? 0 then 0 else U256 (big_Mod x y)).

Definition opSmod : Stack -> outcome Stack :=
  binary (fun x y =>
    let x := S256 x in
    let y := S256 y in
    if y =? 0 then 0
    else
      let res := big_Mod (Z.abs x) (Z.abs y) in
      U256 (if x <? 0 then - res else res)).

Definition opExp : Stack -> outcome Stack := binary big_Exp.

(** The number below stays where it is when the size is 31 or more. *)
Definition opSignExtend (st : Stack) : outcome Stack :=
  match st with
  | back :: st =>
    if back <? 31 then
      match st with
      | num :: st =>
        let bit := back * 8 + 7 in
        let mask := Z.shiftl 1 bit - 1 in
        Ret (U256 (if Z.testbit num bit then Z.lor num (Z.lnot mask) else Z.land num mask) :: st)
      | [] => stack_empty
      end
    else Ret st
  | [] => stack_empty
  end.

Definition opNot : Stack -> outcome Stack := unary (fun x => U256 (Z.lnot x)).
Definition opLt : Stack -> outcome Stack := binary (fun x y => flag (x <? y)).
Definition opGt : Stack -> outcome Stack := binary (fun x y => flag (y <? x)).

Definition opSlt : Stack -> outcome Stack :=
  binary (fun x y =>
    if (tt255 <=? x) && (y <? tt255) then 1
    else if (x <? tt255) && (tt255 <=? y) then 0
    else flag (x <? y)).
Definition opSgt : Stack -> outcome Stack :=
  binary (fun x y =>
    if (tt255 <=? x) && (y <? tt255) then 0
    else if (x <? tt255) && (tt255 <=? y) then 1
    else flag (y <? x)).

Definition opEq : Stack -> outcome Stack := binary (fun x y => flag (x =? y)).
Definition opIszero : Stack -> outcome Stack := unary (fun x => flag (negb (0 <? x))).
Definition opAnd : Stack -> outcome Stack := binary Z.land.
Definition opOr : Stack -> outcome Stack := binary Z.lor.
Definition opXor : Stack -> outcome Stack := binary Z.lxor.
Definition opByte : Stack -> outcome Stack :=
  binary (fun th val => if th <? 32 then Byte val 32 (Z.to_nat th) else 0).
Definition opAddmod : Stack -> outcome Stack := ternary (fun x y z => if 0 <? z then U256 (big_Mod (x + y) z) else 0).
Definition opMulmod : Stack -> outcome Stack := ternary (fun x y z => if 0 <? z then U256 (big_Mod (x * y) z) else 0).

Definition opSHL : Stack -> outcome Stack :=
  binary (fun shift value =>
    let shift := U256 shift in
    let value := U256 value in
    if 256 <=? shift then 0 else U256 (Z.shiftl value shift)).
Definition opSHR : Stack -> outcome Stack :=
  binary (fun shift value =>
    let shift := U256 shift in
    let value := U256 value in
    if 256 <=? shift then 0 else U256 (Z.shiftr value shift)).
Definition opSAR : Stack -> outcome Stack :=
  binary (fun shift value =>
    let shift := U256 shift in
    let value := S256 value in
    if 256 <=? shift then U256 (if 0 <=? value then 0 else -1) else U256 (Z.shiftr value shift)).

(** ** The arithmetic that is meant *)
Definition word256 (x : Z) : Prop := 0 <= x < 2 ^ 256.
Definition wrap (x : Z) : Z := x mod 2 ^ 256.

(** The number that the low [n] bits stand for in two's complement. *)
Definition signed (n : Z) (x : Z) : Z :=
  let y := x mod 2 ^ n in if y <? 2 ^ (n - 1) then y else y - 2 ^ n.

Definition sint (x : Z) : Z := signed 256 x.

Definition unaries : list ((Stack -> outcome Stack) * (Z -> Z)) :=
  [(opNot, fun x => 2 ^ 256 - 1 - x); (opIszero, fun x => flag (x =? 0))].

Definition binaries : list ((Stack -> outcome Stack) * (Z -> Z -> Z)) :=
  [(opAdd, fun x y => wrap (x + y));
   (opSub, fun x y => wrap (x - y));
   (opMul, fun x y => wrap (x * y));
   (opDiv, fun x y => if y =? 0 then 0 else x / y);
   (opSdiv, fun x y => if y =? 0 then 0 else wrap (Z.quot (sint x) (sint y)));
   (opMod, fun x y => if y =? 0 then 0 else x mod y);
   (opSmod, fun x y => if y =? 0 then 0 else wrap (Z.rem (sint x) (sint y)));
   (opExp, fun x y => wrap (x ^ y));
   (opSignExtend, fun k x => if k <? 31 then wrap (signed (8 * (k + 1)) x) else x);
   (opLt, fun x y => flag (x <? y));
   (opGt, fun x y => flag (y <? x));
   (opSlt, fun x y => flag (sint x <? sint y));
   (opSgt, fun x y => flag (sint y <? sint x));
   (opEq, fun x y => flag (x =? y));
   (opAnd, Z.land);
   (opOr, Z.lor);
   (opXor, Z.lxor);
   (opByte, fun i x => if i <? 32 then x / 2 ^ (8 * (31 - i)) mod 256 else 0);
   (opSHL, fun n x => wrap (x * 2 ^ n));
   (opSHR, fun n x => x / 2 ^ n);
   (opSAR, fun n x => wrap (sint x / 2 ^ n))].

Definition ternaries : list ((Stack -> outcome Stack) * (Z -> Z -> Z -> Z)) :=
  [(opAddmod, fun x y z => if z =? 0 then 0 else (x + y) mod z);
   (opMulmod, fun x y z => if z =? 0 then 0 else (x * y) mod z)].

(** ** Proofs *)
Lemma U256_wrap x : U256 x = wrap x.
Proof. unfold U256, wrap. change tt256m1 with (Z.ones 256). apply Z.land_ones. lia. Qed.

Lemma wrap_word x : word256 (wrap x).
Proof. apply Z.mod_pos_bound. lia. Qed.
Lemma wrap_id x : word256 x -> wrap x = x.
Proof. apply Z.mod_small. Qed.
Lemma flag_word b : word256 (flag b).
Proof. unfold word256. destruct b; cbn [flag]; lia. Qed.

Lemma S256_sint x : word256 x -> S256 x = sint x.
Proof. intros H. unfold S256, sint, signed. rewrite Z.mod_small by exact H. done. Qed.

Lemma sint_range x : word256 x -> - 2 ^ 255 <= sint x < 2 ^ 255.
Proof.
  intros [H1 H2]. rewrite <- S256_sint by done. unfold S256, tt255, tt256. destruct (Z.ltb_spec x (2 ^ 255)); lia.
Qed.
Lemma sint_zero x : word256 x -> sint x = 0 <-> x = 0.
Proof.
  intros [H1 H2]. rewrite <- S256_sint by done. unfold S256, tt255, tt256. destruct (Z.ltb_spec x (2 ^ 255)); lia.
Qed.
Lemma sint_sgn x : word256 x -> (sint x <? 0) = (2 ^ 255 <=? x).
Proof.
  intros [H1 H2]. rewrite <- S256_sint by done. unfold S256, tt255, tt256. destruct (Z.ltb_spec x (2 ^ 255)); lia.
Qed.

Lemma quot_abs a b : a <> 0 -> b <> 0 ->
  Z.quot a b = if Z.sgn a =? Z.sgn b then Z.abs a / Z.abs b else - (Z.abs a / Z.abs b).
Proof.
  intros Ha Hb. rewrite Z.quot_div by done. destruct (Z.eqb_spec (Z.sgn a) (Z.sgn b)) as [->|Hn];
    destruct (Z.lt_trichotomy b 0) as [|[|]]; destruct (Z.lt_trichotomy a 0) as [|[|]]; try lia;
    rewrite ?(Z.sgn_neg a), ?(Z.sgn_pos a), ?(Z.sgn_neg b), ?(Z.sgn_pos b) in * by lia; lia.
Qed.

Lemma rem_abs a b : b <> 0 -> Z.rem a b = if a <? 0 then - (Z.abs a mod Z.abs b) else Z.abs a mod Z.abs b.
Proof.
  intros Hb. rewrite Z.rem_mod by done. destruct (Z.ltb_spec a 0).
  - rewrite Z.sgn_neg by done. lia.
  - destruct (Z.eq_dec a 0) as [->|]; [rewrite Z.mod_0_l; lia|]. rewrite Z.sgn_pos by lia. lia.
Qed.

(** The words of a number. *)
Lemma words_lookup n x i : 0 <= x -> words n x !! i =
  if decide (i < n)%nat then Some (x / 2 ^ (64 * Z.of_nat i) mod 2 ^ 64) else None.
Proof.
  revert x i. induction n as [|n IH]; intros x i Hx; cbn [words]; [done|]. destruct i as [|i]; cbn [lookup].
  - rewrite decide_True by lia. rewrite Z.mul_0_r, Z.pow_0_r, Z.div_1_r. done.
  - change (words n (x / 2 ^ 64) !! i = if decide (S i < S n)%nat
      then Some (x / 2 ^ (64 * Z.of_nat (S i)) mod 2 ^ 64) else None).
    rewrite IH by (apply Z.div_pos; lia). rewrite Z.div_div, <- Z.pow_add_r by lia.
    replace (64 + 64 * Z.of_nat i) with (64 * Z.of_nat (S i)) by lia. repeat case_decide; done || lia.
Qed.

Lemma big_Bits_lookup x i : 0 <= x ->
  default 0 (big_Bits x !! i) = x / 2 ^ (64 * Z.of_nat i) mod 2 ^ 64.
Proof.
  intros Hx. unfold big_Bits. rewrite Z.abs_eq, words_lookup by done. case_decide as Hi; [done|]. cbn [default].
  rewrite Z.div_small; [done|]. split; [done|]. eapply Z.lt_le_trans; [apply (BitLen_lt x Hx)|].
  apply Z.pow_le_mono_r; [lia|]. pose proof (Z.div_mod (BitLen x + 63) 64). pose proof (Z.mod_pos_bound (BitLen x + 63) 64). lia.
Qed.

Lemma big_Bits_nonneg x : 0 <= x -> Forall (fun w => 0 <= w < 2 ^ 64) (big_Bits x).
Proof.
  intros Hx. apply Forall_lookup. intros i w Hw. pose proof (big_Bits_lookup x i Hx) as H. rewrite Hw in H. cbn in H.
  rewrite H. apply Z.mod_pos_bound. lia.
Qed.

(** Exponentiation. *)
Lemma wrap_mul a b : wrap (wrap a * wrap b) = wrap (a * b).
Proof. unfold wrap. rewrite <- Zmult_mod. done. Qed.
Lemma wrap_mul_l a b : wrap (wrap a * b) = wrap (a * b).
Proof. unfold wrap. apply Zmult_mod_idemp_l. Qed.
Lemma wrap_pow a n : 0 <= n -> wrap (wrap a ^ n) = wrap (a ^ n).
Proof.
  intros Hn. revert a. pattern n. apply natlike_ind; [done| |done]. intros m Hm IH a.
  rewrite !Z.pow_succ_r, wrap_mul_l, <- (wrap_mul a (wrap a ^ m)), IH, wrap_mul by done. done.
Qed.

Lemma exp_word_spec n w r b : 0 <= w ->
  wrap (fst (exp_word n w r b)) = wrap (r * b ^ (w mod 2 ^ Z.of_nat n))
  /\ wrap (snd (exp_word n w r b)) = wrap (b ^ (2 ^ Z.of_nat n))
  /\ (word256 r -> word256 (fst (exp_word n w r b))).
Proof.
  revert w r b. induction n as [|n IH]; intros w r b Hw; cbn [exp_word fst snd].
  { rewrite Z.mod_1_r, Z.pow_0_r, Z.mul_1_r, Z.pow_1_r. done. }
  rewrite !U256_wrap. change (Z.land w 1) with (Z.land w (Z.ones 1)). rewrite Z.land_ones by lia. change (2 ^ 1) with 2.
  rewrite Z.shiftr_div_pow2 by lia. change (2 ^ 1) with 2.
  set (r' := if w mod 2 =? 1 then wrap (r * b) else r). destruct (IH (w / 2) r' (wrap (b * b))) as (H1 & H2 & H3); [apply Z.div_pos; lia|].
  assert (b ^ 2 = b * b) as Hb by (rewrite Z.pow_2_r; done).
  assert (2 ^ Z.of_nat (S n) = 2 * 2 ^ Z.of_nat n) as Hp by (rewrite <- Z.pow_succ_r by lia; f_equal; lia).
  assert (0 < 2 ^ Z.of_nat n) by (apply Z.pow_pos_nonneg; lia).
  pose proof (Z.mod_pos_bound (w / 2) (2 ^ Z.of_nat n)) as Hm.
  assert (wrap r' = wrap (r * b ^ (w mod 2))) as Hr.
  { unfold r'. pose proof (Z.mod_pos_bound w 2). destruct (Z.eqb_spec (w mod 2) 1) as [->|].
    - rewrite Z.pow_1_r. apply wrap_id, wrap_word.
    - assert (w mod 2 = 0) as -> by lia. rewrite Z.pow_0_r, Z.mul_1_r. done. }
  split_and!.
  - rewrite H1, <- wrap_mul, Hr, wrap_pow, wrap_mul by lia. f_equal. rewrite <- Z.mul_assoc. f_equal.
    rewrite Hp, Z.rem_mul_r by lia. rewrite <- Hb, <- Z.pow_mul_r, <- Z.pow_add_r; try lia. f_equal.
    pose proof (Z.mod_pos_bound w 2). lia.
  - rewrite H2, wrap_pow by lia. rewrite <- Hb, <- Z.pow_mul_r by lia. rewrite Hp. done.
  - intros Hw'. apply H3. unfold r'. destruct (_ =? 1); [apply wrap_word|done].
Qed.

Lemma exp_words_spec n x r b : 0 <= x ->
  let '(r', b') := foldl (fun '(result, base) word => exp_word wordBits word result base) (r, b) (words n x) in
  wrap r' = wrap (r * b ^ (x mod 2 ^ (64 * Z.of_nat n))) /\ (word256 r -> word256 r').
Proof.
  revert x r b. induction n as [|n IH]; intros x r b Hx; cbn [words foldl].
  { rewrite Z.mul_0_r, Z.pow_0_r, Z.mod_1_r, Z.pow_0_r, Z.mul_1_r. done. }
  assert (0 < 2 ^ 64) as H64 by done. pose proof (Z.mod_pos_bound x (2 ^ 64) H64) as [Hm _].
  assert (0 < 2 ^ (64 * Z.of_nat n)) as Hn by (apply Z.pow_pos_nonneg; lia).
  pose proof (Z.mod_pos_bound (x / 2 ^ 64) (2 ^ (64 * Z.of_nat n)) Hn) as [Hk _].
  assert (2 ^ (64 * Z.of_nat (S n)) = 2 ^ 64 * 2 ^ (64 * Z.of_nat n)) as -> by (rewrite <- Z.pow_add_r by lia; f_equal; lia).
  assert (0 <= x / 2 ^ 64) as Hx' by (apply Z.div_pos; done).
  rewrite (Z.rem_mul_r x (2 ^ 64)) by (done || lia).
  destruct (exp_word_spec wordBits (x mod 2 ^ 64) r b Hm) as (H1 & H2 & H3).
  destruct (exp_word wordBits (x mod 2 ^ 64) r b) as [r1 b1]. cbn [fst snd] in *. change (Z.of_nat wordBits) with 64 in *.
  rewrite (Zmod_mod x (2 ^ 64)) in H1. specialize (IH (x / 2 ^ 64) r1 b1 Hx').
  destruct (foldl _ _ _) as [r' b']. destruct IH as [I1 I2]. split; [|tauto].
  rewrite I1, <- wrap_mul, H1, <- (wrap_pow b1), H2, (wrap_pow (b ^ _)), wrap_mul by done. f_equal. rewrite <- Z.mul_assoc.
  rewrite Z.pow_add_r, (Z.pow_mul_r b) by first [assumption|apply Z.lt_le_incl; exact H64|apply Z.mul_nonneg_nonneg; [apply Z.lt_le_incl; exact H64|exact Hk]].
  done.
Qed.

Lemma big_Exp_spec x y : 0 <= y -> big_Exp x y = wrap (x ^ y).
Proof.
  intros Hy. unfold big_Exp, big_Bits. rewrite Z.abs_eq by done. set (n := Z.to_nat _).
  pose proof (exp_words_spec n y 1 x Hy) as H. destruct (foldl _ _ _) as [r b]. destruct H as [H1 H2]. cbn [fst].
  rewrite <- (wrap_id r) by (apply H2; unfold word256; lia). rewrite H1, Z.mul_1_l. do 2 f_equal.
  apply Z.mod_small. split; [done|]. eapply Z.lt_le_trans; [apply (BitLen_lt y Hy)|]. apply Z.pow_le_mono_r; [lia|].
  unfold n. pose proof (Z.div_mod (BitLen y + 63) 64). pose proof (Z.mod_pos_bound (BitLen y + 63) 64). lia.
Qed.

(** Bytes. *)
Lemma byte_of_word x n : 0 <= x ->
  byte (Z.shiftr (x / 2 ^ (64 * Z.of_nat (n / 8)) mod 2 ^ 64) (8 * Z.of_nat (n mod 8))) = x / 2 ^ (8 * Z.of_nat n) mod 256.
Proof.
  intros Hx. unfold byte. pose proof (Nat.div_mod_eq n 8) as Hn. pose proof (Nat.mod_upper_bound n 8).
  set (q := (n / 8)%nat) in *. set (r := (n mod 8)%nat) in *.
  rewrite Z.shiftr_div_pow2 by lia. change 256 with (2 ^ 8).
  replace (2 ^ 64) with (2 ^ (8 * Z.of_nat r) * 2 ^ (64 - 8 * Z.of_nat r)) by (rewrite <- Z.pow_add_r by lia; f_equal; lia).
  apply Z.bits_inj'. intros k Hk. destruct (Z.lt_ge_cases k 8).
  - rewrite !Z.mod_pow2_bits_low, !Z.div_pow2_bits by lia.
    rewrite <- Z.pow_add_r by lia. rewrite Z.mod_pow2_bits_low, Z.div_pow2_bits by lia. f_equal. lia.
  - rewrite !Z.mod_pow2_bits_high by lia. done.
Qed.

Lemma bigEndianByteAt_spec x n : 0 <= x -> bigEndianByteAt x n = x / 2 ^ (8 * Z.of_nat n) mod 256.
Proof.
  intros Hx. rewrite <- byte_of_word by done. unfold bigEndianByteAt, wordBytes. rewrite <- big_Bits_lookup by done.
  destruct (big_Bits x !! _); [done|]. cbn [default]. rewrite Z.shiftr_0_l. done.
Qed.

Lemma Byte_spec x i : 0 <= x -> 0 <= i < 32 -> Byte x 32 (Z.to_nat i) = x / 2 ^ (8 * (31 - i)) mod 256.
Proof.
  intros Hx Hi. unfold Byte. destruct (Nat.leb_spec 32 (Z.to_nat i)); [lia|]. rewrite bigEndianByteAt_spec by done.
  do 3 f_equal. lia.
Qed.

Lemma word_bytes_lookup n d k : 0 <= d -> word_bytes n d !! k =
  if decide (k < n)%nat then Some (byte (Z.shiftr d (8 * Z.of_nat k))) else None.
Proof.
  revert d k. induction n as [|n IH]; intros d k Hd; cbn [word_bytes]; [done|]. destruct k as [|k]; cbn [lookup].
  - rewrite decide_True by lia. done.
  - change (word_bytes n (Z.shiftr d 8) !! k = if decide (S k < S n)%nat
      then Some (byte (Z.shiftr d (8 * Z.of_nat (S k)))) else None).
    rewrite IH by (apply Z.shiftr_nonneg; done). rewrite Z.shiftr_shiftr by lia.
    replace (8 + 8 * Z.of_nat k) with (8 * Z.of_nat (S k)) by lia. repeat case_decide; done || lia.
Qed.

Lemma word_bytes_length n d : length (word_bytes n d) = n.
Proof. revert d. induction n; intros; cbn; auto. Qed.

(** Lists of eight bytes each. *)
Lemma mjoin_lookup {A} (l : list (list A)) m k : m <> 0%nat -> Forall (fun x => length x = m) l ->
  mjoin l !! k = x ← l !! (k / m)%nat; x !! (k mod m)%nat.
Proof.
  intros Hm. revert k. induction l as [|x l IH]; intros k H; [done|]. apply Forall_cons in H as [Hx H].
  change (mjoin (x :: l)) with (x ++ mjoin l). destruct (decide (k < m)%nat) as [Hk|Hk].
  - rewrite lookup_app_l, Nat.div_small, Nat.mod_small by lia. done.
  - rewrite lookup_app_r, IH by (done || lia). rewrite Hx.
    assert (k = (k - m) + 1 * m)%nat as E by lia.
    assert (k / m = S ((k - m) / m))%nat as -> by (rewrite E, Nat.div_add, Nat.add_1_r at 1 by done; done).
    assert (k mod m = (k - m) mod m)%nat as -> by (rewrite E, Nat.Div0.mod_add at 1; done). done.
Qed.

Lemma bits_bytes_lookup x k : 0 <= x ->
  default 0 (mjoin (word_bytes wordBytes <$> big_Bits x) !! k) = x / 2 ^ (8 * Z.of_nat k) mod 256.
Proof.
  intros Hx. rewrite (mjoin_lookup _ 8) by (done || (apply Forall_fmap, Forall_forall; intros; apply word_bytes_length)).
  rewrite list_lookup_fmap, <- byte_of_word, <- big_Bits_lookup by done.
  pose proof (Nat.mod_upper_bound k 8). destruct (big_Bits x !! _) as [w|] eqn:Hw.
  - change (default 0 (word_bytes 8 w !! (k mod 8)%nat) = byte (Z.shiftr w (8 * Z.of_nat (k mod 8)))).
    rewrite word_bytes_lookup, decide_True; [done|lia|].
    pose proof (proj1 (Forall_lookup _ _) (big_Bits_nonneg x Hx) _ _ Hw). cbn in *. lia.
  - cbn [default]. rewrite Z.shiftr_0_l. done.
Qed.

Lemma fill_length buf i ds : length (fill buf i ds) = length buf.
Proof. revert buf i. induction ds as [|d ds IH]; intros buf [|i]; cbn; rewrite ?IH, ?length_insert; done. Qed.

Lemma fill_lookup buf i ds j : (i <= length buf)%nat ->
  fill buf i ds !! j =
  if decide (j < i)%nat then match ds !! (i - 1 - j)%nat with Some d => Some d | None => buf !! j end else buf !! j.
Proof.
  revert buf i. induction ds as [|d ds IH]; intros buf [|i] Hi; cbn [fill]; try (repeat case_decide; done || lia).
  rewrite IH by (rewrite length_insert; lia). destruct (decide (j < S i)%nat) as [Hj|Hj].
  - destruct (decide (j = i)) as [->|Hn].
    + rewrite decide_False, list_lookup_insert_eq by lia. replace (S i - 1 - i)%nat with 0%nat by lia. done.
    + rewrite decide_True, list_lookup_insert_ne by lia. replace (S i - 1 - j)%nat with (S (i - 1 - j))%nat by lia. done.
  - rewrite decide_False, list_lookup_insert_ne by lia. done.
Qed.

Lemma be_lookup n x j : be n x !! j = if decide (j < n)%nat then Some (byte (Z.shiftr x (8 * Z.of_nat (n - 1 - j)))) else None.
Proof.
  revert j. induction n as [|n IH]; intros j; cbn [be]; [done|]. destruct j as [|j]; cbn [lookup].
  - rewrite decide_True by lia. replace (S n - 1 - 0)%nat with n by lia. done.
  - change (be n x !! j = if decide (S j < S n)%nat then Some (byte (Z.shiftr x (8 * Z.of_nat (S n - 1 - S j)))) else None).
    rewrite IH. replace (S n - 1 - S j)%nat with (n - 1 - j)%nat by lia. repeat case_decide; done || lia.
Qed.

(** Into a buffer of zeros ReadBits writes the number in big-endian order. *)
Lemma ReadBits_zero n x : 0 <= x -> ReadBits x (replicate n 0) = be n x.
Proof.
  intros Hx. apply list_eq. intros j. unfold ReadBits. rewrite length_replicate, fill_lookup, be_lookup
    by (rewrite length_replicate; done). pose proof (bits_bytes_lookup x (n - 1 - j) Hx) as H. case_decide as Hj.
  - unfold byte. rewrite Z.shiftr_div_pow2, <- H by lia. destruct (mjoin _ !! _); [done|].
    rewrite lookup_replicate_2 by done. done.
  - apply lookup_ge_None. rewrite length_replicate. lia.
Qed.

(** Bitwise operations. *)
Lemma word_bits x : word256 x <-> 0 <= x /\ Z.shiftr x 256 = 0.
Proof.
  unfold word256. rewrite Z.shiftr_div_pow2 by lia. split; intros [H1 H2]; (split; [done|]).
  - apply Z.div_small. done.
  - apply Z.div_small_iff in H2; lia.
Qed.

Lemma land_word x y : word256 x -> word256 y -> word256 (Z.land x y).
Proof.
  rewrite !word_bits. intros [H1 H2] [H3 H4]. rewrite Z.shiftr_land, H2. split; [|done]. apply Z.land_nonneg. tauto.
Qed.
Lemma lor_word x y : word256 x -> word256 y -> word256 (Z.lor x y).
Proof.
  rewrite !word_bits. intros [H1 H2] [H3 H4]. rewrite Z.shiftr_lor, H2, H4. split; [|done]. apply Z.lor_nonneg. tauto.
Qed.
Lemma lxor_word x y : word256 x -> word256 y -> word256 (Z.lxor x y).
Proof.
  rewrite !word_bits. intros [H1 H2] [H3 H4]. rewrite Z.shiftr_lxor, H2, H4. split; [|done]. apply Z.lxor_nonneg. tauto.
Qed.

Lemma lor_lnot_ones x n : 0 <= n -> Z.lor x (Z.lnot (Z.ones n)) = x mod 2 ^ n - 2 ^ n.
Proof.
  intros Hn. rewrite <- Z.land_ones by done.
  assert (Z.lor x (Z.lnot (Z.ones n)) = Z.lor (Z.land x (Z.ones n)) (Z.lnot (Z.ones n))) as ->.
  { apply Z.bits_inj'. intros k Hk. rewrite !Z.lor_spec, Z.land_spec, Z.lnot_spec by done.
    destruct (Z.testbit (Z.ones n) k); rewrite ?andb_true_r, ?andb_false_r, ?orb_false_r, ?orb_true_r; done. }
  rewrite <- Z.lxor_lor, <- Z.add_nocarry_lxor.
  - unfold Z.lnot. rewrite Z.ones_equiv. lia.
  - rewrite <- Z.land_assoc, Z.land_lnot_diag. apply Z.land_0_r.
  - rewrite <- Z.land_assoc, Z.land_lnot_diag. apply Z.land_0_r.
Qed.

Lemma sign_extend_spec k x : 0 <= k < 31 ->
  let bit := k * 8 + 7 in
  (if Z.testbit x bit then Z.lor x (Z.lnot (Z.shiftl 1 bit - 1)) else Z.land x (Z.shiftl 1 bit - 1))
  = signed (8 * (k + 1)) x.
Proof.
  intros Hk bit. rewrite Z.shiftl_mul_pow2, Z.mul_1_l by lia.
  replace (2 ^ bit - 1) with (Z.ones bit) by (rewrite Z.ones_equiv; lia).
  assert (0 < 2 ^ bit) as Hp by (apply Z.pow_pos_nonneg; lia).
  assert (x mod 2 ^ (8 * (k + 1)) = x mod 2 ^ bit + 2 ^ bit * (if Z.testbit x bit then 1 else 0)) as E.
  { replace (8 * (k + 1)) with (bit + 1) by lia. rewrite Z.pow_add_r, Z.rem_mul_r by lia. do 2 f_equal.
    change (2 ^ 1) with 2. rewrite Zmod_odd, <- Z.bit0_odd, Z.div_pow2_bits by lia. done. }
  unfold signed. rewrite E. replace (8 * (k + 1) - 1) with bit by lia.
  replace (2 ^ (8 * (k + 1))) with (2 * 2 ^ bit) by (rewrite <- Z.pow_succ_r by lia; f_equal; lia).
  pose proof (Z.mod_pos_bound x (2 ^ bit) Hp). destruct (Z.testbit x bit).
  - rewrite lor_lnot_ones by lia. destruct (Z.ltb_spec (x mod 2 ^ bit + 2 ^ bit * 1) (2 ^ bit)); lia.
  - rewrite Z.land_ones by lia. destruct (Z.ltb_spec (x mod 2 ^ bit + 2 ^ bit * 0) (2 ^ bit)); lia.
Qed.

Lemma shl_spec n x : word256 n -> word256 x -> (if 256 <=? n then 0 else wrap (Z.shiftl x n)) = wrap (x * 2 ^ n).
Proof.
  intros [Hn _] Hx. destruct (Z.leb_spec 256 n).
  - unfold wrap. replace n with (n - 256 + 256) by lia. rewrite Z.pow_add_r, Z.mul_assoc, Z_mod_mult by lia. done.
  - rewrite Z.shiftl_mul_pow2 by done. done.
Qed.

Lemma shr_spec n x : word256 n -> word256 x -> (if 256 <=? n then 0 else wrap (Z.shiftr x n)) = x / 2 ^ n /\ word256 (x / 2 ^ n).
Proof.
  intros [Hn _] [H1 H2]. assert (word256 (x / 2 ^ n)) as Hw.
  { split; [apply Z.div_pos; [done|apply Z.pow_pos_nonneg; lia]|].
    apply Z.le_lt_trans with x; [|done]. apply Z.div_le_upper_bound; [apply Z.pow_pos_nonneg; lia|].
    assert (0 < 2 ^ n) by (apply Z.pow_pos_nonneg; lia). nia. }
  split; [|done]. destruct (Z.leb_spec 256 n).
  - symmetry. apply Z.div_small. split; [done|]. pose proof (Z.pow_le_mono_r 2 256 n). lia.
  - rewrite Z.shiftr_div_pow2 by done. apply wrap_id. done.
Qed.

Lemma sar_spec n x : word256 n -> - 2 ^ 255 <= x < 2 ^ 255 ->
  (if 256 <=? n then wrap (if 0 <=? x then 0 else -1) else wrap (Z.shiftr x n)) = wrap (x / 2 ^ n).
Proof.
  intros [Hn _] Hx. destruct (Z.leb_spec 256 n).
  - f_equal. pose proof (Z.pow_le_mono_r 2 256 n). destruct (Z.leb_spec 0 x).
    + symmetry. apply Z.div_small. lia.
    + apply (Z.div_unique_pos x (2 ^ n) (-1) (x + 2 ^ n)); lia.
  - rewrite Z.shiftr_div_pow2 by done. done.
Qed.

Lemma sdiv_spec x y : word256 x -> word256 y ->
  (if (Z.sgn (sint y) =? 0) || (Z.sgn (sint x) =? 0) then 0
   else wrap (if Z.sgn (sint x) =? Z.sgn (sint y) then big_Div (Z.abs (sint x)) (Z.abs (sint y))
              else - big_Div (Z.abs (sint x)) (Z.abs (sint y))))
  = if y =? 0 then 0 else wrap (Z.quot (sint x) (sint y)).
Proof.
  intros Hx Hy. pose proof (sint_zero x Hx) as Zx. pose proof (sint_zero y Hy) as Zy.
  destruct (Z.eqb_spec y 0) as [E|E]; [rewrite (proj2 Zy E); done|].
  destruct (Z.eqb_spec (Z.sgn (sint y)) 0) as [Ey|_]; [rewrite Z.sgn_null_iff in Ey; exfalso; apply E, Zy, Ey|]. cbn [orb].
  destruct (Z.eqb_spec (Z.sgn (sint x)) 0) as [Ex|Ex].
  { rewrite Z.sgn_null_iff in Ex. rewrite Ex, Z.quot_0_l by (intros H; apply E, Zy, H). done. }
  assert (sint x <> 0) as Nx by (intros H; rewrite H in Ex; done). assert (sint y <> 0) as Ny by (intros H; apply E, Zy, H).
  rewrite quot_abs by done. unfold big_Div. rewrite Z.abs_idemp, (Z.sgn_pos (Z.abs _)), Z.mul_1_l by lia. done.
Qed.

Lemma smod_spec x y : word256 x -> word256 y ->
  (if sint y =? 0 then 0
   else wrap (if sint x <? 0 then - big_Mod (Z.abs (sint x)) (Z.abs (sint y)) else big_Mod (Z.abs (sint x)) (Z.abs (sint y))))
  = if y =? 0 then 0 else wrap (Z.rem (sint x) (sint y)).
Proof.
  intros Hx Hy. pose proof (sint_zero y Hy) as Zy. destruct (Z.eqb_spec y 0) as [E|E]; [rewrite (proj2 Zy E); done|].
  destruct (Z.eqb_spec (sint y) 0) as [Ey|Ey]; [exfalso; apply E, Zy, Ey|]. rewrite rem_abs by done. unfold big_Mod.
  rewrite Z.abs_idemp. done.
Qed.

Lemma slt_spec x y : word256 x -> word256 y ->
  (if (tt255 <=? x) && (y <? tt255) then 1 else if (x <? tt255) && (tt255 <=? y) then 0 else flag (x <? y))
  = flag (sint x <? sint y).
Proof.
  intros Hx Hy. rewrite <- !S256_sint by done. unfold word256, S256, tt256, tt255, flag in *.
  repeat match goal with |- context [?a <? ?b] => destruct (Z.ltb_spec a b) | |- context [?a <=? ?b] => destruct (Z.leb_spec a b) end;
    cbn [andb]; lia.
Qed.

Lemma sgt_spec x y : word256 x -> word256 y ->
  (if (tt255 <=? x) && (y <? tt255) then 0 else if (x <? tt255) && (tt255 <=? y) then 1 else flag (y <? x))
  = flag (sint y <? sint x).
Proof.
  intros Hx Hy. rewrite <- !S256_sint by done. unfold word256, S256, tt256, tt255, flag in *.
  repeat match goal with |- context [?a <? ?b] => destruct (Z.ltb_spec a b) | |- context [?a <=? ?b] => destruct (Z.leb_spec a b) end;
    cbn [andb]; lia.
Qed.

Lemma div_word x y : word256 x -> 0 < y -> word256 (x / y).
Proof.
  intros [H1 H2] Hy. split; [apply Z.div_pos; done|]. apply Z.le_lt_trans with x; [|done].
  apply Z.div_le_upper_bound; [done|]. nia.
Qed.
Lemma mod_word x y : 0 < y -> y < 2 ^ 256 -> word256 (x mod y).
Proof. intros H1 H2. pose proof (Z.mod_pos_bound x y H1). unfold word256. lia. Qed.

Lemma div_spec x y (st : Stack) : word256 x -> word256 y ->
  Ret ((if y =? 0 then 0 else wrap (big_Div x y)) :: st) = Ret ((if y =? 0 then 0 else x / y) :: st)
  /\ word256 (if y =? 0 then 0 else x / y).
Proof.
  intros Hx Hy. destruct (Z.eqb_spec y 0); [split; [done|apply (flag_word false)]|].
  assert (0 < y) as Hp by (unfold word256 in *; lia). pose proof (div_word x y Hx Hp) as Hw. unfold big_Div.
  rewrite Z.sgn_pos, Z.abs_eq, Z.mul_1_l, wrap_id by (done || lia). done.
Qed.

Lemma rem_spec x y (st : Stack) : word256 y ->
  Ret ((if 0 <? y then wrap (big_Mod x y) else 0) :: st) = Ret ((if y =? 0 then 0 else x mod y) :: st)
  /\ Ret ((if y =? 0 then 0 else wrap (big_Mod x y)) :: st) = Ret ((if y =? 0 then 0 else x mod y) :: st)
  /\ word256 (if y =? 0 then 0 else x mod y).
Proof.
  intros [H1 H2]. destruct (Z.eqb_spec y 0) as [->|]; [split_and!; [done|done|apply (flag_word false)]|].
  assert (0 < y) as Hp by lia. pose proof (mod_word x y Hp H2) as Hw. unfold big_Mod.
  rewrite (proj2 (Z.ltb_lt 0 y) Hp), Z.abs_eq, wrap_id by (done || lia). done.
Qed.

(** C38: the instructions compute on 256-bit words what they are meant to.
    With words on the stack, each of them takes its operands and leaves the
    sum, difference, product or power modulo 2^256, the quotient and the
    remainder (zero for a divisor of zero), their signed forms in two's
    complement rounded towards zero, the signed and unsigned comparisons, the
    bits and bytes, and the shifts, of which the arithmetic one rounds down;
    and the result is a word again. *)
Theorem arithmetic_is_modular :
  Forall (fun '(op, f) => forall x st, word256 x -> op (x :: st) = Ret (f x :: st) /\ word256 (f x)) unaries
  /\ Forall (fun '(op, f) => forall x y st, word256 x -> word256 y -> op (x :: y :: st) = Ret (f x y :: st) /\ word256 (f x y))
       binaries
  /\ Forall (fun '(op, f) => forall x y z st, word256 x -> word256 y -> word256 z ->
       op (x :: y :: z :: st) = Ret (f x y z :: st) /\ word256 (f x y z)) ternaries.
Proof.
  split_and!; repeat apply Forall_cons_2; try apply Forall_nil_2; intros;
    cbn [opNot opIszero opAdd opSub opMul opDiv opSdiv opMod opSmod opExp opSignExtend opLt opGt opSlt opSgt opEq opAnd opOr
      opXor opByte opSHL opSHR opSAR opAddmod opMulmod unary binary ternary]; rewrite ?U256_wrap, ?S256_sint by done.
  - assert (word256 (2 ^ 256 - 1 - x)) as Hw by (unfold word256 in *; lia). split; [|done]. do 2 f_equal.
    unfold Z.lnot, wrap. symmetry. apply (Z.mod_unique_pos _ _ (-1)); [exact Hw|lia].
  - split; [|apply flag_word]. do 3 f_equal. unfold word256 in *. lia.
  - auto using wrap_word.
  - auto using wrap_word.
  - auto using wrap_word.
  - apply div_spec; done.
  - rewrite sdiv_spec by done. split; [done|]. destruct (y =? 0); [by apply (flag_word false)|apply wrap_word].
  - apply (rem_spec x y); done.
  - rewrite smod_spec by done. split; [done|]. destruct (y =? 0); [by apply (flag_word false)|apply wrap_word].
  - rewrite big_Exp_spec by (unfold word256 in *; lia). auto using wrap_word.
  - destruct (Z.ltb_spec x 31); [|done]. rewrite sign_extend_spec by (unfold word256 in *; lia).
    auto using wrap_word.
  - auto using flag_word.
  - auto using flag_word.
  - rewrite slt_spec by done. auto using flag_word.
  - rewrite sgt_spec by done. auto using flag_word.
  - auto using flag_word.
  - auto using land_word.
  - auto using lor_word.
  - auto using lxor_word.
  - destruct (Z.ltb_spec x 32); [|by split; [|apply (flag_word false)]].
    rewrite Byte_spec by (unfold word256 in *; lia). split; [done|]. apply mod_word; lia.
  - rewrite !(wrap_id x), (wrap_id y), shl_spec by done. auto using wrap_word.
  - rewrite !(wrap_id x), (wrap_id y) by done. destruct (shr_spec x y) as [-> W]; done.
  - rewrite !(wrap_id x), sar_spec by (done || apply sint_range; done). auto using wrap_word.
  - destruct (rem_spec (x + y) z st) as (E & _ & W); done.
  - destruct (rem_spec (x * y) z st) as (E & _ & W); done.
Qed.
