(* ===== verification/VmCode.v ===== *)
(** * Code, memory and their costs

    What the interpreter needs besides words: which positions of a code are
    instructions and which are data (chain/core/vm/analysis.go), the byte memory
    (memory.go, common.go) and what its growth costs (gas_table.go). *)
From S2P Require Import Prelude Rlp StateData VmWord.
Local Open Scope Z_scope.

Definition out_of_range {A} : outcome A := Panic "index out of range".

(** ** analysis.go *)
Definition PUSH1 : Z := 96.
Definition PUSH32 : Z := 127.
Definition JUMPDEST : Z := 91.

Abbreviation bitvec := (list Z).

(** [bits[i] |= m] *)
Definition or_at (bits : bitvec) (i : nat) (m : Z) : outcome bitvec :=
  match bits !! i with
  | Some b => Ret (<[i := Z.lor b m]> bits)
  | None => out_of_range
  end.

Definition bitvec_set (bits : bitvec) (pos : nat) : outcome bitvec :=
  or_at bits (pos / 8) (Z.shiftr 128 (Z.of_nat (pos mod 8))).
Definition bitvec_set8 (bits : bitvec) (pos : nat) : outcome bitvec :=
  bits ← or_at bits (pos / 8) (Z.shiftr 255 (Z.of_nat (pos mod 8)));
  or_at bits (pos / 8 + 1) (255 - Z.shiftr 255 (Z.of_nat (pos mod 8))).

Definition codeSegment (bits : bitvec) (pos : nat) : outcome bool :=
  match bits !! (pos / 8)%nat with
  | Some b => Ret (Z.land b (Z.shiftr 128 (Z.of_nat (pos mod 8))) =? 0)
  | None => out_of_range
  end.

(** [for ; numbits > 0; numbits--] *)
Fixpoint mark_bits (numbits : nat) (bits : bitvec) (pc : nat) : outcome (bitvec * nat) :=
  match numbits with
  | O => Ret (bits, pc)
  | S numbits => bits ← bitvec_set bits pc; mark_bits numbits bits (pc + 1)
  end.

(** [for ; numbits >= 8; numbits -= 8] *)
Fixpoint mark_bytes (n : nat) (bits : bitvec) (pc : nat) : outcome (bitvec * nat) :=
  match n with
  | O => Ret (bits, pc)
  | S n => bits ← bitvec_set8 bits pc; mark_bytes n bits (pc + 8)
  end.

Definition mark_data (numbits : nat) (bits : bitvec) (pc : nat) : outcome (bitvec * nat) :=
  r ← mark_bytes (numbits / 8) bits pc;
  let '(bits, pc) := r in
  mark_bits (numbits mod 8) bits pc.

(** The bytes of data after an instruction. *)
Definition push_size (op : Z) : nat :=
  if (PUSH1 <=? op) && (op <=? PUSH32) then Z.to_nat (op - PUSH1 + 1) else 0.

Fixpoint bitmap_loop (fuel : nat) (code : bytes) (bits : bitvec) (pc : nat) : outcome bitvec :=
  match fuel with
  | O => Ret bits
  | S fuel =>
    match code !! pc with
    | None => Ret bits
    | Some op =>
      if (PUSH1 <=? op) && (op <=? PUSH32) then
        r ← mark_data (push_size op) bits (pc + 1);
        let '(bits, pc) := r in
        bitmap_loop fuel code bits pc
      else bitmap_loop fuel code bits (pc + 1)
    end
  end.

(** At most one round per byte. *)
Definition codeBitmap (code : bytes) : outcome bitvec :=
  bitmap_loop (length code) code (replicate (length code / 8 + 1 + 4) 0) 0.

(** destinations.has, whose cache of bitmaps is left out. *)
Definition destinations_has (code : bytes) (dest : Z) : outcome bool :=
  let udest := u64 dest in
  if (63 <=? BitLen dest) || (Z.of_nat (length code) <=? udest) then Ret false
  else
    m ← codeBitmap code;
    match code !! Z.to_nat udest with
    | None => out_of_range
    | Some op => if op =? JUMPDEST then codeSegment m (Z.to_nat udest) else Ret false
    end.

(** ** Memory *)
Record Memory := { store : bytes; lastGasCost : Z }.
Definition NewMemory : Memory := {| store := []; lastGasCost := 0 |}.
Definition mem_Len (m : Memory) : Z := Z.of_nat (length (store m)).
Definition mem_with (m : Memory) (st : bytes) : Memory := {| store := st; lastGasCost := lastGasCost m |}.

(** [copy(dst[off:off+n], src)] *)
Definition copy_into (dst : bytes) (off n : nat) (src : bytes) : bytes :=
  let src := take n src in
  take off dst ++ src ++ drop (off + length src) dst.

(** [store[offset:end]] for 64-bit offsets. *)
Definition in_bounds (st : bytes) (lo hi : Z) : bool := (0 <=? lo) && (lo <=? hi) && (hi <=? Z.of_nat (length st)).

Definition mem_Set (m : Memory) (offset size : Z) (value : bytes) : outcome Memory :=
  if size =? 0 then Ret m
  else if mem_Len m <? u64 (offset + size) then Panic "invalid memory: store empty"
  else if in_bounds (store m) offset (u64 (offset + size)) then
    Ret (mem_with m (copy_into (store m) (Z.to_nat offset) (Z.to_nat size) value))
  else out_of_range.

Definition mem_Set32 (m : Memory) (offset val : Z) : outcome Memory :=
  if mem_Len m <? u64 (offset + 32) then Panic "invalid memory: store empty"
  else if in_bounds (store m) offset (u64 (offset + 32)) then
    Ret (mem_with m (copy_into (store m) (Z.to_nat offset) 32 (ReadBits val (replicate 32 0))))
  else out_of_range.

Definition mem_Resize (m : Memory) (size : Z) : Memory :=
  if mem_Len m <? size then mem_with m (store m ++ replicate (Z.to_nat (size - mem_Len m)) 0) else m.

Definition mem_GetPtr (m : Memory) (offset size : Z) : outcome bytes :=
  if size =? 0 then Ret []
  else if offset <? mem_Len m then
    if in_bounds (store m) offset (offset + size) then Ret (take (Z.to_nat size) (drop (Z.to_nat offset) (store m)))
    else out_of_range
  else Ret [].

(** A copy of what GetPtr points to. *)
Definition mem_Get (m : Memory) (offset size : Z) : outcome bytes := mem_GetPtr m offset size.

(** ** common.go *)
Definition calcMemSize (off l : Z) : Z := if l =? 0 then 0 else off + l.

Definition RightPadBytes (b : bytes) (l : nat) : bytes := b ++ replicate (l - length b) 0.

Definition getDataBig (data : bytes) (start size : Z) : bytes :=
  let dlen := Z.of_nat (length data) in
  let s := Z.min start dlen in
  let e := Z.min (s + size) dlen in
  RightPadBytes (take (Z.to_nat (e - s)) (drop (Z.to_nat s) data)) (Z.to_nat (u64 size)).

Definition bigUint64 (v : Z) : Z * bool := (u64 v, 64 <? BitLen v).

Definition toWordSize (size : Z) : Z :=
  if 2 ^ 64 - 1 - 31 <? size then (2 ^ 64 - 1) / 32 + 1 else (size + 31) / 32.

(** math.SafeAdd and SafeMul: the wrapped result, and whether it overflowed. *)
Definition SafeAdd (x y : Z) : Z * bool := (u64 (x + y), 2 ^ 64 - 1 - x <? y).
Definition SafeMul (x y : Z) : Z * bool :=
  if (x =? 0) || (y =? 0) then (0, false) else (u64 (x * y), (2 ^ 64 - 1) / x <? y).

(** ** gas_table.go: the cost of memory *)
Definition errGasUintOverflow : string := "gas uint64 overflow".
Definition MemoryGas : Z := 3.
Definition QuadCoeffDiv : Z := 512.

(** The fee, and the memory with the cost of all of it. *)
Definition memoryGasCost (mem : Memory) (newMemSize : Z) : Memory * result string Z :=
  if newMemSize =? 0 then (mem, Ok 0)
  else if 0xffffffffe0 <? newMemSize then (mem, Err errGasUintOverflow)
  else
    let newMemSizeWords := toWordSize newMemSize in
    let newMemSize := u64 (newMemSizeWords * 32) in
    if mem_Len mem <? newMemSize then
      let square := u64 (newMemSizeWords * newMemSizeWords) in
      let linCoef := u64 (newMemSizeWords * MemoryGas) in
      let quadCoef := square / QuadCoeffDiv in
      let newTotalFee := u64 (linCoef + quadCoef) in
      ({| store := store mem; lastGasCost := newTotalFee |}, Ok (u64 (newTotalFee - lastGasCost mem)))
    else (mem, Ok 0).

(** ** Which positions are instructions *)
Inductive instruction_at (code : bytes) : nat -> Prop :=
  | at_start : instruction_at code 0
  | at_next pc op : instruction_at code pc -> code !! pc = Some op -> instruction_at code (pc + 1 + push_size op).

(** The bit for position [i]. *)
Definition bit_of (bits : bitvec) (i : nat) : bool :=
  match bits !! (i / 8)%nat with
  | Some b => Z.testbit b (7 - Z.of_nat (i mod 8))
  | None => false
  end.

Lemma or_at_spec bits k m : (k < length bits)%nat -> exists bits', or_at bits k m = Ret bits' /\ length bits' = length bits
  /\ forall i, bit_of bits' i = bit_of bits i || (bool_decide (i / 8 = k)%nat && Z.testbit m (7 - Z.of_nat (i mod 8))).
Proof.
  intros Hk. unfold or_at. destruct (lookup_lt_is_Some_2 bits k Hk) as [b Hb]. rewrite Hb. eexists. split; [reflexivity|].
  rewrite length_insert. split; [done|]. intros i. unfold bit_of. case_bool_decide as E.
  - rewrite E, list_lookup_insert_eq, Hb, Z.lor_spec by done. done.
  - rewrite list_lookup_insert_ne by done. rewrite orb_false_r. done.
Qed.

Lemma testbit_shift8 c k j : 0 <= c < 256 -> (k < 8)%nat -> (j < 8)%nat ->
  Z.testbit (Z.shiftr c (Z.of_nat k)) (7 - Z.of_nat j) = Z.testbit c (7 - Z.of_nat j + Z.of_nat k).
Proof. intros. rewrite Z.shiftr_spec by lia. done. Qed.

Lemma bit_128 n : 0 <= n -> Z.testbit 128 n = bool_decide (n = 7).
Proof. intros Hn. change 128 with (2 ^ 7). rewrite Z.pow2_bits_eqb by lia. case_bool_decide; lia. Qed.
Lemma bit_255 n : 0 <= n -> Z.testbit 255 n = bool_decide (n < 8).
Proof.
  intros Hn. change 255 with (Z.ones 8). rewrite Z.testbit_ones by lia. case_bool_decide; lia.
Qed.

Lemma same_place i j : (i / 8 = j / 8 -> i mod 8 = j mod 8 -> i = j)%nat.
Proof. intros E1 E2. rewrite (Nat.div_mod_eq i 8), (Nat.div_mod_eq j 8). congruence. Qed.

Lemma set_spec bits pos : (pos / 8 < length bits)%nat -> exists bits', bitvec_set bits pos = Ret bits'
  /\ length bits' = length bits /\ forall i, bit_of bits' i = bit_of bits i || bool_decide (i = pos).
Proof.
  intros Hk. destruct (or_at_spec bits (pos / 8) (Z.shiftr 128 (Z.of_nat (pos mod 8))) Hk) as (bits' & E & Hl & Hb).
  exists bits'. split; [exact E|]. split; [done|]. intros i. rewrite Hb. f_equal.
  pose proof (Nat.mod_upper_bound i 8). pose proof (Nat.mod_upper_bound pos 8).
  rewrite testbit_shift8, bit_128 by lia. pose proof (same_place i pos). repeat case_bool_decide; subst; cbn; lia || (exfalso; lia) || auto.
Qed.

Lemma complement_bit k j : (k < 8)%nat -> (j < 8)%nat ->
  Z.testbit (255 - Z.shiftr 255 (Z.of_nat k)) (7 - Z.of_nat j) = bool_decide (j < k)%nat.
Proof.
  intros Hk Hj. do 8 (destruct k as [|k]; [do 8 (destruct j as [|j]; [done|]); lia|]). lia.
Qed.

Lemma set8_spec bits pos : (pos / 8 + 1 < length bits)%nat -> exists bits', bitvec_set8 bits pos = Ret bits'
  /\ length bits' = length bits /\ forall i, bit_of bits' i = bit_of bits i || bool_decide (pos <= i < pos + 8)%nat.
Proof.
  intros Hk. unfold bitvec_set8.
  destruct (or_at_spec bits (pos / 8) (Z.shiftr 255 (Z.of_nat (pos mod 8)))) as (b1 & E1 & L1 & B1); [lia|].
  rewrite E1, outcome_bind_Ret.
  destruct (or_at_spec b1 (pos / 8 + 1) (255 - Z.shiftr 255 (Z.of_nat (pos mod 8)))) as (b2 & E2 & L2 & B2); [lia|].
  exists b2. split; [exact E2|]. split; [congruence|]. intros i. rewrite B2, B1, <- orb_assoc. f_equal.
  pose proof (Nat.mod_upper_bound i 8). pose proof (Nat.mod_upper_bound pos 8).
  rewrite testbit_shift8, bit_255, complement_bit by lia.
  pose proof (Nat.div_mod_eq i 8). pose proof (Nat.div_mod_eq pos 8). repeat case_bool_decide; cbn; lia || (exfalso; lia).
Qed.

(** The bits of [n] positions from [pc] on are set, and no others. *)
Definition marked (n : nat) (bits : bitvec) (pc : nat) (r : outcome (bitvec * nat)) : Prop :=
  exists bits', r = Ret (bits', (pc + n)%nat) /\ length bits' = length bits
    /\ forall i, bit_of bits' i = bit_of bits i || bool_decide (pc <= i < pc + n)%nat.

Lemma mark_bits_spec n bits pc : ((pc + n) / 8 < length bits)%nat -> marked n bits pc (mark_bits n bits pc).
Proof.
  revert bits pc. induction n as [|n IH]; intros bits pc Hk; cbn [mark_bits].
  { exists bits. rewrite Nat.add_0_r. split_and!; try done. intros i. rewrite bool_decide_false by lia. rewrite orb_false_r. done. }
  destruct (set_spec bits pc) as (b1 & E1 & L1 & B1).
  { eapply Nat.le_lt_trans; [|exact Hk]. apply Nat.Div0.div_le_mono. lia. }
  rewrite E1, outcome_bind_Ret. destruct (IH b1 (pc + 1)%nat) as (b2 & -> & L2 & B2).
  { rewrite L1. replace (pc + 1 + n)%nat with (pc + S n)%nat by lia. done. }
  exists b2. replace (pc + 1 + n)%nat with (pc + S n)%nat by lia. split; [done|]. split; [congruence|].
  intros i. rewrite B2, B1, <- orb_assoc. f_equal. repeat case_bool_decide; cbn; lia || (exfalso; lia).
Qed.

Lemma mark_bytes_spec n bits pc : ((pc + 8 * n) / 8 < length bits)%nat -> marked (8 * n) bits pc (mark_bytes n bits pc).
Proof.
  revert bits pc. induction n as [|n IH]; intros bits pc Hk; cbn [mark_bytes].
  { exists bits. rewrite Nat.add_0_r. split_and!; try done. intros i. rewrite bool_decide_false by lia. rewrite orb_false_r. done. }
  destruct (set8_spec bits pc) as (b1 & E1 & L1 & B1).
  { eapply Nat.le_lt_trans; [|exact Hk]. replace (pc / 8 + 1)%nat with ((pc + 1 * 8) / 8)%nat by (rewrite Nat.div_add; lia).
    apply Nat.Div0.div_le_mono. lia. }
  rewrite E1, outcome_bind_Ret. destruct (IH b1 (pc + 8)%nat) as (b2 & -> & L2 & B2).
  { rewrite L1. replace (pc + 8 + 8 * n)%nat with (pc + 8 * S n)%nat by lia. done. }
  exists b2. replace (pc + 8 + 8 * n)%nat with (pc + 8 * S n)%nat by lia. split; [done|]. split; [congruence|].
  intros i. rewrite B2, B1, <- orb_assoc. f_equal. repeat case_bool_decide; cbn; lia || (exfalso; lia).
Qed.

Lemma mark_data_spec n bits pc : ((pc + n) / 8 < length bits)%nat -> marked n bits pc (mark_data n bits pc).
Proof.
  intros Hk. unfold mark_data. pose proof (Nat.div_mod_eq n 8) as En.
  destruct (mark_bytes_spec (n / 8) bits pc) as (b1 & -> & L1 & B1).
  { eapply Nat.le_lt_trans; [|exact Hk]. apply Nat.Div0.div_le_mono. lia. }
  rewrite outcome_bind_Ret. destruct (mark_bits_spec (n mod 8) b1 (pc + 8 * (n / 8))) as (b2 & -> & L2 & B2).
  { rewrite L1. replace (pc + 8 * (n / 8) + n mod 8)%nat with (pc + n)%nat by lia. done. }
  exists b2. split; [do 2 f_equal; lia|]. split; [congruence|].
  intros i. rewrite B2, B1, <- orb_assoc. f_equal. repeat case_bool_decide; cbn; lia || (exfalso; lia).
Qed.

(** The positions of the instructions from one on. *)
Fixpoint positions (fuel : nat) (code : bytes) (pc : nat) : list nat :=
  match fuel with
  | O => []
  | S fuel => match code !! pc with None => [] | Some op => pc :: positions fuel code (pc + 1 + push_size op) end
  end.

Lemma positions_ge fuel code pc i : i ∈ positions fuel code pc -> (pc <= i < length code)%nat.
Proof.
  revert pc. induction fuel as [|fuel IH]; intros pc; cbn [positions]; [intros H; by apply not_elem_of_nil in H|].
  destruct (code !! pc) as [op|] eqn:E; [|intros H; by apply not_elem_of_nil in H].
  apply lookup_lt_Some in E. intros [->|H]%elem_of_cons; [lia|]. apply IH in H. lia.
Qed.

Lemma push_size_le op : (push_size op <= 32)%nat.
Proof. unfold push_size, PUSH1, PUSH32. destruct (_ && _) eqn:E; lia. Qed.

Lemma bitmap_loop_spec fuel code bits pc : (length code <= pc + fuel)%nat -> ((length code + 32) / 8 < length bits)%nat ->
  exists bits', bitmap_loop fuel code bits pc = Ret bits' /\ length bits' = length bits
  /\ forall i, (i < length code)%nat ->
     bit_of bits' i = bit_of bits i || bool_decide (pc <= i /\ i ∉ positions fuel code pc)%nat.
Proof.
  revert bits pc. induction fuel as [|fuel IH]; intros bits pc Hf Hb; cbn [bitmap_loop positions].
  { exists bits. split_and!; try done. intros i Hi. rewrite bool_decide_false by lia. rewrite orb_false_r. done. }
  destruct (code !! pc) as [op|] eqn:E.
  2: { apply lookup_ge_None in E. exists bits. split_and!; try done. intros i Hi. rewrite bool_decide_false by lia.
       rewrite orb_false_r. done. }
  apply lookup_lt_Some in E. pose proof (push_size_le op) as Hp.
  assert (forall i, (i ∉ pc :: positions fuel code (pc + 1 + push_size op)) <->
    i <> pc /\ i ∉ positions fuel code (pc + 1 + push_size op)) as Hc by (intros i; rewrite not_elem_of_cons; tauto).
  destruct ((PUSH1 <=? op) && (op <=? PUSH32)) eqn:Ho.
  - destruct (mark_data_spec (push_size op) bits (pc + 1)) as (b1 & -> & L1 & B1).
    { eapply Nat.le_lt_trans; [|exact Hb]. apply Nat.Div0.div_le_mono. lia. }
    rewrite outcome_bind_Ret. destruct (IH b1 (pc + 1 + push_size op)%nat) as (b2 & -> & L2 & B2); [lia|lia|].
    exists b2. split; [done|]. split; [congruence|]. intros i Hi. rewrite (B2 i Hi), B1, <- orb_assoc. f_equal.
    specialize (Hc i). pose proof (positions_ge fuel code (pc + 1 + push_size op) i) as Hge.
    rewrite <- bool_decide_or. apply bool_decide_ext. rewrite Hc. split; [|destruct (decide (pc + 1 + push_size op <= i)%nat)];
      intuition lia.
  - assert (push_size op = 0%nat) as E0 by (unfold push_size; rewrite Ho; done). rewrite E0, Nat.add_0_r in *.
    destruct (IH bits (pc + 1)%nat) as (b2 & -> & L2 & B2); [lia|lia|].
    exists b2. split; [done|]. split; [done|]. intros i Hi. rewrite (B2 i Hi). f_equal. specialize (Hc i).
    pose proof (positions_ge fuel code (pc + 1) i). apply bool_decide_ext. rewrite Hc.
    split; intros [H1 H2]; (split; [lia|]); try split; try done; try lia; tauto.
Qed.

Lemma positions_sound fuel code pc i : instruction_at code pc -> i ∈ positions fuel code pc -> instruction_at code i.
Proof.
  revert pc. induction fuel as [|fuel IH]; intros pc Hpc; cbn [positions]; [intros H; by apply not_elem_of_nil in H|].
  destruct (code !! pc) as [op|] eqn:E; [|intros H; by apply not_elem_of_nil in H].
  intros [->|H]%elem_of_cons; [done|]. apply (IH _ (at_next _ _ _ Hpc E) H).
Qed.

Lemma positions_next fuel code p pc op : (length code <= p + fuel)%nat -> pc ∈ positions fuel code p ->
  code !! pc = Some op -> (pc + 1 + push_size op < length code)%nat -> (pc + 1 + push_size op)%nat ∈ positions fuel code p.
Proof.
  revert p. induction fuel as [|fuel IH]; intros p Hf; cbn [positions]; [intros H; by apply not_elem_of_nil in H|].
  destruct (code !! p) as [o|] eqn:E; [|intros H; by apply not_elem_of_nil in H].
  intros [->|H]%elem_of_cons Hop Hlt; apply elem_of_cons; right; [|apply IH; [lia|done..]].
  rewrite Hop in E. injection E as ->. destruct fuel as [|fuel]; [lia|]. cbn [positions].
  destruct (lookup_lt_is_Some_2 code _ Hlt) as [o' ->]. apply elem_of_cons. left. done.
Qed.

Lemma positions_instructions code i : i ∈ positions (length code) code 0 <-> instruction_at code i /\ (i < length code)%nat.
Proof.
  split.
  - intros H. split; [apply (positions_sound _ _ _ _ (at_start code) H)|apply positions_ge in H; lia].
  - intros [H Hlt]. induction H as [|pc op H IH E].
    + destruct code as [|op code]; [cbn in Hlt; lia|]. cbn [length positions]. apply elem_of_cons. left. done.
    + apply (positions_next (length code) code 0 pc op); [lia| |done|done]. apply IH. apply lookup_lt_Some in E. lia.
Qed.

Lemma bit_of_zeros n i : bit_of (replicate n 0) i = false.
Proof.
  unfold bit_of. destruct (replicate n 0 !! _) as [b|] eqn:E; [|done]. apply lookup_replicate in E as [-> _]. apply Z.bits_0.
Qed.

Lemma codeSegment_bit bits pos : (pos / 8 < length bits)%nat -> codeSegment bits pos = Ret (negb (bit_of bits pos)).
Proof.
  intros H. unfold codeSegment, bit_of. destruct (lookup_lt_is_Some_2 bits _ H) as [b ->]. f_equal.
  pose proof (Nat.mod_upper_bound pos 8). set (k := 7 - Z.of_nat (pos mod 8)).
  replace (Z.shiftr 128 (Z.of_nat (pos mod 8))) with (2 ^ k)
    by (rewrite Z.shiftr_div_pow2 by lia; change 128 with (2 ^ 7); rewrite <- Z.pow_sub_r by lia; done).
  destruct (Z.eqb_spec (Z.land b (2 ^ k)) 0) as [E|E].
  - apply (f_equal (fun z => Z.testbit z k)) in E. rewrite Z.land_spec, Z.pow2_bits_true, Z.bits_0, andb_true_r in E by lia.
    rewrite E. done.
  - destruct (Z.testbit b k) eqn:T; [done|]. exfalso. apply E. apply Z.bits_inj'. intros j Hj.
    rewrite Z.land_spec, Z.pow2_bits_eqb, Z.bits_0 by lia. destruct (Z.eqb_spec k j) as [<-|]; [rewrite T|]; auto using andb_false_r.
Qed.

Lemma codeBitmap_spec code : exists bits, codeBitmap code = Ret bits /\ forall pos, (pos < length code)%nat ->
  codeSegment bits pos = Ret (bool_decide (pos ∈ positions (length code) code 0)).
Proof.
  assert ((length code + 32) / 8 = length code / 8 + 4)%nat as E
    by (replace 32%nat with (4 * 8)%nat by lia; rewrite Nat.div_add by lia; done).
  destruct (bitmap_loop_spec (length code) code (replicate (length code / 8 + 1 + 4) 0) 0) as (bits & Hb & L & B);
    rewrite ?length_replicate in *; [lia|lia|].
  exists bits. split; [exact Hb|]. intros pos Hpos. rewrite codeSegment_bit.
  - f_equal. rewrite B, bit_of_zeros by done. cbn [orb]. rewrite <- bool_decide_not. apply bool_decide_ext.
    pose proof (Nat.le_0_l pos). destruct (decide (pos ∈ positions (length code) code 0)); tauto.
  - rewrite L. pose proof (Nat.Div0.div_le_mono pos (length code) 8). lia.
Qed.

(** C37: the analysis of jump destinations never fails, and it accepts exactly
    the positions of the code that hold JUMPDEST as an instruction: positions
    that are reached from the start of the code by stepping over each
    instruction with its data.  A byte of that value inside the data of a PUSH
    is no destination. *)
Theorem jump_destinations code dest : 0 <= dest -> Z.of_nat (length code) <= 2 ^ 62 ->
  exists b, destinations_has code dest = Ret b
  /\ (b = true <-> exists pos, dest = Z.of_nat pos /\ code !! pos = Some JUMPDEST /\ instruction_at code pos).
Proof.
  intros Hd Hl. unfold destinations_has. pose proof (BitLen_le dest 62) as Hbl.
  destruct ((63 <=? BitLen dest) || (Z.of_nat (length code) <=? u64 dest)) eqn:E.
  - exists false. split; [done|]. split; [done|]. intros (pos & -> & Hp & _). apply lookup_lt_Some in Hp.
    rewrite u64_id in E by lia. lia.
  - apply orb_false_iff in E as [E1 E2]. rewrite u64_id in * by lia.
    destruct (codeBitmap_spec code) as (bits & -> & Hs). rewrite outcome_bind_Ret.
    assert (Z.to_nat dest < length code)%nat as Hlt by lia. destruct (lookup_lt_is_Some_2 code _ Hlt) as [op Hop].
    rewrite Hop. destruct (Z.eqb_spec op JUMPDEST) as [->|Hne].
    + rewrite Hs by done. eexists. split; [reflexivity|]. rewrite bool_decide_eq_true, positions_instructions. split.
      * intros [H _]. exists (Z.to_nat dest). split_and!; [lia|done|done].
      * intros (pos & -> & _ & H). rewrite Nat2Z.id in *. done.
    + exists false. split; [done|]. split; [done|]. intros (pos & -> & Hp & _). rewrite Nat2Z.id in Hop. congruence.
Qed.

(** ** Memory is paid for *)

(** The price of [w] words. *)
Definition memFee (w : Z) : Z := 3 * w + w * w / 512.

Definition mem_words (m : Memory) : Z := mem_Len m / 32.

(** Memory comes in words, and all of it was paid for. *)
Record mem_ok (m : Memory) : Prop := {
  mo_words : mem_Len m = 32 * mem_words m;
  mo_bound : mem_words m < 2 ^ 32;
  mo_paid : lastGasCost m = memFee (mem_words m) }.

Lemma NewMemory_ok : mem_ok NewMemory.
Proof. split; done. Qed.

Lemma memFee_mono v w : 0 <= v <= w -> memFee v <= memFee w.
Proof. intros H. unfold memFee. assert (v * v / 512 <= w * w / 512) by (apply Z.div_le_mono; nia). lia. Qed.

Lemma mem_words_nonneg m : 0 <= mem_words m.
Proof. apply Z.div_pos; [unfold mem_Len|]; lia. Qed.

Lemma mem_Resize_len m size : mem_Len (mem_Resize m size) = Z.max (mem_Len m) size.
Proof.
  unfold mem_Resize. destruct (Z.ltb_spec (mem_Len m) size); [|lia]. unfold mem_Len in *. cbn [store mem_with].
  rewrite length_app, length_replicate. lia.
Qed.

Lemma mem_Resize_paid m size : lastGasCost (mem_Resize m size) = lastGasCost m.
Proof. unfold mem_Resize. destruct (_ <? _); done. Qed.

Lemma toWordSize_exact w : 0 <= w -> 32 * w <= 0xffffffffe0 -> toWordSize (32 * w) = w.
Proof.
  intros Hw Hs. unfold toWordSize. destruct (Z.ltb_spec (2 ^ 64 - 1 - 31) (32 * w)); [lia|].
  replace (32 * w + 31) with (31 + w * 32) by lia. rewrite Z.div_add by lia. done.
Qed.

(** C39: below 2^32 words the fee for more memory is exactly the difference of
    the prices of the new and the old size, 3 per word and one 512th of the
    square, so that memory costs the same in one step and in many; nothing
    overflows, and memory that is not paid for is never handed out. *)
Theorem memory_cost_exact m w : mem_ok m -> 0 <= w < 2 ^ 32 ->
  match memoryGasCost m (32 * w) with
  | (m', Ok fee) => 0 <= fee /\ mem_ok (mem_Resize m' (32 * w)) /\ 32 * w <= mem_Len (mem_Resize m' (32 * w))
      /\ memFee (mem_words (mem_Resize m' (32 * w))) = memFee (mem_words m) + fee /\ store m' = store m
  | (m', Err e) => False
  end.
Proof.
  intros [M1 M2 M3] Hw. unfold memoryGasCost. pose proof (mem_words_nonneg m) as Hn.
  destruct (Z.eqb_spec (32 * w) 0) as [E|E].
  { assert (mem_Resize m (32 * w) = m) as -> by (unfold mem_Resize; destruct (Z.ltb_spec (mem_Len m) (32 * w)); [lia|done]).
    split_and!; try done; lia. }
  destruct (Z.ltb_spec 0xffffffffe0 (32 * w)) as [|Hs]; [lia|].
  rewrite toWordSize_exact by lia. replace (w * 32) with (32 * w) by lia. rewrite (u64_id (32 * w)) by lia.
  destruct (Z.ltb_spec (mem_Len m) (32 * w)) as [Hlt|Hge].
  - assert (0 <= w * w < 2 ^ 64) by nia. rewrite !(u64_id (w * w)), (u64_id (w * MemoryGas)) by (unfold MemoryGas; lia).
    assert (0 <= w * w / QuadCoeffDiv < 2 ^ 62)
      by (unfold QuadCoeffDiv; split; [apply Z.div_pos; lia|apply Z.div_lt_upper_bound; lia]).
    replace (w * MemoryGas + w * w / QuadCoeffDiv) with (memFee w) by (unfold memFee, MemoryGas, QuadCoeffDiv; lia).
    assert (0 <= memFee w < 2 ^ 63) by (unfold memFee, QuadCoeffDiv in *; lia). rewrite (u64_id (memFee w)) by lia.
    pose proof (memFee_mono (mem_words m) w). rewrite M3.
    assert (0 <= memFee (mem_words m)) by (apply (memFee_mono 0); lia). rewrite u64_id by lia.
    set (m' := {| store := store m; lastGasCost := memFee w |}).
    assert (mem_Len (mem_Resize m' (32 * w)) = 32 * w) as EL
      by (rewrite mem_Resize_len; unfold mem_Len in *; cbn [store m'] in *; lia).
    assert (mem_words (mem_Resize m' (32 * w)) = w) as EW
      by (unfold mem_words; rewrite EL, (Z.mul_comm 32), Z.div_mul by lia; done).
    split_and!; [lia| |lia|rewrite EW; lia|done].
    split; [lia|rewrite EW; lia|]. rewrite mem_Resize_paid, EW. done.
  - assert (mem_Resize m (32 * w) = m) as -> by (unfold mem_Resize; destruct (Z.ltb_spec (mem_Len m) (32 * w)); [lia|done]).
    split_and!; try done; lia.
Qed.

Module VmCodeExamples.

(** PUSH1 0x5b, JUMPDEST: the first 0x5b is data, the second an instruction. *)
Definition ex_code : bytes := [96; 91; 91].

Lemma jump_destinations_witness : destinations_has ex_code 2 = Ret true /\ destinations_has ex_code 1 = Ret false.
Proof.
  split.
  - destruct (jump_destinations ex_code 2) as (b & E & Hb); [lia|cbn; lia|]. rewrite E. f_equal. apply Hb.
    exists 2%nat. split_and!; [done|done|]. exact (at_next ex_code 0 96 (at_start _) eq_refl).
  - destruct (jump_destinations ex_code 1) as (b & E & Hb); [lia|cbn; lia|]. rewrite E. destruct b; [|done].
    exfalso. vm_compute in E. discriminate E.
Defined.

Lemma memory_cost_exact_witness :
  exists m' fee, memoryGasCost NewMemory (32 * 1000) = (m', Ok fee) /\ mem_ok (mem_Resize m' (32 * 1000)) /\ fee = 4953.
Proof.
  pose proof (memory_cost_exact NewMemory 1000 NewMemory_ok ltac:(lia)) as H.
  destruct (memoryGasCost NewMemory (32 * 1000)) as [m' [fee|e]] eqn:E; [|destruct H].
  exists m', fee. split; [done|]. split; [apply H|]. vm_compute in E. congruence.
Defined.

(** The size that the comment calls the highest one without overflow is far
    above it: the square of 2^32 words is zero modulo 2^64, and 128 GB cost less
    than 64 GB. *)
Theorem memory_cost_overflows :
  snd (memoryGasCost NewMemory (32 * 2 ^ 32)) = Ok (3 * 2 ^ 32)
  /\ snd (memoryGasCost NewMemory (32 * 2 ^ 31)) = Ok (3 * 2 ^ 31 + 2 ^ 53).
Proof. vm_compute. done. Qed.

End VmCodeExamples.
