(* ===== verification/VmPrecompiled.v ===== *)
(** * Precompiled contracts

    The contracts at addresses 1 to 8 (chain/core/vm/contracts.go): their prices,
    the copy and the modular exponentiation; hash functions and curves are the
    class [PrecompiledLib]. *)
From S2P Require Import Prelude Rlp StateData VmWord VmCode.
Local Open Scope Z_scope.

(** What the contracts compute outside of this package. *)
Class PrecompiledLib := {
  ecrecover_Run : bytes -> bytes;
  sha256_Sum256 : bytes -> bytes;
  ripemd160_Sum : bytes -> bytes;
  bn256Add_Run : bytes -> result string bytes;
  bn256ScalarMul_Run : bytes -> result string bytes;
  bn256_PairingCheck : bytes -> result string bool }.

Inductive PrecompiledContract :=
  ecrecover | sha256hash | ripemd160hash | dataCopy | bigModExp | bn256Add | bn256ScalarMul | bn256Pairing.

Definition PrecompiledContractsHomestead : list PrecompiledContract := [ecrecover; sha256hash; ripemd160hash; dataCopy].
Definition PrecompiledContractsByzantium : list PrecompiledContract :=
  [ecrecover; sha256hash; ripemd160hash; dataCopy; bigModExp; bn256Add; bn256ScalarMul; bn256Pairing].

(** The contract at an address: the first is at 1. *)
Definition precompiled (byzantium : bool) (addr : bytes) : option PrecompiledContract :=
  snd <$> head (filter (fun c : nat * PrecompiledContract => addr = BytesToHash [Z.of_nat (fst c)])
    (imap (fun i c => (S i, c)) (if byzantium then PrecompiledContractsByzantium else PrecompiledContractsHomestead))).

Definition getData (data : bytes) (start size : Z) : outcome bytes :=
  let length := Z.of_nat (length data) in
  let start := if length <? start then length else start in
  let end_ := u64 (start + size) in
  let end_ := if length <? end_ then length else end_ in
  if end_ <? start then out_of_range
  else Ret (RightPadBytes (take (Z.to_nat (end_ - start)) (drop (Z.to_nat start) data)) (Z.to_nat size)).

(** [new(big.Int).SetBytes(getData(data, start, size))] *)
Definition getNumber (data : bytes) (start size : Z) : outcome Z := b ← getData data start size; Ret (be_uint b).

Definition LeftPadBytes (b : bytes) (l : nat) : bytes := replicate (l - length b) 0 ++ b.

(** [uint64(len(input)+31)/32*perWord + base] *)
Definition wordPrice (input : bytes) (perWord base : Z) : Z := (Z.of_nat (length input) + 31) / 32 * perWord + base.

(** *** bigModExp *)

(** The lengths of the base, the exponent and the modulus, and what follows. *)
Definition modExpArgs (input : bytes) : outcome (Z * Z * Z * bytes) :=
  baseLen ← getNumber input 0 32;
  expLen ← getNumber input 32 32;
  modLen ← getNumber input 64 32;
  Ret (baseLen, expLen, modLen, drop 96 input).

(** The complexity of a multiplication. *)
Definition multComplexity (x : Z) : Z :=
  if x <=? 64 then x * x
  else if x <=? 1024 then x * x / 4 + (96 * x - 3072)
  else x * x / 16 + (480 * x - 199680).

Definition bigModExp_RequiredGas (input : bytes) : outcome Z :=
  args ← modExpArgs input;
  let '(baseLen, expLen, modLen, input) := args in
  expHead ←
    (if Z.of_nat (length input) <=? baseLen then Ret 0
     else getNumber input (u64 baseLen) (if 32 <? expLen then 32 else u64 expLen));
  let msb := if 0 <? BitLen expHead then BitLen expHead - 1 else 0 in
  let adjExpLen := (if 32 <? expLen then 8 * (expLen - 32) else 0) + msb in
  let gas := multComplexity (Z.max modLen baseLen) * Z.max adjExpLen 1 / 20 in
  Ret (if 64 <? BitLen gas then 2 ^ 64 - 1 else gas).

Definition bigModExp_Run (input : bytes) : outcome bytes :=
  args ← modExpArgs input;
  let '(baseLen, expLen, modLen, input) := args in
  let baseLen := u64 baseLen in
  let expLen := u64 expLen in
  let modLen := u64 modLen in
  if (baseLen =? 0) && (modLen =? 0) then Ret []
  else
    base ← getNumber input 0 baseLen;
    exp ← getNumber input baseLen expLen;
    mod_ ← getNumber input (u64 (baseLen + expLen)) modLen;
    Ret (if BitLen mod_ =? 0 then LeftPadBytes [] (Z.to_nat modLen)
         else LeftPadBytes (big_Bytes (base ^ exp mod mod_)) (Z.to_nat modLen)).

Section Precompiled.
Context {PL : PrecompiledLib}.

Definition precompiled_RequiredGas (p : PrecompiledContract) (input : bytes) : outcome Z :=
  match p with
  | ecrecover => Ret 3000
  | sha256hash => Ret (wordPrice input 12 60)
  | ripemd160hash => Ret (wordPrice input 120 600)
  | dataCopy => Ret (wordPrice input 3 15)
  | bigModExp => bigModExp_RequiredGas input
  | bn256Add => Ret 500
  | bn256ScalarMul => Ret 40000
  | bn256Pairing => Ret (100000 + Z.of_nat (length input) / 192 * 80000)
  end.

Definition precompiled_Run (p : PrecompiledContract) (input : bytes) : outcome (result string bytes) :=
  match p with
  | ecrecover => Ret (Ok (ecrecover_Run input))
  | sha256hash => Ret (Ok (sha256_Sum256 input))
  | ripemd160hash => Ret (Ok (LeftPadBytes (ripemd160_Sum input) 32))
  | dataCopy => Ret (Ok input)
  | bigModExp => b ← bigModExp_Run input; Ret (Ok b)
  | bn256Add => Ret (bn256Add_Run input)
  | bn256ScalarMul => Ret (bn256ScalarMul_Run input)
  | bn256Pairing =>
    Ret (if 0 <? Z.of_nat (length input) mod 192 then Err "bad elliptic curve pairing size"%string
         else
           match bn256_PairingCheck input with
           | Err e => Err e
           | Ok true => Ok (LeftPadBytes [1] 32)
           | Ok false => Ok (LeftPadBytes [] 32)
           end)
  end.

End Precompiled.

(** ** Prices are not negative *)
Lemma multComplexity_nonneg x : 0 <= multComplexity x.
Proof.
  unfold multComplexity. assert (0 <= x * x) by apply Z.square_nonneg.
  destruct (Z.leb_spec x 64); [done|]. destruct (Z.leb_spec x 1024).
  - assert (0 <= x * x / 4) by (apply Z.div_pos; lia). lia.
  - assert (0 <= x * x / 16) by (apply Z.div_pos; lia). lia.
Qed.

Lemma wordPrice_nonneg input perWord base : 0 <= perWord -> 0 <= base -> 0 <= wordPrice input perWord base.
Proof.
  intros Hp Hb. unfold wordPrice. assert (0 <= (Z.of_nat (length input) + 31) / 32) by (apply Z.div_pos; lia). nia.
Qed.

Lemma precompiled_RequiredGas_nonneg p input gas : precompiled_RequiredGas p input = Ret gas -> 0 <= gas.
Proof.
  destruct p; cbn [precompiled_RequiredGas]; try (intros [= <-]; first [lia | apply wordPrice_nonneg; lia]).
  - unfold bigModExp_RequiredGas, mbind, outcome_bind. destruct (modExpArgs input) as [[[[b e] m] d]|]; [|done].
    destruct (if _ <=? b then _ else _) as [h|]; [|done]. intros [= <-]. destruct (64 <? _); [lia|]. apply Z.div_pos; [|lia].
    apply Z.mul_nonneg_nonneg; [apply multComplexity_nonneg|lia].
  - intros [= <-]. assert (0 <= Z.of_nat (length input) / 192) by (apply Z.div_pos; lia). lia.
Qed.
