(* ===== verification/Vm.v ===== *)
(** * The virtual machine

    The interpreter of contracts (chain/core/vm): the environment and the
    contract (evm.go, contract.go), the gas tables (gas_table.go, gas.go), the
    memory each instruction needs (memory_table.go), the instructions
    (instructions.go), the jump table (jump_table.go, stack_table.go), the loop
    (interpreter.go) and the calls that start a contract (evm.go).

    A frame is what one run of the loop works on.  The loop and the calls are
    mutually recursive: the calls take the loop as an argument, and the loop
    has fuel, one unit per instruction, of which as much as there is gas is
    enough (VmGas.v).  Tracing, the pool of integers, the cache of jump
    destinations and cancelling from outside are left out. *)
From S2P Require Import Prelude Rlp StateData StateDB VmWord VmCode VmPrecompiled.
Local Open Scope Z_scope.

(** ** The environment *)
Record Rules := {
  IsHomestead : bool;
  IsEIP150 : bool;
  IsEIP158 : bool;
  IsByzantium : bool;
  IsConstantinople : bool }.

Record EVM := {
  evm_Origin : bytes;
  evm_GasPrice : Z;
  evm_Coinbase : bytes;
  evm_GasLimit : Z;
  evm_BlockNumber : Z;
  evm_Time : Z;
  evm_Difficulty : Z;
  evm_GetHash : Z -> bytes;
  evm_rules : Rules;
  evm_NoRecursion : bool;
  evm_EnablePreimageRecording : bool;
  evm_depth : Z;
  evm_readOnly : bool }.

(** Inside a run: one deeper, and read-only if it is asked for or was before. *)
Definition evm_enter (evm : EVM) (readOnly : bool) : EVM :=
  {| evm_Origin := evm_Origin evm; evm_GasPrice := evm_GasPrice evm; evm_Coinbase := evm_Coinbase evm;
     evm_GasLimit := evm_GasLimit evm; evm_BlockNumber := evm_BlockNumber evm; evm_Time := evm_Time evm;
     evm_Difficulty := evm_Difficulty evm; evm_GetHash := evm_GetHash evm; evm_rules := evm_rules evm;
     evm_NoRecursion := evm_NoRecursion evm; evm_EnablePreimageRecording := evm_EnablePreimageRecording evm;
     evm_depth := evm_depth evm + 1; evm_readOnly := evm_readOnly evm || readOnly |}.

Record Contract := {
  c_CallerAddress : bytes;
  c_self : bytes;
  c_Code : bytes;
  c_CodeHash : bytes;
  c_CodeAddr : bytes;
  c_Input : bytes;
  c_value : Z }.

Definition GetOp (c : Contract) (n : Z) : Z := nth (Z.to_nat n) (c_Code c) 0.

(** What a run of the loop works on: the gas is the one of the contract, the
    return data the one of the interpreter, the call gas the one of the machine. *)
Record Frame := {
  fr_pc : Z;
  fr_stack : Stack;
  fr_mem : Memory;
  fr_contract : Contract;
  fr_gas : Z;
  fr_returnData : bytes;
  fr_callGasTemp : Z }.

Definition set_fr_pc (f : Frame) (v : Z) : Frame :=
  {| fr_pc := v; fr_stack := fr_stack f; fr_mem := fr_mem f; fr_contract := fr_contract f; fr_gas := fr_gas f;
     fr_returnData := fr_returnData f; fr_callGasTemp := fr_callGasTemp f |}.
Definition set_fr_stack (f : Frame) (v : Stack) : Frame :=
  {| fr_pc := fr_pc f; fr_stack := v; fr_mem := fr_mem f; fr_contract := fr_contract f; fr_gas := fr_gas f;
     fr_returnData := fr_returnData f; fr_callGasTemp := fr_callGasTemp f |}.
Definition set_fr_mem (f : Frame) (v : Memory) : Frame :=
  {| fr_pc := fr_pc f; fr_stack := fr_stack f; fr_mem := v; fr_contract := fr_contract f; fr_gas := fr_gas f;
     fr_returnData := fr_returnData f; fr_callGasTemp := fr_callGasTemp f |}.
Definition set_fr_gas (f : Frame) (v : Z) : Frame :=
  {| fr_pc := fr_pc f; fr_stack := fr_stack f; fr_mem := fr_mem f; fr_contract := fr_contract f; fr_gas := v;
     fr_returnData := fr_returnData f; fr_callGasTemp := fr_callGasTemp f |}.
Definition set_fr_returnData (f : Frame) (v : bytes) : Frame :=
  {| fr_pc := fr_pc f; fr_stack := fr_stack f; fr_mem := fr_mem f; fr_contract := fr_contract f; fr_gas := fr_gas f;
     fr_returnData := v; fr_callGasTemp := fr_callGasTemp f |}.
Definition set_fr_callGasTemp (f : Frame) (v : Z) : Frame :=
  {| fr_pc := fr_pc f; fr_stack := fr_stack f; fr_mem := fr_mem f; fr_contract := fr_contract f; fr_gas := fr_gas f;
     fr_returnData := fr_returnData f; fr_callGasTemp := v |}.

Definition newFrame (c : Contract) (gas : Z) : Frame :=
  {| fr_pc := 0; fr_stack := []; fr_mem := NewMemory; fr_contract := c; fr_gas := gas; fr_returnData := [];
     fr_callGasTemp := 0 |}.

(** Contract.UseGas *)
Definition UseGas (gas amount : Z) : option Z := if gas <? amount then None else Some (gas - amount).

(** Addresses and hashes have 32 bytes, and Big reads them as a number. *)
Definition BigToHash (x : Z) : bytes := BytesToHash (big_Bytes x).
Definition BigToAddress (x : Z) : bytes := BytesToHash (big_Bytes x).
Definition Big (a : bytes) : Z := be_uint a.

(** ** Errors *)
Definition ErrOutOfGas : string := "out of gas".
Definition ErrCodeStoreOutOfGas : string := "contract creation code storage out of gas".
Definition ErrDepth : string := "max call depth exceeded".
Definition ErrInsufficientBalance : string := "insufficient balance for transfer".
Definition ErrContractAddressCollision : string := "contract address collision".
Definition errWriteProtection : string := "evm: write protection".
Definition errReturnDataOutOfBounds : string := "evm: return data out of bounds".
Definition errExecutionReverted : string := "evm: execution reverted".
Definition errMaxCodeSizeExceeded : string := "evm: max code size exceeded".
(** The bound of the model, never a result of the code. *)
Definition errOutOfFuel : string := "model: out of fuel".

(** ** Gas prices *)
Record GasTable := {
  gt_ExtcodeSize : Z; gt_ExtcodeCopy : Z; gt_ExtcodeHash : Z; gt_Balance : Z; gt_SLoad : Z; gt_Calls : Z; gt_Suicide : Z;
  gt_ExpByte : Z; gt_CreateBySuicide : Z }.

Definition GasTableHomestead : GasTable :=
  {| gt_ExtcodeSize := 20; gt_ExtcodeCopy := 20; gt_ExtcodeHash := 0; gt_Balance := 20; gt_SLoad := 50; gt_Calls := 40;
     gt_Suicide := 0; gt_ExpByte := 10; gt_CreateBySuicide := 0 |}.
Definition GasTableEIP150 : GasTable :=
  {| gt_ExtcodeSize := 700; gt_ExtcodeCopy := 700; gt_ExtcodeHash := 0; gt_Balance := 400; gt_SLoad := 200; gt_Calls := 700;
     gt_Suicide := 5000; gt_ExpByte := 10; gt_CreateBySuicide := 25000 |}.
Definition GasTableEIP158 : GasTable :=
  {| gt_ExtcodeSize := 700; gt_ExtcodeCopy := 700; gt_ExtcodeHash := 0; gt_Balance := 400; gt_SLoad := 200; gt_Calls := 700;
     gt_Suicide := 5000; gt_ExpByte := 50; gt_CreateBySuicide := 25000 |}.

Definition gasTable (r : Rules) : GasTable :=
  if IsEIP158 r then GasTableEIP158 else if IsEIP150 r then GasTableEIP150 else GasTableHomestead.

Definition GasQuickStep : Z := 2.
Definition GasFastestStep : Z := 3.
Definition GasFastStep : Z := 5.
Definition GasMidStep : Z := 8.
Definition GasSlowStep : Z := 10.
Definition GasExtStep : Z := 20.
Definition CallStipend : Z := 2300.
Definition CallValueTransferGas : Z := 9000.
Definition CallNewAccountGas : Z := 25000.
Definition CreateDataGas : Z := 200.
Definition CallCreateDepth : Z := 1024.
Definition StackLimit : nat := 1024.
Definition MaxCodeSize : Z := 24576.

(** *** gas.go *)
Definition callGas (gt : GasTable) (availableGas base callCost : Z) : result string Z :=
  let availableGas := u64 (availableGas - base) in
  let gas := availableGas - availableGas / 64 in
  if (0 <? gt_CreateBySuicide gt) && ((64 <? BitLen callCost) || (gas <? u64 callCost)) then Ok gas
  else if 64 <? BitLen callCost then Err errGasUintOverflow
  else Ok (u64 callCost).

(** *** gas_table.go *)
Definition add_gas (gas : result string Z) (x : Z) : result string Z :=
  match gas with
  | Err e => Err e
  | Ok g => let '(r, overflow) := SafeAdd g x in if overflow then Err errGasUintOverflow else Ok r
  end.

(** [math.SafeMul(toWordSize(words), price)] for a number of the stack. *)
Definition word_gas (v price : Z) : result string Z :=
  let '(words, overflow) := bigUint64 v in
  if overflow then Err errGasUintOverflow
  else let '(r, overflow) := SafeMul (toWordSize words) price in if overflow then Err errGasUintOverflow else Ok r.

Definition add_result (gas x : result string Z) : result string Z :=
  match gas, x with
  | Err e, _ => Err e
  | _, Err e => Err e
  | Ok _, Ok x => add_gas gas x
  end.

Definition Back (st : Stack) (n : nat) : outcome Z := match st !! n with Some x => Ret x | None => stack_empty end.

(** ** Memory sizes (memory_table.go) *)
Definition memorySizeFunc : Type := Stack -> outcome Z.

Definition mem_at (off size : nat) : memorySizeFunc :=
  fun st => o ← Back st off; l ← Back st size; Ret (calcMemSize o l).
Definition mem_fixed (off : nat) (size : Z) : memorySizeFunc := fun st => o ← Back st off; Ret (calcMemSize o size).
Definition mem_max (f g : memorySizeFunc) : memorySizeFunc := fun st => x ← f st; y ← g st; Ret (Z.max x y).

Definition memorySha3 : memorySizeFunc := mem_at 0 1.
Definition memoryCallDataCopy : memorySizeFunc := mem_at 0 2.
Definition memoryReturnDataCopy : memorySizeFunc := mem_at 0 2.
Definition memoryCodeCopy : memorySizeFunc := mem_at 0 2.
Definition memoryExtCodeCopy : memorySizeFunc := mem_at 1 3.
Definition memoryMLoad : memorySizeFunc := mem_fixed 0 32.
Definition memoryMStore8 : memorySizeFunc := mem_fixed 0 1.
Definition memoryMStore : memorySizeFunc := mem_fixed 0 32.
Definition memoryCreate : memorySizeFunc := mem_at 1 2.
Definition memoryCreate2 : memorySizeFunc := mem_at 1 2.
Definition memoryCall : memorySizeFunc := mem_max (mem_at 5 6) (mem_at 3 4).
Definition memoryDelegateCall : memorySizeFunc := mem_max (mem_at 4 5) (mem_at 2 3).
Definition memoryStaticCall : memorySizeFunc := mem_max (mem_at 4 5) (mem_at 2 3).
Definition memoryReturn : memorySizeFunc := mem_at 0 1.
Definition memoryRevert : memorySizeFunc := mem_at 0 1.
Definition memoryLog : memorySizeFunc := mem_at 0 1.

Section Machine.
Context {L : TrieLib} {PL : PrecompiledLib}.

(** ** Gas of the instructions (gas_table.go)

    The cost, or an error; the memory remembers what it cost, and the gas for a
    call is kept until the call. *)
Definition gasFunc : Type := EVM -> Frame -> Z -> SM (Frame * result string Z).

Definition constGasFunc (gas : Z) : gasFunc := fun evm fr memorySize => mret (fr, Ok gas).

(** The cost of the memory, on which the rest is added. *)
Definition mem_gas (fr : Frame) (memorySize : Z) : Frame * result string Z :=
  let '(mem, gas) := memoryGasCost (fr_mem fr) memorySize in (set_fr_mem fr mem, gas).

Definition memGasFunc (base : Z) : gasFunc := fun evm fr memorySize =>
  let '(fr, gas) := mem_gas fr memorySize in mret (fr, add_gas gas base).

(** With a price for each word of the length at position [n]. *)
Definition copyGasFunc (base : Z) (n : nat) (price : Z) : gasFunc := fun evm fr memorySize =>
  let '(fr, gas) := mem_gas fr memorySize in
  words ← liftS (Back (fr_stack fr) n);
  mret (fr, add_result (add_gas gas base) (word_gas words price)).

Definition gasCallDataCopy : gasFunc := copyGasFunc GasFastestStep 2 3.
Definition gasReturnDataCopy : gasFunc := copyGasFunc GasFastestStep 2 3.
Definition gasCodeCopy : gasFunc := copyGasFunc GasFastestStep 2 3.
Definition gasSha3 : gasFunc := copyGasFunc 30 1 6.
Definition gasExtCodeCopy : gasFunc := fun evm => copyGasFunc (gt_ExtcodeCopy (gasTable (evm_rules evm))) 3 3 evm.
Definition gasMLoad : gasFunc := memGasFunc GasFastestStep.
Definition gasMStore8 : gasFunc := memGasFunc GasFastestStep.
Definition gasMStore : gasFunc := memGasFunc GasFastestStep.
Definition gasCreate : gasFunc := memGasFunc 32000.
Definition gasCreate2 : gasFunc := memGasFunc 32000.
Definition gasReturn : gasFunc := fun evm fr memorySize => mret (mem_gas fr memorySize).
Definition gasRevert : gasFunc := fun evm fr memorySize => mret (mem_gas fr memorySize).

Definition gasExtCodeHash : gasFunc := fun evm => constGasFunc (gt_ExtcodeHash (gasTable (evm_rules evm))) evm.
Definition gasBalance : gasFunc := fun evm => constGasFunc (gt_Balance (gasTable (evm_rules evm))) evm.
Definition gasExtCodeSize : gasFunc := fun evm => constGasFunc (gt_ExtcodeSize (gasTable (evm_rules evm))) evm.
Definition gasSLoad : gasFunc := fun evm => constGasFunc (gt_SLoad (gasTable (evm_rules evm))) evm.
Definition gasPush : gasFunc := constGasFunc GasFastestStep.
Definition gasSwap : gasFunc := constGasFunc GasFastestStep.
Definition gasDup : gasFunc := constGasFunc GasFastestStep.

Definition gasExp : gasFunc := fun evm fr memorySize =>
  exponent ← liftS (Back (fr_stack fr) 1);
  let expByteLen := (BitLen exponent + 7) / 8 in
  mret (fr, add_gas (Ok (u64 (expByteLen * gt_ExpByte (gasTable (evm_rules evm))))) GasSlowStep).

Definition SstoreSetGas : Z := 20000.
Definition SstoreResetGas : Z := 5000.
Definition SstoreClearGas : Z := 5000.
Definition SstoreRefundGas : Z := 15000.
Definition SuicideRefundGas : Z := 24000.

Definition gasSStore : gasFunc := fun evm fr memorySize =>
  x ← liftS (Back (fr_stack fr) 0);
  y ← liftS (Back (fr_stack fr) 1);
  val ← GetState (c_self (fr_contract fr)) (BigToHash x);
  if bool_decide (val = zeroHash) && negb (y =? 0) then mret (fr, Ok SstoreSetGas)
  else if negb (bool_decide (val = zeroHash)) && (y =? 0) then
    AddRefund SstoreRefundGas ;; mret (fr, Ok SstoreClearGas)
  else mret (fr, Ok SstoreResetGas).

Definition makeGasLog (n : nat) : gasFunc := fun evm fr memorySize =>
  size ← liftS (Back (fr_stack fr) 1);
  let '(requestedSize, overflow) := bigUint64 size in
  if overflow then mret (fr, Err errGasUintOverflow)
  else
    let '(fr, gas) := mem_gas fr memorySize in
    let gas := add_gas (add_gas gas 375) (Z.of_nat n * 375) in
    let '(memorySizeGas, overflow) := SafeMul requestedSize 8 in
    mret (fr, if overflow then match gas with Err e => Err e | Ok _ => Err errGasUintOverflow end
              else add_gas gas memorySizeGas).

(** The gas for the call is taken from what is left after the rest. *)
Definition with_callGas (evm : EVM) (fr : Frame) (gas : result string Z) : SM (Frame * result string Z) :=
  match gas with
  | Err e => mret (fr, Err e)
  | Ok base =>
    requested ← liftS (Back (fr_stack fr) 0);
    match callGas (gasTable (evm_rules evm)) (fr_gas fr) base requested with
    | Err e => mret (set_fr_callGasTemp fr 0, Err e)
    | Ok g => mret (set_fr_callGasTemp fr g, add_gas (Ok base) g)
    end
  end.

Definition gasCall : gasFunc := fun evm fr memorySize =>
  value ← liftS (Back (fr_stack fr) 2);
  addr ← liftS (Back (fr_stack fr) 1);
  let address := BigToAddress addr in
  let transfersValue := negb (value =? 0) in
  new ←
    (if IsEIP158 (evm_rules evm) then
       if transfersValue then Empty address else mret false
     else exist ← Exist address; mret (negb exist));
  let gas := gt_Calls (gasTable (evm_rules evm)) + (if (new : bool) then CallNewAccountGas else 0)
             + (if transfersValue then CallValueTransferGas else 0) in
  let '(fr, memoryGas) := mem_gas fr memorySize in
  with_callGas evm fr (add_gas memoryGas gas).

Definition gasCallCode : gasFunc := fun evm fr memorySize =>
  value ← liftS (Back (fr_stack fr) 2);
  let gas := gt_Calls (gasTable (evm_rules evm)) + (if value =? 0 then 0 else CallValueTransferGas) in
  let '(fr, memoryGas) := mem_gas fr memorySize in
  with_callGas evm fr (add_gas memoryGas gas).

Definition gasDelegateCall : gasFunc := fun evm fr memorySize =>
  let '(fr, gas) := mem_gas fr memorySize in
  with_callGas evm fr (add_gas gas (gt_Calls (gasTable (evm_rules evm)))).
Definition gasStaticCall : gasFunc := gasDelegateCall.

Definition gasSuicide : gasFunc := fun evm fr memorySize =>
  let gt := gasTable (evm_rules evm) in
  gas ←
    (if IsEIP150 (evm_rules evm) then
       addr ← liftS (Back (fr_stack fr) 0);
       let address := BigToAddress addr in
       new ←
         (if IsEIP158 (evm_rules evm) then
            empty ← Empty address;
            balance ← (if (empty : bool) then GetBalance (c_self (fr_contract fr)) else mret 0);
            mret (negb (balance =? 0))
          else exist ← Exist address; mret (negb exist));
       mret (gt_Suicide gt + (if (new : bool) then gt_CreateBySuicide gt else 0))
     else mret 0);
  suicided ← HasSuicided (c_self (fr_contract fr));
  (if (suicided : bool) then mret tt else AddRefund SuicideRefundGas) ;;
  mret (fr, Ok gas).

(** ** Calls of other contracts, as the instructions see them

    The return data, the gas that is left and the error; creating a contract
    gives its address as well. *)
Record Calls := {
  do_Call : EVM -> bytes -> bytes -> bytes -> Z -> Z -> SM (bytes * Z * option string);
  do_CallCode : EVM -> Contract -> bytes -> bytes -> Z -> Z -> SM (bytes * Z * option string);
  do_DelegateCall : EVM -> Contract -> bytes -> bytes -> Z -> SM (bytes * Z * option string);
  do_StaticCall : EVM -> bytes -> bytes -> bytes -> Z -> SM (bytes * Z * option string);
  do_Create : EVM -> bytes -> bytes -> Z -> Z -> SM (bytes * bytes * Z * option string);
  do_Create2 : EVM -> bytes -> bytes -> Z -> Z -> Z -> SM (bytes * bytes * Z * option string) }.

(** ** The instructions (instructions.go) *)
Definition executionFunc : Type := Calls -> EVM -> Frame -> SM (Frame * result string bytes).

Definition done_ (fr : Frame) : SM (Frame * result string bytes) := mret (fr, Ok []).
Definition push (fr : Frame) (x : Z) : SM (Frame * result string bytes) := done_ (set_fr_stack fr (x :: fr_stack fr)).

(** Instructions that work on the stack only. *)
Definition on_stack (op : Stack -> outcome Stack) : executionFunc := fun cs evm fr =>
  st ← liftS (op (fr_stack fr)); done_ (set_fr_stack fr st).

(** The [n] topmost numbers, and the frame without them. *)
Definition pop (n : nat) (fr : Frame) : outcome (list Z * Frame) :=
  if (length (fr_stack fr) <? n)%nat then stack_empty
  else Ret (take n (fr_stack fr), set_fr_stack fr (drop n (fr_stack fr))).
Definition arg (args : list Z) (n : nat) : Z := nth n args 0.

(** An instruction that replaces the topmost number by what it reads. *)
Definition peek_read (f : EVM -> Frame -> Z -> SM Z) : executionFunc := fun cs evm fr =>
  r ← liftS (pop 1 fr);
  let '(args, fr) := r in
  x ← f evm fr (arg args 0);
  push fr x.

Definition opSha3 : executionFunc := fun cs evm fr =>
  r ← liftS (pop 2 fr);
  let '(args, fr) := r in
  data ← liftS (mem_Get (fr_mem fr) (i64 (arg args 0)) (i64 (arg args 1)));
  let hash := Keccak256 data in
  (if evm_EnablePreimageRecording evm then AddPreimage (BytesToHash hash) data else mret tt) ;;
  push fr (be_uint hash).

Definition opAddress : executionFunc := fun cs evm fr => push fr (Big (c_self (fr_contract fr))).
Definition opBalance : executionFunc := peek_read (fun evm fr slot => GetBalance (BigToAddress slot)).
Definition opOrigin : executionFunc := fun cs evm fr => push fr (Big (evm_Origin evm)).
Definition opCaller : executionFunc := fun cs evm fr => push fr (Big (c_CallerAddress (fr_contract fr))).
Definition opCallValue : executionFunc := fun cs evm fr => push fr (c_value (fr_contract fr)).
Definition opCallDataLoad : executionFunc :=
  peek_read (fun evm fr x => mret (be_uint (getDataBig (c_Input (fr_contract fr)) x 32))).
Definition opCallDataSize : executionFunc := fun cs evm fr => push fr (Z.of_nat (length (c_Input (fr_contract fr)))).

(** A part of [data], padded with zeros, goes into the memory. *)
Definition copy_data (fr : Frame) (data : bytes) (memOffset dataOffset length : Z) : SM (Frame * result string bytes) :=
  mem ← liftS (mem_Set (fr_mem fr) (u64 memOffset) (u64 length) (getDataBig data dataOffset length));
  done_ (set_fr_mem fr mem).

Definition opCallDataCopy : executionFunc := fun cs evm fr =>
  r ← liftS (pop 3 fr);
  let '(args, fr) := r in
  copy_data fr (c_Input (fr_contract fr)) (arg args 0) (arg args 1) (arg args 2).

Definition opReturnDataSize : executionFunc := fun cs evm fr => push fr (Z.of_nat (length (fr_returnData fr))).

Definition opReturnDataCopy : executionFunc := fun cs evm fr =>
  r ← liftS (pop 3 fr);
  let '(args, fr) := r in
  let dataOffset := arg args 1 in
  let end_ := dataOffset + arg args 2 in
  if (64 <? BitLen end_) || (Z.of_nat (length (fr_returnData fr)) <? u64 end_) then
    mret (fr, Err errReturnDataOutOfBounds)
  else
    let data := take (Z.to_nat (u64 end_ - u64 dataOffset)) (drop (Z.to_nat (u64 dataOffset)) (fr_returnData fr)) in
    mem ← liftS (mem_Set (fr_mem fr) (u64 (arg args 0)) (u64 (arg args 2)) data);
    done_ (set_fr_mem fr mem).

(** StateDB.GetCodeSize *)
Definition GetCodeSize (addr : bytes) : SM Z :=
  query addr 0
    (o ← deref addr;
     match so_code o with
     | Some c => mret (Z.of_nat (length c))
     | None =>
       s ← getS;
       match ContractCode (s_db s) (BytesToHash (acc_CodeHash (so_data o))) with
       | Ok c => mret (Z.of_nat (length c))
       | Err e => modifyS (s_setError (Some e)) ;; mret 0
       end
     end).

Definition opExtCodeSize : executionFunc := peek_read (fun evm fr slot => GetCodeSize (BigToAddress slot)).
Definition opCodeSize : executionFunc := fun cs evm fr => push fr (Z.of_nat (length (c_Code (fr_contract fr)))).

Definition opCodeCopy : executionFunc := fun cs evm fr =>
  r ← liftS (pop 3 fr);
  let '(args, fr) := r in
  copy_data fr (c_Code (fr_contract fr)) (arg args 0) (arg args 1) (arg args 2).

Definition opExtCodeCopy : executionFunc := fun cs evm fr =>
  r ← liftS (pop 4 fr);
  let '(args, fr) := r in
  code ← GetCode (BigToAddress (arg args 0));
  copy_data fr (default [] code) (arg args 1) (arg args 2) (arg args 3).

Definition opExtCodeHash : executionFunc :=
  peek_read (fun evm fr slot => h ← GetCodeHash (BigToAddress slot); mret (be_uint h)).
Definition opGasprice : executionFunc := fun cs evm fr => push fr (evm_GasPrice evm).

Definition opBlockhash : executionFunc :=
  peek_read (fun evm fr num =>
    let n := evm_BlockNumber evm - 257 in
    mret (if (n <? num) && (num <? evm_BlockNumber evm) then Big (evm_GetHash evm (u64 num)) else 0)).

Definition opCoinbase : executionFunc := fun cs evm fr => push fr (Big (evm_Coinbase evm)).
Definition opTimestamp : executionFunc := fun cs evm fr => push fr (U256 (evm_Time evm)).
Definition opNumber : executionFunc := fun cs evm fr => push fr (U256 (evm_BlockNumber evm)).
Definition opDifficulty : executionFunc := fun cs evm fr => push fr (U256 (evm_Difficulty evm)).
Definition opGasLimit : executionFunc := fun cs evm fr => push fr (U256 (evm_GasLimit evm)).

Definition opPop : executionFunc := fun cs evm fr => r ← liftS (pop 1 fr); done_ (snd r).

Definition opMload : executionFunc :=
  peek_read (fun evm fr offset => b ← liftS (mem_Get (fr_mem fr) (i64 offset) 32); mret (be_uint b)).

Definition opMstore : executionFunc := fun cs evm fr =>
  r ← liftS (pop 2 fr);
  let '(args, fr) := r in
  mem ← liftS (mem_Set32 (fr_mem fr) (u64 (arg args 0)) (arg args 1));
  done_ (set_fr_mem fr mem).

Definition opMstore8 : executionFunc := fun cs evm fr =>
  r ← liftS (pop 2 fr);
  let '(args, fr) := r in
  st ← liftS (slice_set (store (fr_mem fr)) (i64 (arg args 0)) (Z.land (i64 (arg args 1)) 255));
  done_ (set_fr_mem fr (mem_with (fr_mem fr) st)).

Definition opSload : executionFunc :=
  peek_read (fun evm fr loc => v ← GetState (c_self (fr_contract fr)) (BigToHash loc); mret (be_uint v)).

Definition opSstore : executionFunc := fun cs evm fr =>
  r ← liftS (pop 2 fr);
  let '(args, fr) := r in
  SetState (c_self (fr_contract fr)) (BigToHash (arg args 0)) (BigToHash (arg args 1)) ;;
  done_ fr.

Definition errInvalidJump : string := "invalid jump destination".

Definition jump_to (fr : Frame) (pos : Z) : SM (Frame * result string bytes) :=
  ok ← liftS (destinations_has (c_Code (fr_contract fr)) pos);
  if (ok : bool) then done_ (set_fr_pc fr (u64 pos)) else mret (fr, Err errInvalidJump).

Definition opJump : executionFunc := fun cs evm fr =>
  r ← liftS (pop 1 fr);
  let '(args, fr) := r in
  jump_to fr (arg args 0).

Definition opJumpi : executionFunc := fun cs evm fr =>
  r ← liftS (pop 2 fr);
  let '(args, fr) := r in
  if arg args 1 =? 0 then done_ (set_fr_pc fr (u64 (fr_pc fr + 1))) else jump_to fr (arg args 0).

Definition opJumpdest : executionFunc := fun cs evm fr => done_ fr.
Definition opPc : executionFunc := fun cs evm fr => push fr (fr_pc fr).
Definition opMsize : executionFunc := fun cs evm fr => push fr (mem_Len (fr_mem fr)).
Definition opGas : executionFunc := fun cs evm fr => push fr (fr_gas fr).

(** All the gas, or all but a 64th, goes to the new contract, and what is left
    comes back. *)
Definition finish_create (fr : Frame) (homesteadRule : bool) (r : bytes * bytes * Z * option string)
    : SM (Frame * result string bytes) :=
  let '(res, addr, returnGas, suberr) := r in
  let failed :=
    match suberr with
    | None => false
    | Some e => homesteadRule || negb (bool_decide (e = ErrCodeStoreOutOfGas))
    end in
  let fr := set_fr_stack fr ((if failed then 0 else Big addr) :: fr_stack fr) in
  let fr := set_fr_gas fr (u64 (fr_gas fr + returnGas)) in
  mret (fr, Ok (if bool_decide (suberr = Some errExecutionReverted) then res else [])).

Definition opCreate : executionFunc := fun cs evm fr =>
  r ← liftS (pop 3 fr);
  let '(args, fr) := r in
  input ← liftS (mem_Get (fr_mem fr) (i64 (arg args 1)) (i64 (arg args 2)));
  let gas := if IsEIP150 (evm_rules evm) then fr_gas fr - fr_gas fr / 64 else fr_gas fr in
  let fr := set_fr_gas fr (fr_gas fr - gas) in
  r ← do_Create cs evm (c_self (fr_contract fr)) input gas (arg args 0);
  finish_create fr (IsHomestead (evm_rules evm)) r.

Definition opCreate2 : executionFunc := fun cs evm fr =>
  r ← liftS (pop 4 fr);
  let '(args, fr) := r in
  input ← liftS (mem_Get (fr_mem fr) (i64 (arg args 1)) (i64 (arg args 2)));
  let gas := fr_gas fr - fr_gas fr / 64 in
  let fr := set_fr_gas fr (fr_gas fr - gas) in
  r ← do_Create2 cs evm (c_self (fr_contract fr)) input gas (arg args 0) (arg args 3);
  finish_create fr true r.

(** The result of a call: whether it succeeded goes onto the stack, the data
    into the memory unless it failed, the gas back to the caller. *)
Definition finish_call (fr : Frame) (retOffset retSize : Z) (r : bytes * Z * option string)
    : SM (Frame * result string bytes) :=
  let '(ret, returnGas, err) := r in
  let fr := set_fr_stack fr (flag (negb (is_some err)) :: fr_stack fr) in
  mem ← (if bool_decide (err = None) || bool_decide (err = Some errExecutionReverted)
         then liftS (mem_Set (fr_mem fr) (u64 retOffset) (u64 retSize) ret) else mret (fr_mem fr));
  mret (set_fr_gas (set_fr_mem fr mem) (u64 (fr_gas fr + returnGas)), Ok ret).

Definition opCall : executionFunc := fun cs evm fr =>
  r ← liftS (pop 7 fr);
  let '(args, fr) := r in
  let toAddr := BigToAddress (arg args 1) in
  let value := U256 (arg args 2) in
  input ← liftS (mem_Get (fr_mem fr) (i64 (arg args 3)) (i64 (arg args 4)));
  let gas := if value =? 0 then fr_callGasTemp fr else u64 (fr_callGasTemp fr + CallStipend) in
  r ← do_Call cs evm (c_self (fr_contract fr)) toAddr input gas value;
  finish_call fr (arg args 5) (arg args 6) r.

Definition opCallCode : executionFunc := fun cs evm fr =>
  r ← liftS (pop 7 fr);
  let '(args, fr) := r in
  let toAddr := BigToAddress (arg args 1) in
  let value := U256 (arg args 2) in
  input ← liftS (mem_Get (fr_mem fr) (i64 (arg args 3)) (i64 (arg args 4)));
  let gas := if value =? 0 then fr_callGasTemp fr else u64 (fr_callGasTemp fr + CallStipend) in
  r ← do_CallCode cs evm (fr_contract fr) toAddr input gas value;
  finish_call fr (arg args 5) (arg args 6) r.

Definition opDelegateCall : executionFunc := fun cs evm fr =>
  r ← liftS (pop 6 fr);
  let '(args, fr) := r in
  input ← liftS (mem_Get (fr_mem fr) (i64 (arg args 2)) (i64 (arg args 3)));
  r ← do_DelegateCall cs evm (fr_contract fr) (BigToAddress (arg args 1)) input (fr_callGasTemp fr);
  finish_call fr (arg args 4) (arg args 5) r.

Definition opStaticCall : executionFunc := fun cs evm fr =>
  r ← liftS (pop 6 fr);
  let '(args, fr) := r in
  input ← liftS (mem_Get (fr_mem fr) (i64 (arg args 2)) (i64 (arg args 3)));
  r ← do_StaticCall cs evm (c_self (fr_contract fr)) (BigToAddress (arg args 1)) input (fr_callGasTemp fr);
  finish_call fr (arg args 4) (arg args 5) r.

Definition opReturn : executionFunc := fun cs evm fr =>
  r ← liftS (pop 2 fr);
  let '(args, fr) := r in
  ret ← liftS (mem_GetPtr (fr_mem fr) (i64 (arg args 0)) (i64 (arg args 1)));
  mret (fr, Ok ret).
Definition opRevert : executionFunc := opReturn.
Definition opStop : executionFunc := fun cs evm fr => done_ fr.

Definition opSuicide : executionFunc := fun cs evm fr =>
  balance ← GetBalance (c_self (fr_contract fr));
  r ← liftS (pop 1 fr);
  let '(args, fr) := r in
  AddBalance (BigToAddress (arg args 0)) balance ;;
  _ ← Suicide (c_self (fr_contract fr));
  done_ fr.

Definition makeLog (size : nat) : executionFunc := fun cs evm fr =>
  r ← liftS (pop (2 + size) fr);
  let '(args, fr) := r in
  d ← liftS (mem_Get (fr_mem fr) (i64 (arg args 0)) (i64 (arg args 1)));
  AddLog {| log_Address := c_self (fr_contract fr); log_Topics := BigToHash <$> drop 2 args; log_Data := d;
            log_BlockNumber := u64 (evm_BlockNumber evm); log_TxHash := zeroHash; log_TxIndex := 0;
            log_BlockHash := zeroHash; log_Index := 0; log_Removed := false |} ;;
  done_ fr.

Definition makePush (size : nat) : executionFunc := fun cs evm fr =>
  let code := c_Code (fr_contract fr) in
  let startMin := Nat.min (length code) (Z.to_nat (fr_pc fr + 1)) in
  let endMin := Nat.min (length code) (startMin + size) in
  let integer := be_uint (RightPadBytes (take (endMin - startMin) (drop startMin code)) size) in
  push (set_fr_pc fr (u64 (fr_pc fr + Z.of_nat size))) integer.

Definition makeDup (size : nat) : executionFunc := fun cs evm fr =>
  x ← liftS (Back (fr_stack fr) (size - 1)); push fr x.

(** The topmost number and the one [size] below it change places. *)
Definition makeSwap (size : nat) : executionFunc := fun cs evm fr =>
  x ← liftS (Back (fr_stack fr) 0);
  y ← liftS (Back (fr_stack fr) size);
  done_ (set_fr_stack fr (<[size := x]> (<[0%nat := y]> (fr_stack fr)))).

(** ** The jump table (jump_table.go) *)
Record operation := {
  op_execute : executionFunc;
  op_gasCost : gasFunc;
  op_pops : nat;
  op_pushes : nat;
  op_memorySize : option memorySizeFunc;
  op_halts : bool;
  op_jumps : bool;
  op_writes : bool;
  op_reverts : bool;
  op_returns : bool }.

Definition simple (e : executionFunc) (g : gasFunc) (pops pushes : nat) : operation :=
  {| op_execute := e; op_gasCost := g; op_pops := pops; op_pushes := pushes; op_memorySize := None; op_halts := false;
     op_jumps := false; op_writes := false; op_reverts := false; op_returns := false |}.
Definition with_mem (o : operation) (m : memorySizeFunc) : operation :=
  {| op_execute := op_execute o; op_gasCost := op_gasCost o; op_pops := op_pops o; op_pushes := op_pushes o;
     op_memorySize := Some m; op_halts := op_halts o; op_jumps := op_jumps o; op_writes := op_writes o;
     op_reverts := op_reverts o; op_returns := op_returns o |}.
Definition halting (o : operation) : operation :=
  {| op_execute := op_execute o; op_gasCost := op_gasCost o; op_pops := op_pops o; op_pushes := op_pushes o;
     op_memorySize := op_memorySize o; op_halts := true; op_jumps := op_jumps o; op_writes := op_writes o;
     op_reverts := op_reverts o; op_returns := op_returns o |}.
Definition jumping (o : operation) : operation :=
  {| op_execute := op_execute o; op_gasCost := op_gasCost o; op_pops := op_pops o; op_pushes := op_pushes o;
     op_memorySize := op_memorySize o; op_halts := op_halts o; op_jumps := true; op_writes := op_writes o;
     op_reverts := op_reverts o; op_returns := op_returns o |}.
Definition writing (o : operation) : operation :=
  {| op_execute := op_execute o; op_gasCost := op_gasCost o; op_pops := op_pops o; op_pushes := op_pushes o;
     op_memorySize := op_memorySize o; op_halts := op_halts o; op_jumps := op_jumps o; op_writes := true;
     op_reverts := op_reverts o; op_returns := op_returns o |}.
Definition reverting (o : operation) : operation :=
  {| op_execute := op_execute o; op_gasCost := op_gasCost o; op_pops := op_pops o; op_pushes := op_pushes o;
     op_memorySize := op_memorySize o; op_halts := op_halts o; op_jumps := op_jumps o; op_writes := op_writes o;
     op_reverts := true; op_returns := op_returns o |}.
Definition returning (o : operation) : operation :=
  {| op_execute := op_execute o; op_gasCost := op_gasCost o; op_pops := op_pops o; op_pushes := op_pushes o;
     op_memorySize := op_memorySize o; op_halts := op_halts o; op_jumps := op_jumps o; op_writes := op_writes o;
     op_reverts := op_reverts o; op_returns := true |}.

Definition quick (e : executionFunc) : operation := simple e (constGasFunc GasQuickStep) 0 1.
Definition arith (op : Stack -> outcome Stack) (gas : Z) (pops : nat) : operation :=
  simple (on_stack op) (constGasFunc gas) pops 1.

Definition pushes : list (Z * operation) :=
  (fun n => (PUSH1 + Z.of_nat n - 1, simple (makePush n) gasPush 0 1)) <$> seq 1 32.
Definition dups : list (Z * operation) :=
  (fun n => (128 + Z.of_nat n - 1, simple (makeDup n) gasDup n (n + 1))) <$> seq 1 16.
Definition swaps : list (Z * operation) :=
  (fun n => (144 + Z.of_nat n - 1, simple (makeSwap n) gasSwap (n + 1) (n + 1))) <$> seq 1 16.
Definition logs : list (Z * operation) :=
  (fun n => (160 + Z.of_nat n, writing (with_mem (simple (makeLog n) (makeGasLog n) (2 + n) 0) memoryLog))) <$> seq 0 5.

Definition frontierInstructionSet : list (Z * operation) :=
  [(0, halting (simple opStop (constGasFunc 0) 0 0));
   (1, arith opAdd GasFastestStep 2);
   (2, arith opMul GasFastStep 2);
   (3, arith opSub GasFastestStep 2);
   (4, arith opDiv GasFastStep 2);
   (5, arith opSdiv GasFastStep 2);
   (6, arith opMod GasFastStep 2);
   (7, arith opSmod GasFastStep 2);
   (8, arith opAddmod GasMidStep 3);
   (9, arith opMulmod GasMidStep 3);
   (10, simple (on_stack opExp) gasExp 2 1);
   (11, arith opSignExtend GasFastStep 2);
   (16, arith opLt GasFastestStep 2);
   (17, arith opGt GasFastestStep 2);
   (18, arith opSlt GasFastestStep 2);
   (19, arith opSgt GasFastestStep 2);
   (20, arith opEq GasFastestStep 2);
   (21, arith opIszero GasFastestStep 1);
   (22, arith opAnd GasFastestStep 2);
   (23, arith opOr GasFastestStep 2);
   (24, arith opXor GasFastestStep 2);
   (25, arith opNot GasFastestStep 1);
   (26, arith opByte GasFastestStep 2);
   (32, with_mem (simple opSha3 gasSha3 2 1) memorySha3);
   (48, quick opAddress);
   (49, simple opBalance gasBalance 1 1);
   (50, quick opOrigin);
   (51, quick opCaller);
   (52, quick opCallValue);
   (53, simple opCallDataLoad (constGasFunc GasFastestStep) 1 1);
   (54, quick opCallDataSize);
   (55, with_mem (simple opCallDataCopy gasCallDataCopy 3 0) memoryCallDataCopy);
   (56, quick opCodeSize);
   (57, with_mem (simple opCodeCopy gasCodeCopy 3 0) memoryCodeCopy);
   (58, quick opGasprice);
   (59, simple opExtCodeSize gasExtCodeSize 1 1);
   (60, with_mem (simple opExtCodeCopy gasExtCodeCopy 4 0) memoryExtCodeCopy);
   (64, simple opBlockhash (constGasFunc GasExtStep) 1 1);
   (65, quick opCoinbase);
   (66, quick opTimestamp);
   (67, quick opNumber);
   (68, quick opDifficulty);
   (69, quick opGasLimit);
   (80, simple opPop (constGasFunc GasQuickStep) 1 0);
   (81, with_mem (simple opMload gasMLoad 1 1) memoryMLoad);
   (82, with_mem (simple opMstore gasMStore 2 0) memoryMStore);
   (83, with_mem (simple opMstore8 gasMStore8 2 0) memoryMStore8);
   (84, simple opSload gasSLoad 1 1);
   (85, writing (simple opSstore gasSStore 2 0));
   (86, jumping (simple opJump (constGasFunc GasMidStep) 1 0));
   (87, jumping (simple opJumpi (constGasFunc GasSlowStep) 2 0));
   (88, quick opPc);
   (89, quick opMsize);
   (90, quick opGas);
   (91, simple opJumpdest (constGasFunc 1) 0 0)]
  ++ pushes ++ dups ++ swaps ++ logs ++
  [(240, returning (writing (with_mem (simple opCreate gasCreate 3 1) memoryCreate)));
   (241, returning (with_mem (simple opCall gasCall 7 1) memoryCall));
   (242, returning (with_mem (simple opCallCode gasCallCode 7 1) memoryCall));
   (243, halting (with_mem (simple opReturn gasReturn 2 0) memoryReturn));
   (255, writing (halting (simple opSuicide gasSuicide 1 0)))].

Definition homesteadInstructionSet : list (Z * operation) :=
  (244, returning (with_mem (simple opDelegateCall gasDelegateCall 6 1) memoryDelegateCall)) :: frontierInstructionSet.

Definition byzantiumInstructionSet : list (Z * operation) :=
  [(250, returning (with_mem (simple opStaticCall gasStaticCall 6 1) memoryStaticCall));
   (61, quick opReturnDataSize);
   (62, with_mem (simple opReturnDataCopy gasReturnDataCopy 3 0) memoryReturnDataCopy);
   (253, returning (reverting (with_mem (simple opRevert gasRevert 2 0) memoryRevert)))]
  ++ homesteadInstructionSet.

Definition constantinopleInstructionSet : list (Z * operation) :=
  [(27, arith opSHL GasFastestStep 2);
   (28, arith opSHR GasFastestStep 2);
   (29, arith opSAR GasFastestStep 2);
   (63, simple opExtCodeHash gasExtCodeHash 1 1);
   (245, returning (writing (with_mem (simple opCreate2 gasCreate2 4 1) memoryCreate2)))]
  ++ byzantiumInstructionSet.

Definition JumpTable (r : Rules) : list (Z * operation) :=
  if IsConstantinople r then constantinopleInstructionSet
  else if IsByzantium r then byzantiumInstructionSet
  else if IsHomestead r then homesteadInstructionSet else frontierInstructionSet.

Fixpoint table_get (table : list (Z * operation)) (op : Z) : option operation :=
  match table with
  | [] => None
  | (op', o) :: table => if op =? op' then Some o else table_get table op
  end.

(** ** The loop (interpreter.go) *)
Definition validateStack (o : operation) (st : Stack) : bool :=
  (op_pops o <=? length st)%nat && (length st + op_pushes o - op_pops o <=? StackLimit)%nat.

Definition CALL : Z := 241.
Definition enforceRestrictions (evm : EVM) (op : Z) (o : operation) (st : Stack) : outcome bool :=
  if IsByzantium (evm_rules evm) && evm_readOnly evm then
    if op_writes o then Ret false
    else if op =? CALL then value ← Back st 2; Ret (BitLen value <=? 0)
    else Ret true
  else Ret true.

(** The size of the memory for the operation, in bytes of whole words. *)
Definition memorySize (o : operation) (st : Stack) : outcome (option Z) :=
  match op_memorySize o with
  | None => Ret (Some 0)
  | Some f =>
    size ← f st;
    let '(memSize, overflow) := bigUint64 size in
    if overflow then Ret None
    else let '(m, overflow) := SafeMul (toWordSize memSize) 32 in Ret (if overflow then None else Some m)
  end.

(** How a step ends: with the run, or with the next frame. *)
Inductive next := Stops (gas : Z) (ret : bytes) (err : option string) | Goes (fr : Frame).

Definition fails (fr : Frame) (e : string) : SM next := mret (Stops (fr_gas fr) [] (Some e)).

(** After the gas is taken: the memory grows, and the instruction runs. *)
Definition perform (cs : Calls) (evm : EVM) (o : operation) (memorySize : Z) (fr : Frame) : SM next :=
  let fr := if 0 <? memorySize then set_fr_mem fr (mem_Resize (fr_mem fr) memorySize) else fr in
  r ← op_execute o cs evm fr;
  let '(fr, res) := r in
  match res with
  | Err e => fails fr e
  | Ok res =>
    let fr := if op_returns o then set_fr_returnData fr res else fr in
    if op_reverts o then mret (Stops (fr_gas fr) res (Some errExecutionReverted))
    else if op_halts o then mret (Stops (fr_gas fr) res None)
    else if op_jumps o then mret (Goes fr)
    else mret (Goes (set_fr_pc fr (u64 (fr_pc fr + 1))))
  end.

(** The gas is taken first. *)
Definition charge (cs : Calls) (evm : EVM) (o : operation) (size : Z) (fr : Frame) : SM next :=
  r ← op_gasCost o evm fr size;
  let '(fr, cost) := r in
  match cost with
  | Err e => fails fr ErrOutOfGas
  | Ok cost =>
    match UseGas (fr_gas fr) cost with
    | None => fails fr ErrOutOfGas
    | Some gas => perform cs evm o size (set_fr_gas fr gas)
    end
  end.

Definition exec_step (cs : Calls) (evm : EVM) (fr : Frame) : SM next :=
  let op := GetOp (fr_contract fr) (fr_pc fr) in
  match table_get (JumpTable (evm_rules evm)) op with
  | None => fails fr "invalid opcode"
  | Some o =>
    if negb (validateStack o (fr_stack fr)) then fails fr "stack underflow or limit reached"
    else
      allowed ← liftS (enforceRestrictions evm op o (fr_stack fr));
      if negb allowed then fails fr errWriteProtection
      else
        size ← liftS (memorySize o (fr_stack fr));
        match size with
        | None => fails fr errGasUintOverflow
        | Some size => charge cs evm o size fr
        end
  end.

(** ** Running a contract (evm.go) *)

(** A run of the loop, in the environment inside the contract. *)
Definition Loop : Type := EVM -> Frame -> SM (Z * bytes * option string).

(** EVMInterpreter.Run: the gas that is left, the data and the error. *)
Definition Interpreter_Run (loop : Loop) (evm : EVM) (c : Contract) (gas : Z) (readOnly : bool)
    : SM (Z * bytes * option string) :=
  match c_Code c with
  | [] => mret (gas, [], None)
  | _ => loop (evm_enter evm readOnly) (newFrame c gas)
  end.

Definition RunPrecompiledContract (p : PrecompiledContract) (input : bytes) (gas : Z) : SM (Z * bytes * option string) :=
  required ← liftS (precompiled_RequiredGas p input);
  match UseGas gas required with
  | None => mret (gas, [], Some ErrOutOfGas)
  | Some gas =>
    r ← liftS (precompiled_Run p input);
    mret (match r with Ok ret => (gas, ret, None) | Err e => (gas, [], Some e) end)
  end.

Definition evm_run (loop : Loop) (evm : EVM) (c : Contract) (gas : Z) (readOnly : bool) : SM (Z * bytes * option string) :=
  match precompiled (IsByzantium (evm_rules evm)) (c_CodeAddr c) with
  | Some p => RunPrecompiledContract p (c_Input c) gas
  | None => Interpreter_Run loop evm c gas readOnly
  end.

Definition CanTransfer (addr : bytes) (amount : Z) : SM bool := balance ← GetBalance addr; mret (amount <=? balance).
Definition Transfer (sender recipient : bytes) (amount : Z) : SM unit :=
  SubBalance sender amount ;; AddBalance recipient amount.

(** An error undoes what was done since the snapshot, and takes the gas unless
    the contract asked for it. *)
Definition undo_on_error (snapshot : Z) (r : Z * bytes * option string) : SM (bytes * Z * option string) :=
  let '(gas, ret, err) := r in
  match err with
  | None => mret (ret, gas, None)
  | Some e =>
    RevertToSnapshot snapshot ;;
    mret (ret, if bool_decide (e = errExecutionReverted) then gas else 0, Some e)
  end.

(** The checks before a call: the answer when there is no need to run. *)
Definition refuse (evm : EVM) (gas : Z) : option (bytes * Z * option string) :=
  if evm_NoRecursion evm && (0 <? evm_depth evm) then Some ([], gas, None)
  else if CallCreateDepth <? evm_depth evm then Some ([], gas, Some ErrDepth)
  else None.

Definition evm_Call (loop : Loop) (evm : EVM) (caller addr input : bytes) (gas value : Z) : SM (bytes * Z * option string) :=
  match refuse evm gas with
  | Some r => mret r
  | None =>
    can ← CanTransfer caller value;
    if negb can then mret ([], gas, Some ErrInsufficientBalance)
    else
      snapshot ← Snapshot;
      exist ← Exist addr;
      if negb exist && negb (is_some (precompiled (IsByzantium (evm_rules evm)) addr)) && IsEIP158 (evm_rules evm)
         && (value =? 0)
      then mret ([], gas, None)
      else
        (if (exist : bool) then mret tt else CreateAccount addr) ;;
        Transfer caller addr value ;;
        codeHash ← GetCodeHash addr;
        code ← GetCode addr;
        r ← evm_run loop evm
              {| c_CallerAddress := caller; c_self := addr; c_Code := default [] code; c_CodeHash := codeHash;
                 c_CodeAddr := addr; c_Input := input; c_value := value |} gas false;
        undo_on_error snapshot r
  end.

(** The code of one account in the place of another. *)
Definition run_code (loop : Loop) (evm : EVM) (callerAddress self addr input : bytes) (gas value : Z) (readOnly : bool)
    : SM (bytes * Z * option string) :=
  snapshot ← Snapshot;
  codeHash ← GetCodeHash addr;
  code ← GetCode addr;
  r ← evm_run loop evm
        {| c_CallerAddress := callerAddress; c_self := self; c_Code := default [] code; c_CodeHash := codeHash;
           c_CodeAddr := addr; c_Input := input; c_value := value |} gas readOnly;
  undo_on_error snapshot r.

Definition evm_CallCode (loop : Loop) (evm : EVM) (caller : Contract) (addr input : bytes) (gas value : Z)
    : SM (bytes * Z * option string) :=
  match refuse evm gas with
  | Some r => mret r
  | None =>
    can ← CanTransfer (c_self caller) value;
    if negb can then mret ([], gas, Some ErrInsufficientBalance)
    else run_code loop evm (c_self caller) (c_self caller) addr input gas value false
  end.

Definition evm_DelegateCall (loop : Loop) (evm : EVM) (parent : Contract) (addr input : bytes) (gas : Z)
    : SM (bytes * Z * option string) :=
  match refuse evm gas with
  | Some r => mret r
  | None => run_code loop evm (c_CallerAddress parent) (c_self parent) addr input gas (c_value parent) false
  end.

Definition evm_StaticCall (loop : Loop) (evm : EVM) (caller addr input : bytes) (gas : Z) : SM (bytes * Z * option string) :=
  match refuse evm gas with
  | Some r => mret r
  | None => run_code loop evm caller addr addr input gas 0 true
  end.

(** What becomes of the code that a constructor returned. *)
Definition deposit_code (evm : EVM) (address : bytes) (r : Z * bytes * option string) : SM (Z * bytes * option string) :=
  let '(gas, ret, err) := r in
  let maxCodeSizeExceeded := IsEIP158 (evm_rules evm) && (MaxCodeSize <? Z.of_nat (length ret)) in
  match err with
  | None =>
    if maxCodeSizeExceeded then mret (gas, ret, None)
    else
      match UseGas gas (u64 (Z.of_nat (length ret) * CreateDataGas)) with
      | Some gas => SetCode address (Some ret) ;; mret (gas, ret, None)
      | None => mret (gas, ret, Some ErrCodeStoreOutOfGas)
      end
  | Some e => mret (gas, ret, Some e)
  end.

Definition evm_create (loop : Loop) (evm : EVM) (caller code : bytes) (gas value : Z) (address : bytes)
    : SM (bytes * bytes * Z * option string) :=
  if CallCreateDepth <? evm_depth evm then mret ([], zeroHash, gas, Some ErrDepth)
  else
    can ← CanTransfer caller value;
    if negb can then mret ([], zeroHash, gas, Some ErrInsufficientBalance)
    else
      nonce ← GetNonce caller;
      SetNonce caller (u64 (nonce + 1)) ;;
      contractHash ← GetCodeHash address;
      nonce ← GetNonce address;
      if negb (nonce =? 0) || (negb (bool_decide (contractHash = zeroHash)) && negb (bool_decide (contractHash = emptyCodeHash)))
      then mret ([], zeroHash, 0, Some ErrContractAddressCollision)
      else
        snapshot ← Snapshot;
        CreateAccount address ;;
        (if IsEIP158 (evm_rules evm) then SetNonce address 1 else mret tt) ;;
        Transfer caller address value ;;
        if evm_NoRecursion evm && (0 <? evm_depth evm) then mret ([], address, gas, None)
        else
          r ← evm_run loop evm
                {| c_CallerAddress := caller; c_self := address; c_Code := code; c_CodeHash := Keccak256 code;
                   c_CodeAddr := address; c_Input := []; c_value := value |} gas false;
          r ← deposit_code evm address r;
          let '(gas, ret, err) := r in
          let maxCodeSizeExceeded := IsEIP158 (evm_rules evm) && (MaxCodeSize <? Z.of_nat (length ret)) in
          let undo := maxCodeSizeExceeded
            || match err with
               | Some e => IsHomestead (evm_rules evm) || negb (bool_decide (e = ErrCodeStoreOutOfGas))
               | None => false
               end in
          (if undo then RevertToSnapshot snapshot else mret tt) ;;
          let gas := if undo && negb (bool_decide (err = Some errExecutionReverted)) then 0 else gas in
          mret (ret, address, gas,
            if maxCodeSizeExceeded && negb (is_some err) then Some errMaxCodeSizeExceeded else err).

(** crypto.CreateAddress and CreateAddress2. *)
Class AddressLib := {
  CreateAddress : bytes -> Z -> bytes;
  CreateAddress2 : bytes -> bytes -> bytes -> bytes }.
Context {AL : AddressLib}.

Definition evm_Create (loop : Loop) (evm : EVM) (caller code : bytes) (gas value : Z)
    : SM (bytes * bytes * Z * option string) :=
  nonce ← GetNonce caller;
  evm_create loop evm caller code gas value (CreateAddress caller nonce).

Definition evm_Create2 (loop : Loop) (evm : EVM) (caller code : bytes) (gas endowment salt : Z)
    : SM (bytes * bytes * Z * option string) :=
  evm_create loop evm caller code gas endowment (CreateAddress2 caller (BigToHash salt) code).

Definition calls_of (loop : Loop) : Calls :=
  {| do_Call := evm_Call loop; do_CallCode := evm_CallCode loop; do_DelegateCall := evm_DelegateCall loop;
     do_StaticCall := evm_StaticCall loop; do_Create := evm_Create loop; do_Create2 := evm_Create2 loop |}.

(** The loop of EVMInterpreter.Run. *)
Fixpoint exec_loop (fuel : nat) (evm : EVM) (fr : Frame) : SM (Z * bytes * option string) :=
  match fuel with
  | O => mret (fr_gas fr, [], Some errOutOfFuel)
  | S fuel =>
    r ← exec_step (calls_of (exec_loop fuel)) evm fr;
    match r with
    | Stops gas ret err => mret (gas, ret, err)
    | Goes fr => exec_loop fuel evm fr
    end
  end.

End Machine.
