(* ===== verification/VmToy.v ===== *)
(** * A small machine

    Concrete functions in the place of the hashes and curves that the contracts
    of VmPrecompiled.v use and of the addresses of new contracts, an
    environment and a few contracts, for the examples. *)
From S2P Require Import Prelude Rlp StateData StateToy StateDB StateObs StateRevert StateClient VmWord VmCode VmPrecompiled Vm.
Local Open Scope Z_scope.

Module VmToy.
Import ClientExamples.

#[export] Instance toyPrecompiled : PrecompiledLib := {|
  ecrecover_Run := fun b => [];
  sha256_Sum256 := toy_hash;
  ripemd160_Sum := fun b => take 20 (toy_hash b);
  bn256Add_Run := fun b => Ok b;
  bn256ScalarMul_Run := fun b => Ok b;
  bn256_PairingCheck := fun b => Ok true |}.

#[export] Instance toyAddress : AddressLib := {|
  CreateAddress := fun a n => toy_hash (a ++ [n]);
  CreateAddress2 := fun a salt code => toy_hash (a ++ salt ++ code) |}.

Definition ex_evm : EVM :=
  {| evm_Origin := alice; evm_GasPrice := 1; evm_Coinbase := bob; evm_GasLimit := 1000000; evm_BlockNumber := 5;
     evm_Time := 100; evm_Difficulty := 1; evm_GetHash := fun _ => zeroHash;
     evm_rules := {| IsHomestead := true; IsEIP150 := true; IsEIP158 := true; IsByzantium := true; IsConstantinople := false |};
     evm_NoRecursion := false; evm_EnablePreimageRecording := false; evm_depth := 0; evm_readOnly := false |}.

(** For ever: JUMPDEST, PUSH1 0, JUMP. *)
Definition spinner : bytes := [91; 96; 0; 86].
(** Stores 1 at 7 and ends with an instruction that does not exist. *)
Definition failing : bytes := [96; 1; 96; 7; 85; 254].
(** Stores 1 at 7. *)
Definition writing_code : bytes := [96; 1; 96; 7; 85; 0].
(** Adds 2 and 3 and returns the word. *)
Definition adding : bytes := [96; 2; 96; 3; 1; 96; 0; 82; 96; 32; 96; 0; 243].

Definition carol : bytes := replicate 31 0 ++ [99].

(** alice has money, and there is a contract at carol's address. *)
Definition ex_deploy (code : bytes) : client :=
  Change (MAddBalance alice 1000) (Change (MSetCode carol (Some code)) (Done true)).
Definition ex_with (code : bytes) : StateDB := state_of ex_new (runClient (ex_deploy code) ex_new).

Lemma ex_with_swf code : ans (runClient (ex_deploy code) ex_new) = Some true -> swf (ex_with code).
Proof.
  intros H. assert (swf ex_new) as W by (apply (New_swf (L := toyLib) toy_empty); reflexivity).
  refine (proj1 (runClient_ok (ex_deploy code) ex_new (ex_with code) true W _)). apply run_state. exact H.
Qed.

Definition ex_call (code : bytes) (fuel : nat) (gas value : Z) : outcome (StateDB * (bytes * Z * option string)) :=
  evm_Call (exec_loop fuel) ex_evm alice carol [] gas value (ex_with code).

(** The result of [2 + 3]. *)
Lemma adding_adds : ans (ex_call adding 20 1000 0) = Some (replicate 31 0 ++ [5], 976, None).
Proof. vm_compute. reflexivity. Qed.

End VmToy.
