(* ===== verification/VmGas.v ===== *)
(** * Gas

    Every instruction of the virtual machine that does not end the run costs
    gas, and what a call is given is taken from its caller.  So no run leaves
    more gas than it was given, and the loop of Vm.v, whose fuel is one unit per
    instruction, never needs more fuel than there is gas. *)
From S2P Require Import Prelude Rlp StateData StateToy StateDB StateRevert StateClient VmWord VmCode VmPrecompiled Vm VmToy.
Local Open Scope Z_scope.

(** ** Results, whatever the state *)
Section Gives.
Context {L : TrieLib}.

Definition gives {A} (m : SM A) (P : A -> Prop) : Prop := forall s s' x, m s = Ret (s', x) -> P x.

Lemma gives_ret {A} (x : A) P : P x -> gives (mret x) P.
Proof. intros H s s' y [= _ <-]. done. Qed.
Lemma gives_bind {A B} (m : SM A) (f : A -> SM B) Q P :
  gives m Q -> (forall x, Q x -> gives (f x) P) -> gives (x ← m; f x) P.
Proof. intros Hm Hf s s' y H. apply SM_bind_inv in H as (s1 & x & H1 & H2). eapply Hf; [|exact H2]. eapply Hm. exact H1. Qed.
Lemma gives_any {A B} (m : SM A) (f : A -> SM B) P : (forall x, gives (f x) P) -> gives (x ← m; f x) P.
Proof. intros Hf. apply (gives_bind m f (fun _ => True)); [done|auto]. Qed.
Lemma gives_weaken {A} (m : SM A) (P Q : A -> Prop) : gives m P -> (forall x, P x -> Q x) -> gives m Q.
Proof. intros Hm HPQ s s' x H. eapply HPQ, Hm. exact H. Qed.
Lemma gives_lift {A} (m : outcome A) (P : A -> Prop) : (forall x, m = Ret x -> P x) -> gives (liftS m) P.
Proof. intros H s s' x Hx. unfold liftS in Hx. destruct m; [|done]. injection Hx as _ <-. auto. Qed.

(** Two computations that do the same, with such results. *)
Definition twin {A} (m1 m2 : SM A) (P : A -> Prop) : Prop := forall s, m1 s = m2 s /\ forall s' x, m1 s = Ret (s', x) -> P x.

Lemma twin_same {A} (m : SM A) P : gives m P -> twin m m P.
Proof. intros H s. split; [done|]. intros s' x E. eapply H. exact E. Qed.
Lemma twin_ret {A} (x : A) (P : A -> Prop) : P x -> twin (mret x) (mret x) P.
Proof. intros H. apply twin_same, gives_ret. done. Qed.
Lemma twin_bind {A B} (m1 m2 : SM A) (f1 f2 : A -> SM B) Q P :
  twin m1 m2 Q -> (forall x, Q x -> twin (f1 x) (f2 x) P) -> twin (x ← m1; f1 x) (x ← m2; f2 x) P.
Proof.
  intros Hm Hf s. destruct (Hm s) as [E HQ]. unfold mbind, SM_bind. rewrite <- E.
  destruct (m1 s) as [[s1 x]|]; [|done]. apply Hf. eapply HQ. done.
Qed.
Lemma twin_any {A B} (m : SM A) (f1 f2 : A -> SM B) P :
  (forall x, twin (f1 x) (f2 x) P) -> twin (x ← m; f1 x) (x ← m; f2 x) P.
Proof. intros Hf. apply (twin_bind _ _ _ _ (fun _ => True)); [apply twin_same; done|auto]. Qed.
Lemma twin_weaken {A} (m1 m2 : SM A) (P Q : A -> Prop) : twin m1 m2 P -> (forall x, P x -> Q x) -> twin m1 m2 Q.
Proof. intros Hm HPQ s. destruct (Hm s) as [E H]. split; [done|]. intros s' x Hx. eapply HPQ, H. exact Hx. Qed.

End Gives.

Section Gas.
Context {L : TrieLib} {PL : PrecompiledLib} {AL : AddressLib}.

(** ** What the gas functions answer *)

(** They change the memory's price and the gas for a call only. *)
Definition same_frame (fr fr' : Frame) : Prop :=
  fr_pc fr' = fr_pc fr /\ fr_stack fr' = fr_stack fr /\ fr_contract fr' = fr_contract fr /\ fr_gas fr' = fr_gas fr.

Lemma same_frame_refl fr : same_frame fr fr.
Proof. split_and!; done. Qed.

Definition costs (n : Z) (g : gasFunc) : Prop := forall evm fr size,
  gives (g evm fr size) (fun r => same_frame fr (fst r) /\ forall cost, snd r = Ok cost -> n <= cost).

(** Sums that do not overflow. *)
Lemma add_gas_Ok r x g : add_gas r x = Ok g -> (forall v, r = Ok v -> 0 <= v) -> 0 <= x ->
  exists v, r = Ok v /\ 0 <= v /\ g = v + x /\ g < 2 ^ 64.
Proof.
  unfold add_gas, SafeAdd. destruct r as [v|]; [|done]. destruct (Z.ltb_spec (2 ^ 64 - 1 - v) x); [done|].
  intros [= <-] Hv Hx. specialize (Hv v eq_refl). exists v. rewrite u64_id by lia. split_and!; try done; lia.
Qed.

Lemma mem_gas_spec fr size fr' r : mem_gas fr size = (fr', r) ->
  same_frame fr fr' /\ (forall v, r = Ok v -> 0 <= v).
Proof.
  unfold mem_gas. destruct (memoryGasCost (fr_mem fr) size) as [mem gas] eqn:E. intros [= <- <-].
  split; [split_and!; done|]. intros v ->. unfold memoryGasCost in E.
  repeat match type of E with context [if ?b then _ else _] => destruct b end; injection E as _ E; subst; try done.
  apply u64_range.
Qed.

Lemma word_gas_nonneg v price w : word_gas v price = Ok w -> 0 <= w.
Proof.
  unfold word_gas, bigUint64. destruct (64 <? BitLen v); [done|]. unfold SafeMul. destruct (_ || _); [intros [= <-]; lia|].
  destruct (_ <? _); [done|]. intros [= <-]. apply u64_range.
Qed.

Lemma costs_const n : costs n (constGasFunc n).
Proof. intros evm fr size. apply gives_ret. split; [apply same_frame_refl|]. intros c [= <-]. done. Qed.

Lemma costs_mem n : 0 <= n -> costs n (memGasFunc n).
Proof.
  intros Hn evm fr size. unfold memGasFunc. destruct (mem_gas fr size) as [fr' r] eqn:E.
  apply mem_gas_spec in E as [F Hr]. apply gives_ret. split; [done|]. intros c Hc. cbn [snd] in Hc.
  apply add_gas_Ok in Hc as (v & _ & ? & -> & _); [lia|done|done].
Qed.

Lemma costs_copy n k price : 0 <= n -> costs n (copyGasFunc n k price).
Proof.
  intros Hn evm fr size. unfold copyGasFunc. destruct (mem_gas fr size) as [fr' r] eqn:E.
  apply mem_gas_spec in E as [F Hr]. apply gives_any. intros words. apply gives_ret. split; [done|]. intros c Hc. cbn [snd] in Hc.
  unfold add_result in Hc. destruct (add_gas r n) as [g|] eqn:Eg; [|done]. destruct (word_gas words price) as [w|] eqn:Ew; [|done].
  apply add_gas_Ok in Eg as (v & _ & ? & -> & _); [|done|done]. apply word_gas_nonneg in Ew.
  apply add_gas_Ok in Hc as (v' & [= <-] & ? & -> & _); [lia| |done]. intros ? [= <-]. lia.
Qed.

Lemma costs_return : costs 0 gasReturn.
Proof.
  intros evm fr size. unfold gasReturn. destruct (mem_gas fr size) as [fr' r] eqn:E. apply mem_gas_spec in E as [F Hr].
  apply gives_ret. split; [done|]. intros c Hc. apply (Hr c). done.
Qed.

Lemma costs_table f n : (forall evm, n <= f (gasTable (evm_rules evm))) ->
  costs n (fun evm => constGasFunc (f (gasTable (evm_rules evm))) evm).
Proof. intros H evm fr size. apply gives_ret. split; [apply same_frame_refl|]. intros c [= <-]. apply H. Qed.

Lemma gasTable_cases r : gasTable r = GasTableEIP158 \/ gasTable r = GasTableEIP150 \/ gasTable r = GasTableHomestead.
Proof. unfold gasTable. destruct (IsEIP158 r), (IsEIP150 r); auto. Qed.

(** Every entry that is used has a price. *)
Ltac table_price :=
  intros; match goal with |- context [gasTable ?r] => destruct (gasTable_cases r) as [-> | [-> | ->]] end; cbn; lia.

Lemma costs_Balance : costs 20 gasBalance.
Proof. apply costs_table. table_price. Qed.
Lemma costs_ExtCodeSize : costs 20 gasExtCodeSize.
Proof. apply costs_table. table_price. Qed.
Lemma costs_SLoad : costs 50 gasSLoad.
Proof. apply costs_table. table_price. Qed.
Lemma costs_ExtCodeCopy : costs 20 gasExtCodeCopy.
Proof.
  intros evm fr size. unfold gasExtCodeCopy. eapply gives_weaken; [apply (costs_copy _ 3 3); table_price|].
  intros [fr' c] [F H]. split; [done|]. intros cost Hc. specialize (H cost Hc).
  assert (20 <= gt_ExtcodeCopy (gasTable (evm_rules evm))) by table_price. lia.
Qed.

Lemma costs_Exp : costs 10 gasExp.
Proof.
  intros evm fr size. apply gives_any. intros x. apply gives_ret. split; [apply same_frame_refl|]. intros c Hc. cbn [snd] in Hc.
  apply add_gas_Ok in Hc as (v & [= <-] & ? & -> & _); [unfold GasSlowStep; lia| |done]. intros v [= <-]. apply u64_range.
Qed.

Lemma costs_SStore : costs 5000 gasSStore.
Proof.
  intros evm fr size. do 3 (apply gives_any; intros ?). destruct (_ && _); [|destruct (_ && _)].
  - apply gives_ret. split; [apply same_frame_refl|]. intros c [= <-]. unfold SstoreSetGas. lia.
  - apply gives_any. intros ?. apply gives_ret. split; [apply same_frame_refl|]. intros c [= <-]. done.
  - apply gives_ret. split; [apply same_frame_refl|]. intros c [= <-]. done.
Qed.

Lemma costs_Log n : costs 375 (makeGasLog n).
Proof.
  intros evm fr size. apply gives_any. intros x. unfold bigUint64. destruct (64 <? BitLen x).
  { apply gives_ret. split; [apply same_frame_refl|done]. }
  destruct (mem_gas fr size) as [fr' r] eqn:E. apply mem_gas_spec in E as [F Hr].
  destruct (SafeMul (u64 x) 8) as [m overflow] eqn:Em. apply gives_ret. split; [done|]. intros c Hc. cbn [snd] in Hc.
  destruct overflow; [destruct (add_gas _ _); done|].
  assert (0 <= m) as Hm by (unfold SafeMul in Em; destruct (_ || _); injection Em as <-; [lia|apply u64_range]).
  assert (forall v, add_gas (add_gas r 375) (Z.of_nat n * 375) = Ok v -> 375 <= v) as Hv.
  { intros v H. apply add_gas_Ok in H as (w & Hw & ? & -> & _); [|intros w Hw|lia].
    - apply add_gas_Ok in Hw as (z & _ & ? & -> & _); [lia|done|lia].
    - apply add_gas_Ok in Hw as (z & _ & ? & -> & _); [lia|done|lia]. }
  apply add_gas_Ok in Hc as (v & Ev & ? & -> & _); [|intros v Ev; specialize (Hv v Ev); lia|done].
  specialize (Hv v Ev). lia.
Qed.

Lemma costs_Suicide : costs 0 gasSuicide.
Proof.
  intros evm fr size. unfold gasSuicide. apply (gives_bind _ _ (fun g => 0 <= g)).
  - destruct (IsEIP150 _); [|apply gives_ret; done]. do 2 (apply gives_any; intros ?). apply gives_ret.
    destruct (_ : bool); table_price.
  - intros g Hg. do 2 (apply gives_any; intros ?). apply gives_ret. split; [apply same_frame_refl|]. intros c [= <-]. done.
Qed.

(** A call costs its base price and the gas that it is given. *)
Definition call_costs (base : Frame -> Z) (g : gasFunc) : Prop := forall evm fr size,
  gives (g evm fr size) (fun r => same_frame fr (fst r)
    /\ forall cost, snd r = Ok cost -> 0 <= fr_callGasTemp (fst r) /\ base fr + fr_callGasTemp (fst r) <= cost).

Lemma callGas_nonneg gt avail base req g : callGas gt avail base req = Ok g -> 0 <= g.
Proof.
  unfold callGas. pose proof (u64_range (avail - base)). destruct (_ && _).
  - intros [= <-]. set (x := u64 _) in *. assert (x / 64 <= x) by (apply Z.div_le_upper_bound; lia). lia.
  - destruct (_ <? _); [done|]. intros [= <-]. apply u64_range.
Qed.

Lemma with_callGas_costs evm fr gas n : 0 <= n -> (forall g, gas = Ok g -> n <= g) ->
  gives (with_callGas evm fr gas) (fun r => same_frame fr (fst r)
    /\ forall cost, snd r = Ok cost -> 0 <= fr_callGasTemp (fst r) /\ n + fr_callGasTemp (fst r) <= cost).
Proof.
  intros Hn Hg. unfold with_callGas. destruct gas as [base|e]; [|apply gives_ret; split; [apply same_frame_refl|done]].
  specialize (Hg base eq_refl). apply gives_any. intros req. destruct (callGas _ _ _ _) as [g|e] eqn:E.
  - apply callGas_nonneg in E. apply gives_ret. split; [split_and!; done|]. intros c Hc. cbn [snd] in Hc.
    apply add_gas_Ok in Hc as (v & [= <-] & ? & -> & _); [cbn; lia|intros v [= <-]; lia|done].
  - apply gives_ret. split; [split_and!; done|done].
Qed.

(** The price of a call with a value. *)
Definition value_price (fr : Frame) : Z :=
  40 + match fr_stack fr !! 2%nat with Some v => if v =? 0 then 0 else CallValueTransferGas | None => 0 end.

Lemma base_costs base r x : base <= x -> 0 <= x -> (forall v, r = Ok v -> 0 <= v) -> forall g, add_gas r x = Ok g -> base <= g.
Proof. intros Hb Hx Hr g Hg. apply add_gas_Ok in Hg as (v & _ & ? & -> & _); [lia|done|done]. Qed.

Lemma calls_price evm : 40 <= gt_Calls (gasTable (evm_rules evm)).
Proof. table_price. Qed.

Lemma Back_lift {B} st n (f : Z -> SM B) P : (forall v, st !! n = Some v -> gives (f v) P) -> gives (v ← liftS (Back st n); f v) P.
Proof.
  intros H. apply (gives_bind _ _ (fun v => st !! n = Some v)); [|done]. apply gives_lift. intros v. unfold Back.
  destruct (st !! n); [intros [= ->]; done|done].
Qed.

Lemma call_costs_value_frame fr fr' : same_frame fr fr' -> value_price fr' = value_price fr.
Proof. intros (_ & E & _). unfold value_price. rewrite E. done. Qed.

Lemma with_callGas_frame base evm fr fr' gas : same_frame fr fr' -> 0 <= base -> (forall g, gas = Ok g -> base <= g) ->
  gives (with_callGas evm fr' gas) (fun r => same_frame fr (fst r)
    /\ forall cost, snd r = Ok cost -> 0 <= fr_callGasTemp (fst r) /\ base + fr_callGasTemp (fst r) <= cost).
Proof.
  intros (E1 & E2 & E3 & E4) Hn Hg. eapply gives_weaken; [apply (with_callGas_costs evm fr' gas base Hn Hg)|].
  intros r [(F1 & F2 & F3 & F4) H]. split; [split_and!; congruence|done].
Qed.

Lemma call_costs_Call : call_costs value_price gasCall.
Proof.
  intros evm fr size. unfold gasCall. apply Back_lift. intros value Hv. apply Back_lift. intros addr _.
  apply gives_any. intros new. destruct (mem_gas fr size) as [fr' r] eqn:E. apply mem_gas_spec in E as [F Hr].
  pose proof (calls_price evm). assert (0 <= value_price fr) by (unfold value_price; rewrite Hv; destruct (value =? 0); done).
  apply with_callGas_frame; [done|done|]. apply base_costs; [| |done]; unfold value_price; rewrite ?Hv;
    destruct new, (value =? 0); cbn [negb]; unfold CallNewAccountGas, CallValueTransferGas; lia.
Qed.

Lemma call_costs_CallCode : call_costs value_price gasCallCode.
Proof.
  intros evm fr size. unfold gasCallCode. apply Back_lift. intros value Hv.
  destruct (mem_gas fr size) as [fr' r] eqn:E. apply mem_gas_spec in E as [F Hr].
  pose proof (calls_price evm). assert (0 <= value_price fr) by (unfold value_price; rewrite Hv; destruct (value =? 0); done).
  apply with_callGas_frame; [done|done|]. apply base_costs; [| |done]; unfold value_price; rewrite ?Hv;
    destruct (value =? 0); unfold CallValueTransferGas; lia.
Qed.

Lemma call_costs_DelegateCall : call_costs (fun _ => 40) gasDelegateCall.
Proof.
  intros evm fr size. unfold gasDelegateCall. destruct (mem_gas fr size) as [fr' r] eqn:E. apply mem_gas_spec in E as [F Hr].
  pose proof (calls_price evm). apply with_callGas_frame; [done|lia|]. apply base_costs; [lia|lia|done].
Qed.

(** ** What the instructions do to the gas *)
Definition keeps_gas (e : executionFunc) : Prop := forall cs evm fr, gives (e cs evm fr) (fun r => fr_gas (fst r) = fr_gas fr).

Lemma pop_spec n fr args fr' : pop n fr = Ret (args, fr') ->
  args = take n (fr_stack fr) /\ fr' = set_fr_stack fr (drop n (fr_stack fr)) /\ (n <= length (fr_stack fr))%nat.
Proof. unfold pop. destruct (Nat.ltb_spec (length (fr_stack fr)) n); [done|]. intros [= <- <-]. done. Qed.

Lemma gives_pop {B} n fr (f : list Z -> Frame -> SM B) P :
  (forall args, args = take n (fr_stack fr) -> gives (f args (set_fr_stack fr (drop n (fr_stack fr)))) P) ->
  gives (r ← liftS (pop n fr); let '(args, fr) := r in f args fr) P.
Proof.
  intros H. apply (gives_bind _ _ (fun r => fst r = take n (fr_stack fr) /\ snd r = set_fr_stack fr (drop n (fr_stack fr)))).
  - apply gives_lift. intros [args fr'] E. apply pop_spec in E as (-> & -> & _). done.
  - intros [args fr'] [E1 E2]. cbn in E1, E2. subst. apply H. done.
Qed.

(** Step by step, to the frame that is returned. *)
Ltac keeps :=
  repeat match goal with
  | |- gives (mret _) _ => apply gives_ret; try done
  | |- gives (done_ _) _ => apply gives_ret; try done
  | |- gives (push _ _) _ => apply gives_ret; try done
  | |- gives (if ?b then _ else _) _ => destruct b
  | |- gives (r ← liftS (pop _ _); _) _ => apply gives_pop; intros ? _
  | |- gives (_ ← _; _) _ => apply gives_any; intros ?
  end.

Lemma keeps_jump_to fr pos : gives (jump_to fr pos) (fun r => fr_gas (fst r) = fr_gas fr).
Proof. unfold jump_to. keeps. Qed.
Lemma keeps_copy_data fr data a b c : gives (copy_data fr data a b c) (fun r => fr_gas (fst r) = fr_gas fr).
Proof. unfold copy_data. keeps. Qed.
Lemma keeps_on_stack op : keeps_gas (on_stack op).
Proof. intros cs evm fr. unfold on_stack. keeps. Qed.
Lemma keeps_peek_read f : keeps_gas (peek_read f).
Proof. intros cs evm fr. unfold peek_read. keeps. Qed.
Lemma keeps_pop : keeps_gas opPop.
Proof.
  intros cs evm fr. unfold opPop. apply (gives_bind _ _ (fun r => fr_gas (snd r) = fr_gas fr)).
  - apply gives_lift. intros [args fr'] E. apply pop_spec in E as (_ & -> & _). done.
  - intros r Hr. apply gives_ret. done.
Qed.

Ltac keeps_op :=
  first
    [ apply keeps_on_stack | apply keeps_peek_read | apply keeps_pop
    | intros ? ? ?;
      cbv beta zeta delta [opStop opJumpdest opAddress opOrigin opCaller opCallValue opCallDataSize opReturnDataSize opCodeSize
        opGasprice opCoinbase opTimestamp opNumber opDifficulty opGasLimit opPc opMsize opGas opSha3 opCallDataCopy
        opReturnDataCopy opCodeCopy opExtCodeCopy opMstore opMstore8 opSstore opJump opJumpi opReturn opRevert opSuicide
        makeLog makePush makeDup makeSwap];
      keeps; (eapply gives_weaken; [first [apply keeps_jump_to | apply keeps_copy_data]|intros ? Hkept; exact Hkept]) ].

(** ** One instruction *)
Definition fixed_price (evm : EVM) : Prop := IsConstantinople (evm_rules evm) = false.

(** Calls that do the same when they are given less than [n], and leave between
    nothing and what they were given. *)
Record calls_twin (n : Z) (cs1 cs2 : Calls) : Prop := {
  ct_Call : forall evm caller addr input gas value, fixed_price evm -> 0 <= gas < n ->
    twin (do_Call cs1 evm caller addr input gas value) (do_Call cs2 evm caller addr input gas value)
      (fun r => 0 <= snd (fst r) <= gas);
  ct_CallCode : forall evm c addr input gas value, fixed_price evm -> 0 <= gas < n ->
    twin (do_CallCode cs1 evm c addr input gas value) (do_CallCode cs2 evm c addr input gas value)
      (fun r => 0 <= snd (fst r) <= gas);
  ct_DelegateCall : forall evm c addr input gas, fixed_price evm -> 0 <= gas < n ->
    twin (do_DelegateCall cs1 evm c addr input gas) (do_DelegateCall cs2 evm c addr input gas)
      (fun r => 0 <= snd (fst r) <= gas);
  ct_StaticCall : forall evm caller addr input gas, fixed_price evm -> 0 <= gas < n ->
    twin (do_StaticCall cs1 evm caller addr input gas) (do_StaticCall cs2 evm caller addr input gas)
      (fun r => 0 <= snd (fst r) <= gas);
  ct_Create : forall evm caller code gas value, fixed_price evm -> 0 <= gas < n ->
    twin (do_Create cs1 evm caller code gas value) (do_Create cs2 evm caller code gas value)
      (fun r => 0 <= snd (fst r) <= gas) }.

(** An instruction that goes on leaves less gas, one that stops not more. *)
Definition spent (gas : Z) (n : next) : Prop :=
  match n with
  | Stops g _ _ => 0 <= g <= gas
  | Goes fr => 0 <= fr_gas fr < gas
  end.
Definition frugal (o : operation) : Prop := forall cs1 cs2 evm fr size,
  fixed_price evm -> is_uint64 (fr_gas fr) -> calls_twin (fr_gas fr) cs1 cs2 ->
  twin (charge cs1 evm o size fr) (charge cs2 evm o size fr) (spent (fr_gas fr)).

Lemma fails_spent fr e gas : 0 <= fr_gas fr <= gas -> twin (fails fr e) (fails fr e) (spent gas).
Proof. intros H. apply twin_ret. done. Qed.

Definition goes_on (o : operation) : bool := negb (op_halts o || op_reverts o).

(** What is left after the execution. *)
Definition left_after (o : operation) (gas : Z) (r : Frame * result string bytes) : Prop :=
  0 <= fr_gas (fst r) <= gas /\ (goes_on o = true -> fr_gas (fst r) < gas).

Lemma perform_spent cs1 cs2 evm o size fr gas :
  (forall fr0, same_frame fr fr0 -> fr_callGasTemp fr0 = fr_callGasTemp fr ->
     twin (op_execute o cs1 evm fr0) (op_execute o cs2 evm fr0) (left_after o gas)) ->
  twin (perform cs1 evm o size fr) (perform cs2 evm o size fr) (spent gas).
Proof.
  intros H. unfold perform. eapply twin_bind; [apply H; destruct (0 <? size); repeat split|].
  intros [fr2 [res|e]] [H1 H2]; cbn [fst] in *; [|apply fails_spent; done].
  assert (fr_gas (if op_returns o then set_fr_returnData fr2 res else fr2) = fr_gas fr2) as E by (destruct (op_returns o); done).
  unfold goes_on in H2.
  destruct (op_reverts o) eqn:Er; [apply twin_ret; cbn; rewrite E; done|].
  destruct (op_halts o) eqn:Eh; [apply twin_ret; cbn; rewrite E; done|].
  destruct (op_jumps o); apply twin_ret; cbn; rewrite E; specialize (H2 eq_refl); lia.
Qed.

(** [Q] is what the price and the gas for the call satisfy. *)
Lemma frugal_intro (Q : Frame -> Z -> Z -> Prop) o :
  (forall evm fr size, gives (op_gasCost o evm fr size) (fun r => same_frame fr (fst r)
     /\ forall cost, snd r = Ok cost -> 0 <= cost /\ Q fr (fr_callGasTemp (fst r)) cost)) ->
  (forall cs1 cs2 evm fr fr0 cost, fixed_price evm -> is_uint64 (fr_gas fr) -> calls_twin (fr_gas fr) cs1 cs2 ->
     Q fr (fr_callGasTemp fr0) cost -> 0 <= cost <= fr_gas fr -> fr_stack fr0 = fr_stack fr -> fr_gas fr0 = fr_gas fr - cost ->
     twin (op_execute o cs1 evm fr0) (op_execute o cs2 evm fr0) (left_after o (fr_gas fr))) ->
  frugal o.
Proof.
  intros Hg He cs1 cs2 evm fr size Hr Hu Hcs. unfold charge. eapply twin_bind; [apply twin_same, Hg|].
  intros [fr1 [cost|e]] [(E1 & E2 & E3 & E4) Hc]; cbn [fst snd] in *; [|apply fails_spent; unfold is_uint64 in *; lia].
  destruct (Hc cost eq_refl) as [H0 HQ]. unfold UseGas. rewrite E4. pose proof Hu as Hu'. unfold is_uint64 in Hu'.
  destruct (Z.ltb_spec (fr_gas fr) cost); [apply fails_spent; lia|]. apply perform_spent.
  intros fr0 (F1 & F2 & F3 & F4) F5. apply (He cs1 cs2 evm fr fr0 cost); try done.
  - rewrite F5. done.
  - rewrite F2. done.
Qed.

(** Instructions that call nothing. *)
Definition local (e : executionFunc) : Prop := forall cs1 cs2 evm fr, e cs1 evm fr = e cs2 evm fr.

Lemma frugal_simple n o : costs n (op_gasCost o) -> keeps_gas (op_execute o) -> local (op_execute o) ->
  (if goes_on o then 0 < n else 0 <= n) -> frugal o.
Proof.
  intros Hg He Hl Hh. assert (0 <= n /\ (goes_on o = true -> 0 < n)) as [Hn Hn'] by (destruct (goes_on o); split; lia || done). apply (frugal_intro (fun _ _ cost => n <= cost)).
  - intros evm fr size. eapply gives_weaken; [apply Hg|]. intros r [F H]. split; [done|]. intros c Hc. specialize (H c Hc). lia.
  - intros cs1 cs2 evm fr fr0 cost _ _ _ HQ Hc _ E. rewrite (Hl cs1 cs2). apply twin_same.
    eapply gives_weaken; [apply He|]. intros r Hr. cbn in Hr. unfold left_after. rewrite Hr, E.
    split; [lia|]. intros G. specialize (Hn' G). lia.
Qed.

(** The gas that comes back is less than the price. *)
Lemma finish_call_left fr a b r gas : 0 <= snd (fst r) -> 0 <= fr_gas fr -> fr_gas fr + snd (fst r) < gas -> gas <= 2 ^ 64 ->
  gives (finish_call fr a b r) (fun r => 0 <= fr_gas (fst r) < gas).
Proof.
  destruct r as [[ret g] err]. cbn [fst snd]. intros Hg Hf Hs Hb. unfold finish_call. apply gives_any. intros mem.
  apply gives_ret. cbn [fst fr_gas set_fr_gas set_fr_mem set_fr_stack]. rewrite u64_id by lia. lia.
Qed.

Lemma finish_create_left fr h r gas : 0 <= snd (fst r) -> 0 <= fr_gas fr -> fr_gas fr + snd (fst r) < gas -> gas <= 2 ^ 64 ->
  gives (finish_create fr h r) (fun r => 0 <= fr_gas (fst r) < gas).
Proof.
  destruct r as [[[ret addr] g] err]. cbn [fst snd]. intros Hg Hf Hs Hb. unfold finish_create.
  apply gives_ret. cbn [fst fr_gas set_fr_gas set_fr_stack]. rewrite u64_id by lia. lia.
Qed.

Lemma twin_pop {B} n fr (f1 f2 : list Z -> Frame -> SM B) P :
  (forall args, args = take n (fr_stack fr) ->
     twin (f1 args (set_fr_stack fr (drop n (fr_stack fr)))) (f2 args (set_fr_stack fr (drop n (fr_stack fr)))) P) ->
  twin (r ← liftS (pop n fr); let '(args, fr) := r in f1 args fr) (r ← liftS (pop n fr); let '(args, fr) := r in f2 args fr) P.
Proof.
  intros H. apply (twin_bind _ _ _ _ (fun r => fst r = take n (fr_stack fr) /\ snd r = set_fr_stack fr (drop n (fr_stack fr)))).
  - apply twin_same, gives_lift. intros [args fr'] E. apply pop_spec in E as (-> & -> & _). done.
  - intros [args fr'] [E1 E2]. cbn in E1, E2. subst. apply H. done.
Qed.

Lemma call_left o d1 d2 fr a b gas given : twin d1 d2 (fun r => 0 <= snd (fst r) <= given) ->
  0 <= fr_gas fr -> fr_gas fr + given < gas -> gas <= 2 ^ 64 ->
  twin (r ← d1; finish_call fr a b r) (r ← d2; finish_call fr a b r) (left_after o gas).
Proof.
  intros Hd Hf Hs Hb. eapply twin_bind; [exact Hd|]. intros r Hr. cbn beta in Hr. apply twin_same.
  eapply gives_weaken; [apply (finish_call_left _ _ _ _ gas); [lia|lia|lia|done]|]. intros x Hx. cbn beta in Hx. split; [lia|lia].
Qed.

(** The stipend is less than the price of sending a value. *)
Lemma given_gas fr args temp cost : args = take 7 (fr_stack fr) -> 0 <= temp -> value_price fr + temp <= cost ->
  let given := if U256 (arg args 2) =? 0 then temp else u64 (temp + CallStipend) in
  cost < 2 ^ 64 -> 0 <= given < cost.
Proof.
  intros -> Ht Hq given Hc. unfold value_price in Hq. assert (arg (take 7 (fr_stack fr)) 2 = default 0 (fr_stack fr !! 2%nat)) as E.
  { unfold arg. rewrite nth_lookup, lookup_take_lt by lia. done. }
  subst given. rewrite E. clear E. destruct (fr_stack fr !! 2%nat) as [w|]; cbn [default from_option id] in *.
  - destruct (Z.eqb_spec w 0) as [Hw|Hw]; [rewrite Hw; change (U256 0) with 0; cbn [Z.eqb]; lia|]. unfold CallValueTransferGas, CallStipend in *.
    destruct (U256 w =? 0); [lia|]. rewrite u64_id by lia. lia.
  - change (U256 0) with 0. cbn [Z.eqb]. lia.
Qed.

Lemma call_costs_Q base g : call_costs base g -> (forall fr, 0 <= base fr) -> forall evm fr size,
  gives (g evm fr size) (fun r => same_frame fr (fst r) /\ forall cost, snd r = Ok cost ->
    0 <= cost /\ (0 <= fr_callGasTemp (fst r) /\ base fr + fr_callGasTemp (fst r) <= cost)).
Proof.
  intros Hg Hb evm fr size. eapply gives_weaken; [apply Hg|]. intros r [F H]. split; [done|]. intros c Hc.
  specialize (H c Hc). specialize (Hb fr). lia.
Qed.
Lemma value_price_nonneg fr : 0 <= value_price fr.
Proof. unfold value_price. destruct (fr_stack fr !! 2%nat); [destruct (_ =? 0)|]; unfold CallValueTransferGas; lia. Qed.

(** The instructions that call. *)
Ltac call_op Hcs :=
  intros cs1 cs2 evm fr fr0 cost Hr Hu Hcs [Ht HQ] Hc Es Eg0; unfold is_uint64 in Hu;
  apply twin_pop; intros args Eargs; rewrite Es in Eargs; apply twin_any; intros input.
Ltac given_op := cbn [fr_gas set_fr_stack fr_callGasTemp]; lia.

Lemma frugal_Call o : op_execute o = opCall -> op_gasCost o = gasCall -> frugal o.
Proof.
  intros Ee Eg. apply (frugal_intro (fun fr temp cost => 0 <= temp /\ value_price fr + temp <= cost)).
  { rewrite Eg. apply call_costs_Q; [apply call_costs_Call|apply value_price_nonneg]. }
  rewrite Ee. call_op Hcs. pose proof (given_gas fr args _ cost Eargs Ht HQ ltac:(lia)) as Hgiven. cbn zeta in Hgiven.
  eapply call_left; [apply (ct_Call _ _ _ Hcs); [done|given_op]| | |]; given_op.
Qed.
Lemma frugal_CallCode o : op_execute o = opCallCode -> op_gasCost o = gasCallCode -> frugal o.
Proof.
  intros Ee Eg. apply (frugal_intro (fun fr temp cost => 0 <= temp /\ value_price fr + temp <= cost)).
  { rewrite Eg. apply call_costs_Q; [apply call_costs_CallCode|apply value_price_nonneg]. }
  rewrite Ee. call_op Hcs. pose proof (given_gas fr args _ cost Eargs Ht HQ ltac:(lia)) as Hgiven. cbn zeta in Hgiven.
  eapply call_left; [apply (ct_CallCode _ _ _ Hcs); [done|given_op]| | |]; given_op.
Qed.
Lemma frugal_DelegateCall o : op_execute o = opDelegateCall -> op_gasCost o = gasDelegateCall -> frugal o.
Proof.
  intros Ee Eg. apply (frugal_intro (fun fr temp cost => 0 <= temp /\ 40 + temp <= cost)).
  { rewrite Eg. apply (call_costs_Q (fun _ => 40)); [apply call_costs_DelegateCall|lia]. }
  rewrite Ee. call_op Hcs. eapply call_left; [apply (ct_DelegateCall _ _ _ Hcs); [done|given_op]| | |]; given_op.
Qed.
Lemma frugal_StaticCall o : op_execute o = opStaticCall -> op_gasCost o = gasStaticCall -> frugal o.
Proof.
  intros Ee Eg. apply (frugal_intro (fun fr temp cost => 0 <= temp /\ 40 + temp <= cost)).
  { rewrite Eg. apply (call_costs_Q (fun _ => 40)); [apply call_costs_DelegateCall|lia]. }
  rewrite Ee. call_op Hcs. eapply call_left; [apply (ct_StaticCall _ _ _ Hcs); [done|given_op]| | |]; given_op.
Qed.

Lemma frugal_Create o : op_execute o = opCreate -> op_gasCost o = gasCreate -> frugal o.
Proof.
  intros Ee Eg. apply (frugal_intro (fun fr temp cost => 0 <= 0 /\ 32000 <= cost)).
  { rewrite Eg. intros evm fr size. eapply gives_weaken; [apply (costs_mem 32000); lia|]. intros r [F H]. split; [done|].
    intros c Hc. specialize (H c Hc). lia. }
  rewrite Ee. call_op Hcs. cbn [fr_gas set_fr_stack].
  set (given := if IsEIP150 (evm_rules evm) then _ else _).
  assert (0 <= given <= fr_gas fr0) as Hgiven.
  { subst given. destruct (IsEIP150 _); [|lia]. assert (fr_gas fr0 / 64 <= fr_gas fr0) by (apply Z.div_le_upper_bound; lia).
    assert (0 <= fr_gas fr0 / 64) by (apply Z.div_pos; lia). lia. }
  eapply twin_bind; [apply (ct_Create _ _ _ Hcs); [done|given_op]|]. intros r Hr'. cbn beta in Hr'. apply twin_same.
  eapply gives_weaken; [apply (finish_create_left _ _ _ (fr_gas fr)); cbn [fr_gas set_fr_gas]; lia|].
  intros x Hx. cbn beta in Hx. split; [lia|lia].
Qed.

(** ** Every instruction *)
Create HintDb frugal.
#[local] Hint Resolve costs_const costs_mem costs_copy costs_return costs_Balance costs_ExtCodeSize costs_SLoad
  costs_ExtCodeCopy costs_Exp costs_SStore costs_Log costs_Suicide : frugal.

#[local] Hint Extern 1 (0 <= _) => done : frugal.

Ltac frugal_op :=
  cbn [snd];
  first
    [ apply frugal_Call; reflexivity
    | apply frugal_CallCode; reflexivity
    | apply frugal_DelegateCall; reflexivity
    | apply frugal_StaticCall; reflexivity
    | apply frugal_Create; reflexivity
    | eapply frugal_simple;
      [ cbn [op_gasCost simple with_mem halting jumping writing reverting returning quick arith]; solve [eauto with frugal]
      | cbn [op_execute simple with_mem halting jumping writing reverting returning quick arith]; keeps_op
      | intros ? ? ? ?; reflexivity
      | done ] ].

Lemma frontier_frugal : Forall (fun e => frugal (snd e)) frontierInstructionSet.
Proof.
  unfold frontierInstructionSet, pushes, dups, swaps, logs. rewrite !Forall_app. split_and!.
  - repeat (apply Forall_cons; split; [frugal_op|]). apply Forall_nil. done.
  - apply Forall_forall. intros e [n [-> Hn]]%list_elem_of_fmap. frugal_op.
  - apply Forall_forall. intros e [n [-> Hn]]%list_elem_of_fmap. frugal_op.
  - apply Forall_forall. intros e [n [-> Hn]]%list_elem_of_fmap. frugal_op.
  - apply Forall_forall. intros e [n [-> Hn]]%list_elem_of_fmap. frugal_op.
  - repeat (apply Forall_cons; split; [frugal_op|]). apply Forall_nil. done.
Qed.

Lemma table_frugal r : IsConstantinople r = false -> Forall (fun e => frugal (snd e)) (JumpTable r).
Proof.
  intros Hr. assert (Forall (fun e => frugal (snd e)) homesteadInstructionSet) as Hh.
  { unfold homesteadInstructionSet. apply Forall_cons. split; [frugal_op|]. apply frontier_frugal. }
  unfold JumpTable. rewrite Hr. destruct (IsByzantium r); [|destruct (IsHomestead r); [done|apply frontier_frugal]].
  unfold byzantiumInstructionSet. cbn [app]. do 4 (apply Forall_cons; split; [frugal_op|]). done.
Qed.

Lemma table_get_Forall {P : operation -> Prop} t op o : Forall (fun e => P (snd e)) t -> table_get t op = Some o -> P o.
Proof.
  induction 1 as [|[k o'] t Ho _ IH]; [done|]. cbn. destruct (op =? k); [intros [= <-]; done|done].
Qed.

Lemma exec_step_twin cs1 cs2 evm fr : fixed_price evm -> is_uint64 (fr_gas fr) -> calls_twin (fr_gas fr) cs1 cs2 ->
  twin (exec_step cs1 evm fr) (exec_step cs2 evm fr) (spent (fr_gas fr)).
Proof.
  intros Hr Hu Hcs. assert (forall e, twin (fails fr e) (fails fr e) (spent (fr_gas fr))) as Hfail.
  { intros e. apply fails_spent. unfold is_uint64 in Hu. lia. }
  unfold exec_step. destruct (table_get _ _) as [o|] eqn:Eo; [|done].
  apply (table_get_Forall _ _ _ (table_frugal _ Hr)) in Eo. destruct (negb (validateStack _ _)); [done|].
  apply twin_any. intros []; cbn [negb]; [|done]. apply twin_any. intros [size|]; [|done]. apply Eo; done.
Qed.

(** ** The calls *)
Definition within (gas : Z) (r : Z * bytes * option string) : Prop := 0 <= fst (fst r) <= gas.

Definition loop_twin (n : Z) (l1 l2 : Loop) : Prop := forall evm fr, fixed_price evm -> 0 <= fr_gas fr < n ->
  twin (l1 evm fr) (l2 evm fr) (within (fr_gas fr)).

Section Calls.
Context (n : Z) (l1 l2 : Loop) (Hloop : loop_twin n l1 l2).

Lemma UseGas_within gas amount g : UseGas gas amount = Some g -> 0 <= amount -> 0 <= g <= gas.
Proof. unfold UseGas. destruct (Z.ltb_spec gas amount); [done|]. intros [= <-]. lia. Qed.

Lemma evm_run_twin evm c gas ro : fixed_price evm -> 0 <= gas < n ->
  twin (evm_run l1 evm c gas ro) (evm_run l2 evm c gas ro) (within gas).
Proof.
  intros Hr Hg. unfold evm_run. destruct (precompiled _ _) as [p|].
  - unfold RunPrecompiledContract. apply twin_same, (gives_bind _ _ (fun required => 0 <= required)).
    { apply gives_lift. apply precompiled_RequiredGas_nonneg. }
    intros required H0. destruct (UseGas gas required) as [g|] eqn:E; [|apply gives_ret; unfold within; cbn; lia].
    apply UseGas_within in E; [|done]. apply gives_any. intros [ret|e]; apply gives_ret; unfold within; cbn; lia.
  - unfold Interpreter_Run. destruct (c_Code c); [apply twin_ret; unfold within; cbn; lia|].
    apply (Hloop (evm_enter evm ro) (newFrame c gas)); done.
Qed.

Lemma undo_on_error_left snapshot r gas : within gas r ->
  gives (undo_on_error snapshot r) (fun r => 0 <= snd (fst r) <= gas).
Proof.
  destruct r as [[g ret] [e|]]; unfold within; cbn [fst snd]; intros H; [|apply gives_ret; done].
  apply gives_any. intros _. apply gives_ret. cbn. destruct (bool_decide _); lia.
Qed.

Lemma refuse_left evm gas r : refuse evm gas = Some r -> snd (fst r) = gas.
Proof. unfold refuse. destruct (_ && _); [intros [= <-]; done|]. destruct (_ <? _); [intros [= <-]; done|done]. Qed.

Lemma deposit_code_left evm address r gas : within gas r -> gives (deposit_code evm address r) (within gas).
Proof.
  destruct r as [[g ret] err]; unfold within at 1; cbn [fst snd]. intros H. unfold deposit_code.
  destruct err; [apply gives_ret; done|]. destruct (_ && _); [apply gives_ret; done|].
  destruct (UseGas g _) as [g'|] eqn:E; [|apply gives_ret; done]. apply UseGas_within in E; [|apply u64_range].
  apply gives_any. intros _. apply gives_ret. unfold within. cbn. lia.
Qed.

(** Step by step to the run and what follows it. *)
Ltac calls :=
  repeat match goal with
  | |- twin (mret ?r) (mret ?r) _ => apply twin_ret; unfold within in *; cbn [fst snd] in *; try destruct (_ && negb _); lia
  | |- twin (if ?b then _ else _) (if ?b then _ else _) _ => destruct b
  | |- twin (_ ← evm_run _ _ _ _ _; _) _ _ => eapply twin_bind; [apply evm_run_twin; [done|lia]|intros ? ?]
  | |- twin (_ ← deposit_code _ _ _; _) _ _ => eapply twin_bind; [apply twin_same, deposit_code_left; done|intros [[? ?] ?] ?]
  | |- twin (_ ← _; _) (_ ← _; _) _ => apply twin_any; intros ?
  | |- twin (undo_on_error _ _) _ _ => apply twin_same, undo_on_error_left; done
  end.

Lemma run_code_twin evm a b c d gas value ro : fixed_price evm -> 0 <= gas < n ->
  twin (run_code l1 evm a b c d gas value ro) (run_code l2 evm a b c d gas value ro) (fun r => 0 <= snd (fst r) <= gas).
Proof. intros Hr Hg. unfold run_code. calls. Qed.

Lemma evm_create_twin evm caller code gas value address : fixed_price evm -> 0 <= gas < n ->
  twin (evm_create l1 evm caller code gas value address) (evm_create l2 evm caller code gas value address)
    (fun r => 0 <= snd (fst r) <= gas).
Proof.
  intros Hr Hg. unfold evm_create. calls.
Qed.

Lemma calls_of_twin : calls_twin n (calls_of l1) (calls_of l2).
Proof.
  split; cbn [do_Call do_CallCode do_DelegateCall do_StaticCall do_Create calls_of]; intros.
  - unfold evm_Call. destruct (refuse evm gas) eqn:E; [apply refuse_left in E; apply twin_ret; lia|]. calls.
  - unfold evm_CallCode. destruct (refuse evm gas) eqn:E; [apply refuse_left in E; apply twin_ret; lia|]. calls.
    apply run_code_twin; done.
  - unfold evm_DelegateCall. destruct (refuse evm gas) eqn:E; [apply refuse_left in E; apply twin_ret; lia|].
    apply run_code_twin; done.
  - unfold evm_StaticCall. destruct (refuse evm gas) eqn:E; [apply refuse_left in E; apply twin_ret; lia|].
    apply run_code_twin; done.
  - unfold evm_Create. calls. apply evm_create_twin; done.
Qed.

End Calls.

(** ** The loop *)
(** The loop that goes on as [rest] says when the fuel is used up. *)
Fixpoint exec_loop_then (rest : Loop) (fuel : nat) (evm : EVM) (fr : Frame) : SM (Z * bytes * option string) :=
  match fuel with
  | O => rest evm fr
  | S fuel =>
    r ← exec_step (calls_of (exec_loop_then rest fuel)) evm fr;
    match r with
    | Stops gas ret err => mret (gas, ret, err)
    | Goes fr => exec_loop_then rest fuel evm fr
    end
  end.

Lemma exec_loop_twin rest f1 : forall f2 n, n <= 2 ^ 64 -> n <= Z.of_nat f1 -> n <= Z.of_nat f2 ->
  loop_twin n (exec_loop f1) (exec_loop_then rest f2).
Proof.
  induction f1 as [|f1 IH]; intros f2 n Hn H1 H2 evm fr Hr Hg; [lia|]. destruct f2 as [|f2]; [lia|].
  cbn [exec_loop exec_loop_then]. eapply twin_bind.
  - apply exec_step_twin; [done|unfold is_uint64; lia|]. apply calls_of_twin, IH; lia.
  - intros [g ret err|fr'] Hs; cbn [spent] in Hs; [apply twin_ret; done|].
    eapply twin_weaken; [apply (IH f2 (fr_gas fr)); [lia|lia|lia|done|done]|]. intros r. unfold within. lia.
Qed.

Lemma calls_bounded rest f1 f2 gas : 0 <= gas < 2 ^ 64 -> gas < Z.of_nat f1 -> gas < Z.of_nat f2 ->
  calls_twin (gas + 1) (calls_of (exec_loop f1)) (calls_of (exec_loop_then rest f2)).
Proof. intros. apply calls_of_twin, exec_loop_twin; lia. Qed.

Lemma twin_gives {A} (m1 m2 : SM A) P : twin m1 m2 P -> gives m1 P.
Proof. intros H s s' x E. destruct (H s) as [_ HP]. eapply HP. exact E. Qed.

(** What the calls of a transaction leave. *)
Lemma evm_Call_left fuel evm caller target data gas value : fixed_price evm -> 0 <= gas < 2 ^ 64 -> gas < Z.of_nat fuel ->
  gives (evm_Call (exec_loop fuel) evm caller target data gas value) (fun r => 0 <= snd (fst r) <= gas).
Proof. intros Hr Hg Hf. eapply twin_gives, (ct_Call _ _ _ (calls_bounded (exec_loop 0) fuel fuel gas Hg Hf Hf)); [done|lia]. Qed.
Lemma evm_Create_left fuel evm caller data gas value : fixed_price evm -> 0 <= gas < 2 ^ 64 -> gas < Z.of_nat fuel ->
  gives (evm_Create (exec_loop fuel) evm caller data gas value) (fun r => 0 <= snd (fst r) <= gas).
Proof. intros Hr Hg Hf. eapply twin_gives, (ct_Create _ _ _ (calls_bounded (exec_loop 0) fuel fuel gas Hg Hf Hf)); [done|lia]. Qed.


End Gas.

Module VmGasExamples.
Import StateToy ClientExamples VmToy.


End VmGasExamples.
