(* ===== verification/VmInduction.v ===== *)
(** * One induction over the machine

    The calls of evm.go in the shape "snapshot, body, undo on failure", and an
    interface for properties of computations: what a property must satisfy for
    the reads, the writes and the snapshots of the machine, so that every run of
    the machine has it.  VmEffects.v and Transaction.v prove it for the
    properties they need. *)
From S2P Require Import Prelude Rlp StateData StateDB StateObs StateRevert StateClient VmWord VmCode VmPrecompiled Vm VmGas.
Local Open Scope Z_scope.

(** ** The calls in parts *)

(** What is done between a snapshot and the decision to undo it. *)
Definition with_undo {L : TrieLib} {A B} (m : SM A) (bad : A -> bool) (res : A -> B) : SM B :=
  snapshot ← Snapshot;
  x ← m;
  (if bad x then RevertToSnapshot snapshot else mret tt) ;;
  mret (res x).

Section Parts.
Context {L : TrieLib} {PL : PrecompiledLib} {AL : AddressLib}.

(** What a call does before the code runs. *)
Definition enter_account (caller addr : bytes) (value : Z) (exist : bool) : SM unit :=
  (if exist then mret tt else CreateAccount addr) ;; Transfer caller addr value.

Definition call_failed (r : Z * bytes * option string) : bool := is_some (snd r).
Definition call_result (r : Z * bytes * option string) : bytes * Z * option string :=
  let '(gas, ret, err) := r in
  (ret, match err with Some e => if bool_decide (e = errExecutionReverted) then gas else 0 | None => gas end, err).

Definition call_body (loop : Loop) (evm : EVM) (caller addr input : bytes) (gas value : Z) : SM (Z * bytes * option string) :=
  exist ← Exist addr;
  if negb exist && negb (is_some (precompiled (IsByzantium (evm_rules evm)) addr)) && IsEIP158 (evm_rules evm) && (value =? 0)
  then mret (gas, [], None)
  else
    enter_account caller addr value exist ;;
    codeHash ← GetCodeHash addr;
    code ← GetCode addr;
    evm_run loop evm
      {| c_CallerAddress := caller; c_self := addr; c_Code := default [] code; c_CodeHash := codeHash;
         c_CodeAddr := addr; c_Input := input; c_value := value |} gas false.

Definition code_body (loop : Loop) (evm : EVM) (callerAddress self addr input : bytes) (gas value : Z) (readOnly : bool)
    : SM (Z * bytes * option string) :=
  codeHash ← GetCodeHash addr;
  code ← GetCode addr;
  evm_run loop evm
    {| c_CallerAddress := callerAddress; c_self := self; c_Code := default [] code; c_CodeHash := codeHash;
       c_CodeAddr := addr; c_Input := input; c_value := value |} gas readOnly.

Definition create_body (loop : Loop) (evm : EVM) (caller code : bytes) (gas value : Z) (address : bytes)
    : SM (Z * bytes * option string) :=
  CreateAccount address ;;
  (if IsEIP158 (evm_rules evm) then SetNonce address 1 else mret tt) ;;
  Transfer caller address value ;;
  if evm_NoRecursion evm && (0 <? evm_depth evm) then mret (gas, [], None)
  else
    r ← evm_run loop evm
          {| c_CallerAddress := caller; c_self := address; c_Code := code; c_CodeHash := Keccak256 code;
             c_CodeAddr := address; c_Input := []; c_value := value |} gas false;
    deposit_code evm address r.

Definition too_large (evm : EVM) (ret : bytes) : bool := IsEIP158 (evm_rules evm) && (MaxCodeSize <? Z.of_nat (length ret)).
Definition create_failed (evm : EVM) (r : Z * bytes * option string) : bool :=
  let '(gas, ret, err) := r in
  too_large evm ret
  || match err with
     | Some e => IsHomestead (evm_rules evm) || negb (bool_decide (e = ErrCodeStoreOutOfGas))
     | None => false
     end.
Definition create_result (evm : EVM) (address : bytes) (r : Z * bytes * option string) : bytes * bytes * Z * option string :=
  let '(gas, ret, err) := r in
  (ret, address, if create_failed evm r && negb (bool_decide (err = Some errExecutionReverted)) then 0 else gas,
   if too_large evm ret && negb (is_some err) then Some errMaxCodeSizeExceeded else err).

Lemma undo_on_error_alt snapshot r s :
  undo_on_error snapshot r s = ((if call_failed r then RevertToSnapshot snapshot else mret tt) ;; mret (call_result r)) s.
Proof. destruct r as [[gas ret] [e|]]; done. Qed.

Lemma run_code_alt loop evm a b c d gas value ro s :
  run_code loop evm a b c d gas value ro s = with_undo (code_body loop evm a b c d gas value ro) call_failed call_result s.
Proof.
  unfold run_code, with_undo, code_body. unfold mbind, SM_bind. destruct (Snapshot s) as [[s1 id]|]; [|done].
  destruct (GetCodeHash c s1) as [[s2 h]|]; [|done]. destruct (GetCode c s2) as [[s3 code]|]; [|done].
  destruct (evm_run _ _ _ _ _ s3) as [[s4 r]|]; [|done]. apply undo_on_error_alt.
Qed.

Lemma evm_Call_alt loop evm caller addr input gas value s : refuse evm gas = None ->
  evm_Call loop evm caller addr input gas value s =
  (can ← CanTransfer caller value;
   if negb can then mret ([], gas, Some ErrInsufficientBalance)
   else with_undo (call_body loop evm caller addr input gas value) call_failed call_result) s.
Proof.
  intros Hr. unfold evm_Call. rewrite Hr. unfold with_undo, call_body, enter_account, mbind, SM_bind.
  destruct (CanTransfer caller value s) as [[s0 []]|]; [|done|done]. cbn [negb]. destruct (Snapshot s0) as [[s1 id]|]; [|done].
  destruct (Exist addr s1) as [[s2 exist]|]; [|done]. destruct (_ && (value =? 0)); [done|].
  match goal with |- context [(if exist then ?x else ?y) s2] => destruct ((if exist then x else y) s2) as [[s3 []]|]; [|done] end.
  destruct (Transfer caller addr value s3) as [[s4 []]|]; [|done].
  destruct (GetCodeHash addr s4) as [[s5 h]|]; [|done]. destruct (GetCode addr s5) as [[s6 code]|]; [|done].
  destruct (evm_run _ _ _ _ _ s6) as [[s7 r]|]; [|done]. apply undo_on_error_alt.
Qed.

Lemma evm_create_alt loop evm caller code gas value address s : evm_depth evm <= CallCreateDepth ->
  evm_create loop evm caller code gas value address s =
  (can ← CanTransfer caller value;
   if negb can then mret ([], zeroHash, gas, Some ErrInsufficientBalance)
   else
     nonce ← GetNonce caller;
     SetNonce caller (u64 (nonce + 1)) ;;
     contractHash ← GetCodeHash address;
     nonce ← GetNonce address;
     if negb (nonce =? 0) || (negb (bool_decide (contractHash = zeroHash)) && negb (bool_decide (contractHash = emptyCodeHash)))
     then mret ([], zeroHash, 0, Some ErrContractAddressCollision)
     else with_undo (create_body loop evm caller code gas value address) (create_failed evm) (create_result evm address)) s.
Proof.
  intros Hd. unfold evm_create. rewrite (proj2 (Z.ltb_ge _ _) Hd). unfold with_undo, create_body, mbind, SM_bind.
  destruct (CanTransfer caller value s) as [[s0 []]|]; [|done|done]. cbn [negb].
  destruct (GetNonce caller s0) as [[s1 n]|]; [|done]. destruct (SetNonce _ _ s1) as [[s2 []]|]; [|done].
  destruct (GetCodeHash address s2) as [[s3 h]|]; [|done]. destruct (GetNonce address s3) as [[s4 n']|]; [|done].
  destruct (_ || _); [done|]. destruct (Snapshot s4) as [[s5 id]|]; [|done]. destruct (CreateAccount address s5) as [[s6 []]|]; [|done].
  match goal with |- context [(if ?b then ?x else ?y) s6] => destruct ((if b then x else y) s6) as [[s7 []]|]; [|done] end.
  destruct (Transfer caller address value s7) as [[s8 []]|]; [|done].
  destruct (_ && (0 <? _)).
  - unfold create_result, create_failed, too_large. cbn. rewrite andb_false_r. done.
  - destruct (evm_run _ _ _ _ _ s8) as [[s9 r]|]; [|done]. destruct (deposit_code evm address r s9) as [[s10 [[g ret] err]]|]; done.
Qed.

End Parts.

(** The ways in which a contract calls another. *)
Inductive callKind := KCall | KCallCode | KDelegateCall | KStaticCall.

Definition run_call {L : TrieLib} {PL : PrecompiledLib} (k : callKind) (loop : Loop) (evm : EVM) (c : Contract)
    (addr input : bytes) (gas value : Z) : SM (bytes * Z * option string) :=
  match k with
  | KCall => evm_Call loop evm (c_self c) addr input gas value
  | KCallCode => evm_CallCode loop evm c addr input gas value
  | KDelegateCall => evm_DelegateCall loop evm c addr input gas
  | KStaticCall => evm_StaticCall loop evm (c_self c) addr input gas
  end.


(** ** What the machine does to the state *)
Section Steps.
Context {L : TrieLib}.

Inductive vm_reads : forall A : Type, SM A -> Prop :=
  | R_ret A (x : A) : vm_reads A (mret x)
  | R_lift A (m : outcome A) : vm_reads A (liftS m)
  | R_Exist a : vm_reads _ (Exist a)
  | R_Empty a : vm_reads _ (Empty a)
  | R_GetBalance a : vm_reads _ (GetBalance a)
  | R_GetNonce a : vm_reads _ (GetNonce a)
  | R_GetCode a : vm_reads _ (GetCode a)
  | R_GetCodeHash a : vm_reads _ (GetCodeHash a)
  | R_GetCodeSize a : vm_reads _ (GetCodeSize a)
  | R_GetState a k : vm_reads _ (GetState a k)
  | R_HasSuicided a : vm_reads _ (HasSuicided a).

Inductive vm_writes : forall A : Type, SM A -> Prop :=
  | W_AddRefund v : vm_writes _ (AddRefund v)
  | W_SetState a k v : vm_writes _ (SetState a k v)
  | W_AddLog l : vm_writes _ (AddLog l)
  | W_AddBalance a v : vm_writes _ (AddBalance a v)
  | W_SubBalance a v : vm_writes _ (SubBalance a v)
  | W_SetNonce a v : vm_writes _ (SetNonce a v)
  | W_SetCode a c : vm_writes _ (SetCode a c)
  | W_CreateAccount a : vm_writes _ (CreateAccount a)
  | W_Suicide a : vm_writes _ (Suicide a).

(** A property [kept] of computations; [may] says whether writing is allowed, and
    [inside] which environments the machine runs in. *)
Record machine_property (kept : forall A : Type, SM A -> Prop) (inside : EVM -> Prop) (may : bool) : Prop := {
  mp_reads : forall A m, vm_reads A m -> kept A m;
  mp_writes : may = true -> forall A m, vm_writes A m -> kept A m;
  mp_preimage : forall h v, kept _ (AddPreimage h v);
  mp_bind : forall A B (m : SM A) (f : A -> SM B) (Q : A -> Prop),
    kept A m -> gives m Q -> (forall x, Q x -> kept B (f x)) -> kept B (x ← m; f x);
  mp_ext : forall A (m m' : SM A), (forall s, m s = m' s) -> kept A m' -> kept A m;
  mp_undo : forall A B (m : SM A) bad (res : A -> B), kept A m -> kept B (with_undo m bad res);
  mp_enter : forall A caller addr value (early : bool -> bool) (x : A) k, may = true \/ value = 0 -> kept A k ->
    kept A (exist ← Exist addr; if early exist then mret x else enter_account caller addr value exist ;; k);
  mp_inside : forall evm ro, inside evm -> inside (evm_enter evm ro);
  mp_only : may = false -> forall evm, inside evm -> IsByzantium (evm_rules evm) && evm_readOnly evm = true }.

End Steps.
Arguments vm_reads {L A} m.
Arguments vm_writes {L A} m.
Arguments machine_property {L} kept inside may.

Create HintDb machine.
#[export] Hint Constructors vm_reads vm_writes : machine.

Section Induction.
Context {L : TrieLib} {PL : PrecompiledLib} {AL : AddressLib}.
Context (kept_ : forall A : Type, SM A -> Prop) (inside : EVM -> Prop) (may : bool) (MP : machine_property kept_ inside may).
Local Abbreviation kept := (kept_ _).

Lemma kept_reads {A} (m : SM A) : vm_reads m -> kept m.
Proof. apply (mp_reads _ _ _ MP). Qed.
Lemma kept_writes {A} (m : SM A) : may = true -> vm_writes m -> kept m.
Proof. intros H. apply (mp_writes _ _ _ MP H). Qed.
Lemma kept_ret {A} (x : A) : kept (mret x).
Proof. apply kept_reads. auto with machine. Qed.
Lemma kept_given {A B} (m : SM A) (f : A -> SM B) (Q : A -> Prop) :
  kept m -> gives m Q -> (forall x, Q x -> kept (f x)) -> kept (x ← m; f x).
Proof. apply (mp_bind _ _ _ MP). Qed.
Lemma kept_bind {A B} (m : SM A) (f : A -> SM B) : kept m -> (forall x, kept (f x)) -> kept (x ← m; f x).
Proof. intros Hm Hf. apply (kept_given m f (fun _ => True)); [done|intros ? ? ? ?; done|auto]. Qed.

Lemma inside_enter evm ro : inside evm -> inside (evm_enter evm ro).
Proof. apply (mp_inside _ _ _ MP). Qed.
#[local] Hint Resolve inside_enter : core.
Lemma CanTransfer_kept a v : kept (CanTransfer a v).
Proof. apply kept_bind; [apply kept_reads; auto with machine|intros b; apply kept_ret]. Qed.

(** ** The calls *)
Definition loop_keeps (loop : Loop) : Prop := forall evm fr, inside evm -> kept (loop evm fr).

Record calls_keep (cs : Calls) : Prop := {
  ck_Call : forall evm caller addr input gas value, inside evm -> may = true \/ value = 0 ->
    kept (do_Call cs evm caller addr input gas value);
  ck_CallCode : forall evm c addr input gas value, inside evm -> kept (do_CallCode cs evm c addr input gas value);
  ck_DelegateCall : forall evm c addr input gas, inside evm -> kept (do_DelegateCall cs evm c addr input gas);
  ck_StaticCall : forall evm caller addr input gas, inside evm -> kept (do_StaticCall cs evm caller addr input gas);
  ck_Create : forall evm caller code gas value, inside evm -> may = true -> kept (do_Create cs evm caller code gas value);
  ck_Create2 : forall evm caller code gas value salt, inside evm -> may = true ->
    kept (do_Create2 cs evm caller code gas value salt) }.

Section Calls.
Context (loop : Loop) (Hloop : loop_keeps loop).

Lemma evm_run_kept evm c gas ro : inside (evm_enter evm ro) -> kept (evm_run loop evm c gas ro).
Proof.
  intros Hi. unfold evm_run. destruct (precompiled _ _) as [p|].
  - unfold RunPrecompiledContract. apply kept_bind; [apply kept_reads; constructor|]. intros required.
    destruct (UseGas gas required); [|apply kept_ret]. apply kept_bind; [apply kept_reads; constructor|]. intros r. apply kept_ret.
  - unfold Interpreter_Run. destruct (c_Code c); [apply kept_ret|]. apply Hloop. done.
Qed.

Lemma code_body_kept evm a b c d gas value ro : inside (evm_enter evm ro) -> kept (code_body loop evm a b c d gas value ro).
Proof.
  intros Hi. do 2 (apply kept_bind; [apply kept_reads; auto with machine|intros ?]). apply evm_run_kept. done.
Qed.

Lemma run_code_kept evm a b c d gas value ro : inside (evm_enter evm ro) -> kept (run_code loop evm a b c d gas value ro).
Proof.
  intros Hi. eapply (mp_ext _ _ _ MP); [intros s; apply run_code_alt|]. apply (mp_undo _ _ _ MP), code_body_kept. done.
Qed.

Lemma call_body_kept evm caller addr input gas value : inside evm -> may = true \/ value = 0 ->
  kept (call_body loop evm caller addr input gas value).
Proof.
  intros Hi Hv. apply (mp_enter _ _ _ MP _ caller addr value _ _ _ Hv). apply (code_body_kept evm caller addr addr).
  apply (mp_inside _ _ _ MP). done.
Qed.

Lemma Transfer_kept a b v : may = true -> kept (Transfer a b v).
Proof. intros H. apply kept_bind; [apply kept_writes; [done|constructor]|intros _; apply kept_writes; [done|constructor]]; done. Qed.

Lemma deposit_code_kept evm address r : may = true -> kept (deposit_code evm address r).
Proof.
  intros H. destruct r as [[gas ret] [e|]]; unfold deposit_code; [apply kept_ret|]. destruct (_ && _); [apply kept_ret|].
  destruct (UseGas _ _); [|apply kept_ret]. apply kept_bind; [apply kept_writes; [done|constructor]|intros _; apply kept_ret].
Qed.

Lemma create_body_kept evm caller code gas value address : inside evm -> may = true ->
  kept (create_body loop evm caller code gas value address).
Proof.
  intros Hi Hm. apply kept_bind; [apply kept_writes; [done|constructor]|]. intros _.
  apply kept_bind; [destruct (IsEIP158 _); [apply kept_writes; [done|constructor]|apply kept_ret]|]. intros _.
  apply kept_bind; [apply Transfer_kept; done|]. intros _. destruct (_ && _); [apply kept_ret|].
  apply kept_bind; [apply evm_run_kept; auto|]. intros r. apply deposit_code_kept. done.
Qed.

Lemma evm_create_kept evm caller code gas value address : inside evm -> may = true ->
  kept (evm_create loop evm caller code gas value address).
Proof.
  intros Hi Hm. destruct (Z.ltb_spec CallCreateDepth (evm_depth evm)) as [Hd|Hd].
  { unfold evm_create. rewrite (proj2 (Z.ltb_lt _ _) Hd). apply kept_ret. }
  eapply (mp_ext _ _ _ MP); [intros s; apply evm_create_alt; done|].
  apply kept_bind; [apply CanTransfer_kept|]. intros []; cbn [negb]; [|apply kept_ret].
  apply kept_bind; [apply kept_reads; auto with machine|]. intros n. apply kept_bind; [apply kept_writes; [done|constructor]|]. intros _.
  do 2 (apply kept_bind; [apply kept_reads; auto with machine|intros ?]). destruct (_ || _); [apply kept_ret|].
  apply (mp_undo _ _ _ MP), create_body_kept; done.
Qed.

Lemma calls_of_keep : calls_keep (calls_of loop).
Proof.
  split; cbn [do_Call do_CallCode do_DelegateCall do_StaticCall do_Create do_Create2 calls_of]; intros.
  - destruct (refuse evm gas) eqn:Er; [unfold evm_Call; rewrite Er; apply kept_ret|].
    eapply (mp_ext _ _ _ MP); [intros s; apply evm_Call_alt; done|]. apply kept_bind; [apply CanTransfer_kept|].
    intros []; cbn [negb]; [|apply kept_ret]. apply (mp_undo _ _ _ MP), call_body_kept; done.
  - unfold evm_CallCode. destruct (refuse evm gas); [apply kept_ret|]. apply kept_bind; [apply CanTransfer_kept|].
    intros []; cbn [negb]; [apply run_code_kept; auto|apply kept_ret].
  - unfold evm_DelegateCall. destruct (refuse evm gas); [apply kept_ret|apply run_code_kept; auto].
  - unfold evm_StaticCall. destruct (refuse evm gas); [apply kept_ret|apply run_code_kept; auto].
  - unfold evm_Create. apply kept_bind; [apply kept_reads; auto with machine|]. intros n. apply evm_create_kept; done.
  - apply evm_create_kept; done.
Qed.

End Calls.

(** ** The instructions *)
Definition allowed (op : Z) (o : operation) (st : Stack) : Prop :=
  may = true \/ (op_writes o = false /\ (op = CALL -> forall v, st !! 2%nat = Some v -> v = 0)).
Definition tame (op : Z) (o : operation) : Prop := forall cs evm fr size, calls_keep cs -> inside evm ->
  allowed op o (fr_stack fr) -> kept (charge cs evm o size fr).

Lemma perform_kept cs evm o size fr : (forall fr0, fr_stack fr0 = fr_stack fr -> kept (op_execute o cs evm fr0)) ->
  kept (perform cs evm o size fr).
Proof.
  intros H. unfold perform. apply kept_bind; [apply H; destruct (0 <? size); done|]. intros [fr' [res|e]]; [|apply kept_ret].
  destruct (op_reverts o); [apply kept_ret|]. destruct (op_halts o); [apply kept_ret|]. destruct (op_jumps o); apply kept_ret.
Qed.

Lemma charge_kept (Q : Frame -> Prop) cs evm o size fr : kept (op_gasCost o evm fr size) ->
  gives (op_gasCost o evm fr size) (fun r => Q (fst r)) ->
  (forall fr1 fr0, Q fr1 -> fr_stack fr0 = fr_stack fr1 -> kept (op_execute o cs evm fr0)) -> kept (charge cs evm o size fr).
Proof.
  intros Hg HQ He. unfold charge. eapply kept_given; [exact Hg|exact HQ|]. intros [fr1 [cost|e]] H1; [|apply kept_ret].
  destruct (UseGas _ _); [|apply kept_ret]. apply perform_kept. intros fr0 E0. eapply He; [exact H1|]. rewrite E0. done.
Qed.

(** Prices and instructions that do not depend on what is allowed, and those
    that write. *)
Definition gas_kept (g : gasFunc) : Prop := forall evm fr size, kept (g evm fr size).
Definition exec_kept (e : executionFunc) : Prop := forall cs evm fr, calls_keep cs -> inside evm -> kept (e cs evm fr).

Lemma tame_intro op o : (may = true \/ op_writes o = false -> gas_kept (op_gasCost o) /\ exec_kept (op_execute o)) -> tame op o.
Proof.
  intros H cs evm fr size Hcs Hi Ha. destruct H as [Hg He]; [destruct Ha as [?|[? _]]; auto|].
  apply (charge_kept (fun _ => True)); [apply Hg|intros ? ? ? ?; done|]. intros. apply He; done.
Qed.

Ltac kept_step :=
  match goal with
  | |- kept (mret _) => apply kept_ret
  | |- kept (done_ _) => apply kept_ret
  | |- kept (push _ _) => apply kept_ret
  | |- kept (if ?b then _ else _) => destruct b
  | |- kept (match ?r with Ok _ => _ | Err _ => _ end) => destruct r
  | |- kept (let '(_, _) := ?x in _) => destruct x
  | |- kept (_ ← _; _) => apply kept_bind; [|intros ?]
  | |- kept (AddPreimage _ _) => apply (mp_preimage _ _ _ MP)
  | |- kept (AddRefund _) => apply kept_writes; [done|constructor]
  | |- kept (SetState _ _ _) => apply kept_writes; [done|constructor]
  | |- kept (AddLog _) => apply kept_writes; [done|constructor]
  | |- kept (AddBalance _ _) => apply kept_writes; [done|constructor]
  | |- kept (Suicide _) => apply kept_writes; [done|constructor]
  | |- kept (do_CallCode _ _ _ _ _ _ _) => apply ck_CallCode; done
  | |- kept (do_DelegateCall _ _ _ _ _ _) => apply ck_DelegateCall; done
  | |- kept (do_StaticCall _ _ _ _ _ _) => apply ck_StaticCall; done
  | |- kept (do_Create _ _ _ _ _ _) => apply ck_Create; done
  | |- kept (do_Create2 _ _ _ _ _ _ _) => apply ck_Create2; done
  | |- kept _ => apply kept_reads; solve [auto with machine]
  end.

Lemma with_callGas_kept evm fr gas : kept (with_callGas evm fr gas).
Proof. unfold with_callGas. repeat kept_step. Qed.
Lemma finish_call_kept fr a b r : kept (finish_call fr a b r).
Proof. destruct r as [[ret g] err]. unfold finish_call. repeat kept_step. Qed.
Lemma finish_create_kept fr h r : kept (finish_create fr h r).
Proof. destruct r as [[[ret addr] g] err]. apply kept_ret. Qed.

Lemma tame_Call o : op_execute o = opCall -> op_gasCost o = gasCall -> tame CALL o.
Proof.
  intros Ee Eg cs evm fr size Hcs Hi Ha. apply (charge_kept (fun fr1 => fr_stack fr1 = fr_stack fr)).
  - rewrite Eg. unfold gasCall. repeat first [apply with_callGas_kept | kept_step].
  - rewrite Eg. eapply gives_weaken; [apply call_costs_Call|]. intros r [(_ & ? & _) _]. done.
  - intros fr1 fr0 E1 E0. rewrite Ee. unfold opCall. apply (kept_given _ _ (fun r => fst r = take 7 (fr_stack fr))).
    { apply kept_reads; constructor. }
    { apply gives_lift. intros [args fr2] Hp. apply pop_spec in Hp as (-> & _). cbn. congruence. }
    intros [args fr2] Eargs. cbn [fst] in Eargs. apply kept_bind; [apply kept_reads; auto with machine|]. intros input.
    apply kept_bind; [|intros r; apply finish_call_kept]. apply (ck_Call _ Hcs); [done|]. destruct Ha as [Ha|[_ Ha]]; [auto|right].
    subst args. unfold arg. rewrite nth_lookup, lookup_take_lt by lia. destruct (fr_stack fr !! 2%nat) as [v|] eqn:Ev; cbn; [|done].
    rewrite (Ha eq_refl v eq_refl). done.
Qed.

Ltac op_fields := cbn [op_gasCost op_execute op_writes simple with_mem halting jumping writing reverting returning quick arith].
Ltac tame_op :=
  cbn [fst snd];
  first
    [ apply tame_Call; reflexivity
    | apply tame_intro; op_fields; intros Hm; try (destruct Hm as [Hm|Hm]; [|done]);
      split;
      [ intros ? ? ?;
        cbv beta zeta delta [constGasFunc memGasFunc copyGasFunc gasCallDataCopy gasReturnDataCopy gasCodeCopy gasSha3 gasExtCodeCopy
          gasMLoad gasMStore8 gasMStore gasCreate gasCreate2 gasReturn gasRevert gasExtCodeHash gasBalance gasExtCodeSize gasSLoad
          gasPush gasSwap gasDup gasExp gasSStore makeGasLog gasCallCode gasDelegateCall gasStaticCall gasSuicide];
        repeat first [apply with_callGas_kept | kept_step]
      | intros ? ? ? ? ?;
        cbv beta zeta delta [on_stack peek_read opStop opJumpdest opAddress opOrigin opCaller opCallValue opCallDataSize
          opReturnDataSize opCodeSize opGasprice opCoinbase opTimestamp opNumber opDifficulty opGasLimit opPc opMsize opGas
          opSha3 opCallDataCopy opReturnDataCopy opCodeCopy opExtCodeCopy opMstore opMstore8 opSstore opJump opJumpi opReturn
          opRevert opSuicide makeLog makePush makeDup makeSwap copy_data jump_to opPop opBalance opCallDataLoad opExtCodeSize
          opExtCodeHash opBlockhash opMload opSload opCallCode opDelegateCall opStaticCall opCreate opCreate2];
        repeat first [apply finish_call_kept | apply finish_create_kept | kept_step] ] ].

Ltac tame_next := apply Forall_cons; split; [tame_op|].
Ltac tame_family := apply Forall_forall; intros e [n [-> Hn]]%list_elem_of_fmap; tame_op.

Lemma frontier_tame : Forall (fun e => tame (fst e) (snd e)) frontierInstructionSet.
Proof.
  unfold frontierInstructionSet, pushes, dups, swaps, logs. rewrite !Forall_app. split_and!.
  - repeat tame_next. apply Forall_nil. done.
  - tame_family.
  - tame_family.
  - tame_family.
  - tame_family.
  - repeat tame_next. apply Forall_nil. done.
Qed.

Lemma table_tame r : Forall (fun e => tame (fst e) (snd e)) (JumpTable r).
Proof.
  assert (Forall (fun e => tame (fst e) (snd e)) byzantiumInstructionSet) as Hb.
  { unfold byzantiumInstructionSet, homesteadInstructionSet. cbn [app]. do 5 tame_next. apply frontier_tame. }
  unfold JumpTable. destruct (IsConstantinople r); [|destruct (IsByzantium r); [done|destruct (IsHomestead r); [|apply frontier_tame]]].
  - unfold constantinopleInstructionSet. cbn [app]. do 5 tame_next. done.
  - unfold homesteadInstructionSet. tame_next. apply frontier_tame.
Qed.

Lemma table_get_pairs {P : Z -> operation -> Prop} t op o :
  Forall (fun e => P (fst e) (snd e)) t -> table_get t op = Some o -> P op o.
Proof.
  induction 1 as [|[k o'] t Ho _ IH]; [done|]. cbn. destruct (Z.eqb_spec op k); [intros [= <-]; subst; done|done].
Qed.

(** Under a restriction only what does not write goes on. *)
Lemma enforced evm op o st b : inside evm -> enforceRestrictions evm op o st = Ret b -> b = true -> allowed op o st.
Proof.
  intros Hi. destruct (Bool.bool_dec may true) as [Em|Em]; [intros _ _; left; done|]. apply not_true_is_false in Em.
  unfold enforceRestrictions. rewrite (mp_only _ _ _ MP Em evm Hi). intros H ->. right. destruct (op_writes o); [done|]. split; [done|]. intros -> v Hv. rewrite Z.eqb_refl in H.
  unfold Back in H. rewrite Hv in H. cbn in H. injection H as H. apply Z.leb_le in H. unfold BitLen in H.
  destruct (Z.eqb_spec v 0); [done|]. pose proof (Z.log2_nonneg (Z.abs v)). lia.
Qed.

Lemma exec_step_kept cs evm fr : calls_keep cs -> inside evm -> kept (exec_step cs evm fr).
Proof.
  intros Hcs Hi. unfold exec_step. destruct (table_get _ _) as [o|] eqn:Eo; [|apply kept_ret].
  apply (table_get_pairs _ _ _ (table_tame _)) in Eo. destruct (negb (validateStack _ _)); [apply kept_ret|].
  eapply kept_given; [apply kept_reads; constructor| |].
  { apply gives_lift. intros b Hb. exact (enforced evm _ o _ b Hi Hb). }
  intros [] Ha; cbn [negb]; [|apply kept_ret]. apply kept_bind; [apply kept_reads; constructor|].
  intros [size|]; [|apply kept_ret]. apply Eo; auto.
Qed.

Lemma exec_loop_kept fuel : loop_keeps (exec_loop fuel).
Proof.
  induction fuel as [|fuel IH]; intros evm fr Hi; cbn [exec_loop]; [apply kept_ret|].
  apply kept_bind; [apply exec_step_kept; [apply calls_of_keep, IH|done]|]. intros [g ret err|fr']; [apply kept_ret|].
  apply IH. done.
Qed.


End Induction.
