(* ===== verification/VmEffects.v ===== *)
(** * Effects of contracts

    What a contract's run may do to the state.  All of it is recorded in the
    journal, so a call that fails leaves the state as it was; and under a
    static call only accounts without content and preimages are added.  Both
    are instances of VmInduction.v, for a relation between the states before
    and after. *)
From S2P Require Import Prelude Rlp StateData StateToy StateDB StateObs StateRevert StateClient VmWord VmCode VmPrecompiled Vm VmToy VmGas VmInduction.
Local Open Scope Z_scope.

(** ** Reading changes nothing *)
Section Calm.
Context {L : TrieLib} {LL : TrieLaws L}.

Definition calms {A} (m : SM A) : Prop := forall s s' x, swf s -> m s = Ret (s', x) -> calm s s'.

Lemma calms_ret {A} (x : A) : calms (mret x).
Proof. intros s s' y W [= <- _]. apply calm_refl. done. Qed.
Lemma calms_lift {A} (m : outcome A) : calms (liftS m).
Proof. intros s s' y W H. unfold liftS in H. destruct m; [|done]. injection H as <- _. apply calm_refl. done. Qed.
Lemma calms_bind {A B} (m : SM A) (f : A -> SM B) : calms m -> (forall x, calms (f x)) -> calms (x ← m; f x).
Proof.
  intros Hm Hf s s' x W H. apply SM_bind_inv in H as (s1 & a & H1 & H2). pose proof (Hm _ _ _ W H1) as C1.
  eapply calm_trans; [exact C1|]. eapply Hf; [|exact H2]. apply C1.
Qed.
Lemma calms_mapped {A B} (m : SM A) (h : A -> B) : reader (x ← m; mret (h x)) -> calms m.
Proof.
  intros [H _] s s' x W Hm. apply (H s s' (h x) W). rewrite (SM_bind_Ret _ _ _ _ _ Hm). done.
Qed.

Lemma Exist_calms a : calms (Exist a).
Proof. exact (calms_mapped _ _ (runGetter_reader (GExist a))). Qed.
Lemma GetBalance_calms a : calms (GetBalance a).
Proof. exact (calms_mapped _ _ (runGetter_reader (GBalance a))). Qed.
Lemma GetNonce_calms a : calms (GetNonce a).
Proof. exact (calms_mapped _ _ (runGetter_reader (GNonce a))). Qed.
Lemma GetCode_calms a : calms (GetCode a).
Proof. exact (calms_mapped _ _ (runGetter_reader (GCode a))). Qed.
Lemma GetCodeHash_calms a : calms (GetCodeHash a).
Proof. exact (calms_mapped _ _ (runGetter_reader (GCodeHash a))). Qed.
Lemma GetState_calms a k : calms (GetState a k).
Proof. exact (calms_mapped _ _ (runGetter_reader (GState a k))). Qed.
Lemma HasSuicided_calms a : calms (HasSuicided a).
Proof. exact (calms_mapped _ _ (runGetter_reader (GHasSuicided a))). Qed.

Lemma query_calms {A} a (d : A) m : calms m -> calms (query a d m).
Proof.
  intros Hm. apply calms_bind; [apply Exist_calms|]. intros []; [done|apply calms_ret].
Qed.
Lemma deref_calms a : calms (deref a).
Proof.
  intros s s' x W H. unfold deref, mbind, SM_bind, getS in H. destruct (s_stateObjects s !! a); [|done].
  injection H as <- _. apply calm_refl. done.
Qed.
Lemma Empty_calms a : calms (Empty a).
Proof. apply query_calms, calms_bind; [apply deref_calms|]. intros o. apply calms_ret. Qed.
Lemma GetCodeSize_calms a : calms (GetCodeSize a).
Proof.
  apply query_calms, calms_bind; [apply deref_calms|]. intros o. destruct (so_code o); [apply calms_ret|].
  intros s s' x W H. unfold getS, modifyS, mbind, SM_bind in H. destruct (ContractCode _ _).
  - injection H as <- _. apply calm_refl. done.
  - injection H as <- _. apply setError_calm. done.
Qed.
Lemma CanTransfer_calms a v : calms (CanTransfer a v).
Proof. apply calms_bind; [apply GetBalance_calms|]. intros b. apply calms_ret. Qed.

End Calm.

Create HintDb calms.
#[export] Hint Resolve calms_ret calms_lift Exist_calms GetBalance_calms GetNonce_calms GetCode_calms GetCodeHash_calms
  GetState_calms HasSuicided_calms Empty_calms GetCodeSize_calms CanTransfer_calms : calms.


(** ** A relation between states *)
Section Relation.
Context {L : TrieLib} {LL : TrieLaws L} {PL : PrecompiledLib} {AL : AddressLib}.

Lemma enter_account_ok caller addr value exist : ok (enter_account caller addr value exist).
Proof.
  apply ok_bind; [destruct exist; [apply ok_ret|exact (runMutator_ok (MCreateAccount addr))]|]. intros _.
  apply ok_bind; [exact (runMutator_ok (MSubBalance caller value))|intros _; exact (runMutator_ok (MAddBalance addr value))].
Qed.

Lemma Exist_spec addr s s' b : swf s -> Exist addr s = Ret (s', b) -> calm s s' /\ (b = false -> view s' addr = None).
Proof.
  intros W H. split; [eapply Exist_calms; done|]. destruct (getStateObject_spec s addr W) as (s1 & G & C & _).
  unfold Exist in H. rewrite G in H. injection H as <- <-. intros Hv. destruct (view s addr) eqn:Ev; [done|].
  pose proof (eqv_view s1 s addr (proj1 (proj2 C))) as Hs. rewrite Ev in Hs. destruct (view s1 addr); done.
Qed.

(** Every read leaves caches at most, and every write is journaled. *)
Lemma reads_calm {A} (m : SM A) : vm_reads m -> calms m.
Proof. destruct 1; auto with calms. Qed.
Lemma writes_ok {A} (m : SM A) : vm_writes m -> ok m.
Proof.
  destruct 1.
  - exact (runMutator_ok (MAddRefund v)).
  - exact (runMutator_ok (MSetState a k v)).
  - exact (runMutator_ok (MAddLog l)).
  - exact (runMutator_ok (MAddBalance a v)).
  - exact (runMutator_ok (MSubBalance a v)).
  - exact (runMutator_ok (MSetNonce a v)).
  - exact (runMutator_ok (MSetCode a c)).
  - exact (runMutator_ok (MCreateAccount a)).
  - apply Suicide_ok.
Qed.

Context (E : StateDB -> StateDB -> Prop).
Definition related (A : Type) (m : SM A) : Prop := forall s s' x, swf s -> m s = Ret (s', x) -> step s s' /\ E s s'.

Context (inside : EVM -> Prop) (may : bool).
Context (E_eqv : forall s s', eqv s' s -> E s s').
Context (E_trans : forall s1 s2 s3, E s1 s2 -> E s2 s3 -> E s1 s3).
Context (inside_enter : forall evm ro, inside evm -> inside (evm_enter evm ro)).
Context (inside_only : may = false -> forall evm, inside evm -> IsByzantium (evm_rules evm) && evm_readOnly evm = true).
Context (writes : may = true -> forall A (m : SM A), vm_writes m -> related A m).
Context (preimage : forall h v, related _ (AddPreimage h v)).
Context (enters : forall caller addr value exist s s', may = true \/ value = 0 -> swf s -> (exist = false -> view s addr = None) ->
  enter_account caller addr value exist s = Ret (s', tt) -> E s s').

Lemma related_calms {A} (m : SM A) : calms m -> related A m.
Proof. intros Hm s s' x W H. pose proof (Hm _ _ _ W H) as C. split; [apply calm_step; done|]. apply E_eqv, C. Qed.
Lemma related_trans s1 s2 s3 : step s1 s2 /\ E s1 s2 -> step s2 s3 /\ E s2 s3 -> step s1 s3 /\ E s1 s3.
Proof. intros [S1 E1] [S2 E2]. split; [eapply step_trans; done|eapply E_trans; done]. Qed.

Lemma with_undo_kept {A B} (m : SM A) bad (res : A -> B) s s' y : related A m -> swf s -> with_undo m bad res s = Ret (s', y) ->
  step s s' /\ E s s' /\ exists x, y = res x /\ (bad x = true -> eqv s' s).
Proof.
  intros Hm W H. unfold with_undo in H. apply SM_bind_inv in H as (s1 & id & H1 & H). apply SM_bind_inv in H as (s2 & x & H2 & H).
  apply SM_bind_inv in H as (s3 & [] & H3 & H). injection H as -> <-.
  pose proof (Snapshot_step _ _ _ W H1) as S1. destruct (Hm _ _ _ (proj1 S1) H2) as [S2 E2].
  destruct (Snapshot_spec s W) as (s1' & H1' & _ & E1 & _). rewrite H1' in H1. injection H1 as <- <-.
  destruct (bad x) eqn:Hb.
  - destruct (revert_spec s s1' s2 _ W H1' S2) as (s3' & H3' & W3 & E3 & J3 & R3 & N3).
    rewrite H3' in H3. injection H3 as ->. split_and!; [|apply E_eqv; done|exists x; done].
    eapply back_step; try done. destruct S1 as (_ & _ & _ & N1 & _), S2 as (_ & _ & _ & N2 & _). lia.
  - injection H3 as ->. split_and!; [eapply step_trans; done| |exists x; split; [done|congruence]].
    eapply E_trans; [apply E_eqv; exact E1|done].
Qed.


Lemma related_enter {A} caller addr value (early : bool -> bool) (x : A) k : may = true \/ value = 0 -> related A k ->
  related A (exist ← Exist addr; if early exist then mret x else enter_account caller addr value exist ;; k).
Proof.
  intros Hv Hk s s' y W H. apply SM_bind_inv in H as (s1 & exist & H1 & H). destruct (Exist_spec _ _ _ _ W H1) as [C1 V1].
  assert (step s s1 /\ E s s1) as R1 by (split; [apply calm_step; done|apply E_eqv, C1]).
  destruct (early exist); [injection H as <- _; done|]. apply SM_bind_inv in H as (s2 & [] & H2 & H).
  pose proof (enters _ _ _ _ _ _ Hv (proj1 C1) V1 H2) as E2. pose proof (enter_account_ok _ _ _ _ _ _ _ (proj1 C1) H2) as S2.
  eapply related_trans; [exact R1|]. eapply related_trans; [split; done|]. apply (Hk _ _ y); [apply S2|done].
Qed.

Lemma related_machine : machine_property related inside may.
Proof.
  split; [| |done| | | | |done|done].
  - intros A m Hm. apply related_calms, reads_calm. done.
  - exact writes.
  - intros A B m f Q Hm Hg Hf s s' x W H. apply SM_bind_inv in H as (s1 & a & H1 & H2).
    eapply related_trans; [apply (Hm _ _ _ W H1)|]. eapply (Hf a (Hg _ _ _ H1)); [|exact H2]. apply (Hm _ _ _ W H1).
  - intros A m m' He Hm s s' x W H. rewrite He in H. eapply Hm; done.
  - intros A B m bad res Hm s s' y W H. destruct (with_undo_kept _ _ _ _ _ _ Hm W H) as (? & ? & _). done.
  - intros. apply related_enter; done.
Qed.

(** ** What a call comes to *)
Definition lands (s s' : StateDB) (err : option string) : Prop :=
  step s s' /\ E s s' /\ (is_some err = true -> eqv s' s).

Lemma undo_outcome (m : SM (Z * bytes * option string)) s s' ret g err : related _ m -> swf s ->
  with_undo m call_failed call_result s = Ret (s', (ret, g, err)) -> lands s s' err.
Proof.
  intros Hm W H. destruct (with_undo_kept _ _ _ _ _ _ Hm W H) as (S1 & E1 & [[g' ret'] err'] & Hx & Hb).
  injection Hx as _ _ ->. split_and!; done.
Qed.

Lemma calm_outcome s s' (err : option string) : calm s s' -> lands s s' err.
Proof. intros C. split_and!; [apply calm_step; done|apply E_eqv, C|intros _; apply C]. Qed.
Lemma lands_after s s1 s' err : calm s s1 -> lands s1 s' err -> lands s s' err.
Proof.
  intros C (S2 & E2 & Q2). split_and!; [eapply step_trans; [apply calm_step|]; done|eapply E_trans; [apply E_eqv, C|done]|].
  intros He. etransitivity; [apply Q2; done|apply C].
Qed.

Lemma run_code_outcome fuel evm a b c d gas value ro s s' ret g err : inside (evm_enter evm ro) -> swf s ->
  run_code (exec_loop fuel) evm a b c d gas value ro s = Ret (s', (ret, g, err)) ->
  lands s s' err.
Proof.
  intros Hi W H. rewrite run_code_alt in H. eapply undo_outcome; [|done|exact H].
  eapply code_body_kept; [exact related_machine|apply (exec_loop_kept _ _ _ related_machine)|done].
Qed.

Lemma run_call_outcome fuel k evm c addr input gas value s s' ret g err : inside evm -> may = true -> swf s ->
  run_call k (exec_loop fuel) evm c addr input gas value s = Ret (s', (ret, g, err)) ->
  lands s s' err.
Proof.
  intros Hi Hm W H. destruct k; cbn [run_call] in H.
  1: { destruct (refuse evm gas) eqn:Er.
       { unfold evm_Call in H. rewrite Er in H. injection H as <- _. apply calm_outcome, calm_refl. done. }
       rewrite evm_Call_alt in H by done. apply SM_bind_inv in H as (s1 & can & H1 & H).
       pose proof (CanTransfer_calms _ _ _ _ _ W H1) as C1. destruct can; cbn [negb] in H.
       2: { injection H as <- _ _ _. apply calm_outcome. done. }
       apply (lands_after _ _ _ _ C1). eapply undo_outcome; [|apply C1|exact H].
       eapply call_body_kept; [exact related_machine|apply (exec_loop_kept _ _ _ related_machine)|done|auto]. }
  1: { unfold evm_CallCode in H. destruct (refuse evm gas); [injection H as <- _; apply calm_outcome, calm_refl; done|].
       apply SM_bind_inv in H as (s1 & can & H1 & H). pose proof (CanTransfer_calms _ _ _ _ _ W H1) as C1. destruct can; cbn [negb] in H.
       2: { injection H as <- _ _ _. apply calm_outcome. done. }
       apply (lands_after _ _ _ _ C1). eapply run_code_outcome; [apply inside_enter; done|apply C1|exact H]. }
  all: unfold evm_DelegateCall, evm_StaticCall in H; destruct (refuse evm gas); [injection H as <- _; apply calm_outcome, calm_refl; done|].
  all: eapply run_code_outcome; [apply inside_enter; done|done|exact H].
Qed.

End Relation.

(** ** Failed calls *)
Section Failed.
Context {L : TrieLib} {LL : TrieLaws L} {PL : PrecompiledLib} {AL : AddressLib}.

Definition anything (s s' : StateDB) : Prop := True.
Definition anywhere (evm : EVM) : Prop := True.

Lemma related_ok {A} (m : SM A) : ok m -> related anything A m.
Proof. intros H s s' x W Hm. split; [eapply H; done|done]. Qed.

(** C19: A contract call that fails changes nothing.  Whatever code runs, with
    all the calls and creations it makes itself, when CALL, CALLCODE,
    DELEGATECALL or STATICCALL ends with an error (no gas, a bad jump, a
    revert, too little balance, too deep) every getter of the state database
    answers what it answered before the call. *)
Theorem failed_call_changes_nothing fuel k evm c addr input gas value s s' ret left e :
  swf s -> run_call k (exec_loop fuel) evm c addr input gas value s = Ret (s', (ret, left, Some e)) ->
  swf s' /\ eqv s' s /\ forall g, ans (runGetter g s') = ans (runGetter g s).
Proof.
  intros W H. assert (lands anything s s' (Some e)) as (S & _ & Q).
  - eapply (run_call_outcome anything anywhere true); try done.
    + intros _ A m Hm. apply related_ok, writes_ok. done.
    + intros h v. apply related_ok, AddPreimage_ok.
  - specialize (Q eq_refl). split_and!; [apply S|done|]. intros g. apply (proj2 (runGetter_reader g)); [apply S|done|done].
Qed.

Lemma create_failed_error evm address r ret a left e : IsHomestead (evm_rules evm) = true ->
  create_result evm address r = (ret, a, left, Some e) -> create_failed evm r = true.
Proof.
  destruct r as [[g ret'] err]. unfold create_result, create_failed. intros -> [= _ _ _ He].
  destruct (too_large evm ret'); [done|]. cbn in He. subst err. done.
Qed.

Lemma anything_machine : machine_property (related anything) anywhere true.
Proof.
  apply related_machine; try done.
  - intros _ A m Hm. apply related_ok, writes_ok. done.
  - intros h v. apply related_ok, AddPreimage_ok.
Qed.

Lemma create_body_ok fuel evm caller code gas value address :
  related anything _ (create_body (exec_loop fuel) evm caller code gas value address).
Proof. apply (create_body_kept _ _ _ anything_machine); [apply (exec_loop_kept _ _ _ anything_machine)|done|done]. Qed.

(** A contract creation that fails leaves the state as it was, but for the
    creator's nonce: it is one higher, so that the next creation gets another
    address, unless the creation was refused at once (too deep, or the creator
    cannot pay). *)
Theorem failed_create_bumps_nonce fuel evm caller code gas value address s s' ret a left e :
  IsHomestead (evm_rules evm) = true -> swf s ->
  evm_create (exec_loop fuel) evm caller code gas value address s = Ret (s', (ret, a, left, Some e)) ->
  swf s' /\ (eqv s' s \/ exists n s0 s1, ans (GetNonce caller s) = Some n /\ calm s s0
    /\ SetNonce caller (u64 (n + 1)) s0 = Ret (s1, tt) /\ eqv s' s1).
Proof.
  intros Hh W H. destruct (Z.ltb_spec CallCreateDepth (evm_depth evm)) as [Hd|Hd].
  { unfold evm_create in H. rewrite (proj2 (Z.ltb_lt _ _) Hd) in H. injection H as <- _ _ _ _. split; [done|left; done]. }
  rewrite evm_create_alt in H by done. apply SM_bind_inv in H as (s1 & can & H1 & H).
  pose proof (CanTransfer_calms _ _ _ _ _ W H1) as C1. destruct can; cbn [negb] in H.
  2: { injection H as <- _ _ _ _. split; [apply C1|left; apply C1]. }
  apply SM_bind_inv in H as (s2 & n & H2 & H). apply SM_bind_inv in H as (s3 & [] & H3 & H).
  apply SM_bind_inv in H as (s4 & h & H4 & H). apply SM_bind_inv in H as (s5 & n' & H5 & H).
  pose proof (calm_trans _ _ _ C1 (GetNonce_calms _ _ _ _ (proj1 C1) H2)) as C2.
  assert (swf s3) as W3 by exact (proj1 (runMutator_ok (MSetNonce caller _) _ _ _ (proj1 C2) H3)).
  pose proof (GetCodeHash_calms _ _ _ _ W3 H4) as C4. pose proof (calm_trans _ _ _ C4 (GetNonce_calms _ _ _ _ (proj1 C4) H5)) as C5.
  assert (ans (GetNonce caller s) = Some n) as Hn.
  { assert (reader (GetNonce caller)) as [_ R] by (apply (reader_data caller 0 (zget FNonce)); intros []; done).
    rewrite (R s s1 W (proj1 C1) (symmetry (proj1 (proj2 C1)))), H2. done. }
  assert (swf s' /\ eqv s' s5) as [W' E']; [|split; [done|]; right; exists n, s2, s3; split_and!; try done; etransitivity; [done|apply C5]].
  destruct (_ || _); [injection H as <- _ _ _ _; split; [apply C5|done]|].
  destruct (with_undo_kept anything (fun _ _ _ => I) (fun _ _ _ _ _ => I) _ _ _ _ _ _ (create_body_ok _ _ _ _ _ _ _) (proj1 C5) H)
    as (S & _ & x & Hx & Hb). split; [apply S|]. apply Hb. eapply create_failed_error; done.
Qed.

End Failed.

(** ** Static calls *)
Section Static.
Context {L : TrieLib} {LL : TrieLaws L} {PL : PrecompiledLib} {AL : AddressLib}.

(** What an account holds; one that does not exist holds nothing. *)
Definition content (s : StateDB) (a : bytes) (q : oquery) : ovalue :=
  default (obs (s_db s) (fresh_object a) q) (sobs s a q).

Definition quiet (s s' : StateDB) : Prop :=
  s_db s' = s_db s /\ s_trie s' = s_trie s /\ s_refund s' = s_refund s /\ s_logs s' = s_logs s /\ s_logSize s' = s_logSize s
  /\ forall a q, content s' a q = content s a q.

Definition static (evm : EVM) : Prop := IsByzantium (evm_rules evm) && evm_readOnly evm = true.

Lemma quiet_eqv s s' : eqv s' s -> quiet s s'.
Proof. intros (D & T & R & Lg & Ls & _ & Es). unfold quiet, content. rewrite D. split_and!; try done. intros a q. rewrite Es. done. Qed.
Lemma quiet_trans s1 s2 s3 : quiet s1 s2 -> quiet s2 s3 -> quiet s1 s3.
Proof. intros (? & ? & ? & ? & ? & Q1) (? & ? & ? & ? & ? & Q2). unfold quiet. split_and!; congruence. Qed.

(** An object in place of one that observes the same. *)
Lemma upd_quiet a o s s' : upd a o s s' -> so_deleted o = false -> (forall q, obs (s_db s) o q = content s a q) -> quiet s s'.
Proof.
  intros U Hd Ho. pose proof U as [_ (D & T & R & Lg & Ls & _)]. unfold quiet. split_and!; try done. intros b q.
  unfold content at 1. rewrite (upd_sobs _ _ _ _ _ _ U Hd), D. case_bool_decide; [|done]. subst b. cbn. rewrite Ho. done.
Qed.

Lemma content_live s a o q : live s a o -> content s a q = obs (s_db s) o q.
Proof. intros H. unfold content, sobs. rewrite (live_view _ _ _ H). done. Qed.
Lemma content_None s a q : view s a = None -> content s a q = obs (s_db s) (fresh_object a) q.
Proof. intros H. unfold content, sobs. rewrite H. done. Qed.

Lemma createObject_quiet s s' x a : swf s -> view s a = None -> createObject a s = Ret (s', x) -> quiet s s' /\ x = None.
Proof.
  intros W Hv H. destruct (createObject_upd s a W) as (s0 & s1 & e & H1 & C & U & J & He). rewrite H1 in H.
  injection H as <- <-. rewrite Hv in He |- *. destruct He as [Hv0 _]. split; [|done].
  eapply quiet_trans; [apply quiet_eqv, C|]. eapply upd_quiet; [exact U|done|]. intros q. rewrite content_None by done. done.
Qed.

Lemma CreateAccount_quiet s s' x a : swf s -> view s a = None -> CreateAccount a s = Ret (s', x) -> quiet s s'.
Proof.
  intros W Hv H. apply SM_bind_inv in H as (s1 & p & H1 & H). apply (createObject_quiet s s1 p a W Hv) in H1 as [Q ->].
  injection H as <- _. done.
Qed.

Lemma GetOrNew_quiet s s' a : swf s -> GetOrNewStateObject a s = Ret (s', tt) -> quiet s s'.
Proof.
  intros W H. destruct (getStateObject_spec s a W) as (s0 & G & C & Hl). unfold GetOrNewStateObject in H.
  rewrite (SM_bind_Ret _ _ _ _ _ G) in H. pose proof (eqv_view s0 s a (proj1 (proj2 C))) as Hv.
  destruct (view s a) as [o|]; cbn [is_some] in H; [injection H as <-; apply quiet_eqv, C|].
  apply SM_bind_inv in H as (s1 & p & H1 & H). injection H as <-. eapply quiet_trans; [apply quiet_eqv, C|].
  apply (createObject_quiet s0 s1 p a); [apply C|destruct (view s0 a); done|done].
Qed.

Lemma so_touch_quiet s s' x a o : live s a o -> so_touch a s = Ret (s', x) -> quiet s s'.
Proof.
  intros Hl H. pose proof Hl as [Ho Hd]. unfold so_touch in H. rewrite (deref_live _ _ _ _ Ho) in H.
  set (e := touchChange a (so_touched o) (negb (so_onDirty o))) in *.
  destruct (callOnDirty_upd (set_s_journal s (s_journal s ++ [e])) a o Ho) as (s1 & H1 & [U1 R1] & J1).
  assert (s_stateObjects s1 !! a = Some (settle o)) as Ho1 by (rewrite U1; apply lookup_insert_eq).
  destruct (putObject_upd s1 a (set_so_touched (settle o) true)) as (s2 & H2 & U2 & J2).
  unfold record, modifyS in H. unfold mbind at 1, SM_bind at 1 in H.
  rewrite (SM_bind_Ret _ _ _ _ _ H1), (deref_live _ _ _ _ Ho1), H2 in H. injection H as <- _.
  assert (similar (s_db s) o (set_so_touched (settle o) true)) as (Hq & _ & Hd').
  { eapply similar_trans; [apply cached_similar, settle_cached|apply touched_similar]. }
  eapply (upd_quiet a (set_so_touched (settle o) true)); [eapply upd_trans; [split; [exact U1|exact R1]|exact U2]|congruence|].
  intros q. rewrite (content_live _ _ _ _ Hl), Hq. done.
Qed.

Lemma Transfer_quiet s s' a b : swf s -> Transfer a b 0 s = Ret (s', tt) -> quiet s s'.
Proof.
  intros W H. apply SM_bind_inv in H as (s2 & [] & H1 & H2).
  assert (quiet s s2 /\ swf s2) as [Q1 W2].
  { split; [|exact (proj1 (runMutator_ok (MSubBalance a 0) _ _ _ W H1))].
    apply SM_bind_inv in H1 as (s1 & [] & G & H1). destruct (GetOrNew_spec s a W) as (s1' & o & G' & _ & Hl & _).
    rewrite G' in G. injection G as <-. unfold so_SubBalance, so_SubZ in H1. rewrite (deref_live _ _ _ _ (proj1 Hl)) in H1.
    injection H1 as <-. eapply GetOrNew_quiet; done. }
  eapply quiet_trans; [exact Q1|]. apply SM_bind_inv in H2 as (s3 & [] & G & H2).
  destruct (GetOrNew_spec s2 b W2) as (s3' & o & G' & _ & Hl & _). rewrite G' in G. injection G as <-.
  eapply quiet_trans; [eapply GetOrNew_quiet; done|]. unfold so_AddBalance, so_AddZ in H2.
  rewrite (deref_live _ _ _ _ (proj1 Hl)) in H2. cbn [Z.eqb] in H2. destruct (so_empty o).
  - eapply so_touch_quiet; done.
  - injection H2 as <-. apply quiet_eqv. done.
Qed.

Lemma enter_quiet caller addr exist s s' : swf s -> (exist = false -> view s addr = None) ->
  enter_account caller addr 0 exist s = Ret (s', tt) -> quiet s s'.
Proof.
  intros W Hv H. apply SM_bind_inv in H as (s1 & [] & H1 & H2). destruct exist.
  - injection H1 as <-. eapply Transfer_quiet; done.
  - eapply quiet_trans; [apply (CreateAccount_quiet s s1 tt addr W (Hv eq_refl) H1)|].
    eapply Transfer_quiet; [|done]. exact (proj1 (CreateAccount_ok addr _ _ _ W H1)).
Qed.

Lemma AddPreimage_quiet h v : related quiet _ (AddPreimage h v).
Proof.
  intros s s' x W H. split; [exact (AddPreimage_ok h v _ _ _ W H)|].
  unfold AddPreimage, mbind, SM_bind, getS, record, modifyS in H.
  destruct (s_preimages s !! h); injection H as <- _; [apply quiet_eqv; done|]. split_and!; done.
Qed.

(** A static call changes nothing.  Under the Byzantium rules, whatever the
    called code and the code that it calls do, a STATICCALL leaves the data of
    every account (balances, nonce, storage, code, delegation, rewards), the
    logs and the refund counter as they were; all that can appear is an
    account without content. *)
Theorem static_call_changes_nothing fuel evm caller addr input gas s s' r :
  IsByzantium (evm_rules evm) = true -> swf s ->
  evm_StaticCall (exec_loop fuel) evm caller addr input gas s = Ret (s', r) -> swf s' /\ quiet s s'.
Proof.
  intros Hb W H. unfold evm_StaticCall in H.
  destruct (refuse evm gas); [injection H as <- _; split; [done|apply quiet_eqv; done]|]. destruct r as [[ret g] err].
  assert (lands quiet s s' err) as (S & Q & _); [|split; [apply S|done]].
  eapply (run_code_outcome quiet static false); try done.
  - apply quiet_eqv.
  - apply quiet_trans.
  - intros evm' ro. unfold static. cbn. rewrite !andb_true_iff, orb_true_iff. tauto.
  - apply AddPreimage_quiet.
  - intros caller' addr' value exist t t' [Hf | ->] Wt Hv Ht; [done|]. eapply enter_quiet; done.
  - unfold static. cbn. rewrite Hb, orb_true_r. done.
Qed.

End Static.

(** ** Examples *)
Module VmEffectsExamples.
Import StateToy ClientExamples VmToy.

Definition ex_caller : Contract :=
  {| c_CallerAddress := bob; c_self := alice; c_Code := []; c_CodeHash := []; c_CodeAddr := alice; c_Input := []; c_value := 0 |}.

Definition ex_failed : outcome (StateDB * (bytes * Z * option string)) :=
  run_call KCall (exec_loop 100) ex_evm ex_caller carol [] 50000 5 (ex_with failing).

(** The contract stored a value and got 5 before it failed. *)
Lemma failed_call_changes_nothing_witness :
  ans ex_failed = Some ([], 0, Some "invalid opcode"%string)
  /\ ans (runGetter (GState carol slot) (state_of ex_new ex_failed)) = Some (AS zeroHash)
  /\ ans (runGetter (GBalance alice) (state_of ex_new ex_failed)) = Some (AZ 1000).
Proof.
  assert (ans ex_failed = Some ([], 0, Some "invalid opcode"%string)) as Ha by (vm_compute; reflexivity).
  assert (swf (ex_with failing)) as W by (apply ex_with_swf; vm_compute; reflexivity).
  pose proof (run_state ex_new ex_failed _ Ha) as Hr. unfold ex_failed at 1 in Hr.
  destruct (failed_call_changes_nothing (L := toyLib) 100 KCall ex_evm ex_caller carol [] 50000 5 (ex_with failing) _ _ _ _ W Hr)
    as (_ & _ & Hg).
  split; [exact Ha|split; [refine (eq_trans (Hg (GState carol slot)) _)|refine (eq_trans (Hg (GBalance alice)) _)]];
    vm_compute; reflexivity.
Defined.

Definition ex_static : outcome (StateDB * (bytes * Z * option string)) :=
  evm_StaticCall (exec_loop 100) ex_evm alice carol [] 50000 (ex_with writing_code).

(** A contract that writes fails under a static call. *)
Lemma static_call_changes_nothing_witness :
  ans ex_static = Some ([], 0, Some errWriteProtection)
  /\ swf (state_of ex_new ex_static) /\ quiet (ex_with writing_code) (state_of ex_new ex_static).
Proof.
  assert (ans ex_static = Some ([], 0, Some errWriteProtection)) as Ha by (vm_compute; reflexivity). split; [exact Ha|].
  pose proof (run_state ex_new ex_static _ Ha) as Hr. unfold ex_static at 1 in Hr.
  refine (static_call_changes_nothing (L := toyLib) 100 ex_evm alice carol [] 50000 (ex_with writing_code) _ _ _ _ Hr).
  - reflexivity.
  - apply ex_with_swf. vm_compute. reflexivity.
Defined.

End VmEffectsExamples.
