(* ===== verification/VmRefund.v ===== *)
(** * The refund counter

    The refund counter and what the journal remembers of it stay numbers of 64
    bits, whatever a contract does and whatever is reverted: an instance of
    VmInduction.v that needs no other property of the state. *)
From S2P Require Import Prelude Rlp StateData StateDB VmWord VmCode VmPrecompiled StateObs StateRevert StateClient Vm VmGas VmInduction.
Local Open Scope Z_scope.

Section Refund.
Context {L : TrieLib} {PL : PrecompiledLib} {AL : AddressLib}.

Definition refund_entry (e : journalEntry) : Prop := match e with refundChange prev => is_uint64 prev | _ => True end.

Definition counter_ok (s : StateDB) : Prop := is_uint64 (s_refund s) /\ Forall refund_entry (s_journal s).

Definition counted (A : Type) (m : SM A) : Prop := forall s s' x, counter_ok s -> m s = Ret (s', x) -> counter_ok s'.

Lemma counted_ret {A} (x : A) : counted A (mret x).
Proof. intros s s' y W [= <- _]. done. Qed.
Lemma counted_panic {A} e : counted A (panicS e).
Proof. intros s s' y W H. done. Qed.
Lemma counted_lift {A} (m : outcome A) : counted A (liftS m).
Proof. intros s s' y W H. unfold liftS in H. destruct m; [|done]. injection H as <- _. done. Qed.
Lemma counted_bind {A B} (m : SM A) (f : A -> SM B) : counted A m -> (forall x, counted B (f x)) -> counted B (x ← m; f x).
Proof. intros Hm Hf s s' x W H. apply SM_bind_inv in H as (s1 & a & H1 & H2). eapply Hf; [|exact H2]. eapply Hm; done. Qed.
Lemma counted_get {B} (f : StateDB -> SM B) : (forall t, counter_ok t -> counted B (f t)) -> counted B (s ← getS; f s).
Proof. intros Hf s s' x W H. unfold getS, mbind, SM_bind in H. exact (Hf s W s s' x W H). Qed.
Lemma counted_modify f : (forall s, counter_ok s -> counter_ok (f s)) -> counted unit (modifyS f).
Proof. intros Hf s s' x W H. injection H as <- _. apply Hf. done. Qed.
Lemma counted_record e : refund_entry e -> counted unit (record e).
Proof.
  intros He. apply counted_modify. intros s [Hr Hj]. split; [done|]. cbn. apply Forall_app. split; [done|]. apply Forall_singleton. done.
Qed.
Lemma setError_counted e s : counter_ok s -> counter_ok (s_setError e s).
Proof. unfold s_setError. destruct (s_dbErr s); done. Qed.

(** Step by step through the code of the database. *)
Ltac counted_step :=
  match goal with
  | |- counted _ (mret _) => apply counted_ret
  | |- counted _ (panicS _) => apply counted_panic
  | |- counted _ (liftS _) => apply counted_lift
  | |- counted _ (record _) => apply counted_record; try done
  | |- counted _ (modifyS _) => apply counted_modify; intros ? ?; try done
  | |- counted _ (if ?b then _ else _) => destruct b
  | |- counted _ (match ?o with Some _ => _ | None => _ end) => destruct o
  | |- counted _ (s ← getS; _) => apply counted_get; intros ? ?
  | |- counted _ (_ ← _; _) => apply counted_bind; [|intros ?]
  end.

Lemma getStateObject_counted a : counted bool (getStateObject a).
Proof.
  unfold getStateObject, setStateObject, putObject. repeat counted_step.
  destruct (TryGet _ _); [done|apply setError_counted; done].
Qed.
Lemma deref_counted a : counted _ (deref a).
Proof. unfold deref. repeat counted_step. Qed.
Lemma callOnDirty_counted a : counted _ (callOnDirty a).
Proof. unfold callOnDirty, MarkStateObjectDirty, putObject. repeat first [apply deref_counted | counted_step]. Qed.
Lemma changeObject_counted a f : counted _ (changeObject a f).
Proof. unfold changeObject, putObject. repeat first [apply deref_counted | apply callOnDirty_counted | counted_step]. Qed.
Lemma through_counted {A} a (f : DB -> stateObject -> outcome (stateObject * A)) : counted A (through a f).
Proof. unfold through, putObject. repeat first [apply deref_counted | counted_step]. Qed.

Ltac counting := repeat first
  [ apply getStateObject_counted | apply deref_counted | apply callOnDirty_counted | apply changeObject_counted
  | apply through_counted | counted_step ].

Lemma createObject_counted a : counted _ (createObject a).
Proof.
  unfold createObject, MarkStateObjectDirty, setStateObject, putObject. counting. destruct x0; done.
Qed.
Lemma GetOrNew_counted a : counted _ (GetOrNewStateObject a).
Proof. unfold GetOrNewStateObject. repeat first [apply createObject_counted | counting]. Qed.
Lemma query_counted {A} a (d : A) m : counted A m -> counted A (query a d m).
Proof. intros Hm. unfold query. counting. done. Qed.

Lemma so_setSide_counted a i v : counted _ (so_setSideChainDepositBalance a i v).
Proof. unfold so_setSideChainDepositBalance. counting. Qed.

Lemma SetZ_counted f a v : counted _ (so_SetZ f a v).
Proof. unfold so_SetZ, so_setZ. counting. destruct f; done. Qed.
Lemma touch_counted a : counted _ (so_touch a).
Proof. unfold so_touch, putObject. counting. Qed.

Lemma reads_counted A (m : SM A) : vm_reads m -> counted A m.
Proof.
  destruct 1; try (apply counted_ret || apply counted_lift || apply getStateObject_counted);
    apply query_counted; counting.
  destruct (ContractCode _ _); counting. apply setError_counted. done.
Qed.

Lemma AddPreimage_counted h v : counted _ (AddPreimage h v).
Proof. unfold AddPreimage. counting. Qed.

Lemma writes_counted A (m : SM A) : vm_writes m -> counted A m.
Proof.
  destruct 1.
  - unfold AddRefund. counting; [apply H|]. split; [apply u64_range|]. apply H0.
  - unfold SetState, so_SetState, so_setState. apply counted_bind; [apply GetOrNew_counted|intros _]. counting.
  - unfold AddLog. counting.
  - unfold AddBalance, so_AddBalance, so_AddZ. apply counted_bind; [apply GetOrNew_counted|intros _].
    repeat first [apply SetZ_counted | apply touch_counted | counting].
  - unfold SubBalance, so_SubBalance, so_SubZ. apply counted_bind; [apply GetOrNew_counted|intros _].
    repeat first [apply SetZ_counted | counting].
  - apply counted_bind; [apply GetOrNew_counted|intros _]. apply SetZ_counted.
  - apply counted_bind; [apply GetOrNew_counted|intros _]. unfold so_SetCode, so_setCode. counting.
  - unfold CreateAccount, so_setZ. repeat first [apply createObject_counted | counting].
  - unfold Suicide, so_markSuicided, putObject. counting.
Qed.

(** ** Undoing *)
Lemma undoOn_counted a k : counted _ k -> counted _ (undoOn a k).
Proof. intros Hk. unfold undoOn. counting. done. Qed.

Lemma sideChainIndex_counted a c : counted _ (so_sideChainIndex a c).
Proof. unfold so_sideChainIndex, putObject. counting. destruct (side_index _ _). counting. Qed.

Lemma undo_counted e : refund_entry e -> counted _ (undo e).
Proof.
  intros He. destruct e; cbn [undo]; match goal with |- counted _ (undoOn _ _) => apply undoOn_counted | _ => idtac end;
    cbv beta delta [so_setZ so_setCode so_setState so_setAccountProxiedBalance so_setDelegateRewardBalance so_setCandidate
      so_setPubkey so_setBanned so_removeTX1 so_removeTX3 setStateObject putObject]; counting.
  - apply sideChainIndex_counted.
  - split; [exact He|]. apply H.
  - destruct (default [] _) as [|x [|y l]]; counting.
  - apply undoOn_counted. counting.
Qed.

Lemma undo_all_counted l : Forall refund_entry l -> counted _ (undo_all l).
Proof. induction 1 as [|e l He _ IH]; cbn [undo_all]; [apply counted_ret|]. apply counted_bind; [apply undo_counted; done|done]. Qed.

Lemma RevertToSnapshot_counted id : counted _ (RevertToSnapshot id).
Proof.
  unfold RevertToSnapshot. apply counted_get. intros t [_ Ht]. destruct (s_validRevisions t !! _) as [r|]; [|apply counted_panic].
  destruct (rev_id r =? id); [|apply counted_panic]. apply counted_bind.
  - apply undo_all_counted, Forall_reverse, Forall_drop. done.
  - intros _. apply counted_modify. intros s [Hr Hj]. split; [done|]. cbn. apply Forall_take. done.
Qed.

Definition everywhere (evm : EVM) : Prop := True.

Lemma counted_machine : machine_property counted everywhere true.
Proof.
  split; [apply reads_counted|intros _; apply writes_counted|apply AddPreimage_counted| | | | |done|done].
  - intros A B m f Q Hm Hg Hf s s' x W H. apply SM_bind_inv in H as (s1 & a & H1 & H2).
    eapply (Hf a (Hg _ _ _ H1)); [|exact H2]. eapply Hm; done.
  - intros A m m' He Hm s s' x W H. rewrite He in H. eapply Hm; done.
  - intros A B m bad res Hm. unfold with_undo, Snapshot. counting; [done|]. apply RevertToSnapshot_counted.
  - intros A caller addr value early x k _ Hk. unfold enter_account, Transfer.
    repeat first [apply Hk | apply writes_counted; constructor | apply getStateObject_counted | counted_step].
Qed.

(** The calls that a transaction makes. *)
Lemma evm_Call_counted fuel evm caller addr input gas value :
  counted _ (evm_Call (exec_loop fuel) evm caller addr input gas value).
Proof. apply (ck_Call _ _ _ _ (calls_of_keep _ _ _ counted_machine _ (exec_loop_kept _ _ _ counted_machine fuel))); [done|auto]. Qed.
Lemma evm_Create_counted fuel evm caller code gas value :
  counted _ (evm_Create (exec_loop fuel) evm caller code gas value).
Proof. apply (ck_Create _ _ _ _ (calls_of_keep _ _ _ counted_machine _ (exec_loop_kept _ _ _ counted_machine fuel))); done. Qed.

End Refund.
