(* ===== verification/ChainConfig.v ===== *)
(** * Configurations of a chain

    The blocks from which the rules of a chain hold (params/config.go), the
    configurations of the networks, and the comparison of a stored
    configuration with a new one, which says how far the chain has to be
    rewound before the new one can be used. *)
From S2P Require Import Prelude.
Local Open Scope Z_scope.

Record ChainConfig := {
  cc_LigoChainId : string;
  cc_ChainId : option Z;
  cc_HomesteadBlock : option Z;
  cc_EIP150Block : option Z;
  cc_EIP155Block : option Z;
  cc_EIP158Block : option Z;
  cc_ByzantiumBlock : option Z;
  cc_ConstantinopleBlock : option Z }.

Definition MainnetChainConfig : ChainConfig :=
  {| cc_LigoChainId := "ligochain"; cc_ChainId := Some 1; cc_HomesteadBlock := Some 0; cc_EIP150Block := Some 0;
     cc_EIP155Block := Some 0; cc_EIP158Block := Some 0; cc_ByzantiumBlock := Some 0; cc_ConstantinopleBlock := None |}.
Definition TestnetChainConfig : ChainConfig :=
  {| cc_LigoChainId := "testnet"; cc_ChainId := Some 2; cc_HomesteadBlock := Some 0; cc_EIP150Block := Some 0;
     cc_EIP155Block := Some 0; cc_EIP158Block := Some 0; cc_ByzantiumBlock := Some 0; cc_ConstantinopleBlock := None |}.

Definition isForked (s head : option Z) : bool :=
  match s, head with
  | Some s, Some head => s <=? head
  | _, _ => false
  end.

Definition cc_IsHomestead (c : ChainConfig) (num : Z) : bool := isForked (cc_HomesteadBlock c) (Some num).
Definition cc_IsEIP150 (c : ChainConfig) (num : Z) : bool := isForked (cc_EIP150Block c) (Some num).
Definition cc_IsEIP155 (c : ChainConfig) (num : Z) : bool := isForked (cc_EIP155Block c) (Some num).
Definition cc_IsEIP158 (c : ChainConfig) (num : Z) : bool := isForked (cc_EIP158Block c) (Some num).
Definition cc_IsByzantium (c : ChainConfig) (num : Z) : bool := isForked (cc_ByzantiumBlock c) (Some num).
Definition cc_IsConstantinople (c : ChainConfig) (num : Z) : bool := isForked (cc_ConstantinopleBlock c) (Some num).
Definition cc_IsMainChain (c : ChainConfig) : bool :=
  bool_decide (cc_LigoChainId c = cc_LigoChainId MainnetChainConfig)
  || bool_decide (cc_LigoChainId c = cc_LigoChainId TestnetChainConfig).

(** ** Compatibility *)
Definition configNumEqual (x y : option Z) : bool :=
  match x, y with
  | None, None => true
  | Some x, Some y => x =? y
  | _, _ => false
  end.

Definition isForkIncompatible (s1 s2 : option Z) (head : Z) : bool :=
  (isForked s1 (Some head) || isForked s2 (Some head)) && negb (configNumEqual s1 s2).

Record ConfigCompatError := {
  ce_What : string;
  ce_StoredConfig : option Z;
  ce_NewConfig : option Z;
  ce_RewindTo : Z }.

Definition newCompatError (what : string) (storedblock newblock : option Z) : ConfigCompatError :=
  let rew :=
    match storedblock, newblock with
    | None, _ => newblock
    | Some _, None => storedblock
    | Some s, Some n => if s <? n then storedblock else newblock
    end in
  {| ce_What := what; ce_StoredConfig := storedblock; ce_NewConfig := newblock;
     ce_RewindTo := match rew with Some r => if 0 <? r then u64 (u64 r - 1) else 0 | None => 0 end |}.

Definition checkCompatible (c newcfg : ChainConfig) (head : Z) : option ConfigCompatError :=
  if isForkIncompatible (cc_HomesteadBlock c) (cc_HomesteadBlock newcfg) head then
    Some (newCompatError "Homestead fork block" (cc_HomesteadBlock c) (cc_HomesteadBlock newcfg))
  else if isForkIncompatible (cc_EIP150Block c) (cc_EIP150Block newcfg) head then
    Some (newCompatError "EIP150 fork block" (cc_EIP150Block c) (cc_EIP150Block newcfg))
  else if isForkIncompatible (cc_EIP155Block c) (cc_EIP155Block newcfg) head then
    Some (newCompatError "EIP155 fork block" (cc_EIP155Block c) (cc_EIP155Block newcfg))
  else if isForkIncompatible (cc_EIP158Block c) (cc_EIP158Block newcfg) head then
    Some (newCompatError "EIP158 fork block" (cc_EIP158Block c) (cc_EIP158Block newcfg))
  else if cc_IsEIP158 c head && negb (configNumEqual (cc_ChainId c) (cc_ChainId newcfg)) then
    Some (newCompatError "EIP158 chain ID" (cc_EIP158Block c) (cc_EIP158Block newcfg))
  else if isForkIncompatible (cc_ByzantiumBlock c) (cc_ByzantiumBlock newcfg) head then
    Some (newCompatError "Byzantium fork block" (cc_ByzantiumBlock c) (cc_ByzantiumBlock newcfg))
  else if isForkIncompatible (cc_ConstantinopleBlock c) (cc_ConstantinopleBlock newcfg) head then
    Some (newCompatError "Constantinople fork block" (cc_ConstantinopleBlock c) (cc_ConstantinopleBlock newcfg))
  else None.

(** The loop of CheckCompatible, and [None] when the fuel is used up. *)
Fixpoint compat_loop (fuel : nat) (c newcfg : ChainConfig) (bhead : Z) (lasterr : option ConfigCompatError)
    : option (option ConfigCompatError) :=
  match fuel with
  | O => None
  | S fuel =>
    match checkCompatible c newcfg bhead with
    | None => Some lasterr
    | Some err =>
      if match lasterr with Some l => ce_RewindTo err =? ce_RewindTo l | None => false end then Some lasterr
      else compat_loop fuel c newcfg (ce_RewindTo err) (Some err)
    end
  end.

Definition CheckCompatible (c newcfg : ChainConfig) (height : Z) : option (option ConfigCompatError) :=
  compat_loop (S (S (Z.to_nat height))) c newcfg height None.

(** ** Proofs *)

(** The fork blocks are numbers of blocks. *)
Definition block_number (b : option Z) : Prop := match b with Some b => is_uint64 b | None => True end.
Definition config_ok (c : ChainConfig) : Prop :=
  Forall block_number [cc_HomesteadBlock c; cc_EIP150Block c; cc_EIP155Block c; cc_EIP158Block c; cc_ByzantiumBlock c;
                       cc_ConstantinopleBlock c].

(** One pair of blocks that are not the same, or not allowed to hold. *)
Definition clash (s1 s2 : option Z) (head : Z) : bool := isForked s1 (Some head) || isForked s2 (Some head).

Lemma clash_mono s1 s2 h h' : h <= h' -> clash s1 s2 h = true -> clash s1 s2 h' = true.
Proof.
  unfold clash, isForked. intros Hh. destruct s1 as [a|], s2 as [b|]; rewrite ?orb_true_iff, ?Z.leb_le; intros H; try done.
  - destruct H; [left|right]; lia.
  - destruct H; [left; lia|done].
  - destruct H; [done|right; lia].
Qed.

(** The error rewinds to just before the first of the two blocks. *)
Lemma newCompatError_rewinds what s1 s2 h : block_number s1 -> block_number s2 -> clash s1 s2 h = true -> 0 <= h ->
  let e := newCompatError what s1 s2 in
  0 <= ce_RewindTo e <= h /\ (ce_RewindTo e = 0 \/ ce_RewindTo e < h) /\ clash s1 s2 (ce_RewindTo e + 1) = true.
Proof.
  intros B1 B2 Hc Hh. unfold clash, isForked in Hc.
  assert (forall r, is_uint64 r -> r <= h -> clash s1 s2 r = true ->
    let x := if 0 <? r then u64 (u64 r - 1) else 0 in 0 <= x <= h /\ (x = 0 \/ x < h) /\ clash s1 s2 (x + 1) = true) as H.
  { intros r Hr Hle Hx x. unfold is_uint64 in Hr. subst x. destruct (Z.ltb_spec 0 r) as [H0|H0].
    - rewrite (u64_id r), u64_id by lia. split_and!; [lia|lia|lia|]. replace (r - 1 + 1) with r by lia. done.
    - split_and!; [lia|lia|lia|]. eapply clash_mono; [|exact Hx]. lia. }
  assert (forall x, (x <=? x) = true) as Hxx by (intros; apply Z.leb_le; lia).
  unfold newCompatError. cbn [ce_RewindTo]. destruct s1 as [a|], s2 as [b|]; cbn [block_number] in *; try done.
  - destruct (Z.ltb_spec a b); apply H; try done; rewrite orb_true_iff, !Z.leb_le in Hc; try lia;
      unfold clash, isForked; rewrite Hxx, ?orb_true_r; done.
  - apply H; try done; [rewrite orb_false_r, Z.leb_le in Hc; lia|]. unfold clash, isForked. rewrite Hxx. done.
  - apply H; try done; [apply Z.leb_le in Hc; lia|]. unfold clash, isForked. rewrite Hxx. done.
Qed.

(** The pairs that are compared, and whether the two configurations differ in
    them. *)
Definition checks (c n : ChainConfig) : list (option Z * option Z * bool) :=
  (fun f : ChainConfig -> option Z => (f c, f n, negb (configNumEqual (f c) (f n)))) <$>
    [cc_HomesteadBlock; cc_EIP150Block; cc_EIP155Block; cc_EIP158Block; cc_ByzantiumBlock; cc_ConstantinopleBlock].
Definition chain_ids_differ (c n : ChainConfig) : bool := negb (configNumEqual (cc_ChainId c) (cc_ChainId n)).

Lemma checkCompatible_None c n h : checkCompatible c n h = None <->
  Forall (fun '(s1, s2, differs) => clash s1 s2 h && differs = false) (checks c n) /\ cc_IsEIP158 c h && chain_ids_differ c n = false.
Proof.
  unfold checkCompatible, checks, chain_ids_differ. cbn [fmap list_fmap]. rewrite !Forall_cons. unfold isForkIncompatible, clash.
  repeat match goal with |- context [if ?b then _ else _] => destruct b eqn:? end; split; intros H; try done;
    destruct H as [(? & ? & ? & ? & ? & ? & _) ?]; congruence.
Qed.

Lemma configNumEqual_eq x y : configNumEqual x y = true -> x = y.
Proof. destruct x, y; cbn; rewrite ?Z.eqb_eq; congruence. Qed.

Lemma checkCompatible_error c n h e : config_ok c -> config_ok n -> 0 <= h -> checkCompatible c n h = Some e ->
  0 <= ce_RewindTo e <= h /\ (ce_RewindTo e = 0 \/ ce_RewindTo e < h) /\ checkCompatible c n (ce_RewindTo e + 1) <> None.
Proof.
  unfold config_ok. rewrite !Forall_cons. intros (C1 & C2 & C3 & C4 & C5 & C6 & _) (N1 & N2 & N3 & N4 & N5 & N6 & _) Hh H.
  assert (forall what f, In (f c, f n, negb (configNumEqual (f c) (f n))) (checks c n) -> block_number (f c) -> block_number (f n) ->
    isForkIncompatible (f c) (f n) h = true -> let e := newCompatError what (f c) (f n) in
    0 <= ce_RewindTo e <= h /\ (ce_RewindTo e = 0 \/ ce_RewindTo e < h) /\ checkCompatible c n (ce_RewindTo e + 1) <> None) as Hf.
  { intros what f Hin Bc Bn Hi. apply andb_true_iff in Hi as [Hc Hd].
    destruct (newCompatError_rewinds what _ _ h Bc Bn Hc Hh) as (H1 & H2 & H3). split_and!; [apply H1|apply H1|apply H2|].
    rewrite checkCompatible_None. intros [Hall _]. rewrite List.Forall_forall in Hall. specialize (Hall _ Hin). cbn beta iota in Hall.
    rewrite H3, Hd in Hall. done. }
  unfold checkCompatible in H.
  repeat match type of H with (if ?b then _ else _) = _ => destruct b eqn:? end; try done; injection H as <-;
    try (apply Hf; [cbn; tauto|done|done|done]).
  apply andb_true_iff in Heqb3 as [Hf158 Hid]. unfold cc_IsEIP158 in Hf158.
  assert (cc_EIP158Block c = cc_EIP158Block n) as Heq.
  { unfold isForkIncompatible in Heqb2. rewrite Hf158 in Heqb2. cbn in Heqb2. apply negb_false_iff, configNumEqual_eq in Heqb2. done. }
  rewrite <- Heq. assert (clash (cc_EIP158Block c) (cc_EIP158Block c) h = true) as Hc by (unfold clash; rewrite Hf158; done).
  destruct (newCompatError_rewinds "EIP158 chain ID" _ _ h C4 C4 Hc Hh) as (H1 & H2 & H3). split_and!; [apply H1|apply H1|apply H2|].
  rewrite checkCompatible_None. intros [_ Hall]. unfold cc_IsEIP158, chain_ids_differ in Hall. unfold clash in H3.
  rewrite orb_diag in H3. rewrite H3, Hid in Hall. done.
Qed.

Lemma checkCompatible_mono c n h h' : h <= h' -> checkCompatible c n h <> None -> checkCompatible c n h' <> None.
Proof.
  intros Hh H1 H2. apply H1. rewrite checkCompatible_None in *. destruct H2 as [Ha Hb]. split.
  - eapply Forall_impl; [exact Ha|]. intros [[s1 s2] d]. rewrite !andb_false_iff. intros [Hc|Hd]; [left|auto].
    apply not_true_is_false. intros Ht. rewrite (clash_mono _ _ _ _ Hh Ht) in Hc. done.
  - rewrite !andb_false_iff in *. destruct Hb as [Hb|Hb]; [left|auto]. unfold cc_IsEIP158, isForked in *.
    destruct (cc_EIP158Block c); [|done]. rewrite Z.leb_gt in *. lia.
Qed.

(** What the last error says when the loop has come down to [h]. *)
Definition rewinds (c n : ChainConfig) (height h : Z) (lasterr : option ConfigCompatError) : Prop :=
  match lasterr with
  | None => h = height
  | Some e => h = ce_RewindTo e /\ 0 <= h <= height /\ checkCompatible c n (h + 1) <> None
  end.

Lemma compat_loop_spec fuel c n height h lasterr : config_ok c -> config_ok n -> 0 <= h <= height -> (Z.to_nat h + 1 < fuel)%nat ->
  rewinds c n height h lasterr ->
  exists r h', compat_loop fuel c n h lasterr = Some r /\ rewinds c n height h' r
    /\ (checkCompatible c n h' = None \/ (h' = 0 /\ r <> None)).
Proof.
  intros Wc Wn. revert h lasterr. induction fuel as [|fuel IH]; intros h lasterr Hh Hf Hr; [lia|]. cbn [compat_loop].
  destruct (checkCompatible c n h) as [e|] eqn:Ec; [|exists lasterr, h; auto].
  destruct (checkCompatible_error _ _ _ _ Wc Wn (proj1 Hh) Ec) as (H1 & H2 & H3).
  assert (rewinds c n height (ce_RewindTo e) (Some e)) as Hr' by (cbn; split_and!; try done; lia).
  destruct (Z.eq_dec (ce_RewindTo e) h) as [E|NE].
  - (* the same block again: it is block 0 *)
    destruct lasterr as [l|].
    + destruct Hr as (Hl & Hlh & Hlc). assert ((ce_RewindTo e =? ce_RewindTo l) = true) as -> by (apply Z.eqb_eq; congruence).
      exists (Some l), h. split_and!; [done|done..|right; split; [lia|done]].
    + destruct fuel as [|fuel]; [lia|]. cbn [compat_loop]. rewrite E, Ec. cbv iota beta. rewrite E, Z.eqb_refl. exists (Some e), h. rewrite E in Hr'.
      split_and!; try done. right. split; [lia|done].
  - replace (match lasterr with Some l => ce_RewindTo e =? ce_RewindTo l | None => false end) with false.
    2: { destruct lasterr as [l|]; [|done]. destruct Hr as (Hl & _). symmetry. apply Z.eqb_neq. lia. }
    apply IH; [lia|lia|done].
Qed.

(** A new configuration is compared with the stored one exactly.  The loop
    of CheckCompatible ends; it reports no error only when the two agree on
    everything that the chain of that height has used; and an error rewinds
    no further than needed: the height it gives is one at which the two agree
    (or the genesis block, where nothing can be rewound), and at every height
    above it they do not. *)
Theorem rewind_exact c newcfg height :
  config_ok c -> config_ok newcfg -> 0 <= height ->
  exists r, CheckCompatible c newcfg height = Some r
    /\ match r with
       | None => checkCompatible c newcfg height = None
       | Some e =>
         0 <= ce_RewindTo e <= height
         /\ (checkCompatible c newcfg (ce_RewindTo e) = None \/ ce_RewindTo e = 0)
         /\ forall h, ce_RewindTo e < h <= height -> checkCompatible c newcfg h <> None
       end.
Proof.
  intros Wc Wn Hh. destruct (compat_loop_spec (S (S (Z.to_nat height))) c newcfg height height None Wc Wn) as (r & h' & E & Hr & Hc);
    [lia|lia|done|].
  exists r. split; [exact E|]. destruct r as [e|].
  - destruct Hr as (-> & Hb & Hn). split_and!; [lia|lia|tauto|]. intros h Hx. apply (checkCompatible_mono _ _ (ce_RewindTo e + 1)); [lia|done].
  - cbn in Hr. subst h'. destruct Hc as [?|[_ ?]]; done.
Qed.

Module ChainConfigExamples.

(** The Byzantium rules were moved from block 30 to block 20. *)
Definition ex_stored : ChainConfig :=
  {| cc_LigoChainId := "side"; cc_ChainId := Some 7; cc_HomesteadBlock := Some 0; cc_EIP150Block := Some 10;
     cc_EIP155Block := Some 10; cc_EIP158Block := Some 10; cc_ByzantiumBlock := Some 30; cc_ConstantinopleBlock := None |}.
Definition ex_moved : ChainConfig :=
  {| cc_LigoChainId := "side"; cc_ChainId := Some 7; cc_HomesteadBlock := Some 0; cc_EIP150Block := Some 10;
     cc_EIP155Block := Some 10; cc_EIP158Block := Some 10; cc_ByzantiumBlock := Some 20; cc_ConstantinopleBlock := Some 25 |}.

Lemma rewind_exact_witness :
  exists r, CheckCompatible ex_stored ex_moved 40 = Some r /\ option_map ce_RewindTo r = Some 19.
Proof.
  destruct (rewind_exact ex_stored ex_moved 40) as (r & E & _).
  - unfold config_ok. rewrite !Forall_cons. cbn. unfold is_uint64. split_and!; try lia; try done; apply Forall_nil; done.
  - unfold config_ok. rewrite !Forall_cons. cbn. unfold is_uint64. split_and!; try lia; try done; apply Forall_nil; done.
  - lia.
  - exists r. split; [exact E|]. vm_compute in E. injection E as <-. reflexivity.
Defined.

End ChainConfigExamples.
