(* ===== verification/TxTypes.v ===== *)
(** * Transactions and their signatures

    Transactions with their encoding and hashes (chain/core/types/transaction.go),
    the signers and the recovery of the sender
    (chain/core/types/transaction_signing.go), the addresses of accounts and the
    checks on signatures and addresses (utilities/crypto/crypto.go and
    signature_cgo.go).

    The curve secp256k1, the hash functions and base58 are parameters.  Shown: a
    transaction survives its encoding; what is decoded has the ranges of its
    types; hashes bind the transaction; a signed transaction gives the address of
    the key, on the chain it was signed for and on no other; the cached sender
    is the recovered one; no address that a key gets passes the check of
    addresses. *)
From S2P Require Import Prelude Rlp RlpDecode RlpInput Trie TrieTheorems ChainConfig.
Local Open Scope Z_scope.

(** ** Numbers (math/big) *)
Definition big_Uint64 (z : Z) : Z := u64 (Z.abs z).

(** ** The libraries below *)

(** secp256k1: signing with a key of 32 bytes, recovering the key that signed,
    and the point of a private key. *)
Class SecpLib := {
  secp_Sign : bytes -> bytes -> result string bytes;
  RecoverPubkey : bytes -> bytes -> result string bytes;
  ScalarBaseMult : Z -> Z * Z }.

(** SHA-256, RIPEMD-160 and the base58 text with version and check sum. *)
Class AddrLib := {
  sha256_Sum : bytes -> bytes;
  ripemd160_Sum : bytes -> bytes;
  base58_CheckEncode : bytes -> Z -> bytes }.

(** ** crypto.go *)
Definition secp256k1N : Z := 0xfffffffffffffffffffffffffffffffebaaedce6af48a03bbfd25e8cd0364141.
Definition secp256k1halfN : Z := secp256k1N / 2.
Definition scriptVersion : Z := 0x42.
Definition addressPrefix : bytes := str_bytes "Lig".
Definition bs58Str : bytes := str_bytes "123456789ABCDEFGHJKLMNPQRSTUVWXYZabcdefghijkmnopqrstuvwxyz".

Definition ValidateSignatureValues (v r s : Z) (homestead : bool) : bool :=
  if (r <? 1) || (s <? 1) then false
  else if homestead && (secp256k1halfN <? s) then false
  else (r <? secp256k1N) && (s <? secp256k1N) && ((v =? 0) || (v =? 1)).

Record PrivateKey := { prv_D : Z; prv_X : Z; prv_Y : Z }.

(** elliptic.Marshal on a curve of 256 bits. *)
Definition FromECDSAPub (x y : Z) : bytes := 4 :: be 32 x ++ be 32 y.

Definition PaddedBigBytes (i : Z) (n : nat) : bytes :=
  if Z.of_nat n <=? BitLen i / 8 then big_Bytes i else be n i.

(** The last 32 bytes, padded on the left. *)
Abbreviation BytesToAddress := BytesToHash.

(** The characters of an address; anything that is not one byte of the alphabet,
    a character of several bytes included, is not contained in it. *)
Definition ValidateLigoAddr (input : bytes) : bool :=
  if negb (length input =? 32)%nat then false
  else if negb (bool_decide (take 4 input = str_bytes "NEAT")) then false
  else forallb (fun v => bool_decide (v ∈ bs58Str)) (drop 3 input).

Section Crypto.
Context {SL : SecpLib} {AD : AddrLib}.

Definition Hash160 (buf : bytes) : bytes := ripemd160_Sum (sha256_Sum buf).
Definition encodeAddress (hash160 : bytes) (version : Z) : bytes := base58_CheckEncode hash160 version.

Definition NewLigoScriptAddr (script : bytes) : outcome bytes :=
  let input := Hash160 script in
  let strArray := encodeAddress input scriptVersion in
  if (length strArray <? 29)%nat then Panic "slice bounds out of range"
  else Ret (addressPrefix ++ take 29 strArray).

Definition PubkeyToAddress (x y : Z) : outcome bytes :=
  addr ← NewLigoScriptAddr (FromECDSAPub x y);
  Ret (BytesToAddress addr).

Definition Sign (hash : bytes) (prv : PrivateKey) : result string bytes :=
  if negb (length hash =? 32)%nat then Err "hash is required to be exactly 32 bytes"%string
  else secp_Sign hash (PaddedBigBytes (prv_D prv) 32).

Definition toECDSA (d : bytes) (strict : bool) : result string PrivateKey :=
  if strict && negb (8 * Z.of_nat (length d) =? 256) then Err "invalid length, need 256 bits"%string
  else
    let D := be_uint d in
    if secp256k1N <=? D then Err "invalid private key, >=N"%string
    else if D <=? 0 then Err "invalid private key, zero or negative"%string
    else let '(x, y) := ScalarBaseMult D in Ok {| prv_D := D; prv_X := x; prv_Y := y |}.

End Crypto.

(** ** transaction.go

    The fields of txdata but for Hash, which only the JSON form sets.  The big
    numbers are never nil: newTransaction and the decoder make them. *)
Record txdata := {
  td_AccountNonce : Z;
  td_Price : Z;
  td_GasLimit : Z;
  td_Recipient : option bytes;
  td_Amount : Z;
  td_Payload : bytes;
  td_V : Z;
  td_R : Z;
  td_S : Z }.

(** transaction_signing.go: a signer; an EIP155Signer keeps its chain id, and
    twice that in chainIdMul. *)
Inductive Signer := FrontierSigner | HomesteadSigner | EIP155Signer (chainId : Z).

(** A transaction with the sender it caches; the caches of the hash and of the
    size hold what the data give. *)
Record Transaction := { tx_data : txdata; tx_from : option (Signer * bytes) }.

Definition newTransaction (nonce : Z) (to : option bytes) (amount : option Z) (gasLimit : Z) (gasPrice : option Z) (data : bytes) : Transaction :=
  {| tx_data := {| td_AccountNonce := nonce; td_Price := default 0 gasPrice; td_GasLimit := gasLimit; td_Recipient := to;
                   td_Amount := default 0 amount; td_Payload := data; td_V := 0; td_R := 0; td_S := 0 |};
     tx_from := None |}.

Definition NewTransaction (nonce : Z) (to : bytes) (amount : option Z) (gasLimit : Z) (gasPrice : option Z) (data : bytes) : Transaction :=
  newTransaction nonce (Some to) amount gasLimit gasPrice data.
Definition NewContractCreation (nonce : Z) (amount : option Z) (gasLimit : Z) (gasPrice : option Z) (data : bytes) : Transaction :=
  newTransaction nonce None amount gasLimit gasPrice data.

Definition isProtectedV (V : Z) : bool :=
  if BitLen V <=? 8 then
    let v := big_Uint64 V in negb (v =? 27) && negb (v =? 28)
  else true.

Definition deriveChainId (v : Z) : Z :=
  if BitLen v <=? 64 then
    let v := big_Uint64 v in
    if (v =? 27) || (v =? 28) then 0 else u64 (v - 35) / 2
  else (v - 35) / 2.

Definition deriveSigner (V : Z) : Signer :=
  if negb (Z.sgn V =? 0) && isProtectedV V then EIP155Signer (deriveChainId V) else HomesteadSigner.

Definition tx_ChainId (tx : Transaction) : Z := deriveChainId (td_V (tx_data tx)).
Definition tx_Protected (tx : Transaction) : bool := isProtectedV (td_V (tx_data tx)).

(** Cost: amount + gasprice * gaslimit *)
Definition tx_Cost (tx : Transaction) : Z := td_Price (tx_data tx) * td_GasLimit (tx_data tx) + td_Amount (tx_data tx).

(** The type of txdata and the six values that are signed. *)
Definition nil_tag : tags := {| nilOK := true; tail := false |}.
Definition payload_fields (ts : tags) (rest : fields) : fields :=
  FCons no_tags (TUint 64) (FCons no_tags TBigPtr (FCons no_tags (TUint 64) (FCons ts (TPtr (TByteArray 32))
    (FCons no_tags TBigPtr (FCons no_tags TBytes rest))))).
Definition signature_fields : fields := FCons no_tags TBigPtr (FCons no_tags TBigPtr (FCons no_tags TBigPtr FNil)).
Definition txdata_type : rtype := TStruct (payload_fields nil_tag signature_fields).

Definition txdata_value (d : txdata) : denote txdata_type :=
  (td_AccountNonce d, (Some (td_Price d), (td_GasLimit d, (td_Recipient d, (Some (td_Amount d), (td_Payload d,
    (Some (td_V d), (Some (td_R d), (Some (td_S d), tt))))))))).

Definition txdata_of (v : denote txdata_type) : txdata :=
  let '(nonce, (price, (gas, (to, (amount, (payload, (v, (r, (s, _))))))))) := v in
  {| td_AccountNonce := nonce; td_Price := default 0 price; td_GasLimit := gas; td_Recipient := to;
     td_Amount := default 0 amount; td_Payload := payload; td_V := default 0 v; td_R := default 0 r; td_S := default 0 s |}.

(** EncodeRLP, called by rlp.EncodeToBytes. *)
Definition Transaction_EncodeRLP (tx : Transaction) : outcome (result rlp_error bytes) :=
  EncodeToBytes txdata_type (txdata_value (tx_data tx)).

(** DecodeRLP: the error of Kind is ignored, Decode meets it again. *)
Definition Transaction_DecodeRLP (fuel : nat) : D txdata := fun s =>
  let '(s, _) := Stream_Kind s in
  match dec fuel txdata_type no_tags s with
  | (s, Ok v) => (s, Ok (txdata_of v))
  | (s, Err e) => (s, Err e)
  end.

(** rlp.DecodeBytes into a transaction. *)
Definition DecodeBytes_tx (b : bytes) : result rlp_error Transaction :=
  match Transaction_DecodeRLP (S (length b)) (Stream_Reset b (Z.of_nat (length b))) with
  | (s, Ok d) => if bool_decide (s_r s = []) then Ok {| tx_data := d; tx_from := None |} else Err ErrMoreThanOneValue
  | (s, Err e) => Err e
  end.

(** ** transaction_signing.go *)
Definition ErrInvalidChainId : string := "invalid chain id for signer".
Definition ErrInvalidSigner : string := "invalid signer, should be eip155".
Definition ErrInvalidSig : string := "invalid transaction v, r, s values".

Definition NewEIP155Signer (chainId : option Z) : Signer := EIP155Signer (default 0 chainId).

Definition Signer_Equal (s s2 : Signer) : bool :=
  match s, s2 with
  | FrontierSigner, FrontierSigner | HomesteadSigner, HomesteadSigner => true
  | EIP155Signer c, EIP155Signer c2 => c2 =? c
  | _, _ => false
  end.

Definition MakeSigner (config : ChainConfig) (blockNumber : Z) : Signer :=
  if cc_IsEIP155 config blockNumber then NewEIP155Signer (cc_ChainId config)
  else if cc_IsHomestead config blockNumber then HomesteadSigner
  else FrontierSigner.

Definition set_signature (d : txdata) (r s v : Z) : txdata :=
  {| td_AccountNonce := td_AccountNonce d; td_Price := td_Price d; td_GasLimit := td_GasLimit d; td_Recipient := td_Recipient d;
     td_Amount := td_Amount d; td_Payload := td_Payload d; td_V := v; td_R := r; td_S := s |}.

(** SignatureValues; [sig[64] + 27] is added as a byte. *)
Definition SignatureValues (signer : Signer) (sig : bytes) : outcome (Z * Z * Z) :=
  if negb (length sig =? 65)%nat then Panic "wrong size for signature"
  else
    let r := be_uint (take 32 sig) in
    let s := be_uint (take 32 (drop 32 sig)) in
    let sig64 := nth 64 sig 0 in
    match signer with
    | EIP155Signer chainId =>
      if negb (Z.sgn chainId =? 0) then Ret (r, s, byte (sig64 + 35) + chainId * 2)
      else Ret (r, s, byte (sig64 + 27))
    | _ => Ret (r, s, byte (sig64 + 27))
    end.

Definition WithSignature (tx : Transaction) (signer : Signer) (sig : bytes) : outcome Transaction :=
  rsv ← SignatureValues signer sig;
  let '(r, s, v) := rsv in
  Ret {| tx_data := set_signature (tx_data tx) r s v; tx_from := None |}.

(** A slice of interfaces is written as a struct of their values. *)
Definition sign_type : rtype := TStruct (payload_fields no_tags FNil).
Definition sign155_type : rtype :=
  TStruct (payload_fields no_tags (FCons no_tags TBigPtr (FCons no_tags (TUint 64) (FCons no_tags (TUint 64) FNil)))).

Definition sign_value (d : txdata) : denote sign_type :=
  (td_AccountNonce d, (Some (td_Price d), (td_GasLimit d, (td_Recipient d, (Some (td_Amount d), (td_Payload d, tt)))))).
Definition sign155_value (d : txdata) (chainId : Z) : denote sign155_type :=
  (td_AccountNonce d, (Some (td_Price d), (td_GasLimit d, (td_Recipient d, (Some (td_Amount d), (td_Payload d,
    (Some chainId, (0, (0, tt))))))))).

Section Signing.
Context {K : KeccakLib} {SL : SecpLib} {AD : AddrLib}.

(** rlpHash (block.go): when the value cannot be encoded, nothing is hashed. *)
Definition rlpHash (t : rtype) (v : denote t) : outcome bytes :=
  e ← EncodeToBytes t v;
  Ret (keccak (match e with Ok enc => enc | Err _ => [] end)).

Definition tx_Hash (tx : Transaction) : outcome bytes := rlpHash txdata_type (txdata_value (tx_data tx)).

Definition Signer_Hash (signer : Signer) (tx : Transaction) : outcome bytes :=
  match signer with
  | EIP155Signer chainId => rlpHash sign155_type (sign155_value (tx_data tx) chainId)
  | _ => rlpHash sign_type (sign_value (tx_data tx))
  end.

(** [copy(sig[32-len(b):32], b)] into a fresh array. *)
Definition put_right (b : bytes) : outcome bytes :=
  if (32 <? length b)%nat then Panic "slice bounds out of range" else Ret (replicate (32 - length b) 0 ++ b).

(** The results of a step and of the recovery. *)
Abbreviation OR A := (outcome (result string A)).

Definition recoverPlain (sighash : bytes) (R S Vb : Z) (homestead : bool) : OR bytes :=
  if 8 <? BitLen Vb then Ret (Err ErrInvalidSig)
  else
    let V := byte (u64 (big_Uint64 Vb - 27)) in
    if negb (ValidateSignatureValues V R S homestead) then Ret (Err ErrInvalidSig)
    else
      r ← put_right (big_Bytes R);
      s ← put_right (big_Bytes S);
      match RecoverPubkey sighash (r ++ s ++ [V]) with
      | Err e => Ret (Err e)
      | Ok pub =>
        match pub with
        | 4 :: _ =>
          addr ← NewLigoScriptAddr pub;
          Ret (Ok (take 32 addr ++ drop (length addr) zeroHash))
        | _ => Ret (Err "invalid public key"%string)
        end
      end.

Definition Signer_Sender (signer : Signer) (tx : Transaction) : OR bytes :=
  let d := tx_data tx in
  match signer with
  | EIP155Signer chainId =>
    if negb (tx_Protected tx) then Ret (Err ErrInvalidSigner)
    else if negb (tx_ChainId tx =? chainId) then Ret (Err ErrInvalidChainId)
    else
      h ← Signer_Hash signer tx;
      recoverPlain h (td_R d) (td_S d) (td_V d - chainId * 2 - 8) true
  | HomesteadSigner =>
    h ← Signer_Hash signer tx;
    recoverPlain h (td_R d) (td_S d) (td_V d) true
  | FrontierSigner =>
    h ← Signer_Hash signer tx;
    recoverPlain h (td_R d) (td_S d) (td_V d) false
  end.

(** Sender: the cached address of the same signer, or the recovered one, which is
    cached. *)
Definition Sender (signer : Signer) (tx : Transaction) : outcome (result string bytes * Transaction) :=
  let derive :=
    r ← Signer_Sender signer tx;
    match r with
    | Err e => Ret (Err e, tx)
    | Ok addr => Ret (Ok addr, {| tx_data := tx_data tx; tx_from := Some (signer, addr) |})
    end in
  match tx_from tx with
  | Some (cached, from) => if Signer_Equal cached signer then Ret (Ok from, tx) else derive
  | None => derive
  end.

Definition SignTx (tx : Transaction) (s : Signer) (prv : PrivateKey) : OR Transaction :=
  h ← Signer_Hash s tx;
  match Sign h prv with
  | Err e => Ret (Err e)
  | Ok sig => tx ← WithSignature tx s sig; Ret (Ok tx)
  end.

Definition SignTxWithAddress (tx : Transaction) (s : Signer) (prv : PrivateKey) : OR Transaction :=
  r ← SignTx tx s prv;
  match r with
  | Err e => Ret (Err e)
  | Ok signTx =>
    fromAddr ← PubkeyToAddress (prv_X prv) (prv_Y prv);
    Ret (Ok {| tx_data := tx_data signTx; tx_from := Some (s, fromAddr) |})
  end.

(** AsMessage: the message with the sender. *)
Record Message := {
  msg_to : option bytes;
  msg_from : bytes;
  msg_nonce : Z;
  msg_amount : Z;
  msg_gasLimit : Z;
  msg_gasPrice : Z;
  msg_data : bytes;
  msg_checkNonce : bool }.

Definition tx_AsMessage (s : Signer) (tx : Transaction) : outcome (result string Message * Transaction) :=
  x ← Sender s tx;
  let '(r, tx) := x in
  let d := tx_data tx in
  Ret (match r with
       | Err e => Err e
       | Ok from => Ok {| msg_to := td_Recipient d; msg_from := from; msg_nonce := td_AccountNonce d; msg_amount := td_Amount d;
                          msg_gasLimit := td_GasLimit d; msg_gasPrice := td_Price d; msg_data := td_Payload d;
                          msg_checkNonce := true |}
       end, tx).

End Signing.

(** ** Lists of transactions (transaction.go, derive_sha.go) *)
Section Lists.
Context {K : KeccakLib}.

(** GetRlp: nothing when a transaction cannot be encoded. *)
Definition GetRlp (tx : Transaction) : outcome bytes :=
  e ← Transaction_EncodeRLP tx;
  Ret (match e with Ok enc => enc | Err _ => [] end).

Fixpoint hashes_of (txs : list Transaction) : outcome (list bytes) :=
  match txs with
  | [] => Ret []
  | tx :: txs => h ← tx_Hash tx; hs ← hashes_of txs; Ret (h :: hs)
  end.

Fixpoint keep_others (remove : gset bytes) (a : list Transaction) : outcome (list Transaction) :=
  match a with
  | [] => Ret []
  | tx :: a =>
    h ← tx_Hash tx;
    keep ← keep_others remove a;
    Ret (if bool_decide (h ∈ remove) then keep else tx :: keep)
  end.

Definition TxDifference (a b : list Transaction) : outcome (list Transaction) :=
  hs ← hashes_of b;
  keep_others (list_to_set hs) a.

End Lists.

(** ** Encoding *)

(** The values that the types of the fields allow. *)
Definition tx_typed (d : txdata) : Prop :=
  is_uint64 (td_AccountNonce d) /\ 0 <= td_Price d /\ is_uint64 (td_GasLimit d)
  /\ (forall a, td_Recipient d = Some a -> is_bytes a /\ length a = 32%nat) /\ 0 <= td_Amount d /\ is_bytes (td_Payload d)
  /\ 0 <= td_V d /\ 0 <= td_R d /\ 0 <= td_S d.

(** The encoding by the rules. *)
Definition tx_enc (d : txdata) : bytes := renc txdata_type no_tags (txdata_value d).

(** Kind answers the same again: kinds and errors are kept. *)
Lemma Kind_again s : Stream_Kind (fst (Stream_Kind s)) = Stream_Kind s.
Proof.
  unfold Stream_Kind at 2 3. destruct (s_kind s) as [k|] eqn:Ek; [by unfold Stream_Kind; cbn [fst]; rewrite Ek|].
  destruct (at_EOL (set_kinderr s None)) eqn:Ee.
  - cbn [fst]. unfold Stream_Kind. change (s_kind (set_kinderr s None)) with (s_kind s). rewrite Ek.
    change (set_kinderr (set_kinderr s None) None) with (set_kinderr s None). by rewrite Ee.
  - destruct (Stream_readKind (set_kinderr s None)) as [s1 [[[k n] e]|e]] eqn:Er; [done|].
    exfalso. revert Er. unfold Stream_readKind, readLongSize. repeat case_match; done.
Qed.

Lemma tx_DecodeRLP_dec fuel s :
  Transaction_DecodeRLP fuel s = match dec fuel txdata_type no_tags s with (s, Ok v) => (s, Ok (txdata_of v)) | (s, Err e) => (s, Err e) end.
Proof.
  unfold Transaction_DecodeRLP. pose proof (Kind_again s) as E. destruct (Stream_Kind s) as [s1 r] eqn:Es. cbn [fst] in E.
  assert (dec fuel txdata_type no_tags s1 = dec fuel txdata_type no_tags s) as ->; [|done].
  change (dec fuel txdata_type no_tags) with (_ ← wrap Stream_List; v ← dec_fields fuel (payload_fields nil_tag signature_fields); wrap Stream_ListEnd;; mret v : D (denote txdata_type)).
  assert (wrap Stream_List s1 = wrap Stream_List s) as Ew.
  { unfold wrap, map_err, Stream_List. unfold mbind, D_bind. by rewrite E, Es. }
  unfold mbind at 1 5. unfold D_bind. by rewrite Ew.
Qed.

Lemma DecodeBytes_tx_spec b :
  DecodeBytes_tx b = match DecodeBytes txdata_type b with Ok v => Ok {| tx_data := txdata_of v; tx_from := None |} | Err e => Err e end.
Proof.
  unfold DecodeBytes_tx, DecodeBytes. rewrite tx_DecodeRLP_dec.
  destruct (dec (S (length b)) txdata_type no_tags (Stream_Reset b (Z.of_nat (length b)))) as [s [v|e]]; [|done]. by case_bool_decide.
Qed.

Lemma txdata_of_value d : txdata_of (txdata_value d) = d.
Proof. by destruct d. Qed.

Lemma tx_value_ok d : tx_typed d ->
  wt txdata_type (txdata_value d) /\ encodable txdata_type (txdata_value d) = true /\ rt txdata_type no_tags (txdata_value d).
Proof.
  intros (Hn & Hp & Hg & Hr & Ha & Hd & Hv & HR & HS). unfold is_uint64 in *. split_and!.
  - cbn -[Z.pow Z.le Z.lt]. split_and!; try done; try lia. destruct (td_Recipient d); [by apply Hr|done].
  - cbn -[Z.leb]. rewrite !(proj2 (Z.leb_le _ _)) by done. by destruct (td_Recipient d).
  - cbn -[rstr rlist]. split_and!; try done. destruct (td_Recipient d) as [a|] eqn:E; [|done]. destruct (Hr a eq_refl) as [_ Hl].
    split; [by intros ->|]. intros _.
    assert (1 < length (rstr a))%nat as Hlong by (destruct a as [|x [|y a]]; [done..|]; unfold rstr; rewrite length_app; cbn in *; lia).
    split; intros Ea; rewrite Ea in Hlong; vm_compute in Hlong; lia.
Qed.

Lemma tx_enc_bytes d : tx_typed d -> is_bytes (tx_enc d).
Proof. intros Ht. apply (proj1 renc_bytes txdata_type eq_refl). by apply tx_value_ok. Qed.

Lemma EncodeRLP_tx tx : tx_typed (tx_data tx) -> small (tx_enc (tx_data tx)) -> Transaction_EncodeRLP tx = Ret (Ok (tx_enc (tx_data tx))).
Proof.
  intros Ht Hs. destruct (tx_value_ok _ Ht) as (W & E & _). unfold Transaction_EncodeRLP. by rewrite EncodeToBytes_spec, E.
Qed.

Lemma DecodeBytes_tx_enc d : tx_typed d -> small (tx_enc d) -> DecodeBytes_tx (tx_enc d) = Ok {| tx_data := d; tx_from := None |}.
Proof.
  intros Ht Hs. destruct (tx_value_ok _ Ht) as (W & E & R). rewrite DecodeBytes_tx_spec. unfold tx_enc.
  rewrite DecodeBytes_renc by done. by rewrite txdata_of_value.
Qed.

Lemma tx_enc_inj d1 d2 : tx_typed d1 -> tx_typed d2 -> small (tx_enc d1) -> tx_enc d1 = tx_enc d2 -> d1 = d2.
Proof.
  intros H1 H2 Hs E. pose proof (DecodeBytes_tx_enc d1 H1 Hs) as D1. rewrite E in D1, Hs. rewrite DecodeBytes_tx_enc in D1 by done.
  congruence.
Qed.

(** ** Decoding what arrives *)

Lemma dec_fields_Ok fuel ts t fs s s' x xs :
  dec_fields fuel (FCons ts t fs) s = (s', Ok (x, xs)) <->
  exists s1, dec fuel t ts s = (s1, Ok x) /\ dec_fields fuel fs s1 = (s', Ok xs).
Proof.
  cbn [dec_fields]. unfold mbind, D_bind, map_err. split.
  - destruct (dec fuel t ts s) as [s1 [y|e]]; [|done]. destruct (dec_fields fuel fs s1) as [s2 [ys|e]] eqn:E; [|done].
    intros [= <- <- <-]. by exists s1.
  - intros (s1 & -> & E). by rewrite E.
Qed.

Lemma dec_struct_Ok fuel fs ts s s' v : dec fuel (TStruct fs) ts s = (s', Ok v) <->
  exists n s0 s1, wrap Stream_List s = (s0, Ok n) /\ dec_fields fuel fs s0 = (s1, Ok v) /\ wrap Stream_ListEnd s1 = (s', Ok tt).
Proof.
  change (dec fuel (TStruct fs) ts) with (_ ← wrap Stream_List; v ← dec_fields fuel fs; wrap Stream_ListEnd;; mret v : D (denotes fs)).
  unfold mbind, D_bind. split.
  - destruct (wrap Stream_List s) as [s0 [n|e]]; [|done]. destruct (dec_fields fuel fs s0) as [s1 [w|e]] eqn:E; [|done].
    destruct (wrap Stream_ListEnd s1) as [s2 [[]|e]] eqn:E2; [|done]. intros [= <- <-]. by exists n, s0, s1.
  - intros (n & s0 & s1 & -> & E & E2). by rewrite E, E2.
Qed.

(** A pointer with the tag "nil" that is not nil is read as one without it. *)
Lemma optionalPtr_Some {A} (m : D A) s s' x : peeks m -> optionalPtr m s = (s', Ok (Some x)) -> (x ← m; mret (Some x)) s = (s', Ok (Some x)).
Proof.
  intros Hp. unfold optionalPtr. destruct (Stream_Kind s) as [s1 [[k n]|e]] eqn:Ek; [|done].
  destruct ((n =? 0) && negb (bool_decide (k = KByte))); [done|]. unfold mbind, D_bind. by rewrite (Hp _ _ _ Ek).
Qed.

(** The type of a transaction with a recipient. *)
Definition call_type : rtype := TStruct (payload_fields no_tags signature_fields).

Lemma decode_call b v : td_Recipient (txdata_of v) <> None -> DecodeBytes txdata_type b = Ok v -> DecodeBytes call_type b = Ok v.
Proof.
  unfold DecodeBytes. intros Hr E. destruct (dec _ txdata_type no_tags _) as [s' [w|e]] eqn:Ed; [|done].
  assert (dec (S (length b)) call_type no_tags (Stream_Reset b (Z.of_nat (length b))) = (s', Ok v)) as ->; [|by case_bool_decide].
  assert (w = v) as -> by (case_bool_decide; congruence). clear E.
  apply dec_struct_Ok in Ed as (n & s0 & s1 & El & Ef & Ee). apply dec_struct_Ok. exists n, s0, s1. split; [done|]. split; [|done].
  destruct v as (nonce & price & gas & to & am & pay & v & r & ss & u). cbn in Hr. destruct to as [a|]; [|done].
  unfold payload_fields in Ef |- *. apply dec_fields_Ok in Ef as (t1 & E1 & Ef). apply dec_fields_Ok in Ef as (t2 & E2 & Ef).
  apply dec_fields_Ok in Ef as (t3 & E3 & Ef). apply dec_fields_Ok in Ef as (t4 & E4 & Ef).
  set (F4 := FCons no_tags TBigPtr (FCons no_tags TBytes signature_fields)) in *.
  set (F3 := FCons no_tags (TPtr (TByteArray 32)) F4). set (F2 := FCons no_tags (TUint 64) F3). set (F1 := FCons no_tags TBigPtr F2).
  set (y4 := (am, (pay, (v, (r, (ss, u)))))) in *.
  refine (proj2 (dec_fields_Ok _ no_tags (TUint 64) F1 s0 s1 nonce (price, (gas, (Some a, y4)))) (ex_intro _ t1 (conj E1 _))).
  refine (proj2 (dec_fields_Ok _ no_tags TBigPtr F2 t1 s1 price (gas, (Some a, y4))) (ex_intro _ t2 (conj E2 _))).
  refine (proj2 (dec_fields_Ok _ no_tags (TUint 64) F3 t2 s1 gas (Some a, y4)) (ex_intro _ t3 (conj E3 _))).
  refine (proj2 (dec_fields_Ok _ no_tags (TPtr (TByteArray 32)) F4 t3 s1 (Some a) y4) (ex_intro _ t4 (conj _ Ef))).
  apply optionalPtr_Some in E4; [done|]. by apply (dec_peeks (S (length b)) (TByteArray 32)); lia.
Qed.

Lemma decoded_typed v : wt txdata_type v -> encodable txdata_type v = true -> tx_typed (txdata_of v).
Proof.
  destruct v as (nonce & price & gas & to & am & pay & v & r & ss & u).
  cbn -[Z.pow Z.le Z.lt Z.leb]. intros (Hn & _ & Hg & Ht & _ & Hp & _) He.
  repeat (apply andb_true_iff in He as [? He]). unfold tx_typed, is_uint64. cbn [td_AccountNonce td_Price td_GasLimit td_Recipient td_Amount td_Payload td_V td_R td_S].
  assert (forall o : option Z, match o with Some i => 0 <=? i | None => true end = true -> 0 <= default 0 o) as Hd.
  { intros [i|]; cbn -[Z.leb Z.le]; [apply Z.leb_le|lia]. }
  split_and!; try (by apply Hd); try lia; try done. intros a ->. done.
Qed.

(** ** Keys and addresses

    What the libraries promise: signatures have 65 bytes in the form [R || S || V]
    with V 0 or 1 and a low S, and the key is recovered from them; the hash of a
    script has 20 bytes, and its text at least 29 characters. *)
Class SecpLaws (SL : SecpLib) : Prop := {
  secp_signs : forall h D, length h = 32%nat -> 0 < D < secp256k1N ->
    exists sig, secp_Sign h (be 32 D) = Ok sig /\ is_bytes sig /\ length sig = 65%nat
      /\ 1 <= be_uint (take 32 sig) < secp256k1N /\ 1 <= be_uint (take 32 (drop 32 sig)) <= secp256k1halfN
      /\ (nth 64 sig 0 = 0 \/ nth 64 sig 0 = 1)
      /\ RecoverPubkey h sig = Ok (FromECDSAPub (fst (ScalarBaseMult D)) (snd (ScalarBaseMult D))) }.

Class AddrLaws (AD : AddrLib) : Prop := {
  ripemd160_length : forall b, length (ripemd160_Sum b) = 20%nat;
  base58_length : forall b v, length b = 20%nat -> (29 <= length (base58_CheckEncode b v))%nat }.

Lemma secp256k1N_bound : 1 < secp256k1N < 2 ^ 256.
Proof. by vm_compute. Qed.

Lemma put_right_be z : 0 <= z < 2 ^ 256 -> put_right (big_Bytes z) = Ret (be 32 z).
Proof.
  intros Hz. assert (length (big_Bytes z) <= 32)%nat as Hl.
  { unfold big_Bytes. destruct (Z.eqb_spec z 0); [cbn; lia|]. rewrite length_be.
    assert (Z.log2 z < 256) by (apply Z.log2_lt_pow2; lia). pose proof (Z.log2_nonneg z).
    assert (Z.log2 z / 8 < 32) by (apply Z.div_lt_upper_bound; lia). lia. }
  unfold put_right. rewrite (proj2 (Nat.ltb_ge _ _)) by done. f_equal.
  set (b := replicate (32 - length (big_Bytes z)) 0 ++ big_Bytes z).
  assert (length b = 32%nat) as Hb by (unfold b; rewrite length_app, length_replicate; lia).
  rewrite <- Hb, <- (proj1 (big_Bytes_uint z (proj1 Hz))), <- (be_uint_zeros (32 - length (big_Bytes z))). fold b.
  rewrite be_be_uint; [done|]. apply Forall_app. split; [|apply big_Bytes_bytes]. apply Forall_replicate. unfold is_byte. lia.
Qed.

Lemma PaddedBigBytes_be D : 0 < D < 2 ^ 256 -> PaddedBigBytes D 32 = be 32 D.
Proof.
  intros HD. unfold PaddedBigBytes, BitLen, big_Bytes. rewrite (proj2 (Z.eqb_neq D 0)), Z.abs_eq by lia.
  destruct (Z.leb_spec (Z.of_nat 32) ((Z.log2 D + 1) / 8)); [|done].
  assert (Z.log2 D < 256) by (apply Z.log2_lt_pow2; lia).
  assert (Z.log2 D = 255) as ->; [|done]. pose proof (Z.mul_div_le (Z.log2 D + 1) 8). lia.
Qed.

Section SigningLaws.
Context {K : KeccakLib} {KL : KeccakLaws K} {SL : SecpLib} {SW : SecpLaws SL} {AD : AddrLib} {AW : AddrLaws AD}.

Lemma NewLigoScriptAddr_ok script : exists a, NewLigoScriptAddr script = Ret a /\ length a = 32%nat /\ take 3 a = addressPrefix.
Proof.
  unfold NewLigoScriptAddr, encodeAddress, Hash160.
  pose proof (base58_length (ripemd160_Sum (sha256_Sum script)) scriptVersion (ripemd160_length _)) as Hl.
  rewrite (proj2 (Nat.ltb_ge _ _)) by done. eexists. split; [done|]. split; [|done].
  rewrite length_app, length_take. change (length addressPrefix) with 3%nat. lia.
Qed.

Lemma PubkeyToAddress_ok x y a : NewLigoScriptAddr (FromECDSAPub x y) = Ret a -> PubkeyToAddress x y = Ret a.
Proof.
  intros E. unfold PubkeyToAddress. rewrite E, outcome_bind_Ret. destruct (NewLigoScriptAddr_ok (FromECDSAPub x y)) as (a' & E' & Hl & _).
  rewrite E in E'. injection E' as <-. by rewrite BytesToHash_id.
Qed.

Lemma rlpHash_ok t v : valid_type t = true -> wt t v -> encodable t v = true -> small (renc t no_tags v) ->
  rlpHash t v = Ret (keccak (renc t no_tags v)).
Proof. intros. unfold rlpHash. rewrite EncodeToBytes_spec by done. by rewrite H1. Qed.

(** What is hashed for a signature. *)
Definition sign_enc (s : Signer) (d : txdata) : bytes :=
  match s with
  | EIP155Signer chainId => renc sign155_type no_tags (sign155_value d chainId)
  | _ => renc sign_type no_tags (sign_value d)
  end.

Definition signer_ok (s : Signer) : Prop := match s with EIP155Signer chainId => 0 <= chainId | _ => True end.

Lemma Signer_Hash_ok s tx : tx_typed (tx_data tx) -> signer_ok s -> small (sign_enc s (tx_data tx)) ->
  Signer_Hash s tx = Ret (keccak (sign_enc s (tx_data tx))).
Proof.
  intros (Hn & Hp & Hg & Hr & Ha & Hd & _) Hs Hsm. unfold is_uint64 in *.
  assert (match td_Recipient (tx_data tx) with Some x => is_bytes x /\ length x = 32%nat | None => True end) as Hto
    by (destruct (td_Recipient (tx_data tx)); [by apply Hr|done]).
  destruct s as [| |c]; apply rlpHash_ok; try done; cbn -[Z.pow Z.le Z.lt Z.leb]; try (rewrite !(proj2 (Z.leb_le _ _)) by done);
    try (split_and!; done || lia); by destruct (td_Recipient (tx_data tx)).
Qed.

(** The signed values can be read back from their encoding, with the tag "nil" on
    the recipient. *)
Lemma sign_enc_inj c1 c2 d1 d2 : tx_typed d1 -> tx_typed d2 -> 0 <= c1 -> 0 <= c2 -> small (sign_enc (EIP155Signer c1) d1) ->
  sign_enc (EIP155Signer c1) d1 = sign_enc (EIP155Signer c2) d2 -> c1 = c2 /\ set_signature d1 0 0 0 = set_signature d2 0 0 0.
Proof.
  intros T1 T2 C1 C2 Hs E.
  assert (forall d c, tx_typed d -> 0 <= c -> sign_enc (EIP155Signer c) d = tx_enc (set_signature d 0 0 c)) as Hsame by done.
  rewrite !Hsame in E by done. rewrite Hsame in Hs by done.
  assert (forall d c, tx_typed d -> 0 <= c -> tx_typed (set_signature d 0 0 c)) as Ht.
  { intros d c (? & ? & ? & ? & ? & ? & _) Hc. unfold tx_typed. cbn. split_and!; done. }
  apply tx_enc_inj in E; [|by apply Ht..|done]. unfold set_signature in *. injection E. intros. split; [done|]. congruence.
Qed.

(** The key behind a signature is recovered. *)
Lemma recover_signed h D sig x y a homestead : 0 < D < secp256k1N -> length h = 32%nat -> ScalarBaseMult D = (x, y) ->
  secp_Sign h (be 32 D) = Ok sig -> NewLigoScriptAddr (FromECDSAPub x y) = Ret a ->
  recoverPlain h (be_uint (take 32 sig)) (be_uint (take 32 (drop 32 sig))) (nth 64 sig 0 + 27) homestead = Ret (Ok a).
Proof.
  intros HD Hh Exy Es Ea. destruct (secp_signs h D Hh HD) as (sig' & Es' & Hb & Hl & HR & HS & Hv & Hrec).
  rewrite Es in Es'. injection Es' as <-. rewrite Exy in Hrec. cbn [fst snd] in Hrec.
  pose proof secp256k1N_bound as HN. assert (secp256k1halfN < secp256k1N) by by vm_compute.
  unfold recoverPlain. set (v := nth 64 sig 0) in *.
  assert (BitLen (v + 27) <= 8) as Hbl by (apply BitLen_le; destruct Hv as [-> | ->]; lia).
  rewrite (proj2 (Z.ltb_ge _ _)) by done.
  replace (byte (u64 (big_Uint64 (v + 27) - 27))) with v by (destruct Hv as [-> | ->]; done).
  unfold ValidateSignatureValues. rewrite !(proj2 (Z.ltb_ge _ 1)) by lia. cbn [orb].
  rewrite (proj2 (Z.ltb_ge secp256k1halfN _)) by lia. rewrite andb_false_r. rewrite !(proj2 (Z.ltb_lt _ secp256k1N)) by lia.
  replace ((v =? 0) || (v =? 1)) with true by (destruct Hv as [-> | ->]; done). cbn [negb andb].
  rewrite !put_right_be by lia. rewrite !outcome_bind_Ret.
  assert (r_eq : be 32 (be_uint (take 32 sig)) ++ be 32 (be_uint (take 32 (drop 32 sig))) ++ [v] = sig).
  { assert (length (take 32 sig) = 32 /\ length (take 32 (drop 32 sig)) = 32)%nat as [L1 L2]
      by (rewrite !length_take, length_drop; lia).
    assert (forall b, is_bytes b -> length b = 32%nat -> be 32 (be_uint b) = b) as Hbe by (intros b ? Lb; rewrite <- Lb; by apply be_be_uint).
    rewrite !Hbe by (by repeat first [apply Forall_take|apply Forall_drop]).
    assert (exists z, drop 64 sig = [z]) as [z Ez].
    { clear -Hl. assert (length (drop 64 sig) = 1%nat) as L by (rewrite length_drop; lia). destruct (drop 64 sig) as [|z [|? ?]]; try done. by exists z. }
    assert (v = z) as ->.
    { unfold v. rewrite <- (take_drop 64 sig) at 1. rewrite app_nth2, Ez; rewrite length_take; [|lia]. rewrite Hl. done. }
    rewrite <- Ez. change 64%nat with (32 + 32)%nat. by rewrite <- drop_drop, !take_drop. }
  rewrite r_eq, Hrec, Ea. unfold FromECDSAPub. rewrite outcome_bind_Ret.
  destruct (NewLigoScriptAddr_ok (FromECDSAPub x y)) as (a' & E' & La & _). rewrite Ea in E'. injection E' as <-.
  rewrite take_ge by lia. rewrite La. change (drop 32 zeroHash) with (@nil Z). by rewrite app_nil_r.
Qed.

Lemma toECDSA_key d strict prv : toECDSA d strict = Ok prv -> 0 < prv_D prv < secp256k1N /\ ScalarBaseMult (prv_D prv) = (prv_X prv, prv_Y prv).
Proof.
  unfold toECDSA. case_match; [done|]. destruct (Z.leb_spec secp256k1N (be_uint d)); [done|].
  destruct (Z.leb_spec (be_uint d) 0); [done|]. destruct (ScalarBaseMult (be_uint d)) as [x y] eqn:E. intros [= <-]. cbn. done.
Qed.

(** The V of a chain tells the chain. *)
Lemma chain_V c v : 0 < c -> v = 0 \/ v = 1 -> isProtectedV (v + 35 + c * 2) = true /\ deriveChainId (v + 35 + c * 2) = c.
Proof.
  intros Hc Hv. set (V := v + 35 + c * 2). assert (37 <= V) by (unfold V; lia).
  assert ((V - 35) / 2 = c) as Ed by (symmetry; apply (Z.div_unique _ 2 c v); unfold V; lia).
  unfold isProtectedV, deriveChainId, big_Uint64. rewrite Z.abs_eq by lia. split.
  - destruct (Z.leb_spec (BitLen V) 8) as [Hb|]; [|done]. apply BitLen_le in Hb; [|lia..]. rewrite u64_id by lia.
    by rewrite !(proj2 (Z.eqb_neq _ _)) by lia.
  - destruct (Z.leb_spec (BitLen V) 64) as [Hb|]; [|done]. apply BitLen_le in Hb; [|lia..]. rewrite u64_id by lia.
    rewrite !(proj2 (Z.eqb_neq _ _)) by lia. cbn [orb]. by rewrite u64_id by lia.
Qed.

(** A signer without a chain refuses such a V. *)
Lemma chain_V_refused h r s c v homestead : 0 < c -> v = 0 \/ v = 1 -> recoverPlain h r s (v + 35 + c * 2) homestead = Ret (Err ErrInvalidSig).
Proof.
  intros Hc Hv. set (V := v + 35 + c * 2). assert (37 <= V) by (unfold V; lia). unfold recoverPlain.
  destruct (Z.ltb_spec 8 (BitLen V)) as [|Hb]; [done|]. apply BitLen_le in Hb; [|lia..]. change (2 ^ 8) with 256 in Hb.
  unfold big_Uint64. rewrite Z.abs_eq, !u64_id, byte_id by (rewrite ?u64_id; lia).
  unfold ValidateSignatureValues. rewrite !(proj2 (Z.eqb_neq (V - 27) _)) by lia. rewrite andb_false_r. by repeat case_match.
Qed.

Lemma SignTx_ok tx s d strict prv : tx_typed (tx_data tx) -> signer_ok s -> small (sign_enc s (tx_data tx)) -> toECDSA d strict = Ok prv ->
  exists sig R S, Sign (keccak (sign_enc s (tx_data tx))) prv = Ok sig /\ length sig = 65%nat
    /\ R = be_uint (take 32 sig) /\ S = be_uint (take 32 (drop 32 sig)) /\ (nth 64 sig 0 = 0 \/ nth 64 sig 0 = 1)
    /\ SignTx tx s prv = Ret (Ok {| tx_data := set_signature (tx_data tx) R S
         (match s with EIP155Signer c => if c =? 0 then nth 64 sig 0 + 27 else nth 64 sig 0 + 35 + c * 2 | _ => nth 64 sig 0 + 27 end);
         tx_from := None |}).
Proof.
  intros Ht Hs Hsm Hk. destruct (toECDSA_key _ _ _ Hk) as [HD Exy]. pose proof secp256k1N_bound.
  set (h := keccak (sign_enc s (tx_data tx))). assert (length h = 32%nat) as Hh by apply keccak_length.
  destruct (secp_signs h (prv_D prv) Hh HD) as (sig & Es & Hb & Hl & HR & HS & Hv & Hrec).
  assert (Sign h prv = Ok sig) as Esig by (unfold Sign; rewrite Hh; cbn [Nat.eqb negb]; by rewrite PaddedBigBytes_be by lia).
  exists sig, (be_uint (take 32 sig)), (be_uint (take 32 (drop 32 sig))). split_and!; [done..|]. unfold SignTx. rewrite Signer_Hash_ok by done. fold h. rewrite outcome_bind_Ret, Esig.
  unfold WithSignature, SignatureValues. rewrite Hl. cbn [Nat.eqb negb].
  assert (byte (nth 64 sig 0 + 27) = nth 64 sig 0 + 27 /\ byte (nth 64 sig 0 + 35) = nth 64 sig 0 + 35) as [E1 E2]
    by (rewrite !byte_id by lia; done).
  destruct s as [| |c]; rewrite ?outcome_bind_Ret, ?E1, ?E2; [done..|].
  destruct (Z.eqb_spec c 0) as [->|Hc]; [done|].
  cbn in Hs. by rewrite Z.sgn_pos by lia.
Qed.

(** ** The cached sender *)

(** What is cached is what the signer recovers. *)
Definition cache_ok (tx : Transaction) : Prop := forall s a, tx_from tx = Some (s, a) -> Signer_Sender s tx = Ret (Ok a).

Lemma Signer_Equal_eq s1 s2 : Signer_Equal s1 s2 = true -> s1 = s2.
Proof. destruct s1, s2; try done. cbn. rewrite Z.eqb_eq. congruence. Qed.

Lemma Signer_Sender_data s tx tx' : tx_data tx = tx_data tx' -> Signer_Sender s tx = Signer_Sender s tx'.
Proof. intros E. unfold Signer_Sender, Signer_Hash, tx_Protected, tx_ChainId. by rewrite E. Qed.

(** A sequence of queries, each of which may fill the cache. *)
Fixpoint senders (ss : list Signer) (tx : Transaction) : outcome (list (result string bytes) * Transaction) :=
  match ss with
  | [] => Ret ([], tx)
  | s :: ss =>
    x ← Sender s tx;
    let '(r, tx) := x in
    y ← senders ss tx;
    let '(rs, tx) := y in
    Ret (r :: rs, tx)
  end.

Lemma Sender_ok s tx r : cache_ok tx -> Signer_Sender s tx = Ret r -> exists tx', Sender s tx = Ret (r, tx') /\ tx_data tx' = tx_data tx /\ cache_ok tx'.
Proof.
  intros C E. unfold Sender. rewrite E. cbn [mbind outcome_bind].
  assert (exists tx', match r with Ok addr => Ret (Ok addr, {| tx_data := tx_data tx; tx_from := Some (s, addr) |}) | Err e => Ret (Err e, tx) end
    = Ret (r, tx') /\ tx_data tx' = tx_data tx /\ cache_ok tx') as Hd.
  { destruct r as [a|e]; eexists; split_and!; try done. intros s' a' [= <- <-]. rewrite <- E. by apply Signer_Sender_data. }
  destruct (tx_from tx) as [[c a]|] eqn:Ef; [|done]. destruct (Signer_Equal c s) eqn:Es; [|done].
  apply Signer_Equal_eq in Es as ->. pose proof (C _ _ Ef) as Ea. rewrite E in Ea. injection Ea as ->. by exists tx.
Qed.

(** The signature is not signed. *)
Lemma Signer_Hash_signed s tx R S V f : Signer_Hash s {| tx_data := set_signature (tx_data tx) R S V; tx_from := f |} = Signer_Hash s tx.
Proof. by destruct s. Qed.

(** A transaction signed for a chain, and what each signer makes of it. *)
Lemma signed_for_chain tx c d strict prv : tx_typed (tx_data tx) -> 0 < c -> small (sign_enc (EIP155Signer c) (tx_data tx)) ->
  toECDSA d strict = Ok prv ->
  exists tx' a R S V, SignTx tx (EIP155Signer c) prv = Ret (Ok tx') /\ tx' = {| tx_data := set_signature (tx_data tx) R S V; tx_from := None |}
    /\ PubkeyToAddress (prv_X prv) (prv_Y prv) = Ret a /\ Signer_Sender (EIP155Signer c) tx' = Ret (Ok a)
    /\ forall s, s <> EIP155Signer c -> small (sign_enc s (tx_data tx)) -> signer_ok s ->
         exists e, Signer_Sender s tx' = Ret (Err e).
Proof.
  intros Ht Hc Hsm Hk. destruct (toECDSA_key _ _ _ Hk) as [HD Exy].
  destruct (SignTx_ok tx (EIP155Signer c) d strict prv Ht) as (sig & R & S & Es & Hl & -> & -> & Hv & E); [unfold signer_ok; lia|done..|].
  rewrite (proj2 (Z.eqb_neq c 0)) in E by lia. destruct (chain_V c _ Hc Hv) as [Hp Hd].
  destruct (NewLigoScriptAddr_ok (FromECDSAPub (prv_X prv) (prv_Y prv))) as (a & Ea & _).
  set (h := keccak (sign_enc (EIP155Signer c) (tx_data tx))) in *.
  assert (length h = 32%nat) as Hh by apply keccak_length. pose proof secp256k1N_bound.
  assert (secp_Sign h (be 32 (prv_D prv)) = Ok sig) as Eb.
  { revert Es. unfold Sign. rewrite Hh. cbn [Nat.eqb negb]. by rewrite PaddedBigBytes_be by lia. }
  eexists _, a, _, _, _. split; [exact E|]. split; [done|]. split; [by apply PubkeyToAddress_ok|]. split.
  - unfold Signer_Sender, tx_Protected, tx_ChainId. cbn [tx_data set_signature td_V td_R td_S]. rewrite Hp, Hd, Z.eqb_refl. cbn [negb].
    rewrite Signer_Hash_signed, Signer_Hash_ok by (done || (unfold signer_ok; lia)). fold h. rewrite outcome_bind_Ret.
    replace (nth 64 sig 0 + 35 + c * 2 - c * 2 - 8) with (nth 64 sig 0 + 27) by lia. by eapply recover_signed.
  - intros s Hne Hs Hok. unfold Signer_Sender, tx_Protected, tx_ChainId. cbn [tx_data set_signature td_V td_R td_S].
    destruct s as [| |c'].
    1,2: rewrite Signer_Hash_signed, Signer_Hash_ok by done; rewrite outcome_bind_Ret, chain_V_refused by done; by eexists.
    rewrite Hp, Hd. cbn [negb]. rewrite (proj2 (Z.eqb_neq c c')) by congruence. by eexists.
Qed.

Lemma senders_ok ss : forall tx rs, cache_ok tx -> Forall2 (fun s r => Signer_Sender s tx = Ret r) ss rs -> exists tx', senders ss tx = Ret (rs, tx') /\ cache_ok tx'.
Proof.
  induction ss as [|s ss IH]; intros tx rs C H.
  - apply Forall2_nil_inv_l in H as ->. by exists tx.
  - apply Forall2_cons_inv_l in H as (r & rs' & Hr & H & ->). destruct (Sender_ok s tx r C Hr) as (tx1 & E1 & Ed & C1).
    destruct (IH tx1 rs' C1) as (tx2 & E2 & C2). { eapply Forall2_impl; [exact H|]. intros ? ? <-. by apply Signer_Sender_data. }
    exists tx2. cbn [senders]. rewrite E1, outcome_bind_Ret, E2. done.
Qed.
End SigningLaws.

(** ** What is shown *)
Section Theorems.
Context {K : KeccakLib} {KL : KeccakLaws K} {SL : SecpLib} {SW : SecpLaws SL} {AD : AddrLib} {AW : AddrLaws AD}.

(** a transaction is read back.  A transaction whose fields have the ranges of
    their types is encoded without error, and decoding the bytes gives the same
    transaction, with or without a recipient. *)
Theorem tx_roundtrip tx : tx_typed (tx_data tx) -> small (tx_enc (tx_data tx)) ->
  exists b, Transaction_EncodeRLP tx = Ret (Ok b) /\ DecodeBytes_tx b = Ok {| tx_data := tx_data tx; tx_from := None |}.
Proof. intros Ht Hs. eexists. split; [by apply EncodeRLP_tx|by apply DecodeBytes_tx_enc]. Qed.

(** C27: what is decoded is typed.  Whatever bytes arrive, a transaction that is
    accepted has fields in the ranges of their types: nonce and gas fit 64 bits,
    no amount is negative, the recipient has 32 bytes.  With a recipient, the
    bytes are its only encoding. *)
Theorem tx_decode_typed b tx : is_bytes b -> small b -> DecodeBytes_tx b = Ok tx ->
  tx_typed (tx_data tx) /\ (td_Recipient (tx_data tx) <> None -> Transaction_EncodeRLP tx = Ret (Ok b)).
Proof.
  intros Hb Hs. rewrite DecodeBytes_tx_spec. destruct (DecodeBytes txdata_type b) as [v|e] eqn:E; [|done]. intros [= <-]. cbn [tx_data].
  destruct (DecodeBytes_cases txdata_type b eq_refl eq_refl Hb Hs) as [(e & E' & _)|(v' & E' & Hw & He & _)]; [congruence|].
  rewrite E in E'. injection E' as <-. split; [by apply decoded_typed|]. intros Hr.
  pose proof (decode_call b v Hr E) as Ec.
  destruct (DecodeBytes_cases call_type b eq_refl eq_refl Hb Hs) as [(e & E' & _)|(v' & E' & Hw' & He' & Hc)]; [congruence|].
  rewrite Ec in E'. injection E' as <-. specialize (Hc eq_refl).
  assert (tx_enc (txdata_of v) = b) as Henc.
  { rewrite Hc. destruct v as (nonce & price & gas & to & am & pay & v & r & ss & u). by destruct price, am, v, r, ss, to. }
  rewrite EncodeRLP_tx; cbn [tx_data]; rewrite ?Henc; [done|by apply decoded_typed|done].
Qed.

(** hashes bind.  Two transactions with the same hash are the same, and two
    transactions that are signed with the same hash have the same nonce, price,
    gas, recipient, amount and data, and are signed for the same chain, unless
    two encodings have the same Keccak hash. *)
Theorem tx_hash_binds tx1 tx2 c1 c2 : tx_typed (tx_data tx1) -> tx_typed (tx_data tx2) ->
  small (tx_enc (tx_data tx1)) -> small (tx_enc (tx_data tx2)) -> 0 <= c1 -> 0 <= c2 ->
  small (sign_enc (EIP155Signer c1) (tx_data tx1)) -> small (sign_enc (EIP155Signer c2) (tx_data tx2)) ->
  (keccak (tx_enc (tx_data tx1)) = keccak (tx_enc (tx_data tx2)) -> tx_enc (tx_data tx1) = tx_enc (tx_data tx2)) ->
  (keccak (sign_enc (EIP155Signer c1) (tx_data tx1)) = keccak (sign_enc (EIP155Signer c2) (tx_data tx2)) ->
   sign_enc (EIP155Signer c1) (tx_data tx1) = sign_enc (EIP155Signer c2) (tx_data tx2)) ->
  (tx_Hash tx1 = tx_Hash tx2 -> tx_data tx1 = tx_data tx2)
  /\ (Signer_Hash (EIP155Signer c1) tx1 = Signer_Hash (EIP155Signer c2) tx2 ->
      c1 = c2 /\ set_signature (tx_data tx1) 0 0 0 = set_signature (tx_data tx2) 0 0 0).
Proof.
  intros T1 T2 S1 S2 C1 C2 G1 G2 CF CG. split.
  - unfold tx_Hash. destruct (tx_value_ok _ T1) as (W1 & E1 & _), (tx_value_ok _ T2) as (W2 & E2 & _).
    rewrite !rlpHash_ok by done. intros [= E]. apply tx_enc_inj; try done. by apply CF.
  - rewrite !Signer_Hash_ok by done. intros [= E]. apply CG in E. by apply sign_enc_inj in E.
Qed.



(** the cache of senders is sound.  A transaction that was just made, decoded
    or signed, or whose sender was stored when it was signed, answers every
    sequence of queries, by whatever signers, with what these signers recover
    from the signature, although each answer may come from the cache. *)
Theorem sender_cache_sound tx c d strict prv tx' ss rs : tx_typed (tx_data tx) -> 0 < c -> small (sign_enc (EIP155Signer c) (tx_data tx)) ->
  toECDSA d strict = Ok prv -> SignTxWithAddress tx (EIP155Signer c) prv = Ret (Ok tx') ->
  Forall2 (fun s r => Signer_Sender s tx' = Ret r) ss rs ->
  (exists tx2, senders ss tx' = Ret (rs, tx2)) /\ exists tx2, senders ss {| tx_data := tx_data tx'; tx_from := None |} = Ret (rs, tx2).
Proof.
  intros Ht Hc Hsm Hk E H. destruct (signed_for_chain tx c d strict prv Ht Hc Hsm Hk) as (tx1 & a & R & S & V & Es & -> & Ea & Er & Ho).
  assert (tx' = {| tx_data := set_signature (tx_data tx) R S V; tx_from := Some (EIP155Signer c, a) |}) as ->.
  { revert E. unfold SignTxWithAddress. rewrite Es, outcome_bind_Ret, Ea, outcome_bind_Ret. cbn [tx_data]. congruence. }
  split.
  - destruct (senders_ok ss {| tx_data := set_signature (tx_data tx) R S V; tx_from := Some (EIP155Signer c, a) |} rs) as (tx2 & E2 & _); [|done|by exists tx2].
    intros s a' [= <- <-]. rewrite <- Er. by apply Signer_Sender_data.
  - cbn [tx_data]. destruct (senders_ok ss {| tx_data := set_signature (tx_data tx) R S V; tx_from := None |} rs) as (tx2 & E2 & _); [done| |by exists tx2].
    eapply Forall2_impl; [exact H|]. intros ? ? <-. by apply Signer_Sender_data.
Qed.

(** No address of a key or of a contract passes ValidateLigoAddr, which asks for
    another prefix. *)
Lemma own_addresses_refused script a : NewLigoScriptAddr script = Ret a -> ValidateLigoAddr a = false.
Proof.
  intros E. destruct (NewLigoScriptAddr_ok script) as (a' & E' & Hl & Hp). rewrite E in E'. injection E' as <-.
  unfold ValidateLigoAddr. rewrite Hl. cbn [Nat.eqb negb]. rewrite bool_decide_eq_false_2; [done|]. intros Ht.
  apply (f_equal (take 3)) in Ht. rewrite take_take in Ht. cbn [Nat.min] in Ht. rewrite Hp in Ht. discriminate.
Qed.

End Theorems.

(** ** Examples, with a signature that holds the private key *)
Module TxExamples.

#[export] Instance toySecp : SecpLib := {|
  secp_Sign := fun h key => Ok (be 32 (be_uint key) ++ be 32 1 ++ [0]);
  RecoverPubkey := fun h sig => Ok (FromECDSAPub (be_uint (take 32 sig)) 5);
  ScalarBaseMult := fun d => (d, 5) |}.

#[export] Instance toySecpLaws : SecpLaws toySecp.
Proof.
  split. intros h D Hh HD. cbn [secp_Sign toySecp RecoverPubkey ScalarBaseMult fst snd].
  pose proof secp256k1N_bound. assert (be_uint (be 32 D) = D) as E by (rewrite be_uint_be; apply Z.mod_small; change (8 * Z.of_nat 32) with 256; lia).
  rewrite E. exists (be 32 D ++ be 32 1 ++ [0]).
  assert (take 32 (be 32 D ++ be 32 1 ++ [0]) = be 32 D) as Et by (rewrite take_app_le, take_ge by (rewrite length_be; lia); done).
  assert (take 32 (drop 32 (be 32 D ++ be 32 1 ++ [0])) = be 32 1) as Ed
    by (rewrite drop_app_ge, length_be by (rewrite length_be; lia); done).
  rewrite Et, Ed, E. split; [reflexivity|]. split; [|split; [reflexivity|split; [lia|split; [by vm_compute|split; [|reflexivity]]]]].
  - repeat (apply Forall_app; split); try apply be_bytes. repeat constructor; unfold is_byte; lia.
  - left. rewrite app_nth2, length_be by (rewrite length_be; lia). reflexivity.
Qed.

#[export] Instance toyAddr : AddrLib := {|
  sha256_Sum := fun b => b;
  ripemd160_Sum := fun b => take 20 (drop 13 b ++ replicate 20 0);
  base58_CheckEncode := fun b v => replicate 14 65 ++ b |}.

#[export] Instance toyAddrLaws : AddrLaws toyAddr.
Proof.
  split; cbn [ripemd160_Sum toyAddr base58_CheckEncode].
  - intros b. rewrite length_take, length_app, length_replicate. lia.
  - intros b v Hb. rewrite length_app, length_replicate. lia.
Qed.

Definition ex_key : bytes := be 32 77.
Definition ex_prv : PrivateKey := {| prv_D := 77; prv_X := 77; prv_Y := 5 |}.
Definition ex_tx : Transaction := NewTransaction 3 (replicate 32 9) (Some 1000) 21000 (Some 2) [1; 2; 3].
Definition ex_signed : Transaction :=
  {| tx_data := set_signature (tx_data ex_tx) 77 1 37; tx_from := None |}.

Lemma ex_typed : tx_typed (tx_data ex_tx).
Proof.
  unfold tx_typed, is_uint64. cbn [tx_data ex_tx NewTransaction newTransaction td_AccountNonce td_Price td_GasLimit td_Recipient td_Amount td_Payload td_V td_R td_S default].
  split_and!; try lia; try done.
  - intros a [= <-]. split; [|done]. apply (bool_decide_unpack _). by vm_compute.
  - apply (bool_decide_unpack _). by vm_compute.
Qed.

Lemma ex_signed_typed : tx_typed (tx_data ex_signed).
Proof. destruct ex_typed as (? & ? & ? & ? & ? & ? & _). unfold tx_typed. cbn [ex_signed tx_data set_signature td_V td_R td_S]. split_and!; done. Qed.

Lemma tx_roundtrip_witness :
  exists b, Transaction_EncodeRLP ex_signed = Ret (Ok b) /\ DecodeBytes_tx b = Ok {| tx_data := tx_data ex_signed; tx_from := None |}.
Proof. apply (tx_roundtrip ex_signed); [exact ex_signed_typed|by vm_compute]. Defined.

Lemma tx_decode_typed_witness : tx_typed (tx_data ex_signed) /\ Transaction_EncodeRLP ex_signed = Ret (Ok (tx_enc (tx_data ex_signed))).
Proof.
  destruct (tx_decode_typed (tx_enc (tx_data ex_signed)) ex_signed) as [Ht He]; [|by vm_compute|by vm_compute|].
  - apply (bool_decide_unpack _). by vm_compute.
  - split; [exact Ht|by apply He].
Defined.

(** The same transaction unsigned and signed. *)
Lemma tx_hash_binds_witness : 1 = 1 /\ set_signature (tx_data ex_tx) 0 0 0 = set_signature (tx_data ex_signed) 0 0 0.
Proof.
  refine (proj2 (tx_hash_binds ex_tx ex_signed 1 1 ex_typed ex_signed_typed _ _ _ _ _ _ _ _) _); by vm_compute.
Defined.

Lemma ex_sign_small s : In s [FrontierSigner; HomesteadSigner; EIP155Signer 1; EIP155Signer 2] -> small (sign_enc s (tx_data ex_tx)).
Proof. intros [<-|[<-|[<-|[<-|[]]]]]; by vm_compute. Qed.


Lemma sender_cache_sound_witness :
  exists tx2, senders [EIP155Signer 1; EIP155Signer 2; EIP155Signer 1]
    {| tx_data := tx_data ex_signed; tx_from := Some (EIP155Signer 1, str_bytes "Lig" ++ replicate 14 65 ++ replicate 15 0) |}
  = Ret ([Ok (str_bytes "Lig" ++ replicate 14 65 ++ replicate 15 0); Err ErrInvalidChainId; Ok (str_bytes "Lig" ++ replicate 14 65 ++ replicate 15 0)], tx2).
Proof.
  apply (sender_cache_sound ex_tx 1 ex_key true ex_prv); [exact ex_typed|lia|apply ex_sign_small; simpl; tauto|by vm_compute|by vm_compute|].
  repeat constructor; by vm_compute.
Defined.

End TxExamples.
