(* ===== verification/Sha3.v ===== *)
(** * The sponge of SHA-3

    The package utilities/crypto/sha3: the permutation as keccakf.go unrolls it,
    the sponge (sha3.go, xor_generic.go), and the hash functions on it (hashes.go,
    shake.go).  On amd64 the permutation is in assembler, which is not modelled.

    Shown: the unrolled permutation is Keccak-f[1600] with its five steps; a hash
    that is written in pieces is the sponge on their concatenation; reading in
    pieces gives the same bytes; Keccak-256 has the length the rest relies on. *)
From S2P Require Import Prelude Rlp Trie.
Local Open Scope Z_scope.

(** ** keccakf.go *)
Definition rc : list Z :=
  [0x0000000000000001; 0x0000000000008082; 0x800000000000808A; 0x8000000080008000;
   0x000000000000808B; 0x0000000080000001; 0x8000000080008081; 0x8000000000008009;
   0x000000000000008A; 0x0000000000000088; 0x0000000080008009; 0x000000008000000A;
   0x000000008000808B; 0x800000000000008B; 0x8000000000008089; 0x8000000000008003;
   0x8000000000008002; 0x8000000000000080; 0x000000000000800A; 0x800000008000000A;
   0x8000000080008081; 0x8000000000008080; 0x0000000080000001; 0x8000000080008008].

(** [t<<n | t>>(64-n)] *)
Definition rot (t n : Z) : Z := Z.lor (u64 (Z.shiftl t n)) (Z.shiftr t (64 - n)).
Definition xor5 (a b c d e : Z) : Z := Z.lxor (Z.lxor (Z.lxor (Z.lxor a b) c) d) e.

(** The four rounds of an iteration; the lanes change their places. *)
Definition round1 (a : list Z) (rci : Z) : list Z :=
  match a with
  | [a0; a1; a2; a3; a4; a5; a6; a7; a8; a9; a10; a11; a12; a13; a14; a15; a16; a17; a18; a19; a20; a21; a22; a23; a24] =>
    let bc0 := xor5 a0 a5 a10 a15 a20 in let bc1 := xor5 a1 a6 a11 a16 a21 in
    let bc2 := xor5 a2 a7 a12 a17 a22 in let bc3 := xor5 a3 a8 a13 a18 a23 in let bc4 := xor5 a4 a9 a14 a19 a24 in
    let d0 := Z.lxor bc4 (rot bc1 1) in let d1 := Z.lxor bc0 (rot bc2 1) in
    let d2 := Z.lxor bc1 (rot bc3 1) in let d3 := Z.lxor bc2 (rot bc4 1) in let d4 := Z.lxor bc3 (rot bc0 1) in
    let bc0 := Z.lxor a0 d0 in let t := Z.lxor a6 d1 in let bc1 := rot t 44 in let t := Z.lxor a12 d2 in let bc2 := rot t 43 in
    let t := Z.lxor a18 d3 in let bc3 := rot t 21 in let t := Z.lxor a24 d4 in let bc4 := rot t 14 in
    let a0 := Z.lxor (Z.lxor bc0 (Z.ldiff bc2 bc1)) rci in let a6 := Z.lxor bc1 (Z.ldiff bc3 bc2) in let a12 := Z.lxor bc2 (Z.ldiff bc4 bc3) in
    let a18 := Z.lxor bc3 (Z.ldiff bc0 bc4) in let a24 := Z.lxor bc4 (Z.ldiff bc1 bc0) in
    let t := Z.lxor a10 d0 in let bc2 := rot t 3 in let t := Z.lxor a16 d1 in let bc3 := rot t 45 in
    let t := Z.lxor a22 d2 in let bc4 := rot t 61 in let t := Z.lxor a3 d3 in let bc0 := rot t 28 in
    let t := Z.lxor a9 d4 in let bc1 := rot t 20 in
    let a10 := Z.lxor bc0 (Z.ldiff bc2 bc1) in let a16 := Z.lxor bc1 (Z.ldiff bc3 bc2) in let a22 := Z.lxor bc2 (Z.ldiff bc4 bc3) in
    let a3 := Z.lxor bc3 (Z.ldiff bc0 bc4) in let a9 := Z.lxor bc4 (Z.ldiff bc1 bc0) in
    let t := Z.lxor a20 d0 in let bc4 := rot t 18 in let t := Z.lxor a1 d1 in let bc0 := rot t 1 in
    let t := Z.lxor a7 d2 in let bc1 := rot t 6 in let t := Z.lxor a13 d3 in let bc2 := rot t 25 in
    let t := Z.lxor a19 d4 in let bc3 := rot t 8 in
    let a20 := Z.lxor bc0 (Z.ldiff bc2 bc1) in let a1 := Z.lxor bc1 (Z.ldiff bc3 bc2) in let a7 := Z.lxor bc2 (Z.ldiff bc4 bc3) in
    let a13 := Z.lxor bc3 (Z.ldiff bc0 bc4) in let a19 := Z.lxor bc4 (Z.ldiff bc1 bc0) in
    let t := Z.lxor a5 d0 in let bc1 := rot t 36 in let t := Z.lxor a11 d1 in let bc2 := rot t 10 in
    let t := Z.lxor a17 d2 in let bc3 := rot t 15 in let t := Z.lxor a23 d3 in let bc4 := rot t 56 in
    let t := Z.lxor a4 d4 in let bc0 := rot t 27 in
    let a5 := Z.lxor bc0 (Z.ldiff bc2 bc1) in let a11 := Z.lxor bc1 (Z.ldiff bc3 bc2) in let a17 := Z.lxor bc2 (Z.ldiff bc4 bc3) in
    let a23 := Z.lxor bc3 (Z.ldiff bc0 bc4) in let a4 := Z.lxor bc4 (Z.ldiff bc1 bc0) in
    let t := Z.lxor a15 d0 in let bc3 := rot t 41 in let t := Z.lxor a21 d1 in let bc4 := rot t 2 in
    let t := Z.lxor a2 d2 in let bc0 := rot t 62 in let t := Z.lxor a8 d3 in let bc1 := rot t 55 in
    let t := Z.lxor a14 d4 in let bc2 := rot t 39 in
    let a15 := Z.lxor bc0 (Z.ldiff bc2 bc1) in let a21 := Z.lxor bc1 (Z.ldiff bc3 bc2) in let a2 := Z.lxor bc2 (Z.ldiff bc4 bc3) in
    let a8 := Z.lxor bc3 (Z.ldiff bc0 bc4) in let a14 := Z.lxor bc4 (Z.ldiff bc1 bc0) in
    [a0; a1; a2; a3; a4; a5; a6; a7; a8; a9; a10; a11; a12; a13; a14; a15; a16; a17; a18; a19; a20; a21; a22; a23; a24]
  | _ => a
  end.

Definition round2 (a : list Z) (rci : Z) : list Z :=
  match a with
  | [a0; a1; a2; a3; a4; a5; a6; a7; a8; a9; a10; a11; a12; a13; a14; a15; a16; a17; a18; a19; a20; a21; a22; a23; a24] =>
    let bc0 := xor5 a0 a5 a10 a15 a20 in let bc1 := xor5 a1 a6 a11 a16 a21 in
    let bc2 := xor5 a2 a7 a12 a17 a22 in let bc3 := xor5 a3 a8 a13 a18 a23 in let bc4 := xor5 a4 a9 a14 a19 a24 in
    let d0 := Z.lxor bc4 (rot bc1 1) in let d1 := Z.lxor bc0 (rot bc2 1) in
    let d2 := Z.lxor bc1 (rot bc3 1) in let d3 := Z.lxor bc2 (rot bc4 1) in let d4 := Z.lxor bc3 (rot bc0 1) in
    let bc0 := Z.lxor a0 d0 in let t := Z.lxor a16 d1 in let bc1 := rot t 44 in let t := Z.lxor a7 d2 in let bc2 := rot t 43 in
    let t := Z.lxor a23 d3 in let bc3 := rot t 21 in let t := Z.lxor a14 d4 in let bc4 := rot t 14 in
    let a0 := Z.lxor (Z.lxor bc0 (Z.ldiff bc2 bc1)) rci in let a16 := Z.lxor bc1 (Z.ldiff bc3 bc2) in let a7 := Z.lxor bc2 (Z.ldiff bc4 bc3) in
    let a23 := Z.lxor bc3 (Z.ldiff bc0 bc4) in let a14 := Z.lxor bc4 (Z.ldiff bc1 bc0) in
    let t := Z.lxor a20 d0 in let bc2 := rot t 3 in let t := Z.lxor a11 d1 in let bc3 := rot t 45 in
    let t := Z.lxor a2 d2 in let bc4 := rot t 61 in let t := Z.lxor a18 d3 in let bc0 := rot t 28 in
    let t := Z.lxor a9 d4 in let bc1 := rot t 20 in
    let a20 := Z.lxor bc0 (Z.ldiff bc2 bc1) in let a11 := Z.lxor bc1 (Z.ldiff bc3 bc2) in let a2 := Z.lxor bc2 (Z.ldiff bc4 bc3) in
    let a18 := Z.lxor bc3 (Z.ldiff bc0 bc4) in let a9 := Z.lxor bc4 (Z.ldiff bc1 bc0) in
    let t := Z.lxor a15 d0 in let bc4 := rot t 18 in let t := Z.lxor a6 d1 in let bc0 := rot t 1 in
    let t := Z.lxor a22 d2 in let bc1 := rot t 6 in let t := Z.lxor a13 d3 in let bc2 := rot t 25 in
    let t := Z.lxor a4 d4 in let bc3 := rot t 8 in
    let a15 := Z.lxor bc0 (Z.ldiff bc2 bc1) in let a6 := Z.lxor bc1 (Z.ldiff bc3 bc2) in let a22 := Z.lxor bc2 (Z.ldiff bc4 bc3) in
    let a13 := Z.lxor bc3 (Z.ldiff bc0 bc4) in let a4 := Z.lxor bc4 (Z.ldiff bc1 bc0) in
    let t := Z.lxor a10 d0 in let bc1 := rot t 36 in let t := Z.lxor a1 d1 in let bc2 := rot t 10 in
    let t := Z.lxor a17 d2 in let bc3 := rot t 15 in let t := Z.lxor a8 d3 in let bc4 := rot t 56 in
    let t := Z.lxor a24 d4 in let bc0 := rot t 27 in
    let a10 := Z.lxor bc0 (Z.ldiff bc2 bc1) in let a1 := Z.lxor bc1 (Z.ldiff bc3 bc2) in let a17 := Z.lxor bc2 (Z.ldiff bc4 bc3) in
    let a8 := Z.lxor bc3 (Z.ldiff bc0 bc4) in let a24 := Z.lxor bc4 (Z.ldiff bc1 bc0) in
    let t := Z.lxor a5 d0 in let bc3 := rot t 41 in let t := Z.lxor a21 d1 in let bc4 := rot t 2 in
    let t := Z.lxor a12 d2 in let bc0 := rot t 62 in let t := Z.lxor a3 d3 in let bc1 := rot t 55 in
    let t := Z.lxor a19 d4 in let bc2 := rot t 39 in
    let a5 := Z.lxor bc0 (Z.ldiff bc2 bc1) in let a21 := Z.lxor bc1 (Z.ldiff bc3 bc2) in let a12 := Z.lxor bc2 (Z.ldiff bc4 bc3) in
    let a3 := Z.lxor bc3 (Z.ldiff bc0 bc4) in let a19 := Z.lxor bc4 (Z.ldiff bc1 bc0) in
    [a0; a1; a2; a3; a4; a5; a6; a7; a8; a9; a10; a11; a12; a13; a14; a15; a16; a17; a18; a19; a20; a21; a22; a23; a24]
  | _ => a
  end.

Definition round3 (a : list Z) (rci : Z) : list Z :=
  match a with
  | [a0; a1; a2; a3; a4; a5; a6; a7; a8; a9; a10; a11; a12; a13; a14; a15; a16; a17; a18; a19; a20; a21; a22; a23; a24] =>
    let bc0 := xor5 a0 a5 a10 a15 a20 in let bc1 := xor5 a1 a6 a11 a16 a21 in
    let bc2 := xor5 a2 a7 a12 a17 a22 in let bc3 := xor5 a3 a8 a13 a18 a23 in let bc4 := xor5 a4 a9 a14 a19 a24 in
    let d0 := Z.lxor bc4 (rot bc1 1) in let d1 := Z.lxor bc0 (rot bc2 1) in
    let d2 := Z.lxor bc1 (rot bc3 1) in let d3 := Z.lxor bc2 (rot bc4 1) in let d4 := Z.lxor bc3 (rot bc0 1) in
    let bc0 := Z.lxor a0 d0 in let t := Z.lxor a11 d1 in let bc1 := rot t 44 in let t := Z.lxor a22 d2 in let bc2 := rot t 43 in
    let t := Z.lxor a8 d3 in let bc3 := rot t 21 in let t := Z.lxor a19 d4 in let bc4 := rot t 14 in
    let a0 := Z.lxor (Z.lxor bc0 (Z.ldiff bc2 bc1)) rci in let a11 := Z.lxor bc1 (Z.ldiff bc3 bc2) in let a22 := Z.lxor bc2 (Z.ldiff bc4 bc3) in
    let a8 := Z.lxor bc3 (Z.ldiff bc0 bc4) in let a19 := Z.lxor bc4 (Z.ldiff bc1 bc0) in
    let t := Z.lxor a15 d0 in let bc2 := rot t 3 in let t := Z.lxor a1 d1 in let bc3 := rot t 45 in
    let t := Z.lxor a12 d2 in let bc4 := rot t 61 in let t := Z.lxor a23 d3 in let bc0 := rot t 28 in
    let t := Z.lxor a9 d4 in let bc1 := rot t 20 in
    let a15 := Z.lxor bc0 (Z.ldiff bc2 bc1) in let a1 := Z.lxor bc1 (Z.ldiff bc3 bc2) in let a12 := Z.lxor bc2 (Z.ldiff bc4 bc3) in
    let a23 := Z.lxor bc3 (Z.ldiff bc0 bc4) in let a9 := Z.lxor bc4 (Z.ldiff bc1 bc0) in
    let t := Z.lxor a5 d0 in let bc4 := rot t 18 in let t := Z.lxor a16 d1 in let bc0 := rot t 1 in
    let t := Z.lxor a2 d2 in let bc1 := rot t 6 in let t := Z.lxor a13 d3 in let bc2 := rot t 25 in
    let t := Z.lxor a24 d4 in let bc3 := rot t 8 in
    let a5 := Z.lxor bc0 (Z.ldiff bc2 bc1) in let a16 := Z.lxor bc1 (Z.ldiff bc3 bc2) in let a2 := Z.lxor bc2 (Z.ldiff bc4 bc3) in
    let a13 := Z.lxor bc3 (Z.ldiff bc0 bc4) in let a24 := Z.lxor bc4 (Z.ldiff bc1 bc0) in
    let t := Z.lxor a20 d0 in let bc1 := rot t 36 in let t := Z.lxor a6 d1 in let bc2 := rot t 10 in
    let t := Z.lxor a17 d2 in let bc3 := rot t 15 in let t := Z.lxor a3 d3 in let bc4 := rot t 56 in
    let t := Z.lxor a14 d4 in let bc0 := rot t 27 in
    let a20 := Z.lxor bc0 (Z.ldiff bc2 bc1) in let a6 := Z.lxor bc1 (Z.ldiff bc3 bc2) in let a17 := Z.lxor bc2 (Z.ldiff bc4 bc3) in
    let a3 := Z.lxor bc3 (Z.ldiff bc0 bc4) in let a14 := Z.lxor bc4 (Z.ldiff bc1 bc0) in
    let t := Z.lxor a10 d0 in let bc3 := rot t 41 in let t := Z.lxor a21 d1 in let bc4 := rot t 2 in
    let t := Z.lxor a7 d2 in let bc0 := rot t 62 in let t := Z.lxor a18 d3 in let bc1 := rot t 55 in
    let t := Z.lxor a4 d4 in let bc2 := rot t 39 in
    let a10 := Z.lxor bc0 (Z.ldiff bc2 bc1) in let a21 := Z.lxor bc1 (Z.ldiff bc3 bc2) in let a7 := Z.lxor bc2 (Z.ldiff bc4 bc3) in
    let a18 := Z.lxor bc3 (Z.ldiff bc0 bc4) in let a4 := Z.lxor bc4 (Z.ldiff bc1 bc0) in
    [a0; a1; a2; a3; a4; a5; a6; a7; a8; a9; a10; a11; a12; a13; a14; a15; a16; a17; a18; a19; a20; a21; a22; a23; a24]
  | _ => a
  end.

Definition round4 (a : list Z) (rci : Z) : list Z :=
  match a with
  | [a0; a1; a2; a3; a4; a5; a6; a7; a8; a9; a10; a11; a12; a13; a14; a15; a16; a17; a18; a19; a20; a21; a22; a23; a24] =>
    let bc0 := xor5 a0 a5 a10 a15 a20 in let bc1 := xor5 a1 a6 a11 a16 a21 in
    let bc2 := xor5 a2 a7 a12 a17 a22 in let bc3 := xor5 a3 a8 a13 a18 a23 in let bc4 := xor5 a4 a9 a14 a19 a24 in
    let d0 := Z.lxor bc4 (rot bc1 1) in let d1 := Z.lxor bc0 (rot bc2 1) in
    let d2 := Z.lxor bc1 (rot bc3 1) in let d3 := Z.lxor bc2 (rot bc4 1) in let d4 := Z.lxor bc3 (rot bc0 1) in
    let bc0 := Z.lxor a0 d0 in let t := Z.lxor a1 d1 in let bc1 := rot t 44 in let t := Z.lxor a2 d2 in let bc2 := rot t 43 in
    let t := Z.lxor a3 d3 in let bc3 := rot t 21 in let t := Z.lxor a4 d4 in let bc4 := rot t 14 in
    let a0 := Z.lxor (Z.lxor bc0 (Z.ldiff bc2 bc1)) rci in let a1 := Z.lxor bc1 (Z.ldiff bc3 bc2) in let a2 := Z.lxor bc2 (Z.ldiff bc4 bc3) in
    let a3 := Z.lxor bc3 (Z.ldiff bc0 bc4) in let a4 := Z.lxor bc4 (Z.ldiff bc1 bc0) in
    let t := Z.lxor a5 d0 in let bc2 := rot t 3 in let t := Z.lxor a6 d1 in let bc3 := rot t 45 in
    let t := Z.lxor a7 d2 in let bc4 := rot t 61 in let t := Z.lxor a8 d3 in let bc0 := rot t 28 in
    let t := Z.lxor a9 d4 in let bc1 := rot t 20 in
    let a5 := Z.lxor bc0 (Z.ldiff bc2 bc1) in let a6 := Z.lxor bc1 (Z.ldiff bc3 bc2) in let a7 := Z.lxor bc2 (Z.ldiff bc4 bc3) in
    let a8 := Z.lxor bc3 (Z.ldiff bc0 bc4) in let a9 := Z.lxor bc4 (Z.ldiff bc1 bc0) in
    let t := Z.lxor a10 d0 in let bc4 := rot t 18 in let t := Z.lxor a11 d1 in let bc0 := rot t 1 in
    let t := Z.lxor a12 d2 in let bc1 := rot t 6 in let t := Z.lxor a13 d3 in let bc2 := rot t 25 in
    let t := Z.lxor a14 d4 in let bc3 := rot t 8 in
    let a10 := Z.lxor bc0 (Z.ldiff bc2 bc1) in let a11 := Z.lxor bc1 (Z.ldiff bc3 bc2) in let a12 := Z.lxor bc2 (Z.ldiff bc4 bc3) in
    let a13 := Z.lxor bc3 (Z.ldiff bc0 bc4) in let a14 := Z.lxor bc4 (Z.ldiff bc1 bc0) in
    let t := Z.lxor a15 d0 in let bc1 := rot t 36 in let t := Z.lxor a16 d1 in let bc2 := rot t 10 in
    let t := Z.lxor a17 d2 in let bc3 := rot t 15 in let t := Z.lxor a18 d3 in let bc4 := rot t 56 in
    let t := Z.lxor a19 d4 in let bc0 := rot t 27 in
    let a15 := Z.lxor bc0 (Z.ldiff bc2 bc1) in let a16 := Z.lxor bc1 (Z.ldiff bc3 bc2) in let a17 := Z.lxor bc2 (Z.ldiff bc4 bc3) in
    let a18 := Z.lxor bc3 (Z.ldiff bc0 bc4) in let a19 := Z.lxor bc4 (Z.ldiff bc1 bc0) in
    let t := Z.lxor a20 d0 in let bc3 := rot t 41 in let t := Z.lxor a21 d1 in let bc4 := rot t 2 in
    let t := Z.lxor a22 d2 in let bc0 := rot t 62 in let t := Z.lxor a23 d3 in let bc1 := rot t 55 in
    let t := Z.lxor a24 d4 in let bc2 := rot t 39 in
    let a20 := Z.lxor bc0 (Z.ldiff bc2 bc1) in let a21 := Z.lxor bc1 (Z.ldiff bc3 bc2) in let a22 := Z.lxor bc2 (Z.ldiff bc4 bc3) in
    let a23 := Z.lxor bc3 (Z.ldiff bc0 bc4) in let a24 := Z.lxor bc4 (Z.ldiff bc1 bc0) in
    [a0; a1; a2; a3; a4; a5; a6; a7; a8; a9; a10; a11; a12; a13; a14; a15; a16; a17; a18; a19; a20; a21; a22; a23; a24]
  | _ => a
  end.

Definition iteration (a : list Z) (i : nat) : list Z :=
  round4 (round3 (round2 (round1 a (nth i rc 0)) (nth (i + 1) rc 0)) (nth (i + 2) rc 0)) (nth (i + 3) rc 0).
Definition keccakF1600 (a : list Z) : list Z := foldl iteration a [0; 4; 8; 12; 16; 20]%nat.

(** ** sha3.go

    The buffer is a part of the storage of the state; what it shows is a list.  All
    rates are multiples of 8 and at most 168, so the lanes of a block are in the
    state and copying out replaces the whole buffer. *)
Record state := {
  s_a : list Z;
  s_buf : bytes;
  s_rate : nat;
  s_dsbyte : Z;
  s_outputLen : nat;
  s_squeezing : bool }.

Definition le_uint (b : bytes) : Z := be_uint (rev b).
Definition put_le (x : Z) : bytes := rev (be 8 x).

Fixpoint xorIn (a : list Z) (buf : bytes) : list Z :=
  match a with
  | [] => []
  | x :: a => if (length buf <? 8)%nat then x :: a else Z.lxor x (le_uint (take 8 buf)) :: xorIn a (drop 8 buf)
  end.

Fixpoint copyOut (a : list Z) (b : bytes) : bytes :=
  match a with
  | [] => b
  | x :: a => if (length b <? 8)%nat then b else put_le x ++ copyOut a (drop 8 b)
  end.

Definition set_sponge (d : state) (a : list Z) (buf : bytes) (squeezing : bool) : state :=
  {| s_a := a; s_buf := buf; s_rate := s_rate d; s_dsbyte := s_dsbyte d; s_outputLen := s_outputLen d; s_squeezing := squeezing |}.

Definition sponge_Reset (d : state) : state := set_sponge d (replicate 25 0) [] false.

Definition permute (d : state) : state :=
  if s_squeezing d then
    let a := keccakF1600 (s_a d) in set_sponge d a (copyOut a (replicate (s_rate d) 0)) true
  else set_sponge d (keccakF1600 (xorIn (s_a d) (s_buf d))) [] false.

(** [b[len(b)-1] ^= 0x80] *)
Definition flip_last (b : bytes) : bytes := alter (fun x => Z.lxor x 0x80) (length b - 1)%nat b.

Definition padded (rate : nat) (dsbyte : Z) (buf : bytes) : bytes :=
  flip_last ((buf ++ [dsbyte]) ++ replicate (rate - length (buf ++ [dsbyte])) 0).

Definition padAndPermute (d : state) (dsbyte : Z) : state :=
  let d := permute (set_sponge d (s_a d) (padded (s_rate d) dsbyte (s_buf d)) false) in
  set_sponge d (s_a d) (copyOut (s_a d) (replicate (s_rate d) 0)) true.

(** The loop of Write; [None] when the fuel is used up. *)
Fixpoint write_loop (fuel : nat) (d : state) (p : bytes) : option state :=
  match fuel with
  | O => None
  | S fuel =>
    match p with
    | [] => Some d
    | _ =>
      if bool_decide (s_buf d = []) && (s_rate d <=? length p)%nat then
        write_loop fuel (set_sponge d (keccakF1600 (xorIn (s_a d) (take (s_rate d) p))) (s_buf d) (s_squeezing d)) (drop (s_rate d) p)
      else
        let todo := Nat.min (s_rate d - length (s_buf d)) (length p) in
        let d := set_sponge d (s_a d) (s_buf d ++ take todo p) (s_squeezing d) in
        write_loop fuel (if (length (s_buf d) =? s_rate d)%nat then permute d else d) (drop todo p)
    end
  end.

Definition Write (d : state) (p : bytes) : option (outcome state) :=
  if s_squeezing d then Some (Panic "sha3: write to sponge after read")
  else Ret <$> write_loop (S (length p)) d p.

(** The loop of Read for [n] bytes. *)
Fixpoint read_loop (fuel : nat) (d : state) (n : nat) : option (bytes * state) :=
  match fuel with
  | O => None
  | S fuel =>
    match n with
    | O => Some ([], d)
    | _ =>
      let c := Nat.min n (length (s_buf d)) in
      let rest := set_sponge d (s_a d) (drop c (s_buf d)) (s_squeezing d) in
      r ← read_loop fuel (if (length (s_buf rest) =? 0)%nat then permute rest else rest) (n - c);
      Some (take c (s_buf d) ++ fst r, snd r)
    end
  end.

Definition Read (d : state) (n : nat) : option (bytes * state) :=
  read_loop (S n) (if s_squeezing d then d else padAndPermute d (s_dsbyte d)) n.

(** Sum reads from a copy. *)
Definition Sum (d : state) : option bytes := fst <$> Read d (s_outputLen d).

(** ** hashes.go and shake.go *)
Definition new_state (rate outputLen : nat) (dsbyte : Z) : state :=
  {| s_a := replicate 25 0; s_buf := []; s_rate := rate; s_dsbyte := dsbyte; s_outputLen := outputLen; s_squeezing := false |}.

Definition NewKeccak256 : state := new_state 136 32 0x01.
Definition NewKeccak512 : state := new_state 72 64 0x01.
Definition New224 : state := new_state 144 28 0x06.
Definition New256 : state := new_state 136 32 0x06.
Definition New384 : state := new_state 104 48 0x06.
Definition New512 : state := new_state 72 64 0x06.
Definition NewShake128 : state := new_state 168 0 0x1f.
Definition NewShake256 : state := new_state 136 0 0x1f.

(** What Sum224 to Sum512 do with their hash. *)
Definition sum_of_data (h : state) (data : bytes) : option bytes :=
  match Write h data with Some (Ret h) => Sum h | _ => None end.
Definition ShakeSum (h : state) (data : bytes) (n : nat) : option bytes :=
  match Write h data with Some (Ret h) => fst <$> Read h n | _ => None end.

(** ** The reference: Keccak-f[1600] by its five steps (FIPS 202, section 3) *)
Definition lane (a : list Z) (x y : nat) : Z := nth (x mod 5 + 5 * (y mod 5)) a 0.
Definition lanes (f : nat -> nat -> Z) : list Z := tabulate (fun i => f (i mod 5)%nat (i / 5)%nat) 25.

Definition column (a : list Z) (x : nat) : Z := xor5 (lane a x 0) (lane a x 1) (lane a x 2) (lane a x 3) (lane a x 4).
Definition theta (a : list Z) : list Z :=
  lanes (fun x y => Z.lxor (lane a x y) (Z.lxor (column a (x + 4)) (rot (column a (x + 1)) 1))).

(** The offsets along the walk from (1,0). *)
Fixpoint rho_walk (n : nat) (t : Z) (x y : nat) : list (nat * nat * Z) :=
  match n with
  | O => []
  | S n => (x, y, (t + 1) * (t + 2) / 2 mod 64) :: rho_walk n (t + 1) y ((2 * x + 3 * y) mod 5)
  end.
Definition offset (x y : nat) : Z :=
  match find (fun '(x', y', _) => ((x' =? x mod 5) && (y' =? y mod 5))%nat) (rho_walk 24 0 1 0) with Some (_, r) => r | None => 0 end.
Definition rotate (t n : Z) : Z := if n =? 0 then t else rot t n.
Definition rho_pi (a : list Z) : list Z := lanes (fun x y => rotate (lane a (x + 3 * y) x) (offset (x + 3 * y) x)).

Definition chi (a : list Z) : list Z := lanes (fun x y => Z.lxor (lane a x y) (Z.ldiff (lane a (x + 2) y) (lane a (x + 1) y))).
Definition iota (a : list Z) (c : Z) : list Z := lanes (fun x y => if ((x =? 0) && (y =? 0))%nat then Z.lxor (lane a x y) c else lane a x y).

Definition keccak_round (a : list Z) (c : Z) : list Z := iota (chi (rho_pi (theta a))) c.

(** The constants from the feedback shift register. *)
Fixpoint lfsr (n : nat) (r : Z) : Z :=
  match n with O => r | S n => lfsr n (let s := Z.shiftl r 1 in if Z.testbit s 8 then Z.lxor s 0x171 else s) end.
Definition round_constant (i : nat) : Z :=
  foldr (fun j c => if Z.testbit (lfsr (j + 7 * i) 1) 0 then Z.lor (Z.shiftl 1 (2 ^ Z.of_nat j - 1)) c else c) 0 (seq 0 7).
Definition keccak_f (a : list Z) : list Z := foldl keccak_round a (map round_constant (seq 0 24)).

Lemma rc_ok : rc = map round_constant (seq 0 24).
Proof. by vm_compute. Qed.

(** ** The rounds *)

(** Where the lanes are after one, two and three of the rounds. *)
Definition moved (p : list nat) (a : list Z) : list Z := map (fun i => nth i a 0) p.
Definition places1 : list nat := [0; 11; 22; 8; 19; 15; 1; 12; 23; 9; 5; 16; 2; 13; 24; 20; 6; 17; 3; 14; 10; 21; 7; 18; 4]%nat.
Definition places2 : list nat := [0; 16; 7; 23; 14; 20; 11; 2; 18; 9; 15; 6; 22; 13; 4; 10; 1; 17; 8; 24; 5; 21; 12; 3; 19]%nat.
Definition places3 : list nat := [0; 6; 12; 18; 24; 10; 16; 22; 3; 9; 20; 1; 7; 13; 19; 5; 11; 17; 23; 4; 15; 21; 2; 8; 14]%nat.

Ltac lanes25 a := do 25 (destruct a as [|? a]; [done|]); destruct a; [|done].

Lemma round1_ok a c : length a = 25%nat -> round1 a c = moved places1 (keccak_round a c).
Proof. intros H. lanes25 a. cbv -[Z.lxor rot xor5 Z.ldiff]. reflexivity. Qed.


Ltac same_column :=
  match goal with
  | |- context [xor5 ?a ?b ?c ?d ?e] =>
    match goal with
    | |- context [xor5 ?a' ?b' ?c' ?d' ?e'] =>
      tryif constr_eq (xor5 a b c d e) (xor5 a' b' c' d' e') then fail
      else first [constr_eq a a'|constr_eq b a'|constr_eq c a'|constr_eq d a'|constr_eq e a'];
      replace (xor5 a b c d e) with (xor5 a' b' c' d' e')
        by (unfold xor5; apply Z.bits_inj'; intros ? _; rewrite !Z.lxor_spec; repeat destruct (Z.testbit _ _); reflexivity)
    end
  end.

Lemma round2_ok a c : length a = 25%nat -> round2 (moved places1 a) c = moved places2 (keccak_round a c).
Proof. intros H. lanes25 a. cbv -[Z.lxor rot xor5 Z.ldiff]. do 5 same_column. reflexivity. Qed.
Lemma round3_ok a c : length a = 25%nat -> round3 (moved places2 a) c = moved places3 (keccak_round a c).
Proof. intros H. lanes25 a. cbv -[Z.lxor rot xor5 Z.ldiff]. do 5 same_column. reflexivity. Qed.
Lemma round4_ok a c : length a = 25%nat -> round4 (moved places3 a) c = keccak_round a c.
Proof. intros H. lanes25 a. cbv -[Z.lxor rot xor5 Z.ldiff]. do 5 same_column. reflexivity. Qed.

Lemma length_keccak_round a c : length (keccak_round a c) = 25%nat.
Proof. apply length_tabulate. Qed.

Definition four_rounds (a : list Z) (i : nat) : list Z := foldl keccak_round a (map (fun j => nth j rc 0) [i; i + 1; i + 2; i + 3]%nat).

Lemma iteration_ok a i : length a = 25%nat -> iteration a i = four_rounds a i /\ length (iteration a i) = 25%nat.
Proof. intros H. unfold iteration. rewrite round1_ok, round2_ok, round3_ok, round4_ok by (done || apply length_keccak_round). split; [done|apply length_keccak_round]. Qed.

Lemma iterations_ok l : forall a, length a = 25%nat -> foldl iteration a l = foldl four_rounds a l /\ length (foldl iteration a l) = 25%nat.
Proof. induction l as [|i l IH]; intros a H; [done|]. destruct (iteration_ok a i H) as [E Hl]. cbn [foldl]. rewrite <- E. by apply IH. Qed.

(** C30: The permutation, unrolled over four rounds with the lanes at changing
    places, is Keccak-f[1600]: 24 rounds of theta, rho, pi, chi and iota with the
    offsets and constants of the standard. *)
Theorem keccakF1600_correct a : length a = 25%nat -> keccakF1600 a = keccak_f a.
Proof. intros H. unfold keccakF1600, keccak_f. rewrite <- rc_ok, (proj1 (iterations_ok _ a H)). reflexivity. Qed.

Lemma length_keccakF1600 a : length a = 25%nat -> length (keccakF1600 a) = 25%nat.
Proof. intros H. by apply iterations_ok. Qed.

#[local] Opaque keccakF1600.

Lemma length_copyOut a : forall b, length (copyOut a b) = length b.
Proof.
  induction a as [|x a IH]; intros b; [done|]. cbn [copyOut]. destruct (Nat.ltb_spec (length b) 8); [done|].
  rewrite length_app, IH, length_drop. unfold put_le. rewrite length_rev, length_be. lia.
Qed.

(** ** The reference sponge *)
Section Sponge.
Context (rate : nat) (dsbyte : Z).
Hypothesis rate_pos : (0 < rate)%nat.

Definition absorb_block (a : list Z) (block : bytes) : list Z := keccakF1600 (xorIn a block).

(** The blocks of a message, and what is left. *)
Definition blocks (m : bytes) : list bytes := tabulate (fun i => take rate (drop (i * rate) m)) (length m / rate).
Definition rest_of (m : bytes) : bytes := drop (length m / rate * rate) m.

Definition sponge (m : bytes) (n : nat) : bytes :=
  let pad := padded rate dsbyte (rest_of m) in
  take n (copyOut (foldl absorb_block (replicate 25 0) (blocks m ++ [pad])) (replicate rate 0)).

Definition block (b : bytes) : Prop := length b = rate.

Lemma length_concat_blocks bs : Forall block bs -> length (concat bs) = (length bs * rate)%nat.
Proof. induction 1 as [|b bs Hb _ IH]; [done|]. cbn. by rewrite length_app, Hb, IH. Qed.

Lemma nth_block bs r i b : Forall block bs -> bs !! i = Some b -> take rate (drop (i * rate) (concat bs ++ r)) = b.
Proof.
  intros Hbs Hi. rewrite <- (take_drop_middle bs i b Hi), concat_app. cbn [concat]. apply Forall_lookup_1 with (i := i) (x := b) in Hbs as Hb; [|done].
  pose proof (lookup_lt_Some _ _ _ Hi). rewrite <- !app_assoc, drop_app_length'; [by rewrite take_app_length'|].
  rewrite length_concat_blocks by by apply Forall_take. rewrite length_take. lia.
Qed.

Lemma blocks_concat bs r : Forall block bs -> (length r < rate)%nat -> blocks (concat bs ++ r) = bs /\ rest_of (concat bs ++ r) = r.
Proof.
  intros Hbs Hr. pose proof (length_concat_blocks bs Hbs) as Hl.
  assert (length (concat bs ++ r) / rate = length bs)%nat as Hd by (rewrite length_app, Hl, Nat.div_add_l, Nat.div_small by lia; lia).
  unfold blocks, rest_of. rewrite Hd, <- Hl, drop_app_length. split; [|done]. apply tabulate_ext; [done|]. intros i b Hi. by apply nth_block.
Qed.

(** ** Writing *)

(** The state after a message. *)
Definition absorbed (d : state) (m : bytes) : Prop :=
  s_rate d = rate /\ s_dsbyte d = dsbyte /\ s_squeezing d = false /\
  exists bs r, m = concat bs ++ r /\ Forall block bs /\ (length r < rate)%nat /\
    s_a d = foldl absorb_block (replicate 25 0) bs /\ s_buf d = r.

Lemma reset_absorbed d : s_rate d = rate -> s_dsbyte d = dsbyte -> absorbed (sponge_Reset d) [].
Proof. intros Hr Hd. split_and!; [done..|]. exists [], []. split_and!; [done|constructor|done..]. Qed.

Lemma absorbed_full d m b : absorbed d m -> s_buf d = [] -> block b ->
  absorbed (set_sponge d (absorb_block (s_a d) b) [] false) (m ++ b).
Proof.
  intros (Hrate & Hds & Hsq & bs & r & -> & Hbs & Hr & Ha & Hb) He Hl. assert (r = []) as -> by congruence. split_and!; [done..|].
  exists (bs ++ [b]), []. rewrite concat_app, !app_nil_r. cbn [concat set_sponge s_a s_buf]. rewrite app_nil_r, foldl_app. cbn [foldl]. rewrite <- Ha.
  split_and!; [done| |done..]. apply Forall_app. split; [done|]. by constructor.
Qed.

Lemma absorbed_more d m q : absorbed d m -> (length (s_buf d) + length q <= rate)%nat ->
  let d1 := set_sponge d (s_a d) (s_buf d ++ q) (s_squeezing d) in
  absorbed (if (length (s_buf d1) =? s_rate d1)%nat then permute d1 else d1) (m ++ q).
Proof.
  intros (Hrate & Hds & Hsq & bs & r & -> & Hbs & Hr & Ha & Hb) Hl. cbn zeta. cbn [set_sponge s_buf s_rate]. rewrite Hb, Hrate in *. rewrite length_app.
  destruct (Nat.eqb_spec (length r + length q) rate) as [E|E].
  - unfold permute. cbn [set_sponge s_squeezing s_a s_buf s_rate s_dsbyte s_outputLen]. rewrite Hsq.
    split_and!; [done..|]. exists (bs ++ [r ++ q]), []. rewrite concat_app, !app_nil_r. cbn [concat set_sponge s_a s_buf]. rewrite app_nil_r, foldl_app. cbn [foldl]. rewrite <- Ha.
    split_and!; [by rewrite <- app_assoc| |done..]. apply Forall_app. split; [done|]. constructor; [|constructor]. unfold block. by rewrite length_app.
  - split_and!; [done..|]. exists bs, (r ++ q). rewrite length_app. split_and!; [by rewrite <- app_assoc|done|lia|done|done].
Qed.

Lemma write_loop_ok fuel : forall d m p, absorbed d m -> (length p < fuel)%nat ->
  exists d', write_loop fuel d p = Some d' /\ absorbed d' (m ++ p) /\ s_outputLen d' = s_outputLen d.
Proof.
  induction fuel as [|fuel IH]; intros d m p Hd Hf; [lia|]. cbn [write_loop]. pose proof Hd as (Hrate & _ & Hsq & bs & r & _ & _ & Hr & _ & Hb).
  destruct p as [|x p0] eqn:Ep; [exists d; by rewrite app_nil_r|]. rewrite <- Ep in *. assert (0 < length p)%nat as Hp by (rewrite Ep; cbn; lia).
  destruct (bool_decide (s_buf d = []) && (s_rate d <=? length p)%nat) eqn:Ec.
  - apply andb_true_iff in Ec as [He Hl]. apply bool_decide_eq_true in He. apply Nat.leb_le in Hl. rewrite Hrate in *.
    destruct (IH _ _ (drop rate p) (absorbed_full d m (take rate p) Hd He ltac:(unfold block; rewrite length_take; lia))) as (d' & E & H1 & H2).
    { rewrite length_drop. lia. }
    exists d'. rewrite He, Hsq. rewrite <- app_assoc, take_drop in H1. done.
  - set (todo := Nat.min _ _). assert (0 < todo)%nat as Ht by (unfold todo; rewrite Hb, Hrate; lia).
    destruct (IH _ _ (drop todo p) (absorbed_more d m (take todo p) Hd ltac:(rewrite length_take; unfold todo; rewrite Hrate, Hb; lia))) as (d' & E & H1 & H2).
    { rewrite length_drop. lia. }
    exists d'. rewrite <- app_assoc, take_drop in H1. split_and!; [done|done|]. rewrite H2. destruct (_ =? _)%nat; [|done]. unfold permute. by destruct (s_squeezing _).
Qed.

Lemma Write_ok d m p : absorbed d m -> exists d', Write d p = Some (Ret d') /\ absorbed d' (m ++ p) /\ s_outputLen d' = s_outputLen d.
Proof.
  intros Hd. pose proof Hd as (_ & _ & Hsq & _). unfold Write. rewrite Hsq. destruct (write_loop_ok (S (length p)) d m p Hd ltac:(lia)) as (d' & -> & H). by exists d'.
Qed.

(** ** Reading *)
Lemma read_loop_first fuel d n : s_squeezing d = true -> (0 < n < length (s_buf d))%nat ->
  read_loop (S (S fuel)) d n = Some (take n (s_buf d), set_sponge d (s_a d) (drop n (s_buf d)) true).
Proof.
  intros Hs Hn. cbn [read_loop]. destruct n as [|n]; [lia|]. rewrite Nat.min_l by lia. cbn [set_sponge s_buf]. rewrite length_drop.
  rewrite (proj2 (Nat.eqb_neq _ _)) by lia. rewrite Nat.sub_diag. cbn. by rewrite app_nil_r, Hs.
Qed.

Lemma Sum_ok d m : absorbed d m -> (0 < s_outputLen d < rate)%nat -> Sum d = Some (sponge m (s_outputLen d)).
Proof.
  intros (Hrate & Hds & Hsq & bs & r & -> & Hbs & Hr & Ha & Hb) Ho. unfold Sum, Read. rewrite Hsq.
  destruct (s_outputLen d) as [|n] eqn:En; [lia|]. rewrite read_loop_first; [|done|].
  - cbn [fst fmap option_fmap option_map]. unfold sponge. destruct (blocks_concat bs r Hbs Hr) as [-> ->]. rewrite foldl_app. cbn [foldl]. rewrite <- Ha.
    unfold padAndPermute, permute. cbn [set_sponge s_squeezing s_a s_buf s_rate]. by rewrite Hb, Hrate, Hds.
  - unfold padAndPermute, permute. cbn [set_sponge s_squeezing s_a s_buf s_rate]. rewrite length_copyOut, length_replicate. lia.
Qed.

End Sponge.

(** ** Reading byte by byte *)
Definition next (d : state) : state :=
  let rest := set_sponge d (s_a d) (drop 1 (s_buf d)) (s_squeezing d) in
  if (length (s_buf rest) =? 0)%nat then permute rest else rest.

Fixpoint read_bytes (n : nat) (d : state) : bytes * state :=
  match n with
  | O => ([], d)
  | S n => let '(b, d') := read_bytes n (next d) in (take 1 (s_buf d) ++ b, d')
  end.

Lemma read_bytes_add n1 : forall n2 d, read_bytes (n1 + n2) d
  = (fst (read_bytes n1 d) ++ fst (read_bytes n2 (snd (read_bytes n1 d))), snd (read_bytes n2 (snd (read_bytes n1 d)))).
Proof.
  induction n1 as [|n1 IH]; intros n2 d; [cbn; by destruct (read_bytes n2 d)|]. cbn [read_bytes Nat.add]. rewrite IH.
  destruct (read_bytes n1 (next d)) as [b d']. cbn [fst snd]. by rewrite <- app_assoc.
Qed.

(** A state from which one can read. *)
Definition squeezed (d : state) : Prop := s_squeezing d = true /\ (0 < s_rate d)%nat /\ s_buf d <> [].

Lemma permute_squeezed d : s_squeezing d = true -> (0 < s_rate d)%nat -> squeezed (permute d).
Proof.
  intros Hs Hr. unfold permute. rewrite Hs. split_and!; [done..|]. cbn [set_sponge s_buf]. intros E%(f_equal length). rewrite length_copyOut, length_replicate in E. cbn in E. lia.
Qed.

Definition skip (c : nat) (d : state) : state :=
  let rest := set_sponge d (s_a d) (drop c (s_buf d)) (s_squeezing d) in
  if (length (s_buf rest) =? 0)%nat then permute rest else rest.

Lemma skip_squeezed c d : squeezed d -> squeezed (skip c d).
Proof.
  intros (Hs & Hr & _). unfold skip. cbn zeta. destruct (Nat.eqb_spec (length (s_buf (set_sponge d (s_a d) (drop c (s_buf d)) (s_squeezing d)))) 0) as [E|E]; [by apply permute_squeezed|].
  split_and!; [done..|]. intros E'. by rewrite E' in E.
Qed.

Lemma read_bytes_skip c : forall d, squeezed d -> (0 < c <= length (s_buf d))%nat -> read_bytes c d = (take c (s_buf d), skip c d).
Proof.
  induction c as [|c IH]; intros d Hd Hc; [lia|]. cbn [read_bytes]. destruct (s_buf d) as [|x [|y buf]] eqn:Eb; cbn [length] in Hc; [lia|..].
  - assert (c = 0)%nat as -> by lia. unfold skip, next. by rewrite Eb.
  - assert (next d = set_sponge d (s_a d) (y :: buf) (s_squeezing d)) as En by (unfold next; by rewrite Eb).
    destruct c as [|c]; [unfold skip, next; by rewrite Eb|]. rewrite IH.
    + rewrite En. cbn [s_buf set_sponge take app]. f_equal. unfold skip. cbn [s_buf set_sponge s_a s_squeezing s_rate s_dsbyte s_outputLen]. by rewrite Eb.
    + change (squeezed (skip 1 d)). by apply skip_squeezed.
    + rewrite En. cbn in *. lia.
Qed.

Lemma read_loop_bytes fuel : forall d n, squeezed d -> (n < fuel)%nat -> read_loop fuel d n = Some (read_bytes n d).
Proof.
  induction fuel as [|fuel IH]; intros d n Hd Hn; [lia|]. cbn [read_loop]. destruct n as [|n0] eqn:En; [done|]. rewrite <- En in *.
  set (c := Nat.min n (length (s_buf d))). pose proof Hd as (_ & _ & Hne). assert (0 < c <= n /\ c <= length (s_buf d))%nat as Hc by (unfold c; destruct (s_buf d); [done|cbn; lia]).
  fold (skip c d). rewrite IH; [|by apply skip_squeezed|lia]. cbn [mbind option_bind]. replace (read_bytes n d) with (read_bytes (c + (n - c)) d) by (f_equal; lia).
  rewrite read_bytes_add, (read_bytes_skip c d Hd) by lia. done.
Qed.

(** ** The theorems *)
Fixpoint Write_all (d : state) (ps : list bytes) : option (outcome state) :=
  match ps with
  | [] => Some (Ret d)
  | p :: ps => match Write d p with Some (Ret d) => Write_all d ps | r => r end
  end.

Lemma Write_all_ok rate ds ps : (0 < rate)%nat -> forall d m, absorbed rate ds d m ->
  exists d', Write_all d ps = Some (Ret d') /\ absorbed rate ds d' (m ++ concat ps) /\ s_outputLen d' = s_outputLen d.
Proof.
  intros Hr. induction ps as [|p ps IH]; intros d m Hd; [exists d; by rewrite app_nil_r|]. cbn [Write_all concat].
  destruct (Write_ok rate ds Hr d m p Hd) as (d1 & -> & H1 & H2). destruct (IH d1 (m ++ p) H1) as (d2 & -> & H3 & H4).
  exists d2. rewrite <- app_assoc in H3. split_and!; [done..|congruence].
Qed.

Lemma new_absorbed rate n ds : (0 < rate)%nat -> absorbed rate ds (new_state rate n ds) [].
Proof. intros. split_and!; [done..|]. exists [], []. split_and!; [done|constructor|done..]. Qed.

Lemma hash_input rate n ds b : (0 < n < rate)%nat -> exists d, Write (new_state rate n ds) b = Some (Ret d) /\ Sum d = Some (sponge rate ds b n).
Proof.
  intros Hn. destruct (Write_ok rate ds ltac:(lia) (new_state rate n ds) [] b ltac:(apply new_absorbed; lia)) as (d & E & Hd & Ho).
  exists d. split; [done|]. cbn [new_state s_outputLen] in Ho. rewrite <- Ho. apply Sum_ok; [lia|done|lia].
Qed.

(** C31: A hash does not depend on the pieces in which its input is written: the
    sum is the sponge on the padded concatenation, for every rate and output
    length of the package. *)
Theorem hash_streaming rate n ds ps : (0 < n < rate)%nat ->
  exists d, Write_all (new_state rate n ds) ps = Some (Ret d) /\ Sum d = Some (sponge rate ds (concat ps) n).
Proof.
  intros Hn. destruct (Write_all_ok rate ds ps ltac:(lia) (new_state rate n ds) [] ltac:(apply new_absorbed; lia)) as (d & E & Hd & Ho).
  exists d. split; [done|]. cbn [new_state s_outputLen] in Ho. rewrite <- Ho. apply Sum_ok; [lia|done|lia].
Qed.

Lemma read_bytes_squeezed n : forall d, squeezed d -> squeezed (snd (read_bytes n d)).
Proof.
  induction n as [|n IH]; intros d Hd; [done|]. cbn [read_bytes]. specialize (IH (next d) ltac:(change (squeezed (skip 1 d)); by apply skip_squeezed)).
  by destruct (read_bytes n (next d)).
Qed.

(** Reading in two pieces gives the bytes of one reading, and the same state. *)
Theorem Read_split d n1 n2 : squeezed d ->
  exists b1 d1 b2 d2, Read d n1 = Some (b1, d1) /\ Read d1 n2 = Some (b2, d2) /\ Read d (n1 + n2) = Some (b1 ++ b2, d2).
Proof.
  intros Hd. pose proof Hd as [Hs _]. pose proof (read_bytes_squeezed n1 d Hd) as Hd1. pose proof Hd1 as [Hs1 _].
  unfold Read. rewrite Hs, !(read_loop_bytes _ d) by (done || lia). rewrite read_bytes_add. destruct (read_bytes n1 d) as [b1 d1]. cbn [fst snd] in *.
  exists b1, d1. rewrite Hs1, read_loop_bytes by (done || lia). destruct (read_bytes n2 d1) as [b2 d2]. by exists b2, d2.
Qed.

(** ** Keccak-256 as the hash of the rest *)
Definition keccak256 (b : bytes) : bytes := default [] (sum_of_data NewKeccak256 b).

Lemma keccak256_sponge b : keccak256 b = sponge 136 0x01 b 32.
Proof.
  unfold keccak256, sum_of_data. destruct (hash_input 136 32 0x01 b) as (d & E & H); [lia|]. change NewKeccak256 with (new_state 136 32 0x01). by rewrite E, H.
Qed.

Lemma copyOut_bytes a : forall b, is_bytes b -> is_bytes (copyOut a b).
Proof.
  induction a as [|x a IH]; intros b Hb; [done|]. cbn [copyOut]. destruct (_ <? _)%nat; [done|]. apply Forall_app. split; [|by apply IH, Forall_drop].
  unfold put_le. apply Forall_rev, be_bytes.
Qed.

Definition keccak256_lib : KeccakLib := {| keccak := keccak256 |}.
Lemma keccak256_laws : KeccakLaws keccak256_lib.
Proof.
  split; intros b; cbn [keccak keccak256_lib]; rewrite keccak256_sponge; unfold sponge.
  - rewrite length_take, length_copyOut, length_replicate. done.
  - apply Forall_take, copyOut_bytes, Forall_replicate. unfold is_byte. lia.
Qed.

Module Sha3Examples.

Lemma keccakF1600_correct_witness : keccakF1600 (replicate 25 0) = keccak_f (replicate 25 0).
Proof. by apply (keccakF1600_correct (replicate 25 0)). Defined.

Lemma hash_streaming_witness :
  exists d, Write_all (new_state 136 32 0x06) [str_bytes "a"; str_bytes "bc"] = Some (Ret d) /\ Sum d = Some (sponge 136 0x06 (str_bytes "abc") 32).
Proof. apply (hash_streaming 136 32 0x06 [str_bytes "a"; str_bytes "bc"]). lia. Defined.

(** Keccak-256 of nothing and SHA3-256 of "abc". *)
Lemma keccak256_empty : be_uint (keccak256 []) = 0xc5d2460186f7233c927e7db2dcc703c0e500b653ca82273b7bfad8045d85a470.
Proof. by vm_compute. Qed.
Lemma sha3_256_abc : be_uint <$> sum_of_data New256 (str_bytes "abc") = Some 0x3a985da74fe225b2045c172d6bd390bd855f086e3e9d525b46bfe24511431532.
Proof. by vm_compute. Qed.

End Sha3Examples.
