(* ===== verification/Abi.v ===== *)
(** * The encoding of contract calls

    The types of the contract interface, packing and unpacking of arguments
    (accounts/abi: type.go, pack.go, numbers.go, error.go, unpack.go, argument.go),
    and the calls of the chain contract (ligoabi/abi/abi.go).

    A Go value of a type is a value of its denotation.  The parsing of type names,
    the filling of a Go struct by field names and events are not here.

    Shown: what is packed is unpacked to the same values, for all types but those
    whose sizes the code gets wrong; unpacking any bytes as the arguments of a
    call of the chain contract gives values in the ranges of their types or an
    error, and no panic. *)
From S2P Require Import Prelude Rlp RlpDecode Trie VmCode VmPrecompiled TxTypes.
Local Open Scope Z_scope.

(** ** type.go *)
Inductive AType :=
  | IntTy (size : Z)
  | UintTy (size : Z)
  | BoolTy
  | StringTy
  | SliceTy (elem : AType)
  | ArrayTy (size : nat) (elem : AType)
  | TupleTy (elems : ATypes)
  | AddressTy
  | FixedBytesTy (size : nat)
  | BytesTy
  | FunctionTy
with ATypes :=
  | ANil
  | ACons (t : AType) (l : ATypes).

Scheme AType_rect2 := Induction for AType Sort Prop
  with ATypes_rect2 := Induction for ATypes Sort Prop.
Combined Scheme AType_both from AType_rect2, ATypes_rect2.

(** Integers of 8, 16, 32 and 64 bits are machine integers, all others *big.Int. *)
Fixpoint adenote (t : AType) : Type :=
  match t with
  | IntTy _ | UintTy _ => Z
  | BoolTy => bool
  | StringTy | AddressTy | FixedBytesTy _ | BytesTy | FunctionTy => bytes
  | SliceTy e | ArrayTy _ e => list (adenote e)
  | TupleTy l => adenotes l
  end
with adenotes (l : ATypes) : Type :=
  match l with
  | ANil => unit
  | ACons t l => adenote t * adenotes l
  end.

Definition requiresLengthPrefix (t : AType) : bool :=
  match t with StringTy | BytesTy | SliceTy _ => true | _ => false end.

Fixpoint isDynamicType (t : AType) : bool :=
  match t with
  | TupleTy l => anyDynamic l
  | StringTy | BytesTy | SliceTy _ => true
  | ArrayTy _ e => isDynamicType e
  | _ => false
  end
with anyDynamic (l : ATypes) : bool :=
  match l with
  | ANil => false
  | ACons t l => isDynamicType t || anyDynamic l
  end.

Definition is_array (t : AType) : bool := match t with ArrayTy _ _ => true | _ => false end.
Definition is_slice (t : AType) : bool := match t with SliceTy _ => true | _ => false end.
Definition is_tuple (t : AType) : bool := match t with TupleTy _ => true | _ => false end.

Fixpoint getTypeSize (t : AType) : Z :=
  match t with
  | ArrayTy n e =>
    if isDynamicType e then 32
    else if is_array e then Z.of_nat n * getTypeSize e
    else Z.of_nat n * 32
  | TupleTy l => if anyDynamic l then 32 else sumSizes l
  | _ => 32
  end
with sumSizes (l : ATypes) : Z :=
  match l with
  | ANil => 0
  | ACons t l => getTypeSize t + sumSizes l
  end.

(** ** pack.go and numbers.go *)
Definition abi_U256 (n : Z) : bytes := PaddedBigBytes (n mod 2 ^ 256) 32.
Definition packNum (value : Z) : bytes := abi_U256 value.

Definition packBytesSlice (b : bytes) (l : nat) : bytes := packNum (Z.of_nat l) ++ RightPadBytes b ((l + 31) / 32 * 32).

Definition packElement (t : AType) : adenote t -> outcome bytes :=
  match t as t return adenote t -> outcome bytes with
  | IntTy _ | UintTy _ => fun v => Ret (packNum v)
  | StringTy | BytesTy => fun v => Ret (packBytesSlice v (length v))
  | AddressTy => fun v => Ret (LeftPadBytes v 32)
  | BoolTy => fun v => Ret (if v then PaddedBigBytes 1 32 else PaddedBigBytes 0 32)
  | FixedBytesTy _ | FunctionTy => fun v => Ret (RightPadBytes v 32)
  | _ => fun _ => Panic "abi: fatal error"
  end.

(** ** error.go: what the types of the values leave to check are lengths. *)
Definition typeErr {A} : TM A := raise "abi: cannot use as type as argument".

Fixpoint sliceTypeCheck (t : AType) : adenote t -> TM unit :=
  match t as t return adenote t -> TM unit with
  | SliceTy e => fun val =>
    if is_slice e then match val with v :: _ => sliceTypeCheck e v | [] => mret tt end
    else if is_array e then match val with v :: _ => sliceTypeCheck e v | [] => Panic "reflect: slice index out of range" end
    else mret tt
  | ArrayTy size e => fun val =>
    if negb (length val =? size)%nat then typeErr
    else if is_slice e then match val with v :: _ => sliceTypeCheck e v | [] => mret tt end
    else if is_array e then match val with v :: _ => sliceTypeCheck e v | [] => Panic "reflect: slice index out of range" end
    else mret tt
  | _ => fun _ => typeErr
  end.

Definition typeCheck (t : AType) : adenote t -> TM unit :=
  match t as t return adenote t -> TM unit with
  | SliceTy e => sliceTypeCheck (SliceTy e)
  | ArrayTy n e => sliceTypeCheck (ArrayTy n e)
  | FixedBytesTy size => fun v => if negb (size =? length v)%nat then typeErr else mret tt
  | _ => fun _ => mret tt
  end.

(** ** Type.pack *)

(** The loop over the elements of an array or slice. *)
Fixpoint pack_elems {A} (pack : A -> TM bytes) (offsetReq : bool) (l : list A) (offset : Z) (ret tail : bytes) : TM bytes :=
  match l with
  | [] => mret (ret ++ tail)
  | v :: l =>
    val ← pack v;
    if offsetReq then pack_elems pack offsetReq l (offset + Z.of_nat (length val)) (ret ++ packNum offset) (tail ++ val)
    else pack_elems pack offsetReq l offset (ret ++ val) tail
  end.

Fixpoint pack (t : AType) : adenote t -> TM bytes :=
  match t as t return adenote t -> TM bytes with
  | SliceTy e => fun v =>
    typeCheck (SliceTy e) v;;
    pack_elems (pack e) (isDynamicType e) v (if isDynamicType e then getTypeSize e * Z.of_nat (length v) else 0) (packNum (Z.of_nat (length v))) []
  | ArrayTy n e => fun v =>
    typeCheck (ArrayTy n e) v;;
    pack_elems (pack e) (isDynamicType e) v (if isDynamicType e then getTypeSize e * Z.of_nat (length v) else 0) [] []
  | TupleTy l => fun v => pack_fields l v (sumSizes l) [] []
  | t => fun v => typeCheck t v;; liftT (packElement t v)
  end
with pack_fields (l : ATypes) : adenotes l -> Z -> bytes -> bytes -> TM bytes :=
  match l as l return adenotes l -> Z -> bytes -> bytes -> TM bytes with
  | ANil => fun _ _ ret tail => mret (ret ++ tail)
  | ACons t l => fun v offset ret tail =>
    val ← pack t (fst v);
    if isDynamicType t then pack_fields l (snd v) (offset + Z.of_nat (length val)) (ret ++ packNum offset) (tail ++ val)
    else pack_fields l (snd v) offset (ret ++ val) tail
  end.

(** ** unpack.go *)
Definition MaxUint256 : Z := 2 ^ 256 - 1.
Definition MaxInt256 : Z := 2 ^ 255 - 1.

(** The conversion to a signed integer of [n] bits. *)
Definition sint (n z : Z) : Z := (z + 2 ^ (n - 1)) mod 2 ^ n - 2 ^ (n - 1).

Definition machine_size (size : Z) : bool := (size =? 8) || (size =? 16) || (size =? 32) || (size =? 64).

Definition ReadInteger (signed : bool) (size : Z) (b : bytes) : Z :=
  if machine_size size then
    let x := be_uint (drop (length b - Z.to_nat (size / 8)) b) in
    if signed then sint size x else x
  else
    let ret := be_uint b in
    if negb signed then ret
    else if MaxInt256 <? ret then - (MaxUint256 + - ret + 1) else ret.

Definition errBadBool : string := "abi: improperly encoded boolean value".

Definition readBool (word : bytes) : result string bool :=
  if negb (forallb (fun b => b =? 0) (take 31 word)) then Err errBadBool
  else match word !! 31%nat with
       | Some 0 => Ok false
       | Some 1 => Ok true
       | _ => Err errBadBool
       end.

Definition readFunctionType (word : bytes) : result string bytes :=
  if negb (be_uint (take 8 (drop 24 word)) =? 0) then Err "abi: got improperly encoded function type"%string
  else Ok (take 24 word).

(** [word[0:size]] reaches beyond the 32 bytes of the word as far as the data does. *)
Definition ReadFixedBytes (size : nat) (index : Z) (output : bytes) : outcome bytes :=
  slice_range output index (index + Z.of_nat size).

Definition lengthPrefixPointsTo (index : Z) (output : bytes) : TM (Z * Z) :=
  word ← liftT (slice_range output index (index + 32));
  let bigOffsetEnd := be_uint word + 32 in
  let outputLength := Z.of_nat (length output) in
  if outputLength <? bigOffsetEnd then raise "abi: cannot marshal in to go slice"
  else if 63 <? BitLen bigOffsetEnd then raise "abi offset larger than int64"
  else
    lengthWord ← liftT (slice_range output (bigOffsetEnd - 32) bigOffsetEnd);
    let lengthBig := be_uint lengthWord in
    let totalSize := bigOffsetEnd + lengthBig in
    if 63 <? BitLen totalSize then raise "abi: length larger than int64"
    else if outputLength <? totalSize then raise "abi: cannot marshal in to go type: length insufficient"
    else mret (bigOffsetEnd, lengthBig).

Definition tuplePointsTo (index : Z) (output : bytes) : TM Z :=
  word ← liftT (slice_range output index (index + 32));
  let offset := be_uint word in
  if Z.of_nat (length output) <? offset then raise "abi: cannot marshal in to go slice"
  else if 63 <? BitLen offset then raise "abi offset larger than int64"
  else mret offset.

(** [output[i:]] *)
Definition slice_from (output : bytes) (i : Z) : outcome bytes := slice_range output i (Z.of_nat (length output)).

(** The loop of forEachUnpack. *)
Fixpoint for_each {A} (read : Z -> TM A) (elemSize i : Z) (size : nat) : TM (list A) :=
  match size with
  | O => mret []
  | S size =>
    inter ← read i;
    l ← for_each read elemSize (i + elemSize) size;
    mret (inter :: l)
  end.

Definition forEachUnpack {A} (read : Z -> bytes -> TM A) (elemSize : Z) (output : bytes) (start size : Z) : TM (list A) :=
  if size <? 0 then raise "cannot marshal input to array, size is negative"
  else if Z.of_nat (length output) <? start + 32 * size then raise "abi: cannot marshal in to go array"
  else for_each (fun i => read i output) elemSize start (Z.to_nat size).

(** The words beyond the first that an argument takes in the head. *)
Definition virtual (t : AType) : Z :=
  if (is_array t || is_tuple t) && negb (isDynamicType t) then getTypeSize t / 32 - 1 else 0.

Fixpoint toGoType (t : AType) (index : Z) (output : bytes) : TM (adenote t) :=
  if Z.of_nat (length output) <? index + 32 then raise "abi: cannot marshal in to go type: length insufficient"
  else
    match t as t return TM (adenote t) with
    | TupleTy l =>
      if anyDynamic l then
        begin ← tuplePointsTo index output;
        rest ← liftT (slice_from output begin);
        forTupleUnpack l 0 0 rest
      else
        rest ← liftT (slice_from output index);
        forTupleUnpack l 0 0 rest
    | SliceTy e =>
      p ← lengthPrefixPointsTo index output;
      rest ← liftT (slice_from output (fst p));
      forEachUnpack (toGoType e) (getTypeSize e) rest 0 (snd p)
    | ArrayTy n e =>
      word ← liftT (slice_range output index (index + 32));
      if isDynamicType e then
        rest ← liftT (slice_from output (i64 (be_uint (drop 24 word))));
        forEachUnpack (toGoType e) (getTypeSize e) rest 0 (Z.of_nat n)
      else
        rest ← liftT (slice_from output index);
        forEachUnpack (toGoType e) (getTypeSize e) rest 0 (Z.of_nat n)
    | StringTy | BytesTy =>
      p ← lengthPrefixPointsTo index output;
      liftT (slice_range output (fst p) (fst p + snd p))
    | IntTy size => word ← liftT (slice_range output index (index + 32)); mret (ReadInteger true size word)
    | UintTy size => word ← liftT (slice_range output index (index + 32)); mret (ReadInteger false size word)
    | BoolTy => word ← liftT (slice_range output index (index + 32)); Ret (readBool word)
    | AddressTy => word ← liftT (slice_range output index (index + 32)); mret (BytesToAddress word)
    | FixedBytesTy size => liftT (ReadFixedBytes size index output)
    | FunctionTy => word ← liftT (slice_range output index (index + 32)); Ret (readFunctionType word)
    end
with forTupleUnpack (l : ATypes) (index virtualArgs : Z) (output : bytes) : TM (adenotes l) :=
  match l as l return TM (adenotes l) with
  | ANil => mret tt
  | ACons t l =>
    marshalledValue ← toGoType t ((index + virtualArgs) * 32) output;
    rest ← forTupleUnpack l (index + 1) (virtualArgs + virtual t) output;
    mret (marshalledValue, rest)
  end.

(** ** argument.go: the arguments of a call, none of them indexed *)
Definition UnpackValues (arguments : ATypes) (data : bytes) : TM (adenotes arguments) := forTupleUnpack arguments 0 0 data.
Definition Arguments_Pack (arguments : ATypes) (args : adenotes arguments) : TM bytes := pack_fields arguments args (sumSizes arguments) [] [].

(** ** The values of a type *)
Fixpoint awt (t : AType) : adenote t -> Prop :=
  match t as t return adenote t -> Prop with
  | IntTy n => fun v => if machine_size n then - 2 ^ (n - 1) <= v < 2 ^ (n - 1) else - 2 ^ 255 <= v < 2 ^ 255
  | UintTy n => fun v => if machine_size n then 0 <= v < 2 ^ n else 0 <= v < 2 ^ 256
  | BoolTy => fun _ => True
  | StringTy | BytesTy => fun v => is_bytes v
  | AddressTy => fun v => is_bytes v /\ length v = HashLength
  | FixedBytesTy n => fun v => is_bytes v /\ length v = n
  | FunctionTy => fun v => is_bytes v /\ length v = 24%nat
  | SliceTy e => fun v => Forall (awt e) v
  | ArrayTy n e => fun v => length v = n /\ Forall (awt e) v
  | TupleTy l => awts l
  end
with awts (l : ATypes) : adenotes l -> Prop :=
  match l as l return adenotes l -> Prop with
  | ANil => fun _ => True
  | ACons t l => fun v => awt t (fst v) /\ awts l (snd v)
  end.

(** The types whose values take the place that [getTypeSize] says, and at least a
    word: no array of static tuples of several words, no empty array or tuple. *)
Fixpoint regular (t : AType) : bool :=
  match t with
  | FixedBytesTy n => (n <=? 32)%nat
  | SliceTy e => regular e
  | ArrayTy n e => negb (n =? 0)%nat && regular e && (isDynamicType e || is_array e || (getTypeSize e =? 32))
  | TupleTy l => negb (bool_decide (sumSizes l = 0)) && regulars l
  | _ => true
  end
with regulars (l : ATypes) : bool :=
  match l with
  | ANil => true
  | ACons t l => regular t && regulars l
  end.

(** The check of an empty slice of arrays panics. *)
Fixpoint packable (t : AType) : adenote t -> Prop :=
  match t as t return adenote t -> Prop with
  | SliceTy e => fun v => (is_array e = true -> v <> []) /\ Forall (packable e) v
  | ArrayTy n e => fun v => Forall (packable e) v
  | TupleTy l => packables l
  | _ => fun _ => True
  end
with packables (l : ATypes) : adenotes l -> Prop :=
  match l as l return adenotes l -> Prop with
  | ANil => fun _ => True
  | ACons t l => fun v => packable t (fst v) /\ packables l (snd v)
  end.

(** ** Numbers *)
Lemma packNum_be z : packNum z = be 32 (z mod 2 ^ 256).
Proof.
  unfold packNum, abi_U256. pose proof (Z.mod_pos_bound z (2 ^ 256) ltac:(lia)) as H. destruct (decide (z mod 2 ^ 256 = 0)) as [->|Hz]; [done|].
  apply PaddedBigBytes_be. lia.
Qed.

Lemma length_packNum z : length (packNum z) = 32%nat.
Proof. rewrite packNum_be. apply length_be. Qed.

Lemma be_uint_packNum z : be_uint (packNum z) = z mod 2 ^ 256.
Proof. rewrite packNum_be, be_uint_be. change (8 * Z.of_nat 32) with 256. apply Z.mod_mod. lia. Qed.

Lemma be_uint_packNum_small z : 0 <= z < 2 ^ 256 -> be_uint (packNum z) = z.
Proof. intros. rewrite be_uint_packNum. by apply Z.mod_small. Qed.

Lemma be_drop n m x : drop n (be (n + m) x) = be m x.
Proof. induction n as [|n IH]; [done|]. exact IH. Qed.

Lemma packNum_low k z : (k <= 32)%nat -> be_uint (drop (length (packNum z) - k) (packNum z)) = z mod 2 ^ (8 * Z.of_nat k).
Proof.
  intros Hk. rewrite length_packNum, packNum_be. replace 32%nat with (32 - k + k)%nat at 2 by lia. rewrite be_drop, be_uint_be.
  rewrite Z.mod_mod_divide; [done|]. exists (2 ^ (256 - 8 * Z.of_nat k)).
  rewrite <- Z.pow_add_r by lia. f_equal. lia.
Qed.

Lemma sint_mod n v : 0 < n -> - 2 ^ (n - 1) <= v < 2 ^ (n - 1) -> sint n (v mod 2 ^ n) = v.
Proof.
  intros Hn Hv. unfold sint. assert (2 ^ n = 2 * 2 ^ (n - 1)) as E by (rewrite <- Z.pow_succ_r by lia; f_equal; lia).
  rewrite Zplus_mod_idemp_l, Z.mod_small by lia. lia.
Qed.

Lemma machine_sizes n : machine_size n = true -> n = 8 \/ n = 16 \/ n = 32 \/ n = 64.
Proof. unfold machine_size. rewrite !orb_true_iff, !Z.eqb_eq. lia. Qed.

Lemma ReadInteger_uint n v : awt (UintTy n) v -> ReadInteger false n (packNum v) = v.
Proof.
  cbn [awt]. unfold ReadInteger. destruct (machine_size n) eqn:E; [|intros; by apply be_uint_packNum_small].
  intros Hv. apply machine_sizes in E as [-> | [-> | [-> | ->]]]; (rewrite packNum_low by (apply (bool_decide_unpack _); by vm_compute)); by apply Z.mod_small.
Qed.

Lemma ReadInteger_int n v : awt (IntTy n) v -> ReadInteger true n (packNum v) = v.
Proof.
  cbn [awt]. unfold ReadInteger. destruct (machine_size n) eqn:E.
  - intros Hv. apply machine_sizes in E as [-> | [-> | [-> | ->]]]; (rewrite packNum_low by (apply (bool_decide_unpack _); by vm_compute)); by apply sint_mod.
  - intros Hv. cbn [negb]. rewrite be_uint_packNum. unfold MaxInt256, MaxUint256. destruct (Z.ltb_spec v 0).
    + replace (v mod 2 ^ 256) with (v + 2 ^ 256) by (rewrite <- (Z.mod_small (v + 2 ^ 256) (2 ^ 256)) by lia; rewrite <- (Z_mod_plus_full v 1 (2 ^ 256)); f_equal; lia).
      rewrite (proj2 (Z.ltb_lt _ _)) by lia. lia.
    + rewrite Z.mod_small by lia. by rewrite (proj2 (Z.ltb_ge _ _)) by lia.
Qed.

(** ** Places in the data *)
Definition placed_at (o : bytes) (k : Z) (b : bytes) : Prop := exists pre post, o = pre ++ b ++ post /\ Z.of_nat (length pre) = k.

Lemma placed_bounds o k b : placed_at o k b -> 0 <= k /\ k + Z.of_nat (length b) <= Z.of_nat (length o).
Proof. intros (pre & post & -> & <-). rewrite !length_app. lia. Qed.

Lemma slice_range_at o k b : placed_at o k b -> slice_range o k (k + Z.of_nat (length b)) = Ret b.
Proof.
  intros H. pose proof (placed_bounds _ _ _ H). unfold slice_range. rewrite bool_decide_true by lia.
  destruct H as (pre & post & -> & <-). rewrite Nat2Z.id, Z.add_simpl_l, Nat2Z.id, drop_app_length. by rewrite take_app_length.
Qed.

Lemma slice_from_at o k b : placed_at o k b -> exists post, slice_from o k = Ret (b ++ post) /\ (length (b ++ post) <= length o)%nat.
Proof.
  intros H. pose proof (placed_bounds _ _ _ H). unfold slice_from, slice_range. rewrite bool_decide_true by lia.
  destruct H as (pre & post & -> & <-). exists post. rewrite Nat2Z.id, drop_app_length, take_ge; [|rewrite !length_app; lia].
  split; [done|]. rewrite !length_app. lia.
Qed.

Lemma placed_app o k b1 b2 : placed_at o k (b1 ++ b2) -> placed_at o k b1 /\ placed_at o (k + Z.of_nat (length b1)) b2.
Proof.
  intros (pre & post & -> & <-). split; [by exists pre, (b2 ++ post); rewrite <- app_assoc|].
  exists (pre ++ b1), post. rewrite <- !app_assoc, length_app. split; [done|lia].
Qed.

Lemma slice_word o k b : length b = 32%nat -> placed_at o k b -> slice_range o k (k + 32) = Ret b.
Proof. intros Hb H. apply slice_range_at in H. by rewrite Hb in H. Qed.

(** A value in the head, or behind an offset in it. *)
Definition placed (o : bytes) (k : Z) (d : bool) (b : bytes) : Prop :=
  if d then exists off, placed_at o k (packNum off) /\ placed_at o off b else placed_at o k b.

(** ** The parts of a sequence *)
Abbreviation parts := (list (bool * bytes)).

Definition part_size (p : bool * bytes) : Z := if fst p then 32 else Z.of_nat (length (snd p)).
Fixpoint head_len (ps : parts) : Z := match ps with [] => 0 | p :: ps => part_size p + head_len ps end.

Fixpoint heads (off : Z) (ps : parts) : bytes :=
  match ps with
  | [] => []
  | (true, b) :: ps => packNum off ++ heads (off + Z.of_nat (length b)) ps
  | (false, b) :: ps => b ++ heads off ps
  end.
Fixpoint tails (ps : parts) : bytes :=
  match ps with
  | [] => []
  | (true, b) :: ps => b ++ tails ps
  | (false, _) :: ps => tails ps
  end.
Definition seq_enc (ps : parts) : bytes := heads (head_len ps) ps ++ tails ps.

Fixpoint all_placed (o : bytes) (k : Z) (ps : parts) : Prop :=
  match ps with
  | [] => True
  | p :: ps => placed o k (fst p) (snd p) /\ all_placed o (k + part_size p) ps
  end.

Lemma length_heads ps : forall off, Z.of_nat (length (heads off ps)) = head_len ps.
Proof.
  induction ps as [|[[] b] ps IH]; intros off; [done|..]; cbn [heads head_len part_size fst snd]; rewrite length_app, Nat2Z.inj_add, IH; [|lia].
  by rewrite length_packNum.
Qed.

Lemma heads_static ps : Forall (fun p => fst p = false) ps -> forall off off', heads off ps = heads off' ps.
Proof. induction 1 as [|[[] b] ps E _ IH]; intros off off'; [done|done|]. cbn [heads]. f_equal. apply IH. Qed.

Lemma parts_placed ps : forall H T post,
  all_placed (H ++ heads (Z.of_nat (length H) + head_len ps + Z.of_nat (length T)) ps ++ T ++ tails ps ++ post) (Z.of_nat (length H)) ps.
Proof.
  induction ps as [|[d b] ps IH]; intros H T post; [done|]. cbn [all_placed fst snd].
  destruct d; cbn [placed heads tails head_len part_size fst snd]; split.
  - set (off := _ + _). exists off. split.
    + exists H, (heads (off + Z.of_nat (length b)) ps ++ T ++ (b ++ tails ps) ++ post). split; [by rewrite <- app_assoc|done].
    + exists (H ++ packNum off ++ heads (off + Z.of_nat (length b)) ps ++ T), (tails ps ++ post). split; [by rewrite <- !app_assoc|].
      rewrite !length_app, !Nat2Z.inj_add, length_heads, length_packNum. unfold off. lia.
  - set (off := _ + _). specialize (IH (H ++ packNum off) (T ++ b) post). rewrite !length_app, !Nat2Z.inj_add, length_packNum in IH.
    replace (Z.of_nat (length H) + Z.of_nat 32 + head_len ps + (Z.of_nat (length T) + Z.of_nat (length b))) with (off + Z.of_nat (length b)) in IH by (unfold off; lia).
    change (Z.of_nat 32) with 32 in IH. by rewrite <- !app_assoc in *.
  - eexists H, _. by rewrite <- app_assoc.
  - specialize (IH (H ++ b) T post). rewrite !length_app, !Nat2Z.inj_add in IH.
    replace (Z.of_nat (length H) + (Z.of_nat (length b) + head_len ps)) with (Z.of_nat (length H) + Z.of_nat (length b) + head_len ps) by lia.
    by rewrite <- !app_assoc in *.
Qed.

Lemma seq_placed ps post : all_placed (seq_enc ps ++ post) 0 ps.
Proof. pose proof (parts_placed ps [] [] post) as H. cbn [length Z.of_nat app] in H. unfold seq_enc. rewrite Z.add_0_l, Z.add_0_r in H. by rewrite <- app_assoc. Qed.

Lemma length_seq_enc ps : head_len ps <= Z.of_nat (length (seq_enc ps)).
Proof. unfold seq_enc. rewrite length_app, Nat2Z.inj_add, length_heads. lia. Qed.

(** ** The encoding *)
Definition the_bytes (m : outcome bytes) : bytes := match m with Ret b => b | Panic _ => [] end.

Fixpoint aenc (t : AType) : adenote t -> bytes :=
  match t as t return adenote t -> bytes with
  | SliceTy e => fun v => packNum (Z.of_nat (length v)) ++ seq_enc (map (fun x => (isDynamicType e, aenc e x)) v)
  | ArrayTy n e => fun v => seq_enc (map (fun x => (isDynamicType e, aenc e x)) v)
  | TupleTy l => fun v => seq_enc (aparts l v)
  | t => fun v => the_bytes (packElement t v)
  end
with aparts (l : ATypes) : adenotes l -> parts :=
  match l as l return adenotes l -> parts with
  | ANil => fun _ => []
  | ACons t l => fun v => (isDynamicType t, aenc t (fst v)) :: aparts l (snd v)
  end.

Abbreviation elems e v := (map (fun x => (isDynamicType e, aenc e x)) v).

(** ** Sizes *)
Lemma dynamic_size t : isDynamicType t = true -> getTypeSize t = 32.
Proof. destruct t; cbn; try done; by intros ->. Qed.

Lemma regular_sizes :
  (forall t, regular t = true -> 32 <= getTypeSize t /\ (32 | getTypeSize t)) /\
  (forall l, regulars l = true -> 0 <= sumSizes l /\ (32 | sumSizes l)).
Proof.
  apply AType_both; cbn [regular regulars getTypeSize sumSizes]; try (intros; split; [lia|apply Z.divide_refl]).
  - intros n e IH. rewrite !andb_true_iff, negb_true_iff, Nat.eqb_neq. intros [[Hn He] _]. destruct (IH He) as [H1 H2].
    destruct (isDynamicType e); [split; [lia|apply Z.divide_refl]|]. destruct (is_array e); (split; [nia|]); [by apply Z.divide_mul_r|by exists (Z.of_nat n)].
  - intros l IH. rewrite andb_true_iff, negb_true_iff, bool_decide_eq_false. intros [Hl Hr]. destruct (IH Hr) as [H1 H2].
    destruct (anyDynamic l); [split; [lia|apply Z.divide_refl]|]. split; [|done]. apply Z.divide_pos_le; [lia|done].
  - intros _. split; [lia|apply Z.divide_0_r].
  - intros t IHt l IHl [Ht Hl]%andb_true_iff. destruct (IHt Ht), (IHl Hl). split; [lia|by apply Z.divide_add_r].
Qed.

Lemma size_words t : regular t = true -> 32 * (1 + virtual t) = getTypeSize t.
Proof.
  intros Hr. destruct (proj1 regular_sizes t Hr) as [_ [q Hq]]. unfold virtual. destruct ((is_array t || is_tuple t) && negb (isDynamicType t)) eqn:E.
  - rewrite Hq, Z.div_mul by lia. lia.
  - destruct t; try done; cbn in E; apply negb_false_iff in E; by rewrite dynamic_size.
Qed.

Lemma tails_static ps : Forall (fun p => fst p = false) ps -> tails ps = [].
Proof. by induction 1 as [|[[] b] ps E _ IH]. Qed.

Lemma static_elems e (v : list (adenote e)) : isDynamicType e = false -> Forall (fun p => fst p = false) (elems e v).
Proof. intros E. apply Forall_fmap, Forall_true. intros x. exact E. Qed.

Lemma head_len_elems e (v : list (adenote e)) s : Forall (fun x => part_size (isDynamicType e, aenc e x) = s) v -> head_len (elems e v) = Z.of_nat (length v) * s.
Proof. induction 1 as [|x v E _ IH]; [done|]. cbn [map head_len length]. rewrite E, IH. lia. Qed.

Lemma length_element t v : match t with SliceTy _ | ArrayTy _ _ | TupleTy _ => False | _ => True end -> regular t = true -> awt t v ->
  isDynamicType t = false -> length (aenc t v) = 32%nat.
Proof.
  destruct t; cbn [regular awt isDynamicType aenc packElement the_bytes]; intros H Hr Hv E; try done; try apply length_packNum.
  - by destruct v.
  - destruct Hv as [_ Hv]. unfold LeftPadBytes. rewrite length_app, length_replicate, Hv. done.
  - destruct Hv as [_ Hv]. apply Nat.leb_le in Hr. unfold RightPadBytes. rewrite length_app, length_replicate, Hv. lia.
  - destruct Hv as [_ Hv]. unfold RightPadBytes. rewrite length_app, length_replicate, Hv. done.
Qed.

Lemma static_sizes :
  (forall t v, regular t = true -> awt t v -> isDynamicType t = false -> Z.of_nat (length (aenc t v)) = getTypeSize t) /\
  (forall l v, regulars l = true -> awts l v -> head_len (aparts l v) = sumSizes l /\ (anyDynamic l = false -> Forall (fun p => fst p = false) (aparts l v))).
Proof.
  apply AType_both; try (intros; rewrite length_element; done).
  - intros n e IH v. cbn [regular awt isDynamicType aenc getTypeSize]. rewrite !andb_true_iff. intros [[_ He] Ho] [Hn Hv] E.
    assert (Z.of_nat (length (seq_enc (elems e v))) = Z.of_nat n * getTypeSize e) as ->.
    { unfold seq_enc. rewrite length_app, tails_static, Nat.add_0_r, length_heads by by apply static_elems. rewrite <- Hn. apply head_len_elems.
      eapply Forall_impl; [exact Hv|]. intros x Hx. unfold part_size. cbn [fst snd]. rewrite E. by apply IH. }
    rewrite E in *. destruct (is_array e); [done|]. apply Z.eqb_eq in Ho. by rewrite Ho.
  - intros l IH v. cbn [regular awt isDynamicType aenc getTypeSize]. rewrite andb_true_iff. intros [_ Hl] Hv E. destruct (IH v Hl Hv) as [H1 H2]. rewrite E.
    unfold seq_enc. by rewrite length_app, tails_static, Nat.add_0_r, length_heads by auto.
  - intros v _ _. split; [done|]. intros _. constructor.
  - intros t IHt l IHl v. cbn [regulars awts aparts sumSizes head_len anyDynamic]. intros [Ht Hl]%andb_true_iff [Vt Vl]. destruct (IHl _ Hl Vl) as [H1 H2].
    split; [|intros [E1 E2]%orb_false_iff; constructor; [done|auto]]. rewrite H1. f_equal. unfold part_size. cbn [fst snd].
    destruct (isDynamicType t) eqn:E; [by rewrite dynamic_size|auto].
Qed.

Lemma part_size_ok t v : regular t = true -> awt t v -> part_size (isDynamicType t, aenc t v) = getTypeSize t.
Proof.
  intros Hr Hv. unfold part_size. cbn [fst snd]. destruct (isDynamicType t) eqn:E; [by rewrite dynamic_size|by apply static_sizes].
Qed.

Lemma head_len_ok e (v : list (adenote e)) : regular e = true -> Forall (awt e) v -> head_len (elems e v) = Z.of_nat (length v) * getTypeSize e.
Proof. intros Hr Hv. apply head_len_elems. eapply Forall_impl; [exact Hv|]. intros x Hx. by apply part_size_ok. Qed.

(** ** Packing *)
Lemma sliceTypeCheck_ok t : forall v, is_slice t || is_array t = true -> regular t = true -> awt t v -> packable t v -> sliceTypeCheck t v = Ret (Ok tt).
Proof.
  induction t as [| | | |e IH|n e IH| | | | |]; intros v H Hr Hv Hp; try done; cbn [sliceTypeCheck regular awt packable] in *.
  - destruct Hp as [Hne Hp]. destruct (is_slice e) eqn:Es; [|destruct (is_array e) eqn:Ea; [|done]].
    + destruct v as [|x v]; [done|]. apply Forall_inv in Hv, Hp. by apply IH.
    + destruct v as [|x v]; [by destruct (Hne eq_refl)|]. apply Forall_inv in Hv, Hp. by apply IH.
  - rewrite !andb_true_iff in Hr. destruct Hr as [[Hn Hr] _], Hv as [Hl Hv]. rewrite Hl, Nat.eqb_refl. cbn [negb].
    destruct v as [|x v]; [by rewrite <- Hl in Hn|]. apply Forall_inv in Hv, Hp.
    destruct (is_slice e) eqn:Es; [|destruct (is_array e) eqn:Ea; [|done]]; by apply IH.
Qed.

Lemma pack_elems_ok {A} (pk : A -> TM bytes) (enc : A -> bytes) d l : Forall (fun x => pk x = Ret (Ok (enc x))) l ->
  forall off ret tail, pack_elems pk d l off ret tail
    = Ret (Ok (ret ++ heads off (map (fun x => (d, enc x)) l) ++ tail ++ tails (map (fun x => (d, enc x)) l))).
Proof.
  induction 1 as [|x l E _ IH]; intros off ret tail; cbn [pack_elems map].
  - cbn [heads tails]. by rewrite app_nil_r.
  - rewrite (TM_bind_Ok _ _ _ E). destruct d; cbn [heads tails]; rewrite IH; by rewrite <- !app_assoc.
Qed.

Lemma pack_elems_enc e v pre : regular e = true -> Forall (awt e) v -> Forall (fun x => pack e x = Ret (Ok (aenc e x))) v ->
  pack_elems (pack e) (isDynamicType e) v (if isDynamicType e then getTypeSize e * Z.of_nat (length v) else 0) pre [] = Ret (Ok (pre ++ seq_enc (elems e v))).
Proof.
  intros Hr Hv Hp. rewrite (pack_elems_ok _ _ _ _ Hp). unfold seq_enc. cbn [app]. do 4 f_equal.
  destruct (isDynamicType e) eqn:E; [|apply heads_static, Forall_fmap, Forall_true; done].
  f_equal. rewrite <- E, head_len_ok by done. lia.
Qed.

Lemma pack_ok :
  (forall t v, regular t = true -> awt t v -> packable t v -> pack t v = Ret (Ok (aenc t v))) /\
  (forall l v, regulars l = true -> awts l v -> packables l v -> forall off ret tail,
    pack_fields l v off ret tail = Ret (Ok (ret ++ heads off (aparts l v) ++ tail ++ tails (aparts l v)))).
Proof.
  apply AType_both; try done.
  - intros e IH v Hr Hv Hp. cbn [pack]. rewrite TM_bind_Ok with (a := tt) by (by apply sliceTypeCheck_ok).
    cbn [regular awt packable] in *. destruct Hp as [_ Hp]. rewrite pack_elems_enc; [done|done|done|]. rewrite Forall_forall in *. intros x Hx. apply IH; [done|by apply Hv|by apply Hp].
  - intros n e IH v Hr Hv Hp. cbn [pack]. rewrite TM_bind_Ok with (a := tt) by (by apply sliceTypeCheck_ok).
    cbn [regular awt packable] in *. rewrite !andb_true_iff in Hr. destruct Hr as [[_ Hr] _], Hv as [_ Hv].
    rewrite pack_elems_enc; [done|done|done|]. rewrite Forall_forall in *. intros x Hx. apply IH; [done|by apply Hv|by apply Hp].
  - intros l IH v. cbn [regular awt packable pack aenc]. intros [_ Hr]%andb_true_iff Hv Hp. rewrite IH by done. unfold seq_enc. cbn [app].
    by rewrite (proj1 (proj2 static_sizes l v Hr Hv)).
  - intros n v Hr [_ Hv] _. cbn [pack typeCheck]. rewrite Hv, Nat.eqb_refl. done.
  - intros v _ _ _ off ret tail. cbn. by rewrite app_nil_r.
  - intros t IHt l IHl [v vs]. cbn [regulars awts packables pack_fields aparts fst snd]. intros [Ht Hl]%andb_true_iff [Vt Vl] [Pt Pl] off ret tail.
    rewrite (TM_bind_Ok _ _ _ (IHt v Ht Vt Pt)). destruct (isDynamicType t); cbn [heads tails]; rewrite IHl by done; by rewrite <- !app_assoc.
Qed.

Lemma Arguments_Pack_ok l v : regulars l = true -> awts l v -> packables l v -> Arguments_Pack l v = Ret (Ok (seq_enc (aparts l v))).
Proof.
  intros Hr Hv Hp. unfold Arguments_Pack. rewrite (proj2 pack_ok) by done. cbn [app]. unfold seq_enc. by rewrite (proj1 (proj2 static_sizes l v Hr Hv)).
Qed.

(** ** Unpacking what was packed *)
Lemma placed_guard t v o k : regular t = true -> awt t v -> placed o k (isDynamicType t) (aenc t v) -> 0 <= k /\ k + 32 <= Z.of_nat (length o).
Proof.
  intros Hr Hv. destruct (isDynamicType t) eqn:E; cbn [placed].
  - intros (off & H%placed_bounds & _). rewrite length_packNum in H. lia.
  - intros H%placed_bounds. rewrite (proj1 static_sizes) in H by done. pose proof (proj1 regular_sizes t Hr). lia.
Qed.

Lemma offset_read o k off b : placed_at o k (packNum off) -> placed_at o off b -> Z.of_nat (length o) < 2 ^ 63 ->
  slice_range o k (k + 32) = Ret (packNum off) /\ be_uint (packNum off) = off /\ 0 <= off /\ off + Z.of_nat (length b) <= Z.of_nat (length o).
Proof.
  intros H1 H2 Hl. apply placed_bounds in H2. split_and!; [by apply slice_word, H1; apply length_packNum| |lia..].
  apply be_uint_packNum_small. lia.
Qed.

Lemma liftT_Ret_bind {A B} (a : A) (f : A -> TM B) : (x ← liftT (Ret a); f x) = f a.
Proof. done. Qed.

Lemma lengthPrefix_ok o k off n b : placed_at o k (packNum off) -> placed_at o off (packNum n ++ b) -> 0 <= n <= Z.of_nat (length b) ->
  Z.of_nat (length o) < 2 ^ 63 -> lengthPrefixPointsTo k o = Ret (Ok (off + 32, n)) /\ placed_at o (off + 32) b.
Proof.
  intros H1 H2 Hn Hl. destruct (offset_read _ _ _ _ H1 H2 Hl) as (E1 & E2 & H0 & Hb). apply placed_app in H2 as [H2 H3].
  rewrite length_app, length_packNum in *. split; [|exact H3]. unfold lengthPrefixPointsTo. rewrite E1, liftT_Ret_bind.
  rewrite E2, (proj2 (Z.ltb_ge _ _)) by lia. rewrite (proj2 (Z.ltb_ge 63 (BitLen (off + 32)))) by (apply BitLen_le; lia).
  replace (off + 32 - 32) with off by lia. rewrite (slice_word _ _ _ (length_packNum n) H2), liftT_Ret_bind.
  rewrite be_uint_packNum_small by lia. rewrite (proj2 (Z.ltb_ge 63 _)) by (apply BitLen_le; lia). by rewrite (proj2 (Z.ltb_ge _ _)) by lia.
Qed.

Lemma for_each_ok {A} (read : Z -> TM A) o e (enc : A -> bytes) d l : forall k,
  Forall (fun x => part_size (d, enc x) = e /\ forall k, placed o k d (enc x) -> read k = Ret (Ok x)) l ->
  all_placed o k (map (fun x => (d, enc x)) l) -> for_each read e k (length l) = Ret (Ok l).
Proof.
  induction l as [|x l IH]; intros k Hl Hp; [done|]. apply Forall_cons in Hl as [[Hs Hr] Hl]. cbn [map all_placed fst snd] in Hp. destruct Hp as [Hp Hps].
  cbn [for_each length]. rewrite (TM_bind_Ok _ _ _ (Hr k Hp)). rewrite Hs in Hps. by rewrite (TM_bind_Ok _ _ _ (IH _ Hl Hps)).
Qed.

Lemma forEachUnpack_ok e v post : regular e = true -> Forall (awt e) v ->
  Forall (fun x => forall k, placed (seq_enc (elems e v) ++ post) k (isDynamicType e) (aenc e x) -> toGoType e k (seq_enc (elems e v) ++ post) = Ret (Ok x)) v ->
  forEachUnpack (toGoType e) (getTypeSize e) (seq_enc (elems e v) ++ post) 0 (Z.of_nat (length v)) = Ret (Ok v).
Proof.
  intros Hr Hv Hx. unfold forEachUnpack. rewrite (proj2 (Z.ltb_ge _ 0)) by lia. rewrite (proj2 (Z.ltb_ge _ _)).
  - rewrite Nat2Z.id. eapply for_each_ok; [|apply seq_placed]. rewrite Forall_forall in *. intros x Hin. split; [|by apply Hx]. apply part_size_ok; auto.
  - rewrite length_app. pose proof (length_seq_enc (elems e v)) as H. rewrite head_len_ok in H by done. pose proof (proj1 regular_sizes e Hr). nia.
Qed.

Lemma slice_word_bind {A} o k b (f : bytes -> TM A) : length b = 32%nat -> placed_at o k b -> (x ← liftT (slice_range o k (k + 32)); f x) = f b.
Proof. intros Hb H. by rewrite (slice_word o k b Hb H). Qed.

Lemma readFunctionType_ok v : length v = 24%nat -> readFunctionType (RightPadBytes v 32) = Ok v.
Proof.
  intros Hv. unfold readFunctionType, RightPadBytes. rewrite Hv, drop_app_length', take_app_length' by done. done.
Qed.

Definition unpacks (t : AType) : Prop :=
  forall v o k, regular t = true -> awt t v -> Z.of_nat (length o) < 2 ^ 63 -> placed o k (isDynamicType t) (aenc t v) -> toGoType t k o = Ret (Ok v).

Ltac in_bounds_guard := match goal with Hr : regular ?t = true, Hv : awt _ ?v, Hp : placed ?o ?k _ _ |- _ =>
  destruct (placed_guard t v o k Hr Hv Hp); cbn [toGoType]; rewrite (proj2 (Z.ltb_ge (Z.of_nat (length o)) (k + 32))) by lia end.

Lemma unpack_element t : match t with SliceTy _ | ArrayTy _ _ | TupleTy _ | StringTy | BytesTy => False | _ => True end -> unpacks t.
Proof.
  intros Ht v o k Hr Hv Hl Hp. destruct t; try done; in_bounds_guard; cbn [isDynamicType placed aenc packElement the_bytes] in Hp.
  - rewrite (slice_word_bind _ _ _ _ (length_packNum _) Hp). by rewrite ReadInteger_int.
  - rewrite (slice_word_bind _ _ _ _ (length_packNum _) Hp). by rewrite ReadInteger_uint.
  - assert (length (if v then PaddedBigBytes 1 32 else PaddedBigBytes 0 32) = 32%nat) as Hw by by destruct v.
    rewrite (slice_word_bind _ _ _ _ Hw Hp). by destruct v.
  - destruct Hv as [_ Hv]. unfold LeftPadBytes in Hp. rewrite Hv in Hp. rewrite (slice_word_bind _ _ _ _ Hv Hp). by rewrite BytesToHash_id.
  - destruct Hv as [_ Hv]. unfold RightPadBytes in Hp. apply placed_app in Hp as [Hp _]. unfold ReadFixedBytes. rewrite <- Hv. by rewrite slice_range_at.
  - destruct Hv as [_ Hv]. assert (length (RightPadBytes v 32) = 32%nat) as Hw by (unfold RightPadBytes; by rewrite length_app, length_replicate, Hv).
    rewrite (slice_word_bind _ _ _ _ Hw Hp). by rewrite readFunctionType_ok.
Qed.

Lemma padded_length (b : bytes) : (length b <= length (RightPadBytes b ((length b + 31) / 32 * 32)))%nat.
Proof. unfold RightPadBytes. rewrite length_app. lia. Qed.

Lemma unpack_text t : t = StringTy \/ t = BytesTy -> unpacks t.
Proof.
  intros Ht v o k Hr Hv Hl Hp. destruct Ht as [-> | ->]; in_bounds_guard; cbn [isDynamicType placed aenc packElement the_bytes adenote] in *;
    destruct Hp as (off & H1 & H2); unfold packBytesSlice in H2;
    destruct (lengthPrefix_ok o k off _ _ H1 H2 ltac:(pose proof (padded_length v); lia) Hl) as [E H3]; rewrite (TM_bind_Ok _ _ _ E); cbn [fst snd];
    apply placed_app in H3 as [H3 _]; by rewrite slice_range_at.
Qed.

Lemma unpack_elems e v o k : unpacks e -> regular e = true -> Forall (awt e) v -> Z.of_nat (length o) < 2 ^ 63 -> placed_at o k (seq_enc (elems e v)) ->
  (rest ← liftT (slice_from o k); forEachUnpack (toGoType e) (getTypeSize e) rest 0 (Z.of_nat (length v))) = Ret (Ok v).
Proof.
  intros IH Hr Hv Hl Hp. destruct (slice_from_at _ _ _ Hp) as (post & -> & Hlen). rewrite liftT_Ret_bind. apply forEachUnpack_ok; [done..|].
  rewrite Forall_forall in *. intros x Hx j Hj. apply IH; [done|by apply Hv|lia|done].
Qed.

Lemma unpack_slice e : unpacks e -> unpacks (SliceTy e).
Proof.
  intros IH v o k Hr Hv Hl Hp. in_bounds_guard. cbn [isDynamicType placed aenc awt regular adenote] in *. destruct Hp as (off & H1 & H2).
  destruct (lengthPrefix_ok o k off _ _ H1 H2) as [E H3]; [|done|].
  { pose proof (length_seq_enc (elems e v)) as H'. rewrite head_len_ok in H' by done. destruct (proj1 regular_sizes e Hr) as [H3 _]. clear - H' H3. split; [lia|]. etrans; [|exact H']. rewrite <- (Z.mul_1_r (Z.of_nat _)) at 1. apply Z.mul_le_mono_nonneg_l; lia. }
  rewrite (TM_bind_Ok _ _ _ E). cbn [fst snd]. by apply unpack_elems.
Qed.

Lemma unpack_array n e : unpacks e -> unpacks (ArrayTy n e).
Proof.
  intros IH v o k Hr Hv Hl Hp. in_bounds_guard. cbn [isDynamicType aenc awt regular] in *. rewrite !andb_true_iff in Hr. destruct Hr as [[_ Hr] _], Hv as [Hn Hv].
  rewrite <- Hn. destruct (isDynamicType e) eqn:E; cbn [placed] in Hp.
  - destruct Hp as (off & H1 & H2). destruct (offset_read _ _ _ _ H1 H2 Hl) as (E1 & E2 & H3 & H4). rewrite E1, liftT_Ret_bind.
    pose proof (packNum_low 8 off ltac:(lia)) as E3. rewrite length_packNum in E3. change (32 - 8)%nat with 24%nat in E3. rewrite E3.
    change (8 * Z.of_nat 8) with 64. rewrite Z.mod_small, i64_id by lia. rewrite <- E in H2. by apply unpack_elems.
  - unfold slice_range at 1. rewrite bool_decide_true by lia. rewrite liftT_Ret_bind. rewrite <- E in Hp. by apply unpack_elems.
Qed.

Lemma unpack_ok : (forall t, unpacks t) /\
  (forall l v o i va, regulars l = true -> awts l v -> Z.of_nat (length o) < 2 ^ 63 -> all_placed o ((i + va) * 32) (aparts l v) ->
    forTupleUnpack l i va o = Ret (Ok v)).
Proof.
  apply AType_both; try (intros; by apply unpack_element); try (intros; apply unpack_text; by auto); [apply unpack_slice|intros n e; apply unpack_array|..].
  - intros l IH v o k Hr Hv Hl Hp. in_bounds_guard. cbn [isDynamicType aenc awt regular] in *. apply andb_true_iff in Hr as [_ Hr].
    assert (forall j, placed_at o j (seq_enc (aparts l v)) -> (rest ← liftT (slice_from o j); forTupleUnpack l 0 0 rest) = Ret (Ok v)) as Hj.
    { intros j Hj. destruct (slice_from_at _ _ _ Hj) as (post & -> & Hlen). rewrite liftT_Ret_bind. apply IH; [done..|lia|]. apply seq_placed. }
    destruct (anyDynamic l); cbn [placed] in Hp; [|by apply Hj]. destruct Hp as (off & H1 & H2). destruct (offset_read _ _ _ _ H1 H2 Hl) as (E1 & E2 & H3 & H4).
    unfold tuplePointsTo. rewrite E1, liftT_Ret_bind, E2, (proj2 (Z.ltb_ge _ _)) by lia.
    rewrite (proj2 (Z.ltb_ge 63 _)) by (apply BitLen_le; lia). rewrite TM_bind_Ok with (a := off) by done. by apply Hj.
  - by intros [].
  - intros t IHt l IHl [v vs] o i va. cbn [regulars awts aparts all_placed fst snd]. intros [Rt Rl]%andb_true_iff [Vt Vl] Hl [Hp Hps].
    cbn [forTupleUnpack]. rewrite (TM_bind_Ok _ _ _ (IHt v o _ Rt Vt Hl Hp)). rewrite part_size_ok in Hps by done.
    rewrite TM_bind_Ok with (a := vs); [done|]. apply IHl; [done..|]. pose proof (size_words t Rt).
    replace ((i + 1 + (va + virtual t)) * 32) with ((i + va) * 32 + getTypeSize t) by lia. done.
Qed.

(** ** Unpacking any bytes *)

(** The types without arrays of dynamic elements, whose offset is not checked. *)
Fixpoint checked (t : AType) : bool :=
  match t with
  | FixedBytesTy n => (n <=? 32)%nat
  | SliceTy e => checked e
  | ArrayTy n e => negb (isDynamicType e) && checked e
  | TupleTy l => checkeds l
  | _ => true
  end
with checkeds (l : ATypes) : bool :=
  match l with
  | ANil => true
  | ACons t l => checked t && checkeds l
  end.

(** A value with the property or an error, and no panic. *)
Definition fine {A} (P : A -> Prop) (m : TM A) : Prop :=
  match m with Ret (Ok a) => P a | Ret (Err _) => True | Panic _ => False end.

Lemma fine_bind {A B} (P : A -> Prop) (Q : B -> Prop) (m : TM A) (f : A -> TM B) : fine P m -> (forall a, P a -> fine Q (f a)) -> fine Q (x ← m; f x).
Proof. destruct m as [[]|]; cbn; auto. Qed.

Lemma slice_range_fine o i j : 0 <= i <= j -> j <= Z.of_nat (length o) -> is_bytes o ->
  fine (fun b => is_bytes b /\ Z.of_nat (length b) = j - i) (liftT (slice_range o i j)).
Proof.
  intros Hi Hj Ho. unfold slice_range. rewrite bool_decide_true by lia. cbn. split; [by apply Forall_take, Forall_drop|].
  rewrite length_take, length_drop. lia.
Qed.

Lemma slice_from_fine o i : 0 <= i <= Z.of_nat (length o) -> is_bytes o -> fine is_bytes (liftT (slice_from o i)).
Proof. intros Hi Ho. unfold slice_from, slice_range. rewrite bool_decide_true by lia. cbn. by apply Forall_take, Forall_drop. Qed.

Lemma word_fine {B} (Q : B -> Prop) o k (f : bytes -> TM B) : 0 <= k -> k + 32 <= Z.of_nat (length o) -> is_bytes o ->
  (forall w, is_bytes w -> length w = 32%nat -> fine Q (f w)) -> fine Q (w ← liftT (slice_range o k (k + 32)); f w).
Proof. intros H0 Hk Ho Hf. eapply fine_bind; [by apply slice_range_fine; [lia|..]|]. intros w [Hw Hl]. apply Hf; [done|lia]. Qed.

Lemma lengthPrefix_fine o k : 0 <= k -> k + 32 <= Z.of_nat (length o) -> is_bytes o ->
  fine (fun p => 0 <= fst p /\ 0 <= snd p /\ fst p + snd p <= Z.of_nat (length o)) (lengthPrefixPointsTo k o).
Proof.
  intros H0 Hk Ho. unfold lengthPrefixPointsTo. apply word_fine; [done..|]. intros w Hw Hl. pose proof (be_uint_bound w Hw) as [Hb _].
  destruct (Z.ltb_spec (Z.of_nat (length o)) (be_uint w + 32)); [done|]. destruct (63 <? BitLen (be_uint w + 32)); [done|].
  replace (be_uint w + 32) with (be_uint w + 32 - 32 + 32) at 2 by lia. apply word_fine; [lia..|done|]. intros w' Hw' Hl'. pose proof (be_uint_bound w' Hw') as [Hb' _].
  destruct (63 <? _); [done|]. destruct (Z.ltb_spec (Z.of_nat (length o)) (be_uint w + 32 + be_uint w')); [done|]. cbn. lia.
Qed.

Lemma for_each_fine {A} (P : A -> Prop) (read : Z -> TM A) e : 0 <= e -> (forall k, 0 <= k -> fine P (read k)) ->
  forall n k, 0 <= k -> fine (fun l => length l = n /\ Forall P l) (for_each read e k n).
Proof.
  intros He Hr. induction n as [|n IH]; intros k Hk; [done|]. cbn [for_each]. eapply fine_bind; [by apply Hr|]. intros a Ha.
  eapply fine_bind; [apply IH; lia|]. intros l [Hl HP]. cbn. split; [by f_equal|by constructor].
Qed.

Lemma forEachUnpack_fine {A} (P : A -> Prop) (read : Z -> bytes -> TM A) e o n : 0 <= e -> 0 <= n -> (forall k, 0 <= k -> fine P (read k o)) ->
  fine (fun l => length l = Z.to_nat n /\ Forall P l) (forEachUnpack read e o 0 n).
Proof.
  intros He Hn Hr. unfold forEachUnpack. rewrite (proj2 (Z.ltb_ge n 0)) by lia. destruct (_ <? _); [done|]. by apply for_each_fine.
Qed.

Lemma sizes_nonneg : (forall t, 0 <= getTypeSize t) /\ (forall l, 0 <= sumSizes l).
Proof.
  apply AType_both; cbn [getTypeSize sumSizes]; try lia.
  - intros n e IH. destruct (isDynamicType e); [lia|]. destruct (is_array e); [nia|lia].
  - intros l IH. destruct (anyDynamic l); lia.
Qed.

Lemma virtual_bound t : -1 <= virtual t.
Proof. unfold virtual. destruct (_ && _); [|lia]. pose proof (proj1 sizes_nonneg t). pose proof (Z.div_pos (getTypeSize t) 32). lia. Qed.

Lemma ReadInteger_wt w n : is_bytes w -> length w = 32%nat -> awt (UintTy n) (ReadInteger false n w) /\ awt (IntTy n) (ReadInteger true n w).
Proof.
  intros Hw Hl. cbn [awt]. unfold ReadInteger. destruct (machine_size n) eqn:E.
  - set (b := drop _ _). assert (is_bytes b /\ 8 * Z.of_nat (length b) = n) as [Hb Hlb].
    { split; [by apply Forall_drop|]. unfold b. rewrite length_drop, Hl. by apply machine_sizes in E as [-> | [-> | [-> | ->]]]. }
    pose proof (be_uint_bound b Hb) as Hu. rewrite Hlb in Hu. split; [done|]. unfold sint.
    assert (2 ^ n = 2 * 2 ^ (n - 1)) as E2 by (rewrite <- Z.pow_succ_r by (apply machine_sizes in E; lia); f_equal; lia).
    pose proof (Z.mod_pos_bound (be_uint b + 2 ^ (n - 1)) (2 ^ n)). lia.
  - pose proof (be_uint_bound w Hw) as Hu. rewrite Hl in Hu. change (8 * Z.of_nat 32) with 256 in Hu. cbn [negb]. split; [done|].
    unfold MaxInt256, MaxUint256. destruct (Z.ltb_spec (2 ^ 255 - 1) (be_uint w)); lia.
Qed.

Definition unpacks_fine (t : AType) : Prop := forall o k, checked t = true -> is_bytes o -> 0 <= k -> fine (awt t) (toGoType t k o).

Ltac past_guard := cbn [toGoType]; match goal with |- context [Z.of_nat (length ?o) <? ?k + 32] => destruct (Z.ltb_spec (Z.of_nat (length o)) (k + 32)); [done|] end.

Lemma fine_element t : match t with SliceTy _ | ArrayTy _ _ | TupleTy _ | StringTy | BytesTy => False | _ => True end -> unpacks_fine t.
Proof.
  intros Ht o k Hc Ho Hk. destruct t; try done; past_guard; try (apply word_fine; [done..|]; intros w Hw Hl).
  - cbn [fine]. by apply ReadInteger_wt.
  - cbn [fine]. by apply ReadInteger_wt.
  - unfold fine. by destruct (readBool w).
  - cbn [fine awt]. by rewrite BytesToHash_id.
  - apply Nat.leb_le in Hc. unfold ReadFixedBytes. pose proof (slice_range_fine o k (k + Z.of_nat size) ltac:(lia) ltac:(lia) Ho) as Hf.
    destruct (liftT _) as [[b|]|]; [|done..]. cbn in *. destruct Hf. split; [done|lia].
  - unfold readFunctionType. destruct (negb _); [done|]. cbn. split; [by apply Forall_take|]. by rewrite length_take, Hl.
Qed.

Lemma fine_text t : t = StringTy \/ t = BytesTy -> unpacks_fine t.
Proof.
  intros Ht o k Hc Ho Hk. destruct Ht as [-> | ->]; past_guard; (eapply fine_bind; [by apply lengthPrefix_fine|]); intros [b l] (H1 & H2 & H3); cbn [fst snd] in *;
    pose proof (slice_range_fine o b (b + l) ltac:(lia) ltac:(lia) Ho) as Hf; (destruct (liftT _) as [[v|]|]; [apply Hf|done..]).
Qed.

Lemma unpack_fine : (forall t, unpacks_fine t) /\
  (forall l o i va, checkeds l = true -> is_bytes o -> 0 <= i + va -> fine (awts l) (forTupleUnpack l i va o)).
Proof.
  apply AType_both; try (intros; by apply fine_element); try (intros; apply fine_text; by auto).
  - intros e IH o k Hc Ho Hk. past_guard. eapply fine_bind; [by apply lengthPrefix_fine|]. intros [b l] (H1 & H2 & H3). cbn [fst snd] in *.
    eapply fine_bind; [apply slice_from_fine; [lia|done]|]. intros rest Hr.
    pose proof (forEachUnpack_fine (awt e) (toGoType e) (getTypeSize e) rest l ltac:(apply sizes_nonneg) H2 ltac:(intros; by apply IH)) as Hf.
    destruct (forEachUnpack _ _ _ _ _) as [[v|]|]; [apply Hf|done..].
  - intros n e IH o k Hc Ho Hk. cbn [checked] in Hc. apply andb_true_iff in Hc as [Hd Hc]. past_guard. apply negb_true_iff in Hd. apply word_fine; [done..|]. intros w _ _.
    rewrite Hd. eapply fine_bind; [apply slice_from_fine; [lia|done]|]. intros rest Hr.
    pose proof (forEachUnpack_fine (awt e) (toGoType e) (getTypeSize e) rest (Z.of_nat n) ltac:(apply sizes_nonneg) ltac:(lia) ltac:(intros; by apply IH)) as Hf.
    rewrite Nat2Z.id in Hf. destruct (forEachUnpack _ _ _ _ _) as [[v|]|]; [apply Hf|done..].
  - intros l IH o k Hc Ho Hk. past_guard. cbn [checked] in Hc. destruct (anyDynamic l).
    + unfold tuplePointsTo. eapply (fine_bind (fun off => 0 <= off <= Z.of_nat (length o))).
      * apply word_fine; [done..|]. intros w Hw Hl. pose proof (be_uint_bound w Hw) as [Hb _].
        destruct (Z.ltb_spec (Z.of_nat (length o)) (be_uint w)); [done|]. destruct (63 <? _); [done|]. cbn. lia.
      * intros off Hoff. eapply fine_bind; [by apply slice_from_fine|]. intros rest Hr. by apply IH.
    + eapply fine_bind; [apply slice_from_fine; [lia|done]|]. intros rest Hr. by apply IH.
  - done.
  - intros t IHt l IHl o i va [Ct Cl]%andb_true_iff Ho Hi. cbn [forTupleUnpack]. eapply fine_bind; [apply IHt; [done..|lia]|]. intros v Hv.
    eapply fine_bind; [apply IHl; [done..|]; pose proof (virtual_bound t); lia|]. intros vs Hvs. done.
Qed.

Lemma unpack_packed l v : regulars l = true -> awts l v -> Z.of_nat (length (seq_enc (aparts l v))) < 2 ^ 63 ->
  UnpackValues l (seq_enc (aparts l v)) = Ret (Ok v).
Proof. intros Hr Hv Hl. apply unpack_ok; [done..|]. pose proof (seq_placed (aparts l v) []) as H. by rewrite app_nil_r in H. Qed.

(** ** The theorems *)

(** C29: What is packed as the arguments of a call is unpacked to the same values,
    for types that take the place [getTypeSize] says and values in their ranges. *)
Theorem abi_roundtrip l v : regulars l = true -> awts l v -> packables l v ->
  exists data, Arguments_Pack l v = Ret (Ok data) /\ (Z.of_nat (length data) < 2 ^ 63 -> UnpackValues l data = Ret (Ok v)).
Proof.
  intros Hr Hv Hp. exists (seq_enc (aparts l v)). split; [by apply Arguments_Pack_ok|]. by apply unpack_packed.
Qed.

(** Unpacking any bytes gives values in the ranges of their types or an error, and
    does not panic, for types without arrays of dynamic elements. *)
Theorem unpack_typed l data : checkeds l = true -> is_bytes data ->
  match UnpackValues l data with Ret (Ok v) => awts l v | Ret (Err _) => True | Panic _ => False end.
Proof. intros Hl Hd. by apply (proj2 unpack_fine). Qed.

Module AbiExamples.

(** string, uint256[2] and a tuple with bytes. *)
Definition ex_types : ATypes :=
  ACons StringTy (ACons (ArrayTy 2 (UintTy 256)) (ACons (TupleTy (ACons BytesTy (ACons BoolTy ANil))) ANil)).
Definition ex_values : adenotes ex_types := ([104; 105], ([1; 2], (([7], (true, tt)), tt))).

Lemma abi_roundtrip_witness : exists data, Arguments_Pack ex_types ex_values = Ret (Ok data) /\
  (Z.of_nat (length data) < 2 ^ 63 -> UnpackValues ex_types data = Ret (Ok ex_values)).
Proof.
  apply (abi_roundtrip ex_types ex_values); [done| |by repeat constructor].
  cbn. unfold is_byte. repeat (split || constructor); lia.
Defined.

(** The size of an array of static tuples counts one word for each tuple. *)
Definition pairs : ATypes := ACons (ArrayTy 1 (TupleTy (ACons (UintTy 256) (ACons (UintTy 256) ANil)))) (ACons (UintTy 256) ANil).

Lemma array_of_tuples_lost : (v ← Arguments_Pack pairs ([(1, (2, tt))], (3, tt)); UnpackValues pairs v) = Ret (Ok ([(1, (2, tt))], (2, tt))).
Proof. by vm_compute. Qed.

(** The offset of an array of strings is used unchecked. *)
Lemma array_offset_panics : UnpackValues (ACons (ArrayTy 1 StringTy) ANil) (be 32 33) = Panic "slice bounds out of range".
Proof. by vm_compute. Qed.

(** The check of an empty slice of arrays looks at its first element. *)
Lemma empty_slice_panics : Arguments_Pack (ACons (SliceTy (ArrayTy 2 BoolTy)) ANil) ([], tt) = Panic "reflect: slice index out of range".
Proof. by vm_compute. Qed.

End AbiExamples.
