(* ===== verification/Blocks.v ===== *)
(** * Blocks

    Headers with their hash, the root hash of a list, blocks with their encoding
    (chain/core/types/block.go, derive_sha.go, tendermint.go), the encoding of
    receipts (receipt.go, log.go), and the checks that a block and its state agree
    with the header (chain/core/block_validator.go, VerifyUncles of
    chain/consensus/tendermint/engine.go).

    Shown: a list is determined by its root hash; the hash of a block determines
    its transactions and its header, except for the extra data, which it leaves
    out; a block survives its encoding; a block that was assembled passes the
    checks. *)
From S2P Require Import Prelude Rlp RlpDecode RlpInput TrieCodec Trie TrieTree TrieMap TrieStore TrieDecode TrieCommit TrieDisk TrieSpec TrieTheorems.
From S2P Require Import StateData StateDB Receipts ChainConfig TxTypes.
Local Open Scope Z_scope.

(** ** block.go: headers *)
Record Header := {
  hd_ParentHash : bytes;
  hd_UncleHash : bytes;
  hd_Coinbase : bytes;
  hd_Root : bytes;
  hd_TxHash : bytes;
  hd_ReceiptHash : bytes;
  hd_Bloom : bytes;
  hd_Difficulty : Z;
  hd_Number : Z;
  hd_GasLimit : Z;
  hd_GasUsed : Z;
  hd_Time : Z;
  hd_Extra : bytes;
  hd_MixDigest : bytes;
  hd_Nonce : bytes;
  hd_MainChainNumber : Z }.

(** tendermint.go *)
Definition TendermintDigest : bytes := be 32 0x63746963616c2062797a616e74696e65206661756c7420746f6c6572616e6365.
Definition TendermintDefaultDifficulty : Z := 1.
Definition TendermintEmptyNonce : bytes := replicate 8 0.
Definition TendermintNonce : bytes := be 8 0x88ff88ff88ff88ff.
Definition MagicExtra : bytes := str_bytes "ligochain_tmp_extra".

Definition set_Extra (h : Header) (extra : bytes) : Header :=
  {| hd_ParentHash := hd_ParentHash h; hd_UncleHash := hd_UncleHash h; hd_Coinbase := hd_Coinbase h; hd_Root := hd_Root h;
     hd_TxHash := hd_TxHash h; hd_ReceiptHash := hd_ReceiptHash h; hd_Bloom := hd_Bloom h; hd_Difficulty := hd_Difficulty h;
     hd_Number := hd_Number h; hd_GasLimit := hd_GasLimit h; hd_GasUsed := hd_GasUsed h; hd_Time := hd_Time h; hd_Extra := extra;
     hd_MixDigest := hd_MixDigest h; hd_Nonce := hd_Nonce h; hd_MainChainNumber := hd_MainChainNumber h |}.

Definition TendermintFilteredHeader (h : Header) : Header := set_Extra h MagicExtra.

(** The hashes and the bloom filter that NewBlock fills in. *)
Definition set_roots (h : Header) (uncleHash txHash receiptHash bloom : bytes) : Header :=
  {| hd_ParentHash := hd_ParentHash h; hd_UncleHash := uncleHash; hd_Coinbase := hd_Coinbase h; hd_Root := hd_Root h;
     hd_TxHash := txHash; hd_ReceiptHash := receiptHash; hd_Bloom := bloom; hd_Difficulty := hd_Difficulty h;
     hd_Number := hd_Number h; hd_GasLimit := hd_GasLimit h; hd_GasUsed := hd_GasUsed h; hd_Time := hd_Time h; hd_Extra := hd_Extra h;
     hd_MixDigest := hd_MixDigest h; hd_Nonce := hd_Nonce h; hd_MainChainNumber := hd_MainChainNumber h |}.

Abbreviation hash_field := (FCons no_tags (TByteArray 32)).
Abbreviation big_field := (FCons no_tags TBigPtr).
Definition header_type : rtype :=
  TStruct (hash_field (hash_field (hash_field (hash_field (hash_field (hash_field (FCons no_tags (TByteArray 256)
    (big_field (big_field (FCons no_tags (TUint 64) (FCons no_tags (TUint 64) (big_field (FCons no_tags TBytes
      (hash_field (FCons no_tags (TByteArray 8) (big_field FNil)))))))))))))))).

Definition header_value (h : Header) : denote header_type :=
  (hd_ParentHash h, (hd_UncleHash h, (hd_Coinbase h, (hd_Root h, (hd_TxHash h, (hd_ReceiptHash h, (hd_Bloom h,
    (Some (hd_Difficulty h), (Some (hd_Number h), (hd_GasLimit h, (hd_GasUsed h, (Some (hd_Time h), (hd_Extra h,
      (hd_MixDigest h, (hd_Nonce h, (Some (hd_MainChainNumber h), tt)))))))))))))))).

Definition header_of (v : denote header_type) : Header :=
  let '(parent, (uncle, (coinbase, (root, (tx, (receipt, (bloom, (difficulty, (number, (gasLimit, (gasUsed, (time, (extra,
        (mix, (nonce, (main, _)))))))))))))))) := v in
  {| hd_ParentHash := parent; hd_UncleHash := uncle; hd_Coinbase := coinbase; hd_Root := root; hd_TxHash := tx;
     hd_ReceiptHash := receipt; hd_Bloom := bloom; hd_Difficulty := default 0 difficulty; hd_Number := default 0 number;
     hd_GasLimit := gasLimit; hd_GasUsed := gasUsed; hd_Time := default 0 time; hd_Extra := extra; hd_MixDigest := mix;
     hd_Nonce := nonce; hd_MainChainNumber := default 0 main |}.

(** ** derive_sha.go *)

(** new(trie.Trie) has no database. *)
Definition nil_db : Resolver := fun _ => Panic "nil pointer dereference".

(** Trie.Update: an error is logged. *)
Definition Trie_Update (D : Resolver) (root : node) (key value : bytes) : outcome node :=
  match Trie_TryUpdate D root key value with
  | Ret (Ok root') => Ret root'
  | Ret (Err _) => Ret root
  | Panic s => Panic s
  end.

(** [rlp.Encode(keybuf, uint(i))] *)
Definition index_key (i : Z) : outcome bytes :=
  e ← EncodeToBytes (TUint 64) i;
  Ret (match e with Ok k => k | Err _ => [] end).

(** The loop that fills the trie, from element [i] on. *)
Fixpoint derive_loop (i : nat) (rlps : list bytes) (root : node) : outcome node :=
  match rlps with
  | [] => Ret root
  | v :: rlps =>
    key ← index_key (Z.of_nat i);
    root ← Trie_Update nil_db root key v;
    derive_loop (S i) rlps root
  end.

(** ** receipt.go and log.go *)
Definition log_type : rtype :=
  TStruct (hash_field (FCons no_tags (TSlice (TByteArray 32)) (FCons no_tags TBytes FNil))).
Definition receipt_type : rtype :=
  TStruct (FCons no_tags TBytes (FCons no_tags (TUint 64) (FCons no_tags (TByteArray 256) (FCons no_tags (TSlice (TPtr log_type)) FNil)))).

Definition statusEncoding (r : Receipt) : bytes :=
  if bool_decide (r_PostState r = []) then (if r_Status r =? ReceiptStatusFailed then [] else [1]) else r_PostState r.

Definition log_value (l : Log) : denote log_type := (log_Address l, (log_Topics l, (log_Data l, tt))).
Definition receipt_value (r : Receipt) : denote receipt_type :=
  (statusEncoding r, (r_CumulativeGasUsed r, (r_Bloom r, (map (fun l => Some (log_value l)) (r_Logs r), tt)))).

Definition Receipt_GetRlp (r : Receipt) : outcome bytes :=
  e ← EncodeToBytes receipt_type (receipt_value r);
  match e with Ok b => Ret b | Err _ => Panic "receipt" end.

(** ** Blocks *)
Record Block := { b_header : Header; b_uncles : list Header; b_transactions : list Transaction }.

Definition extblock_type : rtype :=
  TStruct (FCons no_tags (TPtr header_type) (FCons no_tags (TSlice (TPtr txdata_type)) (FCons no_tags (TSlice (TPtr header_type)) FNil))).

Definition extblock_value (b : Block) : denote extblock_type :=
  (Some (header_value (b_header b)), (map (fun tx => Some (txdata_value (tx_data tx))) (b_transactions b),
    (map (fun u => Some (header_value u)) (b_uncles b), tt))).

(** EncodeRLP; the header and the transactions are pointers that are not nil, and
    a transaction is written as its data. *)
Definition Block_EncodeRLP (b : Block) : outcome (result rlp_error bytes) := EncodeToBytes extblock_type (extblock_value b).

(** DecodeRLP; the decoder makes what pointers point to. *)
Definition block_of (v : denote extblock_type) : Block :=
  let '(header, (txs, (uncles, _))) := v in
  {| b_header := header_of (default (zero header_type) header);
     b_uncles := map (fun u => header_of (default (zero header_type) u)) uncles;
     b_transactions := map (fun d => {| tx_data := txdata_of (default (zero txdata_type) d); tx_from := None |}) txs |}.

Definition Block_DecodeRLP (b : bytes) : result rlp_error Block :=
  match DecodeBytes extblock_type b with Ok v => Ok (block_of v) | Err e => Err e end.

Section Blocks.
Context {K : KeccakLib} {L : TrieLib}.

Definition Header_Hash (h : Header) : outcome bytes :=
  if bool_decide (hd_MixDigest h = TendermintDigest) then rlpHash header_type (header_value (TendermintFilteredHeader h))
  else rlpHash header_type (header_value h).

(** DeriveSha of a list whose elements have the encodings [rlps]. *)
Definition DeriveSha (rlps : list bytes) : outcome bytes :=
  root ← derive_loop 0 rlps nilNode;
  r ← Trie_Hash root;
  Ret (fst r).

Definition DeriveSha_txs (txs : list Transaction) : outcome bytes := rlps ← mapM GetRlp txs; DeriveSha rlps.
Definition DeriveSha_receipts (rs : list Receipt) : outcome bytes := rlps ← mapM Receipt_GetRlp rs; DeriveSha rlps.

Definition CalcUncleHash (uncles : list Header) : outcome bytes :=
  rlpHash (TSlice (TPtr header_type)) (map (fun u => Some (header_value u)) uncles).

Definition NewBlock (header : Header) (txs : list Transaction) (uncles : list Header) (receipts : list Receipt) : outcome Block :=
  txHash ← DeriveSha_txs txs;
  receiptHash ← DeriveSha_receipts receipts;
  bloom ← (match receipts with [] => Ret (hd_Bloom header) | _ => CreateBloom (map r_Logs receipts) end);
  uncleHash ← CalcUncleHash uncles;
  Ret {| b_header := set_roots header uncleHash txHash receiptHash bloom; b_uncles := uncles; b_transactions := txs |}.

(** ** block_validator.go *)

(** What the chain knows: a block, or a block with its state. *)
Record BlockChain := { bc_HasBlock : bytes -> Z -> bool; bc_HasBlockAndState : bytes -> Z -> bool }.

Definition VerifyUncles (b : Block) : result string unit :=
  match b_uncles b with [] => Ok tt | _ => Err "non empty uncle hash"%string end.

Definition ErrKnownBlock : string := "block already known".
Definition ErrUnknownAncestor : string := "unknown ancestor".
Definition ErrPrunedAncestor : string := "pruned ancestor".

Definition NumberU64 (b : Block) : Z := big_Uint64 (hd_Number (b_header b)).

Definition ValidateBody (bc : BlockChain) (b : Block) : outcome (result string unit) :=
  hash ← Header_Hash (b_header b);
  if bc_HasBlockAndState bc hash (NumberU64 b) then Ret (Err ErrKnownBlock)
  else
    match VerifyUncles b with
    | Err e => Ret (Err e)
    | Ok _ =>
      uncleHash ← CalcUncleHash (b_uncles b);
      if negb (bool_decide (uncleHash = hd_UncleHash (b_header b))) then Ret (Err "uncle root hash mismatch"%string)
      else
        txHash ← DeriveSha_txs (b_transactions b);
        if negb (bool_decide (txHash = hd_TxHash (b_header b))) then Ret (Err "transaction root hash mismatch"%string)
        else
          let parent := hd_ParentHash (b_header b) in
          let number := u64 (NumberU64 b - 1) in
          if negb (bc_HasBlockAndState bc parent number) then
            if negb (bc_HasBlock bc parent number) then Ret (Err ErrUnknownAncestor) else Ret (Err ErrPrunedAncestor)
          else Ret (Ok tt)
    end.

Definition ValidateState (config : ChainConfig) (b : Block) (receipts : list Receipt) (usedGas : Z) : SM (result string unit) :=
  let header := b_header b in
  if negb (hd_GasUsed header =? usedGas) then mret (Err "invalid gas used"%string)
  else
    rbloom ← liftS (CreateBloom (map r_Logs receipts));
    if negb (bool_decide (rbloom = hd_Bloom header)) then mret (Err "invalid bloom"%string)
    else
      receiptSha ← liftS (DeriveSha_receipts receipts);
      if negb (bool_decide (receiptSha = hd_ReceiptHash header)) then mret (Err "invalid receipt root hash"%string)
      else
        root ← IntermediateRoot (cc_IsEIP158 config (hd_Number header));
        if negb (bool_decide (hd_Root header = root)) then mret (Err "invalid merkle root"%string)
        else mret (Ok tt).

End Blocks.

Definition GasLimitBoundDivisor : Z := 1024.
Definition MinGasLimit : Z := 5000.

(** CalcGasLimit, on a parent with these numbers. *)
Definition CalcGasLimit (parentGasUsed parentGasLimit gasFloor gasCeil : Z) : Z :=
  let contrib := u64 (parentGasUsed + parentGasUsed / 2) / GasLimitBoundDivisor in
  let decay := u64 (parentGasLimit / GasLimitBoundDivisor - 1) in
  let limit := u64 (u64 (parentGasLimit - decay) + contrib) in
  let limit := if limit <? MinGasLimit then MinGasLimit else limit in
  if limit <? gasFloor then
    let limit := u64 (parentGasLimit + decay) in
    if gasFloor <? limit then gasFloor else limit
  else if gasCeil <? limit then
    let limit := u64 (parentGasLimit - decay) in
    if limit <? gasCeil then gasCeil else limit
  else limit.

(** ** Lists and their root hash *)
Section DeriveShaLaws.
Context {K : KeccakLib} {KL : KeccakLaws K}.

Definition rlps_ok (rlps : list bytes) : Prop :=
  Forall (fun v => is_bytes v /\ Z.of_nat (length v) < 2 ^ 30) rlps /\ Z.of_nat (length rlps) < 2 ^ 64.

(** The map from encoded indices to elements. *)
Fixpoint index_map (i : nat) (rlps : list bytes) (m : gmap bytes bytes) : gmap bytes bytes :=
  match rlps with
  | [] => m
  | v :: rlps => index_map (S i) rlps (map_put (rint (Z.of_nat i)) v m)
  end.

Lemma index_wt i : 0 <= i < 2 ^ 64 -> wt (TUint 64) i /\ encodable (TUint 64) i = true /\ rt (TUint 64) no_tags i.
Proof. done. Qed.

Lemma length_rint i : 0 <= i < 2 ^ 64 -> (length (rint i) <= 9)%nat.
Proof.
  intros Hi. unfold rint.
  assert (length (big_Bytes i) <= 8)%nat as Hl.
  { unfold big_Bytes. destruct (Z.eqb_spec i 0); [cbn; lia|]. rewrite length_be.
    assert (Z.log2 i < 64) by (apply Z.log2_lt_pow2; lia). pose proof (Z.log2_nonneg i).
    assert (Z.log2 i / 8 < 8) by (apply Z.div_lt_upper_bound; lia). lia. }
  destruct (rstr_cases (big_Bytes i) (big_Bytes_bytes i)) as [(x & _ & _ & ->)|[-> _]]; [cbn; lia|].
  rewrite length_app. cbn [head_of]. unfold puthead.
  assert ((Z.of_nat (length (big_Bytes i)) <? 56) = true) as -> by (apply Z.ltb_lt; lia). cbn [length]. lia.
Qed.

Lemma index_key_ok i : 0 <= i < 2 ^ 64 -> index_key i = Ret (rint i).
Proof.
  intros Hi. unfold index_key. rewrite EncodeToBytes_spec; [done|done|done|]. unfold Rlp.small. pose proof (length_rint i Hi).
  change (renc (TUint 64) no_tags i) with (rint i). lia.
Qed.

Lemma rint_inj i j : 0 <= i < 2 ^ 64 -> 0 <= j < 2 ^ 64 -> rint i = rint j -> i = j.
Proof.
  intros Hi Hj E. assert (forall i, 0 <= i < 2 ^ 64 -> DecodeBytes (TUint 64) (rint i) = Ok i) as Hd.
  { intros z Hz. apply (DecodeBytes_renc (TUint 64) z); try done. unfold Rlp.small. pose proof (length_rint z Hz).
    change (renc (TUint 64) no_tags z) with (rint z). lia. }
  pose proof (Hd i Hi) as D. rewrite E, Hd in D by done. congruence.
Qed.

Lemma lookup_index_map rlps : forall j m i, Forall (fun v => v <> []) rlps -> Z.of_nat (j + length rlps) <= 2 ^ 64 -> Z.of_nat i < 2 ^ 64 ->
  index_map j rlps m !! rint (Z.of_nat i) = match (if (j <=? i)%nat then rlps !! (i - j)%nat else None) with Some v => Some v | None => m !! rint (Z.of_nat i) end.
Proof.
  induction rlps as [|v rlps IH]; intros j m i Hne Hj Hi; cbn [index_map]; [by rewrite lookup_nil; destruct (j <=? i)%nat|].
  inversion Hne as [|? ? Hv Hne']; subst. cbn [length] in Hj. rewrite IH; [|exact Hne'|lia|exact Hi].
  destruct v as [|x v]; [done|]. unfold map_put.
  destruct (Nat.leb_spec (S j) i) as [H1|H1], (Nat.leb_spec j i) as [H2|H2]; try lia.
  - replace (i - j)%nat with (S (i - S j)) by lia. cbn. destruct (rlps !! (i - S j)%nat); [done|].
    rewrite lookup_insert_ne; [done|]. intros E%rint_inj; lia.
  - replace i with j by lia. rewrite Nat.sub_diag. cbn. by rewrite lookup_insert_eq.
  - rewrite lookup_insert_ne; [done|]. intros E%rint_inj; lia.
Qed.

Lemma derive_loop_ok rlps : forall i m n, rlps_ok rlps -> Z.of_nat (i + length rlps) <= 2 ^ 64 -> map_ok m -> repr nil_db true n (tree_of m) ->
  exists n', derive_loop i rlps n = Ret n' /\ map_ok (index_map i rlps m) /\ repr nil_db true n' (tree_of (index_map i rlps m)).
Proof.
  induction rlps as [|v rlps IH]; intros i m n [Hv Hl] Hi Hm Hr; cbn [derive_loop index_map]; [by exists n|].
  inversion Hv as [|? ? [Hb Hn] Hv']; subst. cbn [length] in *. rewrite index_key_ok by lia.
  pose proof (length_rint (Z.of_nat i) ltac:(lia)). pose proof (rint_bytes (Z.of_nat i)).
  destruct (TryUpdate_ok nil_db n m (rint (Z.of_nat i)) v Hm Hr) as (n1 & E1 & Hr1); [split_and!; [done|lia|done|done]|].
  rewrite outcome_bind_Ret. unfold Trie_Update. rewrite E1, outcome_bind_Ret. apply IH; [split; [done|lia]|lia| |done].
  apply map_put_ok; [done|done|lia|done|lia].
Qed.

Definition items (rlps : list bytes) : gmap bytes bytes := index_map 0 rlps ∅.

Lemma items_ok rlps : rlps_ok rlps -> exists n, derive_loop 0 rlps nilNode = Ret n /\ map_ok (items rlps) /\ repr nil_db true n (tree_of (items rlps)).
Proof.
  intros H. apply derive_loop_ok; [done|destruct H; lia|by intros k v ?%lookup_empty_Some|]. constructor.
Qed.

Lemma DeriveSha_ok rlps : rlps_ok rlps -> DeriveSha rlps = Ret (root_of (items rlps)).
Proof.
  intros H. destruct (items_ok rlps H) as (n & E & Hm & Hr). unfold DeriveSha. rewrite E, outcome_bind_Ret.
  pose proof (tree_of_holds _ Hm) as Hh. destruct (Hash_ok nil_db n (tree_of (items rlps))) as (n' & E' & _); [apply Hh|by eapply holds_sized|done|].
  by rewrite E'.
Qed.

Lemma items_inj r1 r2 : rlps_ok r1 -> rlps_ok r2 -> Forall (fun v => v <> []) r1 -> Forall (fun v => v <> []) r2 -> items r1 = items r2 -> r1 = r2.
Proof.
  intros [_ L1] [_ L2] N1 N2 E. apply list_eq. intros i. destruct (decide (Z.of_nat i < 2 ^ 64)) as [Hi|Hi].
  - pose proof (lookup_index_map r1 0 ∅ i N1 ltac:(lia) Hi) as H1. pose proof (lookup_index_map r2 0 ∅ i N2 ltac:(lia) Hi) as H2.
    fold (items r1) in H1. fold (items r2) in H2. rewrite E, H2 in H1. cbn [Nat.leb] in H1. rewrite Nat.sub_0_r in H1.
    rewrite lookup_empty in H1. by destruct (r1 !! i), (r2 !! i).
  - rewrite !lookup_ge_None_2 by lia. done.
Qed.

Lemma DeriveSha_inj r1 r2 : rlps_ok r1 -> rlps_ok r2 -> Forall (fun v => v <> []) r1 -> Forall (fun v => v <> []) r2 ->
  collision_free (in_play [items r1; items r2]) -> DeriveSha r1 = DeriveSha r2 -> r1 = r2.
Proof.
  intros H1 H2 N1 N2 CF. rewrite !DeriveSha_ok by done. intros [= E]. apply items_inj; try done.
  destruct (items_ok r1 H1) as (_ & _ & M1 & _), (items_ok r2 H2) as (_ & _ & M2 & _). apply tree_of_inj; [done|done|].
  apply (root_inj _ CF); try (by apply tree_of_holds); try (by eapply holds_sized, tree_of_holds); try (apply play_seen; set_solver). done.
Qed.

End DeriveShaLaws.

(** ** Headers *)
Definition is_hash (b : bytes) : Prop := is_bytes b /\ length b = 32%nat.

Definition header_typed (h : Header) : Prop :=
  Forall is_hash [hd_ParentHash h; hd_UncleHash h; hd_Coinbase h; hd_Root h; hd_TxHash h; hd_ReceiptHash h; hd_MixDigest h]
  /\ (is_bytes (hd_Bloom h) /\ length (hd_Bloom h) = 256%nat) /\ 0 <= hd_Difficulty h /\ 0 <= hd_Number h
  /\ is_uint64 (hd_GasLimit h) /\ is_uint64 (hd_GasUsed h) /\ 0 <= hd_Time h
  /\ is_bytes (hd_Extra h) /\ (is_bytes (hd_Nonce h) /\ length (hd_Nonce h) = 8%nat) /\ 0 <= hd_MainChainNumber h.

Definition header_enc (h : Header) : bytes := renc header_type no_tags (header_value h).

Lemma header_of_value h : header_of (header_value h) = h.
Proof. by destruct h. Qed.

Lemma header_value_ok h : header_typed h ->
  wt header_type (header_value h) /\ encodable header_type (header_value h) = true /\ rt header_type no_tags (header_value h).
Proof.
  intros (Hh & [Hb Hbl] & Hd & Hn & Hgl & Hgu & Ht & He & [Hno Hnl] & Hm). unfold is_uint64 in *.
  repeat (apply Forall_cons in Hh as [[? ?] Hh]). split_and!.
  - cbn -[Z.pow Z.le Z.lt]. split_and!; try done; lia.
  - cbn -[Z.leb]. by rewrite !(proj2 (Z.leb_le _ _)) by done.
  - cbn -[rstr rlist]. split_and!; try done; intros E; by rewrite E in *.
Qed.

Lemma header_enc_inj h1 h2 : header_typed h1 -> header_typed h2 -> Rlp.small (header_enc h1) -> header_enc h1 = header_enc h2 -> h1 = h2.
Proof.
  intros T1 T2 Hs E. destruct (header_value_ok h1 T1) as (W1 & E1 & R1), (header_value_ok h2 T2) as (W2 & E2 & R2).
  pose proof (DecodeBytes_renc header_type (header_value h1) eq_refl W1 E1 R1 Hs) as D. unfold header_enc in *.
  rewrite E in D, Hs. rewrite (DecodeBytes_renc header_type) in D by done.
  assert (header_value h1 = header_value h2) as Ev by congruence.
  rewrite <- (header_of_value h1), Ev. apply header_of_value.
Qed.

(** What is hashed of a header. *)
Definition hashed_header (h : Header) : Header :=
  if bool_decide (hd_MixDigest h = TendermintDigest) then TendermintFilteredHeader h else h.

Lemma MagicExtra_bytes : is_bytes MagicExtra.
Proof. apply (bool_decide_unpack _). by vm_compute. Qed.

Lemma hashed_typed h : header_typed h -> header_typed (hashed_header h).
Proof.
  intros H. unfold hashed_header. case_bool_decide; [|done].
  destruct H as (Hh & Hb & Hd & Hn & Hgl & Hgu & Ht & He & Hno & Hm). unfold header_typed. cbn [TendermintFilteredHeader set_Extra hd_ParentHash hd_UncleHash hd_Coinbase hd_Root hd_TxHash hd_ReceiptHash hd_MixDigest hd_Bloom hd_Difficulty hd_Number hd_GasLimit hd_GasUsed hd_Time hd_Extra hd_Nonce hd_MainChainNumber].
  split_and!; try done; try apply Hb; try apply Hno. apply MagicExtra_bytes.
Qed.

Lemma hashed_header_MixDigest h : hd_MixDigest (hashed_header h) = hd_MixDigest h.
Proof. unfold hashed_header. by case_bool_decide. Qed.

Lemma hashed_header_agree h1 h2 : hashed_header h1 = hashed_header h2 ->
  set_Extra h1 [] = set_Extra h2 [] /\ (hd_MixDigest h1 <> TendermintDigest -> h1 = h2).
Proof.
  intros E. assert (hd_MixDigest h1 = hd_MixDigest h2) as Em by (by rewrite <- hashed_header_MixDigest, E, hashed_header_MixDigest).
  unfold hashed_header in E. rewrite <- Em in E. case_bool_decide.
  - split; [|done]. apply (f_equal (fun h => set_Extra h [])) in E. exact E.
  - by subst.
Qed.

Section BlockLaws.
Context {K : KeccakLib} {KL : KeccakLaws K} {L : TrieLib}.

Lemma Header_Hash_ok h : header_typed h -> Rlp.small (header_enc (hashed_header h)) -> Header_Hash h = Ret (keccak (header_enc (hashed_header h))).
Proof.
  intros Ht Hs. destruct (header_value_ok _ (hashed_typed h Ht)) as (W & E & _). unfold Header_Hash, hashed_header in *.
  case_bool_decide; by rewrite rlpHash_ok.
Qed.

(** ** Bodies *)
Definition tx_ok (tx : Transaction) : Prop := tx_typed (tx_data tx) /\ Z.of_nat (length (tx_enc (tx_data tx))) < 2 ^ 30.
Definition txs_ok (txs : list Transaction) : Prop := Forall tx_ok txs /\ Z.of_nat (length txs) < 2 ^ 64.

Lemma GetRlp_ok tx : tx_ok tx -> GetRlp tx = Ret (tx_enc (tx_data tx)).
Proof. intros [Ht Hl]. unfold GetRlp. rewrite EncodeRLP_tx; [done|done|]. unfold Rlp.small. lia. Qed.

Definition tx_encs (txs : list Transaction) : list bytes := map (fun tx => tx_enc (tx_data tx)) txs.

Lemma txs_rlps txs : txs_ok txs -> mapM GetRlp txs = Ret (tx_encs txs) /\ rlps_ok (tx_encs txs) /\ Forall (fun v => v <> []) (tx_encs txs).
Proof.
  intros [Ht Hl]. unfold tx_encs. split_and!.
  - clear Hl. induction Ht as [|tx txs Htx Ht IH]; [done|]. cbn [mapM map]. by rewrite GetRlp_ok, outcome_bind_Ret, IH.
  - split; [|by rewrite length_map]. apply Forall_fmap. eapply Forall_impl; [exact Ht|]. intros tx [? ?]. split; [by apply tx_enc_bytes|done].
  - apply Forall_fmap, Forall_true. intros tx. apply rlist_nonnil.
Qed.

Lemma DeriveSha_txs_ok txs : txs_ok txs -> DeriveSha_txs txs = Ret (root_of (items (tx_encs txs))).
Proof. intros H. destruct (txs_rlps txs H) as (E & Hr & _). unfold DeriveSha_txs. by rewrite E, outcome_bind_Ret, DeriveSha_ok. Qed.

Lemma tx_encs_inj t1 t2 : txs_ok t1 -> txs_ok t2 -> tx_encs t1 = tx_encs t2 -> map tx_data t1 = map tx_data t2.
Proof.
  intros [H1 _] [H2 _]. revert t2 H2. induction H1 as [|x t1 Hx H1 IH]; intros [|y t2] H2 E; try done. inversion H2 as [|? ? Hy H2']; subst.
  cbn [tx_encs map] in *. injection E as E E'. f_equal; [|by apply IH]. destruct Hx as [? ?], Hy as [? ?].
  apply tx_enc_inj; try done. unfold Rlp.small. lia.
Qed.

(** What ValidateBody has checked. *)
Lemma ValidateBody_inv bc b : ValidateBody bc b = Ret (Ok tt) -> b_uncles b = [] /\ DeriveSha_txs (b_transactions b) = Ret (hd_TxHash (b_header b)).
Proof.
  unfold ValidateBody. destruct (Header_Hash (b_header b)) as [hash|]; [|done]. rewrite outcome_bind_Ret. case_match; [done|].
  unfold VerifyUncles. destruct (b_uncles b) as [|u us]; [|done]. destruct (CalcUncleHash []) as [uh|]; [|done]. rewrite outcome_bind_Ret.
  case_match; [done|]. destruct (DeriveSha_txs (b_transactions b)) as [th|]; [|done]. rewrite outcome_bind_Ret.
  case_match eqn:E; [done|]. intros _. split; [done|]. apply negb_false_iff, bool_decide_eq_true in E. by rewrite E.
Qed.


Lemma forallb_map_Forall {A B} (f : A -> B) (P : B -> bool) l : Forall (fun x => P (f x) = true) l -> forallb P (map f l) = true.
Proof. induction 1; cbn; [done|]. by rewrite H, IHForall. Qed.

Definition block_ok (b : Block) : Prop :=
  header_typed (b_header b) /\ Forall header_typed (b_uncles b) /\ Forall (fun tx => tx_typed (tx_data tx)) (b_transactions b).

Definition block_enc (b : Block) : bytes := renc extblock_type no_tags (extblock_value b).

Lemma block_value_ok b : block_ok b ->
  wt extblock_type (extblock_value b) /\ encodable extblock_type (extblock_value b) = true /\ rt extblock_type no_tags (extblock_value b).
Proof.
  intros (Hh & Hu & Ht). destruct (header_value_ok _ Hh) as (W & E & R). unfold extblock_type, extblock_value.
  assert (Forall (fun u => wt header_type (header_value u) /\ encodable header_type (header_value u) = true /\ rt header_type no_tags (header_value u)) (b_uncles b)) as Hu'
    by (eapply Forall_impl; [exact Hu|exact header_value_ok]).
  assert (Forall (fun tx => wt txdata_type (txdata_value (tx_data tx)) /\ encodable txdata_type (txdata_value (tx_data tx)) = true
    /\ rt txdata_type no_tags (txdata_value (tx_data tx))) (b_transactions b)) as Ht' by (eapply Forall_impl; [exact Ht|intros tx; apply tx_value_ok]).
  cbn [wt wts encodable encodables rt rts fst snd]. split_and!; try done.
  - apply Forall_fmap. eapply Forall_impl; [exact Ht'|]. intros tx (? & _ & _). done.
  - apply Forall_fmap. eapply Forall_impl; [exact Hu'|]. intros u (? & _ & _). done.
  - rewrite E. cbn [andb]. rewrite !forallb_map_Forall; [done|..].
    + eapply Forall_impl; [exact Hu'|]. intros u (_ & ? & _). done.
    + eapply Forall_impl; [exact Ht'|]. intros tx (_ & ? & _). done.
  - apply Forall_fmap. eapply Forall_impl; [exact Ht'|]. intros tx (_ & _ & ?). done.
  - apply Forall_fmap. eapply Forall_impl; [exact Hu'|]. intros u (_ & _ & ?). done.
Qed.

(** A transaction as it comes from a decoder. *)
Definition fresh_tx (tx : Transaction) : Transaction := {| tx_data := tx_data tx; tx_from := None |}.

Lemma block_of_value b : block_of (extblock_value b) = {| b_header := b_header b; b_uncles := b_uncles b; b_transactions := map fresh_tx (b_transactions b) |}.
Proof.
  unfold block_of, extblock_value. cbn [default from_option id]. rewrite header_of_value, !map_map. f_equal.
  - rewrite <- (map_id (b_uncles b)) at 2. apply map_ext. intros u. apply header_of_value.
  - apply map_ext. intros tx. unfold fresh_tx. cbn [default from_option id]. by rewrite txdata_of_value.
Qed.


(** ** What is shown *)

(** C14: the hash of a block and its contents.  Two blocks whose bodies were
    validated and that have the same hash have the same transactions, in the same
    order, and the same header, but for the extra data, unless two encodings have
    the same Keccak hash.  The extra data, with the chain, the epoch and the
    commit, are not covered: replacing them does not change the hash of a block
    of this consensus. *)
Theorem block_hash_binds bc1 bc2 b1 b2 : header_typed (b_header b1) -> header_typed (b_header b2) ->
  Rlp.small (header_enc (hashed_header (b_header b1))) -> Rlp.small (header_enc (hashed_header (b_header b2))) ->
  txs_ok (b_transactions b1) -> txs_ok (b_transactions b2) ->
  (keccak (header_enc (hashed_header (b_header b1))) = keccak (header_enc (hashed_header (b_header b2))) ->
   header_enc (hashed_header (b_header b1)) = header_enc (hashed_header (b_header b2))) ->
  collision_free (in_play [items (tx_encs (b_transactions b1)); items (tx_encs (b_transactions b2))]) ->
  ValidateBody bc1 b1 = Ret (Ok tt) -> ValidateBody bc2 b2 = Ret (Ok tt) -> Header_Hash (b_header b1) = Header_Hash (b_header b2) ->
  map tx_data (b_transactions b1) = map tx_data (b_transactions b2) /\ set_Extra (b_header b1) [] = set_Extra (b_header b2) []
  /\ (hd_MixDigest (b_header b1) <> TendermintDigest -> b_header b1 = b_header b2)
  /\ (hd_MixDigest (b_header b1) = TendermintDigest -> forall extra, Header_Hash (set_Extra (b_header b1) extra) = Header_Hash (b_header b1)).
Proof.
  intros T1 T2 S1 S2 B1 B2 CH CF V1 V2. apply ValidateBody_inv in V1 as [_ D1], V2 as [_ D2].
  rewrite !Header_Hash_ok by done. intros [= E]. apply CH, header_enc_inj in E; [|by apply hashed_typed..|done].
  apply hashed_header_agree in E as [Ee En].
  assert (hd_TxHash (b_header b1) = hd_TxHash (b_header b2)) as Et by (by apply (f_equal hd_TxHash) in Ee).
  split_and!; [|done|done|].
  - apply tx_encs_inj; [done|done|]. destruct (txs_rlps _ B1) as (_ & R1 & N1), (txs_rlps _ B2) as (_ & R2 & N2).
    apply DeriveSha_inj; try done. rewrite DeriveSha_txs_ok in D1, D2 by done. rewrite !DeriveSha_ok by done. congruence.
  - intros Em extra. rewrite <- Header_Hash_ok by done. unfold Header_Hash. cbn [set_Extra hd_MixDigest]. by rewrite !bool_decide_true by done.
Qed.

(** a block survives its encoding.  A block whose fields have the ranges of
    their types is encoded without error, and decoding the bytes gives the same
    header, transactions and uncles. *)
Theorem block_roundtrip b : block_ok b -> Rlp.small (block_enc b) -> exists e, Block_EncodeRLP b = Ret (Ok e)
  /\ Block_DecodeRLP e = Ok {| b_header := b_header b; b_uncles := b_uncles b; b_transactions := map fresh_tx (b_transactions b) |}.
Proof.
  intros Hb Hs. destruct (block_value_ok b Hb) as (W & E & R). exists (block_enc b). split.
  - unfold Block_EncodeRLP. by rewrite EncodeToBytes_spec, E.
  - unfold Block_DecodeRLP, block_enc. rewrite DecodeBytes_renc by done. by rewrite block_of_value.
Qed.

(** A block that NewBlock assembles passes the checks of its body and of the
    state. *)
Theorem NewBlock_validates config bc header txs receipts b hash s s' :
  NewBlock header txs [] receipts = Ret b -> Header_Hash (b_header b) = Ret hash -> bc_HasBlockAndState bc hash (NumberU64 b) = false ->
  bc_HasBlockAndState bc (hd_ParentHash header) (u64 (NumberU64 b - 1)) = true -> receipts <> [] ->
  IntermediateRoot (cc_IsEIP158 config (hd_Number header)) s = Ret (s', hd_Root header) ->
  ValidateBody bc b = Ret (Ok tt) /\ ValidateState config b receipts (hd_GasUsed header) s = Ret (s', Ok tt).
Proof.
  unfold NewBlock. intros E Hh Hn Hp Hne Hr. destruct (DeriveSha_txs txs) as [th|] eqn:Et; [|done]. rewrite outcome_bind_Ret in E.
  destruct (DeriveSha_receipts receipts) as [rh|] eqn:Er; [|done]. rewrite outcome_bind_Ret in E.
  destruct receipts as [|r rs]; [done|]. destruct (CreateBloom (map r_Logs (r :: rs))) as [bl|] eqn:Eb; [|done]. rewrite outcome_bind_Ret in E.
  destruct (CalcUncleHash []) as [uh|] eqn:Eu; [|done]. rewrite outcome_bind_Ret in E. injection E as <-. split.
  - unfold ValidateBody. rewrite Hh, outcome_bind_Ret, Hn. unfold VerifyUncles. cbn [b_uncles]. rewrite Eu, outcome_bind_Ret.
    cbn [b_header set_roots hd_UncleHash b_transactions hd_TxHash hd_ParentHash]. rewrite bool_decide_true by done. cbn [negb].
    rewrite Et, outcome_bind_Ret, bool_decide_true by done. cbn [negb]. by rewrite Hp.
  - unfold ValidateState. cbn [b_header set_roots hd_GasUsed hd_Bloom hd_ReceiptHash hd_Number hd_Root]. rewrite Z.eqb_refl. cbn [negb].
    unfold mbind, SM_bind, liftS. rewrite Eb. rewrite bool_decide_true by done. cbn [negb]. rewrite Er.
    rewrite bool_decide_true by done. cbn [negb]. rewrite Hr. by rewrite bool_decide_true.
Qed.

End BlockLaws.

(** The limit of a block differs from its parent's by at most 1/1024 of it,
    whatever floor and ceiling the miner asks for. *)
Theorem CalcGasLimit_bounded used limit floor ceil : 0 <= used <= limit -> MinGasLimit <= limit < 2 ^ 62 -> floor <= ceil ->
  Z.abs (CalcGasLimit used limit floor ceil - limit) <= limit / GasLimitBoundDivisor.
Proof.
  unfold CalcGasLimit, MinGasLimit, GasLimitBoundDivisor. intros Hu Hl Hf.
  pose proof (Z.div_mod used 2). pose proof (Z.mod_pos_bound used 2). pose proof (Z.div_mod limit 1024). pose proof (Z.mod_pos_bound limit 1024).
  rewrite !(u64_id (used + used / 2)) by lia. pose proof (Z.div_mod (used + used / 2) 1024). pose proof (Z.mod_pos_bound (used + used / 2) 1024).
  rewrite !(u64_id (limit / 1024 - 1)) by lia. rewrite !(u64_id (limit - _)) by lia. rewrite !(u64_id (limit + _)) by lia.
  rewrite u64_id by lia. repeat case_match; lia.
Qed.

(** ** Examples *)
Module BlockExamples.
Import TxExamples.

Definition ex_create : Transaction := NewContractCreation 4 (Some 5) 90000 (Some 3) (replicate 40 7).
Definition ex_txs : list Transaction := [ex_signed; ex_create; ex_signed].

Definition ok_or {A} (d : A) (m : outcome A) : A := match m with Ret a => a | Panic _ => d end.

Definition ex_header (extra : bytes) : Header :=
  {| hd_ParentHash := replicate 32 1; hd_UncleHash := ok_or [] (CalcUncleHash []); hd_Coinbase := replicate 32 2; hd_Root := replicate 32 3;
     hd_TxHash := ok_or [] (DeriveSha_txs ex_txs); hd_ReceiptHash := replicate 32 4; hd_Bloom := replicate 256 0; hd_Difficulty := 1;
     hd_Number := 12; hd_GasLimit := 8000000; hd_GasUsed := 63000; hd_Time := 1600000000; hd_Extra := extra;
     hd_MixDigest := TendermintDigest; hd_Nonce := TendermintEmptyNonce; hd_MainChainNumber := 0 |}.

Definition ex_block (extra : bytes) : Block := {| b_header := ex_header extra; b_uncles := []; b_transactions := ex_txs |}.
Definition ex_chain : BlockChain := {| bc_HasBlock := fun _ n => n <? 12; bc_HasBlockAndState := fun _ n => n <? 12 |}.

#[export] Instance is_hash_dec b : Decision (is_hash b).
Proof. unfold is_hash. apply _. Defined.

Lemma ex_header_typed extra : is_bytes extra -> header_typed (ex_header extra).
Proof.
  intros He. unfold header_typed, is_uint64. split; [apply (bool_decide_unpack _); by vm_compute|].
  split; [apply (bool_decide_unpack _); by vm_compute|]. cbn [ex_header hd_Difficulty hd_Number hd_GasLimit hd_GasUsed hd_Time hd_Extra hd_Nonce hd_MainChainNumber].
  split_and!; try done; try lia. apply (bool_decide_unpack _). by vm_compute.
Qed.

Lemma ex_create_typed : tx_typed (tx_data ex_create).
Proof.
  unfold tx_typed, is_uint64. cbn [tx_data ex_create NewContractCreation newTransaction td_AccountNonce td_Price td_GasLimit td_Recipient td_Amount td_Payload td_V td_R td_S default].
  split_and!; try lia; try done. apply (bool_decide_unpack _). by vm_compute.
Qed.

Lemma ex_txs_ok : txs_ok ex_txs.
Proof.
  split; [|by vm_compute]. repeat apply Forall_cons_2; try apply Forall_nil_2; split; try exact ex_signed_typed; try exact ex_create_typed; by vm_compute.
Qed.

Lemma ex_txs_free : collision_free (in_play [items (tx_encs ex_txs); items (tx_encs ex_txs)]).
Proof. apply cf_check_ok. by vm_compute. Qed.

(** Two blocks that differ in their extra data. *)
Lemma block_hash_binds_witness : map tx_data (b_transactions (ex_block [1])) = map tx_data (b_transactions (ex_block [2; 3]))
  /\ set_Extra (b_header (ex_block [1])) [] = set_Extra (b_header (ex_block [2; 3])) [].
Proof.
  destruct (block_hash_binds ex_chain ex_chain (ex_block [1]) (ex_block [2; 3])) as (E1 & E2 & _); [..|split; [exact E1|exact E2]].
  1,2: apply ex_header_typed; repeat constructor; unfold is_byte; lia.
  1,2: by vm_compute.
  1,2: exact ex_txs_ok.
  - intros _. by vm_compute.
  - exact ex_txs_free.
  - by vm_compute.
  - by vm_compute.
  - by vm_compute.
Defined.

Lemma block_roundtrip_witness : exists e, Block_EncodeRLP (ex_block [1]) = Ret (Ok e) /\ Block_DecodeRLP e = Ok (ex_block [1]).
Proof.
  apply (block_roundtrip (ex_block [1])); [|by vm_compute]. split; [apply ex_header_typed; repeat constructor; unfold is_byte; lia|].
  split; [apply Forall_nil_2|]. repeat apply Forall_cons_2; try apply Forall_nil_2; try exact ex_signed_typed; exact ex_create_typed.
Defined.

End BlockExamples.
