(* ===== verification/BitArray.v ===== *)
(** * The bit array of ligo-libs/common-go

    The consensus code marks validators and block parts in a [BitArray], a type
    of the module github.com/ligo-libs/common-go, which is not part of the
    repository.  It enters the development as an interface: [BitArrayLib] holds
    the operations the code calls, [BitArrayLaws] what the code relies on.  A
    value of type [BA] is a Go pointer, [ba_isnil] tells whether it is nil.
    [ListBitArray] is one concrete bit array that satisfies the laws; the
    examples of the other files run on it. *)
From S2P Require Import Prelude.
Local Open Scope Z_scope.

Class BitArrayLib := {
  BA : Type;
  ba_isnil : BA -> bool;
  NewBitArray : Z -> BA;
  ba_Size : BA -> Z;
  ba_GetIndex : BA -> Z -> bool;
  ba_SetIndex : BA -> Z -> bool -> BA;
  ba_Copy : BA -> BA;
}.

Class BitArrayLaws (L : BitArrayLib) : Prop := {
  new_isnil n : 0 < n -> ba_isnil (NewBitArray n) = false;
  new_Size n : 0 <= n -> ba_Size (NewBitArray n) = n;
  new_GetIndex n i : ba_GetIndex (NewBitArray n) i = false;
  set_isnil b i v : ba_isnil (ba_SetIndex b i v) = ba_isnil b;
  set_Size b i v : ba_Size (ba_SetIndex b i v) = ba_Size b;
  set_GetIndex b i v j : 0 <= i < ba_Size b ->
    ba_GetIndex (ba_SetIndex b i v) j = if bool_decide (i = j) then v else ba_GetIndex b j;
  copy_eq b : ba_Copy b = b;
}.

(** The marks of a bit array as a list, position by position. *)
Definition ba_bits `{BitArrayLib} (b : BA) : list bool :=
  tabulate (fun i => ba_GetIndex b (Z.of_nat i)) (Z.to_nat (ba_Size b)).

Section Facts.
Context `{L : BitArrayLib} {LL : BitArrayLaws L}.

Lemma ba_bits_set b i bs :
  0 <= i < ba_Size b -> ba_bits b = bs ->
  ba_bits (ba_SetIndex b i true) = <[Z.to_nat i := true]> bs.
Proof.
  intros Hi <-. unfold ba_bits. rewrite set_Size. apply tabulate_ext.
  - by rewrite length_insert, length_tabulate.
  - intros j a Hj. rewrite set_GetIndex by done.
    assert (j < Z.to_nat (ba_Size b))%nat as Hlt.
    { apply lookup_lt_Some in Hj. rewrite length_insert, length_tabulate in Hj. done. }
    case_bool_decide as Heq.
    + subst i. rewrite Nat2Z.id in Hj. rewrite list_lookup_insert_eq in Hj; [congruence|].
      by rewrite length_tabulate.
    + rewrite list_lookup_insert_ne in Hj by lia. rewrite lookup_tabulate in Hj by done. congruence.
Qed.

Lemma ba_bits_new n : 0 <= n -> ba_bits (NewBitArray n) = replicate (Z.to_nat n) false.
Proof.
  intros Hn. unfold ba_bits. rewrite new_Size by done. apply tabulate_ext.
  - by rewrite length_replicate.
  - intros i a [-> _]%lookup_replicate. apply new_GetIndex.
Qed.

Lemma length_ba_bits b : length (ba_bits b) = Z.to_nat (ba_Size b).
Proof. apply length_tabulate. Qed.

Lemma lookup_ba_bits b i :
  0 <= i < ba_Size b -> ba_bits b !! Z.to_nat i = Some (ba_GetIndex b i).
Proof.
  intros Hi. unfold ba_bits. rewrite lookup_tabulate by lia. by rewrite Z2Nat.id by lia.
Qed.
End Facts.

(** A concrete bit array: a list of booleans, nil when empty. *)
Module ListBitArray.

#[export] Instance lib : BitArrayLib := {|
  BA := list bool;
  ba_isnil b := bool_decide (b = []);
  NewBitArray n := replicate (Z.to_nat n) false;
  ba_Size b := Z.of_nat (length b);
  ba_GetIndex b i := if bool_decide (0 <= i) then default false (b !! Z.to_nat i) else false;
  ba_SetIndex b i v := if bool_decide (0 <= i) then <[Z.to_nat i := v]> b else b;
  ba_Copy b := b;
|}.

#[export] Instance laws : BitArrayLaws lib.
Proof.
  split; simpl.
  - intros n Hn. apply bool_decide_eq_false. intros Hz.
    apply (f_equal length) in Hz. rewrite length_replicate in Hz. simpl in Hz. lia.
  - intros n Hn. rewrite length_replicate. lia.
  - intros n i. case_bool_decide; [|done].
    destruct (replicate (Z.to_nat n) false !! Z.to_nat i) eqn:E; [|done].
    by apply lookup_replicate in E as [-> _].
  - intros b i v. apply bool_decide_ext. case_bool_decide; [|done].
    by rewrite <- !List.length_zero_iff_nil, length_insert.
  - intros b i v. case_bool_decide; by rewrite ?length_insert.
  - intros b i v j Hi. rewrite (bool_decide_eq_true_2 (0 <= i)) by lia.
    destruct (decide (i = j)) as [<-|Hne].
    + rewrite !bool_decide_eq_true_2 by lia. by rewrite list_lookup_insert_eq by lia.
    + rewrite (bool_decide_eq_false_2 (i = j)) by done.
      case_bool_decide; [|done]. by rewrite list_lookup_insert_ne by lia.
  - done.
Qed.

End ListBitArray.
