(* ===== verification/TmTypes.v ===== *)
(** * The data of the consensus protocol

    The records of chain/consensus/tendermint/types: part-set headers, block
    identifiers, votes, proposals, signature aggregates, commits and the
    canonical JSON objects that are signed.  Cryptography (ligo-libs/crypto-go)
    and serialisation (ligo-libs/wire-go) are not in the repository: they are
    the classes [CryptoLib] and [WireLib]. *)
From S2P Require Import Prelude BitArray.
Local Open Scope Z_scope.

(** ** Block identifiers (part_set.go, block.go) *)

Record PartSetHeader := { psh_Total : Z; psh_Hash : bytes }.

Definition PartSetHeader_zero : PartSetHeader := {| psh_Total := 0; psh_Hash := [] |}.

Definition PartSetHeader_IsZero (psh : PartSetHeader) : bool := psh_Total psh =? 0.

Definition PartSetHeader_Equals (psh other : PartSetHeader) : bool :=
  (psh_Total psh =? psh_Total other) && bool_decide (psh_Hash psh = psh_Hash other).

Record BlockID := { bid_Hash : bytes; bid_PartsHeader : PartSetHeader }.

Definition BlockID_zero : BlockID := {| bid_Hash := []; bid_PartsHeader := PartSetHeader_zero |}.

Definition BlockID_IsZero (blockID : BlockID) : bool :=
  bool_decide (bid_Hash blockID = []) && PartSetHeader_IsZero (bid_PartsHeader blockID).

Definition BlockID_Equals (blockID other : BlockID) : bool :=
  bool_decide (bid_Hash blockID = bid_Hash other) &&
  PartSetHeader_Equals (bid_PartsHeader blockID) (bid_PartsHeader other).

#[export] Instance PartSetHeader_eq_dec : EqDecision PartSetHeader.
Proof. solve_decision. Defined.
#[export] Instance BlockID_eq_dec : EqDecision BlockID.
Proof. solve_decision. Defined.

(** ** Votes and proposals (vote.go, proposal.go)

    A signature is [None] when the Go interface value is nil. *)

Definition VoteTypePrevote : Z := 1.
Definition VoteTypePrecommit : Z := 2.

Definition IsVoteTypeValid (type_ : Z) : bool :=
  if type_ =? VoteTypePrevote then true
  else if type_ =? VoteTypePrecommit then true
  else false.

Record Vote := {
  v_ValidatorAddress : bytes;
  v_ValidatorIndex : Z;
  v_Height : Z;
  v_Round : Z;
  v_Type : Z;
  v_BlockID : BlockID;
  v_Signature : option bytes;
  v_SignBytes : bytes;
}.

#[export] Instance Vote_eq_dec : EqDecision Vote.
Proof. solve_decision. Defined.

Record Proposal := {
  p_NodeID : string;
  p_Height : Z;
  p_Round : Z;
  p_Hash : bytes;
  p_BlockPartsHeader : PartSetHeader;
  p_POLRound : Z;
  p_POLBlockID : BlockID;
  p_ProposerNetAddr : string;
  p_ProposerPeerKey : string;
  p_Signature : option bytes;
}.

#[export] Instance Proposal_eq_dec : EqDecision Proposal.
Proof. solve_decision. Defined.

Definition NewProposal (height round : Z) (hash : bytes) (blockPartsHeader : PartSetHeader)
    (polRound : Z) (polBlockID : BlockID) (peerKey : string) : Proposal :=
  {| p_NodeID := ""; p_Height := height; p_Round := round; p_Hash := hash;
     p_BlockPartsHeader := blockPartsHeader; p_POLRound := polRound;
     p_POLBlockID := polBlockID; p_ProposerNetAddr := ""; p_ProposerPeerKey := peerKey;
     p_Signature := None |}.

(** ** The errors of vote.go *)
Inductive VoteError :=
  | ErrVoteUnexpectedStep
  | ErrVoteInvalidValidatorIndex
  | ErrVoteInvalidValidatorAddress
  | ErrVoteInvalidSignature
  | ErrVoteInvalidBlockHash
  | ErrVoteConflictingVotes (VoteA VoteB : Vote)
  | ErrVoteOther (msg : string).

(** ** What is signed (canonical_json.go) *)

Record CanonicalJSONPartSetHeader := { cpsh_Hash : bytes; cpsh_Total : Z }.

Record CanonicalJSONBlockID := {
  cbid_Hash : bytes;
  cbid_PartsHeader : CanonicalJSONPartSetHeader }.

Record CanonicalJSONProposal := {
  cp_BlockPartsHeader : CanonicalJSONPartSetHeader;
  cp_Height : Z;
  cp_POLBlockID : CanonicalJSONBlockID;
  cp_POLRound : Z;
  cp_Round : Z;
  cp_Hash : bytes }.

Record CanonicalJSONVote := {
  cv_BlockID : CanonicalJSONBlockID;
  cv_Height : Z;
  cv_Round : Z;
  cv_Type : Z }.

Record CanonicalJSONOnceProposal := { cop_ChainID : string; cop_Proposal : CanonicalJSONProposal }.
Record CanonicalJSONOnceVote := { cov_ChainID : string; cov_Vote : CanonicalJSONVote }.

Definition CanonicalPartSetHeader (psh : PartSetHeader) : CanonicalJSONPartSetHeader :=
  {| cpsh_Hash := psh_Hash psh; cpsh_Total := psh_Total psh |}.

Definition CanonicalBlockID (blockID : BlockID) : CanonicalJSONBlockID :=
  {| cbid_Hash := bid_Hash blockID;
     cbid_PartsHeader := CanonicalPartSetHeader (bid_PartsHeader blockID) |}.

(** The composite literal of the source leaves the field [Hash] at its zero value. *)
Definition CanonicalProposal (proposal : Proposal) : CanonicalJSONProposal :=
  {| cp_BlockPartsHeader := CanonicalPartSetHeader (p_BlockPartsHeader proposal);
     cp_Height := p_Height proposal;
     cp_POLBlockID := CanonicalBlockID (p_POLBlockID proposal);
     cp_POLRound := p_POLRound proposal;
     cp_Round := p_Round proposal;
     cp_Hash := [] |}.

Definition CanonicalVote (vote : Vote) : CanonicalJSONVote :=
  {| cv_BlockID := CanonicalBlockID (v_BlockID vote);
     cv_Height := v_Height vote;
     cv_Round := v_Round vote;
     cv_Type := v_Type vote |}.

(** ** Serialisation and cryptography, the external libraries

    [wire_WriteJSON_*] is [None] when wire-go reports an error.  A public key
    is its byte string; [None] stands for a nil [crypto.PubKey]. *)
Class WireLib := {
  wire_BinaryBytes_psh : PartSetHeader -> bytes;
  wire_WriteJSON_vote : CanonicalJSONOnceVote -> option bytes;
  wire_WriteJSON_proposal : CanonicalJSONOnceProposal -> option bytes;
}.

Class CryptoLib := {
  PubKey_VerifyBytes : bytes -> bytes -> option bytes -> bool;
  PubKey_Equals : bytes -> bytes -> bool;
  Signature_Equals : bytes -> option bytes -> bool;
  BLSPubKeyAggregate : list bytes -> option bytes;
  BLSSignatureAggregate : list (option bytes) -> option bytes;
}.

(** wire-go encodes the plain structs of this file without error. *)
Class WireLaws (W : WireLib) : Prop := {
  wire_vote_ok v : is_Some (wire_WriteJSON_vote v);
  wire_proposal_ok p : is_Some (wire_WriteJSON_proposal p);
}.

(** [existing.Signature.Equals(vote.Signature)] accepts an identical signature,
    a nil signature does not verify, and a key equals itself. *)
Class CryptoLaws (C : CryptoLib) : Prop := {
  Signature_Equals_refl s : Signature_Equals s (Some s) = true;
  VerifyBytes_nil pk m : PubKey_VerifyBytes pk m None = false;
  PubKey_Equals_refl pk : PubKey_Equals pk pk = true;
}.

(** ** Signing (signable.go) *)

Class Signable (A : Type) := WriteSignBytes : string -> A -> option bytes.

Definition SignBytes {A} `{Signable A} (chainID : string) (o : A) : outcome bytes :=
  match WriteSignBytes chainID o with
  | Some b => Ret b
  | None => Panic "PanicCrisis"
  end.

Definition Vote_WriteSignBytes `{WireLib} (chainID : string) (vote : Vote) : option bytes :=
  wire_WriteJSON_vote {| cov_ChainID := chainID; cov_Vote := CanonicalVote vote |}.

Definition Proposal_WriteSignBytes `{WireLib} (chainID : string) (p : Proposal) : option bytes :=
  wire_WriteJSON_proposal {| cop_ChainID := chainID; cop_Proposal := CanonicalProposal p |}.

#[export] Instance Vote_Signable `{WireLib} : Signable Vote := Vote_WriteSignBytes.
#[export] Instance Proposal_Signable `{WireLib} : Signable Proposal := Proposal_WriteSignBytes.

Definition BlockID_Key `{WireLib} (blockID : BlockID) : bytes :=
  bid_Hash blockID ++ wire_BinaryBytes_psh (bid_PartsHeader blockID).

(** ** Commits and signature aggregates (block.go, sign_aggr.go) *)

Section Aggregates.
Context `{BitArrayLib}.

Record Commit := {
  c_BlockID : BlockID;
  c_Height : Z;
  c_Round : Z;
  c_SignAggr : option bytes;
  c_BitArray : BA;
}.

Definition Commit_Type (commit : Commit) : Z := VoteTypePrecommit.

Definition Commit_Size (commit : Commit) : Z := i64 (ba_Size (c_BitArray commit)).

Definition Commit_ValidateBasic (commit : Commit) : result string unit :=
  if BlockID_IsZero (c_BlockID commit) then Err "Commit cannot be for nil block"%string
  else Ok tt.

Record SignAggr := {
  sa_ChainID : string;
  sa_Height : Z;
  sa_Round : Z;
  sa_Type : Z;
  sa_NumValidators : Z;
  sa_BlockID : BlockID;
  sa_Maj23 : BlockID;
  sa_BitArray : BA;
  sa_Sum : Z;
  sa_SignatureAggr : option bytes;
  sa_SignBytes : bytes;
}.

Definition MakeSignAggr (height round mtype numValidators : Z) (blockID : BlockID)
    (chainID : string) (bitArray : BA) (signAggr : option bytes) : SignAggr :=
  {| sa_Height := height; sa_Round := round; sa_Type := mtype;
     sa_NumValidators := numValidators; sa_BlockID := blockID; sa_Maj23 := blockID;
     sa_ChainID := chainID; sa_BitArray := bitArray; sa_SignatureAggr := signAggr;
     sa_Sum := 0; sa_SignBytes := [] |}.

End Aggregates.

(** ** Facts *)

Lemma PartSetHeader_Equals_spec a b : PartSetHeader_Equals a b = true <-> a = b.
Proof.
  unfold PartSetHeader_Equals. rewrite andb_true_iff, Z.eqb_eq, bool_decide_eq_true.
  destruct a, b; simpl. split; [by intros [-> ->]|by intros [= -> ->]].
Qed.

Lemma BlockID_Equals_spec a b : BlockID_Equals a b = true <-> a = b.
Proof.
  unfold BlockID_Equals. rewrite andb_true_iff, PartSetHeader_Equals_spec, bool_decide_eq_true.
  destruct a, b; simpl. split; [by intros [-> ->]|by intros [= -> ->]].
Qed.

Lemma IsVoteTypeValid_spec t :
  IsVoteTypeValid t = true <-> t = VoteTypePrevote \/ t = VoteTypePrecommit.
Proof. unfold IsVoteTypeValid, VoteTypePrevote, VoteTypePrecommit. repeat case_match; lia. Qed.

(** ** Concrete libraries for the examples

    A signature is the key followed by the message, an aggregate signature the
    concatenation of signatures of one message; the encodings list the fields. *)
Module ToyLibs.

Definition enc_header (h : CanonicalJSONPartSetHeader) : bytes := cpsh_Total h :: cpsh_Hash h.
Definition enc_block (b : CanonicalJSONBlockID) : bytes :=
  Z.of_nat (length (cbid_Hash b)) :: cbid_Hash b ++ enc_header (cbid_PartsHeader b).

#[export] Instance wire : WireLib := {|
  wire_BinaryBytes_psh p := psh_Total p :: psh_Hash p;
  wire_WriteJSON_vote v := Some (1 :: cv_Height (cov_Vote v) :: cv_Round (cov_Vote v) ::
    cv_Type (cov_Vote v) :: enc_block (cv_BlockID (cov_Vote v)));
  wire_WriteJSON_proposal p := Some (2 :: cp_Height (cop_Proposal p) :: cp_Round (cop_Proposal p) ::
    cp_POLRound (cop_Proposal p) :: enc_block (cp_POLBlockID (cop_Proposal p))
    ++ enc_header (cp_BlockPartsHeader (cop_Proposal p)) ++ cp_Hash (cop_Proposal p));
|}.

#[export] Instance wire_laws : WireLaws wire.
Proof. split; intros; simpl; eauto. Qed.

#[export] Instance crypto : CryptoLib := {|
  PubKey_VerifyBytes pk m s := bool_decide (s = Some (pk ++ m));
  PubKey_Equals a b := bool_decide (a = b);
  Signature_Equals s t := bool_decide (Some s = t);
  BLSPubKeyAggregate pks := Some (concat pks);
  BLSSignatureAggregate sigs := Some (concat (omap id sigs));
|}.

#[export] Instance crypto_laws : CryptoLaws crypto.
Proof. split; intros; simpl; [by apply bool_decide_eq_true|done|by apply bool_decide_eq_true]. Qed.

End ToyLibs.
