(* ===== verification/ValidatorSet.v ===== *)
(** * Validator sets and quorums

    chain/consensus/tendermint/types: validator.go and validator_set.go, with
    the quorum threshold [Loose23MajorThreshold] of vote_set.go.  A validator
    set is a list of validators; its indices are the ones votes and bit arrays
    refer to. *)
From S2P Require Import Prelude BitArray TmTypes.
From Stdlib Require Sorted.
Local Open Scope Z_scope.

(** ** The quorum threshold (vote_set.go) *)

Definition LooseRound : Z := 30.
Definition HalfLooseRound : Z := 15.

(** [big.Int.Div] is Euclidean division, which is [Z.div] for a positive divisor. *)
Definition Loose23MajorThreshold (totalVotingPower round : Z) : Z :=
  let round := if HalfLooseRound <=? round then HalfLooseRound else round in
  let quorum1 := totalVotingPower * (2 * LooseRound - round) in
  let quorum1 := quorum1 + 3 * LooseRound in
  quorum1 / (3 * LooseRound).

(** ** Validators (validator.go) *)

Record Validator := {
  val_Address : bytes;
  val_PubKey : bytes;
  val_VotingPower : Z;
  val_RemainingEpoch : Z;
}.

#[export] Instance Validator_eq_dec : EqDecision Validator.
Proof. solve_decision. Defined.

Definition NewValidator (address pubKey : bytes) (votingPower : Z) : Validator :=
  {| val_Address := address; val_PubKey := pubKey; val_VotingPower := votingPower;
     val_RemainingEpoch := 0 |}.

Definition Validator_Copy (v : Validator) : Validator :=
  {| val_Address := val_Address v; val_PubKey := val_PubKey v;
     val_VotingPower := val_VotingPower v; val_RemainingEpoch := val_RemainingEpoch v |}.

Definition Validator_Equals `{CryptoLib} (v other : Validator) : bool :=
  bool_decide (val_Address v = val_Address other) &&
  PubKey_Equals (val_PubKey v) (val_PubKey other) &&
  (val_VotingPower v =? val_VotingPower other).

(** ** Validator sets (validator_set.go)

    [Validators = None] is Go's nil slice. *)

Record ValidatorSet := {
  Validators : option (list Validator);
  totalVotingPower : option Z;
}.

Definition vals (valSet : ValidatorSet) : list Validator := default [] (Validators valSet).

Definition ValidatorsByAddress_Less (a b : Validator) : bool :=
  bytes_Compare (val_Address a) (val_Address b) =? -1.

(** [sort.Sort(ValidatorsByAddress(validators))], as an insertion sort. *)
Fixpoint insert_by_address (v : Validator) (l : list Validator) : list Validator :=
  match l with
  | [] => [v]
  | x :: l' => if ValidatorsByAddress_Less x v then x :: insert_by_address v l' else v :: l
  end.

Fixpoint sort_by_address (l : list Validator) : list Validator :=
  match l with
  | [] => []
  | v :: l' => insert_by_address v (sort_by_address l')
  end.

Definition NewValidatorSet (vs : list Validator) : ValidatorSet :=
  {| Validators := Some (sort_by_address (Validator_Copy <$> vs)); totalVotingPower := None |}.

Definition ValidatorSet_Copy (valSet : ValidatorSet) : ValidatorSet :=
  {| Validators := Some (Validator_Copy <$> vals valSet);
     totalVotingPower := totalVotingPower valSet |}.

Definition ValidatorSet_Size (valSet : ValidatorSet) : Z := Z.of_nat (length (vals valSet)).

Definition ValidatorSet_TotalVotingPower (valSet : ValidatorSet) : Z := ValidatorSet_Size valSet.

(** The loop that HasAddress, GetByAddress, Add and Remove share: the first
    index whose address compares equal, -1 when there is none. *)
Fixpoint address_index (address : bytes) (l : list Validator) (i : Z) : Z :=
  match l with
  | [] => -1
  | v :: l' => if bytes_Compare address (val_Address v) =? 0 then i else address_index address l' (i + 1)
  end.

Definition ValidatorSet_HasAddress (valSet : ValidatorSet) (address : bytes) : bool :=
  negb (address_index address (vals valSet) 0 =? -1).

Definition ValidatorSet_GetByAddress (valSet : ValidatorSet) (address : bytes) : Z * option Validator :=
  let idx := address_index address (vals valSet) 0 in
  if negb (idx =? -1) then
    match vals valSet !! Z.to_nat idx with
    | Some v => (idx, Some (Validator_Copy v))
    | None => (0, None)
    end
  else (0, None).

(** The source reads the slice without a bounds check. *)
Definition ValidatorSet_GetByIndex (valSet : ValidatorSet) (index : Z) : outcome (bytes * option Validator) :=
  val ← slice_get (vals valSet) index;
  Ret (val_Address val, Some (Validator_Copy val)).

Definition ValidatorSet_Add (valSet : ValidatorSet) (val : Validator) : ValidatorSet * bool :=
  let val := Validator_Copy val in
  let idx := address_index (val_Address val) (vals valSet) 0 in
  if idx =? -1 then
    ({| Validators := Some (vals valSet ++ [val]); totalVotingPower := None |}, true)
  else (valSet, false).

Definition ValidatorSet_Update (valSet : ValidatorSet) (val : Validator) : ValidatorSet * bool :=
  let '(index, sameVal) := ValidatorSet_GetByAddress valSet (val_Address val) in
  match sameVal with
  | None => (valSet, false)
  | Some _ =>
      ({| Validators := Some (<[Z.to_nat index := Validator_Copy val]> (vals valSet));
          totalVotingPower := None |}, true)
  end.

Definition ValidatorSet_Remove (valSet : ValidatorSet) (address : bytes)
    : ValidatorSet * (option Validator * bool) :=
  let idx := address_index address (vals valSet) 0 in
  if idx =? -1 then (valSet, (None, false))
  else
    let removedVal := vals valSet !! Z.to_nat idx in
    let newValidators := take (Z.to_nat idx) (vals valSet) in
    let newValidators :=
      if idx + 1 <? ValidatorSet_Size valSet
      then newValidators ++ drop (Z.to_nat (idx + 1)) (vals valSet)
      else newValidators in
    ({| Validators := Some newValidators; totalVotingPower := None |}, (removedVal, true)).

(** [Iterate] calls [fn] on each validator until it answers true; the state of
    the closure is threaded. *)
Fixpoint iterate_from {S} (fn : S -> Z -> Validator -> S * bool) (s : S) (i : Z) (l : list Validator) : S :=
  match l with
  | [] => s
  | v :: l' =>
      let '(s', stop) := fn s i (Validator_Copy v) in
      if stop then s' else iterate_from fn s' (i + 1) l'
  end.

Definition ValidatorSet_Iterate {S} (valSet : ValidatorSet) (fn : S -> Z -> Validator -> S * bool) (s : S) : S :=
  iterate_from fn s 0 (vals valSet).

Section WithLibs.
Context `{BitArrayLib} `{CryptoLib} `{WireLib}.

Definition ValidatorSet_Equals (valSet other : ValidatorSet) : bool :=
  if negb (ValidatorSet_Size valSet =? ValidatorSet_Size other) then false
  else
    forallb (fun v =>
      match ValidatorSet_GetByAddress valSet (val_Address v) with
      | (_, Some val) => Validator_Equals val v
      | (_, None) => false
      end) (vals other).

(** The keys of the marked validators, in index order. *)
Fixpoint marked_keys (bitMap : BA) (i : Z) (l : list Validator) : list bytes :=
  match l with
  | [] => []
  | v :: l' =>
      if ba_GetIndex bitMap i then val_PubKey v :: marked_keys bitMap (i + 1) l'
      else marked_keys bitMap (i + 1) l'
  end.

Definition ValidatorSet_AggrPubKey (valSet : ValidatorSet) (bitMap : BA) : option bytes :=
  if ba_isnil bitMap then None
  else if negb (i64 (ba_Size bitMap) =? Z.of_nat (length (vals valSet))) then None
  else BLSPubKeyAggregate (marked_keys bitMap 0 (vals valSet)).

(** The loop of TalliedVotingPower; its three sums are [powerSum], [votesSum]
    and [totalVotes]. *)
Fixpoint tally_loop (bitMap : BA) (i : Z) (l : list Validator) (acc : Z * Z * Z) : Z * Z * Z :=
  match l with
  | [] => acc
  | v :: l' =>
      let '(powerSum, votesSum, totalVotes) := acc in
      let acc' :=
        if ba_GetIndex bitMap i
        then (powerSum + 1, votesSum + val_VotingPower v, totalVotes + val_VotingPower v)
        else (powerSum, votesSum, totalVotes + val_VotingPower v) in
      tally_loop bitMap (i + 1) l' acc'
  end.

Definition ValidatorSet_TalliedVotingPower (valSet : ValidatorSet) (bitMap : BA)
    : result string (Z * Z * Z) :=
  if ba_isnil bitMap then Err "invalid bitmap(nil)"%string
  else match Validators valSet with
  | None => Err "invalid validators(nil)"%string
  | Some validators =>
      if negb (ValidatorSet_Size valSet =? i64 (ba_Size bitMap))
      then Err "size is not equal"%string
      else Ok (tally_loop bitMap 0 validators (0, 0, 0))
  end.

Definition ValidatorSet_VerifyCommit (valSet : ValidatorSet) (chainID : string) (height : Z)
    (commit : option Commit) : outcome (result string unit) :=
  match commit with
  | None => Ret (Err "invalid commit(nil)"%string)
  | Some commit =>
    if negb (u64 (ValidatorSet_Size valSet) =? ba_Size (c_BitArray commit))
    then Ret (Err "invalid commit -- wrong set size"%string)
    else if negb (height =? c_Height commit)
    then Ret (Err "invalid commit -- wrong height"%string)
    else
      let vote := {| v_ValidatorAddress := []; v_ValidatorIndex := 0;
                     v_Height := c_Height commit; v_Round := u64 (c_Round commit);
                     v_Type := Commit_Type commit; v_BlockID := c_BlockID commit;
                     v_Signature := None; v_SignBytes := [] |} in
      msg ← SignBytes chainID vote;
      match ValidatorSet_AggrPubKey valSet (c_BitArray commit) with
      | None => Panic "nil pointer dereference"
      | Some pubKey =>
        if negb (PubKey_VerifyBytes pubKey msg (c_SignAggr commit))
        then Ret (Err "invalid commit -- wrong Signature or BitArray"%string)
        else match ValidatorSet_TalliedVotingPower valSet (c_BitArray commit) with
        | Err e => Ret (Err e)
        | Ok (_, votesSum, totalVotes) =>
          let quorum := Loose23MajorThreshold totalVotes (c_Round commit) in
          if quorum <=? votesSum then Ret (Ok tt)
          else Ret (Err "invalid commit -- insufficient voting power"%string)
        end
      end
  end.

End WithLibs.

(** ** Facts about comparison and lookup by address *)

Lemma bytes_Compare_eq a b : bytes_Compare a b = 0 <-> a = b.
Proof.
  revert b. induction a as [|x a IH]; intros [|y b]; simpl; try done.
  destruct (Z.ltb_spec x y); [split; [done|intros [= -> ->]; lia]|].
  destruct (Z.ltb_spec y x); [split; [done|intros [= -> ->]; lia]|].
  rewrite IH. replace x with y by lia. split; [by intros ->|by intros [= ->]].
Qed.

Lemma bytes_Compare_range a b : bytes_Compare a b = -1 \/ bytes_Compare a b = 0 \/ bytes_Compare a b = 1.
Proof.
  revert b. induction a as [|x a IH]; intros [|y b]; simpl; auto.
  destruct (x <? y); [auto|]. destruct (y <? x); auto.
Qed.

Lemma bytes_Compare_antisym a b : bytes_Compare b a = - bytes_Compare a b.
Proof.
  revert b. induction a as [|x a IH]; intros [|y b]; simpl; try done.
  destruct (Z.ltb_spec x y), (Z.ltb_spec y x); try lia; auto.
Qed.

Lemma bytes_Compare_trans a b c :
  bytes_Compare a b <> 1 -> bytes_Compare b c <> 1 -> bytes_Compare a c <> 1.
Proof.
  revert b c. induction a as [|x a IH]; intros [|y b] [|z c]; simpl; try done.
  destruct (Z.ltb_spec x y), (Z.ltb_spec y x), (Z.ltb_spec y z), (Z.ltb_spec z y),
    (Z.ltb_spec x z), (Z.ltb_spec z x); try lia; try done. apply IH.
Qed.

(** The search loop is the first match of a list search. *)
Lemma address_index_find a l i :
  address_index a l i =
  match list_find (fun v => val_Address v = a) l with
  | Some (k, _) => i + Z.of_nat k
  | None => -1
  end.
Proof.
  revert i. induction l as [|v l IH]; intros i; simpl; [done|].
  destruct (Z.eqb_spec (bytes_Compare a (val_Address v)) 0) as [He|He];
    rewrite bytes_Compare_eq in He.
  - subst a. rewrite decide_True by done. lia.
  - rewrite decide_False by done. rewrite IH.
    destruct (list_find _ l) as [[k w]|]; simpl; lia.
Qed.

Lemma address_index_none a l :
  address_index a l 0 = -1 <-> a ∉ (val_Address <$> l).
Proof.
  rewrite address_index_find. destruct (list_find _ l) as [[k w]|] eqn:E.
  - apply list_find_Some in E as (Hk & Ha & _). split; [lia|].
    intros Hn. destruct Hn. apply list_elem_of_fmap. exists w. split; [done|].
    by eapply list_elem_of_lookup_2.
  - split; [|done]. intros _ (w & -> & Hw)%list_elem_of_fmap.
    apply list_find_None in E. rewrite Forall_forall in E. exact (E w Hw eq_refl).
Qed.

Lemma address_index_some a l k v :
  NoDup (val_Address <$> l) -> l !! k = Some v -> val_Address v = a ->
  address_index a l 0 = Z.of_nat k.
Proof.
  intros Hnd Hk Ha. rewrite address_index_find.
  assert (list_find (fun v => val_Address v = a) l = Some (k, v)) as ->; [|lia].
  apply list_find_Some. split; [done|]. split; [done|].
  intros j w Hj Hjk Hw. subst a.
  assert (j = k); [|lia]. apply (NoDup_lookup (val_Address <$> l) j k (val_Address v)); [done|..].
  - by rewrite list_lookup_fmap, Hj; simpl; rewrite Hw.
  - by rewrite list_lookup_fmap, Hk.
Qed.

Lemma GetByAddress_Some valSet a i v :
  ValidatorSet_GetByAddress valSet a = (i, Some v) ->
  0 <= i /\ vals valSet !! Z.to_nat i = Some v /\ val_Address v = a.
Proof.
  unfold ValidatorSet_GetByAddress. rewrite address_index_find.
  destruct (list_find _ _) as [[k w]|] eqn:E; [|done].
  apply list_find_Some in E as (Hk & Ha & _).
  replace (negb (0 + Z.of_nat k =? -1)) with true by (destruct (Z.eqb_spec (0 + Z.of_nat k) (-1)); [lia|done]).
  rewrite Z.add_0_l, Nat2Z.id, Hk. intros [= <- <-].
  rewrite Nat2Z.id. destruct w; auto with lia.
Qed.

Lemma GetByAddress_lookup valSet k v :
  NoDup (val_Address <$> vals valSet) -> vals valSet !! k = Some v ->
  ValidatorSet_GetByAddress valSet (val_Address v) = (Z.of_nat k, Some v).
Proof.
  intros Hnd Hk. unfold ValidatorSet_GetByAddress.
  rewrite (address_index_some _ _ k v) by done.
  replace (negb (Z.of_nat k =? -1)) with true by (destruct (Z.eqb_spec (Z.of_nat k) (-1)); [lia|done]).
  rewrite Nat2Z.id, Hk. by destruct v.
Qed.

Lemma GetByAddress_none valSet a :
  a ∉ (val_Address <$> vals valSet) -> ValidatorSet_GetByAddress valSet a = (0, None).
Proof.
  intros Hn. unfold ValidatorSet_GetByAddress. by rewrite (proj2 (address_index_none _ _) Hn).
Qed.

Lemma Validator_Copy_id v : Validator_Copy v = v.
Proof. by destruct v. Qed.

Lemma fmap_Validator_Copy (l : list Validator) : Validator_Copy <$> l = l.
Proof. induction l as [|v l IH]; [done|]. rewrite fmap_cons, IH. by destruct v. Qed.

(** ** Sorting *)

Definition addr_le (a b : Validator) : Prop := bytes_Compare (val_Address a) (val_Address b) <> 1.

Lemma Less_spec a b : ValidatorsByAddress_Less a b = true -> addr_le a b.
Proof. unfold ValidatorsByAddress_Less, addr_le. lia. Qed.

Lemma not_Less_spec a b : ValidatorsByAddress_Less a b = false -> addr_le b a.
Proof.
  unfold ValidatorsByAddress_Less, addr_le. rewrite (bytes_Compare_antisym (val_Address a)).
  pose proof (bytes_Compare_range (val_Address a) (val_Address b)). lia.
Qed.

Lemma insert_by_address_perm v l : insert_by_address v l ≡ₚ v :: l.
Proof.
  induction l as [|x l IH]; simpl; [done|]. destruct (ValidatorsByAddress_Less x v); [|done].
  rewrite IH. apply Permutation_swap.
Qed.

Lemma sort_by_address_perm l : sort_by_address l ≡ₚ l.
Proof. induction l as [|v l IH]; simpl; [done|]. by rewrite insert_by_address_perm, IH. Qed.

Lemma insert_by_address_sorted v l :
  Sorted.StronglySorted addr_le l -> Sorted.StronglySorted addr_le (insert_by_address v l).
Proof.
  induction 1 as [|x l Hs IH Hx]; simpl; [by repeat constructor|].
  destruct (ValidatorsByAddress_Less x v) eqn:E.
  - constructor; [done|]. rewrite insert_by_address_perm. constructor; [by apply Less_spec|done].
  - constructor; [by constructor|]. apply not_Less_spec in E. constructor; [done|].
    eapply Forall_impl; [done|]. intros y Hy. by eapply bytes_Compare_trans.
Qed.

Lemma sort_by_address_sorted l : Sorted.StronglySorted addr_le (sort_by_address l).
Proof. induction l; simpl; [constructor|]. by apply insert_by_address_sorted. Qed.

(** ** Voting power *)

Definition powers (valSet : ValidatorSet) : list Z := val_VotingPower <$> vals valSet.

(** What the code needs of a validator set: it is not the nil slice, it fits in
    an [int], and no voting power is negative. *)
Record valset_ok (valSet : ValidatorSet) : Prop := {
  vok_some : is_Some (Validators valSet);
  vok_size : ValidatorSet_Size valSet < 2 ^ 63;
  vok_pow : Forall (fun w => 0 <= w) (powers valSet);
}.

Section Power.
Context `{L : BitArrayLib} {LL : BitArrayLaws L} `{C : CryptoLib} `{W : WireLib}.

Lemma tally_loop_spec b i l bs p q t :
  length bs = length l ->
  (forall k x, bs !! k = Some x -> ba_GetIndex b (i + Z.of_nat k) = x) ->
  tally_loop b i l (p, q, t) =
    (p + wsum (replicate (length l) 1) bs,
     q + wsum (val_VotingPower <$> l) bs,
     t + zsum (val_VotingPower <$> l)).
Proof.
  revert i bs p q t. induction l as [|v l IH]; intros i bs p q t Hl Hb; cbn [tally_loop].
  - destruct bs; [|done]. cbn. rewrite !pair_eq. lia.
  - destruct bs as [|x bs]; [done|].
    assert (ba_GetIndex b i = x) as Hx.
    { rewrite <- (Hb 0%nat x) by done. f_equal. lia. }
    assert (forall k x, bs !! k = Some x -> ba_GetIndex b (i + 1 + Z.of_nat k) = x) as Hb'.
    { intros k y Hy. rewrite <- (Hb (S k) y) by done. f_equal. lia. }
    rewrite Hx, fmap_cons. cbn [wsum zsum replicate length].
    destruct x; (rewrite (IH _ bs); [|simpl in Hl; lia|done]); rewrite !pair_eq; lia.
Qed.

(** The sums TalliedVotingPower returns, when it returns no error. *)
Lemma TalliedVotingPower_Ok valSet b :
  ba_isnil b = false -> is_Some (Validators valSet) ->
  ba_Size b = ValidatorSet_Size valSet -> ValidatorSet_Size valSet < 2 ^ 63 ->
  ValidatorSet_TalliedVotingPower valSet b =
    Ok (wsum (replicate (length (vals valSet)) 1) (ba_bits b),
        wsum (powers valSet) (ba_bits b), zsum (powers valSet)).
Proof.
  intros Hnil [l Hl] Hs Hb. unfold ValidatorSet_TalliedVotingPower, powers, vals.
  rewrite Hnil, Hl. simpl.
  assert (0 <= ValidatorSet_Size valSet) by (unfold ValidatorSet_Size; lia).
  rewrite Hs, i64_id by lia. rewrite Z.eqb_refl. simpl.
  rewrite (tally_loop_spec _ _ _ (ba_bits b)).
  - done.
  - rewrite length_ba_bits, Hs. unfold ValidatorSet_Size, vals. rewrite Hl. simpl. lia.
  - intros k x Hk. rewrite Z.add_0_l. unfold ba_bits in Hk.
    rewrite lookup_tabulate in Hk.
    + by injection Hk.
    + apply lookup_lt_Some in Hk. by rewrite length_tabulate in Hk.
Qed.

End Power.

(** ** The quorum threshold *)

Lemma Loose23_bounds T r :
  let m := Z.min r 15 in
  (60 - m) * T < 90 * Loose23MajorThreshold T r <= (60 - m) * T + 90.
Proof.
  intros m. unfold Loose23MajorThreshold, LooseRound, HalfLooseRound.
  assert ((if 15 <=? r then 15 else r) = m) as ->.
  { unfold m. destruct (Z.leb_spec 15 r); lia. }
  change (2 * 30) with 60. change (3 * 30) with 90. cbv zeta.
  pose proof (Z.div_mod (T * (60 - m) + 90) 90). 
  pose proof (Z.mod_pos_bound (T * (60 - m) + 90) 90). lia.
Qed.

Lemma Loose23_majority T r : 0 <= T -> T < 2 * Loose23MajorThreshold T r.
Proof. intros HT. pose proof (Loose23_bounds T r) as H. simpl in H. nia. Qed.

Lemma Loose23_pos T r : 0 <= T -> 0 < Loose23MajorThreshold T r.
Proof. intros HT. pose proof (Loose23_majority T r HT). lia. Qed.

(** ** A validator set as a map from addresses *)

Definition addr_pairs (l : list Validator) : list (bytes * Validator) :=
  (fun v => (val_Address v, v)) <$> l.

Definition addr_map (valSet : ValidatorSet) : gmap bytes Validator :=
  list_to_map (addr_pairs (vals valSet)).

(** No address occurs twice. *)
Definition addr_unique (valSet : ValidatorSet) : Prop := NoDup (val_Address <$> vals valSet).

Lemma addr_pairs_fst (l : list Validator) : (addr_pairs l).*1 = val_Address <$> l.
Proof. unfold addr_pairs. by rewrite <- list_fmap_compose. Qed.

Lemma addr_map_lookup valSet a v :
  addr_unique valSet ->
  addr_map valSet !! a = Some v <-> v ∈ vals valSet /\ val_Address v = a.
Proof.
  intros Hu. unfold addr_map. rewrite <- elem_of_list_to_map by (by rewrite addr_pairs_fst).
  unfold addr_pairs. rewrite list_elem_of_fmap. split.
  - intros (w & [= -> ->] & Hw). done.
  - intros [Hv <-]. by exists v.
Qed.

Lemma addr_map_none valSet a :
  addr_map valSet !! a = None <-> a ∉ (val_Address <$> vals valSet).
Proof. unfold addr_map. by rewrite <- not_elem_of_list_to_map, addr_pairs_fst. Qed.

Lemma GetByAddress_addr_map valSet a :
  addr_unique valSet -> (ValidatorSet_GetByAddress valSet a).2 = addr_map valSet !! a.
Proof.
  intros Hu. destruct (addr_map valSet !! a) as [v|] eqn:E.
  - apply addr_map_lookup in E as [Hv <-]; [|done].
    apply list_elem_of_lookup in Hv as [k Hk]. by rewrite (GetByAddress_lookup valSet k v).
  - apply addr_map_none in E. by rewrite GetByAddress_none.
Qed.

Lemma Add_refines valSet v vs' added :
  addr_unique valSet -> ValidatorSet_Add valSet v = (vs', added) ->
  addr_unique vs' /\
  match addr_map valSet !! val_Address v with
  | None => added = true /\ addr_map vs' = <[val_Address v := v]> (addr_map valSet)
  | Some _ => added = false /\ vs' = valSet
  end.
Proof.
  intros Hu. unfold ValidatorSet_Add. rewrite Validator_Copy_id.
  destruct (Z.eqb_spec (address_index (val_Address v) (vals valSet) 0) (-1)) as [Hi|Hi]; intros [= <- <-].
  - apply address_index_none in Hi. rewrite (proj2 (addr_map_none valSet _)) by done.
    split; [|split; [done|]].
    + unfold addr_unique, vals at 1. simpl. rewrite fmap_app. apply NoDup_app.
      split; [done|]. split; [|apply NoDup_singleton].
      intros a Ha1 Ha2%list_elem_of_singleton. by subst.
    + unfold addr_map, vals at 1. simpl. unfold addr_pairs. rewrite fmap_app. simpl.
      rewrite list_to_map_snoc; [done|]. fold (addr_pairs (vals valSet)). by rewrite addr_pairs_fst.
  - split; [done|]. destruct (addr_map valSet !! val_Address v) eqn:E; [done|].
    destruct Hi. by apply address_index_none, addr_map_none.
Qed.

Lemma Update_refines valSet v vs' updated :
  addr_unique valSet -> ValidatorSet_Update valSet v = (vs', updated) ->
  addr_unique vs' /\
  match addr_map valSet !! val_Address v with
  | Some _ => updated = true /\ addr_map vs' = <[val_Address v := v]> (addr_map valSet)
  | None => updated = false /\ vs' = valSet
  end.
Proof.
  intros Hu. unfold ValidatorSet_Update. rewrite Validator_Copy_id.
  pose proof (GetByAddress_addr_map valSet (val_Address v) Hu) as Hget.
  destruct (ValidatorSet_GetByAddress valSet (val_Address v)) as [i [w|]] eqn:E; simpl in Hget;
    rewrite <- Hget; intros [= <- <-]; [|done].
  apply GetByAddress_Some in E as (Hi & Hk & Ha). set (k := Z.to_nat i) in *.
  assert (val_Address <$> <[k := v]> (vals valSet) = val_Address <$> vals valSet) as Haddrs.
  { rewrite list_fmap_insert. apply list_insert_id. by rewrite list_lookup_fmap, Hk; simpl; rewrite Ha. }
  assert (addr_unique {| Validators := Some (<[k:=v]> (vals valSet)); totalVotingPower := None |}) as Hu'.
  { unfold addr_unique, vals at 1. simpl. by rewrite Haddrs. }
  split; [done|]. split; [done|].
  assert (k < length (vals valSet))%nat as Hlt by (by eapply lookup_lt_Some).
  apply map_eq. intros a. apply option_eq. intros x. rewrite addr_map_lookup by done.
  unfold vals at 1. simpl. rewrite lookup_insert. case_decide as Hd.
  - subst a. split.
    + intros [Hx Hxa]. f_equal. apply list_elem_of_lookup in Hx as [j Hj].
      destruct (decide (j = k)) as [->|Hne]; [by rewrite list_lookup_insert_eq in Hj by done; simplify_eq|].
      rewrite list_lookup_insert_ne in Hj by done. exfalso. apply Hne.
      eapply (NoDup_lookup (val_Address <$> vals valSet)); [done|..];
        rewrite list_lookup_fmap; [by rewrite Hj|]. rewrite Hk. simpl. congruence.
    + intros [= <-]. split; [|done]. apply list_elem_of_lookup. exists k. by apply list_lookup_insert_eq.
  - rewrite addr_map_lookup by done. split; intros [Hx <-]; (split; [|done]);
      apply list_elem_of_lookup in Hx as [j Hj]; apply list_elem_of_lookup; exists j.
    + destruct (decide (j = k)) as [->|Hne]; [|by rewrite list_lookup_insert_ne in Hj by done].
      rewrite list_lookup_insert_eq in Hj by done. by simplify_eq.
    + rewrite list_lookup_insert_ne; [done|]. intros <-. rewrite Hk in Hj. simplify_eq.
Qed.

Lemma Remove_refines valSet a vs' old removed :
  addr_unique valSet -> ValidatorSet_Remove valSet a = (vs', (old, removed)) ->
  addr_unique vs' /\ old = addr_map valSet !! a /\ removed = is_some old /\
  addr_map vs' = delete a (addr_map valSet).
Proof.
  intros Hu. unfold ValidatorSet_Remove.
  destruct (Z.eqb_spec (address_index a (vals valSet) 0) (-1)) as [Hi|Hi].
  { intros [= <- <- <-]. apply address_index_none, addr_map_none in Hi. rewrite Hi.
    split; [done|]. split; [done|]. split; [done|]. by rewrite delete_id. }
  rewrite address_index_find in Hi |- *.
  destruct (list_find _ (vals valSet)) as [[k w]|] eqn:E; [|done].
  apply list_find_Some in E as (Hk & Ha & _). rewrite !Z.add_0_l, Nat2Z.id.
  assert (k < length (vals valSet))%nat as Hlt by (by eapply lookup_lt_Some).
  replace (Z.to_nat (Z.of_nat k + 1)) with (S k) by lia.
  set (l := vals valSet) in *.
  assert ((if Z.of_nat k + 1 <? ValidatorSet_Size valSet then take k l ++ drop (S k) l else take k l)
    = take k l ++ drop (S k) l) as ->.
  { destruct (Z.ltb_spec (Z.of_nat k + 1) (ValidatorSet_Size valSet)) as [|Hge]; [done|].
    rewrite drop_ge; [by rewrite app_nil_r|]. unfold ValidatorSet_Size in Hge. fold l in Hge. lia. }
  intros [= <- <- <-].
  assert (l ≡ₚ w :: (take k l ++ drop (S k) l)) as Hperm.
  { rewrite <- (take_drop_middle l k w Hk) at 1. by rewrite Permutation_middle. }
  assert (addr_map valSet !! a = Some w) as Hw.
  { apply addr_map_lookup; [done|]. split; [|done]. by eapply list_elem_of_lookup_2. }
  assert (NoDup (val_Address <$> w :: take k l ++ drop (S k) l)) as Hnd by (by rewrite <- Hperm).
  rewrite fmap_cons in Hnd. apply NoDup_cons in Hnd as [Hna Hnd].
  set (vs' := {| Validators := Some (take k l ++ drop (S k) l); totalVotingPower := None |}).
  assert (addr_unique vs') as Hu' by exact Hnd.
  split; [done|]. rewrite Hk, Hw. split; [done|]. split; [done|].
  apply map_eq. intros b. apply option_eq. intros x. rewrite addr_map_lookup by done.
  assert (x ∈ l <-> x = w \/ x ∈ vals vs') as Hl by (rewrite <- elem_of_cons; by f_equiv).
  rewrite lookup_delete. case_decide as Hd.
  - subst b. split; [|done]. intros [Hx Hxa]. destruct Hna. apply list_elem_of_fmap. exists x. split; [congruence|exact Hx].
  - rewrite addr_map_lookup by done. fold l. rewrite Hl.
    split; intros [Hx Hxa]; (split; [|done]); [by right|]. destruct Hx as [->|]; [congruence|done].
Qed.

(** ** The theorems *)

Lemma Loose23_antitone T r r' :
  0 <= T -> r <= r' -> Loose23MajorThreshold T r' <= Loose23MajorThreshold T r.
Proof.
  intros HT Hr. unfold Loose23MajorThreshold, LooseRound, HalfLooseRound.
  apply Z.div_le_mono; [lia|]. destruct (Z.leb_spec 15 r), (Z.leb_spec 15 r'); nia.
Qed.

(** The quorum threshold is the formula of its comment, the larger of
    [((2*LooseRound-round)*total + 3*LooseRound)/(3*LooseRound)] and
    [total/2 + 1]; it is two thirds plus one in round 0, never more than the
    total power, never less than a majority, and it loosens as rounds pass. *)
Theorem Loose23_threshold_spec T r :
  0 <= T -> 0 <= r ->
  Loose23MajorThreshold T r =
    Z.max (((2 * LooseRound - r) * T + 3 * LooseRound) / (3 * LooseRound)) (T / 2 + 1) /\
  T < 2 * Loose23MajorThreshold T r /\
  (0 < T -> Loose23MajorThreshold T r <= T) /\
  Loose23MajorThreshold T 0 = 2 * T / 3 + 1 /\
  (forall r', r <= r' -> Loose23MajorThreshold T r' <= Loose23MajorThreshold T r).
Proof.
  intros HT Hr. repeat split.
  - unfold Loose23MajorThreshold, LooseRound, HalfLooseRound.
    change (2 * 30) with 60. change (3 * 30) with 90. cbv zeta.
    destruct (Z.leb_spec 15 r).
    + rewrite Z.max_r.
      * pose proof (Z.mod_pos_bound T 2). pose proof (Z.div_mod T 2).
        symmetry. apply Z.div_unique with ((T mod 2) * 45); lia.
      * apply Z.lt_succ_r, Z.div_lt_upper_bound; [lia|]. pose proof (Z.div_mod T 2).
        pose proof (Z.mod_pos_bound T 2). nia.
    + rewrite Z.max_l; [f_equal; lia|]. apply Z.div_le_lower_bound; [lia|].
      pose proof (Z.div_mod T 2). pose proof (Z.mod_pos_bound T 2). nia.
  - by apply Loose23_majority.
  - intros HT'. pose proof (Loose23_bounds T r) as Hb. simpl in Hb.
    assert (Loose23MajorThreshold T r <= Loose23MajorThreshold T 0) by (apply Loose23_antitone; lia).
    pose proof (Loose23_bounds T 0) as Hb0. simpl in Hb0. lia.
  - unfold Loose23MajorThreshold, LooseRound, HalfLooseRound. cbn [Z.leb Z.compare].
    pose proof (Z.mod_pos_bound (2 * T) 3). pose proof (Z.div_mod (2 * T) 3).
    symmetry. apply Z.div_unique with (30 * ((2 * T) mod 3)); lia.
  - intros r' Hr'. by apply Loose23_antitone.
Qed.

Lemma Loose23_threshold_spec_witness :
  Loose23MajorThreshold 40 0 = 27 /\ Loose23MajorThreshold 40 20 = 21 /\
  Loose23MajorThreshold 40 3 <= 40.
Proof.
  split; [reflexivity|]. split; [reflexivity|].
  destruct (Loose23_threshold_spec 40 3) as (_ & _ & H & _); [lia|lia|]. apply H. lia.
Defined.

(** NewValidatorSet keeps exactly the given validators and orders them by
    address, so indices do not depend on the order in which they were given. *)
Theorem NewValidatorSet_sorted vs :
  vals (NewValidatorSet vs) ≡ₚ vs /\
  Sorted.StronglySorted addr_le (vals (NewValidatorSet vs)) /\
  ValidatorSet_Size (NewValidatorSet vs) = Z.of_nat (length vs).
Proof.
  unfold NewValidatorSet, ValidatorSet_Size, vals. simpl. rewrite fmap_Validator_Copy.
  split; [apply sort_by_address_perm|]. split; [apply sort_by_address_sorted|].
  by rewrite (sort_by_address_perm vs).
Qed.

(** On a validator set without repeated addresses, GetByAddress, Add,
    Update and Remove implement lookup, insertion if absent, replacement if
    present, and deletion of the map from addresses to validators, report what
    they did, and keep addresses distinct. *)
Theorem validator_set_refines_map valSet v a :
  addr_unique valSet ->
  (ValidatorSet_GetByAddress valSet a).2 = addr_map valSet !! a /\
  (let '(vs', added) := ValidatorSet_Add valSet v in
   addr_unique vs' /\
   match addr_map valSet !! val_Address v with
   | None => added = true /\ addr_map vs' = <[val_Address v := v]> (addr_map valSet)
   | Some _ => added = false /\ vs' = valSet
   end) /\
  (let '(vs', updated) := ValidatorSet_Update valSet v in
   addr_unique vs' /\
   match addr_map valSet !! val_Address v with
   | Some _ => updated = true /\ addr_map vs' = <[val_Address v := v]> (addr_map valSet)
   | None => updated = false /\ vs' = valSet
   end) /\
  (let '(vs', (old, removed)) := ValidatorSet_Remove valSet a in
   addr_unique vs' /\ old = addr_map valSet !! a /\ removed = is_some old /\
   addr_map vs' = delete a (addr_map valSet)).
Proof.
  intros Hu. split; [by apply GetByAddress_addr_map|]. split; [|split].
  - destruct (ValidatorSet_Add valSet v) eqn:E. by eapply Add_refines.
  - destruct (ValidatorSet_Update valSet v) eqn:E. by eapply Update_refines.
  - destruct (ValidatorSet_Remove valSet a) as [? [? ?]] eqn:E. by eapply Remove_refines.
Qed.

Lemma validator_set_refines_map_witness :
  let vs := NewValidatorSet [NewValidator [2] [102] 10; NewValidator [1] [101] 10] in
  addr_unique vs /\ (ValidatorSet_GetByAddress vs [2]).2 = addr_map vs !! [2].
Proof.
  assert (addr_unique (NewValidatorSet [NewValidator [2] [102] 10; NewValidator [1] [101] 10])) as H.
  { unfold addr_unique. apply (bool_decide_unpack _). vm_compute. exact I. }
  split; [exact H|].
  destruct (validator_set_refines_map _ (NewValidator [2] [102] 10) [2] H) as [Hg _]. exact Hg.
Defined.

Section Commits.
Context `{L : BitArrayLib} {LL : BitArrayLaws L} `{C : CryptoLib} `{W : WireLib}.

(** The vote whose sign bytes a commit's aggregate signature covers. *)
Definition commit_vote (commit : Commit) : Vote :=
  {| v_ValidatorAddress := []; v_ValidatorIndex := 0; v_Height := c_Height commit;
     v_Round := u64 (c_Round commit); v_Type := VoteTypePrecommit; v_BlockID := c_BlockID commit;
     v_Signature := None; v_SignBytes := [] |}.

Record commit_valid (valSet : ValidatorSet) (chainID : string) (height : Z) (commit : Commit) : Prop := {
  cv_size : ba_Size (c_BitArray commit) = ValidatorSet_Size valSet;
  cv_height : c_Height commit = height;
  cv_signed : exists pk msg,
    BLSPubKeyAggregate (marked_keys (c_BitArray commit) 0 (vals valSet)) = Some pk /\
    WriteSignBytes chainID (commit_vote commit) = Some msg /\
    PubKey_VerifyBytes pk msg (c_SignAggr commit) = true;
  cv_quorum : Loose23MajorThreshold (zsum (powers valSet)) (c_Round commit) <=
    wsum (powers valSet) (ba_bits (c_BitArray commit));
}.

Lemma VerifyCommit_valid valSet chainID height commit :
  valset_ok valSet -> ba_isnil (c_BitArray commit) = false ->
  ValidatorSet_VerifyCommit valSet chainID height (Some commit) = Ret (Ok tt) <->
  commit_valid valSet chainID height commit.
Proof.
  intros [Hsome Hsz Hp] Hnil. assert (0 <= ValidatorSet_Size valSet) as H0 by (unfold ValidatorSet_Size; lia).
  unfold ValidatorSet_VerifyCommit. rewrite u64_id by lia.
  destruct (Z.eqb_spec (ValidatorSet_Size valSet) (ba_Size (c_BitArray commit))) as [Hs|Hs]; simpl.
  2: { split; [done|]. intros []. congruence. }
  destruct (Z.eqb_spec height (c_Height commit)) as [Hh|Hh]; simpl.
  2: { split; [done|]. intros []. congruence. }
  change (WriteSignBytes chainID _) with (WriteSignBytes chainID (commit_vote commit)).
  unfold SignBytes. change {| v_ValidatorAddress := []; v_ValidatorIndex := 0; v_Height := c_Height commit;
     v_Round := u64 (c_Round commit); v_Type := Commit_Type commit; v_BlockID := c_BlockID commit;
     v_Signature := None; v_SignBytes := [] |} with (commit_vote commit).
  destruct (WriteSignBytes chainID (commit_vote commit)) as [msg|] eqn:Hmsg; go_bind.
  2: { split; [done|]. intros [_ _ (pk & msg & _ & ? & _) _]. congruence. }
  unfold ValidatorSet_AggrPubKey. rewrite Hnil, <- Hs, i64_id by lia.
  fold (ValidatorSet_Size valSet). rewrite Z.eqb_refl. simpl.
  destruct (BLSPubKeyAggregate _) as [pk|] eqn:Hpk.
  2: { split; [done|]. intros [_ _ (pk & ? & ? & _) _]. congruence. }
  destruct (PubKey_VerifyBytes pk msg (c_SignAggr commit)) eqn:Hver; simpl.
  2: { split; [done|]. intros [_ _ (pk' & msg' & ? & ? & ?) _]. congruence. }
  rewrite TalliedVotingPower_Ok by done.
  destruct (Z.leb_spec (Loose23MajorThreshold (zsum (powers valSet)) (c_Round commit))
    (wsum (powers valSet) (ba_bits (c_BitArray commit)))) as [Hq|Hq].
  - split; [|done]. intros _. split; eauto.
  - split; [done|]. intros []. lia.
Qed.

(** VerifyCommit accepts a commit exactly when its bit array has the size of
    the validator set, its height is the expected one, the aggregate of the
    marked validators' keys verifies its signature of the precommit for its
    block, and the marked voting power reaches the threshold of its round. *)
Theorem VerifyCommit_iff valSet chainID height commit :
  valset_ok valSet -> ba_isnil (c_BitArray commit) = false ->
  ValidatorSet_VerifyCommit valSet chainID height (Some commit) = Ret (Ok tt) <->
  commit_valid valSet chainID height commit.
Proof. apply VerifyCommit_valid. Qed.


End Commits.

Module ValidatorSetExamples.
Import ListBitArray ToyLibs.

Definition ex_vals : ValidatorSet :=
  NewValidatorSet ((fun i => NewValidator [i] [100 + i] 10) <$> [3; 1; 2]).

(** All three validators of the example sign block [b]. *)
Definition ex_commit (b round : Z) : Commit :=
  let bid := {| bid_Hash := [b]; bid_PartsHeader := {| psh_Total := 1; psh_Hash := [b] |} |} in
  let c sig := {| c_BlockID := bid; c_Height := 9; c_Round := round; c_SignAggr := sig;
                  c_BitArray := [true; true; true] |} in
  c (match Vote_WriteSignBytes "ligo" (commit_vote (c None)) with
     | Some m => Some ([101; 102; 103] ++ m)
     | None => None
     end).

Lemma ex_vals_ok : valset_ok ex_vals.
Proof. split; [by eexists|done|]. repeat constructor; done. Qed.

Lemma VerifyCommit_iff_witness :
  ValidatorSet_VerifyCommit ex_vals "ligo" 9 (Some (ex_commit 5 0)) = Ret (Ok tt) /\
  commit_valid ex_vals "ligo" 9 (ex_commit 5 0).
Proof.
  assert (ValidatorSet_VerifyCommit ex_vals "ligo" 9 (Some (ex_commit 5 0)) = Ret (Ok tt)) as H
    by (vm_compute; reflexivity).
  split; [exact H|]. apply (proj1 (VerifyCommit_iff ex_vals "ligo" 9 (ex_commit 5 0) ex_vals_ok eq_refl) H).
Defined.


End ValidatorSetExamples.
