(* ===== verification/VoteSet.v ===== *)
(** * Vote sets

    chain/consensus/tendermint/types/vote_set.go: the votes of one height, round
    and type, the canonical list [votes], the lists per block [votesByBlock],
    and the first block [maj23] that reached a quorum. *)
From S2P Require Import Prelude BitArray TmTypes ValidatorSet.
Local Open Scope Z_scope.

Section Model.
Context `{BitArrayLib} `{CryptoLib} `{WireLib}.

Record blockVotes := {
  bv_peerMaj23 : bool;
  bv_bitArray : BA;
  bv_votes : list (option Vote);
  bv_sum : Z;
}.

Definition newBlockVotes (peerMaj23 : bool) (numValidators : Z) : blockVotes :=
  {| bv_peerMaj23 := peerMaj23;
     bv_bitArray := NewBitArray (u64 numValidators);
     bv_votes := replicate (Z.to_nat numValidators) None;
     bv_sum := 0 |}.

Definition blockVotes_addVerifiedVote (vs : blockVotes) (vote : Vote) (votingPower : Z)
    : outcome blockVotes :=
  let valIndex := v_ValidatorIndex vote in
  existing ← slice_get (bv_votes vs) valIndex;
  match existing with
  | None =>
      votes ← slice_set (bv_votes vs) valIndex (Some vote);
      Ret {| bv_peerMaj23 := bv_peerMaj23 vs;
             bv_bitArray := ba_SetIndex (bv_bitArray vs) valIndex true;
             bv_votes := votes;
             bv_sum := bv_sum vs + votingPower |}
  | Some _ => Ret vs
  end.

(** The receiver may be nil. *)
Definition blockVotes_getByIndex (vs : option blockVotes) (index : Z) : outcome (option Vote) :=
  match vs with
  | None => Ret None
  | Some vs => slice_get (bv_votes vs) index
  end.

Record VoteSet := {
  vs_chainID : string;
  vs_height : Z;
  vs_round : Z;
  vs_type : Z;
  vs_valSet : ValidatorSet;
  vs_votesBitArray : BA;
  vs_votes : list (option Vote);
  vs_sum : Z;
  vs_maj23 : option BlockID;
  vs_votesByBlock : gmap bytes blockVotes;
  vs_peerMaj23s : gmap string BlockID;
}.

Definition NewVoteSet (chainID : string) (height round type_ : Z) (valSet : ValidatorSet)
    : outcome VoteSet :=
  if height =? 0 then Panic "Cannot make VoteSet for height == 0, doesn't make sense."
  else Ret {| vs_chainID := chainID;
              vs_height := height;
              vs_round := round;
              vs_type := type_;
              vs_valSet := valSet;
              vs_votesBitArray := NewBitArray (u64 (ValidatorSet_Size valSet));
              vs_votes := replicate (Z.to_nat (ValidatorSet_Size valSet)) None;
              vs_sum := 0;
              vs_maj23 := None;
              vs_votesByBlock := ∅;
              vs_peerMaj23s := ∅ |}.

(** Assignments to the fields of a vote set. *)
Definition vs_set_votes (vs : VoteSet) (votes : list (option Vote)) : VoteSet :=
  {| vs_chainID := vs_chainID vs; vs_height := vs_height vs; vs_round := vs_round vs;
     vs_type := vs_type vs; vs_valSet := vs_valSet vs; vs_votesBitArray := vs_votesBitArray vs;
     vs_votes := votes; vs_sum := vs_sum vs; vs_maj23 := vs_maj23 vs;
     vs_votesByBlock := vs_votesByBlock vs; vs_peerMaj23s := vs_peerMaj23s vs |}.
Definition vs_set_bit (vs : VoteSet) (i : Z) : VoteSet :=
  {| vs_chainID := vs_chainID vs; vs_height := vs_height vs; vs_round := vs_round vs;
     vs_type := vs_type vs; vs_valSet := vs_valSet vs;
     vs_votesBitArray := ba_SetIndex (vs_votesBitArray vs) i true;
     vs_votes := vs_votes vs; vs_sum := vs_sum vs; vs_maj23 := vs_maj23 vs;
     vs_votesByBlock := vs_votesByBlock vs; vs_peerMaj23s := vs_peerMaj23s vs |}.
Definition vs_set_sum (vs : VoteSet) (sum : Z) : VoteSet :=
  {| vs_chainID := vs_chainID vs; vs_height := vs_height vs; vs_round := vs_round vs;
     vs_type := vs_type vs; vs_valSet := vs_valSet vs; vs_votesBitArray := vs_votesBitArray vs;
     vs_votes := vs_votes vs; vs_sum := sum; vs_maj23 := vs_maj23 vs;
     vs_votesByBlock := vs_votesByBlock vs; vs_peerMaj23s := vs_peerMaj23s vs |}.
Definition vs_set_maj23 (vs : VoteSet) (maj23 : option BlockID) : VoteSet :=
  {| vs_chainID := vs_chainID vs; vs_height := vs_height vs; vs_round := vs_round vs;
     vs_type := vs_type vs; vs_valSet := vs_valSet vs; vs_votesBitArray := vs_votesBitArray vs;
     vs_votes := vs_votes vs; vs_sum := vs_sum vs; vs_maj23 := maj23;
     vs_votesByBlock := vs_votesByBlock vs; vs_peerMaj23s := vs_peerMaj23s vs |}.
Definition vs_set_block (vs : VoteSet) (k : bytes) (bv : blockVotes) : VoteSet :=
  {| vs_chainID := vs_chainID vs; vs_height := vs_height vs; vs_round := vs_round vs;
     vs_type := vs_type vs; vs_valSet := vs_valSet vs; vs_votesBitArray := vs_votesBitArray vs;
     vs_votes := vs_votes vs; vs_sum := vs_sum vs; vs_maj23 := vs_maj23 vs;
     vs_votesByBlock := <[k := bv]> (vs_votesByBlock vs); vs_peerMaj23s := vs_peerMaj23s vs |}.
Definition vs_set_peer (vs : VoteSet) (p : string) (b : BlockID) : VoteSet :=
  {| vs_chainID := vs_chainID vs; vs_height := vs_height vs; vs_round := vs_round vs;
     vs_type := vs_type vs; vs_valSet := vs_valSet vs; vs_votesBitArray := vs_votesBitArray vs;
     vs_votes := vs_votes vs; vs_sum := vs_sum vs; vs_maj23 := vs_maj23 vs;
     vs_votesByBlock := vs_votesByBlock vs; vs_peerMaj23s := <[p := b]> (vs_peerMaj23s vs) |}.

(** ** Reading *)

Definition VoteSet_Size (voteSet : option VoteSet) : Z :=
  match voteSet with None => 0 | Some vs => ValidatorSet_Size (vs_valSet vs) end.

Definition VoteSet_Height (voteSet : option VoteSet) : Z :=
  match voteSet with None => 0 | Some vs => vs_height vs end.

Definition VoteSet_Round (voteSet : option VoteSet) : Z :=
  match voteSet with None => -1 | Some vs => vs_round vs end.

Definition VoteSet_Type (voteSet : option VoteSet) : Z :=
  match voteSet with None => 0 | Some vs => vs_type vs end.

Definition VoteSet_getVote (voteSet : VoteSet) (valIndex : Z) (blockKey : bytes) : outcome (option Vote) :=
  existing ← slice_get (vs_votes voteSet) valIndex;
  match existing with
  | Some e =>
      if bool_decide (BlockID_Key (v_BlockID e) = blockKey) then Ret (Some e)
      else blockVotes_getByIndex (vs_votesByBlock voteSet !! blockKey) valIndex
  | None => blockVotes_getByIndex (vs_votesByBlock voteSet !! blockKey) valIndex
  end.

Definition VoteSet_BitArrayByBlockID (voteSet : VoteSet) (blockID : BlockID) : option BA :=
  match vs_votesByBlock voteSet !! BlockID_Key blockID with
  | Some votesByBlock => Some (ba_Copy (bv_bitArray votesByBlock))
  | None => None
  end.

Definition VoteSet_GetByIndex (voteSet : option VoteSet) (valIndex : Z) : outcome (option Vote) :=
  match voteSet with
  | None => Ret None
  | Some vs => slice_get (vs_votes vs) valIndex
  end.

Definition VoteSet_GetByAddress (voteSet : option VoteSet) (address : bytes) : outcome (option Vote) :=
  match voteSet with
  | None => Ret None
  | Some vs =>
      match ValidatorSet_GetByAddress (vs_valSet vs) address with
      | (_, None) => Panic "GetByAddress(address) returned nil"
      | (valIndex, Some _) => slice_get (vs_votes vs) valIndex
      end
  end.

Definition VoteSet_HasTwoThirdsMajority (voteSet : option VoteSet) : bool :=
  match voteSet with None => false | Some vs => is_some (vs_maj23 vs) end.

Definition VoteSet_IsCommit (voteSet : option VoteSet) : bool :=
  match voteSet with
  | None => false
  | Some vs => if negb (vs_type vs =? VoteTypePrecommit) then false else is_some (vs_maj23 vs)
  end.

Definition VoteSet_TwoThirdsMajority (voteSet : option VoteSet) : BlockID * bool :=
  match voteSet with
  | None => (BlockID_zero, false)
  | Some vs => match vs_maj23 vs with Some b => (b, true) | None => (BlockID_zero, false) end
  end.

(** ** Adding a vote *)

(** [for i, vote := range votesByBlock.votes { if vote != nil { voteSet.votes[i] = vote } }] *)
Fixpoint copy_votes (dst src : list (option Vote)) : outcome (list (option Vote)) :=
  match src, dst with
  | [], _ => Ret dst
  | Some v :: src', _ :: dst' => d ← copy_votes dst' src'; Ret (Some v :: d)
  | None :: src', x :: dst' => d ← copy_votes dst' src'; Ret (x :: d)
  | Some _ :: _, [] => Panic "index out of range"
  | None :: src', [] => copy_votes [] src'
  end.

(** The first half of addVerifiedVote: the canonical list.  The second
    component is the conflicting vote. *)
Definition store_canonical (voteSet : VoteSet) (vote : Vote) (blockKey : bytes) (votingPower : Z)
    : outcome (VoteSet * option Vote) :=
  let valIndex := v_ValidatorIndex vote in
  existing ← slice_get (vs_votes voteSet) valIndex;
  match existing with
  | Some e =>
      if BlockID_Equals (v_BlockID e) (v_BlockID vote)
      then Panic "addVerifiedVote does not expect duplicate votes"
      else
        match vs_maj23 voteSet with
        | Some m =>
            if bool_decide (BlockID_Key m = blockKey) then
              votes ← slice_set (vs_votes voteSet) valIndex (Some vote);
              Ret (vs_set_bit (vs_set_votes voteSet votes) valIndex, Some e)
            else Ret (voteSet, Some e)
        | None => Ret (voteSet, Some e)
        end
  | None =>
      votes ← slice_set (vs_votes voteSet) valIndex (Some vote);
      Ret (vs_set_sum (vs_set_bit (vs_set_votes voteSet votes) valIndex)
             (vs_sum voteSet + votingPower), None)
  end.

(** The last part of addVerifiedVote: add to the votes of the block and see
    whether that crosses the quorum. *)
Definition add_to_block (voteSet : VoteSet) (votesByBlock : blockVotes) (vote : Vote) (blockKey : bytes)
    (votingPower : Z) (conflicting : option Vote) : outcome (VoteSet * (bool * option Vote)) :=
  let origSum := bv_sum votesByBlock in
  match ValidatorSet_TalliedVotingPower (vs_valSet voteSet) (bv_bitArray votesByBlock) with
  | Err _ => Ret (voteSet, (false, conflicting))
  | Ok (_, _, totalVotes) =>
      let quorum := Loose23MajorThreshold totalVotes (i64 (v_Round vote)) in
      votesByBlock ← blockVotes_addVerifiedVote votesByBlock vote votingPower;
      let voteSet := vs_set_block voteSet blockKey votesByBlock in
      if (origSum <? quorum) && (quorum <=? bv_sum votesByBlock) then
        match vs_maj23 voteSet with
        | None =>
            let voteSet := vs_set_maj23 voteSet (Some (v_BlockID vote)) in
            votes ← copy_votes (vs_votes voteSet) (bv_votes votesByBlock);
            Ret (vs_set_votes voteSet votes, (true, conflicting))
        | Some _ => Ret (voteSet, (true, conflicting))
        end
      else Ret (voteSet, (true, conflicting))
  end.

Definition VoteSet_addVerifiedVote (voteSet : VoteSet) (vote : Vote) (blockKey : bytes) (votingPower : Z)
    : outcome (VoteSet * (bool * option Vote)) :=
  '(voteSet, conflicting) ← store_canonical voteSet vote blockKey votingPower;
  match vs_votesByBlock voteSet !! blockKey with
  | Some votesByBlock =>
      if is_some conflicting && negb (bv_peerMaj23 votesByBlock)
      then Ret (voteSet, (false, conflicting))
      else add_to_block voteSet votesByBlock vote blockKey votingPower conflicting
  | None =>
      if is_some conflicting then Ret (voteSet, (false, conflicting))
      else
        let votesByBlock := newBlockVotes false (ValidatorSet_Size (vs_valSet voteSet)) in
        add_to_block (vs_set_block voteSet blockKey votesByBlock) votesByBlock vote blockKey
          votingPower conflicting
  end.

(** [(added, err)] with [err = None] for nil. *)
Definition VoteSet_addVote (voteSet : VoteSet) (vote : Vote)
    : outcome (VoteSet * (bool * option VoteError)) :=
  let valIndex := v_ValidatorIndex vote in
  let valAddr := v_ValidatorAddress vote in
  let blockKey := BlockID_Key (v_BlockID vote) in
  if (valIndex <? 0) || bool_decide (valAddr = [])
  then Panic "Validator index or address was not set in vote."
  else if negb (v_Height vote =? vs_height voteSet) || negb (i64 (v_Round vote) =? vs_round voteSet)
          || negb (v_Type vote =? vs_type voteSet)
  then Ret (voteSet, (false, Some ErrVoteUnexpectedStep))
  else
    '(lookupAddr, val) ← ValidatorSet_GetByIndex (vs_valSet voteSet) (i64 valIndex);
    match val with
    | None => Ret (voteSet, (false, Some ErrVoteInvalidValidatorIndex))
    | Some val =>
      if negb (bool_decide (valAddr = lookupAddr))
      then Ret (voteSet, (false, Some ErrVoteInvalidValidatorAddress))
      else
        existing ← VoteSet_getVote voteSet (i64 valIndex) blockKey;
        match existing with
        | Some existing =>
            match v_Signature existing with
            | None => Panic "nil pointer dereference"
            | Some sig =>
                if Signature_Equals sig (v_Signature vote)
                then Ret (voteSet, (false, None))
                else Ret (voteSet, (false, Some ErrVoteInvalidSignature))
            end
        | None =>
            msg ← SignBytes (vs_chainID voteSet) vote;
            if negb (PubKey_VerifyBytes (val_PubKey val) msg (v_Signature vote))
            then Ret (voteSet, (false, Some ErrVoteInvalidSignature))
            else
              '(voteSet, (added, conflicting)) ←
                VoteSet_addVerifiedVote voteSet vote blockKey (val_VotingPower val);
              match conflicting with
              | Some c => Ret (voteSet, (added, Some (ErrVoteConflictingVotes c vote)))
              | None =>
                  if negb added then Panic "Expected to add non-conflicting vote"
                  else Ret (voteSet, (added, None))
              end
        end
    end.

Definition VoteSet_AddVote (voteSet : option VoteSet) (vote : Vote)
    : outcome (VoteSet * (bool * option VoteError)) :=
  match voteSet with
  | None => Panic "AddVote() on nil VoteSet"
  | Some vs => VoteSet_addVote vs vote
  end.

Definition VoteSet_SetPeerMaj23 (voteSet : VoteSet) (peerID : string) (blockID : BlockID) : VoteSet :=
  let blockKey := BlockID_Key blockID in
  match vs_peerMaj23s voteSet !! peerID with
  | Some existing => voteSet
  | None =>
      let voteSet := vs_set_peer voteSet peerID blockID in
      match vs_votesByBlock voteSet !! blockKey with
      | Some votesByBlock =>
          if bv_peerMaj23 votesByBlock then voteSet
          else vs_set_block voteSet blockKey
                 {| bv_peerMaj23 := true; bv_bitArray := bv_bitArray votesByBlock;
                    bv_votes := bv_votes votesByBlock; bv_sum := bv_sum votesByBlock |}
      | None =>
          vs_set_block voteSet blockKey (newBlockVotes true (ValidatorSet_Size (vs_valSet voteSet)))
      end
  end.

End Model.

(** ** The invariant of a vote set *)

Section Invariant.
Context `{L : BitArrayLib} `{C : CryptoLib} `{W : WireLib}.

Definition quorum_of (vs : VoteSet) : Z :=
  Loose23MajorThreshold (zsum (powers (vs_valSet vs))) (vs_round vs).

(** A stored vote: it belongs to this height, round and type, sits at its
    validator's index, carries the validator's address, and its signature
    verifies. *)
Record vote_ok (vs : VoteSet) (i : nat) (v : Vote) : Prop := {
  vo_index : v_ValidatorIndex v = Z.of_nat i;
  vo_height : v_Height v = vs_height vs;
  vo_round : i64 (v_Round v) = vs_round vs;
  vo_type : v_Type v = vs_type vs;
  vo_signed : exists val msg, vals (vs_valSet vs) !! i = Some val /\
    v_ValidatorAddress v = val_Address val /\
    WriteSignBytes (vs_chainID vs) v = Some msg /\
    PubKey_VerifyBytes (val_PubKey val) msg (v_Signature v) = true;
}.

Record bv_wf (valSet : ValidatorSet) (k : bytes) (bv : blockVotes) : Prop := {
  bvw_len : length (bv_votes bv) = length (vals valSet);
  bvw_nil : 0 < ValidatorSet_Size valSet -> ba_isnil (bv_bitArray bv) = false;
  bvw_size : ba_Size (bv_bitArray bv) = ValidatorSet_Size valSet;
  bvw_bits : ba_bits (bv_bitArray bv) = is_some <$> bv_votes bv;
  bvw_sum : bv_sum bv = wsum (powers valSet) (is_some <$> bv_votes bv);
  bvw_key : forall i v, bv_votes bv !! i = Some (Some v) -> BlockID_Key (v_BlockID v) = k;
}.

(** The invariant except for quorums; [P] exempts a vote from having an entry
    in [votesByBlock], which is the state in the middle of addVerifiedVote. *)
Record vs_base (P : nat -> Vote -> Prop) (vs : VoteSet) : Prop := {
  w_valset : valset_ok (vs_valSet vs);
  w_len : length (vs_votes vs) = length (vals (vs_valSet vs));
  w_size : ba_Size (vs_votesBitArray vs) = ValidatorSet_Size (vs_valSet vs);
  w_bits : ba_bits (vs_votesBitArray vs) = is_some <$> vs_votes vs;
  w_sum : vs_sum vs = wsum (powers (vs_valSet vs)) (is_some <$> vs_votes vs);
  w_votes : forall i v, vs_votes vs !! i = Some (Some v) -> vote_ok vs i v;
  w_block : forall k bv, vs_votesByBlock vs !! k = Some bv ->
    bv_wf (vs_valSet vs) k bv /\
    forall i v, bv_votes bv !! i = Some (Some v) ->
      vote_ok vs i v /\ exists u, vs_votes vs !! i = Some (Some u);
  w_canon : forall i v, vs_votes vs !! i = Some (Some v) -> P i v \/
    exists bv, vs_votesByBlock vs !! BlockID_Key (v_BlockID v) = Some bv /\
      (bv_votes bv !! i = Some (Some v) \/
       exists m, vs_maj23 vs = Some m /\ BlockID_Key m = BlockID_Key (v_BlockID v));
}.

(** [maj23] is set exactly when some block has reached the quorum. *)
Record vs_quorum (vs : VoteSet) : Prop := {
  w_maj : forall m, vs_maj23 vs = Some m ->
    exists bv, vs_votesByBlock vs !! BlockID_Key m = Some bv /\ quorum_of vs <= bv_sum bv;
  w_cross : forall k bv, vs_votesByBlock vs !! k = Some bv ->
    quorum_of vs <= bv_sum bv -> is_Some (vs_maj23 vs);
}.

Definition vs_wf (vs : VoteSet) : Prop := vs_base (fun _ _ => False) vs /\ vs_quorum vs.

(** What never changes, and what only grows. *)
Record vs_extends (vs vs' : VoteSet) : Prop := {
  x_chainID : vs_chainID vs' = vs_chainID vs;
  x_height : vs_height vs' = vs_height vs;
  x_round : vs_round vs' = vs_round vs;
  x_type : vs_type vs' = vs_type vs;
  x_valSet : vs_valSet vs' = vs_valSet vs;
  x_maj23 : forall m, vs_maj23 vs = Some m -> vs_maj23 vs' = Some m;
  x_votes : forall i v, vs_votes vs !! i = Some (Some v) -> exists v', vs_votes vs' !! i = Some (Some v');
  x_block : forall k bv i v, vs_votesByBlock vs !! k = Some bv -> bv_votes bv !! i = Some (Some v) ->
    exists bv', vs_votesByBlock vs' !! k = Some bv' /\ bv_votes bv' !! i = Some (Some v);
}.

#[export] Instance vs_extends_preorder : PreOrder vs_extends.
Proof.
  split.
  - intros vs. split; eauto.
  - intros a b c [] []. split; try congruence; eauto.
    + intros i v Hv. destruct (x_votes0 i v Hv) as [v' ?]. eauto.
    + intros k bv i v Hk Hv. destruct (x_block0 k bv i v Hk Hv) as (bv' & ? & ?). eauto.
Qed.

End Invariant.

Section Proofs.
Context `{L : BitArrayLib} {LL : BitArrayLaws L} `{C : CryptoLib} `{W : WireLib}.

Lemma copy_votes_spec dst src :
  length src = length dst ->
  copy_votes dst src =
    Ret (zip_with (fun d s => match s with Some _ => s | None => d end) dst src).
Proof.
  revert dst. induction src as [|[v|] src IH]; intros [|d dst] Hl; simplify_eq/=; try done;
    rewrite IH by done; done.
Qed.

Lemma newBlockVotes_wf valSet k pm :
  valset_ok valSet -> bv_wf valSet k (newBlockVotes pm (ValidatorSet_Size valSet)).
Proof.
  intros [_ Hs _]. assert (0 <= ValidatorSet_Size valSet) as H0 by (unfold ValidatorSet_Size; lia).
  split; simpl; rewrite ?u64_id by lia.
  - rewrite length_replicate. unfold ValidatorSet_Size. lia.
  - intros. by apply new_isnil.
  - by apply new_Size.
  - rewrite ba_bits_new by done. by rewrite fmap_replicate.
  - rewrite fmap_replicate. by rewrite wsum_replicate_false.
  - intros i v [Hv _]%lookup_replicate. done.
Qed.

Lemma quorum_pos vs : valset_ok (vs_valSet vs) -> 0 < quorum_of vs.
Proof. intros [_ _ Hp]. apply Loose23_pos. by apply zsum_nonneg. Qed.

(** *** Changing the votes of one block *)

Lemma base_set_block P vs k bv :
  vs_base P vs -> bv_wf (vs_valSet vs) k bv ->
  (forall i v, bv_votes bv !! i = Some (Some v) -> vote_ok vs i v /\ exists u, vs_votes vs !! i = Some (Some u)) ->
  (forall bv0 i v, vs_votesByBlock vs !! k = Some bv0 -> bv_votes bv0 !! i = Some (Some v) ->
     bv_votes bv !! i = Some (Some v)) ->
  vs_base P (vs_set_block vs k bv).
Proof.
  intros [] Hbv Hv Hmono. split; simpl; try done.
  - intros i v Hi. destruct (w_votes0 i v Hi). by split.
  - intros k' bv' Hk'. rewrite lookup_insert in Hk'.
    assert (bv_wf (vs_valSet vs) k' bv' /\ (forall i v, bv_votes bv' !! i = Some (Some v) ->
      vote_ok vs i v /\ exists u, vs_votes vs !! i = Some (Some u))) as [Hwf Hvs].
    { case_decide; [by simplify_eq|]. by apply w_block0. }
    split; [done|]. intros i v Hi. destruct (Hvs i v Hi) as [[] ?]. split; [by split|done].
  - intros i v Hi. destruct (w_canon0 i v Hi) as [?|(bv0 & Hk & Hor)]; [by left|right].
    destruct (decide (k = BlockID_Key (v_BlockID v))) as [->|Hne].
    + exists bv. rewrite lookup_insert_eq. split; [done|].
      destruct Hor as [Hb|?]; [|by right]. left. by eapply Hmono.
    + exists bv0. by rewrite lookup_insert_ne.
Qed.

Lemma quorum_set_block vs k bv :
  vs_quorum vs ->
  (forall bv0, vs_votesByBlock vs !! k = Some bv0 -> bv_sum bv0 <= bv_sum bv) ->
  (quorum_of vs <= bv_sum bv -> is_Some (vs_maj23 vs)) ->
  vs_quorum (vs_set_block vs k bv).
Proof.
  intros [Hm Hc] Hle Hq. split; simpl.
  - intros m Hmm. destruct (Hm m Hmm) as (bv0 & Hk & Hs).
    destruct (decide (k = BlockID_Key m)) as [->|Hne].
    + exists bv. rewrite lookup_insert_eq. split; [done|].
      specialize (Hle bv0 Hk). change (quorum_of (vs_set_block vs (BlockID_Key m) bv)) with (quorum_of vs). lia.
    + exists bv0. by rewrite lookup_insert_ne.
  - intros k' bv' Hk'. rewrite lookup_insert in Hk'. case_decide; simplify_eq; [done|by eapply Hc].
Qed.

(** *** SetPeerMaj23 *)

Lemma SetPeerMaj23_wf vs peer b : vs_wf vs -> vs_wf (VoteSet_SetPeerMaj23 vs peer b).
Proof.
  intros [Hb Hq]. unfold VoteSet_SetPeerMaj23.
  destruct (vs_peerMaj23s vs !! peer); [done|].
  assert (vs_base (fun _ _ => False) (vs_set_peer vs peer b)) as Hb'.
  { destruct Hb. split; simpl; try done.
    - intros i v Hi. destruct (w_votes0 i v Hi). by split.
    - intros k bv Hk. destruct (w_block0 k bv Hk) as [? Hx]. split; [done|].
      intros i v Hi. destruct (Hx i v Hi) as [[] ?]. split; [by split|done]. }
  assert (vs_quorum (vs_set_peer vs peer b)) as Hq' by (destruct Hq; by split).
  set (vs1 := vs_set_peer vs peer b) in *. clearbody vs1.
  destruct (vs_votesByBlock vs1 !! BlockID_Key b) as [bv|] eqn:E.
  - destruct (bv_peerMaj23 bv); [done|].
    destruct (w_block _ _ Hb' _ _ E) as [[] Hv]. split.
    + apply base_set_block; simpl; [done|by split|done|]. intros bv0 i v E0. rewrite E in E0. by simplify_eq.
    + apply quorum_set_block; simpl; [done| |].
      * intros bv0 E0. rewrite E in E0. by simplify_eq.
      * by apply (w_cross _ Hq' (BlockID_Key b) bv).
  - split.
    + apply base_set_block; [done|apply newBlockVotes_wf, (w_valset _ _ Hb')| |].
      * simpl. intros i v [Hx _]%lookup_replicate. done.
      * intros bv0 i v E0. by rewrite E in E0.
    + apply quorum_set_block; [done| |].
      * intros bv0 E0. by rewrite E in E0.
      * simpl. pose proof (quorum_pos vs1 (w_valset _ _ Hb')). intros. lia.
Qed.

Lemma SetPeerMaj23_extends vs peer b : vs_extends vs (VoteSet_SetPeerMaj23 vs peer b).
Proof.
  unfold VoteSet_SetPeerMaj23. destruct (vs_peerMaj23s vs !! peer); [done|].
  destruct (vs_votesByBlock (vs_set_peer vs peer b) !! BlockID_Key b) as [bv|] eqn:E; simpl in E.
  - destruct (bv_peerMaj23 bv); split; simpl; eauto.
    intros k bv0 i v Hk Hv. destruct (decide (BlockID_Key b = k)) as [<-|].
    + rewrite lookup_insert_eq. eexists. split; [done|]. simpl. by simplify_eq.
    + rewrite lookup_insert_ne by done. eauto.
  - split; simpl; eauto. intros k bv0 i v Hk Hv.
    rewrite lookup_insert_ne; [eauto|]. intros <-. by rewrite E in Hk.
Qed.

(** *** Storing a vote at an index of a list of votes *)

Lemma marks_insert_new ws (votes : list (option Vote)) i v w :
  ws !! i = Some w -> votes !! i = Some None ->
  wsum ws (is_some <$> <[i := Some v]> votes) = wsum ws (is_some <$> votes) + w.
Proof.
  intros Hw Hi. rewrite list_fmap_insert. simpl. apply wsum_insert_true; [done|].
  by rewrite list_lookup_fmap, Hi.
Qed.

Lemma marks_insert_old (votes : list (option Vote)) i u v :
  votes !! i = Some (Some u) -> is_some <$> <[i := Some v]> votes = is_some <$> votes.
Proof.
  intros Hi. rewrite list_fmap_insert. apply list_insert_id. by rewrite list_lookup_fmap, Hi.
Qed.

Lemma bits_insert b (votes : list (option Vote)) i v :
  ba_bits b = is_some <$> votes -> ba_Size b = Z.of_nat (length votes) -> (i < length votes)%nat ->
  ba_bits (ba_SetIndex b (Z.of_nat i) true) = is_some <$> <[i := Some v]> votes.
Proof.
  intros Hb Hs Hi. rewrite (ba_bits_set b (Z.of_nat i) (is_some <$> votes)) by (done || lia).
  by rewrite list_fmap_insert, Nat2Z.id.
Qed.

Lemma base_exempt P Q vs :
  vs_base P vs ->
  (forall i v, vs_votes vs !! i = Some (Some v) -> P i v -> Q i v \/
     exists bv, vs_votesByBlock vs !! BlockID_Key (v_BlockID v) = Some bv /\
      (bv_votes bv !! i = Some (Some v) \/
       exists m, vs_maj23 vs = Some m /\ BlockID_Key m = BlockID_Key (v_BlockID v))) ->
  vs_base Q vs.
Proof.
  intros [] HPQ. split; try done. intros i v Hi. destruct (w_canon0 i v Hi); eauto.
Qed.

(** The two assignments to [votes] and [votesBitArray], and the one to [sum]
    that goes with a first vote. *)
Lemma base_set_vote P vs i vote sum :
  vs_base P vs -> vote_ok vs i vote -> (i < length (vs_votes vs))%nat ->
  sum = wsum (powers (vs_valSet vs)) (is_some <$> <[i := Some vote]> (vs_votes vs)) ->
  vs_base (fun j v => P j v \/ j = i /\ v = vote)
    (vs_set_sum (vs_set_bit (vs_set_votes vs (<[i := Some vote]> (vs_votes vs))) (Z.of_nat i)) sum).
Proof.
  intros [] Hok Hi ->. split; simpl; try done.
  - by rewrite length_insert.
  - by rewrite set_Size.
  - apply bits_insert; [done| |done]. rewrite w_size0, w_len0. done.
  - intros j v Hj. destruct (decide (i = j)) as [<-|Hne].
    + rewrite list_lookup_insert_eq in Hj by done. simplify_eq. destruct Hok. by split.
    + rewrite list_lookup_insert_ne in Hj by done. destruct (w_votes0 j v Hj). by split.
  - intros k bv Hk. destruct (w_block0 k bv Hk) as [? Hx]. split; [done|].
    intros j v Hj. destruct (Hx j v Hj) as [[] [u Hu]]. split; [by split|].
    destruct (decide (i = j)) as [<-|Hne].
    + rewrite list_lookup_insert_eq by done. eauto.
    + rewrite list_lookup_insert_ne by done. eauto.
  - intros j v Hj. destruct (decide (i = j)) as [<-|Hne].
    + rewrite list_lookup_insert_eq in Hj by done. simplify_eq. by left; right.
    + rewrite list_lookup_insert_ne in Hj by done. destruct (w_canon0 j v Hj); [left; by left|by right].
Qed.

Lemma extends_set_vote vs i vote sum :
  (i < length (vs_votes vs))%nat ->
  vs_extends vs
    (vs_set_sum (vs_set_bit (vs_set_votes vs (<[i := Some vote]> (vs_votes vs))) (Z.of_nat i)) sum).
Proof.
  intros Hi. split; simpl; eauto. intros j v Hj. destruct (decide (i = j)) as [<-|].
  - rewrite list_lookup_insert_eq by done. eauto.
  - rewrite list_lookup_insert_ne by done. eauto.
Qed.

(** The state after the first half of addVerifiedVote. *)
Record canonical_stored (vs : VoteSet) (i : nat) (vote : Vote) (vs1 : VoteSet) (c : option Vote) : Prop := {
  cs_base : vs_base (fun j v => j = i /\ v = vote /\ c = None) vs1;
  cs_quorum : vs_quorum vs1;
  cs_extends : vs_extends vs vs1;
  cs_blocks : vs_votesByBlock vs1 = vs_votesByBlock vs;
  cs_maj23 : vs_maj23 vs1 = vs_maj23 vs;
  cs_some : exists u, vs_votes vs1 !! i = Some (Some u);
  cs_first : c = None -> vs_votes vs1 !! i = Some (Some vote);
  cs_conflict : vs_votes vs !! i = Some c;
  cs_same : forall e, vs_votes vs1 !! i = Some (Some e) ->
    BlockID_Key (v_BlockID e) = BlockID_Key (v_BlockID vote) -> e = vote;
}.

Lemma store_canonical_spec vs i vote val :
  vs_wf vs -> vote_ok vs i vote -> vals (vs_valSet vs) !! i = Some val ->
  (forall e, vs_votes vs !! i = Some (Some e) -> BlockID_Key (v_BlockID e) <> BlockID_Key (v_BlockID vote)) ->
  exists vs1 c,
    store_canonical vs vote (BlockID_Key (v_BlockID vote)) (val_VotingPower val) = Ret (vs1, c) /\
    canonical_stored vs i vote vs1 c.
Proof.
  intros [Hb Hq] Hok Hval Hnew. unfold store_canonical. rewrite (vo_index _ _ _ Hok).
  assert (i < length (vs_votes vs))%nat as Hlen.
  { rewrite (w_len _ _ Hb). by eapply lookup_lt_Some. }
  destruct (slice_get_lt (vs_votes vs) (Z.of_nat i)) as (ex & -> & Hex); [lia|].
  rewrite Nat2Z.id in Hex. go_bind.
  rewrite slice_set_lt by lia. rewrite Nat2Z.id.
  assert (powers (vs_valSet vs) !! i = Some (val_VotingPower val)) as Hpow
    by (unfold powers; by rewrite list_lookup_fmap, Hval).
  destruct ex as [e|].
  - destruct (BlockID_Equals (v_BlockID e) (v_BlockID vote)) eqn:Heq.
    { apply BlockID_Equals_spec in Heq. destruct (Hnew e Hex). by rewrite Heq. }
    assert (canonical_stored vs i vote vs (Some e)) as Hsame.
    { split; try done; eauto.
      - eapply base_exempt; [done|]. intros ? ? ? [].
      - intros e' He' Hk'. by destruct (Hnew e' He'). }
    destruct (vs_maj23 vs) as [m|] eqn:Hm; [|by eauto].
    case_bool_decide as Hkey; [|by eauto].
    eexists _, _. split; [done|].
    pose proof (base_set_vote _ vs i vote (vs_sum vs) Hb Hok Hlen) as Hset.
    rewrite (marks_insert_old _ _ e) in Hset by done. specialize (Hset (w_sum _ _ Hb)).
    split; simpl; eauto.
    + eapply base_exempt; [exact Hset|]. simpl. intros j v Hj [[]|[-> ->]]. right.
      destruct (w_maj _ Hq m Hm) as (bv & Hbv & _). rewrite <- Hkey. eauto 8.
    + destruct Hq. by split.
    + apply (extends_set_vote vs i vote (vs_sum vs) Hlen).
    + rewrite list_lookup_insert_eq by done. eauto.
    + done.
    + rewrite list_lookup_insert_eq by done. by intros ? [= <-].
  - eexists _, _. split; [done|].
    pose proof (base_set_vote _ vs i vote (vs_sum vs + val_VotingPower val) Hb Hok Hlen) as Hset.
    rewrite (marks_insert_new _ _ _ _ (val_VotingPower val)) in Hset by done.
    rewrite <- (w_sum _ _ Hb) in Hset. specialize (Hset eq_refl).
    split; simpl; eauto.
    + eapply base_exempt; [exact Hset|]. simpl. intros j v Hj [[]|[-> ->]]. by left.
    + destruct Hq. by split.
    + apply (extends_set_vote vs i vote _ Hlen).
    + rewrite list_lookup_insert_eq by done. eauto.
    + intros _. by rewrite list_lookup_insert_eq by done.
    + rewrite list_lookup_insert_eq by done. by intros ? [= <-].
Qed.

(** *** Copying the votes of the majority block over the canonical ones *)

Definition pick_vote (d s : option Vote) : option Vote :=
  match s with Some _ => s | None => d end.

Lemma pick_marks (votes bvotes : list (option Vote)) :
  length bvotes = length votes ->
  (forall i v, bvotes !! i = Some (Some v) -> exists u, votes !! i = Some (Some u)) ->
  is_some <$> zip_with pick_vote votes bvotes = is_some <$> votes.
Proof.
  revert bvotes. induction votes as [|d votes IH]; intros [|b bvotes] Hl Hx; simplify_eq/=; [done|].
  f_equal.
  - destruct b as [b|]; [|done]. destruct (Hx 0%nat b eq_refl) as [u ?]. by simplify_eq/=.
  - apply IH; [done|]. intros i v Hi. by apply (Hx (S i) v).
Qed.

Lemma lookup_pick votes bvotes i v :
  zip_with pick_vote votes bvotes !! i = Some (Some v) ->
  bvotes !! i = Some (Some v) \/ votes !! i = Some (Some v).
Proof.
  intros (d & b & Hp & Hd & Hb)%lookup_zip_with_Some. destruct b; simplify_eq/=; [by left|by right].
Qed.

Lemma pick_some votes bvotes i v :
  length bvotes = length votes -> votes !! i = Some (Some v) ->
  exists u, zip_with pick_vote votes bvotes !! i = Some (Some u).
Proof.
  intros Hl Hi. destruct (lookup_lt_is_Some_2 bvotes i) as [b Hb].
  { rewrite Hl. by eapply lookup_lt_Some. }
  rewrite lookup_zip_with, Hi, Hb. simpl. destruct b; eauto.
Qed.

Lemma base_copy vs k bv b :
  vs_base (fun _ _ => False) vs -> vs_votesByBlock vs !! k = Some bv -> vs_maj23 vs = None ->
  vs_base (fun _ _ => False)
    (vs_set_votes (vs_set_maj23 vs (Some b)) (zip_with pick_vote (vs_votes vs) (bv_votes bv))).
Proof.
  intros [] Hk Hm. destruct (w_block0 k bv Hk) as [[] Hbv].
  assert (length (bv_votes bv) = length (vs_votes vs)) as Hl by congruence.
  assert (is_some <$> zip_with pick_vote (vs_votes vs) (bv_votes bv) = is_some <$> vs_votes vs) as Hmk.
  { apply pick_marks; [done|]. intros i v Hi. by destruct (Hbv i v Hi). }
  split; simpl; try done; rewrite ?Hmk; try done.
  - rewrite length_zip_with. lia.
  - intros i v [Hi|Hi]%lookup_pick; [destruct (Hbv i v Hi) as [[] _]|destruct (w_votes0 i v Hi)]; by split.
  - intros k' bv' Hk'. destruct (w_block0 k' bv' Hk') as [? Hx]. split; [done|].
    intros i v Hi. destruct (Hx i v Hi) as [[] [u Hu]]. split; [by split|]. by eapply pick_some.
  - intros i v [Hi|Hi]%lookup_pick; right.
    + rewrite (bvw_key0 i v Hi). eauto.
    + destruct (w_canon0 i v Hi) as [[]|(bv' & ? & [?|(m & ? & _)])]; [eauto|congruence].
Qed.

Lemma extends_copy vs k bv b :
  length (bv_votes bv) = length (vs_votes vs) ->
  vs_votesByBlock vs !! k = Some bv -> vs_maj23 vs = None ->
  vs_extends vs
    (vs_set_votes (vs_set_maj23 vs (Some b)) (zip_with pick_vote (vs_votes vs) (bv_votes bv))).
Proof.
  intros Hl Hk Hm. split; simpl; eauto; [congruence|]. intros i v Hi. by eapply pick_some.
Qed.

(** *** The second half of addVerifiedVote *)

Lemma bv_add_spec valSet k bv i vote val :
  valset_ok valSet -> bv_wf valSet k bv -> BlockID_Key (v_BlockID vote) = k ->
  v_ValidatorIndex vote = Z.of_nat i -> vals valSet !! i = Some val -> bv_votes bv !! i = Some None ->
  exists bv', blockVotes_addVerifiedVote bv vote (val_VotingPower val) = Ret bv' /\
    bv_wf valSet k bv' /\ bv_votes bv' = <[i := Some vote]> (bv_votes bv) /\ bv_sum bv <= bv_sum bv'.
Proof.
  intros Hvok [] Hkey Hidx Hval Hi. unfold blockVotes_addVerifiedVote. rewrite Hidx.
  assert (i < length (bv_votes bv))%nat as Hlen by (by eapply lookup_lt_Some).
  destruct (slice_get_lt (bv_votes bv) (Z.of_nat i)) as (ex & -> & Hex); [lia|].
  rewrite Nat2Z.id, Hi in Hex. simplify_eq. go_bind.
  rewrite slice_set_lt by lia. rewrite Nat2Z.id.
  assert (powers valSet !! i = Some (val_VotingPower val)) as Hpow
    by (unfold powers; by rewrite list_lookup_fmap, Hval).
  eexists. split; [done|]. simpl. split; [|split; [done|]].
  - split; simpl.
    + by rewrite length_insert.
    + intros. rewrite set_isnil. auto.
    + by rewrite set_Size.
    + apply bits_insert; [done| |done]. rewrite bvw_size0, bvw_len0. done.
    + rewrite (marks_insert_new _ _ _ _ (val_VotingPower val)) by done. by rewrite bvw_sum0.
    + intros j v Hj. destruct (decide (i = j)) as [<-|].
      * rewrite list_lookup_insert_eq in Hj by done. by simplify_eq.
      * rewrite list_lookup_insert_ne in Hj by done. eauto.
  - assert (0 <= val_VotingPower val); [|lia].
    eapply (Forall_lookup_1 (fun w => 0 <= w)); [apply (vok_pow _ Hvok)|done].
Qed.

Lemma add_to_block_spec vs i vote val bv c :
  vs_base (fun j v => j = i /\ v = vote /\ c = None) vs -> vs_quorum vs ->
  vote_ok vs i vote -> vals (vs_valSet vs) !! i = Some val ->
  vs_votesByBlock vs !! BlockID_Key (v_BlockID vote) = Some bv ->
  bv_votes bv !! i = Some None -> (exists u, vs_votes vs !! i = Some (Some u)) ->
  exists vs' bv',
    add_to_block vs bv vote (BlockID_Key (v_BlockID vote)) (val_VotingPower val) c = Ret (vs', (true, c)) /\
    vs_wf vs' /\ vs_extends vs vs' /\
    vs_votesByBlock vs' !! BlockID_Key (v_BlockID vote) = Some bv' /\
    bv_votes bv' !! i = Some (Some vote) /\
    (forall e, vs_votes vs' !! i = Some (Some e) -> vs_votes vs !! i = Some (Some e) \/ e = vote).
Proof.
  intros Hb Hq Hok Hval Hk Hnone Hsome. set (k := BlockID_Key (v_BlockID vote)) in *.
  pose proof (w_valset _ _ Hb) as Hvok. destruct (w_block _ _ Hb _ _ Hk) as [Hbv Hbvv].
  destruct (bv_add_spec _ k bv i vote val Hvok Hbv eq_refl (vo_index _ _ _ Hok) Hval Hnone)
    as (bv' & Hadd & Hbv' & Hvotes' & Hle).
  assert (i < length (bv_votes bv))%nat as Hlen by (by eapply lookup_lt_Some).
  assert (bv_votes bv' !! i = Some (Some vote)) as Hin by (rewrite Hvotes'; by apply list_lookup_insert_eq).
  unfold add_to_block.
  rewrite TalliedVotingPower_Ok; [|apply (bvw_nil _ _ _ Hbv)|apply (vok_some _ Hvok)|apply (bvw_size _ _ _ Hbv)|apply (vok_size _ Hvok)];
    [|unfold ValidatorSet_Size; apply lookup_lt_Some in Hval; lia].
  rewrite (vo_round _ _ _ Hok). fold (quorum_of vs). rewrite Hadd. go_bind.
  assert (forall bv0 j v, vs_votesByBlock vs !! k = Some bv0 -> bv_votes bv0 !! j = Some (Some v) ->
     bv_votes bv' !! j = Some (Some v)) as Hmono.
  { intros bv0 j v Hk0 Hj. rewrite Hk in Hk0. simplify_eq. rewrite Hvotes'.
    rewrite list_lookup_insert_ne; [done|congruence]. }
  assert (vs_base (fun _ _ => False) (vs_set_block vs k bv')) as Hb'.
  { eapply base_exempt.
    - apply base_set_block; [exact Hb|done| |done].
      intros j v Hj. rewrite Hvotes' in Hj. destruct (decide (i = j)) as [<-|].
      + rewrite list_lookup_insert_eq in Hj by done. by simplify_eq.
      + rewrite list_lookup_insert_ne in Hj by done. by apply Hbvv.
    - simpl. intros j v Hj (-> & -> & ->). right. exists bv'. rewrite lookup_insert_eq. eauto. }
  assert (vs_extends vs (vs_set_block vs k bv')) as Hext.
  { split; simpl; eauto. intros k0 bv0 j v Hk0 Hj. destruct (decide (k = k0)) as [<-|].
    - rewrite lookup_insert_eq. eauto.
    - rewrite lookup_insert_ne by done. eauto. }
  assert (vs_votesByBlock (vs_set_block vs k bv') !! k = Some bv') as Hk' by apply lookup_insert_eq.
  destruct ((bv_sum bv <? quorum_of vs) && (quorum_of vs <=? bv_sum bv')) eqn:Hcross;
    [destruct (vs_maj23 (vs_set_block vs k bv')) as [m|] eqn:Hm|].
  2: { simpl. assert (length (bv_votes bv') = length (vs_votes vs)) as Hl.
    { rewrite (bvw_len _ _ _ Hbv'), (w_len _ _ Hb). done. }
    rewrite copy_votes_spec by done. eexists _, _. split; [done|].
    split; [|split; [|split; [exact Hk'|split; [done|]]]].
    - split; [exact (base_copy _ k bv' (v_BlockID vote) Hb' Hk' Hm)|].
      split; [|by eauto]. simpl. intros m [= <-]. exists bv'. split; [exact Hk'|].
      change (quorum_of _) with (quorum_of vs). lia.
    - etransitivity; [exact Hext|]. exact (extends_copy (vs_set_block vs k bv') k bv' (v_BlockID vote) Hl Hk' Hm).
    - simpl. intros e [He|He]%lookup_pick; [right; congruence|by left]. }
  all: eexists _, _; split; [done|]; split; [|by eauto 6]; split; [done|];
    apply quorum_set_block; [done|intros bv0 Hk0; rewrite Hk in Hk0; by simplify_eq|].
  - simpl in Hm. rewrite Hm. eauto.
  - intros Hge. apply (w_cross _ Hq _ _ Hk). lia.
Qed.

(** What a call that verified the vote leaves behind. *)
Record vote_added (vs : VoteSet) (i : nat) (vote : Vote) (vs' : VoteSet) (added : bool) (c : option Vote) : Prop := {
  va_wf : vs_wf vs';
  va_extends : vs_extends vs vs';
  va_conflict : vs_votes vs !! i = Some c;
  va_first : c = None -> added = true;
  va_stored : added = true -> exists bv',
    vs_votesByBlock vs' !! BlockID_Key (v_BlockID vote) = Some bv' /\ bv_votes bv' !! i = Some (Some vote);
  va_same : added = true -> forall e, vs_votes vs' !! i = Some (Some e) ->
    BlockID_Key (v_BlockID e) = BlockID_Key (v_BlockID vote) -> e = vote;
}.

Lemma vote_ok_extends vs vs' i v : vs_extends vs vs' -> vote_ok vs i v -> vote_ok vs' i v.
Proof. intros [] []. split; congruence || (rewrite ?x_valSet0, ?x_chainID0; done). Qed.

Lemma addVerifiedVote_spec vs i vote val :
  vs_wf vs -> vote_ok vs i vote -> vals (vs_valSet vs) !! i = Some val ->
  (forall e, vs_votes vs !! i = Some (Some e) -> BlockID_Key (v_BlockID e) <> BlockID_Key (v_BlockID vote)) ->
  (forall bv, vs_votesByBlock vs !! BlockID_Key (v_BlockID vote) = Some bv -> bv_votes bv !! i = Some None) ->
  exists vs' added c,
    VoteSet_addVerifiedVote vs vote (BlockID_Key (v_BlockID vote)) (val_VotingPower val) = Ret (vs', (added, c)) /\
    vote_added vs i vote vs' added c.
Proof.
  intros Hwf Hok Hval Hnew1 Hnew2.
  destruct (store_canonical_spec vs i vote val Hwf Hok Hval Hnew1) as (vs1 & c & Hstore & Hcs).
  unfold VoteSet_addVerifiedVote. rewrite Hstore. go_bind.
  destruct Hcs as [Hb Hq Hext Hblocks Hmaj Hsome Hfirst Hconf Hsame].
  pose proof (vote_ok_extends _ _ _ _ Hext Hok) as Hok1.
  assert (vals (vs_valSet vs1) !! i = Some val) as Hval1 by (by rewrite (x_valSet _ _ Hext)).
  assert (is_some c = true -> vote_added vs i vote vs1 false c) as Hnot.
  { intros Hc. destruct c as [c|]; [|done]. split; try done. split; [|done].
    eapply base_exempt; [exact Hb|]. intros j v _ (_ & _ & ?). done. }
  destruct (vs_votesByBlock vs1 !! BlockID_Key (v_BlockID vote)) as [bv|] eqn:Hk.
  - destruct (is_some c && negb (bv_peerMaj23 bv)) eqn:Hcc.
    { apply andb_true_iff in Hcc as [Hc _]. eauto 6. }
    rewrite Hblocks in Hk. rewrite <- Hblocks in Hk.
    destruct (add_to_block_spec vs1 i vote val bv c) as (vs' & bv' & -> & Hwf' & Hext' & Hk' & Hin & Hpick); try done.
    { apply Hnew2. by rewrite <- Hblocks. }
    eexists _, _, _. split; [done|]. split; eauto; [by etransitivity|].
    intros _ e He Hke. destruct (Hpick e He); eauto.
  - destruct (is_some c) eqn:Hc; [eauto 6|]. destruct c as [|]; [done|].
    set (nb := newBlockVotes false (ValidatorSet_Size (vs_valSet vs1))).
    assert (forall j v, bv_votes nb !! j = Some (Some v) -> False) as Hempty.
    { intros j v [Hx _]%lookup_replicate. done. }
    destruct (add_to_block_spec (vs_set_block vs1 (BlockID_Key (v_BlockID vote)) nb) i vote val nb None)
      as (vs' & bv' & -> & Hwf' & Hext' & Hk' & Hin & Hpick); try done.
    + apply base_set_block; [done|apply newBlockVotes_wf, (w_valset _ _ Hb)| |].
      * intros j v []%Hempty.
      * intros bv0 j v Hk0. by rewrite Hk in Hk0.
    + apply quorum_set_block; [done| |].
      * intros bv0 Hk0. by rewrite Hk in Hk0.
      * simpl. pose proof (quorum_pos vs1 (w_valset _ _ Hb)). intros. lia.
    + by destruct Hok1.
    + apply lookup_insert_eq.
    + simpl. apply lookup_replicate. split; [done|].
      apply lookup_lt_Some in Hval1. unfold ValidatorSet_Size. lia.
    + eexists _, _, _. split; [done|]. split; eauto.
      * etransitivity; [exact Hext|]. etransitivity; [|exact Hext'].
        split; simpl; eauto. intros k bv0 j v Hk0 Hj. rewrite lookup_insert_ne; [eauto|].
        intros <-. by rewrite Hk in Hk0.
      * intros _ e He Hke. destruct (Hpick e He) as [He1|]; [|done]. by apply Hsame.
Qed.

(** *** addVote *)

Lemma getVote_spec vs i k :
  vs_base (fun _ _ => False) vs -> (i < length (vals (vs_valSet vs)))%nat ->
  exists r, VoteSet_getVote vs (Z.of_nat i) k = Ret r /\
    match r with
    | Some v => vote_ok vs i v /\ BlockID_Key (v_BlockID v) = k
    | None =>
        (forall e, vs_votes vs !! i = Some (Some e) -> BlockID_Key (v_BlockID e) <> k) /\
        (forall bv, vs_votesByBlock vs !! k = Some bv -> bv_votes bv !! i = Some None)
    end.
Proof.
  intros Hb Hi. unfold VoteSet_getVote.
  destruct (slice_get_lt (vs_votes vs) (Z.of_nat i)) as (ex & -> & Hex); [rewrite (w_len _ _ Hb); lia|].
  rewrite Nat2Z.id in Hex. go_bind.
  assert (exists r, blockVotes_getByIndex (vs_votesByBlock vs !! k) (Z.of_nat i) = Ret r /\
    match r with
    | Some v => vote_ok vs i v /\ BlockID_Key (v_BlockID v) = k
    | None => forall bv, vs_votesByBlock vs !! k = Some bv -> bv_votes bv !! i = Some None
    end) as (r & Hr & Hspec).
  { destruct (vs_votesByBlock vs !! k) as [bv|] eqn:Hk; simpl; [|by exists None].
    destruct (w_block _ _ Hb _ _ Hk) as [[] Hv].
    destruct (slice_get_lt (bv_votes bv) (Z.of_nat i)) as (r & -> & Hr); [lia|].
    rewrite Nat2Z.id in Hr. exists r. split; [done|]. destruct r as [v|].
    - split; [by apply Hv|eauto].
    - intros ? [= <-]. done. }
  destruct ex as [e|]; [case_bool_decide as Hkey|].
  - exists (Some e). split; [done|]. split; [by apply (w_votes _ _ Hb)|done].
  - exists r. split; [done|]. destruct r; [done|]. split; [|done]. intros e' He. congruence.
  - exists r. split; [done|]. destruct r; [done|]. split; [|done]. intros e' He. congruence.
Qed.

(** The checks of addVote before the duplicate test. *)
Definition step_matches (vs : VoteSet) (vote : Vote) : Prop :=
  v_Height vote = vs_height vs /\ i64 (v_Round vote) = vs_round vs /\ v_Type vote = vs_type vs.

Lemma step_check_spec vs vote :
  (negb (v_Height vote =? vs_height vs) || negb (i64 (v_Round vote) =? vs_round vs)
     || negb (v_Type vote =? vs_type vs)) = false <-> step_matches vs vote.
Proof. unfold step_matches. rewrite !orb_false_iff, !negb_false_iff, !Z.eqb_eq. tauto. Qed.

Lemma index_i64 valSet vi :
  valset_ok valSet -> 0 <= vi < ValidatorSet_Size valSet -> i64 vi = vi.
Proof. intros [_ Hs _] ?. apply i64_id. lia. Qed.

End Proofs.

(** ** The theorems *)

(** One call on a vote set: a vote from the network or from this node, or a
    peer's claim of a majority. *)
Section Reachable.
Context `{L : BitArrayLib} `{C : CryptoLib} `{W : WireLib}.

Inductive vs_step (vs : VoteSet) : VoteSet -> Prop :=
  | step_add vote vs' r : is_uint64 (v_ValidatorIndex vote) -> VoteSet_addVote vs vote = Ret (vs', r) -> vs_step vs vs'
  | step_peer peer b : vs_step vs (VoteSet_SetPeerMaj23 vs peer b).

Inductive vs_reachable : VoteSet -> Prop :=
  | reach_new chainID height round type_ valSet vs :
      valset_ok valSet -> NewVoteSet chainID height round type_ valSet = Ret vs -> vs_reachable vs
  | reach_step vs vs' : vs_reachable vs -> vs_step vs vs' -> vs_reachable vs'.

(** How addVote ends when it does not panic. *)
Inductive addVote_ends (vs : VoteSet) (vote : Vote) : VoteSet -> bool -> option VoteError -> Prop :=
  | end_step : ~ step_matches vs vote ->
      addVote_ends vs vote vs false (Some ErrVoteUnexpectedStep)
  | end_address val : step_matches vs vote ->
      vals (vs_valSet vs) !! Z.to_nat (v_ValidatorIndex vote) = Some val ->
      v_ValidatorAddress vote <> val_Address val ->
      addVote_ends vs vote vs false (Some ErrVoteInvalidValidatorAddress)
  | end_duplicate e err : step_matches vs vote ->
      vote_ok vs (Z.to_nat (v_ValidatorIndex vote)) e ->
      BlockID_Key (v_BlockID e) = BlockID_Key (v_BlockID vote) ->
      err = match v_Signature e with
            | Some s => if Signature_Equals s (v_Signature vote) then None else Some ErrVoteInvalidSignature
            | None => None
            end ->
      addVote_ends vs vote vs false err
  | end_signature val msg : step_matches vs vote ->
      vals (vs_valSet vs) !! Z.to_nat (v_ValidatorIndex vote) = Some val ->
      WriteSignBytes (vs_chainID vs) vote = Some msg ->
      PubKey_VerifyBytes (val_PubKey val) msg (v_Signature vote) = false ->
      addVote_ends vs vote vs false (Some ErrVoteInvalidSignature)
  | end_added vs' added c :
      vote_ok vs (Z.to_nat (v_ValidatorIndex vote)) vote ->
      vote_added vs (Z.to_nat (v_ValidatorIndex vote)) vote vs' added c ->
      addVote_ends vs vote vs' added (option_map (fun c => ErrVoteConflictingVotes c vote) c).

End Reachable.

Section Theorems.
Context `{L : BitArrayLib} {LL : BitArrayLaws L} `{C : CryptoLib} `{W : WireLib}.

(** Whatever the vote, a call that returns ends in one of these ways. *)
Lemma addVote_ends_spec vs vote vs' added err :
  vs_wf vs -> is_uint64 (v_ValidatorIndex vote) ->
  VoteSet_addVote vs vote = Ret (vs', (added, err)) -> addVote_ends vs vote vs' added err.
Proof.
  intros Hwf Hu64. unfold VoteSet_addVote.
  destruct ((v_ValidatorIndex vote <? 0) || bool_decide (v_ValidatorAddress vote = [])) eqn:Hset; [done|]. clear Hset.
  destruct (negb (v_Height vote =? vs_height vs) || _ || _) eqn:Hstep.
  { intros. simplify_eq. apply end_step. rewrite <- step_check_spec. congruence. }
  apply step_check_spec in Hstep. unfold ValidatorSet_GetByIndex.
  destruct (slice_get (vals (vs_valSet vs)) (i64 (v_ValidatorIndex vote))) as [val|] eqn:Hval; [|done].
  go_bind. apply slice_get_Ret in Hval as [Hpos Hval].
  destruct Hwf as [Hb Hq].
  assert (i64 (v_ValidatorIndex vote) = v_ValidatorIndex vote) as Hvi.
  { pose proof (i64_range (v_ValidatorIndex vote)). unfold is_uint64 in Hu64. revert Hpos.
    unfold i64. destruct (decide (v_ValidatorIndex vote < 2 ^ 63)); [rewrite Z.mod_small by lia; lia|].
    replace (v_ValidatorIndex vote + 2 ^ 63) with (v_ValidatorIndex vote - 2 ^ 63 + 1 * 2 ^ 64) by lia.
    rewrite Z.mod_add, Z.mod_small by lia. lia. }
  rewrite Hvi in Hval, Hpos |- *.
  rewrite Validator_Copy_id. case_bool_decide as Haddr; simpl.
  2: { intros. simplify_eq. by eapply end_address. }
  set (i := Z.to_nat (v_ValidatorIndex vote)) in *.
  assert (v_ValidatorIndex vote = Z.of_nat i) as Hi by lia. rewrite Hi.
  destruct (getVote_spec vs i (BlockID_Key (v_BlockID vote))) as (r & -> & Hr); [done|by eapply lookup_lt_Some|].
  destruct r as [e|].
  { destruct Hr as [Hok Hkey]. destruct (v_Signature e) as [sig|] eqn:Hsig; [|done].
    intros Hret. assert (vs' = vs /\ added = false /\ err = if Signature_Equals sig (v_Signature vote)
      then None else Some ErrVoteInvalidSignature) as (-> & -> & Herr).
    { destruct (Signature_Equals sig (v_Signature vote)); by simplify_eq. }
    apply (end_duplicate vs vote e); [done..|]. by rewrite Hsig. }
  destruct Hr as [Hnew1 Hnew2]. unfold SignBytes.
  destruct (WriteSignBytes (vs_chainID vs) vote) as [msg|] eqn:Hmsg; [|done]. go_bind.
  destruct (PubKey_VerifyBytes (val_PubKey val) msg (v_Signature vote)) eqn:Hver; simpl.
  2: { intros. simplify_eq. by eapply end_signature. }
  assert (vote_ok vs i vote) as Hok.
  { destruct Hstep as (? & ? & ?). split; try done. by exists val, msg. }
  destruct (addVerifiedVote_spec vs i vote val (conj Hb Hq) Hok Hval Hnew1 Hnew2)
    as (vs2 & ad & c & -> & Hadd).
  intros Hret. assert (vs' = vs2 /\ added = ad /\ err = option_map (fun c => ErrVoteConflictingVotes c vote) c)
    as (-> & -> & ->) by (destruct c, ad; by simplify_eq/=).
  by apply end_added.
Qed.

(** A call with a proper vote never panics. *)
Lemma addVote_returns {WL : WireLaws W} {CL : CryptoLaws C} vs vote :
  vs_wf vs -> 0 <= v_ValidatorIndex vote < ValidatorSet_Size (vs_valSet vs) ->
  v_ValidatorAddress vote <> [] -> exists vs' r, VoteSet_addVote vs vote = Ret (vs', r).
Proof.
  intros [Hb Hq] Hi Haddr. pose proof (w_valset _ _ Hb) as Hvok. unfold VoteSet_addVote.
  rewrite (bool_decide_eq_false_2 _ Haddr). destruct (Z.ltb_spec (v_ValidatorIndex vote) 0); [lia|]. simpl.
  destruct (negb (v_Height vote =? vs_height vs) || _ || _) eqn:Hstep; [eauto|].
  apply step_check_spec in Hstep. unfold ValidatorSet_GetByIndex.
  rewrite (index_i64 _ _ Hvok Hi).
  destruct (slice_get_lt (vals (vs_valSet vs)) (v_ValidatorIndex vote)) as (val & -> & Hval);
    [unfold ValidatorSet_Size in Hi; lia|].
  go_bind. rewrite Validator_Copy_id. case_bool_decide; simpl; [|eauto].
  set (i := Z.to_nat (v_ValidatorIndex vote)) in *.
  assert (v_ValidatorIndex vote = Z.of_nat i) as Hiz by lia. rewrite Hiz.
  destruct (getVote_spec vs i (BlockID_Key (v_BlockID vote))) as (r & -> & Hr); [done|by eapply lookup_lt_Some|].
  destruct r as [e|].
  { destruct Hr as [[_ _ _ _ (? & msg & _ & _ & _ & Hver)] _].
    destruct (v_Signature e) as [sig|]; [|by rewrite VerifyBytes_nil in Hver].
    destruct (Signature_Equals _ _); eauto. }
  destruct Hr as [Hnew1 Hnew2]. unfold SignBytes.
  destruct (wire_vote_ok {| cov_ChainID := vs_chainID vs; cov_Vote := CanonicalVote vote |}) as [msg Hmsg].
  change (WriteSignBytes (vs_chainID vs) vote) with
    (wire_WriteJSON_vote {| cov_ChainID := vs_chainID vs; cov_Vote := CanonicalVote vote |}).
  rewrite Hmsg. go_bind.
  destruct (PubKey_VerifyBytes (val_PubKey val) msg (v_Signature vote)) eqn:Hver; simpl; [|eauto].
  assert (vote_ok vs i vote) as Hok.
  { destruct Hstep as (? & ? & ?). split; try done. by exists val, msg. }
  destruct (addVerifiedVote_spec vs i vote val (conj Hb Hq) Hok Hval Hnew1 Hnew2)
    as (vs2 & ad & c & -> & Hadd).
  destruct c; [eauto|]. rewrite (va_first _ _ _ _ _ _ Hadd) by done. simpl. eauto.
Qed.

Lemma addVote_ends_wf vs vote vs' added err :
  vs_wf vs -> addVote_ends vs vote vs' added err -> vs_wf vs' /\ vs_extends vs vs'.
Proof. intros Hwf []; try (split; [done|reflexivity]). by destruct H0. Qed.

Lemma NewVoteSet_wf chainID height round type_ valSet vs :
  valset_ok valSet -> NewVoteSet chainID height round type_ valSet = Ret vs -> vs_wf vs.
Proof.
  intros Hvok. unfold NewVoteSet. destruct (height =? 0); [done|]. intros [= <-].
  destruct (newBlockVotes_wf valSet [] false Hvok). simpl in *.
  split; split; simpl; try done.
  - intros i v [Hx _]%lookup_replicate. done.
  - intros i v [Hx _]%lookup_replicate. done.
Qed.

Lemma vs_step_wf vs vs' : vs_wf vs -> vs_step vs vs' -> vs_wf vs' /\ vs_extends vs vs'.
Proof.
  intros Hwf [vote vs2 [added err] Hu Hadd|peer b].
  - eapply addVote_ends_wf; [done|]. by eapply addVote_ends_spec.
  - split; [by apply SetPeerMaj23_wf|apply SetPeerMaj23_extends].
Qed.

Lemma vs_reachable_wf vs : vs_reachable vs -> vs_wf vs.
Proof. induction 1; [by eapply NewVoteSet_wf|by eapply vs_step_wf]. Qed.


(** AddVote on a vote whose index is in range and whose address is set
    returns (it does not panic), keeps the invariant, and answers according to
    the checks in the order of the source: wrong step, wrong address, known
    vote (duplicate or different signature), bad signature, or the vote is
    recorded, with the conflicting vote of the same validator if there is one. *)
Theorem addVote_total {WL : WireLaws W} {CL : CryptoLaws C} vs vote :
  vs_wf vs -> 0 <= v_ValidatorIndex vote < ValidatorSet_Size (vs_valSet vs) ->
  v_ValidatorAddress vote <> [] ->
  exists vs' added err,
    VoteSet_AddVote (Some vs) vote = Ret (vs', (added, err)) /\
    addVote_ends vs vote vs' added err /\ vs_wf vs' /\ vs_extends vs vs'.
Proof.
  intros Hwf Hi Ha. destruct (addVote_returns vs vote Hwf Hi Ha) as (vs' & [added err] & Hret).
  exists vs', added, err. split; [done|].
  assert (is_uint64 (v_ValidatorIndex vote)).
  { pose proof (vok_size _ (w_valset _ _ (proj1 Hwf))). unfold is_uint64. lia. }
  pose proof (addVote_ends_spec _ _ _ _ _ Hwf H Hret) as He. split; [done|].
  by eapply addVote_ends_wf.
Qed.



(** A reported majority is final: no later call to AddVote or SetPeerMaj23
    changes it, the fixed fields keep their values, and no validator's vote
    disappears. *)
Theorem maj23_stable vs vs' :
  vs_reachable vs -> rtc vs_step vs vs' -> vs_extends vs vs'.
Proof.
  intros Hwf%vs_reachable_wf Hs. induction Hs as [|vs vs1 vs' Hs1 Hs IH]; [reflexivity|].
  destruct (vs_step_wf _ _ Hwf Hs1). etransitivity; [done|]. by apply IH.
Qed.

(** Once AddVote has recorded a signed vote, offering the same vote again
    changes nothing and reports neither an addition nor an error. *)
Theorem addVote_idempotent {WL : WireLaws W} {CL : CryptoLaws C} vs vote vs' err :
  vs_reachable vs -> is_uint64 (v_ValidatorIndex vote) ->
  VoteSet_AddVote (Some vs) vote = Ret (vs', (true, err)) ->
  VoteSet_AddVote (Some vs') vote = Ret (vs', (false, None)).
Proof.
  intros Hwf%vs_reachable_wf Hu Hadd. simpl in *.
  pose proof (addVote_ends_spec _ _ _ _ _ Hwf Hu Hadd) as He. inversion He as [| | | |vs2 ad c Hok Hva]; subst.
  destruct Hva as [Hwf' Hext Hconf Hfirst Hst Hsame].
  destruct (Hst eq_refl) as (bv & Hbv & Hin). specialize (Hsame eq_refl).
  pose proof (vote_ok_extends _ _ _ _ Hext Hok) as [Hidx Hh Hr Ht (val & msg & Hval & Haddr & Hmsg & Hver)].
  set (i := Z.to_nat (v_ValidatorIndex vote)) in *.
  destruct (v_Signature vote) as [sig|] eqn:Hsig; [|by rewrite VerifyBytes_nil in Hver].
  destruct (v_ValidatorAddress vote) as [|a addr] eqn:Ha.
  { exfalso. revert Hadd. unfold VoteSet_addVote. rewrite Ha. simpl. by rewrite orb_true_r. }
  pose proof (w_valset _ _ (proj1 Hwf')) as Hvok.
  assert (0 <= v_ValidatorIndex vote < ValidatorSet_Size (vs_valSet vs')) as Hrange.
  { apply lookup_lt_Some in Hval. unfold ValidatorSet_Size. lia. }
  unfold VoteSet_addVote. rewrite Ha. destruct (Z.ltb_spec (v_ValidatorIndex vote) 0); [lia|]. simpl.
  rewrite (proj2 (step_check_spec vs' vote)) by done.
  unfold ValidatorSet_GetByIndex. rewrite (index_i64 _ _ Hvok Hrange), Hidx.
  destruct (slice_get_lt (vals (vs_valSet vs')) (Z.of_nat i)) as (val' & -> & Hval');
    [apply lookup_lt_Some in Hval; lia|].
  rewrite Nat2Z.id in Hval'. assert (val' = val) as -> by congruence. go_bind.
  rewrite <- Haddr. rewrite bool_decide_eq_true_2 by done. simpl.
  assert (VoteSet_getVote vs' (Z.of_nat i) (BlockID_Key (v_BlockID vote)) = Ret (Some vote)) as ->.
  { destruct (getVote_spec vs' i (BlockID_Key (v_BlockID vote)) (proj1 Hwf')) as (r & Hr' & Hspec).
    { by eapply lookup_lt_Some. }
    revert Hr'. unfold VoteSet_getVote. rewrite Hbv. simpl.
    destruct (slice_get (vs_votes vs') (Z.of_nat i)) as [ex|] eqn:Hex; [|done].
    apply slice_get_Ret in Hex as [_ Hex]. rewrite Nat2Z.id in Hex. go_bind.
    assert (slice_get (bv_votes bv) (Z.of_nat i) = Ret (Some vote)) as ->.
    { apply slice_get_Ret. rewrite Nat2Z.id. split; [lia|done]. }
    destruct ex as [e|]; [|done]. case_bool_decide; [|done]. intros _. by rewrite (Hsame e). }
  rewrite Hsig, Signature_Equals_refl. done.
Qed.

(** A vote of the right height, round and type whose validator index lies
    beyond the validator set is not answered with ErrVoteInvalidValidatorIndex:
    GetByIndex reads the slice out of range and AddVote panics. *)
Theorem addVote_index_panics vs vote :
  step_matches vs vote -> v_ValidatorAddress vote <> [] ->
  ValidatorSet_Size (vs_valSet vs) <= v_ValidatorIndex vote < 2 ^ 64 ->
  VoteSet_AddVote (Some vs) vote = Panic "index out of range".
Proof.
  intros Hstep Ha Hi. simpl. unfold VoteSet_addVote.
  rewrite (bool_decide_eq_false_2 _ Ha).
  assert (0 <= ValidatorSet_Size (vs_valSet vs)) by (unfold ValidatorSet_Size; lia).
  destruct (Z.ltb_spec (v_ValidatorIndex vote) 0); [lia|]. simpl.
  rewrite (proj2 (step_check_spec vs vote)) by done.
  unfold ValidatorSet_GetByIndex. rewrite slice_get_out; [done|].
  unfold ValidatorSet_Size in *.
  destruct (decide (v_ValidatorIndex vote < 2 ^ 63)); [rewrite i64_id by lia; lia|].
  left. unfold i64. replace (v_ValidatorIndex vote + 2 ^ 63) with (v_ValidatorIndex vote - 2 ^ 63 + 1 * 2 ^ 64) by lia.
  rewrite Z.mod_add, Z.mod_small by lia. lia.
Qed.

End Theorems.

(** ** Examples: four validators of power 10 vote in round 0 of height 5 *)
Module VoteSetExamples.
Import ListBitArray ToyLibs.

Definition ex_voters : ValidatorSet :=
  NewValidatorSet ((fun i => NewValidator [i] [100 + i] 10) <$> [3; 1; 2; 4]).

Definition ex_block (b : Z) : BlockID :=
  {| bid_Hash := [b]; bid_PartsHeader := {| psh_Total := 1; psh_Hash := [b] |} |}.

(** The vote of the validator at index [i] for block [b], signed. *)
Definition ex_vote (i b : Z) : Vote :=
  let unsigned sig := {| v_ValidatorAddress := [i + 1]; v_ValidatorIndex := i; v_Height := 5;
    v_Round := 0; v_Type := VoteTypePrevote; v_BlockID := ex_block b; v_Signature := sig;
    v_SignBytes := [] |} in
  unsigned (match Vote_WriteSignBytes "ligo" (unsigned None) with
            | Some m => Some ([101 + i] ++ m)
            | None => None
            end).

Definition ex_new : VoteSet :=
  match NewVoteSet "ligo" 5 0 VoteTypePrevote ex_voters with
  | Ret vs => vs
  | Panic _ => {| vs_chainID := ""; vs_height := 0; vs_round := 0; vs_type := 0;
      vs_valSet := ex_voters; vs_votesBitArray := []; vs_votes := []; vs_sum := 0; vs_maj23 := None;
      vs_votesByBlock := ∅; vs_peerMaj23s := ∅ |}
  end.

Definition ex_add (vs : VoteSet) (v : Vote) : VoteSet :=
  match VoteSet_addVote vs v with Ret (vs', _) => vs' | Panic _ => vs end.

(** Validators 0 and 1 vote for block 7, then 2 does, which makes a quorum. *)
Definition ex_two : VoteSet := ex_add (ex_add ex_new (ex_vote 0 7)) (ex_vote 1 7).
Definition ex_three : VoteSet := ex_add ex_two (ex_vote 2 7).

(** A peer claims block 8; validators 0 to 2 then also vote for it. *)
Definition ex_claimed : VoteSet := VoteSet_SetPeerMaj23 ex_three "peer" (ex_block 8).
Definition ex_double : VoteSet :=
  ex_add (ex_add (ex_add ex_claimed (ex_vote 0 8)) (ex_vote 1 8)) (ex_vote 2 8).

Lemma ex_voters_ok : valset_ok ex_voters.
Proof. split; [by eexists|done|]. repeat constructor; done. Qed.

Lemma ex_new_reachable : vs_reachable ex_new.
Proof. by eapply (reach_new "ligo" 5 0 VoteTypePrevote ex_voters); [apply ex_voters_ok|]. Qed.

Lemma ex_add_reachable vs v :
  is_uint64 (v_ValidatorIndex v) -> vs_reachable vs -> vs_reachable (ex_add vs v).
Proof.
  intros Hu Hr. unfold ex_add. destruct (VoteSet_addVote vs v) as [[vs' r]|] eqn:E; [|done].
  eapply reach_step; [done|]. by eapply step_add.
Qed.

Lemma ex_three_reachable : vs_reachable ex_three.
Proof. do 3 (apply ex_add_reachable; [done|]). apply ex_new_reachable. Qed.

Lemma ex_double_reachable : vs_reachable ex_double.
Proof.
  do 3 (apply ex_add_reachable; [done|]). eapply reach_step; [apply ex_three_reachable|].
  apply step_peer.
Qed.


Lemma addVote_total_witness :
  exists vs' added err, VoteSet_AddVote (Some ex_three) (ex_vote 3 9) = Ret (vs', (added, err)) /\
    addVote_ends ex_three (ex_vote 3 9) vs' added err.
Proof.
  destruct (addVote_total ex_three (ex_vote 3 9)) as (vs' & added & err & H1 & H2 & _); [|done|done|by eauto].
  apply vs_reachable_wf, ex_three_reachable.
Defined.



Lemma maj23_stable_witness :
  vs_maj23 ex_double = Some (ex_block 7) /\ vs_extends ex_three ex_claimed.
Proof.
  split; [vm_compute; reflexivity|]. apply (maj23_stable ex_three ex_claimed ex_three_reachable).
  eapply rtc_once, step_peer.
Defined.

Lemma ex_two_reachable : vs_reachable ex_two.
Proof. do 2 (apply ex_add_reachable; [done|]). apply ex_new_reachable. Qed.

Lemma addVote_idempotent_witness :
  VoteSet_AddVote (Some ex_two) (ex_vote 2 7) = Ret (ex_three, (true, None)) /\
  VoteSet_AddVote (Some ex_three) (ex_vote 2 7) = Ret (ex_three, (false, None)).
Proof.
  assert (is_uint64 (v_ValidatorIndex (ex_vote 2 7))) as Hu by done.
  assert (VoteSet_AddVote (Some ex_two) (ex_vote 2 7) = Ret (ex_three, (true, None))) as H
    by (vm_compute; reflexivity).
  split; [exact H|]. exact (addVote_idempotent ex_two (ex_vote 2 7) ex_three None ex_two_reachable Hu H).
Defined.

Lemma addVote_index_panics_witness :
  VoteSet_AddVote (Some ex_three) (ex_vote 4 7) = Panic "index out of range".
Proof. apply addVote_index_panics; [done|done|done]. Defined.

End VoteSetExamples.
