(* ===== verification/HeightVotes.v ===== *)
(** * The votes and aggregates of one height

    consensus/height_vote_set.go, consensus/height_sign_aggr.go and
    types/sign_aggr.go of chain/consensus/tendermint: for each round of a
    height, the two vote sets, and the two signature aggregates that carry +2/3.
    A peer may open at most two rounds the node has not reached. *)
From S2P Require Import Prelude BitArray TmTypes ValidatorSet VoteSet.
Local Open Scope Z_scope.

Section Model.
Context `{BitArrayLib} `{CryptoLib} `{WireLib}.

(** ** Signature aggregates (sign_aggr.go); a receiver may be nil *)

Definition SignAggr_SignAggr (sa : option SignAggr) : option bytes :=
  match sa with Some sa => sa_SignatureAggr sa | None => None end.

Definition SignAggr_SignRound (sa : option SignAggr) : Z :=
  match sa with None => -1 | Some sa => sa_Round sa end.

Definition SignAggr_HasTwoThirdsMajority (sa : SignAggr) (valSet : option ValidatorSet) : bool :=
  match valSet with
  | None => false
  | Some valSet =>
      match ValidatorSet_TalliedVotingPower valSet (sa_BitArray sa) with
      | Err _ => false
      | Ok (_, votesSum, totalVotes) => Loose23MajorThreshold totalVotes (sa_Round sa) <=? votesSum
      end
  end.

(** The assignment happens only when the receiver is nil, where it faults. *)
Definition SignAggr_SetMaj23 (sa : option SignAggr) (blockID : BlockID) : outcome (option SignAggr) :=
  match sa with
  | None => Panic "nil pointer dereference"
  | Some sa => Ret (Some sa)
  end.

Definition SignAggr_Size (sa : option SignAggr) : Z :=
  match sa with None => 0 | Some sa => sa_NumValidators sa end.

Definition SignAggr_IsCommit (sa : option SignAggr) : bool :=
  match sa with
  | None => false
  | Some sa => if negb (sa_Type sa =? VoteTypePrecommit) then false
               else negb (Bool.eqb (BlockID_IsZero (sa_Maj23 sa)) false)
  end.

Definition SignAggr_MakeCommit (sa : SignAggr) : Commit :=
  {| c_BlockID := sa_Maj23 sa; c_Height := sa_Height sa; c_Round := sa_Round sa;
     c_BitArray := ba_Copy (sa_BitArray sa); c_SignAggr := SignAggr_SignAggr (Some sa) |}.

Definition SignAggr_SignAggrVerify (sa : SignAggr) (msg : option bytes) (valSet : option ValidatorSet)
    : outcome bool :=
  match msg, valSet with
  | Some msg, Some valSet =>
      if negb (i64 (ba_Size (sa_BitArray sa)) =? Z.of_nat (length (vals valSet))) then Ret false
      else match ValidatorSet_AggrPubKey valSet (sa_BitArray sa) with
      | None => Panic "nil pointer dereference"
      | Some pubKey =>
          Ret (PubKey_VerifyBytes pubKey msg (sa_SignatureAggr sa) &&
               SignAggr_HasTwoThirdsMajority sa (Some valSet))
      end
  | _, _ => Ret false
  end.

Definition SignAggr_HasAll (sa : SignAggr) (valSet : ValidatorSet) : bool :=
  sa_Sum sa =? ValidatorSet_TotalVotingPower valSet.

Definition SignAggr_TwoThirdsMajority (sa : option SignAggr) : BlockID * bool :=
  match sa with
  | None => (BlockID_zero, false)
  | Some sa =>
      if BlockID_IsZero (sa_Maj23 sa) then (BlockID_zero, false) else (sa_Maj23 sa, true)
  end.

(** ** The vote sets of a height (height_vote_set.go) *)

Record RoundVoteSet := { rvs_Prevotes : VoteSet; rvs_Precommits : VoteSet }.

Record HeightVoteSet := {
  hvs_chainID : string;
  hvs_height : Z;
  hvs_valSet : ValidatorSet;
  hvs_round : Z;
  hvs_roundVoteSets : gmap Z RoundVoteSet;
  hvs_peerCatchupRounds : gmap string (list Z);
}.

Definition hvs_set_round (hvs : HeightVoteSet) (round : Z) : HeightVoteSet :=
  {| hvs_chainID := hvs_chainID hvs; hvs_height := hvs_height hvs; hvs_valSet := hvs_valSet hvs;
     hvs_round := round; hvs_roundVoteSets := hvs_roundVoteSets hvs;
     hvs_peerCatchupRounds := hvs_peerCatchupRounds hvs |}.
Definition hvs_set_rounds (hvs : HeightVoteSet) (m : gmap Z RoundVoteSet) : HeightVoteSet :=
  {| hvs_chainID := hvs_chainID hvs; hvs_height := hvs_height hvs; hvs_valSet := hvs_valSet hvs;
     hvs_round := hvs_round hvs; hvs_roundVoteSets := m;
     hvs_peerCatchupRounds := hvs_peerCatchupRounds hvs |}.
Definition hvs_set_catchup (hvs : HeightVoteSet) (p : string) (rs : list Z) : HeightVoteSet :=
  {| hvs_chainID := hvs_chainID hvs; hvs_height := hvs_height hvs; hvs_valSet := hvs_valSet hvs;
     hvs_round := hvs_round hvs; hvs_roundVoteSets := hvs_roundVoteSets hvs;
     hvs_peerCatchupRounds := <[p := rs]> (hvs_peerCatchupRounds hvs) |}.

Definition HeightVoteSet_addRound (hvs : HeightVoteSet) (round : Z) : outcome HeightVoteSet :=
  match hvs_roundVoteSets hvs !! round with
  | Some _ => Panic "addRound() for an existing round"
  | None =>
      prevotes ← NewVoteSet (hvs_chainID hvs) (hvs_height hvs) round VoteTypePrevote (hvs_valSet hvs);
      precommits ← NewVoteSet (hvs_chainID hvs) (hvs_height hvs) round VoteTypePrecommit (hvs_valSet hvs);
      Ret (hvs_set_rounds hvs
             (<[round := {| rvs_Prevotes := prevotes; rvs_Precommits := precommits |}]> (hvs_roundVoteSets hvs)))
  end.

Definition HeightVoteSet_Reset (hvs : HeightVoteSet) (height : Z) (valSet : ValidatorSet) : outcome HeightVoteSet :=
  let hvs := {| hvs_chainID := hvs_chainID hvs; hvs_height := height; hvs_valSet := valSet;
                hvs_round := hvs_round hvs; hvs_roundVoteSets := ∅; hvs_peerCatchupRounds := ∅ |} in
  hvs ← HeightVoteSet_addRound hvs 0;
  Ret (hvs_set_round hvs 0).

Definition NewHeightVoteSet (chainID : string) (height : Z) (valSet : ValidatorSet) : outcome HeightVoteSet :=
  HeightVoteSet_Reset
    {| hvs_chainID := chainID; hvs_height := 0;
       hvs_valSet := {| Validators := None; totalVotingPower := None |};
       hvs_round := 0; hvs_roundVoteSets := ∅; hvs_peerCatchupRounds := ∅ |} height valSet.

(** [n] iterations of the loop of SetRound from [r]. *)
Fixpoint set_round_loop (n : nat) (r : Z) (hvs : HeightVoteSet) : outcome HeightVoteSet :=
  match n with
  | O => Ret hvs
  | S n' =>
      match hvs_roundVoteSets hvs !! r with
      | Some _ => set_round_loop n' (r + 1) hvs
      | None => hvs ← HeightVoteSet_addRound hvs r; set_round_loop n' (r + 1) hvs
      end
  end.

Definition HeightVoteSet_SetRound (hvs : HeightVoteSet) (round : Z) : outcome HeightVoteSet :=
  if negb (hvs_round hvs =? 0) && (round <? hvs_round hvs + 1)
  then Panic "SetRound() must increment hvs.round"
  else
    let first := hvs_round hvs + 1 in
    hvs ← set_round_loop (Z.to_nat (round + 1 - first)) first hvs;
    Ret (hvs_set_round hvs round).

(** [n] iterations of the deletion loop of ResetTop2Round from [r]. *)
Fixpoint delete_rounds {A} (n : nat) (r : Z) (m : gmap Z A) : gmap Z A :=
  match n with
  | O => m
  | S n' => delete_rounds n' (r + 1) (delete r m)
  end.

Definition HeightVoteSet_ResetTop2Round (hvs : HeightVoteSet) (round : Z) : outcome HeightVoteSet :=
  if (hvs_round hvs <? round) || (round <? 1)
  then Panic "hvs.ResetTop2Round() must have enough round to reset"
  else
    let first := round - 1 in
    let hvs := hvs_set_rounds hvs
      (delete_rounds (Z.to_nat (hvs_round hvs + 1 - first)) first (hvs_roundVoteSets hvs)) in
    hvs ← HeightVoteSet_addRound hvs (round - 1);
    hvs ← HeightVoteSet_addRound hvs round;
    Ret (hvs_set_round hvs round).

Definition HeightVoteSet_getVoteSet (hvs : HeightVoteSet) (round type_ : Z) : outcome (option VoteSet) :=
  match hvs_roundVoteSets hvs !! round with
  | None => Ret None
  | Some rvs =>
      if type_ =? VoteTypePrevote then Ret (Some (rvs_Prevotes rvs))
      else if type_ =? VoteTypePrecommit then Ret (Some (rvs_Precommits rvs))
      else Panic "Unexpected vote type"
  end.

Definition HeightVoteSet_Prevotes (hvs : HeightVoteSet) (round : Z) : outcome (option VoteSet) :=
  HeightVoteSet_getVoteSet hvs round VoteTypePrevote.

Definition HeightVoteSet_Precommits (hvs : HeightVoteSet) (round : Z) : outcome (option VoteSet) :=
  HeightVoteSet_getVoteSet hvs round VoteTypePrecommit.

(** The pointer returned by getVoteSet aliases the map entry: an update of the
    vote set is an update of the entry. *)
Definition put_vote_set (hvs : HeightVoteSet) (round type_ : Z) (vs : VoteSet) : HeightVoteSet :=
  match hvs_roundVoteSets hvs !! round with
  | None => hvs
  | Some rvs =>
      let rvs' := if type_ =? VoteTypePrevote
        then {| rvs_Prevotes := vs; rvs_Precommits := rvs_Precommits rvs |}
        else {| rvs_Prevotes := rvs_Prevotes rvs; rvs_Precommits := vs |} in
      hvs_set_rounds hvs (<[round := rvs']> (hvs_roundVoteSets hvs))
  end.

Definition HeightVoteSet_AddVote (hvs : HeightVoteSet) (vote : Vote) (peerKey : string)
    : outcome (HeightVoteSet * (bool * option VoteError)) :=
  if negb (IsVoteTypeValid (v_Type vote)) then Ret (hvs, (false, None))
  else
    let round := i64 (v_Round vote) in
    let add hvs voteSet :=
      '(vs, (added, err)) ← VoteSet_AddVote voteSet vote;
      Ret (put_vote_set hvs round (v_Type vote) vs, (added, err)) in
    voteSet ← HeightVoteSet_getVoteSet hvs round (v_Type vote);
    match voteSet with
    | Some _ => add hvs voteSet
    | None =>
        let rndz := default [] (hvs_peerCatchupRounds hvs !! peerKey) in
        if (length rndz <? 2)%nat then
          hvs ← HeightVoteSet_addRound hvs round;
          voteSet ← HeightVoteSet_getVoteSet hvs round (v_Type vote);
          add (hvs_set_catchup hvs peerKey (rndz ++ [round])) voteSet
        else Ret (hvs, (false, Some (ErrVoteOther "Deal with peer giving votes from unwanted rounds")))
    end.

(** The loop of POLInfo: [n] more rounds to look at, from [r] downwards. *)
Fixpoint pol_loop (get : Z -> outcome (BlockID * bool)) (n : nat) (r : Z) : outcome (Z * BlockID) :=
  match n with
  | O => Ret (-1, BlockID_zero)
  | S n' =>
      '(polBlockID, ok) ← get r;
      if ok : bool then Ret (r, polBlockID) else pol_loop get n' (r - 1)
  end.

Definition HeightVoteSet_POLInfo (hvs : HeightVoteSet) : outcome (Z * BlockID) :=
  pol_loop (fun r => rvs ← HeightVoteSet_getVoteSet hvs r VoteTypePrevote;
                     Ret (VoteSet_TwoThirdsMajority rvs))
    (Z.to_nat (hvs_round hvs + 1)) (hvs_round hvs).

Definition HeightVoteSet_SetPeerMaj23 (hvs : HeightVoteSet) (round type_ : Z) (peerID : string)
    (blockID : BlockID) : outcome HeightVoteSet :=
  if negb (IsVoteTypeValid type_) then Ret hvs
  else
    voteSet ← HeightVoteSet_getVoteSet hvs round type_;
    match voteSet with
    | None => Ret hvs
    | Some vs => Ret (put_vote_set hvs round type_ (VoteSet_SetPeerMaj23 vs peerID blockID))
    end.

(** ** The signature aggregates of a height (height_sign_aggr.go) *)

Record RoundVoteSignAggr := { rsa_Prevotes : option SignAggr; rsa_Precommits : option SignAggr }.

Record HeightVoteSignAggr := {
  hsa_chainID : string;
  hsa_height : Z;
  hsa_valSet : ValidatorSet;
  hsa_round : Z;
  hsa_rounds : gmap Z RoundVoteSignAggr;
}.

Definition hsa_set_round (hsa : HeightVoteSignAggr) (round : Z) : HeightVoteSignAggr :=
  {| hsa_chainID := hsa_chainID hsa; hsa_height := hsa_height hsa; hsa_valSet := hsa_valSet hsa;
     hsa_round := round; hsa_rounds := hsa_rounds hsa |}.
Definition hsa_set_rounds (hsa : HeightVoteSignAggr) (m : gmap Z RoundVoteSignAggr) : HeightVoteSignAggr :=
  {| hsa_chainID := hsa_chainID hsa; hsa_height := hsa_height hsa; hsa_valSet := hsa_valSet hsa;
     hsa_round := hsa_round hsa; hsa_rounds := m |}.

Definition HeightVoteSignAggr_addRound (hsa : HeightVoteSignAggr) (round : Z) : outcome HeightVoteSignAggr :=
  match hsa_rounds hsa !! round with
  | Some _ => Panic "addRound() for an existing round"
  | None => Ret (hsa_set_rounds hsa
      (<[round := {| rsa_Prevotes := None; rsa_Precommits := None |}]> (hsa_rounds hsa)))
  end.

Definition HeightVoteSignAggr_Reset (hsa : HeightVoteSignAggr) (height : Z) (valSet : ValidatorSet)
    : outcome HeightVoteSignAggr :=
  let hsa := {| hsa_chainID := hsa_chainID hsa; hsa_height := height; hsa_valSet := valSet;
                hsa_round := hsa_round hsa; hsa_rounds := ∅ |} in
  hsa ← HeightVoteSignAggr_addRound hsa 0;
  Ret (hsa_set_round hsa 0).

Definition NewHeightVoteSignAggr (chainID : string) (height : Z) (valSet : ValidatorSet)
    : outcome HeightVoteSignAggr :=
  HeightVoteSignAggr_Reset
    {| hsa_chainID := chainID; hsa_height := 0;
       hsa_valSet := {| Validators := None; totalVotingPower := None |};
       hsa_round := 0; hsa_rounds := ∅ |} height valSet.

Fixpoint hsa_set_round_loop (n : nat) (r : Z) (hsa : HeightVoteSignAggr) : outcome HeightVoteSignAggr :=
  match n with
  | O => Ret hsa
  | S n' =>
      match hsa_rounds hsa !! r with
      | Some _ => hsa_set_round_loop n' (r + 1) hsa
      | None => hsa ← HeightVoteSignAggr_addRound hsa r; hsa_set_round_loop n' (r + 1) hsa
      end
  end.

Definition HeightVoteSignAggr_SetRound (hsa : HeightVoteSignAggr) (round : Z) : outcome HeightVoteSignAggr :=
  if negb (hsa_round hsa =? 0) && (round <? hsa_round hsa + 1)
  then Panic "SetRound() must increment hvs.round"
  else
    let first := hsa_round hsa + 1 in
    hsa ← hsa_set_round_loop (Z.to_nat (round + 1 - first)) first hsa;
    Ret (hsa_set_round hsa round).

Definition HeightVoteSignAggr_ResetTop2Round (hsa : HeightVoteSignAggr) (round : Z) : outcome HeightVoteSignAggr :=
  if (hsa_round hsa <? round) || (round <? 1)
  then Panic "HeightVoteSignAggr.ResetTop2Round() must have enough round to reset"
  else
    let first := round - 1 in
    let hsa := hsa_set_rounds hsa
      (delete_rounds (Z.to_nat (hsa_round hsa + 1 - first)) first (hsa_rounds hsa)) in
    hsa ← HeightVoteSignAggr_addRound hsa (round - 1);
    hsa ← HeightVoteSignAggr_addRound hsa round;
    Ret (hsa_set_round hsa round).

Definition HeightVoteSignAggr_getSignAggr (hsa : HeightVoteSignAggr) (round type_ : Z)
    : outcome (option SignAggr) :=
  match hsa_rounds hsa !! round with
  | None => Ret None
  | Some rvs =>
      if type_ =? VoteTypePrevote then Ret (rsa_Prevotes rvs)
      else if type_ =? VoteTypePrecommit then Ret (rsa_Precommits rvs)
      else Panic "Unexpected vote type"
  end.

Definition HeightVoteSignAggr_AddSignAggr (hsa : HeightVoteSignAggr) (signAggr : SignAggr)
    : outcome (HeightVoteSignAggr * bool) :=
  if negb (IsVoteTypeValid (sa_Type signAggr)) then Ret (hsa, false)
  else
    existing ← HeightVoteSignAggr_getSignAggr hsa (sa_Round signAggr) (sa_Type signAggr);
    match existing with
    | Some _ => Ret (hsa, false)
    | None =>
        match hsa_rounds hsa !! sa_Round signAggr with
        | None => Ret (hsa, false)
        | Some rvs =>
            let put rvs := Ret (hsa_set_rounds hsa (<[sa_Round signAggr := rvs]> (hsa_rounds hsa)), true) in
            if sa_Type signAggr =? VoteTypePrevote
            then put {| rsa_Prevotes := Some signAggr; rsa_Precommits := rsa_Precommits rvs |}
            else if sa_Type signAggr =? VoteTypePrecommit
            then put {| rsa_Prevotes := rsa_Prevotes rvs; rsa_Precommits := Some signAggr |}
            else Ret (hsa, false)
        end
    end.

Definition HeightVoteSignAggr_Prevotes (hsa : HeightVoteSignAggr) (round : Z) : outcome (option SignAggr) :=
  HeightVoteSignAggr_getSignAggr hsa round VoteTypePrevote.

Definition HeightVoteSignAggr_Precommits (hsa : HeightVoteSignAggr) (round : Z) : outcome (option SignAggr) :=
  HeightVoteSignAggr_getSignAggr hsa round VoteTypePrecommit.

Definition HeightVoteSignAggr_POLInfo (hsa : HeightVoteSignAggr) : outcome (Z * BlockID) :=
  pol_loop (fun r => sa ← HeightVoteSignAggr_getSignAggr hsa r VoteTypePrevote;
                     Ret (SignAggr_TwoThirdsMajority sa))
    (Z.to_nat (hsa_round hsa + 1)) (hsa_round hsa).

End Model.

(** ** Invariant *)

Section Invariant.
Context `{L : BitArrayLib} `{C : CryptoLib} `{W : WireLib}.

(** A vote set of round [r] and type [t] of this height. *)
Record vset_for (hvs : HeightVoteSet) (r t : Z) (vs : VoteSet) : Prop := {
  vf_wf : vs_wf vs;
  vf_chainID : vs_chainID vs = hvs_chainID hvs;
  vf_height : vs_height vs = hvs_height hvs;
  vf_round : vs_round vs = r;
  vf_type : vs_type vs = t;
  vf_valSet : vs_valSet vs = hvs_valSet hvs;
}.

Definition rvs_for (hvs : HeightVoteSet) (r : Z) (rvs : RoundVoteSet) : Prop :=
  vset_for hvs r VoteTypePrevote (rvs_Prevotes rvs) /\
  vset_for hvs r VoteTypePrecommit (rvs_Precommits rvs).

(** The part of the invariant that does not speak of the current round. *)
Record hvs_base (hvs : HeightVoteSet) : Prop := {
  hw_height : hvs_height hvs <> 0;
  hw_valset : valset_ok (hvs_valSet hvs);
  hw_sets : forall r rvs, hvs_roundVoteSets hvs !! r = Some rvs -> rvs_for hvs r rvs;
  hw_two : forall p rs, hvs_peerCatchupRounds hvs !! p = Some rs -> (length rs <= 2)%nat;
}.

(** A round exists if the height has reached it, or a peer asked for it. *)
Definition round_allowed (hvs : HeightVoteSet) (round r : Z) : Prop :=
  0 <= r <= round \/ exists p rs, hvs_peerCatchupRounds hvs !! p = Some rs /\ r ∈ rs.

Record hvs_wf (hvs : HeightVoteSet) : Prop := {
  hw_base : hvs_base hvs;
  hw_nonneg : 0 <= hvs_round hvs;
  hw_present : forall r, 0 <= r <= hvs_round hvs -> is_Some (hvs_roundVoteSets hvs !! r);
  hw_origin : forall r, is_Some (hvs_roundVoteSets hvs !! r) -> round_allowed hvs (hvs_round hvs) r;
}.

Inductive hvs_step (hvs : HeightVoteSet) : HeightVoteSet -> Prop :=
  | hstep_vote vote peer hvs' r : is_uint64 (v_ValidatorIndex vote) ->
      HeightVoteSet_AddVote hvs vote peer = Ret (hvs', r) -> hvs_step hvs hvs'
  | hstep_peer round type_ peer b hvs' :
      HeightVoteSet_SetPeerMaj23 hvs round type_ peer b = Ret hvs' -> hvs_step hvs hvs'
  | hstep_round round hvs' : 0 <= round ->
      HeightVoteSet_SetRound hvs round = Ret hvs' -> hvs_step hvs hvs'
  | hstep_top2 round hvs' :
      HeightVoteSet_ResetTop2Round hvs round = Ret hvs' -> hvs_step hvs hvs'
  | hstep_reset height valSet hvs' : valset_ok valSet ->
      HeightVoteSet_Reset hvs height valSet = Ret hvs' -> hvs_step hvs hvs'.

Inductive hvs_reachable : HeightVoteSet -> Prop :=
  | hreach_new chainID height valSet hvs :
      valset_ok valSet -> NewHeightVoteSet chainID height valSet = Ret hvs -> hvs_reachable hvs
  | hreach_step hvs hvs' : hvs_reachable hvs -> hvs_step hvs hvs' -> hvs_reachable hvs'.

End Invariant.

Section Proofs.
Context `{L : BitArrayLib} {LL : BitArrayLaws L} `{C : CryptoLib} `{W : WireLib}.

Lemma NewVoteSet_for hvs r t vs :
  valset_ok (hvs_valSet hvs) ->
  NewVoteSet (hvs_chainID hvs) (hvs_height hvs) r t (hvs_valSet hvs) = Ret vs -> vset_for hvs r t vs.
Proof.
  intros Hv Hn. pose proof (NewVoteSet_wf _ _ _ _ _ _ Hv Hn) as Hwf. revert Hn. unfold NewVoteSet.
  destruct (_ =? 0); [done|]. intros [= <-]. by split.
Qed.

(** Everything addRound can do. *)
Lemma addRound_inv hvs r hvs' :
  valset_ok (hvs_valSet hvs) -> HeightVoteSet_addRound hvs r = Ret hvs' ->
  hvs_roundVoteSets hvs !! r = None /\ hvs_height hvs <> 0 /\
  exists rvs, rvs_for hvs r rvs /\ hvs' = hvs_set_rounds hvs (<[r := rvs]> (hvs_roundVoteSets hvs)).
Proof.
  intros Hv. unfold HeightVoteSet_addRound. destruct (_ !! r); [done|].
  destruct (NewVoteSet _ _ _ VoteTypePrevote _) as [pv|] eqn:Hpv; [|done].
  destruct (NewVoteSet _ _ _ VoteTypePrecommit _) as [pc|] eqn:Hpc; [|done].
  intros [= <-]. split; [done|]. split.
  - revert Hpv. unfold NewVoteSet. destruct (Z.eqb_spec (hvs_height hvs) 0); done.
  - eexists. split; [|done]. split; by apply NewVoteSet_for.
Qed.

Lemma addRound_fresh hvs r :
  hvs_height hvs <> 0 -> hvs_roundVoteSets hvs !! r = None ->
  exists hvs', HeightVoteSet_addRound hvs r = Ret hvs'.
Proof.
  intros Hh Hr. unfold HeightVoteSet_addRound, NewVoteSet. rewrite Hr.
  destruct (Z.eqb_spec (hvs_height hvs) 0); [done|]. go_bind. eauto.
Qed.

Lemma base_set_rounds hvs m :
  hvs_base hvs -> (forall r rvs, m !! r = Some rvs -> rvs_for hvs r rvs) -> hvs_base (hvs_set_rounds hvs m).
Proof.
  intros [] Hm. split; simpl; try done. intros r rvs Hr. destruct (Hm r rvs Hr) as [[] []]. by split; split.
Qed.

Lemma base_addRound hvs r hvs' :
  hvs_base hvs -> HeightVoteSet_addRound hvs r = Ret hvs' -> hvs_base hvs'.
Proof.
  intros Hb Ha. destruct (addRound_inv _ _ _ (hw_valset _ Hb) Ha) as (_ & _ & rvs & Hr & ->).
  apply base_set_rounds; [done|]. intros r' rvs'. rewrite lookup_insert_Some.
  intros [[<- <-]|[_ Hl]]; [done|]. by apply (hw_sets _ Hb).
Qed.

Lemma base_set_round hvs r : hvs_base hvs -> hvs_base (hvs_set_round hvs r).
Proof.
  intros []. split; simpl; try done. intros r' rvs Hr. destruct (hw_sets0 r' rvs Hr) as [[] []]. by split; split.
Qed.

Lemma base_set_catchup hvs p rs :
  (length rs <= 2)%nat -> hvs_base hvs -> hvs_base (hvs_set_catchup hvs p rs).
Proof.
  intros Hl []. split; simpl; try done.
  - intros r' rvs Hr. destruct (hw_sets0 r' rvs Hr) as [[] []]. by split; split.
  - intros p' rs'. rewrite lookup_insert_Some. intros [[<- <-]|[_ Hp]]; eauto.
Qed.

(** The rounds the loop of SetRound leaves in the map. *)
Lemma set_round_loop_spec n r hvs hvs' :
  hvs_base hvs -> set_round_loop n r hvs = Ret hvs' ->
  hvs_base hvs' /\ hvs_peerCatchupRounds hvs' = hvs_peerCatchupRounds hvs /\
  forall k, is_Some (hvs_roundVoteSets hvs' !! k) <->
    is_Some (hvs_roundVoteSets hvs !! k) \/ r <= k < r + Z.of_nat n.
Proof.
  revert r hvs. induction n as [|n IH]; intros r hvs Hb; simpl.
  { intros [= <-]. split_and!; [done..|]. intros k. split; [by left|]. intros [?|?]; [done|lia]. }
  destruct (hvs_roundVoteSets hvs !! r) eqn:Hr.
  - intros Hl. destruct (IH _ _ Hb Hl) as (Hb' & Hc & Hk). split_and!; [done..|].
    intros k. rewrite Hk. destruct (decide (k = r)) as [->|]; [rewrite Hr; split; eauto|].
    split; intros [?|?]; try (by left); right; lia.
  - destruct (HeightVoteSet_addRound hvs r) as [hvs1|] eqn:Ha; [|done]. go_bind. intros Hl.
    pose proof (base_addRound _ _ _ Hb Ha) as Hb1.
    destruct (addRound_inv _ _ _ (hw_valset _ Hb) Ha) as (_ & _ & rvs & _ & ->).
    destruct (IH _ _ Hb1 Hl) as (Hb' & Hc & Hk). split_and!; [done..|].
    intros k. rewrite Hk. simpl. rewrite lookup_insert_is_Some.
    destruct (decide (k = r)) as [->|]; [split; [right; lia|eauto]|].
    split; [intros [[?|[_ ?]]|?]; [done|by left|right; lia]|].
    intros [?|?]; [left; right; done|right; lia].
Qed.

Lemma SetRound_wf hvs r hvs' :
  hvs_wf hvs -> 0 <= r -> HeightVoteSet_SetRound hvs r = Ret hvs' ->
  hvs_wf hvs' /\ hvs_round hvs' = r.
Proof.
  intros [Hb Hn Hp Ho] Hr. unfold HeightVoteSet_SetRound.
  destruct (negb (hvs_round hvs =? 0) && (r <? hvs_round hvs + 1)) eqn:Hg; [done|].
  destruct (set_round_loop _ _ _) as [hvs1|] eqn:Hl; [|done]. intros [= <-].
  destruct (set_round_loop_spec _ _ _ _ Hb Hl) as (Hb1 & Hc & Hk). split; [|done].
  assert (hvs_round hvs <= r) as Hmono.
  { apply andb_false_iff in Hg as [Hg|Hg]; [apply negb_false_iff, Z.eqb_eq in Hg; lia|].
    apply Z.ltb_ge in Hg. lia. }
  split; simpl; [by apply base_set_round|done| |].
  - intros k Hk'. apply Hk. destruct (decide (k <= hvs_round hvs)); [left; apply Hp; lia|right; lia].
  - intros k [Hk'|Hk']%Hk; unfold round_allowed; simpl; rewrite Hc; [|left; lia].
    destruct (Ho k Hk') as [?|?]; [left; lia|by right].
Qed.

Lemma lookup_delete_rounds {A} n r (m : gmap Z A) k :
  delete_rounds n r m !! k = if decide (r <= k < r + Z.of_nat n) then None else m !! k.
Proof.
  revert r m. induction n as [|n IH]; intros r m; simpl.
  - destruct (decide _); [lia|done].
  - rewrite IH. destruct (decide (k = r)) as [->|Hne].
    + rewrite lookup_delete_eq. do 2 destruct (decide _); try done; lia.
    + rewrite lookup_delete_ne by done. do 2 destruct (decide _); try done; lia.
Qed.

Lemma ResetTop2Round_wf hvs r hvs' :
  hvs_wf hvs -> HeightVoteSet_ResetTop2Round hvs r = Ret hvs' -> hvs_wf hvs' /\ hvs_round hvs' = r.
Proof.
  intros [Hb Hn Hp Ho]. unfold HeightVoteSet_ResetTop2Round.
  destruct ((hvs_round hvs <? r) || (r <? 1)) eqn:Hg; [done|].
  apply orb_false_iff in Hg as [Hg1%Z.ltb_ge Hg2%Z.ltb_ge].
  set (h0 := hvs_set_rounds hvs _).
  assert (forall k, hvs_roundVoteSets h0 !! k =
    if decide (r - 1 <= k <= hvs_round hvs) then None else hvs_roundVoteSets hvs !! k) as Hk0.
  { intros k. simpl. rewrite lookup_delete_rounds. do 2 destruct (decide _); try done; lia. }
  assert (hvs_base h0) as Hb0.
  { apply base_set_rounds; [done|]. intros k rvs. specialize (Hk0 k). simpl in Hk0. rewrite Hk0.
    destruct (decide _); [done|]. apply (hw_sets _ Hb). }
  destruct (HeightVoteSet_addRound h0 (r - 1)) as [h1|] eqn:H1; [|done]. go_bind.
  pose proof (base_addRound _ _ _ Hb0 H1) as Hb1.
  destruct (addRound_inv _ _ _ (hw_valset _ Hb0) H1) as (_ & _ & rvs1 & _ & ->).
  destruct (HeightVoteSet_addRound _ r) as [h2|] eqn:H2; [|done]. go_bind. intros [= <-].
  pose proof (base_addRound _ _ _ Hb1 H2) as Hb2.
  destruct (addRound_inv _ _ _ (hw_valset _ Hb1) H2) as (_ & _ & rvs2 & _ & ->).
  split; [|done]. split; [by apply base_set_round|simpl; lia| |].
  - intros k Hk. cbn -[h0] in *. rewrite !lookup_insert_is_Some, Hk0.
    destruct (decide (r = k)); [by left|]. destruct (decide (r - 1 = k)); [right; split; [done|by left]|].
    right; split; [done|]. right; split; [done|]. destruct (decide _); [lia|]. apply Hp. lia.
  - intros k. cbn -[h0]. rewrite !lookup_insert_is_Some, Hk0. unfold round_allowed. simpl.
    intros [<-|[_ [<-|[_ Hk]]]]; [left; lia..|]. destruct (decide _) as [|Hnot]; [by destruct Hk|].
    destruct (Ho k Hk) as [?|?]; [left; lia|by right].
Qed.

Lemma Reset_wf hvs height valSet hvs' :
  valset_ok valSet -> HeightVoteSet_Reset hvs height valSet = Ret hvs' -> hvs_wf hvs'.
Proof.
  intros Hv. unfold HeightVoteSet_Reset.
  destruct (HeightVoteSet_addRound _ 0) as [h1|] eqn:H1; [|done]. intros [= <-].
  pose proof (addRound_inv _ _ _ (Hv : valset_ok (hvs_valSet {| hvs_valSet := valSet |})) H1) as (_ & Hh & rvs & Hrvs & ->).
  assert (forall k rv, <[0:=rvs]> (∅ : gmap Z RoundVoteSet) !! k = Some rv -> k = 0 /\ rv = rvs) as Hk.
  { intros k rv. rewrite lookup_insert_Some. intros [[<- <-]|[_ ?]]; done. }
  split; simpl; [|done| |].
  - split; simpl in *; try done. intros r rv [-> ->]%Hk. destruct Hrvs as [[] []]. by split; split.
  - intros r Hr. assert (r = 0) as -> by lia. rewrite lookup_insert_eq. eauto.
  - intros r [rv [-> _]%Hk]. left. simpl. lia.
Qed.

Lemma getVoteSet_for hvs r t vs :
  hvs_base hvs -> HeightVoteSet_getVoteSet hvs r t = Ret (Some vs) -> vset_for hvs r t vs.
Proof.
  intros Hb. unfold HeightVoteSet_getVoteSet. destruct (_ !! r) as [rvs|] eqn:Hr; [|done].
  destruct (hw_sets _ Hb _ _ Hr) as [Hpv Hpc].
  destruct (Z.eqb_spec t VoteTypePrevote); [intros [= <-]; by subst|].
  destruct (Z.eqb_spec t VoteTypePrecommit); [intros [= <-]; by subst|done].
Qed.

(** Storing a later state of the vote set that getVoteSet returned. *)
Lemma put_vote_set_wf hvs r t vs vs' :
  IsVoteTypeValid t = true ->
  hvs_wf hvs -> vset_for hvs r t vs -> vs_wf vs' -> vs_extends vs vs' ->
  hvs_wf (put_vote_set hvs r t vs').
Proof.
  intros Ht [Hb Hn Hp Ho] Hvs Hwf' Hx. unfold put_vote_set.
  destruct (hvs_roundVoteSets hvs !! r) as [rvs|] eqn:Hr; [|by split].
  assert (vset_for hvs r t vs') as Hvs' by (destruct Hvs, Hx; split; congruence).
  assert (forall k, is_Some (hvs_roundVoteSets hvs !! k) <-> r = k \/ r <> k /\ is_Some (hvs_roundVoteSets hvs !! k)) as Hdom.
  { intros k. destruct (decide (r = k)) as [<-|]; [rewrite Hr; split; eauto|]. split; [by right|]. by intros [?|[_ ?]]. }
  destruct (hw_sets _ Hb _ _ Hr) as [Hpv Hpc].
  split; simpl; [apply base_set_rounds; [done|]|done| |].
  - intros k rv. rewrite lookup_insert_Some. intros [[<- <-]|[_ Hk]]; [|by apply (hw_sets _ Hb)].
    destruct (Z.eqb_spec t VoteTypePrevote); [subst t; by split|].
    unfold IsVoteTypeValid in Ht. assert (t = VoteTypePrecommit) as ->; [|by split].
    destruct (Z.eqb_spec t VoteTypePrevote), (Z.eqb_spec t VoteTypePrecommit); done.
  - intros k Hk. rewrite lookup_insert_is_Some. by apply Hdom, Hp.
  - intros k Hk. rewrite lookup_insert_is_Some in Hk. apply Ho. by apply Hdom.
Qed.

Lemma catchup_wf hvs r hvs' p :
  hvs_wf hvs -> HeightVoteSet_addRound hvs r = Ret hvs' ->
  let rndz := default [] (hvs_peerCatchupRounds hvs !! p) in
  (length rndz < 2)%nat -> hvs_wf (hvs_set_catchup hvs' p (rndz ++ [r])).
Proof.
  intros [Hb Hn Hp Ho] Ha rndz Hlen. pose proof (base_addRound _ _ _ Hb Ha) as Hb1.
  destruct (addRound_inv _ _ _ (hw_valset _ Hb) Ha) as (_ & _ & rvs & _ & ->).
  split; simpl; [apply base_set_catchup; [rewrite length_app; simpl; lia|done]|done| |].
  - intros k Hk. rewrite lookup_insert_is_Some. destruct (decide (r = k)); [by left|]. right. eauto.
  - intros k. rewrite lookup_insert_is_Some. unfold round_allowed. simpl. intros [<-|[_ Hk]].
    + right. exists p, (rndz ++ [r]). rewrite lookup_insert_eq. split; [done|set_solver].
    + destruct (Ho k Hk) as [?|(q & rs & Hq & Hin)]; [by left|]. right.
      destruct (decide (p = q)) as [<-|Hne].
      * exists p, (rndz ++ [r]). rewrite lookup_insert_eq. split; [done|]. unfold rndz. rewrite Hq. set_solver.
      * exists q, rs. by rewrite lookup_insert_ne.
Qed.

Lemma put_added_wf hvs vote voteSet res hvs' :
  hvs_wf hvs -> IsVoteTypeValid (v_Type vote) = true -> is_uint64 (v_ValidatorIndex vote) ->
  HeightVoteSet_getVoteSet hvs (i64 (v_Round vote)) (v_Type vote) = Ret voteSet ->
  ('(vs, (added, err)) ← VoteSet_AddVote voteSet vote;
   Ret (put_vote_set hvs (i64 (v_Round vote)) (v_Type vote) vs, (added, err))) = Ret (hvs', res) ->
  hvs_wf hvs'.
Proof.
  intros Hwf Ht Hu Hget. destruct voteSet as [vs|]; [|done]. simpl.
  destruct (VoteSet_addVote vs vote) as [[vs' [added err]]|] eqn:Hadd; [|done]. intros [= <- _].
  pose proof (getVoteSet_for _ _ _ _ (hw_base _ Hwf) Hget) as Hfor.
  destruct (addVote_ends_wf _ _ _ _ _ (vf_wf _ _ _ _ Hfor)
    (addVote_ends_spec _ _ _ _ _ (vf_wf _ _ _ _ Hfor) Hu Hadd)) as [Hwf' Hx].
  by eapply put_vote_set_wf.
Qed.

Lemma AddVote_wf hvs vote peer hvs' res :
  hvs_wf hvs -> is_uint64 (v_ValidatorIndex vote) ->
  HeightVoteSet_AddVote hvs vote peer = Ret (hvs', res) -> hvs_wf hvs'.
Proof.
  intros Hwf Hu. unfold HeightVoteSet_AddVote.
  destruct (IsVoteTypeValid (v_Type vote)) eqn:Ht; simpl; [|by intros [= <- _]].
  destruct (HeightVoteSet_getVoteSet hvs _ _) as [[vs|]|] eqn:Hget; [| |done].
  { intros Hadd. by eapply put_added_wf. }
  cbn [mbind outcome_bind]. destruct (Nat.ltb_spec (length (default [] (hvs_peerCatchupRounds hvs !! peer))) 2);
    [|by intros [= <- _]].
  destruct (HeightVoteSet_addRound hvs _) as [h1|] eqn:Ha; [|done]. go_bind.
  pose proof (catchup_wf _ _ _ peer Hwf Ha H) as Hwf1.
  destruct (HeightVoteSet_getVoteSet h1 _ _) as [vs1|] eqn:Hget1; [|done].
  intros Hadd. eapply (put_added_wf _ vote vs1 res _ Hwf1 Ht Hu); done.
Qed.

Lemma SetPeerMaj23_hvs_wf hvs round type_ peer b hvs' :
  hvs_wf hvs -> HeightVoteSet_SetPeerMaj23 hvs round type_ peer b = Ret hvs' -> hvs_wf hvs'.
Proof.
  intros Hwf. unfold HeightVoteSet_SetPeerMaj23.
  destruct (IsVoteTypeValid type_) eqn:Ht; simpl; [|by intros [= <-]].
  destruct (HeightVoteSet_getVoteSet hvs _ _) as [[vs|]|] eqn:Hget; go_bind; [|by intros [= <-]|done].
  intros [= <-]. pose proof (getVoteSet_for _ _ _ _ (hw_base _ Hwf) Hget) as Hfor.
  eapply put_vote_set_wf; [done..| |apply SetPeerMaj23_extends]. apply SetPeerMaj23_wf, (vf_wf _ _ _ _ Hfor).
Qed.

Lemma hvs_reachable_wf hvs : hvs_reachable hvs -> hvs_wf hvs.
Proof.
  induction 1 as [|hvs hvs' _ IH [? ? ? [] ? Hs|? ? ? ? ? Hs|? ? ? Hs|? ? Hs|? ? ? ? Hs]].
  - by eapply Reset_wf.
  - by eapply AddVote_wf.
  - by eapply SetPeerMaj23_hvs_wf.
  - by eapply SetRound_wf.
  - by eapply ResetTop2Round_wf.
  - by eapply Reset_wf.
Qed.

(** The loop of POLInfo finds the last round that [get] accepts. *)
Lemma pol_loop_spec get n r :
  (forall k, r - Z.of_nat n < k <= r -> exists x, get k = Ret x) ->
  exists k b, pol_loop get n r = Ret (k, b) /\
    ((k = -1 /\ b = BlockID_zero /\
      forall j, r - Z.of_nat n < j <= r -> exists c, get j = Ret (c, false)) \/
     (r - Z.of_nat n < k <= r /\ get k = Ret (b, true) /\
      forall j, k < j <= r -> exists c, get j = Ret (c, false))).
Proof.
  revert r. induction n as [|n IH]; intros r Hget; cbn [pol_loop].
  { exists (-1), BlockID_zero. split; [done|]. left. split_and!; [done..|]. lia. }
  destruct (Hget r) as [[b ok] Hr]; [lia|]. rewrite Hr. go_bind. destruct ok.
  { exists r, b. split; [done|]. right. split_and!; [lia..|done|]. lia. }
  destruct (IH (r - 1)) as (k & b' & -> & Hcase); [intros; apply Hget; lia|].
  exists k, b'. split; [done|].
  assert (forall j, j = r -> exists c, get j = Ret (c, false)) as Hhere by (intros ? ->; eauto).
  destruct Hcase as [(-> & -> & Hno)|(Hk & Hkb & Hno)]; [left|right]; split_and!; try done; try lia.
  - intros j Hj. destruct (decide (j = r)); [auto|]. apply Hno. lia.
  - intros j Hj. destruct (decide (j = r)); [auto|]. apply Hno. lia.
Qed.

End Proofs.

Section Theorems.
Context `{L : BitArrayLib} {LL : BitArrayLaws L} `{C : CryptoLib} `{W : WireLib}.

Lemma length_mjoin_le2 {A} (ls : list (list A)) :
  Forall (fun l => (length l <= 2)%nat) ls -> (length (mjoin ls) <= 2 * length ls)%nat.
Proof. induction 1; cbn; [done|]. rewrite length_app. unfold mjoin in *. lia. Qed.

Lemma size_list_to_set_le (l : list Z) : (size (list_to_set l : gset Z) <= length l)%nat.
Proof.
  induction l as [|x l IH]; [done|]. cbn [list_to_set length].
  pose proof (size_union_alt ({[x]} : gset Z) (list_to_set l)) as Hu. rewrite size_singleton in Hu.
  pose proof (subseteq_size (list_to_set l ∖ {[x]} : gset Z) (list_to_set l) ltac:(by apply subseteq_difference_l)). lia.
Qed.

Lemma rounds_bound hvs : hvs_wf hvs ->
  Z.of_nat (size (hvs_roundVoteSets hvs)) <= hvs_round hvs + 1 + 2 * Z.of_nat (size (hvs_peerCatchupRounds hvs)).
Proof.
  intros [Hb Hn Hp Ho].
  set (cs := (map_to_list (hvs_peerCatchupRounds hvs)).*2).
  assert (dom (hvs_roundVoteSets hvs) ⊆ list_to_set (seqZ 0 (hvs_round hvs + 1) ++ mjoin cs)) as Hsub.
  { intros r [rvs Hr]%elem_of_dom. rewrite elem_of_list_to_set, elem_of_app, elem_of_seqZ.
    destruct (Ho r) as [?|(p & rs & Hpr & Hin)]; [eauto|left; lia|right].
    apply list_elem_of_join. exists rs. split; [done|]. apply list_elem_of_fmap. exists (p, rs).
    split; [done|]. by apply elem_of_map_to_list. }
  apply subseteq_size in Hsub. rewrite size_dom in Hsub.
  pose proof (size_list_to_set_le (seqZ 0 (hvs_round hvs + 1) ++ mjoin cs)) as H1.
  rewrite length_app, length_seqZ in H1.
  assert (length (mjoin cs) <= 2 * length cs)%nat as H3.
  { apply length_mjoin_le2, Forall_fmap, Forall_forall. intros [p rs] Hin.
    apply elem_of_map_to_list in Hin. by apply (hw_two _ Hb p). }
  unfold cs in H3 at 2. rewrite length_fmap, length_map_to_list in H3. lia.
Qed.

(** In every state a height's vote sets can reach from NewHeightVoteSet,
    every round up to the current one has its prevote and precommit set, each
    set is a coherent vote set of that height, round, type and validator set,
    and whatever the peers send, there are at most two rounds per peer beyond
    the rounds the height has reached. *)
Theorem height_votes_bounded hvs : hvs_reachable hvs ->
  hvs_wf hvs /\
  Z.of_nat (size (hvs_roundVoteSets hvs)) <= hvs_round hvs + 1 + 2 * Z.of_nat (size (hvs_peerCatchupRounds hvs)).
Proof. intros Hwf%hvs_reachable_wf. split; [done|by apply rounds_bound]. Qed.

Lemma prevotes_present hvs r : hvs_wf hvs -> 0 <= r <= hvs_round hvs ->
  exists vs, HeightVoteSet_getVoteSet hvs r VoteTypePrevote = Ret (Some vs).
Proof.
  intros Hwf Hr. destruct (hw_present _ Hwf r Hr) as [rvs Hrvs].
  unfold HeightVoteSet_getVoteSet. rewrite Hrvs. simpl. eauto.
Qed.

(** POLInfo returns the last round up to the current one whose prevotes
    have a +2/3 majority, with that majority, and -1 if there is none. *)
Theorem POLInfo_last_majority hvs : hvs_reachable hvs ->
  let maj r b := exists vs, HeightVoteSet_Prevotes hvs r = Ret (Some vs) /\ vs_maj23 vs = Some b in
  exists k b, HeightVoteSet_POLInfo hvs = Ret (k, b) /\
    ((k = -1 /\ forall j c, 0 <= j <= hvs_round hvs -> ~ maj j c) \/
     (0 <= k <= hvs_round hvs /\ maj k b /\ forall j c, k < j <= hvs_round hvs -> ~ maj j c)).
Proof.
  intros Hwf%hvs_reachable_wf maj. unfold HeightVoteSet_POLInfo.
  set (get := fun r => rvs ← HeightVoteSet_getVoteSet hvs r VoteTypePrevote; Ret (VoteSet_TwoThirdsMajority rvs)).
  pose proof (hw_nonneg _ Hwf) as Hn.
  assert (forall j, 0 <= j <= hvs_round hvs -> exists vs,
    HeightVoteSet_Prevotes hvs j = Ret (Some vs) /\ get j = Ret (VoteSet_TwoThirdsMajority (Some vs))) as Hget.
  { intros j Hj. destruct (prevotes_present hvs j Hwf Hj) as [vs Hvs]. exists vs. unfold get. by rewrite Hvs. }
  assert (forall j, 0 <= j <= hvs_round hvs -> (exists c, get j = Ret (c, false)) -> forall c, ~ maj j c) as Hno.
  { intros j Hj [c' Hc'] c (vs & Hvs & Hm). destruct (Hget j Hj) as (vs' & Hvs' & Hg). rewrite Hg in Hc'.
    assert (vs' = vs) as -> by congruence. revert Hc'. simpl. by rewrite Hm. }
  destruct (pol_loop_spec get (Z.to_nat (hvs_round hvs + 1)) (hvs_round hvs)) as (k & b & -> & Hcase).
  { intros j Hj. destruct (Hget j) as (vs & _ & ->); [lia|]. eauto. }
  exists k, b. split; [done|]. destruct Hcase as [(-> & _ & Hnone)|(Hk & Hkb & Hnone)].
  - left. split; [done|]. intros j c Hj. apply Hno; [lia|]. apply Hnone. lia.
  - right. split; [lia|]. split; [|intros j c Hj; apply Hno; [lia|]; apply Hnone; lia].
    destruct (Hget k) as (vs & Hvs & Hg); [lia|]. exists vs. split; [done|]. rewrite Hg in Hkb.
    revert Hkb. simpl. by destruct (vs_maj23 vs); intros [= <-].
Qed.

(** A vote of a member goes through, whatever the vote set says of it. *)
Lemma vset_add_returns {WL : WireLaws W} {CL : CryptoLaws C} hvs vote r t vs :
  vset_for hvs r t vs -> 0 <= v_ValidatorIndex vote < ValidatorSet_Size (hvs_valSet hvs) ->
  v_ValidatorAddress vote <> [] ->
  exists vs' added err, VoteSet_addVote vs vote = Ret (vs', (added, err)) /\ addVote_ends vs vote vs' added err.
Proof.
  intros [] Hi Ha. rewrite <- vf_valSet0 in Hi.
  destruct (addVote_returns vs vote vf_wf0 Hi Ha) as (vs' & [added err] & Hret).
  exists vs', added, err. split; [done|]. apply addVote_ends_spec; try done.
  pose proof (vok_size _ (w_valset _ _ (proj1 vf_wf0))). unfold is_uint64. lia.
Qed.

Lemma getVoteSet_valid hvs r t rvs :
  IsVoteTypeValid t = true -> hvs_roundVoteSets hvs !! r = Some rvs ->
  exists vs, HeightVoteSet_getVoteSet hvs r t = Ret (Some vs).
Proof.
  intros Ht Hr. unfold HeightVoteSet_getVoteSet. rewrite Hr. unfold IsVoteTypeValid in Ht.
  destruct (t =? VoteTypePrevote); [eauto|]. destruct (t =? VoteTypePrecommit); [eauto|done].
Qed.

(** The vote set of a round that addRound has just opened is a new one. *)
Lemma getVoteSet_opened hvs r t h1 vs :
  HeightVoteSet_addRound hvs r = Ret h1 -> HeightVoteSet_getVoteSet h1 r t = Ret (Some vs) ->
  NewVoteSet (hvs_chainID hvs) (hvs_height hvs) r t (hvs_valSet hvs) = Ret vs.
Proof.
  unfold HeightVoteSet_addRound, HeightVoteSet_getVoteSet. destruct (_ !! r); [done|].
  destruct (NewVoteSet _ _ _ VoteTypePrevote _) as [pv|] eqn:Hpv; [|done].
  destruct (NewVoteSet _ _ _ VoteTypePrecommit _) as [pc|] eqn:Hpc; [|done].
  intros [= <-]. simpl. rewrite lookup_insert_eq. simpl.
  destruct (Z.eqb_spec t VoteTypePrevote) as [->|]; [by intros [= <-]|].
  destruct (Z.eqb_spec t VoteTypePrecommit) as [->|]; [by intros [= <-]|done].
Qed.

Lemma put_vote_set_catchup hvs r t vs :
  hvs_peerCatchupRounds (put_vote_set hvs r t vs) = hvs_peerCatchupRounds hvs.
Proof. unfold put_vote_set. by destruct (_ !! r). Qed.

Lemma put_vote_set_rounds hvs r t vs k :
  is_Some (hvs_roundVoteSets hvs !! k) -> is_Some (hvs_roundVoteSets (put_vote_set hvs r t vs) !! k).
Proof.
  intros Hk. unfold put_vote_set. destruct (_ !! r); [|done]. simpl.
  apply lookup_insert_is_Some. destruct (decide (r = k)); [by left|by right].
Qed.

(** HeightVoteSet.AddVote on a well-formed vote never panics. A vote of a
    known round goes to the vote set of its round and type; the first two
    unknown rounds a peer votes for are opened and recorded against it; a
    third is refused without any change. *)
Theorem height_AddVote_catchup {WL : WireLaws W} {CL : CryptoLaws C} hvs vote peer :
  hvs_reachable hvs -> IsVoteTypeValid (v_Type vote) = true ->
  0 <= v_ValidatorIndex vote < ValidatorSet_Size (hvs_valSet hvs) -> v_ValidatorAddress vote <> [] ->
  let round := i64 (v_Round vote) in
  let rndz := default [] (hvs_peerCatchupRounds hvs !! peer) in
  exists hvs' added err, HeightVoteSet_AddVote hvs vote peer = Ret (hvs', (added, err)) /\ hvs_wf hvs' /\
  match hvs_roundVoteSets hvs !! round with
  | Some _ => exists vs vs', HeightVoteSet_getVoteSet hvs round (v_Type vote) = Ret (Some vs) /\
      addVote_ends vs vote vs' added err /\ hvs' = put_vote_set hvs round (v_Type vote) vs'
  | None =>
      if decide (length rndz < 2)%nat then
        hvs_peerCatchupRounds hvs' = <[peer := rndz ++ [round]]> (hvs_peerCatchupRounds hvs) /\
        is_Some (hvs_roundVoteSets hvs' !! round) /\
        exists vs vs', NewVoteSet (hvs_chainID hvs) (hvs_height hvs) round (v_Type vote) (hvs_valSet hvs) = Ret vs /\
          addVote_ends vs vote vs' added err
      else hvs' = hvs /\ added = false /\ is_Some err
  end.
Proof.
  intros Hwf%hvs_reachable_wf Ht Hi Ha round rndz.
  assert (is_uint64 (v_ValidatorIndex vote)) as Hu.
  { pose proof (vok_size _ (hw_valset _ (hw_base _ Hwf))). unfold is_uint64. lia. }
  assert (forall h vs vs' added err, hvs_wf h -> HeightVoteSet_getVoteSet h round (v_Type vote) = Ret (Some vs) ->
    VoteSet_addVote vs vote = Ret (vs', (added, err)) -> hvs_wf (put_vote_set h round (v_Type vote) vs')) as Hput.
  { intros h vs vs' added err Hh Hg Hadd. eapply (put_added_wf h vote (Some vs) (added, err)); [done..|].
    simpl. by rewrite Hadd. }
  unfold HeightVoteSet_AddVote. rewrite Ht. simpl. fold round.
  destruct (hvs_roundVoteSets hvs !! round) as [rvs|] eqn:Hr.
  - destruct (getVoteSet_valid _ _ _ _ Ht Hr) as [vs Hget]. rewrite Hget. go_bind.
    destruct (vset_add_returns hvs vote _ _ vs (getVoteSet_for _ _ _ _ (hw_base _ Hwf) Hget) Hi Ha)
      as (vs' & added & err & Hadd & Hend).
    simpl. rewrite Hadd. do 3 eexists. split; [done|]. split; [by eapply Hput|]. eauto.
  - assert (HeightVoteSet_getVoteSet hvs round (v_Type vote) = Ret None) as -> by (unfold HeightVoteSet_getVoteSet; by rewrite Hr).
    go_bind. fold rndz.
    destruct (Nat.ltb_spec (length rndz) 2), (decide (length rndz < 2)%nat); try lia; [|by do 3 eexists].
    destruct (addRound_fresh hvs round (hw_height _ (hw_base _ Hwf)) Hr) as [h1 Ha1]. rewrite Ha1.
    pose proof (catchup_wf _ _ _ peer Hwf Ha1 H) as Hwf1. fold rndz in Hwf1.
    destruct (addRound_inv _ _ _ (hw_valset _ (hw_base _ Hwf)) Ha1) as (_ & _ & rvs & _ & Hh1).
    destruct (getVoteSet_valid h1 round (v_Type vote) rvs Ht) as [vs Hget];
      [subst h1; apply lookup_insert_eq|].
    rewrite Hget. pose proof (getVoteSet_for _ _ _ _ (hw_base _ Hwf1) Hget) as Hfor.
    destruct (vset_add_returns _ vote _ _ vs Hfor ltac:(by subst h1) Ha) as (vs' & added & err & Hadd & Hend).
    simpl. rewrite Hadd. do 3 eexists. split; [done|]. split; [by eapply Hput|].
    split; [|split].
    + rewrite put_vote_set_catchup. by subst h1.
    + apply put_vote_set_rounds. subst h1. simpl. rewrite lookup_insert_eq. eauto.
    + exists vs, vs'. split; [|done]. by eapply getVoteSet_opened.
Qed.

(** An aggregate, once stored for a round and type, is never replaced or
    removed by AddSignAggr, and AddSignAggr reports an addition exactly when
    the slot of an open round was empty, in which case the slot then holds the
    new aggregate. *)
Theorem AddSignAggr_first_wins hsa sa :
  IsVoteTypeValid (sa_Type sa) = true ->
  exists hsa' added, HeightVoteSignAggr_AddSignAggr hsa sa = Ret (hsa', added) /\
    (added = true <-> is_Some (hsa_rounds hsa !! sa_Round sa) /\
       HeightVoteSignAggr_getSignAggr hsa (sa_Round sa) (sa_Type sa) = Ret None) /\
    (added = true -> HeightVoteSignAggr_getSignAggr hsa' (sa_Round sa) (sa_Type sa) = Ret (Some sa)) /\
    (added = false -> hsa' = hsa) /\
    (forall r t old, HeightVoteSignAggr_getSignAggr hsa r t = Ret (Some old) ->
       HeightVoteSignAggr_getSignAggr hsa' r t = Ret (Some old)).
Proof.
  intros Ht. unfold HeightVoteSignAggr_AddSignAggr. rewrite Ht. simpl.
  unfold HeightVoteSignAggr_getSignAggr. destruct (hsa_rounds hsa !! sa_Round sa) as [rvs|] eqn:Hr.
  2: { go_bind. do 2 eexists. split_and!; try done. split; [done|]. by intros [[] _]. }
  unfold IsVoteTypeValid in Ht.
  destruct (Z.eqb_spec (sa_Type sa) VoteTypePrevote) as [Hpv|Hpv];
    [|destruct (Z.eqb_spec (sa_Type sa) VoteTypePrecommit) as [Hpc|Hpc]; [|done]].
  - destruct (rsa_Prevotes rvs) as [ex|] eqn:Hex; go_bind; do 2 eexists.
    { split_and!; try done. split; [done|]. intros [_ [=]]. }
    split; [done|]. simpl. rewrite lookup_insert_eq. split_and!; [split; eauto|done|done|].
    intros r t old. destruct (decide (r = sa_Round sa)) as [->|];
      [rewrite Hr, lookup_insert_eq; simpl|by rewrite lookup_insert_ne].
    destruct (t =? VoteTypePrevote); [by rewrite Hex|done].
  - destruct (rsa_Precommits rvs) as [ex|] eqn:Hex; go_bind; do 2 eexists.
    { split_and!; try done. split; [done|]. intros [_ [=]]. }
    split; [done|]. simpl. rewrite lookup_insert_eq. split_and!; [split; eauto|done|done|].
    intros r t old. destruct (decide (r = sa_Round sa)) as [->|];
      [rewrite Hr, lookup_insert_eq; simpl|by rewrite lookup_insert_ne].
    destruct (t =? VoteTypePrevote); [done|]. destruct (t =? VoteTypePrecommit); [by rewrite Hex|done].
Qed.

End Theorems.

(** ** Examples: validators 0, 1 and 2 prevote for block 7 in round 0; a peer
    then votes in rounds 3, 4 and 5 while the height is in round 1. *)
Module HeightVotesExamples.
Import ListBitArray ToyLibs VoteSetExamples.

Definition ex_empty : HeightVoteSet :=
  {| hvs_chainID := "ligo"; hvs_height := 5; hvs_valSet := ex_voters; hvs_round := 0;
     hvs_roundVoteSets := ∅; hvs_peerCatchupRounds := ∅ |}.

Definition ex_start : HeightVoteSet :=
  match NewHeightVoteSet "ligo" 5 ex_voters with Ret h => h | Panic _ => ex_empty end.

Definition ex_voted (h : HeightVoteSet) (v : Vote) : HeightVoteSet :=
  match HeightVoteSet_AddVote h v "peer" with Ret (h', _) => h' | Panic _ => h end.

Definition ex_at (h : HeightVoteSet) (r : Z) : HeightVoteSet :=
  match HeightVoteSet_SetRound h r with Ret h' => h' | Panic _ => h end.

Definition ex_round_vote (i b r : Z) : Vote :=
  {| v_ValidatorAddress := [i + 1]; v_ValidatorIndex := i; v_Height := 5; v_Round := r;
     v_Type := VoteTypePrevote; v_BlockID := ex_block b; v_Signature := None; v_SignBytes := [] |}.

Definition ex_pol : HeightVoteSet :=
  ex_at (ex_voted (ex_voted (ex_voted ex_start (ex_vote 0 7)) (ex_vote 1 7)) (ex_vote 2 7)) 1.

Definition ex_catchup : HeightVoteSet :=
  ex_voted (ex_voted ex_pol (ex_round_vote 0 7 3)) (ex_round_vote 0 7 4).

Lemma ex_start_reachable : hvs_reachable ex_start.
Proof. by eapply (hreach_new "ligo" 5 ex_voters); [apply ex_voters_ok|]. Qed.

Lemma ex_voted_reachable h v :
  is_uint64 (v_ValidatorIndex v) -> hvs_reachable h -> hvs_reachable (ex_voted h v).
Proof.
  intros Hu Hr. unfold ex_voted. destruct (HeightVoteSet_AddVote h v "peer") as [[h' r]|] eqn:E; [|done].
  eapply hreach_step; [done|]. by eapply hstep_vote.
Qed.

Lemma ex_at_reachable h r : 0 <= r -> hvs_reachable h -> hvs_reachable (ex_at h r).
Proof.
  intros Hr Hh. unfold ex_at. destruct (HeightVoteSet_SetRound h r) as [h'|] eqn:E; [|done].
  eapply hreach_step; [done|]. by eapply hstep_round.
Qed.

Lemma ex_pol_reachable : hvs_reachable ex_pol.
Proof. apply ex_at_reachable; [done|]. do 3 (apply ex_voted_reachable; [done|]). apply ex_start_reachable. Qed.

Lemma ex_catchup_reachable : hvs_reachable ex_catchup.
Proof. do 2 (apply ex_voted_reachable; [done|]). apply ex_pol_reachable. Qed.

Lemma height_votes_bounded_witness :
  size (hvs_roundVoteSets ex_catchup) = 4%nat /\ hvs_wf ex_catchup.
Proof. split; [vm_compute; reflexivity|]. apply (height_votes_bounded ex_catchup), ex_catchup_reachable. Defined.

Lemma POLInfo_last_majority_witness :
  HeightVoteSet_POLInfo ex_pol = Ret (0, ex_block 7) /\
  exists k b, HeightVoteSet_POLInfo ex_pol = Ret (k, b).
Proof.
  split; [vm_compute; reflexivity|].
  destruct (POLInfo_last_majority ex_pol ex_pol_reachable) as (k & b & H & _). by exists k, b.
Defined.

Lemma height_AddVote_catchup_witness :
  hvs_roundVoteSets ex_catchup !! 5 = None /\
  exists hvs' added err, HeightVoteSet_AddVote ex_catchup (ex_round_vote 0 7 5) "peer" = Ret (hvs', (added, err)).
Proof.
  split; [vm_compute; reflexivity|].
  destruct (height_AddVote_catchup ex_catchup (ex_round_vote 0 7 5) "peer") as (h & a & e & H & _);
    [apply ex_catchup_reachable|done|vm_compute; split; congruence|done|by exists h, a, e].
Defined.

Lemma AddSignAggr_first_wins_witness :
  exists hsa' added, HeightVoteSignAggr_AddSignAggr
    {| hsa_chainID := "ligo"; hsa_height := 5; hsa_valSet := ex_voters; hsa_round := 0;
       hsa_rounds := {[0 := {| rsa_Prevotes := None; rsa_Precommits := None |}]} |}
    (MakeSignAggr 5 0 VoteTypePrevote 4 (ex_block 7) "ligo" [true] None) = Ret (hsa', added).
Proof.
  edestruct AddSignAggr_first_wins as (h & a & H & _); [|by exists h, a]. reflexivity.
Defined.

End HeightVotesExamples.
