(* ===== verification/PartSet.v ===== *)
(** * Block parts

    types/part_set.go of chain/consensus/tendermint: a block is cut into parts
    with Merkle proofs, the parts travel separately, and the receiver puts them
    together.  The Merkle tree and RIPEMD-160 are libraries, taken as the
    operations of [MerkleLib]. *)
From S2P Require Import Prelude BitArray TmTypes.
Local Open Scope Z_scope.

Class MerkleLib := {
  SimpleProof : Type;
  SimpleProof_zero : SimpleProof;
  ripemd160 : bytes -> bytes;
  merkle_SimpleProofs : list bytes -> bytes * list SimpleProof;
  SimpleProof_Verify : SimpleProof -> Z -> Z -> bytes -> bytes -> bool;
}.

(** What the code relies on: there is a proof for each leaf, the proofs verify,
    and (as an idealisation of collision resistance) nothing else verifies. *)
Class MerkleLaws (M : MerkleLib) := {
  proofs_length : forall leaves, leaves <> [] -> length (merkle_SimpleProofs leaves).2 = length leaves;
  proofs_verify : forall leaves i leaf proof, leaves <> [] -> leaves !! i = Some leaf ->
    (merkle_SimpleProofs leaves).2 !! i = Some proof ->
    SimpleProof_Verify proof (Z.of_nat i) (Z.of_nat (length leaves)) leaf (merkle_SimpleProofs leaves).1 = true;
  verify_sound : forall leaves proof i leaf, leaves <> [] -> (i < length leaves)%nat ->
    SimpleProof_Verify proof (Z.of_nat i) (Z.of_nat (length leaves)) leaf (merkle_SimpleProofs leaves).1 = true ->
    leaves !! i = Some leaf;
  ripemd160_inj : forall b1 b2, ripemd160 b1 = ripemd160 b2 -> b1 = b2;
}.

Inductive PartSetError := ErrPartSetUnexpectedIndex | ErrPartSetInvalidProof.

(** The allocator refuses a slice of pointers above this many bytes. *)
Definition maxAlloc : Z := 2 ^ 48.

Section Model.
Context `{BitArrayLib} `{MerkleLib}.

Record Part := {
  part_Index : Z;
  part_Bytes : bytes;
  part_Proof : SimpleProof;
  part_hash : option bytes;
}.

(** The digest, and the part with the digest cached. *)
Definition Part_Hash (part : Part) : bytes * Part :=
  match part_hash part with
  | Some h => (h, part)
  | None =>
      let h := ripemd160 (part_Bytes part) in
      (h, {| part_Index := part_Index part; part_Bytes := part_Bytes part;
             part_Proof := part_Proof part; part_hash := Some h |})
  end.

Definition part_set_proof (part : Part) (proof : SimpleProof) : Part :=
  {| part_Index := part_Index part; part_Bytes := part_Bytes part;
     part_Proof := proof; part_hash := part_hash part |}.

Record PartSet := {
  ps_total : Z;
  ps_hash : bytes;
  ps_parts : list (option Part);
  ps_partsBitArray : BA;
  ps_count : Z;
}.

(** [data[lo:hi]] *)
Definition slice_range (data : bytes) (lo hi : Z) : outcome bytes :=
  if bool_decide (0 <= lo <= hi /\ hi <= Z.of_nat (length data))
  then Ret (take (Z.to_nat hi - Z.to_nat lo) (drop (Z.to_nat lo) data))
  else Panic "slice bounds out of range".

(** The first loop of NewPartSetFromData, [n] iterations from [i]. *)
Fixpoint cut_parts (n : nat) (i : Z) (data : bytes) (partSize : Z) (bits : BA) : outcome (list Part * BA) :=
  match n with
  | O => Ret ([], bits)
  | S n' =>
      let len := Z.of_nat (length data) in
      bs ← slice_range data (i * partSize) (Z.min len ((i + 1) * partSize));
      let part := {| part_Index := i; part_Bytes := bs; part_Proof := SimpleProof_zero; part_hash := None |} in
      '(parts, bits) ← cut_parts n' (i + 1) data partSize (ba_SetIndex bits (u64 i) true);
      Ret (part :: parts, bits)
  end.

(** The second loop: [parts[i].Proof = *proofs[i]]. *)
Fixpoint put_proofs (parts : list Part) (proofs : list SimpleProof) : outcome (list Part) :=
  match parts, proofs with
  | [], _ => Ret []
  | part :: parts', proof :: proofs' =>
      rest ← put_proofs parts' proofs'; Ret (part_set_proof part proof :: rest)
  | _ :: _, [] => Panic "index out of range"
  end.

Definition NewPartSetFromData (data : bytes) (partSize : Z) : outcome PartSet :=
  if partSize =? 0 then Panic "integer divide by zero"
  else
    let total := Z.quot (Z.of_nat (length data) + partSize - 1) partSize in
    if total <? 0 then Panic "makeslice: len out of range"
    else
      '(parts, partsBitArray) ← cut_parts (Z.to_nat total) 0 data partSize (NewBitArray (u64 total));
      let hashed := Part_Hash <$> parts in
      let '(root, proofs) := merkle_SimpleProofs (fst <$> hashed) in
      parts ← put_proofs (snd <$> hashed) proofs;
      Ret {| ps_total := total; ps_hash := root; ps_parts := Some <$> parts;
             ps_partsBitArray := partsBitArray; ps_count := total |}.

Definition NewPartSetFromHeader (header : PartSetHeader) : outcome PartSet :=
  if maxAlloc <? 8 * psh_Total header then Panic "makeslice: len out of range"
  else Ret {| ps_total := i64 (psh_Total header);
              ps_hash := psh_Hash header;
              ps_parts := replicate (Z.to_nat (psh_Total header)) None;
              ps_partsBitArray := NewBitArray (psh_Total header);
              ps_count := 0 |}.

Definition PartSet_Header (ps : option PartSet) : PartSetHeader :=
  match ps with
  | None => {| psh_Total := 0; psh_Hash := [] |}
  | Some ps => {| psh_Total := u64 (ps_total ps); psh_Hash := ps_hash ps |}
  end.

Definition PartSet_HasHeader (ps : option PartSet) (header : PartSetHeader) : bool :=
  match ps with
  | None => false
  | Some _ => PartSetHeader_Equals (PartSet_Header ps) header
  end.

Definition PartSet_BitArray (ps : PartSet) : BA := ba_Copy (ps_partsBitArray ps).

Definition PartSet_HashesTo (ps : option PartSet) (hash : bytes) : bool :=
  match ps with None => false | Some ps => bool_decide (ps_hash ps = hash) end.

Definition PartSet_Count (ps : option PartSet) : Z :=
  match ps with None => 0 | Some ps => ps_count ps end.

Definition PartSet_Total (ps : option PartSet) : Z :=
  match ps with None => 0 | Some ps => ps_total ps end.

Definition PartSet_AddPart (ps : PartSet) (part : Part) (verify : bool)
    : outcome (PartSet * (bool * option PartSetError)) :=
  if ps_total ps <=? part_Index part then Ret (ps, (false, Some ErrPartSetUnexpectedIndex))
  else
    existing ← slice_get (ps_parts ps) (part_Index part);
    match existing with
    | Some _ => Ret (ps, (false, None))
    | None =>
        let '(hash, hashed) := Part_Hash part in
        if verify && negb (SimpleProof_Verify (part_Proof part) (part_Index part) (ps_total ps) hash (ps_hash ps))
        then Ret (ps, (false, Some ErrPartSetInvalidProof))
        else
          let part := if verify then hashed else part in
          parts ← slice_set (ps_parts ps) (part_Index part) (Some part);
          Ret ({| ps_total := ps_total ps; ps_hash := ps_hash ps; ps_parts := parts;
                  ps_partsBitArray := ba_SetIndex (ps_partsBitArray ps) (u64 (part_Index part)) true;
                  ps_count := ps_count ps + 1 |}, (true, None))
    end.

Definition PartSet_GetPart (ps : PartSet) (index : Z) : outcome (option Part) :=
  slice_get (ps_parts ps) index.

Definition PartSet_IsComplete (ps : PartSet) : bool := ps_count ps =? ps_total ps.

(** A reader: the index of the current part, the parts, and what is left of
    the current part. *)
Record PartSetReader := {
  psr_i : Z;
  psr_parts : list (option Part);
  psr_reader : bytes;
}.

Definition NewPartSetReader (parts : list (option Part)) : outcome PartSetReader :=
  part ← slice_get parts 0;
  match part with
  | None => Panic "nil pointer dereference"
  | Some part => Ret {| psr_i := 0; psr_parts := parts; psr_reader := part_Bytes part |}
  end.

Definition PartSet_GetReader (ps : PartSet) : outcome PartSetReader :=
  if negb (PartSet_IsComplete ps) then Panic "Cannot GetReader() on incomplete PartSet"
  else NewPartSetReader (ps_parts ps).

(** [bytes.Reader.Read] into a buffer of [n] bytes: what was read, whether
    io.EOF is reported, and what is left. *)
Definition bytes_Reader_Read (reader : bytes) (n : nat) : bytes * bool * bytes :=
  match reader with
  | [] => ([], true, [])
  | _ => (take n reader, false, drop n reader)
  end.

(** Read into a buffer of [n] bytes. The recursion moves to the next part at
    least every second call, so that [read_fuel] calls are enough. *)
Fixpoint PartSetReader_Read (fuel : nat) (psr : PartSetReader) (n : nat)
    : outcome (PartSetReader * (bytes * bool)) :=
  match fuel with
  | O => Panic "out of fuel"
  | S fuel' =>
      let readerLen := length (psr_reader psr) in
      if (n <=? readerLen)%nat then
        let '(got, eof, rest) := bytes_Reader_Read (psr_reader psr) n in
        Ret ({| psr_i := psr_i psr; psr_parts := psr_parts psr; psr_reader := rest |}, (got, eof))
      else if (0 <? readerLen)%nat then
        '(psr, (got1, eof1)) ← PartSetReader_Read fuel' psr readerLen;
        if eof1 : bool then Ret (psr, (got1, eof1))
        else
          '(psr, (got2, eof2)) ← PartSetReader_Read fuel' psr (n - readerLen);
          Ret (psr, (got1 ++ got2, eof2))
      else
        let i := psr_i psr + 1 in
        if Z.of_nat (length (psr_parts psr)) <=? i
        then Ret ({| psr_i := i; psr_parts := psr_parts psr; psr_reader := psr_reader psr |}, ([], true))
        else
          part ← slice_get (psr_parts psr) i;
          match part with
          | None => Panic "nil pointer dereference"
          | Some part =>
              PartSetReader_Read fuel'
                {| psr_i := i; psr_parts := psr_parts psr; psr_reader := part_Bytes part |} n
          end
  end.

Definition read_fuel (psr : PartSetReader) : nat :=
  2 * (length (psr_parts psr) - Z.to_nat (psr_i psr)) + 2.

End Model.

(** ** Cutting *)

Section Cutting.
Context `{L : BitArrayLib} `{M : MerkleLib}.

(** The [k]-th piece of [data]. *)
Definition chunk (data : bytes) (partSize : nat) (k : nat) : bytes :=
  take partSize (drop (k * partSize) data).

(** [data] as the list of its pieces. *)
Definition chunks (data : bytes) (partSize total : nat) : list bytes :=
  chunk data partSize <$> seq 0 total.

Lemma slice_range_chunk data (partSize k : nat) :
  (0 < partSize)%nat -> (k * partSize < length data)%nat ->
  slice_range data (Z.of_nat k * Z.of_nat partSize)
    (Z.min (Z.of_nat (length data)) ((Z.of_nat k + 1) * Z.of_nat partSize)) = Ret (chunk data partSize k).
Proof.
  intros Hp Hk. unfold slice_range. rewrite bool_decide_eq_true_2 by nia. f_equal. unfold chunk.
  replace (Z.to_nat (Z.of_nat k * Z.of_nat partSize)) with (k * partSize)%nat by nia.
  destruct (decide (length data <= (k + 1) * partSize)%nat).
  - rewrite !take_ge; [done|rewrite length_drop; nia..].
  - f_equal. nia.
Qed.

Lemma join_chunks data partSize n k :
  (0 < partSize)%nat -> (length data <= (k + n) * partSize)%nat ->
  mjoin (chunk data partSize <$> seq k n) = drop (k * partSize) data.
Proof.
  intros Hp. revert k. induction n as [|n IH]; intros k Hlen.
  { simpl. rewrite drop_ge by nia. done. }
  change (mjoin (chunk data partSize <$> seq k (S n))) with
    (chunk data partSize k ++ mjoin (chunk data partSize <$> seq (S k) n)).
  rewrite IH by nia.
  unfold chunk. replace (S k * partSize)%nat with (k * partSize + partSize)%nat by nia.
  rewrite <- drop_drop. apply take_drop.
Qed.

(** The parts before their proofs are known. *)
Definition bare_part (data : bytes) (partSize : nat) (k : nat) : Part :=
  {| part_Index := Z.of_nat k; part_Bytes := chunk data partSize k;
     part_Proof := SimpleProof_zero; part_hash := None |}.

Lemma cut_parts_spec data partSize n k bits :
  (0 < partSize)%nat -> ((k + n) * partSize < length data + partSize)%nat ->
  exists bits', cut_parts n (Z.of_nat k) data (Z.of_nat partSize) bits = Ret (bare_part data partSize <$> seq k n, bits').
Proof.
  intros Hp. revert k bits. induction n as [|n IH]; intros k bits Hlen; cbn [cut_parts]; [eauto|].
  rewrite slice_range_chunk by nia. go_bind.
  destruct (IH (S k) (ba_SetIndex bits (u64 (Z.of_nat k)) true)) as [bits' Hcut]; [nia|].
  replace (Z.of_nat k + 1) with (Z.of_nat (S k)) by lia. rewrite Hcut. eauto.
Qed.

Lemma put_proofs_spec parts proofs :
  length proofs = length parts -> put_proofs parts proofs = Ret (zip_with part_set_proof parts proofs).
Proof.
  revert proofs. induction parts as [|p parts IH]; intros [|q proofs] Hl; simplify_eq/=; [done|].
  by rewrite IH.
Qed.

(** The number of pieces. *)
Definition pieces (len partSize : nat) : nat := Z.to_nat ((Z.of_nat len + Z.of_nat partSize - 1) / Z.of_nat partSize).

Lemma pieces_spec len partSize :
  (0 < partSize)%nat -> (0 < len)%nat ->
  (len <= pieces len partSize * partSize < len + partSize)%nat /\ (0 < pieces len partSize)%nat.
Proof.
  intros Hp Hl. unfold pieces. set (q := (Z.of_nat len + Z.of_nat partSize - 1) / Z.of_nat partSize).
  pose proof (Z.mul_div_le (Z.of_nat len + Z.of_nat partSize - 1) (Z.of_nat partSize) ltac:(lia)).
  pose proof (Z.mul_succ_div_gt (Z.of_nat len + Z.of_nat partSize - 1) (Z.of_nat partSize) ltac:(lia)).
  fold q in H, H0. assert (0 < q) by nia. nia.
Qed.

End Cutting.

(** ** The set being filled *)

Section Filling.
Context `{L : BitArrayLib} {LL : BitArrayLaws L} `{M : MerkleLib}.

Fixpoint count_some {A} (l : list (option A)) : nat :=
  match l with
  | [] => 0
  | Some _ :: l => S (count_some l)
  | None :: l => count_some l
  end.

Lemma count_some_insert {A} (l : list (option A)) i x :
  l !! i = Some None -> count_some (<[i := Some x]> l) = S (count_some l).
Proof. revert i. induction l as [|[y|] l IH]; intros [|i] Hi; simplify_eq/=; auto. Qed.

Lemma count_some_le {A} (l : list (option A)) : (count_some l <= length l)%nat.
Proof. induction l as [|[] l IH]; simpl; lia. Qed.

Lemma count_some_none {A} n : count_some (replicate n (None : option A)) = 0%nat.
Proof. by induction n. Qed.

Lemma count_some_full {A} (l : list (option A)) :
  count_some l = length l -> exists l', l = Some <$> l'.
Proof.
  induction l as [|[y|] l IH]; simpl; intros Hc; [by exists []| |].
  - destruct IH as [l' ->]; [lia|]. by exists (y :: l').
  - pose proof (count_some_le l). lia.
Qed.

(** A set that receives the parts whose digests are [leaves]. *)
Record ps_inv (leaves : list bytes) (ps : PartSet) : Prop := {
  pi_total : ps_total ps = Z.of_nat (length leaves);
  pi_hash : ps_hash ps = (merkle_SimpleProofs leaves).1;
  pi_len : length (ps_parts ps) = length leaves;
  pi_count : ps_count ps = Z.of_nat (count_some (ps_parts ps));
  pi_size : ba_Size (ps_partsBitArray ps) = Z.of_nat (length leaves);
  pi_bits : ba_bits (ps_partsBitArray ps) = is_some <$> ps_parts ps;
  pi_parts : forall i part, ps_parts ps !! i = Some (Some part) ->
    part_Index part = Z.of_nat i /\ leaves !! i = Some (ripemd160 (part_Bytes part));
}.

(** A part as it comes from the wire: the digest is not part of the message. *)
Definition wire_part (part : Part) : Prop := part_hash part = None.

Inductive ps_received (ps : PartSet) : PartSet -> Prop :=
  | received_none : ps_received ps ps
  | received_part ps1 part ps2 r : ps_received ps ps1 -> wire_part part ->
      PartSet_AddPart ps1 part true = Ret (ps2, r) -> ps_received ps ps2.

Lemma from_header_inv leaves ps :
  leaves <> [] -> NewPartSetFromHeader {| psh_Total := u64 (Z.of_nat (length leaves));
    psh_Hash := (merkle_SimpleProofs leaves).1 |} = Ret ps ->
  Z.of_nat (length leaves) < 2 ^ 63 -> ps_inv leaves ps.
Proof.
  intros Hne. unfold NewPartSetFromHeader. destruct (_ <? _); [done|]. intros [= <-] Hlt.
  rewrite u64_id by (unfold is_uint64; lia).
  split; simpl; rewrite ?Nat2Z.id; try done.
  - apply i64_id. lia.
  - by rewrite length_replicate.
  - by rewrite count_some_none.
  - apply new_Size. lia.
  - rewrite ba_bits_new, Nat2Z.id, fmap_replicate by lia. done.
  - intros i part [Hx _]%lookup_replicate. done.
Qed.

(** Whatever the part, a call that returns keeps the invariant. *)
Lemma AddPart_inv {ML : MerkleLaws M} leaves ps part ps' r :
  leaves <> [] -> Z.of_nat (length leaves) < 2 ^ 63 -> wire_part part ->
  ps_inv leaves ps -> PartSet_AddPart ps part true = Ret (ps', r) -> ps_inv leaves ps'.
Proof.
  intros Hne Hlt Hw Hinv. unfold PartSet_AddPart.
  destruct (Z.leb_spec (ps_total ps) (part_Index part)); [by intros [= <- _]|].
  destruct (slice_get (ps_parts ps) (part_Index part)) as [[old|]|] eqn:Hold; go_bind; [by intros [= <- _]| |done].
  unfold Part_Hash. rewrite Hw. simpl.
  destruct (SimpleProof_Verify _ _ _ _ _) eqn:Hver; simpl; [|by intros [= <- _]].
  apply slice_get_Ret in Hold as [Hpos Hold].
  destruct Hinv. rewrite pi_total0 in *.
  rewrite slice_set_lt by lia. go_bind. intros [= <- _].
  set (i := Z.to_nat (part_Index part)) in *.
  assert (part_Index part = Z.of_nat i) as Hi by lia.
  assert (leaves !! i = Some (ripemd160 (part_Bytes part))) as Hleaf.
  { apply (verify_sound leaves (part_Proof part)); [done|lia|]. by rewrite <- Hi, <- pi_hash0. }
  split; simpl; try done.
  - by rewrite length_insert.
  - rewrite count_some_insert by done. lia.
  - by rewrite set_Size.
  - rewrite u64_id by (unfold is_uint64; lia).
    rewrite (ba_bits_set _ _ (is_some <$> ps_parts ps)), list_fmap_insert by (done || lia). done.
  - intros j p. rewrite list_lookup_insert_Some. intros [(<- & Hp & _)|[_ Hj]]; [|by apply pi_parts0].
    simplify_eq. done.
Qed.

End Filling.

(** ** Reading *)

Section Reading.
Context `{L : BitArrayLib} `{M : MerkleLib}.

(** What follows the part at index [i]. *)
Definition rest_after (l : list Part) (i : nat) : bytes := mjoin (part_Bytes <$> drop (S i) l).

Lemma rest_after_step l i part :
  l !! S i = Some part -> rest_after l i = part_Bytes part ++ rest_after l (S i).
Proof. intros Hl. unfold rest_after. by rewrite (drop_S l part (S i) Hl). Qed.

Lemma rest_after_end l i : (length l <= S i)%nat -> rest_after l i = [].
Proof. intros Hl. unfold rest_after. by rewrite drop_ge. Qed.

Lemma Read_current fuel i parts reader n :
  (0 < n <= length reader)%nat ->
  PartSetReader_Read (S fuel) {| psr_i := i; psr_parts := parts; psr_reader := reader |} n =
    Ret ({| psr_i := i; psr_parts := parts; psr_reader := drop n reader |}, (take n reader, false)).
Proof.
  intros Hn. cbn [PartSetReader_Read psr_reader psr_i psr_parts].
  destruct (Nat.leb_spec n (length reader)); [|lia]. destruct reader; [simpl in *; lia|done].
Qed.

(** One Read into a buffer of [n] bytes returns the next [n] bytes, or as many
    as there are, and reports io.EOF exactly when there were fewer. *)
Lemma Read_spec l fuel i reader n :
  (0 < n)%nat -> (2 * (length l - i) + (if decide (reader = []) then 1 else 2) <= fuel)%nat ->
  let rem := reader ++ rest_after l i in
  exists i' reader',
    PartSetReader_Read fuel {| psr_i := Z.of_nat i; psr_parts := Some <$> l; psr_reader := reader |} n =
      Ret ({| psr_i := Z.of_nat i'; psr_parts := Some <$> l; psr_reader := reader' |},
           (take n rem, bool_decide (length rem < n)%nat)) /\
    reader' ++ rest_after l i' = drop n rem.
Proof.
  revert i reader n. induction fuel as [|fuel IH]; intros i reader n Hn Hf rem.
  { destruct (decide _); lia. }
  destruct (decide (n <= length reader)%nat) as [Hle|Hgt].
  { exists i, (drop n reader). rewrite Read_current by lia. unfold rem.
    rewrite take_app_le, drop_app_le by done. split; [|done].
    rewrite bool_decide_eq_false_2 by (rewrite length_app; lia). done. }
  cbn [PartSetReader_Read psr_reader psr_i psr_parts].
  destruct (Nat.leb_spec n (length reader)) as [|_]; [lia|].
  destruct (Nat.ltb_spec 0 (length reader)) as [Hr|Hr].
  - destruct (decide (reader = [])) as [->|Hne]; [simpl in Hr; lia|].
    destruct fuel as [|fuel]; [lia|]. rewrite Read_current by lia.
    cbn [mbind outcome_bind]. rewrite drop_all, firstn_all.
    destruct (IH i [] (n - length reader)%nat) as (i' & r' & -> & Hrest); [lia|rewrite decide_True by done; lia|].
    exists i', r'. cbn [mbind outcome_bind app] in *. rewrite Hrest. unfold rem.
    rewrite take_app_ge, drop_app_ge by lia. split; [|done]. do 3 f_equal.
    apply bool_decide_ext. rewrite length_app. lia.
  - assert (reader = []) as -> by (destruct reader; [done|simpl in Hr; lia]). simpl in rem.
    rewrite length_fmap. destruct (Z.leb_spec (Z.of_nat (length l)) (Z.of_nat i + 1)) as [Hend|Hin].
    + exists (S i), []. unfold rem. rewrite !rest_after_end, take_nil, drop_nil by lia.
      replace (Z.of_nat i + 1) with (Z.of_nat (S i)) by lia.
      rewrite bool_decide_eq_true_2 by (simpl; lia). done.
    + destruct (lookup_lt_is_Some_2 l (S i)) as [part Hpart]; [lia|].
      assert (slice_get (Some <$> l) (Z.of_nat i + 1) = Ret (Some part)) as ->.
      { apply slice_get_Ret. split; [lia|]. replace (Z.to_nat (Z.of_nat i + 1)) with (S i) by lia.
        by rewrite list_lookup_fmap, Hpart. }
      go_bind. unfold rem. rewrite (rest_after_step _ _ _ Hpart).
      replace (Z.of_nat i + 1) with (Z.of_nat (S i)) by lia. apply IH; [done|].
      rewrite decide_True in Hf by done. destruct (decide _); lia.
Qed.

(** Successive calls of Read with buffers of the given sizes. *)
Fixpoint read_seq (psr : PartSetReader) (ns : list nat) : outcome bytes :=
  match ns with
  | [] => Ret []
  | n :: ns =>
      '(psr, (got, _)) ← PartSetReader_Read (read_fuel psr) psr n;
      rest ← read_seq psr ns;
      Ret (got ++ rest)
  end.

Lemma read_seq_spec l i reader ns :
  Forall (fun n => 0 < n)%nat ns ->
  read_seq {| psr_i := Z.of_nat i; psr_parts := Some <$> l; psr_reader := reader |} ns =
    Ret (take (sum_list ns) (reader ++ rest_after l i)).
Proof.
  intros Hns. revert i reader. induction Hns as [|n ns Hn Hns IH]; intros i reader; cbn [read_seq]; [done|].
  unfold read_fuel. cbn [psr_parts psr_i]. rewrite length_fmap, Nat2Z.id.
  destruct (Read_spec l (2 * (length l - i) + 2) i reader n) as (i' & r' & -> & Hrest); [done|destruct (decide _); lia|].
  cbn [mbind outcome_bind]. rewrite IH, Hrest. cbn [mbind outcome_bind]. f_equal.
  cbn [sum_list]. by rewrite take_take_drop.
Qed.

End Reading.

(** ** Theorems *)

Section Theorems.
Context `{L : BitArrayLib} {LL : BitArrayLaws L} `{M : MerkleLib} {ML : MerkleLaws M}.

(** The digests of the pieces of a block. *)
Definition leaves_of (data : bytes) (partSize : nat) : list bytes :=
  ripemd160 <$> chunks data partSize (pieces (length data) partSize).

(** The parts a block is cut into. *)
Definition parts_of (data : bytes) (partSize : nat) : list Part :=
  zip_with part_set_proof (snd <$> (Part_Hash <$> (bare_part data partSize <$> seq 0 (pieces (length data) partSize))))
    (merkle_SimpleProofs (leaves_of data partSize)).2.

Lemma NewPartSetFromData_spec data partSize :
  data <> [] -> (0 < partSize)%nat ->
  exists ps, NewPartSetFromData data (Z.of_nat partSize) = Ret ps /\
    ps_total ps = Z.of_nat (pieces (length data) partSize) /\
    ps_hash ps = (merkle_SimpleProofs (leaves_of data partSize)).1 /\
    ps_parts ps = Some <$> parts_of data partSize /\ PartSet_IsComplete ps = true.
Proof.
  intros Hd Hp. assert (0 < length data)%nat as Hl by (destruct data; simpl; [done|lia]).
  destruct (pieces_spec (length data) partSize Hp Hl) as [Hpieces Hpos].
  unfold NewPartSetFromData. destruct (Z.eqb_spec (Z.of_nat partSize) 0); [lia|].
  assert (Z.quot (Z.of_nat (length data) + Z.of_nat partSize - 1) (Z.of_nat partSize) =
    Z.of_nat (pieces (length data) partSize)) as ->.
  { rewrite Z.quot_div_nonneg by lia. unfold pieces in *. lia. }
  destruct (Z.ltb_spec (Z.of_nat (pieces (length data) partSize)) 0); [lia|]. rewrite Nat2Z.id.
  destruct (cut_parts_spec data partSize (pieces (length data) partSize) 0
    (NewBitArray (u64 (Z.of_nat (pieces (length data) partSize)))) Hp) as [bits Hcut]; [lia|].
  change (Z.of_nat 0) with 0 in Hcut. rewrite Hcut. cbn [mbind outcome_bind].
  assert (fst <$> (Part_Hash <$> (bare_part data partSize <$> seq 0 (pieces (length data) partSize))) =
    leaves_of data partSize) as ->.
  { unfold leaves_of, chunks. rewrite <- !list_fmap_compose. done. }
  destruct (merkle_SimpleProofs (leaves_of data partSize)) as [root proofs] eqn:Hm.
  assert (length proofs = pieces (length data) partSize) as Hlen.
  { change proofs with (root, proofs).2. rewrite <- Hm, proofs_length.
    - unfold leaves_of, chunks. by rewrite !length_fmap, length_seq.
    - unfold leaves_of, chunks. destruct (pieces _ _); [lia|done]. }
  rewrite put_proofs_spec by (by rewrite !length_fmap, length_seq).
  eexists. split; [done|]. simpl. unfold parts_of, PartSet_IsComplete. rewrite Hm. simpl.
  rewrite Z.eqb_refl. done.
Qed.

Lemma length_leaves_of data partSize :
  length (leaves_of data partSize) = pieces (length data) partSize.
Proof. unfold leaves_of, chunks. by rewrite !length_fmap, length_seq. Qed.

Lemma received_inv leaves ps ps' :
  leaves <> [] -> Z.of_nat (length leaves) < 2 ^ 63 -> ps_inv leaves ps -> ps_received ps ps' -> ps_inv leaves ps'.
Proof. intros Hne Hlt Hinv. induction 1; [done|]. by eapply AddPart_inv. Qed.

(** A complete set of verified parts holds the block, part by part. *)
Lemma complete_parts data partSize ps :
  ps_inv (leaves_of data partSize) ps -> PartSet_IsComplete ps = true ->
  exists l, ps_parts ps = Some <$> l /\ part_Bytes <$> l = chunks data partSize (pieces (length data) partSize).
Proof.
  intros [] Hc. unfold PartSet_IsComplete in Hc. apply Z.eqb_eq in Hc.
  destruct (count_some_full (ps_parts ps)) as [l Hl]; [lia|]. exists l. split; [done|].
  assert (length l = pieces (length data) partSize) as Hlen.
  { rewrite <- length_leaves_of, <- pi_len0, Hl. by rewrite length_fmap. }
  apply list_eq_same_length with (pieces (length data) partSize);
    [unfold chunks; by rewrite length_fmap, length_seq|by rewrite length_fmap|].
  intros i b c Hi Hb Hch. apply list_lookup_fmap_Some in Hb as (part & -> & Hpart).
  destruct (pi_parts0 i part) as [_ Hleaf]; [by rewrite Hl, list_lookup_fmap, Hpart|].
  unfold leaves_of in Hleaf. rewrite list_lookup_fmap, Hch in Hleaf. simpl in Hleaf.
  apply ripemd160_inj. congruence.
Qed.


(** A part as it is sent: without the cached digest. *)
Definition on_wire (part : Part) : Part :=
  {| part_Index := part_Index part; part_Bytes := part_Bytes part; part_Proof := part_Proof part; part_hash := None |}.

Lemma parts_of_lookup data partSize i part :
  parts_of data partSize !! i = Some part ->
  (i < pieces (length data) partSize)%nat /\
  part_Index part = Z.of_nat i /\ part_Bytes part = chunk data partSize i /\
  part_hash part = Some (ripemd160 (chunk data partSize i)) /\
  (merkle_SimpleProofs (leaves_of data partSize)).2 !! i = Some (part_Proof part).
Proof.
  unfold parts_of. rewrite lookup_zip_with_Some. intros (p & proof & -> & Hp & Hproof).
  rewrite <- !list_fmap_compose in Hp. apply list_lookup_fmap_Some in Hp as (k & -> & Hk).
  apply lookup_seq in Hk as [-> Hk]. done.
Qed.

(** Every genuine part that is still missing is accepted by AddPart with
    verification, stored and counted, whatever forged parts were offered
    before it. *)
Theorem genuine_parts_accepted data partSize ps0 ps1 ps i part :
  data <> [] -> (0 < partSize)%nat -> 8 * Z.of_nat (pieces (length data) partSize) <= maxAlloc ->
  NewPartSetFromData data (Z.of_nat partSize) = Ret ps0 ->
  NewPartSetFromHeader (PartSet_Header (Some ps0)) = Ret ps1 ->
  ps_received ps1 ps -> ps_parts ps0 !! i = Some (Some part) -> ps_parts ps !! i = Some None ->
  exists ps', PartSet_AddPart ps (on_wire part) true = Ret (ps', (true, None)) /\
    ps_parts ps' !! i = Some (Some part) /\ ps_count ps' = ps_count ps + 1.
Proof.
  intros Hd Hp Hmax Hps0 Hps1 Hrec Hpart Hmiss. unfold maxAlloc in Hmax.
  destruct (NewPartSetFromData_spec data partSize Hd Hp) as (ps0' & Hps0' & Ht & Hh & Hparts & _).
  assert (ps0' = ps0) as -> by congruence.
  rewrite Hparts, list_lookup_fmap in Hpart. destruct (parts_of data partSize !! i) as [q|] eqn:Hq; [|done].
  assert (q = part) as -> by (simpl in Hpart; congruence).
  destruct (parts_of_lookup _ _ _ _ Hq) as (Hi & Hidx & Hbytes & Hhash & Hproof).
  pose proof (length_leaves_of data partSize) as Hll.
  assert (leaves_of data partSize <> []) as Hne by (intros E; rewrite E in Hll; simpl in Hll; lia).
  assert (ps_inv (leaves_of data partSize) ps) as [].
  { apply (received_inv _ ps1); [done|lia| |done]. apply from_header_inv; [done| |lia].
    rewrite <- Hps1. simpl. by rewrite Ht, Hh, Hll. }
  unfold PartSet_AddPart. simpl. rewrite pi_total0, Hidx, Hll.
  destruct (Z.leb_spec (Z.of_nat (pieces (length data) partSize)) (Z.of_nat i)); [lia|].
  rewrite (proj2 (slice_get_Ret (ps_parts ps) (Z.of_nat i) None)) by (rewrite Nat2Z.id; split; [lia|done]).
  go_bind. rewrite Hbytes, <- Hll, pi_hash0.
  rewrite (proofs_verify _ i _ _ Hne) by
    (done || (unfold leaves_of, chunks; rewrite !list_lookup_fmap, lookup_seq_lt by done; done)).
  simpl. rewrite slice_set_lt by lia. eexists. split; [done|]. simpl. split; [|done].
  rewrite Nat2Z.id, list_lookup_insert_eq by lia. destruct part; simpl in *. by subst.
Qed.

(** A part with a negative index, which a peer can send, makes AddPart
    panic rather than answer ErrPartSetUnexpectedIndex. *)
Theorem AddPart_negative_panics ps part verify :
  part_Index part < 0 <= ps_total ps -> PartSet_AddPart ps part verify = Panic "index out of range".
Proof.
  intros Hi. unfold PartSet_AddPart. destruct (Z.leb_spec (ps_total ps) (part_Index part)); [lia|].
  rewrite slice_get_out by lia. done.
Qed.

End Theorems.

(** ** Examples: digests are the bytes themselves, a root lists the leaves. *)

Module PartSetExamples.
Import ListBitArray.

Definition toy_root (leaves : list bytes) : bytes :=
  mjoin ((fun b => Z.of_nat (length b) :: b) <$> leaves).

#[export] Instance ToyMerkle : MerkleLib := {|
  SimpleProof := list bytes;
  SimpleProof_zero := [];
  ripemd160 b := b;
  merkle_SimpleProofs leaves := (toy_root leaves, replicate (length leaves) leaves);
  SimpleProof_Verify proof i total leaf root :=
    bool_decide (toy_root proof = root /\ Z.of_nat (length proof) = total /\ 0 <= i /\ proof !! Z.to_nat i = Some leaf);
|}.

Lemma toy_root_inj l1 l2 : toy_root l1 = toy_root l2 -> l1 = l2.
Proof.
  revert l2. induction l1 as [|a l1 IH]; intros [|b l2]; unfold toy_root; simpl; try done.
  intros [= Hlen%Nat2Z.inj Happ]. apply app_inj_1 in Happ as [-> Hrest]; [|done]. f_equal. by apply IH.
Qed.

#[export] Instance ToyMerkleLaws : MerkleLaws ToyMerkle.
Proof.
  split; simpl.
  - intros leaves _. by rewrite length_replicate.
  - intros leaves i leaf proof _ Hl [-> _]%lookup_replicate. apply bool_decide_eq_true_2.
    split_and!; [done..|lia|by rewrite Nat2Z.id].
  - intros leaves proof i leaf _ Hi Hv. apply bool_decide_eq_true_1 in Hv as (Hr & _ & _ & Hp).
    apply toy_root_inj in Hr as ->. by rewrite Nat2Z.id in Hp.
  - done.
Qed.

Definition ex_data : bytes := [10; 11; 12; 13; 14].


Definition ex_cut : PartSet :=
  match NewPartSetFromData ex_data 2 with Ret ps => ps | Panic _ =>
    {| ps_total := 0; ps_hash := []; ps_parts := []; ps_partsBitArray := []; ps_count := 0 |} end.
Definition ex_open : PartSet :=
  match NewPartSetFromHeader (PartSet_Header (Some ex_cut)) with Ret ps => ps | Panic _ => ex_cut end.

Lemma genuine_parts_accepted_witness :
  exists part ps', ps_parts ex_cut !! 1%nat = Some (Some part) /\
    PartSet_AddPart ex_open (on_wire part) true = Ret (ps', (true, None)).
Proof.
  destruct (ps_parts ex_cut !! 1%nat) as [[part|]|] eqn:E; [|exfalso; revert E; vm_compute; discriminate..].
  destruct (genuine_parts_accepted ex_data 2 ex_cut ex_open ex_open 1 part) as (ps' & H & _);
    [done|lia|done|done|done|constructor|done|done|].
  by exists part, ps'.
Defined.

Lemma AddPart_negative_panics_witness :
  PartSet_AddPart ex_open {| part_Index := -1; part_Bytes := []; part_Proof := []; part_hash := None |} true =
    Panic "index out of range".
Proof. apply AddPart_negative_panics. by vm_compute. Defined.

End PartSetExamples.
