(* ===== verification/Epoch.v ===== *)
(** * Epochs

    chain/consensus/tendermint/epoch: epoch.go, epoch_vote.go and scheme.go.
    An epoch is a range of block numbers with one validator set; the next one
    is proposed during it, collects votes, and takes over at its end.  Epochs
    live in a key-value store; wire-go, which encodes them, is [EpochCodec]. *)
From S2P Require Import Prelude BitArray TmTypes ValidatorSet.
From stdpp Require Import pretty.
From Stdlib Require Sorted.
Local Open Scope Z_scope.

(** ** Reward scheme (scheme.go) *)

Record RewardScheme := {
  rs_TotalReward : Z;
  rs_RewardFirstYear : Z;
  rs_EpochNumberPerYear : Z;
  rs_TotalYear : Z;
}.

(** ** Votes for the next epoch (epoch_vote.go) *)

Record EpochValidatorVote := {
  ev_Address : bytes;
  ev_PubKey : option bytes;
  ev_Amount : option Z;
  ev_Salt : string;
  ev_VoteHash : bytes;
  ev_TxHash : bytes;
}.

#[export] Instance EpochValidatorVote_eq_dec : EqDecision EpochValidatorVote.
Proof. solve_decision. Defined.

Record EpochValidatorVoteSet := {
  evs_Votes : list EpochValidatorVote;
  evs_votesByAddress : gmap bytes EpochValidatorVote;
}.

Definition NewEpochValidatorVoteSet : EpochValidatorVoteSet :=
  {| evs_Votes := []; evs_votesByAddress := ∅ |}.

Definition EpochValidatorVoteSet_GetVoteByAddress (voteSet : EpochValidatorVoteSet) (address : bytes)
    : option EpochValidatorVote :=
  evs_votesByAddress voteSet !! address.

(** The index of the first element equal to [old]; the source compares
    pointers, and a stored vote is in the list once. *)
Definition vote_index (old : EpochValidatorVote) (votes : list EpochValidatorVote) : Z :=
  match list_find (fun v => v = old) votes with
  | Some (i, _) => Z.of_nat i
  | None => -1
  end.

Definition EpochValidatorVoteSet_StoreVote (voteSet : EpochValidatorVoteSet) (vote : EpochValidatorVote)
    : outcome EpochValidatorVoteSet :=
  votes ← match evs_votesByAddress voteSet !! ev_Address vote with
          | Some oldVote =>
              let index := vote_index oldVote (evs_Votes voteSet) in
              if index <? 0 then Panic "slice bounds out of range"
              else Ret (take (Z.to_nat index) (evs_Votes voteSet) ++ drop (S (Z.to_nat index)) (evs_Votes voteSet))
          | None => Ret (evs_Votes voteSet)
          end;
  Ret {| evs_Votes := votes ++ [vote];
         evs_votesByAddress := <[ev_Address vote := vote]> (evs_votesByAddress voteSet) |}.

(** The map that LoadEpochVoteSet and Copy rebuild from the list. *)
Definition votes_by_address (votes : list EpochValidatorVote) : gmap bytes EpochValidatorVote :=
  foldl (fun m v => <[ev_Address v := v]> m) ∅ votes.

Definition EpochValidatorVoteSet_Copy (voteSet : option EpochValidatorVoteSet) : option EpochValidatorVoteSet :=
  match voteSet with
  | None => None
  | Some voteSet =>
      Some {| evs_Votes := evs_Votes voteSet; evs_votesByAddress := votes_by_address (evs_Votes voteSet) |}
  end.

Definition EpochValidatorVoteSet_IsEmpty (voteSet : option EpochValidatorVoteSet) : bool :=
  match voteSet with
  | None => true
  | Some voteSet => bool_decide (evs_Votes voteSet = [])
  end.

(** ** Epochs (epoch.go) *)

Definition EPOCH_NOT_EXIST : Z := 0.
Definition EPOCH_PROPOSED_NOT_VOTED : Z := 1.
Definition EPOCH_VOTED_NOT_SAVED : Z := 2.
Definition EPOCH_SAVED : Z := 3.
Definition MinimumValidatorsSize : Z := 1.
Definition MaximumValidatorsSize : Z := 40.

(** Times are nanoseconds since 1970; the zero [time.Time] is the year 1. *)
Definition time_zero : Z := -62135596800 * 10 ^ 9.

Inductive Epoch := MkEpoch {
  ep_Number : Z;
  ep_RewardPerBlock : Z;
  ep_StartBlock : Z;
  ep_EndBlock : Z;
  ep_StartTime : Z;
  ep_EndTime : Z;
  ep_BlockGenerated : Z;
  ep_Status : Z;
  ep_Validators : ValidatorSet;
  ep_validatorVoteSet : option EpochValidatorVoteSet;
  ep_rs : option RewardScheme;
  ep_previousEpoch : option Epoch;
  ep_nextEpoch : option Epoch;
}.

(** The epoch described in a genesis document. *)
Record OneEpochDoc := {
  od_Number : Z;
  od_RewardPerBlock : Z;
  od_StartBlock : Z;
  od_EndBlock : Z;
  od_Status : Z;
  od_Validators : list Validator;
}.

(** What wire-go does: it writes the exported fields, and reads them back. *)
Class EpochCodec := {
  enc_epoch : Epoch -> bytes;
  dec_epoch : bytes -> option Epoch;
  enc_votes : EpochValidatorVoteSet -> bytes;
  dec_votes : bytes -> option (list EpochValidatorVote);
  enc_scheme : RewardScheme -> bytes;
  dec_scheme : bytes -> option RewardScheme;
  (** a time after it has been written and read *)
  wire_time : Z -> Z;
  (** [time.Time.AddDate(years, 0, 0)] in the node's time zone *)
  AddDate_years : Z -> Z -> Z;
}.

(** The exported fields of an epoch, as they come back. *)
Definition exported `{EpochCodec} (ep : Epoch) : Epoch :=
  {| ep_Number := ep_Number ep; ep_RewardPerBlock := ep_RewardPerBlock ep; ep_StartBlock := ep_StartBlock ep;
     ep_EndBlock := ep_EndBlock ep; ep_StartTime := wire_time (ep_StartTime ep);
     ep_EndTime := wire_time (ep_EndTime ep);
     ep_BlockGenerated := ep_BlockGenerated ep; ep_Status := ep_Status ep;
     ep_Validators := {| Validators := Validators (ep_Validators ep); totalVotingPower := None |};
     ep_validatorVoteSet := None; ep_rs := None; ep_previousEpoch := None; ep_nextEpoch := None |}.

Class EpochCodecLaws (EC : EpochCodec) : Prop := {
  dec_enc_epoch ep : dec_epoch (enc_epoch ep) = Some (exported ep);
  enc_epoch_nonempty ep : enc_epoch ep <> [];
  dec_enc_votes vs : dec_votes (enc_votes vs) = Some (evs_Votes vs);
  enc_votes_nonempty vs : enc_votes vs <> [];
  dec_enc_scheme rs : dec_scheme (enc_scheme rs) = Some rs;
  enc_scheme_nonempty rs : enc_scheme rs <> [];
  AddDate_forward t n : 0 <= n -> t <= AddDate_years t n;
}.

(** The store of db-go: [Get] of an absent key is nil. *)
Abbreviation DB := (gmap string bytes).
Definition string_bytes (s : string) : bytes :=
  (fun a => Z.of_nat (Ascii.nat_of_ascii a)) <$> String.list_ascii_of_string s.
Definition db_Get (db : DB) (k : string) : bytes := default [] (db !! k).

Definition calcEpochKeyWithHeight (number : Z) : string := "Epoch:" +:+ pretty (Z.to_N number).
Definition latestEpochKey : string := "LatestEpoch".
Definition calcEpochValidatorVoteKey (epochNumber : Z) : string :=
  "EpochValidatorVote_" +:+ pretty (Z.to_N epochNumber).
Definition rewardSchemeKey : string := "REWARDSCHEME".

(** Assignments to fields. *)
Definition ep_with_links (ep : Epoch) (votes : option EpochValidatorVoteSet) (rs : option RewardScheme)
    (prev next : option Epoch) : Epoch :=
  {| ep_Number := ep_Number ep; ep_RewardPerBlock := ep_RewardPerBlock ep; ep_StartBlock := ep_StartBlock ep;
     ep_EndBlock := ep_EndBlock ep; ep_StartTime := ep_StartTime ep; ep_EndTime := ep_EndTime ep;
     ep_BlockGenerated := ep_BlockGenerated ep; ep_Status := ep_Status ep; ep_Validators := ep_Validators ep;
     ep_validatorVoteSet := votes; ep_rs := rs; ep_previousEpoch := prev; ep_nextEpoch := next |}.
Definition ep_set_rs (ep : Epoch) (rs : option RewardScheme) : Epoch :=
  ep_with_links ep (ep_validatorVoteSet ep) rs (ep_previousEpoch ep) (ep_nextEpoch ep).
Definition ep_set_votes (ep : Epoch) (votes : option EpochValidatorVoteSet) : Epoch :=
  ep_with_links ep votes (ep_rs ep) (ep_previousEpoch ep) (ep_nextEpoch ep).
Definition ep_set_next (ep : Epoch) (next : option Epoch) : Epoch :=
  ep_with_links ep (ep_validatorVoteSet ep) (ep_rs ep) (ep_previousEpoch ep) next.
Definition ep_with_times (ep : Epoch) (start end_ : Z) (status : Z) (validators : ValidatorSet) : Epoch :=
  {| ep_Number := ep_Number ep; ep_RewardPerBlock := ep_RewardPerBlock ep; ep_StartBlock := ep_StartBlock ep;
     ep_EndBlock := ep_EndBlock ep; ep_StartTime := start; ep_EndTime := end_;
     ep_BlockGenerated := ep_BlockGenerated ep; ep_Status := status; ep_Validators := validators;
     ep_validatorVoteSet := ep_validatorVoteSet ep; ep_rs := ep_rs ep;
     ep_previousEpoch := ep_previousEpoch ep; ep_nextEpoch := ep_nextEpoch ep |}.

(** [t.Sub(u)]: a duration saturates at the range of int64. *)
Definition time_Sub (t u : Z) : Z := Z.max (- 2 ^ 63) (Z.min (2 ^ 63 - 1) (t - u)).

(** Division of int64 values. *)
Definition int64_div (a b : Z) : outcome Z :=
  if b =? 0 then Panic "integer divide by zero" else Ret (i64 (Z.quot a b)).

(** ** Changing the validators *)

Record RefundValidatorAmount := { rf_Address : bytes; rf_Amount : option Z; rf_Voteout : bool }.

Definition val_set_power (v : Validator) (power : Z) : Validator :=
  {| val_Address := val_Address v; val_PubKey := val_PubKey v; val_VotingPower := power;
     val_RemainingEpoch := val_RemainingEpoch v |}.

(** [sort.Slice]: a permutation in order; the order of ties is not specified. *)
Class SliceSort := sort_Slice : (Validator -> Validator -> bool) -> list Validator -> list Validator.

Record weak_order (less : Validator -> Validator -> bool) : Prop := {
  wo_asym a b : less a b = true -> less b a = false;
  wo_trans a b c : less b a = false -> less c b = false -> less c a = false;
}.

Class SliceSortLaws (SS : SliceSort) : Prop := {
  sort_Slice_perm less l : sort_Slice less l ≡ₚ l;
  sort_Slice_sorted less l : weak_order less ->
    Sorted.StronglySorted (fun a b => less b a = false) (sort_Slice less l);
}.

Section Model.
Context `{EpochCodec} `{CryptoLib} `{SliceSort}.

(** *** The store *)

Definition SaveEpochVoteSet (db : DB) (epochNumber : Z) (voteSet : EpochValidatorVoteSet) : DB :=
  <[calcEpochValidatorVoteKey epochNumber := enc_votes voteSet]> db.

Definition LoadEpochVoteSet (db : DB) (epochNumber : Z) : option EpochValidatorVoteSet :=
  let data := db_Get db (calcEpochValidatorVoteKey epochNumber) in
  if bool_decide (data = []) then None
  else match dec_votes data with
  | None => None
  | Some votes => Some {| evs_Votes := votes; evs_votesByAddress := votes_by_address votes |}
  end.

Definition LoadRewardScheme (db : DB) : option RewardScheme :=
  let buf := db_Get db rewardSchemeKey in
  if bool_decide (buf = []) then None else dec_scheme buf.

Definition RewardScheme_Save (db : DB) (rs : RewardScheme) : DB := <[rewardSchemeKey := enc_scheme rs]> db.

Definition FromBytes (buf : bytes) : option Epoch :=
  if bool_decide (buf = []) then None else dec_epoch buf.

Definition loadOneEpoch (db : DB) (epochNumber : Z) : option Epoch :=
  FromBytes (db_Get db (calcEpochKeyWithHeight epochNumber)).

Definition LoadOneEpoch (db : DB) (epochNumber : Z) : outcome Epoch :=
  match loadOneEpoch db epochNumber with
  | None => Panic "nil pointer dereference"
  | Some epoch =>
      let rewardscheme := LoadRewardScheme db in
      let prev := if 0 <? epochNumber
                  then (fun p => ep_set_rs p rewardscheme) <$> loadOneEpoch db (u64 (epochNumber - 1))
                  else ep_previousEpoch epoch in
      let next := (fun n => ep_set_votes (ep_set_rs n rewardscheme) (LoadEpochVoteSet db (u64 (epochNumber + 1))))
                  <$> loadOneEpoch db (u64 (epochNumber + 1)) in
      Ret (ep_with_links epoch (LoadEpochVoteSet db epochNumber) rewardscheme prev next)
  end.

Definition MakeOneEpoch (now : Z) (oneEpoch : OneEpochDoc) : Epoch :=
  {| ep_Number := od_Number oneEpoch; ep_RewardPerBlock := od_RewardPerBlock oneEpoch;
     ep_StartBlock := od_StartBlock oneEpoch; ep_EndBlock := od_EndBlock oneEpoch;
     ep_StartTime := now; ep_EndTime := 0; ep_BlockGenerated := 0; ep_Status := od_Status oneEpoch;
     ep_Validators := NewValidatorSet (od_Validators oneEpoch);
     ep_validatorVoteSet := None; ep_rs := None; ep_previousEpoch := None; ep_nextEpoch := None |}.

(** The epoch may have its next epoch marked as saved. *)
Definition Epoch_Save (db : DB) (epoch : Epoch) : DB * Epoch :=
  let db := <[calcEpochKeyWithHeight (ep_Number epoch) := enc_epoch epoch]> db in
  let db := <[latestEpochKey := string_bytes (pretty (Z.to_N (ep_Number epoch)))]> db in
  match ep_nextEpoch epoch with
  | None => (db, epoch)
  | Some next =>
      let '(db, next) :=
        if ep_Status next =? EPOCH_VOTED_NOT_SAVED then
          let next := ep_with_times next (ep_StartTime next) (ep_EndTime next) EPOCH_SAVED (ep_Validators next) in
          (<[calcEpochKeyWithHeight (ep_Number next) := enc_epoch next]> db, next)
        else (db, next) in
      let db := match ep_validatorVoteSet next with
                | Some votes => SaveEpochVoteSet db (ep_Number next) votes
                | None => db
                end in
      (db, ep_set_next epoch (Some next))
  end.

Definition GetEpochValidatorVoteSet (db : DB) (epoch : Epoch) : option EpochValidatorVoteSet * Epoch :=
  match ep_validatorVoteSet epoch with
  | Some votes => (Some votes, epoch)
  | None =>
      let votes := LoadEpochVoteSet db (ep_Number epoch) in
      (votes, ep_set_votes epoch votes)
  end.

Definition GetNextEpoch (db : DB) (epoch : Epoch) : option Epoch * Epoch :=
  match ep_nextEpoch epoch with
  | Some next => (Some next, epoch)
  | None =>
      let next := (fun n => ep_set_votes (ep_set_rs n (ep_rs epoch)) (LoadEpochVoteSet db (u64 (ep_Number epoch + 1))))
                  <$> loadOneEpoch db (u64 (ep_Number epoch + 1)) in
      (next, ep_set_next epoch next)
  end.

Definition SetNextEpoch (epoch : Epoch) (next : option Epoch) : Epoch :=
  ep_set_next epoch ((fun n => ep_set_rs n (ep_rs epoch)) <$> next).

Definition UpdateEpochEndTime (db : DB) (epNumber endTime : Z) : DB :=
  match loadOneEpoch db epNumber with
  | None => db
  | Some ep =>
      <[calcEpochKeyWithHeight epNumber :=
          enc_epoch (ep_with_times ep (ep_StartTime ep) endTime (ep_Status ep) (ep_Validators ep))]> db
  end.

(** The loop of GetEpochByBlockNumber goes down through the stored epochs. At
    most [fuel] are looked at; below number 0 the counter wraps around and
    nothing is found. *)
Fixpoint find_epoch (fuel : nat) (db : DB) (number blockNumber : Z) : option Epoch :=
  match fuel with
  | O => None
  | S fuel' =>
      match loadOneEpoch db number with
      | None => None
      | Some ep =>
          if (ep_StartBlock ep <=? blockNumber) && (blockNumber <=? ep_EndBlock ep) then Some ep
          else find_epoch fuel' db (u64 (number - 1)) blockNumber
      end
  end.

Definition GetEpochByBlockNumber (fuel : nat) (db : DB) (epoch : Epoch) (blockNumber : Z) : option Epoch :=
  if (ep_StartBlock epoch <=? blockNumber) && (blockNumber <=? ep_EndBlock epoch) then Some epoch
  else find_epoch fuel db (u64 (ep_Number epoch - 1)) blockNumber.

(** *** Copies and comparison *)

Definition copy_without_links (epoch : Epoch) : Epoch :=
  {| ep_Number := ep_Number epoch; ep_RewardPerBlock := ep_RewardPerBlock epoch;
     ep_StartBlock := ep_StartBlock epoch; ep_EndBlock := ep_EndBlock epoch;
     ep_StartTime := ep_StartTime epoch; ep_EndTime := ep_EndTime epoch;
     ep_BlockGenerated := ep_BlockGenerated epoch; ep_Status := ep_Status epoch;
     ep_Validators := ValidatorSet_Copy (ep_Validators epoch);
     ep_validatorVoteSet := EpochValidatorVoteSet_Copy (ep_validatorVoteSet epoch);
     ep_rs := ep_rs epoch; ep_previousEpoch := None; ep_nextEpoch := None |}.

Definition Epoch_Copy (epoch : Epoch) : Epoch :=
  let c := copy_without_links epoch in
  ep_with_links c (ep_validatorVoteSet c) (ep_rs c)
    (copy_without_links <$> ep_previousEpoch epoch) (copy_without_links <$> ep_nextEpoch epoch).

Definition Epoch_Equals_flat (epoch other : option Epoch) : bool :=
  match epoch, other with
  | None, None => true
  | Some epoch, Some other =>
      (ep_Number epoch =? ep_Number other) && (ep_RewardPerBlock epoch =? ep_RewardPerBlock other) &&
      (ep_StartBlock epoch =? ep_StartBlock other) && (ep_EndBlock epoch =? ep_EndBlock other) &&
      ValidatorSet_Equals (ep_Validators epoch) (ep_Validators other)
  | _, _ => false
  end.

Definition Epoch_Equals (epoch other : option Epoch) (checkPrevNext : bool) : bool :=
  match epoch, other with
  | Some e, Some o =>
      Epoch_Equals_flat epoch other &&
      (negb checkPrevNext ||
       (Epoch_Equals_flat (ep_previousEpoch e) (ep_previousEpoch o) &&
        Epoch_Equals_flat (ep_nextEpoch e) (ep_nextEpoch o)))
  | _, _ => Epoch_Equals_flat epoch other
  end.

(** *** The next epoch *)

Definition EMERGENCY_BLOCKS_OF_NEXT_EPOCH : Z := 21614.

Definition calculateRewardPerEpochByYear (rewardFirstYear year totalYear epochNumberPerYear : Z) : outcome Z :=
  if totalYear <? year then Ret 0
  else if epochNumberPerYear =? 0 then Panic "division by zero"
  else Ret (rewardFirstYear / epochNumberPerYear).

(** [big.Int.Div]: Euclidean division, which panics on zero. *)
Definition big_Div (a b : Z) : outcome Z :=
  if b =? 0 then Panic "division by zero"
  else Ret (if b <? 0 then - (a / - b) else a / b).

Definition estimateForNextEpoch (db : DB) (epoch : Epoch) (lastBlockHeight lastBlockTime : Z)
    : outcome (Z * Z) :=
  match ep_rs epoch, loadOneEpoch db 0 with
  | Some rs, Some zeroEpoch =>
    let rewardFirstYear := rs_RewardFirstYear rs in
    let epochNumberPerYear := rs_EpochNumberPerYear rs in
    let totalYear := rs_TotalYear rs in
    let initStartTime := ep_StartTime zeroEpoch in
    if epochNumberPerYear =? 0 then Panic "integer divide by zero"
    else
    let thisYear := ep_Number epoch / epochNumberPerYear in
    let nextYear := u64 (thisYear + 1) in
    timePerBlockOfEpoch ←
      match ep_previousEpoch epoch with
      | Some prev => int64_div (time_Sub (ep_EndTime prev) (ep_StartTime prev))
                               (i64 (ep_EndBlock prev - ep_StartBlock prev))
      | None => int64_div (time_Sub lastBlockTime (ep_StartTime epoch))
                          (i64 (lastBlockHeight - ep_StartBlock epoch))
      end;
    let timePerBlockOfEpoch := if timePerBlockOfEpoch =? 0 then 1000000000 else timePerBlockOfEpoch in
    let epochLeftThisYear := u64 (epochNumberPerYear - ep_Number epoch mod epochNumberPerYear - 1) in
    let nextYearStartTime := AddDate_years initStartTime (i64 nextYear) in
    if epochLeftThisYear =? 0 then
      let nextYearEndTime := AddDate_years nextYearStartTime 1 in
      let timeLeftNextYear := time_Sub nextYearEndTime nextYearStartTime in
      blocks ← (epochTime ← int64_div timeLeftNextYear (i64 epochNumberPerYear);
                blocks ← int64_div epochTime timePerBlockOfEpoch;
                Ret (u64 blocks));
      let blocks := if blocks <? EMERGENCY_BLOCKS_OF_NEXT_EPOCH then EMERGENCY_BLOCKS_OF_NEXT_EPOCH else blocks in
      rewardPerEpoch ← calculateRewardPerEpochByYear rewardFirstYear (i64 nextYear) (i64 totalYear) (i64 epochNumberPerYear);
      rewardPerBlock ← big_Div rewardPerEpoch (i64 blocks);
      Ret (rewardPerBlock, blocks)
    else
      let timeLeftThisYear := time_Sub nextYearStartTime lastBlockTime in
      blocks ←
        (if 0 <? timeLeftThisYear then
          epochTime ← int64_div timeLeftThisYear (i64 epochLeftThisYear);
          blocks ← int64_div epochTime timePerBlockOfEpoch;
          Ret (u64 blocks)
        else Ret 0);
      let blocks := if blocks <? EMERGENCY_BLOCKS_OF_NEXT_EPOCH then EMERGENCY_BLOCKS_OF_NEXT_EPOCH else blocks in
      rewardPerEpoch ← calculateRewardPerEpochByYear rewardFirstYear (i64 thisYear) (i64 totalYear) (i64 epochNumberPerYear);
      rewardPerBlock ← big_Div rewardPerEpoch (i64 blocks);
      Ret (rewardPerBlock, blocks)
  | _, _ => Panic "nil pointer dereference"
  end.

Definition ShouldProposeNextEpoch (epoch : Epoch) (curBlockHeight : Z) : bool :=
  match ep_nextEpoch epoch with
  | Some _ => false
  | None => (ep_StartBlock epoch <? curBlockHeight) && negb (curBlockHeight =? 1) &&
            negb (curBlockHeight =? ep_EndBlock epoch)
  end.

Definition ProposeNextEpoch (db : DB) (epoch : Epoch) (lastBlockHeight lastBlockTime : Z) : outcome Epoch :=
  '(rewardPerBlock, blocks) ← estimateForNextEpoch db epoch lastBlockHeight lastBlockTime;
  Ret {| ep_Number := u64 (ep_Number epoch + 1); ep_RewardPerBlock := rewardPerBlock;
         ep_StartBlock := u64 (ep_EndBlock epoch + 1); ep_EndBlock := u64 (ep_EndBlock epoch + blocks);
         ep_StartTime := time_zero; ep_EndTime := time_zero; ep_BlockGenerated := 0;
         ep_Status := EPOCH_PROPOSED_NOT_VOTED; ep_Validators := ValidatorSet_Copy (ep_Validators epoch);
         ep_validatorVoteSet := None; ep_rs := None; ep_previousEpoch := None; ep_nextEpoch := None |}.

Definition ValidateNextEpoch (db : DB) (epoch : Epoch) (next : option Epoch) (lastHeight lastBlockTime : Z)
    : outcome (option string) :=
  myNextEpoch ← ProposeNextEpoch db epoch lastHeight lastBlockTime;
  if negb (Epoch_Equals (Some myNextEpoch) next false)
  then Ret (Some "next epoch parameters are not excepted, fatal error"%string)
  else Ret None.

Definition EnterNewEpoch (now : Z) (db : DB) (epoch : Epoch) (newValidators : ValidatorSet)
    : result string (DB * Epoch) :=
  match ep_nextEpoch epoch with
  | None => Err "next epoch parameters do not exist, fatal error"%string
  | Some _ =>
      let epoch := ep_with_times epoch (ep_StartTime epoch) now (ep_Status epoch) (ep_Validators epoch) in
      let '(db, epoch) := Epoch_Save db epoch in
      match ep_nextEpoch epoch with
      | None => Err "next epoch parameters do not exist, fatal error"%string
      | Some next =>
          let next := ep_with_links next (ep_validatorVoteSet next) (ep_rs next) (Some (Epoch_Copy epoch)) None in
          let next := ep_with_times next now (ep_EndTime next) (ep_Status next) newValidators in
          Ok (Epoch_Save db next)
      end
  end.

(** *** The validators of the next epoch *)

(** The body of the loop over the votes: the validators, the refunds, and the
    number of validators added so far. *)
Definition update_by_vote (acc : ValidatorSet * list RefundValidatorAmount * Z) (v : EpochValidatorVote)
    : ValidatorSet * list RefundValidatorAmount * Z :=
  let '(validators, refund, newValSize) := acc in
  match ev_Amount v, bool_decide (ev_Salt v = ""), ev_PubKey v with
  | Some amount, false, Some pubKey =>
      match (ValidatorSet_GetByAddress validators (ev_Address v)).2 with
      | None =>
          let '(validators, added) := ValidatorSet_Add validators (NewValidator (ev_Address v) pubKey amount) in
          (validators, refund, if added then newValSize + 1 else newValSize)
      | Some validator =>
          if Z.sgn amount =? 0 then
            let '(validators, (_, removed)) := ValidatorSet_Remove validators (val_Address validator) in
            (validators,
             if removed
             then refund ++ [{| rf_Address := ev_Address v; rf_Amount := Some (val_VotingPower validator); rf_Voteout := false |}]
             else refund,
             newValSize)
          else
            let refund :=
              if amount <? val_VotingPower validator
              then refund ++ [{| rf_Address := ev_Address v;
                                 rf_Amount := Some (val_VotingPower validator - amount); rf_Voteout := false |}]
              else refund in
            let '(validators, _) := ValidatorSet_Update validators (val_set_power validator amount) in
            (validators, refund, newValSize)
      end
  | _, _, _ => (validators, refund, newValSize)
  end.

Definition decrement_epoch (v : Validator) : Validator :=
  if 0 <? val_RemainingEpoch v
  then {| val_Address := val_Address v; val_PubKey := val_PubKey v;
          val_VotingPower := val_VotingPower v; val_RemainingEpoch := val_RemainingEpoch v - 1 |}
  else v.

(** The order in which validators keep their seats. *)
Definition stays_before (a b : Validator) : bool :=
  if val_RemainingEpoch a =? val_RemainingEpoch b
  then val_VotingPower b <? val_VotingPower a
  else val_RemainingEpoch b <? val_RemainingEpoch a.

(** It never returns an error. *)
Definition updateEpochValidatorSet (validators : ValidatorSet) (voteSet : option EpochValidatorVoteSet)
    : ValidatorSet * list RefundValidatorAmount :=
  let oldValSize := ValidatorSet_Size validators in
  let '(validators, refund, newValSize) :=
    if negb (EpochValidatorVoteSet_IsEmpty voteSet)
    then foldl update_by_vote (validators, [], 0) (from_option evs_Votes [] voteSet)
    else (validators, [], 0) in
  let valSize := oldValSize + newValSize in
  let valSize := if MaximumValidatorsSize <? valSize then MaximumValidatorsSize
                 else if valSize <? MinimumValidatorsSize then MinimumValidatorsSize
                 else valSize in
  let validators := {| Validators := option_map (fun l => decrement_epoch <$> l) (Validators validators);
                       totalVotingPower := totalVotingPower validators |} in
  if valSize <? ValidatorSet_Size validators then
    let sorted := sort_Slice stays_before (vals validators) in
    let knockout := drop (Z.to_nat valSize) sorted in
    ({| Validators := Some (take (Z.to_nat valSize) sorted); totalVotingPower := totalVotingPower validators |},
     refund ++ ((fun k => {| rf_Address := val_Address k; rf_Amount := None; rf_Voteout := true |}) <$> knockout))
  else (validators, refund).

End Model.

(** ** Votes *)

(** One vote per address, and the map is the list. *)
Record evs_wf (vs : EpochValidatorVoteSet) : Prop := {
  ew_nodup : NoDup (ev_Address <$> evs_Votes vs);
  ew_map : forall a v, evs_votesByAddress vs !! a = Some v <-> v ∈ evs_Votes vs /\ ev_Address v = a;
}.

Lemma vote_index_in v votes :
  v ∈ votes -> exists i, vote_index v votes = Z.of_nat i /\ votes !! i = Some v.
Proof.
  intros Hv. unfold vote_index. destruct (list_find (fun w => w = v) votes) as [[i w]|] eqn:E.
  - apply list_find_Some in E as (Hi & -> & _). eauto.
  - apply list_find_None in E. rewrite Forall_forall in E. by destruct (E v Hv).
Qed.

Lemma delete_at_split {A} (l : list A) i x :
  l !! i = Some x -> exists l1 l2, l = l1 ++ x :: l2 /\ take i l ++ drop (S i) l = l1 ++ l2.
Proof.
  intros Hi. exists (take i l), (drop (S i) l). split; [by rewrite take_drop_middle|done].
Qed.

(** A vote appended to votes of other addresses. *)
Lemma evs_append rest m vote :
  NoDup (ev_Address <$> rest) -> (forall v, v ∈ rest -> ev_Address v <> ev_Address vote) ->
  (forall a v, a <> ev_Address vote -> m !! a = Some v <-> v ∈ rest /\ ev_Address v = a) ->
  evs_wf {| evs_Votes := rest ++ [vote]; evs_votesByAddress := <[ev_Address vote := vote]> m |}.
Proof.
  intros Hnd Hne Hm. split; simpl.
  - rewrite fmap_app. apply NoDup_app. split; [done|]. split; [|apply NoDup_singleton].
    intros x Hx Hx'. apply list_elem_of_singleton in Hx' as ->.
    apply list_elem_of_fmap in Hx as (v & Hv & Hin'). by apply (Hne v Hin').
  - intros a v. rewrite lookup_insert_Some, elem_of_app, list_elem_of_singleton. split.
    + intros [[<- <-]|[Hna Hv]]; [by split; [right|]|]. apply Hm in Hv as [Hv <-]; [|done]. by split; [left|].
    + intros [[Hv| ->] <-]; [right|by left]. split; [intros E; by apply (Hne v)|]. apply Hm; [|done].
      intros E. by apply (Hne v).
Qed.

Lemma StoreVote_spec vs vote :
  evs_wf vs -> exists vs', EpochValidatorVoteSet_StoreVote vs vote = Ret vs' /\ evs_wf vs' /\
    evs_votesByAddress vs' = <[ev_Address vote := vote]> (evs_votesByAddress vs) /\
    last (evs_Votes vs') = Some vote.
Proof.
  intros [Hnd Hmap]. unfold EpochValidatorVoteSet_StoreVote.
  destruct (evs_votesByAddress vs !! ev_Address vote) as [old|] eqn:Hold.
  - apply Hmap in Hold as Hin. destruct Hin as [Hin Haddr].
    destruct (vote_index_in old (evs_Votes vs) Hin) as (i & -> & Hi).
    destruct (Z.ltb_spec (Z.of_nat i) 0); [lia|]. go_bind. rewrite Nat2Z.id.
    eexists. split; [done|]. split; [|split; [done|simpl; by rewrite last_snoc]].
    destruct (delete_at_split _ _ _ Hi) as (l1 & l2 & Hl & ->). rewrite Hl in Hnd.
    rewrite fmap_app, fmap_cons in Hnd. apply NoDup_app in Hnd as (Hn1 & H12 & Hn2).
    apply NoDup_cons in Hn2 as [Hold2 Hn2].
    apply evs_append.
    + rewrite fmap_app. apply NoDup_app. split; [done|]. split; [|done]. intros x H1 H2. apply (H12 x H1). by right.
    + intros v [Hv|Hv]%elem_of_app E.
      * apply (H12 (ev_Address old)); [|left]. rewrite Haddr, <- E. by apply list_elem_of_fmap_2.
      * apply Hold2. rewrite Haddr, <- E. by apply list_elem_of_fmap_2.
    + intros a v Ha. rewrite Hmap, Hl, !elem_of_app, elem_of_cons.
      split; [intros [[?|[->|?]] <-]; [tauto|done|tauto]|tauto].
  - go_bind. eexists. split; [done|]. split; [|split; [done|simpl; by rewrite last_snoc]].
    apply evs_append; [done| |done].
    intros v Hv E. assert (evs_votesByAddress vs !! ev_Address vote = Some v) by (by apply Hmap). congruence.
Qed.

(** ** The validators of the next epoch *)

Lemma stays_before_weak : weak_order stays_before.
Proof.
  split; unfold stays_before.
  - intros a b. repeat case_match; lia.
  - intros a b c. repeat case_match; lia.
Qed.

Section UpdateProofs.
Context `{SS : SliceSort} {SSL : SliceSortLaws SS}.

(** What one vote does to the map from addresses to validators. *)
Definition vote_on_map (m : gmap bytes Validator) (v : EpochValidatorVote) : gmap bytes Validator :=
  match ev_Amount v, bool_decide (ev_Salt v = ""), ev_PubKey v with
  | Some amount, false, Some pubKey =>
      match m !! ev_Address v with
      | None => <[ev_Address v := NewValidator (ev_Address v) pubKey amount]> m
      | Some old => if amount =? 0 then delete (ev_Address v) m
                    else <[ev_Address v := val_set_power old amount]> m
      end
  | _, _, _ => m
  end.

Lemma size_addr_map vs : addr_unique vs -> Z.of_nat (size (addr_map vs)) = ValidatorSet_Size vs.
Proof.
  intros Hu. unfold addr_map, ValidatorSet_Size. rewrite map_size_list_to_map by (by rewrite addr_pairs_fst).
  unfold addr_pairs. by rewrite length_fmap.
Qed.

Lemma strongly_sorted_app_le {A} (R : A -> A -> Prop) l1 l2 a b :
  Sorted.StronglySorted R (l1 ++ l2) -> a ∈ l1 -> b ∈ l2 -> R a b.
Proof.
  induction l1 as [|x l1 IH]; simpl; intros Hs Ha Hb; [by apply not_elem_of_nil in Ha|].
  inversion Hs as [|? ? Hs' Hall]; subst. apply elem_of_cons in Ha as [->|Ha]; [|by apply IH].
  rewrite Forall_forall in Hall. apply Hall, elem_of_app. by right.
Qed.

(** The validators, and the sizes, before and after one vote. *)
Lemma update_by_vote_spec vs refund n v vs' refund' n' :
  addr_unique vs -> update_by_vote (vs, refund, n) v = (vs', refund', n') ->
  addr_unique vs' /\ addr_map vs' = vote_on_map (addr_map vs) v /\
  n <= n' /\ ValidatorSet_Size vs' - ValidatorSet_Size vs <= n' - n.
Proof.
  intros Hu. rewrite <- (size_addr_map vs Hu). unfold update_by_vote, vote_on_map.
  destruct (ev_Amount v) as [amount|]; [|intros [= <- <- <-]; rewrite (size_addr_map vs Hu); split_and!; [done..|lia|lia]].
  case_bool_decide; [intros [= <- <- <-]; rewrite (size_addr_map vs Hu); split_and!; [done..|lia|lia]|].
  destruct (ev_PubKey v) as [pk|]; [|intros [= <- <- <-]; rewrite (size_addr_map vs Hu); split_and!; [done..|lia|lia]].
  rewrite (GetByAddress_addr_map _ _ Hu).
  destruct (addr_map vs !! ev_Address v) as [old|] eqn:Hold.
  - assert (val_Address old = ev_Address v) as Hoa by (by apply addr_map_lookup in Hold as [_ ?]).
    replace (Z.sgn amount =? 0) with (amount =? 0) by (destruct amount; done).
    destruct (Z.eqb_spec amount 0).
    + destruct (ValidatorSet_Remove vs (val_Address old)) as [vs1 [o r]] eqn:Hrem.
      destruct (Remove_refines _ _ _ _ _ Hu Hrem) as (Hu1 & _ & _ & Hm). rewrite Hoa in Hm.
      intros [= <- <- <-]. split_and!; [done..|lia|].
      rewrite <- (size_addr_map vs1 Hu1), Hm, map_size_delete_Some by eauto. lia.
    + destruct (ValidatorSet_Update vs (val_set_power old amount)) as [vs1 u] eqn:Hup.
      destruct (Update_refines _ _ _ _ Hu Hup) as (Hu1 & Hm). simpl in Hm. rewrite Hoa, Hold in Hm.
      destruct Hm as [_ Hm]. intros [= <- <- <-]. split_and!; [done..|lia|].
      rewrite <- (size_addr_map vs1 Hu1), Hm, map_size_insert_Some by eauto. lia.
  - destruct (ValidatorSet_Add vs (NewValidator (ev_Address v) pk amount)) as [vs1 added] eqn:Hadd.
    destruct (Add_refines _ _ _ _ Hu Hadd) as (Hu1 & Hm). simpl in Hm. rewrite Hold in Hm.
    destruct Hm as [-> Hm]. intros [= <- <- <-]. split_and!; [done..|lia|].
    rewrite <- (size_addr_map vs1 Hu1), Hm, map_size_insert_None by done. lia.
Qed.

Lemma update_by_vote_refunds vs refund n v vs' refund' n' :
  update_by_vote (vs, refund, n) v = (vs', refund', n') ->
  filter (fun r => rf_Voteout r = true) refund' = filter (fun r => rf_Voteout r = true) refund.
Proof.
  unfold update_by_vote. repeat case_match; intros [= <- <- <-]; try done; by rewrite filter_app, app_nil_r.
Qed.

Lemma update_by_votes votes vs refund n vs' refund' n' :
  addr_unique vs -> foldl update_by_vote (vs, refund, n) votes = (vs', refund', n') ->
  addr_unique vs' /\ addr_map vs' = foldl vote_on_map (addr_map vs) votes /\
  n <= n' /\ ValidatorSet_Size vs' - ValidatorSet_Size vs <= n' - n /\
  filter (fun r => rf_Voteout r = true) refund' = filter (fun r => rf_Voteout r = true) refund.
Proof.
  revert vs refund n. induction votes as [|v votes IH]; intros vs refund n Hu; cbn [foldl].
  { intros [= <- <- <-]. split_and!; try done; lia. }
  destruct (update_by_vote (vs, refund, n) v) as [[vs1 r1] n1] eqn:H1. intros H2.
  destruct (update_by_vote_spec _ _ _ _ _ _ _ Hu H1) as (Hu1 & Hm1 & Hn1 & Hs1).
  pose proof (update_by_vote_refunds _ _ _ _ _ _ _ H1) as Hr1.
  destruct (IH _ _ _ Hu1 H2) as (Hu2 & Hm2 & Hn2 & Hs2 & Hr2).
  split_and!; [done|by rewrite Hm2, Hm1|lia|lia|congruence].
Qed.

Lemma voteout_refunds (out : list Validator) :
  rf_Address <$> filter (fun r => rf_Voteout r = true)
    ((fun k => {| rf_Address := val_Address k; rf_Amount := None; rf_Voteout := true |}) <$> out) =
  val_Address <$> out.
Proof.
  induction out as [|k out IH]; [done|]. rewrite !fmap_cons, filter_cons_True by done. by rewrite fmap_cons, IH.
Qed.

Lemma decrement_epoch_address v : val_Address (decrement_epoch v) = val_Address v.
Proof. unfold decrement_epoch. by destruct (_ <? _). Qed.

Lemma decrement_all vs (dec := {| Validators := option_map (fun l => decrement_epoch <$> l) (Validators vs);
                                  totalVotingPower := totalVotingPower vs |}) :
  vals dec = decrement_epoch <$> vals vs /\ val_Address <$> vals dec = val_Address <$> vals vs.
Proof.
  assert (vals dec = decrement_epoch <$> vals vs) as Hd.
  { unfold vals, dec. simpl. by destruct (Validators vs). }
  split; [done|]. rewrite Hd, <- list_fmap_compose. apply list_fmap_ext. intros ? v _. apply decrement_epoch_address.
Qed.

(** C36: The change of validators at the end of an epoch.  The votes are applied
    in order (a vote adds a validator, changes its power, or removes it), the
    remaining-epoch counters are decremented, and at most 40 validators stay.
    If some are knocked out, exactly 40 stay, each ranked at least as high, by
    remaining epochs and then by power, as everyone knocked out; those, and
    only those, get a vote-out refund. *)
Theorem updateEpochValidatorSet_seats vs votes vs' refunds :
  addr_unique vs -> updateEpochValidatorSet vs votes = (vs', refunds) ->
  exists voted out,
    addr_unique voted /\
    addr_map voted = foldl vote_on_map (addr_map vs) (from_option evs_Votes [] votes) /\
    vals vs' ++ out ≡ₚ decrement_epoch <$> vals voted /\
    addr_unique vs' /\ ValidatorSet_Size vs' <= MaximumValidatorsSize /\
    (out <> [] -> ValidatorSet_Size vs' = MaximumValidatorsSize) /\
    (forall kept gone, kept ∈ vals vs' -> gone ∈ out -> stays_before gone kept = false) /\
    rf_Address <$> filter (fun r => rf_Voteout r = true) refunds = val_Address <$> out.
Proof.
  intros Hu. unfold updateEpochValidatorSet.
  set (acc := if negb _ then _ else _).
  assert (acc = foldl update_by_vote (vs, [], 0) (from_option evs_Votes [] votes)) as ->.
  { unfold acc, EpochValidatorVoteSet_IsEmpty. destruct votes as [vt|]; [|done]. simpl.
    case_bool_decide as E; [by rewrite E|done]. }
  destruct (foldl update_by_vote (vs, [], 0) _) as [[voted refund] n] eqn:Hfold.
  destruct (update_by_votes _ _ _ _ _ _ _ Hu Hfold) as (Huv & Hmap & Hn & Hsize & Hrf).
  change (filter _ []) with (@nil RefundValidatorAmount) in Hrf.
  destruct (decrement_all voted) as [Hdec Haddr]. set (dec := {| Validators := option_map _ _; totalVotingPower := _ |}) in *.
  set (k := if MaximumValidatorsSize <? _ then _ else _).
  assert (1 <= k <= MaximumValidatorsSize /\ (k < ValidatorSet_Size dec -> k = MaximumValidatorsSize)) as [Hk Hkmax].
  { assert (ValidatorSet_Size dec = ValidatorSet_Size voted) as ->
      by (unfold ValidatorSet_Size; by rewrite Hdec, length_fmap).
    unfold k, MaximumValidatorsSize, MinimumValidatorsSize in *. assert (0 <= ValidatorSet_Size vs) by (unfold ValidatorSet_Size; lia).
    repeat case_match; lia. }
  destruct (Z.ltb_spec k (ValidatorSet_Size dec)) as [Hout|Hin].
  - intros [= <- <-]. set (sorted := sort_Slice stays_before (vals dec)).
    pose proof (sort_Slice_perm stays_before (vals dec)) as Hperm. fold sorted in Hperm.
    pose proof (sort_Slice_sorted stays_before (vals dec) stays_before_weak) as Hsort. fold sorted in Hsort.
    exists voted, (drop (Z.to_nat k) sorted). unfold ValidatorSet_Size, addr_unique.
    change (vals {| Validators := Some (take _ _); totalVotingPower := _ |}) with (take (Z.to_nat k) sorted).
    assert (length (take (Z.to_nat k) sorted) = Z.to_nat k) as Hlen.
    { rewrite length_take_le; [done|]. rewrite Hperm. unfold ValidatorSet_Size in Hout. lia. }
    rewrite Hlen. split_and!; [done|done| | |lia|lia| |].
    + by rewrite take_drop, Hperm, Hdec.
    + assert (NoDup (val_Address <$> sorted)) as Hnd by (by rewrite Hperm, Haddr).
      revert Hnd. rewrite <- (take_drop (Z.to_nat k) sorted) at 1. rewrite fmap_app. by intros (? & _)%NoDup_app.
    + intros kept gone. apply (strongly_sorted_app_le (fun a b => stays_before b a = false)). by rewrite take_drop.
    + rewrite filter_app, fmap_app, Hrf. apply voteout_refunds.
  - intros [= <- <-]. exists voted, []. rewrite app_nil_r, Hdec. split_and!; try done.
    + unfold addr_unique. by rewrite Haddr.
    + lia.
    + intros kept gone _ Hg. by apply not_elem_of_nil in Hg.
    + by rewrite Hrf.
Qed.

End UpdateProofs.

(** ** The proposed epoch *)

Section ProposeProofs.
Context `{EC : EpochCodec} {ECL : EpochCodecLaws EC} `{C : CryptoLib}.

Lemma int64_div_nonneg a b :
  0 <= a < 2 ^ 63 -> 0 < b -> int64_div a b = Ret (a / b) /\ 0 <= a / b < 2 ^ 63.
Proof.
  intros Ha Hb. unfold int64_div. destruct (Z.eqb_spec b 0); [lia|].
  rewrite Z.quot_div_nonneg by lia.
  assert (0 <= a / b <= a) by (split; [apply Z.div_pos; lia|apply Z.div_le_upper_bound; nia]).
  rewrite i64_id by lia. split; [done|lia].
Qed.

Lemma time_Sub_range t u : u <= t -> 0 <= time_Sub t u < 2 ^ 63.
Proof. unfold time_Sub. lia. Qed.

Lemma big_Div_bound a b : 0 <= a -> 0 < b -> exists q, big_Div a b = Ret q /\ 0 <= q /\ q * b <= a.
Proof.
  intros Ha Hb. unfold big_Div. destruct (Z.eqb_spec b 0); [lia|]. destruct (Z.ltb_spec b 0); [lia|].
  exists (a / b). split; [done|]. split; [apply Z.div_pos; lia|]. pose proof (Z.mul_div_le a b Hb). lia.
Qed.

(** The clock did not run backwards over the blocks the block time is
    estimated from, and there is at least one such block. *)
Definition clock_forward (ep : Epoch) (lastBlockHeight lastBlockTime : Z) : Prop :=
  match ep_previousEpoch ep with
  | Some prev => ep_StartTime prev <= ep_EndTime prev /\ 0 < ep_EndBlock prev - ep_StartBlock prev < 2 ^ 63
  | None => ep_StartTime ep <= lastBlockTime /\ 0 < lastBlockHeight - ep_StartBlock ep < 2 ^ 63
  end.

(** The end of both branches: at least the emergency number of blocks, and a
    reward per block that adds up to at most the reward of an epoch. *)
Lemma reward_tail rfy year total per b :
  0 <= rfy -> 0 < per -> 0 <= b < 2 ^ 63 ->
  let blocks := if b <? EMERGENCY_BLOCKS_OF_NEXT_EPOCH then EMERGENCY_BLOCKS_OF_NEXT_EPOCH else b in
  exists r,
    (perEpoch ← calculateRewardPerEpochByYear rfy year total per;
     perBlock ← big_Div perEpoch (i64 blocks);
     Ret (perBlock, blocks)) = Ret (r, blocks) /\
    EMERGENCY_BLOCKS_OF_NEXT_EPOCH <= blocks < 2 ^ 63 /\
    0 <= r /\ r * blocks <= rfy / per /\ (total < year -> r = 0).
Proof.
  intros Hr Hp Hb blocks.
  assert (EMERGENCY_BLOCKS_OF_NEXT_EPOCH <= blocks < 2 ^ 63) as Hbl.
  { unfold blocks, EMERGENCY_BLOCKS_OF_NEXT_EPOCH. destruct (Z.ltb_spec b 21614); lia. }
  clearbody blocks. unfold EMERGENCY_BLOCKS_OF_NEXT_EPOCH in *. rewrite i64_id by lia.
  pose proof (Z.div_pos rfy per Hr Hp). unfold calculateRewardPerEpochByYear.
  destruct (Z.ltb_spec total year).
  - go_bind. destruct (big_Div_bound 0 blocks) as (q & -> & Hq & Hqb); [lia..|].
    exists q. split_and!; try done; nia.
  - destruct (Z.eqb_spec per 0); [lia|]. go_bind.
    destruct (big_Div_bound (rfy / per) blocks) as (q & -> & Hq & Hqb); [lia..|].
    exists q. split_and!; try done; lia.
Qed.

Lemma blocks_of_time a b tpb :
  0 <= a < 2 ^ 63 -> 0 < b -> 0 < tpb ->
  exists k, (epochTime ← int64_div a b; blocks ← int64_div epochTime tpb; Ret (u64 blocks)) = Ret k /\ 0 <= k < 2 ^ 63.
Proof.
  intros Ha Hb Ht. destruct (int64_div_nonneg a b Ha Hb) as [-> He]. cbn [mbind outcome_bind].
  destruct (int64_div_nonneg _ _ He Ht) as [-> Hbl]. cbn [mbind outcome_bind].
  rewrite u64_id by lia. eauto.
Qed.

Lemma time_per_block ep h t :
  clock_forward ep h t ->
  exists tpb, match ep_previousEpoch ep with
    | Some prev => int64_div (time_Sub (ep_EndTime prev) (ep_StartTime prev)) (i64 (ep_EndBlock prev - ep_StartBlock prev))
    | None => int64_div (time_Sub t (ep_StartTime ep)) (i64 (h - ep_StartBlock ep))
    end = Ret tpb /\ 0 < (if tpb =? 0 then 1000000000 else tpb).
Proof.
  intros Hc. unfold clock_forward in Hc.
  assert (forall a b, 0 <= a < 2 ^ 63 -> 0 < b < 2 ^ 63 ->
    exists tpb, int64_div a (i64 b) = Ret tpb /\ 0 < (if tpb =? 0 then 1000000000 else tpb)) as Hdiv.
  { intros a b Ha Hb. rewrite i64_id by lia. destruct (int64_div_nonneg a b Ha) as [-> Hq]; [lia|].
    eexists. split; [done|]. destruct (Z.eqb_spec (a / b) 0); lia. }
  destruct (ep_previousEpoch ep) as [prev|]; destruct Hc as [Ht Hb]; apply Hdiv; try done; by apply time_Sub_range.
Qed.

Lemma estimate_spec db ep h t rs zero :
  ep_rs ep = Some rs -> loadOneEpoch db 0 = Some zero -> clock_forward ep h t ->
  0 <= rs_RewardFirstYear rs -> 0 < rs_EpochNumberPerYear rs < 2 ^ 63 -> 0 <= ep_Number ep < 2 ^ 63 - 1 ->
  exists reward blocks, estimateForNextEpoch db ep h t = Ret (reward, blocks) /\
    EMERGENCY_BLOCKS_OF_NEXT_EPOCH <= blocks < 2 ^ 63 /\ 0 <= reward /\
    reward * blocks <= rs_RewardFirstYear rs / rs_EpochNumberPerYear rs /\
    (i64 (rs_TotalYear rs) < ep_Number ep / rs_EpochNumberPerYear rs -> reward = 0).
Proof.
  intros Hrs Hz Hclock Hrfy Hper Hnum. unfold estimateForNextEpoch. rewrite Hrs, Hz.
  destruct (Z.eqb_spec (rs_EpochNumberPerYear rs) 0); [lia|].
  set (per := rs_EpochNumberPerYear rs) in *. set (thisYear := ep_Number ep / per).
  assert (0 <= thisYear < 2 ^ 63 - 1) as Hty.
  { unfold thisYear. split; [apply Z.div_pos; lia|]. apply Z.div_lt_upper_bound; nia. }
  rewrite (u64_id (thisYear + 1)) by lia. rewrite !(i64_id thisYear), !(i64_id (thisYear + 1)), !(i64_id per) by lia.
  destruct (time_per_block ep h t Hclock) as (tpb & -> & Htpb).
  cbn [mbind outcome_bind]. set (tpb' := if tpb =? 0 then 1000000000 else tpb) in *.
  assert (0 <= per - ep_Number ep mod per - 1 < per) as Hleft.
  { pose proof (Z.mod_pos_bound (ep_Number ep) per). lia. }
  rewrite (u64_id (per - _ - 1)) by lia. set (epochLeft := per - ep_Number ep mod per - 1) in *.
  set (start := AddDate_years (ep_StartTime zero) (thisYear + 1)).
  destruct (Z.eqb_spec epochLeft 0) as [Hl|Hl].
  - destruct (blocks_of_time (time_Sub (AddDate_years start 1) start) per tpb') as (k & -> & Hk); [|lia..|].
    { apply time_Sub_range, AddDate_forward. lia. }
    cbn [mbind outcome_bind]. edestruct (reward_tail (rs_RewardFirstYear rs) (thisYear + 1)) as (r & -> & ? & ? & ? & Hlate); [done|lia|done|].
    do 2 eexists. split; [done|]. split_and!; [lia..|]. intros. apply Hlate. lia.
  - assert (exists k, (if 0 <? time_Sub start t then
        epochTime ← int64_div (time_Sub start t) (i64 epochLeft); blocks ← int64_div epochTime tpb'; Ret (u64 blocks)
      else Ret 0) = Ret k /\ 0 <= k < 2 ^ 63) as (k & -> & Hk).
    { destruct (Z.ltb_spec 0 (time_Sub start t)); [|by exists 0]. rewrite (i64_id epochLeft) by lia.
      apply blocks_of_time; [|lia..]. unfold time_Sub in *. lia. }
    cbn [mbind outcome_bind]. edestruct (reward_tail (rs_RewardFirstYear rs) thisYear) as (r & -> & ? & ? & ? & Hlate); [done|lia|done|].
    do 2 eexists. split; [done|]. split_and!; [lia..|done].
Qed.

Lemma vals_Copy vs : vals (ValidatorSet_Copy vs) = vals vs.
Proof. unfold vals, ValidatorSet_Copy. simpl. apply fmap_Validator_Copy. Qed.

(** The proposed epoch follows the current one without a gap: its number
    and first block are the successors of the current number and last block, it
    lasts at least the emergency number of blocks, keeps the validators, and
    pays at most a year's share of the first-year reward over all its blocks,
    and nothing after the last year of the scheme.  Proposing does not panic
    once the clock has moved over at least one block. *)
Theorem next_epoch_follows db ep h t rs zero :
  ep_rs ep = Some rs -> loadOneEpoch db 0 = Some zero -> clock_forward ep h t ->
  0 <= rs_RewardFirstYear rs -> 0 < rs_EpochNumberPerYear rs < 2 ^ 63 ->
  0 <= ep_Number ep < 2 ^ 63 - 1 -> 0 <= ep_EndBlock ep < 2 ^ 63 ->
  exists next, ProposeNextEpoch db ep h t = Ret next /\
    ep_Number next = ep_Number ep + 1 /\ ep_StartBlock next = ep_EndBlock ep + 1 /\
    let blocks := ep_EndBlock next - ep_EndBlock ep in
    EMERGENCY_BLOCKS_OF_NEXT_EPOCH <= blocks /\
    vals (ep_Validators next) = vals (ep_Validators ep) /\
    0 <= ep_RewardPerBlock next /\
    ep_RewardPerBlock next * blocks <= rs_RewardFirstYear rs / rs_EpochNumberPerYear rs /\
    (i64 (rs_TotalYear rs) < ep_Number ep / rs_EpochNumberPerYear rs -> ep_RewardPerBlock next = 0).
Proof.
  intros Hrs Hz Hc Hrfy Hper Hnum Hend.
  destruct (estimate_spec db ep h t rs zero Hrs Hz Hc Hrfy Hper Hnum) as (r & b & Hest & Hb & Hr & Hrb & Hlate).
  assert (0 <= b) by (unfold EMERGENCY_BLOCKS_OF_NEXT_EPOCH in Hb; lia).
  unfold ProposeNextEpoch. rewrite Hest. cbn [mbind outcome_bind]. eexists. split; [done|]. simpl.
  rewrite !u64_id by lia. replace (ep_EndBlock ep + b - ep_EndBlock ep) with b by lia.
  rewrite vals_Copy. split_and!; try done; lia.
Qed.

Lemma ValidatorSet_Equals_same {CL : CryptoLaws C} vs vs' :
  addr_unique vs -> vals vs' = vals vs -> ValidatorSet_Equals vs vs' = true.
Proof.
  intros Hu Hv. unfold ValidatorSet_Equals, ValidatorSet_Size. rewrite Hv, Z.eqb_refl. simpl.
  apply List.forallb_forall. intros v Hin%list_elem_of_In. apply list_elem_of_lookup in Hin as [k Hk].
  rewrite (GetByAddress_lookup vs k v Hu Hk). unfold Validator_Equals.
  rewrite PubKey_Equals_refl, bool_decide_eq_true_2, Z.eqb_refl by done. done.
Qed.

(** The next epoch an honest proposer puts in a block, written and read
    back, passes ValidateNextEpoch at every validator that has the same epoch. *)
Theorem proposed_epoch_validates {CL : CryptoLaws C} db ep h t next :
  addr_unique (ep_Validators ep) -> ProposeNextEpoch db ep h t = Ret next ->
  ValidateNextEpoch db ep (FromBytes (enc_epoch next)) h t = Ret None.
Proof.
  intros Hu Hp. unfold ValidateNextEpoch. rewrite Hp. cbn [mbind outcome_bind].
  unfold FromBytes. rewrite bool_decide_eq_false_2 by apply enc_epoch_nonempty. rewrite dec_enc_epoch.
  assert (vals (ep_Validators next) = vals (ep_Validators ep)) as Hv.
  { revert Hp. unfold ProposeNextEpoch. destruct (estimateForNextEpoch db ep h t) as [[r b]|]; [|done].
    intros [= <-]. apply vals_Copy. }
  simpl. rewrite !Z.eqb_refl, ValidatorSet_Equals_same; [done|by unfold addr_unique; rewrite Hv|done].
Qed.

End ProposeProofs.

(** ** The store *)

Section StoreProofs.
Context `{EC : EpochCodec} {ECL : EpochCodecLaws EC} `{C : CryptoLib}.

Lemma calcEpochKey_inj n m :
  0 <= n -> 0 <= m -> calcEpochKeyWithHeight n = calcEpochKeyWithHeight m -> n = m.
Proof.
  intros Hn Hm. unfold calcEpochKeyWithHeight. intros E. apply (inj (String.append "Epoch:")) in E.
  apply (inj (pretty (A := N))) in E. by apply Z2N.inj.
Qed.

(** Reduce a lookup after insertions under keys that are different. *)
Ltac db_lookup :=
  repeat first [rewrite lookup_insert_eq
               |rewrite lookup_insert_ne by first [done | intros ?%calcEpochKey_inj; lia]].

Lemma loadOneEpoch_stored db n ep :
  db !! calcEpochKeyWithHeight n = Some (enc_epoch ep) -> loadOneEpoch db n = Some (exported ep).
Proof.
  intros Hdb. unfold loadOneEpoch, FromBytes, db_Get. rewrite Hdb. simpl.
  rewrite bool_decide_eq_false_2 by apply enc_epoch_nonempty. apply dec_enc_epoch.
Qed.

Lemma LoadEpochVoteSet_stored db n vs :
  db !! calcEpochValidatorVoteKey n = Some (enc_votes vs) ->
  LoadEpochVoteSet db n = Some {| evs_Votes := evs_Votes vs; evs_votesByAddress := votes_by_address (evs_Votes vs) |}.
Proof.
  intros Hdb. unfold LoadEpochVoteSet, db_Get. rewrite Hdb. simpl.
  rewrite bool_decide_eq_false_2 by apply enc_votes_nonempty. by rewrite dec_enc_votes.
Qed.

Lemma votes_by_address_lookup votes a v :
  NoDup (ev_Address <$> votes) -> votes_by_address votes !! a = Some v <-> v ∈ votes /\ ev_Address v = a.
Proof.
  unfold votes_by_address. induction votes as [|w votes IH] using rev_ind; intros Hnd.
  { simpl. rewrite lookup_empty. split; [done|]. by intros [?%not_elem_of_nil _]. }
  rewrite fmap_app in Hnd. apply NoDup_app in Hnd as (Hnd & Hdis & _).
  rewrite foldl_snoc, lookup_insert_Some, IH, elem_of_app, list_elem_of_singleton by done. split.
  - intros [[<- <-]|[_ [? ?]]]; [by split; [right|]|by split; [left|]].
  - intros [[Hv| ->] <-]; [right|by left]. split; [|done]. intros E.
    apply (Hdis (ev_Address v)); [by apply list_elem_of_fmap_2|]. rewrite <- E. by left.
Qed.

Lemma votes_by_address_wf vs : evs_wf vs -> votes_by_address (evs_Votes vs) = evs_votesByAddress vs.
Proof.
  intros [Hnd Hm]. apply map_eq. intros a.
  destruct (evs_votesByAddress vs !! a) as [v|] eqn:E; [by apply votes_by_address_lookup, Hm|].
  destruct (votes_by_address (evs_Votes vs) !! a) as [w|] eqn:E'; [|done].
  apply votes_by_address_lookup, Hm in E'; [congruence|done].
Qed.

(** The votes for the next epoch hold one vote per address, the last one
    stored, and saving and loading them gives the same votes. *)
Theorem epoch_votes_roundtrip db n vs vote :
  evs_wf vs -> exists vs', EpochValidatorVoteSet_StoreVote vs vote = Ret vs' /\
    (forall a, EpochValidatorVoteSet_GetVoteByAddress vs' a =
       if decide (a = ev_Address vote) then Some vote else EpochValidatorVoteSet_GetVoteByAddress vs a) /\
    evs_wf vs' /\ LoadEpochVoteSet (SaveEpochVoteSet db n vs') n = Some vs' /\
    EpochValidatorVoteSet_Copy (Some vs') = Some vs'.
Proof.
  intros Hwf. destruct (StoreVote_spec vs vote Hwf) as (vs' & Hs & Hwf' & Hm & _).
  exists vs'. split; [done|]. split; [|split; [done|]].
  - intros a. unfold EpochValidatorVoteSet_GetVoteByAddress. rewrite Hm.
    destruct (decide _) as [->|]; [by rewrite lookup_insert_eq|by rewrite lookup_insert_ne].
  - pose proof (votes_by_address_wf _ Hwf') as Hv. split.
    + rewrite (LoadEpochVoteSet_stored _ n vs') by apply lookup_insert_eq. rewrite Hv. by destruct vs'.
    + simpl. rewrite Hv. by destruct vs'.
Qed.

(** What Save leaves in the store and in the epoch. *)
Lemma Save_spec db ep db' ep' :
  Epoch_Save db ep = (db', ep') ->
  0 <= ep_Number ep -> (forall next, ep_nextEpoch ep = Some next -> ep_Number next = ep_Number ep + 1) ->
  db' !! calcEpochKeyWithHeight (ep_Number ep) = Some (enc_epoch ep) /\
  (forall n, 0 <= n -> n <> ep_Number ep -> n <> ep_Number ep + 1 ->
     db' !! calcEpochKeyWithHeight n = db !! calcEpochKeyWithHeight n) /\
  (ep_nextEpoch ep = None -> ep' = ep) /\
  (forall next, ep_nextEpoch ep = Some next -> exists next', ep_nextEpoch ep' = Some next' /\
     ep' = ep_set_next ep (Some next') /\ ep_Number next' = ep_Number next).
Proof.
  intros Hs Hn Hnext. unfold Epoch_Save in Hs. destruct (ep_nextEpoch ep) as [next|] eqn:E.
  - specialize (Hnext _ eq_refl).
    destruct (ep_Status next =? EPOCH_VOTED_NOT_SAVED), (ep_validatorVoteSet _); injection Hs as <- <-;
      unfold SaveEpochVoteSet; simpl; (split; [by db_lookup|split; [intros; by db_lookup|split; [done|]]]);
      intros ? [= <-]; eexists; by split_and!.
  - injection Hs as <- <-. split; [by db_lookup|]. split; [intros; by db_lookup|]. by split.
Qed.

(** Entering a new epoch.  With the next epoch present, EnterNewEpoch
    returns it with the new validators and the current time as its start, and
    with a copy of the closed epoch, whose end is the current time, as its
    previous epoch; and a node that restarts and loads the epoch from the store
    gets the same epoch and the same previous epoch back. *)
Theorem EnterNewEpoch_persists now db ep next0 validators :
  ep_nextEpoch ep = Some next0 -> ep_Number next0 = ep_Number ep + 1 -> 0 <= ep_Number ep < 2 ^ 63 ->
  exists db' next, EnterNewEpoch now db ep validators = Ok (db', next) /\
    ep_Number next = ep_Number ep + 1 /\ ep_Validators next = validators /\ ep_StartTime next = now /\
    (exists prev, ep_previousEpoch next = Some prev /\ ep_Number prev = ep_Number ep /\ ep_EndTime prev = now) /\
    exists votes rs prev' next', LoadOneEpoch db' (ep_Number next) =
        Ret (ep_with_links (exported next) votes rs (Some prev') next') /\
      prev' = ep_set_rs (exported (ep_with_times ep (ep_StartTime ep) now (ep_Status ep) (ep_Validators ep))) rs.
Proof.
  intros Hnext Hnum Hrange. unfold EnterNewEpoch. rewrite Hnext.
  set (closed := ep_with_times ep (ep_StartTime ep) now (ep_Status ep) (ep_Validators ep)).
  destruct (Epoch_Save db closed) as [db1 ep1] eqn:Hs1.
  destruct (Save_spec _ _ _ _ Hs1) as (Hst1 & _ & _ & Hn1); [simpl; lia|simpl; congruence|].
  destruct (Hn1 next0 Hnext) as (next1 & -> & Hep1 & Hnum1).
  set (next := ep_with_times (ep_with_links next1 _ _ _ None) _ _ _ _).
  destruct (Epoch_Save db1 next) as [db2 next2] eqn:Hs2.
  destruct (Save_spec _ _ _ _ Hs2) as (Hst2 & Hother & Hsame & _); [simpl; lia|done|].
  rewrite (Hsame eq_refl) in *. exists db2, next.
  assert (ep_Number next = ep_Number ep + 1) as Hnn by (simpl; lia).
  split_and!; [done..| |].
  { exists (Epoch_Copy ep1). split_and!; [done| |]; by rewrite Hep1. }
  unfold LoadOneEpoch. rewrite (loadOneEpoch_stored _ _ _ Hst2).
  destruct (Z.ltb_spec 0 (ep_Number next)); [|lia]. rewrite u64_id by lia.
  rewrite (loadOneEpoch_stored _ _ closed).
  - do 4 eexists. split; done.
  - replace (ep_Number next - 1) with (ep_Number closed) by (simpl; lia). rewrite Hother by (simpl; lia). done.
Qed.

End StoreProofs.

(** ** Examples *)

Module EpochExamples.
Import ToyLibs.

(** A codec: the exported fields as one number, times to the millisecond. *)
Definition epoch_key : Type :=
  Z * Z * Z * Z * Z * Z * Z * Z * option (list (bytes * bytes * Z * Z)).

Definition val_key (v : Validator) : bytes * bytes * Z * Z :=
  (val_Address v, val_PubKey v, val_VotingPower v, val_RemainingEpoch v).
Definition val_of_key (k : bytes * bytes * Z * Z) : Validator :=
  let '(a, pk, p, r) := k in {| val_Address := a; val_PubKey := pk; val_VotingPower := p; val_RemainingEpoch := r |}.

Definition to_ms (t : Z) : Z := t / 10 ^ 6 * 10 ^ 6.

Definition key_of_epoch (ep : Epoch) : epoch_key :=
  (ep_Number ep, ep_RewardPerBlock ep, ep_StartBlock ep, ep_EndBlock ep, to_ms (ep_StartTime ep),
   to_ms (ep_EndTime ep), ep_BlockGenerated ep, ep_Status ep,
   option_map (fmap val_key) (Validators (ep_Validators ep))).

Definition epoch_of_key (k : epoch_key) : Epoch :=
  let '(n, r, sb, eb, st, et, bg, s, vs) := k in
  {| ep_Number := n; ep_RewardPerBlock := r; ep_StartBlock := sb; ep_EndBlock := eb; ep_StartTime := st;
     ep_EndTime := et; ep_BlockGenerated := bg; ep_Status := s;
     ep_Validators := {| Validators := option_map (fmap val_of_key) vs; totalVotingPower := None |};
     ep_validatorVoteSet := None; ep_rs := None; ep_previousEpoch := None; ep_nextEpoch := None |}.

Definition vote_key (v : EpochValidatorVote) : bytes * option bytes * option Z * string * bytes * bytes :=
  (ev_Address v, ev_PubKey v, ev_Amount v, ev_Salt v, ev_VoteHash v, ev_TxHash v).
Definition vote_of_key (k : bytes * option bytes * option Z * string * bytes * bytes) : EpochValidatorVote :=
  let '(a, pk, am, s, vh, th) := k in
  {| ev_Address := a; ev_PubKey := pk; ev_Amount := am; ev_Salt := s; ev_VoteHash := vh; ev_TxHash := th |}.

Definition num {A} `{Countable A} (a : A) : bytes := [Z.pos (encode a)].
Definition unnum {A} `{Countable A} (b : bytes) : option A :=
  match b with [Z.pos p] => decode p | _ => None end.

Lemma unnum_num {A} `{Countable A} (a : A) : unnum (num a) = Some a.
Proof. unfold unnum, num. apply decode_encode. Qed.

Lemma val_keys (o : option (list Validator)) :
  option_map (fmap val_of_key) (option_map (fmap val_key) o) = o.
Proof.
  destruct o as [l|]; [|done]. simpl. f_equal. rewrite <- list_fmap_compose.
  induction l as [|[] l IH]; [done|]. by rewrite fmap_cons, IH.
Qed.

#[export] Instance ex_codec : EpochCodec := {|
  enc_epoch ep := num (key_of_epoch ep);
  dec_epoch b := option_map epoch_of_key (unnum b);
  enc_votes vs := num (vote_key <$> evs_Votes vs);
  dec_votes b := option_map (fmap (M := list) vote_of_key) (unnum b);
  enc_scheme rs := num (rs_TotalReward rs, rs_RewardFirstYear rs, rs_EpochNumberPerYear rs, rs_TotalYear rs);
  dec_scheme b := option_map (fun '(a, b, c, d) => {| rs_TotalReward := a; rs_RewardFirstYear := b;
                                 rs_EpochNumberPerYear := c; rs_TotalYear := d |}) (unnum b);
  wire_time := to_ms;
  AddDate_years t n := t + n * (365 * 86400 * 10 ^ 9);
|}.

#[export] Instance ex_codec_laws : EpochCodecLaws ex_codec.
Proof.
  split; try done.
  - intros ep. change (option_map epoch_of_key (unnum (num (key_of_epoch ep))) = Some (exported ep)).
    rewrite unnum_num. unfold exported, key_of_epoch, option_map at 1, epoch_of_key. by rewrite val_keys.
  - intros vs. unfold dec_votes, enc_votes, ex_codec. rewrite unnum_num. simpl. f_equal.
    induction (evs_Votes vs) as [|[] l IH]; [done|]. simpl. f_equal. exact IH.
  - intros rs. unfold dec_scheme, enc_scheme, ex_codec. rewrite unnum_num. by destruct rs.
  - intros t n Hn. simpl. lia.
Qed.

Definition ex_scheme : RewardScheme :=
  {| rs_TotalReward := 100000000; rs_RewardFirstYear := 43800000; rs_EpochNumberPerYear := 12; rs_TotalYear := 23 |}.

Definition ex_epoch (n : Z) : Epoch :=
  {| ep_Number := n; ep_RewardPerBlock := 1; ep_StartBlock := 100 * n; ep_EndBlock := 100 * n + 99;
     ep_StartTime := 10 ^ 18; ep_EndTime := 0; ep_BlockGenerated := 0; ep_Status := EPOCH_SAVED;
     ep_Validators := NewValidatorSet [NewValidator [2] [102] 10; NewValidator [1] [101] 10];
     ep_validatorVoteSet := None; ep_rs := Some ex_scheme; ep_previousEpoch := None; ep_nextEpoch := None |}.

Definition ex_db : DB := <[calcEpochKeyWithHeight 0 := enc_epoch (ex_epoch 0)]> ∅.

Lemma ex_validators_unique n : addr_unique (ep_Validators (ex_epoch n)).
Proof. apply (bool_decide_unpack _). vm_compute. exact I. Qed.

Lemma ex_clock : clock_forward (ex_epoch 0) 5 (10 ^ 18 + 10 ^ 10).
Proof. by vm_compute. Qed.

Lemma next_epoch_follows_witness :
  exists next, ProposeNextEpoch ex_db (ex_epoch 0) 5 (10 ^ 18 + 10 ^ 10) = Ret next /\ ep_StartBlock next = 100.
Proof.
  destruct (next_epoch_follows ex_db (ex_epoch 0) 5 (10 ^ 18 + 10 ^ 10) ex_scheme (exported (ex_epoch 0)))
    as (next & H & _ & Hs & _); [done|by apply loadOneEpoch_stored, lookup_insert_eq|apply ex_clock|done|done|done|done|].
  exists next. split; [exact H|]. rewrite Hs. reflexivity.
Defined.

Lemma proposed_epoch_validates_witness :
  exists next, ValidateNextEpoch ex_db (ex_epoch 0) (FromBytes (enc_epoch next)) 5 (10 ^ 18 + 10 ^ 10) = Ret None.
Proof.
  destruct (estimate_spec ex_db (ex_epoch 0) 5 (10 ^ 18 + 10 ^ 10) ex_scheme (exported (ex_epoch 0)))
    as (r & b & H & _); [done|by apply loadOneEpoch_stored, lookup_insert_eq|apply ex_clock|done|done|done|].
  eexists. apply proposed_epoch_validates; [apply ex_validators_unique|].
  unfold ProposeNextEpoch. rewrite H. reflexivity.
Defined.

Definition ex_vote_for (a amount : Z) : EpochValidatorVote :=
  {| ev_Address := [a]; ev_PubKey := Some [100 + a]; ev_Amount := Some amount; ev_Salt := "s";
     ev_VoteHash := []; ev_TxHash := [] |}.

Lemma evs_empty_wf : evs_wf NewEpochValidatorVoteSet.
Proof. split; simpl; [constructor|]. intros a v. rewrite lookup_empty. split; [done|]. by intros [?%not_elem_of_nil _]. Qed.

Lemma epoch_votes_roundtrip_witness :
  exists vs', EpochValidatorVoteSet_StoreVote NewEpochValidatorVoteSet (ex_vote_for 3 7) = Ret vs' /\
    LoadEpochVoteSet (SaveEpochVoteSet ∅ 1 vs') 1 = Some vs'.
Proof.
  destruct (epoch_votes_roundtrip ∅ 1 NewEpochValidatorVoteSet (ex_vote_for 3 7) evs_empty_wf)
    as (vs' & H & _ & _ & Hl & _). by exists vs'.
Defined.

Lemma EnterNewEpoch_persists_witness :
  exists db' next, EnterNewEpoch (10 ^ 18) ∅ (ep_set_next (ex_epoch 4) (Some (ex_epoch 5)))
    (ep_Validators (ex_epoch 5)) = Ok (db', next).
Proof.
  destruct (EnterNewEpoch_persists (10 ^ 18) ∅ (ep_set_next (ex_epoch 4) (Some (ex_epoch 5))) (ex_epoch 5)
    (ep_Validators (ex_epoch 5))) as (db' & next & H & _); [done|done|done|by exists db', next].
Defined.

(** [sort.Slice] by insertion. *)
Fixpoint insert_less (less : Validator -> Validator -> bool) (v : Validator) (l : list Validator) : list Validator :=
  match l with
  | [] => [v]
  | x :: l' => if less v x then v :: l else x :: insert_less less v l'
  end.

#[export] Instance ex_sort : SliceSort := fun less l => foldr (insert_less less) [] l.

Lemma insert_less_perm less v l : insert_less less v l ≡ₚ v :: l.
Proof. induction l as [|x l IH]; simpl; [done|]. destruct (less v x); [done|]. rewrite IH. apply Permutation_swap. Qed.

Lemma insert_less_sorted less v l : weak_order less ->
  Sorted.StronglySorted (fun a b => less b a = false) l ->
  Sorted.StronglySorted (fun a b => less b a = false) (insert_less less v l).
Proof.
  intros [Hasym Htr]. induction 1 as [|x l Hs IH Hx]; simpl; [by repeat constructor|].
  destruct (less v x) eqn:E.
  - assert (less x v = false) as Hxv by auto. constructor; [by constructor|]. constructor; [done|].
    rewrite Forall_forall in Hx |- *. intros y Hy. by apply (Htr v x y); [|apply Hx].
  - constructor; [done|]. rewrite insert_less_perm. by constructor.
Qed.

#[export] Instance ex_sort_laws : SliceSortLaws ex_sort.
Proof.
  split.
  - intros less l. unfold sort_Slice, ex_sort. induction l as [|v l IH]; simpl; [done|]. by rewrite insert_less_perm, IH.
  - intros less l Hw. unfold sort_Slice, ex_sort. induction l; simpl; [constructor|]. by apply insert_less_sorted.
Qed.

Lemma updateEpochValidatorSet_seats_witness :
  addr_unique (ep_Validators (ex_epoch 0)) /\
  ValidatorSet_Size (updateEpochValidatorSet (ep_Validators (ex_epoch 0))
    (Some {| evs_Votes := [ex_vote_for 3 7; ex_vote_for 2 0]; evs_votesByAddress := ∅ |})).1 <= 40.
Proof.
  split; [apply ex_validators_unique|].
  destruct (updateEpochValidatorSet (ep_Validators (ex_epoch 0))
    (Some {| evs_Votes := [ex_vote_for 3 7; ex_vote_for 2 0]; evs_votesByAddress := ∅ |})) as [vs' rf] eqn:E.
  destruct (updateEpochValidatorSet_seats _ _ _ _ (ex_validators_unique 0) E) as (vd & out & _ & _ & _ & _ & Hsz & _).
  exact Hsz.
Defined.

End EpochExamples.
