(* ===== verification/PendingOps.v ===== *)
(** * Operations that wait for a block to be final

    The operations a block leaves to be applied once consensus is reached
    (chain/core/types/pending_ops.go, chain/core/pending_ops.go), and those of
    them that change the votes for the next epoch (VoteNextEpoch, RevealVote
    and UpdateNextEpoch of chain/ligochain/cross_chain.go).  The votes are
    kept twice, in the store of the epochs and in memory with the next epoch. *)
From S2P Require Import Prelude BitArray TmTypes ValidatorSet Epoch.
Local Open Scope Z_scope.

(** ** The operations *)
Inductive PendingOp :=
  | CreateSideChainOp (From ChainId : bytes) (MinValidators MinDepositAmount StartBlock EndBlock : Z)
  | JoinSideChainOp (From PubKey ChainId : bytes) (DepositAmount : Z)
  | LaunchSideChainsOp (SideChainIds : list bytes) (NewPendingIdx : option bytes) (DeleteSideChainIds : list bytes)
  | SaveDataToMainChainOp (Data : bytes)
  | VoteNextEpochOp (From VoteHash TxHash : bytes)
  | RevealVoteOp (From Pubkey : bytes) (Amount : Z) (Salt : string) (TxHash : bytes)
  | UpdateNextEpochOp (From PubKey : bytes) (Amount : Z) (Salt : string) (TxHash : bytes)
  | SwitchEpochOp (ChainId : bytes) (NewValidators : ValidatorSet).

Definition Conflict (op op1 : PendingOp) : bool :=
  match op, op1 with
  | CreateSideChainOp _ ChainId _ _ _ _, CreateSideChainOp _ ChainId1 _ _ _ _ => bool_decide (ChainId = ChainId1)
  | JoinSideChainOp From _ ChainId _, JoinSideChainOp From1 _ ChainId1 _ =>
      bool_decide (ChainId = ChainId1) && bool_decide (From = From1)
  | LaunchSideChainsOp _ _ _, LaunchSideChainsOp _ _ _ => true
  | SwitchEpochOp _ _, SwitchEpochOp _ _ => true
  | _, _ => false
  end.

Definition PendingOps : Type := list PendingOp.

Definition Append (pending : PendingOps) (op1 : PendingOp) : PendingOps * bool :=
  if existsb (fun op => Conflict op op1) pending then (pending, false) else (pending ++ [op1], true).

(** ** Votes for the next epoch *)
Section Votes.
Context `{EC : EpochCodec}.

(** [ep.GetNextEpoch().GetEpochValidatorVoteSet()], with what it caches. *)
Definition nextVoteSet (db : DB) (ep : Epoch) : outcome (option EpochValidatorVoteSet * Epoch * Epoch) :=
  let '(next, ep) := GetNextEpoch db ep in
  match next with
  | None => Panic "nil pointer dereference"
  | Some next =>
      let '(votes, next) := GetEpochValidatorVoteSet db next in
      Ret (votes, next, ep_set_next ep (Some next))
  end.

(** The vote pointer found in the set is changed in place. *)
Definition changeVote (voteSet : EpochValidatorVoteSet) (old new : EpochValidatorVote) : EpochValidatorVoteSet :=
  {| evs_Votes := alter (fun _ => new) (Z.to_nat (vote_index old (evs_Votes voteSet))) (evs_Votes voteSet);
     evs_votesByAddress := <[ev_Address old := new]> (evs_votesByAddress voteSet) |}.

(** The set that was loaded is the one the next epoch holds; a set created here
    is only saved. *)
Definition saveVotes (db : DB) (ep next : Epoch) (loaded : bool) (voteSet : EpochValidatorVoteSet) : DB * Epoch :=
  (SaveEpochVoteSet db (ep_Number next) voteSet,
   ep_set_next ep (Some (if loaded then ep_set_votes next (Some voteSet) else next))).

Definition VoteNextEpoch (db : DB) (ep : Epoch) (from voteHash txHash : bytes) : outcome (DB * Epoch) :=
  '(votes, next, ep) ← nextVoteSet db ep;
  let voteSet := default NewEpochValidatorVoteSet votes in
  voteSet ← match EpochValidatorVoteSet_GetVoteByAddress voteSet from with
            | Some vote =>
                Ret (changeVote voteSet vote
                  {| ev_Address := ev_Address vote; ev_PubKey := ev_PubKey vote; ev_Amount := ev_Amount vote;
                     ev_Salt := ev_Salt vote; ev_VoteHash := voteHash; ev_TxHash := txHash |})
            | None =>
                EpochValidatorVoteSet_StoreVote voteSet
                  {| ev_Address := from; ev_PubKey := None; ev_Amount := None; ev_Salt := "";
                     ev_VoteHash := voteHash; ev_TxHash := txHash |}
            end;
  Ret (saveVotes db ep next (is_some votes) voteSet).

Definition RevealVote (db : DB) (ep : Epoch) (from pubkey : bytes) (depositAmount : Z) (salt : string) (txHash : bytes)
    : outcome (DB * Epoch) :=
  '(votes, next, ep) ← nextVoteSet db ep;
  match votes with
  | None => Panic "nil pointer dereference"
  | Some voteSet =>
      let voteSet :=
        match EpochValidatorVoteSet_GetVoteByAddress voteSet from with
        | Some vote =>
            changeVote voteSet vote
              {| ev_Address := ev_Address vote; ev_PubKey := Some pubkey; ev_Amount := Some depositAmount;
                 ev_Salt := salt; ev_VoteHash := ev_VoteHash vote; ev_TxHash := txHash |}
        | None => voteSet
        end in
      Ret (saveVotes db ep next true voteSet)
  end.

Definition UpdateNextEpoch (db : DB) (ep : Epoch) (from pubkey : bytes) (depositAmount : Z) (txHash : bytes)
    : outcome (DB * Epoch) :=
  '(votes, next, ep) ← nextVoteSet db ep;
  let voteSet := default NewEpochValidatorVoteSet votes in
  voteSet ← match EpochValidatorVoteSet_GetVoteByAddress voteSet from with
            | Some vote =>
                Ret (changeVote voteSet vote
                  {| ev_Address := ev_Address vote; ev_PubKey := ev_PubKey vote; ev_Amount := Some depositAmount;
                     ev_Salt := ev_Salt vote; ev_VoteHash := ev_VoteHash vote; ev_TxHash := txHash |})
            | None =>
                EpochValidatorVoteSet_StoreVote voteSet
                  {| ev_Address := from; ev_PubKey := Some pubkey; ev_Amount := Some depositAmount;
                     ev_Salt := "ligochain"; ev_VoteHash := replicate 32 0; ev_TxHash := txHash |}
            end;
  Ret (saveVotes db ep next (is_some votes) voteSet).

(** ** Proofs *)
Lemma changeVote_wf vs old new :
  evs_wf vs -> evs_votesByAddress vs !! ev_Address old = Some old -> ev_Address new = ev_Address old ->
  evs_wf (changeVote vs old new).
Proof.
  intros [Hnd Hmap] Hold Hnew. apply Hmap in Hold as Hin. destruct Hin as [Hin _].
  destruct (vote_index_in old (evs_Votes vs) Hin) as (i & Hidx & Hi).
  unfold changeVote. rewrite Hidx, Nat2Z.id.
  assert (alter (fun _ => new) i (evs_Votes vs) = <[i := new]> (evs_Votes vs)) as Halter.
  { apply list_eq. intros j. destruct (decide (j = i)) as [->|Hj].
    - rewrite list_lookup_alter_eq, Hi, list_lookup_insert_eq; [done|]. by eapply lookup_lt_Some.
    - rewrite list_lookup_alter_ne, list_lookup_insert_ne by done. done. }
  assert (ev_Address <$> <[i := new]> (evs_Votes vs) = ev_Address <$> evs_Votes vs) as Hsame.
  { rewrite list_fmap_insert, Hnew. apply list_insert_id. rewrite list_lookup_fmap, Hi. done. }
  split; cbn [evs_Votes evs_votesByAddress]; rewrite Halter.
  - rewrite Hsame. done.
  - intros a v. rewrite lookup_insert_Some. split.
    + intros [[<- <-]|[Hne Hv]].
      * split; [|done]. apply list_elem_of_lookup. exists i. apply list_lookup_insert_eq. by eapply lookup_lt_Some.
      * apply Hmap in Hv as [Hv Ha]. split; [|done]. apply list_elem_of_lookup in Hv as (j & Hj).
        apply list_elem_of_lookup. exists j. rewrite list_lookup_insert_ne; [done|]. intros <-. congruence.
    + intros [Hv <-]. apply list_elem_of_lookup in Hv as (j & Hj). apply list_lookup_insert_Some in Hj as [(-> & -> & _)|[Hne Hj]].
      * left. done.
      * right. split; [|apply Hmap; split; [by eapply list_elem_of_lookup_2|done]]. intros E.
        apply Hne. eapply (NoDup_lookup (ev_Address <$> evs_Votes vs)); [done| |].
        -- rewrite list_lookup_fmap, Hi. cbn. rewrite E. done.
        -- rewrite list_lookup_fmap, Hj. done.
Qed.

Context {ECL : EpochCodecLaws EC}.

Lemma saveVotes_read db ep next loaded vs :
  evs_wf vs -> (loaded = false -> ep_validatorVoteSet next = None) ->
  exists next' ep', nextVoteSet (fst (saveVotes db ep next loaded vs)) (snd (saveVotes db ep next loaded vs))
    = Ret (Some vs, next', ep').
Proof.
  intros Hwf Hn. unfold saveVotes, nextVoteSet, GetNextEpoch. cbn [fst snd ep_nextEpoch ep_set_next ep_with_links].
  destruct loaded; [eexists _, _; done|]. unfold GetEpochValidatorVoteSet. rewrite Hn by done.
  rewrite (LoadEpochVoteSet_stored _ (ep_Number next) vs) by apply lookup_insert_eq.
  rewrite (votes_by_address_wf _ Hwf). destruct vs. eexists _, _. done.
Qed.

Lemma nextVoteSet_none db ep next ep1 :
  nextVoteSet db ep = Ret (None, next, ep1) -> ep_validatorVoteSet next = None.
Proof.
  unfold nextVoteSet, GetEpochValidatorVoteSet. destruct (GetNextEpoch db ep) as [[n|] e]; [|done].
  destruct (ep_validatorVoteSet n) eqn:E; [done|]. intros [= E1 <- _]. cbn. done.
Qed.

(** An operation that updates the vote of a candidate for the next epoch
    succeeds once the next epoch exists, and reading the votes of the next
    epoch afterwards, in memory or from the store, finds the new amount for the
    candidate and the votes of all others as they were. *)
Theorem updated_vote_found db ep from pubkey amount txHash votes next ep1 :
  nextVoteSet db ep = Ret (votes, next, ep1) -> evs_wf (default NewEpochValidatorVoteSet votes) ->
  exists db' ep' vs' v next' ep2,
    UpdateNextEpoch db ep from pubkey amount txHash = Ret (db', ep')
    /\ nextVoteSet db' ep' = Ret (Some vs', next', ep2) /\ evs_wf vs'
    /\ EpochValidatorVoteSet_GetVoteByAddress vs' from = Some v /\ ev_Amount v = Some amount
    /\ forall a, a <> from -> EpochValidatorVoteSet_GetVoteByAddress vs' a =
         EpochValidatorVoteSet_GetVoteByAddress (default NewEpochValidatorVoteSet votes) a.
Proof.
  intros Hn Hwf. unfold UpdateNextEpoch. rewrite Hn, outcome_bind_Ret.
  set (vs := default NewEpochValidatorVoteSet votes) in *.
  assert (is_some votes = false -> ep_validatorVoteSet next = None) as Hnone.
  { destruct votes; [done|]. intros _. by eapply nextVoteSet_none. }
  unfold EpochValidatorVoteSet_GetVoteByAddress.
  destruct (evs_votesByAddress vs !! from) as [vote|] eqn:Hv.
  - destruct (ew_map _ Hwf from vote) as [Hm _]. destruct (Hm Hv) as [_ Ha]. rewrite outcome_bind_Ret.
    match goal with |- context [changeVote vs vote ?n] => set (new := n) end.
    assert (evs_wf (changeVote vs vote new)) as Hwf' by (apply changeVote_wf; [done|by rewrite Ha|done]).
    destruct (saveVotes_read db ep1 next (is_some votes) _ Hwf' Hnone) as (next' & ep2 & Hr).
    eexists _, _, _, new, next', ep2. split; [reflexivity|]. split; [exact Hr|]. split; [done|]. cbn [changeVote evs_votesByAddress].
    rewrite Ha, lookup_insert_eq. split; [done|]. split; [done|]. intros a Hne. by rewrite lookup_insert_ne.
  - match goal with |- context [EpochValidatorVoteSet_StoreVote vs ?n] => set (new := n) end.
    destruct (StoreVote_spec vs new Hwf) as (vs' & -> & Hwf' & Hm & _). rewrite outcome_bind_Ret.
    destruct (saveVotes_read db ep1 next (is_some votes) _ Hwf' Hnone) as (next' & ep2 & Hr).
    eexists _, _, _, new, next', ep2. split; [reflexivity|]. split; [exact Hr|]. split; [done|].
    rewrite Hm, lookup_insert_eq. split; [done|]. split; [done|]. intros a Hne. by rewrite lookup_insert_ne.
Qed.

End Votes.

Module PendingOpsExamples.
Import EpochExamples.

Definition ex_ep : Epoch := ep_set_next (ex_epoch 4) (Some (ex_epoch 5)).

Lemma updated_vote_found_witness :
  exists db' ep' vs' v next' ep2, UpdateNextEpoch ∅ ex_ep [3] [103] 7 [] = Ret (db', ep')
    /\ nextVoteSet db' ep' = Ret (Some vs', next', ep2)
    /\ EpochValidatorVoteSet_GetVoteByAddress vs' [3] = Some v /\ ev_Amount v = Some 7.
Proof.
  destruct (updated_vote_found ∅ ex_ep [3] [103] 7 [] None (ep_set_votes (ex_epoch 5) None)
    (ep_set_next ex_ep (Some (ep_set_votes (ex_epoch 5) None))))
    as (db' & ep' & vs' & v & next' & ep2 & H1 & H2 & _ & H3 & H4 & _);
    [reflexivity|exact evs_empty_wf|]. exists db', ep', vs', v, next', ep2. done.
Defined.

End PendingOpsExamples.
