(* ===== verification/SideChains.v ===== *)
(** * Side chains on the main chain

    The records of the side chains that the main chain keeps in its chain-info
    store (chain/core/chains_info.go), and the part of the cross-chain helper
    that creates side chains and lets validators join them
    (chain/ligochain/cross_chain.go).  A chain that was applied for waits with
    its validators until its start block; then it is launched when enough
    validators and deposits have joined, or the deposits are given back when
    its end block has passed.  Strings are lists of bytes; wire-go, which
    encodes the records, is [ChainInfoCodec].  The locks are left out. *)
From stdpp Require Import pretty.
From S2P Require Import Prelude Rlp StateData StateDB StateObs StateRevert StateClient StateShares StateLedger BitArray TmTypes ValidatorSet Epoch PendingOps.
Local Open Scope Z_scope.

(** ** Records *)
Record JoinedValidator := {
  jv_PubKey : bytes;
  jv_Address : bytes;
  jv_DepositAmount : Z }.

Record CoreChainInfo := {
  cci_Owner : bytes;
  cci_ChainId : bytes;
  cci_MinValidators : Z;
  cci_MinDepositAmount : Z;
  cci_StartBlock : Z;
  cci_EndBlock : Z;
  cci_JoinedValidators : list JoinedValidator;
  cci_EpochNumber : Z;
  cci_DepositInMainChain : option Z;
  cci_DepositInSideChain : option Z;
  cci_WithdrawFromSideChain : option Z;
  cci_WithdrawFromMainChain : option Z }.

Record ChainInfo := {
  ci_Core : CoreChainInfo;
  ci_Epoch : option Epoch }.

Record pendingIdxData := {
  pi_ChainID : bytes;
  pi_Start : Z;
  pi_End : Z }.

(** The lists of the chains that wait on, are ready and have expired. *)
Abbreviation sorted_out := (list pendingIdxData * list bytes * list bytes)%type.

Definition cci_with_joined (c : CoreChainInfo) (l : list JoinedValidator) : CoreChainInfo :=
  {| cci_Owner := cci_Owner c; cci_ChainId := cci_ChainId c; cci_MinValidators := cci_MinValidators c;
     cci_MinDepositAmount := cci_MinDepositAmount c; cci_StartBlock := cci_StartBlock c; cci_EndBlock := cci_EndBlock c;
     cci_JoinedValidators := l; cci_EpochNumber := cci_EpochNumber c;
     cci_DepositInMainChain := cci_DepositInMainChain c; cci_DepositInSideChain := cci_DepositInSideChain c;
     cci_WithdrawFromSideChain := cci_WithdrawFromSideChain c; cci_WithdrawFromMainChain := cci_WithdrawFromMainChain c |}.

Definition cci_with_epoch (c : CoreChainInfo) (n : Z) : CoreChainInfo :=
  {| cci_Owner := cci_Owner c; cci_ChainId := cci_ChainId c; cci_MinValidators := cci_MinValidators c;
     cci_MinDepositAmount := cci_MinDepositAmount c; cci_StartBlock := cci_StartBlock c; cci_EndBlock := cci_EndBlock c;
     cci_JoinedValidators := cci_JoinedValidators c; cci_EpochNumber := n;
     cci_DepositInMainChain := cci_DepositInMainChain c; cci_DepositInSideChain := cci_DepositInSideChain c;
     cci_WithdrawFromSideChain := cci_WithdrawFromSideChain c; cci_WithdrawFromMainChain := cci_WithdrawFromMainChain c |}.

(** wire-go writes the exported fields and reads them back.  Reading sets the
    fields it has read before an error; [dec_info] also tells whether there was
    one. *)
Class ChainInfoCodec := {
  enc_info : CoreChainInfo -> bytes;
  dec_info : bytes -> CoreChainInfo * bool;
  enc_pending : list pendingIdxData -> bytes;
  dec_pending : bytes -> list pendingIdxData }.

Class ChainInfoLaws (IC : ChainInfoCodec) : Prop := {
  dec_enc_info c : dec_info (enc_info c) = (c, false);
  enc_info_nonempty c : enc_info c <> [];
  dec_enc_pending l : dec_pending (enc_pending l) = l }.

(** ** Text (package strings) *)
Fixpoint strings_Split (s : bytes) (sep : Z) : list bytes :=
  match s with
  | [] => [[]]
  | c :: s' =>
    if c =? sep then [] :: strings_Split s' sep
    else match strings_Split s' sep with
         | w :: ws => (c :: w) :: ws
         | [] => [[c]]
         end
  end.

Fixpoint strings_Join (l : list bytes) (sep : Z) : bytes :=
  match l with
  | [] => []
  | [w] => w
  | w :: l' => w ++ sep :: strings_Join l' sep
  end.

Definition specialSep : Z := 59.
Definition OFFICIAL_MINIMUM_VALIDATORS : Z := 1.
Definition OFFICIAL_MINIMUM_DEPOSIT : Z := 77000000000000000000000.
Definition MainChain : bytes := str_bytes "ligochain".
Definition TestnetChain : bytes := str_bytes "testnet".

(** ** Keys of the store *)
Abbreviation InfoDB := (gmap bytes bytes).

Definition allChainKey : bytes := str_bytes "AllChainID".
Definition pendingChainIndexKey : bytes := str_bytes "PENDING_CHAIN_IDX".
Definition calcCoreChainInfoKey (chainId : bytes) : bytes := str_bytes "CHAIN:" ++ chainId.
Definition calcEpochKey (number : Z) (chainId : bytes) : bytes :=
  str_bytes "CHAIN-" ++ str_bytes (pretty (Z.to_N number)) ++ str_bytes "-" ++ chainId.
Definition calcPendingChainInfoKey (chainId : bytes) : bytes := str_bytes "PENDING_CHAIN:" ++ chainId.

(** [db.Get] is nil for an absent key, which has no length. *)
Definition info_Get (db : InfoDB) (k : bytes) : bytes := default [] (db !! k).

Section SideChains.
Context {L : TrieLib} `{EC : EpochCodec} `{IC : ChainInfoCodec}.

(** ** Chains that run *)
Definition loadEpoch (db : InfoDB) (number : Z) (chainId : bytes) : option Epoch :=
  FromBytes (info_Get db (calcEpochKey number chainId)).

Definition saveEpoch (db : InfoDB) (epoch : Epoch) (chainId : bytes) : InfoDB :=
  <[calcEpochKey (ep_Number epoch) chainId := enc_epoch epoch]> db.

(** The process ends when a record cannot be read. *)
Definition loadCoreChainInfo (db : InfoDB) (chainId : bytes) : outcome (option CoreChainInfo) :=
  match info_Get db (calcCoreChainInfoKey chainId) with
  | [] => Ret None
  | buf => let '(cci, err) := dec_info buf in if (err : bool) then Panic "os.Exit(1)" else Ret (Some cci)
  end.

Definition saveCoreChainInfo (db : InfoDB) (cci : CoreChainInfo) : InfoDB :=
  <[calcCoreChainInfoKey (cci_ChainId cci) := enc_info cci]> db.

Definition TotalDeposit (cci : CoreChainInfo) : Z :=
  foldl (fun sum v => sum + jv_DepositAmount v) 0 (cci_JoinedValidators cci).

Definition saveId (db : InfoDB) (chainId : bytes) : InfoDB :=
  match info_Get db allChainKey with
  | [] => <[allChainKey := chainId]> db
  | buf =>
    let strIdArr := strings_Split buf specialSep in
    if existsb (fun id => bool_decide (id = chainId)) strIdArr then db
    else <[allChainKey := strings_Join (strIdArr ++ [chainId]) specialSep]> db
  end.

Definition GetSideChainIds (db : InfoDB) : list bytes :=
  match info_Get db allChainKey with
  | [] => []
  | buf => strings_Split buf specialSep
  end.

Definition CheckSideChainRunning (db : InfoDB) (chainId : bytes) : bool :=
  existsb (fun id => bool_decide (id = chainId)) (GetSideChainIds db).

Definition GetChainInfo (db : InfoDB) (chainId : bytes) : outcome (option ChainInfo) :=
  cci ← loadCoreChainInfo db chainId;
  Ret (match cci with
       | None => None
       | Some cci => Some {| ci_Core := cci; ci_Epoch := loadEpoch db (cci_EpochNumber cci) chainId |}
       end).

Definition SaveChainInfo (db : InfoDB) (ci : ChainInfo) : InfoDB :=
  let db := saveCoreChainInfo db (ci_Core ci) in
  let db := match ci_Epoch ci with Some ep => saveEpoch db ep (cci_ChainId (ci_Core ci)) | None => db end in
  saveId db (cci_ChainId (ci_Core ci)).

Definition SaveFutureEpoch (db : InfoDB) (futureEpoch : Epoch) (chainId : bytes) : InfoDB :=
  saveEpoch db futureEpoch chainId.

(** The epochs before the current one, newest first. *)
Fixpoint earlierEpoch (db : InfoDB) (chainId : bytes) (number : nat) (blockNumber : Z) : option Epoch :=
  match number with
  | O => None
  | S number =>
    match loadEpoch db (Z.of_nat number) chainId with
    | None => None
    | Some ep =>
      if (ep_StartBlock ep <=? blockNumber) && (blockNumber <=? ep_EndBlock ep) then Some ep
      else earlierEpoch db chainId number blockNumber
    end
  end.

Definition ChainInfo_GetEpochByBlockNumber (db : InfoDB) (ci : ChainInfo) (blockNumber : Z) : option Epoch :=
  match ci_Epoch ci with
  | None => None
  | Some epoch =>
    if (ep_StartBlock epoch <=? blockNumber) && (blockNumber <=? ep_EndBlock epoch) then Some epoch
    else if ep_EndBlock epoch <? blockNumber then loadEpoch db (u64 (ep_Number epoch + 1)) (cci_ChainId (ci_Core ci))
    else earlierEpoch db (cci_ChainId (ci_Core ci)) (Z.to_nat (ep_Number epoch)) blockNumber
  end.

(** ** Chains that wait *)
Definition GetPendingSideChainData (db : InfoDB) (chainId : bytes) : option CoreChainInfo :=
  (fun buf => fst (dec_info buf)) <$> db !! calcPendingChainInfoKey chainId.

Definition pendingIdx (db : InfoDB) : list pendingIdxData :=
  match db !! pendingChainIndexKey with Some buf => dec_pending buf | None => [] end.

Definition storePendingSideChainData (db : InfoDB) (cci : CoreChainInfo) (create : bool) : InfoDB :=
  let db := <[calcPendingChainInfoKey (cci_ChainId cci) := enc_info cci]> db in
  if create then
    let idx := pendingIdx db in
    if existsb (fun v => bool_decide (pi_ChainID v = cci_ChainId cci)) idx then db
    else
      <[pendingChainIndexKey := enc_pending (idx ++ [{| pi_ChainID := cci_ChainId cci; pi_Start := cci_StartBlock cci;
                                                       pi_End := cci_EndBlock cci |}])]> db
  else db.

Definition CreatePendingSideChainData (db : InfoDB) (cci : CoreChainInfo) : InfoDB := storePendingSideChainData db cci true.
Definition UpdatePendingSideChainData (db : InfoDB) (cci : CoreChainInfo) : InfoDB := storePendingSideChainData db cci false.
Definition DeletePendingSideChainData (db : InfoDB) (chainId : bytes) : InfoDB :=
  delete (calcPendingChainInfoKey chainId) db.

(** The deposits of a chain that was not launched in time go back, with the
    cost of its owner. *)
Definition giveBack (cci : CoreChainInfo) (chainID : bytes) : SM unit :=
  forS (fun jv =>
    SubSideChainDepositBalance (jv_Address jv) chainID (jv_DepositAmount jv) ;;
    AddBalance (jv_Address jv) (jv_DepositAmount jv)) (cci_JoinedValidators cci) ;;
  AddBalance (cci_Owner cci) OFFICIAL_MINIMUM_DEPOSIT ;;
  SubChainBalance (cci_Owner cci) OFFICIAL_MINIMUM_DEPOSIT ;;
  _ ← GetChainBalance (cci_Owner cci);
  mret tt.

(** The deposits of a chain that is launched go to its owner. *)
Definition lockDeposits (cci : CoreChainInfo) (chainID : bytes) : SM unit :=
  forS (fun jv =>
    SubSideChainDepositBalance (jv_Address jv) chainID (jv_DepositAmount jv) ;;
    AddChainBalance (cci_Owner cci) (jv_DepositAmount jv)) (cci_JoinedValidators cci).

(** What becomes of a waiting chain. *)
Inductive fate := Waits | Ready | Expired.

Definition fateOf (db : InfoDB) (height : Z) (v : pendingIdxData) : outcome fate :=
  if height <? pi_Start v then Ret Waits
  else
    match GetPendingSideChainData db (pi_ChainID v) with
    | None => Panic "nil pointer dereference"
    | Some cci =>
      Ret (if pi_End v <? height then Expired
           else if (cci_MinValidators cci <=? Z.of_nat (length (cci_JoinedValidators cci)))
                   && (cci_MinDepositAmount cci <=? TotalDeposit cci) then Ready
           else Waits)
    end.

Definition settleChain (db : InfoDB) (v : pendingIdxData) (f : fate) : SM unit :=
  match f, GetPendingSideChainData db (pi_ChainID v) with
  | Ready, Some cci => lockDeposits cci (pi_ChainID v)
  | Expired, Some cci => giveBack cci (pi_ChainID v)
  | _, _ => mret tt
  end.

Definition sortOut (out : sorted_out) (v : pendingIdxData) (f : fate) : sorted_out :=
  let '(waiting, ready, expired) := out in
  match f with
  | Waits => (waiting ++ [v], ready, expired)
  | Ready => (waiting, ready ++ [pi_ChainID v], expired)
  | Expired => (waiting, ready, expired ++ [pi_ChainID v])
  end.

Definition GetSideChainForLaunch (db : InfoDB) (height : Z) : SM (list bytes * option bytes * list bytes) :=
  let idx := pendingIdx db in
  if bool_decide (idx = []) then mret ([], None, [])
  else
    out ← foldS (fun out v =>
      f ← liftS (fateOf db height v);
      settleChain db v f ;;
      mret (sortOut out v f)) ([], [], []) idx;
    let '(newPendingIdx, readyForLaunch, deleteSideChainIds) := out in
    mret (readyForLaunch,
          (if (length newPendingIdx =? length idx)%nat then None else Some (enc_pending newPendingIdx)),
          deleteSideChainIds).

Definition ProcessPostPendingData (db : InfoDB) (newPendingIdxBytes : option bytes) (deleteSideChainIds : list bytes)
    : InfoDB :=
  let db := foldl (fun db id => delete (calcPendingChainInfoKey id) db) db deleteSideChainIds in
  match newPendingIdxBytes with
  | Some b => <[pendingChainIndexKey := b]> db
  | None => db
  end.

(** ** The cross-chain helper *)

(** The regular expression of chain identifiers: letters first, then letters,
    digits and underscores. *)
Definition is_lower (c : Z) : bool := (97 <=? c) && (c <=? 122).
Definition is_word (c : Z) : bool := is_lower c || ((48 <=? c) && (c <=? 57)) || (c =? 95).
Definition matchesId (s : bytes) : bool :=
  match s with [] => false | c :: s' => is_lower c && forallb is_word s' end.

(** After the regular expression the runes of the identifier are its bytes. *)
Definition CanCreateSideChain (db : InfoDB) (currentBlock : Z) (chainId : bytes)
    (minValidators minDepositAmount startupCost startBlock endBlock : Z) : outcome (result string unit) :=
  if bool_decide (chainId = []) || existsb (Z.eqb specialSep) chainId then
    Ret (Err "chainId is nil or empty, or contains ';', should be meaningful"%string)
  else if negb (matchesId chainId) then Ret (Err "chainId must be start with letter (a-z)"%string)
  else if 30 <? Z.of_nat (length chainId) then Ret (Err "max characters of chain id is 30"%string)
  else if bool_decide (chainId = MainChain) || bool_decide (chainId = TestnetChain) then
    Ret (Err "you can't create LigoAI as a side chain"%string)
  else
    ci ← GetChainInfo db chainId;
    Ret (if is_some (ci : option ChainInfo) then Err "Chain has already exist"%string
         else if is_some (GetPendingSideChainData db chainId) then Err "Chain has already applied"%string
         else if minValidators <? OFFICIAL_MINIMUM_VALIDATORS then Err "Validators count is not meet the minimum"%string
         else if minDepositAmount <? OFFICIAL_MINIMUM_DEPOSIT then Err "Deposit amount is not meet the minimum"%string
         else if negb (startupCost =? OFFICIAL_MINIMUM_DEPOSIT) then Err "Startup cost is not meet the required amount"%string
         else if endBlock <=? startBlock then Err "start block number must be less than end block number"%string
         else if endBlock <=? currentBlock then Err "end block number has already passed"%string
         else Ok tt).

Definition CreateSideChain (db : InfoDB) (from chainId : bytes) (minValidators minDepositAmount startBlock endBlock : Z)
    : InfoDB :=
  CreatePendingSideChainData db
    {| cci_Owner := from; cci_ChainId := chainId; cci_MinValidators := minValidators;
       cci_MinDepositAmount := minDepositAmount; cci_StartBlock := startBlock; cci_EndBlock := endBlock;
       cci_JoinedValidators := []; cci_EpochNumber := 0; cci_DepositInMainChain := None; cci_DepositInSideChain := None;
       cci_WithdrawFromSideChain := None; cci_WithdrawFromMainChain := None |}.

Definition hasJoined (from : bytes) (ci : CoreChainInfo) : bool :=
  existsb (fun joined => bool_decide (from = jv_Address joined)) (cci_JoinedValidators ci).

(** [keyError] is the answer of the check of the consensus key (crypto-go). *)
Definition ValidateJoinSideChain (db : InfoDB) (keyError : option string) (from chainId : bytes) (depositAmount : option Z)
    : outcome (result string unit) :=
  if bool_decide (chainId = MainChain) || bool_decide (chainId = TestnetChain) then
    Ret (Err "you can't join LigoAI as a side chain"%string)
  else
    match keyError, GetPendingSideChainData db chainId with
    | Some e, _ => Ret (Err e)
    | None, None =>
      ci ← GetChainInfo db chainId;
      Ret (Err (if is_some (ci : option ChainInfo) then "chain has already created/started"%string
                else "side chain not exist"%string))
    | None, Some ci =>
      Ret (if hasJoined from ci then Err "You have already joined the Side Chain"%string
           else match depositAmount with
                | Some a => if 0 <? a then Ok tt else Err "deposit amount must be greater than 0"%string
                | None => Err "deposit amount must be greater than 0"%string
                end)
    end.

Definition JoinSideChain (db : InfoDB) (from pubkey chainId : bytes) (depositAmount : Z) : result string InfoDB :=
  match GetPendingSideChainData db chainId with
  | None => Err "Side Chain not exist, you can't join the chain"%string
  | Some ci =>
    if hasJoined from ci then Ok db
    else
      Ok (UpdatePendingSideChainData db
            (cci_with_joined ci (cci_JoinedValidators ci ++
               [{| jv_PubKey := pubkey; jv_Address := from; jv_DepositAmount := depositAmount |}])))
  end.

End SideChains.

(** ** Proofs: text *)
Lemma Split_cons s sep : exists w ws, strings_Split s sep = w :: ws.
Proof.
  induction s as [|c s (w & ws & E)]; [by exists [], []|]. cbn. destruct (c =? sep); [by eexists _, _|]. rewrite E. by eexists _, _.
Qed.

Lemma Split_word w sep : sep ∉ w -> strings_Split w sep = [w].
Proof.
  induction w as [|c w IH]; intros H; [done|]. cbn. destruct (Z.eqb_spec c sep) as [->|]; [set_solver|].
  rewrite IH by set_solver. done.
Qed.

Lemma Split_app w s sep : sep ∉ w -> strings_Split (w ++ sep :: s) sep = w :: strings_Split s sep.
Proof.
  induction w as [|c w IH]; intros H; cbn.
  - rewrite Z.eqb_refl. done.
  - destruct (Z.eqb_spec c sep) as [->|]; [set_solver|]. rewrite IH by set_solver. done.
Qed.

Lemma Split_no_sep s sep w : w ∈ strings_Split s sep -> sep ∉ w.
Proof.
  revert w. induction s as [|c s IH]; intros w; cbn.
  - intros H. apply list_elem_of_singleton in H as ->. apply not_elem_of_nil.
  - destruct (Z.eqb_spec c sep) as [->|Hc].
    + intros H. apply elem_of_cons in H as [->|H]; [apply not_elem_of_nil|auto].
    + destruct (Split_cons s sep) as (w0 & ws & E). rewrite E in *. intros H.
      apply elem_of_cons in H as [->|H]; [|apply IH; by right].
      intros E'. apply elem_of_cons in E' as [E'|E']; [congruence|]. apply (IH w0); [by left|done].
Qed.

Lemma Split_Join l sep : l <> [] -> (forall w, w ∈ l -> sep ∉ w) -> strings_Split (strings_Join l sep) sep = l.
Proof.
  induction l as [|w l IH]; intros Hl H; [done|]. destruct l as [|w' l]; [apply Split_word, H; set_solver|].
  change (strings_Join (w :: w' :: l) sep) with (w ++ sep :: strings_Join (w' :: l) sep). rewrite Split_app by (apply H; set_solver).
  rewrite IH; [done|done|]. intros x Hx. apply H. set_solver.
Qed.

Lemma Join_nonempty l sep w : w <> [] -> strings_Join (l ++ [w]) sep <> [].
Proof. destruct l as [|x [|y l]]; cbn; [done| |]; intros Hw E; apply app_eq_nil in E as [_ E]; done. Qed.

Lemma existsb_mem (l : list bytes) id : existsb (fun x => bool_decide (x = id)) l = bool_decide (id ∈ l).
Proof.
  apply eq_bool_prop_intro. rewrite bool_decide_spec, Is_true_true, existsb_exists. split.
  - intros (x & Hx & Hb). apply bool_decide_eq_true in Hb as ->. by apply list_elem_of_In.
  - intros H. exists id. split; [by apply list_elem_of_In|by apply bool_decide_eq_true].
Qed.

(** ** Proofs: keys *)
Lemma pendingKey_ne_index id : calcPendingChainInfoKey id <> pendingChainIndexKey.
Proof. intros H. discriminate H. Qed.
Lemma pendingKey_inj id id' : calcPendingChainInfoKey id = calcPendingChainInfoKey id' -> id = id'.
Proof. apply app_inv_head. Qed.
Lemma infoKey_ne_epoch id n id' : calcCoreChainInfoKey id <> calcEpochKey n id'.
Proof. intros H. discriminate H. Qed.
Lemma infoKey_ne_all id : calcCoreChainInfoKey id <> allChainKey.
Proof. intros H. discriminate H. Qed.
Lemma epochKey_ne_all n id : calcEpochKey n id <> allChainKey.
Proof. intros H. discriminate H. Qed.

Section Proofs.
Context {L : TrieLib} {LL : TrieLaws L} `{EC : EpochCodec} {EL : EpochCodecLaws EC}.
Context `{IC : ChainInfoCodec} {IL : ChainInfoLaws IC}.

Lemma saveId_other db id k : k <> allChainKey -> saveId db id !! k = db !! k.
Proof.
  intros Hk. unfold saveId. destruct (info_Get db allChainKey); [by rewrite lookup_insert_ne|].
  destruct (existsb _ _); [done|]. by rewrite lookup_insert_ne.
Qed.

Lemma saveId_ids db id : id <> [] -> specialSep ∉ id ->
  GetSideChainIds (saveId db id) =
  if bool_decide (id ∈ GetSideChainIds db) then GetSideChainIds db else GetSideChainIds db ++ [id].
Proof.
  intros Hne Hsep. unfold saveId, GetSideChainIds. destruct (info_Get db allChainKey) as [|c buf] eqn:E.
  - rewrite bool_decide_false by set_solver. unfold info_Get. rewrite lookup_insert_eq. cbn [default from_option app].
    destruct id; [done|]. by apply Split_word.
  - rewrite existsb_mem.
    case_bool_decide as Hin; [rewrite E; done|]. unfold info_Get. rewrite lookup_insert_eq. cbn [default from_option]. unfold Datatypes.id.
    destruct (strings_Join _ _) as [|d b] eqn:Ej; [exfalso; by apply (Join_nonempty _ _ _ Hne) in Ej|]. rewrite <- Ej.
    apply Split_Join; [by destruct (strings_Split (c :: buf) specialSep)|].
    intros w Hw. apply elem_of_app in Hw as [Hw|Hw]; [by eapply Split_no_sep|].
    apply list_elem_of_singleton in Hw as ->. done.
Qed.

(** An identifier that may be used has no separator. *)
Lemma CanCreate_id db current id minV minD cost start end_ :
  CanCreateSideChain db current id minV minD cost start end_ = Ret (Ok tt) -> id <> [] /\ specialSep ∉ id.
Proof.
  unfold CanCreateSideChain. destruct (bool_decide (id = [])) eqn:E; [done|]. cbn [orb].
  destruct (existsb (Z.eqb specialSep) id) eqn:E2; [done|]. intros _. apply bool_decide_eq_false in E. split; [done|].
  intros Hin. apply list_elem_of_In in Hin. assert (existsb (Z.eqb specialSep) id = true) as E3; [|congruence].
  apply existsb_exists. exists specialSep. split; [done|apply Z.eqb_refl].
Qed.

(** The record of a side chain, stored with its epoch, is read back as it
    was, and the list of the chains that run names the chain from then on, and
    the others as before: for every identifier that CanCreateSideChain lets
    pass, which has no separator in it. *)
Theorem chain_info_roundtrip db db0 current ci minV minD cost start end_ :
  let id := cci_ChainId (ci_Core ci) in
  CanCreateSideChain db0 current id minV minD cost start end_ = Ret (Ok tt) ->
  (forall ep, ci_Epoch ci = Some ep -> ep_Number ep = cci_EpochNumber (ci_Core ci)) ->
  let db' := SaveChainInfo db ci in
  (exists ci', GetChainInfo db' id = Ret (Some ci') /\ ci_Core ci' = ci_Core ci
     /\ (forall ep, ci_Epoch ci = Some ep -> ci_Epoch ci' = Some (exported ep)))
  /\ forall other, CheckSideChainRunning db' other = bool_decide (other = id) || CheckSideChainRunning db other.
Proof.
  intros id Hcan Hnum db'. destruct (CanCreate_id _ _ _ _ _ _ _ _ Hcan) as [Hne Hsep]. split.
  - unfold GetChainInfo, loadCoreChainInfo, info_Get, db', SaveChainInfo.
    rewrite saveId_other by apply infoKey_ne_all. fold id.
    set (db1 := saveCoreChainInfo db (ci_Core ci)).
    set (db2 := match ci_Epoch ci with Some ep => saveEpoch db1 ep id | None => db1 end).
    assert (db2 !! calcCoreChainInfoKey id = Some (enc_info (ci_Core ci))) as ->.
    { subst db2 db1. unfold saveEpoch. destruct (ci_Epoch ci) as [ep|].
      - rewrite lookup_insert_ne by (intros E; symmetry in E; by apply infoKey_ne_epoch in E). apply lookup_insert_eq.
      - apply lookup_insert_eq. }
    cbn [default from_option]. unfold Datatypes.id. destruct (enc_info (ci_Core ci)) as [|z l] eqn:E; [by apply enc_info_nonempty in E|].
    rewrite <- E, dec_enc_info, outcome_bind_Ret. eexists. split; [reflexivity|]. split; [done|]. intros ep Hep. cbn [ci_Epoch].
    unfold loadEpoch, info_Get. rewrite saveId_other by apply epochKey_ne_all. rewrite <- (Hnum ep Hep). subst db2. rewrite Hep.
    unfold saveEpoch. rewrite lookup_insert_eq. cbn [default from_option]. unfold Datatypes.id, FromBytes.
    rewrite bool_decide_false by apply enc_epoch_nonempty. apply dec_enc_epoch.
  - intros other. unfold CheckSideChainRunning. rewrite !existsb_mem. unfold db', SaveChainInfo. fold id.
    set (db2 := match ci_Epoch ci with Some _ => _ | None => _ end).
    assert (GetSideChainIds db2 = GetSideChainIds db) as Hids.
    { unfold GetSideChainIds, info_Get. assert (db2 !! allChainKey = db !! allChainKey) as ->; [|done].
      subst db2. unfold saveEpoch, saveCoreChainInfo. destruct (ci_Epoch ci);
        rewrite ?(lookup_insert_ne _ (calcEpochKey _ _)) by apply epochKey_ne_all;
        rewrite lookup_insert_ne by apply infoKey_ne_all; done. }
    rewrite saveId_ids, Hids by done. apply eq_bool_prop_intro. rewrite orb_True, !bool_decide_spec.
    case_bool_decide; [|set_solver]. split; [by right|]. intros [->|]; done.
Qed.

(** *** Waiting chains *)
Definition is_fate (db : InfoDB) (height : Z) (f : fate) (v : pendingIdxData) : bool :=
  match fateOf db height v, f with
  | Ret Waits, Waits | Ret Ready, Ready | Ret Expired, Expired => true
  | _, _ => false
  end.

(** The lists are those of the chains of each fate, in the order of the index. *)
Definition sorted_by (db : InfoDB) (height : Z) (l : list pendingIdxData) : sorted_out :=
  (filter (fun v => is_fate db height Waits v = true) l,
   pi_ChainID <$> filter (fun v => is_fate db height Ready v = true) l,
   pi_ChainID <$> filter (fun v => is_fate db height Expired v = true) l).

Lemma sortOut_snoc db height l v f : fateOf db height v = Ret f ->
  sortOut (sorted_by db height l) v f = sorted_by db height (l ++ [v]).
Proof.
  intros Hf. unfold sorted_by, sortOut. rewrite !filter_app, !fmap_app. cbn [filter list_filter].
  unfold is_fate. rewrite Hf. destruct f; repeat case_decide; try done; cbn [fmap list_fmap]; by rewrite ?app_nil_r.
Qed.

Lemma launch_loop db height l done_ s s' x :
  foldS (fun out v => f ← liftS (fateOf db height v); settleChain db v f ;; mret (sortOut out v f))
    (sorted_by db height done_) l s = Ret (s', x) -> x = sorted_by db height (done_ ++ l).
Proof.
  revert done_ s. induction l as [|v l IH]; intros done_ s H; cbn [foldS] in H.
  - injection H as _ <-. by rewrite app_nil_r.
  - apply SM_bind_inv in H as (s1 & out & H1 & H). apply SM_bind_inv in H1 as (s2 & f & H2 & H1).
    apply SM_bind_inv in H1 as (s3 & [] & _ & H1).
    unfold liftS in H2. destruct (fateOf db height v) as [f'|] eqn:Hf; [|done]. injection H2 as <- <-.
    change (Ret (s3, sortOut (sorted_by db height done_) v f') = Ret (s1, out)) in H1.
    rewrite (sortOut_snoc _ _ _ _ _ Hf) in H1. assert (out = sorted_by db height (done_ ++ [v])) as -> by congruence. rewrite (cons_middle v done_ l), app_assoc. by eapply IH.
Qed.

(** The index has each chain once, and there is a record of each. *)
Record pending_ok (db : InfoDB) : Prop := {
  index_once : NoDup (pi_ChainID <$> pendingIdx db);
  index_has_record v : v ∈ pendingIdx db -> is_Some (GetPendingSideChainData db (pi_ChainID v));
  record_id id cci : GetPendingSideChainData db id = Some cci -> cci_ChainId cci = id }.

Lemma fateOf_returns db height v : pending_ok db -> v ∈ pendingIdx db -> exists f, fateOf db height v = Ret f.
Proof.
  intros Hok Hv. unfold fateOf. destruct (height <? pi_Start v); [eauto|].
  destruct (index_has_record _ Hok v Hv) as (cci & ->). eauto.
Qed.

(** What the operations do to the records and to the index. *)
Lemma record_stored db cci create id :
  GetPendingSideChainData (storePendingSideChainData db cci create) id =
  if bool_decide (id = cci_ChainId cci) then Some cci else GetPendingSideChainData db id.
Proof.
  unfold GetPendingSideChainData, storePendingSideChainData.
  set (db1 := <[calcPendingChainInfoKey (cci_ChainId cci) := enc_info cci]> db).
  assert (forall b, (<[pendingChainIndexKey := b]> db1) !! calcPendingChainInfoKey id = db1 !! calcPendingChainInfoKey id) as Hb.
  { intros b. apply lookup_insert_ne. intros E. symmetry in E. by apply pendingKey_ne_index in E. }
  assert (fst ∘ dec_info <$> db1 !! calcPendingChainInfoKey id
    = if bool_decide (id = cci_ChainId cci) then Some cci else (fst ∘ dec_info) <$> db !! calcPendingChainInfoKey id) as H.
  { subst db1. case_bool_decide as E.
    - subst id. rewrite lookup_insert_eq. cbn. by rewrite dec_enc_info.
    - rewrite lookup_insert_ne; [done|]. intros E'. by apply pendingKey_inj in E'. }
  destruct create; [destruct (existsb _ _)|]; rewrite ?Hb; exact H.
Qed.

Lemma index_insert db id b : pendingIdx (<[calcPendingChainInfoKey id := b]> db) = pendingIdx db.
Proof. unfold pendingIdx. rewrite lookup_insert_ne; [done|]. intros E. by apply pendingKey_ne_index in E. Qed.
Lemma index_delete db id : pendingIdx (delete (calcPendingChainInfoKey id) db) = pendingIdx db.
Proof. unfold pendingIdx. rewrite lookup_delete_ne; [done|]. intros E. by apply pendingKey_ne_index in E. Qed.

Lemma index_stored db cci create :
  pendingIdx (storePendingSideChainData db cci create) =
  if create && bool_decide (cci_ChainId cci ∉ pi_ChainID <$> pendingIdx db)
  then pendingIdx db ++ [{| pi_ChainID := cci_ChainId cci; pi_Start := cci_StartBlock cci; pi_End := cci_EndBlock cci |}]
  else pendingIdx db.
Proof.
  unfold storePendingSideChainData. destruct create; cbn [andb]; [|apply index_insert]. rewrite index_insert.
  assert (existsb (fun v => bool_decide (pi_ChainID v = cci_ChainId cci)) (pendingIdx db)
    = bool_decide (cci_ChainId cci ∈ pi_ChainID <$> pendingIdx db)) as ->.
  { rewrite <- existsb_mem. induction (pendingIdx db) as [|v l IH]; [done|]. cbn. by rewrite IH. }
  case_bool_decide; case_bool_decide; try done; [apply index_insert|].
  unfold pendingIdx at 1. rewrite lookup_insert_eq. apply dec_enc_pending.
Qed.

Lemma store_ok db cci create : pending_ok db ->
  (create = false -> is_Some (GetPendingSideChainData db (cci_ChainId cci))) ->
  pending_ok (storePendingSideChainData db cci create).
Proof.
  intros [H1 H2 H3] Hc. split.
  - rewrite index_stored. destruct create; cbn [andb]; [|done]. case_bool_decide; [|done].
    rewrite fmap_app. apply NoDup_app. split_and!; [done| |apply NoDup_singleton].
    intros id Hid Hin. apply list_elem_of_singleton in Hin. cbn in Hin. congruence.
  - intros v Hv. rewrite record_stored. case_bool_decide; [eauto|]. apply H2. rewrite index_stored in Hv.
    destruct (_ && _); [|done]. apply elem_of_app in Hv as [Hv|Hv]; [done|]. apply list_elem_of_singleton in Hv as ->. done.
  - intros id c. rewrite record_stored. case_bool_decide; [intros [= <-]; done|]. apply H3.
Qed.

Lemma deleted_index db ids : pendingIdx (foldl (fun db id => delete (calcPendingChainInfoKey id) db) db ids) = pendingIdx db.
Proof. revert db. induction ids as [|id ids IH]; intros db; cbn [foldl]; [done|]. by rewrite IH, index_delete. Qed.
Lemma deleted_records db ids id :
  GetPendingSideChainData (foldl (fun db id => delete (calcPendingChainInfoKey id) db) db ids) id =
  if bool_decide (id ∈ ids) then None else GetPendingSideChainData db id.
Proof.
  revert db. induction ids as [|i ids IH]; intros db; cbn [foldl]; [by rewrite bool_decide_false by apply not_elem_of_nil|].
  rewrite IH. unfold GetPendingSideChainData. destruct (decide (id = i)) as [->|Hne].
  - rewrite lookup_delete_eq, (bool_decide_true (i ∈ i :: ids)) by set_solver. by case_bool_decide.
  - rewrite lookup_delete_ne by (intros E; by apply pendingKey_inj in E).
    rewrite (bool_decide_ext (id ∈ i :: ids) (id ∈ ids)) by set_solver. done.
Qed.

Lemma processed_records db b ids id :
  GetPendingSideChainData (ProcessPostPendingData db b ids) id =
  if bool_decide (id ∈ ids) then None else GetPendingSideChainData db id.
Proof.
  rewrite <- deleted_records. unfold ProcessPostPendingData. destruct b; [|done]. unfold GetPendingSideChainData.
  rewrite lookup_insert_ne; [done|]. intros E. symmetry in E. by apply pendingKey_ne_index in E.
Qed.

Lemma filter_all {A} (P : A -> Prop) `{!forall x, Decision (P x)} (l : list A) : length (filter P l) = length l -> filter P l = l.
Proof.
  induction l as [|x l IH]; [done|]. rewrite filter_cons. case_decide; cbn [length]; intros H1.
  - f_equal. apply IH. lia.
  - pose proof (length_filter P l). lia.
Qed.

Lemma launch_result db height s s' ready b del :
  GetSideChainForLaunch db height s = Ret (s', (ready, b, del)) ->
  (pendingIdx (ProcessPostPendingData db b del), ready, del) = sorted_by db height (pendingIdx db).
Proof.
  unfold GetSideChainForLaunch. case_bool_decide as Hidx.
  { intros [= _ <- <- <-]. cbn. rewrite Hidx. done. }
  intros H. apply SM_bind_inv in H as (s1 & out & H1 & H).
  apply (launch_loop db height (pendingIdx db) []) in H1. rewrite H1 in H. cbn [app] in H. unfold sorted_by in *.
  injection H as _ <- <- <-.
  match goal with |- (?x, _, _) = (?y, _, _) => enough (x = y) as -> by done end. unfold ProcessPostPendingData.
  destruct (Nat.eqb_spec (length (filter (fun v => is_fate db height Waits v = true) (pendingIdx db))) (length (pendingIdx db))) as [E|E].
  - rewrite deleted_index. symmetry. by apply filter_all.
  - unfold pendingIdx at 1. rewrite lookup_insert_eq. apply dec_enc_pending.
Qed.

Lemma ids_inj (l : list pendingIdxData) v v' : NoDup (pi_ChainID <$> l) -> v ∈ l -> v' ∈ l -> pi_ChainID v = pi_ChainID v' -> v = v'.
Proof.
  induction l as [|x l IH]; intros Hn Hv Hv' E; [by apply not_elem_of_nil in Hv|]. cbn in Hn. apply NoDup_cons in Hn as [Hx Hn].
  apply elem_of_cons in Hv as [->|Hv]; apply elem_of_cons in Hv' as [->|Hv']; try done; [| |by apply IH].
  - exfalso. apply Hx. rewrite E. by apply list_elem_of_fmap_2.
  - exfalso. apply Hx. rewrite <- E. by apply list_elem_of_fmap_2.
Qed.

Lemma launch_ok db height s s' ready b del : pending_ok db ->
  GetSideChainForLaunch db height s = Ret (s', (ready, b, del)) -> pending_ok (ProcessPostPendingData db b del).
Proof.
  intros [H1 H2 H3] H. pose proof (launch_result _ _ _ _ _ _ _ H) as E. unfold sorted_by in E. injection E as E1 _ E3.
  assert (forall v, v ∈ pendingIdx (ProcessPostPendingData db b del) -> v ∈ pendingIdx db /\ is_fate db height Waits v = true) as Hidx.
  { intros v Hv. rewrite E1 in Hv. apply list_elem_of_filter in Hv as [? ?]. done. }
  split.
  - rewrite E1. eapply sublist_NoDup; [exact H1|]. apply fmap_sublist, sublist_filter.
  - intros v Hv. destruct (Hidx v Hv) as [Hin Hw]. rewrite processed_records, bool_decide_false; [by apply H2|].
    rewrite E3. intros Hd. apply list_elem_of_fmap in Hd as (v' & Eid & Hv'). apply list_elem_of_filter in Hv' as [He Hin'].
    rewrite (ids_inj _ v v' H1 Hin Hin' Eid) in Hw. unfold is_fate in He, Hw. by destruct (fateOf db height v') as [[]|].
  - intros id cci. rewrite processed_records. case_bool_decide; [done|]. apply H3.
Qed.

(** *** Operations on the waiting chains, in any order *)
Inductive sideStep (db : InfoDB) : InfoDB -> Prop :=
  | step_create from id minV minD start end_ : sideStep db (CreateSideChain db from id minV minD start end_)
  | step_join from pubkey id amount db' : JoinSideChain db from pubkey id amount = Ok db' -> sideStep db db'
  | step_launch height s s' ready b del :
      GetSideChainForLaunch db height s = Ret (s', (ready, b, del)) -> sideStep db (ProcessPostPendingData db b del)
  | step_started id : id ∉ pi_ChainID <$> pendingIdx db -> sideStep db (DeletePendingSideChainData db id).

Lemma sideStep_ok db db' : sideStep db db' -> pending_ok db -> pending_ok db'.
Proof.
  intros [from id minV minD start end_|from pubkey id amount db1 H|height s s' ready b del H|id Hid] Hok.
  - by apply store_ok.
  - unfold JoinSideChain in H. destruct (GetPendingSideChainData db id) as [ci|] eqn:E; [|done].
    destruct (hasJoined from ci); injection H as <-; [done|]. apply store_ok; [done|]. intros _. cbn.
    rewrite (record_id _ Hok _ _ E), E. eauto.
  - by eapply launch_ok.
  - destruct Hok as [H1 H2 H3]. unfold DeletePendingSideChainData.
    pose proof (deleted_records db [id]) as Hr. cbn [foldl] in Hr. split; [by rewrite index_delete| |].
    + intros v. rewrite index_delete, Hr. intros Hv. rewrite bool_decide_false; [by apply H2|].
      intros E. apply list_elem_of_singleton in E as <-. apply Hid. by apply list_elem_of_fmap_2.
    + intros x cci. rewrite Hr. case_bool_decide; [done|]. apply H3.
Qed.


(** *** The deposits *)
Lemma even_paid u c v : even (SubSideChainDepositBalance u c v ;; AddBalance u v).
Proof. eapply within_seq; [eauto with posts|]. eapply posts_weaken; [|apply AddBalance_posts]. intros x ds ->. balance. Qed.
Lemma even_lock u c o v : even (SubSideChainDepositBalance u c v ;; AddChainBalance o v).
Proof. eapply within_seq; [eauto with posts|]. eapply posts_weaken; [|apply AddChainBalance_posts]. intros x ds ->. balance. Qed.
Lemma even_cost {B} o v (k : SM B) : even k -> even (AddBalance o v ;; SubChainBalance o v ;; k).
Proof.
  intros Hk. do 2 (eapply within_seq; [eauto with posts|]). eapply posts_weaken; [|exact Hk].
  intros x ds H. rewrite !app_assoc. apply balanced_app0; [balance|done].
Qed.

(** Settling the chains moves deposits and creates no coins. *)
Lemma GetSideChainForLaunch_even db height : even (GetSideChainForLaunch db height).
Proof.
  unfold GetSideChainForLaunch. case_bool_decide; [apply within_ret|]. apply within_bind.
  - apply within_foldS. intros out v. apply within_bind; [apply within_lift|]. intros f.
    apply within_bind; [|intros _; apply within_ret]. unfold settleChain, lockDeposits, giveBack.
    destruct f, (GetPendingSideChainData db (pi_ChainID v)) as [cci|]; try apply within_ret.
    + apply within_forS. intros jv. apply even_lock.
    + apply within_bind; [apply within_forS; intros jv; apply even_paid|]. intros _. apply even_cost.
      apply within_bind; [apply within_none, getZ_posts|]. intros _. apply within_ret.
  - intros [[w r] e]. apply within_ret.
Qed.

(** The numbers that the election and the rewards use are not touched. *)
Lemma GetSideChainForLaunch_steady F db height : F FBalance = false -> F FChainBalance = false ->
  steady F (GetSideChainForLaunch db height).
Proof.
  intros HB HC. unfold GetSideChainForLaunch. case_bool_decide; [apply steady_ret|]. apply steady_bind.
  - apply steady_foldS. intros out v. apply steady_bind; [apply steady_lift|]. intros f.
    apply steady_bind; [|intros _; apply steady_ret]. unfold settleChain, lockDeposits, giveBack.
    destruct f, (GetPendingSideChainData db (pi_ChainID v)) as [cci|]; try apply steady_ret.
    + apply steady_forS. intros jv. apply steady_bind; [apply steady_SubSide|intros _; by apply steady_AddZ].
    + apply steady_bind; [apply steady_forS; intros jv; apply steady_bind; [apply steady_SubSide|intros _; by apply steady_AddZ]|].
      intros _. apply steady_bind; [by apply steady_AddZ|intros _]. apply steady_bind; [by apply steady_SubZ|intros _].
      apply steady_bind; [|intros _; apply steady_ret]. apply steady_calm. intros s s' x W Hg. by apply getZ_value in Hg as [_ ?].
  - intros [[w r] e]. apply steady_ret.
Qed.

End Proofs.

Module SideChainsExamples.
Import StateToy ClientExamples EpochExamples.

Definition info_key (c : CoreChainInfo) :=
  (cci_Owner c, cci_ChainId c, cci_MinValidators c, cci_MinDepositAmount c, cci_StartBlock c, cci_EndBlock c,
   (fun v => (jv_PubKey v, jv_Address v, jv_DepositAmount v)) <$> cci_JoinedValidators c, cci_EpochNumber c,
   (cci_DepositInMainChain c, cci_DepositInSideChain c, cci_WithdrawFromSideChain c, cci_WithdrawFromMainChain c)).
Definition info_of_key k : CoreChainInfo :=
  let '(o, i, mv, md, sb, eb, jv, en, (d1, d2, w1, w2)) := k in
  {| cci_Owner := o; cci_ChainId := i; cci_MinValidators := mv; cci_MinDepositAmount := md; cci_StartBlock := sb;
     cci_EndBlock := eb;
     cci_JoinedValidators := (fun '(p, a, d) => {| jv_PubKey := p; jv_Address := a; jv_DepositAmount := d |}) <$> jv;
     cci_EpochNumber := en; cci_DepositInMainChain := d1; cci_DepositInSideChain := d2; cci_WithdrawFromSideChain := w1;
     cci_WithdrawFromMainChain := w2 |}.
Definition no_info : CoreChainInfo := info_of_key ([], [], 0, 0, 0, 0, [], 0, (None, None, None, None)).

#[export] Instance ex_infos : ChainInfoCodec := {|
  enc_info c := num (info_key c);
  dec_info b := match unnum b with Some k => (info_of_key k, false) | None => (no_info, true) end;
  enc_pending l := num ((fun v => (pi_ChainID v, pi_Start v, pi_End v)) <$> l);
  dec_pending b := default [] (option_map (fmap (M := list) (fun '(i, s, e) => {| pi_ChainID := i; pi_Start := s; pi_End := e |}))
                                          (unnum b)) |}.

#[export] Instance ex_infos_laws : ChainInfoLaws ex_infos.
Proof.
  split.
  - intros c. unfold dec_info, enc_info, ex_infos. rewrite unnum_num. f_equal. destruct c as [o i mv md sb eb jv en d1 d2 w1 w2].
    unfold info_of_key, info_key. cbn. f_equal. rewrite <- list_fmap_compose. rewrite <- (list_fmap_id jv) at 2.
    apply list_fmap_ext. intros n [] _. done.
  - done.
  - intros l. unfold dec_pending, enc_pending, ex_infos. rewrite unnum_num. cbn. rewrite <- list_fmap_compose.
    rewrite <- (list_fmap_id l) at 2. apply list_fmap_ext. intros n [] _. done.
Qed.

Definition side_a : bytes := str_bytes "side_a".
Definition side_b : bytes := str_bytes "side_b".

Definition ex_info : ChainInfo :=
  {| ci_Core := info_of_key (alice, side_a, 1, 10, 5, 9, [([7], bob, 20)], 4, (None, None, None, None));
     ci_Epoch := Some (ex_epoch 4) |}.

Lemma chain_info_roundtrip_witness :
  CheckSideChainRunning (SaveChainInfo (saveId ∅ side_b) ex_info) side_a = true
  /\ CheckSideChainRunning (SaveChainInfo (saveId ∅ side_b) ex_info) side_b = true.
Proof.
  destruct (chain_info_roundtrip (saveId ∅ side_b) ∅ 0 ex_info 1 OFFICIAL_MINIMUM_DEPOSIT OFFICIAL_MINIMUM_DEPOSIT 5 9)
    as [_ H]; [reflexivity|intros ep [= <-]; reflexivity|].
  split; (etransitivity; [apply H|vm_compute; reflexivity]).
Defined.

(** Two chains wait: at height 7 one is ready, at height 12 the other has
    expired. *)
Definition ex_applied : InfoDB := CreateSideChain (CreateSideChain ∅ alice side_a 1 10 5 9) alice side_b 1 10 6 11.
Definition db_of (d : InfoDB) (r : result string InfoDB) : InfoDB := match r with Ok db => db | Err _ => d end.
Definition ex_infoDB : InfoDB := db_of ∅ (JoinSideChain ex_applied bob [7] side_a 20).

Lemma db_of_ok d r : match r with Ok _ => true | Err _ => false end = true -> r = Ok (db_of d r).
Proof. by destruct r. Qed.

Lemma ex_infoDB_reached : rtc sideStep ∅ ex_infoDB.
Proof.
  eapply rtc_l; [apply (step_create ∅ alice side_a 1 10 5 9)|].
  eapply rtc_l; [apply (step_create _ alice side_b 1 10 6 11)|].
  eapply rtc_l; [|apply rtc_refl]. apply (step_join _ bob [7] side_a 20). apply db_of_ok. vm_compute. reflexivity.
Qed.

Lemma no_pending_ok : pending_ok ∅.
Proof. split; [apply NoDup_nil_2|intros v Hv; by apply not_elem_of_nil in Hv|done]. Qed.


End SideChainsExamples.
