(* ===== verification/Delegation.v ===== *)
(** * Delegation transactions

    The callbacks of the transactions to the chain contract that register and
    unregister candidates, delegate and take back coins, withdraw rewards and
    change what a candidate has declared (internal/ligoapi/api.go).  A
    transaction is refused with an error; the state changes the callback made
    before stay, and the caller drops them with the block or reverts them. *)
From S2P Require Import Prelude Rlp StateData StateDB StateObs StateRevert StateClient StateShares StateLedger BitArray TmTypes ValidatorSet Epoch PendingOps.
Local Open Scope Z_scope.

(** ** What a callback sees of the transaction and of the chain *)

(** A transaction of chain/core/types, with the fields the callbacks read. *)
Record Transaction := {
  tx_Nonce : Z;
  tx_GasPrice : Z;
  tx_Gas : Z;
  tx_To : option bytes;
  tx_Value : Z;
  tx_Data : bytes;
  tx_Hash : bytes;
  tx_signature : bytes }.

(** The arguments of the functions of the contract (ligoabi/abi). *)
Record RegisterArgs := { ra_Pubkey : bytes; ra_Signature : bytes; ra_Commission : Z }.
Record UnDelegateArgs := { ua_Candidate : bytes; ua_Amount : Z }.
Record EditValidatorArgs := { ea_Moniker : bytes; ea_Website : bytes; ea_Identity : bytes; ea_Details : bytes }.

(** Signatures and the decoding of the arguments: the sender of a transaction,
    unpacking by the ABI of the contract, the check of a consensus key and the
    text of a key (crypto-go). *)
Class TxLib := {
  Sender : Transaction -> bytes;
  UnpackWithdrawReward : bytes -> result string bytes;
  UnpackRegister : bytes -> result string RegisterArgs;
  UnpackDelegate : bytes -> result string bytes;
  UnpackUnDelegate : bytes -> result string UnDelegateArgs;
  UnpackSetCommission : bytes -> result string Z;
  UnpackEditValidator : bytes -> result string EditValidatorArgs;
  CheckConsensusPubKey : bytes -> bytes -> bytes -> option string;
  KeyString : bytes -> bytes }.

(** The types of the ABI: uint256 and uint8 are not negative. *)
Class TxLaws (T : TxLib) : Prop := {
  UnDelegate_amount : forall b args, UnpackUnDelegate b = Ok args -> 0 <= ua_Amount args }.

(** The chain: the epoch the engine is in, when the engine is Tendermint, the
    store of the epochs and the height of the current block. *)
Record BlockChain := {
  bc_Epoch : option Epoch;
  bc_db : gmap string bytes;
  bc_Number : Z }.

Definition minimumRegisterAmount : Z := 77000000000000000000000.
Definition maxCandidateNumber : Z := 1000.
Definition maxDelegationAddresses : Z := 1000.
Definition maxEditValidatorLength : Z := 1000.
Definition updateValidatorThreshold : Z := 1000.

(** ** Hexadecimal text (utilities/common/bytes.go and encoding/hex) *)
Definition hexDigit (c : Z) : option Z :=
  if (48 <=? c) && (c <=? 57) then Some (c - 48)
  else if (97 <=? c) && (c <=? 102) then Some (c - 87)
  else if (65 <=? c) && (c <=? 70) then Some (c - 55)
  else None.

(** Decoding stops at the first bad digit; the error is ignored. *)
Fixpoint Hex2Bytes (s : bytes) : bytes :=
  match s with
  | c :: d :: s' =>
    match hexDigit c, hexDigit d with
    | Some h, Some l => (16 * h + l) :: Hex2Bytes s'
    | _, _ => []
    end
  | _ => []
  end.

Definition FromHex (s : bytes) : bytes :=
  let s := match s with
           | 48 :: 120 :: s' | 48 :: 88 :: s' => s'
           | _ => s
           end in
  Hex2Bytes (if Nat.odd (length s) then 48 :: s else s).

(** [copy(blsPK[:], b)] into an array of 128 bytes. *)
Definition blsPubKey (b : bytes) : bytes := take 128 (b ++ replicate 128 0).

Section Delegation.
Context {L : TrieLib} `{EC : EpochCodec} {T : TxLib}.

(** [data[4:]] *)
Definition payload (tx : Transaction) : SM bytes :=
  if (length (tx_Data tx) <? 4)%nat then panicS "slice bounds out of range" else mret (drop 4 (tx_Data tx)).
Definition unpack {A} (f : bytes -> result string A) (tx : Transaction) : EM A :=
  data ← payload tx; mret (f data).

(** ** The epoch of the current block *)

(** The epochs are numbered down to 0; each is looked at once. *)
Definition epochOf (bc : BlockChain) : option Epoch :=
  ep ← bc_Epoch bc; GetEpochByBlockNumber (S (Z.to_nat (ep_Number ep))) (bc_db bc) ep (bc_Number bc).

Definition getEpoch (bc : BlockChain) : EM Epoch :=
  match epochOf bc with
  | None => fail_ "epoch is nil, are you running on Tendermint Consensus Engine"
  | Some ep => ok_ ep
  end.

(** The test for a validator that holds its seat for some epochs more; there
    is no test for a nil epoch. *)
Definition isSupernode (bc : BlockChain) (addr : bytes) : SM bool :=
  match epochOf bc with
  | None => panicS "nil pointer dereference"
  | Some ep =>
    mret (match snd (ValidatorSet_GetByAddress (ep_Validators ep) addr) with
          | Some supernode => 0 <? val_RemainingEpoch supernode
          | None => false
          end)
  end.

Definition updateValidation (bc : BlockChain) : EM unit :=
  ep <~ getEpoch bc;
  let currHeight := bc_Number bc in
  if (currHeight =? 1) || (currHeight =? ep_StartBlock ep) || (currHeight =? u64 (ep_StartBlock ep + 1))
     || (currHeight =? ep_EndBlock ep)
  then fail_ "incorrect block height, please retry later"
  else ok_ tt.

(** The votes of the current epoch decide whether the candidate may get a
    seat. *)
Definition mayEnter (voteSet : option EpochValidatorVoteSet) (netProxied : Z) : outcome bool :=
  match voteSet with
  | None => Ret true
  | Some vs =>
    if updateValidatorThreshold <=? Z.of_nat (length (evs_Votes vs)) then
      (fix go (l : list EpochValidatorVote) : outcome bool :=
         match l with
         | [] => Ret false
         | v :: l' =>
           match ev_Amount v with
           | None => Panic "nil pointer dereference"
           | Some amount => if amount <? netProxied then Ret true else go l'
           end
         end) (evs_Votes vs)
    else Ret true
  end.

Definition updateNextEpochValidatorVoteSet (tx : Transaction) (bc : BlockChain) (candidate : bytes) (ops : PendingOps)
    : EM PendingOps :=
  ep <~ getEpoch bc;
  proxiedBalance ← GetTotalProxiedBalance candidate;
  depositProxiedBalance ← GetTotalDepositProxiedBalance candidate;
  pendingRefundBalance ← GetTotalPendingRefundBalance candidate;
  let netProxied := proxiedBalance + depositProxiedBalance - pendingRefundBalance in
  check (netProxied <? 0) "validator voting power can not be negative" (
  update ← liftS (mayEnter (fst (GetEpochValidatorVoteSet (bc_db bc) ep)) netProxied);
  isCandidate ← (if (update : bool) then IsCandidate candidate else mret false);
  if (isCandidate : bool) then
    ForEachProxied candidate (fun _ key proxiedBalance _ _ =>
      SubProxiedBalanceByUser candidate key proxiedBalance ;;
      AddDepositProxiedBalanceByUser candidate key proxiedBalance) tt ;;
    pubkey ← GetPubkey candidate;
    let pubkeyBytes := FromHex pubkey in
    check (bool_decide (pubkey = []) || negb (length pubkeyBytes =? 128)%nat)
      "wrong format of required field 'pub_key'" (
    match Append ops (UpdateNextEpochOp candidate (blsPubKey pubkeyBytes) netProxied "ligochain" (tx_Hash tx)) with
    | (ops', true) => ok_ ops'
    | (_, false) => fail_ "pending ops conflict"
    end)
  else ok_ ops).

(** ** Rewards *)
Definition withDrawRewardValidation (from : bytes) (tx : Transaction) : EM bytes :=
  DelegateAddress <~ unpack UnpackWithdrawReward tx;
  reward ← GetRewardBalanceByDelegateAddress from DelegateAddress;
  check (reward <? 1) "have no reward to withdraw" (ok_ DelegateAddress).

Definition withdrawRewardValidateCb (tx : Transaction) : EM unit :=
  _ <~ withDrawRewardValidation (Sender tx) tx; ok_ tt.

Definition withdrawRewardApplyCb (tx : Transaction) : EM unit :=
  let from := Sender tx in
  DelegateAddress <~ withDrawRewardValidation from tx;
  reward ← GetRewardBalanceByDelegateAddress from DelegateAddress;
  SubRewardBalanceByDelegateAddress from DelegateAddress reward ;;
  AddBalance from reward ;;
  ok_ tt.

(** ** Candidates *)
Definition registerValidation (from : bytes) (tx : Transaction) (bc : BlockChain) : EM RegisterArgs :=
  candidateSet ← GetCandidateSet;
  check (maxCandidateNumber <? Z.of_nat (size (members candidateSet))) "candidate number bigger than the maximum number" (
  clean ← IsCleanAddress from;
  check (negb clean) "address become candidate already" (
  check (tx_Value tx <? minimumRegisterAmount) "security deposit not meet the minimum value" (
  args <~ unpack UnpackRegister tx;
  match CheckConsensusPubKey from (ra_Pubkey args) (ra_Signature args) with
  | Some e => fail_ e
  | None =>
    check (100 <? ra_Commission args) "commission percentage (between 0 and 100) out of range" (
    supernode ← isSupernode bc from;
    check supernode "Annual/SemiAnnual Supernode can not become candidate" (ok_ args))
  end))).

Definition registerValidateCb (tx : Transaction) (bc : BlockChain) : EM unit :=
  _ <~ registerValidation (Sender tx) tx bc; ok_ tt.

Definition registerApplyCb (tx : Transaction) (bc : BlockChain) (ops : PendingOps) : EM PendingOps :=
  let from := Sender tx in
  args <~ registerValidation from tx bc;
  _ <~ updateValidation bc;
  let amount := tx_Value tx in
  SubBalance from amount ;;
  AddDelegateBalance from amount ;;
  AddProxiedBalanceByUser from from amount ;;
  ApplyForCandidate from (KeyString (blsPubKey (ra_Pubkey args))) (ra_Commission args) ;;
  MarkAddressCandidate from ;;
  updateNextEpochValidatorVoteSet tx bc from ops.

Definition unRegisterValidation (from : bytes) (bc : BlockChain) : EM unit :=
  isCandidate ← IsCandidate from;
  check (negb isCandidate) "address not candidate" (
  banned ← GetBanned from;
  check banned "banned candidate can not unregister" (
  supernode ← isSupernode bc from;
  check supernode "Annual/SemiAnnual Supernode can not unregister" (
  _ <~ getEpoch bc; ok_ tt))).

Definition unRegisterValidateCb (tx : Transaction) (bc : BlockChain) : EM unit :=
  unRegisterValidation (Sender tx) bc.

(** The candidate set is also read by the messages that are printed. *)
Definition unRegisterApplyCb (tx : Transaction) (bc : BlockChain) (ops : PendingOps) : EM PendingOps :=
  let from := Sender tx in
  _ <~ unRegisterValidation from bc;
  allRefund ← ForEachProxied from (fun allRefund key proxiedBalance depositProxiedBalance _ =>
    SubProxiedBalanceByUser from key proxiedBalance ;;
    SubDelegateBalance key proxiedBalance ;;
    AddBalance key proxiedBalance ;;
    if 0 <? depositProxiedBalance then
      AddPendingRefundBalanceByUser from key depositProxiedBalance ;;
      MarkDelegateAddressRefund from ;;
      mret false
    else mret allRefund) true;
  CancelCandidate from allRefund ;;
  _ ← GetCandidateSet;
  ClearCandidateSetByAddress from ;;
  _ ← GetCandidateSet;
  ok_ ops.

(** ** Delegation *)
Definition delegateValidation (from : bytes) (tx : Transaction) (bc : BlockChain) : EM bytes :=
  check (tx_Value tx <? 0) "delegation amount can not be negative" (
  Candidate <~ unpack UnpackDelegate tx;
  isCandidate ← IsCandidate Candidate;
  check (negb isCandidate) "address not candidate" (
  depositBalance ← GetDepositProxiedBalanceByUser Candidate from;
  full ← (if depositBalance =? 0 then
            delegatedAddressNumber ← GetProxiedAddressNumber Candidate;
            mret (maxDelegationAddresses <=? delegatedAddressNumber)
          else mret false);
  check full "exceed the delegation address limit" (
  supernode ← isSupernode bc Candidate;
  check (supernode && (depositBalance =? 0)) "Annual/SemiAnnual Supernode candidate not accept new delegator" (
  ok_ Candidate)))).

Definition delegateValidateCb (tx : Transaction) (bc : BlockChain) : EM unit :=
  _ <~ delegateValidation (Sender tx) tx bc; ok_ tt.

Definition delegateApplyCb (tx : Transaction) (bc : BlockChain) (ops : PendingOps) : EM PendingOps :=
  let from := Sender tx in
  Candidate <~ delegateValidation from tx bc;
  _ <~ updateValidation bc;
  let amount := tx_Value tx in
  SubBalance from amount ;;
  AddDelegateBalance from amount ;;
  AddProxiedBalanceByUser Candidate from amount ;;
  banned ← GetBanned from;
  if negb banned then updateNextEpochValidatorVoteSet tx bc Candidate ops else ok_ ops.

Definition unDelegateValidation (from : bytes) (tx : Transaction) (bc : BlockChain) : EM UnDelegateArgs :=
  args <~ unpack UnpackUnDelegate tx;
  check (bool_decide (from = ua_Candidate args)) "can not cancel self delegation" (
  supernode ← isSupernode bc (ua_Candidate args);
  check supernode "Annual/SemiAnnual Supernode candidate can not unbond" (
  proxiedBalance ← GetProxiedBalanceByUser (ua_Candidate args) from;
  depositProxiedBalance ← GetDepositProxiedBalanceByUser (ua_Candidate args) from;
  pendingRefundBalance ← GetPendingRefundBalanceByUser (ua_Candidate args) from;
  let netDeposit := depositProxiedBalance - pendingRefundBalance in
  let availableRefundBalance := proxiedBalance + netDeposit in
  check (availableRefundBalance <? ua_Amount args) "cancel amount greater than your Proxied Balance" (
  _ <~ getEpoch bc; ok_ args))).

Definition unDelegateValidateCb (tx : Transaction) (bc : BlockChain) : EM unit :=
  _ <~ unDelegateValidation (Sender tx) tx bc; ok_ tt.

Definition unDelegateApplyCb (tx : Transaction) (bc : BlockChain) (ops : PendingOps) : EM PendingOps :=
  let from := Sender tx in
  args <~ unDelegateValidation from tx bc;
  _ <~ updateValidation bc;
  proxiedBalance ← GetProxiedBalanceByUser (ua_Candidate args) from;
  immediatelyRefund ←
    (if ua_Amount args <=? proxiedBalance then mret (ua_Amount args)
     else
       let restRefund := ua_Amount args - proxiedBalance in
       AddPendingRefundBalanceByUser (ua_Candidate args) from restRefund ;;
       MarkDelegateAddressRefund (ua_Candidate args) ;;
       mret proxiedBalance);
  SubProxiedBalanceByUser (ua_Candidate args) from immediatelyRefund ;;
  SubDelegateBalance from immediatelyRefund ;;
  AddBalance from immediatelyRefund ;;
  ok_ ops.

(** ** What a candidate declares *)
Definition setCommissionValidation (from : bytes) (tx : Transaction) : EM Z :=
  isCandidate ← IsCandidate from;
  check (negb isCandidate) "address not candidate" (
  Commission <~ unpack UnpackSetCommission tx;
  check (100 <? Commission) "commission percentage (between 0 and 100) out of range" (ok_ Commission)).

Definition setCommisstionValidateCb (tx : Transaction) : EM unit :=
  _ <~ setCommissionValidation (Sender tx) tx; ok_ tt.

Definition setCommisstionApplyCb (tx : Transaction) : EM unit :=
  Commission <~ setCommissionValidation (Sender tx) tx;
  SetCommission (Sender tx) Commission ;;
  ok_ tt.

Definition editValidatorValidateCb (tx : Transaction) : EM unit :=
  isCandidate ← IsCandidate (Sender tx);
  check (negb isCandidate) "you are not a validator or candidate" (
  args <~ unpack UnpackEditValidator tx;
  let long b := maxEditValidatorLength <? Z.of_nat (length b) in
  check (long (ea_Details args) || long (ea_Identity args) || long (ea_Moniker args) || long (ea_Website args))
    "args length too long" (ok_ tt)).

Definition unBannedValidation (from : bytes) (bc : BlockChain) : EM unit :=
  isCandidate ← IsCandidate from;
  check (negb isCandidate) "address not candidate" (
  _ <~ updateValidation bc;
  banned ← GetBanned from;
  check (negb banned) "should not unbanned" (
  bannedEpoch ← GetBannedTime from;
  check (0 <? bannedEpoch) "please unbanned later" (ok_ tt))).

Definition unBannedValidateCb (tx : Transaction) (bc : BlockChain) : EM unit :=
  unBannedValidation (Sender tx) bc.

Definition unBannedApplyCb (tx : Transaction) (bc : BlockChain) : EM unit :=
  let from := Sender tx in
  _ <~ unBannedValidation from bc;
  SetBanned from false ;;
  ClearBannedSetByAddress from ;;
  ok_ tt.

(** ** The books *)
Context {LL : TrieLaws L}.

Section Unpack.
Context {Q : list entry -> Prop} {AQ : Additive Q}.

Lemma within_unpack {A} (f : bytes -> result string A) tx : within Q (unpack f tx).
Proof.
  unfold unpack, payload. apply within_bind; [|intros; apply within_ret].
  destruct (_ <? _)%nat; [apply within_panic|apply within_ret].
Qed.

End Unpack.
#[local] Hint Resolve within_unpack : within.

(** The validations read only. *)
Section Validations.
Context {Q : list entry -> Prop} {AQ : Additive Q}.

Lemma getEpoch_within bc : within Q (getEpoch bc).
Proof. unfold getEpoch. within_known. Qed.
Lemma isSupernode_within bc a : within Q (isSupernode bc a).
Proof. unfold isSupernode. within_known. Qed.
#[local] Hint Resolve getEpoch_within isSupernode_within : within.
Lemma updateValidation_within bc : within Q (updateValidation bc).
Proof. unfold updateValidation. within_known. Qed.
#[local] Hint Resolve updateValidation_within : within.
Lemma registerValidation_within from tx bc : within Q (registerValidation from tx bc).
Proof. unfold registerValidation. within_known. Qed.
Lemma unRegisterValidation_within from bc : within Q (unRegisterValidation from bc).
Proof. unfold unRegisterValidation. within_known. Qed.
Lemma delegateValidation_within from tx bc : within Q (delegateValidation from tx bc).
Proof. unfold delegateValidation. within_known. Qed.
Lemma unDelegateValidation_within from tx bc : within Q (unDelegateValidation from tx bc).
Proof. unfold unDelegateValidation. within_known. Qed.
Lemma withDrawRewardValidation_within from tx : within Q (withDrawRewardValidation from tx).
Proof. unfold withDrawRewardValidation. within_known. Qed.
Lemma setCommissionValidation_within from tx : within Q (setCommissionValidation from tx).
Proof. unfold setCommissionValidation. within_known. Qed.
Lemma unBannedValidation_within from bc : within Q (unBannedValidation from bc).
Proof. unfold unBannedValidation. within_known. Qed.

End Validations.
#[local] Hint Resolve getEpoch_within isSupernode_within updateValidation_within registerValidation_within
  unRegisterValidation_within delegateValidation_within unDelegateValidation_within withDrawRewardValidation_within
  setCommissionValidation_within unBannedValidation_within nil_additive balanced_additive : within.

(** Entries that move coins between the parts of a share only. *)
Definition rearranges (ds : list entry) : Prop :=
  (forall a k, posted ds (a, Coin k) = 0) /\ (forall a u, posted ds (a, Reward_from u) = 0)
  /\ forall c u, posted ds (c, Share Pending_part u) = 0
       /\ posted ds (c, Share Proxied_part u) + posted ds (c, Share Deposit_part u) = 0.

#[export] Instance rearranges_additive : Additive rearranges.
Proof.
  split; [done|]. intros ds ds' (H1 & H2 & H3) (K1 & K2 & K3). split_and!; intros.
  - rewrite posted_app, H1, K1. done.
  - rewrite posted_app, H2, K2. done.
  - destruct (H3 c u), (K3 c u). rewrite !posted_app. lia.
Qed.
#[local] Hint Resolve rearranges_additive : within.

(** A share changes its part, coins of a user become a share, and a share
    becomes coins of the user. *)
Lemma deposit_rearranges c u v :
  within rearranges (SubProxiedBalanceByUser c u v ;; AddDepositProxiedBalanceByUser c u v).
Proof.
  apply (within_seq _ _ _ (SubProxied_posts c u v)). eapply posts_weaken; [|apply AddDepositProxied_posts]. intros _ ds ->.
  split_and!; intros; cbn [app]; rewrite !posted_cons; cbn [posted foldr]; repeat case_bool_decide; try lia; congruence.
Qed.
Ltac within_group ::=
  match goal with
  | |- within rearranges (mbind _ (SubProxiedBalanceByUser _ _ _)) => apply deposit_rearranges
  end.

Lemma updateNextEpoch_rearranges tx bc c ops : within rearranges (updateNextEpochValidatorVoteSet tx bc c ops).
Proof. unfold updateNextEpochValidatorVoteSet. within_known. Qed.

Lemma even_more {A} (m : SM A) es : balanced 0 es -> even m -> within (fun ds => balanced 0 (es ++ ds)) m.
Proof. intros He. apply posts_weaken. intros x ds. by apply balanced_app0. Qed.

Lemma even_stake {B} c u v (k : SM B) : even k ->
  even (SubBalance u v ;; AddDelegateBalance u v ;; AddProxiedBalanceByUser c u v ;; k).
Proof.
  intros Hk. do 3 (eapply within_seq; [eauto with posts|]). eapply posts_weaken; [|exact Hk].
  intros x ds H. rewrite !app_assoc. apply balanced_app0; [balance|done].
Qed.
Lemma even_unstake {B} c u v (k : SM B) : even k ->
  even (SubProxiedBalanceByUser c u v ;; SubDelegateBalance u v ;; AddBalance u v ;; k).
Proof.
  intros Hk. do 3 (eapply within_seq; [eauto with posts|]). eapply posts_weaken; [|exact Hk].
  intros x ds H. rewrite !app_assoc. apply balanced_app0; [balance|done].
Qed.
Lemma even_deposit c u v : even (SubProxiedBalanceByUser c u v ;; AddDepositProxiedBalanceByUser c u v).
Proof.
  eapply within_seq; [eauto with posts|]. eapply posts_weaken; [|apply AddDepositProxied_posts]. intros x ds ->. balance.
Qed.
Lemma even_pending c u v : even (AddPendingRefundBalanceByUser c u v).
Proof. eapply posts_weaken; [|apply AddPendingRefund_posts]. intros x ds ->. balance. Qed.
Lemma even_withdraw {B} a d v (k : SM B) : even k ->
  even (SubRewardBalanceByDelegateAddress a d v ;; AddBalance a v ;; k).
Proof.
  intros Hk. do 2 (eapply within_seq; [eauto with posts|]). eapply posts_weaken; [|exact Hk].
  intros x ds H. rewrite !app_assoc. apply balanced_app0; [balance|done].
Qed.

Ltac within_group ::=
  match goal with
  | |- within _ (mbind _ (SubBalance _ _)) => apply even_stake
  | |- within _ (mbind _ (SubProxiedBalanceByUser _ _ _)) => first [apply even_deposit | apply even_unstake]
  | |- within _ (AddPendingRefundBalanceByUser _ _ _) => apply even_pending
  | |- within _ (mbind _ (SubRewardBalanceByDelegateAddress _ _ _)) => apply even_withdraw
  end.

Lemma updateNextEpoch_even tx bc c ops : even (updateNextEpochValidatorVoteSet tx bc c ops).
Proof. unfold updateNextEpochValidatorVoteSet. within_known. Qed.
#[local] Hint Resolve updateNextEpoch_even : within.
Lemma registerApplyCb_even tx bc ops : even (registerApplyCb tx bc ops).
Proof. unfold registerApplyCb. within_known. Qed.
Lemma unRegisterApplyCb_even tx bc ops : even (unRegisterApplyCb tx bc ops).
Proof. unfold unRegisterApplyCb. within_known. Qed.
Lemma delegateApplyCb_even tx bc ops : even (delegateApplyCb tx bc ops).
Proof. unfold delegateApplyCb. within_known. Qed.
Lemma unDelegateApplyCb_even tx bc ops : even (unDelegateApplyCb tx bc ops).
Proof. unfold unDelegateApplyCb. within_known. Qed.
Lemma withdrawRewardApplyCb_even tx : even (withdrawRewardApplyCb tx).
Proof. unfold withdrawRewardApplyCb. within_known. Qed.
Lemma setCommisstionApplyCb_even tx : even (setCommisstionApplyCb tx).
Proof. unfold setCommisstionApplyCb. within_known. Qed.
Lemma unBannedApplyCb_even tx bc : even (unBannedApplyCb tx bc).
Proof. unfold unBannedApplyCb. within_known. Qed.
#[local] Hint Resolve registerApplyCb_even unRegisterApplyCb_even delegateApplyCb_even unDelegateApplyCb_even
  withdrawRewardApplyCb_even setCommisstionApplyCb_even unBannedApplyCb_even : within.

(** ** The transactions as one operation *)
Inductive call := CRegister | CUnRegister | CDelegateTo | CUnDelegate | CWithdrawReward | CSetCommission | CUnBanned.

Definition applyCb (c : call) (tx : Transaction) (bc : BlockChain) (ops : PendingOps) : EM PendingOps :=
  match c with
  | CRegister => registerApplyCb tx bc ops
  | CUnRegister => unRegisterApplyCb tx bc ops
  | CDelegateTo => delegateApplyCb tx bc ops
  | CUnDelegate => unDelegateApplyCb tx bc ops
  | CWithdrawReward => _ <~ withdrawRewardApplyCb tx; ok_ ops
  | CSetCommission => _ <~ setCommisstionApplyCb tx; ok_ ops
  | CUnBanned => _ <~ unBannedApplyCb tx bc; ok_ ops
  end.

Lemma applyCb_even c tx bc ops : even (applyCb c tx bc ops).
Proof. destruct c; cbn [applyCb]; within_known. Qed.

(** Transactions one after the other, with the answer of each. *)
Definition applyAll (calls : list (call * (Transaction * BlockChain * PendingOps)))
    : SM (list (result string PendingOps)) :=
  foldS (fun rs (c : call * (Transaction * BlockChain * PendingOps)) =>
    let '(f, (tx, bc, ops)) := c in r ← applyCb f tx bc ops; mret (rs ++ [r])) [] calls.

Lemma applyAll_even calls : even (applyAll calls).
Proof.
  apply within_foldS. intros acc [f [[tx bc] ops]]. apply within_bind; [apply applyCb_even|intros; apply within_ret].
Qed.

(** C16: whatever transactions of the delegation contract are applied, and
    whether they succeed or are refused, no coin is created or lost over all
    accounts, what a user has delegated stays the sum of the shares of the user
    at the candidates, and the rewards of an account stay the sum of its
    rewards by delegate. *)
Theorem delegation_keeps_books calls s s' t rs :
  swf s -> books s t -> applyAll calls s = Ret (s', rs) -> swf s' /\ books s' t.
Proof. apply even_books, applyAll_even. Qed.

(** ** Values that are read *)
Lemma share_value p a u s s' x : swf s ->
  query a 0 (v ← through a (fun db o => GetAccountProxiedBalance db o u); mret (apb_field (part_share p) v)) s
    = Ret (s', x) -> x = ledger s (a, Share p u) /\ calm s s'.
Proof.
  intros W H. destruct (getStateObject_spec s a W) as (s1 & G & C & Hlive).
  unfold query in H. rewrite (SM_bind_Ret _ _ _ _ _ G) in H. unfold ledger. cbn [fst snd].
  destruct (view s a) as [o|]; cbn [is_some] in H; [|injection H as <- <-; done].
  pose proof (through_spec _ _ a o s1 (fun db => GetAccountProxiedBalance_reads db u) (proj1 C) (Hlive o eq_refl)) as Ht.
  cbv beta in Ht. replace (s_db s1) with (s_db s) in Ht by (symmetry; apply (proj1 (proj2 C))).
  cbn [oline]. unfold oshare. destruct (proxied_of (s_db s) o u) as [v|].
  - destruct Ht as (s2 & o2 & H2 & C2 & _). rewrite (SM_bind_Ret _ _ _ _ _ H2) in H. injection H as <- <-.
    split; [done|]. eapply calm_trans; done.
  - destruct Ht as (e & He). unfold mbind, SM_bind in H. rewrite He in H. done.
Qed.

(** Splitting an execution that succeeded. *)
Lemma try_inv {A B} (m : EM A) (k : A -> EM B) s s' y :
  try_ m k s = Ret (s', Ok y) -> exists s1 x, m s = Ret (s1, Ok x) /\ k x s1 = Ret (s', Ok y).
Proof. intros H. apply SM_bind_inv in H as (s1 & [x|e] & H1 & H2); [eauto|done]. Qed.
Lemma check_inv b e {B} (k : EM B) s s' y : check b e k s = Ret (s', Ok y) -> b = false /\ k s = Ret (s', Ok y).
Proof. unfold check. destruct b; done. Qed.
Lemma unpack_inv {A} (f : bytes -> result string A) tx s s' x :
  unpack f tx s = Ret (s', x) -> s' = s /\ x = f (drop 4 (tx_Data tx)).
Proof.
  intros H. unfold unpack, payload in H. apply SM_bind_inv in H as (s1 & d & H1 & H2). injection H2 as <- <-.
  destruct (_ <? _)%nat; [done|]. injection H1 as <- <-. done.
Qed.
Lemma getEpoch_inv bc s s' x : getEpoch bc s = Ret (s', x) -> s' = s.
Proof. unfold getEpoch. destruct (epochOf bc); intros [= <- _]; done. Qed.
Lemma isSupernode_inv bc a s s' x : isSupernode bc a s = Ret (s', x) -> s' = s.
Proof. unfold isSupernode. destruct (epochOf bc); [intros [= <- _]; done|done]. Qed.
Lemma updateValidation_inv bc s s' x : updateValidation bc s = Ret (s', Ok x) -> s' = s.
Proof.
  intros H. apply try_inv in H as (s1 & ep & H1 & H2). apply getEpoch_inv in H1 as ->.
  cbv zeta in H2. destruct (_ || _) in H2; [done|]. by injection H2 as <-.
Qed.

(** What unDelegateValidation has checked. *)
Lemma unDelegateValidation_inv from tx bc s s' args :
  swf s -> unDelegateValidation from tx bc s = Ret (s', Ok args) ->
  UnpackUnDelegate (drop 4 (tx_Data tx)) = Ok args /\ calm s s'
  /\ ua_Amount args <= ledger s (ua_Candidate args, Share Proxied_part from)
       + (ledger s (ua_Candidate args, Share Deposit_part from) - ledger s (ua_Candidate args, Share Pending_part from)).
Proof.
  intros W H. apply try_inv in H as (s1 & args' & H1 & H). apply unpack_inv in H1 as [-> Hu].
  apply check_inv in H as [_ H]. apply SM_bind_inv in H as (s1 & b & H1 & H). apply isSupernode_inv in H1 as ->.
  apply check_inv in H as [_ H]. apply SM_bind_inv in H as (s1 & p & H1 & H).
  apply SM_bind_inv in H as (s2 & d & H2 & H). apply SM_bind_inv in H as (s3 & q & H3 & H).
  apply (share_value Proxied_part) in H1 as [-> C1]; [|done].
  apply (share_value Deposit_part) in H2 as [-> C2]; [|apply C1].
  apply (share_value Pending_part) in H3 as [-> C3]; [|apply C2].
  pose proof (calm_moved _ _ C1 (ua_Candidate args', Share Deposit_part from)) as M1.
  pose proof (calm_moved _ _ (calm_trans _ _ _ C1 C2) (ua_Candidate args', Share Pending_part from)) as M2.
  cbn [posted foldr] in M1, M2. rewrite M1, M2 in H.
  apply check_inv in H as [Hc H]. apply try_inv in H as (s4 & ep & H4 & H). apply getEpoch_inv in H4 as ->.
  injection H as <- <-. split; [done|]. split; [do 2 (eapply calm_trans; [done|]); done|].
  apply Z.ltb_ge in Hc. lia.
Qed.

Lemma takeBack_posts {B} c u v (x : B) :
  posts (SubProxiedBalanceByUser c u v ;; SubDelegateBalance u v ;; AddBalance u v ;; mret x)
    (just [((c, Share Proxied_part u), - v); ((u, Coin CDelegate), - v); ((u, Coin CBalance), v)]).
Proof.
  eapply posts_weaken.
  2: { apply posts_seq; [apply SubProxied_posts|]. apply posts_seq; [apply SubDelegateBalance_posts|].
       apply posts_seq; [apply AddBalance_posts|]. by apply (posts_ret x none). }
  intros y ds (d1 & -> & d2 & -> & d3 & -> & ->). done.
Qed.
Lemma later_posts c u w (v : Z) :
  posts (AddPendingRefundBalanceByUser c u w ;; MarkDelegateAddressRefund c ;; mret v)
    (fun x ds => x = v /\ ds = [((c, Share Pending_part u), w)]).
Proof.
  eapply posts_weaken.
  2: { apply posts_seq; [apply AddPendingRefund_posts|]. apply (posts_read _ _ (fun x ds => x = v /\ ds = []));
         [apply markInSet_posts|intros _]. by apply posts_ret. }
  intros y ds (d1 & -> & -> & ->). done.
Qed.

Context {TL : TxLaws T}.

(** A user who takes back delegated coins with success gets at once what
    was not deposited yet, up to the amount asked for, and the rest is recorded
    as a refund that waits for the end of the epoch.  The refunds that wait
    stay within what the user has deposited, no share gets negative, and
    nothing else in the ledger changes. *)
Theorem unDelegate_takes_back tx bc ops ops' s s' args :
  let u := Sender tx in let c := ua_Candidate args in
  let proxied := ledger s (c, Share Proxied_part u) in
  let deposit := ledger s (c, Share Deposit_part u) in
  let pending := ledger s (c, Share Pending_part u) in
  let now := Z.min (ua_Amount args) proxied in
  swf s -> UnpackUnDelegate (drop 4 (tx_Data tx)) = Ok args -> 0 <= proxied -> pending <= deposit ->
  unDelegateApplyCb tx bc ops s = Ret (s', Ok ops') ->
  ledger s' (c, Share Proxied_part u) = proxied - now /\ 0 <= proxied - now
  /\ ledger s' (c, Share Pending_part u) = pending + (ua_Amount args - now)
  /\ pending <= pending + (ua_Amount args - now) <= deposit
  /\ ledger s' (u, Coin CBalance) = ledger s (u, Coin CBalance) + now
  /\ ledger s' (u, Coin CDelegate) = ledger s (u, Coin CDelegate) - now
  /\ forall i, i ∉ [(c, Share Proxied_part u); (c, Share Pending_part u); (u, Coin CBalance); (u, Coin CDelegate)] ->
       ledger s' i = ledger s i.
Proof.
  intros u c proxied deposit pending now W Hargs Hp Hd H.
  apply try_inv in H as (s1 & args' & H1 & H). apply unDelegateValidation_inv in H1 as (Ha & C1 & Hle); [|done].
  rewrite Hargs in Ha. injection Ha as <-. fold c u proxied deposit pending in Hle.
  pose proof (UnDelegate_amount _ _ Hargs) as Hnn.
  apply try_inv in H as (s2 & [] & H2 & H). apply updateValidation_inv in H2 as ->.
  apply SM_bind_inv in H as (s2 & p & H2 & H). apply (share_value Proxied_part) in H2 as [-> C2]; [|apply C1].
  pose proof (calm_moved _ _ (calm_trans _ _ _ C1 C2)) as M0.
  assert (ledger s1 (c, Share Proxied_part u) = proxied) as Ep
    by (rewrite (calm_moved _ _ C1); cbn; fold c u proxied; lia).
  fold c u in H. rewrite Ep in H. apply SM_bind_inv in H as (s3 & v & H3 & H).
  set (rest := ua_Amount args - now).
  assert (swf s3 /\ v = now /\ moved [((c, Share Pending_part u), rest)] s2 s3) as (W3 & -> & M3).
  { destruct (Z.leb_spec (ua_Amount args) proxied).
    - injection H3 as <- <-. subst now rest. rewrite Z.min_l by done. split; [apply C2|]. split; [done|].
      intros i. rewrite posted_cons. case_bool_decide; cbn; lia.
    - destruct (later_posts c u (ua_Amount args - proxied) proxied) as [Ho Hq].
      destruct (Hq _ _ _ (proj1 C2) H3) as (ds & (-> & ->) & M). subst now rest. rewrite Z.min_r by lia.
      split; [eapply Ho; [apply C2|done]|]. done. }
  destruct (takeBack_posts (B := result string PendingOps) c u now (Ok ops)) as [Ho Hq].
  destruct (Hq _ _ _ W3 H) as (ds & -> & M4).
  pose proof (moved_trans _ _ _ _ _ (moved_trans _ _ _ _ _ M0 M3) M4) as M. clear M0 M3 M4 Ep.
  assert (0 <= proxied - now /\ 0 <= rest <= deposit - pending) as [Hn Hr] by (subst now rest; lia).
  split_and!; try lia; try (intros i Hi); rewrite M; cbn [app]; rewrite !posted_cons; cbn [posted foldr];
    fold c u proxied pending; repeat case_bool_decide; try congruence; try lia; exfalso; apply Hi; set_solver.
Qed.

Lemma stake_posts {B} c u v (k : SM B) : within rearranges k ->
  posts (SubBalance u v ;; AddDelegateBalance u v ;; AddProxiedBalanceByUser c u v ;; k)
    (fun _ ds => exists ds', ds = ((u, Coin CBalance), - v) :: ((u, Coin CDelegate), v)
                                  :: ((c, Share Proxied_part u), v) :: ds' /\ rearranges ds').
Proof.
  intros Hk. eapply posts_weaken.
  2: { apply posts_seq; [apply SubBalance_posts|]. apply posts_seq; [apply AddDelegateBalance_posts|].
       apply posts_seq; [apply AddProxied_posts|exact Hk]. }
  intros x ds (d1 & -> & d2 & -> & d3 & -> & H). exists d3. done.
Qed.

(** A delegation that succeeds takes the amount of the transaction, which is
    not negative, from the balance of the sender and adds it to the share of the
    sender at the candidate named in the transaction.  The shares of all others
    keep their sums, though they may be moved from one part to the other, and no
    other balance, reward or pending refund changes. *)
Theorem delegate_adds_share tx bc ops ops' s s' :
  let u := Sender tx in let v := tx_Value tx in
  swf s -> delegateApplyCb tx bc ops s = Ret (s', Ok ops') ->
  exists c, UnpackDelegate (drop 4 (tx_Data tx)) = Ok c /\ 0 <= v
  /\ (forall a k, ledger s' (a, Coin k) = ledger s (a, Coin k) +
        if bool_decide ((a, k) = (u, CBalance)) then - v else if bool_decide ((a, k) = (u, CDelegate)) then v else 0)
  /\ (forall a d, ledger s' (a, Share Pending_part d) = ledger s (a, Share Pending_part d)
        /\ ledger s' (a, Reward_from d) = ledger s (a, Reward_from d)
        /\ ledger s' (a, Share Proxied_part d) + ledger s' (a, Share Deposit_part d) =
           ledger s (a, Share Proxied_part d) + ledger s (a, Share Deposit_part d) +
           if bool_decide ((a, d) = (c, u)) then v else 0).
Proof.
  intros u v W H. apply try_inv in H as (s1 & c & H1 & H).
  assert (UnpackDelegate (drop 4 (tx_Data tx)) = Ok c /\ 0 <= v) as [Hc Hv].
  { clear H. apply check_inv in H1 as [Hv H1]. apply try_inv in H1 as (s2 & c' & H2 & H1).
    apply unpack_inv in H2 as [-> Hu]. apply SM_bind_inv in H1 as (s2 & b & _ & H1). apply check_inv in H1 as [_ H1].
    apply SM_bind_inv in H1 as (s3 & d & _ & H1). apply SM_bind_inv in H1 as (s4 & f & _ & H1).
    apply check_inv in H1 as [_ H1]. apply SM_bind_inv in H1 as (s5 & sn & _ & H1). apply check_inv in H1 as [_ H1].
    injection H1 as _ <-. split; [done|]. apply Z.ltb_ge in Hv. done. }
  destruct (delegateValidation_within (Q := eq []) u tx bc) as [Ho1 Hp1].
  destruct (Hp1 _ _ _ W H1) as (ds1 & <- & M1). pose proof (proj1 (Ho1 _ _ _ W H1)) as W1.
  apply try_inv in H as (s2 & [] & H2 & H). apply updateValidation_inv in H2 as ->.
  exists c. split; [done|]. split; [done|].
  destruct (stake_posts c u v (banned ← GetBanned u;
    if negb banned then updateNextEpochValidatorVoteSet tx bc c ops else ok_ ops)) as [_ Hp].
  { apply within_bind; [apply within_none, GetBanned_posts|]. intros [].
    - apply within_ret.
    - apply updateNextEpoch_rearranges. }
  destruct (Hp _ _ _ W1 H) as (ds & (ds' & -> & R1 & R2 & R3) & M2).
  pose proof (moved_trans _ _ _ _ _ M1 M2) as M. clear M1 M2. split.
  - intros a k. rewrite M. cbn [app]. rewrite !posted_cons, R1, (bool_decide_false ((c, _) = _)) by congruence.
    repeat case_bool_decide; try lia; congruence.
  - intros a d. destruct (R3 a d) as [R4 R5]. rewrite !M. cbn [app]. rewrite !posted_cons, R2, R4.
    rewrite !(bool_decide_false ((u, Coin _) = _)) by congruence.
    rewrite (bool_decide_false ((c, Share _ _) = (a, Share Pending_part _))) by congruence.
    rewrite (bool_decide_false ((c, Share _ _) = (a, Reward_from _))) by congruence.
    rewrite (bool_decide_false ((c, Share _ _) = (a, Share Deposit_part _))) by congruence.
    split; [lia|]. split; [lia|]. repeat case_bool_decide; try lia; congruence.
Qed.

End Delegation.

Module DelegationExamples.
Import StateToy ClientExamples EpochExamples.

(** A concrete contract: the signature is the sender, an address is its 32
    bytes and an amount the byte after it. *)
Definition hexText (b : bytes) : bytes :=
  b ≫= fun x => (fun d => if d <? 10 then 48 + d else 87 + d) <$> [x / 16; x mod 16].

#[export] Instance toyTx : TxLib := {|
  Sender := tx_signature;
  UnpackWithdrawReward b := Ok (take 32 b);
  UnpackRegister b := Ok {| ra_Pubkey := b; ra_Signature := []; ra_Commission := 10 |};
  UnpackDelegate b := Ok (take 32 b);
  UnpackUnDelegate b := Ok {| ua_Candidate := take 32 b; ua_Amount := Z.abs (nth 32 b 0) |};
  UnpackSetCommission b := Ok (nth 0 b 0);
  UnpackEditValidator b := Ok {| ea_Moniker := b; ea_Website := []; ea_Identity := []; ea_Details := [] |};
  CheckConsensusPubKey _ _ _ := None;
  KeyString := hexText |}.

#[export] Instance toyTxLaws : TxLaws toyTx.
Proof. split. intros b args [= <-]. cbn. lia. Qed.

Definition ex_tx (from : bytes) (value : Z) (args : bytes) : Transaction :=
  {| tx_Nonce := 0; tx_GasPrice := 1; tx_Gas := 100000; tx_To := None; tx_Value := value;
     tx_Data := [0; 0; 0; 0] ++ args; tx_Hash := []; tx_signature := from |}.
Definition ex_bc : BlockChain := {| bc_Epoch := Some (ex_epoch 4); bc_db := ∅; bc_Number := 450 |}.

(** bob registers, alice delegates twice and takes 20 back. *)
Definition tx_register : Transaction := ex_tx bob minimumRegisterAmount (replicate 128 7).
Definition tx_delegate (v : Z) : Transaction := ex_tx alice v bob.
Definition tx_undelegate (v : Z) : Transaction := ex_tx alice 0 (bob ++ [v]).
Definition tx_unregister : Transaction := ex_tx bob 0 [].

Definition ex_rich : StateDB :=
  state_of ex_new ((AddBalance alice 1000 ;; AddBalance bob (2 * minimumRegisterAmount) ;; Finalise true) ex_new).
Definition ex_registered : StateDB := state_of ex_new (registerApplyCb tx_register ex_bc [] ex_rich).
Definition ex_delegated : StateDB :=
  state_of ex_new ((delegateApplyCb (tx_delegate 50) ex_bc [] ;; Finalise true) ex_registered).
Definition ex_deposited : StateDB :=
  state_of ex_new ((delegateApplyCb (tx_delegate 30) ex_bc [] ;; Finalise true) ex_delegated).

(** A table without entries. *)
Lemma ex_new_ledger i : ledger ex_new i = 0.
Proof. unfold ledger. assert (view ex_new (fst i) = None) as -> by (unfold view; cbn; rewrite lookup_empty; done). done. Qed.
Lemma ex_new_swf : swf ex_new.
Proof. apply (New_swf (L := toyLib) toy_empty). reflexivity. Qed.
Lemma ex_new_books : books ex_new 0.
Proof.
  split; [|intros u|intros a]; unfold supply; rewrite ?ex_new_ledger; apply total_is_zero; intros x;
    rewrite !ex_new_ledger; lia.
Qed.

(** bob is a candidate, alice has 1000. *)
Definition ex_setup : SM unit := AddBalance alice 1000 ;; ApplyForCandidate bob (hexText (replicate 128 7)) 10.
Definition ex_start : StateDB := state_of ex_new (ex_setup ex_new).
Lemma ex_start_run : ex_setup ex_new = Ret (ex_start, tt).
Proof. apply run_state. vm_compute. reflexivity. Qed.
Lemma ex_start_ok : swf ex_start /\ books ex_start 1000.
Proof.
  assert (posts ex_setup (fun _ ds => balanced 1000 ds)) as [Ho Hp].
  { eapply posts_weaken; [|apply posts_seq; [apply AddBalance_posts|apply ApplyForCandidate_posts]].
    intros x ds (d & -> & ->). balance. }
  pose proof ex_start_run as H. split; [eapply Ho; [apply ex_new_swf|exact H]|].
  destruct (Hp _ _ _ ex_new_swf H) as (ds & Hb & M). apply (balanced_books 1000 ds ex_new ex_start 0 Hb M ex_new_books).
Qed.

(** alice delegates 50 and takes 20 back; the second is done at once, and a
    third transaction is refused. *)
Definition ex_calls : list (call * (Transaction * BlockChain * PendingOps)) :=
  [(CDelegateTo, (tx_delegate 50, ex_bc, [])); (CUnDelegate, (tx_undelegate 20, ex_bc, []));
   (CUnDelegate, (tx_undelegate 31, ex_bc, []))].
Definition ex_end : StateDB := state_of ex_new (applyAll ex_calls ex_start).

Definition is_ok {A} (r : result string A) : bool := match r with Ok _ => true | Err _ => false end.

Lemma delegation_keeps_books_witness :
  books ex_end 1000 /\ ledger ex_end (alice, Coin CBalance) = 970 /\ ledger ex_end (bob, Share Proxied_part alice) = 30
  /\ option_map (map is_ok) (ans (applyAll ex_calls ex_start)) = Some [true; true; false].
Proof.
  split; [|vm_compute; repeat split; reflexivity]. destruct ex_start_ok as [W B].
  eapply (delegation_keeps_books ex_calls ex_start ex_end 1000); [exact W|exact B|].
  apply run_state. vm_compute. reflexivity.
Defined.

(** alice has 30 that are deposited and 50 that are not, and takes 60 back. *)
Definition ex_staked_setup : SM unit :=
  AddProxiedBalanceByUser bob alice 50 ;; AddDepositProxiedBalanceByUser bob alice 30 ;; AddDelegateBalance alice 80.
Definition ex_staked : StateDB := state_of ex_new (ex_staked_setup ex_new).
Lemma ex_staked_swf : swf ex_staked.
Proof.
  assert (posts ex_staked_setup (fun _ _ => True)) as [Ho _].
  { eapply posts_weaken; [done|]. apply posts_seq; [apply AddProxied_posts|].
    apply posts_seq; [apply AddDepositProxied_posts|apply AddDelegateBalance_posts]. }
  eapply (Ho ex_new ex_staked tt ex_new_swf). apply run_state. vm_compute. reflexivity.
Qed.
Definition ex_taken : StateDB := state_of ex_new (unDelegateApplyCb (tx_undelegate 60) ex_bc [] ex_staked).

Lemma unDelegate_takes_back_witness :
  ledger ex_taken (bob, Share Proxied_part alice) = 0 /\ ledger ex_taken (bob, Share Pending_part alice) = 10
  /\ ledger ex_taken (alice, Coin CBalance) = 50.
Proof.
  destruct (unDelegate_takes_back (tx_undelegate 60) ex_bc [] [] ex_staked ex_taken {| ua_Candidate := bob; ua_Amount := 60 |})
    as (H1 & _ & H2 & _ & H3 & _).
  - exact ex_staked_swf.
  - reflexivity.
  - vm_compute. discriminate.
  - vm_compute. discriminate.
  - apply run_state. vm_compute. reflexivity.
  - split; [|split]; (etransitivity; [first [exact H1 | exact H2 | exact H3]|vm_compute; reflexivity]).
Defined.

Definition ex_staked_more : StateDB := state_of ex_new (delegateApplyCb (tx_delegate 50) ex_bc [] ex_start).
Lemma delegate_adds_share_witness :
  ledger ex_staked_more (alice, Coin CBalance) = 950 /\ ledger ex_staked_more (bob, Share Proxied_part alice)
    + ledger ex_staked_more (bob, Share Deposit_part alice) = 50.
Proof.
  assert (exists ops, delegateApplyCb (tx_delegate 50) ex_bc [] ex_start = Ret (ex_staked_more, Ok ops)) as (ops & H).
  { eexists. apply run_state. vm_compute. reflexivity. }
  destruct (delegate_adds_share (tx_delegate 50) ex_bc [] ops ex_start ex_staked_more (proj1 ex_start_ok) H)
    as (c & Hc & _ & Hb & Hs). injection Hc as <-. destruct (Hs bob alice) as (_ & _ & Hs').
  split; (etransitivity; [first [exact (Hb alice CBalance) | exact Hs']|vm_compute; reflexivity]).
Defined.

(** A refund that waits is asked for again when the candidate leaves: alice has
    deposited 80 and takes 20 back, then bob unregisters, and 100 wait to be
    refunded to alice. *)
Definition ex_pending : StateDB :=
  state_of ex_new ((unDelegateApplyCb (tx_undelegate 20) ex_bc [] ;; Finalise true) ex_deposited).
Definition ex_left : StateDB := state_of ex_new (unRegisterApplyCb tx_unregister ex_bc [] ex_pending).

Theorem unregister_refunds_twice :
  option_map is_ok (ans (unRegisterApplyCb tx_unregister ex_bc [] ex_pending)) = Some true
  /\ ledger ex_pending (bob, Share Pending_part alice) = 20
  /\ ledger ex_left (bob, Share Deposit_part alice) = 80 /\ ledger ex_left (bob, Share Pending_part alice) = 100.
Proof. vm_compute. repeat split; reflexivity. Qed.

End DelegationExamples.
