(* ===== verification/EpochSwitch.v ===== *)
(** * Block rewards and the end of an epoch

    What the engine does with the state at the end of a block
    (chain/consensus/tendermint/engine.go, Finalize and accumulateRewards): the
    reward of the block and its fees are shared between the proposer and its
    delegators; at the last block of an epoch the refunds that wait are paid,
    the validators are weighed again by their stakes and elected by the votes,
    and the stakes of those who enter or leave are moved
    (ShouldEnterNewEpoch of chain/consensus/tendermint/epoch/epoch.go). *)
From S2P Require Import Prelude Rlp StateData StateDB StateObs StateRevert StateClient StateShares StateLedger BitArray TmTypes ValidatorSet Epoch PendingOps SideChains Delegation.
Local Open Scope Z_scope.

(** ** Floating-point numbers (math/big.Float)

    A finite number is [m * 2 ^ e] with [m] rounded to [prec] bits, to the
    nearest and ties to even, which is the zero value of the rounding mode. *)
Inductive Float :=
  | Fin (prec m e : Z)
  | Inf (prec : Z).

Definition Float_prec (x : Float) : Z := match x with Fin p _ _ | Inf p => p end.

(** [a / b] for [a >= 0] and [b > 0], divided by [2 ^ e]. *)
Definition scaled (a b e : Z) : Z * Z := if 0 <=? e then (a, b * 2 ^ e) else (a * 2 ^ (- e), b).

Definition nearestEven (n d : Z) : Z :=
  let q := n / d in
  let r := n mod d in
  if 2 * r <? d then q
  else if d <? 2 * r then q + 1
  else if Z.even q then q else q + 1.

(** The exponent for which the quotient has [p] bits before the point. *)
Definition exponent (p a b : Z) : Z :=
  let e := BitLen a - BitLen b - p in
  let '(n, d) := scaled a b e in
  if 2 ^ p <=? n / d then e + 1 else e.

Definition roundQuo (p a b : Z) : Z * Z :=
  if a =? 0 then (0, 0)
  else
    let e := exponent p a b in
    let '(n, d) := scaled a b e in
    (nearestEven n d, e).

Definition Float_SetInt (x : Z) : Float := Fin (Z.max (BitLen x) 64) x 0.

Definition Float_Quo (x y : Float) : outcome Float :=
  let p := Z.max (Float_prec x) (Float_prec y) in
  match x, y with
  | Fin _ m e, Fin _ m' e' =>
      if m' =? 0 then
        if m =? 0 then Panic "division of zero by zero or infinity by infinity" else Ret (Inf p)
      else
        let '(q, f) := roundQuo p (Z.abs m) (Z.abs m') in
        Ret (Fin p (Z.sgn m * Z.sgn m' * q) (f + e - e'))
  | Fin _ _ _, Inf _ => Ret (Fin p 0 0)
  | Inf _, Fin _ _ _ => Ret (Inf p)
  | Inf _, Inf _ => Panic "division of zero by zero or infinity by infinity"
  end.

Definition Float_Mul (x y : Float) : outcome Float :=
  let p := Z.max (Float_prec x) (Float_prec y) in
  match x, y with
  | Fin _ m e, Fin _ m' e' =>
      let '(q, f) := roundQuo p (Z.abs (m * m')) 1 in
      Ret (Fin p (Z.sgn (m * m') * q) (f + e + e'))
  | Fin _ m _, Inf _ | Inf _, Fin _ m _ =>
      if m =? 0 then Panic "multiplication of zero with infinity" else Ret (Inf p)
  | Inf _, Inf _ => Ret (Inf p)
  end.

(** [x.Int(z)] truncates; an infinity leaves [z] as it is. *)
Definition Float_Int (x : Float) (z : Z) : Z :=
  match x with
  | Fin _ m e => if 0 <=? e then m * 2 ^ e else Z.quot m (2 ^ (- e))
  | Inf _ => z
  end.

(** The share of [part] in [whole] of an amount. *)
Definition floatShare (amount part whole : Z) : outcome Z :=
  percent ← Float_Quo (Float_SetInt part) (Float_SetInt whole);
  x ← Float_Mul (Float_SetInt amount) percent;
  Ret (Float_Int x 0).

Definition sideChainRewardAddress : bytes := BytesToHash (str_bytes "LigooND9QsiAFbMan5tqVg899qAv2EsQ").

Section Switch.
Context {L : TrieLib} `{EC : EpochCodec} `{C : CryptoLib} `{SS : SliceSort} `{IC : ChainInfoCodec}.

(** ** Rewards *)

(** The reward of the proposer; on a side chain it is taken from the reward
    account as far as that goes. *)
Definition blockReward (mainChain : bool) (ep : option Epoch) (totalGasFee : Z) : SM Z :=
  if mainChain then
    match ep with
    | None => panicS "nil pointer dereference"
    | Some ep =>
      mret (if 0 <? ep_RewardPerBlock ep then ep_RewardPerBlock ep + totalGasFee else totalGasFee)
    end
  else
    rewardPerBlock ← GetSideChainRewardPerBlock;
    match rewardPerBlock with
    | None => mret totalGasFee
    | Some rewardPerBlock =>
      if 0 <? rewardPerBlock then
        sideChainRewardBalance ← GetBalance sideChainRewardAddress;
        let rewardPerBlock := if sideChainRewardBalance <? rewardPerBlock then sideChainRewardBalance else rewardPerBlock in
        SubBalance sideChainRewardAddress rewardPerBlock ;;
        mret (rewardPerBlock + totalGasFee)
      else mret totalGasFee
    end.

(** The part of the proposer and, when it has delegators, theirs. *)
Definition splitReward (coinbaseReward selfDeposit totalProxiedDeposit commission : Z) : outcome (Z * option Z) :=
  if totalProxiedDeposit =? 0 then Ret (coinbaseReward, None)
  else
    selfReward ← floatShare coinbaseReward selfDeposit (selfDeposit + totalProxiedDeposit);
    let delegateReward := coinbaseReward - selfReward in
    if 0 <? commission then
      let commissionReward := Z.quot (delegateReward * commission) 100 in
      Ret (selfReward + commissionReward, Some (delegateReward - commissionReward))
    else Ret (selfReward, Some delegateReward).

Definition shareReward (Coinbase : bytes) (coinbaseReward selfDeposit totalProxiedDeposit commission : Z) : SM unit :=
  rewards ← liftS (splitReward coinbaseReward selfDeposit totalProxiedDeposit commission);
  AddRewardBalanceByDelegateAddress Coinbase Coinbase (fst rewards) ;;
  match snd rewards with
  | None => mret tt
  | Some delegateReward =>
    if 0 <? delegateReward then
      totalIndividualReward ← ForEachProxied Coinbase (fun total key _ depositProxiedBalance _ =>
        if 0 <? depositProxiedBalance then
          let individualReward := Z.quot (depositProxiedBalance * delegateReward) totalProxiedDeposit in
          AddRewardBalanceByDelegateAddress key Coinbase individualReward ;;
          mret (total + individualReward)
        else mret total) 0;
      if totalIndividualReward <? delegateReward then
        AddRewardBalanceByDelegateAddress Coinbase Coinbase (delegateReward - totalIndividualReward)
      else if delegateReward <? totalIndividualReward then
        SubRewardBalanceByDelegateAddress Coinbase Coinbase (totalIndividualReward - delegateReward)
      else mret tt
    else mret tt
  end.

Definition accumulateRewards (mainChain : bool) (Coinbase : bytes) (ep : option Epoch) (totalGasFee : Z) : SM unit :=
  coinbaseReward ← blockReward mainChain ep totalGasFee;
  selfDeposit ← GetDepositBalance Coinbase;
  totalProxiedDeposit ← GetTotalDepositProxiedBalance Coinbase;
  commission ← (if totalProxiedDeposit =? 0 then mret 0 else GetCommission Coinbase);
  shareReward Coinbase coinbaseReward selfDeposit totalProxiedDeposit commission.

(** ** The end of an epoch *)

(** The refunds that wait at an address, and the commission of an address that
    is not a candidate any more. *)
Definition payRefunds (refundAddress : bytes) : SM unit :=
  ForEachProxied refundAddress (fun _ key _ _ pendingRefundBalance =>
    if 0 <? pendingRefundBalance then
      SubDepositProxiedBalanceByUser refundAddress key pendingRefundBalance ;;
      SubPendingRefundBalanceByUser refundAddress key pendingRefundBalance ;;
      SubDelegateBalance key pendingRefundBalance ;;
      AddBalance key pendingRefundBalance
    else mret tt) tt ;;
  isCandidate ← IsCandidate refundAddress;
  if negb isCandidate then ClearCommission refundAddress else mret tt.

Definition stakeOf (vAddr : bytes) : SM Z :=
  proxied ← GetTotalProxiedBalance vAddr;
  deposited ← GetTotalDepositProxiedBalance vAddr;
  own ← GetDepositBalance vAddr;
  mret (proxied + deposited + own).

Definition netStakeOf (vAddr : bytes) : SM Z :=
  proxied ← GetTotalProxiedBalance vAddr;
  deposited ← GetTotalDepositProxiedBalance vAddr;
  pending ← GetTotalPendingRefundBalance vAddr;
  own ← GetDepositBalance vAddr;
  mret (proxied + deposited - pending + own).

(** The loop that weighs the validators: it goes on at the same index after a
    validator is removed, so each round leaves fewer to look at and their
    number is enough fuel. *)
Fixpoint weigh (power : bytes -> SM Z) (fuel i : nat) (validators : ValidatorSet) : SM ValidatorSet :=
  match fuel with
  | O => mret validators
  | S fuel' =>
    match vals validators !! i with
    | None => mret validators
    | Some v =>
      newVotingPower ← power (BytesToHash (val_Address v));
      if newVotingPower =? 0 then weigh power fuel' i (fst (ValidatorSet_Remove validators (val_Address v)))
      else
        weigh power fuel' (S i)
          {| Validators := Some (<[i := val_set_power v newVotingPower]> (vals validators));
             totalVotingPower := totalVotingPower validators |}
    end
  end.

Definition reweigh (power : bytes -> SM Z) (validators : ValidatorSet) : SM ValidatorSet :=
  weigh power (length (vals validators)) 0 validators.

(** The stakes of a candidate with a seat are deposited. *)
Definition depositStakes (vAddr : bytes) : SM unit :=
  isCandidate ← IsCandidate vAddr;
  proxied ← (if (isCandidate : bool) then GetTotalProxiedBalance vAddr else mret 0);
  if (isCandidate : bool) && (0 <? proxied) then
    ForEachProxied vAddr (fun _ key proxiedBalance _ _ =>
      if 0 <? proxiedBalance then
        SubProxiedBalanceByUser vAddr key proxiedBalance ;;
        AddDepositProxiedBalanceByUser vAddr key proxiedBalance
      else mret tt) tt
  else mret tt.

(** A validator with fewer votes gets the difference back; the stakes of one
    without a seat are not deposited any more. *)
Definition payRefund (r : RefundValidatorAmount) : SM unit :=
  let addr := rf_Address r in
  if negb (rf_Voteout r) then
    match rf_Amount r with
    | None => panicS "nil pointer dereference"
    | Some amount => SubDepositBalance addr amount ;; AddBalance addr amount
    end
  else
    isCandidate ← IsCandidate addr;
    (if (isCandidate : bool) then
       ForEachProxied addr (fun _ key _ depositProxiedBalance _ =>
         if 0 <? depositProxiedBalance then
           SubDepositProxiedBalanceByUser addr key depositProxiedBalance ;;
           AddProxiedBalanceByUser addr key depositProxiedBalance
         else mret tt) tt
     else mret tt) ;;
    depositBalance ← GetDepositBalance addr;
    SubDepositBalance addr depositBalance ;;
    AddBalance addr depositBalance.

(** After the refunds: the validators of the next epoch and their stakes. *)
Definition electValidators (epoch next : Epoch) : SM ValidatorSet :=
  let nextEpochVoteSet :=
    default NewEpochValidatorVoteSet (EpochValidatorVoteSet_Copy (ep_validatorVoteSet next)) in
  newValidators ← reweigh stakeOf (ValidatorSet_Copy (ep_Validators epoch));
  let '(newValidators, refunds) := updateEpochValidatorSet newValidators (Some nextEpochVoteSet) in
  forS (fun v => depositStakes (BytesToHash (val_Address v))) (vals newValidators) ;;
  forS payRefund refunds ;;
  mret newValidators.

(** Go ranges over the refund set in any order: [order] lists its members. *)
Definition ShouldEnterNewEpoch (order : gset bytes -> list bytes) (db : gmap string bytes) (epoch : Epoch) (height : Z)
    : SM (Epoch * result string (option ValidatorSet)) :=
  if height =? ep_EndBlock epoch then
    let '(next, epoch) := GetNextEpoch db epoch in
    match next with
    | None => mret (epoch, Err "next epoch parameters do not exist, fatal error"%string)
    | Some next =>
      refundSet ← GetDelegateAddressRefundSet;
      forS payRefunds (order (members refundSet)) ;;
      ClearDelegateRefundSet ;;
      newValidators ← electValidators epoch next;
      mret (epoch, Ok (Some newValidators))
    end
  else mret (epoch, Ok None).

(** The result is not used but for its validators, which the caller passes in
    and reads afterwards. *)
Definition DryRunUpdateEpochValidatorSet (validators : ValidatorSet) (voteSet : option EpochValidatorVoteSet)
    : SM ValidatorSet :=
  validators ← reweigh netStakeOf validators;
  mret (fst (updateEpochValidatorSet validators (Some (default NewEpochValidatorVoteSet voteSet)))).

(** ** The end of a block *)

(** The main chain first settles the side chains that wait; an operation that
    conflicts with an earlier one is dropped. *)
Definition launchOps (infoDB : InfoDB) (Number : Z) (ops : PendingOps) : SM PendingOps :=
  r ← GetSideChainForLaunch infoDB Number;
  let '(readyId, updateBytes, removedId) := r in
  mret (if (0 <? length readyId)%nat || is_some updateBytes || (0 <? length removedId)%nat
        then fst (Append ops (LaunchSideChainsOp readyId updateBytes removedId)) else ops).

Definition finishBlock (order : gset bytes -> list bytes) (mainChain : bool) (ChainId : bytes)
    (infoDB : InfoDB) (db : gmap string bytes) (current : Epoch) (Number : Z) (Coinbase : bytes)
    (totalGasFee : Z) (ops : PendingOps) : SM (Epoch * PendingOps) :=
  ops ← (if mainChain then launchOps infoDB Number ops else mret ops);
  let epoch := GetEpochByBlockNumber (S (Z.to_nat (ep_Number current))) db current Number in
  accumulateRewards mainChain Coinbase epoch totalGasFee ;;
  match epoch with
  | None => panicS "nil pointer dereference"
  | Some epoch =>
    r ← ShouldEnterNewEpoch order db epoch Number;
    match snd r with
    | Ok (Some newValidators) => mret (fst r, fst (Append ops (SwitchEpochOp ChainId newValidators)))
    | _ => mret (fst r, ops)
    end
  end.

(** Finalize returns the block with the root of the state in its header. *)
Definition Finalize (order : gset bytes -> list bytes) (mainChain isEIP158 : bool) (ChainId : bytes)
    (infoDB : InfoDB) (db : gmap string bytes) (current : Epoch) (Number : Z) (Coinbase : bytes)
    (totalGasFee : Z) (ops : PendingOps) : SM (Epoch * PendingOps * bytes) :=
  r ← finishBlock order mainChain ChainId infoDB db current Number Coinbase totalGasFee ops;
  root ← IntermediateRoot isEIP158;
  mret (r, root).

End Switch.

(** ** Proofs: the share of the proposer *)
Lemma scaled_max a b e : scaled a b e = (a * 2 ^ Z.max 0 (- e), b * 2 ^ Z.max 0 e).
Proof.
  unfold scaled. destruct (Z.leb_spec 0 e).
  - rewrite (Z.max_l 0 (- e)), (Z.max_r 0 e) by lia. f_equal. lia.
  - rewrite (Z.max_r 0 (- e)), (Z.max_l 0 e) by lia. f_equal. lia.
Qed.

(** The quotient has at least [p] bits before the point. *)
Lemma exponent_low p a b : 0 < p -> 0 < a -> 0 < b ->
  2 ^ (p - 1) * (b * 2 ^ Z.max 0 (exponent p a b)) <= a * 2 ^ Z.max 0 (- exponent p a b).
Proof.
  intros Hp Ha Hb. destruct (BitLen_bounds a Ha) as (A0 & A1 & A2), (BitLen_bounds b Hb) as (B0 & B1 & B2).
  unfold exponent. set (e := BitLen a - BitLen b - p). rewrite scaled_max. cbv zeta iota beta.
  assert (2 ^ (p - 1) * (b * 2 ^ Z.max 0 e) <= a * 2 ^ Z.max 0 (- e)) as Hlow.
  { destruct (Z.le_ge_cases 0 e) as [He|He].
    - rewrite (Z.max_r 0 e), (Z.max_l 0 (- e)), Z.mul_1_r by lia.
      assert (2 ^ (p - 1) * 2 ^ e * 2 ^ BitLen b = 2 ^ (BitLen a - 1)) as E by (rewrite <- !Z.pow_add_r by lia; f_equal; lia).
      assert (0 < 2 ^ (p - 1) * 2 ^ e) by (apply Z.mul_pos_pos; apply Z.pow_pos_nonneg; lia). nia.
    - rewrite (Z.max_l 0 e), (Z.max_r 0 (- e)), Z.mul_1_r by lia.
      assert (2 ^ (BitLen a - 1) * 2 ^ (- e) = 2 ^ (p - 1) * 2 ^ BitLen b) as E by (rewrite <- !Z.pow_add_r by lia; f_equal; lia).
      assert (0 < 2 ^ (p - 1)) by (apply Z.pow_pos_nonneg; lia). assert (0 < 2 ^ (- e)) by (apply Z.pow_pos_nonneg; lia). nia. }
  destruct (Z.leb_spec (2 ^ p) (a * 2 ^ Z.max 0 (- e) / (b * 2 ^ Z.max 0 e))) as [Hbig|_]; [|exact Hlow].
  assert (0 < b * 2 ^ Z.max 0 e) as Hd by (apply Z.mul_pos_pos; [done|apply Z.pow_pos_nonneg; lia]).
  assert (2 ^ p * (b * 2 ^ Z.max 0 e) <= a * 2 ^ Z.max 0 (- e)) as Hn.
  { pose proof (Z.mul_div_le (a * 2 ^ Z.max 0 (- e)) _ Hd). nia. }
  assert (2 ^ p = 2 * 2 ^ (p - 1)) as Hp2 by (rewrite <- Z.pow_succ_r by lia; f_equal; lia).
  destruct (Z.le_gt_cases 0 e) as [He|He].
  - rewrite (Z.max_r 0 (e + 1)), (Z.max_l 0 (- (e + 1))), Z.pow_add_r by lia.
    rewrite (Z.max_r 0 e), (Z.max_l 0 (- e)) in Hn by lia. nia.
  - rewrite (Z.max_l 0 (e + 1)), (Z.max_r 0 (- (e + 1))) by lia. rewrite (Z.max_l 0 e), (Z.max_r 0 (- e)) in Hn by lia.
    assert (2 ^ (- e) = 2 * 2 ^ (- (e + 1))) as E by (rewrite <- Z.pow_succ_r by lia; f_equal; lia). nia.
Qed.

Lemma nearestEven_bounds n d k : 0 < d -> 0 <= n <= k * d -> 0 <= nearestEven n d <= k.
Proof.
  intros Hd [H0 Hk]. pose proof (Z.div_mod n d ltac:(lia)). pose proof (Z.mod_pos_bound n d Hd).
  assert (0 <= n / d) by (apply Z.div_pos; lia).
  unfold nearestEven. destruct (Z.ltb_spec (2 * (n mod d)) d); [nia|].
  assert (n / d + 1 <= k) by nia. destruct (_ <? _); [lia|]. destruct (Z.even _); lia.
Qed.

(** Rounding does not go above a number that needs no rounding. *)
Lemma roundQuo_bounds p a b c k m e :
  0 < p -> 0 <= a -> 0 < b -> 0 <= k -> 0 <= c < 2 ^ p -> a <= c * 2 ^ k * b -> roundQuo p a b = (m, e) ->
  e <= k /\ 0 <= m <= c * 2 ^ (k - e).
Proof.
  intros Hp Ha Hb Hk Hc Hle H. unfold roundQuo in H. destruct (Z.eqb_spec a 0) as [->|Ha0].
  { injection H as <- <-. split; [lia|]. split; [lia|]. apply Z.mul_nonneg_nonneg; [lia|]. apply Z.pow_nonneg. lia. }
  pose proof (exponent_low p a b Hp ltac:(lia) Hb) as Hlow. set (f := exponent p a b) in *.
  cbv zeta in H. rewrite scaled_max in H. injection H as <- <-.
  assert (f <= k) as Hf.
  { destruct (Z.le_gt_cases f k) as [|Hf]; [done|exfalso]. rewrite (Z.max_r 0 f), (Z.max_l 0 (- f)), Z.mul_1_r in Hlow by lia.
    assert (2 ^ p * 2 ^ k <= 2 ^ (p - 1) * 2 ^ f) by (rewrite <- !Z.pow_add_r by lia; apply Z.pow_le_mono_r; lia).
    assert (0 < 2 ^ k) by (apply Z.pow_pos_nonneg; lia). assert (c * 2 ^ k < 2 ^ p * 2 ^ k) by nia. nia. }
  split; [done|]. apply nearestEven_bounds; [apply Z.mul_pos_pos; [done|apply Z.pow_pos_nonneg; lia]|].
  split; [apply Z.mul_nonneg_nonneg; [done|apply Z.pow_nonneg; lia]|].
  destruct (Z.le_ge_cases 0 f) as [H0|H0].
  - rewrite (Z.max_r 0 f), (Z.max_l 0 (- f)), Z.mul_1_r by lia.
    assert (2 ^ k = 2 ^ (k - f) * 2 ^ f) as E by (rewrite <- Z.pow_add_r by lia; f_equal; lia). rewrite E in Hle. lia.
  - rewrite (Z.max_l 0 f), (Z.max_r 0 (- f)), Z.mul_1_r by lia.
    assert (2 ^ (k - f) = 2 ^ k * 2 ^ (- f)) as E by (rewrite <- Z.pow_add_r by lia; f_equal; lia). rewrite E.
    assert (0 < 2 ^ (- f)) by (apply Z.pow_pos_nonneg; lia). nia.
Qed.

Lemma Float_Mul_share amount p m e : 0 <= amount -> 0 < p -> e <= 0 -> 0 <= m <= 2 ^ (- e) ->
  exists x, Float_Mul (Float_SetInt amount) (Fin p m e) = Ret x /\ 0 <= Float_Int x 0 <= amount.
Proof.
  intros Ha Hp He Hm. cbn [Float_Mul Float_SetInt Float_prec]. set (q := Z.max (Z.max (BitLen amount) 64) p).
  destruct (roundQuo q (Z.abs (amount * m)) 1) as [r f] eqn:Hr. eexists. split; [reflexivity|].
  assert (0 <= amount * m) as Hnn by (apply Z.mul_nonneg_nonneg; lia). rewrite Z.abs_eq in Hr by done.
  assert (amount < 2 ^ q) as Hq.
  { eapply Z.lt_le_trans; [by apply BitLen_lt|]. apply Z.pow_le_mono_r; lia. }
  destruct (roundQuo_bounds q (amount * m) 1 amount (- e) r f) as [Hf Hr2]; try lia; [nia|exact Hr|].
  cbn [Float_Int]. assert (Z.sgn (amount * m) * r = r) as ->.
  { destruct (Z.eq_dec (amount * m) 0) as [E|E]; [|rewrite Z.sgn_pos by lia; lia].
    rewrite E in Hr. injection Hr as <- _. lia. }
  destruct (Z.leb_spec 0 (f + 0 + e)) as [H0|H0].
  - replace (f + 0 + e) with 0 by lia. replace (- e - f) with 0 in Hr2 by lia. lia.
  - replace (- (f + 0 + e)) with (- e - f) by lia. assert (0 < 2 ^ (- e - f)) by (apply Z.pow_pos_nonneg; lia).
    rewrite Z.quot_div_nonneg by lia. split; [apply Z.div_pos; lia|].
    apply Z.div_le_upper_bound; [done|]. lia.
Qed.

(** The part of a block reward that the proposer keeps for its own deposit,
    computed with floating-point numbers, is never negative and never more than
    the reward, whatever the amounts. *)
Theorem floatShare_bounds amount part whole :
  0 <= amount -> 0 <= part <= whole -> 0 < whole ->
  exists share, floatShare amount part whole = Ret share /\ 0 <= share <= amount.
Proof.
  intros Ha Hp Hw. unfold floatShare.
  set (q := Z.max (Z.max (BitLen part) 64) (Z.max (BitLen whole) 64)).
  destruct (roundQuo q part whole) as [m e] eqn:Hr.
  assert (Float_Quo (Float_SetInt part) (Float_SetInt whole) = Ret (Fin q m e)) as ->.
  { cbn [Float_Quo Float_SetInt Float_prec]. fold q. rewrite (Z.abs_eq part), (Z.abs_eq whole), Hr, (Z.sgn_pos whole) by lia.
    assert (Z.sgn part * 1 * m = m) as Hs.
    { destruct (Z.eq_dec part 0) as [->|E]; [|rewrite Z.sgn_pos by lia; lia]. injection Hr as <- _. done. }
    rewrite Hs. destruct (Z.eqb_spec whole 0); [lia|]. do 2 f_equal. lia. }
  rewrite outcome_bind_Ret.
  assert (2 ^ 0 < 2 ^ q) as Hq by (apply Z.pow_lt_mono_r; lia).
  destruct (roundQuo_bounds q part whole 1 0 m e) as [He Hm]; try lia; [exact Hr|].
  destruct (Float_Mul_share amount q m e) as (x & -> & Hx); try lia.
  { replace (- e) with (0 - e) by lia. lia. }
  exists (Float_Int x 0). done.
Qed.

(** ** Proofs: the books *)
Section Books.
Context {L : TrieLib} {LL : TrieLaws L} `{EC : EpochCodec} `{C : CryptoLib} `{SS : SliceSort} `{IC : ChainInfoCodec}.

(** The two parts make up the reward, and the delegators get no negative one. *)
Lemma splitReward_sum reward own deposited commission :
  0 <= reward -> 0 <= own -> 0 <= deposited -> commission <= 100 ->
  exists self rest, splitReward reward own deposited commission = Ret (self, rest)
    /\ self + default 0 rest = reward /\ 0 <= default 0 rest.
Proof.
  intros Hr Ho Hd Hc. unfold splitReward. destruct (Z.eqb_spec deposited 0).
  { exists reward, None. cbn. split_and!; [done|lia|done]. }
  destruct (floatShare_bounds reward own (own + deposited)) as (share & -> & Hs); [lia..|].
  rewrite outcome_bind_Ret. cbv zeta. destruct (Z.ltb_spec 0 commission).
  - assert (0 <= (reward - share) * commission ÷ 100 <= reward - share) as Hq.
    { rewrite Z.quot_div_nonneg by nia. split; [apply Z.div_pos; nia|apply Z.div_le_upper_bound; nia]. }
    do 2 eexists. split; [reflexivity|]. cbn. lia.
  - do 2 eexists. split; [reflexivity|]. cbn. lia.
Qed.

Lemma reward_balanced a u v : balanced v (reward_entries a u v).
Proof. balance. Qed.

Lemma AddReward_creates a u v : posts (AddRewardBalanceByDelegateAddress a u v) (fun _ => balanced v).
Proof. eapply posts_weaken; [|apply AddReward_posts]. intros x ds ->. apply reward_balanced. Qed.

Lemma settle_creates a u have want :
  posts (if have <? want then AddRewardBalanceByDelegateAddress a u (want - have)
         else if want <? have then SubRewardBalanceByDelegateAddress a u (have - want) else mret tt)
    (fun _ => balanced (want - have)).
Proof.
  destruct (Z.ltb_spec have want); [apply AddReward_creates|]. destruct (Z.ltb_spec want have).
  - eapply posts_weaken; [|apply SubReward_posts]. intros x ds ->.
    replace (want - have) with (- (have - want)) by lia. apply reward_balanced.
  - apply posts_ret. replace (want - have) with 0 by lia. apply balanced_nil.
Qed.

Lemma shareReward_creates Coinbase reward own deposited commission :
  0 <= reward -> 0 <= own -> 0 <= deposited -> commission <= 100 ->
  posts (shareReward Coinbase reward own deposited commission) (fun _ => balanced reward).
Proof.
  intros Hr Ho Hd Hc. destruct (splitReward_sum reward own deposited commission) as (self & rest & Hsplit & Hsum & Hnn); try done.
  unfold shareReward. rewrite Hsplit.
  change (posts (AddRewardBalanceByDelegateAddress Coinbase Coinbase self ;; match rest with
    | None => mret tt | Some d => if 0 <? d then
      total ← ForEachProxied Coinbase (fun total key _ deposit _ =>
        if 0 <? deposit then AddRewardBalanceByDelegateAddress key Coinbase (deposit * d ÷ deposited) ;;
          mret (total + deposit * d ÷ deposited)
        else mret total) 0;
      if total <? d then AddRewardBalanceByDelegateAddress Coinbase Coinbase (d - total)
      else if d <? total then SubRewardBalanceByDelegateAddress Coinbase Coinbase (total - d) else mret tt
      else mret tt end) (fun _ => balanced reward)).
  eapply (posts_bind _ _ _ (fun _ _ => balanced (default 0 rest))); [apply AddReward_creates|intros _|].
  2: { intros x ds y ds' H1 H2. rewrite <- Hsum. by apply balanced_app. }
  destruct rest as [d|]; cbn [default] in *; [|by apply posts_ret].
  destruct (Z.ltb_spec 0 d); [|replace d with 0 by (cbn in Hnn; lia); by apply posts_ret].
  eapply (posts_bind _ _ (grows balanced 0) (fun total _ => balanced (d - total))).
  - apply ForEachProxied_posts. intros total key x y z. destruct (0 <? y).
    + eapply (posts_bind _ _ _ (fun _ t ds => t = total + y * d ÷ deposited /\ ds = []));
        [apply AddReward_creates|intros _; by apply posts_ret|].
      intros w ds t ds' Hb [-> Hn] ds0 H0. rewrite Hn, app_nil_r. by apply balanced_app.
    + apply posts_ret. intros ds0 H0. by rewrite app_nil_r.
  - intros total. apply settle_creates.
  - intros total ds y ds' Hg Hb. change (default 0 (Some d)) with d. replace d with (total + (d - total)) by lia.
    apply balanced_app; [apply (Hg []), balanced_nil|done].
Qed.

(** The coins that appear with a block: the reward of the epoch on the main
    chain, and the fees, which were taken from the senders before. *)
Definition created (mainChain : bool) (ep : option Epoch) (totalGasFee : Z) : Z :=
  totalGasFee + if mainChain then match ep with Some ep => Z.max 0 (ep_RewardPerBlock ep) | None => 0 end else 0.

(** The numbers of a proposer that the transactions keep in range. *)
Record proposer_ok (s : StateDB) (Coinbase : bytes) : Prop := {
  own_deposit : 0 <= value s FDepositBalance Coinbase;
  proxied_deposit : 0 <= value s FDepositProxiedBalance Coinbase;
  commission_max : value s FCommission Coinbase <= 100 }.

Lemma blockReward_books main ep fee s s' r :
  swf s -> 0 <= fee -> (main = false -> 0 <= value s FBalance sideChainRewardAddress) -> blockReward main ep fee s = Ret (s', r) ->
  step s s' /\ 0 <= r /\ (exists ds, balanced (created main ep fee - r) ds /\ moved ds s s')
  /\ forall g b, g <> FBalance -> value s' g b = value s g b.
Proof.
  intros W Hf Hb H. unfold blockReward, created in *. destruct main.
  { destruct ep as [ep|]; [|done]. injection H as <- <-. split; [by apply step_refl|].
    assert (forall r, fee + Z.max 0 (ep_RewardPerBlock ep) - r = 0 -> exists ds, balanced (fee + Z.max 0 (ep_RewardPerBlock ep) - r) ds /\ moved ds s s) as Hm.
    { intros r ->. exists []. split; [apply balanced_nil|apply moved_refl]. }
    destruct (Z.ltb_spec 0 (ep_RewardPerBlock ep)); (split; [lia|]); (split; [apply Hm; lia|done]). }
  specialize (Hb eq_refl). apply SM_bind_inv in H as (s1 & rpb & H1 & H).
  destruct GetSideChainRewardPerBlock_posts as [Ho1 Hp1]. pose proof (Ho1 _ _ _ W H1) as S1.
  destruct (Hp1 _ _ _ W H1) as (ds1 & -> & M1).
  assert (forall g b, value s1 g b = value s g b) as V1.
  { intros g b. apply calm_value. eapply GetSideChainRewardPerBlock_calm; done. }
  assert (s' = s1 -> r = fee -> step s s' /\ 0 <= r
    /\ (exists ds, balanced (fee + 0 - r) ds /\ moved ds s s') /\ forall g b, g <> FBalance -> value s' g b = value s g b) as Hno.
  { intros -> ->. split_and!; [done|done|exists []|intros; apply V1].
    split; [|done]. replace (fee + 0 - fee) with 0 by lia. apply balanced_nil. }
  destruct rpb as [rpb|]; [|injection H as <- <-; by apply Hno].
  destruct (Z.ltb_spec 0 rpb); [|injection H as <- <-; by apply Hno].
  apply SM_bind_inv in H as (s2 & bal & H2 & H). apply getZ_value in H2 as [-> C2]; [|apply S1]. rewrite V1 in H.
  set (v := if value s FBalance sideChainRewardAddress <? rpb then value s FBalance sideChainRewardAddress else rpb) in *.
  assert (0 <= v) as Hv by (subst v; destruct (_ <? _); lia).
  cbv zeta in H. apply SM_bind_inv in H as (s3 & [] & H3 & H). injection H as <- <-.
  destruct (SubBalance_posts sideChainRewardAddress v) as [Ho3 Hp3].
  destruct (Hp3 _ _ _ (proj1 C2) H3) as (ds3 & -> & M3).
  split_and!; [eapply step_trans; [done|]; eapply step_trans; [apply calm_step, C2|]; eapply Ho3; [apply C2|done]|lia| |].
  - eexists. split; [|eapply moved_trans; [exact M1|]; eapply moved_trans; [apply calm_moved, C2|exact M3]]. balance.
  - intros g b Hg. rewrite (SubBalance_value _ _ _ _ (proj1 C2) H3 g b), (calm_value _ _ _ _ C2), V1.
    rewrite bool_decide_false by congruence. lia.
Qed.

Lemma accumulateRewards_books main Coinbase ep fee s s' t x :
  swf s -> books s t -> 0 <= fee -> proposer_ok s Coinbase ->
  (main = false -> 0 <= value s FBalance sideChainRewardAddress) ->
  accumulateRewards main Coinbase ep fee s = Ret (s', x) -> step s s' /\ books s' (t + created main ep fee).
Proof.
  intros W B Hf [P1 P2 P3] Hb H. apply SM_bind_inv in H as (s1 & r & H1 & H).
  destruct (blockReward_books _ _ _ _ _ _ W Hf Hb H1) as (S1 & Hr & (ds1 & B1 & M1) & V1).
  apply SM_bind_inv in H as (s2 & own & H2 & H). apply getZ_value in H2 as [-> C2]; [|apply S1].
  apply SM_bind_inv in H as (s3 & dep & H3 & H). apply getZ_value in H3 as [-> C3]; [|apply C2].
  rewrite (calm_value _ _ _ _ C2) in H. rewrite !V1 in H by done.
  apply SM_bind_inv in H as (s4 & com & H4 & H).
  assert (com <= 100 /\ calm s3 s4) as [Hc C4].
  { destruct (_ =? 0); [injection H4 as <- <-; split; [lia|apply calm_refl, C3]|].
    apply getZ_value in H4 as [-> C4]; [|apply C3]. split; [|done].
    rewrite (calm_value _ _ _ _ C3), (calm_value _ _ _ _ C2), V1 by done. done. }
  pose proof (calm_trans _ _ _ C2 (calm_trans _ _ _ C3 C4)) as C5.
  destruct (shareReward_creates Coinbase r (value s FDepositBalance Coinbase) (value s FDepositProxiedBalance Coinbase) com)
    as [Ho Hp]; try done.
  destruct (Hp _ _ _ (proj1 C5) H) as (ds & B2 & M2). split.
  - eapply step_trans; [done|]. eapply step_trans; [apply calm_step, C5|]. eapply Ho; [apply C5|done].
  - replace (t + created main ep fee) with (t + (created main ep fee - r) + r) by lia.
    eapply balanced_books; [exact B2|eapply (moved_trans []); [apply calm_moved, C5|exact M2]|].
    eapply balanced_books; done.
Qed.

(** *** The end of an epoch moves coins and creates none *)
Lemma even_refund {B} c u v (k : SM B) : even k ->
  even (SubDepositProxiedBalanceByUser c u v ;; SubPendingRefundBalanceByUser c u v ;; SubDelegateBalance u v ;;
        AddBalance u v ;; k).
Proof.
  intros Hk. do 4 (eapply within_seq; [eauto with posts|]). eapply posts_weaken; [|exact Hk].
  intros x ds H. rewrite !app_assoc. apply balanced_app0; [balance|done].
Qed.
Lemma even_refund_last c u v :
  even (SubDepositProxiedBalanceByUser c u v ;; SubPendingRefundBalanceByUser c u v ;; SubDelegateBalance u v ;;
        AddBalance u v).
Proof.
  do 3 (eapply within_seq; [eauto with posts|]). eapply posts_weaken; [|apply AddBalance_posts]. intros x ds ->. balance.
Qed.
Lemma even_seat c u v : even (SubDepositProxiedBalanceByUser c u v ;; AddProxiedBalanceByUser c u v).
Proof. eapply within_seq; [eauto with posts|]. eapply posts_weaken; [|apply AddProxied_posts]. intros x ds ->. balance. Qed.
Lemma even_own a v : even (SubDepositBalance a v ;; AddBalance a v).
Proof. eapply within_seq; [eauto with posts|]. eapply posts_weaken; [|apply AddBalance_posts]. intros x ds ->. balance. Qed.

Ltac within_group ::=
  match goal with
  | |- within _ (mbind _ (SubProxiedBalanceByUser _ _ _)) => apply even_deposit
  | |- within _ (mbind _ (SubDepositProxiedBalanceByUser _ _ _)) => first [apply even_seat | apply even_refund_last]
  | |- within _ (mbind _ (SubDepositBalance _ _)) => apply even_own
  end.

Lemma payRefunds_even a : even (payRefunds a).
Proof. unfold payRefunds. within_known. Qed.
Lemma depositStakes_even a : even (depositStakes a).
Proof. unfold depositStakes. within_known. Qed.
Lemma payRefund_even r : even (payRefund r).
Proof. unfold payRefund. within_known. Qed.
Lemma weigh_even power fuel i vs : (forall a, even (power a)) -> even (weigh power fuel i vs).
Proof.
  intros Hp. revert i vs. induction fuel as [|fuel IH]; intros i vs; cbn [weigh]; [apply within_ret|].
  destruct (vals vs !! i); [|apply within_ret]. apply within_bind; [apply Hp|]. intros x. destruct (_ =? 0); apply IH.
Qed.
Lemma stakeOf_even a : even (stakeOf a).
Proof. unfold stakeOf. within_known. Qed.
Lemma electValidators_even epoch next : even (electValidators epoch next).
Proof.
  unfold electValidators. apply within_bind; [apply weigh_even, stakeOf_even|]. intros vs.
  destruct (updateEpochValidatorSet _ _) as [vs' refunds].
  apply within_bind; [apply within_forS; intros; apply depositStakes_even|]. intros _.
  apply within_bind; [apply within_forS; intros; apply payRefund_even|]. intros _. apply within_ret.
Qed.

(** The refund set is kept in the account trie under a key that is no account. *)
Lemma ShouldEnterNewEpoch_books order db epoch height s s' t r :
  swf s -> books s t -> loadAccount (s_trie s) (setKey DelegateRefundSet) = None ->
  ShouldEnterNewEpoch order db epoch height s = Ret (s', r) -> swf s' /\ books s' t.
Proof.
  intros W B Hkey H. unfold ShouldEnterNewEpoch in H.
  destruct (height =? ep_EndBlock epoch); [|injection H as <- _; done].
  destruct (GetNextEpoch db epoch) as [[next|] ep']; [|injection H as <- _; done].
  apply SM_bind_inv in H as (s1 & set & H1 & H). apply SM_bind_inv in H as (s2 & [] & H2 & H).
  apply SM_bind_inv in H as (s3 & [] & H3 & H). apply SM_bind_inv in H as (s4 & vs & H4 & H). injection H as <- _.
  assert (even (GetDelegateAddressRefundSet)) as E1 by (apply within_none, getSet_posts).
  assert (even (forS payRefunds (order (members set)))) as E2 by (apply within_forS; intros; apply payRefunds_even).
  destruct (even_books _ _ _ _ _ E1 W B H1) as [W1 B1]. pose proof (proj1 E1 _ _ _ W H1) as S1.
  destruct (even_books _ _ _ _ _ E2 W1 B1 H2) as [W2 B2]. pose proof (proj1 E2 _ _ _ W1 H2) as S2.
  assert (loadAccount (s_trie s2) (setKey DelegateRefundSet) = None) as Hkey2.
  { rewrite (proj1 (proj2 (proj2 S2))), (proj1 (proj2 (proj2 S1))). done. }
  destruct (ClearDelegateRefundSet_moved _ _ _ W2 Hkey2 H3) as [W3 M3].
  assert (books s3 t) as B3.
  { rewrite <- (Z.add_0_r t). eapply balanced_books; [apply balanced_nil|exact M3|done]. }
  eapply even_books; [apply electValidators_even|exact W3|exact B3|exact H4].
Qed.

Definition of_proposer (f : zfield) : bool :=
  match f with FDepositBalance | FDepositProxiedBalance | FCommission => true | _ => false end.
Lemma launchOps_proposer infoDB Number ops s s' x c : swf s -> launchOps infoDB Number ops s = Ret (s', x) ->
  proposer_ok s c -> proposer_ok s' c.
Proof.
  intros W H [P1 P2 P3]. apply SM_bind_inv in H as (s1 & [[rd b] del] & H1 & H). injection H as <- _.
  destruct (GetSideChainForLaunch_steady of_proposer infoDB Number eq_refl eq_refl) as [_ Hv].
  split; rewrite (Hv _ _ _ W H1) by done; done.
Qed.


(** *** The weights of the validators *)
Definition stake (s : StateDB) (a : bytes) : Z :=
  value s FProxiedBalance a + value s FDepositProxiedBalance a + value s FDepositBalance a.

Lemma stakeOf_value a s s' x : swf s -> stakeOf a s = Ret (s', x) -> x = stake s a /\ calm s s'.
Proof.
  intros W H. apply SM_bind_inv in H as (s1 & p & H1 & H). apply getZ_value in H1 as [-> C1]; [|done].
  apply SM_bind_inv in H as (s2 & d & H2 & H). apply getZ_value in H2 as [-> C2]; [|apply C1].
  apply SM_bind_inv in H as (s3 & o & H3 & H). apply getZ_value in H3 as [-> C3]; [|apply C2]. injection H as <- <-.
  rewrite (calm_value _ _ _ _ C2), !(calm_value _ _ _ _ C1). split; [done|]. eapply calm_trans; [|exact C3]. by eapply calm_trans.
Qed.

(** The validators that have a stake, with the stake as their power. *)
Definition reweighed (g : bytes -> Z) (l : list Validator) : list Validator :=
  (fun v => val_set_power v (g (BytesToHash (val_Address v)))) <$>
    filter (fun v => g (BytesToHash (val_Address v)) <> 0) l.

Lemma Remove_middle vs l v r : vals vs = l ++ v :: r -> NoDup (val_Address <$> vals vs) ->
  vals (fst (ValidatorSet_Remove vs (val_Address v))) = l ++ r.
Proof.
  intros E Hn. unfold ValidatorSet_Remove.
  assert (address_index (val_Address v) (vals vs) 0 = Z.of_nat (length l)) as ->.
  { apply (address_index_some _ _ _ v Hn); [|done]. rewrite E. by rewrite list_lookup_middle. }
  destruct (Z.eqb_spec (Z.of_nat (length l)) (-1)); [lia|]. cbn [fst].
  unfold vals at 1. cbn [Validators default from_option]. unfold Datatypes.id, ValidatorSet_Size. rewrite E, length_app, Nat2Z.id, take_app_length.
  replace (Z.to_nat (Z.of_nat (length l) + 1)) with (length l + 1)%nat by lia. rewrite drop_app_add. cbn [drop length].
  destruct (Z.ltb_spec (Z.of_nat (length l) + 1) (Z.of_nat (length l + S (length r)))); [done|].
  destruct r; [by rewrite app_nil_r|cbn [length] in *; lia].
Qed.

Lemma weigh_spec fuel : forall front rest vs s s' vs' (g : bytes -> Z),
  swf s -> (forall a, stake s a = g a) -> vals vs = front ++ rest -> NoDup (val_Address <$> vals vs) ->
  (length rest <= fuel)%nat -> weigh stakeOf fuel (length front) vs s = Ret (s', vs') ->
  vals vs' = front ++ reweighed g rest /\ calm s s'.
Proof.
  induction fuel as [|fuel IH]; intros front rest vs s s' vs' g W Hg E Hn Hf H; cbn [weigh] in H.
  { destruct rest; [|cbn [length] in Hf; lia]. injection H as <- <-. split; [done|by apply calm_refl]. }
  rewrite E in H. destruct rest as [|v rest].
  { rewrite app_nil_r, lookup_ge_None_2 in H by done. injection H as <- <-. split; [done|by apply calm_refl]. }
  rewrite list_lookup_middle in H by done. apply SM_bind_inv in H as (s1 & x & H1 & H).
  apply stakeOf_value in H1 as [-> C1]; [|done]. rewrite Hg in H.
  assert (forall a, stake s1 a = g a) as Hg1 by (intros a; unfold stake; rewrite !(calm_value _ _ _ _ C1); apply Hg).
  cbn [length] in Hf. unfold reweighed. rewrite filter_cons. destruct (Z.eqb_spec (g (BytesToHash (val_Address v))) 0) as [E0|E0].
  - rewrite decide_False by (intros H0; by apply H0). pose proof (Remove_middle vs front v rest E Hn) as Hr.
    destruct (IH front rest (fst (ValidatorSet_Remove vs (val_Address v))) s1 s' vs' g) as [Hv Cm]; try done; [apply C1| |lia|].
    + rewrite Hr. rewrite E, fmap_app in Hn. rewrite fmap_app. cbn in Hn. eapply sublist_NoDup; [exact Hn|].
      apply sublist_app; [done|]. by apply sublist_cons.
    + split; [done|by eapply calm_trans].
  - rewrite decide_True by done.
    set (v' := val_set_power v (g (BytesToHash (val_Address v)))) in *.
    set (vs1 := {| Validators := Some (<[length front := v']> (front ++ v :: rest)); totalVotingPower := totalVotingPower vs |}) in *.
    assert (vals vs1 = (front ++ [v']) ++ rest) as Ev.
    { unfold vs1, vals at 1. cbn [Validators default from_option]. unfold Datatypes.id. rewrite insert_app_r_alt, Nat.sub_diag by lia.
      cbn. by rewrite <- app_assoc. }
    destruct (IH (front ++ [v']) rest vs1 s1 s' vs' g) as [Hv Cm]; try done; [apply C1| |lia| |].
    + rewrite Ev. rewrite E in Hn. rewrite <- app_assoc. rewrite fmap_app in *. done.
    + rewrite length_app. cbn [length]. rewrite Nat.add_1_r. exact H.
    + split; [|by eapply calm_trans]. rewrite Hv. unfold reweighed. by rewrite <- app_assoc.
Qed.

(** Before the election the validators are weighed again: those whose stake
    (what is delegated to them, deposited or not, and their own deposit) is
    zero are removed, the others stay in their order and get their stake as
    voting power.  The loop, which goes on at the same index after a removal,
    looks at every validator. *)
Theorem reweigh_by_stake vs s s' vs' :
  swf s -> addr_unique vs -> reweigh stakeOf vs s = Ret (s', vs') ->
  vals vs' = reweighed (stake s) (vals vs) /\ forall a, stake s' a = stake s a.
Proof.
  intros W Hn H. destruct (weigh_spec (length (vals vs)) [] (vals vs) vs s s' vs' (stake s)) as [Hv Cm]; try done.
  split; [done|]. intros a. unfold stake. by rewrite !(calm_value _ _ _ _ Cm).
Qed.

End Books.

Module EpochSwitchExamples.
Import StateToy ClientExamples EpochExamples ToyLibs SideChainsExamples DelegationExamples.

(** alice has 1000 and 30 that are deposited with bob, who proposes a block of
    the main chain with fees of 5. *)
Definition ex_stakes : SM unit :=
  AddBalance alice 1000 ;; AddDelegateBalance alice 30 ;; AddDepositProxiedBalanceByUser bob alice 30.
Definition ex_ready : StateDB := state_of ex_new (ex_stakes ex_new).
Lemma ex_ready_ok : swf ex_ready /\ books ex_ready 1030.
Proof.
  assert (posts ex_stakes (fun _ ds => balanced 1030 ds)) as [Ho Hp].
  { eapply posts_weaken; [|apply posts_seq; [apply AddBalance_posts|apply posts_seq; [apply AddDelegateBalance_posts|
      apply AddDepositProxied_posts]]]. intros x ds (d & -> & d' & -> & ->). balance. }
  assert (ex_stakes ex_new = Ret (ex_ready, tt)) as H by (apply run_state; vm_compute; reflexivity).
  split; [eapply Ho; [apply ex_new_swf|exact H]|].
  destruct (Hp _ _ _ ex_new_swf H) as (ds & Hb & M). apply (balanced_books 1030 ds ex_new ex_ready 0 Hb M ex_new_books).
Qed.

Definition ex_finish : SM (Epoch * PendingOps) :=
  finishBlock elements true [] ∅ ∅ (ex_epoch 4) 450 bob 5 [].
Definition ex_finished : StateDB := state_of ex_new (ex_finish ex_ready).


(** Of two validators one has no stake. *)
Definition ex_validators : ValidatorSet := NewValidatorSet [NewValidator bob [102] 10; NewValidator alice [101] 10].
Lemma reweigh_by_stake_witness :
  exists s' vs', reweigh stakeOf ex_validators ex_ready = Ret (s', vs')
    /\ (fun v => (val_Address v, val_VotingPower v)) <$> vals vs' = [(bob, 30)].
Proof.
  assert (exists vs', reweigh stakeOf ex_validators ex_ready
    = Ret (state_of ex_new (reweigh stakeOf ex_validators ex_ready), vs')) as (vs' & H).
  { eexists. apply run_state. vm_compute. reflexivity. }
  assert (addr_unique ex_validators) as Hu by (unfold addr_unique; apply (bool_decide_unpack _); vm_compute; exact I).
  destruct (reweigh_by_stake ex_validators ex_ready _ vs' (proj1 ex_ready_ok) Hu H) as [Hv _].
  eexists _, vs'. split; [exact H|]. rewrite Hv. vm_compute. reflexivity.
Defined.

(** After the refund that was asked for twice (see
    [DelegationExamples.unregister_refunds_twice]) has been paid, the deposit
    and the delegated balance of alice are negative, and flushing the state
    panics, as a negative number has no encoding: the block cannot be closed. *)
Definition ex_paid : StateDB := state_of ex_new ((Finalise true ;; payRefunds bob) ex_left).
Theorem double_refund_panics :
  is_some (ans ((Finalise true ;; payRefunds bob) ex_left)) = true
  /\ ledger ex_paid (alice, Coin CDelegate) = -20 /\ ledger ex_paid (bob, Share Deposit_part alice) = -20
  /\ is_some (ans (Finalise true ex_paid)) = false.
Proof. vm_compute. repeat split; reflexivity. Qed.

(** An account that holds nothing but rewards counts as empty, and the flush
    deletes it with its rewards. *)
Definition ex_rewarded : StateDB := state_of ex_new ((AddRewardBalanceByDelegateAddress alice bob 7 ;; Finalise true) ex_new).
Theorem rewards_deleted :
  ledger (state_of ex_new (AddRewardBalanceByDelegateAddress alice bob 7 ex_new)) (alice, Coin CReward) = 7
  /\ ledger ex_rewarded (alice, Coin CReward) = 0.
Proof. vm_compute. split; reflexivity. Qed.

End EpochSwitchExamples.
