(* ===== verification/Transaction.v ===== *)
(** * Transactions and blocks of transactions

    What a transaction does to the state (chain/core): gas is bought from the
    sender (state_transition.go, gaspool.go), the message is run by the virtual
    machine of Vm.v (ligo_state_transition.go, evm.go) or, when it goes to the
    chain contract, by the callback of the function it calls
    (ligo_state_processor.go, ligoabi/abi/abi.go), the gas that is left is given
    back, and the fee is summed up for the proposer; a block runs its
    transactions in order and is closed by the engine (state_processor.go).  The
    ABI and the signatures are the class [AbiLib]; the loop of the machine gets
    one unit of fuel more than the message has gas, which is enough (VmGas.v). *)
From S2P Require Import Prelude Rlp StateData StateToy StateDB StateObs StateRevert StateClient StateFlush StateShares StateLedger Receipts VmWord VmCode VmPrecompiled Vm VmToy VmGas VmInduction VmRefund ChainConfig BitArray TmTypes ValidatorSet Epoch PendingOps SideChains Delegation EpochSwitch.
Local Open Scope Z_scope.

(** ** The functions of the chain contract *)
Record FunctionType := {
  ft_id : Z;
  ft_cross : bool;
  ft_main : bool;
  ft_side : bool }.
#[export] Instance FunctionType_eq_dec : EqDecision FunctionType.
Proof. solve_decision. Defined.

Definition fn (id : Z) (cross main side : bool) : FunctionType :=
  {| ft_id := id; ft_cross := cross; ft_main := main; ft_side := side |}.

Definition fnCreateSideChain : FunctionType := fn 0 true true false.
Definition fnJoinSideChain : FunctionType := fn 1 true true false.
Definition fnDepositInMainChain : FunctionType := fn 2 true true false.
Definition fnDepositInSideChain : FunctionType := fn 3 true false true.
Definition fnWithdrawFromSideChain : FunctionType := fn 4 true false true.
Definition fnWithdrawFromMainChain : FunctionType := fn 5 true true false.
Definition fnSaveDataToMainChain : FunctionType := fn 6 true true false.
Definition fnSetBlockReward : FunctionType := fn 7 true false true.
Definition fnVoteNextEpoch : FunctionType := fn 10 false true true.
Definition fnRevealVote : FunctionType := fn 11 false true true.
Definition fnDelegate : FunctionType := fn 12 false true true.
Definition fnUnDelegate : FunctionType := fn 13 false true true.
Definition fnRegister : FunctionType := fn 14 false true true.
Definition fnUnRegister : FunctionType := fn 15 false true true.
Definition fnEditValidator : FunctionType := fn 16 false true true.
Definition fnWithdrawReward : FunctionType := fn 17 false true true.
Definition fnUnBanned : FunctionType := fn 18 false true true.
Definition fnSetCommission : FunctionType := fn 19 false true true.
Definition fnUnknown : FunctionType := fn (-1) false false false.

(** A switch compares with the cases from the first to the last. *)
Fixpoint switch {K A} `{EqDecision K} (k : K) (cases : list (K * A)) (dflt : A) : A :=
  match cases with
  | [] => dflt
  | (k', a) :: cases' => if decide (k = k') then a else switch k cases' dflt
  end.

Definition RequiredGas (t : FunctionType) : Z :=
  switch t
    [(fnCreateSideChain, 200000); (fnJoinSideChain, 100000); (fnDepositInMainChain, 200000); (fnDepositInSideChain, 0);
     (fnWithdrawFromSideChain, 200000); (fnWithdrawFromMainChain, 0); (fnSaveDataToMainChain, 0);
     (fnVoteNextEpoch, 100000); (fnRevealVote, 100000); (fnDelegate, 100000); (fnUnDelegate, 100000);
     (fnRegister, 100000); (fnUnRegister, 100000); (fnSetBlockReward, 100000); (fnEditValidator, 100000);
     (fnWithdrawReward, 100000); (fnUnBanned, 100000); (fnSetCommission, 100000)] 0.

Definition fnNames : list (FunctionType * string) :=
  [(fnCreateSideChain, "CreateSideChain"); (fnJoinSideChain, "JoinSideChain");
   (fnDepositInMainChain, "DepositInMainChain"); (fnDepositInSideChain, "DepositInSideChain");
   (fnWithdrawFromSideChain, "WithdrawFromSideChain"); (fnWithdrawFromMainChain, "WithdrawFromMainChain");
   (fnSaveDataToMainChain, "SaveDataToMainChain"); (fnVoteNextEpoch, "VoteNextEpoch"); (fnRevealVote, "RevealVote");
   (fnDelegate, "Delegate"); (fnUnDelegate, "UnDelegate"); (fnRegister, "Register"); (fnUnRegister, "UnRegister");
   (fnSetBlockReward, "SetBlockReward"); (fnEditValidator, "EditValidator"); (fnWithdrawReward, "WithdrawReward");
   (fnUnBanned, "UnBanned"); (fnSetCommission, "SetCommission")]%string.

Definition FunctionType_String (t : FunctionType) : string := switch t fnNames "UnKnown"%string.
Definition StringToFunctionType (s : string) : FunctionType := switch s ((fun '(t, n) => (n, t)) <$> fnNames) fnUnknown.

(** The callbacks that are registered (init of internal/ligoapi/api.go); the
    other functions have none. *)
Definition GetApplyCb (t : FunctionType) : option call :=
  switch t
    [(fnWithdrawReward, Some CWithdrawReward); (fnDelegate, Some CDelegateTo); (fnUnDelegate, Some CUnDelegate);
     (fnRegister, Some CRegister); (fnUnRegister, Some CUnRegister); (fnSetCommission, Some CSetCommission);
     (fnUnBanned, Some CUnBanned)] None.

Definition ChainContractMagicAddr : bytes := BytesToHash (str_bytes "LigoAIMiningSmartContractAddress").
Definition IsLigoChainContractAddr (addr : option bytes) : bool := bool_decide (addr = Some ChainContractMagicAddr).

(** The name of the method with a selector, and the sender that AsMessage
    recovers. *)
Class AbiLib := {
  MethodById : bytes -> result string string;
  AsMessage : Transaction -> result string bytes }.

Definition FunctionTypeFromId `{AbiLib} (sigdata : bytes) : result string FunctionType :=
  match MethodById sigdata with
  | Err e => Err e
  | Ok name => Ok (StringToFunctionType name)
  end.

(** ** Gas *)
Definition MaxUint64 : Z := 2 ^ 64 - 1.

Definition AddGas (gp amount : Z) : outcome Z :=
  if MaxUint64 - amount <? gp then Panic "gas pool pushed above uint64" else Ret (u64 (gp + amount)).
Definition SubGas (gp amount : Z) : result string Z :=
  if gp <? amount then Err "gas limit reached"%string else Ok (gp - amount).

Definition TxGas : Z := 21000.
Definition TxGasContractCreation : Z := 53000.
Definition TxDataNonZeroGasFrontier : Z := 68.
Definition TxDataZeroGas : Z := 4.

Definition nonZeros (data : bytes) : Z := foldl (fun nz byt => if byt =? 0 then nz else nz + 1) 0 data.

Definition IntrinsicGas (data : bytes) (contractCreation homestead : bool) : result string Z :=
  let gas := if contractCreation && homestead then TxGasContractCreation else TxGas in
  match data with
  | [] => Ok gas
  | _ =>
    let nz := nonZeros data in
    if (MaxUint64 - gas) / TxDataNonZeroGasFrontier <? nz then Err ErrOutOfGas
    else
      let gas := u64 (gas + u64 (nz * TxDataNonZeroGasFrontier)) in
      let z := u64 (Z.of_nat (length data) - nz) in
      if (MaxUint64 - gas) / TxDataZeroGas <? z then Err ErrOutOfGas
      else Ok (u64 (gas + u64 (z * TxDataZeroGas)))
  end.

(** The gas pool of the block, and the gas of the message. *)
Record StateTransition := {
  st_gp : Z;
  st_gas : Z;
  st_initialGas : Z }.

Definition gasUsed (st : StateTransition) : Z := u64 (st_initialGas st - st_gas st).

Definition useGas (st : StateTransition) (amount : Z) : result string StateTransition :=
  if st_gas st <? amount then Err ErrOutOfGas
  else Ok {| st_gp := st_gp st; st_gas := st_gas st - amount; st_initialGas := st_initialGas st |}.

(** What a block adds up, and its pending operations. *)
Record Tally := {
  tl_gp : Z;
  tl_usedGas : Z;
  tl_usedMoney : Z;
  tl_ops : PendingOps }.

(** ** The environment of a block *)
Record Header := {
  h_ParentHash : bytes;
  h_Coinbase : bytes;
  h_Number : Z;
  h_Time : Z;
  h_Difficulty : Z;
  h_GasLimit : Z }.

(** The hash of an ancestor: the parent's is in the header, older ones are found
    from header to header (the code keeps those it has seen). *)
Fixpoint getHash_loop (fuel : nat) (GetHeader : bytes -> Z -> option Header) (hash : bytes) (number n : Z) : bytes :=
  match fuel with
  | O => zeroHash
  | S fuel =>
    match GetHeader hash number with
    | None => zeroHash
    | Some header =>
      let hash := h_ParentHash header in
      let number := u64 (h_Number header - 1) in
      if n =? number then hash else getHash_loop fuel GetHeader hash number n
    end
  end.

Definition GetHashFn (ref : Header) (GetHeader : bytes -> Z -> option Header) (n : Z) : bytes :=
  if u64 (u64 (h_Number ref) - n - 1) =? 0 then h_ParentHash ref
  else getHash_loop (S (Z.to_nat (h_Number ref))) GetHeader (h_ParentHash ref) (u64 (u64 (h_Number ref) - 1)) n.

(** What the machine asks of the configuration at a block. *)
Definition rules_at (c : ChainConfig) (num : Z) : Rules :=
  {| IsHomestead := cc_IsHomestead c num; IsEIP150 := cc_IsEIP150 c num; IsEIP158 := cc_IsEIP158 c num;
     IsByzantium := cc_IsByzantium c num; IsConstantinople := cc_IsConstantinople c num |}.

(** What the block processor was configured with. *)
Record Settings := {
  se_config : ChainConfig;
  se_NoRecursion : bool;
  se_EnablePreimageRecording : bool;
  se_GetHeader : bytes -> Z -> option Header }.

(** NewEVMContext and NewEVM: the proposer of the block is its coinbase. *)
Definition NewEVM (se : Settings) (header : Header) (from : bytes) (tx : Transaction) : EVM :=
  {| evm_Origin := from; evm_GasPrice := tx_GasPrice tx; evm_Coinbase := h_Coinbase header; evm_GasLimit := h_GasLimit header;
     evm_BlockNumber := h_Number header; evm_Time := h_Time header; evm_Difficulty := h_Difficulty header;
     evm_GetHash := GetHashFn header (se_GetHeader se); evm_rules := rules_at (se_config se) (h_Number header);
     evm_NoRecursion := se_NoRecursion se; evm_EnablePreimageRecording := se_EnablePreimageRecording se;
     evm_depth := 0; evm_readOnly := false |}.

Section Transactions.
Context {L : TrieLib} `{EC : EpochCodec} `{C : CryptoLib} `{SS : SliceSort} `{IC : ChainInfoCodec}.
Context {T : TxLib} {AB : AbiLib} {PL : PrecompiledLib} {AL : AddressLib}.

(** ** Messages *)
Definition st_account (a : bytes) : SM unit :=
  exist ← Exist a;
  if (exist : bool) then mret tt else CreateAccount a.

Definition buyGas (from : bytes) (tx : Transaction) (st : StateTransition) : SM (StateTransition * option string) :=
  st_account from ;;
  let mgval := tx_Gas tx * tx_GasPrice tx in
  balance ← GetBalance from;
  if balance <? mgval then mret (st, Some "insufficient balance to pay for gas"%string)
  else
    match SubGas (st_gp st) (tx_Gas tx) with
    | Err e => mret (st, Some e)
    | Ok gp =>
      SubBalance from mgval ;;
      mret ({| st_gp := gp; st_gas := u64 (st_gas st + tx_Gas tx); st_initialGas := tx_Gas tx |}, None)
    end.

Definition nonceError (nonce msgNonce : Z) : option string :=
  if nonce <? msgNonce then Some "nonce too high"%string
  else if msgNonce <? nonce then Some "nonce too low"%string else None.

Definition preCheck (from : bytes) (tx : Transaction) (st : StateTransition) : SM (StateTransition * option string) :=
  st_account from ;;
  nonce ← GetNonce from;
  match nonceError nonce (tx_Nonce tx) with
  | Some e => mret (st, Some e)
  | None => buyGas from tx st
  end.

(** The gas that is left and the error of the virtual machine. *)
Definition runMessage (evm : EVM) (from : bytes) (tx : Transaction) (gas : Z) : SM (Z * option string) :=
  let loop := exec_loop (S (Z.to_nat gas)) in
  match tx_To tx with
  | None =>
    r ← evm_Create loop evm from (tx_Data tx) gas (tx_Value tx);
    let '(ret, addr, gas, vmerr) := r in
    mret (gas, vmerr)
  | Some to =>
    nonce ← GetNonce from;
    SetNonce from (u64 (nonce + 1)) ;;
    st_account to ;;
    r ← evm_Call loop evm from to (tx_Data tx) gas (tx_Value tx);
    let '(ret, gas, vmerr) := r in
    mret (gas, vmerr)
  end.

Definition refundGas (from : bytes) (tx : Transaction) (st : StateTransition) : SM StateTransition :=
  counter ← GetRefund;
  let refund := gasUsed st / 2 in
  let refund := if counter <? refund then counter else refund in
  let gas := u64 (st_gas st + refund) in
  st_account from ;;
  AddBalance from (gas * tx_GasPrice tx) ;;
  gp ← liftS (AddGas (st_gp st) gas);
  mret {| st_gp := gp; st_gas := gas; st_initialGas := st_initialGas st |}.

(** From buying the gas to giving back what is left: the gas pool of the block is
    changed in place, also when there is an error. *)
Definition transition (evm : EVM) (from : bytes) (tx : Transaction) (gp : Z)
    : SM (Z * result string (StateTransition * option string)) :=
  r ← preCheck from tx {| st_gp := gp; st_gas := 0; st_initialGas := 0 |};
  let '(st, err) := r in
  match err with
  | Some e => mret (st_gp st, Err e)
  | None =>
    st_account from ;;
    match IntrinsicGas (tx_Data tx) (negb (is_some (tx_To tx))) (IsHomestead (evm_rules evm)) with
    | Err e => mret (st_gp st, Err e)
    | Ok gas =>
      match useGas st gas with
      | Err e => mret (st_gp st, Err e)
      | Ok st =>
        r ← runMessage evm from tx (st_gas st);
        let '(gas, vmerr) := r in
        let st := {| st_gp := st_gp st; st_gas := gas; st_initialGas := st_initialGas st |} in
        if bool_decide (vmerr = Some ErrInsufficientBalance) then mret (st_gp st, Err ErrInsufficientBalance)
        else
          st ← refundGas from tx st;
          mret (st_gp st, Ok (st, vmerr))
      end
    end
  end.

(** The gas used, the money it costs, and whether the virtual machine failed. *)
Definition TransitionDbEx (evm : EVM) (from : bytes) (tx : Transaction) (gp : Z) : SM (Z * result string (Z * Z * bool)) :=
  r ← transition evm from tx gp;
  let '(gp, res) := r in
  mret (gp, match res with
            | Err e => Err e
            | Ok (st, vmerr) => Ok (gasUsed st, gasUsed st * tx_GasPrice tx, is_some vmerr)
            end).

(** The older variant pays the fee to the proposer at once. *)
Definition TransitionDb (evm : EVM) (from : bytes) (tx : Transaction) (gp : Z) : SM (Z * result string (Z * bool)) :=
  r ← transition evm from tx gp;
  let '(gp, res) := r in
  match res with
  | Err e => mret (gp, Err e)
  | Ok (st, vmerr) =>
    AddBalance (evm_Coinbase evm) (gasUsed st * tx_GasPrice tx) ;;
    mret (gp, Ok (gasUsed st, is_some vmerr))
  end.

(** ** Calls of the chain contract *)

(** [data[:4]] *)
Definition selector (tx : Transaction) : outcome bytes :=
  if (length (tx_Data tx) <? 4)%nat then Panic "slice bounds out of range" else Ret (take 4 (tx_Data tx)).

(** The gas the function costs is paid for, and its callback is run. *)
Definition runCallback (function : FunctionType) (tx : Transaction) (bc : BlockChain) (ops : PendingOps) : EM PendingOps :=
  match GetApplyCb function with
  | None => ok_ ops
  | Some c => applyCb c tx bc ops
  end.

Definition callContract (config : ChainConfig) (bc : BlockChain) (from : bytes) (tx : Transaction) (tl : Tally)
    : SM (Tally * result string Z) :=
  data ← liftS (selector tx);
  match FunctionTypeFromId data with
  | Err e => mret (tl, Err e)
  | Ok function =>
    if cc_IsMainChain config && negb (ft_main function) then mret (tl, Err "not allowed in main chain"%string)
    else if negb (cc_IsMainChain config) && negb (ft_side function) then mret (tl, Err "not allowed in side chain"%string)
    else
      nonce ← GetNonce from;
      match nonceError nonce (tx_Nonce tx) with
      | Some e => mret (tl, Err e)
      | None =>
        let gasLimit := tx_Gas tx in
        let gasValue := gasLimit * tx_GasPrice tx in
        balance ← GetBalance from;
        if balance <? gasValue then mret (tl, Err "insufficient $LAI for gas"%string)
        else
          match SubGas (tl_gp tl) gasLimit with
          | Err e => mret (tl, Err e)
          | Ok gp =>
            let tl := {| tl_gp := gp; tl_usedGas := tl_usedGas tl; tl_usedMoney := tl_usedMoney tl; tl_ops := tl_ops tl |} in
            SubBalance from gasValue ;;
            let gas := RequiredGas function in
            if gasLimit <? gas then mret (tl, Err ErrOutOfGas)
            else
              balance ← GetBalance from;
              if balance <? tx_Value tx then mret (tl, Err "insufficient $LAI for tx amount"%string)
              else
                r ← runCallback function tx bc (tl_ops tl);
                match r with
                | Err e => mret (tl, Err e)
                | Ok ops =>
                  let remainingGas := gasLimit - gas in
                  AddBalance from (remainingGas * tx_GasPrice tx) ;;
                  gp ← liftS (AddGas gp remainingGas);
                  mret ({| tl_gp := gp; tl_usedGas := u64 (tl_usedGas tl + gas);
                           tl_usedMoney := tl_usedMoney tl + gas * tx_GasPrice tx; tl_ops := ops |}, Ok gas)
                end
          end
      end
  end.

Definition sendMessage (evm : EVM) (from : bytes) (tx : Transaction) (tl : Tally)
    : SM (Tally * result string (Z * bool)) :=
  r ← TransitionDbEx evm from tx (tl_gp tl);
  let '(gp, res) := r in
  match res with
  | Err e => mret ({| tl_gp := gp; tl_usedGas := tl_usedGas tl; tl_usedMoney := tl_usedMoney tl; tl_ops := tl_ops tl |}, Err e)
  | Ok (gas, money, failed) =>
    mret ({| tl_gp := gp; tl_usedGas := u64 (tl_usedGas tl + gas); tl_usedMoney := tl_usedMoney tl + money;
             tl_ops := tl_ops tl |}, Ok (gas, failed))
  end.

(** ** Transactions and blocks *)

(** The state is flushed after each transaction. *)
Definition flush (byzantium deleteEmpty : bool) : SM bytes :=
  if byzantium then Finalise true ;; mret [] else IntermediateRoot deleteEmpty.

Definition fillReceipt (header : Header) (tx : Transaction) (root : bytes) (failed : bool) (gas : Z) (tl : Tally)
    (contract : bytes) : SM Receipt :=
  logs ← GetLogs (tx_Hash tx);
  bloom ← liftS (CreateBloom [logs]);
  s ← getS;
  let r := NewReceipt root failed (tl_usedGas tl) in
  mret {| r_PostState := r_PostState r; r_Status := r_Status r; r_CumulativeGasUsed := r_CumulativeGasUsed r;
          r_Bloom := bloom; r_Logs := logs; r_TxHash := tx_Hash tx; r_ContractAddress := contract; r_GasUsed := gas;
          r_BlockHash := s_bhash s; r_BlockNumber := h_Number header; r_TransactionIndex := s_txIndex s |}.

Definition ApplyTransactionEx (se : Settings) (bc : BlockChain) (header : Header) (tx : Transaction) (tl : Tally)
    : SM (Tally * result string Receipt) :=
  let byzantium := cc_IsByzantium (se_config se) (h_Number header) in
  match AsMessage tx with
  | Err e => mret (tl, Err e)
  | Ok from =>
    if negb (IsLigoChainContractAddr (tx_To tx)) then
      r ← sendMessage (NewEVM se header from tx) from tx tl;
      let '(tl, res) := r in
      match res with
      | Err e => mret (tl, Err e)
      | Ok (gas, failed) =>
        root ← flush byzantium false;
        receipt ← fillReceipt header tx root failed gas tl
                    (if is_some (tx_To tx) then zeroHash else CreateAddress from (tx_Nonce tx));
        mret (tl, Ok receipt)
      end
    else
      r ← callContract (se_config se) bc from tx tl;
      let '(tl, res) := r in
      match res with
      | Err e => mret (tl, Err e)
      | Ok gas =>
        root ← flush byzantium (cc_IsEIP158 (se_config se) (h_Number header));
        receipt ← fillReceipt header tx root false gas tl zeroHash;
        nonce ← GetNonce from;
        SetNonce from (u64 (nonce + 1)) ;;
        mret (tl, Ok receipt)
      end
  end.

Fixpoint applyTransactions (se : Settings) (bc : BlockChain) (header : Header) (blockHash : bytes) (i : Z)
    (txs : list Transaction) (tl : Tally) : SM (Tally * result string (list Receipt)) :=
  match txs with
  | [] => mret (tl, Ok [])
  | tx :: txs' =>
    Prepare (tx_Hash tx) blockHash i ;;
    r ← ApplyTransactionEx se bc header tx tl;
    let '(tl, res) := r in
    match res with
    | Err e => mret (tl, Err e)
    | Ok receipt =>
      r ← applyTransactions se bc header blockHash (i + 1) txs' tl;
      mret (fst r, match snd r with Ok receipts => Ok (receipt :: receipts) | Err e => Err e end)
    end
  end.

(** Process: the receipts, the gas used and the pending operations. *)
Definition Process (order : gset bytes -> list bytes) (se : Settings) (bc : BlockChain) (infoDB : InfoDB) (current : Epoch)
    (header : Header) (blockHash : bytes) (txs : list Transaction) : SM (result string (list Receipt * Z * PendingOps)) :=
  gp ← liftS (AddGas 0 (h_GasLimit header));
  r ← applyTransactions se bc header blockHash 0 txs {| tl_gp := gp; tl_usedGas := 0; tl_usedMoney := 0; tl_ops := [] |};
  let '(tl, res) := r in
  match res with
  | Err e => mret (Err e)
  | Ok receipts =>
    f ← Finalize order (cc_IsMainChain (se_config se)) (cc_IsEIP158 (se_config se) (h_Number header))
          (str_bytes (cc_LigoChainId (se_config se))) infoDB (bc_db bc) current (h_Number header) (h_Coinbase header)
          (tl_usedMoney tl) (tl_ops tl);
    mret (Ok (receipts, tl_usedGas tl, snd (fst f)))
  end.

End Transactions.

(** ** Proofs: the price of the data *)
Lemma nonZeros_spec data acc : foldl (fun nz byt => if byt =? 0 then nz else nz + 1) acc data
  = acc + Z.of_nat (length (filter (fun b : Z => b <> 0) data)).
Proof.
  revert acc. induction data as [|b data IH]; intros acc; cbn [foldl]; [cbn; lia|]. rewrite IH, filter_cons.
  destruct (Z.eqb_spec b 0), (decide (b <> 0%Z)); try done; cbn [length]; lia.
Qed.

Lemma filter_le (data : bytes) : (length (filter (fun b : Z => b <> 0%Z) data) <= length data)%nat.
Proof. apply length_filter. Qed.

Lemma nonZeros_range data : 0 <= nonZeros data <= Z.of_nat (length data).
Proof. unfold nonZeros. rewrite nonZeros_spec. pose proof (filter_le data). lia. Qed.

Definition base_gas (contractCreation homestead : bool) : Z :=
  if contractCreation && homestead then TxGasContractCreation else TxGas.

(** The guards are exact: the sum is taken when it fits. *)
Lemma add_priced gas price n : 0 <= gas < 2 ^ 64 -> 0 < price -> 0 <= n ->
  if (MaxUint64 - gas) / price <? n then 2 ^ 64 <= gas + n * price
  else gas + n * price < 2 ^ 64 /\ u64 (gas + u64 (n * price)) = gas + n * price.
Proof.
  intros Hg Hp Hn. unfold MaxUint64. pose proof (Z.mul_div_le (2 ^ 64 - 1 - gas) price Hp) as H1.
  pose proof (Z.mul_succ_div_gt (2 ^ 64 - 1 - gas) price Hp) as H2.
  destruct (Z.ltb_spec ((2 ^ 64 - 1 - gas) / price) n) as [H|H]; [nia|].
  assert (n * price <= 2 ^ 64 - 1 - gas) by nia. split; [lia|]. rewrite (u64_id (n * price)), u64_id by nia. done.
Qed.

Lemma IntrinsicGas_low data c h gas : IntrinsicGas data c h = Ok gas -> TxGas <= gas < 2 ^ 64.
Proof.
  unfold IntrinsicGas. fold (base_gas c h). assert (TxGas <= base_gas c h < 2 ^ 60) as Hb.
  { unfold base_gas, TxGasContractCreation, TxGas. destruct (c && h); lia. }
  assert (0 < TxGas) as H0 by (unfold TxGas; lia). destruct data as [|b data]; [intros [= <-]; lia|].
  pose proof (nonZeros_range (b :: data)) as Hz. set (nz := nonZeros _) in *.
  pose proof (add_priced (base_gas c h) TxDataNonZeroGasFrontier nz ltac:(lia) ltac:(done) ltac:(lia)) as H1.
  destruct (_ <? nz); [done|]. destruct H1 as [L1 ->]. unfold TxDataNonZeroGasFrontier in *.
  set (z := u64 _) in *. assert (0 <= z) as Hz0 by apply u64_range.
  pose proof (add_priced (base_gas c h + nz * 68) TxDataZeroGas z ltac:(lia) ltac:(done) Hz0) as H2.
  destruct (_ <? z); [done|]. destruct H2 as [L2 ->]. intros [= <-]. unfold TxDataZeroGas in *. lia.
Qed.

(** The gas that a transaction costs before it runs is its base price, 68 for
    every byte of data that is not zero and 4 for every zero byte, and there is
    an error exactly when that does not fit into 64 bits. *)
Theorem IntrinsicGas_exact data contractCreation homestead :
  Z.of_nat (length data) < 2 ^ 64 ->
  let nonzero := Z.of_nat (length (filter (fun b : Z => b <> 0) data)) in
  let price := (if contractCreation && homestead then TxGasContractCreation else TxGas)
               + nonzero * TxDataNonZeroGasFrontier + (Z.of_nat (length data) - nonzero) * TxDataZeroGas in
  IntrinsicGas data contractCreation homestead = if price <? 2 ^ 64 then Ok price else Err ErrOutOfGas.
Proof.
  intros Hlen nonzero price. pose proof (filter_le data). unfold IntrinsicGas. subst price. fold (base_gas contractCreation homestead).
  assert (0 < base_gas contractCreation homestead < 2 ^ 60) as Hb.
  { unfold base_gas, TxGasContractCreation, TxGas. destruct (_ && _); lia. }
  set (base := base_gas _ _) in *. destruct data as [|b data]; [cbn in nonzero; subst nonzero; cbn [length]; change (Z.of_nat 0) with 0 |].
  { rewrite !Z.mul_0_l, !Z.add_0_r. destruct (Z.ltb_spec base (2 ^ 64)); [done|lia]. }
  assert (nonZeros (b :: data) = nonzero) as -> by (unfold nonZeros; rewrite nonZeros_spec; done).
  set (n := Z.of_nat (length (b :: data))) in *.
  pose proof (add_priced base TxDataNonZeroGasFrontier nonzero ltac:(lia) ltac:(done) ltac:(lia)) as H1.
  unfold TxDataNonZeroGasFrontier, TxDataZeroGas in *. cbv zeta.
  destruct ((MaxUint64 - base) / 68 <? nonzero); [destruct (Z.ltb_spec (base + nonzero * 68 + (n - nonzero) * 4) (2 ^ 64)); [lia|done]|].
  destruct H1 as [L1 ->]. rewrite (u64_id (n - nonzero)) by lia.
  pose proof (add_priced (base + nonzero * 68) 4 (n - nonzero) ltac:(lia) ltac:(done) ltac:(lia)) as H2.
  destruct ((MaxUint64 - (base + nonzero * 68)) / 4 <? n - nonzero).
  - destruct (Z.ltb_spec (base + nonzero * 68 + (n - nonzero) * 4) (2 ^ 64)); [lia|done].
  - destruct H2 as [L2 ->]. destruct (Z.ltb_spec (base + nonzero * 68 + (n - nonzero) * 4) (2 ^ 64)); [done|lia].
Qed.

(** ** Proofs: the gas of a transaction *)
Section GasProofs.
Context {L : TrieLib} `{EC : EpochCodec} `{C : CryptoLib} `{SS : SliceSort} `{IC : ChainInfoCodec}.
Context {T : TxLib} {AB : AbiLib} {PL : PrecompiledLib} {AL : AddressLib}.

Lemma st_account_counted a : counted _ (st_account a).
Proof.
  apply counted_bind; [apply getStateObject_counted|]. intros []; [apply counted_ret|]. apply writes_counted. constructor.
Qed.

(** The gas is bought from the pool, and the counter of refunds is not touched. *)
Lemma preCheck_spec from tx gp s s' st : preCheck from tx {| st_gp := gp; st_gas := 0; st_initialGas := 0 |} s = Ret (s', (st, None)) ->
  is_uint64 (tx_Gas tx) -> counter_ok s ->
  counter_ok s' /\ tx_Gas tx <= gp /\ st = {| st_gp := gp - tx_Gas tx; st_gas := tx_Gas tx; st_initialGas := tx_Gas tx |}.
Proof.
  intros H Hg W. unfold preCheck in H. apply SM_bind_inv in H as (s1 & [] & H1 & H). apply (st_account_counted _ _ _ _ W) in H1.
  apply SM_bind_inv in H as (s2 & n & H2 & H). apply (reads_counted _ _ (R_GetNonce from) _ _ _ H1) in H2.
  destruct (nonceError _ _); [done|]. unfold buyGas in H.
  apply SM_bind_inv in H as (s3 & [] & H3 & H). apply (st_account_counted _ _ _ _ H2) in H3.
  apply SM_bind_inv in H as (s4 & b & H4 & H). apply (reads_counted _ _ (R_GetBalance from) _ _ _ H3) in H4.
  destruct (b <? _); [done|]. cbn [st_gp st_gas] in H. unfold SubGas in H. destruct (Z.ltb_spec gp (tx_Gas tx)); [done|].
  apply SM_bind_inv in H as (s5 & [] & H5 & H). apply (writes_counted _ _ (W_SubBalance from _) _ _ _ H4) in H5.
  injection H as <- <-. rewrite Z.add_0_l, u64_id by done. done.
Qed.

Lemma runMessage_spec evm from tx gas : fixed_price evm -> 0 <= gas < 2 ^ 64 ->
  counted _ (runMessage evm from tx gas) /\ gives (runMessage evm from tx gas) (fun r => 0 <= fst r <= gas).
Proof.
  intros Hr Hg. unfold runMessage. set (fuel := S (Z.to_nat gas)). assert (gas < Z.of_nat fuel) as Hf by (subst fuel; lia).
  destruct (tx_To tx) as [to|]; split.
  - apply counted_bind; [apply reads_counted; constructor|]. intros n. apply counted_bind; [apply writes_counted; constructor|]. intros _.
    apply counted_bind; [apply st_account_counted|]. intros _. apply counted_bind; [apply evm_Call_counted|].
    intros [[ret g] e]. apply counted_ret.
  - do 3 (apply gives_any; intros ?). eapply gives_bind; [apply evm_Call_left; done|].
    intros [[ret g] e] H. cbn [fst snd] in H. apply gives_ret. done.
  - apply counted_bind; [apply evm_Create_counted|]. intros [[[ret a] g] e]. apply counted_ret.
  - eapply gives_bind; [apply evm_Create_left; done|]. intros [[[ret a] g] e] H. cbn [fst snd] in H. apply gives_ret. done.
Qed.

Lemma refundGas_spec from tx st s s' st' : counter_ok s -> refundGas from tx st s = Ret (s', st') ->
  0 <= st_gas st <= st_initialGas st -> is_uint64 (st_initialGas st) -> 0 <= st_gp st -> st_gp st + st_initialGas st < 2 ^ 64 ->
  counter_ok s' /\ st_gp st' = st_gp st + st_gas st' /\ st_initialGas st' = st_initialGas st
  /\ exists refund, 0 <= refund <= (st_initialGas st - st_gas st) / 2 /\ st_gas st' = st_gas st + refund.
Proof.
  intros W H Hg Hi Hp Hs. unfold is_uint64 in Hi. unfold refundGas in H. apply SM_bind_inv in H as (s1 & counter & H1 & H). injection H1 as <- <-.
  unfold gasUsed in H. rewrite (u64_id (st_initialGas st - st_gas st)) in H by lia. set (half := (st_initialGas st - st_gas st) / 2) in *.
  assert (0 <= half) by (apply Z.div_pos; lia).
  assert (2 * half <= st_initialGas st - st_gas st) by (apply Z.mul_div_le; lia).
  set (refund := if s_refund s <? half then s_refund s else half) in *.
  assert (0 <= refund <= half) as Hr. { destruct W as [[? ?] _]. subst refund. destruct (Z.ltb_spec (s_refund s) half); lia. }
  rewrite (u64_id (st_gas st + refund)) in H by lia. apply SM_bind_inv in H as (s2 & [] & H2 & H). apply (st_account_counted _ _ _ _ W) in H2.
  apply SM_bind_inv in H as (s3 & [] & H3 & H). apply (writes_counted _ _ (W_AddBalance from _) _ _ _ H2) in H3.
  apply SM_bind_inv in H as (s4 & gp & H4 & H). unfold liftS, AddGas, MaxUint64 in H4.
  destruct (Z.ltb_spec (2 ^ 64 - 1 - (st_gas st + refund)) (st_gp st)); [done|]. injection H4 as <- <-.
  injection H as <- <-. cbn [st_gp st_gas st_initialGas]. rewrite u64_id by lia. split_and!; try done. exists refund. split; [lia|done].
Qed.

Lemma transition_gas evm from tx gp s s' gp' st vmerr : fixed_price evm -> is_uint64 (tx_Gas tx) -> 0 <= gp < 2 ^ 64 -> counter_ok s ->
  transition evm from tx gp s = Ret (s', (gp', Ok (st, vmerr))) ->
  counter_ok s' /\ gp' = gp - gasUsed st /\ 0 < gasUsed st <= tx_Gas tx /\ tx_Gas tx <= gp.
Proof.
  intros Hr Hu Hp W H. unfold transition in H. apply SM_bind_inv in H as (s1 & [st1 err] & H1 & H). destruct err; [done|].
  destruct (preCheck_spec _ _ _ _ _ _ H1 Hu W) as (W1 & Hle & ->). unfold is_uint64 in Hu. cbn [st_gp] in H.
  apply SM_bind_inv in H as (s2 & [] & H2 & H). apply (st_account_counted _ _ _ _ W1) in H2.
  destruct (IntrinsicGas _ _ _) as [g0|] eqn:Eg; [|done]. apply IntrinsicGas_low in Eg. unfold TxGas in Eg.
  unfold useGas in H. cbn [st_gas st_gp st_initialGas] in H. destruct (Z.ltb_spec (tx_Gas tx) g0); [done|]. cbn [st_gas st_gp st_initialGas] in H.
  apply SM_bind_inv in H as (s3 & [lft vmerr'] & H3 & H).
  destruct (runMessage_spec evm from tx (tx_Gas tx - g0) Hr ltac:(lia)) as [Hcount Hleft].
  apply Hleft in H3 as Hl. cbn [fst] in Hl. apply (Hcount _ _ _ H2) in H3. destruct (bool_decide _); [done|].
  apply SM_bind_inv in H as (s4 & st4 & H4 & H). injection H as <- <- <- <-.
  apply (refundGas_spec _ _ _ _ _ _ H3) in H4 as (W4 & Egp & Ei & refund & Hrf & Eg4); cbn [st_gp st_gas st_initialGas] in *;
    [|unfold is_uint64; lia..].
  assert (2 * ((tx_Gas tx - lft) / 2) <= tx_Gas tx - lft) by (apply Z.mul_div_le; lia).
  unfold gasUsed. rewrite Ei, Eg4, u64_id by lia. split_and!; try done; lia.
Qed.

Lemma RequiredGas_range t : 0 <= RequiredGas t <= 200000.
Proof. unfold RequiredGas. cbn [switch]. repeat case_decide; lia. Qed.

(** What a transaction with [gas] gas used does to the sums of the block. *)
Definition pays (tx : Transaction) (gas : Z) (tl tl' : Tally) : Prop :=
  tl_gp tl' = tl_gp tl - gas /\ tl_usedGas tl' = tl_usedGas tl + gas
  /\ tl_usedMoney tl' = tl_usedMoney tl + gas * tx_GasPrice tx /\ 0 <= gas <= tx_Gas tx /\ tx_Gas tx <= tl_gp tl.

Definition tally_ok (tl : Tally) : Prop := 0 <= tl_gp tl /\ 0 <= tl_usedGas tl /\ tl_gp tl + tl_usedGas tl < 2 ^ 64.

Lemma pays_ok tx gas tl tl' : tally_ok tl -> pays tx gas tl tl' -> tally_ok tl'.
Proof. unfold tally_ok, pays. intros (? & ? & ?) (-> & -> & _ & ? & ?). lia. Qed.

Lemma sendMessage_pays evm from tx tl s s' tl' gas failed : fixed_price evm -> is_uint64 (tx_Gas tx) -> tally_ok tl -> counter_ok s ->
  sendMessage evm from tx tl s = Ret (s', (tl', Ok (gas, failed))) -> pays tx gas tl tl'.
Proof.
  intros Hr Hu (Hp & Hg & Hs) W H. unfold sendMessage in H. apply SM_bind_inv in H as (s1 & [gp res] & H1 & H).
  unfold TransitionDbEx in H1. apply SM_bind_inv in H1 as (s2 & [gp2 res2] & H2 & H1). injection H1 as <- <- <-.
  destruct res2 as [[st vmerr]|]; [|done]. injection H as <- <- <- <-.
  destruct (transition_gas _ _ _ (tl_gp tl) _ _ _ _ _ Hr Hu ltac:(lia) W H2) as (_ & -> & Hused & Hle).
  unfold pays. cbn [tl_gp tl_usedGas tl_usedMoney]. rewrite u64_id by lia. split_and!; try done; lia.
Qed.

Lemma callContract_pays config bc from tx tl s s' tl' gas : is_uint64 (tx_Gas tx) -> tally_ok tl ->
  callContract config bc from tx tl s = Ret (s', (tl', Ok gas)) -> pays tx gas tl tl'.
Proof.
  intros Hu (Hp & Hg & Hs) H. unfold is_uint64 in Hu. unfold callContract in H. apply SM_bind_inv in H as (s1 & data & _ & H).
  destruct (FunctionTypeFromId data) as [function|]; [|done]. destruct (_ && _); [done|]. destruct (_ && _); [done|].
  apply SM_bind_inv in H as (s2 & n & _ & H). destruct (nonceError _ _); [done|]. apply SM_bind_inv in H as (s3 & b & _ & H).
  destruct (b <? _); [done|]. unfold SubGas in H. destruct (Z.ltb_spec (tl_gp tl) (tx_Gas tx)); [done|].
  apply SM_bind_inv in H as (s4 & [] & _ & H). pose proof (RequiredGas_range function) as Hreq.
  destruct (Z.ltb_spec (tx_Gas tx) (RequiredGas function)); [done|]. apply SM_bind_inv in H as (s5 & b5 & _ & H).
  destruct (b5 <? _); [done|]. apply SM_bind_inv in H as (s6 & [ops|] & _ & H); [|done].
  apply SM_bind_inv in H as (s7 & [] & _ & H). apply SM_bind_inv in H as (s8 & gp & H8 & H). unfold liftS, AddGas, MaxUint64 in H8.
  destruct (Z.ltb_spec (2 ^ 64 - 1 - (tx_Gas tx - RequiredGas function)) (tl_gp tl - tx_Gas tx)); [done|]. injection H8 as _ <-.
  injection H as _ <- <-. unfold pays. cbn [tl_gp tl_usedGas tl_usedMoney]. rewrite !u64_id by lia. split_and!; try done; lia.
Qed.

(** After a flush the counter is zero and the journal empty. *)
Lemma flush_counted byzantium deleteEmpty s s' root : flush byzantium deleteEmpty s = Ret (s', root) -> counter_ok s'.
Proof.
  assert (forall b t t', Finalise b t = Ret (t', tt) -> counter_ok t') as HF.
  { intros b t t' H. unfold Finalise in H. unfold mbind at 1, SM_bind at 1, getS at 1 in H.
    apply SM_bind_inv in H as (t1 & [] & _ & H). apply finaliseSets_clears in H as (J & _ & R).
    unfold counter_ok. rewrite R, J. split; [done|apply Forall_nil; done]. }
  intros H. unfold flush, IntermediateRoot in H. destruct byzantium; apply SM_bind_inv in H as (s1 & [] & H1 & H);
    injection H as <- _; eapply HF; exact H1.
Qed.

Lemma fillReceipt_spec header tx root failed gas tl contract s s' r : fillReceipt header tx root failed gas tl contract s = Ret (s', r) ->
  s' = s /\ r_GasUsed r = gas /\ r_CumulativeGasUsed r = tl_usedGas tl.
Proof.
  intros H. unfold fillReceipt in H. apply SM_bind_inv in H as (s1 & logs & H1 & H). injection H1 as <- _.
  apply SM_bind_inv in H as (s2 & bloom & H2 & H). unfold liftS in H2. destruct (CreateBloom _); [|done]. injection H2 as <- _.
  injection H as <- <-. done.
Qed.

Lemma ApplyTransactionEx_pays se bc header tx tl s s' tl' r : cc_IsConstantinople (se_config se) (h_Number header) = false ->
  is_uint64 (tx_Gas tx) -> tally_ok tl -> counter_ok s ->
  ApplyTransactionEx se bc header tx tl s = Ret (s', (tl', Ok r)) ->
  counter_ok s' /\ pays tx (r_GasUsed r) tl tl' /\ r_CumulativeGasUsed r = tl_usedGas tl'.
Proof.
  intros Hr Hu Ht W H. unfold ApplyTransactionEx in H. destruct (AsMessage tx) as [from|]; [|done]. cbv zeta in H.
  destruct (negb _).
  - apply SM_bind_inv in H as (s1 & [tl1 res] & H1 & H). destruct res as [[gas failed]|]; [|done].
    apply sendMessage_pays in H1; [|done..]. apply SM_bind_inv in H as (s2 & root & H2 & H). apply flush_counted in H2.
    apply SM_bind_inv in H as (s3 & receipt & H3 & H). apply fillReceipt_spec in H3 as (-> & Eg & Ec). injection H as <- <- <-.
    rewrite Eg. done.
  - apply SM_bind_inv in H as (s1 & [tl1 res] & H1 & H). destruct res as [gas|]; [|done].
    apply callContract_pays in H1; [|done..]. apply SM_bind_inv in H as (s2 & root & H2 & H). apply flush_counted in H2.
    apply SM_bind_inv in H as (s3 & receipt & H3 & H). apply fillReceipt_spec in H3 as (-> & Eg & Ec).
    apply SM_bind_inv in H as (s4 & n & H4 & H). apply (reads_counted _ _ (R_GetNonce from) _ _ _ H2) in H4.
    apply SM_bind_inv in H as (s5 & [] & H5 & H). apply (writes_counted _ _ (W_SetNonce from _) _ _ _ H4) in H5.
    injection H as <- <- <-. rewrite Eg. done.
Qed.

(** *** A block *)
Definition gas_sum (rs : list Receipt) : Z := foldr (fun r n => r_GasUsed r + n) 0 rs.
Definition fee_sum (txs : list Transaction) (rs : list Receipt) : Z :=
  foldr (fun e n => r_GasUsed (snd e) * tx_GasPrice (fst e) + n) 0 (zip txs rs).

Lemma applyTransactions_pays se bc header blockHash txs : cc_IsConstantinople (se_config se) (h_Number header) = false ->
  Forall (fun tx => is_uint64 (tx_Gas tx)) txs ->
  forall i tl s s' tl' rs, tally_ok tl -> counter_ok s ->
  applyTransactions se bc header blockHash i txs tl s = Ret (s', (tl', Ok rs)) ->
  Forall2 (fun tx r => 0 <= r_GasUsed r <= tx_Gas tx) txs rs /\ 0 <= tl_gp tl'
  /\ tl_gp tl' = tl_gp tl - gas_sum rs /\ tl_usedGas tl' = tl_usedGas tl + gas_sum rs
  /\ tl_usedMoney tl' = tl_usedMoney tl + fee_sum txs rs
  /\ forall k r, rs !! k = Some r -> r_CumulativeGasUsed r = tl_usedGas tl + gas_sum (take (S k) rs).
Proof.
  intros Hr Hu. induction Hu as [|tx txs Htx Hu IH]; intros i tl s s' tl' rs Ht W H; cbn [applyTransactions] in H.
  { injection H as _ <- <-. split_and!; try done; try (cbn; lia); apply Ht. }
  apply SM_bind_inv in H as (s1 & [] & H1 & H). injection H1 as <-.
  apply SM_bind_inv in H as (s2 & [tl2 res] & H2 & H). destruct res as [r|]; [|done].
  apply ApplyTransactionEx_pays in H2 as (W2 & Hp & Hc); [|done..]. pose proof (pays_ok _ _ _ _ Ht Hp) as Ht2.
  apply SM_bind_inv in H as (s3 & [tl3 res3] & H3 & H). cbn [fst snd] in H. destruct res3 as [rs'|]; [|done]. injection H as _ <- <-.
  apply IH in H3 as (F & Gp & Eg & Eu & Em & Hcum); [|done..]. destruct Hp as (P1 & P2 & P3 & P4 & P5).
  assert (gas_sum (r :: rs') = r_GasUsed r + gas_sum rs') as E1 by done.
  assert (fee_sum (tx :: txs) (r :: rs') = r_GasUsed r * tx_GasPrice tx + fee_sum txs rs') as E2 by done. rewrite E1, E2.
  split_and!; [by constructor|lia|lia|lia|lia|]. intros [|k] x Hx; cbn [lookup list_lookup] in Hx.
  - injection Hx as <-. rewrite Hc, P2. change (gas_sum (take 1 (r :: rs'))) with (r_GasUsed r + 0). lia.
  - rewrite (Hcum k x Hx), P2. change (take (S (S k)) (r :: rs')) with (r :: take (S k) rs').
    change (gas_sum (r :: take (S k) rs')) with (r_GasUsed r + gas_sum (take (S k) rs')). lia.
Qed.

(** C18: The gas of a block adds up.  Starting from the block's gas limit, when all
    its transactions are applied, with their contracts, their refunds and the
    functions of the chain contract, no transaction has used more than its own
    limit, what the receipts say they used makes up exactly what is missing
    from the limit and what is reported as used, each receipt's cumulative gas
    is the sum up to it, and the fees for the proposer are the gas used at the
    prices of the transactions. *)
Theorem block_gas_accounted se bc header blockHash txs s s' tl receipts :
  cc_ConstantinopleBlock (se_config se) = None -> is_uint64 (h_GasLimit header) ->
  Forall (fun tx => is_uint64 (tx_Gas tx)) txs -> s_refund s = 0 -> s_journal s = [] ->
  applyTransactions se bc header blockHash 0 txs {| tl_gp := h_GasLimit header; tl_usedGas := 0; tl_usedMoney := 0; tl_ops := [] |} s
    = Ret (s', (tl, Ok receipts)) ->
  Forall2 (fun tx r => 0 <= r_GasUsed r <= tx_Gas tx) txs receipts
  /\ tl_usedGas tl = gas_sum receipts /\ tl_gp tl = h_GasLimit header - gas_sum receipts /\ gas_sum receipts <= h_GasLimit header
  /\ tl_usedMoney tl = fee_sum txs receipts
  /\ forall k r, receipts !! k = Some r -> r_CumulativeGasUsed r = gas_sum (take (S k) receipts).
Proof.
  intros Hc Hl Hu Hrf Hj H. unfold is_uint64 in Hl. apply applyTransactions_pays in H as (F & Gp & Eg & Eu & Em & Hcum).
  - cbn [tl_gp tl_usedGas tl_usedMoney] in *. split_and!; try done; lia.
  - unfold cc_IsConstantinople. rewrite Hc. done.
  - done.
  - split_and!; cbn; lia.
  - unfold counter_ok. rewrite Hrf, Hj. split; [done|apply Forall_nil; done].
Qed.

End GasProofs.

(** ** Proofs: the money of a call of the chain contract *)
Section FeeProofs.
Context {L : TrieLib} {LL : TrieLaws L} `{EC : EpochCodec} `{C : CryptoLib} `{SS : SliceSort} `{IC : ChainInfoCodec}.
Context {T : TxLib} {AB : AbiLib} {PL : PrecompiledLib} {AL : AddressLib}.

(** From [s] to [s'] the coins of the accounts change by [v]. *)
Definition coins (v : Z) (s s' : StateDB) : Prop := swf s' /\ exists ds, balanced v ds /\ moved ds s s'.

Lemma coins_trans v1 v2 s1 s2 s3 : coins v1 s1 s2 -> coins v2 s2 s3 -> coins (v1 + v2) s1 s3.
Proof.
  intros (_ & ds1 & B1 & M1) (W & ds2 & B2 & M2). split; [done|]. exists (ds1 ++ ds2).
  split; [apply balanced_app|eapply moved_trans]; done.
Qed.
Lemma coins_books v s s' t : coins v s s' -> books s t -> books s' (t + v).
Proof. intros (_ & ds & B & M). eapply balanced_books; done. Qed.
Lemma posts_coins {A} (m : SM A) P v s s' x : posts m P -> (forall ds, P x ds -> balanced v ds) -> swf s -> m s = Ret (s', x) -> coins v s s'.
Proof. intros [Ho Hp] Hb W H. split; [eapply Ho; done|]. destruct (Hp _ _ _ W H) as (ds & Hds & M). eauto. Qed.

Lemma even_coins {A} (m : SM A) s s' x : StateLedger.within (balanced 0) m -> swf s -> m s = Ret (s', x) -> coins 0 s s'.
Proof. intros Hm. eapply posts_coins; [exact Hm|done]. Qed.
Lemma read_coins f a s s' x : swf s -> getZ f a s = Ret (s', x) -> coins 0 s s'.
Proof. eapply posts_coins; [apply getZ_posts|]. intros ds ->. apply balanced_nil. Qed.
Lemma AddBalance_coins a v s s' : swf s -> AddBalance a v s = Ret (s', tt) -> coins v s s'.
Proof. eapply posts_coins; [apply AddBalance_posts|]. intros ds ->. balance. Qed.
Lemma SubBalance_coins a v s s' : swf s -> SubBalance a v s = Ret (s', tt) -> coins (- v) s s'.
Proof. eapply posts_coins; [apply SubBalance_posts|]. intros ds ->. balance. Qed.

(** C21: A function of the chain contract moves coins between accounts only, and
    its fee is collected: what the state holds falls by exactly the gas used at
    the price of the transaction, and that is what the fees of the block grow
    by; the shares of the delegators and their rewards stay in balance. *)
Theorem contract_fee_collected config bc from tx tl s s' tl' gas t :
  swf s -> books s t -> callContract config bc from tx tl s = Ret (s', (tl', Ok gas)) ->
  swf s' /\ books s' (t - gas * tx_GasPrice tx) /\ tl_usedMoney tl' = tl_usedMoney tl + gas * tx_GasPrice tx.
Proof.
  intros W B H. unfold callContract in H. apply SM_bind_inv in H as (s1 & data & H1 & H). unfold liftS in H1.
  destruct (selector tx); [|done]. injection H1 as <- <-.
  destruct (FunctionTypeFromId _) as [function|]; [|done]. destruct (_ && _); [done|]. destruct (_ && _); [done|].
  apply SM_bind_inv in H as (s2 & n & H2 & H). apply (read_coins FNonce) in H2 as K2; [|done]. destruct (nonceError _ _); [done|].
  apply SM_bind_inv in H as (s3 & b & H3 & H). apply (read_coins FBalance) in H3 as K3; [|apply K2]. destruct (b <? _); [done|].
  destruct (SubGas _ _) as [gp|]; [|done]. apply SM_bind_inv in H as (s4 & [] & H4 & H). apply SubBalance_coins in H4 as K4; [|apply K3].
  destruct (tx_Gas tx <? _); [done|]. apply SM_bind_inv in H as (s5 & b5 & H5 & H). apply (read_coins FBalance) in H5 as K5; [|apply K4].
  destruct (b5 <? _); [done|]. apply SM_bind_inv in H as (s6 & [ops|] & H6 & H); [|done].
  assert (coins 0 s5 s6) as K6.
  { unfold runCallback in H6. destruct (GetApplyCb function); [|injection H6 as <- _; eapply (even_coins (mret tt)); [apply within_ret|apply K5|done]].
    eapply even_coins; [apply applyCb_even|apply K5|exact H6]. }
  apply SM_bind_inv in H as (s7 & [] & H7 & H). apply AddBalance_coins in H7 as K7; [|apply K6].
  apply SM_bind_inv in H as (s8 & gp8 & H8 & H). unfold liftS in H8. destruct (AddGas _ _); [|done]. injection H8 as <- _.
  injection H as <- <- <-. split_and!; [apply K7| |done].
  pose proof (coins_books _ _ _ _ (coins_trans _ _ _ _ _ (coins_trans _ _ _ _ _ (coins_trans _ _ _ _ _ (coins_trans _ _ _ _ _
    (coins_trans _ _ _ _ _ K2 K3) K4) K5) K6) K7) B) as HB.
  eapply (eq_ind _ (books s7)); [exact HB|]. lia.
Qed.

(** A transaction to the chain contract whose data are shorter than a
    selector stops the node: processing it panics, in every state. *)
Theorem short_call_panics se bc header tx tl s from :
  AsMessage tx = Ok from -> tx_To tx = Some ChainContractMagicAddr -> (length (tx_Data tx) < 4)%nat ->
  ApplyTransactionEx se bc header tx tl s = Panic "slice bounds out of range".
Proof.
  intros Hm Ht Hd. unfold ApplyTransactionEx. rewrite Hm. unfold IsLigoChainContractAddr. rewrite Ht, bool_decide_true by done.
  cbn [negb]. unfold callContract, selector. rewrite (proj2 (Nat.ltb_lt _ _) Hd). done.
Qed.

End FeeProofs.

Module TransactionExamples.
Import StateToy ClientExamples VmToy EpochExamples ToyLibs SideChainsExamples DelegationExamples.

(** One method, and the signature is the sender. *)
#[export] Instance toyAbi : AbiLib := {|
  MethodById sel := if bool_decide (sel = [1; 2; 3; 4]) then Ok "Delegate"%string else Err "no method"%string;
  AsMessage tx := Ok (tx_signature tx) |}.

Definition ex_settings : Settings :=
  {| se_config := MainnetChainConfig; se_NoRecursion := false; se_EnablePreimageRecording := false;
     se_GetHeader := fun _ _ => None |}.
Definition ex_header : Header :=
  {| h_ParentHash := zeroHash; h_Coinbase := bob; h_Number := 450; h_Time := 100; h_Difficulty := 1; h_GasLimit := 250000 |}.

(** alice calls the contract that stores a value, and delegates 50 to bob. *)
Definition ex_message (nonce : Z) (to : option bytes) (value : Z) (data : bytes) : Transaction :=
  {| tx_Nonce := nonce; tx_GasPrice := 2; tx_Gas := 110000; tx_To := to; tx_Value := value; tx_Data := data;
     tx_Hash := [nonce]; tx_signature := alice |}.
Definition ex_txs : list Transaction :=
  [ex_message 0 (Some carol) 0 [0; 7]; ex_message 1 (Some ChainContractMagicAddr) 50 ([1; 2; 3; 4] ++ bob)].

Definition ex_accounts : SM unit :=
  AddBalance alice 1000000 ;; AddBalance bob 1 ;; ApplyForCandidate bob (hexText (replicate 128 7)) 10 ;;
  SetCode carol (Some writing_code) ;; AddBalance carol 1 ;; Finalise true.
Definition ex_opened : StateDB := state_of ex_new (ex_accounts ex_new).
Definition ex_run : outcome (StateDB * (Tally * result string (list Receipt))) :=
  applyTransactions ex_settings ex_bc ex_header zeroHash 0 ex_txs
    {| tl_gp := h_GasLimit ex_header; tl_usedGas := 0; tl_usedMoney := 0; tl_ops := [] |} ex_opened.
Definition receipts_of (r : outcome (StateDB * (Tally * result string (list Receipt)))) : list Receipt :=
  match r with Ret (_, (_, Ok rs)) => rs | _ => [] end.
Definition tally_of (r : outcome (StateDB * (Tally * result string (list Receipt)))) : Tally :=
  match r with Ret (_, (tl, _)) => tl | _ => {| tl_gp := 0; tl_usedGas := 0; tl_usedMoney := 0; tl_ops := [] |} end.

Lemma block_gas_accounted_witness :
  (fun r => (r_Status r, r_GasUsed r, r_CumulativeGasUsed r)) <$> receipts_of ex_run = [(1, 41078, 41078); (1, 100000, 141078)]
  /\ tl_usedGas (tally_of ex_run) = gas_sum (receipts_of ex_run) /\ gas_sum (receipts_of ex_run) <= 250000.
Proof.
  split; [vm_compute; reflexivity|].
  assert (ans ex_run = Some (tally_of ex_run, Ok (receipts_of ex_run))) as Ha by (vm_compute; reflexivity).
  pose proof (run_state ex_new ex_run _ Ha) as H. unfold ex_run at 1 in H.
  eapply block_gas_accounted in H as (_ & E1 & _ & E2 & _).
  - split; [exact E1|exact E2].
  - reflexivity.
  - unfold is_uint64. cbn. lia.
  - repeat constructor; cbn; lia.
  - vm_compute. reflexivity.
  - apply nil_length_inv. vm_compute. reflexivity.
Defined.

Lemma IntrinsicGas_exact_witness : IntrinsicGas [0; 7; 0; 255] true true = Ok (53000 + 2 * 68 + 2 * 4).
Proof. refine (IntrinsicGas_exact [0; 7; 0; 255] true true _). reflexivity. Defined.

(** alice has 1000000, bob is a candidate. *)
Definition ex_accounts2 : SM unit := AddBalance alice 1000000 ;; ApplyForCandidate bob (hexText (replicate 128 7)) 10.
Definition ex_opened2 : StateDB := state_of ex_new (ex_accounts2 ex_new).
Lemma ex_opened2_ok : swf ex_opened2 /\ books ex_opened2 1000000.
Proof.
  assert (ex_accounts2 ex_new = Ret (ex_opened2, tt)) as H by (apply run_state; vm_compute; reflexivity).
  apply SM_bind_inv in H as (s1 & [] & H1 & H2). pose proof (AddBalance_coins _ _ _ _ ex_new_swf H1) as K1.
  assert (coins 0 s1 ex_opened2) as K2.
  { eapply posts_coins; [apply ApplyForCandidate_posts| |apply K1|exact H2]. intros ds ->. apply balanced_nil. }
  split; [apply K2|]. exact (coins_books _ _ _ _ (coins_trans _ _ _ _ _ K1 K2) ex_new_books).
Qed.

Definition ex_tally : Tally := {| tl_gp := 250000; tl_usedGas := 0; tl_usedMoney := 0; tl_ops := [] |}.
Definition ex_contract_run : outcome (StateDB * (Tally * result string Z)) :=
  callContract MainnetChainConfig ex_bc alice (ex_message 0 (Some ChainContractMagicAddr) 50 ([1; 2; 3; 4] ++ bob)) ex_tally ex_opened2.
Definition ex_called : StateDB := state_of ex_new ex_contract_run.

Lemma contract_fee_collected_witness :
  books ex_called 800000 /\ ledger ex_called (alice, Coin CBalance) = 799950 /\ ledger ex_called (bob, Share Proxied_part alice) = 50.
Proof.
  split; [|vm_compute; split; reflexivity]. destruct ex_opened2_ok as [W B].
  assert (exists tl, ans ex_contract_run = Some (tl, Ok 100000)) as (tl & Ha) by (eexists; vm_compute; reflexivity).
  pose proof (run_state ex_new ex_contract_run _ Ha) as H. unfold ex_contract_run at 1 in H.
  eapply (contract_fee_collected _ _ _ _ _ _ _ _ _ 1000000 W B) in H as (_ & HB & _). exact HB.
Defined.

(** Three bytes are enough. *)
Lemma short_call_panics_witness :
  ApplyTransactionEx ex_settings ex_bc ex_header (ex_message 0 (Some ChainContractMagicAddr) 0 [1; 2; 3]) ex_tally ex_opened2
    = Panic "slice bounds out of range"%string.
Proof. refine (short_call_panics (L := toyLib) ex_settings ex_bc ex_header _ ex_tally ex_opened2 alice _ _ _); [reflexivity|reflexivity|cbn; lia]. Defined.

End TransactionExamples.
