(* ===== verification/ChainAbi.v ===== *)
(** * The calls of the chain contract

    The methods of the chain contract as the text in ligoabi/abi/abi.go declares
    them, their selectors (accounts/abi/method.go) and the packing and unpacking of
    calls by them (accounts/abi/abi.go).

    Shown: a packed call is recognised by its selector and its arguments are
    unpacked to the same values; whatever bytes a transaction carries, unpacking
    them as the arguments of a method gives values in range or an error. *)
From stdpp Require Import pretty.
From S2P Require Import Prelude Rlp Trie Sha3 Abi ChainConfig StateData StateDB PendingOps SideChains Delegation Transaction.
Local Open Scope Z_scope.

(** ** method.go *)
Record Method := { m_Name : string; m_Inputs : ATypes }.

Fixpoint Type_String (t : AType) : string :=
  match t with
  | IntTy n => "int" +:+ pretty n
  | UintTy n => "uint" +:+ pretty n
  | BoolTy => "bool"
  | StringTy => "string"
  | SliceTy e => Type_String e +:+ "[]"
  | ArrayTy n e => Type_String e +:+ "[" +:+ pretty n +:+ "]"
  | TupleTy l => "(" +:+ Types_String l +:+ ")"
  | AddressTy => "address"
  | FixedBytesTy n => "bytes" +:+ pretty n
  | BytesTy => "bytes"
  | FunctionTy => "function"
  end
with Types_String (l : ATypes) : string :=
  match l with
  | ANil => ""
  | ACons t ANil => Type_String t
  | ACons t l => Type_String t +:+ "," +:+ Types_String l
  end.

Definition Method_Sig (m : Method) : string := m_Name m +:+ "(" +:+ Types_String (m_Inputs m) +:+ ")".

Section Methods.
Context {K : KeccakLib}.

Definition Method_ID (m : Method) : bytes := take 4 (keccak (str_bytes (Method_Sig m))).

(** ** abi.go *)

(** The methods are in a map, whose order is not fixed: with different selectors
    the method that is found does not depend on it. *)
Definition MethodOf (methods : list Method) (sigdata : bytes) : result string Method :=
  if (length sigdata <? 4)%nat then Err "data too short for abi method lookup"%string
  else match list_find (fun m => Method_ID m = take 4 sigdata) methods with
       | Some (_, m) => Ok m
       | None => Err "no method with id"%string
       end.

Definition ABI_Pack (m : Method) (args : adenotes (m_Inputs m)) : TM bytes :=
  arguments ← Arguments_Pack (m_Inputs m) args;
  mret (Method_ID m ++ arguments).

End Methods.

(** Unpack of argument.go takes the first value for a call with one argument; with
    none there is no first value. *)
Definition UnpackMethodInputs (m : Method) (input : bytes) : TM (adenotes (m_Inputs m)) :=
  match input with
  | [] => raise "abi: unmarshalling empty output"
  | _ =>
    v ← UnpackValues (m_Inputs m) input;
    match m_Inputs m with ANil => Panic "index out of range" | _ => mret v end
  end.

(** ** The methods of the chain contract (ligoabi/abi/abi.go) *)
Fixpoint args (l : list AType) : ATypes := match l with [] => ANil | t :: l => ACons t (args l) end.
Definition method (name : string) (l : list AType) : Method := {| m_Name := name; m_Inputs := args l |}.

Definition mCreateSideChain : Method := method "CreateSideChain" [StringTy; UintTy 16; UintTy 256; UintTy 256; UintTy 256].
Definition mJoinSideChain : Method := method "JoinSideChain" [BytesTy; StringTy; BytesTy].
Definition mDepositInMainChain : Method := method "DepositInMainChain" [StringTy].
Definition mDepositInSideChain : Method := method "DepositInSideChain" [StringTy; FixedBytesTy 32].
Definition mWithdrawFromSideChain : Method := method "WithdrawFromSideChain" [StringTy].
Definition mWithdrawFromMainChain : Method := method "WithdrawFromMainChain" [StringTy; UintTy 256; FixedBytesTy 32].
Definition mSaveDataToMainChain : Method := method "SaveDataToMainChain" [BytesTy].
Definition mVoteNextEpoch : Method := method "VoteNextEpoch" [FixedBytesTy 32].
Definition mRevealVote : Method := method "RevealVote" [BytesTy; UintTy 256; StringTy; BytesTy].
Definition mDelegate : Method := method "Delegate" [AddressTy].
Definition mUnDelegate : Method := method "UnDelegate" [AddressTy; UintTy 256].
Definition mRegister : Method := method "Register" [BytesTy; BytesTy; UintTy 8].
Definition mUnRegister : Method := method "UnRegister" [].
Definition mSetBlockReward : Method := method "SetBlockReward" [StringTy; UintTy 256].
Definition mEditValidator : Method := method "EditValidator" [StringTy; StringTy; StringTy; StringTy].
Definition mWithdrawReward : Method := method "WithdrawReward" [AddressTy].
Definition mUnBanned : Method := method "UnBanned" [].
Definition mSetCommission : Method := method "SetCommission" [UintTy 8].

Definition ChainABI : list Method :=
  [mCreateSideChain; mJoinSideChain; mDepositInMainChain; mDepositInSideChain; mWithdrawFromSideChain; mWithdrawFromMainChain;
   mSaveDataToMainChain; mVoteNextEpoch; mRevealVote; mDelegate; mUnDelegate; mRegister; mUnRegister; mSetBlockReward;
   mEditValidator; mWithdrawReward; mUnBanned; mSetCommission].

Definition ChainABI_MethodById `{KeccakLib} (sigdata : bytes) : result string string :=
  match MethodOf ChainABI sigdata with Ok m => Ok (m_Name m) | Err e => Err e end.

(** ** The theorems *)

(** The types of the methods: no slices, arrays and tuples. *)
Definition plain (t : AType) : bool := match t with SliceTy _ | ArrayTy _ _ | TupleTy _ => false | FixedBytesTy n => (n <=? 32)%nat | _ => true end.
Fixpoint plains (l : ATypes) : bool := match l with ANil => true | ACons t l => plain t && plains l end.

Lemma plains_ok l : plains l = true -> regulars l = true /\ checkeds l = true /\ forall v, packables l v.
Proof.
  induction l as [|t l IH]; [done|]. cbn [plains regulars checkeds packables]. intros [Ht Hl]%andb_true_iff. destruct (IH Hl) as (-> & -> & Hp).
  rewrite !andb_true_r. split_and!; [by destruct t..|]. intros [v vs]. split; [by destruct t|apply Hp].
Qed.

Lemma chain_methods m : m ∈ ChainABI -> plains (m_Inputs m) = true /\ StringToFunctionType (m_Name m) <> fnUnknown.
Proof.
  intros H. apply (proj1 (Forall_forall (fun m => plains (m_Inputs m) = true /\ StringToFunctionType (m_Name m) <> fnUnknown) ChainABI)); [|done].
  apply (bool_decide_unpack _). by vm_compute.
Qed.

Lemma UnpackMethodInputs_ok m v : regulars (m_Inputs m) = true -> m_Inputs m <> ANil -> awts (m_Inputs m) v ->
  Z.of_nat (length (seq_enc (aparts (m_Inputs m) v))) < 2 ^ 63 -> UnpackMethodInputs m (seq_enc (aparts (m_Inputs m) v)) = Ret (Ok v).
Proof.
  intros Hr Hn Hv Hl. pose proof (unpack_packed _ v Hr Hv Hl) as E. pose proof (length_seq_enc (aparts (m_Inputs m) v)) as Hs.
  rewrite (proj1 (proj2 static_sizes _ v Hr Hv)) in Hs. unfold UnpackMethodInputs. destruct (seq_enc (aparts (m_Inputs m) v)) as [|x b].
  - destruct (m_Inputs m) as [|t l]; [done|]. cbn [regulars sumSizes length] in *. apply andb_true_iff in Hr as [Ht Hr].
    pose proof (proj1 regular_sizes t Ht). pose proof (proj2 regular_sizes l Hr). lia.
  - rewrite (TM_bind_Ok _ _ _ E). by destruct (m_Inputs m).
Qed.

(** C28: Whatever bytes a transaction carries, unpacking them as the arguments of a
    method of the chain contract that has arguments does not panic, and gives values
    in the ranges of their types or an error. *)
Theorem chain_unpack_typed m data : m ∈ ChainABI -> m_Inputs m <> ANil -> is_bytes data ->
  match UnpackMethodInputs m data with Ret (Ok v) => awts (m_Inputs m) v | Ret (Err _) => True | Panic _ => False end.
Proof.
  intros Hm Hn Hd. destruct (chain_methods m Hm) as [Hpl _]. destruct (plains_ok _ Hpl) as (_ & Hc & _).
  unfold UnpackMethodInputs. destruct data as [|x b]; [done|]. pose proof (proj2 unpack_fine (m_Inputs m) (x :: b) 0 0 Hc Hd ltac:(lia)) as Hf.
  unfold UnpackValues. destruct (forTupleUnpack _ _ _ _) as [[v|]|]; [|done..]. cbn [mbind TM_bind]. by destruct (m_Inputs m).
Qed.

Section Calls.
Context {K : KeccakLib} {KL : KeccakLaws K}.

Lemma length_Method_ID m : length (Method_ID m) = 4%nat.
Proof. unfold Method_ID. by rewrite length_take, keccak_length. Qed.

Lemma MethodOf_ok l m rest : NoDup (map Method_ID l) -> m ∈ l -> MethodOf l (take 4 (Method_ID m ++ rest)) = Ok m.
Proof.
  intros Hd Hm. rewrite take_app_length' by by rewrite length_Method_ID. unfold MethodOf. rewrite length_Method_ID. cbn [Nat.ltb Nat.leb].
  rewrite take_ge by by rewrite length_Method_ID. apply list_elem_of_lookup in Hm as [i Hi].
  assert (list_find (fun m' => Method_ID m' = Method_ID m) l = Some (i, m)) as ->; [|done]. apply list_find_Some. split_and!; [done..|].
  intros j m' Hj Hlt E. assert (j = i); [|lia]. eapply (NoDup_lookup (map Method_ID l)); [done|by rewrite list_lookup_fmap, Hj|rewrite list_lookup_fmap, Hi; cbn; by rewrite E].
Qed.

(** A packed call of a method of the chain contract is recognised by its
    selector, as long as the selectors are different, and its arguments are
    unpacked to the values that were packed. *)
Theorem chain_call_roundtrip m v : NoDup (map Method_ID ChainABI) -> m ∈ ChainABI -> m_Inputs m <> ANil -> awts (m_Inputs m) v ->
  exists data, ABI_Pack m v = Ret (Ok data) /\
    (Z.of_nat (length data) < 2 ^ 63 ->
     ChainABI_MethodById (take 4 data) = Ok (m_Name m) /\ StringToFunctionType (m_Name m) <> fnUnknown /\ UnpackMethodInputs m (drop 4 data) = Ret (Ok v)).
Proof.
  intros Hd Hm Hn Hv. destruct (chain_methods m Hm) as [Hpl Hf]. destruct (plains_ok _ Hpl) as (Hr & _ & Hp).
  pose proof (Arguments_Pack_ok _ v Hr Hv (Hp v)) as Ep. exists (Method_ID m ++ seq_enc (aparts (m_Inputs m) v)).
  unfold ABI_Pack. rewrite (TM_bind_Ok _ _ _ Ep). split; [done|]. intros Hl. rewrite length_app in Hl.
  unfold ChainABI_MethodById. rewrite MethodOf_ok by done. split_and!; [done..|].
  rewrite drop_app_length' by by rewrite length_Method_ID. apply UnpackMethodInputs_ok; [done..|lia].
Qed.

End Calls.

Module ChainAbiExamples.

(** With the Keccak-256 of the source the selectors are different. *)
Lemma selectors_distinct : NoDup (map (Method_ID (K := keccak256_lib)) ChainABI).
Proof. apply (bool_decide_unpack _). by vm_compute. Qed.

Definition alice : bytes := BytesToHash (str_bytes "alice").

Lemma chain_call_roundtrip_witness :
  exists data, ABI_Pack (K := keccak256_lib) mUnDelegate (alice, (1000, tt)) = Ret (Ok data) /\
    (Z.of_nat (length data) < 2 ^ 63 ->
     ChainABI_MethodById (H := keccak256_lib) (take 4 data) = Ok "UnDelegate"%string /\ StringToFunctionType "UnDelegate" <> fnUnknown
     /\ UnpackMethodInputs mUnDelegate (drop 4 data) = Ret (Ok (alice, (1000, tt)))).
Proof.
  apply (chain_call_roundtrip (K := keccak256_lib) (KL := keccak256_laws) mUnDelegate (alice, (1000, tt))).
  - apply selectors_distinct.
  - by apply (list_elem_of_lookup_2 _ 10).
  - done.
  - split_and!; [|done..]. apply (bool_decide_unpack _). by vm_compute.
Defined.

Lemma chain_unpack_typed_witness :
  match UnpackMethodInputs mRegister (replicate 96 255) with Ret (Ok v) => awts (m_Inputs mRegister) v | Ret (Err _) => True | Panic _ => False end.
Proof.
  apply (chain_unpack_typed mRegister (replicate 96 255)); [by apply (list_elem_of_lookup_2 _ 11)|done|].
  apply Forall_replicate. unfold is_byte. lia.
Defined.

End ChainAbiExamples.
