(* ===== verification/ConsensusState.v ===== *)
(** * The consensus state machine

    chain/consensus/tendermint/consensus: state.go and tdmstate.go, with the
    blocks of types/block.go and types/tendermint.go, the signer of
    types/priv_validator.go and state/state.go.  A handler is a function in the
    monad [M]: it reads and writes the [ConsensusState], may panic, and appends
    what it does to the world (timeouts, queued messages, events, commits) to
    [cs_out].  A deferred function is the end of its caller's body.  The clock,
    the chain and the store, as they are while a handler runs, are a [NodeEnv]. *)
From S2P Require Import Prelude BitArray TmTypes ValidatorSet VoteSet HeightVotes PartSet Epoch.
Local Open Scope Z_scope.

(** ** Timeouts (state.go) *)

Record TimeoutParams := {
  WaitForMinerBlock0 : Z;
  Propose0 : Z;
  ProposeDelta : Z;
  Prevote0 : Z;
  PrevoteDelta : Z;
  Precommit0 : Z;
  PrecommitDelta : Z;
  Commit0 : Z;
}.

(** [time.Duration(ms) * time.Millisecond], in nanoseconds. *)
Definition milliseconds (ms : Z) : Z := i64 (ms * 10 ^ 6).

Definition TimeoutParams_WaitForMinerBlock (tp : TimeoutParams) : Z := milliseconds (WaitForMinerBlock0 tp).

Definition TimeoutParams_Propose (tp : TimeoutParams) (round : Z) : Z :=
  let round := if 5 <=? round then 4 else round in
  milliseconds (i64 (Propose0 tp + ProposeDelta tp * round)).

(** [pow15 n] is [int(math.Pow(1.5, float64(n)))]. *)
Definition TimeoutParams_Prevote (pow15 : Z -> Z) (tp : TimeoutParams) (round : Z) : Z :=
  if round <? 5 then milliseconds (i64 (Prevote0 tp + PrevoteDelta tp * round))
  else milliseconds (i64 (Prevote0 tp + PrevoteDelta tp * pow15 (round - 1))).

Definition TimeoutParams_Precommit (pow15 : Z -> Z) (tp : TimeoutParams) (round : Z) : Z :=
  if round <? 5 then milliseconds (i64 (Precommit0 tp + PrecommitDelta tp * round))
  else milliseconds (i64 (Precommit0 tp + PrecommitDelta tp * pow15 (round - 1))).

Definition TimeoutParams_Commit (tp : TimeoutParams) (t : Z) : Z := t + milliseconds (Commit0 tp).

Definition RoundStepNewHeight : Z := 1.
Definition RoundStepNewRound : Z := 2.
Definition RoundStepWaitForMinerBlock : Z := 3.
Definition RoundStepPropose : Z := 4.
Definition RoundStepPrevote : Z := 5.
Definition RoundStepPrevoteWait : Z := 6.
Definition RoundStepPrecommit : Z := 7.
Definition RoundStepPrecommitWait : Z := 8.
Definition RoundStepCommit : Z := 9.

Definition ROUND_NOT_PROPOSED : Z := 0.
Definition ROUND_PROPOSED : Z := 1.

(** The [LigoChainId] of params/config.go. *)
Definition MainnetChainId : string := "ligochain".
Definition TestnetChainId : string := "testnet".
Definition is_side_chain (chainID : string) : bool :=
  negb (String.eqb chainID MainnetChainId) && negb (String.eqb chainID TestnetChainId).

(** ** Transactions and blocks *)

Record Tx := { tx_To : option bytes; tx_Data : bytes }.

Record Block := { blk_Number : Z; blk_Time : Z; blk_Transactions : list Tx }.

(** The functions of the chain contract that the state machine looks for. *)
Inductive FunctionType := WithdrawFromMainChain | WithdrawFromSideChain | OtherFunction.

(** ** Libraries: hashes (merkle-go, sha256), encodings (wire-go, rlp), the
    contract ABI, and the floating-point power of the timeouts. *)
Class NodeLib `{BitArrayLib} := {
  TX3ProofData : Type;
  IntermediateBlockResult : Type;
  BA_nil : BA;
  SimpleHashFromMap : string -> Z -> Z -> bool -> bool -> Z -> bytes -> bytes -> bytes;
  SimpleHashFromBinary : Commit -> bytes;
  SimpleHashFromHashables : list Validator -> bytes;
  sha256 : bytes -> bytes;
  ChainContractMagicAddr : bytes;
  FunctionTypeFromId : bytes -> option FunctionType;
  UnpackWithdrawFromMainChain : bytes -> option (string * bytes);
  math_Pow15 : Z -> Z;
}.

Section Blocks.
Context `{BitArrayLib} `{!NodeLib}.

Record TendermintExtra := {
  te_ChainID : string;
  te_Height : Z;
  te_Time : Z;
  te_NeedToSave : bool;
  te_NeedToBroadcast : bool;
  te_EpochNumber : Z;
  te_SeenCommitHash : bytes;
  te_ValidatorsHash : bytes;
  te_SeenCommit : option Commit;
  te_EpochBytes : bytes;
}.

Definition TendermintExtra_Hash (te : TendermintExtra) : bytes :=
  if bool_decide (te_ValidatorsHash te = []) then []
  else SimpleHashFromMap (te_ChainID te) (te_Height te) (te_Time te) (te_NeedToSave te)
         (te_NeedToBroadcast te) (te_EpochNumber te) (te_ValidatorsHash te) (te_EpochBytes te).

(** A block read from the wire may lack its extra data. *)
Record NCBlock := {
  nb_Block : Block;
  nb_NTCExtra : option TendermintExtra;
  nb_TX3ProofData : list TX3ProofData;
  nb_IntermediateResult : option IntermediateBlockResult;
}.

Definition nb_set_extra (b : NCBlock) (te : TendermintExtra) : NCBlock :=
  {| nb_Block := nb_Block b; nb_NTCExtra := Some te; nb_TX3ProofData := nb_TX3ProofData b;
     nb_IntermediateResult := nb_IntermediateResult b |}.

Definition deref {A} (p : option A) : outcome A :=
  match p with Some a => Ret a | None => Panic "nil pointer dereference" end.

Definition NCBlock_ValidateBasic (b : NCBlock) (ncExtra : TendermintExtra) : outcome (option string) :=
  te ← deref (nb_NTCExtra b);
  if negb (String.eqb (te_ChainID te) (te_ChainID ncExtra)) then Ret (Some "Wrong Block.Header.ChainID"%string)
  else if negb (te_Height te =? u64 (te_Height ncExtra + 1)) then Ret (Some "Wrong Block.Header.Height"%string)
  else Ret None.

(** Filling SeenCommitHash, which the hash does not cover, is left out. *)
Definition NCBlock_Hash (b : option NCBlock) : outcome bytes :=
  match b with
  | None => Ret []
  | Some b =>
      te ← deref (nb_NTCExtra b);
      match te_SeenCommit te with
      | None => Ret []
      | Some _ => Ret (TendermintExtra_Hash te)
      end
  end.

Definition NCBlock_HashesTo (b : option NCBlock) (hash : bytes) : outcome bool :=
  if bool_decide (hash = []) then Ret false
  else match b with
  | None => Ret false
  | Some _ => h ← NCBlock_Hash b; Ret (bool_decide (h = hash))
  end.

Definition ValidatorSet_Hash (valSet : ValidatorSet) : bytes :=
  if bool_decide (vals valSet = []) then [] else SimpleHashFromHashables (vals valSet).

(** The codec of a block: TmpBlock through wire-go, the inner block through rlp. *)
Class BlockCodec := {
  wire_BinaryBytes_tmp : bytes -> option TendermintExtra -> list TX3ProofData -> bytes;
  wire_ReadBinary_tmp : bytes -> option (bytes * option TendermintExtra * list TX3ProofData);
  rlp_EncodeToBytes : Block -> bytes;
  rlp_DecodeBytes : bytes -> option Block;
  wire_ReadBinary_extra : bytes -> option TendermintExtra;
}.

Context `{!BlockCodec} `{!MerkleLib}.

Definition NCBlock_ToBytes (b : NCBlock) : bytes :=
  wire_BinaryBytes_tmp (rlp_EncodeToBytes (nb_Block b)) (nb_NTCExtra b) (nb_TX3ProofData b).

Definition NCBlock_FromBytes (data : bytes) : result string NCBlock :=
  match wire_ReadBinary_tmp data with
  | None => Err "NCBlock.FromBytes 0"%string
  | Some (blockData, extra, tx3) =>
      match rlp_DecodeBytes blockData with
      | None => Err "NCBlock.FromBytes 1"%string
      | Some block => Ok {| nb_Block := block; nb_NTCExtra := extra; nb_TX3ProofData := tx3; nb_IntermediateResult := None |}
      end
  end.

Definition NCBlock_MakePartSet (b : NCBlock) (partSize : Z) : outcome PartSet :=
  NewPartSetFromData (NCBlock_ToBytes b) partSize.

Definition MakeBlock (now : Z) (height : Z) (chainID : string) (commit : Commit) (block : Block) (valHash : bytes)
    (epochNumber : Z) (epochBytes : bytes) (tx3ProofData : list TX3ProofData) (partSize : Z)
    : outcome (NCBlock * PartSet) :=
  let NTCExtra := {| te_ChainID := chainID; te_Height := height; te_Time := now; te_NeedToSave := false;
                     te_NeedToBroadcast := false; te_EpochNumber := epochNumber; te_SeenCommitHash := [];
                     te_ValidatorsHash := valHash; te_SeenCommit := Some commit; te_EpochBytes := epochBytes |} in
  let ncBlock := {| nb_Block := block; nb_NTCExtra := Some NTCExtra; nb_TX3ProofData := tx3ProofData;
                    nb_IntermediateResult := None |} in
  parts ← NCBlock_MakePartSet ncBlock partSize;
  Ret (ncBlock, parts).

(** ** The chain state (state/state.go) *)

Record State := { st_NTCExtra : TendermintExtra; st_Epoch : option Epoch }.

Definition State_GetValidators (s : State) : outcome (option ValidatorSet * option ValidatorSet * option string) :=
  match st_Epoch s with
  | None => Ret (None, None, Some "epoch does not exist"%string)
  | Some epoch =>
      if te_EpochNumber (st_NTCExtra s) =? ep_Number epoch
      then Ret (Some (ep_Validators epoch), Some (ep_Validators epoch), None)
      else if te_EpochNumber (st_NTCExtra s) =? u64 (ep_Number epoch - 1) then
        prev ← deref (ep_previousEpoch epoch);
        Ret (Some (ep_Validators prev), Some (ep_Validators epoch), None)
      else Ret (None, None, Some "epoch information error"%string)
  end.

Definition MakeGenesisState (now : Z) (chainID : string) : State :=
  {| st_NTCExtra := {| te_ChainID := chainID; te_Height := 0; te_Time := now; te_NeedToSave := false;
                       te_NeedToBroadcast := false; te_EpochNumber := 0; te_SeenCommitHash := [];
                       te_ValidatorsHash := []; te_SeenCommit := None; te_EpochBytes := [] |};
     st_Epoch := None |}.

End Blocks.

(** ** The signer (priv_validator.go) *)

Record PrivValidator := { pv_Address : bytes; pv_PubKey : bytes; pv_Sign : bytes -> option bytes }.

Definition PrivValidator_SignVote `{WireLib} (pv : PrivValidator) (chainID : string) (vote : Vote) : outcome Vote :=
  msg ← SignBytes chainID vote;
  Ret {| v_ValidatorAddress := v_ValidatorAddress vote; v_ValidatorIndex := v_ValidatorIndex vote;
         v_Height := v_Height vote; v_Round := v_Round vote; v_Type := v_Type vote; v_BlockID := v_BlockID vote;
         v_Signature := pv_Sign pv msg; v_SignBytes := v_SignBytes vote |}.

Definition PrivValidator_SignProposal `{WireLib} (pv : PrivValidator) (chainID : string) (proposal : Proposal)
    : outcome Proposal :=
  msg ← SignBytes chainID proposal;
  Ret {| p_NodeID := p_NodeID proposal; p_Height := p_Height proposal; p_Round := p_Round proposal;
         p_Hash := p_Hash proposal; p_BlockPartsHeader := p_BlockPartsHeader proposal;
         p_POLRound := p_POLRound proposal; p_POLBlockID := p_POLBlockID proposal;
         p_ProposerNetAddr := p_ProposerNetAddr proposal; p_ProposerPeerKey := p_ProposerPeerKey proposal;
         p_Signature := pv_Sign pv msg |}.

(** ** The state machine *)

Record VRFProposer := { vp_Height : Z; vp_Round : Z; vp_valIndex : Z; vp_Proposer : Validator }.

Definition VRFProposer_Validate (proposer : VRFProposer) (height round : Z) : bool :=
  if (vp_Height proposer =? height) && (vp_Round proposer =? round) then true else false.

Inductive CSError :=
  | ErrInvalidProposalSignature
  | ErrInvalidProposalPOLRound
  | ErrAddingVote
  | ErrVoteHeightMismatch
  | ErrInvalidSignatureAggr
  | ErrDuplicateSignatureAggr
  | ErrVote (e : VoteError)
  | ErrPart (e : PartSetError)
  | ErrOther (msg : string).

Section Machine.
Context `{BitArrayLib} `{CryptoLib} `{WireLib} `{!NodeLib} `{!BlockCodec} `{!MerkleLib} `{EpochCodec}.

Inductive ConsensusMessage :=
  | ProposalMessage (p : Proposal)
  | BlockPartMessage (height round : Z) (part : Part)
  | Maj23SignAggrMessage (sa : option SignAggr)
  | VoteMessage (vote : Vote).

Inductive Event :=
  | EventNewRound (h r s : Z)
  | EventNewRoundStep (h r s : Z)
  | EventTimeoutPropose (h r s : Z)
  | EventTimeoutWait (h r s : Z)
  | EventPolka (h r s : Z)
  | EventUnlock (h r s : Z)
  | EventRelock (h r s : Z)
  | EventLock (h r s : Z)
  | EventNewBlock (b : NCBlock)
  | EventNewBlockHeader (h : Z)
  | EventVote2Proposer (vote : Vote) (peerKey : string)
  | EventSignAggr (sa : SignAggr).

(** What a handler does to the world, in order. *)
Inductive Output :=
  | OEvent (e : Event)
  | OTimeout (duration height round step : Z)
  | OInternal (msg : ConsensusMessage)
  | OCommit (b : NCBlock)
  | OTryFixBadPreimages
  | OSaveBlockToMainChain (height : Z)
  | OBroadcastTX3ProofData (height : Z).

(** The round state and the fields of the machine the handlers use.
    [cs_blockShared] says that ProposalBlock and LockedBlock are one object;
    [cs_out] collects what the handlers emit. *)
Record ConsensusState := {
  cs_Height : Z;
  cs_Round : Z;
  cs_Step : Z;
  cs_StartTime : Z;
  cs_CommitTime : option Z;
  cs_Validators : option ValidatorSet;
  cs_Proposal : option Proposal;
  cs_ProposalBlock : option NCBlock;
  cs_ProposalBlockParts : option PartSet;
  cs_ProposerPeerKey : string;
  cs_LockedRound : Z;
  cs_LockedBlock : option NCBlock;
  cs_LockedBlockParts : option PartSet;
  cs_blockShared : bool;
  cs_Votes : option HeightVoteSet;
  cs_VoteSignAggr : option HeightVoteSignAggr;
  cs_CommitRound : Z;
  cs_PrevoteMaj23SignAggr : option SignAggr;
  cs_PrecommitMaj23SignAggr : option SignAggr;
  cs_proposer : option VRFProposer;
  cs_isProposer : bool;
  cs_Epoch : Epoch;
  cs_state : option State;
  cs_vrfValIndex : Z;
  cs_pastRoundStates : gmap Z Z;
  cs_blockFromMiner : option Block;
  cs_nSteps : Z;
  cs_out : list Output;
}.

(** Assignments to the fields. *)
Definition set_Height (v : Z) (cs : ConsensusState) : ConsensusState :=
  {| cs_Height := v; cs_Round := cs_Round cs; cs_Step := cs_Step cs; cs_StartTime := cs_StartTime cs; cs_CommitTime :=
     cs_CommitTime cs; cs_Validators := cs_Validators cs; cs_Proposal := cs_Proposal cs; cs_ProposalBlock :=
     cs_ProposalBlock cs; cs_ProposalBlockParts := cs_ProposalBlockParts cs; cs_ProposerPeerKey := cs_ProposerPeerKey
     cs; cs_LockedRound := cs_LockedRound cs; cs_LockedBlock := cs_LockedBlock cs; cs_LockedBlockParts :=
     cs_LockedBlockParts cs; cs_blockShared := cs_blockShared cs; cs_Votes := cs_Votes cs; cs_VoteSignAggr :=
     cs_VoteSignAggr cs; cs_CommitRound := cs_CommitRound cs; cs_PrevoteMaj23SignAggr := cs_PrevoteMaj23SignAggr cs;
     cs_PrecommitMaj23SignAggr := cs_PrecommitMaj23SignAggr cs; cs_proposer := cs_proposer cs; cs_isProposer :=
     cs_isProposer cs; cs_Epoch := cs_Epoch cs; cs_state := cs_state cs; cs_vrfValIndex := cs_vrfValIndex cs;
     cs_pastRoundStates := cs_pastRoundStates cs; cs_blockFromMiner := cs_blockFromMiner cs; cs_nSteps := cs_nSteps
     cs; cs_out := cs_out cs |}.
Definition set_Round (v : Z) (cs : ConsensusState) : ConsensusState :=
  {| cs_Height := cs_Height cs; cs_Round := v; cs_Step := cs_Step cs; cs_StartTime := cs_StartTime cs; cs_CommitTime
     := cs_CommitTime cs; cs_Validators := cs_Validators cs; cs_Proposal := cs_Proposal cs; cs_ProposalBlock :=
     cs_ProposalBlock cs; cs_ProposalBlockParts := cs_ProposalBlockParts cs; cs_ProposerPeerKey := cs_ProposerPeerKey
     cs; cs_LockedRound := cs_LockedRound cs; cs_LockedBlock := cs_LockedBlock cs; cs_LockedBlockParts :=
     cs_LockedBlockParts cs; cs_blockShared := cs_blockShared cs; cs_Votes := cs_Votes cs; cs_VoteSignAggr :=
     cs_VoteSignAggr cs; cs_CommitRound := cs_CommitRound cs; cs_PrevoteMaj23SignAggr := cs_PrevoteMaj23SignAggr cs;
     cs_PrecommitMaj23SignAggr := cs_PrecommitMaj23SignAggr cs; cs_proposer := cs_proposer cs; cs_isProposer :=
     cs_isProposer cs; cs_Epoch := cs_Epoch cs; cs_state := cs_state cs; cs_vrfValIndex := cs_vrfValIndex cs;
     cs_pastRoundStates := cs_pastRoundStates cs; cs_blockFromMiner := cs_blockFromMiner cs; cs_nSteps := cs_nSteps
     cs; cs_out := cs_out cs |}.
Definition set_Step (v : Z) (cs : ConsensusState) : ConsensusState :=
  {| cs_Height := cs_Height cs; cs_Round := cs_Round cs; cs_Step := v; cs_StartTime := cs_StartTime cs; cs_CommitTime
     := cs_CommitTime cs; cs_Validators := cs_Validators cs; cs_Proposal := cs_Proposal cs; cs_ProposalBlock :=
     cs_ProposalBlock cs; cs_ProposalBlockParts := cs_ProposalBlockParts cs; cs_ProposerPeerKey := cs_ProposerPeerKey
     cs; cs_LockedRound := cs_LockedRound cs; cs_LockedBlock := cs_LockedBlock cs; cs_LockedBlockParts :=
     cs_LockedBlockParts cs; cs_blockShared := cs_blockShared cs; cs_Votes := cs_Votes cs; cs_VoteSignAggr :=
     cs_VoteSignAggr cs; cs_CommitRound := cs_CommitRound cs; cs_PrevoteMaj23SignAggr := cs_PrevoteMaj23SignAggr cs;
     cs_PrecommitMaj23SignAggr := cs_PrecommitMaj23SignAggr cs; cs_proposer := cs_proposer cs; cs_isProposer :=
     cs_isProposer cs; cs_Epoch := cs_Epoch cs; cs_state := cs_state cs; cs_vrfValIndex := cs_vrfValIndex cs;
     cs_pastRoundStates := cs_pastRoundStates cs; cs_blockFromMiner := cs_blockFromMiner cs; cs_nSteps := cs_nSteps
     cs; cs_out := cs_out cs |}.
Definition set_StartTime (v : Z) (cs : ConsensusState) : ConsensusState :=
  {| cs_Height := cs_Height cs; cs_Round := cs_Round cs; cs_Step := cs_Step cs; cs_StartTime := v; cs_CommitTime :=
     cs_CommitTime cs; cs_Validators := cs_Validators cs; cs_Proposal := cs_Proposal cs; cs_ProposalBlock :=
     cs_ProposalBlock cs; cs_ProposalBlockParts := cs_ProposalBlockParts cs; cs_ProposerPeerKey := cs_ProposerPeerKey
     cs; cs_LockedRound := cs_LockedRound cs; cs_LockedBlock := cs_LockedBlock cs; cs_LockedBlockParts :=
     cs_LockedBlockParts cs; cs_blockShared := cs_blockShared cs; cs_Votes := cs_Votes cs; cs_VoteSignAggr :=
     cs_VoteSignAggr cs; cs_CommitRound := cs_CommitRound cs; cs_PrevoteMaj23SignAggr := cs_PrevoteMaj23SignAggr cs;
     cs_PrecommitMaj23SignAggr := cs_PrecommitMaj23SignAggr cs; cs_proposer := cs_proposer cs; cs_isProposer :=
     cs_isProposer cs; cs_Epoch := cs_Epoch cs; cs_state := cs_state cs; cs_vrfValIndex := cs_vrfValIndex cs;
     cs_pastRoundStates := cs_pastRoundStates cs; cs_blockFromMiner := cs_blockFromMiner cs; cs_nSteps := cs_nSteps
     cs; cs_out := cs_out cs |}.
Definition set_CommitTime (v : option Z) (cs : ConsensusState) : ConsensusState :=
  {| cs_Height := cs_Height cs; cs_Round := cs_Round cs; cs_Step := cs_Step cs; cs_StartTime := cs_StartTime cs;
     cs_CommitTime := v; cs_Validators := cs_Validators cs; cs_Proposal := cs_Proposal cs; cs_ProposalBlock :=
     cs_ProposalBlock cs; cs_ProposalBlockParts := cs_ProposalBlockParts cs; cs_ProposerPeerKey := cs_ProposerPeerKey
     cs; cs_LockedRound := cs_LockedRound cs; cs_LockedBlock := cs_LockedBlock cs; cs_LockedBlockParts :=
     cs_LockedBlockParts cs; cs_blockShared := cs_blockShared cs; cs_Votes := cs_Votes cs; cs_VoteSignAggr :=
     cs_VoteSignAggr cs; cs_CommitRound := cs_CommitRound cs; cs_PrevoteMaj23SignAggr := cs_PrevoteMaj23SignAggr cs;
     cs_PrecommitMaj23SignAggr := cs_PrecommitMaj23SignAggr cs; cs_proposer := cs_proposer cs; cs_isProposer :=
     cs_isProposer cs; cs_Epoch := cs_Epoch cs; cs_state := cs_state cs; cs_vrfValIndex := cs_vrfValIndex cs;
     cs_pastRoundStates := cs_pastRoundStates cs; cs_blockFromMiner := cs_blockFromMiner cs; cs_nSteps := cs_nSteps
     cs; cs_out := cs_out cs |}.
Definition set_Validators (v : option ValidatorSet) (cs : ConsensusState) : ConsensusState :=
  {| cs_Height := cs_Height cs; cs_Round := cs_Round cs; cs_Step := cs_Step cs; cs_StartTime := cs_StartTime cs;
     cs_CommitTime := cs_CommitTime cs; cs_Validators := v; cs_Proposal := cs_Proposal cs; cs_ProposalBlock :=
     cs_ProposalBlock cs; cs_ProposalBlockParts := cs_ProposalBlockParts cs; cs_ProposerPeerKey := cs_ProposerPeerKey
     cs; cs_LockedRound := cs_LockedRound cs; cs_LockedBlock := cs_LockedBlock cs; cs_LockedBlockParts :=
     cs_LockedBlockParts cs; cs_blockShared := cs_blockShared cs; cs_Votes := cs_Votes cs; cs_VoteSignAggr :=
     cs_VoteSignAggr cs; cs_CommitRound := cs_CommitRound cs; cs_PrevoteMaj23SignAggr := cs_PrevoteMaj23SignAggr cs;
     cs_PrecommitMaj23SignAggr := cs_PrecommitMaj23SignAggr cs; cs_proposer := cs_proposer cs; cs_isProposer :=
     cs_isProposer cs; cs_Epoch := cs_Epoch cs; cs_state := cs_state cs; cs_vrfValIndex := cs_vrfValIndex cs;
     cs_pastRoundStates := cs_pastRoundStates cs; cs_blockFromMiner := cs_blockFromMiner cs; cs_nSteps := cs_nSteps
     cs; cs_out := cs_out cs |}.
Definition set_Proposal (v : option Proposal) (cs : ConsensusState) : ConsensusState :=
  {| cs_Height := cs_Height cs; cs_Round := cs_Round cs; cs_Step := cs_Step cs; cs_StartTime := cs_StartTime cs;
     cs_CommitTime := cs_CommitTime cs; cs_Validators := cs_Validators cs; cs_Proposal := v; cs_ProposalBlock :=
     cs_ProposalBlock cs; cs_ProposalBlockParts := cs_ProposalBlockParts cs; cs_ProposerPeerKey := cs_ProposerPeerKey
     cs; cs_LockedRound := cs_LockedRound cs; cs_LockedBlock := cs_LockedBlock cs; cs_LockedBlockParts :=
     cs_LockedBlockParts cs; cs_blockShared := cs_blockShared cs; cs_Votes := cs_Votes cs; cs_VoteSignAggr :=
     cs_VoteSignAggr cs; cs_CommitRound := cs_CommitRound cs; cs_PrevoteMaj23SignAggr := cs_PrevoteMaj23SignAggr cs;
     cs_PrecommitMaj23SignAggr := cs_PrecommitMaj23SignAggr cs; cs_proposer := cs_proposer cs; cs_isProposer :=
     cs_isProposer cs; cs_Epoch := cs_Epoch cs; cs_state := cs_state cs; cs_vrfValIndex := cs_vrfValIndex cs;
     cs_pastRoundStates := cs_pastRoundStates cs; cs_blockFromMiner := cs_blockFromMiner cs; cs_nSteps := cs_nSteps
     cs; cs_out := cs_out cs |}.
Definition set_ProposalBlock (v : option NCBlock) (cs : ConsensusState) : ConsensusState :=
  {| cs_Height := cs_Height cs; cs_Round := cs_Round cs; cs_Step := cs_Step cs; cs_StartTime := cs_StartTime cs;
     cs_CommitTime := cs_CommitTime cs; cs_Validators := cs_Validators cs; cs_Proposal := cs_Proposal cs;
     cs_ProposalBlock := v; cs_ProposalBlockParts := cs_ProposalBlockParts cs; cs_ProposerPeerKey :=
     cs_ProposerPeerKey cs; cs_LockedRound := cs_LockedRound cs; cs_LockedBlock := cs_LockedBlock cs;
     cs_LockedBlockParts := cs_LockedBlockParts cs; cs_blockShared := cs_blockShared cs; cs_Votes := cs_Votes cs;
     cs_VoteSignAggr := cs_VoteSignAggr cs; cs_CommitRound := cs_CommitRound cs; cs_PrevoteMaj23SignAggr :=
     cs_PrevoteMaj23SignAggr cs; cs_PrecommitMaj23SignAggr := cs_PrecommitMaj23SignAggr cs; cs_proposer := cs_proposer
     cs; cs_isProposer := cs_isProposer cs; cs_Epoch := cs_Epoch cs; cs_state := cs_state cs; cs_vrfValIndex :=
     cs_vrfValIndex cs; cs_pastRoundStates := cs_pastRoundStates cs; cs_blockFromMiner := cs_blockFromMiner cs;
     cs_nSteps := cs_nSteps cs; cs_out := cs_out cs |}.
Definition set_ProposalBlockParts (v : option PartSet) (cs : ConsensusState) : ConsensusState :=
  {| cs_Height := cs_Height cs; cs_Round := cs_Round cs; cs_Step := cs_Step cs; cs_StartTime := cs_StartTime cs;
     cs_CommitTime := cs_CommitTime cs; cs_Validators := cs_Validators cs; cs_Proposal := cs_Proposal cs;
     cs_ProposalBlock := cs_ProposalBlock cs; cs_ProposalBlockParts := v; cs_ProposerPeerKey := cs_ProposerPeerKey cs;
     cs_LockedRound := cs_LockedRound cs; cs_LockedBlock := cs_LockedBlock cs; cs_LockedBlockParts :=
     cs_LockedBlockParts cs; cs_blockShared := cs_blockShared cs; cs_Votes := cs_Votes cs; cs_VoteSignAggr :=
     cs_VoteSignAggr cs; cs_CommitRound := cs_CommitRound cs; cs_PrevoteMaj23SignAggr := cs_PrevoteMaj23SignAggr cs;
     cs_PrecommitMaj23SignAggr := cs_PrecommitMaj23SignAggr cs; cs_proposer := cs_proposer cs; cs_isProposer :=
     cs_isProposer cs; cs_Epoch := cs_Epoch cs; cs_state := cs_state cs; cs_vrfValIndex := cs_vrfValIndex cs;
     cs_pastRoundStates := cs_pastRoundStates cs; cs_blockFromMiner := cs_blockFromMiner cs; cs_nSteps := cs_nSteps
     cs; cs_out := cs_out cs |}.
Definition set_ProposerPeerKey (v : string) (cs : ConsensusState) : ConsensusState :=
  {| cs_Height := cs_Height cs; cs_Round := cs_Round cs; cs_Step := cs_Step cs; cs_StartTime := cs_StartTime cs;
     cs_CommitTime := cs_CommitTime cs; cs_Validators := cs_Validators cs; cs_Proposal := cs_Proposal cs;
     cs_ProposalBlock := cs_ProposalBlock cs; cs_ProposalBlockParts := cs_ProposalBlockParts cs; cs_ProposerPeerKey :=
     v; cs_LockedRound := cs_LockedRound cs; cs_LockedBlock := cs_LockedBlock cs; cs_LockedBlockParts :=
     cs_LockedBlockParts cs; cs_blockShared := cs_blockShared cs; cs_Votes := cs_Votes cs; cs_VoteSignAggr :=
     cs_VoteSignAggr cs; cs_CommitRound := cs_CommitRound cs; cs_PrevoteMaj23SignAggr := cs_PrevoteMaj23SignAggr cs;
     cs_PrecommitMaj23SignAggr := cs_PrecommitMaj23SignAggr cs; cs_proposer := cs_proposer cs; cs_isProposer :=
     cs_isProposer cs; cs_Epoch := cs_Epoch cs; cs_state := cs_state cs; cs_vrfValIndex := cs_vrfValIndex cs;
     cs_pastRoundStates := cs_pastRoundStates cs; cs_blockFromMiner := cs_blockFromMiner cs; cs_nSteps := cs_nSteps
     cs; cs_out := cs_out cs |}.
Definition set_LockedRound (v : Z) (cs : ConsensusState) : ConsensusState :=
  {| cs_Height := cs_Height cs; cs_Round := cs_Round cs; cs_Step := cs_Step cs; cs_StartTime := cs_StartTime cs;
     cs_CommitTime := cs_CommitTime cs; cs_Validators := cs_Validators cs; cs_Proposal := cs_Proposal cs;
     cs_ProposalBlock := cs_ProposalBlock cs; cs_ProposalBlockParts := cs_ProposalBlockParts cs; cs_ProposerPeerKey :=
     cs_ProposerPeerKey cs; cs_LockedRound := v; cs_LockedBlock := cs_LockedBlock cs; cs_LockedBlockParts :=
     cs_LockedBlockParts cs; cs_blockShared := cs_blockShared cs; cs_Votes := cs_Votes cs; cs_VoteSignAggr :=
     cs_VoteSignAggr cs; cs_CommitRound := cs_CommitRound cs; cs_PrevoteMaj23SignAggr := cs_PrevoteMaj23SignAggr cs;
     cs_PrecommitMaj23SignAggr := cs_PrecommitMaj23SignAggr cs; cs_proposer := cs_proposer cs; cs_isProposer :=
     cs_isProposer cs; cs_Epoch := cs_Epoch cs; cs_state := cs_state cs; cs_vrfValIndex := cs_vrfValIndex cs;
     cs_pastRoundStates := cs_pastRoundStates cs; cs_blockFromMiner := cs_blockFromMiner cs; cs_nSteps := cs_nSteps
     cs; cs_out := cs_out cs |}.
Definition set_LockedBlock (v : option NCBlock) (cs : ConsensusState) : ConsensusState :=
  {| cs_Height := cs_Height cs; cs_Round := cs_Round cs; cs_Step := cs_Step cs; cs_StartTime := cs_StartTime cs;
     cs_CommitTime := cs_CommitTime cs; cs_Validators := cs_Validators cs; cs_Proposal := cs_Proposal cs;
     cs_ProposalBlock := cs_ProposalBlock cs; cs_ProposalBlockParts := cs_ProposalBlockParts cs; cs_ProposerPeerKey :=
     cs_ProposerPeerKey cs; cs_LockedRound := cs_LockedRound cs; cs_LockedBlock := v; cs_LockedBlockParts :=
     cs_LockedBlockParts cs; cs_blockShared := cs_blockShared cs; cs_Votes := cs_Votes cs; cs_VoteSignAggr :=
     cs_VoteSignAggr cs; cs_CommitRound := cs_CommitRound cs; cs_PrevoteMaj23SignAggr := cs_PrevoteMaj23SignAggr cs;
     cs_PrecommitMaj23SignAggr := cs_PrecommitMaj23SignAggr cs; cs_proposer := cs_proposer cs; cs_isProposer :=
     cs_isProposer cs; cs_Epoch := cs_Epoch cs; cs_state := cs_state cs; cs_vrfValIndex := cs_vrfValIndex cs;
     cs_pastRoundStates := cs_pastRoundStates cs; cs_blockFromMiner := cs_blockFromMiner cs; cs_nSteps := cs_nSteps
     cs; cs_out := cs_out cs |}.
Definition set_LockedBlockParts (v : option PartSet) (cs : ConsensusState) : ConsensusState :=
  {| cs_Height := cs_Height cs; cs_Round := cs_Round cs; cs_Step := cs_Step cs; cs_StartTime := cs_StartTime cs;
     cs_CommitTime := cs_CommitTime cs; cs_Validators := cs_Validators cs; cs_Proposal := cs_Proposal cs;
     cs_ProposalBlock := cs_ProposalBlock cs; cs_ProposalBlockParts := cs_ProposalBlockParts cs; cs_ProposerPeerKey :=
     cs_ProposerPeerKey cs; cs_LockedRound := cs_LockedRound cs; cs_LockedBlock := cs_LockedBlock cs;
     cs_LockedBlockParts := v; cs_blockShared := cs_blockShared cs; cs_Votes := cs_Votes cs; cs_VoteSignAggr :=
     cs_VoteSignAggr cs; cs_CommitRound := cs_CommitRound cs; cs_PrevoteMaj23SignAggr := cs_PrevoteMaj23SignAggr cs;
     cs_PrecommitMaj23SignAggr := cs_PrecommitMaj23SignAggr cs; cs_proposer := cs_proposer cs; cs_isProposer :=
     cs_isProposer cs; cs_Epoch := cs_Epoch cs; cs_state := cs_state cs; cs_vrfValIndex := cs_vrfValIndex cs;
     cs_pastRoundStates := cs_pastRoundStates cs; cs_blockFromMiner := cs_blockFromMiner cs; cs_nSteps := cs_nSteps
     cs; cs_out := cs_out cs |}.
Definition set_blockShared (v : bool) (cs : ConsensusState) : ConsensusState :=
  {| cs_Height := cs_Height cs; cs_Round := cs_Round cs; cs_Step := cs_Step cs; cs_StartTime := cs_StartTime cs;
     cs_CommitTime := cs_CommitTime cs; cs_Validators := cs_Validators cs; cs_Proposal := cs_Proposal cs;
     cs_ProposalBlock := cs_ProposalBlock cs; cs_ProposalBlockParts := cs_ProposalBlockParts cs; cs_ProposerPeerKey :=
     cs_ProposerPeerKey cs; cs_LockedRound := cs_LockedRound cs; cs_LockedBlock := cs_LockedBlock cs;
     cs_LockedBlockParts := cs_LockedBlockParts cs; cs_blockShared := v; cs_Votes := cs_Votes cs; cs_VoteSignAggr :=
     cs_VoteSignAggr cs; cs_CommitRound := cs_CommitRound cs; cs_PrevoteMaj23SignAggr := cs_PrevoteMaj23SignAggr cs;
     cs_PrecommitMaj23SignAggr := cs_PrecommitMaj23SignAggr cs; cs_proposer := cs_proposer cs; cs_isProposer :=
     cs_isProposer cs; cs_Epoch := cs_Epoch cs; cs_state := cs_state cs; cs_vrfValIndex := cs_vrfValIndex cs;
     cs_pastRoundStates := cs_pastRoundStates cs; cs_blockFromMiner := cs_blockFromMiner cs; cs_nSteps := cs_nSteps
     cs; cs_out := cs_out cs |}.
Definition set_Votes (v : option HeightVoteSet) (cs : ConsensusState) : ConsensusState :=
  {| cs_Height := cs_Height cs; cs_Round := cs_Round cs; cs_Step := cs_Step cs; cs_StartTime := cs_StartTime cs;
     cs_CommitTime := cs_CommitTime cs; cs_Validators := cs_Validators cs; cs_Proposal := cs_Proposal cs;
     cs_ProposalBlock := cs_ProposalBlock cs; cs_ProposalBlockParts := cs_ProposalBlockParts cs; cs_ProposerPeerKey :=
     cs_ProposerPeerKey cs; cs_LockedRound := cs_LockedRound cs; cs_LockedBlock := cs_LockedBlock cs;
     cs_LockedBlockParts := cs_LockedBlockParts cs; cs_blockShared := cs_blockShared cs; cs_Votes := v;
     cs_VoteSignAggr := cs_VoteSignAggr cs; cs_CommitRound := cs_CommitRound cs; cs_PrevoteMaj23SignAggr :=
     cs_PrevoteMaj23SignAggr cs; cs_PrecommitMaj23SignAggr := cs_PrecommitMaj23SignAggr cs; cs_proposer := cs_proposer
     cs; cs_isProposer := cs_isProposer cs; cs_Epoch := cs_Epoch cs; cs_state := cs_state cs; cs_vrfValIndex :=
     cs_vrfValIndex cs; cs_pastRoundStates := cs_pastRoundStates cs; cs_blockFromMiner := cs_blockFromMiner cs;
     cs_nSteps := cs_nSteps cs; cs_out := cs_out cs |}.
Definition set_VoteSignAggr (v : option HeightVoteSignAggr) (cs : ConsensusState) : ConsensusState :=
  {| cs_Height := cs_Height cs; cs_Round := cs_Round cs; cs_Step := cs_Step cs; cs_StartTime := cs_StartTime cs;
     cs_CommitTime := cs_CommitTime cs; cs_Validators := cs_Validators cs; cs_Proposal := cs_Proposal cs;
     cs_ProposalBlock := cs_ProposalBlock cs; cs_ProposalBlockParts := cs_ProposalBlockParts cs; cs_ProposerPeerKey :=
     cs_ProposerPeerKey cs; cs_LockedRound := cs_LockedRound cs; cs_LockedBlock := cs_LockedBlock cs;
     cs_LockedBlockParts := cs_LockedBlockParts cs; cs_blockShared := cs_blockShared cs; cs_Votes := cs_Votes cs;
     cs_VoteSignAggr := v; cs_CommitRound := cs_CommitRound cs; cs_PrevoteMaj23SignAggr := cs_PrevoteMaj23SignAggr cs;
     cs_PrecommitMaj23SignAggr := cs_PrecommitMaj23SignAggr cs; cs_proposer := cs_proposer cs; cs_isProposer :=
     cs_isProposer cs; cs_Epoch := cs_Epoch cs; cs_state := cs_state cs; cs_vrfValIndex := cs_vrfValIndex cs;
     cs_pastRoundStates := cs_pastRoundStates cs; cs_blockFromMiner := cs_blockFromMiner cs; cs_nSteps := cs_nSteps
     cs; cs_out := cs_out cs |}.
Definition set_CommitRound (v : Z) (cs : ConsensusState) : ConsensusState :=
  {| cs_Height := cs_Height cs; cs_Round := cs_Round cs; cs_Step := cs_Step cs; cs_StartTime := cs_StartTime cs;
     cs_CommitTime := cs_CommitTime cs; cs_Validators := cs_Validators cs; cs_Proposal := cs_Proposal cs;
     cs_ProposalBlock := cs_ProposalBlock cs; cs_ProposalBlockParts := cs_ProposalBlockParts cs; cs_ProposerPeerKey :=
     cs_ProposerPeerKey cs; cs_LockedRound := cs_LockedRound cs; cs_LockedBlock := cs_LockedBlock cs;
     cs_LockedBlockParts := cs_LockedBlockParts cs; cs_blockShared := cs_blockShared cs; cs_Votes := cs_Votes cs;
     cs_VoteSignAggr := cs_VoteSignAggr cs; cs_CommitRound := v; cs_PrevoteMaj23SignAggr := cs_PrevoteMaj23SignAggr
     cs; cs_PrecommitMaj23SignAggr := cs_PrecommitMaj23SignAggr cs; cs_proposer := cs_proposer cs; cs_isProposer :=
     cs_isProposer cs; cs_Epoch := cs_Epoch cs; cs_state := cs_state cs; cs_vrfValIndex := cs_vrfValIndex cs;
     cs_pastRoundStates := cs_pastRoundStates cs; cs_blockFromMiner := cs_blockFromMiner cs; cs_nSteps := cs_nSteps
     cs; cs_out := cs_out cs |}.
Definition set_PrevoteMaj23SignAggr (v : option SignAggr) (cs : ConsensusState) : ConsensusState :=
  {| cs_Height := cs_Height cs; cs_Round := cs_Round cs; cs_Step := cs_Step cs; cs_StartTime := cs_StartTime cs;
     cs_CommitTime := cs_CommitTime cs; cs_Validators := cs_Validators cs; cs_Proposal := cs_Proposal cs;
     cs_ProposalBlock := cs_ProposalBlock cs; cs_ProposalBlockParts := cs_ProposalBlockParts cs; cs_ProposerPeerKey :=
     cs_ProposerPeerKey cs; cs_LockedRound := cs_LockedRound cs; cs_LockedBlock := cs_LockedBlock cs;
     cs_LockedBlockParts := cs_LockedBlockParts cs; cs_blockShared := cs_blockShared cs; cs_Votes := cs_Votes cs;
     cs_VoteSignAggr := cs_VoteSignAggr cs; cs_CommitRound := cs_CommitRound cs; cs_PrevoteMaj23SignAggr := v;
     cs_PrecommitMaj23SignAggr := cs_PrecommitMaj23SignAggr cs; cs_proposer := cs_proposer cs; cs_isProposer :=
     cs_isProposer cs; cs_Epoch := cs_Epoch cs; cs_state := cs_state cs; cs_vrfValIndex := cs_vrfValIndex cs;
     cs_pastRoundStates := cs_pastRoundStates cs; cs_blockFromMiner := cs_blockFromMiner cs; cs_nSteps := cs_nSteps
     cs; cs_out := cs_out cs |}.
Definition set_PrecommitMaj23SignAggr (v : option SignAggr) (cs : ConsensusState) : ConsensusState :=
  {| cs_Height := cs_Height cs; cs_Round := cs_Round cs; cs_Step := cs_Step cs; cs_StartTime := cs_StartTime cs;
     cs_CommitTime := cs_CommitTime cs; cs_Validators := cs_Validators cs; cs_Proposal := cs_Proposal cs;
     cs_ProposalBlock := cs_ProposalBlock cs; cs_ProposalBlockParts := cs_ProposalBlockParts cs; cs_ProposerPeerKey :=
     cs_ProposerPeerKey cs; cs_LockedRound := cs_LockedRound cs; cs_LockedBlock := cs_LockedBlock cs;
     cs_LockedBlockParts := cs_LockedBlockParts cs; cs_blockShared := cs_blockShared cs; cs_Votes := cs_Votes cs;
     cs_VoteSignAggr := cs_VoteSignAggr cs; cs_CommitRound := cs_CommitRound cs; cs_PrevoteMaj23SignAggr :=
     cs_PrevoteMaj23SignAggr cs; cs_PrecommitMaj23SignAggr := v; cs_proposer := cs_proposer cs; cs_isProposer :=
     cs_isProposer cs; cs_Epoch := cs_Epoch cs; cs_state := cs_state cs; cs_vrfValIndex := cs_vrfValIndex cs;
     cs_pastRoundStates := cs_pastRoundStates cs; cs_blockFromMiner := cs_blockFromMiner cs; cs_nSteps := cs_nSteps
     cs; cs_out := cs_out cs |}.
Definition set_proposer (v : option VRFProposer) (cs : ConsensusState) : ConsensusState :=
  {| cs_Height := cs_Height cs; cs_Round := cs_Round cs; cs_Step := cs_Step cs; cs_StartTime := cs_StartTime cs;
     cs_CommitTime := cs_CommitTime cs; cs_Validators := cs_Validators cs; cs_Proposal := cs_Proposal cs;
     cs_ProposalBlock := cs_ProposalBlock cs; cs_ProposalBlockParts := cs_ProposalBlockParts cs; cs_ProposerPeerKey :=
     cs_ProposerPeerKey cs; cs_LockedRound := cs_LockedRound cs; cs_LockedBlock := cs_LockedBlock cs;
     cs_LockedBlockParts := cs_LockedBlockParts cs; cs_blockShared := cs_blockShared cs; cs_Votes := cs_Votes cs;
     cs_VoteSignAggr := cs_VoteSignAggr cs; cs_CommitRound := cs_CommitRound cs; cs_PrevoteMaj23SignAggr :=
     cs_PrevoteMaj23SignAggr cs; cs_PrecommitMaj23SignAggr := cs_PrecommitMaj23SignAggr cs; cs_proposer := v;
     cs_isProposer := cs_isProposer cs; cs_Epoch := cs_Epoch cs; cs_state := cs_state cs; cs_vrfValIndex :=
     cs_vrfValIndex cs; cs_pastRoundStates := cs_pastRoundStates cs; cs_blockFromMiner := cs_blockFromMiner cs;
     cs_nSteps := cs_nSteps cs; cs_out := cs_out cs |}.
Definition set_isProposer (v : bool) (cs : ConsensusState) : ConsensusState :=
  {| cs_Height := cs_Height cs; cs_Round := cs_Round cs; cs_Step := cs_Step cs; cs_StartTime := cs_StartTime cs;
     cs_CommitTime := cs_CommitTime cs; cs_Validators := cs_Validators cs; cs_Proposal := cs_Proposal cs;
     cs_ProposalBlock := cs_ProposalBlock cs; cs_ProposalBlockParts := cs_ProposalBlockParts cs; cs_ProposerPeerKey :=
     cs_ProposerPeerKey cs; cs_LockedRound := cs_LockedRound cs; cs_LockedBlock := cs_LockedBlock cs;
     cs_LockedBlockParts := cs_LockedBlockParts cs; cs_blockShared := cs_blockShared cs; cs_Votes := cs_Votes cs;
     cs_VoteSignAggr := cs_VoteSignAggr cs; cs_CommitRound := cs_CommitRound cs; cs_PrevoteMaj23SignAggr :=
     cs_PrevoteMaj23SignAggr cs; cs_PrecommitMaj23SignAggr := cs_PrecommitMaj23SignAggr cs; cs_proposer := cs_proposer
     cs; cs_isProposer := v; cs_Epoch := cs_Epoch cs; cs_state := cs_state cs; cs_vrfValIndex := cs_vrfValIndex cs;
     cs_pastRoundStates := cs_pastRoundStates cs; cs_blockFromMiner := cs_blockFromMiner cs; cs_nSteps := cs_nSteps
     cs; cs_out := cs_out cs |}.
Definition set_Epoch (v : Epoch) (cs : ConsensusState) : ConsensusState :=
  {| cs_Height := cs_Height cs; cs_Round := cs_Round cs; cs_Step := cs_Step cs; cs_StartTime := cs_StartTime cs;
     cs_CommitTime := cs_CommitTime cs; cs_Validators := cs_Validators cs; cs_Proposal := cs_Proposal cs;
     cs_ProposalBlock := cs_ProposalBlock cs; cs_ProposalBlockParts := cs_ProposalBlockParts cs; cs_ProposerPeerKey :=
     cs_ProposerPeerKey cs; cs_LockedRound := cs_LockedRound cs; cs_LockedBlock := cs_LockedBlock cs;
     cs_LockedBlockParts := cs_LockedBlockParts cs; cs_blockShared := cs_blockShared cs; cs_Votes := cs_Votes cs;
     cs_VoteSignAggr := cs_VoteSignAggr cs; cs_CommitRound := cs_CommitRound cs; cs_PrevoteMaj23SignAggr :=
     cs_PrevoteMaj23SignAggr cs; cs_PrecommitMaj23SignAggr := cs_PrecommitMaj23SignAggr cs; cs_proposer := cs_proposer
     cs; cs_isProposer := cs_isProposer cs; cs_Epoch := v; cs_state := cs_state cs; cs_vrfValIndex := cs_vrfValIndex
     cs; cs_pastRoundStates := cs_pastRoundStates cs; cs_blockFromMiner := cs_blockFromMiner cs; cs_nSteps :=
     cs_nSteps cs; cs_out := cs_out cs |}.
Definition set_state (v : option State) (cs : ConsensusState) : ConsensusState :=
  {| cs_Height := cs_Height cs; cs_Round := cs_Round cs; cs_Step := cs_Step cs; cs_StartTime := cs_StartTime cs;
     cs_CommitTime := cs_CommitTime cs; cs_Validators := cs_Validators cs; cs_Proposal := cs_Proposal cs;
     cs_ProposalBlock := cs_ProposalBlock cs; cs_ProposalBlockParts := cs_ProposalBlockParts cs; cs_ProposerPeerKey :=
     cs_ProposerPeerKey cs; cs_LockedRound := cs_LockedRound cs; cs_LockedBlock := cs_LockedBlock cs;
     cs_LockedBlockParts := cs_LockedBlockParts cs; cs_blockShared := cs_blockShared cs; cs_Votes := cs_Votes cs;
     cs_VoteSignAggr := cs_VoteSignAggr cs; cs_CommitRound := cs_CommitRound cs; cs_PrevoteMaj23SignAggr :=
     cs_PrevoteMaj23SignAggr cs; cs_PrecommitMaj23SignAggr := cs_PrecommitMaj23SignAggr cs; cs_proposer := cs_proposer
     cs; cs_isProposer := cs_isProposer cs; cs_Epoch := cs_Epoch cs; cs_state := v; cs_vrfValIndex := cs_vrfValIndex
     cs; cs_pastRoundStates := cs_pastRoundStates cs; cs_blockFromMiner := cs_blockFromMiner cs; cs_nSteps :=
     cs_nSteps cs; cs_out := cs_out cs |}.
Definition set_vrfValIndex (v : Z) (cs : ConsensusState) : ConsensusState :=
  {| cs_Height := cs_Height cs; cs_Round := cs_Round cs; cs_Step := cs_Step cs; cs_StartTime := cs_StartTime cs;
     cs_CommitTime := cs_CommitTime cs; cs_Validators := cs_Validators cs; cs_Proposal := cs_Proposal cs;
     cs_ProposalBlock := cs_ProposalBlock cs; cs_ProposalBlockParts := cs_ProposalBlockParts cs; cs_ProposerPeerKey :=
     cs_ProposerPeerKey cs; cs_LockedRound := cs_LockedRound cs; cs_LockedBlock := cs_LockedBlock cs;
     cs_LockedBlockParts := cs_LockedBlockParts cs; cs_blockShared := cs_blockShared cs; cs_Votes := cs_Votes cs;
     cs_VoteSignAggr := cs_VoteSignAggr cs; cs_CommitRound := cs_CommitRound cs; cs_PrevoteMaj23SignAggr :=
     cs_PrevoteMaj23SignAggr cs; cs_PrecommitMaj23SignAggr := cs_PrecommitMaj23SignAggr cs; cs_proposer := cs_proposer
     cs; cs_isProposer := cs_isProposer cs; cs_Epoch := cs_Epoch cs; cs_state := cs_state cs; cs_vrfValIndex := v;
     cs_pastRoundStates := cs_pastRoundStates cs; cs_blockFromMiner := cs_blockFromMiner cs; cs_nSteps := cs_nSteps
     cs; cs_out := cs_out cs |}.
Definition set_pastRoundStates (v : gmap Z Z) (cs : ConsensusState) : ConsensusState :=
  {| cs_Height := cs_Height cs; cs_Round := cs_Round cs; cs_Step := cs_Step cs; cs_StartTime := cs_StartTime cs;
     cs_CommitTime := cs_CommitTime cs; cs_Validators := cs_Validators cs; cs_Proposal := cs_Proposal cs;
     cs_ProposalBlock := cs_ProposalBlock cs; cs_ProposalBlockParts := cs_ProposalBlockParts cs; cs_ProposerPeerKey :=
     cs_ProposerPeerKey cs; cs_LockedRound := cs_LockedRound cs; cs_LockedBlock := cs_LockedBlock cs;
     cs_LockedBlockParts := cs_LockedBlockParts cs; cs_blockShared := cs_blockShared cs; cs_Votes := cs_Votes cs;
     cs_VoteSignAggr := cs_VoteSignAggr cs; cs_CommitRound := cs_CommitRound cs; cs_PrevoteMaj23SignAggr :=
     cs_PrevoteMaj23SignAggr cs; cs_PrecommitMaj23SignAggr := cs_PrecommitMaj23SignAggr cs; cs_proposer := cs_proposer
     cs; cs_isProposer := cs_isProposer cs; cs_Epoch := cs_Epoch cs; cs_state := cs_state cs; cs_vrfValIndex :=
     cs_vrfValIndex cs; cs_pastRoundStates := v; cs_blockFromMiner := cs_blockFromMiner cs; cs_nSteps := cs_nSteps cs;
     cs_out := cs_out cs |}.
Definition set_blockFromMiner (v : option Block) (cs : ConsensusState) : ConsensusState :=
  {| cs_Height := cs_Height cs; cs_Round := cs_Round cs; cs_Step := cs_Step cs; cs_StartTime := cs_StartTime cs;
     cs_CommitTime := cs_CommitTime cs; cs_Validators := cs_Validators cs; cs_Proposal := cs_Proposal cs;
     cs_ProposalBlock := cs_ProposalBlock cs; cs_ProposalBlockParts := cs_ProposalBlockParts cs; cs_ProposerPeerKey :=
     cs_ProposerPeerKey cs; cs_LockedRound := cs_LockedRound cs; cs_LockedBlock := cs_LockedBlock cs;
     cs_LockedBlockParts := cs_LockedBlockParts cs; cs_blockShared := cs_blockShared cs; cs_Votes := cs_Votes cs;
     cs_VoteSignAggr := cs_VoteSignAggr cs; cs_CommitRound := cs_CommitRound cs; cs_PrevoteMaj23SignAggr :=
     cs_PrevoteMaj23SignAggr cs; cs_PrecommitMaj23SignAggr := cs_PrecommitMaj23SignAggr cs; cs_proposer := cs_proposer
     cs; cs_isProposer := cs_isProposer cs; cs_Epoch := cs_Epoch cs; cs_state := cs_state cs; cs_vrfValIndex :=
     cs_vrfValIndex cs; cs_pastRoundStates := cs_pastRoundStates cs; cs_blockFromMiner := v; cs_nSteps := cs_nSteps
     cs; cs_out := cs_out cs |}.
Definition set_nSteps (v : Z) (cs : ConsensusState) : ConsensusState :=
  {| cs_Height := cs_Height cs; cs_Round := cs_Round cs; cs_Step := cs_Step cs; cs_StartTime := cs_StartTime cs;
     cs_CommitTime := cs_CommitTime cs; cs_Validators := cs_Validators cs; cs_Proposal := cs_Proposal cs;
     cs_ProposalBlock := cs_ProposalBlock cs; cs_ProposalBlockParts := cs_ProposalBlockParts cs; cs_ProposerPeerKey :=
     cs_ProposerPeerKey cs; cs_LockedRound := cs_LockedRound cs; cs_LockedBlock := cs_LockedBlock cs;
     cs_LockedBlockParts := cs_LockedBlockParts cs; cs_blockShared := cs_blockShared cs; cs_Votes := cs_Votes cs;
     cs_VoteSignAggr := cs_VoteSignAggr cs; cs_CommitRound := cs_CommitRound cs; cs_PrevoteMaj23SignAggr :=
     cs_PrevoteMaj23SignAggr cs; cs_PrecommitMaj23SignAggr := cs_PrecommitMaj23SignAggr cs; cs_proposer := cs_proposer
     cs; cs_isProposer := cs_isProposer cs; cs_Epoch := cs_Epoch cs; cs_state := cs_state cs; cs_vrfValIndex :=
     cs_vrfValIndex cs; cs_pastRoundStates := cs_pastRoundStates cs; cs_blockFromMiner := cs_blockFromMiner cs;
     cs_nSteps := v; cs_out := cs_out cs |}.
Definition set_out (v : list Output) (cs : ConsensusState) : ConsensusState :=
  {| cs_Height := cs_Height cs; cs_Round := cs_Round cs; cs_Step := cs_Step cs; cs_StartTime := cs_StartTime cs;
     cs_CommitTime := cs_CommitTime cs; cs_Validators := cs_Validators cs; cs_Proposal := cs_Proposal cs;
     cs_ProposalBlock := cs_ProposalBlock cs; cs_ProposalBlockParts := cs_ProposalBlockParts cs; cs_ProposerPeerKey :=
     cs_ProposerPeerKey cs; cs_LockedRound := cs_LockedRound cs; cs_LockedBlock := cs_LockedBlock cs;
     cs_LockedBlockParts := cs_LockedBlockParts cs; cs_blockShared := cs_blockShared cs; cs_Votes := cs_Votes cs;
     cs_VoteSignAggr := cs_VoteSignAggr cs; cs_CommitRound := cs_CommitRound cs; cs_PrevoteMaj23SignAggr :=
     cs_PrevoteMaj23SignAggr cs; cs_PrecommitMaj23SignAggr := cs_PrecommitMaj23SignAggr cs; cs_proposer := cs_proposer
     cs; cs_isProposer := cs_isProposer cs; cs_Epoch := cs_Epoch cs; cs_state := cs_state cs; cs_vrfValIndex :=
     cs_vrfValIndex cs; cs_pastRoundStates := cs_pastRoundStates cs; cs_blockFromMiner := cs_blockFromMiner cs;
     cs_nSteps := cs_nSteps cs; cs_out := v |}.

(** The environment of a handler: the node's identity and parameters, the
    clock, the chain, the cross-chain helper and the epoch store. *)
Record NodeEnv := {
  e_chainID : string;
  e_privValidator : option PrivValidator;
  e_timeoutParams : TimeoutParams;
  e_NodeID : string;
  e_now : Z;
  e_CurrentHeader : bytes * Z;
  e_GetHeaderHashByNumber : Z -> option bytes;
  e_CurrentBlock : Block;
  e_GetBlockByNumber : Z -> option Block;
  e_HeaderExtra : Z -> bytes;
  e_ValidateBlock : option (Block -> result string IntermediateBlockResult);
  e_GetTX3ProofData : string -> bytes -> option TX3ProofData;
  e_ValidateTX3ProofData : TX3ProofData -> option string;
  e_ValidateTX4 : Tx -> TX3ProofData -> option string;
  e_db : DB;
}.

(** *** The monad *)

Definition M (A : Type) : Type := ConsensusState -> outcome (ConsensusState * A).

#[export] Instance M_ret : MRet M := fun A a cs => Ret (cs, a).
#[export] Instance M_bind : MBind M := fun A B f m cs =>
  match m cs with Ret (cs', a) => f a cs' | Panic s => Panic s end.

Definition get : M ConsensusState := fun cs => Ret (cs, cs).
Definition assign {A} (set : A -> ConsensusState -> ConsensusState) (v : A) : M unit :=
  fun cs => Ret (set v cs, tt).
Definition lift {A} (m : outcome A) : M A := fun cs =>
  match m with Ret a => Ret (cs, a) | Panic s => Panic s end.
Definition panic {A} (msg : string) : M A := fun _ => Panic msg.
Definition emit (o : Output) : M unit := fun cs => Ret (set_out (cs_out cs ++ [o]) cs, tt).
(** [types.FireEvent...(cs.evsw, cs.RoundStateEvent())] *)
Definition fire (ev : Z -> Z -> Z -> Event) : M unit := fun cs =>
  emit (OEvent (ev (cs_Height cs) (cs_Round cs) (cs_Step cs))) cs.

Context (env : NodeEnv).

Definition deref_M {A} (p : option A) : M A := lift (deref p).

Definition updateRoundStep (round step : Z) : M unit :=
  assign set_Round round;; assign set_Step step.

Definition scheduleTimeout (duration height round step : Z) : M unit :=
  emit (OTimeout duration height round step).

Definition scheduleRound0 : M unit :=
  cs ← get;
  scheduleTimeout (time_Sub (cs_StartTime cs) (e_now env)) (cs_Height cs) 0 RoundStepNewHeight.

Definition sendInternalMessage (msg : ConsensusMessage) : M unit := emit (OInternal msg).

Definition newStep : M unit :=
  cs ← get; assign set_nSteps (cs_nSteps cs + 1);; fire EventNewRoundStep.

(** [cs.ProposalBlock = b] for a new block: it is not the locked one. *)
Definition assign_ProposalBlock (b : option NCBlock) : M unit :=
  assign set_ProposalBlock b;; assign set_blockShared false.

(** A write through the pointer [cs.ProposalBlock]: the locked block changes
    with it when the two are one object. *)
Definition write_ProposalBlock (b : NCBlock) : M unit :=
  cs ← get;
  assign set_ProposalBlock (Some b);;
  if cs_blockShared cs && is_some (cs_LockedBlock cs) then assign set_LockedBlock (Some b) else mret tt.

(** *** The proposer *)

(** The loop that walks down the hash: the first validator whose power takes
    [n] below zero. *)
Fixpoint vrf_pick (n i : Z) (validators : list Validator) : Z :=
  match validators with
  | [] => -1
  | v :: validators' =>
      let n := n - val_VotingPower v in
      if Z.sgn n =? -1 then i else vrf_pick n (i + 1) validators'
  end.

(** [new(big.Int).SetBytes] *)
Definition BytesToBig (data : bytes) : Z := foldl (fun acc b => acc * 256 + b) 0 data.

Definition proposerByVRF (headerHash : bytes) (validators : list Validator) : outcome Z :=
  let vrfBytes := replicate 8 0 ++ headerHash in
  let hash := BytesToBig (sha256 vrfBytes) in
  let n := foldl (fun n v => n + val_VotingPower v) 0 validators in
  if n =? 0 then Panic "division by zero"
  else Ret (vrf_pick (hash `mod` Z.abs n) 0 validators).

Definition proposersByVRF : M (Z * Z) :=
  cs ← get;
  valSet ← deref_M (cs_Validators cs);
  let '(headerHash, headerHeight) := e_CurrentHeader env in
  curProposer ← lift (proposerByVRF headerHash (vals valSet));
  if headerHeight =? ep_StartBlock (cs_Epoch cs) then mret (-1, curProposer)
  else if 0 <? headerHeight then
    lastHeaderHash ← deref_M (e_GetHeaderHashByNumber env (headerHeight - 1));
    lastProposer ← lift (proposerByVRF lastHeaderHash (vals valSet));
    mret (lastProposer, curProposer)
  else mret (-1, -1).

(** [a % b] on ints. *)
Definition int_rem (a b : Z) : outcome Z :=
  if b =? 0 then Panic "integer divide by zero" else Ret (Z.rem a b).

Definition proposerByRound (round : Z) : M VRFProposer :=
  cs ← get;
  valSet ← deref_M (cs_Validators cs);
  idx ←
    (if round =? 0 then
       if 0 <=? cs_vrfValIndex cs then mret (cs_vrfValIndex cs)
       else
         '(lastProposer, curProposer) ← proposersByVRF;
         absent ← (if (0 <=? lastProposer) && (curProposer =? lastProposer) then
                     st ← deref_M (cs_state cs);
                     mret match te_SeenCommit (st_NTCExtra st) with
                          | Some commit => negb (ba_isnil (c_BitArray commit)) &&
                                           negb (ba_GetIndex (c_BitArray commit) (u64 curProposer))
                          | None => false
                          end
                   else mret false);
         idx ← (if absent : bool then lift (int_rem (curProposer + 1) (ValidatorSet_Size valSet))
                else mret curProposer);
         assign set_vrfValIndex idx;;
         mret idx
     else
       if cs_vrfValIndex cs <? 0 then panic "cs.vrfValIndex should not be -1"
       else lift (int_rem (cs_vrfValIndex cs + round) (ValidatorSet_Size valSet)));
  if (ValidatorSet_Size valSet <=? idx) || (idx <? 0) then panic "The index of proposer out of range"
  else
    v ← lift (slice_get (vals valSet) idx);
    mret {| vp_Height := cs_Height cs; vp_Round := round; vp_valIndex := idx; vp_Proposer := v |}.

Definition updateProposer : M unit :=
  cs ← get;
  proposer ← proposerByRound (cs_Round cs);
  assign set_proposer (Some proposer);;
  pv ← deref_M (e_privValidator env);
  assign set_isProposer (bool_decide (val_Address (vp_Proposer proposer) = pv_Address pv)).

Definition GetProposer : M Validator :=
  cs ← get;
  (if match cs_proposer cs with
      | None => true
      | Some p => negb (cs_Height cs =? vp_Height p) || negb (cs_Round cs =? vp_Round p)
      end
   then updateProposer else mret tt);;
  cs ← get;
  p ← deref_M (cs_proposer cs);
  mret (vp_Proposer p).

Definition IsProposer : M bool :=
  GetProposer;; cs ← get; mret (cs_isProposer cs).

(** *** Votes and aggregates *)

Definition signVote (type_ : Z) (hash : bytes) (header : PartSetHeader) : M Vote :=
  cs ← get;
  pv ← deref_M (e_privValidator env);
  valSet ← deref_M (cs_Validators cs);
  st ← deref_M (cs_state cs);
  let '(valIndex, _) := ValidatorSet_GetByAddress valSet (pv_Address pv) in
  let vote := {| v_ValidatorAddress := pv_Address pv; v_ValidatorIndex := u64 valIndex;
                 v_Height := cs_Height cs; v_Round := u64 (cs_Round cs); v_Type := type_;
                 v_BlockID := {| bid_Hash := hash; bid_PartsHeader := header |};
                 v_Signature := None; v_SignBytes := [] |} in
  lift (PrivValidator_SignVote pv (te_ChainID (st_NTCExtra st)) vote).

Definition signAddVote (type_ : Z) (hash : bytes) (header : PartSetHeader) : M (option Vote) :=
  cs ← get;
  match e_privValidator env with
  | None => mret None
  | Some pv =>
      valSet ← deref_M (cs_Validators cs);
      if negb (ValidatorSet_HasAddress valSet (pv_Address pv)) then mret None
      else
        vote ← signVote type_ hash header;
        isProposer ← IsProposer;
        (if negb isProposer then
           if negb (String.eqb (cs_ProposerPeerKey cs) "")
           then emit (OEvent (EventVote2Proposer vote (cs_ProposerPeerKey cs)))
           else mret tt
         else sendInternalMessage (VoteMessage vote));;
        mret (Some vote)
  end.

(** The votes for the majority block: their bits, and their signatures. *)
Fixpoint collect_sigs (maj23 : BlockID) (votes : list (option Vote)) (acc : BA * list (option bytes) * bytes)
    : BA * list (option bytes) * bytes :=
  match votes with
  | [] => acc
  | Some vote :: votes' =>
      let '(bits, sigs, ss) := acc in
      if BlockID_Equals maj23 (v_BlockID vote)
      then collect_sigs maj23 votes'
             (ba_SetIndex bits (v_ValidatorIndex vote) true, sigs ++ [v_Signature vote], v_SignBytes vote)
      else collect_sigs maj23 votes' acc
  | None :: votes' => collect_sigs maj23 votes' acc
  end.

Definition sendMaj23SignAggr (voteType : Z) : M unit :=
  cs ← get;
  hvs ← deref_M (cs_Votes cs);
  valSet ← deref_M (cs_Validators cs);
  voteSet ←
    (if voteType =? VoteTypePrevote then
       vs ← lift (HeightVoteSet_Prevotes hvs (cs_Round cs)); vs ← deref_M vs; mret (Some vs)
     else if voteType =? VoteTypePrecommit then
       vs ← lift (HeightVoteSet_Precommits hvs (cs_Round cs)); vs ← deref_M vs; mret (Some vs)
     else mret None);
  let '(maj23, ok) := VoteSet_TwoThirdsMajority voteSet in
  if negb ok then mret tt
  else
    let votes := match voteSet with Some vs => vs_votes vs | None => [] end in
    let numValidators := ValidatorSet_Size valSet in
    let '(signBitArray, sigs, ss) := collect_sigs maj23 votes (NewBitArray (u64 numValidators), [], []) in
    match BLSSignatureAggregate sigs with
    | None => mret tt
    | Some signature =>
        let signAggr := MakeSignAggr (cs_Height cs) (cs_Round cs) voteType numValidators maj23
                          (hvs_chainID hvs) signBitArray (Some signature) in
        let signAggr := {| sa_ChainID := sa_ChainID signAggr; sa_Height := sa_Height signAggr;
          sa_Round := sa_Round signAggr; sa_Type := sa_Type signAggr; sa_NumValidators := sa_NumValidators signAggr;
          sa_BlockID := sa_BlockID signAggr; sa_Maj23 := sa_Maj23 signAggr; sa_BitArray := sa_BitArray signAggr;
          sa_Sum := sa_Sum signAggr; sa_SignatureAggr := sa_SignatureAggr signAggr; sa_SignBytes := ss |} in
        if BlockID_IsZero maj23 then mret tt
        else
          signAggr ← lift (SignAggr_SetMaj23 (Some signAggr) maj23);
          signAggr ← deref_M signAggr;
          emit (OEvent (EventSignAggr signAggr));;
          sendInternalMessage (Maj23SignAggrMessage (Some signAggr))
    end.

Definition addVote (vote : Vote) (peerKey : string) : M (bool * option CSError) :=
  isProposer ← IsProposer;
  cs ← get;
  if negb isProposer then mret (false, None)
  else if negb (v_Height vote =? cs_Height cs) || negb (i64 (v_Round vote) =? cs_Round cs) then mret (false, None)
  else
    hvs ← deref_M (cs_Votes cs);
    voteSet ← lift (if v_Type vote =? VoteTypePrevote then HeightVoteSet_Prevotes hvs (cs_Round cs)
                    else HeightVoteSet_Precommits hvs (cs_Round cs));
    if VoteSet_HasTwoThirdsMajority voteSet then mret (false, None)
    else
      '(hvs, (added, err)) ← lift (HeightVoteSet_AddVote hvs vote peerKey);
      assign set_Votes (Some hvs);;
      (if added : bool then
         if v_Type vote =? VoteTypePrevote then
           vs ← lift (HeightVoteSet_Prevotes hvs (cs_Round cs));
           if VoteSet_HasTwoThirdsMajority vs then sendMaj23SignAggr (v_Type vote) else mret tt
         else if v_Type vote =? VoteTypePrecommit then
           vs ← lift (HeightVoteSet_Precommits hvs (cs_Round cs));
           if VoteSet_HasTwoThirdsMajority vs then sendMaj23SignAggr (v_Type vote) else mret tt
         else mret tt
       else mret tt);;
      mret (added, ErrVote <$> err).

Definition tryAddVote (vote : Vote) (peerKey : string) : M (option CSError) :=
  '(_, err) ← addVote vote peerKey;
  mret match err with
       | None => None
       | Some ErrVoteHeightMismatch => Some ErrVoteHeightMismatch
       | Some (ErrVote (ErrVoteConflictingVotes a b)) => Some (ErrVote (ErrVoteConflictingVotes a b))
       | Some _ => Some ErrAddingVote
       end.

Definition blsVerifySignAggr (signAggr : SignAggr) : M (result string bool) :=
  cs ← get;
  match SignAggr_SignAggr (Some signAggr) with
  | None => mret (Err "Invalid BLSSignature(nil)"%string)
  | Some signature =>
      let bitMap := sa_BitArray signAggr in
      validators ← deref_M (cs_Validators cs);
      match ValidatorSet_TalliedVotingPower validators bitMap with
      | Err err => mret (Err err)
      | Ok (_, votesSum, totalVotes) =>
          let quorum := Loose23MajorThreshold totalVotes (sa_Round signAggr) in
          let maj23 := quorum <=? votesSum in
          match ValidatorSet_AggrPubKey validators bitMap with
          | None => mret (Err "can not aggregate pubkeys"%string)
          | Some aggrPubKey =>
              let vote := {| v_ValidatorAddress := []; v_ValidatorIndex := 0; v_Height := sa_Height signAggr;
                             v_Round := u64 (sa_Round signAggr); v_Type := sa_Type signAggr;
                             v_BlockID := sa_BlockID signAggr; v_Signature := None; v_SignBytes := [] |} in
              msg ← lift (SignBytes (sa_ChainID signAggr) vote);
              if negb (PubKey_VerifyBytes aggrPubKey msg (Some signature))
              then mret (Err "Invalid aggregate signature"%string)
              else mret (Ok maj23)
          end
      end
  end.

Definition isProposalComplete : M bool :=
  cs ← get; mret (is_some (cs_Proposal cs) && is_some (cs_ProposalBlock cs)).

(** [cs.VoteSignAggr.Prevotes(round).TwoThirdsMajority()] and the same for
    precommits. *)
Definition prevote_majority (round : Z) : M (BlockID * bool) :=
  cs ← get; hsa ← deref_M (cs_VoteSignAggr cs);
  sa ← lift (HeightVoteSignAggr_Prevotes hsa round); mret (SignAggr_TwoThirdsMajority sa).
Definition precommit_majority (round : Z) : M (BlockID * bool) :=
  cs ← get; hsa ← deref_M (cs_VoteSignAggr cs);
  sa ← lift (HeightVoteSignAggr_Precommits hsa round); mret (SignAggr_TwoThirdsMajority sa).

(** *** Committing *)

(** [ligoAbi.IsLigoChainContractAddr(tx.To())] and the function it calls:
    [None] when the transaction is not for the chain contract or the function
    is unknown.  The selector is the slice [data[:4]]. *)
Definition chain_function (tx : Tx) : outcome (option FunctionType) :=
  if bool_decide (tx_To tx = Some ChainContractMagicAddr) then
    sel ← slice_range (tx_Data tx) 0 4;
    Ret (FunctionTypeFromId sel)
  else Ret None.

(** The loop of finalizeCommit: is there a withdrawal from a side chain? *)
Fixpoint has_withdraw (txs : list Tx) : outcome bool :=
  match txs with
  | [] => Ret false
  | tx :: txs' =>
      f ← chain_function tx;
      match f with
      | Some WithdrawFromSideChain => Ret true
      | _ => has_withdraw txs'
      end
  end.

(** The extra data of a committed block: the commit is written into it, and a
    side chain marks what is to be sent to the main chain. *)
Definition seal_extra (te : TendermintExtra) (seenCommit : Commit) (withdraw : bool) : TendermintExtra :=
  {| te_ChainID := te_ChainID te; te_Height := te_Height te; te_Time := te_Time te;
     te_NeedToSave := te_NeedToSave te || (is_side_chain (te_ChainID te) && negb (bool_decide (te_EpochBytes te = [])));
     te_NeedToBroadcast := te_NeedToBroadcast te || withdraw;
     te_EpochNumber := te_EpochNumber te;
     te_SeenCommitHash := SimpleHashFromBinary seenCommit;
     te_ValidatorsHash := te_ValidatorsHash te;
     te_SeenCommit := Some seenCommit; te_EpochBytes := te_EpochBytes te |}.

Definition finalizeCommit (height : Z) : M unit :=
  cs ← get;
  if negb (cs_Height cs =? height) || negb (cs_Step cs =? RoundStepCommit) then mret tt
  else
    '(blockID, ok) ← precommit_majority (cs_CommitRound cs);
    let blockParts := cs_ProposalBlockParts cs in
    if negb ok then panic "Cannot finalizeCommit, commit does not have two thirds majority"
    else if negb (PartSet_HasHeader blockParts (bid_PartsHeader blockID))
    then panic "Expected ProposalBlockParts header to be commit header"
    else
      same ← lift (NCBlock_HashesTo (cs_ProposalBlock cs) (bid_Hash blockID));
      if negb same then panic "Cannot finalizeCommit, ProposalBlock does not hash to commit hash"
      else
        block ← deref_M (cs_ProposalBlock cs);
        st ← deref_M (cs_state cs);
        err ← lift (NCBlock_ValidateBasic block (st_NTCExtra st));
        if is_some err then panic "+2/3 committed an invalid block"
        else
          te ← deref_M (nb_NTCExtra block);
          if te_Height (st_NTCExtra st) <? te_Height te then
            hsa ← deref_M (cs_VoteSignAggr cs);
            precommits ← lift (HeightVoteSignAggr_Precommits hsa (cs_CommitRound cs));
            precommits ← deref_M precommits;
            let seenCommit := SignAggr_MakeCommit precommits in
            withdraw ← (if is_side_chain (te_ChainID te)
                        then lift (has_withdraw (blk_Transactions (nb_Block block))) else mret false);
            let te := seal_extra te seenCommit withdraw in
            let block := nb_set_extra block te in
            write_ProposalBlock block;;
            emit (OEvent (EventNewBlock block));;
            emit (OEvent (EventNewBlockHeader (te_Height te)));;
            emit (OCommit block)
          else mret tt.

Definition tryFinalizeCommit (height : Z) : M unit :=
  cs ← get;
  if negb (cs_Height cs =? height) then panic "tryFinalizeCommit()"
  else
    '(blockID, ok) ← precommit_majority (cs_CommitRound cs);
    if negb ok || bool_decide (bid_Hash blockID = []) then mret tt
    else
      same ← lift (NCBlock_HashesTo (cs_ProposalBlock cs) (bid_Hash blockID));
      if negb same then mret tt else finalizeCommit height.

Definition enterCommit (height commitRound : Z) : M unit :=
  cs ← get;
  if negb (cs_Height cs =? height) || (RoundStepCommit <=? cs_Step cs) then mret tt
  else
    '(blockID, ok) ← precommit_majority commitRound;
    (if negb ok then panic "RunActionCommit() expects +2/3 precommits"
     else
       locked ← lift (NCBlock_HashesTo (cs_LockedBlock cs) (bid_Hash blockID));
       (if locked : bool then
          assign set_ProposalBlock (cs_LockedBlock cs);; assign set_blockShared true;;
          assign set_ProposalBlockParts (cs_LockedBlockParts cs)
        else mret tt);;
       cs ← get;
       same ← lift (NCBlock_HashesTo (cs_ProposalBlock cs) (bid_Hash blockID));
       if negb same && negb (PartSet_HasHeader (cs_ProposalBlockParts cs) (bid_PartsHeader blockID)) then
         assign_ProposalBlock None;;
         parts ← lift (NewPartSetFromHeader (bid_PartsHeader blockID));
         assign set_ProposalBlockParts (Some parts)
       else mret tt);;
    cs ← get;
    updateRoundStep (cs_Round cs) RoundStepCommit;;
    assign set_CommitRound commitRound;;
    assign set_CommitTime (Some (e_now env));;
    newStep;;
    tryFinalizeCommit height.

(** *** Precommit *)

Definition enterPrecommitWait (height round : Z) : M unit :=
  cs ← get;
  if negb (cs_Height cs =? height) || (round <? cs_Round cs) ||
     ((cs_Round cs =? round) && (RoundStepPrecommitWait <=? cs_Step cs)) then mret tt
  else
    scheduleTimeout (TimeoutParams_Precommit math_Pow15 (e_timeoutParams env) round) height round RoundStepPrecommitWait;;
    updateRoundStep round RoundStepPrecommitWait;;
    newStep.

Definition unlock : M unit :=
  assign set_LockedRound (-1);; assign set_LockedBlock None;; assign set_blockShared false;;
  assign set_LockedBlockParts None.

(** The body of enterPrecommit, before its deferred function. *)
Definition do_precommit (round : Z) : M unit :=
  '(blockID, ok) ← prevote_majority round;
  if negb ok then
    emit OTryFixBadPreimages;;
    signAddVote VoteTypePrecommit [] PartSetHeader_zero;; mret tt
  else
    fire EventPolka;;
    cs ← get;
    hsa ← deref_M (cs_VoteSignAggr cs);
    '(polRound, _) ← lift (HeightVoteSignAggr_POLInfo hsa);
    if polRound <? round then panic "This POLRound should be round"
    else if bool_decide (bid_Hash blockID = []) then
      (if is_some (cs_LockedBlock cs) then unlock;; fire EventUnlock else mret tt);;
      signAddVote VoteTypePrecommit [] PartSetHeader_zero;; mret tt
    else
      locked ← lift (NCBlock_HashesTo (cs_LockedBlock cs) (bid_Hash blockID));
      if locked : bool then
        assign set_LockedRound round;;
        fire EventRelock;;
        signAddVote VoteTypePrecommit (bid_Hash blockID) (bid_PartsHeader blockID);; mret tt
      else
        lift (NCBlock_Hash (cs_ProposalBlock cs));;
        same ← lift (NCBlock_HashesTo (cs_ProposalBlock cs) (bid_Hash blockID));
        if same : bool then
          block ← deref_M (cs_ProposalBlock cs);
          st ← deref_M (cs_state cs);
          err ← lift (NCBlock_ValidateBasic block (st_NTCExtra st));
          (if is_some err then panic "enterPrecommit: +2/3 prevoted for an invalid block" else mret tt);;
          assign set_LockedRound round;;
          assign set_LockedBlock (cs_ProposalBlock cs);; assign set_blockShared true;;
          assign set_LockedBlockParts (cs_ProposalBlockParts cs);;
          fire EventLock;;
          signAddVote VoteTypePrecommit (bid_Hash blockID) (bid_PartsHeader blockID);; mret tt
        else
          unlock;;
          (if negb (PartSet_HasHeader (cs_ProposalBlockParts cs) (bid_PartsHeader blockID)) then
             assign_ProposalBlock None;;
             parts ← lift (NewPartSetFromHeader (bid_PartsHeader blockID));
             assign set_ProposalBlockParts (Some parts)
           else mret tt);;
          fire EventUnlock;;
          signAddVote VoteTypePrecommit [] PartSetHeader_zero;; mret tt.

Definition enterPrecommit (height round : Z) : M unit :=
  cs ← get;
  if negb (cs_Height cs =? height) || (round <? cs_Round cs) ||
     ((cs_Round cs =? round) && (RoundStepPrecommit <=? cs_Step cs)) then mret tt
  else
    do_precommit round;;
    updateRoundStep round RoundStepPrecommit;;
    newStep;;
    enterPrecommitWait height round.

(** *** Prevote *)

Definition enterPrevoteWait (height round : Z) : M unit :=
  cs ← get;
  if negb (cs_Height cs =? height) || (round <? cs_Round cs) ||
     ((cs_Round cs =? round) && (RoundStepPrevoteWait <=? cs_Step cs)) then mret tt
  else
    scheduleTimeout (TimeoutParams_Prevote math_Pow15 (e_timeoutParams env) round) height round RoundStepPrevoteWait;;
    updateRoundStep round RoundStepPrevoteWait;;
    newStep.

(** The loop of ValidateTX4: [proofs] are the proofs from the current index. *)
Fixpoint validate_tx4 (txs : list Tx) (proofs : list TX3ProofData) : outcome (option string) :=
  match txs with
  | [] => Ret None
  | tx :: txs' =>
      f ← chain_function tx;
      match f with
      | Some WithdrawFromMainChain =>
          match proofs with
          | [] => Ret (Some "tx3 proof data missing"%string)
          | tx3ProofData :: proofs' =>
              match e_ValidateTX3ProofData env tx3ProofData with
              | Some err => Ret (Some err)
              | None =>
                  match e_ValidateTX4 env tx tx3ProofData with
                  | Some err => Ret (Some err)
                  | None => validate_tx4 txs' proofs'
                  end
              end
          end
      | _ => validate_tx4 txs' proofs
      end
  end.

Definition ValidateTX4 (b : NCBlock) : outcome (option string) :=
  validate_tx4 (blk_Transactions (nb_Block b)) (nb_TX3ProofData b).

Definition prevote_nil : M unit := signAddVote VoteTypePrevote [] PartSetHeader_zero;; mret tt.

Definition defaultDoPrevote (height round : Z) : M unit :=
  cs ← get;
  if is_some (cs_LockedBlock cs) then
    hash ← lift (NCBlock_Hash (cs_LockedBlock cs));
    signAddVote VoteTypePrevote hash (PartSet_Header (cs_LockedBlockParts cs));; mret tt
  else match cs_ProposalBlock cs with
  | None => prevote_nil
  | Some block =>
      st ← deref_M (cs_state cs);
      err ← lift (NCBlock_ValidateBasic block (st_NTCExtra st));
      if is_some err then prevote_nil
      else
        err ← lift (ValidateTX4 block);
        if is_some err then prevote_nil
        else
          isProposer ← IsProposer;
          valid ← match e_ValidateBlock env with
                  | Some validate =>
                      if negb isProposer then
                        match validate (nb_Block block) with
                        | Err _ => mret false
                        | Ok r =>
                            write_ProposalBlock {| nb_Block := nb_Block block; nb_NTCExtra := nb_NTCExtra block;
                              nb_TX3ProofData := nb_TX3ProofData block; nb_IntermediateResult := Some r |};;
                            mret true
                        end
                      else mret true
                  | None => mret true
                  end;
          if negb valid then prevote_nil
          else
            te ← deref_M (nb_NTCExtra block);
            let proposedNextEpoch := FromBytes (te_EpochBytes te) in
            epochErr ←
              match proposedNextEpoch with
              | Some next =>
                  if (ep_Number next =? u64 (ep_Number (cs_Epoch cs) + 1)) &&
                     ShouldProposeNextEpoch (cs_Epoch cs) (cs_Height cs)
                  then lift (ValidateNextEpoch (e_db env) (cs_Epoch cs) proposedNextEpoch
                               (blk_Number (e_CurrentBlock env)) (blk_Time (e_CurrentBlock env) * 10 ^ 9))
                  else mret None
              | None => mret None
              end;
            if is_some epochErr then prevote_nil
            else
              hash ← lift (NCBlock_Hash (Some block));
              signAddVote VoteTypePrevote hash (PartSet_Header (cs_ProposalBlockParts cs));; mret tt
  end.

Definition enterPrevote (height round : Z) : M unit :=
  cs ← get;
  if negb (cs_Height cs =? height) || (round <? cs_Round cs) ||
     ((cs_Round cs =? round) && (RoundStepPrevoteWait <? cs_Step cs)) then mret tt
  else
    complete ← isProposalComplete;
    (if complete : bool then defaultDoPrevote height round else mret tt);;
    cs ← get;
    (if cs_Step cs =? RoundStepPropose then updateRoundStep round RoundStepPrevote;; newStep else mret tt);;
    enterPrevoteWait height round.

(** *** Propose *)

(** The proofs for the withdrawals from the main chain in the miner's block. *)
Fixpoint collect_tx3 (txs : list Tx) : outcome (list TX3ProofData) :=
  match txs with
  | [] => Ret []
  | tx :: txs' =>
      f ← chain_function tx;
      match f with
      | Some WithdrawFromMainChain =>
          match UnpackWithdrawFromMainChain (drop 4 (tx_Data tx)) with
          | None => collect_tx3 txs'
          | Some (chainId, txHash) =>
              rest ← collect_tx3 txs';
              Ret match e_GetTX3ProofData env chainId txHash with
                  | Some proof => proof :: rest
                  | None => rest
                  end
          end
      | _ => collect_tx3 txs'
      end
  end.

Definition empty_commit : Commit :=
  {| c_BlockID := BlockID_zero; c_Height := 0; c_Round := 0; c_SignAggr := None; c_BitArray := BA_nil |}.

Definition createProposalBlock : M (option (NCBlock * PartSet)) :=
  cs ← get;
  match cs_blockFromMiner cs with
  | None => mret None
  | Some ligoBlock =>
      if negb (cs_Height cs =? blk_Number ligoBlock) then mret None
      else
        epochBytes ←
          (if cs_Height cs =? ep_EndBlock (cs_Epoch cs) then
             let '(nextEp, epoch) := GetNextEpoch (e_db env) (cs_Epoch cs) in
             assign set_Epoch epoch;;
             match nextEp with
             | None => panic "missing next epoch at epoch end block"
             | Some next => mret (enc_epoch next)
             end
           else if (cs_Height cs =? ep_StartBlock (cs_Epoch cs)) || (cs_Height cs =? 1)
           then mret (enc_epoch (cs_Epoch cs))
           else if ShouldProposeNextEpoch (cs_Epoch cs) (cs_Height cs) then
             next ← lift (ProposeNextEpoch (e_db env) (cs_Epoch cs) (blk_Number (e_CurrentBlock env))
                            (blk_Time (e_CurrentBlock env) * 10 ^ 9));
             mret (enc_epoch next)
           else mret []);
        st ← deref_M (cs_state cs);
        '(_, val, _) ← lift (State_GetValidators st);
        tx3ProofData ← lift (collect_tx3 (blk_Transactions ligoBlock));
        val ← deref_M val;
        b ← lift (MakeBlock (e_now env) (cs_Height cs) (te_ChainID (st_NTCExtra st)) empty_commit ligoBlock
                    (ValidatorSet_Hash val) (ep_Number (cs_Epoch cs)) epochBytes tx3ProofData 65536);
        mret (Some b)
  end.

(** Queue the parts from index [i] on, [n] of them. *)
Fixpoint send_parts (n : nat) (i : Z) (blockParts : PartSet) : M unit :=
  match n with
  | O => mret tt
  | S n' =>
      part ← lift (PartSet_GetPart blockParts i);
      part ← deref_M part;
      cs ← get;
      sendInternalMessage (BlockPartMessage (cs_Height cs) (cs_Round cs) part);;
      send_parts n' (i + 1) blockParts
  end.

Definition defaultDecideProposal (height round : Z) : M unit :=
  cs ← get;
  made ← match cs_LockedBlock cs with
         | Some locked => mret (Some (locked, cs_LockedBlockParts cs))
         | None =>
             b ← createProposalBlock;
             mret match b with Some (block, parts) => Some (block, Some parts) | None => None end
         end;
  match made with
  | None => mret tt
  | Some (block, blockParts) =>
      hsa ← deref_M (cs_VoteSignAggr cs);
      '(polRound, polBlockID) ← lift (HeightVoteSignAggr_POLInfo hsa);
      (if String.eqb (e_NodeID env) "" then panic "Node id is nil" else mret tt);;
      hash ← lift (NCBlock_Hash (Some block));
      let proposal := NewProposal height round hash (PartSet_Header blockParts) polRound polBlockID (e_NodeID env) in
      pv ← deref_M (e_privValidator env);
      st ← deref_M (cs_state cs);
      proposal ← lift (PrivValidator_SignProposal pv (te_ChainID (st_NTCExtra st)) proposal);
      sendInternalMessage (ProposalMessage proposal);;
      match blockParts with
      | None => mret tt
      | Some parts => send_parts (Z.to_nat (ps_total parts)) 0 parts
      end
  end.

(** [if cs.privValidator != nil && cs.IsProposer()] *)
Definition when_proposer (m : M unit) : M unit :=
  if is_some (e_privValidator env) then
    isProposer ← IsProposer;
    if isProposer : bool then m else mret tt
  else mret tt.

Definition st_set_flags (st : State) (save broadcast : bool) : State :=
  let te := st_NTCExtra st in
  {| st_NTCExtra := {| te_ChainID := te_ChainID te; te_Height := te_Height te; te_Time := te_Time te;
       te_NeedToSave := save; te_NeedToBroadcast := broadcast; te_EpochNumber := te_EpochNumber te;
       te_SeenCommitHash := te_SeenCommitHash te; te_ValidatorsHash := te_ValidatorsHash te;
       te_SeenCommit := te_SeenCommit te; te_EpochBytes := te_EpochBytes te |};
     st_Epoch := st_Epoch st |}.

Definition enterPropose (height round : Z) : M unit :=
  cs ← get;
  if negb (cs_Height cs =? height) || (round <? cs_Round cs) ||
     ((cs_Round cs =? round) && (RoundStepPropose <=? cs_Step cs)) then mret tt
  else
    st ← deref_M (cs_state cs);
    (if te_NeedToSave (st_NTCExtra st) && is_side_chain (te_ChainID (st_NTCExtra st)) then
       when_proposer (emit (OSaveBlockToMainChain (te_Height (st_NTCExtra st)));;
                      assign set_state (Some (st_set_flags st false (te_NeedToBroadcast (st_NTCExtra st)))))
     else mret tt);;
    cs ← get;
    st ← deref_M (cs_state cs);
    (if te_NeedToBroadcast (st_NTCExtra st) && is_side_chain (te_ChainID (st_NTCExtra st)) then
       when_proposer (emit (OBroadcastTX3ProofData (te_Height (st_NTCExtra st)));;
                      assign set_state (Some (st_set_flags st (te_NeedToSave (st_NTCExtra st)) false)))
     else mret tt);;
    scheduleTimeout (TimeoutParams_Propose (e_timeoutParams env) round) height round RoundStepPropose;;
    when_proposer (defaultDecideProposal height round);;
    updateRoundStep round RoundStepPropose;;
    newStep;;
    complete ← isProposalComplete;
    if complete : bool then
      cs ← get; enterPrevote height (cs_Round cs)
    else mret tt.

(** *** Rounds *)

(** The end of enterNewRound and enterLowerRound. *)
Definition wait_or_propose (height round : Z) : M unit :=
  isProposer ← IsProposer;
  cs ← get;
  if isProposer && (match cs_blockFromMiner cs with
                    | None => true
                    | Some b => negb (cs_Height cs =? blk_Number b)
                    end)
  then scheduleTimeout (TimeoutParams_WaitForMinerBlock (e_timeoutParams env)) height round RoundStepWaitForMinerBlock
  else enterPropose height round.

Definition clear_round : M unit :=
  assign set_Proposal None;;
  assign_ProposalBlock None;;
  assign set_ProposalBlockParts None;;
  assign set_ProposerPeerKey ""%string;;
  assign set_PrevoteMaj23SignAggr None;;
  assign set_PrecommitMaj23SignAggr None.

Definition enterNewRound (height round : Z) : M unit :=
  cs ← get;
  if negb (cs_Height cs =? height) || (round <? cs_Round cs) ||
     ((cs_Round cs =? round) && negb (cs_Step cs =? RoundStepNewHeight)) then mret tt
  else
    updateRoundStep round RoundStepNewRound;;
    (if round =? 0 then mret tt else clear_round);;
    cs ← get;
    hsa ← deref_M (cs_VoteSignAggr cs);
    hsa ← lift (HeightVoteSignAggr_SetRound hsa (round + 1));
    assign set_VoteSignAggr (Some hsa);;
    hvs ← deref_M (cs_Votes cs);
    hvs ← lift (HeightVoteSet_SetRound hvs (round + 1));
    assign set_Votes (Some hvs);;
    assign set_pastRoundStates (<[round := ROUND_NOT_PROPOSED]> (cs_pastRoundStates cs));;
    fire EventNewRound;;
    wait_or_propose height round.

(** Delete the states of the [n] rounds from [r] downwards. *)
Fixpoint forget_rounds (n : nat) (r : Z) (m : gmap Z Z) : gmap Z Z :=
  match n with
  | O => m
  | S n' => forget_rounds n' (r - 1) (delete r m)
  end.

Definition enterLowerRound (height round : Z) : M unit :=
  cs ← get;
  assign set_pastRoundStates (forget_rounds (Z.to_nat (cs_Round cs - round)) (cs_Round cs) (cs_pastRoundStates cs));;
  updateRoundStep round RoundStepNewRound;;
  clear_round;;
  hsa ← deref_M (cs_VoteSignAggr cs);
  hsa ← lift (HeightVoteSignAggr_ResetTop2Round hsa (round + 1));
  assign set_VoteSignAggr (Some hsa);;
  hvs ← deref_M (cs_Votes cs);
  hvs ← lift (HeightVoteSet_ResetTop2Round hvs (round + 1));
  assign set_Votes (Some hvs);;
  fire EventNewRound;;
  wait_or_propose height round.

(** *** Messages *)

Definition verify_proposal (proposer : Validator) (proposal : Proposal) : M bool :=
  msg ← lift (SignBytes (e_chainID env) proposal);
  mret (PubKey_VerifyBytes (val_PubKey proposer) msg (p_Signature proposal)).

Definition accept_proposal (proposal : Proposal) : M (option CSError) :=
  assign set_Proposal (Some proposal);;
  parts ← lift (NewPartSetFromHeader (p_BlockPartsHeader proposal));
  assign set_ProposalBlockParts (Some parts);;
  assign set_ProposerPeerKey (p_ProposerPeerKey proposal);;
  cs ← get;
  assign set_pastRoundStates (<[cs_Round cs := ROUND_PROPOSED]> (cs_pastRoundStates cs));;
  mret None.

Definition defaultSetProposal (proposal : Proposal) : M (option CSError) :=
  cs ← get;
  if is_some (cs_Proposal cs) then mret None
  else if negb (p_Height proposal =? cs_Height cs) || (cs_Round cs <? p_Round proposal) then mret None
  else if RoundStepCommit <=? cs_Step cs then mret None
  else if negb (p_POLRound proposal =? -1) &&
          ((p_POLRound proposal <? 0) || (p_Round proposal <=? p_POLRound proposal))
  then mret (Some ErrInvalidProposalPOLRound)
  else if p_Round proposal =? cs_Round cs then
    proposer ← GetProposer;
    ok ← verify_proposal proposer proposal;
    if negb ok then mret (Some ErrInvalidProposalSignature) else accept_proposal proposal
  else
    proposer ← proposerByRound (p_Round proposal);
    ok ← verify_proposal (vp_Proposer proposer) proposal;
    if negb ok then mret (Some ErrInvalidProposalSignature)
    else if Z.of_nat (size (cs_pastRoundStates cs)) - 1 <? p_Round proposal then mret None
    else if negb (default 0 (cs_pastRoundStates cs !! p_Round proposal) =? ROUND_NOT_PROPOSED) then mret None
    else
      enterLowerRound (cs_Height cs) (p_Round proposal);;
      accept_proposal proposal.

(** All the bytes a reader yields. *)
Definition reader_bytes (psr : PartSetReader) : bytes :=
  psr_reader psr ++ mjoin ((fun p => match p with Some p => part_Bytes p | None => [] end)
                             <$> drop (S (Z.to_nat (psr_i psr))) (psr_parts psr)).

Definition addProposalBlockPart (height round : Z) (part : Part) (verify : bool) : M (bool * option CSError) :=
  cs ← get;
  if negb (cs_Height cs =? height) || negb (cs_Round cs =? round) then mret (false, None)
  else match cs_ProposalBlockParts cs with
  | None => mret (false, None)
  | Some parts =>
      '(parts, (added, err)) ← lift (PartSet_AddPart parts part verify);
      assign set_ProposalBlockParts (Some parts);;
      match err with
      | Some e => mret (added, Some (ErrPart e))
      | None =>
          if added && PartSet_IsComplete parts then
            reader ← lift (PartSet_GetReader parts);
            let '(block, err) := match NCBlock_FromBytes (reader_bytes reader) with
                                 | Ok b => (Some b, None)
                                 | Err e => (None, Some (ErrOther e))
                                 end in
            assign_ProposalBlock block;;
            complete ← isProposalComplete;
            (if (RoundStepPropose <=? cs_Step cs) && (cs_Step cs <=? RoundStepPrevoteWait) && complete
             then enterPrevote height (cs_Round cs)
             else if cs_Step cs =? RoundStepCommit then tryFinalizeCommit height
             else mret tt);;
            mret (true, err)
          else mret (added, None)
      end
  end.

Definition setMaj23SignAggr (signAggr : SignAggr) : M (option CSError * bool) :=
  cs ← get;
  if negb (sa_Height signAggr =? cs_Height cs) then mret (None, false)
  else
    verified ← blsVerifySignAggr signAggr;
    match verified with
    | Ok true =>
      if (sa_Type signAggr =? VoteTypePrevote) || (sa_Type signAggr =? VoteTypePrecommit) then
        hsa ← deref_M (cs_VoteSignAggr cs);
        '(hsa, _) ← lift (HeightVoteSignAggr_AddSignAggr hsa signAggr);
        assign set_VoteSignAggr (Some hsa);;
        if negb (sa_Round signAggr =? cs_Round cs) then mret (None, false)
        else if sa_Type signAggr =? VoteTypePrevote then
          if is_some (cs_PrevoteMaj23SignAggr cs) then mret (Some ErrDuplicateSignatureAggr, false)
          else
            assign set_PrevoteMaj23SignAggr (Some signAggr);;
            (if is_some (cs_LockedBlock cs) && (cs_LockedRound cs <? sa_Round signAggr) then
               same ← lift (NCBlock_HashesTo (cs_LockedBlock cs) (bid_Hash (sa_Maj23 signAggr)));
               if negb same then unlock;; fire EventUnlock else mret tt
             else mret tt);;
            complete ← isProposalComplete;
            if complete : bool then enterPrecommit (cs_Height cs) (cs_Round cs);; mret (None, true)
            else mret (None, false)
        else
          if is_some (cs_PrecommitMaj23SignAggr cs) then mret (Some ErrDuplicateSignatureAggr, false)
          else
            assign set_PrecommitMaj23SignAggr (Some signAggr);;
            complete ← isProposalComplete;
            if complete : bool then enterCommit (cs_Height cs) (cs_Round cs);; mret (None, true)
            else mret (None, false)
      else mret (Some ErrInvalidSignatureAggr, false)
    | _ => mret (Some ErrInvalidSignatureAggr, false)
    end.

Definition handleSignAggr (signAggr : option SignAggr) : M (option CSError) :=
  match signAggr with
  | None => mret (Some (ErrOther "SignAggr is nil"%string))
  | Some signAggr =>
      cs ← get;
      if sa_Height signAggr =? cs_Height cs then
        '(err, _) ← setMaj23SignAggr signAggr; mret err
      else mret None
  end.

Definition handleMsg (msg : ConsensusMessage) (peerKey : string) : M (option CSError) :=
  match msg with
  | ProposalMessage p => defaultSetProposal p
  | BlockPartMessage height round part =>
      '(_, err) ← addProposalBlockPart height round part (negb (String.eqb peerKey ""));
      cs ← get;
      mret (if is_some err && negb (round =? cs_Round cs) then None else err)
  | Maj23SignAggrMessage sa => handleSignAggr sa
  | VoteMessage vote => tryAddVote vote peerKey
  end.

Definition handleTimeout (duration height round step : Z) : M unit :=
  rs ← get;
  if negb (height =? cs_Height rs) || (round <? cs_Round rs) || ((round =? cs_Round rs) && (step <? cs_Step rs))
  then mret tt
  else if step =? RoundStepNewHeight then enterNewRound height 0
  else if step =? RoundStepWaitForMinerBlock then fire EventTimeoutPropose;; enterPropose height round
  else if step =? RoundStepPropose then fire EventTimeoutPropose;; enterPrevote height round
  else if step =? RoundStepPrevoteWait then fire EventTimeoutWait;; enterPrecommit height round
  else if step =? RoundStepPrecommitWait then fire EventTimeoutWait;; enterNewRound height (round + 1)
  else panic "Invalid timeout step".

(** *** Heights (tdmstate.go) *)

Definition Initialize : M unit :=
  assign set_Height 0;;
  assign set_proposer None;; assign set_isProposer false;; assign set_ProposerPeerKey ""%string;;
  assign set_Validators None;; assign set_Proposal None;; assign_ProposalBlock None;;
  assign set_ProposalBlockParts None;; assign set_LockedRound (-1);; assign set_LockedBlock None;;
  assign set_LockedBlockParts None;; assign set_Votes None;; assign set_VoteSignAggr None;;
  assign set_PrevoteMaj23SignAggr None;; assign set_PrecommitMaj23SignAggr None;;
  assign set_CommitRound (-1);; assign set_state None.

Definition UpdateToState (state : State) : M unit :=
  Initialize;;
  let height := u64 (te_Height (st_NTCExtra state) + 1) in
  assign set_Height height;;
  cs ← get;
  (if match cs_blockFromMiner cs with Some b => height <=? blk_Number b | None => false end
   then mret tt else assign set_blockFromMiner None);;
  updateRoundStep 0 RoundStepNewHeight;;
  assign set_StartTime
    (if negb (is_side_chain (te_ChainID (st_NTCExtra state))) then TimeoutParams_Commit (e_timeoutParams env) (e_now env)
     else match cs_CommitTime cs with
          | None => TimeoutParams_Commit (e_timeoutParams env) (e_now env)
          | Some t => TimeoutParams_Commit (e_timeoutParams env) t
          end);;
  '(_, validators, _) ← lift (State_GetValidators state);
  assign set_Validators validators;;
  valSet ← deref_M validators;
  votes ← lift (NewHeightVoteSet (e_chainID env) height valSet);
  assign set_Votes (Some votes);;
  aggrs ← lift (NewHeightVoteSignAggr (e_chainID env) height valSet);
  assign set_VoteSignAggr (Some aggrs);;
  assign set_vrfValIndex (-1);;
  assign set_pastRoundStates ∅;;
  assign set_state (Some state);;
  newStep.

Definition ExtractTendermintExtra (extra : bytes) : option TendermintExtra :=
  if bool_decide (extra = []) then
    Some {| te_ChainID := ""; te_Height := 0; te_Time := time_zero; te_NeedToSave := false; te_NeedToBroadcast := false;
            te_EpochNumber := 0; te_SeenCommitHash := []; te_ValidatorsHash := []; te_SeenCommit := None;
            te_EpochBytes := [] |}
  else wire_ReadBinary_extra extra.

Definition te_set_height (te : TendermintExtra) (height : Z) : TendermintExtra :=
  {| te_ChainID := te_ChainID te; te_Height := height; te_Time := te_Time te; te_NeedToSave := te_NeedToSave te;
     te_NeedToBroadcast := te_NeedToBroadcast te; te_EpochNumber := te_EpochNumber te;
     te_SeenCommitHash := te_SeenCommitHash te; te_ValidatorsHash := te_ValidatorsHash te;
     te_SeenCommit := te_SeenCommit te; te_EpochBytes := te_EpochBytes te |}.

Definition LoadTendermintExtra (height : Z) : option TendermintExtra :=
  match e_GetBlockByNumber env height with
  | None => None
  | Some ethBlock =>
      match ExtractTendermintExtra (e_HeaderExtra env (blk_Number ethBlock)) with
      | None => None
      | Some ncExtra => Some (if negb (te_Height ncExtra =? blk_Number ethBlock)
                              then te_set_height ncExtra (blk_Number ethBlock) else ncExtra)
      end
  end.

Definition LoadLastTendermintExtra : option TendermintExtra :=
  let curHeight := blk_Number (e_CurrentBlock env) in
  if curHeight =? 0 then None else LoadTendermintExtra curHeight.

Definition InitState (epoch : Epoch) : outcome State :=
  match LoadLastTendermintExtra with
  | None =>
      let state := MakeGenesisState (e_now env) (e_chainID env) in
      if negb (te_EpochNumber (st_NTCExtra state) =? ep_Number epoch) then Panic "InitStateAndEpoch(), initial state error"
      else Ret {| st_NTCExtra := st_NTCExtra state; st_Epoch := Some epoch |}
  | Some te => Ret {| st_NTCExtra := te; st_Epoch := Some epoch |}
  end.

Definition StartNewHeight : M unit :=
  cs ← get;
  state ← lift (InitState (cs_Epoch cs));
  UpdateToState state;;
  newStep;;
  scheduleRound0.

End Machine.
