(* ===== verification/ConsensusSafety.v ===== *)
(** * What the consensus state machine guarantees

    A weakest-precondition calculus for the monad of ConsensusState.v (a panic
    ends the node, so that it satisfies any postcondition), the invariant of a
    height, and the theorems: what a commit, a precommit and a lock rest on,
    how height, round and step move, and what a remote message can do. *)
From S2P Require Import Prelude BitArray TmTypes ValidatorSet VoteSet HeightVotes PartSet Epoch ConsensusState.
Local Open Scope Z_scope.

(** ** Weakest preconditions *)

Section WP.
Context `{L : BitArrayLib} `{C : CryptoLib} `{W : WireLib} {N : NodeLib} {BC : BlockCodec} {ML : MerkleLib} `{EC : EpochCodec}.
Implicit Types s : ConsensusState.

Definition wp {A} (m : M A) (Q : A -> ConsensusState -> Prop) (s : ConsensusState) : Prop :=
  match m s with Ret (s', a) => Q a s' | Panic _ => True end.

Lemma wp_ret {A} (a : A) (Q : A -> ConsensusState -> Prop) s : wp (mret a) Q s <-> Q a s.
Proof. done. Qed.
Lemma wp_bind {A B} (m : M A) (f : A -> M B) Q s :
  wp (m ≫= f) Q s <-> wp m (fun a s' => wp (f a) Q s') s.
Proof. unfold wp, mbind, M_bind. by destruct (m s) as [[s' a]|]. Qed.
Lemma wp_get (Q : ConsensusState -> ConsensusState -> Prop) s : wp get Q s <-> Q s s.
Proof. done. Qed.
Lemma wp_assign {A} (set : A -> ConsensusState -> ConsensusState) v (Q : unit -> ConsensusState -> Prop) s :
  wp (assign set v) Q s <-> Q tt (set v s).
Proof. done. Qed.
Lemma wp_emit o (Q : unit -> ConsensusState -> Prop) s :
  wp (emit o) Q s <-> Q tt (set_out (cs_out s ++ [o]) s).
Proof. done. Qed.
Lemma wp_fire ev (Q : unit -> ConsensusState -> Prop) s :
  wp (fire ev) Q s <-> Q tt (set_out (cs_out s ++ [OEvent (ev (cs_Height s) (cs_Round s) (cs_Step s))]) s).
Proof. done. Qed.
Lemma wp_send msg (Q : unit -> ConsensusState -> Prop) s :
  wp (sendInternalMessage msg) Q s <-> Q tt (set_out (cs_out s ++ [OInternal msg]) s).
Proof. done. Qed.
Lemma wp_schedule d h r st (Q : unit -> ConsensusState -> Prop) s :
  wp (scheduleTimeout d h r st) Q s <-> Q tt (set_out (cs_out s ++ [OTimeout d h r st]) s).
Proof. done. Qed.
Lemma wp_update r st (Q : unit -> ConsensusState -> Prop) s :
  wp (updateRoundStep r st) Q s <-> Q tt (set_Step st (set_Round r s)).
Proof. done. Qed.
Lemma wp_newStep (Q : unit -> ConsensusState -> Prop) s :
  wp newStep Q s <-> Q tt (set_out (cs_out s ++ [OEvent (EventNewRoundStep (cs_Height s) (cs_Round s) (cs_Step s))])
                             (set_nSteps (cs_nSteps s + 1) s)).
Proof. done. Qed.
Lemma wp_complete (Q : bool -> ConsensusState -> Prop) s :
  wp isProposalComplete Q s <-> Q (is_some (cs_Proposal s) && is_some (cs_ProposalBlock s)) s.
Proof. done. Qed.
Lemma wp_unlock (Q : unit -> ConsensusState -> Prop) s :
  wp unlock Q s <->
  Q tt (set_LockedBlockParts None (set_blockShared false (set_LockedBlock None (set_LockedRound (-1) s)))).
Proof. done. Qed.
Lemma wp_assign_block b (Q : unit -> ConsensusState -> Prop) s :
  wp (assign_ProposalBlock b) Q s <-> Q tt (set_blockShared false (set_ProposalBlock b s)).
Proof. done. Qed.
Lemma wp_write_block b (Q : unit -> ConsensusState -> Prop) s :
  wp (write_ProposalBlock b) Q s <->
  Q tt (if cs_blockShared s && is_some (cs_LockedBlock s) then set_LockedBlock (Some b) (set_ProposalBlock (Some b) s)
        else set_ProposalBlock (Some b) s).
Proof. unfold write_ProposalBlock. rewrite wp_bind, wp_get, wp_bind, wp_assign. by destruct (_ && _). Qed.
Lemma wp_lift {A} (o : outcome A) (Q : A -> ConsensusState -> Prop) s :
  wp (lift o) Q s <-> forall a, o = Ret a -> Q a s.
Proof. unfold wp, lift. destruct o; [|done]. split; [by intros HQ b [= <-]|auto]. Qed.
Lemma wp_deref {A} (p : option A) (Q : A -> ConsensusState -> Prop) s :
  wp (deref_M p) Q s <-> forall a, p = Some a -> Q a s.
Proof.
  unfold deref_M. rewrite wp_lift. destruct p; simpl; split; try done; intros HQ b [= <-]; auto.
Qed.
Lemma wp_panic {A} msg (Q : A -> ConsensusState -> Prop) s : wp (panic msg) Q s <-> True.
Proof. done. Qed.
Lemma wp_mono {A} (m : M A) (Q R : A -> ConsensusState -> Prop) s :
  wp m Q s -> (forall a s', Q a s' -> R a s') -> wp m R s.
Proof. unfold wp. destruct (m s) as [[s' a]|]; auto. Qed.
Lemma wp_Ret {A} (m : M A) Q s s' a : wp m Q s -> m s = Ret (s', a) -> Q a s'.
Proof. unfold wp. intros Hwp Hm. by rewrite Hm in Hwp. Qed.

End WP.

(** Step through the monadic operations at the head of the goal. *)
Ltac wp_head :=
  repeat first
    [ rewrite wp_bind | rewrite wp_ret | rewrite wp_get | rewrite wp_assign | rewrite wp_emit
    | rewrite wp_fire | rewrite wp_panic | rewrite wp_send | rewrite wp_schedule | rewrite wp_update
    | rewrite wp_newStep | rewrite wp_complete | rewrite wp_unlock | rewrite wp_assign_block ].
Ltac wp_pure :=
  wp_head;
  match goal with
  | |- wp (lift _) _ _ => rewrite wp_lift; intros ? ?
  | |- wp (deref_M _) _ _ => rewrite wp_deref; intros ? ?
  | |- wp (if ?b then _ else _) _ _ => destruct b eqn:?
  | |- wp (match ?p with _ => _ end) _ _ => destruct p eqn:?
  | |- wp (let '(_, _) := ?p in _) _ _ => destruct p eqn:?
  | |- True => exact I
  end.
(** The value of a lifted computation or of a dereferenced pointer. *)
Tactic Notation "wp_val" simple_intropattern(a) simple_intropattern(p) :=
  wp_head; first [rewrite wp_lift | rewrite wp_deref]; intros a p.
(** Use the specification of a called function. *)
Ltac wp_call spec := wp_head; eapply wp_mono; [apply spec|cbn beta; intros ? ? ?].
Tactic Notation "wp_spec" uconstr(spec) "as" simple_intropattern_list(p) :=
  wp_head; eapply wp_mono; [apply spec|cbn beta; intros p].

(** ** Quiet functions: they change neither the round nor what is known of it,
    and every output they add satisfies [P]. *)

Section Quiet.
Context `{L : BitArrayLib} `{C : CryptoLib} `{W : WireLib} {N : NodeLib} {BC : BlockCodec} {ML : MerkleLib} `{EC : EpochCodec}.
Implicit Types s : ConsensusState.

Record quiet (P : Output -> Prop) (s s' : ConsensusState) : Prop := {
  q_Height : cs_Height s' = cs_Height s;
  q_Round : cs_Round s' = cs_Round s;
  q_Step : cs_Step s' = cs_Step s;
  q_Validators : cs_Validators s' = cs_Validators s;
  q_Proposal : cs_Proposal s' = cs_Proposal s;
  q_Block : cs_ProposalBlock s' = cs_ProposalBlock s;
  q_Parts : cs_ProposalBlockParts s' = cs_ProposalBlockParts s;
  q_LockedRound : cs_LockedRound s' = cs_LockedRound s;
  q_LockedBlock : cs_LockedBlock s' = cs_LockedBlock s;
  q_LockedParts : cs_LockedBlockParts s' = cs_LockedBlockParts s;
  q_Shared : cs_blockShared s' = cs_blockShared s;
  q_Votes : cs_Votes s' = cs_Votes s;
  q_Aggrs : cs_VoteSignAggr s' = cs_VoteSignAggr s;
  q_CommitRound : cs_CommitRound s' = cs_CommitRound s;
  q_Prevote : cs_PrevoteMaj23SignAggr s' = cs_PrevoteMaj23SignAggr s;
  q_Precommit : cs_PrecommitMaj23SignAggr s' = cs_PrecommitMaj23SignAggr s;
  q_past : cs_pastRoundStates s' = cs_pastRoundStates s;
  q_state : te_Height <$> (st_NTCExtra <$> cs_state s') = te_Height <$> (st_NTCExtra <$> cs_state s);
  q_out : exists l, cs_out s' = cs_out s ++ l /\ Forall P l;
}.

#[export] Instance quiet_refl P : Reflexive (quiet P).
Proof. intros s. split; try done. exists []. by rewrite app_nil_r. Qed.

#[export] Instance quiet_trans P : Transitive (quiet P).
Proof.
  intros s1 s2 s3 [] []. split; try congruence.
  destruct q_out0 as (l1 & E1 & H1), q_out1 as (l2 & E2 & H2). exists (l1 ++ l2).
  split; [by rewrite E2, E1, app_assoc|by apply Forall_app].
Qed.

Lemma quiet_weaken (P Q : Output -> Prop) s s' : (forall o, P o -> Q o) -> quiet P s s' -> quiet Q s s'.
Proof.
  intros HPQ []. split; try done. destruct q_out0 as (l & -> & Hl). exists l. split; [done|].
  eapply Forall_impl; [done|]. done.
Qed.

Lemma quiet_emit (P : Output -> Prop) s o : P o -> quiet P s (set_out (cs_out s ++ [o]) s).
Proof. intros Ho. split; try done. exists [o]. split; [done|by constructor]. Qed.

End Quiet.

(** A [quiet] goal between states that differ by assignments to other fields. *)
Ltac quiet_assign := split; try done; try (exists []; split; [by rewrite app_nil_r|constructor]).

Section QuietSpecs.
Context `{L : BitArrayLib} `{C : CryptoLib} `{W : WireLib} {N : NodeLib} {BC : BlockCodec} {ML : MerkleLib} `{EC : EpochCodec}.
Context (env : NodeEnv).
Implicit Types s : ConsensusState.

(** The vote, or the block, an output carries out of the node. *)
Definition output_vote (o : Output) : option Vote :=
  match o with
  | OEvent (EventVote2Proposer v _) => Some v
  | OInternal (VoteMessage v) => Some v
  | _ => None
  end.
Definition output_commit (o : Output) : option NCBlock :=
  match o with OCommit b => Some b | _ => None end.

Definition harmless (o : Output) : Prop := output_vote o = None /\ output_commit o = None.

(** A vote of this node for the current height and round. *)
Definition votes_for (s : ConsensusState) (type_ : Z) (blockID : BlockID) (o : Output) : Prop :=
  exists v, output_vote o = Some v /\ output_commit o = None /\ v_Type v = type_ /\
    v_Height v = cs_Height s /\ v_Round v = u64 (cs_Round s) /\ v_BlockID v = blockID.

Lemma proposersByVRF_quiet s : wp (proposersByVRF env) (fun _ s' => s' = s) s.
Proof.
  unfold proposersByVRF. wp_pure. destruct (e_CurrentHeader env) as [hh n]. wp_pure.
  repeat wp_pure; done.
Qed.

Lemma proposerByRound_quiet P round s : wp (proposerByRound env round) (fun _ s' => quiet P s s') s.
Proof.
  unfold proposerByRound. wp_pure. wp_head.
  apply (wp_mono _ (fun _ s' => quiet P s s')).
  2: { intros idx s' Hs. repeat wp_pure; wp_head; done. }
  repeat wp_pure; wp_head; try done.
  wp_call proposersByVRF_quiet. subst. destruct a0 as [last cur].
  repeat wp_pure; wp_head; quiet_assign.
Qed.

Lemma updateProposer_quiet P s : wp (updateProposer env) (fun _ s' => quiet P s s') s.
Proof.
  unfold updateProposer. wp_call (proposerByRound_quiet P). repeat wp_pure; wp_head.
  etransitivity; [done|]. quiet_assign.
Qed.

Lemma GetProposer_quiet P s : wp (GetProposer env) (fun _ s' => quiet P s s') s.
Proof.
  unfold GetProposer. wp_head. apply (wp_mono _ (fun _ s' => quiet P s s')).
  - destruct (match cs_proposer s with None => _ | Some _ => _ end); [apply updateProposer_quiet|by wp_head].
  - intros [] s' Hs. repeat wp_pure; wp_head; done.
Qed.

Lemma IsProposer_quiet P s : wp (IsProposer env) (fun _ s' => quiet P s s') s.
Proof. unfold IsProposer. wp_call (GetProposer_quiet P). by wp_head. Qed.

Lemma signVote_spec type_ hash header s :
  wp (signVote env type_ hash header) (fun v s' => s' = s /\ v_Type v = type_ /\ v_Height v = cs_Height s /\
    v_Round v = u64 (cs_Round s) /\ v_BlockID v = {| bid_Hash := hash; bid_PartsHeader := header |}) s.
Proof.
  unfold signVote. wp_pure. wp_pure. wp_pure. destruct (ValidatorSet_GetByAddress _ _) as [i o].
  wp_pure. unfold PrivValidator_SignVote in *. destruct (SignBytes _ _); [|done]. by simplify_eq/=.
Qed.

Lemma signAddVote_quiet type_ hash header s :
  wp (signAddVote env type_ hash header)
    (fun _ s' => quiet (votes_for s type_ {| bid_Hash := hash; bid_PartsHeader := header |}) s s') s.
Proof.
  unfold signAddVote. set (P := votes_for s type_ _). repeat wp_pure; wp_head; try done.
  wp_call signVote_spec. destruct H0 as (-> & Hv).
  wp_call (IsProposer_quiet P).
  assert (forall o, output_vote o = Some a0 -> output_commit o = None -> P o) as HP
    by (intros o Ho Hc; exists a0; split; [done|]; split; [done|]; tauto).
  wp_head. repeat wp_pure; wp_head; try done; (etransitivity; [done|]); apply quiet_emit, HP; done.
Qed.

Lemma createProposalBlock_quiet P s : wp (createProposalBlock env) (fun _ s' => quiet P s s') s.
Proof.
  unfold createProposalBlock. wp_pure; [|by wp_head]. wp_pure; [by wp_head|]. wp_head.
  apply (wp_mono _ (fun _ s' => quiet P s s')).
  - repeat wp_pure; wp_head; try done; quiet_assign.
  - intros eb s' Hs. wp_pure. wp_pure. repeat wp_pure; wp_head; done.
Qed.

Lemma send_parts_quiet n i parts s : wp (send_parts n i parts) (fun _ s' => quiet harmless s s') s.
Proof.
  revert i s. induction n as [|n IH]; intros i s; cbn [send_parts]; [by wp_head|].
  wp_pure. wp_pure. wp_head. eapply wp_mono; [apply IH|]. intros [] s' Hs. cbn beta in Hs.
  etransitivity; [|exact Hs]. apply quiet_emit. done.
Qed.

Lemma decideProposal_quiet height round s :
  wp (defaultDecideProposal env height round) (fun _ s' => quiet harmless s s') s.
Proof.
  unfold defaultDecideProposal. wp_head. apply (wp_mono _ (fun _ s' => quiet harmless s s')).
  { wp_pure; [by wp_head|]. wp_call (createProposalBlock_quiet harmless). wp_head. done. }
  intros made s' Hs. repeat wp_pure; wp_head; try done.
  all: try (etransitivity; [exact Hs|apply quiet_emit; done]).
  eapply wp_mono; [apply send_parts_quiet|]. intros [] s2 Hs2. cbn beta in Hs2.
  etransitivity; [exact Hs|]. etransitivity; [|exact Hs2]. apply quiet_emit. done.
Qed.

Lemma when_proposer_quiet P m s :
  (forall s', quiet P s s' -> wp m (fun _ s2 => quiet P s s2) s') -> wp (when_proposer env m) (fun _ s' => quiet P s s') s.
Proof.
  intros Hm. unfold when_proposer. wp_pure; [|by wp_head]. wp_call (IsProposer_quiet P). wp_pure; [by apply Hm|by wp_head].
Qed.

Lemma sendMaj23SignAggr_quiet t s : wp (sendMaj23SignAggr t) (fun _ s' => quiet harmless s s') s.
Proof.
  unfold sendMaj23SignAggr. wp_pure. wp_pure. wp_head. apply (wp_mono _ (fun _ s' => s' = s)).
  { repeat wp_pure; wp_head; done. }
  intros vs s' ->. destruct (VoteSet_TwoThirdsMajority vs) as [maj ok]. wp_pure; [by wp_head|].
  destruct (collect_sigs _ _ _) as [[b sg] ss]. repeat wp_pure; wp_head; try done.
  etransitivity; apply quiet_emit; done.
Qed.

End QuietSpecs.

(** ** Calm functions: no lock is taken or released, no aggregate is learnt. *)

Section Calm.
Context `{L : BitArrayLib} `{C : CryptoLib} `{W : WireLib} {N : NodeLib} {BC : BlockCodec} {ML : MerkleLib} `{EC : EpochCodec}.
Implicit Types s : ConsensusState.

Definition aggr_at (s : ConsensusState) (r t : Z) : option SignAggr :=
  match cs_VoteSignAggr s with
  | Some hsa => match HeightVoteSignAggr_getSignAggr hsa r t with Ret o => o | Panic _ => None end
  | None => None
  end.

Record calm (P : Output -> Prop) (s s' : ConsensusState) : Prop := {
  k_Height : cs_Height s' = cs_Height s;
  k_Validators : cs_Validators s' = cs_Validators s;
  k_LockedRound : cs_LockedRound s' = cs_LockedRound s;
  k_LockedBlock : cs_LockedBlock s' = cs_LockedBlock s;
  k_Shared : cs_blockShared s' = true ->
    cs_LockedBlock s' = None \/ (cs_blockShared s = true /\ cs_ProposalBlock s' = cs_ProposalBlock s);
  k_state : te_Height <$> (st_NTCExtra <$> cs_state s') = te_Height <$> (st_NTCExtra <$> cs_state s);
  k_aggrs : forall r t sa, aggr_at s' r t = Some sa -> aggr_at s r t = Some sa;
  k_out : exists l, cs_out s' = cs_out s ++ l /\ Forall P l;
}.

(** Round and step move forward. *)
Definition hrs_le (s s' : ConsensusState) : Prop :=
  cs_Round s < cs_Round s' \/ (cs_Round s = cs_Round s' /\ cs_Step s <= cs_Step s').

#[export] Instance calm_refl P : Reflexive (calm P).
Proof. intros s. split; try done; [auto|]. exists []. by rewrite app_nil_r. Qed.

#[export] Instance calm_trans P : Transitive (calm P).
Proof.
  intros s1 s2 s3 [] []. split; try congruence; [|eauto|].
  { intros Hb. destruct (k_Shared1 Hb) as [?|[Hb2 ?]]; [by left|].
    destruct (k_Shared0 Hb2) as [?|[? ?]]; [left; congruence|right; split; congruence]. }
  destruct k_out0 as (l1 & E1 & H1), k_out1 as (l2 & E2 & H2). exists (l1 ++ l2).
  split; [by rewrite E2, E1, app_assoc|by apply Forall_app].
Qed.

#[export] Instance hrs_le_preorder : PreOrder hrs_le.
Proof. unfold hrs_le. split; [intros s; lia|intros s1 s2 s3; lia]. Qed.

Lemma calm_weaken (P Q : Output -> Prop) s s' : (forall o, P o -> Q o) -> calm P s s' -> calm Q s s'.
Proof.
  intros HPQ []. split; try done. destruct k_out0 as (l & -> & Hl). exists l. split; [done|].
  eapply Forall_impl; [done|]. done.
Qed.

Lemma quiet_calm P s s' : quiet P s s' -> calm P s s' /\ hrs_le s s'.
Proof.
  intros []. split; [split; try done|unfold hrs_le; lia]; [right; split; congruence|].
  intros r t sa. unfold aggr_at. by rewrite q_Aggrs0.
Qed.

Lemma calm_emit (P : Output -> Prop) s o : P o -> calm P s (set_out (cs_out s ++ [o]) s).
Proof. intros Ho. split; try done; [auto|]. exists [o]. split; [done|by constructor]. Qed.

(** SetRound and ResetTop2Round learn no aggregate. *)
Lemma hsa_lookup hsa r t sa :
  HeightVoteSignAggr_getSignAggr hsa r t = Ret (Some sa) <->
  exists rvs, hsa_rounds hsa !! r = Some rvs /\
    ((t = VoteTypePrevote /\ rsa_Prevotes rvs = Some sa) \/ (t = VoteTypePrecommit /\ rsa_Precommits rvs = Some sa)).
Proof.
  unfold HeightVoteSignAggr_getSignAggr. destruct (hsa_rounds hsa !! r) as [rvs|].
  2: { split; [done|]. by intros (? & ? & _). }
  destruct (Z.eqb_spec t VoteTypePrevote), (Z.eqb_spec t VoteTypePrecommit); try (by subst); split.
  all: try (intros [= E]; eexists; eauto).
  all: intros (? & [= <-] & [[-> E]|[-> E]]); rewrite ?E; done.
Qed.

Definition hsa_sub (hsa hsa' : HeightVoteSignAggr) : Prop :=
  forall r t sa, HeightVoteSignAggr_getSignAggr hsa' r t = Ret (Some sa) ->
    HeightVoteSignAggr_getSignAggr hsa r t = Ret (Some sa).

Lemma hsa_sub_trans a b c : hsa_sub a b -> hsa_sub b c -> hsa_sub a c.
Proof. unfold hsa_sub. eauto. Qed.

Lemma hsa_addRound_sub hsa r hsa' : HeightVoteSignAggr_addRound hsa r = Ret hsa' -> hsa_sub hsa hsa'.
Proof.
  unfold HeightVoteSignAggr_addRound. destruct (_ !! r) eqn:Hr; [done|]. intros [= <-] k t sa.
  rewrite !hsa_lookup. simpl. intros (rvs & Hk & Ho). exists rvs. split; [|done].
  apply lookup_insert_Some in Hk as [[<- <-]|[_ ?]]; [|done]. simpl in Ho. by destruct Ho as [[_ ?]|[_ ?]].
Qed.

Lemma hsa_loop_sub n r hsa hsa' : hsa_set_round_loop n r hsa = Ret hsa' -> hsa_sub hsa hsa'.
Proof.
  revert r hsa. induction n as [|n IH]; intros r hsa; simpl; [intros [= <-] ? ? ?; done|].
  destruct (_ !! r); [apply IH|]. destruct (HeightVoteSignAggr_addRound hsa r) as [h1|] eqn:H1; [|done].
  go_bind. intros Hl. eapply hsa_sub_trans; [by eapply hsa_addRound_sub|by eapply IH].
Qed.

Lemma hsa_SetRound_sub hsa r hsa' : HeightVoteSignAggr_SetRound hsa r = Ret hsa' -> hsa_sub hsa hsa'.
Proof.
  unfold HeightVoteSignAggr_SetRound. destruct (_ && _); [done|].
  destruct (hsa_set_round_loop _ _ _) as [h1|] eqn:H1; [|done]. intros [= <-]. by apply hsa_loop_sub in H1.
Qed.

Lemma hsa_Reset_sub hsa r hsa' : HeightVoteSignAggr_ResetTop2Round hsa r = Ret hsa' -> hsa_sub hsa hsa'.
Proof.
  unfold HeightVoteSignAggr_ResetTop2Round. destruct (_ || _); [done|].
  set (h0 := hsa_set_rounds hsa _).
  assert (hsa_sub hsa h0) as H0.
  { intros k t sa. rewrite !hsa_lookup. simpl. intros (rvs & Hk & Ho). exists rvs. split; [|done].
    rewrite lookup_delete_rounds in Hk. by destruct (decide _). }
  destruct (HeightVoteSignAggr_addRound h0 (r - 1)) as [h1|] eqn:H1; [|done]. go_bind.
  destruct (HeightVoteSignAggr_addRound h1 r) as [h2|] eqn:H2; [|done]. intros [= <-].
  eapply hsa_sub_trans; [done|]. eapply hsa_sub_trans; [by eapply hsa_addRound_sub|]. by apply hsa_addRound_sub in H2.
Qed.

(** Replacing the aggregates by ones that know no more. *)
Lemma aggr_sub_assign s hsa hsa' :
  cs_VoteSignAggr s = Some hsa -> hsa_sub hsa hsa' ->
  forall r t sa, aggr_at (set_VoteSignAggr (Some hsa') s) r t = Some sa -> aggr_at s r t = Some sa.
Proof.
  intros Hs Hsub r t sa. unfold aggr_at. simpl. rewrite Hs.
  destruct (HeightVoteSignAggr_getSignAggr hsa' r t) as [[x|]|] eqn:E; try done. intros [= ->].
  by rewrite (Hsub r t sa E).
Qed.

End Calm.

(** A [calm] goal between states that differ by assignments to other fields. *)
Ltac calm_assign := split; try done; try (simpl; auto; done); try (exists []; split; [by rewrite app_nil_r|constructor]).

Section CalmSpecs.
Context `{L : BitArrayLib} `{C : CryptoLib} `{W : WireLib} {N : NodeLib} {BC : BlockCodec} {ML : MerkleLib} `{EC : EpochCodec}.
Context (env : NodeEnv).
Implicit Types s : ConsensusState.

(** A prevote of this node at this height, for the block [lb] when the node is
    locked on one, or nothing that counts. *)
Definition prevote_only (h : Z) (lb : option NCBlock) (o : Output) : Prop :=
  harmless o \/ (output_commit o = None /\ exists v, output_vote o = Some v /\ v_Type v = VoteTypePrevote /\
    v_Height v = h /\ forall b, lb = Some b -> NCBlock_Hash (Some b) = Ret (bid_Hash (v_BlockID v))).
Definition prevotes (s : ConsensusState) : Output -> Prop := prevote_only (cs_Height s) (cs_LockedBlock s).

Definition calm_fwd (P : Output -> Prop) (s s' : ConsensusState) : Prop := calm P s s' /\ hrs_le s s'.

#[export] Instance calm_fwd_preorder P : PreOrder (calm_fwd P).
Proof.
  unfold calm_fwd. split; [by intros s|]. intros s1 s2 s3 [H1 H2] [H3 H4]. split; by etransitivity.
Qed.

Lemma quiet_fwd (P Q : Output -> Prop) s s' : (forall o, P o -> Q o) -> quiet P s s' -> calm_fwd Q s s'.
Proof. intros HPQ Hq. apply quiet_calm. by eapply quiet_weaken. Qed.

Lemma emit_fwd (P : Output -> Prop) s o : P o -> calm_fwd P s (set_out (cs_out s ++ [o]) s).
Proof. intros Ho. split; [by apply calm_emit|unfold hrs_le; simpl; lia]. Qed.

Lemma hrs_guard s height round step :
  negb (cs_Height s =? height) || (round <? cs_Round s) || ((cs_Round s =? round) && (step <=? cs_Step s)) = false ->
  cs_Height s = height /\ (cs_Round s < round \/ (cs_Round s = round /\ cs_Step s < step)).
Proof.
  destruct (Z.eqb_spec (cs_Height s) height), (Z.ltb_spec round (cs_Round s)), (Z.eqb_spec (cs_Round s) round),
    (Z.leb_spec step (cs_Step s)); simpl; try done; lia.
Qed.

Lemma hrs_guard_lt s height round step :
  negb (cs_Height s =? height) || (round <? cs_Round s) || ((cs_Round s =? round) && (step <? cs_Step s)) = false ->
  cs_Height s = height /\ (cs_Round s < round \/ (cs_Round s = round /\ cs_Step s <= step)).
Proof.
  destruct (Z.eqb_spec (cs_Height s) height), (Z.ltb_spec round (cs_Round s)), (Z.eqb_spec (cs_Round s) round),
    (Z.ltb_spec step (cs_Step s)); simpl; try done; lia.
Qed.

(** Announcing a new step. *)
Lemma step_fwd (P : Output -> Prop) s round step :
  (forall o, harmless o -> P o) ->
  (cs_Round s < round \/ (cs_Round s = round /\ cs_Step s <= step)) ->
  calm_fwd P s (set_out (cs_out s ++ [OEvent (EventNewRoundStep (cs_Height s) round step)])
                  (set_nSteps (cs_nSteps s + 1) (set_Step step (set_Round round s)))).
Proof.
  intros HP Hr. split; [|unfold hrs_le; simpl; lia]. split; try done; [auto|].
  eexists. split; [done|]. constructor; [|done]. by apply HP.
Qed.

Lemma newStep_calm (P : Output -> Prop) s0 s round step :
  (forall o, harmless o -> P o) -> calm_fwd P s0 s ->
  (cs_Round s < round \/ (cs_Round s = round /\ cs_Step s <= step)) ->
  wp (updateRoundStep round step;; newStep) (fun _ s' => calm_fwd P s0 s') s.
Proof. intros HP Hs Hr. wp_head. etransitivity; [exact Hs|]. by apply (step_fwd P s round step). Qed.

Lemma wait_calm d h round step s :
  (cs_Round s < round \/ (cs_Round s = round /\ cs_Step s <= step)) ->
  wp (scheduleTimeout d h round step;; (updateRoundStep round step;; newStep)) (fun _ s' => calm_fwd harmless s s') s.
Proof. intros Hr. wp_head. by apply newStep_calm; [|apply emit_fwd|]. Qed.

Lemma enterPrevoteWait_calm height round s :
  wp (enterPrevoteWait env height round) (fun _ s' => calm_fwd harmless s s') s.
Proof.
  unfold enterPrevoteWait. wp_pure; [by wp_head|]. apply hrs_guard in Heqb as [<- Hr]. apply wait_calm. lia.
Qed.

Lemma enterPrecommitWait_calm height round s :
  wp (enterPrecommitWait env height round) (fun _ s' => calm_fwd harmless s s') s.
Proof.
  unfold enterPrecommitWait. wp_pure; [by wp_head|]. apply hrs_guard in Heqb as [<- Hr]. apply wait_calm. lia.
Qed.

Lemma harmless_prevotes s o : harmless o -> prevotes s o.
Proof. by left. Qed.

Lemma prevotes_calm P s s' : calm P s s' -> prevotes s' = prevotes s.
Proof. intros []. unfold prevotes. congruence. Qed.

(** A call between two calm steps: the node is still locked on the same block. *)
Lemma fwd_prevotes s s1 s2 :
  calm_fwd (prevotes s) s s1 -> calm_fwd (prevotes s1) s1 s2 -> calm_fwd (prevotes s) s s2.
Proof. intros Hs H1. rewrite (prevotes_calm _ _ _ (proj1 Hs)) in H1. by etransitivity. Qed.

Lemma fwd_harmless s s' : calm_fwd harmless s s' -> calm_fwd (prevotes s) s s'.
Proof. intros [H1 H2]. split; [|done]. eapply calm_weaken; [apply harmless_prevotes|done]. Qed.

(** Voting: round and step stay. *)
Definition vote_frame (s s' : ConsensusState) : Prop :=
  calm_fwd (prevotes s) s s' /\ cs_Round s' = cs_Round s /\ cs_Step s' = cs_Step s.

#[export] Instance vote_frame_refl : Reflexive vote_frame.
Proof. by intros s. Qed.

Lemma vote_frame_quiet s0 s s' : vote_frame s0 s -> quiet (prevotes s0) s s' -> vote_frame s0 s'.
Proof.
  intros (Hs & Hr & Ht) Hq. split; [|destruct Hq; split; congruence].
  etransitivity; [exact Hs|]. by eapply quiet_fwd.
Qed.

Lemma signAddVote_prevotes s s0 hash header :
  vote_frame s0 s ->
  (forall b, cs_LockedBlock s0 = Some b -> NCBlock_Hash (Some b) = Ret hash) ->
  wp (signAddVote env VoteTypePrevote hash header) (fun _ s' => vote_frame s0 s') s.
Proof.
  intros Hs Hl. wp_call signAddVote_quiet. eapply vote_frame_quiet; [done|].
  eapply quiet_weaken; [|exact H]. intros o (v & Hv & Hc & Ht & Hh & _ & Hb). right. split; [done|]. exists v.
  split; [done|]. split; [done|]. destruct Hs as [[[] _] _]. split; [congruence|]. rewrite Hb. exact Hl.
Qed.

Lemma prevote_nil_prevotes s s0 :
  vote_frame s0 s -> cs_LockedBlock s0 = None -> wp (prevote_nil env) (fun _ s' => vote_frame s0 s') s.
Proof.
  intros Hs Hl. unfold prevote_nil. wp_head. eapply wp_mono; [apply (signAddVote_prevotes s s0); [done|]|].
  - intros b Hb. congruence.
  - intros ? s' Hs'. by wp_head.
Qed.

Lemma doPrevote_calm height round s : wp (defaultDoPrevote env height round) (fun _ s' => vote_frame s s') s.
Proof.
  unfold defaultDoPrevote. wp_pure.
  { destruct (cs_LockedBlock s) as [b|] eqn:Hb; [|done]. wp_pure. wp_head.
    eapply wp_mono; [apply (signAddVote_prevotes s s); [done|]|].
    - intros b' [= <-]%(eq_trans (eq_sym Hb)). done.
    - intros ? s' Hs'. by wp_head. }
  assert (cs_LockedBlock s = None) as Hl by (by destruct (cs_LockedBlock s)).
  assert (forall s', vote_frame s s' -> wp (prevote_nil env) (fun _ s' => vote_frame s s') s') as Hnil
    by (intros; by apply prevote_nil_prevotes).
  wp_pure; [|by apply Hnil]. wp_pure. wp_pure. wp_pure; [by apply Hnil|]. wp_pure. wp_pure; [by apply Hnil|].
  wp_spec (IsProposer_quiet env (prevotes s)) as ip s0 Hip. apply (vote_frame_quiet s s) in Hip; [|done]. wp_head.
  apply (wp_mono _ (fun _ s' => vote_frame s s')).
  { repeat wp_pure; wp_head; try done. rewrite wp_write_block. wp_head. destruct Hip as ([Hk ?] & ? & ?).
    pose proof (k_LockedBlock _ _ _ Hk) as Hlk. rewrite Hlk, Hl, andb_false_r. split; [|done]. split; [|done].
    etransitivity; [exact Hk|]. calm_assign. intros _. left. simpl. congruence. }
  intros valid s1 Hs1. wp_pure; [by apply Hnil|]. wp_pure. wp_head. apply (wp_mono _ (fun _ s' => vote_frame s s')).
  { repeat wp_pure; wp_head; done. }
  intros epochErr s2 Hs2. wp_pure; [by apply Hnil|]. wp_pure. wp_head.
  eapply wp_mono; [apply (signAddVote_prevotes s2 s); [done|]|].
  - intros b Hb. congruence.
  - intros ? s' Hs'. by wp_head.
Qed.

Lemma enterPrevote_calm height round s :
  wp (enterPrevote env height round) (fun _ s' => calm_fwd (prevotes s) s s') s.
Proof.
  unfold enterPrevote. wp_pure; [by wp_head|]. apply hrs_guard_lt in Heqb as [<- Hr]. wp_head.
  apply (wp_mono _ (fun _ s' => vote_frame s s')).
  { wp_pure; [apply doPrevote_calm|by wp_head]. }
  intros _ s1 (Hs1 & Hr1 & Ht1). wp_head. apply (wp_mono _ (fun _ s' => calm_fwd (prevotes s) s s')).
  { wp_pure; [|by wp_head]. apply newStep_calm; [apply harmless_prevotes|done|].
    rewrite Hr1. apply Z.eqb_eq in Heqb. rewrite Heqb. unfold RoundStepPropose, RoundStepPrevote in *. lia. }
  intros _ s2 Hs2. wp_call enterPrevoteWait_calm. eapply fwd_prevotes; [done|]. by apply fwd_harmless.
Qed.

Lemma save_quiet (out : Z -> Output) (flags : State -> State) s :
  (forall h, harmless (out h)) -> (forall st, te_Height (st_NTCExtra (flags st)) = te_Height (st_NTCExtra st)) ->
  forall st, cs_state s = Some st ->
  wp (when_proposer env (emit (out (te_Height (st_NTCExtra st)));; assign set_state (Some (flags st))))
    (fun _ s' => quiet harmless s s') s.
Proof.
  intros Hout Hfl st Hst. apply when_proposer_quiet. intros s1 Hs1. wp_head.
  etransitivity; [exact Hs1|]. etransitivity; [apply quiet_emit; apply (Hout (te_Height (st_NTCExtra st)))|].
  split; try done; simpl; [|exists []; by rewrite app_nil_r].
  rewrite Hfl. destruct Hs1. by rewrite q_state0, Hst.
Qed.

Lemma enterPropose_calm height round s :
  wp (enterPropose env height round) (fun _ s' => calm_fwd (prevotes s) s s') s.
Proof.
  unfold enterPropose. wp_pure; [by wp_head|]. apply hrs_guard in Heqb as [<- Hr]. wp_pure. wp_head.
  apply (wp_mono _ (fun _ s' => quiet harmless s s')).
  { wp_pure; [|by wp_head].
    by apply (save_quiet OSaveBlockToMainChain (fun st => st_set_flags st false (te_NeedToBroadcast (st_NTCExtra st)))). }
  intros [] s1 Hs1. wp_pure. wp_head. apply (wp_mono _ (fun _ s' => quiet harmless s s')).
  { wp_pure; [|by wp_head]. eapply wp_mono.
    - by apply (save_quiet OBroadcastTX3ProofData (fun st => st_set_flags st (te_NeedToSave (st_NTCExtra st)) false)).
    - intros [] s2 Hs2. by etransitivity. }
  intros [] s2 Hs2. wp_head. eapply wp_mono.
  { apply when_proposer_quiet. intros s' Hs'. eapply wp_mono; [apply decideProposal_quiet|].
    intros [] s'' Hs''. etransitivity; [exact Hs'|exact Hs'']. }
  intros [] s3 Hs3. cbn beta in Hs3.
  assert (quiet harmless s s3) as H3.
  { etransitivity; [exact Hs2|]. etransitivity; [|exact Hs3]. by apply quiet_emit. }
  wp_head.
  match goal with |- wp _ _ ?s4 => assert (calm_fwd (prevotes s) s s4) as H4 end.
  { etransitivity; [eapply quiet_fwd; [apply harmless_prevotes|exact H3]|].
    apply (step_fwd (prevotes s) s3 round RoundStepPropose); [apply harmless_prevotes|]. destruct H3. rewrite q_Round0, q_Step0. lia. }
  wp_pure; [|by wp_head]. wp_spec enterPrevote_calm as _ s5 Hs5. by eapply fwd_prevotes.
Qed.

Lemma wait_or_propose_calm height round s :
  wp (wait_or_propose env height round) (fun _ s' => calm_fwd (prevotes s) s s') s.
Proof.
  unfold wait_or_propose. wp_spec (IsProposer_quiet env (prevotes s)) as ip s1 Hs1.
  assert (calm_fwd (prevotes s) s s1) as HQ1 by (by eapply quiet_fwd).
  wp_pure; wp_head.
  - etransitivity; [exact HQ1|]. by apply emit_fwd, harmless_prevotes.
  - wp_spec enterPropose_calm as [] s2 Hs2. by eapply fwd_prevotes.
Qed.

(** Entering a round clears the proposal and the pointers to the round's
    aggregates; the lock stays. *)
Lemma clear_round_calm s : wp clear_round (fun _ s' => calm harmless s s' /\ cs_Round s' = cs_Round s /\
  cs_Step s' = cs_Step s /\ cs_VoteSignAggr s' = cs_VoteSignAggr s) s.
Proof. unfold clear_round. wp_head. split; [calm_assign|done]. Qed.

Lemma enterNewRound_calm height round s :
  wp (enterNewRound env height round) (fun _ s' => calm_fwd (prevotes s) s s') s.
Proof.
  unfold enterNewRound. wp_pure; [by wp_head|]. wp_head.
  assert (cs_Height s = height /\ (cs_Round s < round \/ (cs_Round s = round /\ cs_Step s = RoundStepNewHeight))) as [<- Hr].
  { destruct (Z.eqb_spec (cs_Height s) height), (Z.ltb_spec round (cs_Round s)), (Z.eqb_spec (cs_Round s) round),
      (Z.eqb_spec (cs_Step s) RoundStepNewHeight); simpl in Heqb; try done; lia. }
  clear Heqb. set (s0 := set_Step RoundStepNewRound (set_Round round s)).
  apply (wp_mono _ (fun _ s' => calm harmless s0 s' /\ cs_Round s' = cs_Round s0 /\ cs_Step s' = cs_Step s0 /\
    cs_VoteSignAggr s' = cs_VoteSignAggr s0)); [destruct (round =? 0); [by wp_head|apply clear_round_calm]|].
  intros [] s1 (Hs1 & Hr1 & Ht1 & Ha1). wp_pure. wp_pure. wp_head. wp_pure. wp_pure. wp_head.
  match goal with |- wp _ _ ?s4 => assert (calm_fwd (prevotes s) s s4) as HQ4 end.
  { split; [|unfold hrs_le; simpl; rewrite Hr1, Ht1; subst s0; simpl; unfold RoundStepNewHeight, RoundStepNewRound in *; lia].
    apply (calm_weaken harmless); [apply harmless_prevotes|].
    assert (calm harmless s s1) as HQ1 by (etransitivity; [|exact Hs1]; subst s0; calm_assign).
    etransitivity; [exact HQ1|]. split; try done; [auto| |].
    - eapply aggr_sub_assign; [done|]. by eapply hsa_SetRound_sub.
    - eexists. split; [done|]. by repeat constructor. }
  wp_spec wait_or_propose_calm as [] s5 Hs5. by eapply fwd_prevotes.
Qed.

Lemma enterLowerRound_calm height round s :
  wp (enterLowerRound env height round) (fun _ s' => calm (prevotes s) s s') s.
Proof.
  unfold enterLowerRound. wp_head. set (s0 := set_Step RoundStepNewRound _).
  wp_spec clear_round_calm as [] s1 (Hs1 & _ & _ & Ha1). wp_pure. wp_pure. wp_head. wp_pure. wp_pure. wp_head.
  match goal with |- wp _ _ ?s4 => assert (calm (prevotes s) s s4) as HQ4 end.
  { apply (calm_weaken harmless); [apply harmless_prevotes|].
    assert (calm harmless s s1) as HQ1 by (etransitivity; [|exact Hs1]; subst s0; calm_assign).
    etransitivity; [exact HQ1|]. split; try done; [auto| |].
    - eapply aggr_sub_assign; [etransitivity; [exact Ha1|eassumption]|]. by eapply hsa_Reset_sub.
    - eexists. split; [done|]. by repeat constructor. }
  wp_spec wait_or_propose_calm as [] s5 [Hs5 _]. rewrite (prevotes_calm _ _ _ HQ4) in Hs5. by etransitivity.
Qed.

Lemma addVote_calm vote peerKey s : wp (addVote env vote peerKey) (fun _ s' => calm_fwd harmless s s') s.
Proof.
  unfold addVote. wp_spec (IsProposer_quiet env harmless) as ip s1 Hs1. wp_head.
  assert (calm_fwd harmless s s1) as HQ1 by (by eapply quiet_fwd).
  wp_pure; [by wp_head|]. wp_pure; [by wp_head|]. wp_pure. wp_pure. wp_pure; [by wp_head|]. wp_pure.
  destruct a1 as [hvs [added err]]. wp_head. set (s2 := set_Votes (Some hvs) s1).
  assert (calm_fwd harmless s s2) as HQ2.
  { etransitivity; [exact HQ1|]. split; [calm_assign|unfold hrs_le; simpl; lia]. }
  apply (wp_mono _ (fun _ s' => calm_fwd harmless s s')); [|intros [] s3 Hs3; by wp_head].
  assert (wp (sendMaj23SignAggr (v_Type vote)) (fun _ s' => calm_fwd harmless s s') s2) as Hsend.
  { wp_spec sendMaj23SignAggr_quiet as [] s3 Hs3. etransitivity; [exact HQ2|]. by eapply quiet_fwd. }
  repeat wp_pure; wp_head; done.
Qed.

Lemma tryAddVote_calm vote peerKey s : wp (tryAddVote env vote peerKey) (fun _ s' => calm_fwd harmless s s') s.
Proof. unfold tryAddVote. wp_spec addVote_calm as [added err] s1 Hs1. by wp_head. Qed.

Lemma accept_proposal_calm proposal s :
  wp (accept_proposal proposal) (fun _ s' => calm_fwd harmless s s') s.
Proof.
  unfold accept_proposal. wp_pure. wp_head. split; [calm_assign|unfold hrs_le; simpl; lia].
Qed.

End CalmSpecs.

(** ** The invariant of a height *)

Section Invariant.
Context `{L : BitArrayLib} `{C : CryptoLib} `{W : WireLib} {N : NodeLib} {BC : BlockCodec} {ML : MerkleLib} `{EC : EpochCodec}.
Context (env : NodeEnv).
Implicit Types s : ConsensusState.

(** What blsVerifySignAggr establishes: validators of [V] with a quorum of the
    voting power signed, together, the vote the aggregate carries. *)
Definition aggr_verified (V : ValidatorSet) (sa : SignAggr) : Prop :=
  exists signature p votesSum total aggrPubKey msg,
    sa_SignatureAggr sa = Some signature /\
    ValidatorSet_TalliedVotingPower V (sa_BitArray sa) = Ok (p, votesSum, total) /\
    Loose23MajorThreshold total (sa_Round sa) <= votesSum /\
    ValidatorSet_AggrPubKey V (sa_BitArray sa) = Some aggrPubKey /\
    SignBytes (sa_ChainID sa)
      {| v_ValidatorAddress := []; v_ValidatorIndex := 0; v_Height := sa_Height sa; v_Round := u64 (sa_Round sa);
         v_Type := sa_Type sa; v_BlockID := sa_BlockID sa; v_Signature := None; v_SignBytes := [] |} = Ret msg /\
    PubKey_VerifyBytes aggrPubKey msg (Some signature) = true.

(** A verified aggregate of this height, round and type. *)
Definition aggr_ok (V : ValidatorSet) (h r t : Z) (sa : SignAggr) : Prop :=
  sa_Height sa = h /\ sa_Round sa = r /\ sa_Type sa = t /\ aggr_verified V sa.

(** [b] is [b0] with a commit written into it. *)
Definition sealed (b0 b : NCBlock) : Prop :=
  exists te commit w, nb_NTCExtra b0 = Some te /\ b = nb_set_extra b0 (seal_extra te commit w).

(** [b0] is the block of the aggregate. *)
Definition aggr_for (sa : SignAggr) (b0 : NCBlock) : Prop :=
  bid_Hash (sa_Maj23 sa) <> [] /\ NCBlock_Hash (Some b0) = Ret (bid_Hash (sa_Maj23 sa)).

(** What a lock rests on: +2/3 of the prevotes of its round. *)
Definition lock_ok (V : ValidatorSet) (h r : Z) (b : NCBlock) : Prop :=
  exists sa b0, aggr_ok V h r VoteTypePrevote sa /\ aggr_for sa b0 /\ (b = b0 \/ sealed b0 b).

Record cs_inv (V : ValidatorSet) (s : ConsensusState) : Prop := {
  ci_vals : cs_Validators s = Some V;
  ci_aggrs : forall r t sa, aggr_at s r t = Some sa -> aggr_ok V (cs_Height s) r t sa;
  ci_lock : forall b, cs_LockedBlock s = Some b -> lock_ok V (cs_Height s) (cs_LockedRound s) b;
  ci_shared : cs_blockShared s = true -> forall b, cs_LockedBlock s = Some b -> cs_ProposalBlock s = Some b;
  ci_state : forall st, cs_state s = Some st -> u64 (te_Height (st_NTCExtra st) + 1) = cs_Height s;
}.

(** A precommit of this node: for nil, or for the block of a verified prevote
    aggregate of this height, of the vote's round or a later one. *)
Definition precommit_ok (V : ValidatorSet) (h : Z) (o : Output) : Prop :=
  output_commit o = None /\ exists v, output_vote o = Some v /\ v_Type v = VoteTypePrecommit /\ v_Height v = h /\
    (v_BlockID v = {| bid_Hash := []; bid_PartsHeader := PartSetHeader_zero |} \/
     exists sa b0 r0, aggr_ok V h (sa_Round sa) VoteTypePrevote sa /\ aggr_for sa b0 /\
       v_BlockID v = sa_Maj23 sa /\ v_Round v = u64 r0 /\ r0 <= sa_Round sa).

(** A commit of this node: the block of a verified precommit aggregate of this
    height, carrying the commit made of that aggregate. *)
Definition commit_ok (V : ValidatorSet) (h : Z) (o : Output) : Prop :=
  output_vote o = None /\ exists b, output_commit o = Some b /\
    exists sa b0 te w, aggr_ok V h (sa_Round sa) VoteTypePrecommit sa /\ aggr_for sa b0 /\
      nb_NTCExtra b0 = Some te /\ te_Height te = h /\
      b = nb_set_extra b0 (seal_extra te (SignAggr_MakeCommit sa) w).

Definition out_ok (V : ValidatorSet) (h : Z) (lb : option NCBlock) (o : Output) : Prop :=
  prevote_only h lb o \/ precommit_ok V h o \/ commit_ok V h o.

(** A step that keeps the invariant, whose outputs satisfy [P]. *)
Record safe (V : ValidatorSet) (P : Output -> Prop) (s s' : ConsensusState) : Prop := {
  sf_inv : cs_inv V s';
  sf_Height : cs_Height s' = cs_Height s;
  sf_out : exists l, cs_out s' = cs_out s ++ l /\ Forall P l;
}.

Lemma safe_refl V P s : cs_inv V s -> safe V P s s.
Proof. intros Hi. split; try done. exists []. by rewrite app_nil_r. Qed.

Lemma safe_trans V P s1 s2 s3 : safe V P s1 s2 -> safe V P s2 s3 -> safe V P s1 s3.
Proof.
  intros [_ Hh1 (l1 & E1 & Hl1)] [Hi Hh2 (l2 & E2 & Hl2)]. split; [done|congruence|]. exists (l1 ++ l2).
  split; [by rewrite E2, E1, app_assoc|by apply Forall_app].
Qed.

Lemma safe_weaken V (P Q : Output -> Prop) s s' : (forall o, P o -> Q o) -> safe V P s s' -> safe V Q s s'.
Proof.
  intros HPQ [Hi Hh (l & E & Hl)]. split; try done. exists l. split; [done|]. by eapply Forall_impl.
Qed.

Lemma state_height_eq (o o' : option State) h :
  te_Height <$> (st_NTCExtra <$> o') = te_Height <$> (st_NTCExtra <$> o) ->
  (forall st, o = Some st -> u64 (te_Height (st_NTCExtra st) + 1) = h) ->
  forall st, o' = Some st -> u64 (te_Height (st_NTCExtra st) + 1) = h.
Proof.
  intros He Ho st ->. destruct o as [st0|]; simpl in He; [|done]. injection He as ->. by apply Ho.
Qed.

Lemma calm_safe V P s s' : cs_inv V s -> calm P s s' -> safe V P s s'.
Proof.
  intros [] []. split; try done. split; [congruence| | | |].
  - intros r t sa Hsa. rewrite k_Height0. eauto.
  - rewrite k_LockedBlock0, k_LockedRound0, k_Height0. done.
  - intros Hb b Hl. destruct (k_Shared0 Hb) as [?|[Hb0 ->]]; [congruence|]. apply ci_shared0; congruence.
  - rewrite k_Height0. by eapply state_height_eq.
Qed.

Lemma fwd_safe V P s s' : cs_inv V s -> calm_fwd P s s' -> safe V P s s'.
Proof. intros Hi [Hc _]. by apply calm_safe. Qed.

(** An aggregate found in the state is verified. *)
Lemma majority_ok V s hsa r t sa :
  cs_inv V s -> cs_VoteSignAggr s = Some hsa -> HeightVoteSignAggr_getSignAggr hsa r t = Ret (Some sa) ->
  aggr_ok V (cs_Height s) r t sa.
Proof. intros Hi Hs Hg. apply Hi. unfold aggr_at. by rewrite Hs, Hg. Qed.

Lemma HashesTo_true b h : NCBlock_HashesTo b h = Ret true ->
  h <> [] /\ exists b0, b = Some b0 /\ NCBlock_Hash b = Ret h.
Proof.
  unfold NCBlock_HashesTo. destruct (bool_decide_reflect (h = [])); [done|]. destruct b as [b0|]; [|done].
  destruct (NCBlock_Hash _) as [x|]; [|done]. simpl. intros [= E%bool_decide_eq_true]. subst.
  split; [done|]. by exists b0.
Qed.

Lemma sealed_trans b0 b1 b2 : sealed b0 b1 -> sealed b1 b2 -> sealed b0 b2.
Proof.
  intros (te & c & w & H0 & ->) (te1 & c1 & w1 & [= <-] & ->). exists te, c1, (w || w1). split; [done|].
  unfold nb_set_extra, seal_extra. simpl. do 3 f_equal.
  - by rewrite <- orb_assoc, orb_diag.
  - by rewrite orb_assoc.
Qed.

Lemma lock_sealed V h r b b' : lock_ok V h r b -> sealed b b' -> lock_ok V h r b'.
Proof.
  intros (sa & b0 & Ha & Hf & Hb) Hs. exists sa, b0. split; [done|]. split; [done|]. right.
  destruct Hb as [->|Hb]; [done|by eapply sealed_trans].
Qed.

Lemma prevote_majority_spec r s :
  wp (prevote_majority r) (fun a s' => s' = s /\ (a.2 = true -> exists hsa sa, cs_VoteSignAggr s = Some hsa /\
    HeightVoteSignAggr_getSignAggr hsa r VoteTypePrevote = Ret (Some sa) /\ a.1 = sa_Maj23 sa)) s.
Proof.
  unfold prevote_majority. wp_pure. wp_pure. wp_head. split; [done|]. unfold HeightVoteSignAggr_Prevotes in *.
  intros Hok. destruct a0 as [sa|]; [|done]. exists a, sa. split; [done|]. split; [done|].
  simpl in *. by destruct (BlockID_IsZero (sa_Maj23 sa)).
Qed.

Lemma precommit_majority_spec r s :
  wp (precommit_majority r) (fun a s' => s' = s /\ (a.2 = true -> exists hsa sa, cs_VoteSignAggr s = Some hsa /\
    HeightVoteSignAggr_getSignAggr hsa r VoteTypePrecommit = Ret (Some sa) /\ a.1 = sa_Maj23 sa)) s.
Proof.
  unfold precommit_majority. wp_pure. wp_pure. wp_head. split; [done|]. unfold HeightVoteSignAggr_Precommits in *.
  intros Hok. destruct a0 as [sa|]; [|done]. exists a, sa. split; [done|]. split; [done|].
  simpl in *. by destruct (BlockID_IsZero (sa_Maj23 sa)).
Qed.

(** The commit is written into the proposal block, and into the locked block
    when it is the same object. *)
Lemma write_sealed_inv V s b b' :
  cs_inv V s -> cs_ProposalBlock s = Some b -> sealed b b' ->
  cs_inv V (if cs_blockShared s && is_some (cs_LockedBlock s)
            then set_LockedBlock (Some b') (set_ProposalBlock (Some b') s) else set_ProposalBlock (Some b') s).
Proof.
  intros [] Hp Hs. destruct (cs_blockShared s) eqn:Hb; simpl; [destruct (cs_LockedBlock s) as [lb|] eqn:Hl; simpl|].
  - split; simpl; try done; idtac. intros b0 [= <-].
    assert (lb = b) as -> by (specialize (ci_shared0 eq_refl lb eq_refl); congruence).
    eapply lock_sealed; [by apply ci_lock0|done].
  - split; simpl; try done; intros; congruence.
  - split; simpl; try done; intros; congruence.
Qed.

Lemma inv_out V s l : cs_inv V s -> cs_inv V (set_out l s).
Proof. by intros []. Qed.

Lemma ValidateBasic_height b te te0 err :
  NCBlock_ValidateBasic b te0 = Ret err -> is_some err = false -> nb_NTCExtra b = Some te ->
  te_Height te = u64 (te_Height te0 + 1).
Proof.
  unfold NCBlock_ValidateBasic. intros Hv He Hb. rewrite Hb in Hv. simpl in Hv.
  destruct (negb (String.eqb _ _)); [by injection Hv as <-|].
  destruct (Z.eqb_spec (te_Height te) (u64 (te_Height te0 + 1))); [done|]. by injection Hv as <-.
Qed.

Definition commits_only (V : ValidatorSet) (h : Z) (o : Output) : Prop := harmless o \/ commit_ok V h o.

Lemma finalizeCommit_safe V height s :
  cs_inv V s -> wp (finalizeCommit height) (fun _ s' => safe V (commits_only V (cs_Height s)) s s' /\
    cs_Round s' = cs_Round s /\ cs_Step s' = cs_Step s) s.
Proof.
  intros Hi. pose proof (safe_refl V (commits_only V (cs_Height s)) s Hi) as Hrefl.
  unfold finalizeCommit. wp_pure; [by wp_head|]. wp_spec precommit_majority_spec as [blockID ok] s' [-> Hmaj].
  simpl in Hmaj. wp_pure; [exact I|]. destruct ok; [|done]. destruct (Hmaj eq_refl) as (hsa & sa & Hhsa & Hsa & ->).
  wp_pure; [exact I|]. wp_val same Hsame. wp_pure; [exact I|]. destruct same; [|done].
  apply HashesTo_true in Hsame as (Hne & b0 & Hb0 & Hhash).
  wp_val b Hb. wp_val st Hst. wp_val err Hval. wp_pure; [exact I|]. wp_val te Hte. wp_pure; [|by wp_head].
  wp_val hsa' Hhsa'. wp_val osa Hosa. wp_val sa' Hsa'. unfold HeightVoteSignAggr_Precommits in *.
  assert (b0 = b) as -> by congruence. assert (sa' = sa) as -> by congruence.
  wp_head. apply (wp_mono _ (fun _ s' => s' = s)); [wp_pure; [|by wp_head]; by wp_pure|].
  intros w s' ->. wp_head. rewrite wp_write_block. wp_head.
  set (b' := nb_set_extra b (seal_extra te (SignAggr_MakeCommit sa) w)).
  assert (sealed b b') as Hsealed by (by exists te, (SignAggr_MakeCommit sa), w).
  pose proof (write_sealed_inv V s b b' Hi Hb Hsealed) as Hw.
  match type of Hw with cs_inv _ ?s1' => set (s1 := s1') in * end.
  assert (cs_Height s1 = cs_Height s /\ cs_out s1 = cs_out s /\ cs_Round s1 = cs_Round s /\ cs_Step s1 = cs_Step s)
    as (Eh & Eo & Er & Et) by (subst s1; by destruct (_ && _)).
  split; [|done]. split; [by repeat apply inv_out|done|].
  exists [OEvent (EventNewBlock b'); OEvent (EventNewBlockHeader (te_Height te)); OCommit b'].
  split; [cbn; by rewrite Eo, <- !app_assoc|].
  constructor; [by left|]. constructor; [by left|]. constructor; [|done]. right. split; [done|]. exists b'. split; [done|].
  assert (aggr_ok V (cs_Height s) (cs_CommitRound s) VoteTypePrecommit sa) as Hao by exact (majority_ok V s hsa _ _ sa Hi Hhsa Hsa).
  exists sa, b, te, w. split; [destruct Hao as (? & ? & ? & ?); by repeat split|]. split; [split; congruence|].
  split; [done|]. split; [|done]. rewrite <- (ci_state _ _ Hi _ Hst). by eapply ValidateBasic_height.
Qed.

Definition safe_fwd (V : ValidatorSet) (P : Output -> Prop) (s s' : ConsensusState) : Prop :=
  safe V P s s' /\ hrs_le s s'.

Lemma safe_fwd_refl V P s : cs_inv V s -> safe_fwd V P s s.
Proof. intros Hi. split; [by apply safe_refl|done]. Qed.

Lemma safe_fwd_trans V P s1 s2 s3 : safe_fwd V P s1 s2 -> safe_fwd V P s2 s3 -> safe_fwd V P s1 s3.
Proof. intros [H1 Hr1] [H2 Hr2]. split; [by eapply safe_trans|by etransitivity]. Qed.

Lemma safe_fwd_weaken V (P Q : Output -> Prop) s s' : (forall o, P o -> Q o) -> safe_fwd V P s s' -> safe_fwd V Q s s'.
Proof. intros HPQ [H1 Hr1]. split; [by eapply safe_weaken|done]. Qed.

(** A calm call inside a safe step. *)
Lemma safe_fwd_calm V (P Q : Output -> Prop) s s1 s2 :
  (forall o, P o -> Q o) -> safe_fwd V Q s s1 -> calm_fwd P s1 s2 -> safe_fwd V Q s s2.
Proof.
  intros HPQ H1 [Hc Hr]. eapply safe_fwd_trans; [exact H1|]. split; [|done].
  eapply safe_weaken; [exact HPQ|]. apply calm_safe; [apply H1|done].
Qed.

(** States that differ only in fields the invariant does not look at. *)
Lemma safe_same V P s s' :
  cs_inv V s' -> cs_Height s' = cs_Height s -> cs_out s' = cs_out s -> safe V P s s'.
Proof. intros Hi Hh Ho. split; try done. exists []. by rewrite Ho, app_nil_r. Qed.

Lemma tryFinalizeCommit_safe V height s :
  cs_inv V s -> wp (tryFinalizeCommit height) (fun _ s' => safe_fwd V (commits_only V (cs_Height s)) s s') s.
Proof.
  intros Hi. pose proof (safe_fwd_refl V (commits_only V (cs_Height s)) s Hi) as Hrefl.
  unfold tryFinalizeCommit. wp_pure; [exact I|]. wp_spec precommit_majority_spec as [blockID ok] s' [-> _].
  wp_pure; [by wp_head|]. wp_val same Hsame. wp_pure; [by wp_head|].
  eapply wp_mono; [by apply finalizeCommit_safe|]. cbn beta. intros [] s2 (Hs2 & Hr & Ht). split; [done|]. unfold hrs_le. lia.
Qed.

Lemma enterCommit_safe V height commitRound s :
  cs_inv V s -> wp (enterCommit env height commitRound) (fun _ s' => safe_fwd V (commits_only V (cs_Height s)) s s') s.
Proof.
  intros Hi. pose proof (safe_fwd_refl V (commits_only V (cs_Height s)) s Hi) as Hrefl.
  unfold enterCommit. wp_pure; [by wp_head|]. apply orb_false_iff in Heqb as [_ Hstep%Z.leb_gt].
  wp_spec precommit_majority_spec as [blockID ok] s' [-> _]. wp_head.
  apply (wp_mono _ (fun _ s' => safe V harmless s s' /\ cs_Round s' = cs_Round s /\ cs_Step s' = cs_Step s)).
  { wp_pure; [exact I|]. wp_val locked Hlocked. wp_head.
    apply (wp_mono _ (fun _ s' => cs_inv V s' /\ cs_Height s' = cs_Height s /\ cs_out s' = cs_out s /\
      cs_Round s' = cs_Round s /\ cs_Step s' = cs_Step s)).
    { destruct locked; wp_head; [|done]. destruct Hi. done. }
    intros [] s1 (Hi1 & Hh1 & Ho1 & ?). wp_val same Hsame. wp_pure; wp_head.
    - wp_val parts Hparts. wp_head. split; [|done]. apply safe_same; [|done..]. destruct Hi1. by split.
    - split; [|done]. by apply safe_same. }
  intros [] s1 (Hs1 & Hr1 & Ht1). wp_head.
  match goal with |- wp _ _ ?s4 => assert (safe_fwd V (commits_only V (cs_Height s)) s s4) as Hs4 end.
  { split; [|unfold hrs_le; simpl; lia]. eapply safe_trans; [eapply safe_weaken; [by left|exact Hs1]|].
    split; [|done|]; [destruct Hs1 as [[] _ _]; by split|].
    eexists. split; [done|]. constructor; [|done]. by left. }
  eapply wp_mono; [apply tryFinalizeCommit_safe, Hs4|]. cbn beta. intros [] s5 Hs5. eapply safe_fwd_trans; [exact Hs4|].
  by rewrite (sf_Height _ _ _ _ (proj1 Hs4)) in Hs5.
Qed.

Definition precommits_only (V : ValidatorSet) (h : Z) (o : Output) : Prop := harmless o \/ precommit_ok V h o.

(** Round and step stay. *)
Definition safe_here (V : ValidatorSet) (P : Output -> Prop) (s s' : ConsensusState) : Prop :=
  safe V P s s' /\ cs_Round s' = cs_Round s /\ cs_Step s' = cs_Step s.

(** A precommit for [blockID], nil or the block of a prevote aggregate. *)
Lemma signAddVote_precommits V s0 s hash header round :
  safe_here V (precommits_only V (cs_Height s0)) s0 s -> cs_Round s0 <= round ->
  ((hash = [] /\ header = PartSetHeader_zero) \/
   exists sa b0, aggr_ok V (cs_Height s0) round VoteTypePrevote sa /\ aggr_for sa b0 /\
     hash = bid_Hash (sa_Maj23 sa) /\ header = bid_PartsHeader (sa_Maj23 sa)) ->
  wp (signAddVote env VoteTypePrecommit hash header;; mret tt)
    (fun _ s' => safe_here V (precommits_only V (cs_Height s0)) s0 s') s.
Proof.
  intros (Hs & Hr & Ht) Hround Hb. wp_spec signAddVote_quiet as _ s' Hq. wp_head.
  split; [|destruct Hq; split; congruence]. eapply safe_trans; [exact Hs|].
  apply calm_safe; [apply Hs|]. apply quiet_calm in Hq as [Hc _]. eapply calm_weaken; [|exact Hc].
  intros o (v & Hv & Hco & Hvt & Hvh & Hvr & Hvb). right. split; [done|]. exists v. split; [done|]. split; [done|].
  split; [by rewrite Hvh, (sf_Height _ _ _ _ Hs)|]. destruct Hb as [[-> ->]|(sa & b0 & Ha & Hf & -> & ->)]; [by left|right].
  pose proof Ha as (Ha1 & <- & Ha2). exists sa, b0, (cs_Round s). split; [done|]. split; [done|].
  split; [by rewrite Hvb; destruct (sa_Maj23 sa)|]. split; [done|lia].
Qed.

Lemma safe_emit V (P : Output -> Prop) s0 s o :
  P o -> safe_here V P s0 s -> safe_here V P s0 (set_out (cs_out s ++ [o]) s).
Proof.
  intros Ho (Hs & Hr & Ht). split; [|done]. eapply safe_trans; [exact Hs|]. split; [apply inv_out, Hs|done|].
  eexists. split; [done|]. by constructor.
Qed.

Lemma unlock_inv V s :
  cs_inv V s -> cs_inv V (set_LockedBlockParts None (set_blockShared false (set_LockedBlock None (set_LockedRound (-1) s)))).
Proof. by intros []. Qed.

Lemma unlock_safe V P s0 s :
  safe_here V P s0 s ->
  safe_here V P s0 (set_LockedBlockParts None (set_blockShared false (set_LockedBlock None (set_LockedRound (-1) s)))).
Proof.
  intros (Hs & Hr & Ht). split; [|done]. eapply safe_trans; [exact Hs|]. apply safe_same; [|done..]. apply unlock_inv, Hs.
Qed.

(** A step without outputs inside a safe one. *)
Lemma safe_here_same V P s0 s s' :
  safe_here V P s0 s -> cs_inv V s' -> cs_Height s' = cs_Height s -> cs_out s' = cs_out s ->
  cs_Round s' = cs_Round s -> cs_Step s' = cs_Step s -> safe_here V P s0 s'.
Proof.
  intros (Hs & Hr & Ht) Hi Hh Ho Hr' Ht'. split; [|split; congruence].
  eapply safe_trans; [exact Hs|]. by apply safe_same.
Qed.

Lemma relock_inv V s round sa b0 :
  cs_inv V s -> aggr_ok V (cs_Height s) round VoteTypePrevote sa -> aggr_for sa b0 -> cs_LockedBlock s = Some b0 ->
  cs_inv V (set_LockedRound round s).
Proof.
  intros [] Ha Hf Hl. split; try done. intros b Hb. exists sa, b0. split; [done|]. split; [done|]. left. simpl in Hb. congruence.
Qed.

Lemma lock_inv V s round sa b0 parts :
  cs_inv V s -> aggr_ok V (cs_Height s) round VoteTypePrevote sa -> aggr_for sa b0 -> cs_ProposalBlock s = Some b0 ->
  cs_inv V (set_LockedBlockParts parts (set_blockShared true (set_LockedBlock (Some b0) (set_LockedRound round s)))).
Proof.
  intros [] Ha Hf Hl. split; try done; simpl; [|congruence]. intros b [= <-]. exists sa, b0. by split; [|split; [|left]].
Qed.

Lemma do_precommit_safe V round s :
  cs_inv V s -> cs_Round s <= round ->
  wp (do_precommit env round) (fun _ s' => safe_here V (precommits_only V (cs_Height s)) s s') s.
Proof.
  intros Hi Hround. set (P := precommits_only V (cs_Height s)).
  assert (forall o, harmless o -> P o) as HP by (by left).
  assert (forall s', safe_here V P s s' ->
    wp (signAddVote env VoteTypePrecommit [] PartSetHeader_zero;; mret tt) (fun _ s' => safe_here V P s s') s') as Hnil.
  { intros s' Hs'. by apply (signAddVote_precommits V s s' [] PartSetHeader_zero round); [..|left]. }
  unfold do_precommit. wp_spec prevote_majority_spec as [blockID ok] s' [-> Hmaj]. simpl in Hmaj.
  wp_pure; [rewrite wp_bind, wp_emit; apply Hnil, safe_emit; [by apply HP|split; [by apply safe_refl|done]]|].
  destruct ok; [|done]. destruct (Hmaj eq_refl) as (hsa & sa & Hhsa & Hsa & ->).
  assert (aggr_ok V (cs_Height s) round VoteTypePrevote sa) as Hao by exact (majority_ok V s hsa _ _ sa Hi Hhsa Hsa).
  rewrite wp_bind, wp_fire. set (s1 := set_out _ s).
  assert (safe_here V P s s1) as Hs1 by (apply safe_emit; [by apply HP|split; [by apply safe_refl|done]]).
  pose proof (sf_inv _ _ _ _ (proj1 Hs1)) as Hi1.
  rewrite wp_bind, wp_get, wp_bind, wp_deref. intros hsa' Hhsa'. rewrite wp_bind, wp_lift. intros [polRound pol] Hpol.
  wp_pure; [exact I|]. wp_pure.
  { rewrite wp_bind. apply (wp_mono _ (fun _ s' => safe_here V P s s')); [|intros [] s2 Hs2; apply Hnil; exact Hs2].
    wp_pure; wp_head; [|done]. apply safe_emit; [by apply HP|]. by apply unlock_safe. }
  clear Heqb Heqb0 Heqb1. rewrite wp_bind, wp_lift. intros [] Hlocked.
  { apply HashesTo_true in Hlocked as (Hne & b0 & Hb0 & Hhash). rewrite Hb0 in Hhash.
    rewrite wp_bind, wp_assign, wp_bind, wp_fire. apply (signAddVote_precommits V s _ _ _ round); [|done|right; by exists sa, b0].
    apply safe_emit; [by apply HP|]. eapply safe_here_same; [exact Hs1| |done..]. by eapply (relock_inv V s1). }
  rewrite wp_bind, wp_lift. intros _ _. rewrite wp_bind, wp_lift. intros [] Hsame.
  - apply HashesTo_true in Hsame as (Hne & b0 & Hb0 & Hhash). rewrite Hb0 in Hhash |- *.
    rewrite wp_bind, wp_deref. intros b' _. rewrite wp_bind, wp_deref. intros st _. rewrite wp_bind, wp_lift. intros err _.
    destruct (is_some err); [exact I|].
    rewrite wp_bind, wp_ret, !wp_bind, wp_assign, wp_bind, wp_assign, wp_bind, wp_assign, wp_bind, wp_assign, wp_bind, wp_fire.
    apply (signAddVote_precommits V s _ _ _ round); [|done|right; by exists sa, b0].
    apply safe_emit; [by apply HP|]. eapply safe_here_same; [exact Hs1| |done..]. by eapply (lock_inv V s1).
  - rewrite wp_bind, wp_unlock, wp_bind. apply (wp_mono _ (fun _ s' => safe_here V P s s')).
    + apply unlock_safe in Hs1. wp_pure; wp_head; [|done]. wp_val parts Hparts. wp_head.
      eapply safe_here_same; [exact Hs1| |done..]. destruct (sf_inv _ _ _ _ (proj1 Hs1)). by split.
    + intros [] s2 Hs2. rewrite wp_bind, wp_fire. apply Hnil, safe_emit; [by apply HP|done].
Qed.

Lemma enterPrecommit_safe V height round s :
  cs_inv V s -> wp (enterPrecommit env height round) (fun _ s' => safe_fwd V (precommits_only V (cs_Height s)) s s') s.
Proof.
  intros Hi. unfold enterPrecommit. wp_pure; [wp_head; by apply safe_fwd_refl|]. apply hrs_guard in Heqb as [<- Hr].
  wp_head. eapply wp_mono; [apply (do_precommit_safe V); [done|lia]|]. cbn beta. intros [] s1 (Hs1 & Hr1 & Ht1). wp_head.
  match goal with |- wp _ _ ?s4 => assert (safe_fwd V (precommits_only V (cs_Height s)) s s4) as Hs4 end.
  { apply (safe_fwd_calm V harmless _ s s1); [by left|split; [done|unfold hrs_le; lia]|].
    apply (step_fwd harmless s1 round RoundStepPrecommit); [done|lia]. }
  wp_spec enterPrecommitWait_calm as [] s5 Hs5. by eapply safe_fwd_calm; [..|exact Hs5]; [left|].
Qed.

(** *** Aggregates from the network *)

Lemma blsVerify_spec V sa s :
  cs_Validators s = Some V ->
  wp (blsVerifySignAggr sa) (fun r s' => s' = s /\ (r = Ok true -> aggr_verified V sa)) s.
Proof.
  intros HV. unfold blsVerifySignAggr. wp_head. simpl. destruct (sa_SignatureAggr sa) as [signature|] eqn:Hsig; [|done].
  wp_val validators Hv. assert (validators = V) as -> by congruence.
  destruct (ValidatorSet_TalliedVotingPower V (sa_BitArray sa)) as [[[p votesSum] total]|] eqn:Htally; [|done].
  destruct (ValidatorSet_AggrPubKey V (sa_BitArray sa)) as [pk|] eqn:Hpk; [|done].
  wp_val msg Hmsg. destruct (PubKey_VerifyBytes pk msg (Some signature)) eqn:Hver; [|done]. wp_head.
  split; [done|]. intros [= Hq%Z.leb_le]. by exists signature, p, votesSum, total, pk, msg.
Qed.

Lemma AddSignAggr_lookup hsa sa hsa' added r t x :
  HeightVoteSignAggr_AddSignAggr hsa sa = Ret (hsa', added) ->
  HeightVoteSignAggr_getSignAggr hsa' r t = Ret (Some x) ->
  HeightVoteSignAggr_getSignAggr hsa r t = Ret (Some x) \/ (x = sa /\ r = sa_Round sa /\ t = sa_Type sa).
Proof.
  unfold HeightVoteSignAggr_AddSignAggr. intros Hadd. rewrite !hsa_lookup.
  destruct (negb _); [by simplify_eq; left|].
  destruct (HeightVoteSignAggr_getSignAggr hsa _ _) as [[y|]|]; simpl in Hadd; [by simplify_eq; left| |done].
  destruct (hsa_rounds hsa !! sa_Round sa) as [rvs|] eqn:Hr; [|by simplify_eq; left].
  assert (forall rvs', hsa' = hsa_set_rounds hsa (<[sa_Round sa := rvs']> (hsa_rounds hsa)) ->
    (forall x, rsa_Prevotes rvs' = Some x -> rsa_Prevotes rvs = Some x \/ (x = sa /\ sa_Type sa = VoteTypePrevote)) ->
    (forall x, rsa_Precommits rvs' = Some x -> rsa_Precommits rvs = Some x \/ (x = sa /\ sa_Type sa = VoteTypePrecommit)) ->
    (exists rvs, hsa_rounds hsa' !! r = Some rvs /\ (t = VoteTypePrevote /\ rsa_Prevotes rvs = Some x \/
      t = VoteTypePrecommit /\ rsa_Precommits rvs = Some x)) ->
    (exists rvs, hsa_rounds hsa !! r = Some rvs /\ (t = VoteTypePrevote /\ rsa_Prevotes rvs = Some x \/
      t = VoteTypePrecommit /\ rsa_Precommits rvs = Some x)) \/ (x = sa /\ r = sa_Round sa /\ t = sa_Type sa)) as Hgen.
  { intros rvs' -> Hpre Hcom (rvs0 & Hl & Ho). simpl in Hl.
    apply lookup_insert_Some in Hl as [[<- <-]|[_ Hl]]; [|left; by exists rvs0].
    destruct Ho as [[-> Ho]|[-> Ho]]; [apply Hpre in Ho as [Ho|[-> ->]]|apply Hcom in Ho as [Ho|[-> ->]]]; auto;
      left; exists rvs; auto. }
  destruct (Z.eqb_spec (sa_Type sa) VoteTypePrevote); [|destruct (Z.eqb_spec (sa_Type sa) VoteTypePrecommit)].
  - injection Hadd as <- <-. eapply Hgen; [done|..]; simpl; [intros ? [= <-]; by right|by left].
  - injection Hadd as <- <-. eapply Hgen; [done|..]; simpl; [by left|intros ? [= <-]; by right].
  - injection Hadd as <- <-. by left.
Qed.

Lemma AddSignAggr_inv V s hsa sa hsa' added :
  cs_inv V s -> cs_VoteSignAggr s = Some hsa -> aggr_verified V sa -> sa_Height sa = cs_Height s ->
  HeightVoteSignAggr_AddSignAggr hsa sa = Ret (hsa', added) -> cs_inv V (set_VoteSignAggr (Some hsa') s).
Proof.
  intros [] Hs Hv Hh Hadd. split; try done. intros r t x. unfold aggr_at. simpl.
  destruct (HeightVoteSignAggr_getSignAggr hsa' r t) as [[y|]|] eqn:E; try done. intros [= ->].
  destruct (AddSignAggr_lookup _ _ _ _ _ _ _ Hadd E) as [Hold|(-> & -> & ->)]; [|by repeat split].
  apply ci_aggrs0. unfold aggr_at. by rewrite Hs, Hold.
Qed.

(** What a handler may output in state [s]. *)
Definition outputs (V : ValidatorSet) (s : ConsensusState) : Output -> Prop :=
  out_ok V (cs_Height s) (cs_LockedBlock s).

Lemma harmless_outputs V s o : harmless o -> outputs V s o.
Proof. by left; left. Qed.
Lemma prevotes_outputs V s o : prevotes s o -> outputs V s o.
Proof. by left. Qed.
Lemma precommits_outputs V s o : precommits_only V (cs_Height s) o -> outputs V s o.
Proof. intros [?|?]; [by apply harmless_outputs|by right; left]. Qed.
Lemma commits_outputs V s o : commits_only V (cs_Height s) o -> outputs V s o.
Proof. intros [?|?]; [by apply harmless_outputs|by right; right]. Qed.

Lemma setMaj23_safe V sa s :
  cs_inv V s -> wp (setMaj23SignAggr env sa) (fun _ s' => safe_fwd V (outputs V s) s s') s.
Proof.
  intros Hi. pose proof (safe_fwd_refl V (outputs V s) s Hi) as Hrefl.
  unfold setMaj23SignAggr. wp_pure; [by wp_head|]. apply negb_false_iff, Z.eqb_eq in Heqb.
  wp_head. eapply wp_mono; [apply blsVerify_spec, Hi|]. cbn beta. intros r s' [-> Hver].
  destruct r as [[]|]; [|by wp_head..]. specialize (Hver eq_refl). wp_pure; [|by wp_head].
  wp_val hsa Hhsa. wp_val [hsa' added] Hadd. wp_head. set (s1 := set_VoteSignAggr (Some hsa') s).
  assert (cs_inv V s1) as Hi1 by (by eapply AddSignAggr_inv).
  assert (forall f : ConsensusState -> ConsensusState, cs_inv V (f s1) -> cs_Height (f s1) = cs_Height s1 ->
    cs_out (f s1) = cs_out s1 -> cs_Round (f s1) = cs_Round s1 -> cs_Step (f s1) = cs_Step s1 ->
    safe_here V (outputs V s) s (f s1)) as Hs1.
  { intros f Hf Hh Ho Hr Ht. split; [by apply safe_same|done]. }
  wp_pure; [wp_head; split; [by apply (Hs1 id)|by right]|]. wp_pure.
  - wp_pure; [wp_head; split; [by apply (Hs1 id)|by right]|]. wp_head.
    set (s2 := set_PrevoteMaj23SignAggr (Some sa) s1).
    assert (safe_here V (outputs V s) s s2) as Hs2 by (apply (Hs1 (set_PrevoteMaj23SignAggr (Some sa))); try done; by destruct Hi1).
    apply (wp_mono _ (fun _ s' => safe_here V (outputs V s) s s')).
    { wp_pure; [|by wp_head]. wp_val same Hsame. wp_pure; wp_head; [|done].
      apply safe_emit; [by apply harmless_outputs|]. by apply unlock_safe. }
    intros [] s3 (Hs3 & Hr3 & Ht3). assert (safe_fwd V (outputs V s) s s3) as Hf3 by (split; [done|unfold hrs_le; lia]).
    wp_pure; [|by wp_head]. wp_head. eapply wp_mono; [apply enterPrecommit_safe, Hs3|]. cbn beta. intros [] s4 Hs4. wp_head.
    eapply safe_fwd_trans; [exact Hf3|]. eapply safe_fwd_weaken; [|exact Hs4].
    rewrite (sf_Height _ _ _ _ Hs3). apply precommits_outputs.
  - wp_pure; [wp_head; split; [by apply (Hs1 id)|by right]|]. wp_head.
    set (s2 := set_PrecommitMaj23SignAggr (Some sa) s1).
    assert (safe_here V (outputs V s) s s2) as Hs2 by (apply (Hs1 (set_PrecommitMaj23SignAggr (Some sa))); try done; by destruct Hi1).
    assert (safe_fwd V (outputs V s) s s2) as Hf2 by (split; [apply Hs2|by right]).
    wp_pure; [|by wp_head]. wp_head. eapply wp_mono; [apply enterCommit_safe, Hs2|]. cbn beta. intros [] s4 Hs4. wp_head.
    eapply safe_fwd_trans; [exact Hf2|]. eapply safe_fwd_weaken; [|exact Hs4]. apply commits_outputs.
Qed.

(** *** The handlers *)

Lemma addProposalBlockPart_safe V height round part verify s :
  cs_inv V s -> wp (addProposalBlockPart env height round part verify) (fun _ s' => safe_fwd V (outputs V s) s s') s.
Proof.
  intros Hi. pose proof (safe_fwd_refl V (outputs V s) s Hi) as Hrefl.
  unfold addProposalBlockPart. wp_pure; [by wp_head|]. wp_pure; [|by wp_head].
  wp_val [parts' [added err]] Hadd. wp_head. set (s1 := set_ProposalBlockParts (Some parts') s).
  assert (safe_fwd V (outputs V s) s s1) as Hs1.
  { split; [|by right]. apply safe_same; [|done..]. destruct Hi. by split. }
  wp_pure; [by wp_head|]. wp_pure; [|by wp_head]. wp_val reader Hreader.
  destruct (match NCBlock_FromBytes _ with Ok b => _ | Err e => _ end) as [block berr]. wp_head.
  set (s2 := set_blockShared false (set_ProposalBlock block s1)).
  assert (safe_fwd V (outputs V s) s s2) as Hs2.
  { split; [|by right]. apply safe_same; [|done..]. destruct Hi. by split. }
  apply (wp_mono _ (fun _ s' => safe_fwd V (outputs V s) s s')); [|intros [] s3 Hs3; by wp_head].
  wp_pure; [|wp_pure; [|by wp_head]].
  - wp_spec enterPrevote_calm as [] s3 Hs3. eapply safe_fwd_calm; [|exact Hs2|exact Hs3]. exact (prevotes_outputs V s).
  - eapply wp_mono; [apply tryFinalizeCommit_safe, Hs2|]. cbn beta. intros [] s3 Hs3.
    eapply safe_fwd_trans; [exact Hs2|]. eapply safe_fwd_weaken; [|exact Hs3]. apply commits_outputs.
Qed.

Lemma verify_proposal_spec proposer proposal s :
  wp (verify_proposal env proposer proposal) (fun _ s' => s' = s) s.
Proof. unfold verify_proposal. wp_pure. by wp_head. Qed.

(** Only a proposal for a lower round takes the node back. *)
Lemma setProposal_safe V p s :
  cs_inv V s -> wp (defaultSetProposal env p) (fun _ s' => safe V (outputs V s) s s' /\
    (hrs_le s s' \/ (p_Height p = cs_Height s /\ p_Round p < cs_Round s /\
      default 0 (cs_pastRoundStates s !! p_Round p) = ROUND_NOT_PROPOSED))) s.
Proof.
  intros Hi. assert (safe V (outputs V s) s s /\ hrs_le s s) as [Hrefl Hr0] by (split; [by apply safe_refl|done]).
  assert (forall o, harmless o -> outputs V s o) as HP by apply harmless_outputs.
  unfold defaultSetProposal. wp_pure; [wp_head; auto|]. wp_pure; [wp_head; auto|].
  apply orb_false_iff in Heqb0 as [Hh%negb_false_iff%Z.eqb_eq Hle%Z.ltb_ge].
  wp_pure; [wp_head; auto|]. wp_pure; [wp_head; auto|]. wp_pure.
  - wp_spec (GetProposer_quiet env harmless) as proposer s1 Hs1.
    assert (safe_fwd V (outputs V s) s s1) as Hf1.
    { eapply safe_fwd_calm; [exact HP|by apply safe_fwd_refl|]. by eapply quiet_fwd. }
    wp_spec verify_proposal_spec as ok s1' ->. wp_pure; [wp_head; by destruct Hf1; auto|].
    wp_spec accept_proposal_calm as r s2 Hs2.
    assert (safe_fwd V (outputs V s) s s2) as [? ?] by (by eapply safe_fwd_calm). auto.
  - wp_spec (proposerByRound_quiet env harmless) as proposer s1 Hs1.
    assert (safe_fwd V (outputs V s) s s1) as Hf1.
    { eapply safe_fwd_calm; [exact HP|by apply safe_fwd_refl|]. by eapply quiet_fwd. }
    wp_spec verify_proposal_spec as ok s1' ->. wp_pure; [wp_head; by destruct Hf1; auto|].
    wp_pure; [wp_head; by destruct Hf1; auto|]. wp_pure; [wp_head; by destruct Hf1; auto|].
    wp_spec enterLowerRound_calm as [] s2 Hs2. wp_spec accept_proposal_calm as r s3 [Hs3 _].
    apply Z.eqb_neq in Heqb2. apply negb_false_iff, Z.eqb_eq in Heqb5.
    split; [|right; split; [done|]; split; [lia|done]]. eapply safe_trans; [apply Hf1|].
    rewrite (prevotes_calm harmless s s1) in Hs2 by (by apply quiet_calm).
    eapply safe_trans; [apply (calm_safe V); [apply Hf1|]; eapply calm_weaken; [apply prevotes_outputs|exact Hs2]|].
    apply (calm_safe V); [|by eapply calm_weaken]. eapply (calm_safe V); [apply Hf1|exact Hs2].
Qed.

Lemma handleMsg_safe V msg peerKey s :
  cs_inv V s -> wp (handleMsg env msg peerKey) (fun _ s' => safe V (outputs V s) s s' /\
    (hrs_le s s' \/ exists p, msg = ProposalMessage p /\ p_Height p = cs_Height s /\ p_Round p < cs_Round s /\
      default 0 (cs_pastRoundStates s !! p_Round p) = ROUND_NOT_PROPOSED)) s.
Proof.
  intros Hi. unfold handleMsg. destruct msg as [p|height round part|sa|vote].
  - eapply wp_mono; [by apply (setProposal_safe V)|]. cbn beta. intros r s' [Hs [?|?]]; [auto|]. split; [done|].
    right. by exists p.
  - wp_head. eapply wp_mono; [by apply (addProposalBlockPart_safe V)|]. cbn beta. intros [added err] s' [? ?]. wp_head. auto.
  - unfold handleSignAggr. destruct sa as [sa|]; [|wp_head; split; [by apply safe_refl|by left]].
    wp_pure; [|wp_head; split; [by apply safe_refl|by left]]. wp_head.
    eapply wp_mono; [by apply (setMaj23_safe V)|]. cbn beta. intros [err b] s' [? ?]. wp_head. auto.
  - eapply wp_mono; [apply tryAddVote_calm|]. cbn beta. intros r s' Hs.
    assert (safe_fwd V (outputs V s) s s') as [? ?]; [|auto].
    eapply safe_fwd_calm; [apply harmless_outputs|by apply safe_fwd_refl|exact Hs].
Qed.

Lemma handleTimeout_safe V d h r t s :
  cs_inv V s -> wp (handleTimeout env d h r t) (fun _ s' => safe_fwd V (outputs V s) s s') s.
Proof.
  intros Hi. pose proof (safe_fwd_refl V (outputs V s) s Hi) as Hrefl.
  assert (forall o, harmless o -> safe_fwd V (outputs V s) s (set_out (cs_out s ++ [o]) s)) as Hev.
  { intros o Ho. eapply safe_fwd_calm; [apply harmless_outputs|exact Hrefl|by apply emit_fwd]. }
  assert (forall s1 s2, safe_fwd V (outputs V s) s s1 -> prevotes s1 = prevotes s -> calm_fwd (prevotes s1) s1 s2 ->
    safe_fwd V (outputs V s) s s2) as Hcalm.
  { intros s1 s2 Hs1 He Hc. eapply safe_fwd_calm; [|exact Hs1|exact Hc]. rewrite He. apply prevotes_outputs. }
  unfold handleTimeout. wp_pure; [by wp_head|].
  wp_pure; [wp_spec enterNewRound_calm as [] s1 Hs1; by eapply Hcalm|].
  wp_pure; [wp_spec enterPropose_calm as [] s1 Hs1; eapply Hcalm; [| |exact Hs1]; [by apply Hev|done]|].
  wp_pure; [wp_spec enterPrevote_calm as [] s1 Hs1; eapply Hcalm; [| |exact Hs1]; [by apply Hev|done]|].
  wp_pure.
  { wp_head. eapply wp_mono; [eapply (enterPrecommit_safe V), Hev; done|]. cbn beta. intros [] s1 Hs1.
    eapply safe_fwd_trans; [|eapply safe_fwd_weaken; [|exact Hs1]]; [by apply Hev|]. exact (precommits_outputs V s). }
  wp_pure; [wp_spec enterNewRound_calm as [] s1 Hs1; eapply Hcalm; [| |exact Hs1]; [by apply Hev|done]|exact I].
Qed.

End Invariant.
