(* ===== verification/ConsensusTheorems.v ===== *)
(** * Theorems about the consensus state machine

    Runs of a height: a node starts a height (StartNewHeight) and then handles
    messages, timeouts and new blocks of the miner in any order, each in an
    environment of its own.  What every run guarantees about commits,
    precommits, locks, prevotes and rounds; how the proposer is chosen; and
    what a message can do to a node. *)
From S2P Require Import Prelude BitArray TmTypes ValidatorSet VoteSet HeightVotes PartSet Epoch ConsensusState ConsensusSafety.
Local Open Scope Z_scope.

(** ** Runs *)

Section Runs.
Context `{L : BitArrayLib} `{C : CryptoLib} `{W : WireLib} {N : NodeLib} {BC : BlockCodec} {ML : MerkleLib} `{EC : EpochCodec}.
Implicit Types s : ConsensusState.

(** One iteration of receiveRoutine, or a block from the miner. *)
Inductive cs_step : ConsensusState -> ConsensusState -> Prop :=
  | step_msg env msg peerKey s s' err : handleMsg env msg peerKey s = Ret (s', err) -> cs_step s s'
  | step_timeout env d h r t s s' : handleTimeout env d h r t s = Ret (s', tt) -> cs_step s s'
  | step_miner b s : cs_step s (set_blockFromMiner b s).

(** The state in which a height starts, with the validators of the height. *)
Definition height_starts (V : ValidatorSet) (s : ConsensusState) : Prop :=
  exists env s0, StartNewHeight env s0 = Ret (s, tt) /\ cs_Validators s = Some V.

(** A run of one height, and the outputs it adds. *)
Definition height_run (V : ValidatorSet) (s s' : ConsensusState) (l : list Output) : Prop :=
  height_starts V s /\ rtc cs_step s s' /\ cs_out s' = cs_out s ++ l.

Lemma new_aggrs_empty chainID h V hsa r t sa :
  NewHeightVoteSignAggr chainID h V = Ret hsa -> HeightVoteSignAggr_getSignAggr hsa r t <> Ret (Some sa).
Proof.
  unfold NewHeightVoteSignAggr, HeightVoteSignAggr_Reset, HeightVoteSignAggr_addRound. simpl. rewrite lookup_empty.
  intros [= <-] Hg. apply hsa_lookup in Hg as (rvs & Hr & Ho). simpl in Hr.
  apply lookup_insert_Some in Hr as [[_ <-]|[_ Hr]]; [by destruct Ho as [[_ ?]|[_ ?]]|by rewrite lookup_empty in Hr].
Qed.

Lemma Initialize_spec s : wp Initialize (fun _ s' => cs_LockedBlock s' = None) s.
Proof. unfold Initialize. wp_head. reflexivity. Qed.

Lemma UpdateToState_inv env state s :
  wp (UpdateToState env state) (fun _ s' => forall V, cs_Validators s' = Some V -> cs_inv V s') s.
Proof.
  unfold UpdateToState. wp_spec Initialize_spec as [] s1 Hs1. wp_head. set (h := u64 _).
  apply (wp_mono _ (fun _ s' => cs_LockedBlock s' = None /\ cs_Height s' = h)).
  { wp_pure; wp_head; done. }
  intros [] s2 [Hl Hh]. wp_val [[o1 validators] o2] Hval. wp_head. rewrite wp_deref. intros V ->.
  wp_val votes Hvotes. wp_val aggrs Haggrs. wp_head. intros V' [= <-]. split; try done.
  - intros r t sa. unfold aggr_at. cbn [cs_VoteSignAggr set_out set_nSteps set_state set_pastRoundStates set_vrfValIndex set_VoteSignAggr].
    destruct (HeightVoteSignAggr_getSignAggr aggrs r t) as [[x|]|] eqn:E; try done.
    by apply (new_aggrs_empty _ _ _ _ _ _ _ Haggrs) in E.
  - intros b Hb. assert (cs_LockedBlock s2 = Some b) by exact Hb. congruence.
  - intros _ b Hb. assert (cs_LockedBlock s2 = Some b) by exact Hb. congruence.
  - intros st [= <-]. symmetry. exact Hh.
Qed.

Lemma height_starts_inv V s : height_starts V s -> cs_inv V s.
Proof.
  intros (env & s0 & Hs & HV). revert V HV.
  refine (wp_Ret (StartNewHeight env) (fun _ s' => forall V, cs_Validators s' = Some V -> cs_inv V s') s0 s tt _ Hs).
  unfold StartNewHeight. wp_val state Hstate. wp_spec UpdateToState_inv as [] s1 Hs1.
  unfold scheduleRound0. wp_head. intros V HV. specialize (Hs1 V HV). destruct Hs1. by split.
Qed.

(** What a step keeps and adds. *)
Lemma cs_step_safe V s s' : cs_inv V s -> cs_step s s' -> safe V (outputs V s) s s'.
Proof.
  intros Hi Hs. destruct Hs as [env msg peerKey s s' err Hm|env d h r t s s' Ht|b s].
  - by destruct (wp_Ret _ _ _ _ _ (handleMsg_safe env V msg peerKey s Hi) Hm).
  - by destruct (wp_Ret _ _ _ _ _ (handleTimeout_safe env V d h r t s Hi) Ht).
  - apply safe_same; [|done..]. destruct Hi. by split.
Qed.

Definition run_output (V : ValidatorSet) (h : Z) (o : Output) : Prop := exists lb, out_ok V h lb o.

Lemma run_safe V s s' : cs_inv V s -> rtc cs_step s s' -> safe V (run_output V (cs_Height s)) s s'.
Proof.
  intros Hi Hr. induction Hr as [|s1 s2 s3 H12 _ IH]; [by apply safe_refl|].
  pose proof (cs_step_safe V _ _ Hi H12) as Hs. rewrite (sf_Height _ _ _ _ Hs) in IH.
  eapply safe_trans; [|apply IH, Hs]. eapply safe_weaken; [|exact Hs]. intros o Ho. by exists (cs_LockedBlock s1).
Qed.

Lemma height_run_inv V s s' l :
  height_run V s s' l -> cs_inv V s' /\ cs_Height s' = cs_Height s /\ Forall (run_output V (cs_Height s)) l.
Proof.
  intros (Hst & Hr & Hl). apply height_starts_inv in Hst. destruct (run_safe V s s' Hst Hr) as [Hi Hh (l' & Hl' & HP)].
  split; [done|]. split; [done|]. rewrite Hl in Hl'. by apply app_inv_head in Hl' as ->.
Qed.

(** C1: Whatever messages and timeouts a node handles after it starts a height, a
    block it commits is of that height, and its hash is the majority block of a
    precommit aggregate of that height which the node verified: validators of
    the height's set with a quorum of the voting power signed it together.  The
    committed block is the agreed one with the commit made of that aggregate
    written into it. *)
Theorem commit_justified V s s' l b :
  height_run V s s' l -> OCommit b ∈ l ->
  exists sa b0 te w,
    aggr_ok V (cs_Height s) (sa_Round sa) VoteTypePrecommit sa /\
    bid_Hash (sa_Maj23 sa) <> [] /\ NCBlock_Hash (Some b0) = Ret (bid_Hash (sa_Maj23 sa)) /\
    nb_NTCExtra b0 = Some te /\ te_Height te = cs_Height s /\
    b = nb_set_extra b0 (seal_extra te (SignAggr_MakeCommit sa) w).
Proof.
  intros (_ & _ & HP)%height_run_inv Hb. rewrite Forall_forall in HP. destruct (HP _ Hb) as [lb [Hp|[Hp|Hp]]].
  - destruct Hp as [[_ ?]|[? _]]; done.
  - by destruct Hp as [? _].
  - destruct Hp as (_ & b' & [= <-] & sa & b0 & te & w & Ha & [Hne Hh] & Hte & Hht & Hb').
    by exists sa, b0, te, w.
Qed.


(** C9: While a node is locked on a block, the lock rests on a prevote aggregate
    of the locked round which the node verified and whose majority block is the
    locked block (before a commit was written into it). *)
Theorem lock_justified V s s' l b :
  height_run V s s' l -> cs_LockedBlock s' = Some b ->
  exists sa b0, aggr_ok V (cs_Height s) (cs_LockedRound s') VoteTypePrevote sa /\
    NCBlock_Hash (Some b0) = Ret (bid_Hash (sa_Maj23 sa)) /\ bid_Hash (sa_Maj23 sa) <> [] /\
    (b = b0 \/ sealed b0 b).
Proof.
  intros (Hi & Hh & _)%height_run_inv Hb. destruct (ci_lock _ _ Hi _ Hb) as (sa & b0 & Ha & [Hne Hf] & Hbb).
  rewrite Hh in Ha. by exists sa, b0.
Qed.


(** C11: During a height the height never changes, and round and step only move
    forward: a timeout never takes them back, and of all messages only a proposal
    for a lower round in which no proposal was seen does. *)
Theorem rounds_move_forward V s0 s l env :
  height_run V s0 s l ->
  (forall d h r t s', handleTimeout env d h r t s = Ret (s', tt) -> cs_Height s' = cs_Height s0 /\ hrs_le s s') /\
  (forall msg peerKey s' err, handleMsg env msg peerKey s = Ret (s', err) -> cs_Height s' = cs_Height s0 /\
    (hrs_le s s' \/ exists p, msg = ProposalMessage p /\ p_Height p = cs_Height s /\ p_Round p < cs_Round s /\
       default 0 (cs_pastRoundStates s !! p_Round p) = ROUND_NOT_PROPOSED)).
Proof.
  intros (Hi & Hh & _)%height_run_inv. split.
  - intros d h r t s' Hs. destruct (wp_Ret _ _ _ _ _ (handleTimeout_safe env V d h r t s Hi) Hs) as [[_ Hh' _] Hle].
    split; [congruence|done].
  - intros msg peerKey s' err Hs. destruct (wp_Ret _ _ _ _ _ (handleMsg_safe env V msg peerKey s Hi) Hs) as [[_ Hh' _] Hle].
    split; [congruence|done].
Qed.

End Runs.

(** ** Agreement *)

Section Agreement.
Context `{L : BitArrayLib} {LL : BitArrayLaws L} `{C : CryptoLib} `{W : WireLib} {N : NodeLib} {BC : BlockCodec}
  {ML : MerkleLib} `{EC : EpochCodec}.

(** The bits of the validators of [V]. *)
Definition vbits (V : ValidatorSet) (b : BA) : list bool :=
  (fun i => ba_GetIndex b (Z.of_nat i)) <$> seq 0 (length (vals V)).

Lemma Tallied_vbits V b p q t :
  ValidatorSet_TalliedVotingPower V b = Ok (p, q, t) -> q = wsum (powers V) (vbits V b) /\ t = zsum (powers V).
Proof.
  unfold ValidatorSet_TalliedVotingPower, powers, vbits, vals. destruct (ba_isnil b); [done|].
  destruct (Validators V) as [l|]; [|done]. simpl. destruct (negb _); [done|].
  rewrite (tally_loop_spec b 0 l ((fun i => ba_GetIndex b (Z.of_nat i)) <$> seq 0 (length l))).
  - by intros [= _ <- <-].
  - by rewrite length_fmap, length_seq.
  - intros k x Hk. rewrite list_lookup_fmap in Hk. apply fmap_Some in Hk as (i & Hi & ->).
    apply lookup_seq in Hi as [-> _]. done.
Qed.

(** Two verified aggregates of one validator set have a common signer. *)
Lemma verified_aggrs_share V sa1 sa2 :
  valset_ok V -> aggr_verified V sa1 -> aggr_verified V sa2 ->
  exists i val, vals V !! i = Some val /\ 0 < val_VotingPower val /\
    ba_GetIndex (sa_BitArray sa1) (Z.of_nat i) = true /\ ba_GetIndex (sa_BitArray sa2) (Z.of_nat i) = true.
Proof.
  intros Hok (? & ? & q1 & t1 & ? & ? & _ & [-> ->]%Tallied_vbits & Hq1 & _) (? & ? & q2 & t2 & ? & ? & _ & [-> ->]%Tallied_vbits & Hq2 & _).
  pose proof (vok_pow _ Hok) as Hp.
  assert (forall b, length (vbits V b) = length (powers V)) as Hlen
    by (intros b; unfold vbits, powers; by rewrite !length_fmap, length_seq).
  pose proof (wsum_overlap _ _ _ Hp (Hlen (sa_BitArray sa1)) (Hlen (sa_BitArray sa2))).
  pose proof (Loose23_majority _ (sa_Round sa1) (zsum_nonneg _ Hp)).
  pose proof (Loose23_majority _ (sa_Round sa2) (zsum_nonneg _ Hp)).
  destruct (wsum_pos_exists (powers V) (zip_with andb (vbits V (sa_BitArray sa1)) (vbits V (sa_BitArray sa2))))
    as (i & w & Hw & Hi & Hpos); [lia|].
  apply lookup_zip_with_Some in Hi as (b1 & b2 & Hand & Hi1 & Hi2). symmetry in Hand. apply andb_true_iff in Hand as [-> ->].
  unfold powers in Hw. rewrite list_lookup_fmap in Hw. destruct (vals V !! i) as [val|] eqn:Hval; [|done]. simplify_eq/=.
  exists i, val. split; [done|]. split; [done|].
  assert (forall b, vbits V b !! i = Some true -> ba_GetIndex b (Z.of_nat i) = true) as Hbit.
  { intros b Hb. unfold vbits in Hb. rewrite list_lookup_fmap in Hb. apply fmap_Some in Hb as (j & Hj & ->).
    apply lookup_seq in Hj as [-> _]. done. }
  by split; apply Hbit.
Qed.

(** C2: Take any two nodes in runs of a height with the same validators.  If both
    commit, whatever their rounds, their blocks carry commits that share a signer:
    a validator of positive voting power whose bit is set in both. *)
Theorem commits_share_signer V s1 s1' l1 b1 s2 s2' l2 b2 :
  valset_ok V -> height_run V s1 s1' l1 -> height_run V s2 s2' l2 -> OCommit b1 ∈ l1 -> OCommit b2 ∈ l2 ->
  exists te1 te2 c1 c2 i val,
    nb_NTCExtra b1 = Some te1 /\ te_SeenCommit te1 = Some c1 /\ nb_NTCExtra b2 = Some te2 /\ te_SeenCommit te2 = Some c2 /\
    vals V !! i = Some val /\ 0 < val_VotingPower val /\
    ba_GetIndex (c_BitArray c1) (Z.of_nat i) = true /\ ba_GetIndex (c_BitArray c2) (Z.of_nat i) = true.
Proof.
  intros Hok (_ & _ & HP1)%height_run_inv (_ & _ & HP2)%height_run_inv Hb1 Hb2. rewrite Forall_forall in HP1, HP2.
  assert (forall h b, run_output V h (OCommit b) -> exists sa te w, aggr_verified V sa /\
    nb_NTCExtra b = Some (seal_extra te (SignAggr_MakeCommit sa) w)) as Hcom.
  { intros h b [lb [Hp|[Hp|Hp]]]; [by destruct Hp as [[_ ?]|[? _]]|by destruct Hp as [? _]|].
    destruct Hp as (_ & b' & [= <-] & sa & b0 & te & w & (_ & _ & _ & Ha) & _ & _ & _ & ->). by exists sa, te, w. }
  destruct (Hcom _ _ (HP1 _ Hb1)) as (sa1 & te1 & w1 & Ha1 & E1), (Hcom _ _ (HP2 _ Hb2)) as (sa2 & te2 & w2 & Ha2 & E2).
  destruct (verified_aggrs_share V sa1 sa2 Hok Ha1 Ha2) as (i & val & Hval & Hpos & Hi1 & Hi2).
  do 2 eexists. exists (SignAggr_MakeCommit sa1), (SignAggr_MakeCommit sa2), i, val.
  split; [exact E1|]. split; [done|]. split; [exact E2|]. simpl. by rewrite !copy_eq.
Qed.

End Agreement.

(** ** The proposer *)

Section Proposer.
Context `{L : BitArrayLib} `{C : CryptoLib} `{W : WireLib} {N : NodeLib} {BC : BlockCodec} {ML : MerkleLib} `{EC : EpochCodec}.

Lemma vrf_pick_spec n i l :
  Forall (fun v => 0 <= val_VotingPower v) l -> 0 <= n < zsum (val_VotingPower <$> l) ->
  exists k v, vrf_pick n i l = i + Z.of_nat k /\ l !! k = Some v /\
    zsum (val_VotingPower <$> take k l) <= n < zsum (val_VotingPower <$> take k l) + val_VotingPower v.
Proof.
  intros Hp. revert n i. induction Hp as [|v l Hv Hp IH]; intros n i Hn; [simpl in Hn; lia|].
  rewrite fmap_cons in Hn. cbn [zsum] in Hn. cbn [vrf_pick].
  destruct (Z.eqb_spec (Z.sgn (n - val_VotingPower v)) (-1)) as [Hs|Hs].
  - exists 0%nat, v. split; [lia|]. split; [done|]. simpl. lia.
  - destruct (IH (n - val_VotingPower v) (i + 1)) as (k & w & -> & Hk & Hb); [lia|].
    exists (S k), w. split; [lia|]. split; [done|]. cbn [take]. rewrite fmap_cons. cbn [zsum]. lia.
Qed.

Lemma foldl_power n l : foldl (fun n v => n + val_VotingPower v) n l = n + zsum (val_VotingPower <$> l).
Proof.
  revert n. induction l as [|v l IH]; intros n; [simpl; lia|]. cbn [foldl]. rewrite IH, fmap_cons. cbn [zsum]. lia.
Qed.

(** The lottery over a header hash always selects a validator, and validator
    [k] exactly when the hash, reduced modulo the total voting power, falls into
    the [k]-th interval of the powers laid end to end: the chance of a validator
    is its share of the power, and one without power is never selected. *)
Theorem proposerByVRF_weighted headerHash validators :
  Forall (fun v => 0 <= val_VotingPower v) validators -> 0 < zsum (val_VotingPower <$> validators) ->
  let draw := BytesToBig (sha256 (replicate 8 0 ++ headerHash)) `mod` zsum (val_VotingPower <$> validators) in
  exists k v, proposerByVRF headerHash validators = Ret (Z.of_nat k) /\ validators !! k = Some v /\
    0 < val_VotingPower v /\
    zsum (val_VotingPower <$> take k validators) <= draw < zsum (val_VotingPower <$> take k validators) + val_VotingPower v.
Proof.
  intros Hp HT draw. unfold proposerByVRF. rewrite foldl_power, Z.add_0_l.
  destruct (Z.eqb_spec (zsum (val_VotingPower <$> validators)) 0) as [|_]; [lia|]. rewrite Z.abs_eq by lia. fold draw.
  destruct (vrf_pick_spec draw 0 validators Hp) as (k & v & -> & Hk & Hb); [by apply Z.mod_pos_bound|].
  exists k, v. split; [done|]. split; [done|]. split; [lia|done].
Qed.

(** The proposer of a round, once the lottery of the height has been drawn. *)
Lemma proposerByRound_drawn env s V round :
  cs_Validators s = Some V -> 0 <= cs_vrfValIndex s < ValidatorSet_Size V ->
  exists idx, (idx = if round =? 0 then cs_vrfValIndex s else Z.rem (cs_vrfValIndex s + round) (ValidatorSet_Size V)) /\
    proposerByRound env round s =
      if (ValidatorSet_Size V <=? idx) || (idx <? 0) then Panic "The index of proposer out of range"
      else match slice_get (vals V) idx with
           | Ret v => Ret (s, {| vp_Height := cs_Height s; vp_Round := round; vp_valIndex := idx; vp_Proposer := v |})
           | Panic m => Panic m
           end.
Proof.
  intros HV Hk. eexists. split; [done|].
  unfold proposerByRound, get, deref_M, lift, panic, mbind, M_bind, mret, M_ret. rewrite HV. cbn [deref].
  destruct (round =? 0).
  - rewrite (proj2 (Z.leb_le _ _)) by lia. destruct (_ || _); [done|]. by destruct (slice_get _ _).
  - rewrite (proj2 (Z.ltb_ge _ _)) by lia. unfold int_rem. destruct (Z.eqb_spec (ValidatorSet_Size V) 0) as [|_]; [lia|].
    destruct (_ || _); [done|]. by destruct (slice_get _ _).
Qed.

(** Once the lottery of the height is drawn, the proposers rotate: in any
    [n] consecutive rounds, [n] the number of validators, every validator is the
    proposer of exactly one round. *)
Theorem proposers_rotate env s V r0 i v :
  cs_Validators s = Some V -> 0 <= cs_vrfValIndex s < ValidatorSet_Size V -> 0 <= r0 ->
  vals V !! i = Some v ->
  exists r, r0 <= r < r0 + ValidatorSet_Size V /\
    proposerByRound env r s =
      Ret (s, {| vp_Height := cs_Height s; vp_Round := r; vp_valIndex := Z.of_nat i; vp_Proposer := v |}) /\
    forall r' p, r0 <= r' < r0 + ValidatorSet_Size V -> proposerByRound env r' s = Ret (s, p) ->
      vp_valIndex p = Z.of_nat i -> r' = r.
Proof.
  intros HV Hk Hr0 Hv. set (n := ValidatorSet_Size V) in *. set (k := cs_vrfValIndex s) in *.
  assert (0 <= Z.of_nat i < n) as Hi by (apply lookup_lt_Some in Hv; unfold n, ValidatorSet_Size; lia).
  assert (forall r, 0 <= r -> exists w, proposerByRound env r s = Ret (s, {| vp_Height := cs_Height s; vp_Round := r;
    vp_valIndex := (k + r) `mod` n; vp_Proposer := w |}) /\ vals V !! Z.to_nat ((k + r) `mod` n) = Some w) as Hprop.
  { intros r Hr. destruct (proposerByRound_drawn env s V r HV Hk) as (idx & Hidx & ->). fold n k in Hidx |- *.
    assert (idx = (k + r) `mod` n) as ->.
    { rewrite Hidx. destruct (Z.eqb_spec r 0) as [->|]; [rewrite Z.add_0_r, Z.mod_small; lia|]. apply Z.rem_mod_nonneg; lia. }
    pose proof (Z.mod_pos_bound (k + r) n) as Hb. destruct (slice_get_lt (vals V) ((k + r) `mod` n)) as (w & -> & Hw);
      [unfold n, ValidatorSet_Size in *; lia|].
    destruct (Z.leb_spec n ((k + r) `mod` n)); [lia|]. destruct (Z.ltb_spec ((k + r) `mod` n) 0); [lia|]. by exists w. }
  set (d := (Z.of_nat i - k - r0) `mod` n). pose proof (Z.mod_pos_bound (Z.of_nat i - k - r0) n) as Hd. fold d in Hd.
  assert ((k + (r0 + d)) `mod` n = Z.of_nat i) as Hmod.
  { unfold d. replace (k + (r0 + (Z.of_nat i - k - r0) `mod` n)) with ((Z.of_nat i - k - r0) `mod` n + (k + r0)) by lia.
    rewrite Z.add_mod_idemp_l by lia. replace (Z.of_nat i - k - r0 + (k + r0)) with (Z.of_nat i) by lia. by apply Z.mod_small. }
  exists (r0 + d). split; [lia|]. split.
  - destruct (Hprop (r0 + d)) as (w & -> & Hw); [lia|]. rewrite Hmod, Nat2Z.id in Hw. rewrite Hmod. congruence.
  - intros r' p Hr' Hp Hpi. destruct (Hprop r') as (w & Hw & _); [lia|]. rewrite Hw in Hp. injection Hp as <-.
    simpl in Hpi. rewrite <- Hmod in Hpi.
    pose proof (Z.div_mod (k + r') n ltac:(lia)). pose proof (Z.div_mod (k + (r0 + d)) n ltac:(lia)).
    assert ((k + r') / n = (k + (r0 + d)) / n) by nia. nia.
Qed.

End Proposer.

(** ** What a message can do *)

Section Messages.
Context `{L : BitArrayLib} `{C : CryptoLib} `{W : WireLib} {N : NodeLib} {BC : BlockCodec} {ML : MerkleLib} `{EC : EpochCodec}.
Implicit Types s : ConsensusState.

(** A proposal with a negative round stops the node, signed by a validator or
    not: when the round takes the rotation below zero, proposerByRound panics on
    the index before the signature is looked at.  The proposal only has to name
    the height while the node waits for one. *)
Theorem negative_round_panics env s V p peerKey :
  cs_Validators s = Some V -> 0 <= cs_vrfValIndex s < ValidatorSet_Size V ->
  cs_Proposal s = None -> cs_Step s < RoundStepCommit -> 0 <= cs_Round s ->
  p_Height p = cs_Height s -> p_POLRound p = -1 ->
  cs_vrfValIndex s + p_Round p < 0 -> Z.rem (cs_vrfValIndex s + p_Round p) (ValidatorSet_Size V) <> 0 ->
  handleMsg env (ProposalMessage p) peerKey s = Panic "The index of proposer out of range".
Proof.
  intros HV Hk HP Hstep Hr Hh Hpol Hneg Hrem.
  destruct (proposerByRound_drawn env s V (p_Round p) HV Hk) as (idx & Hidx & Hprop).
  destruct (Z.eqb_spec (p_Round p) 0) as [|_] in Hidx; [lia|].
  assert (idx < 0) as Hlt.
  { pose proof (Z.rem_nonpos (cs_vrfValIndex s + p_Round p) (ValidatorSet_Size V)). lia. }
  rewrite (proj2 (Z.ltb_lt idx 0) Hlt), orb_true_r in Hprop.
  unfold handleMsg, defaultSetProposal, get, mbind, M_bind. rewrite HP, Hh, Hpol, Z.eqb_refl. simpl.
  rewrite (proj2 (Z.ltb_ge (cs_Round s) (p_Round p))) by lia. rewrite (proj2 (Z.leb_gt RoundStepCommit (cs_Step s))) by done.
  rewrite (proj2 (Z.eqb_neq (p_Round p) (cs_Round s))) by lia. by rewrite Hprop.
Qed.

(** The same aggregate, claiming another majority block. *)
Definition sa_claim (sa : SignAggr) (blockID : BlockID) : SignAggr :=
  {| sa_ChainID := sa_ChainID sa; sa_Height := sa_Height sa; sa_Round := sa_Round sa; sa_Type := sa_Type sa;
     sa_NumValidators := sa_NumValidators sa; sa_BlockID := sa_BlockID sa; sa_Maj23 := blockID;
     sa_BitArray := sa_BitArray sa; sa_Sum := sa_Sum sa; sa_SignatureAggr := sa_SignatureAggr sa;
     sa_SignBytes := sa_SignBytes sa |}.

Lemma run_bind {A B} (m : M A) (f : A -> M B) s s1 a : m s = Ret (s1, a) -> (m ≫= f) s = f a s1.
Proof. unfold mbind, M_bind. by intros ->. Qed.

Lemma run_lift {A B} (o : outcome A) (f : A -> M B) s a : o = Ret a -> (lift o ≫= f) s = f a s.
Proof. by intros ->. Qed.

Lemma run_deref {A B} (o : option A) (f : A -> M B) s a : o = Some a -> (deref_M o ≫= f) s = f a s.
Proof. by intros ->. Qed.

(** The node has all of the block [b], valid on its chain state, with this id. *)
Record has_block (s : ConsensusState) (b : NCBlock) (id : BlockID) (te : TendermintExtra) : Prop := {
  hb_block : cs_ProposalBlock s = Some b;
  hb_parts : PartSet_HasHeader (cs_ProposalBlockParts s) (bid_PartsHeader id) = true;
  hb_hash : NCBlock_Hash (Some b) = Ret (bid_Hash id);
  hb_nonempty : bid_Hash id <> [];
  hb_extra : nb_NTCExtra b = Some te;
  hb_main : is_side_chain (te_ChainID te) = false;
  hb_valid : exists st, cs_state s = Some st /\ NCBlock_ValidateBasic b (st_NTCExtra st) = Ret None /\
    te_Height (st_NTCExtra st) < te_Height te;
}.

(** The node holds a precommit aggregate of round [r] that claims [id]. *)
Definition holds_precommits (s : ConsensusState) (r : Z) (sa : SignAggr) (id : BlockID) : Prop :=
  exists hsa, cs_VoteSignAggr s = Some hsa /\ HeightVoteSignAggr_Precommits hsa r = Ret (Some sa) /\ sa_Maj23 sa = id.

Lemma has_block_HashesTo s b id te : has_block s b id te -> NCBlock_HashesTo (cs_ProposalBlock s) (bid_Hash id) = Ret true.
Proof.
  intros []. unfold NCBlock_HashesTo. rewrite bool_decide_eq_false_2, hb_block0 by done. cbn [mbind outcome_bind].
  rewrite hb_hash0. cbn. by rewrite bool_decide_eq_true_2.
Qed.

Lemma precommit_majority_holds s r sa id b te :
  holds_precommits s r sa id -> has_block s b id te -> precommit_majority r s = Ret (s, (id, true)).
Proof.
  intros (hsa & Hs & Hg & Hm) Hb. unfold precommit_majority, get. erewrite run_bind by done. erewrite run_deref by done.
  erewrite run_lift by done. unfold SignAggr_TwoThirdsMajority. rewrite Hm.
  assert (BlockID_IsZero id = false) as ->; [|done]. unfold BlockID_IsZero. destruct Hb.
  by destruct (bid_Hash id).
Qed.

Lemma finalizeCommit_runs s sa id b te :
  cs_Step s = RoundStepCommit -> holds_precommits s (cs_CommitRound s) sa id -> has_block s b id te ->
  exists s', finalizeCommit (cs_Height s) s = Ret (s', tt) /\
    cs_out s' = cs_out s ++ [OEvent (EventNewBlock (nb_set_extra b (seal_extra te (SignAggr_MakeCommit sa) false)));
      OEvent (EventNewBlockHeader (te_Height te)); OCommit (nb_set_extra b (seal_extra te (SignAggr_MakeCommit sa) false))].
Proof.
  intros Hstep Hh Hb. pose proof (has_block_HashesTo _ _ _ _ Hb) as Hhash.
  pose proof (precommit_majority_holds _ _ _ _ _ _ Hh Hb) as Hmaj.
  destruct Hb, hb_valid0 as (st & Hst & Hv & Hlt), Hh as (hsa & Hhsa & Hg & Hm).
  unfold finalizeCommit, get. erewrite run_bind by done. rewrite Hstep, !Z.eqb_refl. cbn [negb orb].
  erewrite run_bind by exact Hmaj. cbn [negb]. rewrite hb_parts0. cbn [negb].
  erewrite run_lift by exact Hhash. cbn [negb]. erewrite run_deref by done. erewrite run_deref by done.
  erewrite run_lift by done. cbn [is_some]. erewrite run_deref by done. rewrite (proj2 (Z.ltb_lt _ _)) by done.
  erewrite run_deref by done. erewrite run_lift by done. erewrite run_deref by done. rewrite hb_main0.
  erewrite run_bind by done. cbv zeta. set (b' := nb_set_extra b _).
  assert (write_ProposalBlock b' s = Ret (if cs_blockShared s && is_some (cs_LockedBlock s)
    then set_LockedBlock (Some b') (set_ProposalBlock (Some b') s) else set_ProposalBlock (Some b') s, tt)) as Hw.
  { unfold write_ProposalBlock, get, assign, mbind, M_bind. by destruct (_ && _). }
  erewrite run_bind by exact Hw. set (s1 := if _ && _ then _ else _).
  assert (cs_out s1 = cs_out s) as Ho by (unfold s1; by destruct (_ && _)).
  unfold emit, mbind, M_bind. eexists. split; [done|]. cbn. by rewrite Ho, <- !app_assoc.
Qed.

Lemma tryFinalizeCommit_runs s sa id b te :
  cs_Step s = RoundStepCommit -> holds_precommits s (cs_CommitRound s) sa id -> has_block s b id te ->
  tryFinalizeCommit (cs_Height s) s = finalizeCommit (cs_Height s) s.
Proof.
  intros Hstep Hh Hb. unfold tryFinalizeCommit, get. erewrite run_bind by done. rewrite Z.eqb_refl. cbn [negb].
  erewrite run_bind by (by eapply precommit_majority_holds). cbn [negb orb].
  rewrite bool_decide_eq_false_2 by apply Hb. erewrite run_lift by (by eapply has_block_HashesTo). done.
Qed.

(** Not locked, or locked on [b]. *)
Definition lock_agrees (s : ConsensusState) (b : NCBlock) (id : BlockID) : Prop :=
  cs_LockedBlock s = None \/
  (cs_LockedBlock s = Some b /\ PartSet_HasHeader (cs_LockedBlockParts s) (bid_PartsHeader id) = true).

Lemma enterCommit_block s b id te :
  lock_agrees s b id -> has_block s b id te ->
  (locked ← lift (NCBlock_HashesTo (cs_LockedBlock s) (bid_Hash id));
   (if locked : bool then
      assign set_ProposalBlock (cs_LockedBlock s);; assign set_blockShared true;;
      assign set_ProposalBlockParts (cs_LockedBlockParts s)
    else mret tt);;
   cs ← get;
   same ← lift (NCBlock_HashesTo (cs_ProposalBlock cs) (bid_Hash id));
   if negb same && negb (PartSet_HasHeader (cs_ProposalBlockParts cs) (bid_PartsHeader id)) then
     assign_ProposalBlock None;;
     parts ← lift (NewPartSetFromHeader (bid_PartsHeader id));
     assign set_ProposalBlockParts (Some parts)
   else mret tt : M unit) s =
  Ret (if is_some (cs_LockedBlock s) then set_ProposalBlockParts (cs_LockedBlockParts s)
    (set_blockShared true (set_ProposalBlock (cs_LockedBlock s) s)) else s, tt).
Proof.
  intros Hl Hb. pose proof (has_block_HashesTo _ _ _ _ Hb) as Hhash. rewrite (hb_block _ _ _ _ Hb) in Hhash.
  destruct Hl as [Hl|[Hl Hp]].
  - rewrite Hl. assert (NCBlock_HashesTo None (bid_Hash id) = Ret false) as Hn
      by (unfold NCBlock_HashesTo; by destruct (bool_decide _)).
    erewrite run_lift by exact Hn. erewrite run_bind by done. unfold get. erewrite run_bind by done.
    erewrite run_lift by (rewrite (hb_block _ _ _ _ Hb); exact Hhash). done.
  - rewrite Hl. erewrite run_lift by exact Hhash. erewrite run_bind by done. unfold get. erewrite run_bind by done.
    erewrite run_lift by exact Hhash. done.
Qed.

Lemma enterCommit_runs env s sa id b te :
  cs_Step s < RoundStepCommit -> lock_agrees s b id ->
  holds_precommits s (cs_Round s) sa id -> has_block s b id te ->
  exists s' l, enterCommit env (cs_Height s) (cs_Round s) s = Ret (s', tt) /\
    cs_out s' = cs_out s ++ l /\ OCommit (nb_set_extra b (seal_extra te (SignAggr_MakeCommit sa) false)) ∈ l.
Proof.
  intros Hstep Hl Hh Hb. unfold enterCommit, get. erewrite run_bind by done.
  rewrite Z.eqb_refl, (proj2 (Z.leb_gt _ _)) by done. cbn [negb orb].
  erewrite run_bind by (by eapply precommit_majority_holds). cbn [negb].
  set (s1 := if is_some (cs_LockedBlock s) then set_ProposalBlockParts (cs_LockedBlockParts s)
    (set_blockShared true (set_ProposalBlock (cs_LockedBlock s) s)) else s).
  assert (has_block s1 b id te) as Hb1.
  { unfold s1. destruct Hl as [Hl|[Hl Hp]]; rewrite Hl; cbn; [done|]. destruct Hb. by split. }
  assert (holds_precommits s1 (cs_Round s) sa id) as Hh1 by (unfold s1; by destruct (is_some _)).
  assert (cs_out s1 = cs_out s /\ cs_Height s1 = cs_Height s) as [Ho1 Hht1] by (unfold s1; by destruct (is_some _)).
  set (s2 := set_out (cs_out s1 ++ [OEvent (EventNewRoundStep (cs_Height s1) (cs_Round s1) RoundStepCommit)])
    (set_nSteps (cs_nSteps s1 + 1) (set_CommitTime (Some (e_now env)) (set_CommitRound (cs_Round s)
      (set_Step RoundStepCommit (set_Round (cs_Round s1) s1)))))).
  assert (has_block s2 b id te) as Hb2 by (destruct Hb1; by split).
  destruct (finalizeCommit_runs s2 sa id b te) as (s' & Hs' & Hout); [done|done|done|].
  exists s'. eexists. split; [|split; [rewrite Hout; cbn; rewrite Ho1, <- app_assoc; done|set_solver]].
  rewrite (run_bind _ _ s s1 tt); [|by apply (enterCommit_block s b id te)].
  change (tryFinalizeCommit (cs_Height s) s2 = Ret (s', tt)). rewrite <- Hht1. change (cs_Height s1) with (cs_Height s2).
  by rewrite (tryFinalizeCommit_runs s2 sa id b te).
Qed.


(** The same proposal, naming another peer. *)
Definition p_redirect (p : Proposal) (peerKey : string) : Proposal :=
  {| p_NodeID := p_NodeID p; p_Height := p_Height p; p_Round := p_Round p; p_Hash := p_Hash p;
     p_BlockPartsHeader := p_BlockPartsHeader p; p_POLRound := p_POLRound p; p_POLBlockID := p_POLBlockID p;
     p_ProposerNetAddr := p_ProposerNetAddr p; p_ProposerPeerKey := peerKey; p_Signature := p_Signature p |}.

(** The proposal's signature covers neither the block hash nor the key of the
    peer that votes are sent to: a proposal that a node accepts is accepted just
    the same with another ProposerPeerKey, and the votes of the node then go to
    that peer. *)
Theorem proposal_peer_unsigned env s s1 p peerKey key :
  cs_Proposal s = None -> handleMsg env (ProposalMessage p) peerKey s = Ret (s1, None) -> cs_Proposal s1 = Some p ->
  p_Round p = cs_Round s ->
  exists s2, handleMsg env (ProposalMessage (p_redirect p key)) peerKey s = Ret (s2, None) /\
    cs_Proposal s2 = Some (p_redirect p key) /\ cs_ProposerPeerKey s2 = key.
Proof.
  intros HP Hs Hp Hr. unfold handleMsg, defaultSetProposal, get in *. revert Hs. rewrite !(run_bind _ _ s s s) by done.
  cbn [p_redirect p_Height p_Round p_POLRound]. rewrite HP. cbn [is_some].
  destruct (_ || _); [intros [= <-]; congruence|]. destruct (_ <=? _); [intros [= <-]; congruence|].
  destruct (_ && _); [done|]. rewrite Hr, Z.eqb_refl.
  destruct (GetProposer env s) as [[s0 proposer]|] eqn:Hg; [|unfold mbind, M_bind; by rewrite Hg].
  rewrite !(run_bind _ _ s s0 proposer) by done.
  assert (verify_proposal env proposer (p_redirect p key) = verify_proposal env proposer p) as -> by done.
  destruct (verify_proposal env proposer p s0) as [[s0' ok]|] eqn:Hv; [|unfold mbind, M_bind; by rewrite Hv].
  rewrite !(run_bind _ _ s0 s0' ok) by done. destruct ok; [|done]. cbn [negb].
  unfold accept_proposal. cbn [p_redirect p_BlockPartsHeader p_ProposerPeerKey].
  rewrite !(run_bind (assign set_Proposal _) _ s0' _ tt) by done. 
  destruct (NewPartSetFromHeader (p_BlockPartsHeader p)) as [parts|] eqn:Hparts; [|done].
  intros _. erewrite run_lift by done. eexists. split; [done|]. done.
Qed.

End Messages.

(** ** A node that is the only validator of its chain *)

Module ConsensusExamples.
Import ListBitArray ToyLibs PartSetExamples EpochExamples.

#[export] Instance ex_node : NodeLib := {|
  TX3ProofData := unit;
  IntermediateBlockResult := unit;
  BA_nil := [];
  SimpleHashFromMap chainID h t save broadcast epoch vals eb := h :: t :: epoch :: vals ++ eb;
  SimpleHashFromBinary c := [c_Height c];
  SimpleHashFromHashables l := mjoin (val_Address <$> l);
  sha256 b := b;
  ChainContractMagicAddr := [255];
  FunctionTypeFromId _ := Some OtherFunction;
  UnpackWithdrawFromMainChain _ := None;
  math_Pow15 n := n;
|}.

(** Blocks travel as the list of their exported fields. *)
Definition enc_extra (te : TendermintExtra) : bytes :=
  [te_Height te; te_Time te; te_EpochNumber te; Z.of_nat (length (te_ValidatorsHash te))]
    ++ te_ValidatorsHash te ++ te_EpochBytes te.
Definition dec_extra (d : bytes) : option TendermintExtra :=
  match d with
  | h :: t :: e :: n :: rest => Some
      {| te_ChainID := MainnetChainId; te_Height := h; te_Time := t; te_NeedToSave := false;
         te_NeedToBroadcast := false; te_EpochNumber := e; te_SeenCommitHash := [];
         te_ValidatorsHash := take (Z.to_nat n) rest; te_SeenCommit := Some empty_commit;
         te_EpochBytes := drop (Z.to_nat n) rest |}
  | _ => None
  end.

#[export] Instance ex_blocks : BlockCodec := {|
  wire_BinaryBytes_tmp b te tx3 := Z.of_nat (length b) :: b ++ match te with Some te => enc_extra te | None => [] end;
  wire_ReadBinary_tmp d :=
    match d with
    | n :: rest => Some (take (Z.to_nat n) rest, dec_extra (drop (Z.to_nat n) rest), [])
    | [] => None
    end;
  rlp_EncodeToBytes b := [blk_Number b; blk_Time b];
  rlp_DecodeBytes d := match d with
                       | [n; t] => Some {| blk_Number := n; blk_Time := t; blk_Transactions := [] |}
                       | _ => None
                       end;
  wire_ReadBinary_extra := dec_extra;
|}.

Definition ex_block (n : Z) : Block := {| blk_Number := n; blk_Time := 7; blk_Transactions := [] |}.

Definition ex_chain_epoch : Epoch :=
  {| ep_Number := 0; ep_RewardPerBlock := 1; ep_StartBlock := 0; ep_EndBlock := 99;
     ep_StartTime := 0; ep_EndTime := 0; ep_BlockGenerated := 0; ep_Status := EPOCH_SAVED;
     ep_Validators := NewValidatorSet [NewValidator [1] [101] 10];
     ep_validatorVoteSet := None; ep_rs := None; ep_previousEpoch := None; ep_nextEpoch := None |}.

Definition ex_timeouts : TimeoutParams :=
  {| WaitForMinerBlock0 := 1000; Propose0 := 1500; ProposeDelta := 500; Prevote0 := 2000; PrevoteDelta := 500;
     Precommit0 := 2000; PrecommitDelta := 500; Commit0 := 500 |}.

Definition ex_env : NodeEnv := {|
  e_chainID := MainnetChainId;
  e_privValidator := Some {| pv_Address := [1]; pv_PubKey := [101]; pv_Sign m := Some ([101] ++ m) |};
  e_timeoutParams := ex_timeouts;
  e_NodeID := "node";
  e_now := 5;
  e_CurrentHeader := ([7], 0);
  e_GetHeaderHashByNumber _ := None;
  e_CurrentBlock := ex_block 0;
  e_GetBlockByNumber _ := None;
  e_HeaderExtra _ := [];
  e_ValidateBlock := None;
  e_GetTX3ProofData _ _ := None;
  e_ValidateTX3ProofData _ := None;
  e_ValidateTX4 _ _ := None;
  e_db := ∅;
|}.

Definition ex_idle : ConsensusState :=
  {| cs_Height := 0; cs_Round := 0; cs_Step := 0; cs_StartTime := 0; cs_CommitTime := None; cs_Validators := None;
     cs_Proposal := None; cs_ProposalBlock := None; cs_ProposalBlockParts := None; cs_ProposerPeerKey := "";
     cs_LockedRound := -1; cs_LockedBlock := None; cs_LockedBlockParts := None; cs_blockShared := false;
     cs_Votes := None; cs_VoteSignAggr := None; cs_CommitRound := -1; cs_PrevoteMaj23SignAggr := None;
     cs_PrecommitMaj23SignAggr := None; cs_proposer := None; cs_isProposer := false; cs_Epoch := ex_chain_epoch;
     cs_state := None; cs_vrfValIndex := -1; cs_pastRoundStates := ∅; cs_blockFromMiner := Some (ex_block 1);
     cs_nSteps := 0; cs_out := [] |}.

(** Handle the queued messages from the [k]-th on, as receiveRoutine does. *)
Fixpoint drain (fuel k : nat) (s : ConsensusState) : outcome ConsensusState :=
  match fuel with
  | O => Ret s
  | S fuel' =>
      match omap (fun o => match o with OInternal m => Some m | _ => None end) (cs_out s) !! k with
      | None => Ret s
      | Some m => '(s', _) ← handleMsg ex_env m "" s; drain fuel' (S k) s'
      end
  end.

Lemma drain_steps fuel k s s' : drain fuel k s = Ret s' -> rtc cs_step s s'.
Proof.
  revert k s. induction fuel as [|fuel IH]; intros k s; cbn [drain]; [by intros [= <-]|].
  destruct (_ !! k) as [m|]; [|by intros [= <-]].
  destruct (handleMsg ex_env m "" s) as [[s1 err]|] eqn:Hm; [|done]. intros Hd.
  eapply rtc_l; [by eapply step_msg|]. by eapply IH.
Qed.

Definition final (o : outcome (ConsensusState * unit)) : ConsensusState :=
  match o with Ret (s, _) => s | Panic _ => ex_idle end.

Definition ex_start : ConsensusState := final (StartNewHeight ex_env ex_idle).
Definition ex_round0 : ConsensusState := final (handleTimeout ex_env 0 1 0 RoundStepNewHeight ex_start).
Definition drained (fuel k : nat) (s : ConsensusState) : ConsensusState :=
  match drain fuel k s with Ret s' => s' | Panic _ => ex_idle end.
(** After [n] of the messages the node sends to itself. *)
Definition ex_after (n : nat) : ConsensusState := drained n 0 ex_round0.

Definition ex_V : ValidatorSet := ep_Validators ex_chain_epoch.
(** What the node has put out since the height started. *)
Definition ex_new (s : ConsensusState) : list Output := drop (length (cs_out ex_start)) (cs_out s).

Definition returns {A} (o : outcome A) : bool := match o with Ret _ => true | Panic _ => false end.

Lemma final_Ret o : returns o = true -> o = Ret (final o, tt).
Proof. by destruct o as [[s []]|]. Qed.

Lemma ex_starts : height_starts ex_V ex_start.
Proof. exists ex_env, ex_idle. split; [apply final_Ret; by vm_compute|by vm_compute]. Qed.

Lemma ex_round0_step : rtc cs_step ex_start ex_round0.
Proof. eapply rtc_l; [|apply rtc_refl]. apply (step_timeout ex_env 0 1 0 RoundStepNewHeight). apply final_Ret. by vm_compute. Qed.

Lemma drained_steps fuel k s : returns (drain fuel k s) = true -> rtc cs_step s (drained fuel k s).
Proof. intros Hr. apply (drain_steps fuel k). unfold drained. by destruct (drain fuel k s). Qed.

Lemma ex_after_steps n : returns (drain n 0 ex_round0) = true -> rtc cs_step ex_start (ex_after n).
Proof.
  intros Hr. etransitivity; [apply ex_round0_step|]. by apply drained_steps.
Qed.

Lemma ex_run_of s : rtc cs_step ex_start s -> height_run ex_V ex_start s (ex_new s).
Proof.
  intros Hs. split; [apply ex_starts|]. split; [exact Hs|].
  destruct (run_safe ex_V ex_start s (height_starts_inv _ _ ex_starts) Hs) as [_ _ (l & Hl & _)].
  unfold ex_new. rewrite Hl. by rewrite drop_app_length.
Qed.

(** The node votes, aggregates, locks and commits on its own. *)
Lemma ex_run : height_run ex_V ex_start (ex_after 6) (ex_new (ex_after 6)).
Proof. apply ex_run_of, ex_after_steps. vm_compute. reflexivity. Qed.

Lemma ex_locked_run : height_run ex_V ex_start (ex_after 4) (ex_new (ex_after 4)).
Proof. apply ex_run_of, ex_after_steps. vm_compute. reflexivity. Qed.

Lemma head_commit l b : head (omap output_commit l) = Some b -> OCommit b ∈ l.
Proof.
  intros Hh. assert (b ∈ omap output_commit l) as Hb by (destruct (omap output_commit l); [done|injection Hh as ->; constructor]).
  apply list_elem_of_omap in Hb as (o & Ho & Hc). by destruct o; simplify_eq/=.
Qed.

Lemma ex_commits : exists b, OCommit b ∈ ex_new (ex_after 6).
Proof.
  destruct (head (omap output_commit (ex_new (ex_after 6)))) as [b|] eqn:E; [exists b; by apply head_commit|].
  exfalso. assert (is_some (head (omap output_commit (ex_new (ex_after 6)))) = true) as Hs by (vm_compute; reflexivity).
  by rewrite E in Hs.
Qed.

Lemma commit_justified_witness :
  exists b sa, OCommit b ∈ ex_new (ex_after 6) /\ aggr_ok ex_V (cs_Height ex_start) (sa_Round sa) VoteTypePrecommit sa.
Proof.
  destruct ex_commits as [b Hb]. destruct (commit_justified ex_V ex_start (ex_after 6) (ex_new (ex_after 6)) b ex_run Hb)
    as (sa & _ & _ & _ & Ha & _). exists b, sa. split; [exact Hb|exact Ha].
Defined.

Lemma ex_V_ok : valset_ok ex_V.
Proof. split; [by eexists|done|]. repeat constructor; done. Qed.

Lemma commits_share_signer_witness :
  exists b i val, OCommit b ∈ ex_new (ex_after 6) /\ vals ex_V !! i = Some val /\ 0 < val_VotingPower val.
Proof.
  destruct ex_commits as [b Hb].
  destruct (commits_share_signer ex_V ex_start (ex_after 6) (ex_new (ex_after 6)) b ex_start (ex_after 6) (ex_new (ex_after 6)) b
    ex_V_ok ex_run ex_run Hb Hb) as (_ & _ & _ & _ & i & val & _ & _ & _ & _ & Hv & Hp & _).
  exists b, i, val. split; [exact Hb|]. split; [exact Hv|exact Hp].
Defined.

(** The votes of a list of outputs. *)
Lemma head_vote t l v : head (filter (fun v => v_Type v = t) (omap output_vote l)) = Some v ->
  v_Type v = t /\ exists o, o ∈ l /\ output_vote o = Some v.
Proof.
  intros Hh. assert (v ∈ filter (fun v => v_Type v = t) (omap output_vote l)) as Hv
    by (destruct (filter _ _); [done|injection Hh as ->; constructor]).
  apply list_elem_of_filter in Hv as [Ht Hv]. split; [done|]. apply list_elem_of_omap in Hv as (o & Ho & Hc). by exists o.
Qed.

Lemma ex_vote t s : is_some (head (filter (fun v => v_Type v = t) (omap output_vote (ex_new s)))) = true ->
  exists v o, v_Type v = t /\ o ∈ ex_new s /\ output_vote o = Some v.
Proof.
  destruct (head _) as [v|] eqn:E; [|done]. intros _. destruct (head_vote _ _ _ E) as (Ht & o & Ho & Hv). by exists v, o.
Qed.


Lemma ex_locked : exists b, cs_LockedBlock (ex_after 4) = Some b.
Proof.
  destruct (cs_LockedBlock (ex_after 4)) as [b|] eqn:E; [by exists b|].
  assert (is_some (cs_LockedBlock (ex_after 4)) = true) as Hs by (vm_compute; reflexivity). by rewrite E in Hs.
Qed.

Lemma lock_justified_witness :
  exists b sa, cs_LockedBlock (ex_after 4) = Some b /\ aggr_ok ex_V (cs_Height ex_start) (cs_LockedRound (ex_after 4)) VoteTypePrevote sa.
Proof.
  destruct ex_locked as [b Hb]. destruct (lock_justified ex_V ex_start (ex_after 4) (ex_new (ex_after 4)) b ex_locked_run Hb)
    as (sa & _ & Ha & _). exists b, sa. split; [exact Hb|exact Ha].
Defined.

(** The locked node times out, proposes its locked block in round 1 and
    receives its own proposal; the last part is still queued. *)
Definition ex_round1 : ConsensusState := final (handleTimeout ex_env 0 1 0 RoundStepPrecommitWait (ex_after 4)).
Definition ex_proposed : ConsensusState := drained 1 5 ex_round1.
Definition ex_prevoted : ConsensusState := drained 1 6 ex_proposed.

Lemma ex_proposed_steps : rtc cs_step ex_start ex_proposed.
Proof.
  etransitivity; [apply (ex_after_steps 4); vm_compute; reflexivity|].
  apply (rtc_l _ _ ex_round1); [apply (step_timeout ex_env 0 1 0 RoundStepPrecommitWait), final_Ret; vm_compute; reflexivity|].
  apply drained_steps. vm_compute. reflexivity.
Qed.

Lemma drained_step k s m :
  omap (fun o => match o with OInternal m => Some m | _ => None end) (cs_out s) !! k = Some m ->
  returns (drain 1 k s) = true -> cs_step s (drained 1 k s).
Proof.
  intros Hm. unfold drained. cbn [drain]. rewrite Hm.
  destruct (handleMsg ex_env m "" s) as [[s1 err]|] eqn:E; [|done]. intros _. exact (step_msg _ _ _ _ _ _ E).
Qed.

Lemma ex_prevote_step : cs_step ex_proposed ex_prevoted.
Proof.
  destruct (omap (fun o => match o with OInternal m => Some m | _ => None end) (cs_out ex_proposed) !! 6%nat) as [m|] eqn:Hm.
  - apply (drained_step 6 ex_proposed m); [exact Hm|vm_compute; reflexivity].
  - assert (is_some (omap (fun o => match o with OInternal m => Some m | _ => None end) (cs_out ex_proposed) !! 6%nat) = true)
      as Hs by (vm_compute; reflexivity). by rewrite Hm in Hs.
Qed.


Lemma rounds_move_forward_witness :
  cs_Height ex_round1 = cs_Height ex_start /\ hrs_le (ex_after 4) ex_round1.
Proof.
  apply (proj1 (rounds_move_forward ex_V ex_start (ex_after 4) _ ex_env ex_locked_run) 0 1 0 RoundStepPrecommitWait).
  apply final_Ret. vm_compute. reflexivity.
Defined.

Lemma proposerByVRF_weighted_witness :
  exists k v, proposerByVRF [7] (vals ex_V) = Ret (Z.of_nat k) /\ vals ex_V !! k = Some v.
Proof.
  destruct (proposerByVRF_weighted [7] (vals ex_V)) as (k & v & H1 & H2 & _); [repeat constructor; done|done|].
  exists k, v. split; [exact H1|exact H2].
Defined.

(** Two validators. *)
Definition ex_V2 : ValidatorSet := NewValidatorSet [NewValidator [1] [101] 10; NewValidator [2] [102] 10].
Definition ex_two : ConsensusState := set_Validators (Some ex_V2) (set_vrfValIndex 0 ex_start).

Lemma proposers_rotate_witness :
  exists r, 3 <= r < 5 /\ exists p, proposerByRound ex_env r ex_two = Ret (ex_two, p) /\ vp_valIndex p = 1.
Proof.
  destruct (proposers_rotate ex_env ex_two ex_V2 3 1 (NewValidator [2] [102] 10)) as (r & Hr & Hp & _);
    [reflexivity|vm_compute; split; [discriminate|reflexivity]|lia|reflexivity|].
  exists r. split; [exact Hr|]. eexists. split; [exact Hp|reflexivity].
Defined.

Definition ex_bad_proposal : Proposal := NewProposal 1 (-1) [] PartSetHeader_zero (-1) BlockID_zero "".

Lemma negative_round_panics_witness :
  handleMsg ex_env (ProposalMessage ex_bad_proposal) "peer" ex_two = Panic "The index of proposer out of range".
Proof.
  apply (negative_round_panics ex_env ex_two ex_V2 ex_bad_proposal "peer"); vm_compute;
    repeat split; try reflexivity; intros ?; discriminate.
Defined.

(** The block of the locked node, and an aggregate of precommits that its
    validator signed for another block. *)
Definition ex_b : NCBlock :=
  match cs_ProposalBlock (ex_after 4) with
  | Some b => b
  | None => {| nb_Block := ex_block 0; nb_NTCExtra := None; nb_TX3ProofData := []; nb_IntermediateResult := None |}
  end.
Definition ex_te : TendermintExtra :=
  match nb_NTCExtra ex_b with Some te => te | None => st_NTCExtra (MakeGenesisState 0 "") end.
Definition ex_id : BlockID :=
  {| bid_Hash := TendermintExtra_Hash ex_te; bid_PartsHeader := PartSet_Header (cs_ProposalBlockParts (ex_after 4)) |}.
Definition ex_other : BlockID := {| bid_Hash := [66]; bid_PartsHeader := {| psh_Total := 1; psh_Hash := [66] |} |}.
Definition ex_aggr : SignAggr :=
  MakeSignAggr 1 0 VoteTypePrecommit 1 ex_other MainnetChainId [true]
    (match SignBytes MainnetChainId {| v_ValidatorAddress := []; v_ValidatorIndex := 0; v_Height := 1; v_Round := 0;
       v_Type := VoteTypePrecommit; v_BlockID := ex_other; v_Signature := None; v_SignBytes := [] |} with
     | Ret m => Some ([101] ++ m)
     | Panic _ => None
     end).
Definition ex_hsa : HeightVoteSignAggr :=
  match cs_VoteSignAggr (ex_after 4) with
  | Some hsa => hsa
  | None => {| hsa_chainID := ""; hsa_height := 0; hsa_valSet := ex_V; hsa_round := 0; hsa_rounds := ∅ |}
  end.
Definition ex_rvs : RoundVoteSignAggr :=
  match hsa_rounds ex_hsa !! 0 with Some rvs => rvs | None => {| rsa_Prevotes := None; rsa_Precommits := None |} end.

Lemma ex_has_block : has_block (ex_after 4) ex_b ex_id ex_te.
Proof.
  split; [vm_compute; reflexivity|vm_compute; reflexivity|vm_compute; reflexivity|vm_compute; discriminate|
    vm_compute; reflexivity|vm_compute; reflexivity|].
  - destruct (cs_state (ex_after 4)) as [st|] eqn:E.
    + exists st. split; [reflexivity|].
      assert (match cs_state (ex_after 4) with Some st => NCBlock_ValidateBasic ex_b (st_NTCExtra st) = Ret None /\
        te_Height (st_NTCExtra st) < te_Height ex_te | None => False end) as H by (vm_compute; split; reflexivity).
      rewrite E in H. exact H.
    + assert (is_some (cs_state (ex_after 4)) = true) as Hs by (vm_compute; reflexivity). by rewrite E in Hs.
Qed.

Lemma ex_aggr_verified : blsVerifySignAggr ex_aggr (ex_after 4) = Ret (ex_after 4, Ok true).
Proof.
  assert (match blsVerifySignAggr ex_aggr (ex_after 4) with Ret (_, Ok true) => true | _ => false end = true) as H
    by (vm_compute; reflexivity).
  destruct (blsVerifySignAggr ex_aggr (ex_after 4)) as [[s' [[]|]]|] eqn:E; try discriminate H.
  pose proof (height_run_inv _ _ _ _ ex_locked_run) as [Hi _].
  destruct (wp_Ret _ _ _ _ _ (blsVerify_spec ex_V ex_aggr (ex_after 4) (ci_vals _ _ Hi)) E) as [-> _]. reflexivity.
Qed.

Lemma ex_aggr_header : sa_Height ex_aggr = cs_Height (ex_after 4) /\ sa_Round ex_aggr = cs_Round (ex_after 4) /\
  sa_Type ex_aggr = VoteTypePrecommit /\ cs_Step (ex_after 4) < RoundStepCommit.
Proof. vm_compute. repeat split; reflexivity. Qed.

Lemma ex_no_precommits : cs_VoteSignAggr (ex_after 4) = Some ex_hsa /\ hsa_rounds ex_hsa !! cs_Round (ex_after 4) = Some ex_rvs /\
  rsa_Precommits ex_rvs = None /\ cs_PrecommitMaj23SignAggr (ex_after 4) = None.
Proof. vm_compute. repeat split; reflexivity. Qed.

Lemma ex_has_proposal : is_Some (cs_Proposal (ex_after 4)).
Proof.
  destruct (cs_Proposal (ex_after 4)) eqn:E; [by eexists|].
  assert (is_some (cs_Proposal (ex_after 4)) = true) as Hs by (vm_compute; reflexivity). by rewrite E in Hs.
Qed.

Lemma ex_lock_agrees : lock_agrees (ex_after 4) ex_b ex_id.
Proof. right. vm_compute. split; reflexivity. Qed.

Lemma set_extra_block b te : nb_Block (nb_set_extra b te) = nb_Block b.
Proof. reflexivity. Qed.

Lemma ex_id_other : ex_id <> ex_other.
Proof. vm_compute. discriminate. Qed.


Definition ex_proposal : Proposal :=
  match head (omap (fun o => match o with OInternal (ProposalMessage p) => Some p | _ => None end) (cs_out ex_round0)) with
  | Some p => p
  | None => ex_bad_proposal
  end.

Lemma proposal_peer_unsigned_witness :
  exists s2, handleMsg ex_env (ProposalMessage (p_redirect ex_proposal "attacker")) "peer" ex_round0 = Ret (s2, None) /\
    cs_ProposerPeerKey s2 = "attacker".
Proof.
  destruct (handleMsg ex_env (ProposalMessage ex_proposal) "peer" ex_round0) as [[s1 [e|]]|] eqn:E.
  2: { destruct (proposal_peer_unsigned ex_env ex_round0 s1 ex_proposal "peer" "attacker") as (s2 & H2 & _ & Hk);
         [vm_compute; reflexivity|exact E| |vm_compute; reflexivity|exists s2; split; [exact H2|exact Hk]].
       assert (match handleMsg ex_env (ProposalMessage ex_proposal) "peer" ex_round0 with
               | Ret (s1, _) => cs_Proposal s1 = Some ex_proposal | Panic _ => False end) as H by (vm_compute; reflexivity).
       rewrite E in H. exact H. }
  all: assert (match handleMsg ex_env (ProposalMessage ex_proposal) "peer" ex_round0 with
               | Ret (_, None) => true | _ => false end = true) as H by (vm_compute; reflexivity); by rewrite E in H.
Defined.

End ConsensusExamples.
