(* ===== verification/Tx3.v ===== *)
(** * Withdrawals between chains: proofs and their store

    A withdrawal on a side chain (TX3) is proved to the main chain by a Merkle
    proof against the root of its block.  Here: the proofs that are made of a block
    (NewTX3ProofData of chain/core/types/block.go) and the store in which the main
    chain keeps them until they are used
    (chain/core/rawdb/tx3_local_database_util.go).

    Shown: the proofs of a block verify against its header, each giving its
    transaction; what is written can be read by the hash of the transaction, and
    is gone after it was deleted, while the others stay. *)
From S2P Require Import Prelude Rlp RlpDecode RlpInput BitArray TmTypes ValidatorSet PartSet Epoch ConsensusState.
From S2P Require Import StateData StateDB Receipts ChainConfig PendingOps SideChains Delegation Transaction.
From S2P Require Import TrieCodec Trie TrieTree TrieMap TrieStore TrieDecode TrieCommit TrieDisk TrieSpec TrieTheorems TrieProof TxTypes Blocks.
Local Open Scope Z_scope.

(** ** block.go *)
Record TX3ProofData := { pd_Header : Header; pd_TxIndexs : list Z; pd_TxProofs : list BSKeyValueSet }.

Definition kvset_type : rtype :=
  TStruct (FCons no_tags (TSlice (TStruct (FCons no_tags TBytes (FCons no_tags TBytes FNil)))) FNil).
Definition kvset_value (kv : BSKeyValueSet) : denote kvset_type := (map (fun '(k, v) => (k, (v, tt))) (KVArray kv), tt).
Definition kvset_of (v : denote kvset_type) : BSKeyValueSet := {| KVArray := map (fun '(k, (v, _)) => (k, v)) (fst v) |}.

Definition proof_type : rtype :=
  TStruct (FCons no_tags (TPtr header_type) (FCons no_tags (TSlice (TUint 64)) (FCons no_tags (TSlice (TPtr kvset_type)) FNil))).
Definition proof_value (pd : TX3ProofData) : denote proof_type :=
  (Some (header_value (pd_Header pd)), (pd_TxIndexs pd, (map (fun kv => Some (kvset_value kv)) (pd_TxProofs pd), tt))).
Definition proof_of (v : denote proof_type) : TX3ProofData :=
  let '(header, (indexs, (proofs, _))) := v in
  {| pd_Header := header_of (default (zero header_type) header); pd_TxIndexs := indexs;
     pd_TxProofs := map (fun kv => kvset_of (default (zero kvset_type) kv)) proofs |}.

Section Proofs.
Context {K : KeccakLib} {AB : AbiLib}.

(** [data[:4]] *)
Definition selector (data : bytes) : outcome bytes :=
  if (length data <? 4)%nat then Panic "slice bounds out of range" else Ret (take 4 data).

(** Whether a transaction to the chain contract calls this function; the error of
    FunctionTypeFromId. *)
Definition calls (f : FunctionType) (tx : TxTypes.Transaction) : outcome (result string bool) :=
  if IsLigoChainContractAddr (td_Recipient (tx_data tx)) then
    sel ← selector (td_Payload (tx_data tx));
    match FunctionTypeFromId sel with
    | Err e => Ret (Err e)
    | Ok function => Ret (Ok (bool_decide (function = f)))
    end
  else Ret (Ok false).

(** The loop of NewTX3ProofData over the transactions from [i] on. *)
Fixpoint tx3_proofs (root : node) (i : nat) (txs : list TxTypes.Transaction) (indexs : list Z) (proofs : list BSKeyValueSet) :
    outcome (result string (list Z * list BSKeyValueSet)) :=
  match txs with
  | [] => Ret (Ok (indexs, proofs))
  | tx :: txs =>
    c ← calls fnWithdrawFromSideChain tx;
    match c with
    | Ok true =>
      key ← index_key (Z.of_nat i);
      p ← Trie_Prove nil_db root key 0 MakeBSKeyValueSet;
      match p with
      | Err e => Ret (Err e)
      | Ok kvSet => tx3_proofs root (S i) txs (indexs ++ [Z.of_nat i]) (proofs ++ [kvSet])
      end
    | _ => tx3_proofs root (S i) txs indexs proofs
    end
  end.

Definition NewTX3ProofData (b : Blocks.Block) : outcome (result string TX3ProofData) :=
  rlps ← mapM GetRlp (b_transactions b);
  root ← derive_loop 0 rlps nilNode;
  r ← tx3_proofs root 0 (b_transactions b) [] [];
  match r with
  | Err e => Ret (Err e)
  | Ok (indexs, proofs) => Ret (Ok {| pd_Header := b_header b; pd_TxIndexs := indexs; pd_TxProofs := proofs |})
  end.

End Proofs.

(** ** tx3_local_database_util.go

    The steps on the store: [None] when VerifyProof has not ended, a panic, or the
    store with a result; an error leaves what was written before it. *)
Abbreviation TX3DB := (gmap bytes bytes).
Definition WM (A : Type) : Type := TX3DB -> option (outcome (TX3DB * result string A)).
#[export] Instance WM_ret : MRet WM := fun A a db => Some (Ret (db, Ok a)).
#[export] Instance WM_bind : MBind WM := fun A B f m db =>
  match m db with
  | Some (Ret (db, Ok a)) => f a db
  | Some (Ret (db, Err e)) => Some (Ret (db, Err e))
  | Some (Panic s) => Some (Panic s)
  | None => None
  end.
Definition wfail {A} (e : string) : WM A := fun db => Some (Ret (db, Err e)).
Definition wget (k : bytes) : WM bytes := fun db => Some (Ret (db, Ok (default [] (db !! k)))).
Definition wput (k v : bytes) : WM unit := fun db => Some (Ret (<[k := v]> db, Ok tt)).
Definition wlift {A} (m : outcome A) : WM A := fun db => match m with Ret a => Some (Ret (db, Ok a)) | Panic s => Some (Panic s) end.
Definition wresult {A} (r : result string A) : WM A := fun db => Some (Ret (db, r)).

Definition tx3Prefix : bytes := str_bytes "t".
Definition tx3LookupPrefix : bytes := str_bytes "k".
Definition tx3ProofPrefix : bytes := str_bytes "p".
Definition encodeBlockNumber (number : Z) : bytes := be 8 number.

Definition tx3Key (chainId txHash : bytes) : bytes := tx3Prefix ++ chainId ++ txHash.
Definition tx3LookupKey (chainId txHash : bytes) : bytes := tx3LookupPrefix ++ chainId ++ txHash.
Definition tx3ProofKey (chainId : bytes) (number : Z) : bytes := tx3ProofPrefix ++ chainId ++ encodeBlockNumber number.

(** TX3LookupEntry *)
Definition entry_type : rtype := TStruct (FCons no_tags (TUint 64) (FCons no_tags (TUint 64) FNil)).

(** EncodeToBytes with its error dropped. *)
Definition encode_or_nil (t : rtype) (v : denote t) : outcome bytes :=
  e ← EncodeToBytes t v;
  Ret (match e with Ok b => b | Err _ => [] end).

(** decodeTx: a stream over a bytes.Buffer has no limit. *)
Definition decodeTx (b : bytes) : option TxTypes.Transaction :=
  let s := {| s_r := b; s_remaining := 0; s_limited := false; s_kind := None; s_size := 0; s_byteval := 0; s_kinderr := None; s_stack := [] |} in
  match Transaction_DecodeRLP (S (length b)) s with
  | (_, Ok d) => Some {| tx_data := d; tx_from := None |}
  | (_, Err _) => None
  end.

Definition GetTX3 (db : TX3DB) (chainId txHash : bytes) : option TxTypes.Transaction :=
  match default [] (db !! tx3Key chainId txHash) with
  | [] => None
  | bs => decodeTx bs
  end.

Definition GetTX3LookupEntry (db : TX3DB) (chainId txHash : bytes) : bytes * Z * Z :=
  match default [] (db !! tx3LookupKey chainId txHash) with
  | [] => (zeroHash, 0, 0)
  | bs =>
    match DecodeBytes entry_type bs with
    | Err _ => (zeroHash, 0, 0)
    | Ok (blockIndex, (txIndex, _)) => (txHash, blockIndex, txIndex)
    end
  end.

(** The first position of an index. *)
Definition find_index (txIndex : Z) (indexs : list Z) : option nat := fst <$> list_find (fun i => i = txIndex) indexs.

Definition GetTX3ProofData (db : TX3DB) (chainId txHash : bytes) : outcome (option TX3ProofData) :=
  let '(hash, blockNumber, txIndex) := GetTX3LookupEntry db chainId txHash in
  if bool_decide (hash = zeroHash) then Ret None
  else
    match default [] (db !! tx3ProofKey chainId blockNumber) with
    | [] => Ret None
    | bs =>
      match DecodeBytes proof_type bs with
      | Err _ => Ret None
      | Ok v =>
        let proofData := proof_of v in
        match find_index txIndex (pd_TxIndexs proofData) with
        | None => Ret None
        | Some i =>
          index ← slice_get (pd_TxIndexs proofData) (Z.of_nat i);
          proof ← slice_get (pd_TxProofs proofData) (Z.of_nat i);
          Ret (Some {| pd_Header := pd_Header proofData; pd_TxIndexs := [index]; pd_TxProofs := [proof] |})
        end
      end
    end.

Definition DeleteTX3 (db : TX3DB) (chainId txHash : bytes) : outcome TX3DB :=
  let '(hash, blockNumber, txIndex) := GetTX3LookupEntry db chainId txHash in
  if bool_decide (hash = zeroHash) then Ret db
  else
    let db := delete (tx3Key chainId txHash) db in
    let db := delete (tx3LookupKey chainId txHash) db in
    let key3 := tx3ProofKey chainId blockNumber in
    match default [] (db !! key3) with
    | [] => Ret db
    | bs =>
      match DecodeBytes proof_type bs with
      | Err _ => Ret db
      | Ok v =>
        let proofData := proof_of v in
        match find_index txIndex (pd_TxIndexs proofData) with
        | None => Ret db
        | Some i =>
          if (length (pd_TxProofs proofData) <? S i)%nat then Panic "slice bounds out of range"
          else
            let proofData := {| pd_Header := pd_Header proofData;
              pd_TxIndexs := take i (pd_TxIndexs proofData) ++ drop (S i) (pd_TxIndexs proofData);
              pd_TxProofs := take i (pd_TxProofs proofData) ++ drop (S i) (pd_TxProofs proofData) |} in
            match pd_TxIndexs proofData with
            | [] => Ret (delete key3 db)
            | _ => bs ← encode_or_nil proof_type (proof_value proofData); Ret (<[key3 := bs]> db)
            end
        end
      end
    end.

Definition hasTxIndex (proofData : TX3ProofData) (target : Z) : bool := existsb (Z.eqb target) (pd_TxIndexs proofData).

Section Store.
Context {K : KeccakLib} {AB : AbiLib} (fuel : nat).

(** VerifyProof as a step. *)
Definition wverify (root key : bytes) (proofDb : BSKeyValueSet) : WM bytes := fun db =>
  match VerifyProof fuel root key proofDb with
  | None => None
  | Some (Panic s) => Some (Panic s)
  | Some (Ret (Err e)) => Some (Ret (db, Err e))
  | Some (Ret (Ok (v, _))) => Some (Ret (db, Ok v))
  end.

Definition WriteTX3 (chainId : bytes) (header : Blocks.Header) (txIndex : Z) (txProofData : BSKeyValueSet) : WM unit :=
  key ← wlift (index_key txIndex);
  val ← wverify (hd_TxHash header) key txProofData;
  match DecodeBytes_tx val with
  | Err _ => wfail "rlp"
  | Ok tx =>
    c ← wlift (calls fnWithdrawFromSideChain tx);
    isTX3 ← wresult c;
    if (isTX3 : bool) then
      txHash ← wlift (tx_Hash tx);
      bs ← wlift (encode_or_nil txdata_type (txdata_value (tx_data tx)));
      wput (tx3Key chainId txHash) bs;;
      data ← wlift (encode_or_nil entry_type (big_Uint64 (hd_Number header), (u64 txIndex, tt)));
      wput (tx3LookupKey chainId txHash) data
    else mret tt
  end.

(** Writing the proofs of a block that is not known. *)
Fixpoint write_new (chainId : bytes) (header : Blocks.Header) (i : nat) (indexs : list Z) (proofs : list BSKeyValueSet) : WM unit :=
  match indexs with
  | [] => mret tt
  | txIndex :: indexs =>
    proof ← wlift (slice_get proofs (Z.of_nat i));
    WriteTX3 chainId header txIndex proof;;
    write_new chainId header (S i) indexs proofs
  end.

(** Adding the proofs that the block does not have yet; whether there was one. *)
Fixpoint write_more (chainId : bytes) (header : Blocks.Header) (i : nat) (indexs : list Z) (proofs : list BSKeyValueSet) (existing : TX3ProofData) (update : bool) :
    WM (TX3ProofData * bool) :=
  match indexs with
  | [] => mret (existing, update)
  | txIndex :: indexs =>
    if negb (hasTxIndex existing txIndex) then
      proof ← wlift (slice_get proofs (Z.of_nat i));
      WriteTX3 chainId header txIndex proof;;
      write_more chainId header (S i) indexs proofs
        {| pd_Header := pd_Header existing; pd_TxIndexs := pd_TxIndexs existing ++ [txIndex]; pd_TxProofs := pd_TxProofs existing ++ [proof] |} true
    else write_more chainId header (S i) indexs proofs existing update
  end.

Context `{BitArrayLib} `{!NodeLib} `{!BlockCodec}.

Definition side_chain_id (chainId : string) : bool :=
  negb (bool_decide (chainId = ""%string) || bool_decide (chainId = cc_LigoChainId MainnetChainConfig) || bool_decide (chainId = cc_LigoChainId TestnetChainConfig)).

Definition WriteTX3ProofData (proofData : TX3ProofData) : WM unit :=
  let header := pd_Header proofData in
  match ExtractTendermintExtra (hd_Extra header) with
  | None => wfail "wire"
  | Some ncExtra =>
    if negb (side_chain_id (te_ChainID ncExtra)) then wfail "invalid side chain id"
    else
      let chainId := str_bytes (te_ChainID ncExtra) in
      let key1 := tx3ProofKey chainId (big_Uint64 (hd_Number header)) in
      bs ← wget key1;
      match bs with
      | [] =>
        bss ← wlift (encode_or_nil proof_type (proof_value proofData));
        wput key1 bss;;
        write_new chainId header 0 (pd_TxIndexs proofData) (pd_TxProofs proofData)
      | _ =>
        match DecodeBytes proof_type bs with
        | Err _ => wfail "rlp"
        | Ok v =>
          r ← write_more chainId header 0 (pd_TxIndexs proofData) (pd_TxProofs proofData) (proof_of v) false;
          let '(existing, update) := r in
          if (update : bool) then
            bss ← wlift (encode_or_nil proof_type (proof_value existing));
            wput key1 bss
          else mret tt
        end
      end
  end.

End Store.

(** ** The proofs of a block *)
Section BlockProofs.
Context {K : KeccakLib} {KL : KeccakLaws K} {AB : AbiLib}.

Abbreviation f3 := fnWithdrawFromSideChain.

(** The withdrawals of a list of transactions, with their positions. *)
Definition is_tx3 (tx : TxTypes.Transaction) : bool := match calls f3 tx with Ret (Ok true) => true | _ => false end.

Fixpoint withdrawals (i : nat) (txs : list TxTypes.Transaction) : list (nat * TxTypes.Transaction) :=
  match txs with
  | [] => []
  | tx :: txs => (if is_tx3 tx then [(i, tx)] else []) ++ withdrawals (S i) txs
  end.

(** No transaction to the chain contract has less than four bytes of data. *)
Definition calls_ok (txs : list TxTypes.Transaction) : Prop := Forall (fun tx => exists r, calls f3 tx = Ret r) txs.

Lemma elem_of_withdrawals txs : forall i j tx, (j, tx) ∈ withdrawals i txs <-> (i <= j)%nat /\ txs !! (j - i)%nat = Some tx /\ is_tx3 tx = true.
Proof.
  induction txs as [|t txs IH]; intros i j tx; cbn [withdrawals].
  - rewrite lookup_nil. split; [by intros ?%not_elem_of_nil|naive_solver].
  - rewrite elem_of_app, IH. destruct (decide (i = j)) as [->|Hne].
    + rewrite Nat.sub_diag. cbn. split.
      * intros [H|[? _]]; [|lia]. destruct (is_tx3 t) eqn:E; [|by apply not_elem_of_nil in H]. apply list_elem_of_singleton in H as [= ->]. done.
      * intros (_ & [= ->] & ->). left. by apply list_elem_of_singleton.
    + split.
      * intros [H|(? & ? & ?)].
        -- destruct (is_tx3 t); [|by apply not_elem_of_nil in H]. apply list_elem_of_singleton in H. congruence.
        -- split; [lia|]. by replace (j - i)%nat with (S (j - S i)) by lia.
      * intros (? & H & ?). right. split; [lia|]. by replace (j - i)%nat with (S (j - S i)) in H by lia.
Qed.

(** A proof that gives the transaction, when there is enough fuel. *)
Definition proves (root : bytes) (h : nat) (i : nat) (tx : TxTypes.Transaction) (kv : BSKeyValueSet) : Prop :=
  kv_bytes kv /\ forall fuel, (h < fuel)%nat -> exists c, VerifyProof fuel root (rint (Z.of_nat i)) kv = Some (Ret (Ok (tx_enc (tx_data tx), c))).

Lemma tx3_proofs_ok root m all : collision_free (in_play [m]) -> map_ok m -> repr nil_db true root (tree_of m) ->
  (forall i tx, all !! i = Some tx -> m !! rint (Z.of_nat i) = Some (tx_enc (tx_data tx))) -> Z.of_nat (length all) < 2 ^ 64 ->
  forall txs i indexs proofs, txs = drop i all -> calls_ok txs ->
  exists kvs, tx3_proofs root i txs indexs proofs = Ret (Ok (indexs ++ map (fun p => Z.of_nat (fst p)) (withdrawals i txs), proofs ++ kvs))
    /\ Forall2 (fun p kv => proves (root_of m) (height (tree_of m)) (fst p) (snd p) kv) (withdrawals i txs) kvs.
Proof.
  intros CF Hm Hr Hall Hl. induction txs as [|tx txs IH]; intros i indexs proofs Ht Hc; cbn [tx3_proofs withdrawals map].
  { exists []. by rewrite !app_nil_r. }
  assert (all !! i = Some tx) as Hi by (rewrite <- (Nat.add_0_r i), <- lookup_drop, <- Ht; done).
  assert (txs = drop (S i) all) as Ht' by (by rewrite <- Nat.add_1_r, <- drop_drop, <- Ht).
  apply Forall_cons in Hc as [[r Er] Hc]. unfold is_tx3. rewrite Er, outcome_bind_Ret.
  destruct r as [[]|e].
  - pose proof (lookup_lt_Some _ _ _ Hi). rewrite index_key_ok, outcome_bind_Ret by lia.
    destruct (Prove_repr (in_play [m]) nil_db root m (rint (Z.of_nat i)) CF Hm) as (kv & E & Hkv & Hv);
      [apply play_seen; by left|done|apply rint_bytes|intros ->; by specialize (Hall _ _ Hi)|].
    rewrite E, outcome_bind_Ret. destruct (IH (S i) (indexs ++ [Z.of_nat i]) (proofs ++ [kv]) Ht' Hc) as (kvs & -> & Hk).
    exists (kv :: kvs). rewrite <- !app_assoc. split; [done|]. constructor; [|done]. split; [done|]. cbn [fst snd].
    rewrite (Hall _ _ Hi) in Hv. exact Hv.
  - by apply IH.
  - by apply IH.
Qed.

Lemma lookup_items txs i tx : txs_ok txs -> txs !! i = Some tx -> items (tx_encs txs) !! rint (Z.of_nat i) = Some (tx_enc (tx_data tx)).
Proof.
  intros Ht Hi. destruct (txs_rlps txs Ht) as (_ & [_ Hl] & Hn). pose proof (lookup_lt_Some _ _ _ Hi). destruct Ht as [_ Hlt].
  unfold items. rewrite lookup_index_map by (done || lia). cbn [Nat.leb]. rewrite Nat.sub_0_r.
  unfold tx_encs. by rewrite list_lookup_fmap, Hi.
Qed.

(** What NewTX3ProofData makes of a block. *)
Lemma NewTX3ProofData_ok b : txs_ok (b_transactions b) -> calls_ok (b_transactions b) ->
  collision_free (in_play [items (tx_encs (b_transactions b))]) ->
  exists kvs, NewTX3ProofData b = Ret (Ok {| pd_Header := b_header b; pd_TxIndexs := map (fun p => Z.of_nat (fst p)) (withdrawals 0 (b_transactions b)); pd_TxProofs := kvs |})
    /\ Forall2 (fun p kv => proves (root_of (items (tx_encs (b_transactions b)))) (height (tree_of (items (tx_encs (b_transactions b))))) (fst p) (snd p) kv)
         (withdrawals 0 (b_transactions b)) kvs.
Proof.
  intros Ht Hc CF. destruct (txs_rlps _ Ht) as (E & Hr & _). destruct (items_ok _ Hr) as (n & En & Hm & Hn).
  destruct (tx3_proofs_ok n (items (tx_encs (b_transactions b))) (b_transactions b) CF Hm Hn) with (txs := b_transactions b) (i := 0%nat) (indexs := @nil Z) (proofs := @nil BSKeyValueSet)
    as (kvs & Ek & Hk); [intros i tx; by apply lookup_items|by destruct Ht|done|done|].
  exists kvs. split; [|done]. unfold NewTX3ProofData. by rewrite E, outcome_bind_Ret, En, outcome_bind_Ret, Ek.
Qed.

End BlockProofs.

(** ** What is stored *)

Definition pd_typed (pd : TX3ProofData) : Prop :=
  header_typed (pd_Header pd) /\ Forall is_uint64 (pd_TxIndexs pd) /\ Forall kv_bytes (pd_TxProofs pd).

Definition proof_enc (pd : TX3ProofData) : bytes := renc proof_type no_tags (proof_value pd).

Lemma kvset_of_value kv : kvset_of (kvset_value kv) = kv.
Proof.
  destruct kv as [l]. unfold kvset_of, kvset_value. cbn [fst KVArray]. f_equal. rewrite map_map. rewrite <- (map_id l) at 2.
  apply map_ext. by intros [k v].
Qed.

Lemma proof_of_value pd : proof_of (proof_value pd) = pd.
Proof.
  destruct pd as [h idx kvs]. unfold proof_of, proof_value. cbn [pd_Header pd_TxIndexs pd_TxProofs default from_option id].
  rewrite header_of_value, map_map. f_equal. rewrite <- (map_id kvs) at 2. apply map_ext. intros kv. apply kvset_of_value.
Qed.

Lemma kvset_value_ok kv : kv_bytes kv ->
  wt kvset_type (kvset_value kv) /\ encodable kvset_type (kvset_value kv) = true /\ rt kvset_type no_tags (kvset_value kv).
Proof.
  intros H. unfold kv_bytes in H. cbn [kvset_type wt wts encodable encodables rt rts fst snd kvset_value]. split_and!; try done.
  - apply Forall_fmap. eapply Forall_impl; [exact H|]. intros [k v] [? ?]. done.
  - by rewrite forallb_map_Forall; [|apply Forall_true; by intros [k v]].
  - apply Forall_fmap, Forall_true. by intros [k v].
Qed.

Lemma proof_value_ok pd : pd_typed pd ->
  wt proof_type (proof_value pd) /\ encodable proof_type (proof_value pd) = true /\ rt proof_type no_tags (proof_value pd).
Proof.
  intros (Hh & Hi & Hk). destruct (header_value_ok _ Hh) as (W & E & R).
  assert (Forall (fun kv => wt kvset_type (kvset_value kv) /\ encodable kvset_type (kvset_value kv) = true /\ rt kvset_type no_tags (kvset_value kv)) (pd_TxProofs pd)) as Hk'
    by (eapply Forall_impl; [exact Hk|exact kvset_value_ok]).
  unfold proof_type, proof_value. cbn [wt wts encodable encodables rt rts fst snd]. split_and!; try done.
  - apply Forall_fmap. eapply Forall_impl; [exact Hk'|]. intros kv (? & _ & _). done.
  - rewrite E. cbn [andb]. rewrite forallb_map_Forall; [rewrite andb_true_r; by apply forallb_forall|].
    eapply Forall_impl; [exact Hk'|]. intros kv (_ & ? & _). done.
  - apply Forall_true. done.
  - apply Forall_fmap. eapply Forall_impl; [exact Hk'|]. intros kv (_ & _ & ?). done.
Qed.

Lemma encode_proof pd : pd_typed pd -> Rlp.small (proof_enc pd) -> encode_or_nil proof_type (proof_value pd) = Ret (proof_enc pd).
Proof. intros Ht Hs. destruct (proof_value_ok pd Ht) as (W & E & _). unfold encode_or_nil. by rewrite EncodeToBytes_spec, E. Qed.

Lemma decode_proof pd : pd_typed pd -> Rlp.small (proof_enc pd) -> DecodeBytes proof_type (proof_enc pd) = Ok (proof_value pd).
Proof. intros Ht Hs. destruct (proof_value_ok pd Ht) as (W & E & R). by apply DecodeBytes_renc. Qed.

Lemma proof_enc_nonnil pd : proof_enc pd <> [].
Proof. apply rlist_nonnil. Qed.

Lemma tx_enc_nonnil d : tx_enc d <> [].
Proof. apply rlist_nonnil. Qed.

(** A lookup entry. *)
Definition entry_enc (number i : Z) : bytes := renc entry_type no_tags (number, (i, tt)).

Lemma small_entry number i : is_uint64 number -> is_uint64 i -> Rlp.small (entry_enc number i).
Proof.
  intros H1 H2. unfold entry_enc, entry_type, Rlp.small. cbn [renc renc_fields fst snd]. rewrite app_nil_r.
  pose proof (length_rint _ H1). pose proof (length_rint _ H2). unfold rlist. rewrite !length_app.
  pose proof (puthead_le 0xC0 0xF7 (Z.of_nat (length (rint number) + length (rint i)))). lia.
Qed.

Lemma encode_entry number i : is_uint64 number -> is_uint64 i -> encode_or_nil entry_type (number, (i, tt)) = Ret (entry_enc number i).
Proof. intros H1 H2. unfold encode_or_nil. rewrite EncodeToBytes_spec; [done|done|done|by apply small_entry]. Qed.

Lemma decode_entry number i : is_uint64 number -> is_uint64 i -> DecodeBytes entry_type (entry_enc number i) = Ok (number, (i, tt)).
Proof. intros H1 H2. apply DecodeBytes_renc; try done. by apply small_entry. Qed.

Lemma decodeTx_ok d : tx_typed d -> Rlp.small (tx_enc d) -> decodeTx (tx_enc d) = Some {| tx_data := d; tx_from := None |}.
Proof.
  intros Ht Hs. destruct (tx_value_ok d Ht) as (W & E & R). unfold decodeTx. rewrite tx_DecodeRLP_dec.
  pose proof (proj1 dec_reads txdata_type eq_refl no_tags (txdata_value d) W E R Hs (S (length (tx_enc d)))) as Hr. cbn [tail no_tags] in Hr.
  match goal with |- context [dec _ _ _ ?s] => destruct (Hr s []) as (s' & -> & _) end.
  - cbn [s_r]. lia.
  - done.
  - by rewrite app_nil_r.
  - split_and!; [lia|cbn [s_r]; unfold tx_enc; lia|done|done].
  - by rewrite txdata_of_value.
Qed.

(** A bound for the size of proof data that does not grow when proofs are taken
    out. *)
Definition kv_size (kv : BSKeyValueSet) : Z := Z.of_nat (length (renc kvset_type no_tags (kvset_value kv))).
Definition sum_of {A} (f : A -> Z) (l : list A) : Z := foldr (fun x s => f x + s) 0 l.
Definition pd_size (pd : TX3ProofData) : Z :=
  27 + Z.of_nat (length (header_enc (pd_Header pd))) + 9 * Z.of_nat (length (pd_TxIndexs pd)) + sum_of kv_size (pd_TxProofs pd).

Lemma sum_of_app {A} (f : A -> Z) l1 l2 : sum_of f (l1 ++ l2) = sum_of f l1 + sum_of f l2.
Proof. unfold sum_of. induction l1 as [|x l1 IH]; cbn [app foldr]; [lia|]. rewrite IH. lia. Qed.

Lemma length_concat_map {A} (f : A -> bytes) l : Z.of_nat (length (concat (map f l))) = sum_of (fun x => Z.of_nat (length (f x))) l.
Proof. unfold sum_of. induction l as [|x l IH]; cbn [map concat foldr]; [done|]. rewrite length_app. lia. Qed.

Lemma small_proof pd : Forall is_uint64 (pd_TxIndexs pd) -> pd_size pd < 2 ^ 64 -> Rlp.small (proof_enc pd).
Proof.
  intros Hi Hs. unfold Rlp.small, proof_enc, pd_size in *. unfold proof_type, proof_value.
  change (renc _ no_tags _) with (rlist (header_enc (pd_Header pd) ++ rlist (concat (map rint (pd_TxIndexs pd)))
    ++ rlist (concat (map (renc (TPtr kvset_type) no_tags) (map (fun kv => Some (kvset_value kv)) (pd_TxProofs pd)))) ++ [])).
  rewrite app_nil_r, map_map. set (a := concat (map rint (pd_TxIndexs pd))). set (b := concat _).
  pose proof (rlist_le (header_enc (pd_Header pd) ++ rlist a ++ rlist b)) as H1. rewrite !length_app in H1.
  pose proof (rlist_le a). pose proof (rlist_le b).
  assert (Z.of_nat (length a) <= 9 * Z.of_nat (length (pd_TxIndexs pd))) as Ha.
  { unfold a. clear -Hi. induction Hi as [|x l Hx Hl IH]; cbn; [lia|]. rewrite length_app. pose proof (length_rint x Hx). lia. }
  assert (Z.of_nat (length b) = sum_of kv_size (pd_TxProofs pd)) as Hb by apply length_concat_map. lia.
Qed.

(** ** The store *)
Section StoreLaws.
Context {K : KeccakLib} {KL : KeccakLaws K} {AB : AbiLib}.

Definition hash_tx (tx : TxTypes.Transaction) : bytes := keccak (tx_enc (tx_data tx)).

Lemma tx_Hash_ok tx : tx_ok tx -> tx_Hash tx = Ret (hash_tx tx).
Proof.
  intros [Ht Hl]. destruct (tx_value_ok _ Ht) as (W & E & _). unfold tx_Hash. rewrite rlpHash_ok; [done..|].
  change (Rlp.small (tx_enc (tx_data tx))). unfold Rlp.small. lia.
Qed.

Lemma tx_ok_small tx : tx_ok tx -> Rlp.small (tx_enc (tx_data tx)).
Proof. intros [_ Hl]. unfold Rlp.small. lia. Qed.

Definition store_tx (chainId : bytes) (number : Z) (db : TX3DB) (p : nat * TxTypes.Transaction) : TX3DB :=
  <[tx3LookupKey chainId (hash_tx (snd p)) := entry_enc number (Z.of_nat (fst p))]>
    (<[tx3Key chainId (hash_tx (snd p)) := tx_enc (tx_data (snd p))]> db).

Definition header_number (h : Blocks.Header) : Z := big_Uint64 (hd_Number h).

Lemma header_number_uint64 h : is_uint64 (header_number h).
Proof. unfold is_uint64, header_number, big_Uint64, u64. apply Z.mod_pos_bound. lia. Qed.

Lemma WriteTX3_ok fuel chainId header i kv tx c db : Z.of_nat i < 2 ^ 64 -> tx_ok tx -> is_tx3 tx = true ->
  VerifyProof fuel (hd_TxHash header) (rint (Z.of_nat i)) kv = Some (Ret (Ok (tx_enc (tx_data tx), c))) ->
  WriteTX3 fuel chainId header (Z.of_nat i) kv db = Some (Ret (store_tx chainId (header_number header) db (i, tx), Ok tt)).
Proof.
  intros Hi Ht H3 Hv. pose proof (tx_ok_small tx Ht) as Hs. unfold WriteTX3. rewrite index_key_ok by lia.
  unfold mbind, WM_bind, wlift at 1, wverify. rewrite Hv. rewrite DecodeBytes_tx_enc by (done || apply Ht).
  unfold is_tx3 in H3. destruct (calls fnWithdrawFromSideChain tx) as [[[]|]|] eqn:Ec; try done.
  change (calls fnWithdrawFromSideChain {| tx_data := tx_data tx; tx_from := None |}) with (calls fnWithdrawFromSideChain tx). rewrite Ec.
  cbn [wlift wresult]. change (tx_Hash {| tx_data := tx_data tx; tx_from := None |}) with (tx_Hash tx). rewrite tx_Hash_ok by done. cbn [wlift].
  unfold encode_or_nil at 1. cbn [tx_data]. fold (Transaction_EncodeRLP tx). rewrite EncodeRLP_tx by (done || apply Ht). cbn [mbind outcome_bind wput].
  rewrite u64_id by lia. rewrite encode_entry by (apply header_number_uint64 || (unfold is_uint64; lia)). done.
Qed.

Lemma write_new_ok fuel chainId header root h : hd_TxHash header = root -> (h < fuel)%nat ->
  forall l kvs, Forall2 (fun p kv => proves root h (fst p) (snd p) kv) l kvs ->
  Forall (fun p => Z.of_nat (fst p) < 2 ^ 64 /\ tx_ok (snd p) /\ is_tx3 (snd p) = true) l ->
  forall pre db, write_new fuel chainId header (length pre) (map (fun p => Z.of_nat (fst p)) l) (pre ++ kvs) db
    = Some (Ret (foldl (store_tx chainId (header_number header)) db l, Ok tt)).
Proof.
  intros Hroot Hf. induction 1 as [|[i tx] kv l kvs [_ Hp] Hl IH]; intros Hok pre db; [done|]. apply Forall_cons in Hok as [(Hi & Ht & H3) Hok].
  cbn [map write_new foldl fst snd] in *. destruct (Hp fuel Hf) as [c Hc].
  assert (slice_get (pre ++ kv :: kvs) (Z.of_nat (length pre)) = Ret kv) as Es.
  { apply slice_get_lookup. by rewrite lookup_app_r, Nat.sub_diag by done. }
  unfold mbind, WM_bind. rewrite Es. cbn [wlift]. rewrite (WriteTX3_ok fuel chainId header i kv tx c) by (done || by rewrite Hroot).
  specialize (IH Hok (pre ++ [kv]) (store_tx chainId (header_number header) db (i, tx))). rewrite length_app in IH. cbn [length] in IH.
  rewrite Nat.add_1_r, <- app_assoc in IH. exact IH.
Qed.

(** ** The keys *)
Lemma length_hash tx : length (hash_tx tx) = HashLength.
Proof. apply keccak_length. Qed.

Lemma tx3Key_inj c1 c2 h1 h2 : length h1 = length h2 -> tx3Key c1 h1 = tx3Key c2 h2 -> c1 = c2 /\ h1 = h2.
Proof. intros Hl E. unfold tx3Key in E. apply app_inv_head in E. by apply app_inj_2 in E. Qed.

Lemma tx3LookupKey_inj c1 c2 h1 h2 : length h1 = length h2 -> tx3LookupKey c1 h1 = tx3LookupKey c2 h2 -> c1 = c2 /\ h1 = h2.
Proof. intros Hl E. unfold tx3LookupKey in E. apply app_inv_head in E. by apply app_inj_2 in E. Qed.

Lemma tx3_keys_apart c1 c2 c3 h1 h2 n : tx3Key c1 h1 <> tx3LookupKey c2 h2 /\ tx3Key c1 h1 <> tx3ProofKey c3 n /\ tx3LookupKey c2 h2 <> tx3ProofKey c3 n.
Proof. split_and!; intros E; apply (f_equal head) in E; discriminate. Qed.

Lemma tx_lookup_apart c1 c2 h1 h2 : tx3Key c1 h1 <> tx3LookupKey c2 h2.
Proof. by apply (tx3_keys_apart c1 c2 c1 h1 h2 0). Qed.
Lemma tx_proof_apart c1 c2 h1 n : tx3Key c1 h1 <> tx3ProofKey c2 n.
Proof. by apply (tx3_keys_apart c1 c1 c2 h1 h1 n). Qed.
Lemma lookup_proof_apart c1 c2 h1 n : tx3LookupKey c1 h1 <> tx3ProofKey c2 n.
Proof. by apply (tx3_keys_apart c1 c1 c2 h1 h1 n). Qed.

Ltac apart := first [apply tx_lookup_apart|apply tx_proof_apart|apply lookup_proof_apart|apply not_eq_sym, tx_lookup_apart|apply not_eq_sym, tx_proof_apart|apply not_eq_sym, lookup_proof_apart].

(** ** The withdrawals of a block in the store *)

Definition pd_of (header : Blocks.Header) (l : list (nat * TxTypes.Transaction)) (kvs : list BSKeyValueSet) : TX3ProofData :=
  {| pd_Header := header; pd_TxIndexs := map (fun p => Z.of_nat (fst p)) l; pd_TxProofs := kvs |}.

(** What can be stored: transactions at different places with different hashes,
    one proof for each, within the bounds of the encoding. *)
Record storable (header : Blocks.Header) (l : list (nat * TxTypes.Transaction)) (kvs : list BSKeyValueSet) : Prop := {
  sb_header : header_typed header;
  sb_txs : Forall (fun p => Z.of_nat (fst p) < 2 ^ 64 /\ tx_ok (snd p) /\ hash_tx (snd p) <> zeroHash) l;
  sb_places : NoDup (map fst l);
  sb_hashes : NoDup (map (fun p => hash_tx (snd p)) l);
  sb_length : length l = length kvs;
  sb_kvs : Forall kv_bytes kvs;
  sb_size : pd_size (pd_of header l kvs) < 2 ^ 64 }.

Definition tx_stored (chainId : bytes) (number : Z) (db : TX3DB) (p : nat * TxTypes.Transaction) : Prop :=
  db !! tx3Key chainId (hash_tx (snd p)) = Some (tx_enc (tx_data (snd p)))
  /\ db !! tx3LookupKey chainId (hash_tx (snd p)) = Some (entry_enc number (Z.of_nat (fst p))).

Definition stored (chainId : bytes) (header : Blocks.Header) (l : list (nat * TxTypes.Transaction)) (kvs : list BSKeyValueSet) (db : TX3DB) : Prop :=
  (l <> [] -> db !! tx3ProofKey chainId (header_number header) = Some (proof_enc (pd_of header l kvs)))
  /\ Forall (tx_stored chainId (header_number header) db) l.

Lemma storable_typed header l kvs : storable header l kvs -> pd_typed (pd_of header l kvs) /\ Rlp.small (proof_enc (pd_of header l kvs)).
Proof.
  intros [Hh Ht _ _ _ Hk Hs]. assert (Forall is_uint64 (pd_TxIndexs (pd_of header l kvs))) as Hi.
  { apply Forall_fmap. eapply Forall_impl; [exact Ht|]. intros [i tx] [? _]. unfold is_uint64. cbn in *. lia. }
  split; [done|by apply small_proof].
Qed.

Lemma fold_store_other chainId number l : forall db k, (forall p, p ∈ l -> k <> tx3Key chainId (hash_tx (snd p)) /\ k <> tx3LookupKey chainId (hash_tx (snd p))) ->
  foldl (store_tx chainId number) db l !! k = db !! k.
Proof.
  induction l as [|p l IH]; intros db k Hk; [done|]. cbn [foldl]. rewrite IH by (intros q Hq; apply Hk; by right).
  destruct (Hk p ltac:(by left)) as [H1 H2]. unfold store_tx. by rewrite !lookup_insert_ne by done.
Qed.

Lemma fold_store_in chainId number l : forall db, NoDup (map (fun p => hash_tx (snd p)) l) ->
  Forall (tx_stored chainId number (foldl (store_tx chainId number) db l)) l.
Proof.
  induction l as [|p l IH]; intros db Hd; [constructor|]. cbn [map] in Hd. apply NoDup_cons in Hd as [Hn Hd]. constructor; [|by apply IH].
  cbn [foldl]. assert (forall q, q ∈ l -> hash_tx (snd p) <> hash_tx (snd q)) as Hq.
  { intros q Hq E. apply Hn, list_elem_of_fmap. by exists q. }
  split; rewrite fold_store_other.
  - unfold store_tx. rewrite lookup_insert_ne by apart. by rewrite lookup_insert_eq.
  - intros q Hin. split; [|apart]. intros [_ E]%tx3Key_inj; [by apply (Hq q)|by rewrite !length_hash].
  - unfold store_tx. by rewrite lookup_insert_eq.
  - intros q Hin. split; [apart|]. intros [_ E]%tx3LookupKey_inj; [by apply (Hq q)|by rewrite !length_hash].
Qed.

Lemma written_stored chainId header l kvs db : storable header l kvs ->
  stored chainId header l kvs (foldl (store_tx chainId (header_number header)) (<[tx3ProofKey chainId (header_number header) := proof_enc (pd_of header l kvs)]> db) l).
Proof.
  intros H. split; [|by apply fold_store_in, H]. intros _. rewrite fold_store_other; [by rewrite lookup_insert_eq|].
  intros p _. split; apart.
Qed.

(** ** Reading *)
Lemma entry_enc_cons number i : exists x b, entry_enc number i = x :: b.
Proof. pose proof (rlist_nonnil (renc_fields (FCons no_tags (TUint 64) (FCons no_tags (TUint 64) FNil)) (number, (i, tt)))) as H.
  unfold entry_enc, entry_type. cbn [renc]. destruct (rlist _) as [|x b]; [done|by exists x, b]. Qed.

Lemma GetTX3_stored chainId number db p : tx_ok (snd p) -> tx_stored chainId number db p ->
  GetTX3 db chainId (hash_tx (snd p)) = Some (fresh_tx (snd p)).
Proof.
  intros Ht [E _]. unfold GetTX3, fresh_tx. rewrite E. cbn [default from_option id]. pose proof (tx_enc_nonnil (tx_data (snd p))) as Hn.
  rewrite <- (decodeTx_ok (tx_data (snd p))) by (apply Ht || by apply tx_ok_small). by destruct (tx_enc (tx_data (snd p))).
Qed.

Lemma GetTX3LookupEntry_stored chainId number db p : is_uint64 number -> Z.of_nat (fst p) < 2 ^ 64 -> tx_stored chainId number db p ->
  GetTX3LookupEntry db chainId (hash_tx (snd p)) = (hash_tx (snd p), number, Z.of_nat (fst p)).
Proof.
  intros Hn Hi [_ E]. unfold GetTX3LookupEntry. rewrite E. cbn [default from_option id].
  pose proof (decode_entry number (Z.of_nat (fst p)) Hn ltac:(unfold is_uint64; lia)) as Hd.
  destruct (entry_enc_cons number (Z.of_nat (fst p))) as (x & b & Eb). rewrite Eb in *. by rewrite Hd.
Qed.

Lemma find_index_places (l : list (nat * TxTypes.Transaction)) j p : NoDup (map fst l) -> l !! j = Some p -> find_index (Z.of_nat (fst p)) (map (fun p => Z.of_nat (fst p)) l) = Some j.
Proof.
  intros Hd Hj. unfold find_index. assert (list_find (fun i => i = Z.of_nat (fst p)) (map (fun p => Z.of_nat (fst p)) l) = Some (j, Z.of_nat (fst p))) as ->; [|done].
  apply list_find_Some. split_and!; [by rewrite list_lookup_fmap, Hj|done|]. intros i z Hi Hlt ->.
  rewrite list_lookup_fmap in Hi. destruct (l !! i) as [q|] eqn:Eq; [|done]. cbn in Hi. injection Hi as Hi. apply Nat2Z.inj in Hi.
  assert (i = j); [|lia]. eapply (NoDup_lookup (map fst l)); [done|rewrite list_lookup_fmap, Eq; reflexivity|rewrite list_lookup_fmap, Hj; cbn; by rewrite Hi].
Qed.

Lemma GetTX3ProofData_stored chainId header l kvs db j p kv : storable header l kvs -> stored chainId header l kvs db ->
  l !! j = Some p -> kvs !! j = Some kv ->
  GetTX3ProofData db chainId (hash_tx (snd p)) = Ret (Some (pd_of header [p] [kv])).
Proof.
  intros Hs [Hp Ht] Hj Hk. pose proof (list_elem_of_lookup_2 _ _ _ Hj) as Hin. destruct (storable_typed _ _ _ Hs) as [Hty Hsm].
  pose proof Hs as [_ Htx Hpl _ _ _ _]. rewrite Forall_forall in Htx, Ht. destruct (Htx _ Hin) as (Hi & _ & Hz).
  unfold GetTX3ProofData. rewrite (GetTX3LookupEntry_stored _ _ _ _ (header_number_uint64 header) Hi (Ht _ Hin)).
  rewrite bool_decide_false by done. rewrite Hp by (by intros ->). cbn [default from_option id].
  pose proof (decode_proof _ Hty Hsm) as Hd. pose proof (proof_enc_nonnil (pd_of header l kvs)) as Hn.
  destruct (proof_enc (pd_of header l kvs)) as [|x b]; [done|]. rewrite Hd, proof_of_value. cbn [pd_of pd_TxIndexs pd_TxProofs pd_Header].
  rewrite (find_index_places l j p) by done.
  rewrite (slice_get_lookup _ j (Z.of_nat (fst p))), outcome_bind_Ret by (by rewrite list_lookup_fmap, Hj).
  by rewrite (slice_get_lookup _ j kv), outcome_bind_Ret.
Qed.

(** ** Deleting *)
Definition remove_at {A} (j : nat) (l : list A) : list A := take j l ++ drop (S j) l.

Lemma remove_at_perm {A} j (l : list A) x : l !! j = Some x -> l ≡ₚ x :: remove_at j l.
Proof.
  intros H. unfold remove_at. rewrite <- (take_drop_middle l j x H) at 1. by rewrite Permutation_middle.
Qed.

Lemma sum_of_perm {A} (f : A -> Z) l1 l2 : l1 ≡ₚ l2 -> sum_of f l1 = sum_of f l2.
Proof. unfold sum_of. induction 1; cbn [foldr]; lia. Qed.

Lemma map_remove_at {A B} (f : A -> B) j l : map f (remove_at j l) = remove_at j (map f l).
Proof. unfold remove_at. by rewrite fmap_app, fmap_take, fmap_drop. Qed.

Lemma length_remove_at {A} j (l : list A) x : l !! j = Some x -> length l = S (length (remove_at j l)).
Proof. intros H. by rewrite (remove_at_perm j l x H) at 1. Qed.

Lemma sum_of_nonneg {A} (f : A -> Z) l : (forall x, 0 <= f x) -> 0 <= sum_of f l.
Proof. intros H. unfold sum_of. induction l as [|x l IH]; cbn [foldr]; [lia|]. specialize (H x). lia. Qed.

Lemma storable_remove header l kvs j p kv : storable header l kvs -> l !! j = Some p -> kvs !! j = Some kv ->
  storable header (remove_at j l) (remove_at j kvs) /\ forall q, q ∈ remove_at j l -> q ∈ l /\ hash_tx (snd q) <> hash_tx (snd p).
Proof.
  intros [Hh Ht Hp Hd Hl Hk Hs] Hj Hkv. pose proof (remove_at_perm j l p Hj) as Pl. pose proof (remove_at_perm j kvs kv Hkv) as Pk.
  assert (NoDup (fst p :: map fst (remove_at j l))) as Hp' by (change (NoDup (map fst (p :: remove_at j l))); by rewrite <- Pl).
  assert (NoDup (hash_tx (snd p) :: map (fun p => hash_tx (snd p)) (remove_at j l))) as Hd'
    by (change (NoDup (map (fun p => hash_tx (snd p)) (p :: remove_at j l))); by rewrite <- Pl).
  apply NoDup_cons in Hp' as [_ Hp'], Hd' as [Hn Hd']. rewrite Pl in Ht. rewrite Pk in Hk. apply Forall_cons in Ht as [_ Ht], Hk as [_ Hk].
  split.
  - constructor; try done.
    + apply length_remove_at in Hj, Hkv. lia.
    + unfold pd_size in *. cbn [pd_of pd_Header pd_TxIndexs pd_TxProofs] in *. rewrite length_map in *.
      apply length_remove_at in Hj. rewrite (sum_of_perm _ _ _ Pk) in Hs. change (sum_of kv_size (kv :: remove_at j kvs)) with (kv_size kv + sum_of kv_size (remove_at j kvs)) in Hs.
      unfold kv_size at 1 in Hs. lia.
  - intros q Hq. split; [rewrite Pl; by right|]. intros E. apply Hn, list_elem_of_fmap. by exists q.
Qed.

Lemma DeleteTX3_stored chainId header l kvs db j p kv : storable header l kvs -> stored chainId header l kvs db ->
  l !! j = Some p -> kvs !! j = Some kv ->
  exists db', DeleteTX3 db chainId (hash_tx (snd p)) = Ret db' /\ stored chainId header (remove_at j l) (remove_at j kvs) db'
    /\ GetTX3 db' chainId (hash_tx (snd p)) = None /\ GetTX3ProofData db' chainId (hash_tx (snd p)) = Ret None.
Proof.
  intros Hs Hst Hj Hk. pose proof Hst as [Hp Ht]. pose proof (list_elem_of_lookup_2 _ _ _ Hj) as Hin. destruct (storable_typed _ _ _ Hs) as [Hty Hsm].
  pose proof Hs as [_ Htx Hpl _ _ _ _]. rewrite Forall_forall in Htx, Ht. destruct (Htx _ Hin) as (Hi & _ & Hz).
  destruct (storable_remove header l kvs j p kv Hs Hj Hk) as [Hs' Hother]. destruct (storable_typed _ _ _ Hs') as [Hty' Hsm'].
  pose proof (GetTX3LookupEntry_stored _ _ _ _ (header_number_uint64 header) Hi (Ht _ Hin)) as He.
  set (h := hash_tx (snd p)) in *. set (n := header_number header) in *.
  set (db0 := delete (tx3LookupKey chainId h) (delete (tx3Key chainId h) db)).
  set (db' := match remove_at j l with [] => delete (tx3ProofKey chainId n) db0 | _ => <[tx3ProofKey chainId n := proof_enc (pd_of header (remove_at j l) (remove_at j kvs))]> db0 end).
  assert (forall k, k <> tx3ProofKey chainId n -> db' !! k = db0 !! k) as Hother'.
  { intros k Hk'. unfold db'. destruct (remove_at j l); [by rewrite lookup_delete_ne|by rewrite lookup_insert_ne]. }
  assert (db' !! tx3Key chainId h = None /\ db' !! tx3LookupKey chainId h = None) as [G1 G2].
  { rewrite !Hother' by apart. unfold db0. rewrite lookup_delete_eq, lookup_delete_ne, lookup_delete_eq by apart. done. }
  exists db'. split_and!.
  - unfold DeleteTX3. rewrite He. cbv beta zeta iota.
    rewrite bool_decide_false by done. fold db0. assert (db0 !! tx3ProofKey chainId n = Some (proof_enc (pd_of header l kvs))) as ->.
    { unfold db0. rewrite !lookup_delete_ne by apart. apply Hp. by intros ->. }
    cbn [default from_option id]. pose proof (decode_proof _ Hty Hsm) as Hd. pose proof (proof_enc_nonnil (pd_of header l kvs)) as Hn.
    destruct (proof_enc (pd_of header l kvs)) as [|x b]; [done|]. rewrite Hd, proof_of_value. cbn [pd_of pd_TxIndexs pd_TxProofs pd_Header].
    rewrite (find_index_places l j p) by done. pose proof (lookup_lt_Some _ _ _ Hk). rewrite (proj2 (Nat.ltb_ge _ _)) by lia.
    fold (remove_at j (map (fun p => Z.of_nat (fst p)) l)). fold (remove_at j kvs). rewrite <- map_remove_at.
    fold (pd_of header (remove_at j l) (remove_at j kvs)). unfold db'. destruct (remove_at j l) as [|q l'] eqn:El; [done|].
    cbn [map]. rewrite encode_proof by done. done.
  - split.
    + intros Hne. unfold db'. destruct (remove_at j l) eqn:El; [done|]. by rewrite lookup_insert_eq.
    + apply Forall_forall. intros q Hq. destruct (Hother q Hq) as [Hq' Hne]. destruct (Ht q Hq') as [T1 T2]. split.
      * rewrite Hother' by apart. unfold db0. rewrite (lookup_delete_ne _ (tx3LookupKey _ _)) by apart.
        rewrite lookup_delete_ne; [done|]. intros [_ E]%tx3Key_inj; [by apply Hne|unfold h; by rewrite !length_hash].
      * rewrite Hother' by apart. unfold db0. rewrite lookup_delete_ne; [|intros [_ E]%tx3LookupKey_inj; [by apply Hne|unfold h; by rewrite !length_hash]].
        by rewrite lookup_delete_ne by apart.
  - unfold GetTX3. by rewrite G1.
  - unfold GetTX3ProofData, GetTX3LookupEntry. rewrite G2. done.
Qed.
(** ** Writing the proofs of a new block *)
Section NewBlock.
Context `{BitArrayLib} `{!NodeLib} `{!BlockCodec}.

Lemma WriteTX3ProofData_new fuel te header root h l kvs db : ExtractTendermintExtra (hd_Extra header) = Some te -> side_chain_id (te_ChainID te) = true ->
  hd_TxHash header = root -> (h < fuel)%nat -> Forall2 (fun p kv => proves root h (fst p) (snd p) kv) l kvs ->
  Forall (fun p => is_tx3 (snd p) = true) l -> storable header l kvs -> db !! tx3ProofKey (str_bytes (te_ChainID te)) (header_number header) = None ->
  exists db', WriteTX3ProofData fuel (pd_of header l kvs) db = Some (Ret (db', Ok tt)) /\ stored (str_bytes (te_ChainID te)) header l kvs db'.
Proof.
  intros Ex Hside Hroot Hf Hp H3 Hs Hdb. eexists. split; [|by apply written_stored]. destruct (storable_typed _ _ _ Hs) as [Hty Hsm].
  unfold WriteTX3ProofData. cbn [pd_of pd_Header pd_TxIndexs pd_TxProofs]. rewrite Ex, Hside. cbn [negb]. fold (header_number header).
  unfold mbind, WM_bind, wget. rewrite Hdb. cbn [default from_option]. fold (pd_of header l kvs). rewrite encode_proof by done. cbn [wlift wput].
  refine (write_new_ok fuel _ header root h Hroot Hf l kvs Hp _ [] _).
  pose proof (sb_txs _ _ _ Hs) as Ht. rewrite Forall_forall in *. intros p Hin. destruct (Ht p Hin) as (? & ? & _). split_and!; [done..|by apply H3].
Qed.

End NewBlock.
End StoreLaws.
