(* ===== verification/CrossChain.v ===== *)
(** * The checks between chains

    What the main chain checks of a side chain (chain/ligochain/cross_chain.go):
    the headers that side chains send (VerifySideChainProofData,
    SaveSideChainProofDataToMainChain), the proofs of withdrawals
    (ValidateTX3ProofData) and the transaction on the main chain that pays a
    withdrawal out (ValidateTX4WithInMemTX3ProofData).

    Shown: a withdrawal in a block of a side chain goes all the way, from its
    block over proof, checks and store to its payment, once; and the checks do not
    tie the transactions to what the validators signed. *)
From S2P Require Import Prelude Rlp RlpDecode RlpInput BitArray TmTypes ValidatorSet PartSet Epoch ConsensusState ConsensusTheorems.
From S2P Require Import StateData StateDB Receipts ChainConfig PendingOps SideChains Delegation Transaction.
From S2P Require Import TrieCodec Trie TrieTree TrieMap TrieStore TrieDecode TrieCommit TrieDisk TrieSpec TrieTheorems TrieProof TxTypes Blocks Sha3 Abi ChainAbi Tx3.
Local Open Scope Z_scope.

Section CrossChain.
Context {K : KeccakLib} {AB : AbiLib} {SL : SecpLib} {AD : AddrLib}.
Context `{BA : BitArrayLib} `{C : CryptoLib} `{W : WireLib} `{NL : !NodeLib} `{BC : !BlockCodec}.
Context {TL : TrieLib} `{EC : EpochCodec} `{IC : ChainInfoCodec}.

(** The checks of a header, the same in both places. *)
Definition checkHeader (header : Blocks.Header) : TM unit :=
  if negb (bool_decide (hd_Nonce header = TendermintEmptyNonce)) && negb (bool_decide (hd_Nonce header = TendermintNonce)) then raise "invalid nonce"
  else if negb (bool_decide (hd_MixDigest header = TendermintDigest)) then raise "invalid mix digest"
  else
    nilUncleHash ← liftT (CalcUncleHash []);
    if negb (bool_decide (hd_UncleHash header = nilUncleHash)) then raise "invalid uncle Hash"
    else if negb (hd_Difficulty header =? TendermintDefaultDifficulty) then raise "invalid difficulty"
    else mret tt.

(** Whether the data of an epoch is that of epoch 0. *)
Definition firstEpoch (epochBytes : bytes) : bool :=
  match FromBytes epochBytes with Some ep => ep_Number ep =? 0 | None => false end.

(** The signatures of the validators of the epoch. *)
Definition checkCommit (infoDB : InfoDB) (ncExtra : TendermintExtra) : TM unit :=
  ci ← liftT (GetChainInfo infoDB (str_bytes (te_ChainID ncExtra)));
  match ci with
  | None => raise "chain info not found"
  | Some ci =>
    match ChainInfo_GetEpochByBlockNumber infoDB ci (te_Height ncExtra) with
    | None => raise "could not get epoch for block height"
    | Some epoch =>
      let valSet := ep_Validators epoch in
      if negb (bool_decide (ValidatorSet_Hash valSet = te_ValidatorsHash ncExtra)) then raise "inconsistent validator set"
      else
        seenCommit ← liftT (ConsensusState.deref (te_SeenCommit ncExtra));
        if negb (bool_decide (te_SeenCommitHash ncExtra = SimpleHashFromBinary seenCommit)) then raise "invalid committed seals"
        else ValidatorSet_VerifyCommit valSet (te_ChainID ncExtra) (te_Height ncExtra) (Some seenCommit)
    end
  end.

(** ** The headers of side chains *)
Definition sideproof_type : rtype := TStruct (FCons no_tags (TPtr header_type) FNil).

Definition decodeSideHeader (bs : bytes) : result string Blocks.Header :=
  match DecodeBytes sideproof_type bs with
  | Err _ => Err "rlp"%string
  | Ok v => Ok (header_of (default (zero header_type) (fst v)))
  end.

Definition VerifySideChainProofData (infoDB : InfoDB) (bs : bytes) : TM unit :=
  header ← (Ret (decodeSideHeader bs) : TM Blocks.Header);
  match ExtractTendermintExtra (hd_Extra header) with
  | None => raise "wire"
  | Some ncExtra =>
    if negb (side_chain_id (te_ChainID ncExtra)) then raise "invalid side chain id"
    else
      checkHeader header;;
      if firstEpoch (te_EpochBytes ncExtra) then mret tt
      else if negb (String.eqb (te_ChainID ncExtra) "side_0") then checkCommit infoDB ncExtra
      else mret tt
  end.

(** [None]: the code waits, asking again every three seconds, until the chain is
    known. *)
Definition SaveSideChainProofDataToMainChain (infoDB : InfoDB) (bs : bytes) : option (TM InfoDB) :=
  match decodeSideHeader bs with
  | Err e => Some (raise e)
  | Ok header =>
    match ExtractTendermintExtra (hd_Extra header) with
    | None => Some (raise "wire")
    | Some ncExtra =>
      let chainId := str_bytes (te_ChainID ncExtra) in
      if negb (side_chain_id (te_ChainID ncExtra)) then Some (raise "invalid side chain id")
      else
        match FromBytes (te_EpochBytes ncExtra) with
        | None => Some (mret infoDB)
        | Some ep =>
          match GetChainInfo infoDB chainId with
          | Panic s => Some (Panic s)
          | Ret None => None
          | Ret (Some ci) =>
            Some (mret (
              if (cci_EpochNumber (ci_Core ci) <? ep_Number ep) && (te_Height ncExtra <? ep_StartBlock ep) then SaveFutureEpoch infoDB ep chainId
              else if (ep_Number ep =? 0) || (cci_EpochNumber (ci_Core ci) <=? ep_Number ep) then
                SaveChainInfo infoDB {| ci_Core := cci_with_epoch (ci_Core ci) (ep_Number ep); ci_Epoch := Some ep |}
              else infoDB))
          end
        end
    end
  end.

(** ** Proofs of withdrawals *)
Section Proofs.
Context (fuel : nat).

(** A proof is verified; the value it proves is not used. *)
Fixpoint verifyProofs (root : bytes) (i : nat) (indexs : list Z) (proofs : list BSKeyValueSet) : option (TM unit) :=
  match indexs with
  | [] => Some (mret tt)
  | txIndex :: indexs =>
    match index_key txIndex, slice_get proofs (Z.of_nat i) with
    | Panic s, _ | _, Panic s => Some (Panic s)
    | Ret key, Ret proof =>
      match VerifyProof fuel root key proof with
      | Some (Ret (Ok _)) => verifyProofs root (S i) indexs proofs
      | Some (Ret (Err e)) => Some (raise e)
      | Some (Panic s) => Some (Panic s)
      | None => None
      end
    end
  end.

Definition ValidateTX3ProofData (infoDB : InfoDB) (proofData : TX3ProofData) : option (TM unit) :=
  let header := pd_Header proofData in
  match ExtractTendermintExtra (hd_Extra header) with
  | None => Some (raise "wire")
  | Some ncExtra =>
    if negb (side_chain_id (te_ChainID ncExtra)) then Some (raise "invalid side chain id")
    else
      match checkHeader header with
      | Ret (Ok _) =>
        if firstEpoch (te_EpochBytes ncExtra) then Some (mret tt)
        else
          match checkCommit infoDB ncExtra with
          | Ret (Ok _) => verifyProofs (hd_TxHash header) 0 (pd_TxIndexs proofData) (pd_TxProofs proofData)
          | r => Some r
          end
      | r => Some r
      end
  end.

(** [data[4:]] *)
Definition inputs (data : bytes) : outcome bytes :=
  if (length data <? 4)%nat then Panic "slice bounds out of range" else Ret (drop 4 data).

Definition ErrInvalidSender : string := "invalid sender".

Definition senderOf (tx : TxTypes.Transaction) : TM bytes :=
  r ← liftT (TxTypes.Sender (NewEIP155Signer (Some (tx_ChainId tx))) tx);
  match fst r with Ok a => mret a | Err _ => raise ErrInvalidSender end.

(** The value that the first proof gives. *)
Definition firstProof (proofData : TX3ProofData) : option (TM bytes) :=
  match (index ← slice_get (pd_TxIndexs proofData) 0; key ← index_key index; proof ← slice_get (pd_TxProofs proofData) 0; Ret (key, proof)) with
  | Panic s => Some (Panic s)
  | Ret (key, proof) =>
    match VerifyProof fuel (hd_TxHash (pd_Header proofData)) key proof with
    | None => None
    | Some (Panic s) => Some (Panic s)
    | Some (Ret (Err e)) => Some (raise e)
    | Some (Ret (Ok (v, _))) => Some (mret v)
    end
  end.

(** The arguments of the withdrawal on the main chain. *)
Definition tx4Args (tx4 : TxTypes.Transaction) : TM (bytes * (bytes * (Z * (bytes * unit)))) :=
  from ← senderOf tx4;
  if negb (IsLigoChainContractAddr (td_Recipient (tx_data tx4))) then raise "invalid TX4: wrong To()"
  else
    sel ← liftT (selector (td_Payload (tx_data tx4)));
    function ← (Ret (Transaction.FunctionTypeFromId sel) : TM Transaction.FunctionType);
    if negb (bool_decide (function = fnWithdrawFromMainChain)) then raise "invalid TX4: wrong function"
    else
      data ← liftT (inputs (td_Payload (tx_data tx4)));
      args ← UnpackMethodInputs mWithdrawFromMainChain data;
      mret (from, args).

Definition tx3Args (tx3 : TxTypes.Transaction) : TM (bytes * (bytes * unit)) :=
  tx3From ← senderOf tx3;
  data ← liftT (inputs (td_Payload (tx_data tx3)));
  args ← UnpackMethodInputs mWithdrawFromSideChain data;
  mret (tx3From, args).

Definition ValidateTX4WithInMemTX3ProofData (tx4 : TxTypes.Transaction) (tx3ProofData : TX3ProofData) : option (TM unit) :=
  match tx4Args tx4 with
  | Ret (Ok (from, (chainId, (amount, _)))) =>
    match firstProof tx3ProofData with
    | Some (Ret (Ok val)) =>
      Some (tx3 ← (Ret (match DecodeBytes_tx val with Ok tx3 => Ok tx3 | Err _ => Err "rlp"%string end) : TM TxTypes.Transaction);
            a ← tx3Args tx3;
            let '(tx3From, (tx3ChainId, _)) := a in
            if negb (bool_decide (from = tx3From)) || negb (bool_decide (chainId = tx3ChainId)) || negb (amount =? td_Amount (tx_data tx3))
            then raise "params are not consistent with tx in side chain"
            else mret tt)
    | Some (Ret (Err e)) => Some (raise e)
    | Some (Panic s) => Some (Panic s)
    | None => None
    end
  | Ret (Err e) => Some (raise e)
  | Panic s => Some (Panic s)
  end.

End Proofs.
End CrossChain.

(** ** What is accepted *)
Section Laws.
Context {K : KeccakLib} {KL : KeccakLaws K} {AB : AbiLib} {SL : SecpLib} {AD : AddrLib}.
Context `{BA : BitArrayLib} `{C : CryptoLib} `{W : WireLib} `{NL : !NodeLib} `{BC : !BlockCodec}.
Context {TL : TrieLib} `{EC : EpochCodec} `{IC : ChainInfoCodec}.

(** A header of a side chain that passes the checks that do not look at the
    transactions. *)
Record accepted (infoDB : InfoDB) (header : Blocks.Header) (te : TendermintExtra) : Prop := {
  ac_extra : ExtractTendermintExtra (hd_Extra header) = Some te;
  ac_side : side_chain_id (te_ChainID te) = true;
  ac_header : checkHeader header = Ret (Ok tt);
  ac_commit : firstEpoch (te_EpochBytes te) = true \/ checkCommit infoDB te = Ret (Ok tt) }.

Lemma verifyProofs_ok fuel root h l kvs : (h < fuel)%nat -> Forall2 (fun p kv => proves root h (fst p) (snd p) kv) l kvs ->
  Forall (fun p : nat * TxTypes.Transaction => Z.of_nat (fst p) < 2 ^ 64) l ->
  forall pre, verifyProofs fuel root (length pre) (map (fun p => Z.of_nat (fst p)) l) (pre ++ kvs) = Some (Ret (Ok tt)).
Proof.
  intros Hf. induction 1 as [|[i tx] kv l kvs [_ Hp] Hl IH]; intros Hok pre; [done|]. apply Forall_cons in Hok as [Hi Hok].
  cbn [map verifyProofs fst snd] in *. destruct (Hp fuel Hf) as [c Hc]. rewrite index_key_ok by lia.
  rewrite (slice_get_lookup _ _ kv), Hc by (by rewrite lookup_app_r, Nat.sub_diag by done).
  specialize (IH Hok (pre ++ [kv])). rewrite length_app in IH. cbn [length] in IH. by rewrite Nat.add_1_r, <- app_assoc in IH.
Qed.

Lemma ValidateTX3ProofData_ok fuel infoDB header te root h l kvs : accepted infoDB header te -> hd_TxHash header = root -> (h < fuel)%nat ->
  Forall2 (fun p kv => proves root h (fst p) (snd p) kv) l kvs -> Forall (fun p : nat * TxTypes.Transaction => Z.of_nat (fst p) < 2 ^ 64) l ->
  ValidateTX3ProofData fuel infoDB (pd_of header l kvs) = Some (Ret (Ok tt)).
Proof.
  intros [Ex Hs Hh Hc] Hr Hf Hp Hl. unfold ValidateTX3ProofData. cbn [pd_of pd_Header pd_TxIndexs pd_TxProofs]. rewrite Ex, Hs, Hh. cbn [negb].
  destruct (firstEpoch (te_EpochBytes te)); [done|]. destruct Hc as [?|Hc]; [done|]. rewrite Hc, Hr. by apply (verifyProofs_ok fuel root h l kvs Hf Hp Hl []).
Qed.

Lemma firstProof_ok fuel header root h p kv : hd_TxHash header = root -> (h < fuel)%nat -> Z.of_nat (fst p) < 2 ^ 64 ->
  proves root h (fst p) (snd p) kv -> firstProof fuel (pd_of header [p] [kv]) = Some (Ret (Ok (tx_enc (tx_data (snd p))))).
Proof.
  intros Hr Hf Hi [_ Hp]. destruct (Hp fuel Hf) as [c Hc]. unfold firstProof. cbn [pd_of pd_Header pd_TxIndexs pd_TxProofs map].
  assert (forall A (x : A), slice_get [x] 0 = Ret x) as Hx by done. rewrite !Hx, outcome_bind_Ret, index_key_ok, !outcome_bind_Ret by lia.
  rewrite Hr, Hc. done.
Qed.

Lemma ValidateTX4_ok fuel header root h p kv tx4 from chainId hash : hd_TxHash header = root -> (h < fuel)%nat -> Z.of_nat (fst p) < 2 ^ 64 ->
  proves root h (fst p) (snd p) kv -> tx_ok (snd p) -> tx4Args tx4 = Ret (Ok (from, (chainId, (td_Amount (tx_data (snd p)), (hash, tt))))) ->
  tx3Args (fresh_tx (snd p)) = Ret (Ok (from, (chainId, tt))) -> ValidateTX4WithInMemTX3ProofData fuel tx4 (pd_of header [p] [kv]) = Some (Ret (Ok tt)).
Proof.
  intros Hr Hf Hi Hp Ht H4 H3. unfold ValidateTX4WithInMemTX3ProofData. rewrite H4, (firstProof_ok fuel header root h) by done.
  rewrite DecodeBytes_tx_enc by (apply Ht || by apply tx_ok_small). rewrite TM_ret_bind. unfold fresh_tx in H3. rewrite (TM_bind_Ok _ _ _ H3).
  rewrite !bool_decide_true, Z.eqb_refl by done. done.
Qed.

(** A block whose withdrawals can be proved and stored. *)
Record side_block (b : Blocks.Block) : Prop := {
  sbk_header : header_typed (b_header b);
  sbk_txs : txs_ok (b_transactions b);
  sbk_calls : calls_ok (b_transactions b);
  sbk_cf : collision_free (in_play [items (tx_encs (b_transactions b))]);
  sbk_root : hd_TxHash (b_header b) = root_of (items (tx_encs (b_transactions b)));
  sbk_hashes : NoDup (map (fun p => hash_tx (snd p)) (withdrawals 0 (b_transactions b)));
  sbk_zero : Forall (fun p => hash_tx (snd p) <> zeroHash) (withdrawals 0 (b_transactions b)) }.

Abbreviation l3 b := (withdrawals 0 (b_transactions b)).

Lemma NoDup_withdrawals txs : forall i, NoDup (map fst (withdrawals i txs)).
Proof.
  induction txs as [|tx txs IH]; intros i; cbn [withdrawals]; [constructor|]. destruct (is_tx3 tx); [|apply IH]. cbn [app map]. apply NoDup_cons. split; [|apply IH].
  intros ([j tx'] & E & Hj)%list_elem_of_fmap. apply elem_of_withdrawals in Hj as [? _]. cbn in E. lia.
Qed.

Lemma withdrawals_ok b p : side_block b -> p ∈ l3 b -> Z.of_nat (fst p) < 2 ^ 64 /\ tx_ok (snd p) /\ is_tx3 (snd p) = true.
Proof.
  destruct p as [i tx]. intros Hb (_ & Hi & H3)%elem_of_withdrawals. destruct (sbk_txs b Hb) as [Ht Hl]. rewrite Nat.sub_0_r in Hi. cbn [fst snd].
  pose proof (lookup_lt_Some _ _ _ Hi). split_and!; [lia| |done]. by eapply Forall_lookup_1.
Qed.

(** The proof data of a block, with what storing needs. *)
Lemma side_block_proofs b pd : side_block b -> NewTX3ProofData b = Ret (Ok pd) -> pd_size pd < 2 ^ 64 ->
  exists kvs, pd = pd_of (b_header b) (l3 b) kvs /\ storable (b_header b) (l3 b) kvs /\
    Forall2 (fun p kv => proves (hd_TxHash (b_header b)) (height (tree_of (items (tx_encs (b_transactions b))))) (fst p) (snd p) kv) (l3 b) kvs.
Proof.
  intros Hb Epd Hs. pose proof Hb as [Hh Ht Hc CF Hr Hd Hz]. destruct (NewTX3ProofData_ok b Ht Hc CF) as (kvs & E & Hk). rewrite <- Hr in Hk.
  rewrite E in Epd. injection Epd as <-. exists kvs. split_and!; [done| |done]. constructor; try done.
  - rewrite Forall_forall in *. intros p Hp. destruct (withdrawals_ok b p Hb Hp) as (? & ? & _). split_and!; [done..|by apply Hz].
  - apply NoDup_withdrawals.
  - by eapply Forall2_length.
  - clear -Hk. induction Hk as [|p kv l kvs [H _] _ IH]; by constructor.
Qed.


(** ** What is not tied to the signatures *)
Definition set_TxHash (h : Blocks.Header) (root : bytes) : Blocks.Header :=
  set_roots h (hd_UncleHash h) root (hd_ReceiptHash h) (hd_Bloom h).

Lemma accepted_TxHash infoDB header te root : accepted infoDB header te -> accepted infoDB (set_TxHash header root) te.
Proof. by intros []. Qed.

(** C13: The checks of proof data do not tie the transactions to what the validators
    signed: in any accepted header the root of the transactions can be replaced by
    that of any list of transactions, and the proofs of all withdrawals in that list
    are accepted. *)
Theorem forged_withdrawals_accepted infoDB header te txs : accepted infoDB header te -> txs_ok txs -> calls_ok txs ->
  collision_free (in_play [items (tx_encs txs)]) ->
  exists root pd n, DeriveSha_txs txs = Ret root /\
    NewTX3ProofData {| b_header := set_TxHash header root; b_uncles := []; b_transactions := txs |} = Ret (Ok pd) /\
    pd_TxIndexs pd = map (fun p => Z.of_nat (fst p)) (withdrawals 0 txs) /\
    forall fuel, (n < fuel)%nat -> ValidateTX3ProofData fuel infoDB pd = Some (Ret (Ok tt)).
Proof.
  intros Ha Ht Hc CF. set (root := root_of (items (tx_encs txs))). set (b := {| b_header := set_TxHash header root; b_uncles := []; b_transactions := txs |}).
  destruct (NewTX3ProofData_ok b Ht Hc CF) as (kvs & E & Hk).
  exists root, (pd_of (set_TxHash header root) (withdrawals 0 txs) kvs), (height (tree_of (items (tx_encs txs)))).
  split_and!; [by apply DeriveSha_txs_ok|done|done|]. intros fuel Hf.
  apply (ValidateTX3ProofData_ok fuel infoDB _ te _ _ _ _ (accepted_TxHash _ _ _ _ Ha) eq_refl Hf Hk).
  apply Forall_forall. intros [i tx] (_ & Hi & _)%elem_of_withdrawals. rewrite Nat.sub_0_r in Hi. apply lookup_lt_Some in Hi. destruct Ht as [_ Hl].
  change (b_transactions b) with txs in Hi. cbn [fst]. lia.
Qed.

(** The seals of a header without a commit: the check dereferences nil. *)
Lemma missing_commit_panics infoDB ci ep te : GetChainInfo infoDB (str_bytes (te_ChainID te)) = Ret (Some ci) ->
  ChainInfo_GetEpochByBlockNumber infoDB ci (te_Height te) = Some ep -> ValidatorSet_Hash (ep_Validators ep) = te_ValidatorsHash te ->
  te_SeenCommit te = None -> checkCommit infoDB te = Panic "nil pointer dereference".
Proof. intros E1 E2 E3 E4. unfold checkCommit. rewrite E1, liftT_Ret_bind, E2, E3, bool_decide_true, E4 by done. done. Qed.

End Laws.

(** ** A withdrawal of 500 on a side chain with three validators *)
Module CrossChainExamples.
Import ListBitArray ToyLibs ValidatorSetExamples EpochExamples SideChainsExamples TxExamples ConsensusExamples.

(** Two methods. *)
#[export] Instance ex_abi : AbiLib := {|
  MethodById sel := if bool_decide (sel = [0; 0; 0; 4]) then Ok "WithdrawFromSideChain"%string
                    else if bool_decide (sel = [0; 0; 0; 5]) then Ok "WithdrawFromMainChain"%string else Err "no method"%string;
  AsMessage _ := Err "not used"%string |}.

Definition ex_extra : TendermintExtra :=
  {| te_ChainID := "ligo"; te_Height := 9; te_Time := 7; te_NeedToSave := false; te_NeedToBroadcast := false; te_EpochNumber := 0;
     te_SeenCommitHash := SimpleHashFromBinary (ex_commit 5 0); te_ValidatorsHash := ValidatorSet_Hash ex_vals;
     te_SeenCommit := Some (ex_commit 5 0); te_EpochBytes := [] |}.

#[export] Instance ex_extras : BlockCodec := {|
  wire_BinaryBytes_tmp b te tx3 := [];
  wire_ReadBinary_tmp d := None;
  rlp_EncodeToBytes b := [];
  rlp_DecodeBytes d := None;
  wire_ReadBinary_extra d := if bool_decide (d = [1]) then Some ex_extra else None |}.

Definition ex_side_epoch : Epoch :=
  {| ep_Number := 0; ep_RewardPerBlock := 1; ep_StartBlock := 0; ep_EndBlock := 99; ep_StartTime := 0; ep_EndTime := 0; ep_BlockGenerated := 0;
     ep_Status := EPOCH_SAVED; ep_Validators := ex_vals; ep_validatorVoteSet := None; ep_rs := None; ep_previousEpoch := None; ep_nextEpoch := None |}.

Definition ex_info_db : InfoDB :=
  SaveChainInfo ∅ {| ci_Core := info_of_key (replicate 32 1, str_bytes "ligo", 1, 10, 5, 9, [], 0, (None, None, None, None)); ci_Epoch := Some ex_side_epoch |}.

Definition ok_bytes (m : TM bytes) : bytes := match m with Ret (Ok b) => b | _ => [] end.
Definition ex_call (selector : bytes) (m : Method) (v : adenotes (m_Inputs m)) : TxTypes.Transaction :=
  {| tx_data := set_signature (tx_data (NewTransaction 3 Transaction.ChainContractMagicAddr (Some 500) 100000 (Some 2) (selector ++ ok_bytes (Arguments_Pack (m_Inputs m) v)))) 77 1 37;
     tx_from := None |}.

Definition ex_tx3 : TxTypes.Transaction := ex_call [0; 0; 0; 4] mWithdrawFromSideChain (str_bytes "ligo", tt).
Definition ex_tx4 : TxTypes.Transaction := ex_call [0; 0; 0; 5] mWithdrawFromMainChain (str_bytes "ligo", (500, (hash_tx ex_tx3, tt))).

Definition ex_side_txs : list TxTypes.Transaction := [ex_signed; ex_tx3].
Definition ex_side_header : Blocks.Header := set_TxHash (BlockExamples.ex_header [1]) (BlockExamples.ok_or [] (DeriveSha_txs ex_side_txs)).
Definition ex_side_block : Blocks.Block := {| b_header := ex_side_header; b_uncles := []; b_transactions := ex_side_txs |}.

Lemma ex_accepted : accepted ex_info_db ex_side_header ex_extra.
Proof. split; [by vm_compute..|]. right. by vm_compute. Qed.

Lemma ex_tx3_typed : tx_typed (tx_data ex_tx3).
Proof.
  unfold tx_typed, is_uint64. cbn [tx_data ex_tx3 ex_call set_signature NewTransaction newTransaction td_AccountNonce td_Price td_GasLimit td_Recipient td_Amount td_Payload td_V td_R td_S default].
  split_and!; try lia; try done.
  - intros a [= <-]. split; [|done]. apply (bool_decide_unpack _). by vm_compute.
  - apply (bool_decide_unpack _). by vm_compute.
Qed.

Lemma ex_side_txs_ok : txs_ok ex_side_txs /\ calls_ok ex_side_txs.
Proof.
  split; [split; [|by vm_compute]|].
  - repeat apply Forall_cons_2; try apply Forall_nil_2; split; try exact ex_signed_typed; try exact ex_tx3_typed; by vm_compute.
  - repeat apply Forall_cons_2; try apply Forall_nil_2; eexists; by vm_compute.
Qed.

Lemma ex_side_free : collision_free (in_play [items (tx_encs ex_side_txs)]).
Proof. apply cf_check_ok. by vm_compute. Qed.

Lemma ex_side_header_typed : header_typed ex_side_header.
Proof.
  unfold header_typed, is_uint64. split; [apply (bool_decide_unpack _); by vm_compute|]. split; [apply (bool_decide_unpack _); by vm_compute|].
  cbn [ex_side_header set_TxHash set_roots BlockExamples.ex_header hd_Difficulty hd_Number hd_GasLimit hd_GasUsed hd_Time hd_Extra hd_Nonce hd_MainChainNumber].
  split_and!; try done; try lia; apply (bool_decide_unpack _); by vm_compute.
Qed.

Lemma ex_side_block_ok : side_block ex_side_block.
Proof.
  destruct ex_side_txs_ok as [Ht Hc]. split; [exact ex_side_header_typed|exact Ht|exact Hc|exact ex_side_free|by vm_compute| |].
  - apply (bool_decide_unpack _). by vm_compute.
  - apply (bool_decide_unpack _). by vm_compute.
Qed.

Definition ex_pd : TX3ProofData :=
  match NewTX3ProofData ex_side_block with Ret (Ok pd) => pd | _ => {| pd_Header := ex_side_header; pd_TxIndexs := []; pd_TxProofs := [] |} end.
Definition ex_from : bytes := str_bytes "Lig" ++ replicate 14 65 ++ replicate 15 0.


(** The withdrawal forged into the header of the block. *)
Lemma forged_withdrawals_accepted_witness : exists root pd n, DeriveSha_txs [ex_signed; ex_tx3] = Ret root /\
    NewTX3ProofData {| b_header := set_TxHash (BlockExamples.ex_header [1]) root; b_uncles := []; b_transactions := ex_side_txs |} = Ret (Ok pd) /\
    pd_TxIndexs pd = [1] /\ ValidateTX3ProofData n ex_info_db pd = Some (Ret (Ok tt)).
Proof.
  destruct (forged_withdrawals_accepted ex_info_db (BlockExamples.ex_header [1]) ex_extra ex_side_txs) as (root & pd & n & H1 & H2 & H3 & H4).
  - split; [by vm_compute..|]. right. by vm_compute.
  - apply ex_side_txs_ok.
  - apply ex_side_txs_ok.
  - exact ex_side_free.
  - exists root, pd, (S n). split_and!; [exact H1|exact H2| |apply H4; lia]. rewrite H3. by vm_compute.
Defined.

End CrossChainExamples.
